(* ===== verification/_CoqProject ===== *)
-Q . S2P
Prelude.v
Ids.v
Storage.v
Slices.v
SearchIndex.v
Ring.v
PageInv.v
RingSpec.v
Usage.v
SlicedPool.v
Pool.v
StaticPool.v
SlicedPoolSpec.v
DeviceNum.v
ExclusivePool.v
ExclusivePoolSpec.v
PoolList.v
MemoryManagement.v
ManageSpec.v
System.v
Config.v
MemoryProps.v
PoolProps.v
FastMath.v
Tiling.v
GlobalOrder.v
SmAllocation.v
Hypercube.v
HypercubeProps.v
BlockCoverage.v
StageLayout.v
Ir.v
Visit.v
Processing.v
Cfg.v
Dominance.v
ListGraph.v
GraphPasses.v
GraphBuild.v
LivenessProps.v
PhiPlacement.v
VersionProps.v
SsaCoherence.v
SsaSem.v
SsaDemo.v
DeadCodeProps.v
BranchProps.v
GraphBuildProps.v
SplitEdges.v
LocalPasses.v
IrSem.v
OptProps.v
PassProps.v
ReduceProps.v
TunePlan.v
TuneSelect.v
PersistentCache.v
LocalTuner.v
LocalTunerSpec.v
Launch.v
MetaCompile.v
LaunchProps.v
LineSize.v
Contiguous.v
Random.v
MatmulConfig.v
GlobalMemory.v
StageLoad.v
StageLoadProps.v
Loops.v
RegisterTile.v
PartitionMatmul.v
SimpleMatmul.v
SimpleMatmulProps.v
SimpleOutput.v
SimpleSetup.v
SimpleBlock.v
MatmulLaunch.v
