(* ===== verification/Prelude.v ===== *)
(** * Verification of CubeCL

    CubeCL compiles kernels written in Rust for GPUs and CPUs and runs them.
    This library models, with definitions that can be evaluated, the parts of
    it that carry its own logic and proves what makes them correct:

    - the memory management of the runtime ([crates/cubecl-runtime/src/
      memory_management] and [storage]): handles with reference counts, the
      three kinds of memory pools, and the manager that dispatches to them;
    - the launch of a partitioned matrix multiplication ([crates/cubecl-matmul/
      src/components]): tiling, the plan of the launched grid, the traversal
      order of the cubes, and the layout of tiles in shared memory;
    - the simple matmul, from the setup to the values of the output: loading
      strategies, register tiles, partitions, cubes and their blocks;
    - the division by an invariant integer ([crates/cubecl-std/src/fast_math.rs]);
    - the intermediate representation ([crates/cubecl-ir/src]) with the
      processing of scopes, and the optimiser ([crates/cubecl-opt/src]): the
      parsing of scopes into the control-flow graph, liveness, the SSA transform,
      the passes that change the graph and the local ones;
    - the autotuner ([crates/cubecl-runtime/src/tune]) with its persistent cache
      ([crates/cubecl-common/src/cache.rs]);
    - the arguments of a launch and their metadata, from the host to the code
      each backend generates to read them ([crates/cubecl-core] and the
      compilers);
    - the library kernels for contiguous copies ([crates/cubecl-std/src/tensor/
      contiguous.rs]) and random tensors ([crates/cubecl-random]).

    ** How Rust is modelled

    A fallible function returns an [outcome]: a value, a panic with its
    message, or, for a loop run on fuel, [OutOfFuel].  Code that mutates its
    receiver takes and returns the state, through the state monad [M] of this
    file where several calls are chained.  Unsigned integers are [N] and signed
    ones [Z]; arithmetic of the host panics on overflow as in a build with
    overflow checks, arithmetic of the device wraps ([DeviceNum.v]).  Maps are
    [gmap]s; [f64] is the Standard Library's [spec_float] ([DeviceNum.v]).  The
    strong counts of [Arc]s and the global counters are an explicit [World]
    ([Ids.v]), so that sharing of handles is visible.

    ** Memory management

    - [Ids.v]: [id.rs], [memory_pool/handle.rs].  [World], [HandleRef], the
      handle, binding and their [can_mut], [is_free], clone and drop.
    - [Storage.v]: [storage/base.rs] as the class [ComputeStorage] with its
      laws [ComputeStorageSpec]; [storage/bytes_cpu.rs] is an instance.
    - [Slices.v], [SearchIndex.v], [Ring.v], [Usage.v]: [memory_pool/base.rs],
      the [Slice] of [sliced_pool.rs], [index.rs], [ring.rs] with the pages of
      [sliced_pool.rs], and the reports of [memory_management/base.rs].
    - [Pool.v]: the trait [MemoryPool] and [MemoryPoolSpec], what a pool
      promises to the manager.  [SlicedPool.v], [ExclusivePool.v] and
      [StaticPool.v] model the pools; [PageInv.v], [RingSpec.v],
      [SlicedPoolSpec.v] and [ExclusivePoolSpec.v] discharge the
      interface (tiling of the pages, exhaustive search, disjoint slices).
    - [MemoryManagement.v]: [memory_manage.rs] and the configurations of
      [memory_management/mod.rs]; [PoolList.v] and [ManageSpec.v] prove its
      invariant against the interface only; [Config.v] builds managers from
      configurations; [System.v] lets any number of clients reserve, clone,
      drop, bind, resolve and clean up in any order, as a step relation.

    Theorems: in every reachable state different live handles denote disjoint
    ranges of allocated storages (C1) that nobody else moves (C2); [reserve]
    serves a request that a pool accepts (C3), [get_resource] resolves exactly
    the requested part (C4), [can_mut] means unique ownership (C5); the
    [SubSlices] preset terminates and serves every size (C6); the search for
    free slices is exhaustive except for the page under the cursor (C7), and writes
    through a live allocation do not touch another one (C12); [PoolProps.v]
    also shows how the exclusive pool chooses and ages its pages, that the
    reports are consistent and that range queries of the index are exact.

    ** Arithmetic and the matrix multiplication

    - [FastMath.v]: [fast_math.rs] (C14).
    - [Tiling.v]: [size.rs], [ident.rs], [problem.rs],
      [tiling_scheme.rs]; the counts of the levels are products of their sizes.
    - [GlobalOrder.v], [SmAllocation.v], [Hypercube.v]: [batch/
      partitioned_matmul] with its [hypercube] directory.  [HypercubeProps.v]
      and [BlockCoverage.v] prove that allocations to
      multiprocessors and the spread plan are the best of their candidates, that the kernel recomputes the plan of the host, that
      every tensor position is visited by exactly one launched cube for every
      plan and traversal order (C19), and that every output element lies in
      exactly one block (C20).
    - [StageLayout.v]: [stage/memory/layout.rs], [stage_memory.rs], [tile/
      tile_data.rs]; the tiling orders are bijections (C21) and lines of
      different positions are different lines of the allocation (C22).

    ** The simple matmul

    A cube is the list of its units.  They run in phases that [sync_cube]
    separates: in a loading phase the writes of the units to the stages are
    applied in an order chosen by a [Schedule], in a compute phase the units
    only read the stages.  Elements and their operations are the class
    [MatmulPrecision], the contents of fresh memory the class [Uninit].  A read
    or write outside a buffer is a panic, although the kernels are launched
    without checks, so the theorems show that none happens.

    - [MatmulConfig.v]: the configurations and setups of the tile, stage and
      global levels, [resource.rs], [selection.rs] and the specialization of
      planes.  [GlobalMemory.v]: [global_memory/{reader,writer}.rs] and
      [quantization.rs], with the matrix a reader views.
    - [StageLoad.v]: the four synchronous strategies [sync_full_*.rs] and their
      loader; [StageLoadProps.v]: they fill the stage (C37).
    - [Loops.v]: loops that may fail, arrays and sums used by what follows.
    - [RegisterTile.v]: [tile/register/matmul.rs].
    - [PartitionMatmul.v]: [stage/matmul/partition/], [partitioned_matmul.rs],
      the readers and writers of a unit;
      both bufferings give the same result (C38).
    - [SimpleMatmul.v]: [global/single_stage/simple/], [execute_global_matmul]
      and [PartitionedBatchMatmul] with its configuration.  [SimpleMatmulProps.v] and [SimpleOutput.v] follow one block from the
      stages to the writes; [SimpleSetup.v] shows that an accepted setup has
      the properties they assume; [SimpleBlock.v] adds the
      batches, and [MatmulLaunch.v] joins the blocks of all cubes: the launch
      computes the product of the broadcast inputs (C39).

    ** Intermediate representation and passes

    - [Ir.v]: types, variables, constants, operations, instructions and the
      allocator of local variables.
    - [Processing.v]: scopes and branches ([branch.rs], [scope.rs]) and the
      processing of a scope ([processing.rs]): it returns and gives constant
      operands the type of the operation (C8), whose range they stay in (C15).
    - [LocalPasses.v]: [passes/{constant_prop,reduce_strength}.rs], on nodes as
      lists of instructions.
    - [IrSem.v]: a reference semantics of the integer and boolean
      instructions, one lane at a time, wrapped to the width of the type; the
      operations it does not interpret have an arbitrary meaning.
    - [OptProps.v], [PassProps.v], [ReduceProps.v]: the
      three passes preserve that meaning (C23, C24, C26) and constants of at
      most 32 bits are evaluated without panic (C25).

    ** Control-flow graph and SSA

    The graph is petgraph's, and the vector of the instructions of a block is
    the crate [stable-vec]'s: the classes [StableDiGraph] and [StableVec] of
    [Cfg.v], with the laws their documentation states ([StableDiGraphSpec] and
    [algorithms_ok] of [Dominance.v]).  Hash maps are iterated in any order
    ([HashOrder]).  [ListGraph.v] holds an instance that computes the post order
    and the dominators, at which the theorems are applied.

    - [Visit.v]: [instructions.rs], the visits of the variables of an
      instruction; which variables it reads and what a renaming does to it.
    - [Cfg.v]: [block.rs], the [Program] and the [Optimizer] of [lib.rs] as far
      as these files use them, [analyses/{base,post_order,dominance,liveness,
      writes}.rs], [phi_frontiers.rs] and [version.rs].
    - [Dominance.v]: walks and dominators.  [LivenessProps.v]: the liveness
      analysis returns and is exact for the operations (C11).
      [PhiPlacement.v]: phi nodes are placed exactly at the iterated dominance
      frontiers where the variable is live (C40).
    - [VersionProps.v]: the walk over the edges versions every block once for
      every way it is entered first, and its ghost state says which versions a
      block starts and ends with.  [SsaCoherence.v]: every predecessor of a
      block agrees on the versions of the variables without a phi node that are
      live there.
    - [SsaSem.v]: programs run block by block, with an arbitrary [Meaning] of
      the operations; after the transform every version is assigned once (C13)
      and the program does the same (C10).

    The hypotheses of C10 ([ssa_ready], [joins_reached]) exclude what the code
    gets wrong or does not see in parsed programs: conditions that only the
    branch reads, predecessors of joins that cannot be reached (the end of
    [SsaDemo.v] runs both), blocks that are their own successor, and stores of
    operations into versioned variables.

    - [GraphPasses.v]: [visit_all] of [block.rs] and the passes of
      [passes/{dead_code,expression_merge,inlined_if_to_select,composite}.rs].
      [DeadCodeProps.v] and [BranchProps.v]: removing unused variables keeps
      what the program does (C9), so does replacing the phi nodes of blocks
      with one predecessor (C33); a constant branch leaves the edge it takes
      (C16), and exactly the unreachable blocks are removed (C18).  The end of
      [BranchProps.v] runs the cases in which a pass changes the program.
    - [GraphBuild.v]: [control_flow.rs], [transformers.rs] and the parser of
      [lib.rs], up to the SSA transform of [run_opt].  Processors and
      transformers are classes, as in the source.  [GraphBuildProps.v]: the graph of
      a scope is well built (C17); a [Shape] is what the parser's steps change of
      the graph, and [grows] how the shape of a part of the program extends it.
      [SplitEdges.v]: splitting leaves no critical edge and keeps the graph well
      built, except that a loop names the old end of a split edge (C28).

    ** Autotuner

    - [TunePlan.v]: [tune/base.rs], the plan that hands out batches of tunables
      by priority; it hands out every tunable and stops
      (C27), in the order of the priorities.
    - [TuneSelect.v]: [tune_benchmark.rs], [operation.rs], the benchmarking half
      of [tuner.rs] and the statistics of [cubecl-common/src/benchmark.rs];
      what the device returns for each run is the parameter [Device].
      The selected operation is the fastest of those that
      ran (C29).
    - [PersistentCache.v]: [cache.rs] and [cache_file.rs] of cubecl-common, a
      file of entries that several processes append to; the JSON encoding is
      the class [Serde].  The caches refine one shared
      log with one value per key (C32) and reload what was inserted.
    - [LocalTuner.v]: [tune_cache.rs], the message half of [tuner.rs] and
      [local.rs].  A call is three steps, two critical sections and the
      benchmark between them, that calls of other threads interleave ([tstep]).
      It abstracts the state of one key to a small transition
      system and proves with [LocalTunerSpec.v] that the steps refine it: a key is tuned at most once (C30) and the result is used
      (C31).  The end of [LocalTunerSpec.v] holds the witnesses and what
      goes wrong after [clear].

    ** Launches

    - [Launch.v]: [codegen/metadata.rs], [compute/builder.rs], [compute/
      launcher.rs] and the launch arguments of tensors, arrays and tensor maps.
    - [MetaCompile.v]: how the C++, WGSL, SPIR-V and CPU compilers translate
      metadata operations, and what the emitted code reads.  [LaunchProps.v]:
      the kernel reads what the host wrote (C34).
    - [LineSize.v]: line sizes and cube counts of [cubecl-core/src/lib.rs].
    - [Contiguous.v]: [contiguous.rs];
      after the launch the output holds the elements of the input (C35).
    - [Random.v]: [cubecl-random]; every element is written
      with its own value of the streams (C36).

    ** Fuel and bounds

    Loops that do not recurse structurally run on fuel, and the theorems about
    them state that they return: the search in a chunk takes one step more
    than the page has slices ([fuel_for]); the loop of the [SubSlices] preset
    halves or quarters a 64-bit size ([sub_slices_fuel], 64); the halving loops
    of the spread heuristic work on 32-bit counts ([halving_fuel], 33); the
    divisors of a number are searched up to its square root (plus two); the
    recursion over the tiling levels has depth four; a tuning plan is taken in
    at most as many batches as it has entries plus one ([plan_fuel]); the
    synchronisation of a cache advances by at least one byte per entry; the
    loop that adjusts the elements per unit halves a number below 16, so eight
    rounds suffice; [gcd] runs one round more than its second argument; the liveness analysis
    looks at a block once at first and again when the set of a successor grows
    ([live_fuel]); the placement and the versioning enter every node at most
    once (the number of nodes); versions are [u16] and do not overflow if
    [ssa_budget] is at most 65535; the removal of unused variables needs a round
    for every instruction and phi node at most; the parser needs the depth of
    the scopes.  Sizes are assumed to fit
    their Rust type where a theorem says so.

    ** Not modelled

    Of the optimiser, the loop over the passes after the SSA transform, the
    copy propagation of arrays, value numbering, uniformity and the ranges of
    integers; what builds a scope.  Code that calls a driver or prints text (the rest of the CUDA, HIP, WebGPU,
    CPU and SPIR-V backends, the printing of the graph), the procedural macros and the frontend types that
    build IR, channels and servers, logging and configuration files, and of the
    matmuls the double-buffered, specialized, barrier and TMA variants, tiles on
    accelerators and partitions over planes, the loading of accumulators and
    the containers of the kernel arguments.  Memory models of concurrent
    device code and floating-point accuracy are outside the library; float
    functions of external crates, the JSON encoding, the generator that seeds
    random tensors and the behaviour of the benchmarked device are parameters.

    Candidates for extension, in this order: the partial loading strategies
    with the double-buffered matmul, value numbering, the ranges of integers,
    and the strategies of reductions. *)

From stdpp Require Export base gmap list strings fin_maps.
From stdpp Require Import sorting.
From Stdlib Require Export NArith ZArith Lia.

(** ** Outcomes of Rust code

    A Rust function either returns, panics (an [assert!], an [unwrap] of
    [None], an arithmetic overflow, ...), or, for loops modelled with fuel,
    exhausts its fuel. *)

Inductive outcome (A : Type) : Type :=
| Ret (a : A)
| Panic (msg : string)
| OutOfFuel.
Arguments Ret {A} _.
Arguments Panic {A} _.
Arguments OutOfFuel {A}.

Definition obind {A B : Type} (m : outcome A) (k : A → outcome B) : outcome B :=
  match m with
  | Ret a => k a
  | Panic msg => Panic msg
  | OutOfFuel => OutOfFuel
  end.

(** [Option::expect] / [Option::unwrap]. *)
Definition expect {A : Type} (o : option A) (msg : string) : outcome A :=
  match o with
  | Some a => Ret a
  | None => Panic msg
  end.

(** [assert!]. *)
Definition assert_ (b : bool) (msg : string) : outcome unit :=
  if b then Ret tt else Panic msg.

(** ** Stateful computations: a state monad over the outcomes. *)

Definition M (W A : Type) : Type := W → outcome (A * W).

Definition ret {W A : Type} (a : A) : M W A := λ w, Ret (a, w).

Definition bind {W A B : Type} (m : M W A) (k : A → M W B) : M W B :=
  λ w, match m w with
       | Ret (a, w') => k a w'
       | Panic msg => Panic msg
       | OutOfFuel => OutOfFuel
       end.

Definition lift {W A : Type} (o : outcome A) : M W A :=
  λ w, match o with
       | Ret a => Ret (a, w)
       | Panic msg => Panic msg
       | OutOfFuel => OutOfFuel
       end.

Definition get_state {W : Type} : M W W := λ w, Ret (w, w).
Definition modify_state {W : Type} (f : W → W) : M W unit := λ w, Ret (tt, f w).

Declare Scope rust_scope.
Delimit Scope rust_scope with rust.

Notation "'let!' x := m 'in' k" := (bind m (λ x, k))
  (at level 10, x name, m at level 200, k at level 200) : rust_scope.
Notation "'let!' ' p := m 'in' k" := (bind m (λ x, match x with p => k end))
  (at level 10, p pattern, m at level 200, k at level 200) : rust_scope.
Notation "'let?' x := m 'in' k" := (obind m (λ x, k))
  (at level 10, x name, m at level 200, k at level 200) : rust_scope.
Notation "'let?' ' p := m 'in' k" := (obind m (λ x, match x with p => k end))
  (at level 10, p pattern, m at level 200, k at level 200) : rust_scope.

Open Scope N_scope.
Open Scope rust_scope.

(** Total correctness: the computation returns, in a state satisfying [Q]. *)
Definition wp {W A : Type} (m : M W A) (w : W) (Q : A → W → Prop) : Prop :=
  match m w with
  | Ret (a, w') => Q a w'
  | _ => False
  end.

Definition returns {A : Type} (o : outcome A) (Q : A → Prop) : Prop :=
  match o with
  | Ret a => Q a
  | _ => False
  end.

Lemma wp_ret {W A} (a : A) (w : W) (Q : A → W → Prop) : Q a w → wp (ret a) w Q.
Proof. done. Qed.

Lemma wp_bind {W A B} (m : M W A) (k : A → M W B) (w : W) (Q : B → W → Prop) :
  wp m w (λ a w', wp (k a) w' Q) → wp (bind m k) w Q.
Proof. unfold wp, bind. by destruct (m w) as [[a w']| |]. Qed.

Lemma wp_mono {W A} (m : M W A) (w : W) (P Q : A → W → Prop) :
  wp m w P → (∀ a w', P a w' → Q a w') → wp m w Q.
Proof. unfold wp. destruct (m w) as [[a w']| |]; auto. Qed.

Lemma wp_lift {W A} (o : outcome A) (a : A) (w : W) (Q : A → W → Prop) :
  o = Ret a → Q a w → wp (lift o) w Q.
Proof. by intros ->. Qed.

Lemma wp_lift_returns {W A} (o : outcome A) (w : W) (Q : A → W → Prop) :
  returns o (λ a, Q a w) → wp (lift o) w Q.
Proof. by destruct o. Qed.

Lemma wp_get {W} (w : W) (Q : W → W → Prop) : Q w w → wp get_state w Q.
Proof. done. Qed.

Lemma wp_modify {W} (f : W → W) (w : W) (Q : unit → W → Prop) :
  Q tt (f w) → wp (modify_state f) w Q.
Proof. done. Qed.

Lemma wp_run {W A} (m : M W A) (w : W) (Q : A → W → Prop) :
  wp m w Q ↔ ∃ a w', m w = Ret (a, w') ∧ Q a w'.
Proof.
  unfold wp. split.
  - destruct (m w) as [[a w']| |]; naive_solver.
  - by intros (a & w' & -> & ?).
Qed.

Lemma returns_bind {A B} (m : outcome A) (k : A → outcome B) (Q : B → Prop) :
  returns m (λ a, returns (k a) Q) → returns (obind m k) Q.
Proof. by destruct m. Qed.

Lemma obind_ret {A B} (m : outcome A) (k : A → outcome B) r :
  obind m k = Ret r → ∃ a, m = Ret a ∧ k a = Ret r.
Proof. destruct m as [a| |]; cbn; naive_solver. Qed.

Lemma returns_run {A} (o : outcome A) (Q : A → Prop) :
  returns o Q ↔ ∃ a, o = Ret a ∧ Q a.
Proof.
  destruct o; split; try done; [by eexists|naive_solver|by intros (? & ? & _)|by intros (? & ? & _)].
Qed.

Lemma returns_mono {A} (o : outcome A) (P Q : A → Prop) :
  returns o P → (∀ a, P a → Q a) → returns o Q.
Proof. destruct o; naive_solver. Qed.

(** ** Machine integers

    [u32], [u64] and [usize] (64 bit) are binary naturals below their bound;
    the overflow-checked operations panic exactly where Rust's debug build
    does.  A theorem that a checked computation returns therefore also shows
    that the wrapping release build computes the same value. *)

Definition u8_max : N := 255.
Definition u32_max : N := 4294967295.
Definition u64_max : N := 18446744073709551615.
Definition usize_max : N := u64_max.

Definition checked_add (max a b : N) : outcome N :=
  if a + b <=? max then Ret (a + b) else Panic "attempt to add with overflow".
Definition checked_sub (a b : N) : outcome N :=
  if b <=? a then Ret (a - b) else Panic "attempt to subtract with overflow".
Definition checked_mul (max a b : N) : outcome N :=
  if a * b <=? max then Ret (a * b) else Panic "attempt to multiply with overflow".
Definition checked_rem (a b : N) : outcome N :=
  if b =? 0 then Panic "attempt to calculate the remainder with a divisor of zero"
  else Ret (a mod b).
Definition checked_div (a b : N) : outcome N :=
  if b =? 0 then Panic "attempt to divide by zero" else Ret (a / b).

(** [u64::next_multiple_of]: the smallest multiple of [b] that is at least [a]. *)
Definition next_multiple_of (max a b : N) : outcome N :=
  let? r := checked_rem a b in
  if r =? 0 then Ret a else checked_add max a (b - r).

(** [u32::div_ceil]. *)
Definition div_ceil (a b : N) : outcome N :=
  let? q := checked_div a b in
  let? r := checked_rem a b in
  if 0 <? r then Ret (q + 1) else Ret q.

Definition saturating_sub (a b : N) : N := a - b.
Definition saturating_mul (max a b : N) : N := N.min (a * b) max.

(** [is_power_of_two] and [trailing_zeros]. *)
Fixpoint pos_is_pow2 (p : positive) : bool :=
  match p with
  | xH => true
  | xO q => pos_is_pow2 q
  | xI _ => false
  end.
Definition is_power_of_two (n : N) : bool :=
  match n with
  | N0 => false
  | Npos p => pos_is_pow2 p
  end.

Fixpoint pos_trailing_zeros (p : positive) : N :=
  match p with
  | xO q => 1 + pos_trailing_zeros q
  | _ => 0
  end.
(** For zero the result is the bit width. *)
Definition trailing_zeros (width n : N) : N :=
  match n with
  | N0 => width
  | Npos p => pos_trailing_zeros p
  end.

(** ** Facts about the checked operations *)

Lemma checked_add_ok max a b : a + b ≤ max → checked_add max a b = Ret (a + b).
Proof. unfold checked_add. intros. by rewrite (proj2 (N.leb_le _ _)). Qed.

Lemma checked_sub_ok a b : b ≤ a → checked_sub a b = Ret (a - b).
Proof. unfold checked_sub. intros. by rewrite (proj2 (N.leb_le _ _)). Qed.

Lemma checked_mul_ok max a b : a * b ≤ max → checked_mul max a b = Ret (a * b).
Proof. unfold checked_mul. intros. by rewrite (proj2 (N.leb_le _ _)). Qed.

Lemma checked_rem_ok a b : b ≠ 0 → checked_rem a b = Ret (a mod b).
Proof. unfold checked_rem. intros. by rewrite (proj2 (N.eqb_neq _ _)). Qed.

Lemma checked_div_ok a b : b ≠ 0 → checked_div a b = Ret (a / b).
Proof. unfold checked_div. intros. by rewrite (proj2 (N.eqb_neq _ _)). Qed.

Lemma div_mod_ex a b :
  0 < b → ∃ q r, a / b = q ∧ a mod b = r ∧ a = q * b + r ∧ r < b.
Proof.
  intros Hb. exists (a / b), (a mod b). split_and!; [done|done| |apply N.mod_lt; lia].
  rewrite (N.mul_comm _ b). apply N.div_mod. lia.
Qed.

(** The least multiple of [b] that is at least [a]. *)
Definition round_up (a b : N) : N := (a + b - 1) / b * b.

Lemma round_up_spec a b :
  0 < b → (b | round_up a b) ∧ a ≤ round_up a b ∧ round_up a b < a + b.
Proof.
  intros Hb. unfold round_up. split; [by exists ((a + b - 1) / b)|].
  destruct (div_mod_ex (a + b - 1) b Hb) as (q & r & -> & _ & Heq & Hr). lia.
Qed.

Lemma multiples_below a b c : 0 < b → (b | a) → (b | c) → a < c → a + b ≤ c.
Proof.
  intros Hb [x ->] [y ->] Hlt. apply N.mul_lt_mono_pos_r in Hlt; [|done].
  assert ((x + 1) * b ≤ y * b) by (apply N.mul_le_mono_r; lia). lia.
Qed.

Lemma multiple_unique a b x y :
  0 < b → (b | x) → (b | y) → a ≤ x < a + b → a ≤ y < a + b → x = y.
Proof.
  intros Hb Hx Hy Hbx Hby.
  destruct (N.lt_trichotomy x y) as [H|[H|H]]; [|done|].
  - pose proof (multiples_below x b y Hb Hx Hy H). lia.
  - pose proof (multiples_below y b x Hb Hy Hx H). lia.
Qed.

Lemma mod_0_divide a b : 0 < b → a mod b = 0 ↔ (b | a).
Proof. intros Hb. apply N.Lcm0.mod_divide. Qed.

Lemma next_multiple_of_ok max a b :
  0 < b → round_up a b ≤ max → next_multiple_of max a b = Ret (round_up a b).
Proof.
  intros Hb Hmax. unfold next_multiple_of. rewrite checked_rem_ok by lia. simpl.
  destruct (round_up_spec a b Hb) as (Hdiv & Hge & Hlt).
  destruct (div_mod_ex a b Hb) as (q & r & _ & -> & Ha & Hr).
  destruct (N.eqb_spec r 0) as [H0|H0].
  - f_equal. apply (multiple_unique a b); [done|exists q; lia|done|lia|lia].
  - assert (a + (b - r) = round_up a b) as Heq.
    { apply (multiple_unique a b); [done|exists (q + 1); lia|done|lia|lia]. }
    rewrite checked_add_ok by lia. by rewrite Heq.
Qed.

(** The ceiling of the quotient. *)
Definition ceil_div (a b : N) : N := (a + b - 1) / b.

Lemma ceil_div_spec a b :
  0 < b → a ≤ ceil_div a b * b ∧ ceil_div a b * b < a + b.
Proof. intros Hb. destruct (round_up_spec a b Hb) as (_ & ?); unfold round_up, ceil_div in *. done. Qed.

Lemma ceil_div_unique a b q : 0 < b → a ≤ q * b → q * b < a + b → q = ceil_div a b.
Proof.
  intros Hb H1 H2. destruct (ceil_div_spec a b Hb) as [H3 H4].
  apply (N.mul_cancel_r q (ceil_div a b) b); [lia|].
  apply (multiple_unique a b); try done; by eexists.
Qed.

Lemma div_ceil_ok a b : 0 < b → div_ceil a b = Ret (ceil_div a b).
Proof.
  intros Hb. unfold div_ceil. rewrite checked_div_ok, checked_rem_ok by lia. simpl.
  destruct (div_mod_ex a b Hb) as (q & r & -> & -> & Ha & Hr).
  destruct (N.ltb_spec 0 r); f_equal; apply ceil_div_unique; lia.
Qed.

(** ** Lists *)

Lemma NoDup_fmap_snd_inj {A B} (l : list (A * B)) x y z : NoDup l.*2 → (x, z) ∈ l → (y, z) ∈ l → x = y.
Proof.
  intros Hl [i Hi]%list_elem_of_lookup [j Hj]%list_elem_of_lookup.
  assert (i = j) as <-; [|congruence].
  eapply (NoDup_lookup _ _ _ z Hl); rewrite list_lookup_fmap; by rewrite ?Hi, ?Hj.
Qed.
Lemma filter_all {A} (P : A → Prop) `{∀ x, Decision (P x)} (l : list A) : (∀ x, x ∈ l → P x) → filter P l = l.
Proof.
  induction l as [|x l IH]; intros HP; [done|]. rewrite filter_cons, decide_True by (apply HP; by left).
  f_equal. apply IH. intros y Hy. apply HP. by right.
Qed.

Lemma filter_same_length {A} (P : A → Prop) `{∀ x, Decision (P x)} (l : list A) :
  length (filter P l) = length l → filter P l = l.
Proof.
  induction l as [|x l IH]; intros Hl; [done|]. rewrite filter_cons in Hl |- *. pose proof (length_filter P l).
  destruct (decide (P x)); cbn in Hl; [|lia]. f_equal. apply IH. lia.
Qed.

Lemma filter_ext_in {A} (P Q : A → Prop) `{∀ x, Decision (P x), ∀ x, Decision (Q x)} (l : list A) :
  (∀ x, x ∈ l → P x ↔ Q x) → filter P l = filter Q l.
Proof.
  induction l as [|x l IH]; intros HP; [done|]. rewrite !filter_cons.
  rewrite IH by (intros y Hy; apply HP; by right). apply decide_ext, HP. by left.
Qed.

Lemma elem_of_concat {A} (ls : list (list A)) x : x ∈ concat ls ↔ ∃ l, l ∈ ls ∧ x ∈ l.
Proof.
  rewrite list_elem_of_In, in_concat. split; intros (l & H1 & H2); exists l; by rewrite ?list_elem_of_In in *.
Qed.

(** ** Stable sorting

    [slice::sort_by] and [sort_by_key] for keys that are natural numbers. *)

(** [sort_by] is stable: an element is inserted after those with an equal key. *)
Fixpoint insert_by {A} (key : A → N) (x : A) (l : list A) : list A :=
  match l with
  | [] => [x]
  | y :: l => if key y <=? key x then y :: insert_by key x l else x :: y :: l
  end.
Definition sort_by {A} (key : A → N) (l : list A) : list A := fold_left (λ acc x, insert_by key x acc) l [].

Section Sort.
Context {A : Type} (key : A → N).

Lemma insert_by_perm x l : insert_by key x l ≡ₚ x :: l.
Proof.
  induction l as [|y l IH]; [done|]. simpl. destruct (_ <=? _); [|done]. rewrite IH. apply Permutation_swap.
Qed.
Lemma sort_by_perm l : sort_by key l ≡ₚ l.
Proof.
  unfold sort_by. enough (∀ acc, fold_left (λ acc x, insert_by key x acc) l acc ≡ₚ acc ++ l) as H by apply H.
  induction l as [|x l IH]; intros acc; simpl; [by rewrite app_nil_r|]. rewrite IH, insert_by_perm.
  apply Permutation_middle.
Qed.

Definition key_le (x y : A) : Prop := key x ≤ key y.

Lemma insert_by_sorted x l : StronglySorted key_le l → StronglySorted key_le (insert_by key x l).
Proof.
  induction 1 as [|y l Hs IH Hy]; simpl; [repeat constructor|].
  destruct (N.leb_spec (key y) (key x)) as [Hle|Hlt].
  - constructor; [done|]. rewrite insert_by_perm. constructor; [done|done].
  - constructor; [by constructor|]. constructor; [unfold key_le; lia|].
    eapply Forall_impl; [done|]. unfold key_le. intros z Hz. simpl in Hz. lia.
Qed.
Lemma sort_by_sorted l : StronglySorted key_le (sort_by key l).
Proof.
  unfold sort_by. enough (∀ acc, StronglySorted key_le acc →
    StronglySorted key_le (fold_left (λ acc x, insert_by key x acc) l acc)) as H by (apply H; constructor).
  induction l as [|x l IH]; intros acc Hacc; simpl; [done|]. by apply IH, insert_by_sorted.
Qed.

(** The first element after sorting has the least key. *)
Lemma sort_by_head l x : head (sort_by key l) = Some x → x ∈ l ∧ ∀ y, y ∈ l → key x ≤ key y.
Proof.
  pose proof (sort_by_perm l) as Hp. pose proof (sort_by_sorted l) as Hs.
  destruct (sort_by key l) as [|z l'] eqn:Hl; [done|]. simpl. intros [= <-].
  apply StronglySorted_inv in Hs as [_ Hz]. rewrite Forall_forall in Hz. split.
  - rewrite <- Hp. by left.
  - intros y. rewrite <- Hp. intros [->|Hy]%elem_of_cons; [done|by apply Hz].
Qed.
Lemma sort_by_head_some l : l ≠ [] → ∃ x, head (sort_by key l) = Some x.
Proof.
  intros Hne. pose proof (sort_by_perm l) as Hp. destruct (sort_by key l) as [|x l']; [|by eexists].
  by apply Permutation_nil in Hp.
Qed.

(** Two sorted lists without repeated keys and with the same elements are
    equal. *)
Lemma sorted_unique l1 l2 :
  StronglySorted key_le l1 → StronglySorted key_le l2 → NoDup (key <$> l1) → l1 ≡ₚ l2 → l1 = l2.
Proof.
  revert l2. induction l1 as [|x l1 IH]; intros l2 H1 H2 Hn Hp; [by apply Permutation_nil_l in Hp|].
  destruct l2 as [|y l2]; [by apply Permutation_nil_r in Hp|].
  apply StronglySorted_inv in H1 as [H1 Hx]. apply StronglySorted_inv in H2 as [H2 Hy].
  rewrite Forall_forall in Hx, Hy. cbn in Hn. apply NoDup_cons in Hn as [Hk Hn].
  assert (x = y) as <-.
  { assert (y ∈ x :: l1) as Hyin by (rewrite Hp; by left). assert (x ∈ y :: l2) as Hxin by (rewrite <- Hp; by left).
    apply elem_of_cons in Hyin as [->|Hyin]; [done|]. apply elem_of_cons in Hxin as [->|Hxin]; [done|].
    destruct Hk. apply list_elem_of_fmap. exists y. split; [|done].
    pose proof (Hx y Hyin). pose proof (Hy x Hxin). unfold key_le in *. lia. }
  f_equal. apply IH; try done. by apply Permutation_cons_inv in Hp.
Qed.
Lemma sort_by_unique l l' :
  l ≡ₚ l' → StronglySorted key_le l' → NoDup (key <$> l') → sort_by key l = l'.
Proof.
  intros Hp Hs Hn. apply sorted_unique; [apply sort_by_sorted|done| |by rewrite sort_by_perm].
  by rewrite sort_by_perm, Hp.
Qed.
End Sort.

(** ** Automation *)

Create HintDb rust.
#[export] Hint Resolve wp_ret wp_get wp_modify checked_add_ok checked_sub_ok
  checked_mul_ok checked_rem_ok checked_div_ok : rust.

(** Push a weakest precondition through the primitive computations. *)
Ltac wp_step :=
  lazymatch goal with
  | |- wp (bind _ _) _ _ => apply wp_bind
  | |- wp (ret _) _ _ => apply wp_ret
  | |- wp get_state _ _ => apply wp_get
  | |- wp (modify_state _) _ _ => apply wp_modify
  | |- wp (lift (Ret _)) _ _ => eapply wp_lift; [reflexivity|]
  | |- wp (lift (checked_add _ _ _)) _ _ => eapply wp_lift; [apply checked_add_ok; try lia|]
  | |- wp (lift (checked_sub _ _)) _ _ => eapply wp_lift; [apply checked_sub_ok; try lia|]
  | |- wp (lift (expect (Some _) _)) _ _ => eapply wp_lift; [reflexivity|]
  | |- wp (lift (assert_ true _)) _ _ => eapply wp_lift; [reflexivity|]
  | H : ?o = Some _ |- wp (lift (expect ?o _)) _ _ => rewrite H
  end; cbv beta iota.
Ltac wp_steps := repeat wp_step.

Definition b2n (b : bool) : N := if b then 1 else 0.
