(* ===== verification/Ids.v ===== *)
(** * Identifiers and reference-counted handles

    Model of [crates/cubecl-runtime/src/id.rs] and of the handle types that
    [memory_pool/handle.rs] instantiates from its macros.

    The two [static COUNTER]s and the strong counts of the [Arc]s live in one
    explicit [World]: a [HandleRef] is a pair of [Arc]s, [id] and [all], and
    since every [HandleRef::new] creates both for a fresh id, the counts are
    indexed by that id. *)

From S2P Require Import Prelude.

Open Scope N_scope.
Open Scope rust_scope.

Record StorageId := mkStorageId { storage_value : N }.
Record SliceId := mkSliceId { slice_value : N }.

#[export] Instance StorageId_eq_dec : EqDecision StorageId.
Proof. solve_decision. Defined.
#[export] Instance StorageId_countable : Countable StorageId.
Proof. by apply (inj_countable' storage_value mkStorageId); intros []. Defined.
#[export] Instance SliceId_eq_dec : EqDecision SliceId.
Proof. solve_decision. Defined.
#[export] Instance SliceId_countable : Countable SliceId.
Proof. by apply (inj_countable' slice_value mkSliceId); intros []. Defined.

(** Strong counts of [HandleRef::id] and [HandleRef::all]. *)
Record ArcCounts := mkCounts { strong_id : N; strong_all : N }.

Record World := mkWorld {
  storage_counter : N;
  slice_counter : N;
  arcs : gmap SliceId ArcCounts
}.

Definition counts (w : World) (i : SliceId) : ArcCounts :=
  default (mkCounts 0 0) (arcs w !! i).

Definition set_counts (i : SliceId) (c : ArcCounts) (w : World) : World :=
  mkWorld (storage_counter w) (slice_counter w) (<[i := c]> (arcs w)).

(** [COUNTER.fetch_add(1, _)] wraps; the value [usize::MAX] panics. *)
Definition fetch_add (counter : N) : N := (counter + 1) mod (usize_max + 1).

(** [storage_id_type!]: [StorageId::new]. *)
Definition StorageId_new : M World StorageId :=
  let! w := get_state in
  let value := storage_counter w in
  let! _ := modify_state (λ w, mkWorld (fetch_add value) (slice_counter w) (arcs w)) in
  if value =? usize_max then lift (Panic "Memory ID overflowed")
  else ret (mkStorageId value).

(** [memory_id_type!]: [gen_id]. *)
Definition gen_id : M World N :=
  let! w := get_state in
  let value := slice_counter w in
  let! _ := modify_state (λ w, mkWorld (storage_counter w) (fetch_add value) (arcs w)) in
  if value =? usize_max then lift (Panic "Memory ID overflowed")
  else ret value.

Record HandleRef := mkHandleRef { href_id : SliceId }.
Record BindingRef := mkBindingRef { bref_id : SliceId }.

(** [HandleRef::new]: both [Arc]s start with one strong reference. *)
Definition HandleRef_new (id : SliceId) : M World HandleRef :=
  let! _ := modify_state (set_counts id (mkCounts 1 1)) in
  ret (mkHandleRef id).

(** The macro-generated handle [SliceHandle] wraps a [HandleRef<SliceId>]. *)
Definition SliceHandle : Type := HandleRef.
Definition SliceBinding : Type := BindingRef.

Definition SliceHandle_new : M World SliceHandle :=
  let! value := gen_id in
  HandleRef_new (mkSliceId value).

(** [Clone for HandleRef]: clones both [Arc]s. *)
Definition HandleRef_clone (h : HandleRef) : M World HandleRef :=
  let! _ := modify_state (λ w,
    let c := counts w (href_id h) in
    set_counts (href_id h) (mkCounts (strong_id c + 1) (strong_all c + 1)) w) in
  ret h.

(** Dropping a [HandleRef] drops both [Arc]s. *)
Definition HandleRef_drop (h : HandleRef) : M World unit :=
  modify_state (λ w,
    let c := counts w (href_id h) in
    set_counts (href_id h) (mkCounts (strong_id c - 1) (strong_all c - 1)) w).

(** [HandleRef::binding] consumes the handle: the [id] [Arc] is dropped, the
    [all] [Arc] moves into the binding. *)
Definition HandleRef_binding (h : HandleRef) : M World BindingRef :=
  let! _ := modify_state (λ w,
    let c := counts w (href_id h) in
    set_counts (href_id h) (mkCounts (strong_id c - 1) (strong_all c)) w) in
  ret (mkBindingRef (href_id h)).

Definition BindingRef_clone (b : BindingRef) : M World BindingRef :=
  let! _ := modify_state (λ w,
    let c := counts w (bref_id b) in
    set_counts (bref_id b) (mkCounts (strong_id c) (strong_all c + 1)) w) in
  ret b.

Definition BindingRef_drop (b : BindingRef) : M World unit :=
  modify_state (λ w,
    let c := counts w (bref_id b) in
    set_counts (bref_id b) (mkCounts (strong_id c) (strong_all c - 1)) w).

(** [can_mut]: one reference of the memory management and one of the tensor. *)
Definition HandleRef_can_mut (w : World) (h : HandleRef) : bool :=
  strong_id (counts w (href_id h)) <=? 2.

Definition HandleRef_is_free (w : World) (h : HandleRef) : bool :=
  strong_all (counts w (href_id h)) <=? 1.

(** ** The counting discipline

    [refs_ok w rid rall]: the strong counts of every id are what the
    bookkeeping functions say, and ids not handed out yet have no counts. *)

Definition refs := SliceId → N.
Definition add_ref (i : SliceId) (r : refs) : refs := λ j, r j + b2n (bool_decide (j = i)).
Definition sub_ref (i : SliceId) (r : refs) : refs := λ j, r j - b2n (bool_decide (j = i)).

Record refs_ok (w : World) (rid rall : refs) : Prop := {
  ro_id : ∀ i, strong_id (counts w i) = rid i;
  ro_all : ∀ i, strong_all (counts w i) = rall i;
  ro_fresh : ∀ i, slice_counter w ≤ slice_value i → rid i = 0 ∧ rall i = 0
}.

Lemma counts_set i c w j :
  counts (set_counts i c w) j = if bool_decide (j = i) then c else counts w j.
Proof.
  unfold counts, set_counts; simpl. case_bool_decide as Hj.
  - subst. by rewrite lookup_insert_eq.
  - by rewrite lookup_insert_ne by congruence.
Qed.

Lemma refs_ok_ext w rid rall rid' rall' :
  refs_ok w rid rall → (∀ i, rid i = rid' i) → (∀ i, rall i = rall' i) → refs_ok w rid' rall'.
Proof.
  intros [H1 H2 H3] E1 E2. split; intros; rewrite <- ?E1, <- ?E2; auto.
Qed.

Ltac refs_solve :=
  split; [intros j|intros j|intros j Hj];
  unfold add_ref, sub_ref, b2n; rewrite ?counts_set; simpl;
  repeat case_bool_decide; subst; simpl; auto; try lia.

Lemma wp_StorageId_new w (Q : StorageId → World → Prop) :
  storage_counter w < usize_max →
  Q (mkStorageId (storage_counter w))
    (mkWorld (storage_counter w + 1) (slice_counter w) (arcs w)) →
  wp StorageId_new w Q.
Proof.
  intros Hlt HQ. unfold StorageId_new. wp_steps. simpl.
  rewrite (proj2 (N.eqb_neq _ _)) by lia. wp_step.
  unfold fetch_add. rewrite N.mod_small by (unfold usize_max, u64_max in *; lia). done.
Qed.

(** A new handle has a fresh id and exactly one reference of each kind. *)
Lemma wp_SliceHandle_new w rid rall (Q : SliceHandle → World → Prop) :
  refs_ok w rid rall →
  slice_counter w < usize_max →
  (∀ w', let i := mkSliceId (slice_counter w) in
    refs_ok w' (add_ref i rid) (add_ref i rall) →
    rid i = 0 → rall i = 0 →
    slice_counter w' = slice_counter w + 1 →
    storage_counter w' = storage_counter w →
    Q (mkHandleRef i) w') →
  wp SliceHandle_new w Q.
Proof.
  intros [Hid Hall Hfr] Hlt HQ. unfold SliceHandle_new, gen_id, HandleRef_new.
  wp_steps. simpl. rewrite (proj2 (N.eqb_neq _ _)) by lia. wp_steps.
  destruct (Hfr (mkSliceId (slice_counter w))) as [Hz1 Hz2]; [simpl; lia|].
  unfold fetch_add. rewrite N.mod_small by (unfold usize_max, u64_max in *; lia).
  apply HQ; [|done|done|done|done].
  split.
  - intros j. rewrite counts_set. unfold add_ref. case_bool_decide; subst; simpl; [lia|].
    rewrite <- Hid. unfold counts; simpl. lia.
  - intros j. rewrite counts_set. unfold add_ref. case_bool_decide; subst; simpl; [lia|].
    rewrite <- Hall. unfold counts; simpl. lia.
  - intros j Hj. simpl in Hj. unfold add_ref.
    destruct (Hfr j) as [-> ->]; [lia|].
    case_bool_decide; subst; simpl in *; lia.
Qed.

Lemma wp_HandleRef_clone w h rid rall (Q : HandleRef → World → Prop) :
  refs_ok w rid rall →
  0 < rall (href_id h) →
  (∀ w', refs_ok w' (add_ref (href_id h) rid) (add_ref (href_id h) rall) →
    slice_counter w' = slice_counter w → storage_counter w' = storage_counter w → Q h w') →
  wp (HandleRef_clone h) w Q.
Proof.
  intros [Hid Hall Hfr] Hpos HQ. unfold HandleRef_clone. wp_steps. apply HQ; [|done|done].
  refs_solve.
  - rewrite Hid; lia.
  - rewrite Hid; lia.
  - rewrite Hall; lia.
  - rewrite Hall; lia.
  - destruct (Hfr (href_id h)) as [? ?]; [simpl in *; lia|]. lia.
  - destruct (Hfr j) as [? ?]; [simpl in *; lia|]. lia.
Qed.

Lemma wp_HandleRef_drop w h rid rall (Q : unit → World → Prop) :
  refs_ok w rid rall →
  (∀ w', refs_ok w' (sub_ref (href_id h) rid) (sub_ref (href_id h) rall) →
    slice_counter w' = slice_counter w → storage_counter w' = storage_counter w → Q tt w') →
  wp (HandleRef_drop h) w Q.
Proof.
  intros [Hid Hall Hfr] HQ. unfold HandleRef_drop. wp_steps. apply HQ; [|done|done].
  refs_solve.
  - by rewrite Hid.
  - rewrite Hid; lia.
  - by rewrite Hall.
  - rewrite Hall; lia.
  - destruct (Hfr (href_id h)) as [? ?]; [simpl in *; lia|]. lia.
  - destruct (Hfr j) as [? ?]; [simpl in *; lia|]. lia.
Qed.

Lemma is_free_refs w h rid rall :
  refs_ok w rid rall → HandleRef_is_free w h = (rall (href_id h) <=? 1).
Proof. intros [_ Hall _]. unfold HandleRef_is_free. by rewrite Hall. Qed.

Lemma wp_HandleRef_binding w h rid rall (Q : BindingRef → World → Prop) :
  refs_ok w rid rall →
  (∀ w', refs_ok w' (sub_ref (href_id h) rid) rall →
    slice_counter w' = slice_counter w → storage_counter w' = storage_counter w →
    Q (mkBindingRef (href_id h)) w') →
  wp (HandleRef_binding h) w Q.
Proof.
  intros [Hid Hall Hfr] HQ. unfold HandleRef_binding. wp_steps. apply HQ; [|done|done].
  split; [intros j|intros j|intros j Hj]; unfold sub_ref; rewrite ?counts_set.
  - case_bool_decide; subst; simpl; [by rewrite Hid|rewrite Hid; lia].
  - case_bool_decide; subst; simpl; by rewrite Hall.
  - destruct (Hfr j) as [-> ->]; [done|]. by case_bool_decide.
Qed.

Lemma wp_BindingRef_clone w b rid rall (Q : BindingRef → World → Prop) :
  refs_ok w rid rall → 0 < rall (bref_id b) →
  (∀ w', refs_ok w' rid (add_ref (bref_id b) rall) →
    slice_counter w' = slice_counter w → storage_counter w' = storage_counter w → Q b w') →
  wp (BindingRef_clone b) w Q.
Proof.
  intros [Hid Hall Hfr] Hpos HQ. unfold BindingRef_clone. wp_steps. apply HQ; [|done|done].
  split; [intros j|intros j|intros j Hj]; unfold add_ref; rewrite ?counts_set.
  - case_bool_decide; subst; simpl; by rewrite Hid.
  - case_bool_decide; subst; simpl; [by rewrite Hall|rewrite Hall; lia].
  - destruct (Hfr j) as [-> Hz]; [done|]. rewrite Hz. case_bool_decide; [subst; lia|done].
Qed.

Lemma wp_BindingRef_drop w b rid rall (Q : unit → World → Prop) :
  refs_ok w rid rall →
  (∀ w', refs_ok w' rid (sub_ref (bref_id b) rall) →
    slice_counter w' = slice_counter w → storage_counter w' = storage_counter w → Q tt w') →
  wp (BindingRef_drop b) w Q.
Proof.
  intros [Hid Hall Hfr] HQ. unfold BindingRef_drop. wp_steps. apply HQ; [|done|done].
  split; [intros j|intros j|intros j Hj]; unfold sub_ref; rewrite ?counts_set.
  - case_bool_decide; subst; simpl; by rewrite Hid.
  - case_bool_decide; subst; simpl; [by rewrite Hall|rewrite Hall; lia].
  - destruct (Hfr j) as [-> ->]; [done|]. by case_bool_decide.
Qed.
