(* ===== verification/Storage.v ===== *)
(** * Compute storages

    Model of [crates/cubecl-runtime/src/storage/base.rs] (handles and the
    [ComputeStorage] trait) and [storage/bytes_cpu.rs] (the CPU storage).

    The trait is the class [ComputeStorage]; [ComputeStorageSpec] states what
    the memory management relies on, and [BytesStorage] discharges it. *)

From S2P Require Import Prelude Ids.

Open Scope N_scope.
Open Scope rust_scope.

Record StorageUtilization := mkUtilization { util_offset : N; util_size : N }.

Record StorageHandle := mkStorageHandle {
  sh_id : StorageId;
  sh_utilization : StorageUtilization
}.

Definition sh_size (h : StorageHandle) : N := util_size (sh_utilization h).
Definition sh_offset (h : StorageHandle) : N := util_offset (sh_utilization h).

(** [StorageHandle::offset_start]. *)
Definition sh_offset_start (h : StorageHandle) (offset_bytes : N) : outcome StorageHandle :=
  let? offset := checked_add u64_max (sh_offset h) offset_bytes in
  let? size := checked_sub (sh_size h) offset_bytes in
  Ret (mkStorageHandle (sh_id h) (mkUtilization offset size)).

(** [StorageHandle::offset_end]. *)
Definition sh_offset_end (h : StorageHandle) (offset_bytes : N) : outcome StorageHandle :=
  let? size := checked_sub (sh_size h) offset_bytes in
  Ret (mkStorageHandle (sh_id h) (mkUtilization (sh_offset h) size)).

(** The trait [ComputeStorage]. *)
Class ComputeStorage (S : Type) := {
  Resource : Type;
  cs_alignment : S → N;
  cs_get : StorageHandle → S → outcome Resource;
  cs_alloc : N → S → M World (StorageHandle * S);
  cs_dealloc : StorageId → S → S
}.

(** What an implementation promises: [allocated] maps the live storage ids to
    the size of their allocation, [accepts] are the sizes the backend can
    allocate. *)
Class ComputeStorageSpec (S : Type) `{ComputeStorage S} := {
  allocated : S → gmap StorageId N;
  accepts : N → Prop;
  cs_alignment_pos : ∀ s, 0 < cs_alignment s;
  cs_alloc_ok : ∀ s size w,
    accepts size →
    storage_counter w < usize_max →
    ∃ s', cs_alloc size s w =
      Ret ((mkStorageHandle (mkStorageId (storage_counter w)) (mkUtilization 0 size), s'),
           mkWorld (storage_counter w + 1) (slice_counter w) (arcs w)) ∧
      allocated s' = <[mkStorageId (storage_counter w) := size]> (allocated s);
  cs_dealloc_ok : ∀ s id, allocated (cs_dealloc id s) = delete id (allocated s);
  cs_get_ok : ∀ s h n,
    allocated s !! sh_id h = Some n → sh_offset h + sh_size h ≤ n →
    ∃ r, cs_get h s = Ret r
}.

(** ** [BytesStorage]

    A block of host memory is the list of its bytes ([None]: not yet
    written).  [AllocatedBytes::ptr] is the base of a block owned by its
    storage id, so a raw pointer is that id, and dereferencing it after
    [dealloc] is an error of the model. *)

Record AllocatedBytes := mkAllocated { ab_block : list (option N); ab_layout : N }.
Record BytesStorage := mkBytesStorage { bs_memory : gmap StorageId AllocatedBytes }.
Record BytesResource := mkBytesResource { br_ptr : StorageId; br_utilization : StorageUtilization }.

Definition isize_max : N := 9223372036854775807.

(** [Layout::array::<u8>(n).unwrap()] fails above [isize::MAX]. *)
Definition Layout_array_u8 (n : N) : outcome N :=
  if n <=? isize_max then Ret n else Panic "called `Result::unwrap()` on an `Err` value".

Definition bytes_alignment (s : BytesStorage) : N := 4.

Definition bytes_get (h : StorageHandle) (s : BytesStorage) : outcome BytesResource :=
  let? _ := expect (bs_memory s !! sh_id h) "called `Option::unwrap()` on a `None` value" in
  Ret (mkBytesResource (sh_id h) (sh_utilization h)).

Definition bytes_alloc (size : N) (s : BytesStorage) : M World (StorageHandle * BytesStorage) :=
  let! id := StorageId_new in
  let handle := mkStorageHandle id (mkUtilization 0 size) in
  let! layout := lift (Layout_array_u8 size) in
  let memory := mkAllocated (replicate (N.to_nat size) None) layout in
  ret (handle, mkBytesStorage (<[id := memory]> (bs_memory s))).

Definition bytes_dealloc (id : StorageId) (s : BytesStorage) : BytesStorage :=
  match bs_memory s !! id with
  | Some _ => mkBytesStorage (delete id (bs_memory s))
  | None => s
  end.

(** [get_exact_location_and_length]: base block, start and length. *)
Definition get_exact_location_and_length (r : BytesResource) : StorageId * nat * nat :=
  (br_ptr r, N.to_nat (util_offset (br_utilization r)), N.to_nat (util_size (br_utilization r))).

Definition bytes_read (s : BytesStorage) (r : BytesResource) : outcome (list (option N)) :=
  let '(ptr, start, len) := get_exact_location_and_length r in
  let? b := expect (bs_memory s !! ptr) "dangling pointer" in
  if bool_decide (start + len ≤ length (ab_block b))%nat
  then Ret (take len (drop start (ab_block b)))
  else Panic "out of bounds of the allocation".

(** [write] hands out the slice; writing [data] over it stores the bytes. *)
Definition bytes_write (s : BytesStorage) (r : BytesResource) (data : list N) : outcome BytesStorage :=
  let '(ptr, start, len) := get_exact_location_and_length r in
  let? b := expect (bs_memory s !! ptr) "dangling pointer" in
  if bool_decide (start + len ≤ length (ab_block b) ∧ length data = len)%nat
  then Ret (mkBytesStorage (<[ptr := mkAllocated
         (take start (ab_block b) ++ (Some <$> data) ++ drop (start + len) (ab_block b))
         (ab_layout b)]> (bs_memory s)))
  else Panic "out of bounds of the allocation".

#[export] Instance BytesStorage_ComputeStorage : ComputeStorage BytesStorage := {
  Resource := BytesResource;
  cs_alignment := bytes_alignment;
  cs_get := bytes_get;
  cs_alloc := bytes_alloc;
  cs_dealloc := bytes_dealloc
}.

#[export] Program Instance BytesStorage_spec : ComputeStorageSpec BytesStorage := {
  allocated := λ s, ab_layout <$> bs_memory s;
  accepts := λ n, n ≤ isize_max
}.
Next Obligation. done. Qed.
Next Obligation.
  intros s size w Hacc Hw. simpl.
  assert (wp (bytes_alloc size s) w (λ r w', r = (mkStorageHandle (mkStorageId (storage_counter w))
    (mkUtilization 0 size), mkBytesStorage (<[mkStorageId (storage_counter w) :=
      mkAllocated (replicate (N.to_nat size) None) size]> (bs_memory s)))
    ∧ w' = mkWorld (storage_counter w + 1) (slice_counter w) (arcs w))) as Hwp.
  { unfold bytes_alloc. wp_step. apply wp_StorageId_new; [done|]. wp_step.
    unfold Layout_array_u8. rewrite (proj2 (N.leb_le _ _)) by done. wp_steps. done. }
  apply wp_run in Hwp as (r & w' & Hrun & -> & ->).
  eexists. split; [exact Hrun|]. simpl. by rewrite fmap_insert.
Qed.
Next Obligation.
  intros s id. simpl. unfold bytes_dealloc. destruct (bs_memory s !! id) eqn:E; simpl.
  - by rewrite fmap_delete.
  - rewrite delete_id; [done|]. by rewrite lookup_fmap, E.
Qed.
Next Obligation.
  intros s h n Hal Hle. simpl in *. rewrite lookup_fmap in Hal.
  unfold bytes_get. destruct (bs_memory s !! sh_id h); [|done]. simpl. eauto.
Qed.
