(* ===== verification/Slices.v ===== *)
(** * Slices of a page

    Model of [memory_pool/base.rs] ([Slice], [calculate_padding]) and of the
    [impl Slice] block at the end of [memory_pool/sliced_pool.rs]. *)

From S2P Require Import Prelude Ids Storage.

Open Scope N_scope.
Open Scope rust_scope.

Record Slice := mkSlice {
  sl_storage : StorageHandle;
  sl_handle : SliceHandle;
  sl_padding : N
}.

Definition Slice_is_free (w : World) (s : Slice) : bool := HandleRef_is_free w (sl_handle s).

Definition Slice_effective_size (s : Slice) : outcome N :=
  checked_add u64_max (sh_size (sl_storage s)) (sl_padding s).

Definition Slice_id (s : Slice) : SliceId := href_id (sl_handle s).

Definition calculate_padding (size buffer_alignment : N) : outcome N :=
  let? remainder := checked_rem size buffer_alignment in
  if negb (remainder =? 0) then checked_sub buffer_alignment remainder else Ret 0.

Definition set_utilization (s : Slice) (u : StorageUtilization) : Slice :=
  mkSlice (mkStorageHandle (sh_id (sl_storage s)) u) (sl_handle s) (sl_padding s).
Definition set_padding (s : Slice) (p : N) : Slice :=
  mkSlice (sl_storage s) (sl_handle s) p.

(** [Slice::split]: cuts the slice at [offset_slice]; the receiver is
    returned with the optional new slice. *)
Definition Slice_split (self : Slice) (offset_slice buffer_alignment : N)
  : M World (Slice * option Slice) :=
  let! eff := lift (Slice_effective_size self) in
  let! size_new := lift (checked_sub eff offset_slice) in
  let! offset_new := lift (checked_add u64_max (sh_offset (sl_storage self)) offset_slice) in
  let old_size := eff in
  let storage_new := mkStorageHandle (sh_id (sl_storage self)) (mkUtilization offset_new size_new) in
  let self := set_utilization self (mkUtilization (sh_offset (sl_storage self)) offset_slice) in
  let! r := lift (checked_rem offset_new buffer_alignment) in
  if negb (r =? 0) then lift (Panic "slice offset needs to be a multiple of the alignment") else
  let! handle := SliceHandle_new in
  if size_new <? buffer_alignment then
    let! p := lift (checked_sub old_size offset_slice) in
    let self := set_padding self p in
    let! e := lift (Slice_effective_size self) in
    let! _ := lift (assert_ (e =? old_size) "assertion failed: effective_size == old_size") in
    let! _ := HandleRef_drop handle in
    ret (self, None)
  else
    let! _ := lift (assert_ (buffer_alignment <=? size_new) "Size new > alignment") in
    let self := set_padding self 0 in
    let! d := lift (checked_sub size_new buffer_alignment) in
    let! padding := lift (calculate_padding d buffer_alignment) in
    ret (self, Some (mkSlice storage_new handle padding)).

Definition Slice_next_slice_position (s : Slice) : outcome N :=
  let? e := Slice_effective_size s in
  checked_add u64_max (sh_offset (sl_storage s)) e.

(** ** Specification-level sizes *)

Definition off (s : Slice) : N := sh_offset (sl_storage s).
Definition eff (s : Slice) : N := sh_size (sl_storage s) + sl_padding s.

Lemma eff_mk sid o n h p : eff (mkSlice (mkStorageHandle sid (mkUtilization o n)) h p) = n + p.
Proof. done. Qed.

Lemma off_mk sid o n h p : off (mkSlice (mkStorageHandle sid (mkUtilization o n)) h p) = o.
Proof. done. Qed.

Lemma calculate_padding_ok size A :
  0 < A → calculate_padding size A = Ret (round_up size A - size).
Proof.
  intros HA. unfold calculate_padding. rewrite checked_rem_ok by lia. simpl.
  destruct (round_up_spec size A HA) as (Hdiv & Hge & Hlt).
  destruct (div_mod_ex size A HA) as (q & r & _ & -> & Hs & Hr).
  assert (round_up size A = if r =? 0 then size else size + (A - r)) as ->.
  { destruct (N.eqb_spec r 0).
    - apply (multiple_unique size A); [done|done|exists q; lia|lia|lia].
    - apply (multiple_unique size A); [done|done|exists (q + 1); lia|lia|lia]. }
  destruct (N.eqb_spec r 0); simpl; [f_equal; lia|].
  rewrite checked_sub_ok by lia. f_equal. lia.
Qed.

(** A size plus its padding is the next multiple of the alignment. *)
Lemma padded_size size A :
  0 < A → size + (round_up size A - size) = round_up size A.
Proof. intros HA. destruct (round_up_spec size A HA) as (_ & ? & _). lia. Qed.

Lemma round_up_multiple a A : 0 < A → (A | a) → round_up a A = a.
Proof.
  intros HA Ha. destruct (round_up_spec a A HA) as (Hdiv & Hge & Hlt).
  apply (multiple_unique a A); try done; lia.
Qed.

Lemma effective_size_ok s : eff s ≤ u64_max → Slice_effective_size s = Ret (eff s).
Proof. apply checked_add_ok. Qed.

Lemma next_slice_position_ok s :
  off s + eff s ≤ u64_max → Slice_next_slice_position s = Ret (off s + eff s).
Proof.
  intros H. unfold Slice_next_slice_position. rewrite effective_size_ok by lia. simpl.
  by apply checked_add_ok.
Qed.

(** Cutting an aligned free slice at an aligned interior point yields two
    slices that tile it; the leftover branch of the code is never taken. *)
Lemma wp_Slice_split s size A w rid rall (Q : Slice * option Slice → World → Prop) :
  refs_ok w rid rall → slice_counter w < usize_max →
  0 < A → (A | off s) → (A | eff s) → (A | size) →
  size < eff s → off s + eff s ≤ u64_max →
  (∀ w', let j := mkSliceId (slice_counter w) in
    refs_ok w' (add_ref j rid) (add_ref j rall) → rid j = 0 → rall j = 0 →
    slice_counter w' = slice_counter w + 1 → storage_counter w' = storage_counter w →
    Q (mkSlice (mkStorageHandle (sh_id (sl_storage s)) (mkUtilization (off s) size)) (sl_handle s) 0,
       Some (mkSlice (mkStorageHandle (sh_id (sl_storage s))
                        (mkUtilization (off s + size) (eff s - size)))
                     (mkHandleRef j) 0)) w') →
  wp (Slice_split s size A) w Q.
Proof.
  intros Hrefs Hw HA Hoff Heff Hsize Hlt Hmax HQ. unfold Slice_split, set_padding, set_utilization.
  assert (A ≤ eff s - size) as Hrest.
  { pose proof (multiples_below size A (eff s) HA Hsize Heff Hlt). lia. }
  wp_step. eapply wp_lift; [apply effective_size_ok; lia|]. wp_steps.
  { unfold off in Hmax. lia. }
  fold (off s). eapply wp_lift; [apply checked_rem_ok; lia|].
  rewrite (proj2 (mod_0_divide (off s + size) A HA)) by (by apply N.divide_add_r).
  cbn [negb N.eqb]. wp_step. eapply wp_SliceHandle_new; [done|done|].
  intros w' j Hrefs' Hid Hall Hc Hst.
  rewrite (proj2 (N.ltb_ge _ _)) by lia. wp_step.
  rewrite (proj2 (N.leb_le _ _)) by lia. wp_steps.
  eapply wp_lift; [by apply calculate_padding_ok|]. wp_step.
  rewrite round_up_multiple, N.sub_diag; [by apply HQ|done|].
  apply N.divide_sub_r; [by apply N.divide_sub_r|done].
Qed.
