(* ===== verification/SearchIndex.v ===== *)
(** * The size index

    Model of [memory_pool/index.rs]: [SearchIndex] keeps, for every size, the
    items of that size in insertion order, and for every item its size. *)

From stdpp Require Import sorting.
From S2P Require Import Prelude.

Open Scope N_scope.

Section Index.
Context {T : Type} `{Countable T}.

Record SearchIndex := mkIndex {
  items_per_size : gmap N (list T);
  sizes_per_item : gmap T N
}.

Definition SearchIndex_new : SearchIndex := mkIndex ∅ ∅.

(** [values.iter().enumerate()] up to the first match, then [Vec::remove]. *)
Fixpoint remove_first (item : T) (values : list T) : list T :=
  match values with
  | [] => []
  | v :: rest => if decide (v = item) then rest else v :: remove_first item rest
  end.

Definition SearchIndex_remove (idx : SearchIndex) (item : T) : SearchIndex :=
  match sizes_per_item idx !! item with
  | None => idx
  | Some size =>
      mkIndex
        (match items_per_size idx !! size with
         | Some values => <[size := remove_first item values]> (items_per_size idx)
         | None => items_per_size idx
         end)
        (delete item (sizes_per_item idx))
  end.

Definition SearchIndex_insert (idx : SearchIndex) (item : T) (size : N) : SearchIndex :=
  let idx := SearchIndex_remove idx item in
  mkIndex
    (match items_per_size idx !! size with
     | Some values => <[size := values ++ [item]]> (items_per_size idx)
     | None => <[size := [item]]> (items_per_size idx)
     end)
    (<[item := size]> (sizes_per_item idx)).

(** [BTreeMap::range] iterates the keys of the range in increasing order. *)
Definition keys_in_range (m : gmap N (list T)) (lo hi : N) : list N :=
  merge_sort N.le (filter (λ k, lo ≤ k ∧ k < hi) (map_to_list m).*1).

Definition find_by_size (idx : SearchIndex) (lo hi : N) : list T :=
  mjoin ((λ k, default [] (items_per_size idx !! k)) <$> keys_in_range (items_per_size idx) lo hi).

(** ** Correctness *)

(** The two maps describe the same relation and no bucket has duplicates. *)
Record index_ok (idx : SearchIndex) : Prop := {
  ix_agree : ∀ item size, sizes_per_item idx !! item = Some size ↔
    ∃ values, items_per_size idx !! size = Some values ∧ item ∈ values;
  ix_nodup : ∀ size values, items_per_size idx !! size = Some values → NoDup values
}.

Lemma elem_of_remove_first x item values :
  NoDup values → x ∈ remove_first item values ↔ x ∈ values ∧ x ≠ item.
Proof.
  induction values as [|v rest IH]; simpl; intros Hnd.
  - rewrite elem_of_nil. tauto.
  - apply NoDup_cons in Hnd as [Hv Hnd]. specialize (IH Hnd).
    case_decide; rewrite !elem_of_cons; [|rewrite IH]; naive_solver.
Qed.

Lemma NoDup_remove_first item values : NoDup values → NoDup (remove_first item values).
Proof.
  induction values as [|v rest IH]; simpl; [done|]. intros Hnd.
  pose proof Hnd as Hnd'. apply NoDup_cons in Hnd as [Hv Hnd]. case_decide; [done|].
  apply NoDup_cons. split; [|auto]. rewrite elem_of_remove_first by done. tauto.
Qed.

Lemma index_ok_new : index_ok SearchIndex_new.
Proof.
  split; simpl; [|done]. intros item size. rewrite lookup_empty. split; [done|].
  intros (values & Hv & _). by rewrite lookup_empty in Hv.
Qed.

(** After [remove] only the removed item is gone. *)
Lemma index_remove_sizes idx item x :
  sizes_per_item (SearchIndex_remove idx item) !! x =
  if decide (x = item) then None else sizes_per_item idx !! x.
Proof.
  unfold SearchIndex_remove. destruct (sizes_per_item idx !! item) eqn:E; simpl;
    case_decide; subst; simplify_map_eq; auto.
Qed.

Lemma index_ok_remove idx item : index_ok idx → index_ok (SearchIndex_remove idx item).
Proof.
  intros [Hag Hnd]. split.
  - intros x n. rewrite index_remove_sizes. unfold SearchIndex_remove.
    destruct (sizes_per_item idx !! item) as [m|] eqn:E; simpl.
    + pose proof E as Hm. apply Hag in Hm as (values & Hv & Hin). rewrite Hv.
      destruct (decide (n = m)) as [->|Hne].
      * rewrite lookup_insert_eq. pose proof (Hnd _ _ Hv) as Hvnd. split.
        -- case_decide; [done|]. intros (v' & Hv' & Hin')%Hag. simplify_eq.
           eexists. split; [done|]. by apply elem_of_remove_first.
        -- intros (v' & [= <-] & [Hx Hne]%elem_of_remove_first); [|done].
           rewrite decide_False by done. apply Hag. eauto.
      * rewrite lookup_insert_ne by done. case_decide as Hx; [|apply Hag].
        split; [done|]. intros Hex. subst x. apply Hag in Hex. congruence.
    + case_decide as Hx; [|apply Hag]. split; [done|]. intros Hex. subst x.
      apply Hag in Hex. congruence.
  - intros n values. unfold SearchIndex_remove.
    destruct (sizes_per_item idx !! item) as [m|] eqn:E; simpl; [|by apply Hnd].
    destruct (items_per_size idx !! m) as [v|] eqn:Ev; [|by apply Hnd].
    intros [[<- <-]|[_ Hn]]%lookup_insert_Some; [|by eapply Hnd].
    by apply NoDup_remove_first, (Hnd m).
Qed.

Lemma index_insert_sizes idx item size x :
  sizes_per_item (SearchIndex_insert idx item size) !! x =
  if decide (x = item) then Some size else sizes_per_item idx !! x.
Proof.
  unfold SearchIndex_insert; simpl. case_decide as Hx.
  - subst. by rewrite lookup_insert_eq.
  - rewrite lookup_insert_ne by done. rewrite index_remove_sizes. by rewrite decide_False.
Qed.

Lemma index_ok_insert idx item size : index_ok idx → index_ok (SearchIndex_insert idx item size).
Proof.
  intros Hok. pose proof (index_ok_remove idx item Hok) as [Hag Hnd].
  assert (∀ n v, items_per_size (SearchIndex_remove idx item) !! n = Some v → item ∉ v) as Hfresh.
  { intros n v Hv Hin. assert (sizes_per_item (SearchIndex_remove idx item) !! item = Some n) as Hs
      by (apply Hag; eauto). rewrite index_remove_sizes, decide_True in Hs; done. }
  split.
  - intros x n. rewrite index_insert_sizes. unfold SearchIndex_insert; simpl.
    assert (x ≠ item → sizes_per_item idx !! x =
      sizes_per_item (SearchIndex_remove idx item) !! x) as Hx.
    { intros. by rewrite index_remove_sizes, decide_False. }
    destruct (items_per_size (SearchIndex_remove idx item) !! size) as [v|] eqn:Ev;
      destruct (decide (n = size)) as [->|Hne];
      rewrite ?lookup_insert_eq, ?lookup_insert_ne by done; case_decide as Hxi; subst.
    + split; [|done]. intros _. eexists. split; [done|]. apply elem_of_app. right. by left.
    + rewrite (Hx Hxi), Hag, Ev. split; intros (v' & [= <-] & Hin); eexists; (split; [done|]).
      * apply elem_of_app. by left.
      * by apply elem_of_app in Hin as [?|?%list_elem_of_singleton].
    + split; [congruence|]. intros (v' & Hv' & Hin). by destruct (Hfresh _ _ Hv').
    + by rewrite (Hx Hxi), Hag.
    + split; [|done]. intros _. eexists. split; [done|]. by left.
    + rewrite (Hx Hxi), Hag, Ev. split; intros (v' & [=] & Hin). subst v'.
      by apply list_elem_of_singleton in Hin.
    + split; [congruence|]. intros (v' & Hv' & Hin). by destruct (Hfresh _ _ Hv').
    + by rewrite (Hx Hxi), Hag.
  - intros n v. unfold SearchIndex_insert; simpl.
    destruct (items_per_size (SearchIndex_remove idx item) !! size) as [u|] eqn:Eu;
      intros [[<- <-]|[_ Hn]]%lookup_insert_Some; try by eapply Hnd.
    + apply NoDup_app. split; [by eapply Hnd|]. split; [|apply NoDup_singleton].
      intros y Hy ->%list_elem_of_singleton. by destruct (Hfresh _ _ Eu).
    + apply NoDup_singleton.
Qed.

(** [find_by_size] yields exactly the items whose size lies in the range. *)
Lemma elem_of_find_by_size idx lo hi item :
  index_ok idx →
  item ∈ find_by_size idx lo hi ↔
  ∃ size, sizes_per_item idx !! item = Some size ∧ lo ≤ size ∧ size < hi.
Proof.
  intros [Hag _]. unfold find_by_size, keys_in_range.
  rewrite list_elem_of_join. setoid_rewrite list_elem_of_fmap. split.
  - intros (l & Hin & (k & -> & Hk)). rewrite merge_sort_Permutation in Hk.
    apply list_elem_of_filter in Hk as [Hrange Hk].
    destruct (items_per_size idx !! k) as [v|] eqn:E; simpl in Hin; [|by apply not_elem_of_nil in Hin].
    exists k. split; [|done]. apply Hag. eauto.
  - intros (n & (v & Hv & Hin)%Hag & Hrange). exists v. split; [done|]. exists n.
    rewrite Hv. split; [done|]. rewrite merge_sort_Permutation.
    apply list_elem_of_filter. split; [done|]. apply list_elem_of_fmap.
    exists (n, v). split; [done|]. by apply elem_of_map_to_list.
Qed.
End Index.
Arguments SearchIndex T {_ _}.
