(* ===== verification/Ring.v ===== *)
(** * Memory pages and the ring buffer

    Model of [MemoryPage] of [memory_pool/sliced_pool.rs] and of
    [RingBuffer] of [memory_pool/ring.rs].

    A page maps offsets to slice ids; the slices themselves live in one map
    shared by all the pages of the pool.  The [while let] loop of
    [find_free_slice_in_chunk] runs on fuel; [fuel_for] gives one step more
    than the page has slices, which [find_in_chunk_spec] shows to be enough. *)

From S2P Require Import Prelude Ids Storage Slices.

Open Scope N_scope.
Open Scope rust_scope.

Record MemoryPage := mkPage { page_slices : gmap N SliceId }.

Definition find_slice (page : MemoryPage) (address : N) : option SliceId :=
  page_slices page !! address.

Definition insert_slice (page : MemoryPage) (address : N) (slice : SliceId) : MemoryPage :=
  mkPage (<[address := slice]> (page_slices page)).

Definition unwrap_msg : string := "called `Option::unwrap()` on a `None` value".

(** [slices.remove(&id)]: the removed slice is dropped with its handle. *)
Definition remove_slice (slices : gmap SliceId Slice) (id : SliceId)
  : M World (gmap SliceId Slice) :=
  match slices !! id with
  | Some s =>
      let! _ := HandleRef_drop (sl_handle s) in
      ret (delete id slices)
  | None => ret slices
  end.

Definition merge_with_next_slice (page : MemoryPage) (first_slice_address : N)
  (slices : gmap SliceId Slice) : M World (bool * MemoryPage * gmap SliceId Slice) :=
  let! first_slice_id := lift (expect (find_slice page first_slice_address)
    "merge_with_next_slice shouldn't be called with a nonexistent first_slice address") in
  let! first_slice := lift (expect (slices !! first_slice_id) unwrap_msg) in
  let! e := lift (Slice_effective_size first_slice) in
  let! next_slice_address := lift (checked_add u64_max first_slice_address e) in
  match find_slice page next_slice_address with
  | Some next_slice_id =>
      let! next_slice := lift (expect (slices !! next_slice_id) unwrap_msg) in
      let! next_slice_eff_size := lift (Slice_effective_size next_slice) in
      let! w := get_state in
      if Slice_is_free w next_slice then
        let first_slice_offset := sh_offset (sl_storage first_slice) in
        let! merged_size := lift (checked_add u64_max e next_slice_eff_size) in
        let first_slice :=
          set_padding (set_utilization first_slice
            (mkUtilization first_slice_offset merged_size)) 0 in
        let slices := <[first_slice_id := first_slice]> slices in
        let page := mkPage (delete next_slice_address (page_slices page)) in
        let! slices := remove_slice slices next_slice_id in
        ret (true, page, slices)
      else ret (false, page, slices)
  | None => ret (false, page, slices)
  end.

(** [StorageExclude]. *)
Record StorageExclude := mkExclude { ex_ids : gset StorageId }.
Definition exclude_storage (e : StorageExclude) (id : StorageId) : StorageExclude :=
  mkExclude ({[id]} ∪ ex_ids e).
Definition is_excluded (e : StorageExclude) (id : StorageId) : bool :=
  bool_decide (id ∈ ex_ids e).
Definition exclude_clear (e : StorageExclude) : StorageExclude := mkExclude ∅.
Definition exclude_count (e : StorageExclude) : nat := size (ex_ids e).

(** [exclude.is_some_and(|e| e.is_excluded(id))]. *)
Definition excluded_by (exclude : option StorageExclude) (id : StorageId) : bool :=
  match exclude with Some e => is_excluded e id | None => false end.

(** Chunk indices are positions in the [queue] vector. *)
Record RingBuffer := mkRing {
  ring_queue : list StorageId;
  ring_chunk_positions : gmap StorageId nat;
  ring_cursor_slice : N;
  ring_cursor_chunk : nat;
  ring_buffer_alignment : N
}.

Definition RingBuffer_new (buffer_alignment : N) : RingBuffer :=
  mkRing [] ∅ 0 0%nat buffer_alignment.

Definition set_cursor (r : RingBuffer) (chunk : nat) (slice : N) : RingBuffer :=
  mkRing (ring_queue r) (ring_chunk_positions r) slice chunk (ring_buffer_alignment r).

Definition push_page (r : RingBuffer) (storage_id : StorageId) : RingBuffer :=
  let queue := ring_queue r ++ [storage_id] in
  mkRing queue (<[storage_id := (length queue - 1)%nat]> (ring_chunk_positions r))
    (ring_cursor_slice r) (ring_cursor_chunk r) (ring_buffer_alignment r).

Definition fuel_for (page : MemoryPage) : nat := S (size (page_slices page)).

(** The body of the [while let]: [inl] continues with the next state, [inr]
    is the [return]. *)
Fixpoint find_free_slice_in_chunk (fuel : nat) (buffer_alignment size : N)
  (page : MemoryPage) (slices : gmap SliceId Slice) (slice_index : N)
  : M World (option (N * SliceId) * MemoryPage * gmap SliceId Slice) :=
  match fuel with
  | O => lift OutOfFuel
  | S fuel =>
      match find_slice page slice_index with
      | None => ret (None, page, slices)
      | Some slice_id =>
          let! slice := lift (expect (slices !! slice_id) unwrap_msg) in
          let! e := lift (Slice_effective_size slice) in
          let! w := get_state in
          let is_free := Slice_is_free w slice in
          if (size <=? e) && is_free then
            if size <? e then
              let! '(slice, new_slice) := Slice_split slice size buffer_alignment in
              let slices := <[slice_id := slice]> slices in
              match new_slice with
              | Some new_slice =>
                  let new_slice_id := Slice_id new_slice in
                  let! pos := lift (Slice_next_slice_position slice) in
                  let page := insert_slice page pos new_slice_id in
                  let slices := <[new_slice_id := new_slice]> slices in
                  ret (Some (slice_index, slice_id), page, slices)
              | None => ret (Some (slice_index, slice_id), page, slices)
              end
            else ret (Some (slice_index, slice_id), page, slices)
          else
            let! '(merged, page, slices) :=
              (if is_free then merge_with_next_slice page slice_index slices
               else ret (false, page, slices)) in
            if merged then
              find_free_slice_in_chunk fuel buffer_alignment size page slices slice_index
            else
              let! slice := lift (expect (slices !! slice_id)
                "current slice_id should still be valid after potential merge") in
              let! slice_index := lift (Slice_next_slice_position slice) in
              find_free_slice_in_chunk fuel buffer_alignment size page slices slice_index
      end
  end.

(** The [for chunk_index in start..end] loop. *)
Fixpoint all_chunks_loop (chunk_indices : list nat) (start : nat) (size : N)
  (exclude : option StorageExclude) (ring : RingBuffer) (pages : gmap StorageId MemoryPage)
  (slices : gmap SliceId Slice) (slice_index : N)
  : M World (option SliceId * RingBuffer * gmap StorageId MemoryPage * gmap SliceId Slice) :=
  match chunk_indices with
  | [] => ret (None, ring, pages, slices)
  | chunk_index :: rest =>
      let slice_index := if (start <? chunk_index)%nat then 0 else slice_index in
      let! '(found, ring', pages, slices) :=
        match ring_queue ring !! chunk_index with
        | Some id =>
            if negb (excluded_by exclude id) then
              let! chunk := lift (expect (pages !! id) unwrap_msg) in
              let! '(result, chunk, slices) :=
                find_free_slice_in_chunk (fuel_for chunk) (ring_buffer_alignment ring) size
                  chunk slices slice_index in
              let pages := <[id := chunk]> pages in
              match result with
              | Some (_, slice) =>
                  let! slice := lift (expect (slices !! slice) unwrap_msg) in
                  let! pos := lift (Slice_next_slice_position slice) in
                  ret (Some (Slice_id slice), set_cursor ring chunk_index pos, pages, slices)
              | None => ret (None, ring, pages, slices)
              end
            else ret (None, ring, pages, slices)
        | None => ret (None, ring, pages, slices)
        end in
      match found with
      | Some id => ret (Some id, ring', pages, slices)
      | None =>
          all_chunks_loop rest start size exclude (set_cursor ring chunk_index 0) pages slices
            slice_index
      end
  end.

Definition find_free_slice_in_all_chunks (ring : RingBuffer) (size : N)
  (pages : gmap StorageId MemoryPage) (slices : gmap SliceId Slice)
  (max_cursor_position : nat) (exclude : option StorageExclude)
  : M World (option SliceId * RingBuffer * gmap StorageId MemoryPage * gmap SliceId Slice) :=
  let start := ring_cursor_chunk ring in
  let end_ := Nat.min (length (ring_queue ring)) max_cursor_position in
  all_chunks_loop (seq start (end_ - start)) start size exclude ring pages slices
    (ring_cursor_slice ring).

Definition find_free_slice (ring : RingBuffer) (size : N)
  (pages : gmap StorageId MemoryPage) (slices : gmap SliceId Slice)
  (exclude : option StorageExclude)
  : M World (option SliceId * RingBuffer * gmap StorageId MemoryPage * gmap SliceId Slice) :=
  let max_second := ring_cursor_chunk ring in
  let! '(result, ring, pages, slices) :=
    find_free_slice_in_all_chunks ring size pages slices (length (ring_queue ring)) exclude in
  match result with
  | Some _ => ret (result, ring, pages, slices)
  | None =>
      find_free_slice_in_all_chunks (set_cursor ring 0 0) size pages slices max_second exclude
  end.
