(* ===== verification/PageInv.v ===== *)
(** * The tiling invariant of the sliced pool

    Every page is tiled by its slices: the slice at offset 0 exists, each
    slice ends where the next one starts or at the end of the page, and no
    two slices overlap.  The lemmas below show that the three ways in which
    the code rearranges a page (splitting a slice, merging it with its
    neighbour, changing the used part of a slice) keep the tiling. *)

From S2P Require Import Prelude Ids Storage Slices Ring.

Open Scope N_scope.

(** References of the pool itself plus those of everybody else. *)
Definition pool_refs (slices : gmap SliceId Slice) (c : refs) : refs :=
  λ i, b2n (bool_decide (is_Some (slices !! i))) + c i.

Section Tiling.
Context (A PS : N).

(** What the page map says about the slice [i] stored at offset [a]. *)
Record slice_at (sid : StorageId) (a : N) (i : SliceId) (s : Slice) : Prop := {
  sa_storage : sh_id (sl_storage s) = sid;
  sa_off : off s = a;
  sa_id : Slice_id s = i;
  sa_pos : 0 < eff s;
  sa_eff : (A | eff s);
  sa_aligned : (A | a);
  sa_end : a + eff s ≤ PS
}.

Record page_ok (sid : StorageId) (pg : gmap N SliceId) (slices : gmap SliceId Slice) : Prop := {
  po_start : is_Some (pg !! 0);
  po_entry : ∀ a i, pg !! a = Some i → ∃ s, slices !! i = Some s ∧ slice_at sid a i s;
  po_next : ∀ a i s, pg !! a = Some i → slices !! i = Some s →
    a + eff s = PS ∨ is_Some (pg !! (a + eff s));
  po_sep : ∀ a i s b j, pg !! a = Some i → slices !! i = Some s → pg !! b = Some j →
    a < b → a + eff s ≤ b
}.

Record pool_ok (pages : gmap StorageId MemoryPage) (slices : gmap SliceId Slice) : Prop := {
  pk_page : ∀ sid p, pages !! sid = Some p → page_ok sid (page_slices p) slices;
  pk_back : ∀ i s, slices !! i = Some s →
    ∃ p, pages !! sh_id (sl_storage s) = Some p ∧ page_slices p !! off s = Some i
}.

Lemma pool_entry pages slices sid p a i :
  pool_ok pages slices → pages !! sid = Some p → page_slices p !! a = Some i →
  ∃ s, slices !! i = Some s ∧ slice_at sid a i s.
Proof. intros [Hp _] Hs Ha. eapply po_entry; eauto. Qed.

(** The slice stored under an id knows its own place. *)
Lemma pool_slice pages slices i s :
  pool_ok pages slices → slices !! i = Some s →
  slice_at (sh_id (sl_storage s)) (off s) i s.
Proof.
  intros Hok Hs. destruct (pk_back _ _ Hok _ _ Hs) as (p & Hp & Ha).
  destruct (pool_entry _ _ _ _ _ _ Hok Hp Ha) as (s' & Hs' & Hat). by simplify_eq.
Qed.

Lemma entry_unique sid pg slices a b i :
  page_ok sid pg slices → pg !! a = Some i → pg !! b = Some i → a = b.
Proof.
  intros Hok Ha Hb.
  destruct (po_entry _ _ _ Hok _ _ Ha) as (s & Hs & Hat).
  destruct (po_entry _ _ _ Hok _ _ Hb) as (s' & Hs' & Hat'). simplify_eq.
  by rewrite <- (sa_off _ _ _ _ Hat), (sa_off _ _ _ _ Hat').
Qed.

Lemma page_ok_frame sid pg slices slices' :
  page_ok sid pg slices → (∀ a i, pg !! a = Some i → slices' !! i = slices !! i) →
  page_ok sid pg slices'.
Proof.
  intros [H1 H2 H3 H4] Hfr. split.
  - done.
  - intros a i Ha. rewrite (Hfr a i Ha). eauto.
  - intros a i s Ha Hs. rewrite (Hfr a i Ha) in Hs. eauto.
  - intros a i s b j Ha Hs. rewrite (Hfr a i Ha) in Hs. eauto.
Qed.

(** Reassemble the invariant after one page and its slices changed. *)
Lemma pool_ok_update pages slices slices' sid p p' :
  pool_ok pages slices → pages !! sid = Some p →
  page_ok sid (page_slices p') slices' →
  (∀ i s, slices !! i = Some s → sh_id (sl_storage s) ≠ sid → slices' !! i = Some s) →
  (∀ i s, slices' !! i = Some s →
    (sh_id (sl_storage s) ≠ sid ∧ slices !! i = Some s) ∨
    (sh_id (sl_storage s) = sid ∧ page_slices p' !! off s = Some i)) →
  pool_ok (<[sid := p']> pages) slices'.
Proof.
  intros Hok Hp Hpg Hother Hcase. split.
  - intros sid' q Hq. destruct (decide (sid = sid')) as [<-|Hne].
    + rewrite lookup_insert_eq in Hq. by simplify_eq.
    + rewrite lookup_insert_ne in Hq by done.
      eapply page_ok_frame; [eapply pk_page; eauto|].
      intros a i Ha. destruct (pool_entry _ _ _ _ _ _ Hok Hq Ha) as (s & Hs & Hat).
      rewrite Hs. apply Hother; [done|]. rewrite (sa_storage _ _ _ _ Hat). congruence.
  - intros i s Hs. destruct (Hcase _ _ Hs) as [[Hne Hs']|[Heq Ha]].
    + destruct (pk_back _ _ Hok _ _ Hs') as (q & Hq & Ha). exists q.
      by rewrite lookup_insert_ne by congruence.
    + exists p'. rewrite Heq. by rewrite lookup_insert_eq.
Qed.

(** ** Splitting a slice *)
Section Split.
Context (sid : StorageId) (pg : gmap N SliceId) (slices : gmap SliceId Slice)
  (a : N) (i j : SliceId) (s s1 s2 : Slice) (n : N).
Context (Hok : page_ok sid pg slices) (Ha : pg !! a = Some i) (Hs : slices !! i = Some s)
  (Hn : 0 < n) (Hlt : n < eff s) (Hj : slices !! j = None)
  (H1 : slice_at sid a i s1) (E1 : eff s1 = n)
  (H2 : slice_at sid (a + n) j s2) (E2 : eff s2 = eff s - n).

Lemma split_gap : pg !! (a + n) = None.
Proof.
  destruct (pg !! (a + n)) as [k|] eqn:E; [|done].
  pose proof (po_sep _ _ _ Hok _ _ _ _ _ Ha Hs E ltac:(lia)). lia.
Qed.

Lemma split_lookup b k :
  <[a + n := j]> pg !! b = Some k →
  (b = a + n ∧ k = j) ∨ (b = a ∧ k = i) ∨ (b ≠ a ∧ b ≠ a + n ∧ pg !! b = Some k ∧ k ≠ i ∧ k ≠ j).
Proof.
  intros Hb. destruct (decide (b = a + n)) as [->|Hne].
  { rewrite lookup_insert_eq in Hb. naive_solver. }
  rewrite lookup_insert_ne in Hb by done. right.
  destruct (decide (b = a)) as [->|Hne']; [left; naive_solver|right].
  split_and!; [done|done|done| |].
  - intros ->. apply Hne'. by eapply entry_unique.
  - intros ->. destruct (po_entry _ _ _ Hok _ _ Hb) as (? & ? & _). congruence.
Qed.

(** Looking up the slices after the split. *)
Lemma split_slices b k :
  <[a + n := j]> pg !! b = Some k →
  ∃ t, <[j := s2]> (<[i := s1]> slices) !! k = Some t ∧ slice_at sid b k t ∧
    ((b = a + n ∧ t = s2) ∨ (b = a ∧ t = s1) ∨
     (b ≠ a ∧ b ≠ a + n ∧ pg !! b = Some k ∧ slices !! k = Some t)).
Proof.
  intros Hb. destruct (split_lookup _ _ Hb) as [[-> ->]|[[-> ->]|(? & ? & Hk & ? & ?)]].
  - exists s2. rewrite lookup_insert_eq. naive_solver.
  - exists s1. rewrite lookup_insert_ne by congruence. rewrite lookup_insert_eq. naive_solver.
  - destruct (po_entry _ _ _ Hok _ _ Hk) as (t & Ht & Hat). exists t.
    rewrite !lookup_insert_ne by done. naive_solver.
Qed.

Lemma split_page_ok : page_ok sid (<[a + n := j]> pg) (<[j := s2]> (<[i := s1]> slices)).
Proof.
  assert (∀ b k t, pg !! b = Some k → slices !! k = Some t → b < a → b + eff t ≤ a) as Hbelow.
  { intros b k t Hb Ht ?. by eapply (po_sep _ _ _ Hok b). }
  assert (∀ b k, pg !! b = Some k → a < b → a + eff s ≤ b) as Habove.
  { intros b k Hb ?. by eapply (po_sep _ _ _ Hok a). }
  split.
  - rewrite lookup_insert_ne by lia. apply Hok.
  - intros b k Hb. destruct (split_slices _ _ Hb) as (t & ? & ? & _). eauto.
  - intros b k t Hb Ht. destruct (split_slices _ _ Hb) as (t' & Ht' & _ & Hc).
    assert (t' = t) as -> by congruence; clear Ht'.
    assert (∀ x, is_Some (pg !! x) → is_Some (<[a + n := j]> pg !! x)) as Hmono.
    { intros x Hx. by apply lookup_insert_is_Some'; right. }
    destruct Hc as [[-> ->]|[[-> ->]|(? & ? & Hk & Ht2)]].
    + rewrite E2. replace (a + n + (eff s - n)) with (a + eff s) by lia.
      destruct (po_next _ _ _ Hok _ _ _ Ha Hs); auto.
    + right. rewrite E1, lookup_insert_eq. by eexists.
    + destruct (po_next _ _ _ Hok _ _ _ Hk Ht2); auto.
  - intros b k t b' k' Hb Ht Hb' Hltb.
    destruct (split_slices _ _ Hb) as (t' & Ht' & _ & Hc).
    assert (t' = t) as -> by congruence; clear Ht'.
    destruct (split_lookup _ _ Hb') as [[-> ->]|[[-> ->]|(? & ? & Hk' & ? & ?)]];
      destruct Hc as [[-> ->]|[[-> ->]|(? & ? & Hk & Ht2)]]; try lia.
    + specialize (Hbelow _ _ _ Hk Ht2). specialize (Habove _ _ Hk). lia.
    + eauto.
    + specialize (Habove _ _ Hk'). lia.
    + specialize (Habove _ _ Hk'). lia.
    + by eapply (po_sep _ _ _ Hok b).
Qed.
End Split.

Lemma pool_split pages slices sid p a i j s s1 s2 n :
  pool_ok pages slices → pages !! sid = Some p → page_slices p !! a = Some i →
  slices !! i = Some s → 0 < n → n < eff s → slices !! j = None →
  slice_at sid a i s1 → eff s1 = n → slice_at sid (a + n) j s2 → eff s2 = eff s - n →
  pool_ok (<[sid := insert_slice p (a + n) j]> pages) (<[j := s2]> (<[i := s1]> slices)).
Proof.
  intros Hok Hp Ha Hs Hn Hlt Hj H1 E1 H2 E2.
  pose proof (pk_page _ _ Hok _ _ Hp) as Hpg.
  destruct (po_entry _ _ _ Hpg _ _ Ha) as (s' & Hs' & Hat). replace s' with s in * by congruence.
  eapply pool_ok_update; [done|done|by eapply split_page_ok| |].
  - intros k t Hk Hne. rewrite !lookup_insert_ne; [done| |]; intros <-; [|congruence].
    apply Hne. replace t with s by congruence. by apply Hat.
  - intros k t Hk. destruct (decide (k = j)) as [->|Hkj].
    { rewrite lookup_insert_eq in Hk. right. injection Hk as <-.
      rewrite (sa_storage _ _ _ _ H2), (sa_off _ _ _ _ H2). simpl. by rewrite lookup_insert_eq. }
    rewrite lookup_insert_ne in Hk by done. simpl. destruct (decide (k = i)) as [->|Hki].
    { rewrite lookup_insert_eq in Hk. right. injection Hk as <-.
      rewrite (sa_storage _ _ _ _ H1), (sa_off _ _ _ _ H1).
      by rewrite lookup_insert_ne by lia. }
    rewrite lookup_insert_ne in Hk by done.
    destruct (decide (sh_id (sl_storage t) = sid)) as [Hsid|]; [right|by left]. split; [done|].
    destruct (pk_back _ _ Hok _ _ Hk) as (q & Hq & Hb).
    rewrite Hsid in Hq. replace q with p in * by congruence.
    rewrite lookup_insert_ne; [done|]. intros Heq.
    pose proof (po_sep _ _ _ Hpg _ _ _ _ _ Ha Hs Hb ltac:(lia)). lia.
Qed.

(** ** Merging a slice with its neighbour *)
Section Merge.
Context (sid : StorageId) (pg : gmap N SliceId) (slices : gmap SliceId Slice)
  (a : N) (i j : SliceId) (s t s1 : Slice).
Context (Hok : page_ok sid pg slices) (Ha : pg !! a = Some i) (Hs : slices !! i = Some s)
  (Hb : pg !! (a + eff s) = Some j) (Ht : slices !! j = Some t)
  (H1 : slice_at sid a i s1) (E1 : eff s1 = eff s + eff t).

Lemma merge_distinct : 0 < eff s ∧ 0 < eff t ∧ i ≠ j.
Proof using Hok Ha Hs Hb Ht.
  clear E1 H1 s1.
  destruct (po_entry _ _ _ Hok _ _ Ha) as (s' & Hs' & Hat). replace s' with s in * by congruence.
  destruct (po_entry _ _ _ Hok _ _ Hb) as (t' & Ht' & Hbt). replace t' with t in * by congruence.
  pose proof (sa_pos _ _ _ _ Hat). pose proof (sa_pos _ _ _ _ Hbt). split_and!; [done|done|].
  intros ->. pose proof (entry_unique _ _ _ _ _ _ Hok Ha Hb). lia.
Qed.

Lemma merge_slices b k :
  delete (a + eff s) pg !! b = Some k →
  ∃ u, delete j (<[i := s1]> slices) !! k = Some u ∧ slice_at sid b k u ∧
    ((b = a ∧ u = s1) ∨ (b ≠ a ∧ b ≠ a + eff s ∧ pg !! b = Some k ∧ slices !! k = Some u)).
Proof.
  destruct merge_distinct as (Hps & Hpt & Hij). intros Hbk.
  apply lookup_delete_Some in Hbk as [Hne Hbk].
  destruct (decide (b = a)) as [->|Hba].
  - replace k with i in * by congruence. exists s1.
    rewrite lookup_delete_ne, lookup_insert_eq by done. auto.
  - destruct (po_entry _ _ _ Hok _ _ Hbk) as (u & Hu & Hat). exists u.
    assert (k ≠ i) by (intros ->; apply Hba; by eapply entry_unique).
    assert (k ≠ j) by (intros ->; apply Hne; by eapply entry_unique).
    rewrite lookup_delete_ne, lookup_insert_ne by done. split; [done|]. split; [done|].
    right. split_and!; auto.
Qed.

Lemma merge_page_ok : page_ok sid (delete (a + eff s) pg) (delete j (<[i := s1]> slices)).
Proof.
  destruct merge_distinct as (Hps & Hpt & Hij).
  assert (∀ b k u, pg !! b = Some k → slices !! k = Some u → b < a → b + eff u ≤ a) as Hbelow.
  { intros b k u Hbk Hu ?. by eapply (po_sep _ _ _ Hok b). }
  assert (∀ b k, pg !! b = Some k → a < b → b ≠ a + eff s → a + eff s + eff t ≤ b) as Habove.
  { intros b k Hbk ??. pose proof (po_sep _ _ _ Hok _ _ _ _ _ Ha Hs Hbk ltac:(lia)).
    eapply (po_sep _ _ _ Hok (a + eff s)); eauto. lia. }
  split.
  - rewrite lookup_delete_ne by lia. apply Hok.
  - intros b k Hbk. destruct (merge_slices _ _ Hbk) as (u & ? & ? & _). eauto.
  - intros b k u Hbk Hu. destruct (merge_slices _ _ Hbk) as (u' & Hu' & _ & Hc).
    assert (u' = u) as -> by congruence; clear Hu'.
    destruct Hc as [[-> ->]|(? & ? & Hk & Hu2)].
    + rewrite E1, N.add_assoc. rewrite lookup_delete_ne by lia.
      by apply (po_next _ _ _ Hok _ _ _ Hb Ht).
    + rewrite lookup_delete_ne; [by apply (po_next _ _ _ Hok _ _ _ Hk Hu2)|].
      destruct (N.lt_ge_cases b a) as [Hlt|Hge].
      * specialize (Hbelow _ _ _ Hk Hu2 Hlt). lia.
      * specialize (Habove _ _ Hk). lia.
  - intros b k u b' k' Hbk Hu Hbk' Hlt.
    destruct (merge_slices _ _ Hbk) as (u' & Hu' & _ & Hc).
    assert (u' = u) as -> by congruence; clear Hu'.
    destruct (merge_slices _ _ Hbk') as (v & _ & _ & Hc').
    destruct Hc as [[-> ->]|(? & ? & Hk & Hu2)]; destruct Hc' as [[-> ->]|(? & ? & Hk' & Hv2)].
    + lia.
    + specialize (Habove _ _ Hk'). lia.
    + eauto.
    + by eapply (po_sep _ _ _ Hok b).
Qed.
End Merge.

Lemma pool_merge pages slices sid p a i j s t s1 :
  pool_ok pages slices → pages !! sid = Some p → page_slices p !! a = Some i →
  slices !! i = Some s → page_slices p !! (a + eff s) = Some j → slices !! j = Some t →
  slice_at sid a i s1 → eff s1 = eff s + eff t →
  pool_ok (<[sid := mkPage (delete (a + eff s) (page_slices p))]> pages)
    (delete j (<[i := s1]> slices)).
Proof.
  intros Hok Hp Ha Hs Hb Ht H1 E1.
  pose proof (pk_page _ _ Hok _ _ Hp) as Hpg.
  assert (0 < eff s ∧ 0 < eff t ∧ i ≠ j) as (Hps & Hpt & Hij) by (by eapply merge_distinct).
  destruct (pool_entry _ _ _ _ _ _ Hok Hp Ha) as (s' & Hs' & Hat).
  destruct (pool_entry _ _ _ _ _ _ Hok Hp Hb) as (t' & Ht' & Hbt). simplify_eq.
  eapply pool_ok_update; [done|done|by eapply merge_page_ok| |].
  - intros k u Hk Hne.
    assert (k ≠ i) by (intros ->; apply Hne; simplify_eq; by apply Hat).
    assert (k ≠ j) by (intros ->; apply Hne; simplify_eq; by apply Hbt).
    by rewrite lookup_delete_ne, lookup_insert_ne by done.
  - intros k u Hk. apply lookup_delete_Some in Hk as [Hkj Hk]. simpl.
    destruct (decide (k = i)) as [->|Hki].
    + rewrite lookup_insert_eq in Hk. right. injection Hk as <-.
      rewrite (sa_storage _ _ _ _ H1), (sa_off _ _ _ _ H1).
      by rewrite lookup_delete_ne by lia.
    + rewrite lookup_insert_ne in Hk by done.
      destruct (decide (sh_id (sl_storage u) = sid)) as [Hsid|]; [right|by left].
      split; [done|]. destruct (pk_back _ _ Hok _ _ Hk) as (q & Hq & Hbu).
      rewrite Hsid in Hq. replace q with p in * by congruence.
      rewrite lookup_delete_ne; [done|]. intros Heq. congruence.
Qed.

(** ** Changing the used part of a slice *)
Lemma pool_resize pages slices i s s1 :
  pool_ok pages slices → slices !! i = Some s →
  sh_id (sl_storage s1) = sh_id (sl_storage s) → off s1 = off s →
  Slice_id s1 = Slice_id s → eff s1 = eff s →
  pool_ok pages (<[i := s1]> slices).
Proof.
  intros Hok Hs Hid Hoff Hsid Heff. split.
  - intros sid p Hp. destruct (pk_page _ _ Hok _ _ Hp) as [P1 P2 P3 P4].
    assert (∀ k u, <[i := s1]> slices !! k = Some u →
      ∃ u', slices !! k = Some u' ∧ eff u = eff u') as Heffs.
    { intros k u Hk. apply lookup_insert_Some in Hk as [[<- <-]|[_ Hk]]; eauto. }
    split; [done| | |].
    + intros a k Hk. destruct (P2 _ _ Hk) as (u & Hu & [Q1 Q2 Q3 Q4 Q5 Q6 Q7]).
      destruct (decide (i = k)) as [<-|Hne].
      * exists s1. rewrite lookup_insert_eq. simplify_eq.
        split; [done|]. split; congruence.
      * exists u. rewrite lookup_insert_ne by done. split; [done|]. by split.
    + intros a k u Hk Hu. destruct (Heffs _ _ Hu) as (u' & Hu' & ->). eauto.
    + intros a k u b k' Hk Hu. destruct (Heffs _ _ Hu) as (u' & Hu' & ->). eauto.
  - intros k u Hk. apply lookup_insert_Some in Hk as [[<- <-]|[_ Hk]].
    + rewrite Hid, Hoff. by apply (pk_back _ _ Hok).
    + by apply (pk_back _ _ Hok).
Qed.
(** ** Adding a page *)
Lemma pool_add_page pages slices slices' sid p :
  pool_ok pages slices → pages !! sid = None →
  page_ok sid (page_slices p) slices' → slices ⊆ slices' →
  (∀ i s, slices' !! i = Some s → slices !! i = Some s ∨
    (sh_id (sl_storage s) = sid ∧ page_slices p !! off s = Some i)) →
  pool_ok (<[sid := p]> pages) slices'.
Proof.
  intros Hok Hnew Hpg Hsub Hcase.
  assert (∀ i s, slices !! i = Some s → sh_id (sl_storage s) ≠ sid) as Hold.
  { intros i s Hs Heq. destruct (pk_back _ _ Hok _ _ Hs) as (q & Hq & _). congruence. }
  split.
  - intros sid' q Hq. destruct (decide (sid = sid')) as [<-|Hne].
    + rewrite lookup_insert_eq in Hq. by simplify_eq.
    + rewrite lookup_insert_ne in Hq by done.
      eapply page_ok_frame; [by eapply pk_page|]. intros a i Ha.
      destruct (pool_entry _ _ _ _ _ _ Hok Hq Ha) as (s & Hs & _).
      rewrite Hs. by eapply lookup_weaken.
  - intros i s Hs. destruct (Hcase _ _ Hs) as [Hs'|[<- Ha]].
    + destruct (pk_back _ _ Hok _ _ Hs') as (q & Hq & Ha). exists q.
      by rewrite lookup_insert_ne by (apply not_eq_sym; eauto).
    + exists p. by rewrite lookup_insert_eq.
Qed.

(** A fresh page is one slice, or a slice followed by the rest of the page. *)
Lemma page_ok_one sid i s slices :
  slice_at sid 0 i s → eff s = PS → slices !! i = Some s →
  page_ok sid {[0 := i]} slices.
Proof.
  intros Hat Heff Hs. split.
  - rewrite lookup_singleton_eq. by eexists.
  - intros a k [<- <-]%lookup_singleton_Some. eauto.
  - intros a k u [<- <-]%lookup_singleton_Some Hu. left. simplify_eq. lia.
  - intros a k u b k' [<- <-]%lookup_singleton_Some _ [<- <-]%lookup_singleton_Some. lia.
Qed.

Lemma page_ok_two sid i j s t slices :
  slice_at sid 0 i s → slice_at sid (eff s) j t → eff s + eff t = PS →
  slices !! i = Some s → slices !! j = Some t →
  page_ok sid (<[eff s := j]> {[0 := i]}) slices.
Proof.
  intros Hs Ht Heff Li Lj.
  pose proof (sa_pos _ _ _ _ Hs) as Hp. pose proof (sa_pos _ _ _ _ Ht) as Hq.
  assert (∀ a k, <[eff s := j]> ({[0 := i]} : gmap N SliceId) !! a = Some k →
    (a = eff s ∧ k = j) ∨ (a = 0 ∧ k = i)) as Hinv.
  { intros a k [[<- <-]|[_ [<- <-]%lookup_singleton_Some]]%lookup_insert_Some; auto. }
  split.
  - rewrite lookup_insert_ne, lookup_singleton_eq by lia. by eexists.
  - intros a k [[-> ->]|[-> ->]]%Hinv; eauto.
  - intros a k u [[-> ->]|[-> ->]]%Hinv Hu; simplify_eq; [left; lia|right].
    by rewrite N.add_0_l, lookup_insert_eq.
  - intros a k u b k' [[-> ->]|[-> ->]]%Hinv Hu [[-> ->]|[-> ->]]%Hinv Hlt; simplify_eq; lia.
Qed.
End Tiling.
