(* ===== verification/RingSpec.v ===== *)
(** * Correctness of the free-slice search

    The search of [RingBuffer] never panics, terminates within the fuel given
    to it, keeps the tiling of every page, never touches a slice somebody
    else references, and is exhaustive on the chunks it visits from their
    start. *)

From S2P Require Import Prelude Ids Storage Slices Ring PageInv.

Open Scope N_scope.

Ltac bool_cases :=
  repeat case_bool_decide; simpl; try lia;
  match goal with
  | H : is_Some None |- _ => by destruct H
  | H : ¬ is_Some (Some _) |- _ => by destruct H; eexists
  | _ => done
  end.

Lemma pool_refs_self slices i s c : slices !! i = Some s → pool_refs slices c i = 1 + c i.
Proof. intros H. unfold pool_refs. rewrite H. by rewrite bool_decide_eq_true_2. Qed.

Lemma pool_refs_none slices i c : slices !! i = None → pool_refs slices c i = c i.
Proof.
  intros H. unfold pool_refs. rewrite H, bool_decide_eq_false_2; [done|]. by intros [? ?].
Qed.

Lemma pool_refs_replace slices i s s1 c j :
  slices !! i = Some s → pool_refs (<[i := s1]> slices) c j = pool_refs slices c j.
Proof.
  intros Hs. unfold pool_refs. do 2 f_equal. apply bool_decide_ext.
  rewrite lookup_insert_is_Some. destruct (decide (i = j)) as [<-|]; [|naive_solver].
  split; [by eauto|auto].
Qed.

Lemma pool_refs_add slices i s c j :
  slices !! i = None → pool_refs (<[i := s]> slices) c j = add_ref i (pool_refs slices c) j.
Proof.
  intros Hs. unfold pool_refs, add_ref. destruct (decide (j = i)) as [->|Hne].
  - rewrite lookup_insert_eq, Hs. bool_cases.
  - rewrite lookup_insert_ne by done. rewrite (bool_decide_eq_false_2 (j = i)) by done. simpl. lia.
Qed.

Lemma pool_refs_delete slices i s c j :
  slices !! i = Some s → pool_refs (delete i slices) c j = sub_ref i (pool_refs slices c) j.
Proof.
  intros Hs. unfold pool_refs, sub_ref. destruct (decide (j = i)) as [->|Hne].
  - rewrite lookup_delete_eq, Hs. bool_cases.
  - rewrite lookup_delete_ne by done. rewrite (bool_decide_eq_false_2 (j = i)) by done. simpl. lia.
Qed.

Lemma add_ref_pos i r : 0 < add_ref i r i.
Proof. unfold add_ref. rewrite bool_decide_eq_true_2 by done. simpl. lia. Qed.

Lemma pool_refs_add_client slices i c j :
  add_ref i (pool_refs slices c) j = pool_refs slices (add_ref i c) j.
Proof. unfold add_ref, pool_refs. lia. Qed.

Lemma pool_refs_one slices i s c k :
  slices !! i = None →
  add_ref i (add_ref i (pool_refs slices c)) k = pool_refs (<[i := s]> slices) (add_ref i c) k.
Proof.
  intros Hi. pose proof (pool_refs_add slices i s (add_ref i c) k Hi) as H1.
  pose proof (pool_refs_add_client slices i c k) as H2. unfold add_ref in *. lia.
Qed.

Lemma pool_refs_two slices i j s t c k :
  slices !! i = None → slices !! j = None → i ≠ j →
  add_ref i (add_ref j (add_ref i (pool_refs slices c))) k =
  pool_refs (<[j := t]> (<[i := s]> slices)) (add_ref i c) k.
Proof.
  intros Hi Hj Hij. pose proof (pool_refs_one slices i s c k Hi) as H1.
  assert (<[i := s]> slices !! j = None) as Hj' by (by rewrite lookup_insert_ne by done).
  pose proof (pool_refs_add _ j t (add_ref i c) k Hj') as H2. unfold add_ref in *. lia.
Qed.

Lemma pool_refs_zero slices c i : pool_refs slices c i = 0 → slices !! i = None ∧ c i = 0.
Proof.
  unfold pool_refs. destruct (slices !! i) eqn:E; [|intros; split; [done|lia]].
  rewrite bool_decide_eq_true_2 by (by eexists). simpl. intros. exfalso. lia.
Qed.

(** The number of slices of the page from an offset on: the loop measure. *)
Definition above (pg : gmap N SliceId) (idx : N) : nat :=
  size (filter (λ kv : N * SliceId, idx ≤ kv.1) pg).

Lemma above_advance pg idx idx' i :
  pg !! idx = Some i → idx < idx' → (above pg idx' < above pg idx)%nat.
Proof.
  intros Hi Hlt. apply map_subset_size, map_subset_alt. split.
  - apply map_subseteq_spec. intros k x. rewrite !map_lookup_filter_Some. simpl. intros []. split; [done|lia].
  - exists idx. rewrite map_lookup_filter_None. split.
    + right. intros x _. simpl. lia.
    + exists i. by apply map_lookup_filter_Some.
Qed.

Lemma above_delete pg idx b j :
  pg !! b = Some j → idx ≤ b → (above (delete b pg) idx < above pg idx)%nat.
Proof.
  intros Hj Hle. unfold above. rewrite map_filter_delete.
  rewrite map_size_delete_Some by (exists j; by apply map_lookup_filter_Some).
  apply Nat.lt_pred_l, map_size_ne_0_lookup. exists b. exists j. by apply map_lookup_filter_Some.
Qed.

Lemma above_fuel page : (above (page_slices page) 0 < fuel_for page)%nat.
Proof.
  unfold above, fuel_for. apply Nat.lt_succ_r.
  apply map_subseteq_size, map_filter_subseteq.
Qed.

Lemma above_mono pg idx : (above pg idx ≤ above pg 0)%nat.
Proof.
  apply map_subseteq_size, map_subseteq_spec. intros k x. rewrite !map_lookup_filter_Some. simpl.
  intros []. split; [done|lia].
Qed.

Lemma free_iff cid call w slices i s :
  refs_ok w (pool_refs slices cid) (pool_refs slices call) →
  slices !! i = Some s → Slice_id s = i → Slice_is_free w s = (call i =? 0).
Proof.
  intros Hr Hs Hi. unfold Slice_is_free. rewrite (is_free_refs _ _ _ _ Hr).
  unfold Slice_id in Hi. rewrite Hi, (pool_refs_self _ _ _ _ Hs).
  destruct (N.eqb_spec (call i) 0) as [->|]; [done|]. apply N.leb_gt. lia.
Qed.

Section Scan.
Context (A PS : N) (cid call : refs) (HA : 0 < A) (HPS : PS ≤ u64_max).

(** What every step of a search guarantees about the pool. *)
Record scan_ok (pages : gmap StorageId MemoryPage) (slices : gmap SliceId Slice) (w : World)
  (pages' : gmap StorageId MemoryPage) (slices' : gmap SliceId Slice) (w' : World) : Prop := {
  sk_pool : pool_ok A PS pages' slices';
  sk_refs : refs_ok w' (pool_refs slices' cid) (pool_refs slices' call);
  sk_live : ∀ i s, slices !! i = Some s → 0 < call i → slices' !! i = Some s;
  sk_new : ∀ i, is_Some (slices' !! i) → is_Some (slices !! i) ∨ call i = 0;
  sk_dom : dom pages' = dom pages;
  sk_storage : storage_counter w' = storage_counter w
}.

Lemma scan_ok_refl pages slices w :
  pool_ok A PS pages slices → refs_ok w (pool_refs slices cid) (pool_refs slices call) →
  scan_ok pages slices w pages slices w.
Proof. split; auto. Qed.

Lemma scan_ok_trans p1 s1 w1 p2 s2 w2 p3 s3 w3 :
  scan_ok p1 s1 w1 p2 s2 w2 → scan_ok p2 s2 w2 p3 s3 w3 → scan_ok p1 s1 w1 p3 s3 w3.
Proof.
  intros [? ? L1 N1 D1 S1] [? ? L2 N2 D2 S2]. split; auto; [|by rewrite D2|by rewrite S2].
  intros i Hi. destruct (N2 i Hi); auto.
Qed.

(** ** [merge_with_next_slice] *)
Lemma wp_merge pages slices sid p a i s w (Q : bool * MemoryPage * gmap SliceId Slice → World → Prop) :
  pool_ok A PS pages slices → pages !! sid = Some p → page_slices p !! a = Some i →
  slices !! i = Some s → slice_at A PS sid a i s →
  refs_ok w (pool_refs slices cid) (pool_refs slices call) → call i = 0 →
  ((∀ j, page_slices p !! (a + eff s) = Some j → 0 < call j) → Q (false, p, slices) w) →
  (∀ j t s1 w',
    page_slices p !! (a + eff s) = Some j → i ≠ j → slices !! j = Some t →
    let p' := mkPage (delete (a + eff s) (page_slices p)) in
    let slices' := delete j (<[i := s1]> slices) in
    scan_ok pages slices w (<[sid := p']> pages) slices' w' →
    slice_counter w' = slice_counter w →
    Q (true, p', slices') w') →
  wp (merge_with_next_slice p a slices) w Q.
Proof.
  intros Hok Hp Ha Hs Hat Hrefs Hfree Hno Hyes. unfold merge_with_next_slice, find_slice.
  pose proof (sa_end _ _ _ _ _ _ Hat) as Hend.
  wp_steps. eapply wp_lift; [apply effective_size_ok; lia|]. wp_steps.
  destruct (page_slices p !! (a + eff s)) as [j|] eqn:Hb; [|by wp_step; apply Hno].
  destruct (pool_entry _ _ _ _ _ _ _ _ Hok Hp Hb) as (t & Ht & Hbt).
  pose proof (sa_end _ _ _ _ _ _ Hbt) as Hend2.
  assert (i ≠ j) as Hij by (by eapply merge_distinct; [eapply pk_page|..]).
  wp_steps. eapply wp_lift; [apply effective_size_ok; lia|]. wp_steps.
  rewrite (free_iff _ _ _ _ _ _ Hrefs Ht) by apply Hbt.
  destruct (N.eqb_spec (call j) 0) as [Hj|Hj]; [|wp_step; apply Hno; intros; simplify_eq; lia].
  wp_steps. unfold remove_slice, set_padding, set_utilization; simpl.
  rewrite lookup_insert_ne, Ht by done. wp_steps.
  eapply wp_HandleRef_drop; [exact Hrefs|]. intros w' Hrefs' Hc Hst. wp_step. apply (Hyes j t); [done|done|done| |done].
  assert (href_id (sl_handle t) = j) as Hjt by apply Hbt. rewrite Hjt in Hrefs'.
  split.
  - eapply pool_merge; eauto.
    + destruct Hat as [Q1 Q2 Q3 Q4 Q5 Q6 Q7]. split; simpl; auto.
      * rewrite eff_mk. lia.
      * rewrite eff_mk, N.add_0_r. apply N.divide_add_r; [done|apply Hbt].
      * rewrite eff_mk. lia.
    + rewrite eff_mk. lia.
  - eapply refs_ok_ext; [exact Hrefs'|..]; intros k;
      rewrite (pool_refs_delete _ _ t) by (by rewrite lookup_insert_ne by done);
      unfold sub_ref; by rewrite (pool_refs_replace _ _ _ _ _ _ Hs).
  - intros k u Hk Hlive. rewrite lookup_delete_ne, lookup_insert_ne; [done| |];
      intros <-; lia.
  - intros k [u Hu]. left. apply lookup_delete_Some in Hu as [_ Hu].
    apply lookup_insert_Some in Hu as [[<- _]|[_ Hu]]; eauto.
  - rewrite dom_insert_L. apply elem_of_dom_2 in Hp. set_solver.
  - done.
Qed.

(** ** [find_free_slice_in_chunk] *)

(** From [idx] on, no free slice of the page is large enough and no two
    neighbouring slices are both free: the page has no room for [size]. *)
Definition exhausted (size : N) (pg : gmap N SliceId) (slices : gmap SliceId Slice) (idx : N) : Prop :=
  ∀ b k u, idx ≤ b → pg !! b = Some k → slices !! k = Some u → call k = 0 →
    eff u < size ∧ ∀ j, pg !! (b + eff u) = Some j → 0 < call j.

Record scan_post (sid : StorageId) (size idx : N) (pages : gmap StorageId MemoryPage)
  (page : MemoryPage) (slices : gmap SliceId Slice) (w : World)
  (res : option (N * SliceId)) (page' : MemoryPage) (slices' : gmap SliceId Slice)
  (w' : World) : Prop := {
  sp_ok : scan_ok pages slices w (<[sid := page']> pages) slices' w';
  sp_below : ∀ b, b < idx → page_slices page' !! b = page_slices page !! b;
  sp_below_slices : ∀ b k, b < idx → page_slices page !! b = Some k → slices' !! k = slices !! k;
  sp_other : ∀ k u, slices !! k = Some u → sh_id (sl_storage u) ≠ sid → slices' !! k = Some u;
  sp_res : match res with
    | Some (a, i) => ∃ s, slices' !! i = Some s ∧ slice_at A PS sid a i s ∧
        page_slices page' !! a = Some i ∧ eff s = size ∧ call i = 0 ∧
        slice_counter w' ≤ slice_counter w + 1
    | None => slice_counter w' = slice_counter w ∧
        (idx = PS ∨ is_Some (page_slices page !! idx) →
         exhausted size (page_slices page') slices' idx)
    end
}.

(** Nothing to scan: the offset is past the last slice. *)
Lemma scan_stop sid size idx pages page slices w :
  pool_ok A PS pages slices → pages !! sid = Some page →
  refs_ok w (pool_refs slices cid) (pool_refs slices call) →
  page_slices page !! idx = None →
  scan_post sid size idx pages page slices w None page slices w.
Proof.
  intros Hok Hp Hrefs Hidx. split; [|done|done|done|].
  - rewrite insert_id by done. by apply scan_ok_refl.
  - split; [done|]. intros [->|[? ?]]; [|congruence]. intros b k u Hb Hk Hu _.
    destruct (pool_entry _ _ _ _ _ _ _ _ Hok Hp Hk) as (u' & Hu' & [? ? ? ? ? ? ?]). lia.
Qed.

(** The slice at [idx] was not usable: go on behind it. *)
Lemma scan_advance sid size idx pages page slices w i s res page' slices' w' :
  pool_ok A PS pages slices → pages !! sid = Some page →
  page_slices page !! idx = Some i → slices !! i = Some s →
  (call i = 0 → eff s < size ∧ ∀ j, page_slices page !! (idx + eff s) = Some j → 0 < call j) →
  scan_post sid size (idx + eff s) pages page slices w res page' slices' w' →
  scan_post sid size idx pages page slices w res page' slices' w'.
Proof.
  intros Hok Hp Hi Hs Hsmall [Pok Pbelow Pslices Pother Pres].
  pose proof (pk_page _ _ _ _ Hok _ _ Hp) as Hpg.
  destruct (pool_entry _ _ _ _ _ _ _ _ Hok Hp Hi) as (s' & Hs' & Hat). simplify_eq.
  pose proof (sa_pos _ _ _ _ _ _ Hat) as Hpos.
  split; [done| | |done|].
  - intros b Hb. apply Pbelow. lia.
  - intros b k Hb. apply Pslices. lia.
  - destruct res as [[a k]|]; [done|]. destruct Pres as [Hc Pex]. split; [done|]. intros _.
    assert (idx + eff s = PS ∨ is_Some (page_slices page !! (idx + eff s))) as Hnext
      by (by eapply po_next).
    specialize (Pex Hnext). intros b k u Hb Hk Hu Hfree.
    destruct (N.lt_ge_cases b (idx + eff s)) as [Hlt|Hge]; [|by eapply Pex].
    pose proof Hk as Hk'. rewrite Pbelow in Hk' by done.
    assert (b = idx) as ->.
    { destruct (N.eq_dec b idx) as [|Hne]; [done|].
      pose proof (po_sep _ _ _ _ _ Hpg _ _ _ _ _ Hi Hs Hk' ltac:(lia)). lia. }
    assert (k = i) as -> by congruence.
    rewrite (Pslices idx i) in Hu by (done || lia). assert (u = s) as -> by congruence.
    destruct (Hsmall Hfree) as [Hsz Hnb]. split; [done|]. intros j Hj.
    pose proof (sk_pool _ _ _ _ _ _ Pok) as Hok'.
    destruct Hnext as [HPSe|[j0 Hj0]].
    { destruct (pool_entry _ _ _ _ _ _ _ _ Hok' (lookup_insert_eq _ _ _) Hj) as (t & _ & []). lia. }
    specialize (Hnb _ Hj0). destruct (pool_entry _ _ _ _ _ _ _ _ Hok Hp Hj0) as (t & Ht & Htat).
    pose proof (sk_live _ _ _ _ _ _ Pok _ _ Ht Hnb) as Ht'.
    destruct (pk_back _ _ _ _ Hok' _ _ Ht') as (q & Hq & Hback).
    rewrite (sa_storage _ _ _ _ _ _ Htat), lookup_insert_eq in Hq. injection Hq as <-.
    rewrite (sa_off _ _ _ _ _ _ Htat) in Hback. by replace j with j0 by congruence.
Qed.

(** The slice at [idx] absorbed its neighbour: look at it again. *)
Lemma scan_merged sid size idx pages page slices w i s j t s1 w1 res page' slices' w' :
  pool_ok A PS pages slices → pages !! sid = Some page →
  page_slices page !! idx = Some i → slices !! i = Some s →
  page_slices page !! (idx + eff s) = Some j → i ≠ j → slices !! j = Some t →
  let page1 := mkPage (delete (idx + eff s) (page_slices page)) in
  let slices1 := delete j (<[i := s1]> slices) in
  scan_ok pages slices w (<[sid := page1]> pages) slices1 w1 →
  slice_counter w1 = slice_counter w →
  scan_post sid size idx (<[sid := page1]> pages) page1 slices1 w1 res page' slices' w' →
  scan_post sid size idx pages page slices w res page' slices' w'.
Proof.
  intros Hok Hp Hi Hs Hj Hij Ht page1 slices1 Hscan Hc [Pok Pbelow Pslices Pother Pres].
  pose proof (pk_page _ _ _ _ Hok _ _ Hp) as Hpg.
  destruct (pool_entry _ _ _ _ _ _ _ _ Hok Hp Hi) as (s' & Hs' & Hat). simplify_eq.
  pose proof (sa_pos _ _ _ _ _ _ Hat) as Hpos.
  split.
  - rewrite insert_insert_eq in Pok. by eapply scan_ok_trans.
  - intros b Hb. rewrite Pbelow by done. simpl. by rewrite lookup_delete_ne by lia.
  - intros b k Hb Hk. rewrite (Pslices b k); [|done|simpl; by rewrite lookup_delete_ne by lia].
    unfold slices1. rewrite lookup_delete_ne, lookup_insert_ne; [done| |]; intros <-.
    + pose proof (entry_unique _ _ _ _ _ _ _ _ Hpg Hi Hk). lia.
    + pose proof (entry_unique _ _ _ _ _ _ _ _ Hpg Hj Hk). lia.
  - intros k u Hk Hne. apply Pother; [|done]. unfold slices1.
    destruct (pool_entry _ _ _ _ _ _ _ _ Hok Hp Hj) as (t' & Ht' & Hjt). simplify_eq.
    rewrite lookup_delete_ne, lookup_insert_ne; [done| |]; intros <-; apply Hne; simplify_eq.
    + apply Hat.
    + apply Hjt.
  - destruct res as [[a k]|].
    + destruct Pres as (u & ? & ? & ? & ? & ? & ?). exists u. split_and!; auto. lia.
    + rewrite Hc in Pres. destruct Pres as [? Pex]. split; [done|]. intros _. apply Pex.
      right. simpl. rewrite lookup_delete_ne by lia. eauto.
Qed.

(** The slice at [idx] is free and larger than needed: cut it. *)
Lemma scan_split sid size idx pages page slices w i j s w' :
  pool_ok A PS pages slices → pages !! sid = Some page →
  page_slices page !! idx = Some i → slices !! i = Some s → slice_at A PS sid idx i s →
  call i = 0 → 0 < size → size < eff s → (A | size) → slices !! j = None → call j = 0 →
  refs_ok w' (add_ref j (pool_refs slices cid)) (add_ref j (pool_refs slices call)) →
  slice_counter w' = slice_counter w + 1 → storage_counter w' = storage_counter w →
  scan_post sid size idx pages page slices w (Some (idx, i)) (insert_slice page (idx + size) j)
    (<[j := mkSlice (mkStorageHandle sid (mkUtilization (idx + size) (eff s - size))) (mkHandleRef j) 0]>
      (<[i := mkSlice (mkStorageHandle sid (mkUtilization idx size)) (sl_handle s) 0]> slices)) w'.
Proof.
  intros Hok Hp Hi Hs [Q1 Q2 Q3 Q4 Q5 Q6 Q7] Hfree Hsz Hlt HAsz Hjn Hj0 Hrefs' Hc Hst.
  assert (i ≠ j) as Hij by congruence.
  assert (slice_at A PS sid idx i
    (mkSlice (mkStorageHandle sid (mkUtilization idx size)) (sl_handle s) 0)) as Hat1.
  { split; rewrite ?off_mk, ?eff_mk, ?N.add_0_r; auto; lia. }
  assert (slice_at A PS sid (idx + size) j (mkSlice (mkStorageHandle sid
    (mkUtilization (idx + size) (eff s - size))) (mkHandleRef j) 0)) as Hat2.
  { split; rewrite ?off_mk, ?eff_mk, ?N.add_0_r; auto; try lia.
    - by apply N.divide_sub_r.
    - by apply N.divide_add_r. }
  split; simpl.
  - split; [| | | | |done].
    + eapply pool_split; eauto; rewrite eff_mk; lia.
    + eapply refs_ok_ext; [exact Hrefs'|..]; intros k;
        rewrite pool_refs_add by (by rewrite lookup_insert_ne by done);
        unfold add_ref; by rewrite (pool_refs_replace _ _ _ _ _ _ Hs).
    + intros k u Hk Hlive. rewrite !lookup_insert_ne; [done| |]; intros <-; [lia|congruence].
    + intros k [u Hu]. apply lookup_insert_Some in Hu as [[<- _]|[_ Hu]]; [by right|].
      apply lookup_insert_Some in Hu as [[<- _]|[_ Hu]]; eauto.
    + rewrite dom_insert_L. apply elem_of_dom_2 in Hp. set_solver.
  - intros b Hb. by rewrite lookup_insert_ne by lia.
  - intros b k Hb Hk.
    destruct (pool_entry _ _ _ _ _ _ _ _ Hok Hp Hk) as (u & Hu & Hut).
    rewrite !lookup_insert_ne; [done| |congruence]. intros <-.
    pose proof (entry_unique _ _ _ _ _ _ _ _ (pk_page _ _ _ _ Hok _ _ Hp) Hi Hk). lia.
  - intros k u Hk Hne. rewrite !lookup_insert_ne; [done| |congruence]. intros <-.
    apply Hne. congruence.
  - eexists. rewrite lookup_insert_ne, lookup_insert_eq by done. split; [done|].
    rewrite eff_mk, lookup_insert_ne by lia. split_and!; eauto; lia.
Qed.

(** The slice at [idx] fits exactly. *)
Lemma scan_exact sid size idx pages page slices w i s :
  pool_ok A PS pages slices → pages !! sid = Some page →
  page_slices page !! idx = Some i → slices !! i = Some s → slice_at A PS sid idx i s →
  refs_ok w (pool_refs slices cid) (pool_refs slices call) →
  call i = 0 → eff s = size →
  scan_post sid size idx pages page slices w (Some (idx, i)) page slices w.
Proof.
  intros Hok Hp Hi Hs Hat Hrefs Hfree Heff. split; [|done|done|done|].
  - rewrite insert_id by done. by apply scan_ok_refl.
  - exists s. split_and!; eauto. lia.
Qed.

Lemma find_in_chunk_spec fuel size pages sid page slices idx w :
  pool_ok A PS pages slices → pages !! sid = Some page →
  refs_ok w (pool_refs slices cid) (pool_refs slices call) →
  0 < size → (A | size) → slice_counter w < usize_max →
  (above (page_slices page) idx < fuel)%nat →
  wp (find_free_slice_in_chunk fuel A size page slices idx) w
    (λ '(res, page', slices') w',
       scan_post sid size idx pages page slices w res page' slices' w').
Proof.
  intros Hok Hp Hrefs Hsz HAsz Hw. revert pages page slices idx w Hok Hp Hrefs Hw.
  induction fuel as [|fuel IH]; intros pages page slices idx w Hok Hp Hrefs Hw Hfuel; [lia|].
  simpl. unfold find_slice. destruct (page_slices page !! idx) as [i|] eqn:Hi;
    [|by wp_step; apply scan_stop].
  destruct (pool_entry _ _ _ _ _ _ _ _ Hok Hp Hi) as (s & Hs & Hat).
  pose proof Hat as [Q1 Q2 Q3 Q4 Q5 Q6 Q7].
  wp_steps. eapply wp_lift; [apply effective_size_ok; lia|]. wp_steps.
  rewrite (free_iff _ _ _ _ _ _ Hrefs Hs Q3).
  destruct ((size <=? eff s) && (call i =? 0)) eqn:Hfit.
  - apply andb_true_iff in Hfit as [Hle%N.leb_le Hfree%N.eqb_eq].
    destruct (N.ltb_spec size (eff s)) as [Hlt|Hge];
      [|by wp_step; eapply scan_exact; eauto; lia].
    wp_step. eapply wp_Slice_split; try done; [by rewrite Q2|lia|].
    intros w' j Hrefs' Hj1 Hj2 Hc Hst. wp_steps.
    eapply wp_lift; [apply next_slice_position_ok; rewrite off_mk, eff_mk; lia|]. wp_step.
    rewrite off_mk, eff_mk, N.add_0_r, Q2, Q1. cbn [Slice_id sl_handle href_id].
    assert (slices !! j = None) as Hjn.
    { destruct (slices !! j) eqn:E; [|done]. rewrite (pool_refs_self _ _ _ _ E) in Hj1. lia. }
    rewrite pool_refs_none in Hj2 by done. by apply scan_split.
  - assert (call i = 0 → eff s < size) as Hsmall.
    { intros Hz. rewrite Hz in Hfit. simpl in Hfit. rewrite andb_true_r in Hfit.
      by apply N.leb_gt. }
    match goal with |- wp (bind _ ?k) _ ?Q => assert
      ((call i = 0 → ∀ j, page_slices page !! (idx + eff s) = Some j → 0 < call j) →
       wp (k (false, page, slices)) w Q) as Hgo end.
    { intros Hnb. wp_steps. eapply wp_lift; [apply next_slice_position_ok; lia|].
      rewrite Q2. eapply wp_mono; [apply (IH pages); try done|].
      - pose proof (above_advance _ _ (idx + eff s) _ Hi ltac:(lia)). lia.
      - intros [[res page'] slices'] w'' Hpost. eapply scan_advance; eauto. }
    wp_step. destruct (N.eqb_spec (call i) 0) as [Hz|Hz]; [|by wp_step; apply Hgo].
    eapply (wp_merge pages slices sid page idx i s); try done; [by intros Hnb; apply Hgo|].
    intros j t s1 w' Hj Hij Ht page1 slices1 Hscan Hc.
    eapply wp_mono; [apply (IH (<[sid := page1]> pages) page1 slices1); try done|].
    + apply Hscan.
    + by rewrite lookup_insert_eq.
    + apply Hscan.
    + lia.
    + pose proof (above_delete _ idx _ _ Hj ltac:(lia)). simpl. lia.
    + intros [[res page'] slices'] w'' Hpost. by eapply scan_merged.
Qed.

(** ** [find_free_slice] *)

(** The queue lists the pages, each once, at its recorded position. *)
Record ring_ok (ring : RingBuffer) (pages : gmap StorageId MemoryPage) : Prop := {
  rk_align : ring_buffer_alignment ring = A;
  rk_nodup : NoDup (ring_queue ring);
  rk_pages : ∀ id, id ∈ ring_queue ring ↔ is_Some (pages !! id);
  rk_positions : ∀ id k, ring_chunk_positions ring !! id = Some k ↔ ring_queue ring !! k = Some id
}.

Lemma ring_ok_cursor ring pages k n :
  ring_ok ring pages → ring_ok (set_cursor ring k n) pages.
Proof. by intros []. Qed.

Lemma ring_ok_dom ring pages pages' :
  ring_ok ring pages → dom pages' = dom pages → ring_ok ring pages'.
Proof.
  intros [R1 R2 R3 R4] Hd. split; auto. intros id. rewrite R3, <- !elem_of_dom. by rewrite Hd.
Qed.

(** Pages whose position is not visited keep their slices. *)
Definition frame_except (ring : RingBuffer) (ks : list nat)
  (pages : gmap StorageId MemoryPage) (slices : gmap SliceId Slice)
  (pages' : gmap StorageId MemoryPage) (slices' : gmap SliceId Slice) : Prop :=
  ∀ id, (∀ k, k ∈ ks → ring_queue ring !! k ≠ Some id) →
    pages' !! id = pages !! id ∧
    ∀ i s, slices !! i = Some s → sh_id (sl_storage s) = id → slices' !! i = Some s.

Definition chunk_exhausted (size : N) (exclude : option StorageExclude) (ring : RingBuffer)
  (pages : gmap StorageId MemoryPage) (slices : gmap SliceId Slice) (k : nat) : Prop :=
  ∀ id p, ring_queue ring !! k = Some id → excluded_by exclude id = false →
    pages !! id = Some p → exhausted size (page_slices p) slices 0.

Lemma chunk_exhausted_frame size exclude ring ks pages slices pages' slices' k :
  pool_ok A PS pages slices → NoDup (ring_queue ring) →
  frame_except ring ks pages slices pages' slices' → k ∉ ks →
  chunk_exhausted size exclude ring pages slices k →
  chunk_exhausted size exclude ring pages' slices' k.
Proof.
  intros Hok Hnd Hfr Hk Hex id p Hq Hexc Hp.
  destruct (Hfr id) as [Hpg Hsl].
  { intros k' Hk' Hq'. by rewrite (NoDup_lookup _ _ _ _ Hnd Hq' Hq) in Hk'. }
  rewrite Hpg in Hp. intros b j u Hb Hj Hu.
  destruct (pool_entry _ _ _ _ _ _ _ _ Hok Hp Hj) as (u' & Hu' & Hat).
  rewrite (Hsl _ _ Hu' (sa_storage _ _ _ _ _ _ Hat)) in Hu. simplify_eq.
  by eapply (Hex id p).
Qed.

Definition search_post (size : N) (exclude : option StorageExclude) (ring : RingBuffer)
  (pages : gmap StorageId MemoryPage) (slices : gmap SliceId Slice) (w : World)
  (ks : list nat) (full : nat → Prop)
  (r : option SliceId * RingBuffer * gmap StorageId MemoryPage * gmap SliceId Slice)
  (w' : World) : Prop :=
  let '(res, ring', pages', slices') := r in
  scan_ok pages slices w pages' slices' w' ∧
  (ring_queue ring' = ring_queue ring ∧ ring_ok ring' pages') ∧
  frame_except ring ks pages slices pages' slices' ∧
  match res with
  | Some i => ∃ s, slices' !! i = Some s ∧ eff s = size ∧ call i = 0 ∧
      excluded_by exclude (sh_id (sl_storage s)) = false ∧
      slice_counter w' ≤ slice_counter w + 1
  | None => slice_counter w' = slice_counter w ∧
      ∀ k, k ∈ ks → full k → chunk_exhausted size exclude ring pages' slices' k
  end.

Lemma frame_except_trans ring ks1 ks2 ks p1 s1 p2 s2 p3 s3 :
  frame_except ring ks1 p1 s1 p2 s2 → frame_except ring ks2 p2 s2 p3 s3 →
  (∀ k, k ∈ ks1 ∨ k ∈ ks2 → k ∈ ks) → frame_except ring ks p1 s1 p3 s3.
Proof.
  intros F1 F2 Hks id Hid.
  destruct (F1 id) as [G1 G2]; [auto|]. destruct (F2 id) as [G3 G4]; [auto|].
  split; [congruence|eauto].
Qed.

(** Going on after an unsuccessful chunk. *)
Lemma search_post_cons size exclude ring pages slices w k ks start slice_index idx
    pages1 slices1 w1 r w' :
  k ∉ ks → NoDup (ring_queue ring) →
  scan_ok pages slices w pages1 slices1 w1 → slice_counter w1 = slice_counter w →
  frame_except ring [k] pages slices pages1 slices1 →
  idx = (if (start <? k)%nat then 0 else slice_index) →
  (idx = 0 → chunk_exhausted size exclude ring pages1 slices1 k) →
  search_post size exclude (set_cursor ring k 0) pages1 slices1 w1 ks
    (λ k, (start < k)%nat ∨ idx = 0) r w' →
  search_post size exclude ring pages slices w (k :: ks)
    (λ k, (start < k)%nat ∨ slice_index = 0) r w'.
Proof.
  intros Hknot Hnd Hscan Hc Hfr Hidx Hex.
  destruct r as [[[res ring'] pages'] slices']. intros (Hs2 & (Hq2 & Hr2) & Hfr2 & Hres).
  split; [by eapply scan_ok_trans|]. split; [by split|]. split.
  { eapply frame_except_trans; [exact Hfr|exact Hfr2|].
    intros k' [->%list_elem_of_singleton|?]; by constructor. }
  destruct res as [i|].
  - destruct Hres as (s & ? & ? & ? & ? & ?). exists s. rewrite <- Hc. by split_and!.
  - destruct Hres as [Hc' Hex']. split; [by rewrite Hc', Hc|]. intros k' Hk' Hfull.
    assert (slice_index = 0 → idx = 0) as Hz by (intros; destruct (start <? k)%nat; congruence).
    apply elem_of_cons in Hk' as [->|Hk']; [|apply Hex'; naive_solver].
    eapply (chunk_exhausted_frame _ _ (set_cursor ring k 0)); [apply Hscan|done|exact Hfr2|done|].
    apply Hex. destruct Hfull as [Hlt|?]; [|auto]. by rewrite (proj2 (Nat.ltb_lt _ _)) in Hidx.
Qed.

(** The chunks of a pass: chunk [k] is scanned from its start when it is not
    the first one, or when the cursor is at the start. *)
Lemma all_chunks_spec ks start size exclude ring pages slices slice_index w :
  NoDup ks →
  pool_ok A PS pages slices → ring_ok ring pages →
  refs_ok w (pool_refs slices cid) (pool_refs slices call) →
  0 < size → (A | size) → slice_counter w < usize_max →
  wp (all_chunks_loop ks start size exclude ring pages slices slice_index) w
    (search_post size exclude ring pages slices w ks
       (λ k, (start < k)%nat ∨ slice_index = 0)).
Proof.
  intros Hnd Hok Hring Hrefs Hsz HAsz Hw. revert ring pages slices slice_index w Hok Hring Hrefs Hw.
  induction ks as [|k ks IH]; intros ring pages slices slice_index w Hok Hring Hrefs Hw.
  { simpl. wp_step. split_and!; [by apply scan_ok_refl|done|done|by intros id; auto|done|].
    intros k Hk. by apply not_elem_of_nil in Hk. }
  apply NoDup_cons in Hnd as [Hknot Hnd]. cbn [all_chunks_loop].
  set (idx := if (start <? k)%nat then 0 else slice_index).
  assert (∀ pages1 slices1 w1,
    scan_ok pages slices w pages1 slices1 w1 → slice_counter w1 = slice_counter w →
    frame_except ring [k] pages slices pages1 slices1 →
    (idx = 0 → chunk_exhausted size exclude ring pages1 slices1 k) →
    wp (all_chunks_loop ks start size exclude (set_cursor ring k 0) pages1 slices1 idx) w1
      (search_post size exclude ring pages slices w (k :: ks)
        (λ k, (start < k)%nat ∨ slice_index = 0))) as Hgo.
  { intros pages1 slices1 w1 Hscan Hc Hfr Hex.
    eapply wp_mono; [apply IH; [done|apply Hscan| |apply Hscan|lia]|].
    - apply ring_ok_cursor. eapply ring_ok_dom; [done|apply Hscan].
    - intros r w' Hpost. eapply search_post_cons; eauto. apply Hring. }
  wp_step. destruct (ring_queue ring !! k) as [id|] eqn:Hq; [|wp_step; apply Hgo].
  2:{ by apply scan_ok_refl. } 2: done. 2: by intros id; auto.
  2:{ intros _ id p Hq' . congruence. }
  destruct (excluded_by exclude id) eqn:Hexc; cbn [negb].
  { wp_step. apply Hgo; [by apply scan_ok_refl|done|by intros id'; auto|].
    intros _ id' p Hq'. congruence. }
  destruct (proj1 (rk_pages _ _ Hring id)) as [p Hp]; [by eapply list_elem_of_lookup_2|].
  wp_steps. rewrite (rk_align _ _ Hring).
  eapply wp_mono; [eapply (find_in_chunk_spec _ _ pages id)|]; try done.
  { eapply Nat.le_lt_trans; [apply above_mono|apply above_fuel]. }
  intros [[res p'] slices1] w1 [Pok Pbelow Pslices Pother Pres].
  assert (frame_except ring [k] pages slices (<[id := p']> pages) slices1) as Hfr.
  { intros id' Hid'. assert (id' ≠ id).
    { intros ->. by apply (Hid' k); [left|]. }
    rewrite lookup_insert_ne by done. split; [done|]. intros i s Hs Hsid. apply Pother; congruence. }
  destruct res as [[a i]|].
  - destruct Pres as (s & Hs & Hat & Ha & Heff & Hfree & Hc). pose proof Hat as [Q1 Q2 Q3 Q4 Q5 Q6 Q7].
    wp_steps. eapply wp_lift; [apply next_slice_position_ok; lia|]. wp_steps.
    split; [done|]. split; [split; [done|]|].
    { apply ring_ok_cursor. eapply ring_ok_dom; [done|apply Pok]. }
    split.
    { intros id' Hid'. apply Hfr. intros k' ->%list_elem_of_singleton. apply Hid'. by left. }
    exists s. rewrite Q3, Q1. split_and!; auto.
  - wp_step. apply Hgo; [done|apply Pres|done|]. intros Hz id' q Hq' _ Hlq.
    assert (id' = id) as -> by congruence. rewrite lookup_insert_eq in Hlq. injection Hlq as <-.
    fold idx in Pres. rewrite Hz in Pres. apply Pres. right.
    apply (pk_page _ _ _ _ Hok _ _ Hp).
Qed.

(** Both passes: an unsuccessful search has exhausted every page except
    possibly the one under the cursor. *)
Lemma find_free_slice_spec ring size exclude pages slices w :
  pool_ok A PS pages slices → ring_ok ring pages →
  refs_ok w (pool_refs slices cid) (pool_refs slices call) →
  0 < size → (A | size) → slice_counter w < usize_max →
  wp (find_free_slice ring size pages slices exclude) w
    (search_post size exclude ring pages slices w (seq 0 (length (ring_queue ring)))
       (λ k, k ≠ ring_cursor_chunk ring)).
Proof.
  intros Hok Hring Hrefs Hsz HAsz Hw. unfold find_free_slice, find_free_slice_in_all_chunks.
  set (n := length (ring_queue ring)). set (c := ring_cursor_chunk ring).
  rewrite Nat.min_id. wp_step.
  eapply wp_mono; [apply all_chunks_spec; try done; apply NoDup_seq|].
  intros [[[res ring1] pages1] slices1] w1 (Hs1 & (Hq1 & Hr1) & Hfr1 & Hres1).
  destruct res as [i|].
  { wp_step. split; [done|]. split; [done|]. split; [|done].
    intros id Hid. apply Hfr1. intros k Hk. apply Hid. apply elem_of_seq in Hk. apply elem_of_seq. lia. }
  destruct Hres1 as [Hc1 Hex1].
  cbn [ring_cursor_chunk set_cursor ring_queue ring_cursor_slice]. rewrite Hq1. fold n.
  rewrite Nat.sub_0_r.
  eapply wp_mono; [apply all_chunks_spec; try done|].
  { apply NoDup_seq. } { apply Hs1. } { by apply ring_ok_cursor. } { apply Hs1. } { lia. }
  intros [[[res ring2] pages2] slices2] w2 (Hs2 & (Hq2 & Hr2) & Hfr2 & Hres2).
  assert (frame_except ring (seq 0 (n `min` c)) pages1 slices1 pages2 slices2) as Hfr2'.
  { intros id Hid. apply Hfr2. simpl. by rewrite Hq1. }
  split; [by eapply scan_ok_trans|]. split; [split; [by rewrite Hq2|done]|]. split.
  { eapply frame_except_trans; [exact Hfr1|exact Hfr2'|].
    intros k [Hk|Hk]; apply elem_of_seq in Hk; apply elem_of_seq; lia. }
  destruct res as [i|].
  { destruct Hres2 as (s & ? & ? & ? & ? & ?). exists s. rewrite <- Hc1. by split_and!. }
  destruct Hres2 as [Hc2 Hex2]. split; [by rewrite Hc2, Hc1|]. intros k Hk Hne.
  apply elem_of_seq in Hk. destruct (Nat.lt_ge_cases k c) as [Hlt|Hge].
  - intros id p Hq. apply (Hex2 k); [apply elem_of_seq; lia|auto|simpl; by rewrite Hq1].
  - eapply chunk_exhausted_frame; [apply Hs1|apply Hring|exact Hfr2'| |].
    + rewrite elem_of_seq. lia.
    + apply Hex1; [apply elem_of_seq; lia|left; lia].
Qed.
End Scan.
