(* ===== verification/Usage.v ===== *)
(** * Memory usage reports

    Model of [MemoryUsage] of [memory_management/base.rs].  The sums are
    overflow-checked like the [u64] additions of the code. *)

From S2P Require Import Prelude Ids Storage Slices.

Open Scope N_scope.
Open Scope rust_scope.

Record MemoryUsage := mkUsage {
  number_allocs : N;
  bytes_in_use : N;
  bytes_padding : N;
  bytes_reserved : N
}.

Definition usage_zero : MemoryUsage := mkUsage 0 0 0 0.

Definition MemoryUsage_combine (self other : MemoryUsage) : outcome MemoryUsage :=
  let? n := checked_add u64_max (number_allocs self) (number_allocs other) in
  let? b := checked_add u64_max (bytes_in_use self) (bytes_in_use other) in
  let? p := checked_add u64_max (bytes_padding self) (bytes_padding other) in
  let? r := checked_add u64_max (bytes_reserved self) (bytes_reserved other) in
  Ret (mkUsage n b p r).

(** [Iterator::sum] over [u64]. *)
Fixpoint sum_u64 (l : list N) (acc : N) : outcome N :=
  match l with
  | [] => Ret acc
  | x :: l => let? acc := checked_add u64_max acc x in sum_u64 l acc
  end.

Definition total (l : list N) : N := foldr N.add 0 l.

Lemma sum_u64_ok l acc : acc + total l ≤ u64_max → sum_u64 l acc = Ret (acc + total l).
Proof.
  revert acc. induction l as [|x l IH]; intros acc; simpl; intros Hle; [f_equal; lia|].
  rewrite checked_add_ok by lia. simpl. rewrite IH by lia. f_equal. lia.
Qed.

Lemma total_app l1 l2 : total (l1 ++ l2) = total l1 + total l2.
Proof. induction l1; simpl; lia. Qed.

Lemma total_le {A} (f g : A → N) l :
  (∀ x, x ∈ l → f x ≤ g x) → total (f <$> l) ≤ total (g <$> l).
Proof.
  induction l as [|x l IH]; intros Hle; [done|].
  change (f x + total (f <$> l) ≤ g x + total (g <$> l)).
  pose proof (Hle x ltac:(by left)). specialize (IH ltac:(intros; apply Hle; by right)). lia.
Qed.

Lemma total_perm l1 l2 : l1 ≡ₚ l2 → total l1 = total l2.
Proof. induction 1; simpl; lia. Qed.

Lemma MemoryUsage_combine_ok a b :
  number_allocs a + number_allocs b ≤ u64_max → bytes_in_use a + bytes_in_use b ≤ u64_max →
  bytes_padding a + bytes_padding b ≤ u64_max → bytes_reserved a + bytes_reserved b ≤ u64_max →
  MemoryUsage_combine a b = Ret (mkUsage (number_allocs a + number_allocs b)
    (bytes_in_use a + bytes_in_use b) (bytes_padding a + bytes_padding b)
    (bytes_reserved a + bytes_reserved b)).
Proof. intros. unfold MemoryUsage_combine. by rewrite !checked_add_ok by lia. Qed.

Lemma total_nil : total [] = 0.
Proof. done. Qed.
Lemma total_cons x l : total (x :: l) = x + total l.
Proof. done. Qed.
#[global] Arguments total _ : simpl never.
