(* ===== verification/SlicedPool.v ===== *)
(** * The sliced pool

    Model of [SlicedPool] of [memory_pool/sliced_pool.rs]: pages of one size,
    cut into slices found through the ring buffer. *)

From S2P Require Import Prelude Ids Storage Slices SearchIndex Ring Usage.

Open Scope N_scope.
Open Scope rust_scope.

Record SlicedPool := mkSlicedPool {
  sp_pages : gmap StorageId MemoryPage;
  sp_slices : gmap SliceId Slice;
  sp_storage_index : SearchIndex StorageId;
  sp_ring : RingBuffer;
  sp_recently_added_pages : list StorageId;
  sp_recently_allocated_size : N;
  sp_page_size : N;
  sp_max_alloc_size : N;
  sp_alignment : N
}.

Definition SlicedPool_new (page_size max_alloc_size alignment : N) : outcome SlicedPool :=
  let? r := checked_rem page_size alignment in
  let? _ := assert_ (r =? 0) "assertion failed: page_size % alignment == 0" in
  Ret (mkSlicedPool ∅ ∅ SearchIndex_new (RingBuffer_new alignment) [] 0
         page_size max_alloc_size alignment).

Definition SlicedPool_get (p : SlicedPool) (b : SliceBinding) : option StorageHandle :=
  sl_storage <$> sp_slices p !! bref_id b.

Definition sp_set_search (p : SlicedPool) (ring : RingBuffer)
  (pages : gmap StorageId MemoryPage) (slices : gmap SliceId Slice) : SlicedPool :=
  mkSlicedPool pages slices (sp_storage_index p) ring (sp_recently_added_pages p)
    (sp_recently_allocated_size p) (sp_page_size p) (sp_max_alloc_size p) (sp_alignment p).

Definition SlicedPool_try_reserve (p : SlicedPool) (size : N) (exclude : option StorageExclude)
  : M World (option SliceHandle * SlicedPool) :=
  let! padding := lift (calculate_padding size (sp_alignment p)) in
  let! effective_size := lift (checked_add u64_max size padding) in
  let! '(found, ring, pages, slices) :=
    find_free_slice (sp_ring p) effective_size (sp_pages p) (sp_slices p) exclude in
  match found with
  | None => ret (None, sp_set_search p ring pages slices)
  | Some slice_id =>
      let! slice := lift (expect (slices !! slice_id) unwrap_msg) in
      let! old_slice_size := lift (Slice_effective_size slice) in
      let offset := sh_offset (sl_storage slice) in
      let slice := set_utilization slice (mkUtilization offset size) in
      let! new_padding := lift (checked_sub old_slice_size size) in
      let slice := set_padding slice new_padding in
      let! e := lift (Slice_effective_size slice) in
      let! _ := lift (assert_ (e =? old_slice_size)
        "new and old slice should have the same size") in
      let p := sp_set_search p ring pages (<[slice_id := slice]> slices) in
      let! h := HandleRef_clone (sl_handle slice) in
      ret (Some h, p)
  end.

Definition SlicedPool_create_slice (p : SlicedPool) (offset size : N) (storage_id : StorageId)
  : M World Slice :=
  let! r := lift (checked_rem offset (sp_alignment p)) in
  let! _ := lift (assert_ (r =? 0) "slice offset needs to be a multiple of the alignment") in
  let! handle := SliceHandle_new in
  let storage := mkStorageHandle storage_id (mkUtilization offset size) in
  let! padding := lift (calculate_padding size (sp_alignment p)) in
  ret (mkSlice storage handle padding).

Definition SlicedPool_create_page {S} `{ComputeStorage S} (p : SlicedPool) (storage : S)
  : M World (StorageId * SlicedPool * S) :=
  let! '(handle, storage) := cs_alloc (sp_page_size p) storage in
  let id := sh_id handle in
  let ring := push_page (sp_ring p) id in
  let pages := <[id := mkPage ∅]> (sp_pages p) in
  let index := SearchIndex_insert (sp_storage_index p) id (sp_page_size p) in
  ret (id, mkSlicedPool pages (sp_slices p) index ring (sp_recently_added_pages p)
             (sp_recently_allocated_size p) (sp_page_size p) (sp_max_alloc_size p)
             (sp_alignment p), storage).

Definition SlicedPool_alloc {S} `{ComputeStorage S} (p : SlicedPool) (storage : S) (size : N)
  : M World (SliceHandle * SlicedPool * S) :=
  let! '(storage_id, p, storage) := SlicedPool_create_page p storage in
  let! recently := lift (checked_add u64_max (sp_recently_allocated_size p) (sp_page_size p)) in
  let p := mkSlicedPool (sp_pages p) (sp_slices p) (sp_storage_index p) (sp_ring p)
             (sp_recently_added_pages p ++ [storage_id]) recently
             (sp_page_size p) (sp_max_alloc_size p) (sp_alignment p) in
  let! slice := SlicedPool_create_slice p 0 size storage_id in
  let! effective_size := lift (Slice_effective_size slice) in
  let! extra_slice :=
    (if effective_size <? sp_page_size p then
       let! rest := lift (checked_sub (sp_page_size p) effective_size) in
       let! extra := SlicedPool_create_slice p effective_size rest storage_id in
       ret (Some extra)
     else ret None) in
  let! handle_slice := HandleRef_clone (sl_handle slice) in
  let storage_id := sh_id (sl_storage slice) in
  let slice_id := Slice_id slice in
  let slice_offset := sh_offset (sl_storage slice) in
  let slices := <[slice_id := slice]> (sp_slices p) in
  let! page := lift (expect (sp_pages p !! storage_id) unwrap_msg) in
  let page := insert_slice page slice_offset slice_id in
  let '(page, slices) :=
    match extra_slice with
    | Some extra =>
        (insert_slice page (sh_offset (sl_storage extra)) (Slice_id extra),
         <[Slice_id extra := extra]> slices)
    | None => (page, slices)
    end in
  ret (handle_slice, sp_set_search p (sp_ring p) (<[storage_id := page]> (sp_pages p)) slices,
       storage).

Definition SlicedPool_get_memory_usage (w : World) (p : SlicedPool) : outcome MemoryUsage :=
  let used_slices := filter (λ s, negb (Slice_is_free w s)) (map_to_list (sp_slices p)).*2 in
  let? in_use := sum_u64 ((λ s, sh_size (sl_storage s)) <$> used_slices) 0 in
  let? padding := sum_u64 (sl_padding <$> used_slices) 0 in
  let? reserved := checked_mul u64_max (N.of_nat (size (sp_pages p))) (sp_page_size p) in
  Ret (mkUsage (N.of_nat (length used_slices)) in_use padding reserved).

(** [cleanup] does nothing: this pool never shrinks. *)
Definition SlicedPool_cleanup {S} `{ComputeStorage S} (p : SlicedPool) (storage : S)
  (alloc_nr : N) (explicit : bool) : M World (SlicedPool * S) := ret (p, storage).
