(* ===== verification/Pool.v ===== *)
(** * The interface of memory pools

    [MemoryPool] is the trait of [memory_pool/base.rs].  [MemoryPoolSpec]
    states what a pool promises to the memory management: which slices it
    holds, which storages back them, that slices never overlap, and how each
    operation changes them.  The sliced, exclusive and static pools are
    instances; the theorems about [MemoryManagement] only use the interface. *)

From S2P Require Import Prelude Ids Storage Slices Ring Usage PageInv.

Open Scope N_scope.

Class MemoryPool (S P : Type) `{ComputeStorage S} := {
  mp_max_alloc_size : P → N;
  mp_get : P → SliceBinding → option StorageHandle;
  mp_try_reserve : P → N → option StorageExclude → M World (option SliceHandle * P);
  mp_alloc : P → S → N → M World (SliceHandle * P * S);
  mp_get_memory_usage : World → P → outcome MemoryUsage;
  mp_cleanup : P → S → N → bool → M World (P * S)
}.

(** Two byte ranges of storages. *)
Definition overlap (a b : StorageHandle) : Prop :=
  sh_id a = sh_id b ∧
  sh_offset a < sh_offset b + sh_size b ∧ sh_offset b < sh_offset a + sh_size a.

(** The strong counts are those of the pool's own slices plus the rest. *)
Definition refs_with (w : World) (slices : gmap SliceId Slice) (cid call : refs) : Prop :=
  refs_ok w (pool_refs slices cid) (pool_refs slices call).

(** Storages without those of [gone]. *)
Definition without (gone : gset StorageId) (m : gmap StorageId N) : gmap StorageId N :=
  filter (λ kv, kv.1 ∉ gone) m.

Class MemoryPoolSpec (S P : Type) `{HS : ComputeStorage S, HSS : !ComputeStorageSpec S,
    HP : !MemoryPool S P} := {
  pool_inv : P → Prop;
  slices : P → gmap SliceId Slice;
  owns : P → StorageId → N → Prop;
  clock : P → N;
  can_reserve : S → P → N → Prop;
  can_alloc : S → P → N → Prop;
  served : P → N → Slice → Prop;

  mp_slice : ∀ p i s, pool_inv p → slices p !! i = Some s →
    Slice_id s = i ∧
    ∃ n, owns p (sh_id (sl_storage s)) n ∧
      sh_offset (sl_storage s) + sh_size (sl_storage s) ≤ n;
  mp_disjoint : ∀ p i j s t, pool_inv p → slices p !! i = Some s → slices p !! j = Some t →
    i ≠ j → ¬ overlap (sl_storage s) (sl_storage t);
  mp_served : ∀ p n s, served p n s → n ≤ sh_size (sl_storage s);
  mp_get_ok : ∀ p b, pool_inv p → mp_get p b = sl_storage <$> slices p !! bref_id b;

  mp_try_reserve_ok : ∀ p st n exclude w cid call,
    pool_inv p → refs_with w (slices p) cid call →
    can_reserve st p n → n ≤ mp_max_alloc_size p → slice_counter w < usize_max →
    wp (mp_try_reserve p n exclude) w (λ '(res, p') w',
      pool_inv p' ∧ clock p' = clock p ∧ (∀ id m, owns p' id m ↔ owns p id m) ∧
      mp_max_alloc_size p' = mp_max_alloc_size p ∧
      (∀ i s, slices p !! i = Some s → 0 < call i → slices p' !! i = Some s) ∧
      (∀ i, is_Some (slices p' !! i) → is_Some (slices p !! i) ∨ call i = 0) ∧
      slice_counter w' ≤ slice_counter w + 1 ∧ storage_counter w' = storage_counter w ∧
      match res with
      | Some h => ∃ s, slices p' !! href_id h = Some s ∧ served p' n s ∧
          call (href_id h) = 0 ∧ excluded_by exclude (sh_id (sl_storage s)) = false ∧
          refs_with w' (slices p') (add_ref (href_id h) cid) (add_ref (href_id h) call)
      | None => can_alloc st p' n ∧ refs_with w' (slices p') cid call
      end);

  mp_alloc_ok : ∀ p st n w cid call,
    pool_inv p → refs_with w (slices p) cid call →
    can_alloc st p n →
    (∀ id m, owns p id m → storage_value id < storage_counter w) →
    slice_counter w + 2 ≤ usize_max → storage_counter w < usize_max →
    wp (mp_alloc p st n) w (λ '(h, p', st') w',
      pool_inv p' ∧ clock p' = clock p ∧ mp_max_alloc_size p' = mp_max_alloc_size p ∧
      (∃ m, (∀ id k, owns p' id k ↔
          owns p id k ∨ (id = mkStorageId (storage_counter w) ∧ k = m)) ∧
        allocated st' = <[mkStorageId (storage_counter w) := m]> (allocated st)) ∧
      (∀ i s, slices p !! i = Some s → slices p' !! i = Some s) ∧
      (∀ i, is_Some (slices p' !! i) → is_Some (slices p !! i) ∨ call i = 0) ∧
      slice_counter w' ≤ slice_counter w + 2 ∧ storage_counter w' = storage_counter w + 1 ∧
      ∃ s, slices p' !! href_id h = Some s ∧ served p' n s ∧ call (href_id h) = 0 ∧
        refs_with w' (slices p') (add_ref (href_id h) cid) (add_ref (href_id h) call));

  mp_cleanup_ok : ∀ p st alloc_nr explicit w cid call,
    pool_inv p → refs_with w (slices p) cid call → clock p ≤ alloc_nr →
    wp (mp_cleanup p st alloc_nr explicit) w (λ '(p', st') w',
      pool_inv p' ∧ clock p' ≤ alloc_nr ∧ mp_max_alloc_size p' = mp_max_alloc_size p ∧
      (∃ gone, (∀ id, id ∈ gone → ∃ m, owns p id m) ∧
        (∀ id m, owns p' id m ↔ owns p id m ∧ id ∉ gone) ∧ allocated st' = without gone (allocated st)) ∧
      (∀ i s, slices p !! i = Some s → 0 < call i → slices p' !! i = Some s) ∧
      slices p' ⊆ slices p ∧
      slice_counter w' = slice_counter w ∧ storage_counter w' = storage_counter w ∧
      refs_with w' (slices p') cid call)
}.
