(* ===== verification/StaticPool.v ===== *)
(** * The static pool

    Model of [StaticPool] of [memory_pool/static_pool.rs]: one storage per
    allocation, freed only by an explicit cleanup. *)

From S2P Require Import Prelude Ids Storage Slices Ring Usage PageInv RingSpec Pool.

Open Scope N_scope.
Open Scope rust_scope.

Record StaticPool := mkStaticPool {
  st_slices : gmap SliceId Slice;
  st_max_alloc_size : N
}.

Definition StaticPool_new (max_alloc_size : N) : StaticPool := mkStaticPool ∅ max_alloc_size.

Definition StaticPool_get (p : StaticPool) (b : SliceBinding) : option StorageHandle :=
  sl_storage <$> st_slices p !! bref_id b.

Definition StaticPool_try_reserve (p : StaticPool) (size : N) (exclude : option StorageExclude)
  : M World (option SliceHandle * StaticPool) := ret (None, p).

Section Ops.
Context {S : Type} `{ComputeStorage S}.

Definition StaticPool_alloc (p : StaticPool) (storage : S) (size : N)
  : M World (SliceHandle * StaticPool * S) :=
  let! padding := lift (calculate_padding size (cs_alignment storage)) in
  let! size_alloc := lift (checked_add u64_max size padding) in
  let! '(storage_handle, storage) := cs_alloc size_alloc storage in
  let! slice_handle := SliceHandle_new in
  let! h := HandleRef_clone slice_handle in
  let slice := mkSlice storage_handle h padding in
  ret (slice_handle, mkStaticPool (<[Slice_id slice := slice]> (st_slices p)) (st_max_alloc_size p),
       storage).

Definition StaticPool_get_memory_usage (w : World) (p : StaticPool) : outcome MemoryUsage :=
  let all := (map_to_list (st_slices p)).*2 in
  let used_slices := filter (λ s, negb (Slice_is_free w s)) all in
  let? in_use := sum_u64 ((λ s, sh_size (sl_storage s)) <$> used_slices) 0 in
  let? padding := sum_u64 (sl_padding <$> used_slices) 0 in
  let? reserved := sum_u64 ((λ s, sh_size (sl_storage s)) <$> all) 0 in
  Ret (mkUsage (N.of_nat (length used_slices)) in_use padding reserved).

(** [HashMap::retain] visits the entries in some order: here that of
    [map_to_list].  A removed slice is dropped with its handle. *)
Fixpoint static_retain (entries : list (SliceId * Slice)) (slices : gmap SliceId Slice) (storage : S)
  : M World (gmap SliceId Slice * S) :=
  match entries with
  | [] => ret (slices, storage)
  | (id, slice) :: rest =>
      let! w := get_state in
      if Slice_is_free w slice then
        let storage := cs_dealloc (sh_id (sl_storage slice)) storage in
        let! _ := HandleRef_drop (sl_handle slice) in
        static_retain rest (delete id slices) storage
      else static_retain rest slices storage
  end.

Definition StaticPool_cleanup (p : StaticPool) (storage : S) (alloc_nr : N) (explicit : bool)
  : M World (StaticPool * S) :=
  if explicit then
    let! '(slices, storage) := static_retain (map_to_list (st_slices p)) (st_slices p) storage in
    ret (mkStaticPool slices (st_max_alloc_size p), storage)
  else ret (p, storage).

#[export] Instance StaticPool_MemoryPool : MemoryPool S StaticPool := {
  mp_max_alloc_size := st_max_alloc_size;
  mp_get := StaticPool_get;
  mp_try_reserve := StaticPool_try_reserve;
  mp_alloc := StaticPool_alloc;
  mp_get_memory_usage := StaticPool_get_memory_usage;
  mp_cleanup := StaticPool_cleanup
}.
End Ops.

(** ** Correctness *)

Record static_ok (p : StaticPool) : Prop := {
  st_entry : ∀ i s, st_slices p !! i = Some s → Slice_id s = i ∧ sh_offset (sl_storage s) = 0;
  st_unique : ∀ i j s t, st_slices p !! i = Some s → st_slices p !! j = Some t →
    sh_id (sl_storage s) = sh_id (sl_storage t) → i = j
}.

Definition static_owns (p : StaticPool) (id : StorageId) (n : N) : Prop :=
  ∃ i s, st_slices p !! i = Some s ∧ sh_id (sl_storage s) = id ∧ sh_size (sl_storage s) = n.

Lemma without_empty m : without ∅ m = m.
Proof. apply map_filter_id. set_solver. Qed.

Lemma without_delete gone id m : without gone (delete id m) = without ({[id]} ∪ gone) m.
Proof.
  unfold without. apply map_eq. intros k. apply option_eq. intros n.
  rewrite !map_lookup_filter_Some, lookup_delete_Some. set_solver.
Qed.

Section Spec.
Context {S : Type} `{ComputeStorageSpec S} (cid call : refs).

Lemma static_retain_spec entries slices st w :
  refs_with w slices cid call → NoDup entries.*1 →
  (∀ i s, (i, s) ∈ entries → slices !! i = Some s ∧ Slice_id s = i) →
  wp (static_retain entries slices st) w (λ '(slices', st') w',
    (∀ i s, slices' !! i = Some s ↔ slices !! i = Some s ∧ (i ∈ entries.*1 → 0 < call i)) ∧
    (∃ gone, (∀ id, id ∈ gone ↔ ∃ i s, (i, s) ∈ entries ∧ call i = 0 ∧ sh_id (sl_storage s) = id) ∧
      allocated st' = without gone (allocated st)) ∧
    slice_counter w' = slice_counter w ∧ storage_counter w' = storage_counter w ∧
    refs_with w' slices' cid call).
Proof.
  revert slices st w. induction entries as [|[i s] rest IH]; intros slices st w Hr Hnd Hin.
  { simpl. wp_step. split.
    { intros i s. split; [|tauto]. intros Hi. split; [done|]. by intros ?%not_elem_of_nil. }
    split; [|done]. exists ∅. rewrite without_empty. split; [|done].
    intros id. split; [set_solver|]. by intros (? & ? & ?%not_elem_of_nil & _). }
  cbn [static_retain]. rewrite fmap_cons in Hnd. apply NoDup_cons in Hnd as [Hi Hnd].
  destruct (Hin i s) as [Hs Hid]; [by left|]. wp_steps.
  rewrite (free_iff _ _ _ _ _ _ Hr Hs Hid).
  assert (∀ j t, (j, t) ∈ rest → j ≠ i) as Hne.
  { intros j t Hj ->. apply Hi. apply list_elem_of_fmap. by exists (i, t). }
  destruct (N.eqb_spec (call i) 0) as [Hz|Hz].
  - wp_step. eapply wp_HandleRef_drop; [exact Hr|]. intros w1 Hr1 Hc1 Hs1.
    unfold Slice_id in Hid. rewrite Hid in Hr1.
    eapply wp_mono; [apply IH; [|done|]|].
    + eapply refs_ok_ext; [exact Hr1|..]; intros k; by rewrite (pool_refs_delete _ _ s) by done.
    + intros j t Hj. rewrite lookup_delete_ne by (symmetry; eauto). apply Hin. by right.
    + intros [slices' st'] w' (Hl & (gone & Hg & Hst) & Hc & Hs' & Hr').
      split; [|split; [|split_and!; [lia|congruence|done]]].
      * intros j t. rewrite Hl, lookup_delete_Some, fmap_cons, elem_of_cons. simpl. naive_solver lia.
      * exists ({[sh_id (sl_storage s)]} ∪ gone). rewrite Hst, cs_dealloc_ok, without_delete.
        split; [|done]. intros id. rewrite elem_of_union, elem_of_singleton, Hg.
        setoid_rewrite elem_of_cons. split; [|naive_solver].
        intros [->|(j & t & ? & ? & ?)]; eauto 10.
  - eapply wp_mono; [apply IH; [done|done|]|].
    + intros j t Hj. apply Hin. by right.
    + intros [slices' st'] w' (Hl & (gone & Hg & Hst) & Hc & Hs' & Hr').
      split; [|split; [|done]].
      * intros j t. rewrite Hl, fmap_cons, elem_of_cons. simpl. naive_solver lia.
      * exists gone. split; [|done]. intros id. rewrite Hg. setoid_rewrite elem_of_cons.
        split; [naive_solver|]. intros (j & t & [[= -> ->]|Hj] & ? & ?); [lia|eauto].
Qed.

Lemma static_alloc_spec p st n w :
  static_ok p → refs_with w (st_slices p) cid call →
  accepts (round_up n (cs_alignment st)) → round_up n (cs_alignment st) ≤ u64_max →
  (∀ id m, static_owns p id m → storage_value id < storage_counter w) →
  slice_counter w + 2 ≤ usize_max → storage_counter w < usize_max →
  wp (StaticPool_alloc p st n) w (λ '(h, p', st') w',
    let id := mkStorageId (storage_counter w) in
    let i := mkSliceId (slice_counter w) in
    let s := mkSlice (mkStorageHandle id (mkUtilization 0 (round_up n (cs_alignment st))))
               (mkHandleRef i) (round_up n (cs_alignment st) - n) in
    h = mkHandleRef i ∧ p' = mkStaticPool (<[i := s]> (st_slices p)) (st_max_alloc_size p) ∧
    allocated st' = <[id := round_up n (cs_alignment st)]> (allocated st) ∧
    st_slices p !! i = None ∧ call i = 0 ∧
    slice_counter w' = slice_counter w + 1 ∧ storage_counter w' = storage_counter w + 1 ∧
    refs_with w' (st_slices p') (add_ref i cid) (add_ref i call)).
Proof.
  intros Hok Hr Hacc Hmax Hids Hw1 Hw2. unfold StaticPool_alloc.
  pose proof (cs_alignment_pos st) as HA.
  wp_step. eapply wp_lift; [by apply calculate_padding_ok|].
  wp_steps; rewrite padded_size by done; [done|].
  destruct (cs_alloc_ok st _ _ Hacc Hw2) as (st' & Halloc & Hst').
  unfold wp at 1. rewrite Halloc. cbv beta iota. wp_step.
  eapply wp_SliceHandle_new with (rid := pool_refs (st_slices p) cid)
    (rall := pool_refs (st_slices p) call); simpl; [by split; apply Hr|lia|].
  intros w1 Hr1 Hi1 Hi2 Hc1 Hs1. apply pool_refs_zero in Hi1 as [Hi1 _], Hi2 as [_ Hi2].
  wp_step. eapply wp_HandleRef_clone; [exact Hr1|simpl; apply add_ref_pos|].
  intros w2 Hr2 Hc2 Hs2. wp_step. split_and!; try done; try congruence; try lia.
  eapply refs_ok_ext; [exact Hr2|..]; intros k; by apply pool_refs_one.
Qed.
End Spec.

Lemma static_ok_insert p i s :
  static_ok p → Slice_id s = i → sh_offset (sl_storage s) = 0 →
  (∀ j t, st_slices p !! j = Some t → sh_id (sl_storage t) ≠ sh_id (sl_storage s)) →
  static_ok (mkStaticPool (<[i := s]> (st_slices p)) (st_max_alloc_size p)).
Proof.
  intros [He Hu] Hid Hoff Hfresh. split; simpl.
  - intros j t [[<- <-]|[_ Hj]]%lookup_insert_Some; auto.
  - intros j k t u [[<- <-]|[_ Hj]]%lookup_insert_Some [[<- <-]|[_ Hk]]%lookup_insert_Some Heq; eauto.
    + by destruct (Hfresh _ _ Hk).
    + by destruct (Hfresh _ _ Hj).
Qed.

Section Instance_.
Context {S : Type} `{ComputeStorageSpec S}.

#[export] Program Instance StaticPool_spec : MemoryPoolSpec S StaticPool := {
  pool_inv := static_ok;
  slices := st_slices;
  owns := static_owns;
  clock := λ _, 0;
  can_reserve := λ st p n, accepts (round_up n (cs_alignment st)) ∧
    round_up n (cs_alignment st) ≤ u64_max;
  can_alloc := λ st p n, accepts (round_up n (cs_alignment st)) ∧
    round_up n (cs_alignment st) ≤ u64_max;
  served := λ p n s, sh_offset (sl_storage s) = 0 ∧ n ≤ sh_size (sl_storage s)
}.
Next Obligation.
  intros p i s [He Hu] Hs. destruct (He i s Hs) as [Hid Hoff]. split; [done|].
  eexists. split; [by exists i, s|]. rewrite Hoff. lia.
Qed.
Next Obligation.
  intros p i j s t [He Hu] Hs Ht Hne [Heq _]. apply Hne. by eapply Hu.
Qed.
Next Obligation. by intros p n s [_ Hle]. Qed.
Next Obligation. done. Qed.
Next Obligation.
  intros p st n exclude w cid call Hok Hr Hc Hmax Hw. simpl. unfold StaticPool_try_reserve.
  wp_step. split_and!; try done; auto; try lia; apply Hc.
Qed.
Next Obligation.
  intros p st n w cid call Hok Hr [Hacc Hle] Hids Hw1 Hw2. simpl.
  pose proof (cs_alignment_pos st) as HA. destruct (round_up_spec n _ HA) as (_ & Hge & _).
  eapply wp_mono; [by apply (static_alloc_spec cid call)|].
  intros [[h p'] st'] w' (-> & -> & Hst & Hi & Hci & Hc & Hs & Hr'). simpl.
  split; [apply static_ok_insert; [done..|]|].
  { intros j t Hj Heq. assert (static_owns p (sh_id (sl_storage t)) (sh_size (sl_storage t))) as Ho
      by (by exists j, t). apply Hids in Ho. rewrite Heq in Ho. simpl in Ho. lia. }
  split; [done|]. split; [done|]. split.
  { eexists. split; [|exact Hst]. intros id k. split.
    - intros (j & t & Hj & <- & <-). simpl in Hj.
      apply lookup_insert_Some in Hj as [[<- <-]|[_ Hj]]; [by right|left; by exists j, t].
    - intros [(j & t & Hj & ? & ?)|[-> ->]].
      + exists j, t. simpl. rewrite lookup_insert_ne by congruence. done.
      + eexists _, _. simpl. rewrite lookup_insert_eq. split; [done|]. done. }
  split. { intros j t Hj. by rewrite lookup_insert_ne by congruence. }
  split.
  { intros j [t Hj]. apply lookup_insert_Some in Hj as [[<- _]|[_ Hj]]; [by right|left; by eexists]. }
  split; [lia|]. split; [done|]. eexists. rewrite lookup_insert_eq. by split_and!.
Qed.
Next Obligation.
  intros p st alloc_nr explicit w cid call Hok Hr Hclk. simpl. unfold StaticPool_cleanup.
  destruct explicit; last first.
  { wp_step. split_and!; auto. exists ∅. rewrite without_empty. set_solver. }
  wp_step. eapply wp_mono; [apply (static_retain_spec cid call); [done|apply NoDup_fst_map_to_list|]|].
  { intros i s Hi%elem_of_map_to_list. split; [done|]. by apply (st_entry _ Hok). }
  intros [slices' st'] w' (Hl & (gone & Hg & Hst) & Hc & Hs & Hr').
  assert (slices' ⊆ st_slices p) as Hsub.
  { apply map_subseteq_spec. intros i s Hi. by apply Hl in Hi as [? _]. }
  assert (∀ i s, st_slices p !! i = Some s → i ∈ (map_to_list (st_slices p)).*1) as Hdom.
  { intros i s Hi. apply list_elem_of_fmap. exists (i, s). split; [done|]. by apply elem_of_map_to_list. }
  wp_step. simpl. split_and!; auto; try lia.
  - split; simpl; intros; [eapply st_entry|eapply (st_unique _ Hok)]; eauto using lookup_weaken.
  - exists gone. split; [|split; [|done]].
    + intros id (i & s & Hi%elem_of_map_to_list & _ & <-)%Hg. eexists. by exists i, s.
    + intros id m. split.
      * intros (i & s & Hi & Hid & Hm). apply Hl in Hi as [Hi Hlive].
        split; [by exists i, s|]. intros (j & t & Hj%elem_of_map_to_list & Hz & Hjd)%Hg.
        assert (i = j) as <- by (eapply (st_unique _ Hok); eauto; congruence).
        specialize (Hlive (Hdom _ _ Hj)). lia.
      * intros [(i & s & Hi & Hid & Hm) Hng]. exists i, s. split; [|done]. apply Hl. split; [done|].
        intros _. destruct (N.eq_0_gt_0_cases (call i)); [|done]. destruct Hng. apply Hg.
        exists i, s. rewrite elem_of_map_to_list. done.
  - intros i s Hi Hlive. by apply Hl.
Qed.
End Instance_.
