(* ===== verification/SlicedPoolSpec.v ===== *)
(** * Correctness of the sliced pool *)

From S2P Require Import Prelude Ids Storage Slices SearchIndex Ring PageInv RingSpec Usage SlicedPool.
From S2P Require Import Pool StaticPool.

Open Scope N_scope.

(** The invariant of a sliced pool. *)
Record sliced_ok (p : SlicedPool) : Prop := {
  so_align : 0 < sp_alignment p;
  so_page : 0 < sp_page_size p ∧ sp_page_size p ≤ u64_max;
  so_div : (sp_alignment p | sp_page_size p);
  so_max : sp_max_alloc_size p ≤ sp_page_size p;
  so_pool : pool_ok (sp_alignment p) (sp_page_size p) (sp_pages p) (sp_slices p);
  so_ring : ring_ok (sp_alignment p) (sp_ring p) (sp_pages p);
  so_index : index_ok (sp_storage_index p);
  so_indexed : ∀ id, sizes_per_item (sp_storage_index p) !! id =
    (λ _, sp_page_size p) <$> sp_pages p !! id;
  so_recent : sp_recently_allocated_size p = N.of_nat (size (sp_pages p)) * sp_page_size p
}.

(** What no operation changes. *)
Definition same_config (p p' : SlicedPool) : Prop :=
  sp_alignment p' = sp_alignment p ∧ sp_page_size p' = sp_page_size p ∧
  sp_max_alloc_size p' = sp_max_alloc_size p.

(** A slice reserved for a request of [n] bytes. *)
Record reserved_slice (p : SlicedPool) (n : N) (h : SliceHandle) (s : Slice) : Prop := {
  rs_lookup : sp_slices p !! href_id h = Some s;
  rs_size : sh_size (sl_storage s) = n;
  rs_aligned : (sp_alignment p | off s);
  rs_eff : eff s = round_up n (sp_alignment p);
  rs_end : off s + eff s ≤ sp_page_size p;
  rs_page : is_Some (sp_pages p !! sh_id (sl_storage s))
}.

Lemma SlicedPool_new_ok page_size max_alloc_size alignment :
  0 < alignment → 0 < page_size ≤ u64_max → (alignment | page_size) →
  max_alloc_size ≤ page_size →
  ∃ p, SlicedPool_new page_size max_alloc_size alignment = Ret p ∧ sliced_ok p ∧
    sp_slices p = ∅ ∧ sp_pages p = ∅ ∧ sp_page_size p = page_size ∧
    sp_max_alloc_size p = max_alloc_size ∧ sp_alignment p = alignment.
Proof.
  intros HA Hp Hdiv Hmax. unfold SlicedPool_new. rewrite checked_rem_ok by lia. simpl.
  rewrite (proj2 (mod_0_divide _ _ HA) Hdiv). simpl. eexists. split; [done|].
  split; [|done]. split; simpl; try done; try lia.
  - split; simpl; [done|apply NoDup_nil_2| |].
    + intros id. rewrite lookup_empty, elem_of_nil. split; [done|by intros [? ?]].
    + intros id k. by rewrite lookup_empty.
  - apply index_ok_new.
Qed.

Section Ops.
Context (cid call : refs).

Lemma sliced_round_up p n :
  sliced_ok p → n ≤ sp_page_size p → round_up n (sp_alignment p) ≤ sp_page_size p.
Proof.
  intros Hok Hn. pose proof (so_align _ Hok) as HA.
  destruct (round_up_spec n _ HA) as (Hdiv & Hge & Hlt).
  destruct (N.le_gt_cases (round_up n (sp_alignment p)) (sp_page_size p)); [done|].
  pose proof (multiples_below _ _ _ HA (so_div _ Hok) Hdiv ltac:(done)). lia.
Qed.

(** The outcome of a search rebuilds the pool invariant. *)
Lemma sliced_ok_search p ring pages slices w w' :
  sliced_ok p →
  scan_ok (sp_alignment p) (sp_page_size p) cid call (sp_pages p) (sp_slices p) w pages slices w' →
  ring_ok (sp_alignment p) ring pages →
  sliced_ok (sp_set_search p ring pages slices).
Proof.
  intros [H1 H2 H3 H4 H5 H6 H7 H8 H9] [Hpool _ _ _ Hdom _] Hring. split; simpl; auto.
  - intros id. rewrite H8.
    assert (is_Some (pages !! id) ↔ is_Some (sp_pages p !! id)) as Hd
      by (by rewrite <- !elem_of_dom, Hdom).
    destruct (pages !! id) eqn:E1, (sp_pages p !! id) eqn:E2; simpl; try done.
    + destruct (proj1 Hd) as [? ?]; [by eexists|congruence].
    + destruct (proj2 Hd) as [? ?]; [by eexists|congruence].
  - by rewrite H9, <- !size_dom, Hdom.
Qed.

Definition reserve_post (p : SlicedPool) (n : N) (exclude : option StorageExclude) (w : World)
  (r : option SliceHandle * SlicedPool) (w' : World) : Prop :=
  let '(res, p') := r in
  sliced_ok p' ∧ same_config p p' ∧ dom (sp_pages p') = dom (sp_pages p) ∧
  (∀ i s, sp_slices p !! i = Some s → 0 < call i → sp_slices p' !! i = Some s) ∧
  (∀ i, is_Some (sp_slices p' !! i) → is_Some (sp_slices p !! i) ∨ call i = 0) ∧
  slice_counter w' ≤ slice_counter w + 1 ∧ storage_counter w' = storage_counter w ∧
  match res with
  | Some h => ∃ s, reserved_slice p' n h s ∧ call (href_id h) = 0 ∧
      excluded_by exclude (sh_id (sl_storage s)) = false ∧
      refs_ok w' (pool_refs (sp_slices p') (add_ref (href_id h) cid))
                 (pool_refs (sp_slices p') (add_ref (href_id h) call))
  | None =>
      refs_ok w' (pool_refs (sp_slices p') cid) (pool_refs (sp_slices p') call) ∧
      ∀ k, (k < length (ring_queue (sp_ring p)))%nat → k ≠ ring_cursor_chunk (sp_ring p) →
        chunk_exhausted call (round_up n (sp_alignment p)) exclude (sp_ring p)
          (sp_pages p') (sp_slices p') k
  end.

Lemma sliced_try_reserve_spec p n exclude w :
  sliced_ok p → refs_ok w (pool_refs (sp_slices p) cid) (pool_refs (sp_slices p) call) →
  0 < n → n ≤ sp_max_alloc_size p → slice_counter w < usize_max →
  wp (SlicedPool_try_reserve p n exclude) w (reserve_post p n exclude w).
Proof.
  intros Hok Hrefs Hn Hmax Hw. unfold SlicedPool_try_reserve.
  pose proof (so_align _ Hok) as HA. destruct (so_page _ Hok) as [_ HPS].
  pose proof (so_max _ Hok) as Hmx.
  pose proof (sliced_round_up p n Hok ltac:(lia)) as Hru.
  destruct (round_up_spec n _ HA) as (Hdiv & Hge & Hlt).
  wp_step. eapply wp_lift; [by apply calculate_padding_ok|]. wp_steps.
  rewrite padded_size by done. 
  eapply wp_mono; [eapply find_free_slice_spec; eauto using so_pool, so_ring; lia|].
  intros [[[res ring] pages] slices] w' (Hscan & (Hq & Hring) & _ & Hres).
  pose proof (sliced_ok_search _ _ _ _ _ _ Hok Hscan Hring) as Hok'.
  destruct res as [i|]; last first.
  { wp_step. destruct Hres as [Hc Hex]. split; [done|]. split; [done|].
    split; [apply Hscan|]. split; [apply Hscan|]. split; [apply Hscan|]. split; [lia|].
    split; [apply Hscan|]. split; [apply Hscan|]. intros k Hk Hne. apply Hex; [apply elem_of_seq; lia|done]. }
  destruct Hres as (s & Hs & Heff & Hfree & Hexc & Hc).
  pose proof (pool_slice _ _ _ _ _ _ (sk_pool _ _ _ _ _ _ _ _ _ _ Hscan) Hs) as Hat.
  pose proof Hat as [Q1 Q2 Q3 Q4 Q5 Q6 Q7].
  wp_steps. eapply wp_lift; [apply effective_size_ok; lia|]. wp_steps.
  unfold set_padding, set_utilization; simpl.
  eapply wp_lift; [apply effective_size_ok; rewrite eff_mk; lia|]. wp_step.
  rewrite eff_mk, (proj2 (N.eqb_eq _ _)) by lia. wp_steps.
  set (s' := mkSlice _ _ _).
  assert (eff s' = eff s ∧ off s' = off s ∧ Slice_id s' = Slice_id s ∧ href_id (sl_handle s) = i)
    as (E1 & E2 & E3 & E4).
  { unfold s'. rewrite eff_mk, off_mk. split; [lia|done]. }
  eapply wp_HandleRef_clone; [apply Hscan| |].
  { rewrite E4, (pool_refs_self _ _ _ _ Hs). lia. }
  rewrite E4. intros w2 Hrefs2 Hc2 Hst2. wp_step.
  split; [|split; [done|]].
  { destruct Hok'. split; simpl in *; auto. by eapply (pool_resize _ _ _ _ _ s). }
  simpl. split; [apply Hscan|]. split.
  { intros j t Ht Hlive. rewrite lookup_insert_ne by (intros ->; lia). by eapply sk_live. }
  split.
  { intros j [t Ht]. apply (sk_new _ _ _ _ _ _ _ _ _ _ Hscan).
    apply lookup_insert_Some in Ht as [[<- _]|[_ Ht]]; eauto. }
  split; [lia|]. split; [rewrite Hst2; apply Hscan|].
  exists s'. rewrite E4. split; [split; simpl|split; [done|split; [done|]]].
  - by rewrite E4, lookup_insert_eq.
  - done.
  - rewrite E2. done.
  - lia.
  - rewrite E1, E2. lia.
  - destruct (pk_back _ _ _ _ (sk_pool _ _ _ _ _ _ _ _ _ _ Hscan) _ _ Hs) as (q & Hq' & _). eauto.
  - eapply refs_ok_ext; [exact Hrefs2|..]; intros j; rewrite pool_refs_add_client;
      by rewrite (pool_refs_replace _ _ _ _ _ _ Hs).
Qed.

Lemma wp_create_slice p offset n sid w rid rall (Q : Slice → World → Prop) :
  refs_ok w rid rall → slice_counter w < usize_max →
  0 < sp_alignment p → (sp_alignment p | offset) →
  (∀ w', let i := mkSliceId (slice_counter w) in
    refs_ok w' (add_ref i rid) (add_ref i rall) → rid i = 0 → rall i = 0 →
    slice_counter w' = slice_counter w + 1 → storage_counter w' = storage_counter w →
    Q (mkSlice (mkStorageHandle sid (mkUtilization offset n)) (mkHandleRef i)
         (round_up n (sp_alignment p) - n)) w') →
  wp (SlicedPool_create_slice p offset n sid) w Q.
Proof.
  intros Hrefs Hw HA Hdiv HQ. unfold SlicedPool_create_slice.
  wp_step. eapply wp_lift; [apply checked_rem_ok; lia|].
  rewrite (proj2 (mod_0_divide _ _ HA) Hdiv). wp_steps. cbn [N.eqb]. wp_steps.
  eapply wp_SliceHandle_new; [done|done|]. intros w' i H1 H2 H3 H4 H5. wp_step.
  eapply wp_lift; [by apply calculate_padding_ok|]. wp_step. by apply HQ.
Qed.

(** ** [alloc] *)

Context {S : Type} `{ComputeStorageSpec S}.

Definition alloc_post (p : SlicedPool) (st : S) (n : N) (w : World)
  (r : SliceHandle * SlicedPool * S) (w' : World) : Prop :=
  let '(h, p', st') := r in
  let id := mkStorageId (storage_counter w) in
  sliced_ok p' ∧ same_config p p' ∧
  dom (sp_pages p') = {[id]} ∪ dom (sp_pages p) ∧
  allocated st' = <[id := sp_page_size p]> (allocated st) ∧
  (∀ i s, sp_slices p !! i = Some s → sp_slices p' !! i = Some s) ∧
  (∀ i, is_Some (sp_slices p' !! i) → is_Some (sp_slices p !! i) ∨ call i = 0) ∧
  (slice_counter w' ≤ slice_counter w + 2 ∧ storage_counter w' = storage_counter w + 1) ∧
  ∃ s, reserved_slice p' n h s ∧ call (href_id h) = 0 ∧ sh_id (sl_storage s) = id ∧
    refs_ok w' (pool_refs (sp_slices p') (add_ref (href_id h) cid))
               (pool_refs (sp_slices p') (add_ref (href_id h) call)).

(** The pool after a page with the given slices was added. *)
Lemma sliced_ok_add_page p sid page slices' index ring added :
  sliced_ok p → sp_pages p !! sid = None →
  page_ok (sp_alignment p) (sp_page_size p) sid (page_slices page) slices' →
  sp_slices p ⊆ slices' →
  (∀ i s, slices' !! i = Some s → sp_slices p !! i = Some s ∨
    (sh_id (sl_storage s) = sid ∧ page_slices page !! off s = Some i)) →
  index = SearchIndex_insert (sp_storage_index p) sid (sp_page_size p) →
  ring = push_page (sp_ring p) sid →
  sliced_ok (mkSlicedPool (<[sid := page]> (sp_pages p)) slices' index ring added
    (sp_recently_allocated_size p + sp_page_size p) (sp_page_size p) (sp_max_alloc_size p)
    (sp_alignment p)).
Proof.
  intros [H1 H2 H3 H4 H5 H6 H7 H8 H9] Hnew Hpg Hsub Hcase -> ->.
  split; cbn -[SearchIndex_insert]; auto.
  - by eapply pool_add_page.
  - destruct H6 as [R1 R2 R3 R4]. assert (sid ∉ ring_queue (sp_ring p)) as Hnq.
    { rewrite R3, Hnew. by intros [? ?]. }
    split; simpl; [done| | |].
    + apply NoDup_app. split; [done|]. split; [|apply NoDup_singleton].
      by intros x Hx ->%list_elem_of_singleton.
    + intros id. rewrite elem_of_app, list_elem_of_singleton, R3.
      destruct (decide (id = sid)) as [->|Hne].
      * rewrite lookup_insert_eq. split; [by eexists|by right].
      * rewrite lookup_insert_ne by done. naive_solver.
    + intros id k. rewrite length_app; simpl. rewrite Nat.add_sub.
      destruct (decide (id = sid)) as [->|Hne].
      * rewrite lookup_insert_eq. rewrite lookup_snoc_Some. split.
        -- intros [= <-]. by right.
        -- intros [[_ Hq]|[-> _]]; [|done]. by apply list_elem_of_lookup_2 in Hq.
      * rewrite lookup_insert_ne by done. rewrite R4, lookup_snoc_Some. split.
        -- intros Hq. left. split; [by eapply lookup_lt_Some|done].
        -- intros [[_ ?]|[_ ?]]; [done|congruence].
  - by apply index_ok_insert.
  - intros id. rewrite index_insert_sizes. case_decide as Hid.
    + subst. by rewrite lookup_insert_eq.
    + by rewrite lookup_insert_ne by done.
  - rewrite H9, map_size_insert_None by done. lia.
Qed.

Lemma alloc_post_intro p st st' n w w' i s page slices' :
  let sid := mkStorageId (storage_counter w) in
  sliced_ok p → sp_pages p !! sid = None →
  allocated st' = <[sid := sp_page_size p]> (allocated st) →
  page_ok (sp_alignment p) (sp_page_size p) sid (page_slices page) slices' →
  sp_slices p ⊆ slices' →
  (∀ k u, slices' !! k = Some u → sp_slices p !! k = Some u ∨
    (sh_id (sl_storage u) = sid ∧ page_slices page !! off u = Some k ∧ call k = 0)) →
  slices' !! i = Some s → slice_at (sp_alignment p) (sp_page_size p) sid 0 i s →
  sh_size (sl_storage s) = n → eff s = round_up n (sp_alignment p) → call i = 0 →
  slice_counter w' ≤ slice_counter w + 2 → storage_counter w' = storage_counter w + 1 →
  refs_ok w' (pool_refs slices' (add_ref i cid)) (pool_refs slices' (add_ref i call)) →
  alloc_post p st n w (mkHandleRef i, mkSlicedPool (<[sid := page]> (sp_pages p)) slices'
    (SearchIndex_insert (sp_storage_index p) sid (sp_page_size p)) (push_page (sp_ring p) sid)
    (sp_recently_added_pages p ++ [sid]) (sp_recently_allocated_size p + sp_page_size p)
    (sp_page_size p) (sp_max_alloc_size p) (sp_alignment p), st') w'.
Proof.
  intros sid Hok Hnew Hst Hpg Hsub Hcase Hi [Q1 Q2 Q3 Q4 Q5 Q6 Q7] Hn Heff Hci Hc Hs Hrefs.
  split; [|split; [done|]].
  { eapply sliced_ok_add_page; eauto. intros k u Hk. destruct (Hcase k u Hk) as [|(? & ? & _)]; auto. }
  cbn -[SearchIndex_insert]. split; [by rewrite dom_insert_L|]. split; [done|]. split.
  { intros k u Hk. by eapply lookup_weaken. }
  split. { intros k [u Hk]. destruct (Hcase k u Hk) as [|(_ & _ & ?)]; [left; by eexists|by right]. }
  split; [done|]. exists s. split; [|done]. split; cbn -[SearchIndex_insert]; auto.
  - by rewrite Q2.
  - by rewrite Q2.
  - rewrite Q1, lookup_insert_eq. by eexists.
Qed.

Lemma sliced_alloc_spec p st n w :
  sliced_ok p → refs_ok w (pool_refs (sp_slices p) cid) (pool_refs (sp_slices p) call) →
  0 < n → n ≤ sp_max_alloc_size p →
  accepts (sp_page_size p) →
  (∀ id, is_Some (sp_pages p !! id) → storage_value id < storage_counter w) →
  slice_counter w + 2 ≤ usize_max → storage_counter w < usize_max →
  sp_recently_allocated_size p + sp_page_size p ≤ u64_max →
  wp (SlicedPool_alloc p st n) w (alloc_post p st n w).
Proof.
  intros Hok Hrefs Hn Hmax Hacc Hids Hw1 Hw2 Hrec. unfold SlicedPool_alloc, SlicedPool_create_page.
  pose proof (so_align _ Hok) as HA. destruct (so_page _ Hok) as [_ HPS].
  pose proof (so_max _ Hok) as Hmx. pose proof (so_div _ Hok) as HdivPS.
  pose proof (sliced_round_up p n Hok ltac:(lia)) as Hru.
  destruct (round_up_spec n _ HA) as (Hdiv & Hge & Hlt).
  destruct (cs_alloc_ok st _ _ Hacc Hw2) as (st' & Halloc & Hst').
  set (sid := mkStorageId (storage_counter w)) in *.
  assert (sp_pages p !! sid = None) as Hnew.
  { destruct (sp_pages p !! sid) eqn:E; [|done].
    specialize (Hids sid ltac:(by eexists)). simpl in Hids. lia. }
  do 2 wp_step. unfold wp at 1. rewrite Halloc. simpl. wp_steps; [simpl; lia|].
  eapply wp_create_slice with (rid := pool_refs (sp_slices p) cid)
    (rall := pool_refs (sp_slices p) call); simpl; [by split; apply Hrefs|lia|done|by exists 0|].
  intros w1 Hrefs1 Hi1 Hi2 Hc1 Hs1. set (i := mkSliceId (slice_counter w)) in *.
  apply pool_refs_zero in Hi1 as [Hi1 _], Hi2 as [_ Hi2].
  set (s := mkSlice _ _ _). wp_step.
  assert (eff s = round_up n (sp_alignment p)) as Es by (unfold s; rewrite eff_mk; lia).
  assert (slice_at (sp_alignment p) (sp_page_size p) sid 0 i s) as Hat.
  { split; rewrite ?Es; try done; try lia; by exists 0. }
  eapply wp_lift; [apply effective_size_ok; lia|]. rewrite Es.
  destruct (N.ltb_spec (round_up n (sp_alignment p)) (sp_page_size p)) as [Hrest|Hrest].
  - do 2 wp_step. wp_step. wp_step.
    eapply wp_create_slice with (rid := add_ref i (pool_refs (sp_slices p) cid))
      (rall := add_ref i (pool_refs (sp_slices p) call)); simpl; [done|lia|done|done|].
    intros w2 Hrefs2 Hj1 Hj2 Hc2 Hs2. set (j := mkSliceId (slice_counter w1)) in *. set (t := mkSlice _ _ _). wp_steps.
    assert (i ≠ j) as Hij by (unfold i, j; intros [=]; lia).
    unfold add_ref in Hj1, Hj2. rewrite bool_decide_eq_false_2, N.add_0_r in Hj1, Hj2 by done.
    apply pool_refs_zero in Hj1 as [Hj1 _], Hj2 as [_ Hj2].
    eapply wp_HandleRef_clone; [exact Hrefs2| |].
    { unfold add_ref; simpl. rewrite (bool_decide_eq_true_2 (i = i)) by done. simpl. lia. }
    simpl. intros w3 Hrefs3 Hc3 Hs3. rewrite lookup_insert_eq. wp_steps.
    unfold sp_set_search; simpl. rewrite insert_insert_eq.
    assert (eff t = sp_page_size p - eff s) as Et.
    { unfold t. rewrite eff_mk, (round_up_multiple (_ - _)), Es by (try done; by apply N.divide_sub_r). lia. }
    assert (slice_at (sp_alignment p) (sp_page_size p) sid (eff s) j t) as Hbt.
    { split; rewrite ?Et, ?Es; try done; try lia. by apply N.divide_sub_r. }
    eapply alloc_post_intro; eauto.
    + rewrite <- Es. eapply page_ok_two; eauto; [lia|..]; simplify_map_eq; done.
    + etrans; [by apply (insert_subseteq _ i s)|]. apply (insert_subseteq _ j t).
      by rewrite lookup_insert_ne by done.
    + intros k u [[<- <-]|[_ Hk]]%lookup_insert_Some;
        [|apply lookup_insert_Some in Hk as [[<- <-]|[_ Hk]]]; [right|right|by left]; cbn.
      * by rewrite lookup_insert_eq.
      * rewrite lookup_insert_ne by lia. by rewrite lookup_insert_eq.
    + by simplify_map_eq.
    + lia.
    + lia.
    + eapply refs_ok_ext; [exact Hrefs3|..]; intros k; by apply pool_refs_two.
  - wp_steps. eapply wp_HandleRef_clone; [exact Hrefs1| |].
    { unfold add_ref; simpl. rewrite bool_decide_eq_true_2 by done. simpl. lia. }
    simpl. intros w3 Hrefs3 Hc3 Hs3. rewrite lookup_insert_eq. wp_steps.
    unfold sp_set_search; simpl. rewrite insert_insert_eq.
    eapply alloc_post_intro; eauto.
    + eapply page_ok_one; eauto; [lia|]. by simplify_map_eq.
    + by apply insert_subseteq.
    + intros k u [[<- <-]|[_ Hk]]%lookup_insert_Some; [right|by left]. cbn. by rewrite lookup_insert_eq.
    + by simplify_map_eq.
    + lia.
    + lia.
    + eapply refs_ok_ext; [exact Hrefs3|..]; intros k; by apply pool_refs_one.
Qed.
End Ops.

(** ** The sliced pool implements the pool interface *)

Definition sliced_owns (p : SlicedPool) (id : StorageId) (n : N) : Prop :=
  is_Some (sp_pages p !! id) ∧ n = sp_page_size p.

(** Two slices of one page do not overlap. *)
Lemma pool_disjoint A PS pages slices i j s t :
  pool_ok A PS pages slices → slices !! i = Some s → slices !! j = Some t → i ≠ j →
  ¬ overlap (sl_storage s) (sl_storage t).
Proof.
  intros Hok Hs Ht Hne (Hid & H1 & H2).
  destruct (pk_back _ _ _ _ Hok _ _ Hs) as (p & Hp & Ha).
  destruct (pk_back _ _ _ _ Hok _ _ Ht) as (q & Hq & Hb).
  assert (q = p) as -> by congruence.
  pose proof (pk_page _ _ _ _ Hok _ _ Hp) as Hpg. unfold off in Ha, Hb.
  destruct (N.lt_trichotomy (sh_offset (sl_storage s)) (sh_offset (sl_storage t))) as [Hlt|[Heq|Hlt]].
  - pose proof (po_sep _ _ _ _ _ Hpg _ _ _ _ _ Ha Hs Hb Hlt). unfold eff in *. lia.
  - rewrite Heq in Ha. congruence.
  - pose proof (po_sep _ _ _ _ _ Hpg _ _ _ _ _ Hb Ht Ha Hlt). unfold eff in *. lia.
Qed.

Section Instance_.
Context {S : Type} `{ComputeStorageSpec S}.

#[export] Instance SlicedPool_MemoryPool : MemoryPool S SlicedPool := {
  mp_max_alloc_size := sp_max_alloc_size;
  mp_get := SlicedPool_get;
  mp_try_reserve := SlicedPool_try_reserve;
  mp_alloc := SlicedPool_alloc;
  mp_get_memory_usage := SlicedPool_get_memory_usage;
  mp_cleanup := SlicedPool_cleanup
}.

(** A request must not be empty, and the next page must be available. *)
Definition sliced_ready (p : SlicedPool) (n : N) : Prop :=
  0 < n ∧ accepts (sp_page_size p) ∧
  N.of_nat (size (sp_pages p)) * sp_page_size p + sp_page_size p ≤ u64_max.

#[export] Program Instance SlicedPool_spec : MemoryPoolSpec S SlicedPool := {
  pool_inv := sliced_ok;
  slices := sp_slices;
  owns := sliced_owns;
  clock := λ _, 0;
  can_reserve := λ _, sliced_ready;
  can_alloc := λ _ p n, sliced_ready p n ∧ n ≤ sp_max_alloc_size p;
  served := λ p n s, sh_size (sl_storage s) = n ∧ (sp_alignment p | sh_offset (sl_storage s))
}.
Next Obligation.
  intros p i s Hok Hs. pose proof (pool_slice _ _ _ _ _ _ (so_pool _ Hok) Hs) as [].
  destruct (pk_back _ _ _ _ (so_pool _ Hok) _ _ Hs) as (q & Hq & _).
  split; [done|]. exists (sp_page_size p). split; [split; [by eexists|done]|].
  unfold eff, off in *. lia.
Qed.
Next Obligation. intros p i j s t Hok. eapply pool_disjoint, so_pool, Hok. Qed.
Next Obligation. intros p n s [<- _]. done. Qed.
Next Obligation. done. Qed.
Next Obligation.
  intros p st n exclude w cid call Hok Hr (Hn & Hacc & Hsz) Hmax Hw.
  eapply wp_mono; [by apply (sliced_try_reserve_spec cid call)|].
  intros [res p'] w' (Hok' & (E1 & E2 & E3) & Hdom & Hlive & Hnew & Hc & Hs & Hres). simpl.
  assert (∀ id, is_Some (sp_pages p' !! id) ↔ is_Some (sp_pages p !! id)) as Hpg.
  { intros id. by rewrite <- !elem_of_dom, Hdom. }
  split_and!; try done.
  - intros id m. unfold sliced_owns. by rewrite Hpg, E2.
  - destruct res as [h|].
    + destruct Hres as (s & [] & Hz & Hex & Hr'). exists s. split_and!; done.
    + split; [|apply Hres]. unfold sliced_ready. rewrite E2, E3, <- size_dom, Hdom, size_dom. done.
Qed.
Next Obligation.
  intros p st n w cid call Hok Hr [(Hn & Hacc & Hsz) Hmax] Hids Hw1 Hw2.
  eapply wp_mono; [apply (sliced_alloc_spec cid call); try done|].
  - intros id Hid. by apply (Hids id (sp_page_size p)).
  - by rewrite (so_recent _ Hok).
  - intros [[h p'] st'] w' (Hok' & (E1 & E2 & E3) & Hdom & Hst & Hold & Hnew & [Hc Hs] & s & [] & Hz & Hid & Hr').
    split_and!; try done; [|exists s; by split_and!].
    exists (sp_page_size p). split; [|done]. intros id k. unfold sliced_owns.
    rewrite <- !elem_of_dom, Hdom, E2. set_solver.
Qed.
Next Obligation.
  intros p st alloc_nr explicit w cid call Hok Hr Hclk. apply wp_ret.
  split_and!; try done. exists ∅. rewrite without_empty. split_and!; try done; set_solver.
Qed.
End Instance_.
