(* ===== verification/DeviceNum.v ===== *)
(** * Numbers

    [u32] arithmetic under [#[cube]] runs on the device, where it wraps around;
    the lemmas give the cases in which nothing wraps.  Floating-point numbers
    of the host are those of the kernel, of 64 bits. *)

From Stdlib Require Import SpecFloat.
From S2P Require Import Prelude.

Open Scope N_scope.

Definition two32 : N := 4294967296.

Definition wadd (a b : N) : N := (a + b) mod two32.
Definition wmul (a b : N) : N := (a * b) mod two32.
Definition wsub (a b : N) : N := (a + two32 - b) mod two32.
(** The high half of the 64-bit product. *)
Definition mul_hi (a b : N) : N := a * b / two32.

Lemma wadd_small a b : a + b < two32 → wadd a b = a + b.
Proof. apply N.mod_small. Qed.

Lemma wmul_small a b : a * b < two32 → wmul a b = a * b.
Proof. apply N.mod_small. Qed.

Lemma wsub_small a b : b ≤ a → a < two32 → wsub a b = a - b.
Proof.
  intros Hle Hlt. unfold wsub. replace (a + two32 - b) with (a - b + 1 * two32) by lia.
  rewrite N.Div0.mod_add. apply N.mod_small. lia.
Qed.

(** A quotient is characterised by its bounds. *)
Lemma div_bounds n d q : 0 < d → q * d ≤ n → n < (q + 1) * d → n / d = q.
Proof.
  intros Hd Hlo Hhi. symmetry. apply (N.div_unique n d q (n - q * d)); lia.
Qed.

Lemma div_mul_bounds n d : 0 < d → n / d * d ≤ n ∧ n < (n / d + 1) * d.
Proof.
  intros Hd. destruct (div_mod_ex n d Hd) as (q & r & -> & _ & Heq & Hr). lia.
Qed.

(** Positional notation: digits are unique and bounded. *)
Lemma radix_inj d q r q' r' :
  r < d → r' < d → q * d + r = q' * d + r' → q = q' ∧ r = r'.
Proof.
  intros Hr Hr' He. assert (q = q') as ->; [|lia].
  destruct (N.lt_trichotomy q q') as [Hl|[Hl|Hl]]; [nia|done|nia].
Qed.

Lemma radix_lt d n q r : q < n → r < d → q * d + r < n * d.
Proof. intros Hq Hr. assert ((q + 1) * d ≤ n * d) by (apply N.mul_le_mono_r; lia). lia. Qed.

Lemma radix_div_mod d q r : r < d → (q * d + r) / d = q ∧ (q * d + r) mod d = r.
Proof.
  intros Hr. rewrite N.add_comm, N.div_add, N.Div0.mod_add, N.div_small, N.mod_small by lia. lia.
Qed.

(** The indices of a loop [for i in 0..n]. *)
Definition upto (n : N) : list N := N.of_nat <$> seq 0 (N.to_nat n).

Lemma elem_of_upto n x : x ∈ upto n ↔ x < n.
Proof.
  unfold upto. rewrite list_elem_of_fmap. split.
  - intros (i & -> & Hi). apply elem_of_seq in Hi. lia.
  - intros Hx. exists (N.to_nat x). split; [lia|]. apply elem_of_seq. lia.
Qed.
Lemma lookup_upto n k : k < n → upto n !! N.to_nat k = Some k.
Proof. intros Hk. unfold upto. rewrite list_lookup_fmap, lookup_seq_lt by lia. cbn. f_equal. lia. Qed.
Lemma length_upto n : length (upto n) = N.to_nat n.
Proof. unfold upto. by rewrite length_fmap, length_seq. Qed.

Definition f64 : Type := spec_float.

Definition f64_add : f64 → f64 → f64 := SFadd 53 1024.
Definition f64_sub : f64 → f64 → f64 := SFsub 53 1024.
Definition f64_mul : f64 → f64 → f64 := SFmul 53 1024.
Definition f64_div : f64 → f64 → f64 := SFdiv 53 1024.

(** [n as f64] for an unsigned [n]. *)
Definition f64_of_u64 (n : N) : f64 := binary_normalize 53 1024 (Z.of_N n) 0 false.

(** The integer part of a positive dyadic [m * 2^e]. *)
Definition dyadic_floor (m : positive) (e : Z) : N := Z.to_N (Z.shiftl (Zpos m) e).

(** [x as u64]: truncation, saturating; NaN and negative values give 0. *)
Definition f64_to_u64 (x : f64) : N :=
  match x with
  | S754_finite false m e => N.min (dyadic_floor m e) u64_max
  | S754_infinity false => u64_max
  | _ => 0
  end.

(** [f64::round] on a non-negative value: half-way cases away from zero. *)
Definition f64_round (x : f64) : f64 :=
  match x with
  | S754_finite false m e =>
      if (0 <=? e)%Z then x
      else binary_normalize 53 1024 (Z.shiftr (Z.shiftr (Zpos m) (- e - 1) + 1) 1) 0 false
  | _ => x
  end.

(** The literals [1.0], [2.0] and [0.01]. *)
Definition f64_one : f64 := f64_of_u64 1.
Definition f64_two : f64 := f64_of_u64 2.
Definition f64_hundredth : f64 := S754_finite false 5764607523034235 (-59).

Lemma f64_to_u64_max x : f64_to_u64 x ≤ u64_max.
Proof. destruct x as [| [] | |[] m e]; simpl; unfold u64_max; lia. Qed.
