(* ===== verification/ExclusivePool.v ===== *)
(** * The exclusive pool

    Model of [ExclusiveMemoryPool] of [memory_pool/exclusive_pool.rs]: every
    page carries exactly one slice, and pages found free often enough are
    given back to the storage. *)

From S2P Require Import Prelude Ids Storage Slices Ring Usage PageInv RingSpec Pool StaticPool DeviceNum.

Open Scope N_scope.
Open Scope rust_scope.

Record ExclusivePage := mkExPage {
  ep_slice : Slice;
  ep_alloc_size : N;
  ep_free_count : N
}.

Record ExclusiveMemoryPool := mkExclusive {
  ex_pages : list ExclusivePage;
  ex_alignment : N;
  ex_dealloc_period : N;
  ex_last_dealloc_check : N;
  ex_max_alloc_size : N;
  ex_cur_avg_size : f64
}.

Definition SIZE_AVG_DECAY : f64 := f64_hundredth.
Definition ALLOC_AFTER_FREE : N := 5.

Definition ex_set_pages (p : ExclusiveMemoryPool) (pages : list ExclusivePage) : ExclusiveMemoryPool :=
  mkExclusive pages (ex_alignment p) (ex_dealloc_period p) (ex_last_dealloc_check p)
    (ex_max_alloc_size p) (ex_cur_avg_size p).
Definition ex_set_avg (p : ExclusiveMemoryPool) (avg : f64) : ExclusiveMemoryPool :=
  mkExclusive (ex_pages p) (ex_alignment p) (ex_dealloc_period p) (ex_last_dealloc_check p)
    (ex_max_alloc_size p) avg.

Definition ExclusiveMemoryPool_new (max_alloc_size alignment dealloc_period : N)
  : outcome ExclusiveMemoryPool :=
  let? r := checked_rem max_alloc_size alignment in
  let? _ := assert_ (r =? 0) "assertion failed: max_alloc_size % alignment == 0" in
  Ret (mkExclusive [] alignment dealloc_period 0 max_alloc_size
         (f64_div (f64_of_u64 max_alloc_size) f64_two)).

Definition page_fits (w : World) (size : N) (exclude : option StorageExclude) (pg : ExclusivePage)
  : bool :=
  (size <=? ep_alloc_size pg) && Slice_is_free w (ep_slice pg)
  && negb (excluded_by exclude (sh_id (sl_storage (ep_slice pg)))).

(** [Iterator::min_by_key] over the candidates: the first of the smallest. *)
Fixpoint min_free_count (best : nat * ExclusivePage) (l : list (nat * ExclusivePage)) : nat * ExclusivePage :=
  match l with
  | [] => best
  | x :: l => min_free_count (if ep_free_count x.2 <? ep_free_count best.2 then x else best) l
  end.

(** The page is returned by its index: the code returns a mutable reference. *)
Definition get_free_page (w : World) (p : ExclusiveMemoryPool) (size : N)
  (exclude : option StorageExclude) : option (nat * ExclusivePage) :=
  match filter (λ x, page_fits w size exclude x.2) (imap pair (ex_pages p)) with
  | [] => None
  | x :: l => Some (min_free_count x l)
  end.

Definition ExclusiveMemoryPool_get (p : ExclusiveMemoryPool) (b : SliceBinding)
  : option StorageHandle :=
  (λ x, sl_storage (ep_slice x.2)) <$>
    list_find (λ pg, Slice_id (ep_slice pg) = bref_id b) (ex_pages p).

Definition next_avg (avg : f64) (size : N) : f64 :=
  f64_add (f64_mul avg (f64_sub f64_one SIZE_AVG_DECAY)) (f64_mul (f64_of_u64 size) SIZE_AVG_DECAY).

Definition ExclusiveMemoryPool_try_reserve (p : ExclusiveMemoryPool) (size : N)
  (exclude : option StorageExclude) : M World (option SliceHandle * ExclusiveMemoryPool) :=
  let p := ex_set_avg p (next_avg (ex_cur_avg_size p) size) in
  let! padding := lift (calculate_padding size (ex_alignment p)) in
  let! w := get_state in
  match get_free_page w p size exclude with
  | None => ret (None, p)
  | Some (k, page) =>
      let slice := set_padding (set_utilization (ep_slice page) (mkUtilization 0 size)) padding in
      let page := mkExPage slice (ep_alloc_size page) (saturating_sub (ep_free_count page) 1) in
      let p := ex_set_pages p (<[k := page]> (ex_pages p)) in
      let! h := HandleRef_clone (sl_handle (ep_slice page)) in
      ret (Some h, p)
  end.

Section Ops.
Context {S : Type} `{ComputeStorage S}.

Definition alloc_page (p : ExclusiveMemoryPool) (storage : S) (size : N)
  : M World (ExclusivePage * ExclusiveMemoryPool * S) :=
  let! alloc_size := lift (next_multiple_of u64_max
    (N.max (f64_to_u64 (ex_cur_avg_size p)) size) (ex_alignment p)) in
  let! '(handle_storage, storage) := cs_alloc alloc_size storage in
  let! handle := SliceHandle_new in
  let! padding := lift (calculate_padding size (ex_alignment p)) in
  let slice := mkSlice handle_storage handle padding in
  let slice := set_padding (set_utilization slice (mkUtilization 0 size)) padding in
  let page := mkExPage slice alloc_size (ALLOC_AFTER_FREE - 1) in
  ret (page, ex_set_pages p (ex_pages p ++ [page]), storage).

Definition ExclusiveMemoryPool_alloc (p : ExclusiveMemoryPool) (storage : S) (size : N)
  : M World (SliceHandle * ExclusiveMemoryPool * S) :=
  let! _ := lift (assert_ (size <=? ex_max_alloc_size p)
    "Should allocate less than maximum size in pool!") in
  let! '(page, p, storage) := alloc_page p storage size in
  let! h := HandleRef_clone (sl_handle (ep_slice page)) in
  ret (h, p, storage).

Definition ExclusiveMemoryPool_get_memory_usage (w : World) (p : ExclusiveMemoryPool)
  : outcome MemoryUsage :=
  let used_slices := filter (λ pg, negb (Slice_is_free w (ep_slice pg))) (ex_pages p) in
  let? in_use := sum_u64 ((λ pg, sh_size (sl_storage (ep_slice pg))) <$> used_slices) 0 in
  let? padding := sum_u64 ((λ pg, sl_padding (ep_slice pg)) <$> used_slices) 0 in
  let? reserved := sum_u64 (ep_alloc_size <$> ex_pages p) 0 in
  Ret (mkUsage (N.of_nat (length used_slices)) in_use padding reserved).

(** The closure of [retain_mut], page by page; a page that is not retained is
    dropped with the handle of its slice. *)
Fixpoint exclusive_retain (explicit : bool) (pages : list ExclusivePage) (storage : S)
  : M World (list ExclusivePage * S) :=
  match pages with
  | [] => ret ([], storage)
  | page :: rest =>
      let! w := get_state in
      if Slice_is_free w (ep_slice page) then
        let! free_count := lift (checked_add u32_max (ep_free_count page) 1) in
        let page := mkExPage (ep_slice page) (ep_alloc_size page) free_count in
        if (ALLOC_AFTER_FREE <=? free_count) || explicit then
          let storage := cs_dealloc (sh_id (sl_storage (ep_slice page))) storage in
          let! _ := HandleRef_drop (sl_handle (ep_slice page)) in
          exclusive_retain explicit rest storage
        else
          let! '(rest, storage) := exclusive_retain explicit rest storage in
          ret (page :: rest, storage)
      else
        let! '(rest, storage) := exclusive_retain explicit rest storage in
        ret (page :: rest, storage)
  end.

Definition ExclusiveMemoryPool_cleanup (p : ExclusiveMemoryPool) (storage : S) (alloc_nr : N)
  (explicit : bool) : M World (ExclusiveMemoryPool * S) :=
  let check_period := ex_dealloc_period p / ALLOC_AFTER_FREE in
  let! due :=
    (if explicit then ret true
     else let! d := lift (checked_sub alloc_nr (ex_last_dealloc_check p)) in
          ret (check_period <=? d)) in
  if due then
    let! '(pages, storage) := exclusive_retain explicit (ex_pages p) storage in
    ret (mkExclusive pages (ex_alignment p) (ex_dealloc_period p) alloc_nr
           (ex_max_alloc_size p) (ex_cur_avg_size p), storage)
  else ret (p, storage).

#[export] Instance ExclusivePool_MemoryPool : MemoryPool S ExclusiveMemoryPool := {
  mp_max_alloc_size := ex_max_alloc_size;
  mp_get := ExclusiveMemoryPool_get;
  mp_try_reserve := ExclusiveMemoryPool_try_reserve;
  mp_alloc := ExclusiveMemoryPool_alloc;
  mp_get_memory_usage := ExclusiveMemoryPool_get_memory_usage;
  mp_cleanup := ExclusiveMemoryPool_cleanup
}.
End Ops.
