(* ===== verification/ExclusivePoolSpec.v ===== *)
(** * Correctness of the exclusive pool *)

From S2P Require Import Prelude Ids Storage Slices Ring Usage PageInv RingSpec Pool StaticPool DeviceNum.
From S2P Require Import ExclusivePool.

Open Scope N_scope.

Definition ep_id (pg : ExclusivePage) : SliceId := Slice_id (ep_slice pg).
Definition ep_sid (pg : ExclusivePage) : StorageId := sh_id (sl_storage (ep_slice pg)).

(** The slices of a list of pages, by id. *)
Definition ex_slices (pages : list ExclusivePage) : gmap SliceId Slice :=
  list_to_map ((λ pg, (ep_id pg, ep_slice pg)) <$> pages).

Record ex_page_ok (A : N) (pg : ExclusivePage) : Prop := {
  xp_off : sh_offset (sl_storage (ep_slice pg)) = 0;
  xp_fits : eff (ep_slice pg) ≤ ep_alloc_size pg;
  xp_aligned : (A | ep_alloc_size pg);
  xp_count : ep_free_count pg < ALLOC_AFTER_FREE
}.

Record exclusive_ok (p : ExclusiveMemoryPool) : Prop := {
  xo_align : 0 < ex_alignment p;
  xo_ids : NoDup (ep_id <$> ex_pages p);
  xo_sids : NoDup (ep_sid <$> ex_pages p);
  xo_pages : ∀ pg, pg ∈ ex_pages p → ex_page_ok (ex_alignment p) pg
}.

Definition exclusive_owns (p : ExclusiveMemoryPool) (id : StorageId) (n : N) : Prop :=
  ∃ pg, pg ∈ ex_pages p ∧ ep_sid pg = id ∧ ep_alloc_size pg = n.

(** The size of the page that [alloc_page] would request. *)
Definition page_request (A : N) (avg : f64) (n : N) : N := round_up (N.max (f64_to_u64 avg) n) A.

Lemma ex_slices_lookup pages i s :
  NoDup (ep_id <$> pages) →
  ex_slices pages !! i = Some s ↔ ∃ pg, pg ∈ pages ∧ ep_id pg = i ∧ ep_slice pg = s.
Proof.
  intros Hnd. unfold ex_slices. rewrite <- elem_of_list_to_map.
  - rewrite list_elem_of_fmap. split.
    + intros (pg & [= -> ->] & Hpg). eauto.
    + intros (pg & Hpg & <- & <-). eauto.
  - by rewrite <- list_fmap_compose.
Qed.

Lemma ex_slices_cons pg pages : ex_slices (pg :: pages) = <[ep_id pg := ep_slice pg]> (ex_slices pages).
Proof. done. Qed.

Lemma ex_slices_none pages i :
  i ∉ ep_id <$> pages → ex_slices pages !! i = None.
Proof.
  intros Hi. apply not_elem_of_list_to_map. by rewrite <- list_fmap_compose.
Qed.

Lemma ex_slices_snoc pages pg :
  ep_id pg ∉ ep_id <$> pages →
  ex_slices (pages ++ [pg]) = <[ep_id pg := ep_slice pg]> (ex_slices pages).
Proof.
  intros Hpg. induction pages as [|q pages IH]; [done|].
  rewrite fmap_cons, not_elem_of_cons in Hpg. destruct Hpg as [Hne Hpg].
  rewrite <- app_comm_cons, !ex_slices_cons, IH by done. by apply insert_insert_ne.
Qed.

(** Changing the slice of one page. *)
Lemma ex_slices_update pages k pg pg' :
  NoDup (ep_id <$> pages) → pages !! k = Some pg → ep_id pg' = ep_id pg →
  ex_slices (<[k := pg']> pages) = <[ep_id pg := ep_slice pg']> (ex_slices pages).
Proof.
  intros Hnd Hk Hid. revert k Hk. induction pages as [|q pages IH]; intros [|k] Hk; simpl in Hk; try done.
  - injection Hk as ->. simpl. rewrite !ex_slices_cons, Hid. by rewrite insert_insert_eq.
  - rewrite fmap_cons in Hnd. apply NoDup_cons in Hnd as [Hq Hnd]. simpl.
    rewrite !ex_slices_cons, (IH Hnd _ Hk). apply insert_insert_ne.
    intros Heq. apply Hq. rewrite Heq. by apply list_elem_of_fmap_2, list_elem_of_lookup_2 with k.
Qed.

(** ** The choice of a free page *)

Lemma min_free_count_spec best l :
  min_free_count best l ∈ best :: l ∧
  ∀ y, y ∈ best :: l → ep_free_count (min_free_count best l).2 ≤ ep_free_count y.2.
Proof.
  revert best. induction l as [|x l IH]; intros best; simpl.
  { split; [by left|]. by intros y ->%list_elem_of_singleton. }
  set (b := if ep_free_count x.2 <? ep_free_count best.2 then x else best).
  assert ((b = x ∧ ep_free_count x.2 < ep_free_count best.2) ∨
    (b = best ∧ ep_free_count best.2 ≤ ep_free_count x.2)) as Hb.
  { unfold b. destruct (N.ltb_spec (ep_free_count x.2) (ep_free_count best.2)); auto. }
  destruct (IH b) as [Hin Hmin]. split.
  - apply elem_of_cons in Hin as [->|Hin]; [|by do 2 right].
    destruct Hb as [[-> _]|[-> _]]; [by right; left|by left].
  - pose proof (Hmin b ltac:(by left)) as Hm.
    intros y [->|[->|Hy]%elem_of_cons]%elem_of_cons.
    + destruct Hb as [[-> ?]|[-> ?]]; lia.
    + destruct Hb as [[-> ?]|[-> ?]]; lia.
    + apply Hmin. by right.
Qed.

Lemma get_free_page_spec w p n exclude :
  match get_free_page w p n exclude with
  | Some (k, pg) => ex_pages p !! k = Some pg ∧ page_fits w n exclude pg = true ∧
      ∀ q, q ∈ ex_pages p → page_fits w n exclude q = true → ep_free_count pg ≤ ep_free_count q
  | None => ∀ q, q ∈ ex_pages p → page_fits w n exclude q = false
  end.
Proof.
  unfold get_free_page.
  assert (∀ k pg, (k, pg) ∈ filter (λ x : nat * ExclusivePage, page_fits w n exclude x.2) (imap pair (ex_pages p)) ↔
    ex_pages p !! k = Some pg ∧ page_fits w n exclude pg = true) as Hin.
  { intros k pg. rewrite list_elem_of_filter, elem_of_lookup_imap. simpl. rewrite Is_true_true.
    split; [|naive_solver]. intros (Hf & i & y & [= <- <-] & Hi). done. }
  destruct (filter _ _) as [|x l] eqn:El.
  - intros q [k Hk]%list_elem_of_lookup. destruct (page_fits w n exclude q) eqn:E; [|done].
    by destruct (not_elem_of_nil (k, q) (proj2 (Hin k q) (conj Hk E))).
  - destruct (min_free_count_spec x l) as [Hm Hle]. destruct (min_free_count x l) as [k pg].
    apply Hin in Hm as [Hk Hf]. split_and!; [done|done|].
    intros q [j Hj]%list_elem_of_lookup Hq. apply (Hle (j, q)). by apply Hin.
Qed.

Section Spec.
Context {S : Type} `{ComputeStorageSpec S} (cid call : refs).

Lemma exclusive_free_iff w p pg :
  exclusive_ok p → refs_with w (ex_slices (ex_pages p)) cid call → pg ∈ ex_pages p →
  Slice_is_free w (ep_slice pg) = (call (ep_id pg) =? 0).
Proof.
  intros Hok Hr Hpg. eapply free_iff; [exact Hr| |done].
  apply ex_slices_lookup; [apply Hok|eauto].
Qed.

Definition ex_reserve_post (p : ExclusiveMemoryPool) (n : N) (exclude : option StorageExclude)
  (w : World) (r : option SliceHandle * ExclusiveMemoryPool) (w' : World) : Prop :=
  let '(res, p') := r in
  exclusive_ok p' ∧ ex_cur_avg_size p' = next_avg (ex_cur_avg_size p) n ∧
  (ex_alignment p' = ex_alignment p ∧ ex_max_alloc_size p' = ex_max_alloc_size p ∧
   ex_last_dealloc_check p' = ex_last_dealloc_check p) ∧
  (ep_sid <$> ex_pages p') = (ep_sid <$> ex_pages p) ∧
  (ep_alloc_size <$> ex_pages p') = (ep_alloc_size <$> ex_pages p) ∧
  slice_counter w' = slice_counter w ∧ storage_counter w' = storage_counter w ∧
  match res with
  | Some h => ∃ s s', call (href_id h) = 0 ∧ ex_slices (ex_pages p) !! href_id h = Some s ∧
      ex_slices (ex_pages p') = <[href_id h := s']> (ex_slices (ex_pages p)) ∧
      sh_size (sl_storage s') = n ∧ sh_offset (sl_storage s') = 0 ∧
      excluded_by exclude (sh_id (sl_storage s')) = false ∧
      refs_with w' (ex_slices (ex_pages p')) (add_ref (href_id h) cid) (add_ref (href_id h) call)
  | None => ex_pages p' = ex_pages p ∧ w' = w ∧
      ∀ pg, pg ∈ ex_pages p → n ≤ ep_alloc_size pg → call (ep_id pg) = 0 →
        excluded_by exclude (ep_sid pg) = true
  end.

Lemma exclusive_ok_update p avg k pg pg' :
  exclusive_ok p → ex_pages p !! k = Some pg →
  ep_id pg' = ep_id pg → ep_sid pg' = ep_sid pg → ex_page_ok (ex_alignment p) pg' →
  exclusive_ok (ex_set_pages (ex_set_avg p avg) (<[k := pg']> (ex_pages p))).
Proof.
  intros [H1 H2 H3 H4] Hk Hid Hsid Hpg. split; simpl; [done| | |].
  - rewrite list_fmap_insert, list_insert_id; [done|]. by rewrite list_lookup_fmap, Hk, Hid.
  - rewrite list_fmap_insert, list_insert_id; [done|]. by rewrite list_lookup_fmap, Hk, Hsid.
  - intros q [j Hj]%list_elem_of_lookup.
    apply list_lookup_insert_Some in Hj as [(<- & <- & _)|[_ Hj]]; [done|].
    apply H4. by eapply list_elem_of_lookup_2.
Qed.

Lemma exclusive_try_reserve_spec p n exclude w :
  exclusive_ok p → refs_with w (ex_slices (ex_pages p)) cid call →
  wp (ExclusiveMemoryPool_try_reserve p n exclude) w (ex_reserve_post p n exclude w).
Proof.
  intros Hok Hr. unfold ExclusiveMemoryPool_try_reserve. cbn [ex_alignment ex_set_avg].
  pose proof (xo_align _ Hok) as HA. destruct (round_up_spec n _ HA) as (Hdiv & Hge & Hlt).
  wp_step. eapply wp_lift; [by apply calculate_padding_ok|]. wp_steps.
  pose proof (get_free_page_spec w (ex_set_avg p (next_avg (ex_cur_avg_size p) n)) n exclude) as Hg.
  destruct (get_free_page _ _ _ _) as [[k pg]|]; simpl in Hg.
  - destruct Hg as (Hk & Hfits & _). pose proof (list_elem_of_lookup_2 _ _ _ Hk) as Hin.
    apply andb_true_iff in Hfits as [[Hsz%N.leb_le Hfree]%andb_true_iff Hexc%negb_true_iff].
    rewrite (exclusive_free_iff _ _ _ Hok Hr Hin) in Hfree. apply N.eqb_eq in Hfree.
    destruct (xo_pages _ Hok _ Hin) as [P1 P2 P3 P4]. wp_steps.
    assert (ex_slices (ex_pages p) !! ep_id pg = Some (ep_slice pg)) as Hl
      by (apply ex_slices_lookup; [apply Hok|eauto]).
    eapply wp_HandleRef_clone; [exact Hr| |].
    { cbn. fold (Slice_id (ep_slice pg)). fold (ep_id pg). rewrite (pool_refs_self _ _ _ _ Hl). lia. }
    intros w1 Hr1 Hc1 Hs1. cbn in Hr1. fold (Slice_id (ep_slice pg)) in Hr1. fold (ep_id pg) in Hr1.
    wp_step. set (pg' := mkExPage _ _ _).
    assert (ex_slices (<[k := pg']> (ex_pages p)) = <[ep_id pg := ep_slice pg']> (ex_slices (ex_pages p)))
      as Hup by (apply ex_slices_update; [apply Hok|done|done]).
    assert (ex_page_ok (ex_alignment p) pg') as Hpg'.
    { split; cbn; [done| |done|unfold saturating_sub; lia].
      unfold eff; cbn. rewrite padded_size by done.
      destruct (N.le_gt_cases (round_up n (ex_alignment p)) (ep_alloc_size pg)); [done|].
      pose proof (multiples_below _ _ _ HA P3 Hdiv ltac:(done)). lia. }
    split; [exact (exclusive_ok_update p _ k pg pg' Hok Hk eq_refl eq_refl Hpg')|]. split_and!; try done.
    + cbn. rewrite list_fmap_insert, list_insert_id; [done|]. by rewrite list_lookup_fmap, Hk.
    + cbn. rewrite list_fmap_insert, list_insert_id; [done|]. by rewrite list_lookup_fmap, Hk.
    + exists (ep_slice pg), (ep_slice pg'). split_and!; try done.
      cbn [ex_pages ex_set_pages ex_set_avg href_id sl_handle]. rewrite Hup.
      eapply refs_ok_ext; [exact Hr1|..]; intros j; rewrite pool_refs_add_client;
        by rewrite (pool_refs_replace _ _ _ _ _ _ Hl).
  - wp_step. split; [by destruct Hok; split|]. split_and!; try done.
    intros pg Hin Hsz Hfree. specialize (Hg _ Hin). unfold page_fits in Hg.
    rewrite (exclusive_free_iff _ _ _ Hok Hr Hin), Hfree, (proj2 (N.leb_le _ _)) in Hg by done.
    by apply negb_false_iff in Hg.
Qed.

Lemma exclusive_alloc_spec p st n w :
  exclusive_ok p → refs_with w (ex_slices (ex_pages p)) cid call →
  n ≤ ex_max_alloc_size p →
  let req := page_request (ex_alignment p) (ex_cur_avg_size p) n in
  accepts req → req ≤ u64_max →
  (∀ id m, exclusive_owns p id m → storage_value id < storage_counter w) →
  slice_counter w + 2 ≤ usize_max → storage_counter w < usize_max →
  wp (ExclusiveMemoryPool_alloc p st n) w (λ '(h, p', st') w',
    let id := mkStorageId (storage_counter w) in
    let i := mkSliceId (slice_counter w) in
    let s := mkSlice (mkStorageHandle id (mkUtilization 0 n)) (mkHandleRef i)
               (round_up n (ex_alignment p) - n) in
    h = mkHandleRef i ∧ p' = ex_set_pages p (ex_pages p ++ [mkExPage s req (ALLOC_AFTER_FREE - 1)]) ∧
    exclusive_ok p' ∧ ex_slices (ex_pages p') = <[i := s]> (ex_slices (ex_pages p)) ∧
    allocated st' = <[id := req]> (allocated st) ∧
    ex_slices (ex_pages p) !! i = None ∧ call i = 0 ∧
    slice_counter w' = slice_counter w + 1 ∧ storage_counter w' = storage_counter w + 1 ∧
    refs_with w' (ex_slices (ex_pages p')) (add_ref i cid) (add_ref i call)).
Proof.
  intros Hok Hr Hmax req Hacc Hle Hids Hw1 Hw2.
  unfold ExclusiveMemoryPool_alloc, alloc_page, set_padding, set_utilization.
  pose proof (xo_align _ Hok) as HA. destruct (round_up_spec n _ HA) as (Hdiv & Hge & Hlt).
  rewrite (proj2 (N.leb_le _ _)) by done. wp_steps.
  eapply wp_lift; [apply next_multiple_of_ok; done|]. fold (page_request (ex_alignment p) (ex_cur_avg_size p) n).
  fold req. wp_step. destruct (cs_alloc_ok st _ _ Hacc Hw2) as (st' & Halloc & Hst').
  unfold wp at 1. rewrite Halloc. cbv beta iota. wp_step.
  eapply wp_SliceHandle_new with (rid := pool_refs (ex_slices (ex_pages p)) cid)
    (rall := pool_refs (ex_slices (ex_pages p)) call); simpl; [by split; apply Hr|lia|].
  intros w1 Hr1 Hi1 Hi2 Hc1 Hs1. apply pool_refs_zero in Hi1 as [Hi1 _], Hi2 as [_ Hi2].
  wp_step. eapply wp_lift; [by apply calculate_padding_ok|]. wp_steps.
  eapply wp_HandleRef_clone; [exact Hr1|simpl; apply add_ref_pos|].
  intros w2 Hr2 Hc2 Hs2. wp_step. cbn [ex_pages ex_set_pages].
  set (s := mkSlice _ _ _). set (pg := mkExPage s req _).
  assert (ep_id pg ∉ ep_id <$> ex_pages p) as Hnew.
  { intros (q & Hq & Hin)%list_elem_of_fmap.
    assert (ex_slices (ex_pages p) !! ep_id q = Some (ep_slice q)) as Hl
      by (apply ex_slices_lookup; [apply Hok|eauto]).
    rewrite <- Hq in Hl. unfold pg, ep_id in Hl. cbn in Hl. congruence. }
  assert (ex_slices (ex_pages p ++ [pg]) = <[ep_id pg := s]> (ex_slices (ex_pages p))) as Hsn
    by (by apply ex_slices_snoc).
  split_and!; try done; try lia.
  - destruct Hok as [O1 O2 O3 O4]. split; cbn; [done| | |].
    + rewrite fmap_app. apply NoDup_app. split; [done|]. split; [|apply NoDup_singleton].
      intros x Hx ->%list_elem_of_singleton. done.
    + rewrite fmap_app. apply NoDup_app. split; [done|]. split; [|apply NoDup_singleton].
      intros x (q & -> & Hq)%list_elem_of_fmap Heq%list_elem_of_singleton.
      specialize (Hids (ep_sid q) (ep_alloc_size q) ltac:(by exists q)). rewrite Heq in Hids.
      cbn in Hids. lia.
    + intros q [Hq| ->%list_elem_of_singleton]%elem_of_app; [by apply O4|].
      destruct (round_up_spec (N.max (f64_to_u64 (ex_cur_avg_size p)) n) _ HA) as (D1 & D2 & D3).
      split; cbn; [done| |done|done]. unfold s. rewrite eff_mk, padded_size by done.
      fold (page_request (ex_alignment p) (ex_cur_avg_size p) n) in D1, D2. fold req in D1, D2.
      destruct (N.le_gt_cases (round_up n (ex_alignment p)) req); [done|].
      pose proof (multiples_below _ _ _ HA D1 Hdiv ltac:(done)). lia.
  - rewrite Hsn. eapply refs_ok_ext; [exact Hr2|..]; intros k; by apply pool_refs_one.
Qed.

(** ** [cleanup] *)

(** Which pages an actual cleanup keeps, and what it does to them. *)
Definition retained (explicit : bool) (pg : ExclusivePage) : bool :=
  negb ((call (ep_id pg) =? 0) && ((ALLOC_AFTER_FREE <=? ep_free_count pg + 1) || explicit)).
Definition aged (pg : ExclusivePage) : ExclusivePage :=
  if call (ep_id pg) =? 0
  then mkExPage (ep_slice pg) (ep_alloc_size pg) (ep_free_count pg + 1) else pg.
Definition dropped (explicit : bool) (pages : list ExclusivePage) : list ExclusivePage :=
  filter (λ pg, negb (retained explicit pg)) pages.

Definition minus (ids : list SliceId) (m : gmap SliceId Slice) : gmap SliceId Slice :=
  filter (λ kv, kv.1 ∉ ids) m.

Lemma minus_nil m : minus [] m = m.
Proof. apply map_filter_id. intros. apply not_elem_of_nil. Qed.

Lemma minus_cons i ids m : minus ids (delete i m) = minus (i :: ids) m.
Proof.
  unfold minus. apply map_eq. intros k. apply option_eq. intros n.
  rewrite !map_lookup_filter_Some, lookup_delete_Some, not_elem_of_cons. naive_solver.
Qed.

Lemma exclusive_retain_spec explicit pages slices st w :
  refs_with w slices cid call → NoDup (ep_id <$> pages) →
  (∀ pg, pg ∈ pages → slices !! ep_id pg = Some (ep_slice pg) ∧ ep_free_count pg < ALLOC_AFTER_FREE) →
  wp (exclusive_retain explicit pages st) w (λ '(pages', st') w',
    pages' = aged <$> filter (λ pg, retained explicit pg) pages ∧
    allocated st' = without (list_to_set (ep_sid <$> dropped explicit pages)) (allocated st) ∧
    slice_counter w' = slice_counter w ∧ storage_counter w' = storage_counter w ∧
    refs_with w' (minus (ep_id <$> dropped explicit pages) slices) cid call).
Proof.
  revert slices st w. induction pages as [|pg rest IH]; intros slices st w Hr Hnd Hin.
  { simpl. wp_step. rewrite without_empty, minus_nil. done. }
  rewrite fmap_cons in Hnd. apply NoDup_cons in Hnd as [Hi Hnd].
  destruct (Hin pg) as [Hs Hcount]; [by left|]. cbn [exclusive_retain]. wp_steps.
  rewrite (free_iff _ _ _ _ _ _ Hr Hs eq_refl).
  assert (∀ q, q ∈ rest → slices !! ep_id q = Some (ep_slice q) ∧ ep_free_count q < ALLOC_AFTER_FREE)
    as Hrest by (intros; apply Hin; by right).
  assert (∀ pg1 (Hret : retained explicit pg = true) (Haged : pg1 = aged pg),
    wp (let! '(rest, storage) := exclusive_retain explicit rest st in ret (pg1 :: rest, storage)) w
      (λ '(pages', st') w',
        pages' = aged <$> filter (λ pg, retained explicit pg) (pg :: rest) ∧
        allocated st' = without (list_to_set (ep_sid <$> dropped explicit (pg :: rest))) (allocated st) ∧
        slice_counter w' = slice_counter w ∧ storage_counter w' = storage_counter w ∧
        refs_with w' (minus (ep_id <$> dropped explicit (pg :: rest)) slices) cid call)) as Hkeep.
  { intros pg1 Hret ->. wp_step. eapply wp_mono; [by apply (IH slices)|].
    intros [pages' st'] w' (-> & Hst & Hc & Hs' & Hr'). wp_step. unfold dropped.
    rewrite !filter_cons. rewrite Hret. by simpl. }
  unfold retained, aged in Hkeep. fold (ep_id pg). destruct (N.eqb_spec (call (ep_id pg)) 0) as [Hz|Hz];
    [|by apply Hkeep].
  unfold ALLOC_AFTER_FREE in *. wp_step. wp_step; [unfold u32_max; lia|].
  destruct ((5 <=? ep_free_count pg + 1) || explicit) eqn:Hdrop; [|by apply Hkeep].
  wp_step. eapply wp_HandleRef_drop; [exact Hr|]. intros w1 Hr1 Hc1 Hs1. cbn [ep_slice] in *.
  eapply wp_mono; [apply (IH (delete (ep_id pg) slices)); [|done|]|].
  - eapply refs_ok_ext; [exact Hr1|..]; intros k; by rewrite (pool_refs_delete _ _ (ep_slice pg)) by done.
  - intros q Hq. rewrite lookup_delete_ne; [auto|]. intros Heq. apply Hi. rewrite Heq.
    by apply list_elem_of_fmap_2.
  - intros [pages' st'] w' (-> & Hst & Hc & Hs' & Hr').
    assert (retained explicit pg = false) as Hret.
    { unfold retained, ALLOC_AFTER_FREE. by rewrite Hz, Hdrop. }
    unfold dropped in *. rewrite !filter_cons, Hret. simpl. split_and!; [done| |congruence|congruence|].
    + by rewrite Hst, cs_dealloc_ok, without_delete.
    + by rewrite <- minus_cons.
Qed.
End Spec.

Section Cleanup.
Context (call : refs).

Lemma aged_fields pg :
  ep_slice (aged call pg) = ep_slice pg ∧ ep_alloc_size (aged call pg) = ep_alloc_size pg.
Proof. unfold aged. by destruct (_ =? _). Qed.

Lemma aged_map {B} (f : ExclusivePage → B) (l : list ExclusivePage) :
  (∀ pg, f (aged call pg) = f pg) → f <$> (aged call <$> l) = f <$> l.
Proof. intros Hf. rewrite <- list_fmap_compose. apply list_fmap_ext. intros; apply Hf. Qed.

Lemma ep_id_aged pg : ep_id (aged call pg) = ep_id pg.
Proof. unfold ep_id. by rewrite (proj1 (aged_fields pg)). Qed.
Lemma ep_sid_aged pg : ep_sid (aged call pg) = ep_sid pg.
Proof. unfold ep_sid. by rewrite (proj1 (aged_fields pg)). Qed.

(** Filtering keeps the keys distinct. *)
Lemma NoDup_fmap_filter {A B} (f : A → B) (P : A → Prop) `{∀ x, Decision (P x)} (l : list A) :
  NoDup (f <$> l) → NoDup (f <$> filter P l).
Proof.
  induction l as [|x l IH]; [done|]. rewrite fmap_cons, NoDup_cons. intros [Hx Hnd].
  rewrite filter_cons. case_decide; [|auto]. rewrite fmap_cons, NoDup_cons. split; [|auto].
  intros (y & Hy & [_ Hin]%list_elem_of_filter)%list_elem_of_fmap. apply Hx. rewrite Hy.
  by apply list_elem_of_fmap_2.
Qed.

(** With distinct keys, a key of a filtered list belongs to one element. *)
Lemma elem_of_fmap_filter {A B} (f : A → B) (P : A → Prop) `{∀ x, Decision (P x)} (l : list A) x :
  NoDup (f <$> l) → x ∈ l → f x ∈ f <$> filter P l ↔ P x.
Proof.
  intros Hnd Hx. rewrite list_elem_of_fmap. setoid_rewrite list_elem_of_filter. split; [|eauto].
  intros (y & Hy & HP & Hin). cut (x = y); [by intros ->|].
  apply list_elem_of_lookup in Hx as [i Hi], Hin as [j Hj].
  assert (i = j) as ->; [|congruence].
  eapply (NoDup_lookup (f <$> l)); [done|by rewrite list_lookup_fmap, Hi|].
  by rewrite list_lookup_fmap, Hj, Hy.
Qed.

Lemma ex_slices_retained explicit pages :
  NoDup (ep_id <$> pages) →
  ex_slices (aged call <$> filter (λ pg, retained call explicit pg) pages) =
  minus (ep_id <$> dropped call explicit pages) (ex_slices pages).
Proof.
  intros Hnd. apply map_eq. intros i. apply option_eq. intros s. unfold minus.
  rewrite map_lookup_filter_Some, !ex_slices_lookup; [|done|].
  2:{ rewrite aged_map by apply ep_id_aged. by apply NoDup_fmap_filter. }
  simpl. split.
  - intros (q & (pg & -> & [Hret Hin]%list_elem_of_filter)%list_elem_of_fmap & <- & <-).
    rewrite ep_id_aged, (proj1 (aged_fields pg)). split; [eauto|]. unfold dropped.
    rewrite elem_of_fmap_filter by done. rewrite negb_True. auto.
  - intros [(pg & Hin & <- & <-) Hnot]. unfold dropped in Hnot.
    rewrite elem_of_fmap_filter, negb_True in Hnot by done.
    exists (aged call pg). rewrite ep_id_aged, (proj1 (aged_fields pg)). split; [|done].
    apply list_elem_of_fmap_2, list_elem_of_filter. split; [|done]. by apply dec_stable.
Qed.
End Cleanup.

Section Instance_.
Context {S : Type} `{ComputeStorageSpec S}.

Definition exclusive_ready (p : ExclusiveMemoryPool) (avg : f64) (n : N) : Prop :=
  accepts (page_request (ex_alignment p) avg n) ∧ page_request (ex_alignment p) avg n ≤ u64_max.

Lemma exclusive_cleanup_spec p st alloc_nr explicit w cid call :
  exclusive_ok p → refs_with w (ex_slices (ex_pages p)) cid call →
  ex_last_dealloc_check p ≤ alloc_nr →
  wp (ExclusiveMemoryPool_cleanup p st alloc_nr explicit) w (λ '(p', st') w',
    (p', st', w') = (p, st, w) ∨
    (p' = mkExclusive (aged call <$> filter (λ pg, retained call explicit pg) (ex_pages p))
       (ex_alignment p) (ex_dealloc_period p) alloc_nr (ex_max_alloc_size p) (ex_cur_avg_size p) ∧
     allocated st' = without (list_to_set (ep_sid <$> dropped call explicit (ex_pages p))) (allocated st) ∧
     slice_counter w' = slice_counter w ∧ storage_counter w' = storage_counter w ∧
     refs_with w' (ex_slices (ex_pages p')) cid call)).
Proof.
  intros Hok Hr Hclk. unfold ExclusiveMemoryPool_cleanup.
  assert (∀ pg, pg ∈ ex_pages p → ex_slices (ex_pages p) !! ep_id pg = Some (ep_slice pg) ∧
    ep_free_count pg < ALLOC_AFTER_FREE) as Hpages.
  { intros pg Hpg. split; [apply ex_slices_lookup; [apply Hok|eauto]|by apply (xo_pages _ Hok)]. }
  wp_step. eapply wp_mono with (P := λ due w1, w1 = w).
  { destruct explicit; wp_steps; done. }
  intros due w1 ->. destruct due; [|by wp_step; left]. wp_step.
  eapply wp_mono; [apply (exclusive_retain_spec cid call); [done|apply Hok|done]|].
  intros [pages' st'] w' (-> & Hst & Hc & Hs & Hr'). wp_step. right. split_and!; try done.
  cbn [ex_pages]. rewrite ex_slices_retained by apply Hok. done.
Qed.

Lemma exclusive_ok_retained p call explicit alloc_nr :
  exclusive_ok p →
  exclusive_ok (mkExclusive (aged call <$> filter (λ pg, retained call explicit pg) (ex_pages p))
    (ex_alignment p) (ex_dealloc_period p) alloc_nr (ex_max_alloc_size p) (ex_cur_avg_size p)).
Proof.
  intros [O1 O2 O3 O4]. split; cbn [ex_pages ex_alignment]; [done| | |].
  - rewrite aged_map by apply ep_id_aged. by apply NoDup_fmap_filter.
  - rewrite aged_map by apply ep_sid_aged. by apply NoDup_fmap_filter.
  - intros q (pg & -> & [Hret Hin]%list_elem_of_filter)%list_elem_of_fmap.
    destruct (O4 _ Hin) as [P1 P2 P3 P4]. destruct (aged_fields call pg) as [E1 E2].
    split; rewrite ?E1, ?E2; try done. unfold retained in Hret. unfold aged.
    destruct (call (ep_id pg) =? 0); [|done]. cbn.
    destruct (N.leb_spec ALLOC_AFTER_FREE (ep_free_count pg + 1)); [done|lia].
Qed.

#[export] Program Instance ExclusivePool_spec : MemoryPoolSpec S ExclusiveMemoryPool := {
  pool_inv := exclusive_ok;
  slices := λ p, ex_slices (ex_pages p);
  owns := exclusive_owns;
  clock := ex_last_dealloc_check;
  can_reserve := λ _ p n, exclusive_ready p (next_avg (ex_cur_avg_size p) n) n;
  can_alloc := λ _ p n, exclusive_ready p (ex_cur_avg_size p) n ∧ n ≤ ex_max_alloc_size p;
  served := λ p n s, sh_size (sl_storage s) = n ∧ (ex_alignment p | sh_offset (sl_storage s))
}.
Next Obligation.
  intros p i s Hok Hs. apply ex_slices_lookup in Hs as (pg & Hin & <- & <-); [|apply Hok].
  destruct (xo_pages _ Hok _ Hin) as [P1 P2 P3 P4]. split; [done|]. exists (ep_alloc_size pg).
  split; [by exists pg|]. rewrite P1. unfold eff in P2. lia.
Qed.
Next Obligation.
  intros p i j s t Hok Hs Ht Hne [Hid _]. apply Hne.
  apply ex_slices_lookup in Hs as (pg & Hin & <- & <-); [|apply Hok].
  apply ex_slices_lookup in Ht as (q & Hin' & <- & <-); [|apply Hok]. f_equal.
  apply list_elem_of_lookup in Hin as [k Hk], Hin' as [l Hl].
  assert (k = l) as ->; [|congruence].
  eapply (NoDup_lookup _ _ _ _ (xo_sids _ Hok)); [by rewrite list_lookup_fmap, Hk|].
  rewrite list_lookup_fmap, Hl. simpl. unfold ep_sid. by rewrite Hid.
Qed.
Next Obligation. intros p n s [<- _]. done. Qed.
Next Obligation.
  intros p b Hok. simpl. unfold ExclusiveMemoryPool_get.
  destruct (list_find _ _) as [[k pg]|] eqn:E; simpl.
  - apply list_find_Some in E as (Hk & Hid & _). symmetry.
    rewrite (proj2 (ex_slices_lookup _ (bref_id b) (ep_slice pg) (xo_ids _ Hok))); [done|].
    exists pg. split; [by eapply list_elem_of_lookup_2|done].
  - destruct (ex_slices (ex_pages p) !! bref_id b) as [s|] eqn:Hs; [|done].
    apply ex_slices_lookup in Hs as (pg & Hin & Hid & _); [|apply Hok].
    apply list_find_None in E. rewrite Forall_forall in E. by destruct (E _ Hin).
Qed.
Next Obligation.
  intros p st n exclude w cid call Hok Hr [Hacc Hle] Hmax Hw.
  eapply wp_mono; [by apply (exclusive_try_reserve_spec cid call)|].
  intros [res p'] w' (Hok' & Havg & (E1 & E2 & E3) & Hsid & Hal & Hc & Hs & Hres). simpl.
  split_and!; try done; try lia.
  - intros id m.
    assert (∀ q q', ep_sid <$> ex_pages q' = ep_sid <$> ex_pages q →
      ep_alloc_size <$> ex_pages q' = ep_alloc_size <$> ex_pages q →
      exclusive_owns q' id m → exclusive_owns q id m) as Hown; [|split; by apply Hown].
    intros q q' F1 F2 (pg & [k Hk]%list_elem_of_lookup & <- & <-).
    assert ((ep_sid <$> ex_pages q') !! k = (ep_sid <$> ex_pages q) !! k) as G1 by (by rewrite F1).
    assert ((ep_alloc_size <$> ex_pages q') !! k = (ep_alloc_size <$> ex_pages q) !! k) as G2
      by (by rewrite F2).
    rewrite !list_lookup_fmap, Hk in G1. rewrite !list_lookup_fmap, Hk in G2.
    destruct (ex_pages q !! k) as [pg'|] eqn:E; [|done]. injection G1 as G1. injection G2 as G2.
    exists pg'. split; [by eapply list_elem_of_lookup_2|done].
  - destruct res as [h|]; [|by destruct Hres as (-> & _)].
    destruct Hres as (s & s' & Hz & _ & -> & _). intros i t Hi Hlive.
    rewrite lookup_insert_ne; [done|]. intros <-. lia.
  - destruct res as [h|]; [|destruct Hres as (-> & _); auto].
    destruct Hres as (s & s' & Hz & Hh & -> & _). intros i Hi.
    rewrite lookup_insert_is_Some in Hi. destruct Hi as [<-|[_ ?]]; auto.
  - destruct res as [h|].
    + destruct Hres as (s & s' & Hz & Hh & Hsl & Hn & Ho & Hex & Hr'). exists s'.
      split; [by rewrite Hsl, lookup_insert_eq|]. rewrite Ho. split_and!; try done. by exists 0.
    + destruct Hres as (-> & -> & _). split; [|done]. unfold exclusive_ready. by rewrite E1, E2, Havg.
Qed.
Next Obligation.
  intros p st n w cid call Hok Hr [[Hacc Hle] Hmax] Hids Hw1 Hw2.
  eapply wp_mono; [by apply (exclusive_alloc_spec cid call)|].
  intros [[h p'] st'] w' (-> & Hp' & Hok' & Hsl & Hst & Hi & Hci & Hc & Hs & Hr'). simpl.
  split; [done|]. split; [by subst p'|]. split; [by subst p'|]. split.
  { eexists. split; [|exact Hst]. intros id k. subst p'. unfold exclusive_owns; cbn.
    setoid_rewrite elem_of_app. setoid_rewrite list_elem_of_singleton. split.
    - intros (pg & [Hin| ->] & <- & <-); [left; eauto|by right].
    - intros [(pg & Hin & ? & ?)|[-> ->]]; [eauto|]. eexists. split; [by right|done]. }
  rewrite Hsl. split.
  { intros j t Hj. by rewrite lookup_insert_ne by congruence. }
  split. { intros j Hj. rewrite lookup_insert_is_Some in Hj. destruct Hj as [<-|[_ ?]]; auto. }
  split; [lia|]. split; [done|]. eexists. rewrite lookup_insert_eq. split; [done|].
  rewrite <- Hsl. split_and!; try done. by exists 0.
Qed.
Next Obligation.
  intros p st alloc_nr explicit w cid call Hok Hr Hclk.
  eapply wp_mono; [by apply (exclusive_cleanup_spec p st alloc_nr explicit w cid call)|].
  intros [p' st'] w' [[= -> -> ->]|(Hp' & Hst & Hc & Hs & Hr')]; simpl.
  { split_and!; try done. exists ∅. rewrite without_empty. set_solver. }
  assert (ex_slices (ex_pages p') = minus (ep_id <$> dropped call explicit (ex_pages p))
    (ex_slices (ex_pages p))) as Hsl by (subst p'; apply ex_slices_retained, Hok).
  split; [subst p'; by apply exclusive_ok_retained|]. split; [by subst p'|]. split; [by subst p'|].
  split.
  { eexists. split; [|split; [|exact Hst]].
    - intros id (pg & -> & [_ Hin]%list_elem_of_filter)%elem_of_list_to_set%list_elem_of_fmap.
      eexists. by exists pg.
    - intros id m. rewrite elem_of_list_to_set. subst p'. unfold exclusive_owns; cbn [ex_pages]. split.
      + intros (q & (pg & -> & [Hret Hin]%list_elem_of_filter)%list_elem_of_fmap & <- & <-).
        rewrite ep_sid_aged, (proj2 (aged_fields call pg)). split; [eauto|].
        unfold dropped. rewrite elem_of_fmap_filter, negb_True; [auto|apply Hok|done].
      + intros [(pg & Hin & <- & <-) Hnot]. unfold dropped in Hnot.
        rewrite elem_of_fmap_filter, negb_True in Hnot; [|apply Hok|done].
        exists (aged call pg). rewrite ep_sid_aged, (proj2 (aged_fields call pg)). split; [|done].
        apply list_elem_of_fmap_2, list_elem_of_filter. split; [|done].
        by apply dec_stable. }
  split_and!; try done.
  - intros i s Hi Hlive. rewrite Hsl. apply map_lookup_filter_Some. split; [done|]. simpl.
    intros (pg & -> & [Hret Hin]%list_elem_of_filter)%list_elem_of_fmap.
    unfold retained in Hret. rewrite (proj2 (N.eqb_neq _ _)) in Hret by lia. done.
  - rewrite Hsl. apply map_filter_subseteq.
Qed.
End Instance_.
