(* ===== verification/PoolList.v ===== *)
(** * Several pools over one storage

    The memory management keeps a list of pools that share one storage and
    one supply of identifiers.  [pools_ok] relates the strong counts to the
    slices of all the pools and to the references of the clients; the lemmas
    show how an operation on one of the pools carries it over. *)

From S2P Require Import Prelude Ids Storage Slices Ring Usage PageInv RingSpec Pool.

Open Scope N_scope.

(** References of all the views (slice maps) plus those of the clients. *)
Definition all_refs (vs : list (gmap SliceId Slice)) (c : refs) : refs :=
  λ i, foldr (λ v acc, b2n (bool_decide (is_Some (v !! i))) + acc) (c i) vs.

Lemma all_refs_split vs c k v i :
  vs !! k = Some v → all_refs vs c i = pool_refs v (all_refs (delete k vs) c) i.
Proof.
  unfold all_refs, pool_refs. revert k. induction vs as [|u vs IH]; intros [|k] Hk; simplify_eq/=.
  - done.
  - rewrite (IH _ Hk). lia.
Qed.

Lemma all_refs_insert vs c k v v' i :
  vs !! k = Some v → all_refs (<[k := v']> vs) c i = pool_refs v' (all_refs (delete k vs) c) i.
Proof.
  unfold all_refs, pool_refs. revert k. induction vs as [|u vs IH]; intros [|k] Hk; simplify_eq/=.
  - done.
  - rewrite (IH _ Hk). lia.
Qed.

Lemma all_refs_add vs c h i : all_refs vs (add_ref h c) i = add_ref h (all_refs vs c) i.
Proof.
  unfold all_refs, add_ref. induction vs as [|v vs IH]; simpl; [done|]. rewrite IH. lia.
Qed.

Lemma all_refs_ge vs c i : c i ≤ all_refs vs c i.
Proof. unfold all_refs. induction vs as [|v vs IH]; simpl; lia. Qed.

Lemma all_refs_pos vs c k v i :
  vs !! k = Some v → is_Some (v !! i) → 0 < all_refs vs c i.
Proof.
  intros Hk Hi. rewrite (all_refs_split _ _ _ _ _ Hk). unfold pool_refs.
  rewrite bool_decide_eq_true_2 by done. simpl. lia.
Qed.

Lemma all_refs_sub vs c h i :
  0 < c h → all_refs vs (sub_ref h c) i = sub_ref h (all_refs vs c) i.
Proof.
  intros Hh. unfold all_refs, sub_ref. induction vs as [|v vs IH]; simpl; [done|]. rewrite IH.
  case_bool_decide as Hi; simpl; [subst|lia].
  pose proof (all_refs_ge vs c h). unfold all_refs in *. lia.
Qed.

Lemma all_refs_absent vs c i : (∀ v, v ∈ vs → v !! i = None) → all_refs vs c i = c i.
Proof.
  unfold all_refs. induction vs as [|v vs IH]; intros Hv; [done|]. simpl.
  rewrite IH by (intros; apply Hv; by right). rewrite (Hv v) by (by left). done.
Qed.

Section List_.
Context {S P : Type} `{MemoryPoolSpec S P}.

Definition views (ps : list P) : list (gmap SliceId Slice) := slices <$> ps.
(** The references that do not come from the [k]-th pool. *)
Definition others (ps : list P) (k : nat) (c : refs) : refs := all_refs (delete k (views ps)) c.

Record pools_ok (ps : list P) (st : S) (w : World) (count : N) (cid call : refs) : Prop := {
  pl_inv : ∀ p, p ∈ ps → pool_inv p ∧ clock p ≤ count;
  pl_refs : refs_ok w (all_refs (views ps) cid) (all_refs (views ps) call);
  pl_disj : ∀ k l p q i, ps !! k = Some p → ps !! l = Some q →
    is_Some (slices p !! i) → is_Some (slices q !! i) → k = l;
  pl_live : ∀ i, 0 < call i → ∃ p, p ∈ ps ∧ is_Some (slices p !! i);
  pl_owns : ∀ k l p q id n m, ps !! k = Some p → ps !! l = Some q →
    owns p id n → owns q id m → k = l;
  pl_alloc : ∀ id n, allocated st !! id = Some n ↔ ∃ p, p ∈ ps ∧ owns p id n;
  pl_bound : ∀ id, is_Some (allocated st !! id) → storage_value id < storage_counter w
}.

Lemma views_lookup ps k p : ps !! k = Some p → views ps !! k = Some (slices p).
Proof. intros Hk. unfold views. by rewrite list_lookup_fmap, Hk. Qed.

Lemma others_ge ps k c i : c i ≤ others ps k c i.
Proof. apply all_refs_ge. Qed.

(** The reference counts, seen from one pool. *)
Lemma refs_with_others ps st w count cid call k p :
  pools_ok ps st w count cid call → ps !! k = Some p →
  refs_with w (slices p) (others ps k cid) (others ps k call).
Proof.
  intros Hok Hk. eapply refs_ok_ext; [apply Hok|..]; intros i;
    by rewrite (all_refs_split _ _ _ _ _ (views_lookup _ _ _ Hk)).
Qed.

Lemma others_other ps k l q c i :
  ps !! l = Some q → l ≠ k → is_Some (slices q !! i) → 0 < others ps k c i.
Proof.
  intros Hl Hne Hi. destruct (decide (l < k)%nat) as [Hlt|Hge].
  - eapply (all_refs_pos _ _ l); [|done]. rewrite list_lookup_delete_lt by done.
    by apply views_lookup.
  - eapply (all_refs_pos _ _ (l - 1)%nat); [|done]. rewrite list_lookup_delete_ge by lia.
    replace (Datatypes.S (l - 1)) with l by lia. by apply views_lookup.
Qed.

(** One pool changed. *)
Section Update.
Context (ps : list P) (st st' : S) (w w' : World) (count count' : N) (cid call cid' call' : refs)
  (k : nat) (p p' : P).
Context (Hok : pools_ok ps st w count cid call) (Hk : ps !! k = Some p)
  (Hinv : pool_inv p') (Hclock : clock p' ≤ count') (Hcount : count ≤ count')
  (Hrefs : refs_with w' (slices p') (others ps k cid') (others ps k call'))
  (Hnew : ∀ i, is_Some (slices p' !! i) → is_Some (slices p !! i) ∨ others ps k call i = 0)
  (Hlive : ∀ i s, slices p !! i = Some s → 0 < call i → slices p' !! i = Some s)
  (Hcall : ∀ i, 0 < call' i → 0 < call i ∨ is_Some (slices p' !! i))
  (Howns : ∀ id n, owns p' id n → (∃ m, owns p id m) ∨ storage_counter w ≤ storage_value id)
  (Halloc : ∀ id n, allocated st' !! id = Some n ↔
    owns p' id n ∨ ∃ l q, l ≠ k ∧ ps !! l = Some q ∧ owns q id n)
  (Hbound : ∀ id, is_Some (allocated st' !! id) → storage_value id < storage_counter w').

Lemma update_cases l q :
  <[k := p']> ps !! l = Some q → (l = k ∧ q = p') ∨ (l ≠ k ∧ ps !! l = Some q).
Proof.
  intros [(<- & <- & _)|[? ?]]%list_lookup_insert_Some; [by left|right; split; [congruence|done]].
Qed.

Lemma owner_bound l q id n : ps !! l = Some q → owns q id n → storage_value id < storage_counter w.
Proof.
  intros Hl Ho. apply (pl_bound _ _ _ _ _ _ Hok). exists n. apply (pl_alloc _ _ _ _ _ _ Hok).
  exists q. split; [by eapply list_elem_of_lookup_2|done].
Qed.

Lemma pools_ok_update : pools_ok (<[k := p']> ps) st' w' count' cid' call'.
Proof.
  split.
  - intros q [l Hl]%list_elem_of_lookup. apply update_cases in Hl as [[-> ->]|[Hne Hl]]; [done|].
    destruct (pl_inv _ _ _ _ _ _ Hok q) as [? ?]; [by eapply list_elem_of_lookup_2|]. split; [done|lia].
  - unfold views. rewrite list_fmap_insert.
    eapply refs_ok_ext; [exact Hrefs|..]; intros i;
      by rewrite (all_refs_insert _ _ _ _ _ _ (views_lookup _ _ _ Hk)).
  - assert (∀ l q i, l ≠ k → ps !! l = Some q → is_Some (slices q !! i) →
      is_Some (slices p' !! i) → False) as Hx.
    { intros l q i Hne Hl Hq Hp. destruct (Hnew _ Hp) as [Hp0|Hz].
      - by apply Hne, (pl_disj _ _ _ _ _ _ Hok l k q p i).
      - pose proof (others_other ps k l q call i Hl Hne Hq). lia. }
    intros l1 l2 q1 q2 i H1 H2 Hi1 Hi2.
    apply update_cases in H1 as [[-> ->]|[N1 H1]], H2 as [[-> ->]|[N2 H2]].
    + done.
    + by destruct (Hx _ _ _ N2 H2 Hi2 Hi1).
    + by destruct (Hx _ _ _ N1 H1 Hi1 Hi2).
    + by eapply (pl_disj _ _ _ _ _ _ Hok l1 l2).
  - assert (p' ∈ <[k := p']> ps) as Hin.
    { eapply list_elem_of_lookup_2, list_lookup_insert_eq. by eapply lookup_lt_Some. }
    intros i Hi. destruct (Hcall _ Hi) as [Hc|Hc]; [|by eauto].
    destruct (pl_live _ _ _ _ _ _ Hok i Hc) as (q & [l Hl]%list_elem_of_lookup & s & Hs).
    destruct (decide (l = k)) as [->|Hne].
    + exists p'. split; [done|]. assert (q = p) as -> by congruence. exists s. auto.
    + exists q. split; [|by eexists]. eapply (list_elem_of_lookup_2 _ l). by rewrite list_lookup_insert_ne.
  - assert (∀ l q id n m, l ≠ k → ps !! l = Some q → owns q id n → owns p' id m → False) as Hx.
    { intros l q id n m Hne Hl Hq Hp. pose proof (owner_bound _ _ _ _ Hl Hq).
      destruct (Howns _ _ Hp) as [[m' Hp0]|Hz]; [|lia].
      by apply Hne, (pl_owns _ _ _ _ _ _ Hok l k q p id n m'). }
    intros l1 l2 q1 q2 id n m H1 H2 Hi1 Hi2.
    apply update_cases in H1 as [[-> ->]|[N1 H1]], H2 as [[-> ->]|[N2 H2]].
    + done.
    + by destruct (Hx _ _ _ _ _ N2 H2 Hi2 Hi1).
    + by destruct (Hx _ _ _ _ _ N1 H1 Hi1 Hi2).
    + by eapply (pl_owns _ _ _ _ _ _ Hok l1 l2).
  - intros id n. rewrite Halloc. split.
    + intros [Ho|(l & q & Hne & Hl & Ho)].
      * exists p'. split; [|done]. eapply list_elem_of_lookup_2, list_lookup_insert_eq.
        by eapply lookup_lt_Some.
      * exists q. split; [|done]. eapply (list_elem_of_lookup_2 _ l). by rewrite list_lookup_insert_ne.
    + intros (q & [l Hl]%list_elem_of_lookup & Ho).
      apply update_cases in Hl as [[-> ->]|[Hne Hl]]; [by left|right; eauto].
  - done.
Qed.
End Update.

(** The slice an id stands for, and that it is kept while referenced. *)
Definition slice_of (ps : list P) (i : SliceId) (s : Slice) : Prop :=
  ∃ p, p ∈ ps ∧ slices p !! i = Some s.
Definition keeps_live (call : refs) (ps ps' : list P) : Prop :=
  ∀ i s, slice_of ps i s → 0 < call i → slice_of ps' i s.

Lemma keeps_live_update call ps k p p' :
  ps !! k = Some p →
  (∀ i s, slices p !! i = Some s → 0 < call i → slices p' !! i = Some s) →
  keeps_live call ps (<[k := p']> ps).
Proof.
  intros Hk Hlive i s (q & [l Hl]%list_elem_of_lookup & Hs) Hi.
  destruct (decide (l = k)) as [->|Hne].
  - exists p'. assert (q = p) as -> by congruence. split; [|by apply Hlive].
    eapply list_elem_of_lookup_2, list_lookup_insert_eq. by eapply lookup_lt_Some.
  - exists q. split; [|done]. eapply (list_elem_of_lookup_2 _ l). by rewrite list_lookup_insert_ne.
Qed.

Lemma keeps_live_trans call ps1 ps2 ps3 :
  keeps_live call ps1 ps2 → keeps_live call ps2 ps3 → keeps_live call ps1 ps3.
Proof. unfold keeps_live. eauto. Qed.

Lemma slice_of_insert ps k p p' i s :
  ps !! k = Some p → slices p' !! i = Some s → slice_of (<[k := p']> ps) i s.
Proof.
  intros Hk Hs. exists p'. split; [|done].
  eapply list_elem_of_lookup_2, list_lookup_insert_eq. by eapply lookup_lt_Some.
Qed.

Lemma refs_with_add w v ps k cid call h :
  refs_with w v (add_ref h (others ps k cid)) (add_ref h (others ps k call)) →
  refs_with w v (others ps k (add_ref h cid)) (others ps k (add_ref h call)).
Proof.
  intros Hr. eapply refs_ok_ext; [exact Hr|..]; intros i; unfold pool_refs, others;
    by rewrite all_refs_add.
Qed.

Lemma add_ref_cases h (call : refs) i : 0 < add_ref h call i → 0 < call i ∨ i = h.
Proof. unfold add_ref. case_bool_decide; simpl; [by right|left; lia]. Qed.

(** Storages of the other pools are not affected. *)
Lemma alloc_others ps st w count cid call k p :
  pools_ok ps st w count cid call → ps !! k = Some p →
  ∀ id n, allocated st !! id = Some n ↔
    owns p id n ∨ ∃ l q, l ≠ k ∧ ps !! l = Some q ∧ owns q id n.
Proof.
  intros Hok Hk id n. rewrite (pl_alloc _ _ _ _ _ _ Hok). split.
  - intros (q & [l Hl]%list_elem_of_lookup & Ho).
    destruct (decide (l = k)) as [->|Hne]; [left; congruence|right; eauto].
  - intros [Ho|(l & q & _ & Hl & Ho)]; eexists; split; eauto using list_elem_of_lookup_2.
Qed.

Section Ops.
Context (ps : list P) (st : S) (w : World) (count : N) (cid call : refs) (k : nat) (p : P).
Context (Hok : pools_ok ps st w count cid call) (Hk : ps !! k = Some p).

Lemma pool_k : pool_inv p ∧ clock p ≤ count.
Proof using Hok Hk. apply (pl_inv _ _ _ _ _ _ Hok). by eapply list_elem_of_lookup_2. Qed.

Lemma others_live i : 0 < call i → 0 < others ps k call i.
Proof using. intros Hi. pose proof (others_ge ps k call i). lia. Qed.

Lemma others_free i : others ps k call i = 0 → call i = 0.
Proof using. intros Hi. pose proof (others_ge ps k call i). lia. Qed.

Lemma pools_try_reserve n exclude :
  can_reserve st p n → n ≤ mp_max_alloc_size p → slice_counter w < usize_max →
  wp (mp_try_reserve p n exclude) w (λ '(res, p') w',
    let ps' := <[k := p']> ps in
    keeps_live call ps ps' ∧ mp_max_alloc_size p' = mp_max_alloc_size p ∧
    slice_counter w' ≤ slice_counter w + 1 ∧ storage_counter w' = storage_counter w ∧
    match res with
    | Some h => ∃ s, slices p' !! href_id h = Some s ∧ served p' n s ∧ call (href_id h) = 0 ∧
        excluded_by exclude (sh_id (sl_storage s)) = false ∧
        pools_ok ps' st w' count (add_ref (href_id h) cid) (add_ref (href_id h) call)
    | None => can_alloc st p' n ∧ pools_ok ps' st w' count cid call
    end).
Proof using Hok Hk.
  intros Hcan Hmax Hw. destruct pool_k as [Hinv Hclk].
  eapply wp_mono; [by eapply (mp_try_reserve_ok p st n exclude w);
    [|by eapply refs_with_others| | |]|].
  intros [res p'] w' (I1 & I2 & I3 & I4 & I5 & I6 & I7 & I8 & Hres).
  assert (∀ i s, slices p !! i = Some s → 0 < call i → slices p' !! i = Some s) as Hlive
    by eauto using others_live.
  assert (∀ cid' call', refs_with w' (slices p') (others ps k cid') (others ps k call') →
    (∀ i, 0 < call' i → 0 < call i ∨ is_Some (slices p' !! i)) →
    pools_ok (<[k := p']> ps) st w' count cid' call') as Hupd.
  { intros cid' call' Hr' Hc'. eapply pools_ok_update; eauto; try lia.
    - intros id n' Ho. left. exists n'. by apply I3.
    - intros id n'. rewrite (alloc_others _ _ _ _ _ _ _ _ Hok Hk). by rewrite I3.
    - rewrite I8. apply Hok. }
  split; [by eapply keeps_live_update|]. split; [done|]. split; [done|]. split; [done|].
  destruct res as [h|].
  - destruct Hres as (s & Hs & Hserved & Hz & Hexc & Hr'). exists s.
    split_and!; try done; [by apply others_free|]. apply Hupd; [by apply refs_with_add|].
    intros i [?| ->]%add_ref_cases; [by left|right; by eexists].
  - destruct Hres as [Hca Hr']. split; [done|]. apply Hupd; [done|auto].
Qed.

Lemma pools_alloc n :
  can_alloc st p n →
  slice_counter w + 2 ≤ usize_max → storage_counter w < usize_max →
  wp (mp_alloc p st n) w (λ '(h, p', st') w',
    let ps' := <[k := p']> ps in
    keeps_live call ps ps' ∧ mp_max_alloc_size p' = mp_max_alloc_size p ∧
    slice_counter w' ≤ slice_counter w + 2 ∧ storage_counter w' = storage_counter w + 1 ∧
    (∃ m, allocated st' = <[mkStorageId (storage_counter w) := m]> (allocated st)) ∧
    ∃ s, slices p' !! href_id h = Some s ∧ served p' n s ∧ call (href_id h) = 0 ∧
      pools_ok ps' st' w' count (add_ref (href_id h) cid) (add_ref (href_id h) call)).
Proof using Hok Hk.
  intros Hcan Hw1 Hw2. destruct pool_k as [Hinv Hclk].
  assert (∀ id m, owns p id m → storage_value id < storage_counter w) as Hids.
  { intros id m. by eapply owner_bound. }
  eapply wp_mono; [by eapply (mp_alloc_ok p st n w); [|by eapply refs_with_others| | | |]|].
  intros [[h p'] st'] w' (I1 & I2 & I3 & (m & Ho & Ha) & I5 & I6 & I7 & I8 & s & Hs & Hserved & Hz & Hr').
  split; [by eapply keeps_live_update; eauto|]. split; [done|]. split; [done|]. split; [done|].
  split; [by exists m|]. exists s. split_and!; try done; [by apply others_free|].
  assert (allocated st !! mkStorageId (storage_counter w) = None) as Hfresh.
  { destruct (allocated st !! _) eqn:E; [|done].
    pose proof (pl_bound _ _ _ _ _ _ Hok _ (mk_is_Some _ _ E)) as Hlt. simpl in Hlt. lia. }
  eapply pools_ok_update; eauto; try lia.
  - by apply refs_with_add.
  - intros i [?| ->]%add_ref_cases; [by left|right; by eexists].
  - intros id n' [?|[-> _]]%Ho; [left; eauto|right; done].
  - intros id n'. rewrite Ha, lookup_insert_Some, Ho, (alloc_others _ _ _ _ _ _ _ _ Hok Hk).
    split; [naive_solver|]. intros [[Hp|[-> ->]]|Hq]; [|by left|].
    + right. split; [|by left]. intros <-. specialize (Hids _ _ Hp). simpl in Hids. lia.
    + right. split; [|by right]. intros <-. destruct Hq as (l & q & _ & Hl & Hq).
      pose proof (owner_bound _ _ _ _ _ _ Hok _ _ _ _ Hl Hq) as Hlt. simpl in Hlt. lia.
  - intros id Hid. rewrite Ha, lookup_insert_is_Some in Hid. rewrite I8.
    destruct Hid as [<-|[_ Hid]]; simpl; [lia|]. pose proof (pl_bound _ _ _ _ _ _ Hok _ Hid). lia.
Qed.

Lemma pools_cleanup explicit :
  wp (mp_cleanup p st count explicit) w (λ '(p', st') w',
    let ps' := <[k := p']> ps in
    keeps_live call ps ps' ∧ mp_max_alloc_size p' = mp_max_alloc_size p ∧
    slice_counter w' = slice_counter w ∧ storage_counter w' = storage_counter w ∧
    pools_ok ps' st' w' count cid call).
Proof using Hok Hk.
  destruct pool_k as [Hinv Hclk].
  eapply wp_mono; [by eapply (mp_cleanup_ok p st count explicit w); [|by eapply refs_with_others|]|].
  intros [p' st'] w' (I1 & I2 & I3 & (gone & G1 & G2 & G3) & I5 & I6 & I7 & I8 & Hr').
  assert (∀ i s, slices p !! i = Some s → 0 < call i → slices p' !! i = Some s) as Hlive
    by eauto using others_live.
  split; [by eapply keeps_live_update|]. split_and!; try done.
  eapply pools_ok_update; eauto; try lia.
  - intros i [s Hi]. left. exists s. eapply lookup_weaken; eauto.
  - intros id n [Ho _]%G2. left. eauto.
  - intros id n. unfold without in G3. rewrite G3, map_lookup_filter_Some, G2; simpl.
    rewrite (alloc_others _ _ _ _ _ _ _ _ Hok Hk). split; [naive_solver|].
    intros [[? ?]|(l & q & Hne & Hl & Ho)]; [by auto|]. split; [by right; eauto|].
    intros Hg. destruct (G1 _ Hg) as [m Hm]. by apply Hne, (pl_owns _ _ _ _ _ _ Hok l k q p id n m).
  - intros id [n Hn]. unfold without in G3. rewrite G3, map_lookup_filter_Some in Hn.
    rewrite I8. apply (pl_bound _ _ _ _ _ _ Hok). exists n. apply Hn.
Qed.
End Ops.
End List_.
