(* ===== verification/MemoryManagement.v ===== *)
(** * The memory management

    Model of [memory_management/memory_manage.rs] and of the configuration
    types of [memory_management/mod.rs]: the pools are built from a
    configuration, every request goes to the first pool that accepts its
    size, and a free page or slice is reused before a new one is allocated. *)

From S2P Require Import Prelude Ids Storage Slices Ring Usage SlicedPool Pool StaticPool DeviceNum.
From S2P Require Import ExclusivePool.

Open Scope N_scope.
Open Scope rust_scope.

Inductive DynamicPool :=
| Sliced (m : SlicedPool)
| Exclusive (m : ExclusiveMemoryPool).

Section Dispatch.
Context {S : Type} `{ComputeStorage S}.

Definition DynamicPool_get (p : DynamicPool) (b : SliceBinding) : option StorageHandle :=
  match p with
  | Sliced m => SlicedPool_get m b
  | Exclusive m => ExclusiveMemoryPool_get m b
  end.

Definition DynamicPool_try_reserve (p : DynamicPool) (size : N) (exclude : option StorageExclude)
  : M World (option SliceHandle * DynamicPool) :=
  match p with
  | Sliced m => let! '(r, m) := SlicedPool_try_reserve m size exclude in ret (r, Sliced m)
  | Exclusive m =>
      let! '(r, m) := ExclusiveMemoryPool_try_reserve m size exclude in ret (r, Exclusive m)
  end.

Definition DynamicPool_alloc (p : DynamicPool) (storage : S) (size : N)
  : M World (SliceHandle * DynamicPool * S) :=
  match p with
  | Sliced m =>
      let! '(h, m, storage) := SlicedPool_alloc m storage size in ret (h, Sliced m, storage)
  | Exclusive m =>
      let! '(h, m, storage) := ExclusiveMemoryPool_alloc m storage size in
      ret (h, Exclusive m, storage)
  end.

Definition DynamicPool_get_memory_usage (w : World) (p : DynamicPool) : outcome MemoryUsage :=
  match p with
  | Sliced m => SlicedPool_get_memory_usage w m
  | Exclusive m => ExclusiveMemoryPool_get_memory_usage w m
  end.

Definition DynamicPool_max_alloc_size (p : DynamicPool) : N :=
  match p with
  | Sliced m => sp_max_alloc_size m
  | Exclusive m => ex_max_alloc_size m
  end.

Definition DynamicPool_cleanup (p : DynamicPool) (storage : S) (alloc_nr : N) (explicit : bool)
  : M World (DynamicPool * S) :=
  match p with
  | Sliced m =>
      let! '(m, storage) := SlicedPool_cleanup m storage alloc_nr explicit in
      ret (Sliced m, storage)
  | Exclusive m =>
      let! '(m, storage) := ExclusiveMemoryPool_cleanup m storage alloc_nr explicit in
      ret (Exclusive m, storage)
  end.

#[export] Instance DynamicPool_MemoryPool : MemoryPool S DynamicPool := {
  mp_max_alloc_size := DynamicPool_max_alloc_size;
  mp_get := DynamicPool_get;
  mp_try_reserve := DynamicPool_try_reserve;
  mp_alloc := DynamicPool_alloc;
  mp_get_memory_usage := DynamicPool_get_memory_usage;
  mp_cleanup := DynamicPool_cleanup
}.
End Dispatch.

(** ** Configuration *)

Inductive PoolType :=
| ExclusivePages_ (max_alloc_size : N)
| SlicedPages (page_size max_slice_size : N).

Record MemoryPoolOptions := mkOptions { pool_type : PoolType; dealloc_period : option N }.

Inductive MemoryConfiguration :=
| SubSlices
| ExclusivePages
| Custom (pool_options : list MemoryPoolOptions).

Definition MemoryConfiguration_default (exclusive_memory_only : bool) : MemoryConfiguration :=
  if exclusive_memory_only then ExclusivePages else SubSlices.

Record MemoryDeviceProperties := mkProps { max_page_size : N; alignment : N }.

Inductive MemoryAllocationMode := Auto | Static.

Record MemoryManagement (S : Type) := mkManagement {
  mm_static_pool : StaticPool;
  mm_pools : list DynamicPool;
  mm_storage : S;
  mm_alloc_reserve_count : N;
  mm_mode : MemoryAllocationMode
}.
Arguments mkManagement {S} _ _ _ _ _.
Arguments mm_static_pool {S} _.
Arguments mm_pools {S} _.
Arguments mm_storage {S} _.
Arguments mm_alloc_reserve_count {S} _.
Arguments mm_mode {S} _.

Definition MB : N := 1024 * 1024.
Definition DEALLOC_SCALE_MB : N := 1024 * 1024 * 1024.
Definition BASE_DEALLOC_PERIOD : N := 5000.
Definition MIN_BUCKET_SIZE : N := 1024 * 32.
Definition NUM_POOLS : nat := 24.

(** [2u64.pow(exp)]. *)
Definition pow2_u64 (exp : N) : outcome N :=
  if 2 ^ exp <=? u64_max then Ret (2 ^ exp) else Panic "attempt to multiply with overflow".

(** The [while current >= 32 * MB] loop; the two vectors are returned in the
    order in which they are pushed. *)
Fixpoint sub_slices_loop (fuel : nat) (memory_alignment current base : N)
  (max_sizes page_sizes : list N) : outcome (list N * list N) :=
  match fuel with
  | O => OutOfFuel
  | Datatypes.S fuel =>
      if 32 * MB <=? current then
        let? current := next_multiple_of u64_max (current / 4) memory_alignment in
        let? d := pow2_u64 base in
        let? m := checked_div current d in
        let? base := checked_add u32_max base 1 in
        sub_slices_loop fuel memory_alignment current base (max_sizes ++ [m]) (page_sizes ++ [current])
      else Ret (max_sizes, page_sizes)
  end.

(** The loop at least halves [current], see [sub_slices_loop_spec]. *)
Definition sub_slices_fuel : nat := 64.

Definition sub_slices_options (props : MemoryDeviceProperties) : outcome (list MemoryPoolOptions) :=
  let memory_alignment := alignment props in
  let max_page := max_page_size props in
  let pools := [mkOptions (ExclusivePages_ 0) None] in
  let? '(max_sizes, page_sizes) :=
    sub_slices_loop sub_slices_fuel memory_alignment max_page (N.of_nat (length pools)) [] [] in
  let sliced := zip_with (λ max page_size, mkOptions (SlicedPages page_size max) None)
    (reverse max_sizes) (reverse page_sizes) in
  let? q := checked_div max_page memory_alignment in
  let? last := checked_mul u64_max q memory_alignment in
  Ret (pools ++ sliced ++ [mkOptions (SlicedPages last last) None]).

(** [Vec::dedup]: drops consecutive repetitions. *)
Fixpoint dedup_from (x : N) (l : list N) : list N :=
  match l with
  | [] => []
  | y :: l => if y =? x then dedup_from x l else y :: dedup_from y l
  end.
Definition dedup (l : list N) : list N :=
  match l with
  | [] => []
  | x :: l => x :: dedup_from x l
  end.

Fixpoint sequence {A : Type} (l : list (outcome A)) : outcome (list A) :=
  match l with
  | [] => Ret []
  | o :: l => let? x := o in let? xs := sequence l in Ret (x :: xs)
  end.

Section Buckets.
(** [f64::ln] and [f64::exp] have unspecified precision. *)
Context (ln exp : f64 → f64).

Definition bucket_size (log_min log_range : f64) (max_buckets : nat) (alignment : N) (i : nat)
  : outcome N :=
  let p := f64_div (f64_of_u64 (N.of_nat i)) (f64_of_u64 (N.of_nat (max_buckets - 1))) in
  let log_size := f64_add log_min (f64_mul log_range p) in
  let size := f64_to_u64 (exp log_size) in
  next_multiple_of u64_max size alignment.

Definition generate_bucket_sizes (start_size end_size : N) (max_buckets : nat) (alignment : N)
  : outcome (list N) :=
  let log_min := ln (f64_of_u64 start_size) in
  let log_max := ln (f64_of_u64 end_size) in
  let log_range := f64_sub log_max log_min in
  let? buckets := sequence (bucket_size log_min log_range max_buckets alignment <$> seq 0 max_buckets) in
  Ret (dedup buckets).

Definition bucket_dealloc_period (size : N) : N :=
  f64_to_u64 (f64_mul (f64_of_u64 BASE_DEALLOC_PERIOD)
    (f64_round (f64_add f64_one (f64_div (f64_of_u64 size) (f64_of_u64 DEALLOC_SCALE_MB))))).

Definition exclusive_options (props : MemoryDeviceProperties) : outcome (list MemoryPoolOptions) :=
  let? sizes := generate_bucket_sizes MIN_BUCKET_SIZE (max_page_size props) NUM_POOLS (alignment props) in
  Ret ((λ size, mkOptions (ExclusivePages_ size) (Some (bucket_dealloc_period size))) <$> sizes).

Definition build_pool (props : MemoryDeviceProperties) (options : MemoryPoolOptions) : outcome DynamicPool :=
  match pool_type options with
  | SlicedPages page_size max_slice_size =>
      let? m := SlicedPool_new page_size max_slice_size (alignment props) in Ret (Sliced m)
  | ExclusivePages_ max_alloc_size =>
      let? m := ExclusiveMemoryPool_new max_alloc_size (alignment props)
                  (default u64_max (dealloc_period options)) in
      Ret (Exclusive m)
  end.

Definition config_options (props : MemoryDeviceProperties) (config : MemoryConfiguration)
  : outcome (list MemoryPoolOptions) :=
  match config with
  | SubSlices => sub_slices_options props
  | ExclusivePages => exclusive_options props
  | Custom pool_options => Ret pool_options
  end.

Definition from_configuration {S} (storage : S) (props : MemoryDeviceProperties)
  (config : MemoryConfiguration) : outcome (MemoryManagement S) :=
  let? pool_options := config_options props config in
  let? pools := sequence (build_pool props <$> pool_options) in
  Ret (mkManagement (StaticPool_new (max_page_size props)) pools storage 0 Auto).
End Buckets.

(** ** Operations *)

Section Manage.
Context {S : Type} `{ComputeStorage S}.

Definition mm_set_mode (mm : MemoryManagement S) (mode : MemoryAllocationMode) : MemoryManagement S :=
  mkManagement (mm_static_pool mm) (mm_pools mm) (mm_storage mm) (mm_alloc_reserve_count mm) mode.

Fixpoint cleanup_pools (pools : list DynamicPool) (storage : S) (alloc_nr : N) (explicit : bool)
  : M World (list DynamicPool * S) :=
  match pools with
  | [] => ret ([], storage)
  | pool :: rest =>
      let! '(pool, storage) := DynamicPool_cleanup pool storage alloc_nr explicit in
      let! '(rest, storage) := cleanup_pools rest storage alloc_nr explicit in
      ret (pool :: rest, storage)
  end.

Definition mm_cleanup (mm : MemoryManagement S) (explicit : bool) : M World (MemoryManagement S) :=
  let! '(static_pool, storage) :=
    StaticPool_cleanup (mm_static_pool mm) (mm_storage mm) (mm_alloc_reserve_count mm) explicit in
  let! '(pools, storage) :=
    cleanup_pools (mm_pools mm) storage (mm_alloc_reserve_count mm) explicit in
  ret (mkManagement static_pool pools storage (mm_alloc_reserve_count mm) (mm_mode mm)).

Fixpoint find_map_get (pools : list DynamicPool) (b : SliceBinding) : option StorageHandle :=
  match pools with
  | [] => None
  | p :: rest => match DynamicPool_get p b with Some h => Some h | None => find_map_get rest b end
  end.

(** [get] takes the binding by value and drops it. *)
Definition mm_lookup (mm : MemoryManagement S) (b : SliceBinding) : option StorageHandle :=
  match StaticPool_get (mm_static_pool mm) b with
  | Some h => Some h
  | None => find_map_get (mm_pools mm) b
  end.

Definition mm_get (mm : MemoryManagement S) (b : SliceBinding) : M World (option StorageHandle) :=
  let r := mm_lookup mm b in
  let! _ := BindingRef_drop b in
  ret r.

Definition mm_get_resource (mm : MemoryManagement S) (b : SliceBinding)
  (offset_start offset_end : option N) : M World (option Resource) :=
  let! handle := mm_get mm b in
  match handle with
  | None => ret None
  | Some handle =>
      let! handle := lift (match offset_start with
                           | Some offset => sh_offset_start handle offset
                           | None => Ret handle
                           end) in
      let! handle := lift (match offset_end with
                           | Some offset => sh_offset_end handle offset
                           | None => Ret handle
                           end) in
      let! r := lift (cs_get handle (mm_storage mm)) in
      ret (Some r)
  end.

(** The first pool that accepts the size, with its position. *)
Definition find_pool (pools : list DynamicPool) (size : N) : option (nat * DynamicPool) :=
  list_find (λ p, size ≤ DynamicPool_max_alloc_size p) pools.

Definition mm_reserve (mm : MemoryManagement S) (size : N) (exclude : option StorageExclude)
  : M World (SliceHandle * MemoryManagement S) :=
  match mm_mode mm with
  | Static =>
      let! '(h, static_pool, storage) := StaticPool_alloc (mm_static_pool mm) (mm_storage mm) size in
      ret (h, mkManagement static_pool (mm_pools mm) storage (mm_alloc_reserve_count mm) (mm_mode mm))
  | Auto =>
      let! count := lift (checked_add u64_max (mm_alloc_reserve_count mm) 1) in
      let! '(k, pool) := lift (expect (find_pool (mm_pools mm) size) "No pool handles allocation of size") in
      let! '(slice, pool) := DynamicPool_try_reserve pool size exclude in
      match slice with
      | Some slice =>
          ret (slice, mkManagement (mm_static_pool mm) (<[k := pool]> (mm_pools mm)) (mm_storage mm)
                        count (mm_mode mm))
      | None =>
          let! '(h, pool, storage) := DynamicPool_alloc pool (mm_storage mm) size in
          ret (h, mkManagement (mm_static_pool mm) (<[k := pool]> (mm_pools mm)) storage
                    count (mm_mode mm))
      end
  end.

Fixpoint fold_usage (w : World) (acc : MemoryUsage) (pools : list DynamicPool) : outcome MemoryUsage :=
  match pools with
  | [] => Ret acc
  | p :: rest =>
      let? u := DynamicPool_get_memory_usage w p in
      let? acc := MemoryUsage_combine acc u in
      fold_usage w acc rest
  end.

Definition mm_memory_usage (w : World) (mm : MemoryManagement S) : outcome MemoryUsage :=
  let? usage := fold_usage w usage_zero (mm_pools mm) in
  let? st := StaticPool_get_memory_usage w (mm_static_pool mm) in
  MemoryUsage_combine usage st.
End Manage.
