(* ===== verification/ManageSpec.v ===== *)
(** * Correctness of the memory management *)

From S2P Require Import Prelude Ids Storage Slices Ring Usage PageInv RingSpec SlicedPool Pool StaticPool.
From S2P Require Import SlicedPoolSpec DeviceNum ExclusivePool ExclusivePoolSpec PoolList MemoryManagement.

Open Scope N_scope.
Open Scope rust_scope.

Unset Program Cases.

(** The pools of a manager: the static one or a dynamic one. *)
Abbreviation AnyPool := (sum StaticPool DynamicPool).

Section Dynamic.
Context {S : Type} `{ComputeStorageSpec S}.

Definition dynamic_alignment (p : DynamicPool) : N :=
  match p with Sliced m => sp_alignment m | Exclusive m => ex_alignment m end.

#[export] Program Instance DynamicPool_spec : MemoryPoolSpec S DynamicPool := {
  pool_inv := λ p, match p with Sliced m => pool_inv m | Exclusive m => pool_inv m end;
  slices := λ p, match p with Sliced m => slices m | Exclusive m => slices m end;
  owns := λ p, match p with Sliced m => owns m | Exclusive m => owns m end;
  clock := λ p, match p with Sliced m => clock m | Exclusive m => clock m end;
  can_reserve := λ st p, match p with Sliced m => can_reserve st m | Exclusive m => can_reserve st m end;
  can_alloc := λ st p, match p with Sliced m => can_alloc st m | Exclusive m => can_alloc st m end;
  served := λ p n s, sh_size (sl_storage s) = n ∧ (dynamic_alignment p | sh_offset (sl_storage s))
}.
Next Obligation. intros [m|m] i s; apply mp_slice. Qed.
Next Obligation. intros [m|m] i j s t; apply mp_disjoint. Qed.
Next Obligation. intros [m|m] n s [<- _]; done. Qed.
Next Obligation. intros [m|m] b Hok; exact (mp_get_ok m b Hok). Qed.
Next Obligation.
  intros [m|m] st n exclude w cid call Hok Hr Hcan Hmax Hw; apply wp_bind;
    refine (wp_mono _ _ _ _ (mp_try_reserve_ok m st n exclude w cid call Hok Hr Hcan Hmax Hw) _);
    intros [res m'] w' Hpost; exact Hpost.
Qed.
Next Obligation.
  intros [m|m] st n w cid call Hok Hr Hcan Hids Hw1 Hw2; apply wp_bind;
    refine (wp_mono _ _ _ _ (mp_alloc_ok m st n w cid call Hok Hr Hcan Hids Hw1 Hw2) _);
    intros [[h m'] st'] w' Hpost; exact Hpost.
Qed.
Next Obligation.
  intros [m|m] st alloc_nr explicit w cid call Hok Hr Hclk; apply wp_bind;
    refine (wp_mono _ _ _ _ (mp_cleanup_ok m st alloc_nr explicit w cid call Hok Hr Hclk) _);
    intros [m' st'] w' Hpost; exact Hpost.
Qed.

(** ** The pools of a manager: the static one first *)

#[export] Instance AnyPool_MemoryPool : MemoryPool S AnyPool := {
  mp_max_alloc_size := λ p, match p with inl m => mp_max_alloc_size m | inr m => mp_max_alloc_size m end;
  mp_get := λ p, match p with inl m => mp_get m | inr m => mp_get m end;
  mp_try_reserve := λ p n e, match p with
    | inl m => let! '(r, m) := mp_try_reserve m n e in ret (r, inl m)
    | inr m => let! '(r, m) := mp_try_reserve m n e in ret (r, inr m)
    end;
  mp_alloc := λ p st n, match p with
    | inl m => let! '(h, m, st) := mp_alloc m st n in ret (h, inl m, st)
    | inr m => let! '(h, m, st) := mp_alloc m st n in ret (h, inr m, st)
    end;
  mp_get_memory_usage := λ w p, match p with
    | inl m => mp_get_memory_usage w m
    | inr m => mp_get_memory_usage w m
    end;
  mp_cleanup := λ p st nr e, match p with
    | inl m => let! '(m, st) := mp_cleanup m st nr e in ret (inl m, st)
    | inr m => let! '(m, st) := mp_cleanup m st nr e in ret (inr m, st)
    end
}.

#[export] Program Instance AnyPool_spec : MemoryPoolSpec S AnyPool := {
  pool_inv := λ p, match p with inl m => pool_inv m | inr m => pool_inv m end;
  slices := λ p, match p with inl m => slices m | inr m => slices m end;
  owns := λ p, match p with inl m => owns m | inr m => owns m end;
  clock := λ p, match p with inl m => clock m | inr m => clock m end;
  can_reserve := λ st p, match p with inl m => can_reserve st m | inr m => can_reserve st m end;
  can_alloc := λ st p, match p with inl m => can_alloc st m | inr m => can_alloc st m end;
  served := λ p, match p with inl m => served m | inr m => served m end
}.
Next Obligation. intros [m|m] i s; apply mp_slice. Qed.
Next Obligation. intros [m|m] i j s t; apply mp_disjoint. Qed.
Next Obligation. intros [m|m] n s; apply mp_served. Qed.
Next Obligation. intros [m|m] b Hok; exact (mp_get_ok m b Hok). Qed.
Next Obligation.
  intros [m|m] st n exclude w cid call Hok Hr Hcan Hmax Hw; apply wp_bind;
    refine (wp_mono _ _ _ _ (mp_try_reserve_ok m st n exclude w cid call Hok Hr Hcan Hmax Hw) _);
    intros [res m'] w' Hpost; exact Hpost.
Qed.
Next Obligation.
  intros [m|m] st n w cid call Hok Hr Hcan Hids Hw1 Hw2; apply wp_bind;
    refine (wp_mono _ _ _ _ (mp_alloc_ok m st n w cid call Hok Hr Hcan Hids Hw1 Hw2) _);
    intros [[h m'] st'] w' Hpost; exact Hpost.
Qed.
Next Obligation.
  intros [m|m] st alloc_nr explicit w cid call Hok Hr Hclk; apply wp_bind;
    refine (wp_mono _ _ _ _ (mp_cleanup_ok m st alloc_nr explicit w cid call Hok Hr Hclk) _);
    intros [m' st'] w' Hpost; exact Hpost.
Qed.
End Dynamic.

Lemma wp_bind_inv {W A B} (m : M W A) (k : A → M W B) (w : W) (Q : B → W → Prop) :
  wp (bind m k) w Q → wp m w (λ a w', wp (k a) w' Q).
Proof. unfold wp, bind. by destruct (m w) as [[a w']| |]. Qed.

Section Manager.
Context {S : Type} `{ComputeStorageSpec S}.

Definition pools_of (mm : MemoryManagement S) : list AnyPool :=
  inl (mm_static_pool mm) :: (inr <$> mm_pools mm).

Definition mm_ok (mm : MemoryManagement S) (w : World) (cid call : refs) : Prop :=
  pools_ok (pools_of mm) (mm_storage mm) w (mm_alloc_reserve_count mm) cid call.

(** What a reservation needs: a pool for the size whose next page the
    storage can provide. *)
Definition can_serve (mm : MemoryManagement S) (n : N) : Prop :=
  match mm_mode mm with
  | Static => can_alloc (mm_storage mm) (mm_static_pool mm) n
  | Auto => mm_alloc_reserve_count mm < u64_max ∧
      ∃ k p, find_pool (mm_pools mm) n = Some (k, p) ∧ can_reserve (mm_storage mm) p n
  end.

(** The slice handed out for a request. *)
Definition granted (mm : MemoryManagement S) (n : N) (s : Slice) : Prop :=
  match mm_mode mm with
  | Static => n ≤ sh_size (sl_storage s) ∧ sh_offset (sl_storage s) = 0
  | Auto => sh_size (sl_storage s) = n ∧
      ∃ p, p ∈ mm_pools mm ∧ n ≤ DynamicPool_max_alloc_size p ∧
        (dynamic_alignment p | sh_offset (sl_storage s))
  end.

Lemma pools_ok_count ps (st : S) w count count' cid call :
  pools_ok (P := AnyPool) ps st w count cid call → count ≤ count' →
  pools_ok ps st w count' cid call.
Proof.
  intros [] Hle. split; auto. intros p Hp. destruct (pl_inv p Hp). split; [done|lia].
Qed.

Definition reserved_post (mm : MemoryManagement S) (n : N) (cid call : refs)
  (r : SliceHandle * MemoryManagement S) (w' : World) : Prop :=
  let '(h, mm') := r in
  mm_ok mm' w' (add_ref (href_id h) cid) (add_ref (href_id h) call) ∧
  keeps_live call (pools_of mm) (pools_of mm') ∧
  mm_mode mm' = mm_mode mm ∧ call (href_id h) = 0 ∧
  DynamicPool_max_alloc_size <$> mm_pools mm' = DynamicPool_max_alloc_size <$> mm_pools mm ∧
  ∃ s, slice_of (pools_of mm') (href_id h) s ∧ granted mm' n s.

Lemma insert_max_sizes (ps : list DynamicPool) k p p' :
  ps !! k = Some p → DynamicPool_max_alloc_size p' = DynamicPool_max_alloc_size p →
  DynamicPool_max_alloc_size <$> <[k := p']> ps = DynamicPool_max_alloc_size <$> ps.
Proof.
  intros Hk Heq. rewrite list_fmap_insert, list_insert_id; [done|]. by rewrite list_lookup_fmap, Hk, Heq.
Qed.

Lemma mm_reserve_static mm n exclude w cid call :
  mm_ok mm w cid call → mm_mode mm = Static → can_serve mm n →
  slice_counter w + 2 ≤ usize_max → storage_counter w < usize_max →
  wp (mm_reserve mm n exclude) w (reserved_post mm n cid call).
Proof.
  intros Hok Hmode Hserve Hw1 Hw2. unfold mm_reserve, can_serve in *. rewrite Hmode in *. wp_step.
  pose proof (pools_alloc _ _ _ _ _ _ 0%nat (inl (mm_static_pool mm)) Hok eq_refl n Hserve Hw1 Hw2)
    as Hwp.
  apply wp_bind_inv in Hwp. refine (wp_mono _ _ _ _ Hwp _).
  intros [[h p'] st'] w' (Hlive & _ & _ & _ & _ & s & Hs & Hserved & Hz & Hok').
  wp_step. split; [exact Hok'|]. split; [exact Hlive|]. split_and!; try done.
  exists s. split; [exists (inl p'); split; [by left|done]|].
  unfold granted; simpl. destruct Hserved. done.
Qed.

(** The frame of an update of the [k]-th dynamic pool. *)
Lemma pools_of_insert (mm : MemoryManagement S) k (p' : DynamicPool) :
  <[Datatypes.S k := inr p']> (pools_of mm) = inl (mm_static_pool mm) :: (inr <$> <[k := p']> (mm_pools mm)).
Proof. unfold pools_of. simpl. by rewrite list_fmap_insert. Qed.

Lemma mm_reserve_auto mm n exclude w cid call :
  mm_ok mm w cid call → mm_mode mm = Auto → can_serve mm n →
  slice_counter w + 3 ≤ usize_max → storage_counter w < usize_max →
  wp (mm_reserve mm n exclude) w (reserved_post mm n cid call).
Proof.
  intros Hok Hmode Hserve Hw1 Hw2. unfold mm_reserve, can_serve in *. rewrite Hmode in *.
  destruct Hserve as (Hcount & k & p & Hfind & Hcan). wp_steps.
  apply list_find_Some in Hfind as (Hk & Hmax & _).
  apply pools_ok_count with (count' := mm_alloc_reserve_count mm + 1) in Hok; [|lia].
  assert (pools_of mm !! Datatypes.S k = Some (inr p)) as Hk'.
  { unfold pools_of. simpl. by rewrite list_lookup_fmap, Hk. }
  pose proof (pools_try_reserve _ _ _ _ _ _ _ _ Hok Hk' n exclude Hcan Hmax ltac:(lia)) as Hwp.
  apply wp_bind_inv in Hwp. refine (wp_mono _ _ _ _ Hwp _).
  intros [res p1] w1 (Hlive & Hm1 & Hc1 & Hs1 & Hres). rewrite pools_of_insert in Hlive.
  assert (∀ mm' s p', mm_pools mm' = <[k := p']> (mm_pools mm) → mm_mode mm' = Auto →
    served (inr p' : AnyPool) n s → DynamicPool_max_alloc_size p' = DynamicPool_max_alloc_size p →
    granted mm' n s) as Hgr.
  { intros mm' s p' Hp Hmo [Hsz Hal] Hms. unfold granted. rewrite Hmo. split; [done|]. exists p'.
    rewrite Hp, Hms. split_and!; try done.
    eapply list_elem_of_lookup_2, list_lookup_insert_eq. by eapply lookup_lt_Some. }
  destruct res as [h|].
  - destruct Hres as (s & Hs & Hserved & Hz & Hexc & Hok1). wp_step.
    pose proof (slice_of_insert _ _ _ _ _ _ Hk' Hs) as Hso. rewrite pools_of_insert in Hok1, Hso.
    split; [exact Hok1|]. split_and!; try done; [by eapply insert_max_sizes|]. eauto.
  - destruct Hres as [Hca Hok1]. wp_step.
    assert (<[Datatypes.S k := inr p1]> (pools_of mm) !! Datatypes.S k = Some (inr p1)) as Hk1.
    { apply list_lookup_insert_eq. by eapply lookup_lt_Some. }
    pose proof (pools_alloc _ _ _ _ _ _ _ _ Hok1 Hk1 n Hca) as Hwp2.
    specialize (Hwp2 ltac:(lia) ltac:(lia)).
    apply wp_bind_inv in Hwp2. refine (wp_mono _ _ _ _ Hwp2 _).
    intros [[h p2] st2] w2 (Hlive2 & Hm2 & _ & _ & _ & s & Hs & Hserved & Hz & Hok2). wp_step.
    rewrite list_insert_insert_eq in Hok2, Hlive2.
    pose proof (slice_of_insert _ _ _ _ _ _ Hk' Hs) as Hso. rewrite pools_of_insert in Hok2, Hso.
    rewrite !pools_of_insert in Hlive2.
    split; [exact Hok2|]. split; [by eapply keeps_live_trans|].
    split_and!; try done.
    + eapply insert_max_sizes; [done|]. etrans; [exact Hm2|exact Hm1].
    + exists s. split; [done|]. apply (Hgr _ s p2); try done. etrans; [exact Hm2|exact Hm1].
Qed.

(** ** [cleanup] *)

Lemma cleanup_pools_spec (pre : list AnyPool) rest (st : S) count explicit w cid call :
  pools_ok (pre ++ (inr <$> rest)) st w count cid call →
  wp (cleanup_pools rest st count explicit) w (λ '(rest', st') w',
    pools_ok (pre ++ (inr <$> rest')) st' w' count cid call ∧
    keeps_live call (pre ++ (inr <$> rest)) (pre ++ (inr <$> rest')) ∧
    DynamicPool_max_alloc_size <$> rest' = DynamicPool_max_alloc_size <$> rest ∧
    slice_counter w' = slice_counter w ∧ storage_counter w' = storage_counter w).
Proof.
  revert pre st w. induction rest as [|p rest IH]; intros pre st w Hok.
  { simpl. wp_step. split_and!; try done. by intros i s Hs _. }
  cbn [cleanup_pools]. wp_step.
  assert ((pre ++ (inr <$> p :: rest)) !! length pre = Some (inr p)) as Hk
    by (apply list_lookup_middle; done).
  pose proof (pools_cleanup _ _ _ _ _ _ _ _ Hok Hk explicit) as Hwp.
  apply wp_bind_inv in Hwp. refine (wp_mono _ _ _ _ Hwp _).
  intros [p1 st1] w1 (Hlive & Hm & Hc & Hs & Hok1).
  assert (<[length pre := inr p1]> (pre ++ (inr <$> p :: rest)) =
    (pre ++ [inr p1]) ++ (inr <$> rest)) as Heq.
  { rewrite fmap_cons, insert_app_r_alt, Nat.sub_diag, <- app_assoc by done. done. }
  rewrite Heq in Hok1, Hlive. wp_step. eapply wp_mono; [by apply IH|].
  intros [rest' st'] w' (Hok' & Hlive' & Hms & Hc' & Hs'). wp_step.
  rewrite <- app_assoc in Hok'. rewrite <- !(app_assoc pre [inr p1]) in Hlive'.
  rewrite <- app_assoc in Hlive. rewrite fmap_cons.
  split; [exact Hok'|]. split; [eapply keeps_live_trans; [exact Hlive|exact Hlive']|].
  split_and!; [|congruence|congruence]. simpl. f_equal; [exact Hm|done].
Qed.

Lemma mm_cleanup_spec mm explicit w cid call :
  mm_ok mm w cid call →
  wp (mm_cleanup mm explicit) w (λ mm' w',
    mm_ok mm' w' cid call ∧ keeps_live call (pools_of mm) (pools_of mm') ∧
    mm_mode mm' = mm_mode mm ∧ mm_alloc_reserve_count mm' = mm_alloc_reserve_count mm ∧
    DynamicPool_max_alloc_size <$> mm_pools mm' = DynamicPool_max_alloc_size <$> mm_pools mm ∧
    slice_counter w' = slice_counter w ∧ storage_counter w' = storage_counter w).
Proof.
  intros Hok. unfold mm_cleanup. wp_step.
  pose proof (pools_cleanup _ _ _ _ _ _ 0%nat (inl (mm_static_pool mm)) Hok eq_refl explicit) as Hwp.
  apply wp_bind_inv in Hwp. refine (wp_mono _ _ _ _ Hwp _).
  intros [p1 st1] w1 (Hlive & _ & Hc & Hs & Hok1). wp_step.
  eapply wp_mono; [exact (cleanup_pools_spec [inl p1] (mm_pools mm) st1 _ explicit w1 cid call Hok1)|].
  intros [rest' st'] w' (Hok' & Hlive' & Hms & Hc' & Hs'). wp_step.
  split; [exact Hok'|]. split; [eapply keeps_live_trans; [exact Hlive|exact Hlive']|].
  split_and!; try done; congruence.
Qed.

(** ** [get] *)

Lemma slice_of_unique mm w cid call i s t :
  mm_ok mm w cid call → slice_of (pools_of mm) i s → slice_of (pools_of mm) i t → s = t.
Proof.
  intros Hok (p & [k Hk]%list_elem_of_lookup & Hs) (q & [l Hl]%list_elem_of_lookup & Ht).
  assert (k = l) as <- by (eapply (pl_disj _ _ _ _ _ _ Hok); eauto). congruence.
Qed.

Lemma find_map_get_spec (pools : list DynamicPool) b :
  (∀ p, p ∈ pools → pool_inv p) →
  match find_map_get pools b with
  | Some h => ∃ p s, p ∈ pools ∧ slices p !! bref_id b = Some s ∧ sl_storage s = h
  | None => ∀ p, p ∈ pools → slices p !! bref_id b = None
  end.
Proof.
  induction pools as [|p rest IH]; intros Hinv; [by intros p ?%not_elem_of_nil|]. cbn [find_map_get].
  pose proof (mp_get_ok (S := S) p b (Hinv p ltac:(by left))) as Hget.
  change (DynamicPool_get p b = sl_storage <$> slices p !! bref_id b) in Hget. rewrite Hget.
  destruct (slices p !! bref_id b) as [s|] eqn:E; simpl.
  - exists p, s. split; [by left|done].
  - specialize (IH ltac:(intros; apply Hinv; by right)). destruct (find_map_get rest b) as [h|].
    + destruct IH as (q & s & Hq & Hs & Hh). exists q, s. split; [by right|done].
    + intros q [->|Hq]%elem_of_cons; [exact E|exact (IH q Hq)].
Qed.

Lemma mm_lookup_spec mm w cid call b h :
  mm_ok mm w cid call →
  mm_lookup mm b = Some h ↔ ∃ s, slice_of (pools_of mm) (bref_id b) s ∧ sl_storage s = h.
Proof.
  intros Hok. assert (∀ p, p ∈ mm_pools mm → pool_inv p) as Hinv.
  { intros p Hp. apply (pl_inv _ _ _ _ _ _ Hok (inr p)). right. by apply list_elem_of_fmap_2. }
  assert (∀ h', mm_lookup mm b = Some h' →
    ∃ s, slice_of (pools_of mm) (bref_id b) s ∧ sl_storage s = h') as Hsound.
  { intros h'. unfold mm_lookup, StaticPool_get.
    destruct (st_slices (mm_static_pool mm) !! bref_id b) as [s|] eqn:E; simpl.
    - intros [= <-]. exists s. split; [|done]. exists (inl (mm_static_pool mm)). split; [by left|done].
    - pose proof (find_map_get_spec (mm_pools mm) b Hinv) as Hf. intros Heq. rewrite Heq in Hf.
      destruct Hf as (p & s & Hp & Hs & <-). exists s. split; [|done]. exists (inr p).
      split; [right; by apply list_elem_of_fmap_2|done]. }
  split; [apply Hsound|]. intros (s & Hs & <-).
  destruct (mm_lookup mm b) as [h'|] eqn:E.
  - destruct (Hsound h' eq_refl) as (s' & Hs' & <-). by rewrite (slice_of_unique _ _ _ _ _ _ _ Hok Hs Hs').
  - exfalso. unfold mm_lookup, StaticPool_get in E.
    destruct (st_slices (mm_static_pool mm) !! bref_id b) as [t|] eqn:Et; [done|]. simpl in E.
    pose proof (find_map_get_spec (mm_pools mm) b Hinv) as Hf. rewrite E in Hf.
    destruct Hs as (q & [->|(p & -> & Hp)%list_elem_of_fmap]%elem_of_cons & Hq).
    + simpl in Hq. congruence.
    + specialize (Hf _ Hp). simpl in Hq, Hf. congruence.
Qed.

(** ** Operations of the clients *)

Lemma mm_ok_clients mm w w' cid call cid' call' :
  mm_ok mm w cid call →
  refs_ok w' (all_refs (views (pools_of mm)) cid') (all_refs (views (pools_of mm)) call') →
  (∀ i, 0 < call' i → 0 < call i) → storage_counter w' = storage_counter w →
  mm_ok mm w' cid' call'.
Proof.
  intros [] Hr Hc Hs. split; auto. intros id Hid. rewrite Hs. auto.
Qed.
End Manager.
