(* ===== verification/System.v ===== *)
(** * The memory management and its clients

    The manager as a step relation: clients reserve memory, clone and drop
    handles, turn handles into bindings, resolve bindings, and trigger
    cleanups, in any order. *)

From S2P Require Import Prelude Ids Storage Slices Ring Usage PageInv RingSpec SlicedPool Pool StaticPool.
From S2P Require Import SlicedPoolSpec DeviceNum ExclusivePool ExclusivePoolSpec PoolList MemoryManagement.
From S2P Require Import ManageSpec.

Open Scope N_scope.

Section System.
Context {S : Type} `{ComputeStorageSpec S}.

Record Sys := mkSys {
  sys_mm : MemoryManagement S;
  sys_world : World;
  sys_handles : list SliceHandle;
  sys_bindings : list SliceBinding
}.

(** How often an id occurs. *)
Fixpoint occurs (ids : list SliceId) : refs :=
  match ids with
  | [] => λ _, 0
  | i :: ids => add_ref i (occurs ids)
  end.

(** References to [HandleRef::id] come from handles, those to
    [HandleRef::all] from handles and bindings. *)
Definition id_refs (s : Sys) : refs := occurs (href_id <$> sys_handles s).
Definition client_ids (s : Sys) : list SliceId :=
  (href_id <$> sys_handles s) ++ (bref_id <$> sys_bindings s).
Definition all_client_refs (s : Sys) : refs := occurs (client_ids s).

(** Room for the identifiers that one reservation may take. *)
Definition ids_left (w : World) : Prop :=
  slice_counter w + 3 ≤ usize_max ∧ storage_counter w < usize_max.

Inductive step : Sys → Sys → Prop :=
| step_reserve mm w hs bs n exclude h mm' w' :
    can_serve mm n → ids_left w →
    mm_reserve mm n exclude w = Ret ((h, mm'), w') →
    step (mkSys mm w hs bs) (mkSys mm' w' (h :: hs) bs)
| step_clone mm w hs bs h h' w' :
    h ∈ hs → HandleRef_clone h w = Ret (h', w') →
    step (mkSys mm w hs bs) (mkSys mm w' (h' :: hs) bs)
| step_drop mm w hs bs h hs' w' :
    hs ≡ₚ h :: hs' → HandleRef_drop h w = Ret (tt, w') →
    step (mkSys mm w hs bs) (mkSys mm w' hs' bs)
| step_binding mm w hs bs h hs' b w' :
    hs ≡ₚ h :: hs' → HandleRef_binding h w = Ret (b, w') →
    step (mkSys mm w hs bs) (mkSys mm w' hs' (b :: bs))
| step_binding_clone mm w hs bs b b' w' :
    b ∈ bs → BindingRef_clone b w = Ret (b', w') →
    step (mkSys mm w hs bs) (mkSys mm w' hs (b' :: bs))
| step_binding_drop mm w hs bs b bs' w' :
    bs ≡ₚ b :: bs' → BindingRef_drop b w = Ret (tt, w') →
    step (mkSys mm w hs bs) (mkSys mm w' hs bs')
| step_get mm w hs bs b bs' r w' :
    bs ≡ₚ b :: bs' → mm_get mm b w = Ret (r, w') →
    step (mkSys mm w hs bs) (mkSys mm w' hs bs')
| step_cleanup mm w hs bs explicit mm' w' :
    mm_cleanup mm explicit w = Ret (mm', w') →
    step (mkSys mm w hs bs) (mkSys mm' w' hs bs)
| step_mode mm w hs bs mode :
    step (mkSys mm w hs bs) (mkSys (mm_set_mode mm mode) w hs bs).

Definition sys_ok (s : Sys) : Prop :=
  mm_ok (sys_mm s) (sys_world s) (id_refs s) (all_client_refs s).

(** ** Counting references *)

Lemma occurs_pos ids i : 0 < occurs ids i ↔ i ∈ ids.
Proof.
  induction ids as [|j ids IH]; simpl.
  - rewrite elem_of_nil. lia.
  - unfold add_ref. rewrite elem_of_cons, <- IH. case_bool_decide; simpl; [naive_solver lia|].
    rewrite N.add_0_r. naive_solver.
Qed.

Lemma occurs_perm ids ids' i : ids ≡ₚ ids' → occurs ids i = occurs ids' i.
Proof.
  induction 1; simpl; unfold add_ref in *; try lia; try congruence.
Qed.

Lemma occurs_app ids ids' i : occurs (ids ++ ids') i = occurs ids i + occurs ids' i.
Proof. induction ids; simpl; unfold add_ref in *; lia. Qed.

(** Changing only the references of the clients. *)
Lemma sys_ok_clients s s' :
  sys_ok s → sys_mm s' = sys_mm s →
  refs_ok (sys_world s') (all_refs (views (pools_of (sys_mm s))) (id_refs s'))
    (all_refs (views (pools_of (sys_mm s))) (all_client_refs s')) →
  (∀ i, i ∈ client_ids s' → i ∈ client_ids s) →
  storage_counter (sys_world s') = storage_counter (sys_world s) →
  sys_ok s'.
Proof.
  intros Hok Hmm Hr Hsub Hs. unfold sys_ok. rewrite Hmm.
  eapply mm_ok_clients; [exact Hok|done| |done].
  intros i Hi. apply occurs_pos, Hsub. by apply occurs_pos.
Qed.

Lemma client_handle s h : h ∈ sys_handles s → href_id h ∈ client_ids s.
Proof. intros Hh. apply elem_of_app. left. by apply list_elem_of_fmap_2. Qed.
Lemma client_binding s b : b ∈ sys_bindings s → bref_id b ∈ client_ids s.
Proof. intros Hh. apply elem_of_app. right. by apply list_elem_of_fmap_2. Qed.

Lemma refs_pos s i : i ∈ client_ids s → 0 < all_refs (views (pools_of (sys_mm s))) (all_client_refs s) i.
Proof.
  intros Hi. apply occurs_pos in Hi. pose proof (all_refs_ge (views (pools_of (sys_mm s))) (all_client_refs s) i).
  unfold all_client_refs in *. lia.
Qed.

Lemma wp_elim {W A} (m : M W A) (w : W) (a : A) (w' : W) (Q : A → W → Prop) :
  m w = Ret (a, w') → wp m w Q → Q a w'.
Proof. unfold wp. by intros ->. Qed.

Lemma all_refs_ext vs c c' i : c i = c' i → all_refs vs c i = all_refs vs c' i.
Proof. unfold all_refs. by intros ->. Qed.

Lemma sub_add_ref h r i : sub_ref h (add_ref h r) i = r i.
Proof. unfold sub_ref, add_ref. lia. Qed.

(** Taking a reference away. *)
Lemma all_refs_take vs c c' h i :
  (∀ j, c j = add_ref h c' j) → sub_ref h (all_refs vs c) i = all_refs vs c' i.
Proof.
  intros Hc. unfold sub_ref. rewrite (all_refs_ext _ c (add_ref h c')), all_refs_add by done.
  apply sub_add_ref.
Qed.

Lemma id_refs_cons s mm w h hs bs j :
  sys_handles s ≡ₚ h :: hs → id_refs s j = add_ref (href_id h) (id_refs (mkSys mm w hs bs)) j.
Proof. intros Hp. unfold id_refs. by rewrite (occurs_perm _ _ _ (fmap_Permutation href_id _ _ Hp)). Qed.

Lemma client_ids_drop s mm w h hs :
  sys_handles s ≡ₚ h :: hs →
  client_ids s ≡ₚ href_id h :: client_ids (mkSys mm w hs (sys_bindings s)).
Proof. intros Hp. unfold client_ids. by rewrite Hp. Qed.

Lemma client_ids_binding s mm w h hs :
  sys_handles s ≡ₚ h :: hs →
  client_ids s ≡ₚ client_ids (mkSys mm w hs (mkBindingRef (href_id h) :: sys_bindings s)).
Proof. intros Hp. unfold client_ids. rewrite Hp. simpl. by rewrite <- Permutation_middle. Qed.

Lemma client_ids_binding_drop s mm w b bs :
  sys_bindings s ≡ₚ b :: bs →
  client_ids s ≡ₚ bref_id b :: client_ids (mkSys mm w (sys_handles s) bs).
Proof. intros Hp. unfold client_ids. rewrite Hp. simpl. by rewrite <- Permutation_middle. Qed.

(** ** Every step keeps the invariant *)

Lemma ok_clone mm w hs bs h h' w' :
  sys_ok (mkSys mm w hs bs) → h ∈ hs → HandleRef_clone h w = Ret (h', w') →
  sys_ok (mkSys mm w' (h' :: hs) bs).
Proof.
  intros Hok Hh Hrun. pattern h', w'. eapply wp_elim; [exact Hrun|].
  pose proof (client_handle (mkSys mm w hs bs) h Hh) as Hin.
  eapply wp_HandleRef_clone; [apply Hok|by apply (refs_pos (mkSys mm w hs bs))|].
  intros w1 Hr Hc Hs. eapply sys_ok_clients; [exact Hok|done| | |done]; simpl.
  - eapply refs_ok_ext; [exact Hr|..]; intros i; by rewrite <- all_refs_add.
  - intros i [->|Hi]%elem_of_cons; done.
Qed.

Lemma ok_drop mm w hs bs h hs' w' :
  sys_ok (mkSys mm w hs bs) → hs ≡ₚ h :: hs' → HandleRef_drop h w = Ret (tt, w') →
  sys_ok (mkSys mm w' hs' bs).
Proof.
  intros Hok Hp Hrun. apply (wp_elim _ _ _ _ (λ _ w', sys_ok (mkSys mm w' hs' bs)) Hrun).
  eapply wp_HandleRef_drop; [apply Hok|]. intros w1 Hr Hc Hs.
  pose proof (client_ids_drop (mkSys mm w hs bs) mm w1 h hs' Hp) as Hperm.
  eapply sys_ok_clients; [exact Hok|done| | |done]; simpl.
  - eapply refs_ok_ext; [exact Hr|..]; intros i; apply all_refs_take; intros j.
    + by apply id_refs_cons.
    + unfold all_client_refs. by rewrite (occurs_perm _ _ _ Hperm).
  - intros i Hi. rewrite Hperm. by right.
Qed.

Lemma ok_binding mm w hs bs h hs' b w' :
  sys_ok (mkSys mm w hs bs) → hs ≡ₚ h :: hs' → HandleRef_binding h w = Ret (b, w') →
  sys_ok (mkSys mm w' hs' (b :: bs)).
Proof.
  intros Hok Hp Hrun. pattern b, w'. eapply wp_elim; [exact Hrun|].
  eapply wp_HandleRef_binding; [apply Hok|]. intros w1 Hr Hc Hs.
  pose proof (client_ids_binding (mkSys mm w hs bs) mm w1 h hs' Hp) as Hperm.
  eapply sys_ok_clients; [exact Hok|done| | |done]; simpl.
  - eapply refs_ok_ext; [exact Hr|..]; intros i.
    + apply all_refs_take. intros j. by apply id_refs_cons.
    + apply all_refs_ext. unfold all_client_refs. by rewrite (occurs_perm _ _ _ Hperm).
  - intros i Hi. by rewrite Hperm.
Qed.

Lemma ok_binding_clone mm w hs bs b b' w' :
  sys_ok (mkSys mm w hs bs) → b ∈ bs → BindingRef_clone b w = Ret (b', w') →
  sys_ok (mkSys mm w' hs (b' :: bs)).
Proof.
  intros Hok Hb Hrun. pattern b', w'. eapply wp_elim; [exact Hrun|].
  pose proof (client_binding (mkSys mm w hs bs) b Hb) as Hin.
  eapply wp_BindingRef_clone; [apply Hok|by apply (refs_pos (mkSys mm w hs bs))|].
  intros w1 Hr Hc Hs.
  assert (client_ids (mkSys mm w1 hs (b :: bs)) ≡ₚ bref_id b :: client_ids (mkSys mm w hs bs)) as Hperm
    by (unfold client_ids; simpl; by rewrite <- Permutation_middle).
  eapply sys_ok_clients; [exact Hok|done| | |done]; simpl.
  - eapply refs_ok_ext; [exact Hr|..]; intros i; [done|]. rewrite <- all_refs_add.
    apply all_refs_ext. unfold all_client_refs. by rewrite (occurs_perm _ _ _ Hperm).
  - intros i Hi. rewrite Hperm in Hi. apply elem_of_cons in Hi as [->|Hi]; done.
Qed.

Lemma ok_binding_drop mm w hs bs b bs' w' :
  sys_ok (mkSys mm w hs bs) → bs ≡ₚ b :: bs' → BindingRef_drop b w = Ret (tt, w') →
  sys_ok (mkSys mm w' hs bs').
Proof.
  intros Hok Hp Hrun. apply (wp_elim _ _ _ _ (λ _ w', sys_ok (mkSys mm w' hs bs')) Hrun).
  eapply wp_BindingRef_drop; [apply Hok|]. intros w1 Hr Hc Hs.
  pose proof (client_ids_binding_drop (mkSys mm w hs bs) mm w1 b bs' Hp) as Hperm.
  eapply sys_ok_clients; [exact Hok|done| | |done]; simpl.
  - eapply refs_ok_ext; [exact Hr|..]; intros i; [done|]. apply all_refs_take; intros j.
    unfold all_client_refs. by rewrite (occurs_perm _ _ _ Hperm).
  - intros i Hi. rewrite Hperm. by right.
Qed.

Lemma mm_get_run mm b w r w' :
  mm_get (S := S) mm b w = Ret (r, w') → BindingRef_drop b w = Ret (tt, w') ∧ r = mm_lookup mm b.
Proof.
  unfold mm_get, bind, BindingRef_drop, modify_state, ret. intros [= <- <-]. done.
Qed.

Lemma mm_reserve_spec mm n exclude w cid call :
  mm_ok mm w cid call → can_serve mm n → ids_left w →
  wp (mm_reserve mm n exclude) w (reserved_post mm n cid call).
Proof.
  intros Hok Hserve [Hw1 Hw2]. destruct (mm_mode mm) eqn:Hmode.
  - by apply mm_reserve_auto.
  - apply mm_reserve_static; auto; lia.
Qed.

Lemma step_ok s s' : sys_ok s → step s s' → sys_ok s'.
Proof.
  intros Hok Hst. destruct Hst as
    [mm w hs bs n exclude h mm' w' Hserve Hw Hrun|mm w hs bs h h' w' Hh Hrun
    |mm w hs bs h hs' w' Hp Hrun|mm w hs bs h hs' b w' Hp Hrun
    |mm w hs bs b b' w' Hb Hrun|mm w hs bs b bs' w' Hp Hrun
    |mm w hs bs b bs' r w' Hp Hrun|mm w hs bs explicit mm' w' Hrun|mm w hs bs mode].
  - pose proof (mm_reserve_spec mm n exclude w _ _ Hok Hserve Hw) as Hwp.
    apply (wp_elim _ _ _ _ _ Hrun) in Hwp. apply Hwp.
  - by eapply ok_clone.
  - by eapply ok_drop.
  - by eapply ok_binding.
  - by eapply ok_binding_clone.
  - by eapply ok_binding_drop.
  - apply mm_get_run in Hrun as [Hrun _]. by eapply ok_binding_drop.
  - pose proof (mm_cleanup_spec mm explicit w _ _ Hok) as Hwp.
    apply (wp_elim _ _ _ _ _ Hrun) in Hwp. apply Hwp.
  - exact Hok.
Qed.

Lemma steps_ok s s' : sys_ok s → rtc step s s' → sys_ok s'.
Proof. intros Hok Hst. induction Hst; eauto using step_ok. Qed.
End System.
Arguments Sys S : clear implicits.
