(* ===== verification/Config.v ===== *)
(** * Building a manager from a configuration

    Which configurations give a manager that satisfies the invariant; the
    [SubSlices] preset terminates and is one of them. *)

From S2P Require Import Prelude Ids Storage Slices SearchIndex Ring Usage PageInv RingSpec SlicedPool.
From S2P Require Import Pool StaticPool SlicedPoolSpec DeviceNum ExclusivePool ExclusivePoolSpec PoolList.
From S2P Require Import MemoryManagement ManageSpec System.

Open Scope N_scope.
Open Scope rust_scope.

(** Options from which a pool can be built. *)
Definition option_ok (A : N) (o : MemoryPoolOptions) : Prop :=
  match pool_type o with
  | SlicedPages page_size max_slice_size =>
      0 < page_size ≤ u64_max ∧ (A | page_size) ∧ max_slice_size ≤ page_size
  | ExclusivePages_ max_alloc_size => (A | max_alloc_size)
  end.

(** A pool without pages. *)
Definition empty_pool (p : DynamicPool) : Prop :=
  match p with
  | Sliced m => sp_pages m = ∅ ∧ sp_slices m = ∅
  | Exclusive m => ex_pages m = [] ∧ ex_last_dealloc_check m = 0
  end.

Definition option_max (o : MemoryPoolOptions) : N :=
  match pool_type o with
  | SlicedPages _ max_slice_size => max_slice_size
  | ExclusivePages_ max_alloc_size => max_alloc_size
  end.

Section Build.
Context {S : Type} `{ComputeStorageSpec S}.

Lemma build_pool_ok props o :
  0 < alignment props → option_ok (alignment props) o →
  ∃ p, build_pool props o = Ret p ∧ pool_inv p ∧ empty_pool p ∧
    DynamicPool_max_alloc_size p = option_max o ∧ dynamic_alignment p = alignment props.
Proof.
  intros HA Ho. unfold build_pool, option_ok, option_max in *.
  destruct (pool_type o) as [m|ps ms].
  - unfold ExclusiveMemoryPool_new. rewrite checked_rem_ok by lia. simpl.
    rewrite (proj2 (mod_0_divide _ _ HA) Ho). simpl. eexists. split; [done|]. split_and!; try done.
    split; simpl; [done|apply NoDup_nil_2..|]. by intros pg ?%not_elem_of_nil.
  - destruct Ho as (Hps & Hdiv & Hms).
    destruct (SlicedPool_new_ok ps ms (alignment props)) as (p & -> & Hok & E1 & E2 & E3 & E4 & E5);
      [done..|]. simpl. eexists. split; [done|]. split_and!; done.
Qed.

Lemma sequence_ok {A B} (f : A → outcome B) (R : A → B → Prop) (l : list A) :
  (∀ x, x ∈ l → ∃ y, f x = Ret y ∧ R x y) → ∃ ys, sequence (f <$> l) = Ret ys ∧ Forall2 R l ys.
Proof.
  induction l as [|x l IH]; intros Hf; [by exists []|]. simpl.
  destruct (Hf x) as (y & Hy & HR); [by left|].
  destruct IH as (ys & Hys & HF); [intros; apply Hf; by right|].
  exists (y :: ys). rewrite Hy. simpl. unfold fmap in Hys. rewrite Hys. split; [done|]. by constructor.
Qed.

(** A manager all of whose pools are empty. *)
Lemma mm_ok_empty (mm : MemoryManagement S) w :
  st_slices (mm_static_pool mm) = ∅ → mm_alloc_reserve_count mm = 0 →
  (∀ p, p ∈ mm_pools mm → pool_inv p ∧ empty_pool p) →
  allocated (mm_storage mm) = ∅ → arcs w = ∅ →
  mm_ok mm w (λ _, 0) (λ _, 0).
Proof.
  intros Hst Hcount Hpools Halloc Harcs.
  assert (∀ p : AnyPool, p ∈ pools_of mm → pool_inv p ∧ clock p = 0 ∧ slices p = ∅ ∧
    ∀ id n, ¬ owns p id n) as Hempty.
  { intros p [->|(q & -> & Hq)%list_elem_of_fmap]%elem_of_cons; simpl.
    - rewrite Hst. split_and!; try done.
      + by split; rewrite Hst.
      + intros id n (i & s & Hs & _). by rewrite Hst in Hs.
    - destruct (Hpools q Hq) as [Hinv He]. split; [done|]. destruct q as [m|m]; destruct He as [E1 E2]; simpl.
      + split_and!; try done. intros id n [[? Hp] _]. by rewrite E1 in Hp.
      + rewrite E1. split_and!; try done. intros id n (pg & Hpg & _). rewrite E1 in Hpg.
        by apply not_elem_of_nil in Hpg. }
  assert (∀ i, all_refs (views (pools_of mm)) (λ _, 0) i = 0) as Hz.
  { intros i. apply all_refs_absent. intros v (p & -> & Hp)%list_elem_of_fmap.
    destruct (Hempty p Hp) as (_ & _ & -> & _). apply lookup_empty. }
  split.
  - intros p Hp. destruct (Hempty p Hp) as (? & -> & _). split; [done|lia].
  - split; [intros i|intros i|]; rewrite ?Hz; unfold counts; rewrite ?Harcs, ?lookup_empty; try done.
  - intros k l p q i Hp _ [s Hs] _. destruct (Hempty p) as (_ & _ & E & _);
      [by eapply list_elem_of_lookup_2|]. by rewrite E in Hs.
  - lia.
  - intros k l p q id n m Hp _ Ho _. destruct (Hempty p) as (_ & _ & _ & E);
      [by eapply list_elem_of_lookup_2|]. by destruct (E id n).
  - intros id n. rewrite Halloc, lookup_empty. split; [done|]. intros (p & Hp & Ho).
    destruct (Hempty p Hp) as (_ & _ & _ & E). by destruct (E id n).
  - intros id. rewrite Halloc, lookup_empty. by intros [? ?].
Qed.

Lemma from_configuration_ok ln exp (st : S) props config opts w :
  0 < alignment props → config_options ln exp props config = Ret opts →
  (∀ o, o ∈ opts → option_ok (alignment props) o) →
  allocated st = ∅ → arcs w = ∅ →
  ∃ mm, from_configuration ln exp st props config = Ret mm ∧
    sys_ok (mkSys mm w [] []) ∧ mm_mode mm = Auto ∧ mm_storage mm = st ∧
    Forall2 (λ o p, DynamicPool_max_alloc_size p = option_max o ∧
      dynamic_alignment p = alignment props) opts (mm_pools mm).
Proof.
  intros HA Hopts Hall Hst Hw. unfold from_configuration. rewrite Hopts. cbn [obind].
  destruct (sequence_ok (build_pool props) (λ o p, pool_inv p ∧ empty_pool p ∧
    DynamicPool_max_alloc_size p = option_max o ∧ dynamic_alignment p = alignment props) opts)
    as (pools & -> & HF).
  { intros o Ho. destruct (build_pool_ok props o HA (Hall o Ho)) as (p & Hp & H1 & H2 & H3). eauto 6. }
  cbn [obind]. eexists. split; [done|]. split; [|split; [done|split; [done|]]].
  - apply mm_ok_empty; simpl; try done. intros p Hp. apply list_elem_of_lookup in Hp as [k Hk].
    destruct (Forall2_lookup_r _ _ _ _ _ HF Hk) as (o & _ & H1 & H2 & _). done.
  - eapply Forall2_impl; [exact HF|]. simpl. intuition.
Qed.
End Build.

(** ** The [SubSlices] preset *)

Lemma pow2_u64_ok e : e ≤ 63 → pow2_u64 e = Ret (2 ^ e).
Proof.
  intros He. unfold pow2_u64. rewrite (proj2 (N.leb_le _ _)); [done|].
  etrans; [apply N.pow_le_mono_r with (c := 63); lia|]. done.
Qed.

Lemma quarter_round_up c A :
  0 < A → A ≤ 8 * MB → 32 * MB ≤ c →
  2 * round_up (c / 4) A ≤ c ∧ 0 < round_up (c / 4) A.
Proof.
  intros HA HA8 Hc. unfold MB in *. destruct (round_up_spec (c / 4) A HA) as (_ & Hge & Hlt).
  destruct (div_mod_ex c 4 ltac:(lia)) as (q & r & Hq & _ & Heq & Hr). rewrite Hq in *. lia.
Qed.

(** Each round at least halves [current], so [k] rounds are enough below
    [2^(25+k)]; every page size is a positive multiple of the alignment and
    the slices fit their page. *)
Lemma sub_slices_loop_spec A (k : nat) fuel current base max_sizes page_sizes :
  0 < A → A ≤ 8 * MB → (k < fuel)%nat → current < 2 ^ (25 + N.of_nat k) → current ≤ u64_max →
  base + N.of_nat k ≤ 63 →
  ∃ ms ps, sub_slices_loop fuel A current base max_sizes page_sizes =
      Ret (max_sizes ++ ms, page_sizes ++ ps) ∧
    Forall2 (λ m p, m ≤ p ∧ (A | p) ∧ 0 < p ≤ current) ms ps.
Proof.
  intros HA HA8. revert fuel current base max_sizes page_sizes.
  induction k as [|k IH]; intros fuel current base max_sizes page_sizes Hfuel Hcur Hmax Hbase;
    (destruct fuel as [|fuel]; [lia|]); cbn [sub_slices_loop].
  - rewrite (proj2 (N.leb_gt _ _)) by (unfold MB; change (2 ^ (25 + N.of_nat 0)) with 33554432 in Hcur; lia).
    exists [], []. rewrite !app_nil_r. done.
  - destruct (N.leb_spec (32 * MB) current) as [Hge|Hlt].
    2:{ exists [], []. rewrite !app_nil_r. done. }
    destruct (quarter_round_up current A HA HA8 Hge) as [Hhalf Hpos].
    destruct (round_up_spec (current / 4) A HA) as (Hdiv & _ & _).
    assert (current < 2 * 2 ^ (25 + N.of_nat k)) as Hcur2.
    { rewrite <- N.pow_succ_r'. replace (N.succ (25 + N.of_nat k)) with (25 + N.of_nat (Datatypes.S k)) by lia.
      done. }
    set (c := round_up (current / 4) A) in *.
    rewrite next_multiple_of_ok by (fold c; lia). fold c. cbn [obind].
    rewrite pow2_u64_ok by lia. cbn [obind]. rewrite checked_div_ok by (apply N.pow_nonzero; lia).
    cbn [obind]. rewrite checked_add_ok by (unfold u32_max; lia). cbn [obind].
    destruct (IH fuel c (base + 1) (max_sizes ++ [c / 2 ^ base]) (page_sizes ++ [c]))
      as (ms & ps & -> & HF); [lia|lia|lia|lia|].
    exists (c / 2 ^ base :: ms), (c :: ps). rewrite <- !app_assoc. split; [done|].
    constructor; [|eapply Forall2_impl; [exact HF|]; simpl; intuition lia].
    split; [|split; [done|lia]]. apply N.Div0.div_le_upper_bound.
    assert (1 ≤ 2 ^ base) by (apply N.lt_pred_le, N.neq_0_lt_0, N.pow_nonzero; lia). nia.
Qed.

Lemma sub_slices_options_ok props :
  0 < alignment props → alignment props ≤ 8 * MB →
  alignment props ≤ max_page_size props ≤ u64_max →
  ∃ sliced, sub_slices_options props =
      Ret ([mkOptions (ExclusivePages_ 0) None] ++ sliced ++
        [mkOptions (SlicedPages (max_page_size props / alignment props * alignment props)
           (max_page_size props / alignment props * alignment props)) None]) ∧
    (∀ o, o ∈ sliced → ∃ page m, o = mkOptions (SlicedPages page m) None ∧
      m ≤ page ∧ (alignment props | page) ∧ 0 < page ≤ max_page_size props).
Proof.
  intros HA HA8 [Hle Hmax]. unfold sub_slices_options.
  destruct (sub_slices_loop_spec (alignment props) 39 sub_slices_fuel (max_page_size props) 1 [] [])
    as (ms & ps & Hl & HF); [done|done|unfold sub_slices_fuel; lia| |done|done|].
  { change (2 ^ (25 + N.of_nat 39)) with (u64_max + 1). lia. }
  change (N.of_nat (length [mkOptions (ExclusivePages_ 0) None])) with 1. rewrite Hl. cbn [obind app].
  rewrite checked_div_ok by lia. cbn [obind].
  destruct (div_mod_ex (max_page_size props) (alignment props) HA) as (q & r & Hq & _ & Heq & Hr).
  rewrite Hq. rewrite checked_mul_ok by lia. cbn [obind]. eexists. split; [done|].
  intros o Ho. apply elem_of_lookup_zip_with in Ho as (i & m & p & -> & Hm & Hp).
  apply Forall2_reverse in HF. destruct (Forall2_lookup_lr _ _ _ _ _ _ HF Hm Hp) as (G1 & G2 & G3).
  exists p, m. done.
Qed.
