(* ===== verification/MemoryProps.v ===== *)
(** * Properties of the memory management

    The guarantees that hold in every state the clients can reach. *)

From S2P Require Import Prelude Ids Storage Slices SearchIndex Ring Usage PageInv RingSpec SlicedPool.
From S2P Require Import Pool StaticPool SlicedPoolSpec DeviceNum ExclusivePool ExclusivePoolSpec PoolList.
From S2P Require Import MemoryManagement ManageSpec System Config.

Open Scope N_scope.
Open Scope rust_scope.

Section Props.
Context {S : Type} `{ComputeStorageSpec S}.

(** The state right after [from_configuration]. *)
Definition initial (s : Sys S) : Prop :=
  ∃ ln exp (st : S) props config opts w mm,
    s = mkSys mm w [] [] ∧ from_configuration ln exp st props config = Ret mm ∧
    0 < alignment props ∧ config_options ln exp props config = Ret opts ∧
    (∀ o, o ∈ opts → option_ok (alignment props) o) ∧ allocated st = ∅ ∧ arcs w = ∅.

Definition reachable (s : Sys S) : Prop := ∃ s0, initial s0 ∧ rtc step s0 s.

Lemma reachable_ok (s : Sys S) : reachable s → sys_ok s.
Proof.
  intros (s0 & (ln & exp & st & props & config & opts & w & mm & -> & Hmm & HA & Hopts & Hall & Hst & Hw) & Hsteps).
  eapply steps_ok; [|exact Hsteps].
  destruct (from_configuration_ok ln exp st props config opts w) as (mm' & Hmm' & Hok & _); try done.
  by assert (mm' = mm) as -> by congruence.
Qed.

(** The memory that a client id stands for. *)
Definition region (s : Sys S) (i : SliceId) : option StorageHandle := mm_lookup (sys_mm s) (mkBindingRef i).

Lemma region_spec (s : Sys S) i h :
  sys_ok s → region s i = Some h ↔ ∃ sl, slice_of (pools_of (sys_mm s)) i sl ∧ sl_storage sl = h.
Proof. intros Hok. unfold region. by rewrite (mm_lookup_spec _ _ _ _ _ _ Hok). Qed.

Lemma client_region (s : Sys S) i :
  sys_ok s → i ∈ client_ids s →
  ∃ h n, region s i = Some h ∧ allocated (mm_storage (sys_mm s)) !! sh_id h = Some n ∧
    sh_offset h + sh_size h ≤ n.
Proof.
  intros Hok Hi. apply occurs_pos in Hi.
  destruct (pl_live _ _ _ _ _ _ Hok i Hi) as (p & Hp & sl & Hsl).
  destruct (pl_inv _ _ _ _ _ _ Hok p Hp) as [Hinv _].
  destruct (mp_slice p i sl Hinv Hsl) as (_ & n & Ho & Hle).
  exists (sl_storage sl), n. split; [apply region_spec; [done|]; exists sl; split; [by exists p|done]|].
  split; [|done]. apply (pl_alloc _ _ _ _ _ _ Hok). eauto.
Qed.

Lemma regions_disjoint (s : Sys S) i j a b :
  sys_ok s → i ≠ j → region s i = Some a → region s j = Some b → ¬ overlap a b.
Proof.
  intros Hok Hne Ha Hb.
  apply (region_spec _ _ _ Hok) in Ha as (sa & (p & Hp & Hsa) & <-).
  apply (region_spec _ _ _ Hok) in Hb as (sb & (q & Hq & Hsb) & <-).
  destruct (pl_inv _ _ _ _ _ _ Hok p Hp) as [Hip _], (pl_inv _ _ _ _ _ _ Hok q Hq) as [Hiq _].
  apply list_elem_of_lookup in Hp as [k Hk], Hq as [l Hl].
  intros Hov. destruct (mp_slice p i sa Hip Hsa) as (_ & n & Hon & _).
  destruct (mp_slice q j sb Hiq Hsb) as (_ & m & Hom & _).
  pose proof Hov as (Hid & _ & _). rewrite Hid in Hon.
  assert (k = l) as <- by (eapply (pl_owns _ _ _ _ _ _ Hok); eauto).
  assert (q = p) as -> by congruence. by eapply (mp_disjoint p i j).
Qed.

Lemma step_region (s s' : Sys S) i h :
  sys_ok s → step s s' → i ∈ client_ids s → region s i = Some h → region s' i = Some h.
Proof.
  intros Hok Hst Hi Hr. pose proof (step_ok _ _ Hok Hst) as Hok'.
  apply (region_spec _ _ _ Hok) in Hr as (sl & Hsl & <-). apply (region_spec _ _ _ Hok').
  exists sl. split; [|done]. apply occurs_pos in Hi.
  destruct Hst as [mm w hs bs n exclude h mm' w' Hserve Hw Hrun| | | | | | |mm w hs bs explicit mm' w' Hrun| ];
    simpl in *; try exact Hsl.
  - pose proof (mm_reserve_spec mm n exclude w _ _ Hok Hserve Hw) as Hwp.
    apply (wp_elim _ _ _ _ _ Hrun) in Hwp as (_ & Hlive & _). by apply Hlive.
  - pose proof (mm_cleanup_spec mm explicit w _ _ Hok) as Hwp.
    apply (wp_elim _ _ _ _ _ Hrun) in Hwp as (_ & Hlive & _). by apply Hlive.
Qed.

(** [reserve] in a reachable state. *)
Lemma reserve_region (s : Sys S) n exclude :
  sys_ok s → can_serve (sys_mm s) n → ids_left (sys_world s) →
  ∃ h mm' w', mm_reserve (sys_mm s) n exclude (sys_world s) = Ret ((h, mm'), w') ∧
    step s (mkSys mm' w' (h :: sys_handles s) (sys_bindings s)) ∧
    (href_id h ∉ client_ids s) ∧
    ∃ r, region (mkSys mm' w' (h :: sys_handles s) (sys_bindings s)) (href_id h) = Some r ∧
      n ≤ sh_size r ∧ (mm_mode (sys_mm s) = Auto → sh_size r = n ∧
        ∃ p, p ∈ mm_pools mm' ∧ (dynamic_alignment p | sh_offset r)).
Proof.
  intros Hok Hserve Hw. pose proof (mm_reserve_spec _ n exclude _ _ _ Hok Hserve Hw) as Hwp.
  apply wp_run in Hwp as ([h mm'] & w' & Hrun & Hok' & Hlive & Hmode & Hz & _ & sl & Hsl & Hgr).
  assert (step s (mkSys mm' w' (h :: sys_handles s) (sys_bindings s))) as Hst
    by (destruct s; by eapply step_reserve).
  exists h, mm', w'. split; [done|]. split; [done|]. split.
  { intros Hin. apply occurs_pos in Hin. unfold all_client_refs in Hz. lia. }
  exists (sl_storage sl). split; [apply region_spec; [by eapply step_ok|eauto]|].
  unfold granted in Hgr. rewrite Hmode in Hgr. destruct (mm_mode (sys_mm s)).
  - destruct Hgr as (Hn & p & Hp & _ & Hal). split; [lia|]. intros _. split; [done|]. eauto.
  - destruct Hgr as [Hn _]. done.
Qed.

(** ** Claims *)

(** C1. No two live allocations overlap: in every reachable state, every id
    held by a handle or a binding resolves to a byte range inside a storage
    that is still allocated, and the ranges of two different ids are
    disjoint. *)
Theorem live_allocations_disjoint (s : Sys S) i j :
  reachable s → i ∈ client_ids s → j ∈ client_ids s → i ≠ j →
  ∃ a b n m, region s i = Some a ∧ region s j = Some b ∧
    allocated (mm_storage (sys_mm s)) !! sh_id a = Some n ∧ sh_offset a + sh_size a ≤ n ∧
    allocated (mm_storage (sys_mm s)) !! sh_id b = Some m ∧ sh_offset b + sh_size b ≤ m ∧
    ¬ overlap a b.
Proof.
  intros Hs%reachable_ok Hi Hj Hne.
  destruct (client_region s i Hs Hi) as (a & n & Ha & Han & Hale).
  destruct (client_region s j Hs Hj) as (b & m & Hb & Hbm & Hble).
  exists a, b, n, m. split_and!; try done. by eapply regions_disjoint.
Qed.

(** C2. Live allocations are stable: no step (a reservation that splits and
    merges slices, a cleanup that gives pages back, an operation on other
    handles) moves or resizes the memory of an id that is still referenced. *)
Theorem live_allocation_stable (s s' : Sys S) i :
  reachable s → step s s' → i ∈ client_ids s → is_Some (region s i) ∧ region s' i = region s i.
Proof.
  intros Hs%reachable_ok Hst Hi. destruct (client_region s i Hs Hi) as (a & n & Ha & _).
  rewrite Ha. split; [by eexists|]. by eapply step_region.
Qed.

(** C3. [reserve] does not panic and gives fresh memory of the right size:
    whenever some pool accepts the size and the storage can provide its next
    page, it returns a handle whose id no client holds yet, with at least the
    requested bytes; in [Auto] mode it has exactly the requested size at an
    offset aligned for its pool. *)
Theorem reserve_serves (s : Sys S) n exclude :
  reachable s → can_serve (sys_mm s) n → ids_left (sys_world s) →
  ∃ h mm' w', mm_reserve (sys_mm s) n exclude (sys_world s) = Ret ((h, mm'), w') ∧
    reachable (mkSys mm' w' (h :: sys_handles s) (sys_bindings s)) ∧
    (href_id h ∉ client_ids s) ∧
    ∃ r, region (mkSys mm' w' (h :: sys_handles s) (sys_bindings s)) (href_id h) = Some r ∧
      n ≤ sh_size r ∧ (mm_mode (sys_mm s) = Auto → sh_size r = n ∧
        ∃ p, p ∈ mm_pools mm' ∧ (dynamic_alignment p | sh_offset r)).
Proof.
  intros Hreach Hserve Hw. destruct (reserve_region s n exclude (reachable_ok s Hreach) Hserve Hw)
    as (h & mm' & w' & Hrun & Hst & Hrest). exists h, mm', w'. split; [done|]. split; [|done].
  destruct Hreach as (s0 & Hinit & Hsteps). exists s0. split; [done|].
  by eapply rtc_r.
Qed.

Lemma sh_offsets_ok h start end_ :
  default 0 start + default 0 end_ ≤ sh_size h → sh_offset h + sh_size h ≤ u64_max →
  ∃ h', (let? h := match start with Some o => sh_offset_start h o | None => Ret h end in
         match end_ with Some o => sh_offset_end h o | None => Ret h end) = Ret h' ∧
    sh_id h' = sh_id h ∧ sh_offset h' = sh_offset h + default 0 start ∧
    sh_size h' = sh_size h - default 0 start - default 0 end_.
Proof.
  intros Hle Hmax. destruct start as [o|]; simpl in *.
  - unfold sh_offset_start. rewrite checked_add_ok, checked_sub_ok by lia. simpl.
    destruct end_ as [e|]; simpl in *.
    + unfold sh_offset_end. rewrite checked_sub_ok by (cbn; lia). simpl. eexists. by split_and!.
    + eexists. split; [done|]. cbn. split_and!; [done|done|lia].
  - destruct end_ as [e|]; simpl in *.
    + unfold sh_offset_end. rewrite checked_sub_ok by (cbn; lia). simpl. eexists.
      split_and!; try done; cbn; lia.
    + eexists. split_and!; try done; lia.
Qed.

(** C4. [get_resource] resolves every live binding: for offsets that stay
    inside the allocation it returns a resource, for exactly the part of the
    allocation between the offsets, and consumes the binding. *)
Theorem get_resource_live (s : Sys S) b bs start end_ r :
  reachable s → sys_bindings s ≡ₚ b :: bs → region s (bref_id b) = Some r →
  default 0 start + default 0 end_ ≤ sh_size r → sh_offset r + sh_size r ≤ u64_max →
  ∃ h res w', mm_get_resource (sys_mm s) b start end_ (sys_world s) = Ret (Some res, w') ∧
    cs_get h (mm_storage (sys_mm s)) = Ret res ∧
    sh_id h = sh_id r ∧ sh_offset h = sh_offset r + default 0 start ∧
    sh_size h = sh_size r - default 0 start - default 0 end_ ∧
    reachable (mkSys (sys_mm s) w' (sys_handles s) bs).
Proof.
  intros Hreach Hp Hr Hle Hmax. pose proof (reachable_ok s Hreach) as Hok.
  destruct (sh_offsets_ok r start end_ Hle Hmax) as (h & Hoff & Hid & Ho & Hsz).
  assert (bref_id b ∈ client_ids s) as Hin by (apply client_binding; rewrite Hp; by left).
  destruct (client_region s _ Hok Hin) as (r' & n & Hr' & Hal & Hfit).
  assert (r' = r) as -> by congruence.
  destruct (cs_get_ok (mm_storage (sys_mm s)) h n) as (res & Hres); [by rewrite Hid|lia|].
  destruct (BindingRef_drop b (sys_world s)) as [[[] w']| |] eqn:Hdrop; [|done|done].
  assert (mm_get (sys_mm s) b (sys_world s) = Ret (Some r, w')) as Hget.
  { unfold mm_get, bind. rewrite Hdrop. cbn. unfold region in Hr. destruct b as [i]. cbn in Hr. by rewrite Hr. }
  exists h, res, w'. split.
  { unfold mm_get_resource, bind. rewrite Hget. cbn -[cs_get].
    destruct start as [o|]; cbn -[sh_offset_start sh_offset_end cs_get] in *.
    - destruct (sh_offset_start r o) as [h1| |]; [|done|done]. cbn -[sh_offset_end cs_get] in *.
      destruct end_ as [e|]; [|simplify_eq]; rewrite ?Hoff; cbn -[cs_get]; by rewrite Hres.
    - destruct end_ as [e|]; [|simplify_eq]; rewrite ?Hoff; cbn -[cs_get]; by rewrite Hres. }
  split_and!; try done. destruct Hreach as (s0 & Hinit & Hsteps). exists s0. split; [done|].
  eapply rtc_r; [exact Hsteps|]. destruct s as [mm w hs bs0]. by eapply step_get.
Qed.

(** C5. [can_mut] tells exactly whether the handle is the only one: of all
    the handles of the clients, no other one refers to the same memory. *)
Theorem can_mut_unique (s : Sys S) h hs :
  reachable s → sys_handles s ≡ₚ h :: hs →
  HandleRef_can_mut (sys_world s) h = true ↔ href_id h ∉ href_id <$> hs.
Proof.
  intros Hs%reachable_ok Hp. unfold HandleRef_can_mut.
  rewrite (ro_id _ _ _ (pl_refs _ _ _ _ _ _ Hs)).
  assert (href_id h ∈ client_ids s) as Hin by (apply client_handle; rewrite Hp; by left).
  apply occurs_pos in Hin. destruct (pl_live _ _ _ _ _ _ Hs _ Hin) as (p & [k Hk]%list_elem_of_lookup & sl & Hsl).
  assert (all_refs (views (pools_of (sys_mm s))) (id_refs s) (href_id h) = 1 + id_refs s (href_id h)) as ->.
  { rewrite (all_refs_split _ _ _ _ _ (views_lookup _ _ _ Hk)). unfold pool_refs.
    rewrite Hsl, bool_decide_eq_true_2 by (by eexists). simpl. f_equal.
    apply all_refs_absent. intros v (l & Hl)%list_elem_of_lookup.
    assert (∃ l', l' ≠ k ∧ views (pools_of (sys_mm s)) !! l' = Some v) as (l' & Hne & Hl').
    { destruct (decide (l < k)%nat).
      - exists l. rewrite list_lookup_delete_lt in Hl by done. split; [lia|done].
      - exists (Datatypes.S l). rewrite list_lookup_delete_ge in Hl by lia. split; [lia|done]. }
    unfold views in Hl'. rewrite list_lookup_fmap in Hl'.
    destruct (pools_of (sys_mm s) !! l') as [q|] eqn:Hq; [|done]. simpl in Hl'. injection Hl' as <-.
    destruct (slices q !! href_id h) eqn:E; [|done].
    destruct Hne. eapply (pl_disj _ _ _ _ _ _ Hs); [exact Hq|exact Hk| |]; by eexists. }
  rewrite (id_refs_cons s (sys_mm s) (sys_world s) h hs [] _ Hp). unfold add_ref.
  rewrite bool_decide_eq_true_2 by done. simpl. rewrite N.leb_le.
  unfold id_refs; simpl. rewrite <- occurs_pos. lia.
Qed.
End Props.

(** ** A concrete run *)

Module Demo.
Definition props : MemoryDeviceProperties := mkProps 64 4.
Definition options : list MemoryPoolOptions := [mkOptions (SlicedPages 64 64) None].
Definition world0 : World := mkWorld 0 0 ∅.
Definition identity (x : f64) : f64 := x.

Definition manager : MemoryManagement BytesStorage :=
  mkManagement (StaticPool_new 64)
    [Sliced (mkSlicedPool ∅ ∅ SearchIndex_new (RingBuffer_new 4) [] 0 64 64 4)]
    (mkBytesStorage ∅) 0 Auto.

Definition state0 : Sys BytesStorage := mkSys manager world0 [] [].

(** Reserve [n] bytes. *)
Definition reserve (n : N) (s : Sys BytesStorage) : Sys BytesStorage :=
  match mm_reserve (sys_mm s) n None (sys_world s) with
  | Ret (h, mm, w) => mkSys mm w (h :: sys_handles s) (sys_bindings s)
  | _ => s
  end.

(** Turn the newest handle into a binding. *)
Definition bind_newest (s : Sys BytesStorage) : Sys BytesStorage :=
  match sys_handles s with
  | h :: hs =>
      match HandleRef_binding h (sys_world s) with
      | Ret (b, w) => mkSys (sys_mm s) w hs (b :: sys_bindings s)
      | _ => s
      end
  | [] => s
  end.

Definition state1 : Sys BytesStorage := reserve 10 state0.
Definition state2 : Sys BytesStorage := reserve 20 state1.
Definition state3 : Sys BytesStorage := bind_newest state2.

Lemma initial_state0 : initial state0.
Proof.
  exists identity, identity, (mkBytesStorage ∅), props, (Custom options), options, world0, manager.
  split_and!; try done. intros o Ho%list_elem_of_singleton. subst o. cbn.
  split_and!; try done. by exists 16.
Qed.

Lemma reach_reserve n s :
  reachable s → can_serve (sys_mm s) n → ids_left (sys_world s) → reachable (reserve n s).
Proof.
  intros Hreach Hserve Hw.
  destruct (reserve_region s n None (reachable_ok s Hreach) Hserve Hw) as (h & mm & w & Hrun & Hst & _).
  unfold reserve. rewrite Hrun. destruct Hreach as (s0 & Hinit & Hsteps).
  exists s0. split; [done|]. by eapply rtc_r.
Qed.

Lemma reach_bind s : reachable s → reachable (bind_newest s).
Proof.
  intros Hreach. destruct s as [mm w [|h hs] bs]; [done|]. unfold bind_newest. cbn [sys_handles sys_world].
  destruct (HandleRef_binding h w) as [[b w']| |] eqn:E; [|done|done].
  destruct Hreach as (s0 & Hinit & Hsteps). exists s0. split; [done|].
  eapply rtc_r; [exact Hsteps|]. by eapply step_binding.
Qed.

Ltac serve := split; [done|]; eexists _, _; split; [vm_compute; reflexivity|];
  split_and!; [done|vm_compute; done|vm_compute; done].

Lemma serve0 : can_serve (sys_mm state0) 10.
Proof. serve. Qed.
Lemma serve1 : can_serve (sys_mm state1) 20.
Proof. serve. Qed.
Lemma serve2 : can_serve (sys_mm state2) 8.
Proof. serve. Qed.

Lemma left_ids w : slice_counter w = 0 ∨ slice_counter w = 2 ∨ slice_counter w = 3 →
  storage_counter w ≤ 1 → ids_left w.
Proof. unfold ids_left, usize_max, u64_max. lia. Qed.

Lemma reach1 : reachable state1.
Proof.
  apply reach_reserve; [exists state0; split; [apply initial_state0|done]|apply serve0|by apply left_ids; auto].
Qed.
Lemma left1 : ids_left (sys_world state1).
Proof. apply left_ids; [right; left|]; vm_compute; done. Qed.
Lemma reach2 : reachable state2.
Proof. apply reach_reserve; [apply reach1|apply serve1|apply left1]. Qed.
Lemma left2 : ids_left (sys_world state2).
Proof. apply left_ids; [right; right|]; vm_compute; done. Qed.
Lemma reach3 : reachable state3.
Proof. apply reach_bind, reach2. Qed.

Definition id0 : SliceId := mkSliceId 0.
Definition id1 : SliceId := mkSliceId 1.

Lemma live_allocations_disjoint_witness :
  ∃ a b n m, region state2 id0 = Some a ∧ region state2 id1 = Some b ∧
    allocated (mm_storage (sys_mm state2)) !! sh_id a = Some n ∧ sh_offset a + sh_size a ≤ n ∧
    allocated (mm_storage (sys_mm state2)) !! sh_id b = Some m ∧ sh_offset b + sh_size b ≤ m ∧
    ¬ overlap a b.
Proof.
  apply (live_allocations_disjoint state2 id0 id1); [apply reach2| | |done];
    by apply (bool_decide_unpack _); vm_compute.
Defined.

Lemma live_allocation_stable_witness :
  is_Some (region state1 id0) ∧ region state2 id0 = region state1 id0.
Proof.
  apply (live_allocation_stable state1 state2 id0); [apply reach1| |by apply (bool_decide_unpack _); vm_compute].
  destruct (reserve_region state1 20 None (reachable_ok _ reach1) serve1 left1) as (h & mm & w & Hrun & Hst & _).
  unfold state2, reserve. by rewrite Hrun.
Defined.

Lemma reserve_serves_witness :
  ∃ h mm' w', mm_reserve (sys_mm state2) 8 None (sys_world state2) = Ret ((h, mm'), w') ∧
    reachable (mkSys mm' w' (h :: sys_handles state2) (sys_bindings state2)) ∧
    (href_id h ∉ client_ids state2) ∧
    ∃ r, region (mkSys mm' w' (h :: sys_handles state2) (sys_bindings state2)) (href_id h) = Some r ∧
      8 ≤ sh_size r ∧ (mm_mode (sys_mm state2) = Auto → sh_size r = 8 ∧
        ∃ p, p ∈ mm_pools mm' ∧ (dynamic_alignment p | sh_offset r)).
Proof. apply (reserve_serves state2 8 None); [apply reach2|apply serve2|apply left2]. Defined.

Lemma get_resource_live_witness :
  ∃ h res w', mm_get_resource (sys_mm state3) (mkBindingRef id1) (Some 4) (Some 8) (sys_world state3) =
      Ret (Some res, w') ∧
    cs_get h (mm_storage (sys_mm state3)) = Ret res ∧
    sh_id h = mkStorageId 0 ∧ sh_offset h = 12 + default 0 (Some 4) ∧
    sh_size h = 20 - default 0 (Some 4) - default 0 (Some 8) ∧
    reachable (mkSys (sys_mm state3) w' (sys_handles state3) []).
Proof.
  apply (get_resource_live state3 (mkBindingRef id1) [] (Some 4) (Some 8)
    (mkStorageHandle (mkStorageId 0) (mkUtilization 12 20)));
    [apply reach3|by vm_compute|by vm_compute|by vm_compute|by vm_compute].
Defined.

Lemma can_mut_unique_witness :
  HandleRef_can_mut (sys_world state2) (mkHandleRef id1) = true ↔ id1 ∉ href_id <$> [mkHandleRef id0].
Proof. apply (can_mut_unique state2 (mkHandleRef id1) [mkHandleRef id0]); [apply reach2|by vm_compute]. Defined.
End Demo.
