(* ===== verification/PoolProps.v ===== *)
(** * Properties of the pools, the presets and the CPU storage

    The slices of a page tile it, so the bytes that a sliced pool reports as used
    and as padding never exceed those it reports as reserved; the same holds
    for the exclusive pool page by page. *)

From S2P Require Import Prelude Ids Storage Slices SearchIndex Ring PageInv RingSpec Usage SlicedPool Pool StaticPool SlicedPoolSpec DeviceNum ExclusivePool ExclusivePoolSpec PoolList MemoryManagement ManageSpec System Config MemoryProps.

Open Scope N_scope.
Open Scope rust_scope.

(** ** Sums over lists *)

Lemma total_filter_le {A} (f : A → N) (P : A → Prop) `{∀ x, Decision (P x)} (l : list A) :
  total (f <$> filter P l) ≤ total (f <$> l).
Proof.
  induction l as [|x l IH]; [done|]. rewrite filter_cons, fmap_cons, total_cons.
  case_decide; rewrite ?fmap_cons, ?total_cons; lia.
Qed.

Lemma total_add {A} (f g : A → N) (l : list A) :
  total ((λ x, f x + g x) <$> l) = total (f <$> l) + total (g <$> l).
Proof. induction l as [|x l IH]; [done|]. rewrite !fmap_cons, !total_cons. lia. Qed.

Lemma total_ext {A} (f g : A → N) (l : list A) :
  (∀ x, x ∈ l → f x = g x) → total (f <$> l) = total (g <$> l).
Proof.
  induction l as [|x l IH]; intros Hfg; [done|]. rewrite !fmap_cons, !total_cons.
  rewrite (Hfg x), IH; [done|intros; apply Hfg; by right|by left].
Qed.

Lemma total_const {A} (c : N) (l : list A) : total ((λ _, c) <$> l) = N.of_nat (length l) * c.
Proof. induction l as [|x l IH]; [done|]. rewrite fmap_cons, total_cons. simpl length. lia. Qed.

Lemma length_filter_fmap {A B} (f : A → B) (P : B → Prop) `{∀ x, Decision (P x)} (l : list A) :
  length (filter P (f <$> l)) = length (filter (λ x, P (f x)) l).
Proof.
  induction l as [|x l IH]; [done|]. rewrite fmap_cons, !filter_cons. case_decide; simpl; by rewrite IH.
Qed.

(** Grouping the elements of a list by a key. *)
Lemma total_group {A K} `{EqDecision K} (key : A → K) (f : A → N) (l : list A) (ks : list K) :
  NoDup ks → (∀ x, x ∈ l → key x ∈ ks) →
  total (f <$> l) = total ((λ k, total (f <$> filter (λ x, key x = k) l)) <$> ks).
Proof.
  intros Hnd. induction l as [|x l IH]; intros Hin.
  { rewrite (total_ext _ (λ _, 0) ks), total_const by done. simpl. rewrite total_nil. lia. }
  rewrite fmap_cons.
  rewrite total_cons, IH by (intros; apply Hin; by right).
  transitivity (total ((λ k, (if decide (key x = k) then f x else 0) +
    total (f <$> filter (λ x, key x = k) l)) <$> ks)).
  - rewrite total_add. f_equal. assert (key x ∈ ks) as Hk by (apply Hin; by left). clear -Hnd Hk.
    induction ks as [|k ks IH]; [by apply not_elem_of_nil in Hk|].
    apply NoDup_cons in Hnd as [Hk' Hnd]. rewrite fmap_cons, total_cons.
    apply elem_of_cons in Hk as [->|Hk].
    + rewrite decide_True by done.
      rewrite (total_ext _ (λ _, 0)), total_const; [lia|]. intros y Hy. rewrite decide_False; [done|].
      by intros ->.
    + rewrite <- IH by done. rewrite decide_False; [lia|]. intros Heq. by rewrite Heq in Hk.
  - apply total_ext. intros k _. rewrite filter_cons. case_decide; rewrite ?fmap_cons, ?total_cons; lia.
Qed.

(** ** A page is tiled *)

Section Page.
Context (A PS : N) (sid : StorageId) (slices : gmap SliceId Slice).

Definition eff_at (kv : N * SliceId) : N :=
  match slices !! kv.2 with Some s => eff s | None => 0 end.

(** The bytes of the entries from an offset on. *)
Definition bytes_from (pg : gmap N SliceId) (lo : N) : N :=
  total ((λ kv, if lo <=? kv.1 then eff_at kv else 0) <$> map_to_list pg).

Lemma bytes_from_step pg a i s :
  page_ok A PS sid pg slices → pg !! a = Some i → slices !! i = Some s →
  bytes_from pg a = eff s + bytes_from pg (a + eff s).
Proof.
  intros Hok Ha Hs. unfold bytes_from.
  pose proof (map_to_list_delete pg a i Ha) as Hperm.
  rewrite <- (total_perm _ _ (fmap_Permutation (λ kv, if a <=? kv.1 then eff_at kv else 0) _ _ Hperm)).
  rewrite <- (total_perm _ _ (fmap_Permutation (λ kv, if a + eff s <=? kv.1 then eff_at kv else 0) _ _ Hperm)).
  destruct (po_entry _ _ _ _ _ Hok _ _ Ha) as (s' & Hs' & Hat). assert (s' = s) as -> by congruence.
  pose proof (sa_pos _ _ _ _ _ _ Hat) as Hpos.
  rewrite !fmap_cons, !total_cons. cbn [fst].
  rewrite N.leb_refl, (proj2 (N.leb_gt _ _)) by lia. unfold eff_at at 1. simpl. rewrite Hs. f_equal.
  rewrite N.add_0_l. apply total_ext. intros [b j] Hb%elem_of_map_to_list. simpl.
  apply lookup_delete_Some in Hb as [Hne Hb].
  destruct (N.leb_spec a b) as [Hle|Hgt].
  - pose proof (po_sep _ _ _ _ _ Hok _ _ _ _ _ Ha Hs Hb ltac:(lia)).
    by rewrite (proj2 (N.leb_le _ _)) by lia.
  - by rewrite (proj2 (N.leb_gt _ _)) by lia.
Qed.

Lemma bytes_from_end pg : page_ok A PS sid pg slices → bytes_from pg PS = 0.
Proof.
  intros Hok. unfold bytes_from. rewrite (total_ext _ (λ _, 0)), total_const; [lia|].
  intros [b j] Hb%elem_of_map_to_list. simpl.
  destruct (po_entry _ _ _ _ _ Hok _ _ Hb) as (s & Hs & [? ? ? ? ? ? ?]).
  by rewrite (proj2 (N.leb_gt _ _)) by lia.
Qed.

(** From a slice on, the entries fill the page exactly. *)
Lemma bytes_from_exact pg a i :
  page_ok A PS sid pg slices → pg !! a = Some i → bytes_from pg a = PS - a.
Proof.
  intros Hok. remember (above pg a) as n eqn:Hn. revert a i Hn.
  induction n as [n IH] using lt_wf_ind. intros a i -> Ha.
  destruct (po_entry _ _ _ _ _ Hok _ _ Ha) as (s & Hs & Hat). pose proof Hat as [Q1 Q2 Q3 Q4 Q5 Q6 Q7].
  rewrite (bytes_from_step _ _ _ _ Hok Ha Hs).
  destruct (po_next _ _ _ _ _ Hok _ _ _ Ha Hs) as [Hend|[j Hj]].
  - rewrite Hend, bytes_from_end by done. lia.
  - rewrite (IH (above pg (a + eff s)) ltac:(eapply above_advance; [done|lia]) (a + eff s) j eq_refl Hj).
    destruct (po_entry _ _ _ _ _ Hok _ _ Hj) as (t & _ & [? ? ? ? ? ? ?]). lia.
Qed.

Lemma page_bytes pg : page_ok A PS sid pg slices → total (eff_at <$> map_to_list pg) = PS.
Proof.
  intros Hok. destruct (po_start _ _ _ _ _ Hok) as [i Hi].
  transitivity (PS - 0); [|lia]. rewrite <- (bytes_from_exact _ _ _ Hok Hi).
  apply total_ext. intros [b j] _. by rewrite (proj2 (N.leb_le _ _)) by (simpl; lia).
Qed.
End Page.

(** ** The whole pool *)

Lemma page_slices_perm A PS pages slices sid p :
  pool_ok A PS pages slices → pages !! sid = Some p →
  filter (λ kv : SliceId * Slice, sh_id (sl_storage kv.2) = sid) (map_to_list slices) ≡ₚ
  omap (λ kv : N * SliceId, (λ s, (kv.2, s)) <$> slices !! kv.2) (map_to_list (page_slices p)).
Proof.
  intros Hok Hp. apply NoDup_Permutation.
  - apply NoDup_filter, NoDup_map_to_list.
  - pose proof (pk_page _ _ _ _ Hok _ _ Hp) as Hpg.
    assert (∀ l, NoDup l → (∀ kv, kv ∈ l → page_slices p !! kv.1 = Some kv.2) →
      NoDup (omap (λ kv : N * SliceId, (λ s, (kv.2, s)) <$> slices !! kv.2) l)) as Hnd.
    { induction l as [|[a i] l IH]; intros Hl Hin; [constructor|]. apply NoDup_cons in Hl as [Hn Hl].
      simpl. specialize (IH Hl ltac:(intros; apply Hin; by right)).
      destruct (slices !! i) as [s|] eqn:E; simpl; [|done]. apply NoDup_cons. split; [|done].
      intros ([b j] & Hb & Heq)%list_elem_of_omap. simpl in Heq.
      destruct (slices !! j) as [t|]; [|done]. injection Heq as -> ->.
      assert (b = a) as ->.
      { eapply entry_unique; [exact Hpg|apply (Hin (b, i)); by right|apply (Hin (a, i)); by left]. }
      done. }
    apply Hnd; [apply NoDup_map_to_list|]. intros [a i]. by rewrite elem_of_map_to_list.
  - intros [i s]. rewrite list_elem_of_filter, elem_of_map_to_list, list_elem_of_omap. simpl. split.
    + intros [Hsid Hi]. destruct (pk_back _ _ _ _ Hok _ _ Hi) as (q & Hq & Ha).
      assert (q = p) as -> by congruence. exists (off s, i).
      rewrite elem_of_map_to_list. simpl. by rewrite Hi.
    + intros ([a j] & Hj%elem_of_map_to_list & Heq). simpl in Heq.
      destruct (pool_entry _ _ _ _ _ _ _ _ Hok Hp Hj) as (t & Ht & Hat). rewrite Ht in Heq.
      injection Heq as <- <-. split; [apply Hat|done].
Qed.

Lemma omap_cons_eq {A B} (f : A → option B) x (l : list A) :
  omap f (x :: l) = match f x with Some y => y :: omap f l | None => omap f l end.
Proof. done. Qed.

Lemma total_omap_eff slices (l : list (N * SliceId)) :
  total ((λ kv, eff kv.2) <$> omap (λ kv : N * SliceId, (λ s, (kv.2, s)) <$> slices !! kv.2) l) =
  total (eff_at slices <$> l).
Proof.
  induction l as [|[a i] l IH]; [done|]. rewrite (fmap_cons (eff_at slices)), total_cons.
  rewrite omap_cons_eq. unfold eff_at at 1. cbn [snd].
  destruct (slices !! i) as [s|]; cbn [fmap option_fmap option_map];
    rewrite ?fmap_cons, ?total_cons, IH; done.
Qed.

(** All the slices of a pool together cover its pages. *)
Lemma pool_bytes A PS pages slices :
  pool_ok A PS pages slices →
  total ((λ kv, eff kv.2) <$> map_to_list slices) = N.of_nat (size pages) * PS.
Proof.
  intros Hok.
  rewrite (total_group (λ kv, sh_id (sl_storage kv.2)) _ _ (map_to_list pages).*1).
  - rewrite (total_ext _ (λ _, PS)).
    + rewrite total_const, length_fmap. by rewrite length_map_to_list.
    + intros sid ([sid' p] & -> & Hp%elem_of_map_to_list)%list_elem_of_fmap. simpl.
      rewrite (total_perm _ _ (fmap_Permutation _ _ _ (page_slices_perm _ _ _ _ _ _ Hok Hp))).
      rewrite total_omap_eff. eapply page_bytes, (pk_page _ _ _ _ Hok _ _ Hp).
  - apply NoDup_fst_map_to_list.
  - intros [i s] Hi%elem_of_map_to_list. simpl.
    destruct (pk_back _ _ _ _ Hok _ _ Hi) as (p & Hp & _). apply list_elem_of_fmap.
    eexists (_, p). split; [done|]. by apply elem_of_map_to_list.
Qed.

Lemma sliced_usage_bound w p :
  sliced_ok p → N.of_nat (size (sp_pages p)) * sp_page_size p ≤ u64_max →
  ∃ u, SlicedPool_get_memory_usage w p = Ret u ∧
    bytes_in_use u + bytes_padding u ≤ bytes_reserved u ∧
    number_allocs u = N.of_nat (length (filter (λ kv, negb (Slice_is_free w kv.2)) (map_to_list (sp_slices p)))).
Proof.
  intros Hok Hmax. unfold SlicedPool_get_memory_usage.
  pose proof (pool_bytes _ _ _ _ (so_pool _ Hok)) as Hb.
  set (used := filter (λ s, negb (Slice_is_free w s)) (map_to_list (sp_slices p)).*2).
  assert (total ((λ s, sh_size (sl_storage s)) <$> used) + total (sl_padding <$> used) ≤
    N.of_nat (size (sp_pages p)) * sp_page_size p) as Hle.
  { rewrite <- total_add, <- Hb. unfold used.
    etrans; [apply total_filter_le|]. rewrite <- list_fmap_compose. done. }
  rewrite !sum_u64_ok, checked_mul_ok by lia. cbn [obind]. eexists. split; [done|]. simpl.
  split; [lia|]. unfold used. by rewrite length_filter_fmap.
Qed.

Lemma exclusive_usage_bound w p :
  exclusive_ok p → total (ep_alloc_size <$> ex_pages p) ≤ u64_max →
  ∃ u, ExclusiveMemoryPool_get_memory_usage w p = Ret u ∧
    bytes_in_use u + bytes_padding u ≤ bytes_reserved u ∧
    bytes_reserved u = total (ep_alloc_size <$> ex_pages p).
Proof.
  intros Hok Hmax. unfold ExclusiveMemoryPool_get_memory_usage.
  set (used := filter (λ pg, negb (Slice_is_free w (ep_slice pg))) (ex_pages p)).
  assert (total ((λ pg, sh_size (sl_storage (ep_slice pg))) <$> used) +
    total ((λ pg, sl_padding (ep_slice pg)) <$> used) ≤ total (ep_alloc_size <$> ex_pages p)) as Hle.
  { rewrite <- total_add. etrans; [|apply (total_filter_le ep_alloc_size (λ pg, negb (Slice_is_free w (ep_slice pg))))].
    apply total_le. intros pg [_ Hin]%list_elem_of_filter. apply (xo_pages _ Hok _ Hin). }
  rewrite !sum_u64_ok by lia. cbn [obind]. eexists. split; [done|]. simpl. split; lia.
Qed.

Section Presets.
Context {S : Type} `{ComputeStorageSpec S}.

(** An empty sliced pool built from its options. *)
Lemma build_sliced props page m p :
  build_pool props (mkOptions (SlicedPages page m) None) = Ret p →
  ∃ sp, p = Sliced sp ∧ sp_page_size sp = page ∧ sp_pages sp = ∅.
Proof.
  unfold build_pool, SlicedPool_new. simpl. destruct (checked_rem _ _) as [r| |]; [|done|done].
  simpl. destruct (r =? 0); [|done]. simpl. intros [= <-]. eauto.
Qed.

Lemma sequence_inv {A B} (f : A → outcome B) l ys :
  sequence (f <$> l) = Ret ys → Forall2 (λ x y, f x = Ret y) l ys.
Proof.
  revert ys. induction l as [|x l IH]; intros ys Hs; [by injection Hs as <-|].
  rewrite fmap_cons in Hs. simpl in Hs. destruct (f x) as [y| |] eqn:E; [|done|done]. simpl in Hs.
  destruct (sequence (f <$> l)) as [zs| |]; [|done|done]. injection Hs as <-. constructor; auto.
Qed.

Lemma sub_slices_option_cases props sliced o :
  (∀ o, o ∈ sliced → ∃ page m, o = mkOptions (SlicedPages page m) None ∧
    m ≤ page ∧ (alignment props | page) ∧ 0 < page ≤ max_page_size props) →
  0 < alignment props ≤ max_page_size props →
  o ∈ [mkOptions (ExclusivePages_ 0) None] ++ sliced ++
    [mkOptions (SlicedPages (max_page_size props / alignment props * alignment props)
       (max_page_size props / alignment props * alignment props)) None] →
  o = mkOptions (ExclusivePages_ 0) None ∨
  ∃ page m, o = mkOptions (SlicedPages page m) None ∧ m ≤ page ∧ (alignment props | page) ∧
    0 < page ≤ max_page_size props.
Proof.
  intros Hsl [HA Hle] Ho. apply elem_of_app in Ho as [Ho|Ho]; [left; by apply list_elem_of_singleton in Ho|].
  apply elem_of_app in Ho as [Ho|Ho%list_elem_of_singleton]; [by right; auto|right].
  eexists _, _. split; [exact Ho|]. split; [done|]. split; [by exists (max_page_size props / alignment props)|].
  destruct (div_mod_ex (max_page_size props) (alignment props) HA) as (q & r & -> & _ & Heq & Hr). nia.
Qed.

(** The pool found for a positive size in a [SubSlices] manager. *)
Lemma sub_slices_can_serve props pools (st : S) opts n :
  (∀ o, o ∈ opts → o = mkOptions (ExclusivePages_ 0) None ∨
    ∃ page m, o = mkOptions (SlicedPages page m) None ∧ m ≤ page ∧ (alignment props | page) ∧
      0 < page ≤ max_page_size props) →
  sequence (build_pool props <$> opts) = Ret pools →
  max_page_size props ≤ u64_max → (∀ k, k ≤ max_page_size props → accepts k) →
  (∃ p, p ∈ pools ∧ n ≤ DynamicPool_max_alloc_size p) → 0 < n →
  ∃ k p, find_pool pools n = Some (k, p) ∧ can_reserve st p n.
Proof.
  intros Hopts Hseq Hmax Hacc (p0 & Hp0 & Hn0) Hn. unfold find_pool.
  destruct (list_find (λ p, n ≤ DynamicPool_max_alloc_size p) pools) as [[k p]|] eqn:E.
  2:{ apply list_find_None in E. rewrite Forall_forall in E. by destruct (E _ Hp0). }
  exists k, p. split; [done|]. apply list_find_Some in E as (Hk & Hle & _).
  apply sequence_inv in Hseq. destruct (Forall2_lookup_r _ _ _ _ _ Hseq Hk) as (o & Ho & Hb).
  destruct (Hopts o (list_elem_of_lookup_2 _ _ _ Ho)) as [->|(page & m & -> & Hm & Hdiv & Hpage)].
  - unfold build_pool, ExclusiveMemoryPool_new in Hb. cbn -[checked_rem f64_div] in Hb.
    destruct (checked_rem 0 (alignment props)) as [r| |]; [|done|done]. cbn in Hb.
    destruct (r =? 0); [|done]. injection Hb as <-. cbn in Hle. lia.
  - destruct (build_sliced _ _ _ _ Hb) as (sp & -> & Hps & Hpg). cbn. unfold sliced_ready.
    rewrite Hps, Hpg, map_size_empty. split; [done|]. split; [apply Hacc; lia|]. lia.
Qed.

End Presets.


(** C7. An unsuccessful search of a sliced pool is exhaustive up to the page
    under the cursor: when [try_reserve] returns [None], every other page
    that is not excluded has no free slice of the rounded-up size, nor two
    adjacent free slices left. *)
Theorem sliced_search_exhaustive p n exclude w cid call :
  sliced_ok p → refs_with w (sp_slices p) cid call →
  0 < n → n ≤ sp_max_alloc_size p → slice_counter w < usize_max →
  ∃ res p' w', SlicedPool_try_reserve p n exclude w = Ret ((res, p'), w') ∧
    (res = None → ∀ k, (k < length (ring_queue (sp_ring p)))%nat → k ≠ ring_cursor_chunk (sp_ring p) →
      chunk_exhausted call (round_up n (sp_alignment p)) exclude (sp_ring p)
        (sp_pages p') (sp_slices p') k).
Proof.
  intros Hok Hr Hn Hmax Hw.
  pose proof (sliced_try_reserve_spec cid call p n exclude w Hok Hr Hn Hmax Hw) as Hwp.
  apply wp_run in Hwp as ([res p'] & w' & Hrun & _ & _ & _ & _ & _ & _ & _ & Hres).
  exists res, p', w'. split; [done|]. intros ->. apply Hres.
Qed.

(** A pool with two pages of 8 bytes whose slices are all in use. *)
Module FullPool.
Definition world : World := mkWorld 2 2
  (<[mkSliceId 0 := mkCounts 2 2]> (<[mkSliceId 1 := mkCounts 2 2]> ∅)).
Definition slice (k : N) : Slice :=
  mkSlice (mkStorageHandle (mkStorageId k) (mkUtilization 0 8)) (mkHandleRef (mkSliceId k)) 0.
Definition page (k : N) : MemoryPage := mkPage {[0 := mkSliceId k]}.
Definition pool : SlicedPool := mkSlicedPool
  (<[mkStorageId 0 := page 0]> (<[mkStorageId 1 := page 1]> ∅))
  (<[mkSliceId 0 := slice 0]> (<[mkSliceId 1 := slice 1]> ∅))
  (SearchIndex_insert (SearchIndex_insert SearchIndex_new (mkStorageId 0) 8) (mkStorageId 1) 8)
  (push_page (push_page (RingBuffer_new 4) (mkStorageId 0)) (mkStorageId 1)) [] 16 8 8 4.
Definition client : refs := λ i, if slice_value i <? 2 then 1 else 0.

Lemma two_pages id q :
  sp_pages pool !! id = Some q → ∃ k, (k = 0 ∨ k = 1) ∧ id = mkStorageId k ∧ q = page k.
Proof.
  unfold pool. cbn [sp_pages sp_slices].
  intros [[<- <-]|[_ [[<- <-]|[_ Hq]]%lookup_insert_Some]]%lookup_insert_Some; eauto.
  by rewrite lookup_empty in Hq.
Qed.
Lemma two_slices i s :
  sp_slices pool !! i = Some s → ∃ k, (k = 0 ∨ k = 1) ∧ i = mkSliceId k ∧ s = slice k.
Proof.
  unfold pool. cbn [sp_pages sp_slices].
  intros [[<- <-]|[_ [[<- <-]|[_ Hq]]%lookup_insert_Some]]%lookup_insert_Some; eauto.
  by rewrite lookup_empty in Hq.
Qed.

Lemma tiled : pool_ok 4 8 (sp_pages pool) (sp_slices pool).
Proof.
  split.
  - intros id q (k & Hk & -> & ->)%two_pages. apply (page_ok_one 4 8 _ _ (slice k)); [|done|].
    + split; try done; [by exists 2|by exists 0].
    + destruct Hk as [-> | ->]; done.
  - intros i s (k & Hk & -> & ->)%two_slices. exists (page k). split; [|done].
    destruct Hk as [-> | ->]; done.
Qed.

Lemma full_pool_ok : sliced_ok pool.
Proof.
  split; try done.
  - by exists 2.
  - apply tiled.
  - split; try done.
    + apply NoDup_cons. split; [by intros ?%list_elem_of_singleton|apply NoDup_singleton].
    + intros id. split.
      * intros [->|[->|?%not_elem_of_nil]%elem_of_cons]%elem_of_cons; [by eexists..|done].
      * intros [q (k & [-> | ->] & -> & _)%two_pages]; [by left|by right; left].
    + intros id k. unfold pool, push_page, RingBuffer_new.
      cbn [sp_ring ring_chunk_positions ring_queue app length Nat.sub]. split.
      * intros [[<- <-]|[_ [[<- <-]|[_ Hq]]%lookup_insert_Some]]%lookup_insert_Some; [done..|].
        by rewrite lookup_empty in Hq.
      * destruct k as [|[|k]]; simpl; [intros [= <-]; done..|done].
  - apply index_ok_insert, index_ok_insert, index_ok_new.
  - intros id. cbn [sp_storage_index pool]. rewrite !index_insert_sizes. repeat case_decide; subst; try done.
    destruct (sp_pages pool !! id) eqn:E; [|done]. apply two_pages in E as (k & [-> | ->] & -> & _); done.
Qed.

Lemma full_pool_refs : refs_with world (sp_slices pool) client client.
Proof.
  assert (∀ i, counts world i = if slice_value i <? 2 then mkCounts 2 2 else mkCounts 0 0) as Hc.
  { intros [v]. unfold counts, world; simpl. destruct (N.ltb_spec v 2) as [Hlt|Hge].
    - assert (v = 0 ∨ v = 1) as [-> | ->] by lia; done.
    - rewrite !lookup_insert_ne by (intros [=]; lia). by rewrite lookup_empty. }
  assert (∀ i, pool_refs (sp_slices pool) client i = if slice_value i <? 2 then 2 else 0) as Hp.
  { intros [v]. unfold pool_refs, client; simpl. destruct (N.ltb_spec v 2) as [Hlt|Hge].
    - assert (v = 0 ∨ v = 1) as [-> | ->] by lia; done.
    - rewrite bool_decide_eq_false_2; [done|]. intros [s (k & [-> | ->] & [= ->] & _)%two_slices]; lia. }
  split; intros i; rewrite ?Hc, ?Hp.
  - by destruct (_ <? _).
  - by destruct (_ <? _).
  - simpl. intros Hi. by rewrite (proj2 (N.ltb_ge _ _)).
Qed.
End FullPool.

Lemma sliced_search_exhaustive_witness :
  ∃ res p' w', SlicedPool_try_reserve FullPool.pool 5 None FullPool.world = Ret ((res, p'), w') ∧
    (res = None → ∀ k, (k < 2)%nat → k ≠ 0%nat →
      chunk_exhausted FullPool.client (round_up 5 4) None (sp_ring FullPool.pool)
        (sp_pages p') (sp_slices p') k).
Proof.
  apply (sliced_search_exhaustive FullPool.pool 5 None FullPool.world FullPool.client FullPool.client);
    [apply FullPool.full_pool_ok|apply FullPool.full_pool_refs|done..].
Defined.

(** The exclusive pool reuses a page whenever it can: [get_free_page]
    returns a free, non-excluded page that is large enough and, among those,
    one with the smallest free count; it returns nothing only when no page
    qualifies. *)
Theorem exclusive_page_choice w p n exclude :
  match get_free_page w p n exclude with
  | Some (k, pg) => ex_pages p !! k = Some pg ∧ page_fits w n exclude pg = true ∧
      ∀ q, q ∈ ex_pages p → page_fits w n exclude q = true → ep_free_count pg ≤ ep_free_count q
  | None => ∀ q, q ∈ ex_pages p → page_fits w n exclude q = false
  end.
Proof. apply get_free_page_spec. Qed.

Lemma wp_triple {W A B} (m : M W (A * B)) (w : W) (Q : A → B → W → Prop) :
  wp m w (λ '(a, b) w', Q a b w') → ∃ a b w', m w = Ret ((a, b), w') ∧ Q a b w'.
Proof. rewrite wp_run. intros ([a b] & w' & Hrun & HQ). eauto. Qed.

Section Cleanup.
Context {S : Type} `{ComputeStorageSpec S}.

(** What a cleanup of the exclusive pool does: when it is not due it
    changes nothing; when it is due (it was asked for, or a fifth of the
    deallocation period has passed) it ages the free pages, deallocates
    exactly the free pages that were seen free often enough (all the free
    ones if it is explicit), keeps every page in use unchanged, and never
    panics. *)
Theorem exclusive_cleanup_effect p (st : S) alloc_nr explicit w cid call :
  exclusive_ok p → refs_with w (ex_slices (ex_pages p)) cid call →
  ex_last_dealloc_check p ≤ alloc_nr →
  ∃ p' st' w', ExclusiveMemoryPool_cleanup p st alloc_nr explicit w = Ret ((p', st'), w') ∧
    (if explicit || (ex_dealloc_period p / 5 <=? alloc_nr - ex_last_dealloc_check p) then
       ex_pages p' = aged call <$> filter (λ pg, retained call explicit pg) (ex_pages p) ∧
       ex_last_dealloc_check p' = alloc_nr ∧
       allocated st' = without (list_to_set (ep_sid <$> dropped call explicit (ex_pages p))) (allocated st)
     else p' = p ∧ st' = st ∧ w' = w) ∧
    exclusive_ok p' ∧ refs_with w' (ex_slices (ex_pages p')) cid call ∧
    ∀ pg, pg ∈ ex_pages p → 0 < call (ep_id pg) → pg ∈ ex_pages p'.
Proof.
  intros Hok Hr Hclk. apply wp_triple. unfold ExclusiveMemoryPool_cleanup.
  change (ex_dealloc_period p / ALLOC_AFTER_FREE) with (ex_dealloc_period p / 5).
  set (due := explicit || (ex_dealloc_period p / 5 <=? alloc_nr - ex_last_dealloc_check p)).
  wp_step. eapply wp_mono with (P := λ d w1, w1 = w ∧ d = due).
  { destruct explicit; wp_steps; done. }
  intros d w1 [-> ->]. destruct due; [|wp_step; by split_and!]. wp_step.
  eapply wp_mono; [apply (exclusive_retain_spec cid call _ _ (ex_slices (ex_pages p)));
    [done|apply Hok|]|].
  { intros pg Hpg. split; [apply ex_slices_lookup; [apply Hok|eauto]|by apply (xo_pages _ Hok)]. }
  intros [pages' st'] w' (-> & Hst & Hc & Hs & Hr'). wp_step. cbn [ex_pages ex_last_dealloc_check].
  split_and!; try done.
  - by apply exclusive_ok_retained.
  - rewrite ex_slices_retained by apply Hok. done.
  - intros pg Hpg Hlive. apply list_elem_of_fmap. exists pg.
    assert ((call (ep_id pg) =? 0) = false) as Hz by (apply N.eqb_neq; lia).
    unfold aged. rewrite Hz. split; [done|]. apply list_elem_of_filter. split; [|done].
    unfold retained. by rewrite Hz.
Qed.
End Cleanup.

(** An exclusive pool with a free page and a page in use. *)
Module TwoPages.
Definition world : World := mkWorld 2 2
  (<[mkSliceId 0 := mkCounts 1 1]> (<[mkSliceId 1 := mkCounts 2 2]> ∅)).
Definition slice (k : N) : Slice :=
  mkSlice (mkStorageHandle (mkStorageId k) (mkUtilization 0 8)) (mkHandleRef (mkSliceId k)) 0.
Definition pool : ExclusiveMemoryPool :=
  mkExclusive [mkExPage (slice 0) 8 2; mkExPage (slice 1) 8 4] 4 100 0 16 (f64_of_u64 8).
Definition client : refs := λ i, if slice_value i =? 1 then 1 else 0.

Lemma two_pages_ok : exclusive_ok pool.
Proof.
  split; try done.
  - apply NoDup_cons. split; [by intros ?%list_elem_of_singleton|apply NoDup_singleton].
  - apply NoDup_cons. split; [by intros ?%list_elem_of_singleton|apply NoDup_singleton].
  - intros pg [->|[->|?%not_elem_of_nil]%elem_of_cons]%elem_of_cons; [..|done];
      (split; [done..|by exists 2|done]).
Qed.

Lemma two_pages_refs : refs_with world (ex_slices (ex_pages pool)) client client.
Proof.
  assert (ex_slices (ex_pages pool) = <[mkSliceId 0 := slice 0]> {[mkSliceId 1 := slice 1]}) as ->
    by done.
  assert (∀ v, 2 ≤ v → counts world (mkSliceId v) = mkCounts 0 0) as Hc.
  { intros v Hv. unfold counts, world; simpl.
    rewrite !lookup_insert_ne by (intros [=]; lia). by rewrite lookup_empty. }
  assert (∀ v, 2 ≤ v → pool_refs (<[mkSliceId 0 := slice 0]> {[mkSliceId 1 := slice 1]}) client
    (mkSliceId v) = 0) as Hp.
  { intros v Hv. unfold pool_refs, client; simpl. rewrite (proj2 (N.eqb_neq _ _)) by lia.
    rewrite lookup_insert_ne, lookup_singleton_ne by (intros [=]; lia). done. }
  split; intros [v].
  - destruct (N.le_gt_cases 2 v); [by rewrite Hc, Hp|]. assert (v = 0 ∨ v = 1) as [-> | ->] by lia; done.
  - destruct (N.le_gt_cases 2 v); [by rewrite Hc, Hp|]. assert (v = 0 ∨ v = 1) as [-> | ->] by lia; done.
  - simpl. intros Hv. by rewrite !Hp.
Qed.
End TwoPages.

Lemma exclusive_cleanup_effect_witness :
  ∃ p' st' w', ExclusiveMemoryPool_cleanup TwoPages.pool (mkBytesStorage ∅) 50 false TwoPages.world =
      Ret ((p', st'), w') ∧
    (ex_pages p' = aged TwoPages.client <$>
       filter (λ pg, retained TwoPages.client false pg) (ex_pages TwoPages.pool) ∧
     ex_last_dealloc_check p' = 50 ∧
     allocated st' = without (list_to_set (ep_sid <$> dropped TwoPages.client false (ex_pages TwoPages.pool)))
       (allocated (mkBytesStorage ∅))) ∧
    exclusive_ok p' ∧ refs_with w' (ex_slices (ex_pages p')) TwoPages.client TwoPages.client ∧
    ∀ pg, pg ∈ ex_pages TwoPages.pool → 0 < TwoPages.client (ep_id pg) → pg ∈ ex_pages p'.
Proof.
  apply (exclusive_cleanup_effect TwoPages.pool (mkBytesStorage ∅) 50 false TwoPages.world
    TwoPages.client TwoPages.client); [apply TwoPages.two_pages_ok|apply TwoPages.two_pages_refs|done].
Defined.

(** The usage report of a sliced pool is consistent: as long as the
    reserved bytes fit in 64 bits it is computed without overflow, it counts
    the slices in use, and the bytes in use and their padding together never
    exceed the reserved bytes. *)
Theorem sliced_usage_consistent w p :
  sliced_ok p → N.of_nat (size (sp_pages p)) * sp_page_size p ≤ u64_max →
  ∃ u, SlicedPool_get_memory_usage w p = Ret u ∧
    bytes_in_use u + bytes_padding u ≤ bytes_reserved u ∧
    number_allocs u = N.of_nat (length (filter (λ kv, negb (Slice_is_free w kv.2)) (map_to_list (sp_slices p)))).
Proof. apply sliced_usage_bound. Qed.

Lemma sliced_usage_consistent_witness :
  ∃ u, SlicedPool_get_memory_usage FullPool.world FullPool.pool = Ret u ∧
    bytes_in_use u + bytes_padding u ≤ bytes_reserved u ∧
    number_allocs u = N.of_nat (length (filter (λ kv, negb (Slice_is_free FullPool.world kv.2))
      (map_to_list (sp_slices FullPool.pool)))).
Proof. apply (sliced_usage_consistent FullPool.world FullPool.pool); [apply FullPool.full_pool_ok|done]. Defined.

(** The usage report of an exclusive pool is consistent in the same
    sense, with the sizes of all its pages as the reserved bytes. *)
Theorem exclusive_usage_consistent w p :
  exclusive_ok p → total (ep_alloc_size <$> ex_pages p) ≤ u64_max →
  ∃ u, ExclusiveMemoryPool_get_memory_usage w p = Ret u ∧
    bytes_in_use u + bytes_padding u ≤ bytes_reserved u ∧
    bytes_reserved u = total (ep_alloc_size <$> ex_pages p).
Proof. apply exclusive_usage_bound. Qed.

Lemma exclusive_usage_consistent_witness :
  ∃ u, ExclusiveMemoryPool_get_memory_usage TwoPages.world TwoPages.pool = Ret u ∧
    bytes_in_use u + bytes_padding u ≤ bytes_reserved u ∧
    bytes_reserved u = total (ep_alloc_size <$> ex_pages TwoPages.pool).
Proof. apply (exclusive_usage_consistent TwoPages.world TwoPages.pool); [apply TwoPages.two_pages_ok|done]. Defined.

(** ** The CPU storage *)

Lemma write_then_read (l : list (option N)) (data : list N) start len :
  (start + len ≤ length l)%nat → length data = len →
  take len (drop start (take start l ++ (Some <$> data) ++ drop (start + len) l)) = Some <$> data.
Proof.
  intros Hle Hlen. rewrite drop_app_ge by (rewrite length_take; lia).
  rewrite length_take, Nat.min_l, Nat.sub_diag, drop_0 by lia.
  rewrite take_app_length' by (by rewrite length_fmap). done.
Qed.

Lemma splice_length (l : list (option N)) (data : list N) start len :
  (start + len ≤ length l)%nat → length data = len →
  length (take start l ++ (Some <$> data) ++ drop (start + len) l) = length l.
Proof.
  intros Hle Hlen. rewrite !length_app, length_take, length_fmap, length_drop. lia.
Qed.

Lemma splice_disjoint (l : list (option N)) (data : list N) start len start' len' :
  (start + len ≤ length l)%nat → length data = len →
  (start' + len' ≤ start ∨ start + len ≤ start' ∨ len = 0 ∨ len' = 0)%nat →
  take len' (drop start' (take start l ++ (Some <$> data) ++ drop (start + len) l)) =
  take len' (drop start' l).
Proof.
  intros Hle Hlen Hdis. apply list_eq. intros i.
  destruct (Nat.lt_ge_cases i len') as [Hi|Hi]; [|rewrite !lookup_take_ge by lia; done].
  rewrite !lookup_take_lt, !lookup_drop by lia.
  destruct (Nat.lt_ge_cases (start' + i) start) as [H1|H1].
  - rewrite lookup_app_l by (rewrite length_take; lia). by rewrite lookup_take_lt by lia.
  - rewrite lookup_app_r by (rewrite length_take; lia). rewrite length_take, Nat.min_l by lia.
    rewrite lookup_app_r by (rewrite length_fmap; lia). rewrite length_fmap, lookup_drop.
    f_equal. lia.
Qed.

(** C12. Writes through one allocation are read back, and are invisible
    through every other live allocation: with the CPU storage, in every
    reachable state, writing to the resource of one id changes no byte that
    is read through the resource of another one. *)
Theorem bytes_writes_isolated (s : Sys BytesStorage) i j a b data st' :
  reachable s → i ∈ client_ids s → j ∈ client_ids s → i ≠ j →
  region s i = Some a → region s j = Some b →
  bytes_write (mm_storage (sys_mm s)) (mkBytesResource (sh_id a) (sh_utilization a)) data = Ret st' →
  bytes_read st' (mkBytesResource (sh_id a) (sh_utilization a)) = Ret (Some <$> data) ∧
  bytes_read st' (mkBytesResource (sh_id b) (sh_utilization b)) =
  bytes_read (mm_storage (sys_mm s)) (mkBytesResource (sh_id b) (sh_utilization b)).
Proof.
  intros Hs%reachable_ok Hi Hj Hne Ha Hb Hw.
  pose proof (regions_disjoint s i j a b Hs Hne Ha Hb) as Hdis.
  destruct a as [ida [oa na]], b as [idb [ob nb]]. unfold overlap in Hdis. cbn in Hdis.
  unfold bytes_write, bytes_read in *. cbn -[expect] in *.
  set (mem := bs_memory (mm_storage (sys_mm s))) in *.
  destruct (mem !! ida) as [blk|] eqn:Eb; [|done]. cbn in Hw.
  case_bool_decide as Hfit; [|done]. destruct Hfit as [Hle Hlen]. injection Hw as <-. cbn -[expect].
  split.
  - rewrite lookup_insert_eq. cbn.
    rewrite bool_decide_eq_true_2 by (by rewrite splice_length).
    by rewrite write_then_read.
  - destruct (decide (ida = idb)) as [<-|Hid].
    + rewrite lookup_insert_eq, Eb. cbn. rewrite splice_length by done.
      case_bool_decide; [|done]. f_equal.
      assert (¬ (oa < ob + nb ∧ ob < oa + na)) by tauto.
      apply splice_disjoint; [done|done|]. lia.
    + by rewrite lookup_insert_ne.
Qed.

Lemma bytes_writes_isolated_witness :
  ∃ st', bytes_write (mm_storage (sys_mm Demo.state2))
      (mkBytesResource (mkStorageId 0) (mkUtilization 0 10)) [1; 2; 3; 4; 5; 6; 7; 8; 9; 10] = Ret st' ∧
    bytes_read st' (mkBytesResource (mkStorageId 0) (mkUtilization 0 10)) =
      Ret (Some <$> [1; 2; 3; 4; 5; 6; 7; 8; 9; 10]) ∧
    bytes_read st' (mkBytesResource (mkStorageId 0) (mkUtilization 12 20)) =
    bytes_read (mm_storage (sys_mm Demo.state2)) (mkBytesResource (mkStorageId 0) (mkUtilization 12 20)).
Proof.
  eexists. split; [vm_compute; reflexivity|].
  apply (bytes_writes_isolated Demo.state2 Demo.id0 Demo.id1
    (mkStorageHandle (mkStorageId 0) (mkUtilization 0 10))
    (mkStorageHandle (mkStorageId 0) (mkUtilization 12 20)) [1; 2; 3; 4; 5; 6; 7; 8; 9; 10]);
    [apply Demo.reach2|by apply (bool_decide_unpack _); vm_compute
    |by apply (bool_decide_unpack _); vm_compute|done|by vm_compute|by vm_compute|by vm_compute].
Defined.

(** The size index answers range queries exactly: [find_by_size] yields
    the items whose recorded size lies in the half-open range, and inserting
    or removing an item changes the record of that item only. *)
Theorem search_index_exact {T} `{Countable T} (idx : SearchIndex T) item size lo hi x :
  index_ok idx →
  (x ∈ find_by_size (SearchIndex_insert idx item size) lo hi ↔
     if decide (x = item) then lo ≤ size ∧ size < hi
     else x ∈ find_by_size idx lo hi) ∧
  (x ∈ find_by_size (SearchIndex_remove idx item) lo hi ↔ x ≠ item ∧ x ∈ find_by_size idx lo hi).
Proof.
  intros Hok. rewrite (elem_of_find_by_size idx) by done.
  rewrite (elem_of_find_by_size (SearchIndex_insert _ _ _)) by (by apply index_ok_insert).
  rewrite (elem_of_find_by_size (SearchIndex_remove _ _)) by (by apply index_ok_remove).
  setoid_rewrite index_insert_sizes. setoid_rewrite index_remove_sizes.
  destruct (decide (x = item)); split.
  - split; [by intros (? & [= <-] & ?)|eauto].
  - split; [by intros (? & ? & _)|tauto].
  - by rewrite elem_of_find_by_size.
  - tauto.
Qed.

Lemma search_index_exact_witness :
  (5 ∈ find_by_size (SearchIndex_insert (SearchIndex_new (T := N)) 5 16) 8 32 ↔
     if decide ((5 : N) = 5) then 8 ≤ 16 ∧ 16 < 32
     else 5 ∈ find_by_size (SearchIndex_new (T := N)) 8 32) ∧
  (5 ∈ find_by_size (SearchIndex_remove (SearchIndex_new (T := N)) 5) 8 32 ↔
     (5 : N) ≠ 5 ∧ 5 ∈ find_by_size (SearchIndex_new (T := N)) 8 32).
Proof. apply (search_index_exact (SearchIndex_new (T := N)) 5 16 8 32 5), index_ok_new. Defined.

(** ** Observed deviations *)

Module Deviations.
(** Drop the oldest handle. *)
Definition drop_oldest (s : Sys BytesStorage) : Sys BytesStorage :=
  match reverse (sys_handles s) with
  | h :: hs =>
      match HandleRef_drop h (sys_world s) with
      | Ret (_, w) => mkSys (sys_mm s) w (reverse hs) (sys_bindings s)
      | _ => s
      end
  | [] => s
  end.

Definition sliced_pages (s : Sys BytesStorage) : list nat :=
  (λ p, match p with Sliced m => size (sp_pages m) | Exclusive m => length (ex_pages m) end)
    <$> mm_pools (sys_mm s).

(** A manager with one pool of 16-byte pages. *)
Definition small : Sys BytesStorage :=
  mkSys (mkManagement (StaticPool_new 16)
    [Sliced (mkSlicedPool ∅ ∅ SearchIndex_new (RingBuffer_new 4) [] 0 16 16 4)]
    (mkBytesStorage ∅) 0 Auto) Demo.world0 [] [].

(** The free slice in front of the cursor of the only page is not found: a
    second page is allocated although half of the first one is free. *)
Lemma free_slice_before_cursor_missed :
  sliced_pages (Demo.reserve 8 (drop_oldest (Demo.reserve 8 (Demo.reserve 8 small)))) = [2%nat].
Proof. vm_compute. reflexivity. Qed.

(** A request of zero bytes on a sliced pool cuts an empty slice off a free
    one and then loses it: both slices start at offset 12, but the page only
    knows the second one. *)
Lemma zero_size_reservation_orphans_slice :
  match mm_pools (sys_mm (Demo.reserve 0 Demo.state1)) with
  | [Sliced m] =>
      (off <$> sp_slices m !! mkSliceId 1) = Some 12 ∧ (off <$> sp_slices m !! mkSliceId 2) = Some 12 ∧
      ((λ p, page_slices p !! 12) <$> sp_pages m !! mkStorageId 0) = Some (Some (mkSliceId 2))
  | _ => False
  end.
Proof. vm_compute. done. Qed.
End Deviations.
