(* ===== verification/FastMath.v ===== *)
(** * Division by invariant integers

    Model of [crates/cubecl-std/src/fast_math.rs].  The host precomputes a
    multiplier and a shift for a divisor; the device then divides with a
    multiplication and a shift.  A shift by 32 or more is not defined on the
    device: [shr_wide] stands for whatever a backend does. *)

From S2P Require Import Prelude DeviceNum.

Open Scope N_scope.
Open Scope rust_scope.

Inductive FastDivmod :=
| Fast (divisor multiplier shift_right : N)
| PowerOfTwo (shift mask : N)
| Fallback (divisor : N).

(** [for i in 0..32 { if (1 << i) >= x { return i; } } 32]. *)
Fixpoint find_log2_from (fuel : nat) (i x : N) : N :=
  match fuel with
  | O => 32
  | S fuel => if x <=? 2 ^ i then i else find_log2_from fuel (i + 1) x
  end.
Definition find_log2 (x : N) : N := find_log2_from 32 0 x.

(** [FastDivmodArgs::new]; [u64_supported] is [u64::is_supported(client)]. *)
Definition FastDivmodArgs_new (u64_supported : bool) (divisor : N) : outcome FastDivmod :=
  let? _ := assert_ (negb (divisor =? 0)) "assertion failed: divisor != 0" in
  if is_power_of_two divisor then
    let? mask := checked_sub divisor 1 in
    Ret (PowerOfTwo (trailing_zeros 32 divisor) mask)
  else if negb u64_supported then Ret (Fallback divisor)
  else
    let div_64 := divisor in
    let shift := find_log2 divisor in
    let? d := checked_sub (2 ^ shift) div_64 in
    let? n := checked_mul u64_max (2 ^ 32) d in
    let? q := checked_div n div_64 in
    let? multiplier := checked_add u64_max q 1 in
    Ret (Fast divisor (multiplier mod two32) shift).

Section Device.
Context (shr_wide : N → N → N).

Definition shr (a s : N) : N := if s <? 32 then N.shiftr a s else shr_wide a s.

Definition FastDivmod_div (self : FastDivmod) (dividend : N) : N :=
  match self with
  | Fast _ multiplier shift_right =>
      let t := mul_hi dividend multiplier in
      shr (wadd t dividend) shift_right
  | PowerOfTwo shift _ => shr dividend shift
  | Fallback divisor => dividend / divisor
  end.

Definition FastDivmod_modulo (self : FastDivmod) (dividend : N) : N :=
  let q := FastDivmod_div self dividend in
  match self with
  | Fast divisor _ _ => wsub dividend (wmul q divisor)
  | PowerOfTwo _ mask => N.land dividend mask
  | Fallback divisor => dividend mod divisor
  end.

Definition FastDivmod_div_mod (self : FastDivmod) (dividend : N) : N * N :=
  let q := FastDivmod_div self dividend in
  let r := match self with
           | Fast divisor _ _ => wsub dividend (wmul q divisor)
           | Fallback divisor => wsub dividend (wmul q divisor)
           | PowerOfTwo _ mask => N.land dividend mask
           end in
  (q, r).
End Device.

(** ** Powers of two *)

Lemma pow2_of_pos p : pos_is_pow2 p = true → Npos p = 2 ^ pos_trailing_zeros p.
Proof.
  induction p as [p IH|p IH|]; simpl; intros Hp; [done| |done].
  rewrite N.pow_add_r, <- (IH Hp). done.
Qed.

Lemma is_power_of_two_spec d :
  is_power_of_two d = true → d = 2 ^ trailing_zeros 32 d.
Proof. destruct d as [|p]; [done|]. apply pow2_of_pos. Qed.

(** ** The precomputed values *)

Lemma find_log2_from_spec fuel i x :
  2 ^ (i + N.of_nat fuel) = 2 ^ 32 →
  (∃ k, find_log2_from fuel i x = i + k ∧ i + k < 32 ∧ x ≤ 2 ^ (i + k) ∧
    (k = 0 ∨ 2 ^ (i + k - 1) < x)) ∨
  (find_log2_from fuel i x = 32 ∧ ∀ j, i ≤ j < i + N.of_nat fuel → 2 ^ j < x).
Proof.
  revert i. induction fuel as [|fuel IH]; intros i Hi; simpl.
  { right. split; [done|]. lia. }
  assert (i + N.of_nat (S fuel) = 32) as Hsum by (apply (N.pow_inj_r 2); [lia|done]).
  destruct (N.leb_spec x (2 ^ i)) as [Hle|Hlt].
  - left. exists 0. rewrite N.add_0_r. split_and!; try done; [lia|by left].
  - destruct (IH (i + 1)) as [(k & Hk & Hb & Hx & Hlow)|[H32 Hall]].
    { f_equal. lia. }
    + left. exists (k + 1). rewrite Hk. replace (i + (k + 1)) with (i + 1 + k) by lia.
      split_and!; try done. right. destruct Hlow as [->|Hlow]; [|done].
      replace (i + 1 + 0 - 1) with i by lia. done.
    + right. split; [done|]. intros j Hj. destruct (N.eq_dec j i) as [->|]; [done|]. apply Hall. lia.
Qed.

(** For a divisor of at most [2^31] the shift is the ceiling of its logarithm. *)
Lemma find_log2_spec d :
  1 < d → d ≤ 2 ^ 31 → ∃ s, find_log2 d = s ∧ s < 32 ∧ d ≤ 2 ^ s ∧ 2 ^ s < 2 * d.
Proof.
  intros Hd Hmax. unfold find_log2.
  destruct (find_log2_from_spec 32 0 d eq_refl) as [(k & Hk & Hb & Hx & Hlow)|[_ Hall]].
  - rewrite N.add_0_l in *. exists k. split; [done|]. split; [done|]. split; [done|].
    destruct Hlow as [->|Hlow]; [change (2 ^ 0) with 1; lia|]. destruct (N.eq_dec k 0) as [->|Hk0]; [lia|].
    replace k with (N.succ (k - 1)) by lia. rewrite N.pow_succ_r'. lia.
  - specialize (Hall 31 ltac:(lia)). lia.
Qed.

Lemma FastDivmodArgs_new_fast d :
  1 < d → d ≤ 2 ^ 31 → is_power_of_two d = false →
  ∃ s m, FastDivmodArgs_new true d = Ret (Fast d m s) ∧ s < 32 ∧ d ≤ 2 ^ s ∧
    m < two32 ∧ two32 + m = two32 * 2 ^ s / d + 1.
Proof.
  intros Hd Hmax Hp. destruct (find_log2_spec d Hd Hmax) as (s & Hs & Hlt & Hle & Hhalf).
  unfold FastDivmodArgs_new. rewrite (proj2 (N.eqb_neq _ _)) by lia. cbn [negb assert_ obind].
  rewrite Hp, Hs. cbn [negb].
  assert (2 ^ s ≤ 2 ^ 31) as Hpow by (apply N.pow_le_mono_r; lia).
  change (2 ^ 32) with two32. change (2 ^ 31) with 2147483648 in *.
  rewrite checked_sub_ok by done. cbn [obind].
  rewrite checked_mul_ok by (unfold u64_max, two32; lia). cbn [obind].
  rewrite checked_div_ok by lia. cbn [obind].
  destruct (div_mul_bounds (two32 * (2 ^ s - d)) d ltac:(lia)) as [B1 B2].
  set (q := two32 * (2 ^ s - d) / d) in *.
  assert (q < two32) as Hq by (unfold two32 in *; nia).
  rewrite checked_add_ok by (unfold two32, u64_max in *; lia). cbn [obind].
  assert (two32 * 2 ^ s / d = two32 + q) as Hdiv.
  { apply div_bounds; [lia|nia|]. assert (two32 * 2 ^ s = two32 * (2 ^ s - d) + two32 * d) by nia. nia. }
  exists s, ((q + 1) mod two32). split_and!; try done; [by apply N.mod_lt|].
  assert (q + 1 < two32) as Hq1.
  { assert (q * d ≤ two32 * (2 ^ s - d)) by done. assert (two32 * (2 ^ s - d) ≤ two32 * (d - 1)) by nia.
    assert (q * d < (two32 - 1) * d); [unfold two32 in *; nia|]. nia. }
  rewrite N.mod_small, Hdiv by done. lia.
Qed.

(** The arithmetic core: multiplying by [K/d + 1] and dividing by
    [K = 2^(32+s)] divides by [d]. *)
Lemma magic_div n d s :
  0 < d → d ≤ 2 ^ s → n < two32 →
  n * (two32 * 2 ^ s / d + 1) / (two32 * 2 ^ s) = n / d.
Proof.
  intros Hd Hs Hn. set (K := two32 * 2 ^ s).
  assert (0 < 2 ^ s) as Hp by (apply N.neq_0_lt_0, N.pow_nonzero; lia).
  assert (0 < K) as HK by (unfold K, two32; lia).
  destruct (div_mul_bounds K d Hd) as [B1 B2]. set (M := K / d + 1) in *.
  destruct (div_mul_bounds n d Hd) as [C1 C2]. set (q := n / d) in *.
  apply div_bounds; [done| |].
  - apply (N.mul_le_mono_pos_r _ _ d); [done|].
    assert (q * d * K ≤ n * K) by (apply N.mul_le_mono_r; done).
    assert (n * K ≤ n * (M * d)) by (apply N.mul_le_mono_l; lia). lia.
  - apply (N.mul_lt_mono_pos_r d); [done|].
    assert (M * d ≤ K + d) as He by (unfold M; lia).
    assert (n * (M * d) ≤ n * (K + d)) by (apply N.mul_le_mono_l; done).
    assert (n * d < K).
    { assert (n * d ≤ n * 2 ^ s) by (apply N.mul_le_mono_l; done).
      assert (n * 2 ^ s < two32 * 2 ^ s) by (apply N.mul_lt_mono_pos_r; done). unfold K. lia. }
    assert (n * K + K ≤ (q + 1) * d * K) by nia. lia.
Qed.

Section Correct.
Context (shr_wide : N → N → N).

Lemma shr_small a s : s < 32 → shr shr_wide a s = a / 2 ^ s.
Proof. intros Hs. unfold shr. rewrite (proj2 (N.ltb_lt _ _)) by done. apply N.shiftr_div_pow2. Qed.

(** The fast path divides correctly as long as the sum does not wrap. *)
Lemma fast_div d m s n :
  0 < d → d ≤ 2 ^ s → s < 32 → two32 + m = two32 * 2 ^ s / d + 1 →
  n + mul_hi n m < two32 → FastDivmod_div shr_wide (Fast d m s) n = n / d.
Proof.
  intros Hd Hs Hlt Hm Hn. unfold FastDivmod_div. rewrite shr_small by done.
  rewrite wadd_small by lia. rewrite <- (magic_div n d s Hd Hs) by lia. rewrite <- Hm.
  rewrite <- N.Div0.div_div. f_equal. unfold mul_hi.
  replace (n * (two32 + m)) with (n * m + n * two32) by lia.
  rewrite N.div_add by done. lia.
Qed.

Lemma mul_hi_le n m : m < two32 → mul_hi n m ≤ n.
Proof.
  intros Hm. unfold mul_hi. apply N.Div0.div_le_upper_bound. nia.
Qed.

Lemma rest_ok n d q : 0 < d → n < two32 → q = n / d → wsub n (wmul q d) = n mod d.
Proof.
  intros Hd Hn ->. destruct (div_mod_ex n d Hd) as (q & r & -> & -> & Heq & Hr).
  rewrite wmul_small by lia. rewrite wsub_small by lia. lia.
Qed.

Lemma FastDivmod_ok u64 d n :
  0 < d → d ≤ 2 ^ 31 → n < 2 ^ 31 →
  ∃ f, FastDivmodArgs_new u64 d = Ret f ∧ FastDivmod_div shr_wide f n = n / d ∧
    FastDivmod_modulo shr_wide f n = n mod d.
Proof.
  intros Hd Hmax Hn. change (2 ^ 31) with 2147483648 in Hmax, Hn.
  destruct (is_power_of_two d) eqn:Hp.
  - pose proof (is_power_of_two_spec d Hp) as Hpow. unfold FastDivmodArgs_new.
    rewrite (proj2 (N.eqb_neq _ _)) by lia. cbn [negb assert_ obind]. rewrite Hp, checked_sub_ok by lia.
    cbn [obind]. eexists. split; [done|]. simpl. set (k := trailing_zeros 32 d) in *.
    assert (k < 32) as Hk.
    { apply (N.pow_lt_mono_r_iff 2); [lia|]. rewrite <- Hpow. change (2 ^ 32) with two32. unfold two32. lia. }
    split.
    + by rewrite shr_small, Hpow at 1.
    + rewrite Hpow at 1. rewrite <- N.pred_sub, <- N.ones_equiv, N.land_ones. by rewrite <- Hpow.
  - destruct u64.
    + assert (1 < d) as Hd1.
      { destruct (N.eq_dec d 1) as [->|]; [done|lia]. }
      destruct (FastDivmodArgs_new_fast d Hd1) as (s & m & -> & Hs & Hle & Hm & Heq); [done|done|].
      pose proof (mul_hi_le n m Hm).
      assert (FastDivmod_div shr_wide (Fast d m s) n = n / d) as Hdiv.
      { apply fast_div; try done. unfold two32. lia. }
      eexists. split; [done|]. split; [done|].
      unfold FastDivmod_modulo. rewrite Hdiv. apply rest_ok; [done|unfold two32; lia|done].
    + unfold FastDivmodArgs_new. rewrite (proj2 (N.eqb_neq _ _)) by lia.
      cbn [negb assert_ obind]. rewrite Hp. eexists. split; [done|]. done.
Qed.
Lemma FastDivmod_div_mod_ok u64 d n f :
  0 < d → d ≤ 2 ^ 31 → n < 2 ^ 31 → FastDivmodArgs_new u64 d = Ret f →
  FastDivmod_div_mod shr_wide f n = (n / d, n mod d).
Proof.
  intros Hd Hmax Hn Hf. destruct (FastDivmod_ok u64 d n Hd Hmax Hn) as (f' & Hf' & Hq & Hr).
  rewrite Hf in Hf'. injection Hf' as <-. unfold FastDivmod_div_mod. rewrite Hq. f_equal.
  destruct f as [d' m s|s mk|d'].
  - unfold FastDivmod_modulo in Hr. by rewrite Hq in Hr.
  - exact Hr.
  - simpl in Hq, Hr. unfold FastDivmodArgs_new in Hf.
    assert (d' = d) as ->.
    { destruct (negb (d =? 0)); [|done]. cbn [assert_ obind] in Hf.
      destruct (is_power_of_two d); [by destruct (checked_sub d 1)|].
      destruct (negb u64); [by injection Hf|].
      destruct (checked_sub (2 ^ find_log2 d) d) as [x| |]; [|done|done]. cbn [obind] in Hf.
      destruct (checked_mul u64_max (2 ^ 32) x) as [y| |]; [|done|done]. cbn [obind] in Hf.
      destruct (checked_div y d) as [z| |]; [|done|done]. cbn [obind] in Hf.
      by destruct (checked_add u64_max z 1). }
    apply rest_ok; [done|change (2 ^ 31) with 2147483648 in Hn; unfold two32; lia|done].
Qed.
End Correct.

(** C14. Fast division is exact: for every divisor up to [2^31], every
    dividend below [2^31] and whichever form the constructor picks, [div],
    [modulo] and [div_mod] compute the quotient and the remainder. *)
Theorem fast_divmod_correct (shr_wide : N → N → N) u64_supported d n :
  0 < d → d ≤ 2 ^ 31 → n < 2 ^ 31 →
  ∃ f, FastDivmodArgs_new u64_supported d = Ret f ∧
    FastDivmod_div shr_wide f n = n / d ∧ FastDivmod_modulo shr_wide f n = n mod d ∧
    FastDivmod_div_mod shr_wide f n = (n / d, n mod d).
Proof.
  intros Hd Hmax Hn. destruct (FastDivmod_ok shr_wide u64_supported d n Hd Hmax Hn) as (f & Hf & Hq & Hr).
  exists f. split_and!; try done. by apply (FastDivmod_div_mod_ok shr_wide u64_supported).
Qed.

Lemma fast_divmod_correct_witness :
  ∃ f, FastDivmodArgs_new true 7 = Ret f ∧
    FastDivmod_div (λ _ _, 0) f 1000000 = 1000000 / 7 ∧ FastDivmod_modulo (λ _ _, 0) f 1000000 = 1000000 mod 7 ∧
    FastDivmod_div_mod (λ _ _, 0) f 1000000 = (1000000 / 7, 1000000 mod 7).
Proof. apply (fast_divmod_correct (λ _ _, 0) true 7 1000000); done. Defined.

(** For larger dividends the sum [t + dividend] can wrap around: dividing
    [2^32 - 1] by 3 gives 357913941 instead of 1431655765. *)
Lemma fast_div_wraps :
  ∃ f, FastDivmodArgs_new true 3 = Ret f ∧
    FastDivmod_div (λ _ _, 0) f 4294967295 = 357913941 ∧ 4294967295 / 3 = 1431655765.
Proof. eexists. split; [reflexivity|]. split; vm_compute; reflexivity. Qed.
