(* ===== verification/Tiling.v ===== *)
(** * Sizes, problem and tiling scheme of a matmul

    Model of [crates/cubecl-matmul/src/components/size.rs], [ident.rs] and
    [problem.rs]: the three-dimensional sizes, the identifiers of the three
    tensors, the problem with its batches, and its kind.

    Model of [tiling_scheme.rs]: the four nested levels of tiling, how many
    children of one level a parent level holds, and the builder.  Products are
    overflow-checked [u32] multiplications. *)

From S2P Require Import Prelude DeviceNum.

Open Scope N_scope.
Open Scope rust_scope.

Inductive MatmulDim := DimM | DimN | DimK.

(** [define_3d_size_base!]: [TileSize], [PartitionSize] and [StageSize] hold
    [u8] values, [MatmulProblemSize] holds [u32] values. *)
Record Size3 := { size_m : N; size_n : N; size_k : N }.

(** [<$ty>::try_from(v).unwrap()] for a type with the given maximum. *)
Definition try_from_unwrap (max v : N) : outcome N :=
  if v <=? max then Ret v
  else Panic "called `Result::unwrap()` on an `Err` value: TryFromIntError(())".

Definition Size3_new (max m n k : N) : outcome Size3 :=
  let? m := try_from_unwrap max m in
  let? n := try_from_unwrap max n in
  let? k := try_from_unwrap max k in
  Ret {| size_m := m; size_n := n; size_k := k |}.

Definition size_get (s : Size3) (dim : MatmulDim) : N :=
  match dim with
  | DimM => size_m s
  | DimN => size_n s
  | DimK => size_k s
  end.

Definition size_mn (s : Size3) : outcome N := checked_mul u32_max (size_get s DimM) (size_get s DimN).
Definition size_mk (s : Size3) : outcome N := checked_mul u32_max (size_get s DimM) (size_get s DimK).
Definition size_nk (s : Size3) : outcome N := checked_mul u32_max (size_get s DimN) (size_get s DimK).
Definition size_mnk (s : Size3) : outcome N :=
  let? mn := checked_mul u32_max (size_get s DimM) (size_get s DimN) in
  checked_mul u32_max mn (size_get s DimK).

(** [impl_from_tuple!] from a tuple of unsigned values: the [as] casts
    truncate. *)
Definition size_from_tuple (max : N) (value : N * N * N) : Size3 :=
  let '(m, n, k) := value in
  {| size_m := m mod (max + 1); size_n := n mod (max + 1); size_k := k mod (max + 1) |}.
(** [impl_from_tuple!] to a tuple of unsigned values with maximum [max]. *)
Definition size_to_tuple (max : N) (s : Size3) : N * N * N :=
  (size_m s mod (max + 1), size_n s mod (max + 1), size_k s mod (max + 1)).

Record GlobalPartitionSize := { gps_m : N; gps_n : N; gps_batches : N }.
Definition GlobalPartitionSize_new (m n batches : N) : GlobalPartitionSize :=
  {| gps_m := m; gps_n := n; gps_batches := batches |}.

Inductive MatmulIdent := IdentLhs | IdentRhs | IdentOut.
Inductive StageIdent := StageLhs | StageRhs | StageAcc.

Definition into_stage (ident : MatmulIdent) : StageIdent :=
  match ident with
  | IdentLhs => StageLhs
  | IdentRhs => StageRhs
  | IdentOut => StageAcc
  end.

Inductive MatrixLayout := LayoutRowMajor | LayoutColMajor.

#[export] Instance MatmulIdent_eq_dec : EqDecision MatmulIdent.
Proof. solve_decision. Defined.
#[export] Instance StageIdent_eq_dec : EqDecision StageIdent.
Proof. solve_decision. Defined.
#[export] Instance MatrixLayout_eq_dec : EqDecision MatrixLayout.
Proof. solve_decision. Defined.

Record MatmulProblem := {
  prob_m : N;
  prob_n : N;
  prob_k : N;
  prob_lhs_batches : list N;
  prob_rhs_batches : list N;
  prob_lhs_layout : MatrixLayout;
  prob_rhs_layout : MatrixLayout;
}.

(** The dimensions come out in reverse order: both iterators are reversed and
    the result is not reversed back. *)
Definition output_batch_dims (p : MatmulProblem) : list N :=
  zip_with N.max (rev (prob_lhs_batches p)) (rev (prob_rhs_batches p)).

(** [iter().product()] on [usize]. *)
Fixpoint product (acc : N) (l : list N) : outcome N :=
  match l with
  | [] => Ret acc
  | x :: l => let? acc := checked_mul usize_max acc x in product acc l
  end.

Definition num_batches (p : MatmulProblem) : outcome N := product 1 (output_batch_dims p).

Definition shape (p : MatmulProblem) (ident : MatmulIdent) : list N :=
  match ident with
  | IdentLhs => prob_lhs_batches p ++ [prob_m p; prob_k p]
  | IdentRhs => prob_rhs_batches p ++ [prob_k p; prob_n p]
  | IdentOut => output_batch_dims p ++ [prob_m p; prob_n p]
  end.

Inductive MatmulKind :=
| General
| MatVec
| VecMat
| ScalarVec
| VecScalar
| InnerProduct
| OuterProduct
| ScalarProduct.

Inductive DimKind := DimScalar | DimVector.
Definition DimKind_from (x : N) : DimKind := if x =? 1 then DimScalar else DimVector.

Definition MatmulKind_from_size (s : Size3) : MatmulKind :=
  match DimKind_from (size_get s DimM), DimKind_from (size_get s DimN),
        DimKind_from (size_get s DimK) with
  | DimScalar, DimScalar, DimScalar => ScalarProduct
  | DimScalar, DimScalar, DimVector => InnerProduct
  | DimScalar, DimVector, DimScalar => ScalarVec
  | DimScalar, DimVector, DimVector => VecMat
  | DimVector, DimScalar, DimScalar => VecScalar
  | DimVector, DimScalar, DimVector => MatVec
  | DimVector, DimVector, DimScalar => OuterProduct
  | DimVector, DimVector, DimVector => General
  end.

(** [usize as u32]. *)
Definition as_u32 (v : N) : N := v mod two32.

Definition MatmulProblemSize_from (p : MatmulProblem) : outcome Size3 :=
  Size3_new u32_max (as_u32 (prob_m p)) (as_u32 (prob_n p)) (as_u32 (prob_k p)).

Definition MatmulKind_from (p : MatmulProblem) : outcome MatmulKind :=
  let? s := Size3_new u32_max (as_u32 (prob_m p)) (as_u32 (prob_n p)) (as_u32 (prob_k p)) in
  Ret (MatmulKind_from_size s).

(** ** Lemmas *)

Lemma as_u32_small v : v < two32 → as_u32 v = v.
Proof. apply N.mod_small. Qed.

Lemma as_u32_lt v : as_u32 v < two32.
Proof. by apply N.mod_lt. Qed.

(** A tuple of values that fit the component type survives the conversion to
    a size and back. *)
Lemma size_tuple_roundtrip max max' m n k :
  m ≤ max → n ≤ max → k ≤ max → m ≤ max' → n ≤ max' → k ≤ max' →
  size_to_tuple max' (size_from_tuple max (m, n, k)) = (m, n, k).
Proof. intros. unfold size_to_tuple, size_from_tuple. simpl.
  by rewrite (N.mod_small m (max + 1)), (N.mod_small n (max + 1)), (N.mod_small k (max + 1)),
    (N.mod_small m), (N.mod_small n), (N.mod_small k) by lia.
Qed.

Lemma MatmulKind_from_total p : ∃ k, MatmulKind_from p = Ret k.
Proof.
  unfold MatmulKind_from, Size3_new, try_from_unwrap.
  assert (∀ v, (as_u32 v <=? u32_max) = true) as H.
  { intros v. apply N.leb_le. pose proof (as_u32_lt v). unfold two32, u32_max in *. lia. }
  rewrite !H. by eexists.
Qed.

Record TilingScheme := {
  tile_size : Size3;
  partition_size : Size3;
  stage_size : Size3;
  global_partition_size : GlobalPartitionSize;
}.

Record TilingSchemeBuilder := {
  tsb_tile_size : option Size3;
  tsb_partition_size : option Size3;
  tsb_stage_size : option Size3;
  tsb_global_partition_size : option GlobalPartitionSize;
}.

Definition TilingScheme_builder : TilingSchemeBuilder :=
  {| tsb_tile_size := None; tsb_partition_size := None; tsb_stage_size := None;
     tsb_global_partition_size := None |}.

Definition with_tile_size (b : TilingSchemeBuilder) (s : Size3) : TilingSchemeBuilder :=
  {| tsb_tile_size := Some s; tsb_partition_size := tsb_partition_size b;
     tsb_stage_size := tsb_stage_size b; tsb_global_partition_size := tsb_global_partition_size b |}.
Definition with_partition_size (b : TilingSchemeBuilder) (s : Size3) : TilingSchemeBuilder :=
  {| tsb_tile_size := tsb_tile_size b; tsb_partition_size := Some s;
     tsb_stage_size := tsb_stage_size b; tsb_global_partition_size := tsb_global_partition_size b |}.
Definition with_stage_size (b : TilingSchemeBuilder) (s : Size3) : outcome TilingSchemeBuilder :=
  let? _ := assert_ (size_k s =? 1) "Stage size k > 1 is not supported" in
  Ret {| tsb_tile_size := tsb_tile_size b; tsb_partition_size := tsb_partition_size b;
         tsb_stage_size := Some s; tsb_global_partition_size := tsb_global_partition_size b |}.
Definition with_global_partition_size (b : TilingSchemeBuilder) (s : GlobalPartitionSize) :
    TilingSchemeBuilder :=
  {| tsb_tile_size := tsb_tile_size b; tsb_partition_size := tsb_partition_size b;
     tsb_stage_size := tsb_stage_size b; tsb_global_partition_size := Some s |}.

Definition TilingScheme_build (b : TilingSchemeBuilder) : TilingScheme + string :=
  match tsb_tile_size b with
  | None => inr "Missing tile_size"
  | Some tile =>
      match tsb_partition_size b with
      | None => inr "Missing tiles_per_partition"
      | Some partition =>
          match tsb_stage_size b with
          | None => inr "Missing partitions_per_stage"
          | Some stage =>
              inl {| tile_size := tile; partition_size := partition; stage_size := stage;
                     global_partition_size :=
                       default (GlobalPartitionSize_new 1 1 1) (tsb_global_partition_size b) |}
          end
      end
  end%string.

Inductive TilingLevel := GlobalPartition | Stage | StagePartition | Tile | Element.
#[export] Instance TilingLevel_eq_dec : EqDecision TilingLevel.
Proof. solve_decision. Defined.

(** The [?] operator on an [Option] inside a computation that can panic. *)
Definition try_bind {A B : Type} (m : outcome (option A)) (k : A → outcome (option B)) :
    outcome (option B) :=
  let? o := m in
  match o with
  | Some a => k a
  | None => Ret None
  end.
Notation "'try!' x := m 'in' k" := (try_bind m (λ x, k))
  (at level 10, x name, m at level 200, k at level 200) : rust_scope.

(** [Some(a? * b?)]. *)
Definition some_product (a b : outcome (option N)) : outcome (option N) :=
  try! x := a in
  try! y := b in
  let? p := checked_mul u32_max x y in
  Ret (Some p).

(** The recursion of [try_count_1d] is at most three calls deep. *)
Fixpoint try_count_1d_rec (fuel : nat) (ts : TilingScheme) (child_level parent_level : TilingLevel)
    (dim : MatmulDim) : outcome (option N) :=
  match fuel with
  | O => OutOfFuel
  | S fuel =>
      let try_count_1d := try_count_1d_rec fuel ts in
      if decide (child_level = parent_level) then Ret (Some 1) else
      match child_level, parent_level with
      | Stage, GlobalPartition =>
          Ret match dim with
              | DimM => Some (gps_m (global_partition_size ts))
              | DimN => Some (gps_n (global_partition_size ts))
              | DimK => None
              end
      | StagePartition, Stage => Ret (Some (size_get (stage_size ts) dim))
      | Tile, StagePartition => Ret (Some (size_get (partition_size ts) dim))
      | Element, Tile => Ret (Some (size_get (tile_size ts) dim))
      | StagePartition, GlobalPartition =>
          some_product (try_count_1d StagePartition Stage dim) (try_count_1d Stage GlobalPartition dim)
      | Tile, GlobalPartition =>
          some_product (try_count_1d Tile Stage dim) (try_count_1d Stage GlobalPartition dim)
      | Element, GlobalPartition =>
          some_product (try_count_1d Element Stage dim) (try_count_1d Stage GlobalPartition dim)
      | Tile, Stage =>
          some_product (try_count_1d StagePartition Stage dim) (try_count_1d Tile StagePartition dim)
      | Element, Stage =>
          some_product (try_count_1d Tile Stage dim) (try_count_1d Element Tile dim)
      | Element, StagePartition =>
          some_product (try_count_1d Tile StagePartition dim) (try_count_1d Element Tile dim)
      | _, _ => Ret None
      end
  end.
Definition try_count_1d : TilingScheme → TilingLevel → TilingLevel → MatmulDim → outcome (option N) :=
  try_count_1d_rec 4.

Definition try_count_2d (ts : TilingScheme) (child_level parent_level : TilingLevel)
    (dim1 dim2 : MatmulDim) : outcome (option N) :=
  some_product (try_count_1d ts child_level parent_level dim1)
    (try_count_1d ts child_level parent_level dim2).

Definition invalid_hierarchy {A : Type} : outcome A :=
  Panic "Invalid hierarchy: parent level cannot contain child level".

Definition count_1d (ts : TilingScheme) (child_level parent_level : TilingLevel) (dim : MatmulDim) :
    outcome N :=
  let? o := try_count_1d ts child_level parent_level dim in
  match o with
  | Some c => Ret c
  | None => invalid_hierarchy
  end.

Definition count_1d_ident_row (ts : TilingScheme) (child_level parent_level : TilingLevel)
    (ident : StageIdent) : outcome N :=
  match ident with
  | StageLhs => count_1d ts child_level parent_level DimM
  | StageRhs => count_1d ts child_level parent_level DimK
  | StageAcc => count_1d ts child_level parent_level DimM
  end.

Definition count_1d_ident_col (ts : TilingScheme) (child_level parent_level : TilingLevel)
    (ident : StageIdent) : outcome N :=
  match ident with
  | StageLhs => count_1d ts child_level parent_level DimK
  | StageRhs => count_1d ts child_level parent_level DimN
  | StageAcc => count_1d ts child_level parent_level DimN
  end.

Definition count_2d (ts : TilingScheme) (child_level parent_level : TilingLevel)
    (dim1 dim2 : MatmulDim) : outcome N :=
  let? o := try_count_2d ts child_level parent_level dim1 dim2 in
  match o with
  | Some c => Ret c
  | None => invalid_hierarchy
  end.

Definition count_2d_ident (ts : TilingScheme) (child_level parent_level : TilingLevel)
    (ident : StageIdent) : outcome N :=
  match ident with
  | StageLhs => count_2d ts child_level parent_level DimM DimK
  | StageRhs => count_2d ts child_level parent_level DimK DimN
  | StageAcc => count_2d ts child_level parent_level DimM DimN
  end.

(** ** The counting methods *)

Definition stage_partitions_in_stage_m (ts : TilingScheme) : outcome N :=
  count_1d ts StagePartition Stage DimM.
Definition stage_partitions_in_stage_n (ts : TilingScheme) : outcome N :=
  count_1d ts StagePartition Stage DimN.
Definition stage_partitions_in_stage_k (ts : TilingScheme) : outcome N :=
  count_1d ts StagePartition Stage DimK.
Definition stage_partitions_in_stage_row (ts : TilingScheme) (ident : StageIdent) : outcome N :=
  count_1d_ident_row ts StagePartition Stage ident.
Definition stage_partitions_in_stage_col (ts : TilingScheme) (ident : StageIdent) : outcome N :=
  count_1d_ident_col ts StagePartition Stage ident.
Definition stage_partitions_in_stage_mk (ts : TilingScheme) : outcome N :=
  count_2d ts StagePartition Stage DimM DimK.
Definition stage_partitions_in_stage_nk (ts : TilingScheme) : outcome N :=
  count_2d ts StagePartition Stage DimN DimK.
Definition stage_partitions_in_stage_mn (ts : TilingScheme) : outcome N :=
  count_2d ts StagePartition Stage DimM DimN.
Definition stage_partitions_in_stage (ts : TilingScheme) (ident : StageIdent) : outcome N :=
  count_2d_ident ts StagePartition Stage ident.

Definition tiles_in_stage_m (ts : TilingScheme) : outcome N := count_1d ts Tile Stage DimM.
Definition tiles_in_stage_n (ts : TilingScheme) : outcome N := count_1d ts Tile Stage DimN.
Definition tiles_in_stage_k (ts : TilingScheme) : outcome N := count_1d ts Tile Stage DimK.
Definition tiles_in_stage_row (ts : TilingScheme) (ident : StageIdent) : outcome N :=
  count_1d_ident_row ts Tile Stage ident.
Definition tiles_in_stage_col (ts : TilingScheme) (ident : StageIdent) : outcome N :=
  count_1d_ident_col ts Tile Stage ident.
Definition tiles_in_stage_mk (ts : TilingScheme) : outcome N := count_2d ts Tile Stage DimM DimK.
Definition tiles_in_stage_nk (ts : TilingScheme) : outcome N := count_2d ts Tile Stage DimN DimK.
Definition tiles_in_stage_mn (ts : TilingScheme) : outcome N := count_2d ts Tile Stage DimM DimN.
Definition tiles_in_stage (ts : TilingScheme) (ident : StageIdent) : outcome N :=
  count_2d_ident ts Tile Stage ident.

Definition elements_in_stage_m (ts : TilingScheme) : outcome N := count_1d ts Element Stage DimM.
Definition elements_in_stage_n (ts : TilingScheme) : outcome N := count_1d ts Element Stage DimN.
Definition elements_in_stage_k (ts : TilingScheme) : outcome N := count_1d ts Element Stage DimK.
Definition elements_in_stage_row (ts : TilingScheme) (ident : StageIdent) : outcome N :=
  count_1d_ident_row ts Element Stage ident.
Definition elements_in_stage_col (ts : TilingScheme) (ident : StageIdent) : outcome N :=
  count_1d_ident_col ts Element Stage ident.
Definition elements_in_stage_mk (ts : TilingScheme) : outcome N :=
  count_2d ts Element Stage DimM DimK.
Definition elements_in_stage_nk (ts : TilingScheme) : outcome N :=
  count_2d ts Element Stage DimN DimK.
Definition elements_in_stage_mn (ts : TilingScheme) : outcome N :=
  count_2d ts Element Stage DimM DimN.
Definition elements_in_stage (ts : TilingScheme) (ident : StageIdent) : outcome N :=
  count_2d_ident ts Element Stage ident.

Definition tiles_in_stage_partition_m (ts : TilingScheme) : outcome N :=
  count_1d ts Tile StagePartition DimM.
Definition tiles_in_stage_partition_n (ts : TilingScheme) : outcome N :=
  count_1d ts Tile StagePartition DimN.
Definition tiles_in_stage_partition_k (ts : TilingScheme) : outcome N :=
  count_1d ts Tile StagePartition DimK.
Definition tiles_in_stage_partition_row (ts : TilingScheme) (ident : StageIdent) : outcome N :=
  count_1d_ident_row ts Tile StagePartition ident.
Definition tiles_in_stage_partition_col (ts : TilingScheme) (ident : StageIdent) : outcome N :=
  count_1d_ident_col ts Tile StagePartition ident.
Definition tiles_in_stage_partition_mk (ts : TilingScheme) : outcome N :=
  count_2d ts Tile StagePartition DimM DimK.
Definition tiles_in_stage_partition_nk (ts : TilingScheme) : outcome N :=
  count_2d ts Tile StagePartition DimN DimK.
Definition tiles_in_stage_partition_mn (ts : TilingScheme) : outcome N :=
  count_2d ts Tile StagePartition DimM DimN.
Definition tiles_in_stage_partition (ts : TilingScheme) (ident : StageIdent) : outcome N :=
  count_2d_ident ts Tile StagePartition ident.

Definition elements_in_stage_partition_m (ts : TilingScheme) : outcome N :=
  count_1d ts Element StagePartition DimM.
Definition elements_in_stage_partition_n (ts : TilingScheme) : outcome N :=
  count_1d ts Element StagePartition DimN.
Definition elements_in_stage_partition_k (ts : TilingScheme) : outcome N :=
  count_1d ts Element StagePartition DimK.
Definition elements_in_stage_partition_row (ts : TilingScheme) (ident : StageIdent) : outcome N :=
  count_1d_ident_row ts Element StagePartition ident.
Definition elements_in_stage_partition_col (ts : TilingScheme) (ident : StageIdent) : outcome N :=
  count_1d_ident_col ts Element StagePartition ident.
Definition elements_in_stage_partition_mk (ts : TilingScheme) : outcome N :=
  count_2d ts Element StagePartition DimM DimK.
Definition elements_in_stage_partition_nk (ts : TilingScheme) : outcome N :=
  count_2d ts Element StagePartition DimN DimK.
Definition elements_in_stage_partition_mn (ts : TilingScheme) : outcome N :=
  count_2d ts Element StagePartition DimM DimN.
Definition elements_in_stage_partition (ts : TilingScheme) (ident : StageIdent) : outcome N :=
  count_2d_ident ts Element StagePartition ident.

Definition elements_in_tile_m (ts : TilingScheme) : outcome N := count_1d ts Element Tile DimM.
Definition elements_in_tile_n (ts : TilingScheme) : outcome N := count_1d ts Element Tile DimN.
Definition elements_in_tile_k (ts : TilingScheme) : outcome N := count_1d ts Element Tile DimK.
Definition elements_in_tile_row (ts : TilingScheme) (ident : StageIdent) : outcome N :=
  count_1d_ident_row ts Element Tile ident.
Definition elements_in_tile_col (ts : TilingScheme) (ident : StageIdent) : outcome N :=
  count_1d_ident_col ts Element Tile ident.
Definition elements_in_tile_mk (ts : TilingScheme) : outcome N :=
  count_2d ts Element Tile DimM DimK.
Definition elements_in_tile_nk (ts : TilingScheme) : outcome N :=
  count_2d ts Element Tile DimN DimK.
Definition elements_in_tile_mn (ts : TilingScheme) : outcome N :=
  count_2d ts Element Tile DimM DimN.
Definition elements_in_tile (ts : TilingScheme) (ident : StageIdent) : outcome N :=
  count_2d_ident ts Element Tile ident.

Definition elements_in_global_partition_m (ts : TilingScheme) : outcome N :=
  count_1d ts Element GlobalPartition DimM.
Definition elements_in_global_partition_n (ts : TilingScheme) : outcome N :=
  count_1d ts Element GlobalPartition DimN.
Definition tiles_in_global_partition_m (ts : TilingScheme) : outcome N :=
  count_1d ts Tile GlobalPartition DimM.
Definition tiles_in_global_partition_n (ts : TilingScheme) : outcome N :=
  count_1d ts Tile GlobalPartition DimN.
Definition stage_partitions_in_global_partition_m (ts : TilingScheme) : outcome N :=
  count_1d ts StagePartition GlobalPartition DimM.
Definition stage_partitions_in_global_partition_n (ts : TilingScheme) : outcome N :=
  count_1d ts StagePartition GlobalPartition DimN.
Definition stages_in_global_partition_m (ts : TilingScheme) : outcome N :=
  count_1d ts Stage GlobalPartition DimM.
Definition stages_in_global_partition_n (ts : TilingScheme) : outcome N :=
  count_1d ts Stage GlobalPartition DimN.


(** ** What the counts are *)

(** The size of one child level in its parent, [None] where the hierarchy
    does not define it. *)
Definition level_size (ts : TilingScheme) (parent : TilingLevel) (dim : MatmulDim) : option N :=
  match parent, dim with
  | GlobalPartition, DimM => Some (gps_m (global_partition_size ts))
  | GlobalPartition, DimN => Some (gps_n (global_partition_size ts))
  | GlobalPartition, DimK => None
  | Stage, _ => Some (size_get (stage_size ts) dim)
  | StagePartition, _ => Some (size_get (partition_size ts) dim)
  | Tile, _ => Some (size_get (tile_size ts) dim)
  | Element, _ => None
  end.

Definition depth (l : TilingLevel) : nat :=
  match l with
  | GlobalPartition => 0
  | Stage => 1
  | StagePartition => 2
  | Tile => 3
  | Element => 4
  end.
Definition next_level (l : TilingLevel) : TilingLevel :=
  match l with
  | GlobalPartition => Stage
  | Stage => StagePartition
  | StagePartition => Tile
  | _ => Element
  end.

(** The reference: descend from the parent one level at a time, multiplying
    the sizes of the levels. *)
Fixpoint descend (steps : nat) (ts : TilingScheme) (level : TilingLevel) (dim : MatmulDim) : option N :=
  match steps with
  | O => Some 1
  | S steps =>
      s ← level_size ts level dim;
      c ← descend steps ts (next_level level) dim;
      Some (s * c)
  end.
Definition count_spec (ts : TilingScheme) (child parent : TilingLevel) (dim : MatmulDim) : option N :=
  if decide (depth parent ≤ depth child)%nat then descend (depth child - depth parent) ts parent dim
  else None.

(** Sizes that fit their types. *)
Definition size3_wf (max : N) (s : Size3) : Prop := ∀ dim, size_get s dim ≤ max.
Definition scheme_wf (ts : TilingScheme) : Prop :=
  size3_wf u8_max (tile_size ts) ∧ size3_wf u8_max (partition_size ts) ∧
  size3_wf u8_max (stage_size ts).
(** The global partition stays addressable with [u32] coordinates. *)
Definition partition_fits (ts : TilingScheme) (dim : MatmulDim) : Prop :=
  ∀ child c, count_spec ts child GlobalPartition dim = Some c → c ≤ u32_max.

Lemma some_product_ok a b x y :
  a = Ret (Some x) → b = Ret (Some y) → x * y ≤ u32_max → some_product a b = Ret (Some (x * y)).
Proof. intros -> -> H. cbn. by rewrite checked_mul_ok. Qed.

Lemma inner_bounds ts dim :
  scheme_wf ts →
  size_get (stage_size ts) dim * size_get (partition_size ts) dim ≤ 65025 ∧
  size_get (partition_size ts) dim * size_get (tile_size ts) dim ≤ 65025 ∧
  size_get (stage_size ts) dim * size_get (partition_size ts) dim * size_get (tile_size ts) dim
    ≤ 16581375.
Proof.
  intros (Ht & Hp & Hs). specialize (Ht dim). specialize (Hp dim). specialize (Hs dim).
  unfold u8_max in *. set (a := size_get (tile_size ts) dim) in *.
  set (b := size_get (partition_size ts) dim) in *. set (c := size_get (stage_size ts) dim) in *.
  assert (c * b ≤ 255 * 255) by (apply N.mul_le_mono; done).
  split_and!; [lia|apply (N.mul_le_mono b 255 a 255); done|].
  apply (N.mul_le_mono (c * b) 65025 a 255); [lia|done].
Qed.

(** Evaluate a count down to its checked multiplications. *)
Ltac eval_count :=
  cbv -[N.mul N.le u32_max checked_mul size_get stage_size partition_size tile_size
        gps_m gps_n global_partition_size];
  repeat (rewrite checked_mul_ok by (unfold u32_max in *; lia); cbv beta iota).

(** The products up to the stage are exact. *)
Lemma try_count_inner ts child parent dim :
  scheme_wf ts → parent ≠ GlobalPartition →
  try_count_1d ts child parent dim = Ret (count_spec ts child parent dim).
Proof.
  intros Hwf Hparent. destruct (inner_bounds ts dim Hwf) as (B1 & B2 & B3).
  destruct parent; [done| | | |]; destruct child; try reflexivity; eval_count; do 2 f_equal; lia.
Qed.

Lemma try_count_global ts child dim :
  scheme_wf ts → partition_fits ts dim →
  try_count_1d ts child GlobalPartition dim = Ret (count_spec ts child GlobalPartition dim).
Proof.
  intros Hwf Hfit. destruct (inner_bounds ts dim Hwf) as (B1 & B2 & B3).
  specialize (Hfit child). revert Hfit.
  destruct child; try reflexivity; destruct dim; intros Hfit;
    try (eval_count; reflexivity);
    specialize (Hfit _ eq_refl); revert Hfit; eval_count; intros Hfit; eval_count; do 2 f_equal; lia.
Qed.

(** The counts of the tiling scheme are the products of the sizes of the
    levels in between: for every pair of levels the recursive decomposition of
    the code returns exactly what descending one level at a time gives, without
    overflow, and [None] exactly when the parent is inside the child or the
    reduction dimension would have to cross the global partition. *)
Theorem tiling_counts_exact ts child parent dim :
  scheme_wf ts → partition_fits ts dim →
  try_count_1d ts child parent dim = Ret (count_spec ts child parent dim) ∧
  (count_spec ts child parent dim = None ↔
    (depth child < depth parent)%nat ∨
    parent = GlobalPartition ∧ child ≠ GlobalPartition ∧ dim = DimK).
Proof.
  intros Hwf Hfit. split.
  - destruct (decide (parent = GlobalPartition)) as [->|]; [by apply try_count_global|].
    by apply try_count_inner.
  - clear Hwf Hfit. destruct child, parent, dim; cbn; split; intros; naive_solver lia.
Qed.

(** The scheme of a 16x16x16 tile, 4x2x1 tiles per partition, 2x4x1
    partitions per stage and 2x1 stages per global partition. *)
Definition demo_scheme : TilingScheme :=
  {| tile_size := {| size_m := 16; size_n := 16; size_k := 16 |};
     partition_size := {| size_m := 4; size_n := 2; size_k := 1 |};
     stage_size := {| size_m := 2; size_n := 4; size_k := 1 |};
     global_partition_size := GlobalPartitionSize_new 2 1 1 |}.

Lemma demo_scheme_wf : scheme_wf demo_scheme.
Proof. split_and!; intros []; vm_compute; discriminate. Qed.

Lemma demo_scheme_fits dim : partition_fits demo_scheme dim.
Proof.
  intros child c Hc. destruct child, dim; vm_compute in Hc; try discriminate Hc;
    injection Hc as <-; by apply N.leb_le.
Qed.

Lemma tiling_counts_exact_witness :
  try_count_1d demo_scheme Element GlobalPartition DimM = Ret (Some 256).
Proof.
  apply (tiling_counts_exact demo_scheme Element GlobalPartition DimM);
    [apply demo_scheme_wf|apply demo_scheme_fits].
Defined.
