(* ===== verification/GlobalOrder.v ===== *)
(** * Traversal order of the cubes

    Model of [crates/cubecl-matmul/src/components/batch/partitioned_matmul/
    hypercube/global_order.rs].  [swizzle] runs on the device, so its [u32]
    arithmetic wraps around; a division by zero there is not defined (the
    quotient of the model is then zero), and every theorem assumes positive
    divisors. *)

From S2P Require Import Prelude DeviceNum.

Open Scope N_scope.
Open Scope rust_scope.

Record CubeSpan := { span_m : N; span_n : N; span_batch : N }.

Inductive GlobalOrder :=
| RowMajor
| ColMajor
| SwizzleRowMajor (w : N)
| SwizzleColMajor (w : N).

Definition canonicalize (o : GlobalOrder) : GlobalOrder :=
  match o with
  | SwizzleColMajor 1 => ColMajor
  | SwizzleRowMajor 1 => RowMajor
  | _ => o
  end.

Inductive GlobalOrderSelection :=
| OrderDefault
| OrderFixed (o : GlobalOrder)
| SwizzleRow (m w : N)
| SwizzleCol (n w : N).

(** Both swizzled selections produce a row-major order. *)
Definition into_order (sel : GlobalOrderSelection) (span : CubeSpan) : outcome GlobalOrder :=
  let? order :=
    match sel with
    | OrderDefault => Ret RowMajor
    | OrderFixed order => Ret order
    | SwizzleRow m w =>
        let? m_cubes := div_ceil m (span_m span) in
        let? r := checked_rem m_cubes w in
        if negb (r =? 0) then Ret RowMajor else Ret (SwizzleRowMajor w)
    | SwizzleCol n w =>
        let? n_cubes := div_ceil n (span_n span) in
        let? r := checked_rem n_cubes w in
        if negb (r =? 0) then Ret RowMajor else Ret (SwizzleRowMajor w)
    end in
  Ret (canonicalize order).

(** [swizzle]; [step_length] is known when the kernel is compiled, the
    assertion and the choice of the branch happen then. *)
Definition swizzle (index num_steps step_length : N) : outcome (N * N) :=
  let? _ := assert_ (0 <? step_length) "assertion failed: step_length > 0" in
  let num_elements_per_strip := wmul num_steps step_length in
  let strip_index := index / num_elements_per_strip in
  let pos_in_strip := index mod num_elements_per_strip in
  let strip_offset := wmul step_length strip_index in
  let abs_step_index := pos_in_strip / step_length in
  let abs_pos_in_step := pos_in_strip mod step_length in
  let strip_direction := strip_index mod 2 in
  let step_direction := abs_step_index mod 2 in
  let step_index :=
    wadd (wmul strip_direction (wsub (wsub num_steps abs_step_index) 1))
         (wmul (wsub 1 strip_direction) abs_step_index) in
  let pos_in_step :=
    if N.land step_length (step_length - 1) =? 0 then
      N.lxor abs_pos_in_step (wmul step_direction (step_length - 1))
    else
      wadd (wmul step_direction (wsub (wsub step_length abs_pos_in_step) 1))
           (wmul (wsub 1 step_direction) abs_pos_in_step) in
  Ret (step_index, wadd pos_in_step strip_offset).

(** ** The zigzag as a bijection *)

(** Position [v] among [n], counted from the end on odd lines. *)
Definition zig (line n v : N) : N := if N.odd line then n - 1 - v else v.

Lemma zig_lt line n v : v < n → zig line n v < n.
Proof. unfold zig. destruct (N.odd line); lia. Qed.

Lemma zig_involutive line n v : v < n → zig line n (zig line n v) = v.
Proof. unfold zig. destruct (N.odd line); lia. Qed.

(** The blend of both directions that the device computes. *)
Lemma blend_zig line n v :
  v < n → n < two32 →
  wadd (wmul (line mod 2) (wsub (wsub n v) 1)) (wmul (wsub 1 (line mod 2)) v) = zig line n v.
Proof.
  intros Hv Hn. unfold zig. rewrite (wsub_small n v) by lia. rewrite (wsub_small (n - v) 1) by lia.
  rewrite <- N.bit0_mod, N.bit0_odd. destruct (N.odd line); simpl N.b2n.
  - rewrite (wsub_small 1 1), N.sub_diag by done.
    rewrite (wmul_small 1), (wmul_small 0), wadd_small by lia. lia.
  - rewrite (wsub_small 1 0), N.sub_0_r by done.
    rewrite (wmul_small 0), (wmul_small 1), wadd_small by lia. lia.
Qed.

Lemma land_pred_pow2 w : 0 < w → N.land w (w - 1) = 0 → w = 2 ^ N.log2 w.
Proof.
  intros Hw H0. destruct (N.log2_spec w Hw) as [Hlo Hhi].
  destruct (N.eq_dec w (2 ^ N.log2 w)) as [|Hne]; [done|]. exfalso.
  assert (N.log2 (w - 1) = N.log2 w) as Hlog by (apply N.log2_unique; lia).
  assert (N.testbit (N.land w (w - 1)) (N.log2 w) = true) as Hbit.
  { rewrite N.land_spec, N.bit_log2 by lia. rewrite <- Hlog, N.bit_log2; [done|].
    assert (0 < 2 ^ N.log2 w) by (apply N.neq_0_lt_0, N.pow_nonzero; lia). lia. }
  by rewrite H0, N.bits_0 in Hbit.
Qed.

(** For a power of two the exclusive or reverses the direction. *)
Lemma xor_zig line w v :
  v < w → w < two32 → N.land w (w - 1) = 0 →
  N.lxor v (wmul (line mod 2) (w - 1)) = zig line w v.
Proof.
  intros Hv Hw H0. pose proof (land_pred_pow2 w ltac:(lia) H0) as Hpow.
  unfold zig. rewrite <- N.bit0_mod, N.bit0_odd. destruct (N.odd line); simpl N.b2n.
  - rewrite wmul_small, N.mul_1_l by lia.
    assert (w - 1 = N.ones (N.log2 w)) as Hones by (rewrite N.ones_equiv, <- Hpow; lia).
    rewrite Hones. change (N.lxor v (N.ones (N.log2 w))) with (N.lnot v (N.log2 w)).
    destruct (N.eq_dec v 0) as [->|Hv0]; [rewrite N.lnot_0_l; lia|].
    apply N.lnot_sub_low, N.log2_lt_pow2; lia.
  - rewrite wmul_small by lia. by rewrite N.mul_0_l, N.lxor_0_r.
Qed.

(** What [swizzle] computes, with its strip, step and position. *)
Definition swizzle_spec (index s w : N) : N * N :=
  let strip := index / (s * w) in
  let a := index mod (s * w) / w in
  let b := index mod (s * w) mod w in
  (zig strip s a, zig a w b + w * strip).

Definition unswizzle (s w : N) (xy : N * N) : N :=
  let '(x, y) := xy in
  let strip := y / w in
  let a := zig strip s x in
  let b := zig a w (y mod w) in
  strip * (s * w) + (a * w + b).

(** The coordinates of an index: [index = strip * (s*w) + (a*w + b)]. *)
Lemma strip_coords s w strip a b :
  a < s → b < w →
  (strip * (s * w) + (a * w + b)) / (s * w) = strip ∧
  (strip * (s * w) + (a * w + b)) mod (s * w) / w = a ∧
  (strip * (s * w) + (a * w + b)) mod (s * w) mod w = b.
Proof.
  intros Ha Hb. assert (a * w + b < s * w) as Hlt.
  { assert ((a + 1) * w ≤ s * w) by (apply N.mul_le_mono_r; lia). lia. }
  assert (s * w ≠ 0) by lia. assert (w ≠ 0) by lia.
  rewrite N.add_comm, N.div_add, N.Div0.mod_add, N.div_small, (N.mod_small (a * w + b)) by done.
  rewrite (N.add_comm (a * w)), N.div_add, N.Div0.mod_add, N.div_small, N.mod_small by done.
  split_and!; lia.
Qed.

Lemma index_coords s w index :
  0 < s → 0 < w → ∃ strip a b, index = strip * (s * w) + (a * w + b) ∧ a < s ∧ b < w.
Proof.
  intros Hs Hw. destruct (div_mod_ex index (s * w)) as (q & r & _ & _ & Hi & Hr); [lia|].
  destruct (div_mod_ex r w Hw) as (a & b & _ & _ & Hr' & Hb).
  exists q, a, b. split_and!; [lia| |done].
  apply (N.mul_lt_mono_pos_r w); [done|]. lia.
Qed.

Lemma row_coords w strip c : c < w → (c + w * strip) / w = strip ∧ (c + w * strip) mod w = c.
Proof.
  intros Hc. rewrite (N.mul_comm w), N.div_add, N.Div0.mod_add, N.div_small, N.mod_small by lia.
  split; lia.
Qed.

Lemma swizzle_ok index s w :
  0 < s → 0 < w → s * w < two32 → index < two32 → w * (index / (s * w)) + w ≤ two32 →
  swizzle index s w = Ret (swizzle_spec index s w).
Proof.
  intros Hs Hw Hsw Hi Hrow. unfold swizzle, swizzle_spec.
  rewrite (proj2 (N.ltb_lt _ _)) by done. cbn [assert_ obind].
  rewrite (wmul_small s w) by done.
  destruct (index_coords s w index Hs Hw) as (strip & a & b & -> & Ha & Hb).
  destruct (strip_coords s w strip a b Ha Hb) as (E1 & E2 & E3). rewrite E1, E2, E3 in *.
  assert (s < two32) by nia. assert (w < two32) by nia.
  rewrite (wmul_small w strip) by lia. rewrite (blend_zig strip s a) by done.
  assert (zig a w b + w * strip < two32) as Hy by (pose proof (zig_lt a w b Hb); lia).
  destruct (N.eqb_spec (N.land w (w - 1)) 0) as [Hz|Hz].
  - by rewrite (xor_zig a w b), wadd_small by done.
  - by rewrite (blend_zig a w b), wadd_small by done.
Qed.

Lemma swizzle_spec_unswizzle s w x y :
  0 < w → x < s → swizzle_spec (unswizzle s w (x, y)) s w = (x, y).
Proof.
  intros Hw Hx. unfold unswizzle, swizzle_spec.
  destruct (div_mod_ex y w Hw) as (q & c & -> & -> & Hy & Hc).
  pose proof (zig_lt q s x Hx) as Ha. set (a := zig q s x) in *.
  pose proof (zig_lt a w c Hc) as Hb. set (b := zig a w c) in *.
  destruct (strip_coords s w q a b Ha Hb) as (-> & -> & ->).
  unfold a, b. rewrite zig_involutive by done. rewrite zig_involutive by done. f_equal. lia.
Qed.

Lemma unswizzle_swizzle_spec s w index :
  0 < s → 0 < w → unswizzle s w (swizzle_spec index s w) = index.
Proof.
  intros Hs Hw. destruct (index_coords s w index Hs Hw) as (q & a & b & -> & Ha & Hb).
  unfold swizzle_spec, unswizzle. destruct (strip_coords s w q a b Ha Hb) as (-> & -> & ->).
  destruct (row_coords w q (zig a w b)) as [-> ->]; [by apply zig_lt|].
  rewrite zig_involutive by done. by rewrite zig_involutive.
Qed.

(** The indices of a matrix of [s] by [r] positions, where the step length
    divides [r], stay inside the matrix. *)
Lemma swizzle_spec_bounds s w r index :
  0 < s → 0 < w → (w | r) → index < s * r →
  (swizzle_spec index s w).1 < s ∧ (swizzle_spec index s w).2 < r.
Proof.
  intros Hs Hw [k ->] Hi. destruct (index_coords s w index Hs Hw) as (q & a & b & -> & Ha & Hb).
  unfold swizzle_spec. destruct (strip_coords s w q a b Ha Hb) as (-> & -> & ->). simpl.
  split; [by apply zig_lt|]. pose proof (zig_lt a w b Hb).
  assert (q < k) as Hq by (apply (N.mul_lt_mono_pos_r (s * w)); lia).
  assert ((q + 1) * w ≤ k * w) by (apply N.mul_le_mono_r; lia). lia.
Qed.

Lemma unswizzle_bound s w r x y :
  0 < w → (w | r) → x < s → y < r → unswizzle s w (x, y) < s * r.
Proof.
  intros Hw [k ->] Hx Hy. unfold unswizzle.
  destruct (div_mod_ex y w Hw) as (q & c & -> & -> & Heq & Hc).
  pose proof (zig_lt q s x Hx) as Ha. set (a := zig q s x) in *.
  pose proof (zig_lt a w c Hc) as Hb. set (b := zig a w c) in *.
  assert (q < k) as Hq by (apply (N.mul_lt_mono_pos_r w); lia).
  assert ((a + 1) * w ≤ s * w) by (apply N.mul_le_mono_r; lia).
  assert ((q + 1) * (s * w) ≤ k * (s * w)) by (apply N.mul_le_mono_r; lia). lia.
Qed.
