(* ===== verification/SmAllocation.v ===== *)
(** * Assignment of cubes to streaming multiprocessors

    Model of [crates/cubecl-matmul/src/components/batch/partitioned_matmul/
    hypercube/sm_allocation.rs]. *)

From S2P Require Import Prelude DeviceNum.
From stdpp Require Import sorting.

Open Scope N_scope.
Open Scope rust_scope.

Inductive SmAllocation :=
| Exact
| Full
| Ratio (max_extra_numerator max_extra_denominator : N).

(** The [while i * i <= n] loop of [divisors_desc]; [divs] grows at the end. *)
Fixpoint divisors_loop (fuel : nat) (n i : N) (divs : list N) : outcome (list N) :=
  match fuel with
  | O => OutOfFuel
  | S fuel =>
      let? sq := checked_mul u32_max i i in
      if sq <=? n then
        let? r := checked_rem n i in
        let? divs :=
          (if r =? 0 then
             let? q := checked_div n i in
             Ret (if negb (i =? q) then (divs ++ [i]) ++ [q] else divs ++ [i])
           else Ret divs) in
        let? i := checked_add u32_max i 1 in
        divisors_loop fuel n i divs
      else Ret divs
  end.

(** [divs.sort_by(|a, b| b.cmp(a))]. *)
Definition ge_rel (a b : N) : Prop := b ≤ a.
#[export] Instance ge_rel_dec : RelDecision ge_rel.
Proof. unfold ge_rel. intros a b. apply _. Defined.
#[export] Instance ge_rel_trans : Transitive ge_rel.
Proof. unfold ge_rel. intros a b c. lia. Qed.
#[export] Instance ge_rel_total : Total ge_rel.
Proof. unfold ge_rel. intros a b. lia. Qed.

Definition divisors_desc (n : N) : outcome (list N) :=
  let? divs := divisors_loop (N.to_nat (N.sqrt n) + 2) n 1 [] in
  Ret (merge_sort ge_rel divs).

(** The [for] loop: the first divisor whose slack is small enough. *)
Fixpoint best_divisor (divs : list N) (total_cubes max_slack : N) (best : N * N) :
    outcome (N * N) :=
  match divs with
  | [] => Ret best
  | sms_used :: divs =>
      let? cubes_per_sm := div_ceil total_cubes sms_used in
      let? total_allocated := checked_mul u32_max cubes_per_sm sms_used in
      let slack := saturating_sub total_allocated total_cubes in
      if slack <=? max_slack then Ret (sms_used, cubes_per_sm)
      else best_divisor divs total_cubes max_slack best
  end.

Definition allocate_ratio (num max_extra_denominator num_sms total_cubes : N) : outcome (N * N) :=
  let? max_slack := div_ceil (saturating_mul u32_max num_sms num) max_extra_denominator in
  let? fallback_cubes_per_sm := div_ceil total_cubes num_sms in
  let? divs := divisors_desc num_sms in
  best_divisor divs total_cubes max_slack (num_sms, fallback_cubes_per_sm).

Definition allocate (self : SmAllocation) (num_sms total_cubes : N) : outcome (N * N) :=
  match self with
  | Exact => allocate_ratio 0 1 num_sms total_cubes
  | Full => allocate_ratio u32_max 1 num_sms total_cubes
  | Ratio num den => allocate_ratio num den num_sms total_cubes
  end.

(** ** The divisors *)

(** From [65535 * 65535] on the loop reaches [i = 65536], and [i * i]
    overflows. *)
Definition max_divisible : N := 4294836224.

(** Invariant of the loop: the list holds the divisors below [i] and their
    codivisors. *)
Definition divisors_upto (n i : N) (divs : list N) : Prop :=
  ∀ d, d ∈ divs ↔ 0 < d ∧ (d | n) ∧ (d < i ∨ n / d < i).

Lemma codivisor n d : 0 < n → (d | n) → 0 < d ∧ n = n / d * d ∧ (n / d | n) ∧ 0 < n / d.
Proof.
  intros Hn [q Hq]. assert (0 < d) by nia. rewrite Hq, N.div_mul by lia.
  split_and!; [done|done|exists d; lia|nia].
Qed.

Lemma codivisor_eq n d i :
  0 < n → 0 < i → (d | n) → (i | n) → n / d = i → d = n / i.
Proof.
  intros Hn Hi Hd Hin Heq. destruct (codivisor n d Hn Hd) as (Hd0 & Hnd & _).
  apply (N.div_unique_exact n i d); [lia|]. lia.
Qed.

Lemma divisors_upto_step n i divs :
  0 < n → 0 < i → divisors_upto n i divs →
  divisors_upto n (i + 1)
    (if n mod i =? 0 then if negb (i =? n / i) then (divs ++ [i]) ++ [n / i] else divs ++ [i]
     else divs).
Proof.
  intros Hn Hi Hinv d. specialize (Hinv d).
  destruct (N.eqb_spec (n mod i) 0) as [H0|H0].
  - apply mod_0_divide in H0; [|done]. destruct (codivisor n i Hn H0) as (_ & Hni & Hcd & Hq).
    assert (d ∈ (if negb (i =? n / i) then (divs ++ [i]) ++ [n / i] else divs ++ [i]) ↔
      d ∈ divs ∨ d = i ∨ d = n / i) as ->.
    { destruct (N.eqb_spec i (n / i)) as [He|He]; simpl; set_solver. }
    rewrite Hinv. split.
    + intros [(? & ? & ?)|[->| ->]]; split_and!; try done; try lia.
      right. rewrite <- (N.div_unique_exact n (n / i) i) by lia. lia.
    + intros (Hd0 & Hd & Hlt). destruct (N.eq_dec d i) as [|Hne]; [by right; left|].
      destruct (N.eq_dec (n / d) i) as [He|Hne']; [|left; split_and!; try done; lia].
      right. right. by apply codivisor_eq.
  - rewrite Hinv. split; intros (Hd0 & Hd & Hlt); split_and!; try done; [lia|].
    destruct (N.eq_dec d i) as [->|Hne]; [by apply mod_0_divide in Hd|].
    destruct (N.eq_dec (n / d) i) as [He|Hne']; [|lia].
    destruct (codivisor n d Hn Hd) as (_ & _ & Hq & _). rewrite He in Hq. by apply mod_0_divide in Hq.
Qed.

Lemma divisors_loop_ok fuel n i divs :
  0 < n → n ≤ max_divisible → 0 < i → i ≤ N.sqrt n + 1 →
  (N.to_nat (N.sqrt n + 2 - i) ≤ fuel)%nat → divisors_upto n i divs →
  returns (divisors_loop fuel n i divs) (λ l, ∀ d, d ∈ l ↔ 0 < d ∧ (d | n)).
Proof.
  revert i divs. induction fuel as [|fuel IH]; intros i divs Hn Hmax Hi Hsq Hfuel Hinv; [lia|].
  assert (N.sqrt n ≤ 65534) as Hs by (apply (N.sqrt_le_mono n max_divisible) in Hmax; done).
  destruct (N.sqrt_spec n ltac:(lia)) as [Hlo Hhi].
  cbn [divisors_loop]. rewrite checked_mul_ok by (unfold u32_max; nia). cbn [obind].
  destruct (N.leb_spec (i * i) n) as [Hle|Hgt].
  - assert (i ≤ N.sqrt n) by (apply N.sqrt_le_square; lia).
    rewrite checked_rem_ok, checked_div_ok by lia. cbn [obind].
    pose proof (divisors_upto_step n i divs Hn Hi Hinv) as Hstep.
    destruct (n mod i =? 0); cbn [obind]; rewrite checked_add_ok by (unfold u32_max; lia);
      cbn [obind]; apply IH; try done; lia.
  - cbn [returns]. intros d. rewrite (Hinv d). split; [naive_solver|]. intros (Hd0 & Hd).
    split_and!; try done. destruct (codivisor n d Hn Hd) as (_ & Hnd & _ & _).
    destruct (N.lt_ge_cases d i); [by left|]. destruct (N.lt_ge_cases (n / d) i); [by right|].
    assert (i * i ≤ n / d * d) by (by apply N.mul_le_mono). lia.
Qed.

Lemma divisors_desc_ok n :
  0 < n → n ≤ max_divisible →
  returns (divisors_desc n)
    (λ l, (∀ d, d ∈ l ↔ 0 < d ∧ (d | n)) ∧ StronglySorted ge_rel l).
Proof.
  intros Hn Hmax. unfold divisors_desc. apply returns_bind.
  eapply returns_mono; [apply divisors_loop_ok; try done; [lia|lia|]|].
  { intros d. split; [by intros ?%elem_of_nil|]. intros (Hd0 & Hd & Hlt).
    destruct (codivisor n d Hn Hd) as (_ & _ & _ & ?). lia. }
  intros l Hl. cbn [returns]. split.
  - intros d. etrans; [|apply Hl]. by rewrite (merge_sort_Permutation ge_rel l).
  - apply (StronglySorted_merge_sort ge_rel).
Qed.

(** ** The chosen divisor *)

Definition slack (total sms : N) : N := ceil_div total sms * sms - total.

Lemma slack_lt total sms : 0 < sms → slack total sms < sms.
Proof. intros Hs. unfold slack. destruct (ceil_div_spec total sms Hs). lia. Qed.

(** The allocation that the documentation promises: the largest divisor of
    the number of multiprocessors whose overallocation is acceptable. *)
Definition good_allocation (num_sms total max_slack s c : N) : Prop :=
  0 < s ∧ (s | num_sms) ∧ c = ceil_div total s ∧ slack total s ≤ max_slack ∧
  ∀ d, (d | num_sms) → s < d → max_slack < slack total d.

Lemma best_divisor_ok divs num_sms total max_slack best :
  0 < num_sms → total + num_sms ≤ u32_max → StronglySorted ge_rel divs →
  (∀ d, d ∈ divs → 0 < d ∧ (d | num_sms)) →
  (∀ d, 0 < d → (d | num_sms) → d ∉ divs → max_slack < slack total d) →
  returns (best_divisor divs total max_slack best)
    (λ '(s, c), good_allocation num_sms total max_slack s c).
Proof.
  intros Hn Hmax Hsort Hin Hout. induction divs as [|s divs IH].
  { exfalso. specialize (Hout 1 ltac:(lia) (N.divide_1_l _) (not_elem_of_nil _)).
    pose proof (slack_lt total 1). lia. }
  inversion Hsort as [|? ? Hsort' Hall]; subst.
  destruct (Hin s) as [Hs Hdiv]; [left|]. assert (s ≤ num_sms) by (apply N.divide_pos_le; done).
  destruct (ceil_div_spec total s Hs) as [C1 C2].
  cbn [best_divisor]. rewrite div_ceil_ok by done. cbn [obind].
  rewrite checked_mul_ok by lia. cbn [obind]. unfold saturating_sub.
  fold (slack total s). destruct (N.leb_spec (slack total s) max_slack) as [Hle|Hgt].
  - cbn [returns]. split_and!; try done. intros d Hd Hlt. apply Hout; [lia|done|].
    intros [->|Hd']%elem_of_cons; [lia|].
    eapply Forall_forall in Hall; [|done]. unfold ge_rel in Hall. lia.
  - apply IH; [done|set_solver|]. intros d Hd0 Hd Hnot.
    destruct (N.eq_dec d s) as [->|]; [done|]. apply Hout; set_solver.
Qed.

Lemma allocate_ratio_ok num den num_sms total :
  0 < den → 0 < num_sms → num_sms ≤ max_divisible → total + num_sms ≤ u32_max →
  returns (allocate_ratio num den num_sms total)
    (λ '(s, c), good_allocation num_sms total
       (ceil_div (saturating_mul u32_max num_sms num) den) s c).
Proof.
  intros Hden Hn Hmax Htot. unfold allocate_ratio. rewrite !div_ceil_ok by done. cbn [obind].
  apply returns_bind. eapply returns_mono; [by apply divisors_desc_ok|].
  intros l [Hl Hsort]. apply best_divisor_ok; try done.
  - intros d. apply Hl.
  - intros d Hd0 Hd Hnot. exfalso. apply Hnot, Hl. done.
Qed.

(** No slack means that the divisor divides the number of cubes as well. *)
Lemma slack_0_divide total s : 0 < s → slack total s = 0 ↔ (s | total).
Proof.
  intros Hs. destruct (ceil_div_spec total s Hs) as [C1 C2]. unfold slack. split.
  - intros H0. exists (ceil_div total s). lia.
  - intros Hd. assert (total = ceil_div total s * s); [|lia].
    apply (multiple_unique total s); [done|done|by eexists|lia|lia].
Qed.

Lemma good_allocation_exact num_sms total s c :
  0 < num_sms → good_allocation num_sms total 0 s c →
  s = N.gcd num_sms total ∧ s * c = total.
Proof.
  intros Hn (Hs & Hd & -> & Hslack & Hbest).
  assert ((s | total)) as Hst by (apply slack_0_divide; [done|lia]).
  assert (s = N.gcd num_sms total) as Hg.
  { pose proof (N.gcd_greatest _ _ _ Hd Hst) as Hsg.
    assert (N.gcd num_sms total ≠ 0) as Hg0 by (intros ?%N.gcd_eq_0; lia).
    apply N.divide_pos_le in Hsg; [|lia]. destruct (N.lt_ge_cases s (N.gcd num_sms total)) as [Hlt|]; [|lia].
    specialize (Hbest _ (N.gcd_divide_l num_sms total) Hlt).
    assert (slack total (N.gcd num_sms total) = 0); [|lia].
    apply slack_0_divide; [lia|]. apply N.gcd_divide_r. }
  split; [done|]. destruct (ceil_div_spec total s Hs). unfold slack in Hslack. lia.
Qed.

Lemma good_allocation_full num_sms total max_slack s c :
  0 < num_sms → num_sms ≤ max_slack + 1 → good_allocation num_sms total max_slack s c →
  s = num_sms ∧ c = ceil_div total num_sms.
Proof.
  intros Hn Hm (Hs & Hd & -> & _ & Hbest).
  assert (s ≤ num_sms) by (by apply N.divide_pos_le).
  destruct (N.lt_ge_cases s num_sms) as [Hlt|]; [|by replace num_sms with s by lia].
  specialize (Hbest num_sms (N.divide_refl _) Hlt). pose proof (slack_lt total num_sms Hn). lia.
Qed.

(** Allocation of cubes to multiprocessors: the call returns the largest
    divisor of the number of multiprocessors whose overallocation stays within
    the allowed slack, with just enough cubes on each of them; [Exact] is the
    greatest common divisor without any extra cube, [Full] uses every
    multiprocessor. *)
Theorem sm_allocate_best self num_sms total :
  0 < num_sms → num_sms ≤ max_divisible → total + num_sms ≤ u32_max →
  match self with Ratio _ den => 0 < den | _ => True end →
  ∃ s c, allocate self num_sms total = Ret (s, c) ∧ total ≤ s * c ∧ s ≤ num_sms ∧
    match self with
    | Exact => s = N.gcd num_sms total ∧ s * c = total
    | Full => s = num_sms ∧ c = ceil_div total num_sms
    | Ratio num den =>
        good_allocation num_sms total (ceil_div (saturating_mul u32_max num_sms num) den) s c
    end.
Proof.
  intros Hn Hmax Htot Hden.
  assert (∀ num den, 0 < den → ∃ s c, allocate_ratio num den num_sms total = Ret (s, c) ∧
    total ≤ s * c ∧ s ≤ num_sms ∧
    good_allocation num_sms total (ceil_div (saturating_mul u32_max num_sms num) den) s c) as Hall.
  { intros num den Hd. pose proof (allocate_ratio_ok num den num_sms total Hd Hn Hmax Htot) as H.
    apply returns_run in H as ([s c] & Heq & Hg). exists s, c. split; [done|].
    pose proof Hg as (Hs & Hdiv & -> & _). destruct (ceil_div_spec total s Hs).
    split_and!; [lia|by apply N.divide_pos_le|done]. }
  destruct self as [| |num den]; cbn [allocate].
  - destruct (Hall 0 1 ltac:(lia)) as (s & c & Heq & H1 & H2 & Hg). exists s, c.
    assert (ceil_div (saturating_mul u32_max num_sms 0) 1 = 0) as E
      by (unfold saturating_mul; by rewrite N.mul_0_r).
    rewrite E in Hg. split_and!; try done; by eapply good_allocation_exact.
  - destruct (Hall u32_max 1 ltac:(lia)) as (s & c & Heq & H1 & H2 & Hg). exists s, c.
    split; [done|]. split; [done|]. split; [done|].
    eapply good_allocation_full; [done| |done]. unfold saturating_mul, max_divisible in *.
    rewrite N.min_r by (unfold u32_max; nia). change (ceil_div u32_max 1) with u32_max.
    unfold u32_max. lia.
  - destruct (Hall num den Hden) as (s & c & Heq & ? & ? & ?). by exists s, c.
Qed.

Lemma sm_allocate_best_witness :
  ∃ s c, allocate (Ratio 1 4) 16 122 = Ret (s, c) ∧ 122 ≤ s * c ∧ s ≤ 16 ∧
    good_allocation 16 122 4 s c.
Proof. apply (sm_allocate_best (Ratio 1 4) 16 122); done. Defined.
