(* ===== verification/Hypercube.v ===== *)
(** * Launch plan of a partitioned matmul

    Model of [crates/cubecl-matmul/src/components/batch/partitioned_matmul]:
    [hypercube/base.rs] (selection and configuration of the launch),
    [hypercube/cube_count_plan.rs] (how many cubes are launched and which part
    of the output each of them computes), [matmul.rs], [partition/matmul.rs]
    (the blocks a cube visits) and the entry point [batch/entry_point.rs].

    Host arithmetic is overflow-checked, device arithmetic wraps. *)

From S2P Require Import Prelude DeviceNum Tiling GlobalOrder SmAllocation.

Open Scope N_scope.
Open Scope rust_scope.

(** [CubeCount]; the buffer of a dynamic count is not read here. *)
Inductive CubeCount :=
| CountStatic (x y z : N)
| CountDynamic.

Inductive CubeCountPlanSelection :=
| SelFromProblem
| SelSm (cubes_first : bool) (num_sms : N) (sm_usage : SmAllocation)
| SelFlattened
| SelSpread.

Inductive CubeCountPlan :=
| PlanFromProblem (m_cubes n_cubes batch_cubes : N)
| PlanSm (cubes_first : bool) (num_sms_used cubes_per_sm m_cubes n_cubes batch_cubes num_sms : N)
    (sm_usage : SmAllocation)
| PlanFlattened (m_cubes n_cubes batch_cubes : N)
| PlanSpread (m_cubes n_cubes batch_cubes x y z : N).

(** [a * b * c] on [u32]. *)
Definition mul3 (a b c : N) : outcome N :=
  let? ab := checked_mul u32_max a b in
  checked_mul u32_max ab c.

Definition CubeCountPlan_can_yield_extra_cubes (plan : CubeCountPlan) : outcome bool :=
  match plan with
  | PlanFromProblem _ _ _ | PlanFlattened _ _ _ => Ret false
  | PlanSm _ num_sms_used cubes_per_sm m_cubes n_cubes batch_cubes _ _ =>
      let? a := checked_mul u32_max num_sms_used cubes_per_sm in
      let? t := mul3 m_cubes n_cubes batch_cubes in
      Ret (negb (a =? t))
  | PlanSpread m_cubes n_cubes batch_cubes x y z =>
      let? t := mul3 m_cubes n_cubes batch_cubes in
      let? v := mul3 x y z in
      Ret (negb (t =? v))
  end.

Inductive CubeCountPlanConfig :=
| CfgFromProblem
| CfgSm (cubes_first : bool) (num_sms : N) (sm_usage : SmAllocation) (can_yield_extra_cubes : bool)
| CfgFlattened
| CfgSpread (can_yield_extra_cubes : bool).

Definition CubeCountPlanConfig_can_yield_extra_cubes (cfg : CubeCountPlanConfig) : bool :=
  match cfg with
  | CfgFromProblem | CfgFlattened => false
  | CfgSm _ _ _ can_yield_extra_cubes => can_yield_extra_cubes
  | CfgSpread can_yield_extra_cubes => can_yield_extra_cubes
  end.

Definition from_cube_count_plan (plan : CubeCountPlan) : outcome CubeCountPlanConfig :=
  match plan with
  | PlanFromProblem _ _ _ => Ret CfgFromProblem
  | PlanSm cubes_first _ _ _ _ _ num_sms sm_usage =>
      let? extra := CubeCountPlan_can_yield_extra_cubes plan in
      Ret (CfgSm cubes_first num_sms sm_usage extra)
  | PlanFlattened _ _ _ => Ret CfgFlattened
  | PlanSpread _ _ _ _ _ _ =>
      let? extra := CubeCountPlan_can_yield_extra_cubes plan in
      Ret (CfgSpread extra)
  end.

Record HypercubeSelection := {
  hs_cube_span : CubeSpan;
  hs_global_order : GlobalOrder;
  hs_plan_selection : CubeCountPlanSelection;
}.

Record HypercubeConfig := {
  hc_cube_span : CubeSpan;
  hc_global_order : GlobalOrder;
  hc_plan_config : CubeCountPlanConfig;
}.

(** ** The spread heuristic *)

(** The best candidate so far: x, y, z and its volume.  The score of the code
    is [(volume, Reverse(z), Reverse(y))], compared lexicographically. *)
Definition score_lt (a b : N * N * N * N) : bool :=
  let '(_, y1, z1, v1) := a in
  let '(_, y2, z2, v2) := b in
  (v1 <? v2) || ((v1 =? v2) && ((z2 <? z1) || ((z1 =? z2) && (y2 <? y1)))).

Definition better (cand : N * N * N * N) (best : option (N * N * N * N)) : option (N * N * N * N) :=
  match best with
  | None => Some cand
  | Some b => if score_lt cand b then Some cand else best
  end.

(** The body of the inner loop. *)
Definition try_candidate (xy_cubes max_x y z : N) (best : option (N * N * N * N)) :
    outcome (option (N * N * N * N)) :=
  let? x := div_ceil xy_cubes y in
  if x <=? max_x then
    let? volume := mul3 x y z in
    Ret (better (x, y, z, volume) best)
  else Ret best.

(** [while y >= 1 { ...; if y == 1 { break; } y /= 2; }] *)
Fixpoint spread_y_loop (fuel : nat) (xy_cubes max_x y z : N) (best : option (N * N * N * N)) :
    outcome (option (N * N * N * N)) :=
  match fuel with
  | O => OutOfFuel
  | S fuel =>
      if 1 <=? y then
        let? best := try_candidate xy_cubes max_x y z best in
        if y =? 1 then Ret best else spread_y_loop fuel xy_cubes max_x (y / 2) z best
      else Ret best
  end.

(** A [u32] is halved at most 32 times before it is zero. *)
Definition halving_fuel : nat := 33.

Fixpoint spread_z_loop (fuel : nat) (total_cubes max_x max_y z : N)
    (best : option (N * N * N * N)) : outcome (option (N * N * N * N)) :=
  match fuel with
  | O => OutOfFuel
  | S fuel =>
      if 1 <=? z then
        let? xy_cubes := div_ceil total_cubes z in
        let? best := spread_y_loop halving_fuel xy_cubes max_x max_y z best in
        if z =? 1 then Ret best else spread_z_loop fuel total_cubes max_x max_y (z / 2) best
      else Ret best
  end.

Definition spread_cube_count_plan (m_cubes n_cubes batch_cubes max_x max_y max_z : N) :
    outcome CubeCountPlan :=
  let? total_cubes := mul3 m_cubes n_cubes batch_cubes in
  let? best := spread_z_loop halving_fuel total_cubes max_x max_y max_z None in
  match best with
  | Some (x, y, z, _) => Ret (PlanSpread m_cubes n_cubes batch_cubes x y z)
  | None => Panic "No valid cube spread plan"
  end.

(** ** Plans *)

Definition static_count (c : CubeCount) : outcome (N * N * N) :=
  match c with
  | CountStatic x y z => Ret (x, y, z)
  | CountDynamic => Panic "Dynamic cube count not supported for cube count plan"
  end.

(** The number of cubes along m, n and the batches. *)
Definition cubes_of (span : CubeSpan) (problem : MatmulProblem) : outcome (N * N * N) :=
  let? m_cubes := div_ceil (as_u32 (prob_m problem)) (span_m span) in
  let? n_cubes := div_ceil (as_u32 (prob_n problem)) (span_n span) in
  let? nb := num_batches problem in
  let? batch_cubes := div_ceil (as_u32 nb) (span_batch span) in
  Ret (m_cubes, n_cubes, batch_cubes).

Definition from_selection (selection : HypercubeSelection) (problem : MatmulProblem)
    (max_cube_count : CubeCount) : outcome CubeCountPlan :=
  let? '(max_x, max_y, max_z) := static_count max_cube_count in
  let? '(m_cubes, n_cubes, batch_cubes) := cubes_of (hs_cube_span selection) problem in
  let? plan :=
    match hs_plan_selection selection with
    | SelFromProblem =>
        if (max_x <? m_cubes) || (max_y <? n_cubes) || (max_z <? batch_cubes) then Ret None
        else Ret (Some (PlanFromProblem m_cubes n_cubes batch_cubes))
    | SelSm cubes_first num_sms sm_usage =>
        let? total := mul3 m_cubes n_cubes batch_cubes in
        let? '(num_sms_used, cubes_per_sm) := allocate sm_usage num_sms total in
        if ((if cubes_first then max_x else max_y) <=? cubes_per_sm)
           || ((if cubes_first then max_y else max_x) <=? num_sms_used) then Ret None
        else Ret (Some (PlanSm cubes_first num_sms_used cubes_per_sm m_cubes n_cubes batch_cubes
                          num_sms sm_usage))
    | SelFlattened =>
        let? total := mul3 m_cubes n_cubes batch_cubes in
        if max_x <=? total then Ret None
        else Ret (Some (PlanFlattened m_cubes n_cubes batch_cubes))
    | SelSpread => Ret None
    end in
  match plan with
  | Some plan => Ret plan
  | None => spread_cube_count_plan m_cubes n_cubes batch_cubes max_x max_y max_z
  end.

Definition from_config (config : HypercubeConfig) (problem : MatmulProblem)
    (max_cube_count : CubeCount) : outcome CubeCountPlan :=
  let? '(max_x, max_y, max_z) := static_count max_cube_count in
  let? '(m_cubes, n_cubes, batch_cubes) := cubes_of (hc_cube_span config) problem in
  match hc_plan_config config with
  | CfgFromProblem => Ret (PlanFromProblem m_cubes n_cubes batch_cubes)
  | CfgSm cubes_first num_sms sm_usage _ =>
      let? total := mul3 m_cubes n_cubes batch_cubes in
      let? '(num_sms_used, cubes_per_sm) := allocate sm_usage num_sms total in
      Ret (PlanSm cubes_first num_sms_used cubes_per_sm m_cubes n_cubes batch_cubes num_sms sm_usage)
  | CfgFlattened => Ret (PlanFlattened m_cubes n_cubes batch_cubes)
  | CfgSpread _ => spread_cube_count_plan m_cubes n_cubes batch_cubes max_x max_y max_z
  end.

(** [HypercubeConfig::cube_count_plan]. *)
Definition cube_count_plan (config : HypercubeConfig) (problem : MatmulProblem)
    (max_cube_count : CubeCount) : outcome CubeCountPlan :=
  from_config config problem max_cube_count.

Definition resolve (plan : CubeCountPlan) : outcome CubeCount :=
  match plan with
  | PlanFromProblem m_cubes n_cubes batch_cubes => Ret (CountStatic m_cubes n_cubes batch_cubes)
  | PlanSm cubes_first num_sms_used cubes_per_sm _ _ _ _ _ =>
      Ret (if cubes_first then CountStatic cubes_per_sm num_sms_used 1
           else CountStatic num_sms_used cubes_per_sm 1)
  | PlanFlattened m_cubes n_cubes batch_cubes =>
      let? total := mul3 m_cubes n_cubes batch_cubes in
      Ret (CountStatic total 1 1)
  | PlanSpread _ _ _ x y z => Ret (CountStatic x y z)
  end.

(** ** Selection and configuration *)

Definition to_hypercube_config (selection : HypercubeSelection) (problem : MatmulProblem)
    (max_cube_count : CubeCount) : outcome HypercubeConfig :=
  let? plan := from_selection selection problem max_cube_count in
  let? cfg := from_cube_count_plan plan in
  Ret {| hc_cube_span := hs_cube_span selection;
         hc_global_order := hs_global_order selection;
         hc_plan_config := cfg |}.

Inductive MatmulSetupError := Unavailable (msg : string) | InvalidConfig (msg : string).

Definition HypercubeConfig_validate (config : HypercubeConfig) (problem : MatmulProblem) :
    outcome (unit + MatmulSetupError) :=
  let? m_cubes := div_ceil (as_u32 (prob_m problem)) (span_m (hc_cube_span config)) in
  let? n_cubes := div_ceil (as_u32 (prob_n problem)) (span_n (hc_cube_span config)) in
  match hc_global_order config with
  | RowMajor | ColMajor => Ret (inl tt)
  | SwizzleRowMajor w =>
      let? r := checked_rem m_cubes w in
      if negb (r =? 0) then
        Ret (inr (InvalidConfig "In swizzle row major, number of cubes in m must be divisible by swizzle step length."))
      else Ret (inl tt)
  | SwizzleColMajor w =>
      let? r := checked_rem n_cubes w in
      if negb (r =? 0) then
        Ret (inr (InvalidConfig "In swizzle col major, number of cubes in n must be divisible by swizzle step length."))
      else Ret (inl tt)
  end.

Record HypercubeSelectionBuilder := {
  hsb_tiling_scheme : TilingScheme;
  hsb_global_order : GlobalOrderSelection;
  hsb_plan : option CubeCountPlanSelection;
}.

Definition HypercubeSelection_builder (ts : TilingScheme) : HypercubeSelectionBuilder :=
  {| hsb_tiling_scheme := ts; hsb_global_order := OrderDefault; hsb_plan := None |}.
Definition builder_global_order (b : HypercubeSelectionBuilder) (o : GlobalOrderSelection) :
    HypercubeSelectionBuilder :=
  {| hsb_tiling_scheme := hsb_tiling_scheme b; hsb_global_order := o; hsb_plan := hsb_plan b |}.
Definition builder_cube_count_plan (b : HypercubeSelectionBuilder) (p : CubeCountPlanSelection) :
    HypercubeSelectionBuilder :=
  {| hsb_tiling_scheme := hsb_tiling_scheme b; hsb_global_order := hsb_global_order b;
     hsb_plan := Some p |}.

Definition HypercubeSelection_build (b : HypercubeSelectionBuilder) : outcome HypercubeSelection :=
  let? m := elements_in_global_partition_m (hsb_tiling_scheme b) in
  let? n := elements_in_global_partition_n (hsb_tiling_scheme b) in
  let cube_span := {| span_m := m; span_n := n;
                      span_batch := gps_batches (global_partition_size (hsb_tiling_scheme b)) |} in
  let? order := into_order (hsb_global_order b) cube_span in
  Ret {| hs_cube_span := cube_span; hs_global_order := order;
         hs_plan_selection := default SelFromProblem (hsb_plan b) |}.

(** ** On the device *)

Inductive CubeCountInput :=
| InFromProblem
| InSmFirst (m_cubes n_cubes batch_cubes : N)
| InCubeFirst (m_cubes n_cubes batch_cubes : N)
| InFlattened (m_cubes n_cubes : N)
| InSpread (m_cubes n_cubes batch_cubes : N).

Definition as_args (plan : CubeCountPlan) : CubeCountInput :=
  match plan with
  | PlanFromProblem _ _ _ => InFromProblem
  | PlanSm cubes_first _ _ m_cubes n_cubes batch_cubes _ _ =>
      if cubes_first then InCubeFirst m_cubes n_cubes batch_cubes
      else InSmFirst m_cubes n_cubes batch_cubes
  | PlanFlattened m_cubes n_cubes _ => InFlattened m_cubes n_cubes
  | PlanSpread m_cubes n_cubes batch_cubes _ _ _ => InSpread m_cubes n_cubes batch_cubes
  end.

Definition num_valid_cubes (input : CubeCountInput) : outcome N :=
  match input with
  | InFromProblem | InFlattened _ _ =>
      Panic "Shouldn't need to be called because the cube count should always be exact"
  | InSmFirst m_cubes n_cubes batch_cubes
  | InCubeFirst m_cubes n_cubes batch_cubes
  | InSpread m_cubes n_cubes batch_cubes => Ret (wmul (wmul m_cubes n_cubes) batch_cubes)
  end.

(** The coordinates of a cube and the launched grid. *)
Record Topology := {
  CUBE_POS_X : N; CUBE_POS_Y : N; CUBE_POS_Z : N;
  CUBE_COUNT_X : N; CUBE_COUNT_Y : N; CUBE_COUNT_Z : N;
}.
Definition CUBE_POS (t : Topology) : N :=
  wadd (wmul (wadd (wmul (CUBE_POS_Z t) (CUBE_COUNT_Y t)) (CUBE_POS_Y t)) (CUBE_COUNT_X t))
    (CUBE_POS_X t).

Definition absolute_index_to_m_n_batch (absolute_index m_cubes n_cubes : N)
    (global_order : GlobalOrder) : outcome (N * N * N) :=
  let batch_stride := wmul m_cubes n_cubes in
  let batch_pos := absolute_index / batch_stride in
  let matrix_pos := absolute_index mod batch_stride in
  let? '(m_pos, n_pos) :=
    match global_order with
    | RowMajor => Ret (matrix_pos / n_cubes, matrix_pos mod n_cubes)
    | ColMajor => Ret (matrix_pos mod m_cubes, matrix_pos / m_cubes)
    | SwizzleRowMajor w =>
        let? '(x, y) := swizzle matrix_pos n_cubes w in
        Ret (y, x)
    | SwizzleColMajor w => swizzle matrix_pos m_cubes w
    end in
  Ret (m_pos, n_pos, batch_pos).

Definition cube_pos_to_tensor_pos (input : CubeCountInput) (t : Topology)
    (global_order : GlobalOrder) : outcome (N * N * N) :=
  match input with
  | InFromProblem => Ret (CUBE_POS_X t, CUBE_POS_Y t, CUBE_POS_Z t)
  | InSmFirst m_cubes n_cubes _ =>
      absolute_index_to_m_n_batch (CUBE_POS t) m_cubes n_cubes global_order
  | InCubeFirst m_cubes n_cubes _ =>
      absolute_index_to_m_n_batch (wadd (wmul (CUBE_POS_Y t) (CUBE_COUNT_X t)) (CUBE_POS_X t))
        m_cubes n_cubes global_order
  | InFlattened m_cubes n_cubes =>
      absolute_index_to_m_n_batch (CUBE_POS_X t) m_cubes n_cubes global_order
  | InSpread m_cubes n_cubes _ =>
      absolute_index_to_m_n_batch (CUBE_POS t) m_cubes n_cubes global_order
  end.

(** ** The blocks a cube computes *)

Record PartitionRangeDim := { range_start : N; range_step : N; range_num_steps : N }.
Record PartitionRanges := {
  ranges_row : PartitionRangeDim;
  ranges_col : PartitionRangeDim;
  ranges_batch : PartitionRangeDim;
}.

Definition PartitionRangeDim_new (cube_pos stage_dim global_partition_dim : N) :
    outcome PartitionRangeDim :=
  let start := wmul cube_pos global_partition_dim in
  let? num_steps := div_ceil global_partition_dim stage_dim in
  Ret {| range_start := start; range_step := stage_dim; range_num_steps := num_steps |}.

(** [start + i * step] for [i in 0..num_steps]. *)
Definition range_offsets (r : PartitionRangeDim) : list N :=
  (λ i, wadd (range_start r) (wmul i (range_step r))) <$>
    (N.of_nat <$> seq 0 (N.to_nat (range_num_steps r))).

(** The global matmuls [(row_offset, col_offset, batch)] in the order in
    which the two implementations of [GlobalPartitionMatmul] execute them. *)
Definition RowMajorGlobalPartitionMatmul_execute (ranges : PartitionRanges) : list (N * N * N) :=
  batch_iter ← range_offsets (ranges_batch ranges);
  row_offset ← range_offsets (ranges_row ranges);
  col_offset ← range_offsets (ranges_col ranges);
  [(row_offset, col_offset, batch_iter)].
Definition ColMajorGlobalPartitionMatmul_execute (ranges : PartitionRanges) : list (N * N * N) :=
  batch_iter ← range_offsets (ranges_batch ranges);
  col_offset ← range_offsets (ranges_col ranges);
  row_offset ← range_offsets (ranges_row ranges);
  [(row_offset, col_offset, batch_iter)].

Inductive PartitionOrder := PartitionRowMajor | PartitionColMajor.
Definition partition_execute (o : PartitionOrder) : PartitionRanges → list (N * N * N) :=
  match o with
  | PartitionRowMajor => RowMajorGlobalPartitionMatmul_execute
  | PartitionColMajor => ColMajorGlobalPartitionMatmul_execute
  end.

(** [PartitionedBatchMatmul::execute] up to the global matmuls. *)
Definition PartitionedBatchMatmul_execute (o : PartitionOrder) (ts : TilingScheme)
    (config : HypercubeConfig) (input : CubeCountInput) (t : Topology) : outcome (list (N * N * N)) :=
  let? '(m_index, n_index, batch_index) :=
    cube_pos_to_tensor_pos input t (hc_global_order config) in
  let? stage_m := elements_in_stage_m ts in
  let? partition_m := elements_in_global_partition_m ts in
  let? row := PartitionRangeDim_new m_index stage_m partition_m in
  let? stage_n := elements_in_stage_n ts in
  let? partition_n := elements_in_global_partition_n ts in
  let? col := PartitionRangeDim_new n_index stage_n partition_n in
  let? batch := PartitionRangeDim_new batch_index 1 (gps_batches (global_partition_size ts)) in
  Ret (partition_execute o {| ranges_row := row; ranges_col := col; ranges_batch := batch |}).

(** The guard of the entry point: whether the cube terminates at once. *)
Definition surplus_cube (config : HypercubeConfig) (input : CubeCountInput) (t : Topology) :
    outcome bool :=
  if CubeCountPlanConfig_can_yield_extra_cubes (hc_plan_config config) then
    let? valid := num_valid_cubes input in
    Ret (valid <=? CUBE_POS t)
  else Ret false.

(** The entry point [matmul]: [None] for a cube that terminates at once. *)
Definition matmul (o : PartitionOrder) (ts : TilingScheme) (config : HypercubeConfig)
    (input : CubeCountInput) (t : Topology) : outcome (option (list (N * N * N))) :=
  let? stop := surplus_cube config input t in
  if stop then Ret None
  else
    let? blocks := PartitionedBatchMatmul_execute o ts config input t in
    Ret (Some blocks).
