(* ===== verification/HypercubeProps.v ===== *)
(** * The launched cubes cover the output exactly once

    Proofs about [Hypercube.v]: every plan of [spread_cube_count_plan] stays
    within the limits and is the best of its candidates, the configuration
    stored in the kernel reproduces the plan of the selection, and the cubes of
    the launched grid reach every tensor position exactly once. *)

From S2P Require Import Prelude DeviceNum Tiling GlobalOrder SmAllocation Hypercube.

Open Scope N_scope.
Open Scope rust_scope.

Lemma checked_mul_ret max a b r : checked_mul max a b = Ret r → r = a * b ∧ a * b ≤ max.
Proof. unfold checked_mul. destruct (N.leb_spec (a * b) max); naive_solver. Qed.

Lemma mul3_ret a b c r : mul3 a b c = Ret r → r = a * b * c ∧ a * b * c ≤ u32_max.
Proof.
  unfold mul3. intros (ab & [-> _]%checked_mul_ret & [-> ?]%checked_mul_ret)%obind_ret. done.
Qed.

Lemma mul3_ok a b c : 0 < c → a * b * c ≤ u32_max → mul3 a b c = Ret (a * b * c).
Proof.
  intros Hc H. unfold mul3. rewrite checked_mul_ok by nia. cbn [obind]. by apply checked_mul_ok.
Qed.

Lemma div_ceil_ret a b r : div_ceil a b = Ret r → 0 < b ∧ r = ceil_div a b.
Proof.
  destruct (N.eq_dec b 0) as [->|Hb]; [done|]. rewrite div_ceil_ok by lia. intros [= <-]. lia.
Qed.

(** ** Whatever is returned is a plan within the limits *)

Section Limits.
Context (total max_x max_y max_z : N).

Definition cand_ok (c : N * N * N * N) : Prop :=
  let '(x, y, z, v) := c in
  total ≤ x * y * z ∧ v = x * y * z ∧ v ≤ u32_max ∧ v < total + y * z ∧
  x ≤ max_x ∧ 1 ≤ y ≤ max_y ∧ 1 ≤ z ≤ max_z.
Definition best_ok (best : option (N * N * N * N)) : Prop := ∀ c, best = Some c → cand_ok c.

Lemma better_cases c b : better c b = Some c ∨ better c b = b.
Proof. destruct b as [b|]; simpl; [destruct (score_lt c b)|]; auto. Qed.

(** The rounding of the two divisions together is less than [y * z]. *)
Lemma spread_volume y z :
  0 < y → 0 < z →
  total ≤ ceil_div (ceil_div total z) y * y * z ∧
  ceil_div (ceil_div total z) y * y * z < total + y * z.
Proof using.
  intros Hy Hz. destruct (ceil_div_spec total z Hz) as [A1 A2].
  set (q := ceil_div total z) in *. destruct (ceil_div_spec q y Hy) as [B1 B2].
  set (x := ceil_div q y) in *. split; [nia|].
  assert (x * y + 1 ≤ q + y) as B3 by lia. assert ((x * y + 1) * z ≤ (q + y) * z) by (apply N.mul_le_mono_r; done).
  lia.
Qed.

Lemma try_candidate_ok y z best r :
  best_ok best → 1 ≤ y ≤ max_y → 1 ≤ z ≤ max_z →
  try_candidate (ceil_div total z) max_x y z best = Ret r → best_ok r.
Proof using.
  intros Hbest Hy Hz. unfold try_candidate. rewrite div_ceil_ok by lia. cbn [obind].
  destruct (N.leb_spec (ceil_div (ceil_div total z) y) max_x) as [Hx|Hx]; [|by intros [= <-]].
  intros (v & [-> Hv]%mul3_ret & [= <-])%obind_ret.
  destruct (spread_volume y z) as [V1 V2]; [lia|lia|].
  destruct (better_cases (ceil_div (ceil_div total z) y, y, z,
    ceil_div (ceil_div total z) y * y * z) best) as [-> | ->]; [|done].
  intros c [= <-]. simpl. split_and!; try done; lia.
Qed.

Lemma half_le y max : y ≤ max → y / 2 ≤ max.
Proof using. intros Hy. pose proof (N.Div0.div_le_mono y y 2). assert (y / 2 ≤ y) by (apply N.Div0.div_le_upper_bound; lia). lia. Qed.

Lemma spread_y_loop_limits fuel y z best r :
  best_ok best → y ≤ max_y → 1 ≤ z ≤ max_z →
  spread_y_loop fuel (ceil_div total z) max_x y z best = Ret r → best_ok r.
Proof using.
  revert y best. induction fuel as [|fuel IH]; intros y best Hbest Hy Hz; cbn [spread_y_loop]; [done|].
  destruct (N.leb_spec 1 y) as [Hy1|]; [|by intros [= <-]].
  intros (b' & Hb' & Hrest)%obind_ret. apply try_candidate_ok in Hb'; [|done|lia|done].
  destruct (y =? 1); [by injection Hrest as <-|].
  eapply IH; [done| |done|done]. by apply half_le.
Qed.

Lemma spread_z_loop_limits fuel z best r :
  best_ok best → z ≤ max_z →
  spread_z_loop fuel total max_x max_y z best = Ret r → best_ok r.
Proof using.
  revert z best. induction fuel as [|fuel IH]; intros z best Hbest Hz; cbn [spread_z_loop]; [done|].
  destruct (N.leb_spec 1 z) as [Hz1|]; [|by intros [= <-]].
  intros (q & [_ ->]%div_ceil_ret & (b' & Hb' & Hrest)%obind_ret)%obind_ret.
  apply spread_y_loop_limits in Hb'; [|done|done|lia].
  destruct (z =? 1); [by injection Hrest as <-|].
  eapply IH; [done| |done]. by apply half_le.
Qed.
End Limits.

Lemma spread_plan_limits m n b max_x max_y max_z plan :
  spread_cube_count_plan m n b max_x max_y max_z = Ret plan →
  ∃ x y z, plan = PlanSpread m n b x y z ∧ m * n * b ≤ u32_max ∧
    m * n * b ≤ x * y * z ∧ x * y * z ≤ u32_max ∧ x * y * z < m * n * b + y * z ∧
    x ≤ max_x ∧ 1 ≤ y ≤ max_y ∧ 1 ≤ z ≤ max_z.
Proof.
  unfold spread_cube_count_plan.
  intros (t & [-> Ht]%mul3_ret & (best & Hbest & Hres)%obind_ret)%obind_ret.
  destruct best as [[[[x y] z] v]|]; [|done]. injection Hres as <-.
  apply (spread_z_loop_limits _ _ _ max_z) in Hbest; [|by intros ?|done].
  destruct (Hbest _ eq_refl) as (H1 & -> & H2 & H3 & H4 & H5 & H6).
  exists x, y, z. split_and!; try done; lia.
Qed.

(** ** The loops visit every halved pair *)

(** [max, max/2, max/4, ..., 1]. *)
Fixpoint halvings (fuel : nat) (y : N) : list N :=
  match fuel with
  | O => []
  | S fuel =>
      if 1 <=? y then y :: (if y =? 1 then [] else halvings fuel (y / 2)) else []
  end.

Section Optimal.
Context (total max_x : N).

Definition fits (y z : N) : Prop := ceil_div (ceil_div total z) y ≤ max_x.
Definition volume (y z : N) : N := ceil_div (ceil_div total z) y * y * z.

(** One iteration, without overflow. *)
Definition step (best : option (N * N * N * N)) (yz : N * N) : option (N * N * N * N) :=
  let '(y, z) := yz in
  if ceil_div (ceil_div total z) y <=? max_x then
    better (ceil_div (ceil_div total z) y, y, z, volume y z) best
  else best.

Lemma try_candidate_step y z best :
  0 < y → 0 < z → volume y z ≤ u32_max →
  try_candidate (ceil_div total z) max_x y z best = Ret (step best (y, z)).
Proof using.
  intros Hy Hz Hv. unfold try_candidate, step. rewrite div_ceil_ok by done. cbn [obind].
  destruct (ceil_div (ceil_div total z) y <=? max_x); [|done]. by rewrite mul3_ok.
Qed.

Lemma half_fuel fuel y : y < 2 ^ N.of_nat (S fuel) → y / 2 < 2 ^ N.of_nat fuel.
Proof using.
  intros Hy. apply N.Div0.div_lt_upper_bound. rewrite Nat2N.inj_succ, N.pow_succ_r' in Hy. lia.
Qed.

Lemma spread_y_loop_fold fuel max_y y z best :
  y ≤ max_y → y < 2 ^ N.of_nat fuel → 0 < z → (∀ y, y ≤ max_y → volume y z ≤ u32_max) →
  spread_y_loop (S fuel) (ceil_div total z) max_x y z best =
    Ret (foldl step best ((λ y, (y, z)) <$> halvings (S fuel) y)).
Proof using.
  revert y best. induction fuel as [|fuel IH]; intros y best Hm Hy Hz Hv.
  - assert (y = 0) as -> by (simpl in Hy; lia). done.
  - remember (S fuel) as f1 eqn:Hf. cbn [spread_y_loop halvings].
    destruct (N.leb_spec 1 y) as [Hy1|]; [|done].
    rewrite try_candidate_step by (try apply Hv; lia). cbn [obind].
    destruct (N.eqb_spec y 1); [done|]. rewrite fmap_cons. cbn [foldl]. subst f1.
    apply IH; [by apply half_le|by apply half_fuel|done|done].
Qed.

Lemma spread_z_loop_fold fuel max_y max_z z best :
  z ≤ max_z → z < 2 ^ N.of_nat fuel → max_y < 2 ^ 32 →
  (∀ y z, y ≤ max_y → z ≤ max_z → volume y z ≤ u32_max) →
  spread_z_loop (S fuel) total max_x max_y z best =
    Ret (foldl step best (z ← halvings (S fuel) z; (λ y, (y, z)) <$> halvings halving_fuel max_y)).
Proof using.
  revert z best. induction fuel as [|fuel IH]; intros z best Hm Hz Hy Hv.
  - assert (z = 0) as -> by (simpl in Hz; lia). done.
  - remember (S fuel) as f1 eqn:Hf. cbn [spread_z_loop]. cbn [halvings].
    destruct (N.leb_spec 1 z) as [Hz1|]; [|done].
    rewrite div_ceil_ok by lia. cbn [obind]. unfold halving_fuel.
    rewrite (spread_y_loop_fold 32 max_y) by (try done; try lia; intros; by apply Hv). cbn [obind].
    rewrite bind_cons, foldl_app. destruct (N.eqb_spec z 1); [done|]. subst f1.
    apply IH; [by apply half_le|by apply half_fuel|done|done].
Qed.

Definition vol (c : N * N * N * N) : N := c.2.

Lemma better_vol c b : ∃ d, better c b = Some d ∧ vol d ≤ vol c ∧ (∀ d', b = Some d' → vol d ≤ vol d').
Proof using.
  destruct b as [d'|]; simpl; [|exists c; naive_solver lia].
  destruct c as [[[x1 y1] z1] v1], d' as [[[x2 y2] z2] v2]. unfold score_lt.
  destruct (N.ltb_spec v1 v2); simpl; [|destruct (N.eqb_spec v1 v2); simpl];
    repeat case_match; eexists; (split; [done|]); unfold vol; simpl; split; try lia; naive_solver lia.
Qed.

Lemma foldl_step_mono l best d :
  best = Some d → ∃ d', foldl step best l = Some d' ∧ vol d' ≤ vol d.
Proof using.
  revert best d. induction l as [|[y z] l IH]; intros best d ->; cbn [foldl step]; [naive_solver lia|].
  destruct (ceil_div (ceil_div total z) y <=? max_x); [|by apply IH].
  destruct (better_vol (ceil_div (ceil_div total z) y, y, z, volume y z) (Some d)) as (e & He & _ & Hle).
  rewrite He. destruct (IH _ e eq_refl) as (d' & -> & ?). exists d'. split; [done|].
  specialize (Hle d eq_refl). lia.
Qed.

Lemma foldl_step_min l best y z :
  (y, z) ∈ l → fits y z → ∃ d, foldl step best l = Some d ∧ vol d ≤ volume y z.
Proof using.
  revert best. induction l as [|[y' z'] l IH]; intros best Hin Hfit; [by apply elem_of_nil in Hin|].
  apply elem_of_cons in Hin as [[= <- <-]|Hin]; cbn [foldl step]; [|by apply IH].
  rewrite (proj2 (N.leb_le _ _)) by done.
  destruct (better_vol (ceil_div (ceil_div total z) y, y, z, volume y z) best) as (e & He & Hle & _).
  rewrite He. destruct (foldl_step_mono l _ e eq_refl) as (d' & -> & ?). exists d'. split; [done|].
  unfold vol in *. simpl in *. lia.
Qed.
End Optimal.

(** Up to [2^31] cubes and with [max_y * max_z] in a [u32] no volume overflows. *)
Lemma spread_no_overflow total max_y max_z y z :
  total ≤ 2 ^ 31 → max_y * max_z ≤ u32_max → y ≤ max_y → z ≤ max_z →
  volume total y z ≤ u32_max.
Proof.
  intros Ht Hyz Hy Hz. unfold volume.
  destruct (N.eq_dec y 0) as [->|]; [lia|]. destruct (N.eq_dec z 0) as [->|]; [lia|].
  destruct (spread_volume total y z) as [V1 V2]; [lia|lia|].
  assert (y * z ≤ max_y * max_z) as Hle by (by apply N.mul_le_mono).
  set (x := ceil_div (ceil_div total z) y) in *. change (2 ^ 31) with 2147483648 in Ht.
  unfold u32_max in *. destruct (N.le_gt_cases total (y * z)) as [Hs|Hs]; [|lia].
  assert (x < 2) by (apply (N.mul_lt_mono_pos_r (y * z)); nia). nia.
Qed.

Lemma halvings_head fuel y : 0 < y → y ∈ halvings (S fuel) y.
Proof. intros Hy. cbn [halvings]. rewrite (proj2 (N.leb_le _ _)) by lia. by left. Qed.

Lemma ceil_div_le a b c : 0 < b → a ≤ c * b → ceil_div a b ≤ c.
Proof.
  intros Hb Ha. destruct (ceil_div_spec a b Hb) as [C1 C2].
  assert (ceil_div a b < c + 1); [|lia]. apply (N.mul_lt_mono_pos_r b); [done|]. lia.
Qed.

(** The pairs of [y] and [z] that the heuristic considers. *)
Definition spread_pairs (max_y max_z : N) : list (N * N) :=
  z ← halvings halving_fuel max_z; (λ y, (y, z)) <$> halvings halving_fuel max_y.

(** The spread heuristic returns whenever the limits can hold the cubes:
    no dimension exceeds its maximum, the launch has at least the required
    number of cubes, and no pair [(y, z)] reachable by halving the maxima
    would have given a smaller volume. *)
Theorem spread_plan_optimal m n b max_x max_y max_z :
  0 < max_x → 0 < max_y → 0 < max_z → max_y < 2 ^ 32 → max_z < 2 ^ 32 →
  max_y * max_z ≤ u32_max → 0 < b → m * n * b ≤ 2 ^ 31 → m * n * b ≤ max_x * max_y * max_z →
  ∃ x y z, spread_cube_count_plan m n b max_x max_y max_z = Ret (PlanSpread m n b x y z) ∧
    x ≤ max_x ∧ y ≤ max_y ∧ z ≤ max_z ∧
    m * n * b ≤ x * y * z ∧ x * y * z < m * n * b + y * z ∧
    ∀ y' z', (y', z') ∈ spread_pairs max_y max_z → fits (m * n * b) max_x y' z' →
      x * y * z ≤ volume (m * n * b) y' z'.
Proof.
  intros Hx Hy Hz Hy32 Hz32 Hyz Hb Ht Hmax. set (t := m * n * b) in *.
  assert (spread_z_loop halving_fuel t max_x max_y max_z None =
    Ret (foldl (step t max_x) None (spread_pairs max_y max_z))) as Hloop.
  { apply (spread_z_loop_fold t max_x 32 max_y max_z); try done.
    intros y z Hy' Hz'. by eapply spread_no_overflow. }
  assert ((max_y, max_z) ∈ spread_pairs max_y max_z) as Hin.
  { unfold spread_pairs. apply list_elem_of_bind. exists max_z. split; [|by apply halvings_head].
    apply list_elem_of_fmap. exists max_y. split; [done|by apply halvings_head]. }
  assert (fits t max_x max_y max_z) as Hfit.
  { unfold fits. apply ceil_div_le; [done|]. apply ceil_div_le; [done|]. lia. }
  destruct (foldl_step_min t max_x _ None _ _ Hin Hfit) as ([[[x y] z] v] & Hbest & _).
  assert (spread_cube_count_plan m n b max_x max_y max_z = Ret (PlanSpread m n b x y z)) as Hplan.
  { unfold spread_cube_count_plan. rewrite mul3_ok by (try done; unfold t, u32_max in *;
      change (2 ^ 31) with 2147483648 in *; lia). cbn [obind]. fold t. by rewrite Hloop, Hbest. }
  apply spread_plan_limits in Hplan as Hlim.
  destruct Hlim as (x' & y' & z' & [= <- <- <-] & _ & H1 & _ & H2 & H3 & H4 & H5).
  exists x, y, z. split_and!; try done; try lia.
  intros y' z' Hin' Hfit'. destruct (foldl_step_min t max_x _ None _ _ Hin' Hfit') as (d & Hd & Hle).
  rewrite Hbest in Hd. injection Hd as <-. unfold vol in Hle. simpl in Hle.
  assert (v = x * y * z) as <-; [|done].
  apply (spread_z_loop_limits _ _ _ max_z) in Hloop; [|by intros ?|done].
  destruct (Hloop _ Hbest) as (_ & Hv & _). exact Hv.
Qed.

Lemma spread_plan_optimal_witness :
  ∃ x y z, spread_cube_count_plan 1000 70 3 1024 64 64 = Ret (PlanSpread 1000 70 3 x y z) ∧
    x ≤ 1024 ∧ y ≤ 64 ∧ z ≤ 64 ∧
    1000 * 70 * 3 ≤ x * y * z ∧ x * y * z < 1000 * 70 * 3 + y * z ∧
    ∀ y' z', (y', z') ∈ spread_pairs 64 64 → fits (1000 * 70 * 3) 1024 y' z' →
      x * y * z ≤ volume (1000 * 70 * 3) y' z'.
Proof. apply (spread_plan_optimal 1000 70 3 1024 64 64); done. Defined.

(** ** The configuration reproduces the plan *)

Lemma from_selection_cubes sel p max plan :
  from_selection sel p max = Ret plan →
  ∃ mx my mz m n b, static_count max = Ret (mx, my, mz) ∧
    cubes_of (hs_cube_span sel) p = Ret (m, n, b) ∧
    ((plan = PlanFromProblem m n b ∧ m ≤ mx ∧ n ≤ my ∧ b ≤ mz) ∨
     (∃ first sms usage s c, plan = PlanSm first s c m n b sms usage ∧
        mul3 m n b = Ret (m * n * b) ∧ allocate usage sms (m * n * b) = Ret (s, c)) ∨
     (plan = PlanFlattened m n b ∧ mul3 m n b = Ret (m * n * b)) ∨
     spread_cube_count_plan m n b mx my mz = Ret plan).
Proof.
  unfold from_selection.
  intros ([[mx my] mz] & Hst & ([[m n] b] & Hc & (o & Ho & Hres)%obind_ret)%obind_ret)%obind_ret.
  exists mx, my, mz, m, n, b. split; [done|]. split; [done|].
  assert (∀ t, mul3 m n b = Ret t → mul3 m n b = Ret (m * n * b)) as Hm3
    by (intros t Ht; pose proof (mul3_ret _ _ _ _ Ht) as [-> _]; done).
  destruct (hs_plan_selection sel) as [|first sms usage| |].
  - destruct (N.ltb_spec mx m), (N.ltb_spec my n), (N.ltb_spec mz b); injection Ho as <-;
      (try (by right; right; right)). injection Hres as <-. by left.
  - apply obind_ret in Ho as (t & Ht & ([s c] & Hal & Ho)%obind_ret).
    pose proof (mul3_ret _ _ _ _ Ht) as [-> _].
    destruct ((_ <=? _) || (_ <=? _)); injection Ho as <-; [by right; right; right|].
    injection Hres as <-. right. left. exists first, sms, usage, s, c. split_and!; by eauto.
  - apply obind_ret in Ho as (t & Ht & Ho).
    destruct (_ <=? _); injection Ho as <-; [by right; right; right|].
    injection Hres as <-. right. right. left. split; by eauto.
  - injection Ho as <-. by right; right; right.
Qed.

(** The plan that [from_config] recomputes, and the flag of the config. *)
Lemma config_plan sel p max cfg :
  to_hypercube_config sel p max = Ret cfg →
  ∃ plan extra, from_selection sel p max = Ret plan ∧ from_config cfg p max = Ret plan ∧
    CubeCountPlan_can_yield_extra_cubes plan = Ret extra ∧
    CubeCountPlanConfig_can_yield_extra_cubes (hc_plan_config cfg) = extra.
Proof.
  unfold to_hypercube_config. intros (plan & Hplan & (pc & Hpc & [= <-])%obind_ret)%obind_ret.
  exists plan. pose proof (from_selection_cubes _ _ _ _ Hplan) as
    (mx & my & mz & m & n & b & Hst & Hc & Hcases).
  unfold from_config. rewrite Hst. cbn [obind hc_cube_span hc_plan_config]. rewrite Hc. cbn [obind].
  destruct Hcases as [(-> & _)|[(first & sms & usage & s & c & -> & Hm & Hal)|[(-> & Hm)|Hsp]]].
  - injection Hpc as <-. by exists false.
  - cbn [from_cube_count_plan] in Hpc. apply obind_ret in Hpc as (extra & He & [= <-]).
    exists extra. split_and!; try done. rewrite Hm. cbn [obind]. by rewrite Hal.
  - injection Hpc as <-. by exists false.
  - pose proof (spread_plan_limits _ _ _ _ _ _ _ Hsp) as (x & y & z & -> & _).
    cbn [from_cube_count_plan] in Hpc. apply obind_ret in Hpc as (extra & He & [= <-]).
    by exists extra.
Qed.

(** ** The order of the positions is a bijection *)

Definition in_range (m n b : N) (p : N * N * N) : Prop :=
  let '(i, j, k) := p in i < m ∧ j < n ∧ k < b.

Definition order_ok (order : GlobalOrder) (m n : N) : Prop :=
  match order with
  | RowMajor | ColMajor => True
  | SwizzleRowMajor w => 0 < w ∧ (w | m)
  | SwizzleColMajor w => 0 < w ∧ (w | n)
  end.

Definition matrix_index (order : GlobalOrder) (m n : N) (p : N * N) : N :=
  let '(i, j) := p in
  match order with
  | RowMajor => i * n + j
  | ColMajor => j * m + i
  | SwizzleRowMajor w => unswizzle n w (j, i)
  | SwizzleColMajor w => unswizzle m w (i, j)
  end.

(** The matrix position of [absolute_index_to_m_n_batch]. *)
Definition matrix_position (order : GlobalOrder) (m n i : N) : outcome (N * N) :=
  match order with
  | RowMajor => Ret (i / n, i mod n)
  | ColMajor => Ret (i mod m, i / m)
  | SwizzleRowMajor w => let? '(x, y) := swizzle i n w in Ret (y, x)
  | SwizzleColMajor w => swizzle i m w
  end.

Lemma divide_pos_le w r : 0 < r → (w | r) → w ≤ r.
Proof. intros Hr Hd. by apply N.divide_pos_le. Qed.

(** [swizzle] inside a matrix of [s] by [r] positions. *)
Lemma swizzle_in_matrix s w r i :
  0 < s → 0 < w → (w | r) → s * r < two32 → i < s * r →
  swizzle i s w = Ret (swizzle_spec i s w).
Proof.
  intros Hs Hw Hd Hsr Hi. assert (w ≤ r) by (apply divide_pos_le; [nia|done]).
  apply swizzle_ok; try done; [nia|nia|].
  destruct (swizzle_spec_bounds s w r i Hs Hw Hd Hi) as [_ Hy]. revert Hy. unfold swizzle_spec. cbn [snd].
  destruct Hd as [k ->]. intros Hy. set (q := i / (s * w)) in *.
  assert (q < k) as Hq by (apply (N.mul_lt_mono_pos_r w); lia).
  assert ((q + 1) * w ≤ k * w) by (apply N.mul_le_mono_r; lia). nia.
Qed.

Lemma matrix_position_ok order m n i :
  0 < m → 0 < n → m * n < two32 → order_ok order m n → i < m * n →
  ∃ p, matrix_position order m n i = Ret p ∧ p.1 < m ∧ p.2 < n ∧ matrix_index order m n p = i.
Proof.
  intros Hm Hn Hmn Hok Hi. destruct order as [| |w|w]; cbn [matrix_position].
  - destruct (div_mod_ex i n Hn) as (q & r & -> & -> & Hq & Hr). eexists. split; [done|]. simpl.
    split_and!; [|done|lia]. apply (N.mul_lt_mono_pos_r n); lia.
  - destruct (div_mod_ex i m Hm) as (q & r & -> & -> & Hq & Hr). eexists. split; [done|]. simpl.
    split_and!; [done| |lia]. apply (N.mul_lt_mono_pos_r m); lia.
  - destruct Hok as [Hw Hd]. rewrite (swizzle_in_matrix n w m i) by (try done; lia).
    destruct (swizzle_spec_bounds n w m i Hn Hw Hd ltac:(lia)) as [Hx Hy].
    pose proof (unswizzle_swizzle_spec n w i Hn Hw) as Hinv.
    destruct (swizzle_spec i n w) as [x y]. by exists (y, x).
  - destruct Hok as [Hw Hd]. rewrite (swizzle_in_matrix m w n i) by (try done; lia).
    destruct (swizzle_spec_bounds m w n i Hm Hw Hd ltac:(lia)) as [Hx Hy].
    pose proof (unswizzle_swizzle_spec m w i Hm Hw) as Hinv.
    destruct (swizzle_spec i m w) as [x y]. by exists (x, y).
Qed.

Lemma matrix_index_ok order m n i j :
  i < m → j < n → m * n < two32 → order_ok order m n →
  matrix_index order m n (i, j) < m * n ∧
  matrix_position order m n (matrix_index order m n (i, j)) = Ret (i, j).
Proof.
  intros Hi Hj Hmn Hok. destruct order as [| |w|w]; cbn [matrix_index].
  - assert (i * n + j < m * n) by nia. split; [done|]. unfold matrix_position.
    rewrite N.add_comm, N.div_add, N.Div0.mod_add, N.div_small, N.mod_small by lia. by rewrite N.add_0_l.
  - assert (j * m + i < m * n) by nia. split; [done|]. unfold matrix_position.
    rewrite N.add_comm, N.div_add, N.Div0.mod_add, N.div_small, N.mod_small by lia. by rewrite N.add_0_l.
  - destruct Hok as [Hw Hd]. pose proof (unswizzle_bound n w m j i Hw Hd Hj Hi) as Hb.
    split; [lia|]. unfold matrix_position. rewrite (swizzle_in_matrix n w m) by (try done; lia).
    by rewrite swizzle_spec_unswizzle.
  - destruct Hok as [Hw Hd]. pose proof (unswizzle_bound m w n i j Hw Hd Hi Hj) as Hb.
    split; [lia|]. unfold matrix_position. rewrite (swizzle_in_matrix m w n) by (try done; lia).
    by rewrite swizzle_spec_unswizzle.
Qed.

Definition tensor_index (order : GlobalOrder) (m n : N) (p : N * N * N) : N :=
  let '(i, j, k) := p in k * (m * n) + matrix_index order m n (i, j).

Lemma absolute_index_unfold i m n order :
  m * n < two32 →
  absolute_index_to_m_n_batch i m n order =
    (let? '(a, b) := matrix_position order m n (i mod (m * n)) in Ret (a, b, i / (m * n))).
Proof. intros Hmn. unfold absolute_index_to_m_n_batch. by rewrite wmul_small. Qed.

Lemma absolute_index_ok i m n b order :
  0 < m → 0 < n → m * n < two32 → order_ok order m n → i < m * n * b →
  ∃ p, absolute_index_to_m_n_batch i m n order = Ret p ∧ in_range m n b p ∧
    tensor_index order m n p = i.
Proof.
  intros Hm Hn Hmn Hok Hi. rewrite absolute_index_unfold by done.
  destruct (div_mod_ex i (m * n)) as (q & r & -> & -> & Hq & Hr); [lia|].
  destruct (matrix_position_ok order m n r Hm Hn Hmn Hok Hr) as ([x y] & -> & Hx & Hy & Hinv).
  exists (x, y, q). split; [done|]. split; [|unfold tensor_index; rewrite Hinv; lia].
  split_and!; try done. apply (N.mul_lt_mono_pos_r (m * n)); lia.
Qed.

Lemma tensor_index_ok m n b order p :
  m * n < two32 → order_ok order m n → in_range m n b p →
  tensor_index order m n p < m * n * b ∧
  absolute_index_to_m_n_batch (tensor_index order m n p) m n order = Ret p.
Proof.
  intros Hmn Hok Hp. destruct p as [[i j] k]. destruct Hp as (Hi & Hj & Hk).
  destruct (matrix_index_ok order m n i j Hi Hj Hmn Hok) as [Hlt Hpos].
  unfold tensor_index. split; [nia|]. rewrite absolute_index_unfold by done.
  rewrite N.add_comm, N.div_add, N.Div0.mod_add, N.div_small, (N.mod_small _ (m * n)) by lia.
  rewrite Hpos. cbn [obind]. by rewrite N.add_0_l.
Qed.

(** ** The cubes of a grid *)

Definition in_grid (X Y Z : N) (t : Topology) : Prop :=
  CUBE_COUNT_X t = X ∧ CUBE_COUNT_Y t = Y ∧ CUBE_COUNT_Z t = Z ∧
  CUBE_POS_X t < X ∧ CUBE_POS_Y t < Y ∧ CUBE_POS_Z t < Z.

Definition cube_at (X Y Z x y z : N) : Topology :=
  {| CUBE_POS_X := x; CUBE_POS_Y := y; CUBE_POS_Z := z;
     CUBE_COUNT_X := X; CUBE_COUNT_Y := Y; CUBE_COUNT_Z := Z |}.

Lemma in_grid_inv X Y Z t :
  in_grid X Y Z t → ∃ x y z, t = cube_at X Y Z x y z ∧ x < X ∧ y < Y ∧ z < Z.
Proof.
  destruct t as [x y z X' Y' Z']. intros (<- & <- & <- & Hx & Hy & Hz). simpl in *.
  by exists x, y, z.
Qed.

Lemma in_grid_cube_at X Y Z x y z :
  x < X → y < Y → z < Z → in_grid X Y Z (cube_at X Y Z x y z).
Proof. done. Qed.

Lemma cube_pos_linear X Y Z x y z :
  X * Y * Z ≤ u32_max → x < X → y < Y → z < Z →
  CUBE_POS (cube_at X Y Z x y z) = (z * Y + y) * X + x ∧ (z * Y + y) * X + x < X * Y * Z.
Proof.
  intros Hmax Hx Hy Hz. assert ((z * Y + y) * X + x < X * Y * Z) as Hlt.
  { assert ((z + 1) * (X * Y) ≤ Z * (X * Y)) by (apply N.mul_le_mono_r; lia).
    assert ((y + 1) * X ≤ Y * X) by (apply N.mul_le_mono_r; lia). lia. }
  split; [|done]. unfold CUBE_POS, cube_at. simpl. unfold two32, u32_max in *.
  rewrite (wmul_small z Y) by (unfold two32; nia). rewrite (wadd_small (z * Y) y) by (unfold two32; nia).
  rewrite (wmul_small (z * Y + y) X) by (unfold two32; lia).
  rewrite wadd_small by (unfold two32; lia). lia.
Qed.

Lemma linear_inj X Y x y z x' y' z' :
  x < X → x' < X → y < Y → y' < Y →
  (z * Y + y) * X + x = (z' * Y + y') * X + x' → x = x' ∧ y = y' ∧ z = z'.
Proof.
  intros Hx Hx' Hy Hy' Heq.
  apply radix_inj in Heq as [Heq ->]; [|done|done]. apply radix_inj in Heq as [-> ->]; [|done|done]. done.
Qed.

Lemma linear_surj X Y Z i :
  i < X * Y * Z → ∃ x y z, x < X ∧ y < Y ∧ z < Z ∧ (z * Y + y) * X + x = i.
Proof.
  intros Hi. assert (0 < X) as HX by nia. assert (0 < Y) as HY by nia.
  destruct (div_mod_ex i X HX) as (q & x & _ & _ & Hq & Hx).
  destruct (div_mod_ex q Y HY) as (z & y & _ & _ & Hz & Hy).
  exists x, y, z. split_and!; try done; [|lia].
  apply (N.mul_lt_mono_pos_r (X * Y)); [lia|]. nia.
Qed.

(** Every position is computed by exactly one cube, and no other cube than
    the ones that terminate at once is outside of the tensor. *)
Definition visits_once (cfg : HypercubeConfig) (input : CubeCountInput) (X Y Z m n b : N) : Prop :=
  (∀ t, in_grid X Y Z t → ∃ stop, surplus_cube cfg input t = Ret stop ∧
     (stop = false → ∃ p, cube_pos_to_tensor_pos input t (hc_global_order cfg) = Ret p ∧
        in_range m n b p)) ∧
  (∀ p, in_range m n b p → ∃ t, in_grid X Y Z t ∧ surplus_cube cfg input t = Ret false ∧
     cube_pos_to_tensor_pos input t (hc_global_order cfg) = Ret p ∧
     ∀ t', in_grid X Y Z t' → surplus_cube cfg input t' = Ret false →
       cube_pos_to_tensor_pos input t' (hc_global_order cfg) = Ret p → t' = t).

(** The linear position of a cube is all that matters. *)
Lemma visits_once_linear cfg input X Y Z m n b :
  0 < m → 0 < n → m * n < two32 → order_ok (hc_global_order cfg) m n →
  m * n * b ≤ X * Y * Z →
  (∀ x y z, x < X → y < Y → z < Z →
     surplus_cube cfg input (cube_at X Y Z x y z) = Ret (m * n * b <=? (z * Y + y) * X + x) ∧
     cube_pos_to_tensor_pos input (cube_at X Y Z x y z) (hc_global_order cfg) =
       absolute_index_to_m_n_batch ((z * Y + y) * X + x) m n (hc_global_order cfg)) →
  visits_once cfg input X Y Z m n b.
Proof.
  intros Hm Hn Hmn Hok Hle Hlin. split.
  - intros t (x & y & z & -> & Hx & Hy & Hz)%in_grid_inv. destruct (Hlin x y z Hx Hy Hz) as [Hs Hp].
    eexists. split; [done|]. intros Hstop%N.leb_gt. rewrite Hp.
    destruct (absolute_index_ok _ m n b _ Hm Hn Hmn Hok Hstop) as (p & ? & ? & _). by exists p.
  - intros p Hp. destruct (tensor_index_ok m n b _ p Hmn Hok Hp) as [Hlt Habs].
    destruct (linear_surj X Y Z (tensor_index (hc_global_order cfg) m n p)) as (x & y & z & Hx & Hy & Hz & Heq);
      [lia|].
    destruct (Hlin x y z Hx Hy Hz) as [Hs Hpos]. exists (cube_at X Y Z x y z).
    split; [done|]. rewrite Hs, Hpos, Heq, (proj2 (N.leb_gt _ _)) by lia.
    split_and!; try done.
    intros t' (x' & y' & z' & -> & Hx' & Hy' & Hz')%in_grid_inv.
    destruct (Hlin x' y' z' Hx' Hy' Hz') as [-> ->]. intros [= Hstop%N.leb_gt] Heq'.
    destruct (absolute_index_ok _ m n b _ Hm Hn Hmn Hok Hstop) as (p' & Hp' & _ & Hidx).
    rewrite Hp' in Heq'. injection Heq' as ->. rewrite <- Heq in Hidx.
    symmetry in Hidx. apply linear_inj in Hidx as (-> & -> & ->); done.
Qed.

(** The guard of a plan with extra cubes. *)
Lemma surplus_linear cfg input X Y Z m n b x y z :
  CubeCountPlanConfig_can_yield_extra_cubes (hc_plan_config cfg) =
    negb (X * Y * Z =? m * n * b) →
  num_valid_cubes input = Ret (wmul (wmul m n) b) → m * n < two32 → m * n * b ≤ u32_max →
  X * Y * Z ≤ u32_max → x < X → y < Y → z < Z →
  surplus_cube cfg input (cube_at X Y Z x y z) = Ret (m * n * b <=? (z * Y + y) * X + x).
Proof.
  intros Hextra Hvalid Hmn Ht Hmax Hx Hy Hz.
  destruct (cube_pos_linear X Y Z x y z Hmax Hx Hy Hz) as [Hpos Hlt].
  unfold surplus_cube. rewrite Hextra. destruct (N.eqb_spec (X * Y * Z) (m * n * b)) as [He|He]; cbn [negb].
  - rewrite (proj2 (N.leb_gt _ _)) by lia. done.
  - rewrite Hvalid. cbn [obind]. rewrite (wmul_small m n) by done.
    rewrite wmul_small by (unfold two32, u32_max in *; lia). by rewrite Hpos.
Qed.

(** ** Every plan visits every position once *)

Lemma best_divisor_covers divs total max_slack best s c :
  total ≤ best.1 * best.2 → best_divisor divs total max_slack best = Ret (s, c) → total ≤ s * c.
Proof.
  intros Hbest. induction divs as [|d divs IH]; cbn [best_divisor]; [by intros [= ->]|].
  intros (q & [Hd ->]%div_ceil_ret & (a & [-> _]%checked_mul_ret & Hres)%obind_ret)%obind_ret.
  destruct (_ <=? _); [|by apply IH]. injection Hres as <- <-.
  destruct (ceil_div_spec total d Hd). lia.
Qed.

Lemma allocate_covers usage sms total s c :
  allocate usage sms total = Ret (s, c) → total ≤ s * c.
Proof.
  assert (∀ num den, allocate_ratio num den sms total = Ret (s, c) → total ≤ s * c) as H.
  { unfold allocate_ratio. intros num den
      (ms & _ & (q & [Hd ->]%div_ceil_ret & (l & _ & Hres)%obind_ret)%obind_ret)%obind_ret.
    apply best_divisor_covers in Hres; [done|]. cbn [fst snd].
    destruct (ceil_div_spec total sms Hd). lia. }
  destruct usage; apply H.
Qed.

Lemma cubes_of_ret span p m n b :
  cubes_of span p = Ret (m, n, b) →
  ∃ nb, num_batches p = Ret nb ∧ 0 < span_m span ∧ 0 < span_n span ∧ 0 < span_batch span ∧
    m = ceil_div (as_u32 (prob_m p)) (span_m span) ∧
    n = ceil_div (as_u32 (prob_n p)) (span_n span) ∧
    b = ceil_div (as_u32 nb) (span_batch span).
Proof.
  unfold cubes_of. intros (m' & [Hm ->]%div_ceil_ret & (n' & [Hn ->]%div_ceil_ret &
    (nb & Hnb & (b' & [Hb ->]%div_ceil_ret & [= <- <- <-])%obind_ret)%obind_ret)%obind_ret)%obind_ret.
  by exists nb.
Qed.

Lemma checked_rem_ret a b r : checked_rem a b = Ret r → 0 < b ∧ r = a mod b.
Proof. unfold checked_rem. destruct (N.eqb_spec b 0); [done|]. intros [= <-]. lia. Qed.

Lemma validate_order cfg p m n b :
  HypercubeConfig_validate cfg p = Ret (inl tt) → cubes_of (hc_cube_span cfg) p = Ret (m, n, b) →
  order_ok (hc_global_order cfg) m n.
Proof.
  intros Hval (nb & _ & Hm & Hn & _ & -> & -> & _)%cubes_of_ret. revert Hval.
  unfold HypercubeConfig_validate. rewrite !div_ceil_ok by done. cbn [obind].
  destruct (hc_global_order cfg) as [| |w|w]; cbn [order_ok]; try done;
    intros (r & [Hw ->]%checked_rem_ret & Hres)%obind_ret;
    (split; [done|]); apply mod_0_divide; [done| |done|]; revert Hres;
    match goal with |- context [?a =? 0] => by destruct (N.eqb_spec a 0) end.
Qed.

Lemma visits_from_problem cfg m n b :
  CubeCountPlanConfig_can_yield_extra_cubes (hc_plan_config cfg) = false →
  visits_once cfg InFromProblem m n b m n b.
Proof.
  intros He. unfold visits_once, surplus_cube. rewrite He. split.
  - intros t (x & y & z & -> & Hx & Hy & Hz)%in_grid_inv. eexists. split; [done|]. intros _.
    by exists (x, y, z).
  - intros [[i j] k] (Hi & Hj & Hk). exists (cube_at m n b i j k). split_and!; try done.
    intros t' (x & y & z & -> & Hx & Hy & Hz)%in_grid_inv _ [= -> -> ->]. done.
Qed.

Lemma eqb_sym_negb (a b : N) : negb (a =? b) = negb (b =? a).
Proof. by rewrite N.eqb_sym. Qed.

Lemma visits_sm cfg first s c m n b :
  0 < m → 0 < n → m * n < two32 → order_ok (hc_global_order cfg) m n → m * n * b ≤ u32_max →
  m * n * b ≤ s * c → s * c ≤ u32_max →
  CubeCountPlanConfig_can_yield_extra_cubes (hc_plan_config cfg) = negb (s * c =? m * n * b) →
  visits_once cfg (if first : bool then InCubeFirst m n b else InSmFirst m n b)
    (if first then c else s) (if first then s else c) 1 m n b.
Proof.
  intros Hm Hn Hmn Hok Ht Hle Hmax He.
  assert ((if first then c else s) * (if first then s else c) * 1 = s * c) as Hsc by (destruct first; lia).
  apply visits_once_linear; try done; [lia|]. intros x y z Hx Hy Hz. split.
  - apply surplus_linear; try done; [by rewrite He, Hsc|by destruct first|lia].
  - destruct (cube_pos_linear (if first then c else s) (if first then s else c) 1 x y z) as [Hp Hlt];
      [lia|done|done|done|].
    assert (z = 0) as -> by lia. rewrite N.mul_0_l, N.add_0_l in *.
    destruct first; cbn [cube_pos_to_tensor_pos]; [|by rewrite Hp]. simpl.
    rewrite (wmul_small y c) by (unfold two32, u32_max in *; lia).
    by rewrite wadd_small by (unfold two32, u32_max in *; lia).
Qed.

Lemma visits_flattened cfg m n b :
  0 < m → 0 < n → m * n < two32 → order_ok (hc_global_order cfg) m n → m * n * b ≤ u32_max →
  CubeCountPlanConfig_can_yield_extra_cubes (hc_plan_config cfg) = false →
  visits_once cfg (InFlattened m n) (m * n * b) 1 1 m n b.
Proof.
  intros Hm Hn Hmn Hok Ht He. apply visits_once_linear; try done; [lia|]. intros x y z Hx Hy Hz.
  assert (y = 0) as -> by lia. assert (z = 0) as -> by lia. simpl.
  unfold surplus_cube. rewrite He. rewrite (proj2 (N.leb_gt _ _)) by lia. done.
Qed.

Lemma visits_spread cfg m n b x y z :
  0 < m → 0 < n → m * n < two32 → order_ok (hc_global_order cfg) m n → m * n * b ≤ u32_max →
  m * n * b ≤ x * y * z → x * y * z ≤ u32_max →
  CubeCountPlanConfig_can_yield_extra_cubes (hc_plan_config cfg) = negb (m * n * b =? x * y * z) →
  visits_once cfg (InSpread m n b) x y z m n b.
Proof.
  intros Hm Hn Hmn Hok Ht Hle Hmax He. apply visits_once_linear; try done.
  intros i j k Hi Hj Hk. split.
  - apply surplus_linear; try done. by rewrite He, eqb_sym_negb.
  - cbn [cube_pos_to_tensor_pos]. by destruct (cube_pos_linear x y z i j k) as [-> _].
Qed.

Lemma plan_visits_once sel p max cfg m n b :
  to_hypercube_config sel p max = Ret cfg →
  HypercubeConfig_validate cfg p = Ret (inl tt) →
  cubes_of (hs_cube_span sel) p = Ret (m, n, b) → 0 < m → 0 < n → 0 < b →
  ∃ plan X Y Z, cube_count_plan cfg p max = Ret plan ∧ resolve plan = Ret (CountStatic X Y Z) ∧
    visits_once cfg (as_args plan) X Y Z m n b.
Proof.
  intros Hcfg Hval Hcubes Hm Hn Hb.
  assert (hc_cube_span cfg = hs_cube_span sel) as Hspan.
  { unfold to_hypercube_config in Hcfg. by apply obind_ret in Hcfg as (? & _ & (? & _ & [= <-])%obind_ret). }
  pose proof (config_plan _ _ _ _ Hcfg) as (plan & extra & Hsel & Hfrom & Hextra & Hflag).
  rewrite <- Hspan in Hcubes. pose proof (validate_order _ _ _ _ _ Hval Hcubes) as Hok. rewrite Hspan in Hcubes.
  pose proof (from_selection_cubes _ _ _ _ Hsel) as (mx & my & mz & m' & n' & b' & _ & Hc & Hcases).
  rewrite Hcubes in Hc. injection Hc as <- <- <-. exists plan. unfold cube_count_plan. rewrite Hfrom.
  assert (∀ t, t = m * n * b → t ≤ u32_max → m * n < two32) as Hmn
    by (intros ? -> ?; unfold two32, u32_max in *; nia).
  destruct Hcases as [(-> & _)|[(first & sms & usage & s & c & -> & Ht & Hal)|[(-> & Ht)|Hsp]]].
  - injection Hextra as <-. exists m, n, b. split_and!; try done. by apply visits_from_problem.
  - cbn [CubeCountPlan_can_yield_extra_cubes] in Hextra.
    apply obind_ret in Hextra as (a & [-> Ha]%checked_mul_ret & (t & [-> Ht']%mul3_ret & [= <-])%obind_ret).
    pose proof (visits_sm cfg first s c m n b Hm Hn (Hmn _ eq_refl Ht') Hok Ht' (allocate_covers _ _ _ _ _ Hal) Ha Hflag).
    exists (if first then c else s), (if first then s else c), 1. by destruct first.
  - injection Hextra as <-. pose proof (mul3_ret _ _ _ _ Ht) as [_ Ht'].
    exists (m * n * b), 1, 1. cbn [resolve]. rewrite Ht. split_and!; try done.
    apply visits_flattened; try done. by apply (Hmn (m * n * b)).
  - pose proof (spread_plan_limits _ _ _ _ _ _ _ Hsp) as (x & y & z & -> & Ht & Hle & Hmax & _).
    cbn [CubeCountPlan_can_yield_extra_cubes] in Hextra.
    apply obind_ret in Hextra as (a & [-> _]%mul3_ret & (t & [-> _]%mul3_ret & [= <-])%obind_ret).
    exists x, y, z. split_and!; try done. apply visits_spread; try done. by apply (Hmn (m * n * b)).
Qed.

(** The configuration compiled into the kernel determines the same
    launch as the selection it was made from: recomputing the plan from the
    configuration gives the plan of the selection, fallbacks to the spread
    heuristic included, and the stored flag says whether that plan launches
    more cubes than needed. *)
Theorem config_recomputes_plan sel p max cfg :
  to_hypercube_config sel p max = Ret cfg →
  ∃ plan, from_selection sel p max = Ret plan ∧ cube_count_plan cfg p max = Ret plan ∧
    CubeCountPlan_can_yield_extra_cubes plan =
      Ret (CubeCountPlanConfig_can_yield_extra_cubes (hc_plan_config cfg)).
Proof.
  intros H. destruct (config_plan _ _ _ _ H) as (plan & extra & H1 & H2 & H3 & ->). by exists plan.
Qed.

(** C19. The launched cubes reach every position of the output exactly once:
    for every plan, traversal order and number of cubes along m, n and the
    batches, each cube of the grid either terminates at once or gets a position
    inside the output, and each position is that of exactly one cube which does
    not terminate. *)
Theorem hypercube_visits_once sel p max cfg m n b :
  to_hypercube_config sel p max = Ret cfg →
  HypercubeConfig_validate cfg p = Ret (inl tt) →
  cubes_of (hs_cube_span sel) p = Ret (m, n, b) → 0 < m → 0 < n → 0 < b →
  ∃ plan X Y Z, cube_count_plan cfg p max = Ret plan ∧ resolve plan = Ret (CountStatic X Y Z) ∧
    visits_once cfg (as_args plan) X Y Z m n b.
Proof. apply plan_visits_once. Qed.

Module Demo.
Definition problem : MatmulProblem :=
  {| prob_m := 1000; prob_n := 300; prob_k := 64; prob_lhs_batches := [2; 3];
     prob_rhs_batches := [2; 1]; prob_lhs_layout := LayoutRowMajor; prob_rhs_layout := LayoutRowMajor |}.
Definition selection : HypercubeSelection :=
  {| hs_cube_span := {| span_m := 256; span_n := 128; span_batch := 1 |};
     hs_global_order := SwizzleRowMajor 2;
     hs_plan_selection := SelSm false 20 Full |}.
Definition limits : CubeCount := CountStatic 65535 65535 65535.
Definition config : HypercubeConfig :=
  {| hc_cube_span := {| span_m := 256; span_n := 128; span_batch := 1 |};
     hc_global_order := SwizzleRowMajor 2;
     hc_plan_config := CfgSm false 20 Full true |}.

Lemma config_recomputes_plan_witness :
  ∃ plan, from_selection selection problem limits = Ret plan ∧
    cube_count_plan config problem limits = Ret plan ∧
    CubeCountPlan_can_yield_extra_cubes plan = Ret true.
Proof. apply (config_recomputes_plan selection problem limits config). vm_compute. reflexivity. Defined.

Lemma hypercube_visits_once_witness :
  ∃ plan X Y Z, cube_count_plan config problem limits = Ret plan ∧
    resolve plan = Ret (CountStatic X Y Z) ∧ visits_once config (as_args plan) X Y Z 4 3 6.
Proof. by apply (hypercube_visits_once selection problem limits config 4 3 6). Defined.
End Demo.
