(* ===== verification/BlockCoverage.v ===== *)
(** * Every output element is computed by exactly one block

    The blocks of [PartitionedBatchMatmul::execute]: along each dimension the
    offsets of a cube are the multiples of the stage size inside its global
    partition.  With the bijection of [HypercubeProps.v] every element of the
    output lies in exactly one block of exactly one cube. *)

From S2P Require Import Prelude DeviceNum Tiling GlobalOrder SmAllocation Hypercube HypercubeProps.

Open Scope N_scope.
Open Scope rust_scope.

(** ** One dimension *)

Lemma range_new_ok pos sd g :
  0 < sd → PartitionRangeDim_new pos sd (sd * g) =
    Ret {| range_start := wmul pos (sd * g); range_step := sd; range_num_steps := g |}.
Proof.
  intros Hsd. unfold PartitionRangeDim_new. rewrite div_ceil_ok by done. cbn [obind].
  rewrite <- (ceil_div_unique (sd * g) sd g) by lia. done.
Qed.

Section Dimension.
Context (pos sd g : N).
Context (Hsd : 0 < sd) (Hfit : (pos + 1) * (sd * g) ≤ two32).

Definition range_at : PartitionRangeDim :=
  {| range_start := wmul pos (sd * g); range_step := sd; range_num_steps := g |}.

Lemma range_offset_ok i :
  i < g → wadd (range_start range_at) (wmul i (range_step range_at)) = pos * (sd * g) + i * sd.
Proof using Hsd Hfit.
  intros Hi. simpl. assert ((i + 1) * sd ≤ g * sd) by (apply N.mul_le_mono_r; lia).
  rewrite (wmul_small pos), (wmul_small i), wadd_small by lia. done.
Qed.

Lemma elem_of_range_offsets o :
  o ∈ range_offsets range_at ↔ ∃ i, i < g ∧ o = pos * (sd * g) + i * sd.
Proof using Hsd Hfit.
  unfold range_offsets. rewrite list_elem_of_fmap. split.
  - intros (i & -> & Hin). apply list_elem_of_fmap in Hin as (k & -> & Hk%elem_of_seq).
    simpl in Hk. exists (N.of_nat k). rewrite range_offset_ok by lia. split; [lia|done].
  - intros (i & Hi & ->). exists i. rewrite range_offset_ok by done. split; [done|].
    apply list_elem_of_fmap. exists (N.to_nat i). rewrite elem_of_seq. simpl. lia.
Qed.

Lemma NoDup_range_offsets : NoDup (range_offsets range_at).
Proof using Hsd Hfit.
  unfold range_offsets. rewrite <- list_fmap_compose. simpl range_num_steps.
  apply NoDup_fmap_2_strong; [|apply NoDup_seq]. intros i j Hi%elem_of_seq Hj%elem_of_seq Heq.
  simpl compose in Heq. rewrite !range_offset_ok in Heq by lia. nia.
Qed.

(** An offset of the cube whose stage contains [v] exists exactly when [v] is
    in the cube's partition, and is then the multiple of the stage size below. *)
Lemma covering_offset o v :
  (o ∈ range_offsets range_at ∧ o ≤ v < o + sd) ↔
  (0 < g ∧ v / (sd * g) = pos ∧ o = v / sd * sd).
Proof using Hsd Hfit.
  rewrite elem_of_range_offsets. split.
  - intros [(i & Hi & ->) Hv]. split; [lia|].
    assert ((i + 1) * sd ≤ g * sd) by (apply N.mul_le_mono_r; lia).
    split; [apply div_bounds; nia|].
    rewrite (div_bounds v sd (pos * g + i)); nia.
  - intros (Hg & Hq & ->). destruct (div_mul_bounds v sd Hsd) as [B1 B2].
    destruct (div_mul_bounds v (sd * g)) as [C1 C2]; [nia|]. rewrite Hq in C1, C2.
    split; [|lia]. exists (v / sd - pos * g).
    assert (pos * g ≤ v / sd) by (apply N.div_le_lower_bound; [lia|nia]).
    assert (v / sd < (pos + 1) * g) by (apply N.Div0.div_lt_upper_bound; nia). split; nia.
Qed.
End Dimension.

(** ** The blocks of a cube *)

Lemma elem_of_execute o ranges row col batch :
  (row, col, batch) ∈ partition_execute o ranges ↔
  row ∈ range_offsets (ranges_row ranges) ∧ col ∈ range_offsets (ranges_col ranges) ∧
  batch ∈ range_offsets (ranges_batch ranges).
Proof.
  destruct o; cbn [partition_execute];
    unfold RowMajorGlobalPartitionMatmul_execute, ColMajorGlobalPartitionMatmul_execute;
    setoid_rewrite list_elem_of_bind; setoid_rewrite list_elem_of_bind;
    setoid_rewrite list_elem_of_bind; setoid_rewrite list_elem_of_singleton; naive_solver.
Qed.

Lemma NoDup_bind_pairs {A B} (f : A → list B) (key : B → A) l :
  NoDup l → (∀ a, a ∈ l → NoDup (f a)) → (∀ a b, b ∈ f a → key b = a) → NoDup (l ≫= f).
Proof.
  intros Hl Hf Hkey. induction Hl as [|a l Ha Hl IH]; [constructor|].
  rewrite bind_cons. apply NoDup_app. split_and!; [apply Hf; left| |apply IH; intros; apply Hf; by right].
  intros b Hb (a' & Hb' & Ha')%list_elem_of_bind. apply Hkey in Hb, Hb'. congruence.
Qed.

Lemma NoDup_execute o ranges :
  NoDup (range_offsets (ranges_row ranges)) → NoDup (range_offsets (ranges_col ranges)) →
  NoDup (range_offsets (ranges_batch ranges)) → NoDup (partition_execute o ranges).
Proof.
  intros Hr Hc Hb. destruct o; cbn [partition_execute].
  - apply (NoDup_bind_pairs _ (λ p, p.2)); [done| |set_solver]. intros b _.
    apply (NoDup_bind_pairs _ (λ p, p.1.1)); [done| |set_solver]. intros r _.
    apply (NoDup_bind_pairs _ (λ p, p.1.2)); [done| |set_solver]. intros c _. apply NoDup_singleton.
  - apply (NoDup_bind_pairs _ (λ p, p.2)); [done| |set_solver]. intros b _.
    apply (NoDup_bind_pairs _ (λ p, p.1.2)); [done| |set_solver]. intros c _.
    apply (NoDup_bind_pairs _ (λ p, p.1.1)); [done| |set_solver]. intros r _. apply NoDup_singleton.
Qed.

(** ** The tiling scheme and the span of a cube *)

Lemma partition_is_stages ts dim g pm :
  level_size ts GlobalPartition dim = Some g → count_1d ts Element GlobalPartition dim = Ret pm →
  ∃ sm, count_1d ts Element Stage dim = Ret sm ∧ pm = sm * g.
Proof.
  intros Hg. unfold count_1d.
  assert (try_count_1d ts Element GlobalPartition dim =
    some_product (try_count_1d ts Element Stage dim) (Ret (Some g))) as ->.
  { destruct dim; simpl in Hg; simplify_eq; reflexivity. }
  unfold some_product, try_bind. destruct (try_count_1d ts Element Stage dim) as [[sm|]| |]; cbn [obind]; try done.
  intros (o & (p & [-> _]%checked_mul_ret & [= <-])%obind_ret & [= <-])%obind_ret. by exists sm.
Qed.

(** The element [(row, col, batch)] is in the stage at the block's offsets. *)
Definition covers (stage_m stage_n : N) (blk e : N * N * N) : Prop :=
  let '(ro, co, bo) := blk in
  let '(row, col, batch) := e in
  (ro ≤ row < ro + stage_m) ∧ (co ≤ col < co + stage_n) ∧ bo = batch.

Lemma batch_offset (o v : N) : o = v ↔ o ≤ v < o + 1.
Proof. lia. Qed.

(** What one cube computes. *)
Lemma execute_at o ts cfg input t i j k sm sn gm gn :
  cube_pos_to_tensor_pos input t (hc_global_order cfg) = Ret (i, j, k) →
  elements_in_stage_m ts = Ret sm → elements_in_global_partition_m ts = Ret (sm * gm) →
  elements_in_stage_n ts = Ret sn → elements_in_global_partition_n ts = Ret (sn * gn) →
  0 < sm → 0 < sn →
  let gb := gps_batches (global_partition_size ts) in
  (i + 1) * (sm * gm) ≤ two32 → (j + 1) * (sn * gn) ≤ two32 → (k + 1) * gb ≤ two32 →
  ∃ blocks, PartitionedBatchMatmul_execute o ts cfg input t = Ret blocks ∧ NoDup blocks ∧
    ∀ blk row col batch, (blk ∈ blocks ∧ covers sm sn blk (row, col, batch)) ↔
      (0 < gm ∧ row / (sm * gm) = i) ∧ (0 < gn ∧ col / (sn * gn) = j) ∧ (0 < gb ∧ batch / gb = k) ∧
      blk = (row / sm * sm, col / sn * sn, batch).
Proof.
  intros Hpos Hsm Hpm Hsn Hpn Hm Hn gb Fi Fj Fk. unfold PartitionedBatchMatmul_execute.
  rewrite Hpos, Hsm, Hpm, Hsn, Hpn. cbn [obind]. rewrite !range_new_ok by done. cbn [obind].
  change (gps_batches (global_partition_size ts)) with gb. clearbody gb.
  replace (PartitionRangeDim_new k 1 gb) with (PartitionRangeDim_new k 1 (1 * gb)) by (by rewrite N.mul_1_l).
  rewrite range_new_ok by done. cbn [obind].
  rewrite <- (N.mul_1_l gb) in Fk.
  eexists. split; [done|]. split.
  - apply NoDup_execute; cbn [ranges_row ranges_col ranges_batch]; by apply NoDup_range_offsets.
  - intros [[ro co] bo] row col batch. rewrite elem_of_execute. cbn [ranges_row ranges_col ranges_batch covers].
    pose proof (covering_offset i sm gm Hm Fi ro row) as Crow.
    pose proof (covering_offset j sn gn Hn Fj co col) as Ccol.
    pose proof (covering_offset k 1 gb N.lt_0_1 Fk bo batch) as Cbatch.
    rewrite N.div_1_r, N.mul_1_r, N.mul_1_l in Cbatch. rewrite <- batch_offset in Cbatch.
    unfold range_at in *. split.
    + intros [(R & C & B) (HR & HC & HB)].
      apply (conj R), Crow in HR as (? & ? & ->). apply (conj C), Ccol in HC as (? & ? & ->).
      destruct (proj1 Cbatch (conj B HB)) as (? & ? & ->). done.
    + intros ([? ?] & [? ?] & [? ?] & [= -> -> ->]).
      destruct (proj2 Crow) as [R HR]; [done|]. destruct (proj2 Ccol) as [C HC]; [done|].
      destruct (proj2 Cbatch) as [B HB]; [done|]. done.
Qed.

(** ** All cubes together *)

(** A dimension of size [size] split into spans of [span] elements. *)
Lemma split_dim size span c :
  0 < span → 0 < size → size + span ≤ two32 → c = ceil_div (as_u32 size) span →
  0 < c ∧ (∀ v, v < size → v / span < c) ∧ (∀ i, i < c → (i + 1) * span ≤ two32).
Proof.
  intros Hs Hz Hfit ->. rewrite as_u32_small by lia. destruct (ceil_div_spec size span Hs) as [C1 C2].
  set (c := ceil_div size span) in *. split_and!.
  - nia.
  - intros v Hv. apply N.Div0.div_lt_upper_bound. lia.
  - intros i Hi. assert ((i + 1) * span ≤ c * span) by (apply N.mul_le_mono_r; lia). lia.
Qed.

Lemma build_span b sel :
  HypercubeSelection_build b = Ret sel →
  elements_in_global_partition_m (hsb_tiling_scheme b) = Ret (span_m (hs_cube_span sel)) ∧
  elements_in_global_partition_n (hsb_tiling_scheme b) = Ret (span_n (hs_cube_span sel)) ∧
  gps_batches (global_partition_size (hsb_tiling_scheme b)) = span_batch (hs_cube_span sel).
Proof.
  unfold HypercubeSelection_build.
  by intros (m & -> & (n & -> & (order & _ & [= <-])%obind_ret)%obind_ret)%obind_ret.
Qed.

Lemma to_config_cubes sel p max cfg :
  to_hypercube_config sel p max = Ret cfg → ∃ m n b, cubes_of (hs_cube_span sel) p = Ret (m, n, b).
Proof.
  intros (plan & extra & Hsel & _)%config_plan.
  apply from_selection_cubes in Hsel as (? & ? & ? & m & n & b & _ & ? & _). by exists m, n, b.
Qed.

Definition computes_once (o : PartitionOrder) (ts : TilingScheme) (cfg : HypercubeConfig)
    (plan : CubeCountPlan) (X Y Z sm sn : N) (e : N * N * N) : Prop :=
  ∃ t blocks blk, in_grid X Y Z t ∧ matmul o ts cfg (as_args plan) t = Ret (Some blocks) ∧
    NoDup blocks ∧ blk ∈ blocks ∧ covers sm sn blk e ∧
    ∀ t' blocks' blk', in_grid X Y Z t' → matmul o ts cfg (as_args plan) t' = Ret (Some blocks') →
      blk' ∈ blocks' → covers sm sn blk' e → t' = t ∧ blk' = blk.

Section Launch.
Context (o : PartitionOrder) (ts : TilingScheme) (cfg : HypercubeConfig) (plan : CubeCountPlan).
Context (X Y Z m n b sm sn gm gn gb : N).
Context (Hvisits : visits_once cfg (as_args plan) X Y Z m n b).
Context (Hsm : elements_in_stage_m ts = Ret sm) (Hsn : elements_in_stage_n ts = Ret sn).
Context (Hpm : elements_in_global_partition_m ts = Ret (sm * gm)).
Context (Hpn : elements_in_global_partition_n ts = Ret (sn * gn)).
Context (Hgb : gps_batches (global_partition_size ts) = gb).
Context (Hm0 : 0 < sm * gm) (Hn0 : 0 < sn * gn) (Hb0 : 0 < gb).
Context (Fm : ∀ i, i < m → (i + 1) * (sm * gm) ≤ two32).
Context (Fn : ∀ j, j < n → (j + 1) * (sn * gn) ≤ two32).
Context (Fb : ∀ k, k < b → (k + 1) * gb ≤ two32).

(** The blocks of a cube that does not terminate. *)
Lemma active_cube t :
  in_grid X Y Z t → surplus_cube cfg (as_args plan) t = Ret false →
  ∃ i j k blocks, cube_pos_to_tensor_pos (as_args plan) t (hc_global_order cfg) = Ret (i, j, k) ∧
    in_range m n b (i, j, k) ∧ matmul o ts cfg (as_args plan) t = Ret (Some blocks) ∧ NoDup blocks ∧
    ∀ blk row col batch, (blk ∈ blocks ∧ covers sm sn blk (row, col, batch)) ↔
      (row / (sm * gm), col / (sn * gn), batch / gb) = (i, j, k) ∧
      blk = (row / sm * sm, col / sn * sn, batch).
Proof using All.
  intros Hg Hs. destruct Hvisits as [Hv _]. destruct (Hv t Hg) as (stop & Hs' & Hpos).
  rewrite Hs in Hs'. injection Hs' as <-. destruct (Hpos eq_refl) as ([[i j] k] & Hp & Hr).
  pose proof Hr as (Hi & Hj & Hk).
  destruct (execute_at o ts cfg (as_args plan) t i j k sm sn gm gn Hp Hsm Hpm Hsn Hpn) as (blocks & He & Hd & Hcov);
    [lia|lia|by apply Fm|by apply Fn|rewrite Hgb; by apply Fb|].
  exists i, j, k, blocks. split_and!; try done.
  - unfold matmul. rewrite Hs. cbn [obind]. by rewrite He.
  - intros blk row col batch. rewrite Hcov, Hgb. split.
    + intros ([_ ->] & [_ ->] & [_ ->] & ->). done.
    + intros [[= <- <- <-] ->]. split_and!; try done; lia.
Qed.

Lemma launch_total t : in_grid X Y Z t → ∃ r, matmul o ts cfg (as_args plan) t = Ret r.
Proof using All.
  intros Hg. destruct Hvisits as [Hv _]. destruct (Hv t Hg) as ([] & Hs & _).
  - exists None. unfold matmul. by rewrite Hs.
  - destruct (active_cube t Hg Hs) as (i & j & k & blocks & _ & _ & Hm & _). by exists (Some blocks).
Qed.

Lemma matmul_some_active t blocks :
  matmul o ts cfg (as_args plan) t = Ret (Some blocks) →
  surplus_cube cfg (as_args plan) t = Ret false.
Proof using. unfold matmul. intros ([] & Hs & Hr)%obind_ret; [done|done]. Qed.

Lemma launch_computes_once row col batch :
  in_range m n b (row / (sm * gm), col / (sn * gn), batch / gb) →
  computes_once o ts cfg plan X Y Z sm sn (row, col, batch).
Proof using All.
  intros Hr. destruct Hvisits as [_ Hv]. destruct (Hv _ Hr) as (t & Hg & Hs & Hp & Huniq).
  destruct (active_cube t Hg Hs) as (i & j & k & blocks & Hp' & _ & Hmat & Hd & Hcov).
  rewrite Hp in Hp'. injection Hp' as <- <- <-.
  destruct (proj2 (Hcov (row / sm * sm, col / sn * sn, batch) row col batch)) as [Hin Hc]; [done|].
  exists t, blocks, (row / sm * sm, col / sn * sn, batch). split_and!; try done; [apply Hc..|].
  intros t' blocks' blk' Hg' Hmat' Hin' Hc'. pose proof (matmul_some_active t' blocks' Hmat') as Hs'.
  destruct (active_cube t' Hg' Hs') as (i & j & k & bl & Hp' & _ & Hmat2 & _ & Hcov').
  rewrite Hmat' in Hmat2. injection Hmat2 as <-.
  destruct (proj1 (Hcov' blk' row col batch) (conj Hin' Hc')) as [Heq ->].
  split; [|done]. apply Huniq; [done|done|]. by rewrite Hp', Heq.
Qed.
End Launch.

(** C20. A partitioned matmul computes every element of its output exactly
    once: for a selection built from a tiling scheme, any plan, traversal order
    and order inside the partitions, no cube of the launched grid panics, and
    every row, column and batch of the output lies in exactly one block of
    exactly one cube. *)
Theorem output_computed_once o bld sel p max cfg nb :
  HypercubeSelection_build bld = Ret sel →
  to_hypercube_config sel p max = Ret cfg →
  HypercubeConfig_validate cfg p = Ret (inl tt) →
  num_batches p = Ret nb →
  0 < prob_m p → 0 < prob_n p → 0 < nb →
  prob_m p + span_m (hs_cube_span sel) ≤ two32 → prob_n p + span_n (hs_cube_span sel) ≤ two32 →
  nb + span_batch (hs_cube_span sel) ≤ two32 →
  ∃ plan X Y Z sm sn, cube_count_plan cfg p max = Ret plan ∧
    resolve plan = Ret (CountStatic X Y Z) ∧
    elements_in_stage_m (hsb_tiling_scheme bld) = Ret sm ∧
    elements_in_stage_n (hsb_tiling_scheme bld) = Ret sn ∧
    (∀ t, in_grid X Y Z t → ∃ r, matmul o (hsb_tiling_scheme bld) cfg (as_args plan) t = Ret r) ∧
    ∀ row col batch, row < prob_m p → col < prob_n p → batch < nb →
      computes_once o (hsb_tiling_scheme bld) cfg plan X Y Z sm sn (row, col, batch).
Proof.
  intros Hbuild Hcfg Hval Hnb Hm Hn Hb Fm Fn Fb.
  destruct (build_span _ _ Hbuild) as (Hpm & Hpn & Hgb).
  destruct (to_config_cubes _ _ _ _ Hcfg) as (m & n & b & Hcubes).
  destruct (cubes_of_ret _ _ _ _ _ Hcubes) as (nb' & Hnb' & Sm & Sn & Sb & Em & En & Eb).
  rewrite Hnb in Hnb'. injection Hnb' as <-.
  destruct (split_dim _ _ _ Sm Hm Fm Em) as (m0 & Rm & Bm).
  destruct (split_dim _ _ _ Sn Hn Fn En) as (n0 & Rn & Bn).
  destruct (split_dim _ _ _ Sb Hb Fb Eb) as (b0 & Rb & Bb).
  destruct (plan_visits_once _ _ _ _ _ _ _ Hcfg Hval Hcubes m0 n0 b0) as (plan & X & Y & Z & Hplan & Hres & Hv).
  destruct (partition_is_stages _ DimM _ _ eq_refl Hpm) as (sm & Hsm & Esm).
  destruct (partition_is_stages _ DimN _ _ eq_refl Hpn) as (sn & Hsn & Esn).
  rewrite Esm in Hpm, Sm, Rm, Bm. rewrite Esn in Hpn, Sn, Rn, Bn.
  exists plan, X, Y, Z, sm, sn. split_and!; try done.
  - intros t Hg. by eapply launch_total.
  - intros row col batch Hrow Hcol Hbatch. eapply launch_computes_once; try done.
    split_and!; [by apply Rm|by apply Rn|by apply Rb].
Qed.

Module CoverageDemo.
Definition builder : HypercubeSelectionBuilder :=
  builder_cube_count_plan
    (builder_global_order (HypercubeSelection_builder demo_scheme) (SwizzleRow 1000 2))
    (SelSm false 20 Full).

Lemma output_computed_once_witness :
  ∃ plan X Y Z sm sn, cube_count_plan HypercubeProps.Demo.config HypercubeProps.Demo.problem HypercubeProps.Demo.limits = Ret plan ∧
    resolve plan = Ret (CountStatic X Y Z) ∧
    elements_in_stage_m demo_scheme = Ret sm ∧ elements_in_stage_n demo_scheme = Ret sn ∧
    (∀ t, in_grid X Y Z t → ∃ r,
       matmul PartitionColMajor demo_scheme HypercubeProps.Demo.config (as_args plan) t = Ret r) ∧
    ∀ row col batch, row < 1000 → col < 300 → batch < 6 →
      computes_once PartitionColMajor demo_scheme HypercubeProps.Demo.config plan X Y Z sm sn (row, col, batch).
Proof.
  by apply (output_computed_once PartitionColMajor builder HypercubeProps.Demo.selection HypercubeProps.Demo.problem
    HypercubeProps.Demo.limits HypercubeProps.Demo.config 6).
Defined.
End CoverageDemo.
