(* ===== verification/StageLayout.v ===== *)
(** * Tiles in shared memory

    Model of [crates/cubecl-matmul/src/components/stage/memory/layout.rs],
    [stage_memory.rs] (the size of the allocation), [reader.rs] and of the
    tiles of [tile/tile_data.rs].  Values known when the kernel is compiled are
    computed on the host with overflow checks; the coordinates of a tile are
    device values.

    Both layouts address, for every tile of every buffer, lines inside the
    allocation, and different coordinates are different lines. *)

From S2P Require Import Prelude DeviceNum Tiling.

Open Scope N_scope.
Open Scope rust_scope.

(** What the traits [StageMemoryConfig] and [TileConfig] provide. *)
Record TileConfig := {
  tc_matrix_layout : StageIdent → MatrixLayout;
  tc_stage_line_size : StageIdent → N;
  tc_tile_size : Size3;
}.
Record StageMemoryConfig := {
  smc_tile_config : TileConfig;
  smc_num_main_flow_planes : N;
  smc_tiling_scheme : TilingScheme;
  smc_stage_line_size : StageIdent → N;
  smc_matrix_layout : StageIdent → MatrixLayout;
  smc_num_stages : StageIdent → N;
}.

(** ** The order of the tiles *)

Inductive TilingOrderEnum := TORowMajor | TOColMajor | TOOrdered | TOTma.

(** What an implementation of [TilingOrder] provides. *)
Record TilingOrder := {
  to_row_col : N → N → N → StageIdent → StageMemoryConfig → outcome (N * N);
  to_nth_tile : N → N → N → N → StageIdent → StageMemoryConfig → outcome N;
  to_enum : TilingOrderEnum;
}.

Definition RowMajor_to_row_col (nth _tile_count_rows tile_count_cols : N) (_ident : StageIdent)
    (_config : StageMemoryConfig) : outcome (N * N) :=
  Ret (nth / tile_count_cols, nth mod tile_count_cols).
Definition RowMajor_to_nth_tile (row col _tile_count_rows tile_count_cols : N) (_ident : StageIdent)
    (_config : StageMemoryConfig) : outcome N :=
  Ret (wadd (wmul row tile_count_cols) col).
Definition RowMajorTilingOrder : TilingOrder :=
  {| to_row_col := RowMajor_to_row_col; to_nth_tile := RowMajor_to_nth_tile; to_enum := TORowMajor |}.

Definition ColMajor_to_row_col (nth num_rows _num_cols : N) (_ident : StageIdent)
    (_config : StageMemoryConfig) : outcome (N * N) :=
  Ret (nth mod num_rows, nth / num_rows).
Definition ColMajor_to_nth_tile (row col tile_count_rows _tile_count_cols : N) (_ident : StageIdent)
    (_config : StageMemoryConfig) : outcome N :=
  Ret (wadd (wmul col tile_count_rows) row).
Definition ColMajorTilingOrder : TilingOrder :=
  {| to_row_col := ColMajor_to_row_col; to_nth_tile := ColMajor_to_nth_tile; to_enum := TOColMajor |}.

Definition lhs_only (ident : StageIdent) : outcome unit :=
  if bool_decide (StageLhs ≠ ident) then Panic "Ordered tiling order should be used only on Lhs"
  else Ret tt.

Definition Ordered_to_row_col (nth tile_count_rows tile_count_cols : N) (ident : StageIdent)
    (config : StageMemoryConfig) : outcome (N * N) :=
  let? _ := lhs_only ident in
  let? group_rows := checked_div tile_count_rows (smc_num_main_flow_planes config) in
  let? tiles_per_group := checked_mul u32_max group_rows tile_count_cols in
  let group := nth / tiles_per_group in
  let pos_within_group := nth mod tiles_per_group in
  let local_row := pos_within_group mod group_rows in
  let row := wadd (wmul group group_rows) local_row in
  let col := pos_within_group / group_rows in
  Ret (row, col).
Definition Ordered_to_nth_tile (row col tile_count_rows tile_count_cols : N) (ident : StageIdent)
    (config : StageMemoryConfig) : outcome N :=
  let? _ := lhs_only ident in
  let? group_rows := checked_div tile_count_rows (smc_num_main_flow_planes config) in
  let group := row / group_rows in
  let local_row := row mod group_rows in
  let? tiles_per_group := checked_mul u32_max group_rows tile_count_cols in
  let pos_within_group := wadd (wmul col group_rows) local_row in
  Ret (wadd (wmul group tiles_per_group) pos_within_group).
Definition OrderedTilingOrder : TilingOrder :=
  {| to_row_col := Ordered_to_row_col; to_nth_tile := Ordered_to_nth_tile; to_enum := TOOrdered |}.

(** ** Tiles *)

(** A slice of the shared memory and how its lines are addressed. *)
Record TileView := {
  tv_start : N;
  tv_end : N;
  tv_stride : N;
  tv_layout : MatrixLayout;
}.

Definition Tile_new_contiguous (start end_ : N) (ident : StageIdent) (config : TileConfig) :
    outcome TileView :=
  let layout := tc_matrix_layout config ident in
  let? size :=
    match ident, layout with
    | StageLhs, LayoutRowMajor => Ret (size_get (tc_tile_size config) DimK)
    | StageLhs, LayoutColMajor => Ret (size_get (tc_tile_size config) DimM)
    | StageRhs, LayoutRowMajor => Ret (size_get (tc_tile_size config) DimN)
    | StageRhs, LayoutColMajor => Ret (size_get (tc_tile_size config) DimK)
    | StageAcc, _ => Panic "internal error: entered unreachable code"
    end in
  let? stride := checked_div size (tc_stage_line_size config ident) in
  Ret {| tv_start := start; tv_end := end_; tv_stride := stride; tv_layout := layout |}.

Definition Tile_new_strided (start end_ stride : N) (layout : MatrixLayout) : TileView :=
  {| tv_start := start; tv_end := end_; tv_stride := stride; tv_layout := layout |}.

(** [get_line]: the line of the shared memory that is read. *)
Definition Tile_get_line (t : TileView) (coor_strided coor_contiguous : N) : N :=
  wadd (tv_start t) (wadd (wmul coor_strided (tv_stride t)) coor_contiguous).

(** ** Layouts *)

(** [StageMemory::new]: the number of lines allocated. *)
Definition StageMemory_new (num_stages : N) (ident : StageIdent) (config : StageMemoryConfig) :
    outcome N :=
  let? elements := elements_in_stage (smc_tiling_scheme config) ident in
  let? total := checked_mul u32_max num_stages elements in
  checked_div total (smc_stage_line_size config ident).

Definition to_x_y (T : TilingOrder) (nth : N) (ident : StageIdent) (config : StageMemoryConfig) :
    outcome (N * N) :=
  let? num_x := tiles_in_stage_row (smc_tiling_scheme config) ident in
  let? num_y := tiles_in_stage_col (smc_tiling_scheme config) ident in
  to_row_col T nth num_x num_y ident config.

(** The offsets of a buffer and the number of tiles of all buffers. *)
Definition buffer_geometry (buffer_index : N) (ident : StageIdent) (config : StageMemoryConfig) :
    outcome (N * N * N * N) :=
  let ts := smc_tiling_scheme config in
  match ident with
  | StageLhs =>
      let? cols := tiles_in_stage_col ts ident in
      let? y_tile_offset := checked_mul u32_max cols buffer_index in
      let? total_tile_count_x := tiles_in_stage_row ts ident in
      let? total_tile_count_y := checked_mul u32_max cols (smc_num_stages config StageLhs) in
      Ret (0, y_tile_offset, total_tile_count_x, total_tile_count_y)
  | StageRhs =>
      let? rows := tiles_in_stage_row ts ident in
      let? x_tile_offset := checked_mul u32_max rows buffer_index in
      let? total_tile_count_x := checked_mul u32_max rows (smc_num_stages config StageRhs) in
      let? total_tile_count_y := tiles_in_stage_col ts ident in
      Ret (x_tile_offset, 0, total_tile_count_x, total_tile_count_y)
  | StageAcc => Panic "internal error: entered unreachable code"
  end.

(** The size of a tile in lines along both dimensions. *)
Definition tile_lines (ident : StageIdent) (config : StageMemoryConfig) : outcome (N * N) :=
  let ts := smc_tiling_scheme config in
  let? rows := elements_in_tile_row ts ident in
  let? cols := elements_in_tile_col ts ident in
  match smc_matrix_layout config ident with
  | LayoutRowMajor =>
      let? tile_size_y := checked_div cols (smc_stage_line_size config ident) in
      Ret (rows, tile_size_y)
  | LayoutColMajor =>
      let? tile_size_x := checked_div rows (smc_stage_line_size config ident) in
      Ret (tile_size_x, cols)
  end.

(** [(outer - 1) * stride + inner]. *)
Definition slice_length (outer inner stride : N) : outcome N :=
  let? o := checked_sub outer 1 in
  let? l := checked_mul u32_max o stride in
  checked_add u32_max l inner.

Definition Contiguous_get_tile (TO : TilingOrder) (row col buffer_index : N) (ident : StageIdent)
    (config : StageMemoryConfig) : outcome TileView :=
  let? '(row_buffer_offset, col_buffer_offset, total_tile_count_row, total_tile_count_col) :=
    buffer_geometry buffer_index ident config in
  let? '(tile_size_x, tile_size_y) := tile_lines ident config in
  let? tile_slice_length :=
    match smc_matrix_layout config ident with
    | LayoutRowMajor =>
        let? stride_x := checked_mul u32_max tile_size_y total_tile_count_col in
        slice_length tile_size_x tile_size_y stride_x
    | LayoutColMajor =>
        let? stride_y := checked_mul u32_max tile_size_x total_tile_count_row in
        slice_length tile_size_y tile_size_x stride_y
    end in
  let? nth := to_nth_tile TO (wadd row row_buffer_offset) (wadd col col_buffer_offset)
                total_tile_count_row total_tile_count_col ident config in
  let? tile_size := checked_mul u32_max tile_size_x tile_size_y in
  let start := wmul tile_size nth in
  Tile_new_contiguous start (wadd start tile_slice_length) ident (smc_tile_config config).

(** [StridedTilingLayout::nth_slice]: the bounds of the slice. *)
Definition Strided_nth_slice (nth : N) (ident : StageIdent) (config : StageMemoryConfig) :
    outcome (N * N) :=
  let? elements :=
    match smc_matrix_layout config ident with
    | LayoutRowMajor => elements_in_stage_col (smc_tiling_scheme config) ident
    | LayoutColMajor => elements_in_stage_row (smc_tiling_scheme config) ident
    end in
  let? slice_length := checked_div elements (smc_stage_line_size config ident) in
  let start := wmul slice_length nth in
  Ret (start, wadd start slice_length).

Definition Strided_get_tile (x y _buffer_index : N) (ident : StageIdent)
    (config : StageMemoryConfig) : outcome TileView :=
  if 1 <? smc_num_stages config ident then Panic "not implemented"
  else
    let? tile_count_x := tiles_in_stage_row (smc_tiling_scheme config) ident in
    let? tile_count_y := tiles_in_stage_col (smc_tiling_scheme config) ident in
    let? '(tile_size_x, tile_size_y) := tile_lines ident config in
    match smc_matrix_layout config ident with
    | LayoutRowMajor =>
        let? stride := checked_mul u32_max tile_count_y tile_size_y in
        let? length := slice_length tile_size_x tile_size_y stride in
        let start := wadd (wmul (wmul x tile_size_x) stride) (wmul y tile_size_y) in
        Ret (Tile_new_strided start (wadd start length) stride LayoutRowMajor)
    | LayoutColMajor =>
        let? stride := checked_mul u32_max tile_count_x tile_size_x in
        let? length := slice_length tile_size_y tile_size_x stride in
        let start := wadd (wmul x tile_size_x) (wmul (wmul y tile_size_y) stride) in
        Ret (Tile_new_strided start (wadd start length) stride LayoutColMajor)
    end.

(** ** The orders are bijections *)

Definition order_usable (TO : TilingOrder) (rows : N) (ident : StageIdent)
    (config : StageMemoryConfig) : Prop :=
  TO = RowMajorTilingOrder ∨ TO = ColMajorTilingOrder ∨
  (TO = OrderedTilingOrder ∧ ident = StageLhs ∧ 0 < smc_num_main_flow_planes config ∧
   (smc_num_main_flow_planes config | rows)).

Lemma ordered_group planes g cols :
  0 < planes → g * cols ≤ u32_max →
  checked_div (g * planes) planes = Ret g ∧ checked_mul u32_max g cols = Ret (g * cols).
Proof.
  intros Hp Hg. rewrite checked_div_ok, N.div_mul by lia. by rewrite checked_mul_ok.
Qed.

Lemma to_nth_tile_ok TO rows cols ident config r c :
  order_usable TO rows ident config → rows * cols < two32 → r < rows → c < cols →
  ∃ nth, to_nth_tile TO r c rows cols ident config = Ret nth ∧ nth < rows * cols ∧
    to_row_col TO nth rows cols ident config = Ret (r, c).
Proof.
  intros Hok Hfit Hr Hc. destruct Hok as [->|[->|(-> & -> & Hp & [g Hg])]].
  - pose proof (radix_lt cols rows r c Hr Hc) as Hlt. destruct (radix_div_mod cols r c Hc) as [D M].
    simpl. unfold RowMajor_to_nth_tile, RowMajor_to_row_col.
    rewrite (wmul_small r cols), wadd_small by lia. exists (r * cols + c). by rewrite D, M.
  - pose proof (radix_lt rows cols c r Hc Hr) as Hlt. destruct (radix_div_mod rows c r Hr) as [D M].
    simpl. unfold ColMajor_to_nth_tile, ColMajor_to_row_col.
    rewrite (wmul_small c rows), wadd_small by lia. exists (c * rows + r). rewrite D, M. split_and!; [done|lia|done].
  - set (planes := smc_num_main_flow_planes config) in *. subst rows.
    assert (0 < g) as Hg0 by nia. destruct (div_mod_ex r g Hg0) as (q & l & Eq & El & Hrq & Hl).
    assert (q < planes) as Hq by (apply (N.mul_lt_mono_pos_r g); lia).
    assert (g * cols ≤ u32_max) as Hgc by (unfold two32, u32_max in *; nia).
    destruct (ordered_group planes g cols Hp Hgc) as [E1 E2].
    pose proof (radix_lt g cols c l Hc Hl) as L1. pose proof (radix_lt (g * cols) planes q (c * g + l) Hq ltac:(lia)) as L2.
    destruct (radix_div_mod (g * cols) q (c * g + l) ltac:(lia)) as [D1 M1].
    destruct (radix_div_mod g c l Hl) as [D2 M2].
    simpl. unfold Ordered_to_nth_tile, Ordered_to_row_col, lhs_only. fold planes.
    rewrite bool_decide_false by (by intros []). cbn [obind]. rewrite E1. cbn [obind]. rewrite E2. cbn [obind].
    rewrite Eq, El. rewrite (wmul_small c g), (wadd_small (c * g) l) by lia.
    rewrite (wmul_small q (g * cols)), wadd_small by lia.
    eexists. split; [done|]. split; [lia|]. rewrite D1, M1, D2, M2.
    assert (g * planes < two32) by nia.
    rewrite (wmul_small q g), wadd_small by lia. do 2 f_equal. lia.
Qed.

Lemma to_row_col_ok TO rows cols ident config nth :
  order_usable TO rows ident config → rows * cols < two32 → nth < rows * cols →
  ∃ r c, to_row_col TO nth rows cols ident config = Ret (r, c) ∧ r < rows ∧ c < cols ∧
    to_nth_tile TO r c rows cols ident config = Ret nth.
Proof.
  intros Hok Hfit Hn.
  assert (∃ r c, to_row_col TO nth rows cols ident config = Ret (r, c) ∧ r < rows ∧ c < cols ∧
    ∀ r' c' n', r' = r → c' = c → to_nth_tile TO r' c' rows cols ident config = Ret n' → n' = nth) as
    (r & c & H1 & Hr & Hc & H2).
  { destruct Hok as [->|[->|(-> & -> & Hp & [g Hg])]].
    - assert (0 < cols) as Hc by nia. simpl. unfold RowMajor_to_row_col, RowMajor_to_nth_tile.
      destruct (div_mod_ex nth cols Hc) as (q & l & -> & -> & Hq & Hl). exists q, l.
      split_and!; [done|apply (N.mul_lt_mono_pos_r cols); lia|done|].
      intros ? ? ? -> -> [= <-]. rewrite (wmul_small q cols), wadd_small by lia. lia.
    - assert (0 < rows) as Hr by nia. simpl. unfold ColMajor_to_row_col, ColMajor_to_nth_tile.
      destruct (div_mod_ex nth rows Hr) as (q & l & -> & -> & Hq & Hl). exists l, q.
      split_and!; [done|done|apply (N.mul_lt_mono_pos_r rows); lia|].
      intros ? ? ? -> -> [= <-]. rewrite (wmul_small q rows), wadd_small by lia. lia.
    - set (planes := smc_num_main_flow_planes config) in *. subst rows.
      assert (0 < g) as Hg0 by nia. assert (0 < g * cols) as Hgc0 by nia.
      assert (g * cols ≤ u32_max) as Hgc by (unfold two32, u32_max in *; nia).
      destruct (ordered_group planes g cols Hp Hgc) as [E1 E2].
      destruct (div_mod_ex nth (g * cols) Hgc0) as (q & p & D1 & M1 & Hq & Hpp).
      destruct (div_mod_ex p g Hg0) as (c & l & D2 & M2 & Hcl & Hl).
      assert (q < planes) as Hqp by (apply (N.mul_lt_mono_pos_r (g * cols)); lia).
      pose proof (radix_lt g planes q l Hqp Hl) as L1. destruct (radix_div_mod g q l Hl) as [D3 M3].
      simpl. unfold Ordered_to_nth_tile, Ordered_to_row_col, lhs_only. fold planes.
      rewrite bool_decide_false by (by intros []). cbn [obind]. rewrite E1. cbn [obind]. rewrite E2. cbn [obind].
      assert (0 < cols) as Hc0 by nia.
      assert (g * planes * 1 ≤ g * planes * cols) by (apply N.mul_le_mono_l; lia).
      rewrite D1, M1, D2, M2, (wmul_small q g), wadd_small by lia.
      exists (q * g + l), c. split_and!; [done|lia|apply (N.mul_lt_mono_pos_r g); lia|].
      intros ? ? ? -> -> [= <-]. rewrite D3, M3.
      rewrite (wmul_small c g), (wadd_small (c * g) l) by lia.
      rewrite (wmul_small q (g * cols)), wadd_small by lia. lia. }
  exists r, c. split_and!; try done.
  destruct (to_nth_tile_ok TO rows cols ident config r c Hok Hfit Hr Hc) as (n' & Hn' & _).
  by rewrite (H2 r c n' eq_refl eq_refl Hn') in Hn'.
Qed.

(** ** Counts of a well-formed scheme *)

Definition row_dim (ident : StageIdent) : MatmulDim :=
  match ident with StageRhs => DimK | _ => DimM end.
Definition col_dim (ident : StageIdent) : MatmulDim :=
  match ident with StageLhs => DimK | _ => DimN end.

Definition tiles_along (ts : TilingScheme) (dim : MatmulDim) : N :=
  size_get (stage_size ts) dim * size_get (partition_size ts) dim.

Section Counts.
Context (ts : TilingScheme) (ident : StageIdent) (Hwf : scheme_wf ts).

Lemma count_inner child parent dim c :
  parent ≠ GlobalPartition → count_spec ts child parent dim = Some c →
  count_1d ts child parent dim = Ret c.
Proof using Hwf. intros Hp Hc. unfold count_1d. by rewrite try_count_inner, Hc. Qed.

Lemma spec_tiles dim : count_spec ts Tile Stage dim = Some (tiles_along ts dim).
Proof using.
  unfold tiles_along. trans (Some (size_get (stage_size ts) dim * (size_get (partition_size ts) dim * 1))).
  - by destruct dim.
  - f_equal. lia.
Qed.
Lemma spec_tile dim : count_spec ts Element Tile dim = Some (size_get (tile_size ts) dim).
Proof using. trans (Some (size_get (tile_size ts) dim * 1)); [by destruct dim|f_equal; lia]. Qed.
Lemma spec_elements dim :
  count_spec ts Element Stage dim = Some (tiles_along ts dim * size_get (tile_size ts) dim).
Proof using.
  unfold tiles_along. trans (Some (size_get (stage_size ts) dim *
    (size_get (partition_size ts) dim * (size_get (tile_size ts) dim * 1)))).
  - by destruct dim.
  - f_equal. lia.
Qed.

Lemma tiles_row_ok : tiles_in_stage_row ts ident = Ret (tiles_along ts (row_dim ident)).
Proof using Hwf. destruct ident; apply count_inner; try done; apply spec_tiles. Qed.
Lemma tiles_col_ok : tiles_in_stage_col ts ident = Ret (tiles_along ts (col_dim ident)).
Proof using Hwf. destruct ident; apply count_inner; try done; apply spec_tiles. Qed.
Lemma tile_row_ok : elements_in_tile_row ts ident = Ret (size_get (tile_size ts) (row_dim ident)).
Proof using Hwf. destruct ident; apply count_inner; try done; apply spec_tile. Qed.
Lemma tile_col_ok : elements_in_tile_col ts ident = Ret (size_get (tile_size ts) (col_dim ident)).
Proof using Hwf. destruct ident; apply count_inner; try done; apply spec_tile. Qed.

Lemma elements_in_stage_ret e :
  elements_in_stage ts ident = Ret e →
  e = tiles_along ts (row_dim ident) * size_get (tile_size ts) (row_dim ident) *
      (tiles_along ts (col_dim ident) * size_get (tile_size ts) (col_dim ident)).
Proof using Hwf.
  assert (∀ d1 d2, count_2d ts Element Stage d1 d2 = Ret e →
    e = tiles_along ts d1 * size_get (tile_size ts) d1 * (tiles_along ts d2 * size_get (tile_size ts) d2)) as H2.
  { intros d1 d2. unfold count_2d, try_count_2d. rewrite !try_count_inner, !spec_elements by done.
    unfold some_product. cbn [try_bind obind]. unfold checked_mul.
    destruct (_ <=? _); cbn [obind]; [|done]. by intros [= <-]. }
  unfold elements_in_stage, count_2d_ident, row_dim, col_dim. destruct ident; apply H2.
Qed.
End Counts.

(** ** The hypotheses on a configuration *)

(** The tile configuration agrees with the stage, and the line size divides
    the contiguous dimension of a tile. *)
Definition config_ok (config : StageMemoryConfig) (ident : StageIdent) (a b : N) : Prop :=
  let ts := smc_tiling_scheme config in
  let er := size_get (tile_size ts) (row_dim ident) in
  let ec := size_get (tile_size ts) (col_dim ident) in
  let line := smc_stage_line_size config ident in
  scheme_wf ts ∧ ident ≠ StageAcc ∧ 0 < line ∧
  tc_matrix_layout (smc_tile_config config) ident = smc_matrix_layout config ident ∧
  tc_stage_line_size (smc_tile_config config) ident = line ∧
  tc_tile_size (smc_tile_config config) = tile_size ts ∧
  match smc_matrix_layout config ident with
  | LayoutRowMajor => er = a ∧ ec = b * line
  | LayoutColMajor => er = a * line ∧ ec = b
  end.

(** The lengths of a tile along the strided and the contiguous dimension. *)
Definition outer_len (layout : MatrixLayout) (a b : N) : N :=
  match layout with LayoutRowMajor => a | LayoutColMajor => b end.
Definition inner_len (layout : MatrixLayout) (a b : N) : N :=
  match layout with LayoutRowMajor => b | LayoutColMajor => a end.

Lemma checked_div_exact q d : 0 < d → checked_div (q * d) d = Ret q.
Proof. intros Hd. by rewrite checked_div_ok, N.div_mul by lia. Qed.

Section Layout.
Context (config : StageMemoryConfig) (ident : StageIdent) (a b : N).
Context (Hok : config_ok config ident a b).
Let R := tiles_along (smc_tiling_scheme config) (row_dim ident).
Let C := tiles_along (smc_tiling_scheme config) (col_dim ident).
Let layout := smc_matrix_layout config ident.

Lemma tile_lines_ok : tile_lines ident config = Ret (a, b).
Proof using Hok.
  destruct Hok as (Hwf & _ & Hl & _ & _ & _ & Hdims). unfold tile_lines.
  rewrite tile_row_ok, tile_col_ok by done. cbn [obind].
  destruct (smc_matrix_layout config ident), Hdims as [-> ->]; by rewrite checked_div_exact.
Qed.

Lemma contiguous_stride start end_ :
  Tile_new_contiguous start end_ ident (smc_tile_config config) =
    Ret {| tv_start := start; tv_end := end_; tv_stride := inner_len layout a b; tv_layout := layout |}.
Proof using Hok.
  destruct Hok as (_ & Hacc & Hl & Hlay & Hline & Hsize & Hdims). unfold Tile_new_contiguous, layout, inner_len.
  rewrite Hlay, Hline, Hsize. destruct ident, (smc_matrix_layout config _), Hdims as [E1 E2]; try done;
    cbn [row_dim col_dim obind] in *; rewrite ?E1, ?E2; by rewrite checked_div_exact.
Qed.

(** The allocation holds exactly the lines of all tiles. *)
Lemma allocated_lines num_stages len :
  StageMemory_new num_stages ident config = Ret len →
  len = num_stages * (R * C) * (a * b) ∧ len ≤ u32_max.
Proof using Hok.
  destruct Hok as (Hwf & _ & Hl & _ & _ & _ & Hdims). unfold StageMemory_new.
  destruct (elements_in_stage _ ident) as [e| |] eqn:He; try done. cbn [obind].
  apply elements_in_stage_ret in He; [|done]. fold R C in He. unfold checked_mul.
  destruct (N.leb_spec (num_stages * e) u32_max) as [Hle|]; [|done]. cbn [obind].
  set (line := smc_stage_line_size config ident) in *.
  assert (num_stages * e = num_stages * (R * C) * (a * b) * line) as Heq.
  { rewrite He. destruct (smc_matrix_layout config ident), Hdims as [-> ->]; lia. }
  rewrite Heq in *. rewrite checked_div_exact by done. intros [= <-]. split; [done|]. nia.
Qed.
End Layout.

(** The offset inside a tile. *)
Lemma get_line_ok t cs cc :
  tv_start t + (cs * tv_stride t + cc) < two32 →
  Tile_get_line t cs cc = tv_start t + (cs * tv_stride t + cc).
Proof.
  intros H. unfold Tile_get_line. rewrite (wmul_small cs), (wadd_small (cs * _)), wadd_small by lia. done.
Qed.

Lemma slice_length_ok outer inner stride :
  0 < outer → inner ≤ stride → outer * stride ≤ u32_max →
  slice_length outer inner stride = Ret ((outer - 1) * stride + inner).
Proof.
  intros Ho Hi Hmax. unfold slice_length. rewrite checked_sub_ok by lia. cbn [obind].
  assert ((outer - 1) * stride + stride = outer * stride) by nia.
  rewrite checked_mul_ok by lia. cbn [obind]. by rewrite checked_add_ok by lia.
Qed.

(** ** Contiguous layout *)

(** The number of tiles of all [S] buffers along the rows and the columns, and
    the position of a tile of one buffer among them. *)
Definition total_rows (ident : StageIdent) (R S : N) : N :=
  match ident with StageRhs => R * S | _ => R end.
Definition total_cols (ident : StageIdent) (C S : N) : N :=
  match ident with StageLhs => C * S | _ => C end.
Definition buffer_row (ident : StageIdent) (R buf row : N) : N :=
  match ident with StageRhs => row + R * buf | _ => row end.
Definition buffer_col (ident : StageIdent) (C buf col : N) : N :=
  match ident with StageLhs => col + C * buf | _ => col end.

Lemma buffer_bounds ident R C S buf row col :
  buf < S → row < R → col < C →
  buffer_row ident R buf row < total_rows ident R S ∧ buffer_col ident C buf col < total_cols ident C S.
Proof.
  intros Hbuf Hr Hc. unfold buffer_row, buffer_col, total_rows, total_cols. destruct ident; split; try done.
  - pose proof (radix_lt C S buf col Hbuf Hc). lia.
  - pose proof (radix_lt R S buf row Hbuf Hr). lia.
Qed.

Lemma buffer_inj ident R C buf row col buf' row' col' :
  row < R → col < C → row' < R → col' < C → ident ≠ StageAcc →
  buffer_row ident R buf row = buffer_row ident R buf' row' →
  buffer_col ident C buf col = buffer_col ident C buf' col' →
  buf = buf' ∧ row = row' ∧ col = col'.
Proof.
  unfold buffer_row, buffer_col. intros Hr Hc Hr' Hc' Hi E1 E2. destruct ident; [| |done].
  - destruct (radix_inj C buf col buf' col') as [-> ->]; [done|done|lia|done].
  - destruct (radix_inj R buf row buf' row') as [-> ->]; [done|done|lia|done].
Qed.

Lemma total_tiles ident R C S :
  ident ≠ StageAcc → total_rows ident R S * total_cols ident C S = R * C * S.
Proof. intros Hi. destruct ident; simpl; [lia|lia|done]. Qed.

Lemma geometry_ok config ident R C S buf :
  scheme_wf (smc_tiling_scheme config) → ident ≠ StageAcc →
  R = tiles_along (smc_tiling_scheme config) (row_dim ident) →
  C = tiles_along (smc_tiling_scheme config) (col_dim ident) →
  S = smc_num_stages config ident →
  buf < S → 0 < R → 0 < C → R * C * S ≤ u32_max →
  ∃ ro co, buffer_geometry buf ident config = Ret (ro, co, total_rows ident R S, total_cols ident C S) ∧
    (∀ row, row < R → wadd row ro = buffer_row ident R buf row) ∧
    (∀ col, col < C → wadd col co = buffer_col ident C buf col).
Proof.
  intros Hwf Hacc ER EC ES Hbuf HR HC Hmax. unfold u32_max in *.
  assert (R * S ≤ 4294967295 ∧ C * S ≤ 4294967295 ∧ R ≤ 4294967295 ∧ C ≤ 4294967295) as (B1 & B2 & B3 & B4).
  { assert (R * S * 1 ≤ R * S * C) by (apply N.mul_le_mono_l; lia).
    assert (C * S * 1 ≤ C * S * R) by (apply N.mul_le_mono_l; lia). split_and!; nia. }
  assert (R * buf + R ≤ R * S ∧ C * buf + C ≤ C * S) as (B5 & B6) by (split; nia).
  pose proof (tiles_row_ok (smc_tiling_scheme config) ident Hwf) as Tr.
  pose proof (tiles_col_ok (smc_tiling_scheme config) ident Hwf) as Tc. rewrite <- ER in Tr. rewrite <- EC in Tc.
  clear ER EC. destruct ident; [| |done]; cbn [buffer_geometry]; rewrite Tr, Tc, <- ES; cbn [obind];
    rewrite !checked_mul_ok by (unfold u32_max; lia); cbn [obind]; do 2 eexists; (split; [done|]);
    cbn [buffer_row buffer_col]; split; intros v Hv; rewrite wadd_small by (unfold two32; lia); lia.
Qed.

Lemma inner_bound lay a b cs cc :
  cs < outer_len lay a b → cc < inner_len lay a b → cs * inner_len lay a b + cc < a * b.
Proof.
  unfold outer_len, inner_len. intros Hcs Hcc. destruct lay; [by apply radix_lt|].
  rewrite (N.mul_comm a b). by apply radix_lt.
Qed.

(** The slice that is handed out has some length that fits. *)
Lemma contiguous_length lay a b tr tc :
  0 < a → 0 < b → 0 < tr → 0 < tc → tr * tc * (a * b) ≤ u32_max →
  ∃ l, match lay with
       | LayoutRowMajor => let? s := checked_mul u32_max b tc in slice_length a b s
       | LayoutColMajor => let? s := checked_mul u32_max a tr in slice_length b a s
       end = Ret l.
Proof.
  intros Ha Hb Htr Htc Hmax. assert (a * (b * tc) ≤ u32_max ∧ b * (a * tr) ≤ u32_max) as [L1 L2] by nia.
  destruct lay; rewrite checked_mul_ok by nia; cbn [obind]; eexists; apply slice_length_ok; nia.
Qed.

Section Contiguous.
Context (TO : TilingOrder) (config : StageMemoryConfig) (ident : StageIdent) (a b len R C S : N).
Context (Hok : config_ok config ident a b).
Context (ER : R = tiles_along (smc_tiling_scheme config) (row_dim ident)).
Context (EC : C = tiles_along (smc_tiling_scheme config) (col_dim ident)).
Context (ES : S = smc_num_stages config ident).
Context (Halloc : StageMemory_new (smc_num_stages config ident) ident config = Ret len).
Context (Horder : order_usable TO (total_rows ident R S) ident config).
Abbreviation layout := (smc_matrix_layout config ident).

(** The allocation is the tiles of all buffers. *)
Lemma contiguous_total :
  total_rows ident R S * total_cols ident C S * (a * b) = len ∧ len ≤ u32_max.
Proof using Hok ER EC ES Halloc.
  destruct (allocated_lines config ident a b Hok _ _ Halloc) as [Hlen Hmax]. rewrite <- ER, <- EC, <- ES in Hlen.
  pose proof Hok as (_ & Hacc & _). rewrite total_tiles by done. split; [lia|done].
Qed.

(** The tile of a buffer: its lines are those of its index in the order. *)
Lemma contiguous_tile buf row col cs cc :
  buf < S → row < R → col < C → cs < outer_len layout a b → cc < inner_len layout a b →
  ∃ t nth, Contiguous_get_tile TO row col buf ident config = Ret t ∧
    nth < total_rows ident R S * total_cols ident C S ∧
    to_row_col TO nth (total_rows ident R S) (total_cols ident C S) ident config =
      Ret (buffer_row ident R buf row, buffer_col ident C buf col) ∧
    Tile_get_line t cs cc = nth * (a * b) + (cs * inner_len layout a b + cc).
Proof using Hok Halloc Horder ER EC ES.
  intros Hbuf Hr Hc Hcs Hcc. destruct contiguous_total as [Hlen Hmax]. pose proof Hok as (Hwf & Hacc & _).
  pose proof (inner_bound layout a b cs cc Hcs Hcc) as Hin. assert (0 < a ∧ 0 < b) as [Ha Hb] by nia.
  pose proof (total_tiles ident R C S Hacc) as Htot.
  destruct (buffer_bounds ident R C S buf row col Hbuf Hr Hc) as [Br Bc].
  set (tr := total_rows ident R S) in *. set (tc := total_cols ident C S) in *.
  assert (tr * tc ≤ u32_max) as Htiles by nia.
  destruct (geometry_ok config ident R C S buf Hwf Hacc ER EC ES Hbuf) as (ro & co & Hgeo & Hro & Hco); [lia|lia|lia|].
  destruct (to_nth_tile_ok TO tr tc ident config _ _ Horder ltac:(unfold two32, u32_max in *; lia) Br Bc)
    as (nth & Hnth & Hlt & Hinv).
  destruct (contiguous_length layout a b tr tc Ha Hb) as [l Hl]; [lia|lia|lia|].
  assert (nth * (a * b) + (a * b) ≤ len) as Hend.
  { rewrite <- Hlen. assert ((nth + 1) * (a * b) ≤ tr * tc * (a * b)) by (apply N.mul_le_mono_r; lia). lia. }
  unfold Contiguous_get_tile. rewrite Hgeo. cbn [obind]. rewrite (tile_lines_ok config ident a b Hok). cbn [obind].
  fold tr tc. rewrite Hl. cbn [obind]. rewrite Hro, Hco, Hnth by done. cbn [obind].
  rewrite (checked_mul_ok _ a b) by nia. cbn [obind]. rewrite (contiguous_stride config ident a b Hok).
  unfold u32_max in *. rewrite (wmul_small (a * b) nth) by (unfold two32; lia).
  eexists _, nth. split; [done|]. split_and!; try done.
  rewrite get_line_ok; cbn [tv_start tv_stride]; [lia|unfold two32; lia].
Qed.
End Contiguous.

(** ** Strided layout *)

(** Three digits: [idx = ((p * n + cs) * m + q) * d + cc]. *)
Lemma digits_lt P n m d p cs q cc :
  p < P → cs < n → q < m → cc < d → ((p * n + cs) * m + q) * d + cc < P * n * m * d.
Proof. intros. apply radix_lt; [|done]. apply radix_lt; [|done]. by apply radix_lt. Qed.

Lemma digits_inj n m d p cs q cc p' cs' q' cc' :
  cs < n → q < m → cc < d → cs' < n → q' < m → cc' < d →
  ((p * n + cs) * m + q) * d + cc = ((p' * n + cs') * m + q') * d + cc' →
  p = p' ∧ cs = cs' ∧ q = q' ∧ cc = cc'.
Proof.
  intros ? ? ? ? ? ? Heq. apply radix_inj in Heq as [Heq ->]; [|done|done].
  apply radix_inj in Heq as [Heq ->]; [|done|done]. by apply radix_inj in Heq as [-> ->].
Qed.

(** The line of the strided layout. *)
Definition strided_line (lay : MatrixLayout) (a b R C row col cs cc : N) : N :=
  match lay with
  | LayoutRowMajor => ((row * a + cs) * C + col) * b + cc
  | LayoutColMajor => ((col * b + cs) * R + row) * a + cc
  end.

Lemma strided_line_lt lay a b R C row col cs cc :
  row < R → col < C → cs < outer_len lay a b → cc < inner_len lay a b →
  strided_line lay a b R C row col cs cc < R * C * (a * b).
Proof.
  intros Hr Hc Hcs Hcc. destruct lay; simpl in *.
  - pose proof (digits_lt R a C b row cs col cc Hr Hcs Hc Hcc). lia.
  - pose proof (digits_lt C b R a col cs row cc Hc Hcs Hr Hcc). lia.
Qed.

Lemma strided_line_inj lay a b R C row col cs cc row' col' cs' cc' :
  row < R → col < C → cs < outer_len lay a b → cc < inner_len lay a b →
  row' < R → col' < C → cs' < outer_len lay a b → cc' < inner_len lay a b →
  strided_line lay a b R C row col cs cc = strided_line lay a b R C row' col' cs' cc' →
  row = row' ∧ col = col' ∧ cs = cs' ∧ cc = cc'.
Proof.
  intros Hr Hc Hcs Hcc Hr' Hc' Hcs' Hcc' Heq. destruct lay; simpl in *;
    apply digits_inj in Heq as (-> & -> & -> & ->); done.
Qed.

Lemma strided_tile config ident a b len row col buf cs cc R C :
  config_ok config ident a b →
  R = tiles_along (smc_tiling_scheme config) (row_dim ident) →
  C = tiles_along (smc_tiling_scheme config) (col_dim ident) →
  smc_num_stages config ident = 1 →
  StageMemory_new (smc_num_stages config ident) ident config = Ret len →
  row < R → col < C →
  cs < outer_len (smc_matrix_layout config ident) a b →
  cc < inner_len (smc_matrix_layout config ident) a b →
  R * C * (a * b) = len ∧
  ∃ t, Strided_get_tile row col buf ident config = Ret t ∧
    Tile_get_line t cs cc = strided_line (smc_matrix_layout config ident) a b R C row col cs cc.
Proof.
  intros Hok ER EC ES Halloc Hr Hc Hcs Hcc.
  destruct (allocated_lines config ident a b Hok _ _ Halloc) as [Hlen Hmax].
  rewrite ES, <- ER, <- EC in Hlen. split; [lia|].
  pose proof (strided_line_lt _ a b R C row col cs cc Hr Hc Hcs Hcc) as Hlt.
  pose proof (inner_bound _ a b cs cc Hcs Hcc) as Hin. assert (0 < a ∧ 0 < b) as [Ha Hb] by nia.
  pose proof Hok as (Hwf & _). unfold Strided_get_tile. rewrite ES. cbn [N.ltb N.compare].
  rewrite (tiles_row_ok _ ident Hwf), (tiles_col_ok _ ident Hwf), <- ER, <- EC. cbn [obind].
  rewrite (tile_lines_ok config ident a b Hok). cbn [obind].
  assert (a * (C * b) ≤ len ∧ b * (R * a) ≤ len) as [L1 L2] by (rewrite Hlen; split; nia).
  assert (C * b ≤ u32_max ∧ R * a ≤ u32_max) as [L3 L4] by nia.
  change (1 <? 1) with false. cbv iota.
  destruct (smc_matrix_layout config ident); simpl in Hcs, Hcc, Hlt;
    rewrite checked_mul_ok by done; cbn [obind]; rewrite slice_length_ok by nia; cbn [obind];
    eexists; (split; [done|]); unfold Tile_new_strided; unfold u32_max in *.
  - rewrite (wmul_small row a), (wmul_small (row * a)), (wmul_small col b), wadd_small by (unfold two32; nia).
    rewrite get_line_ok; simpl; [lia|unfold two32; nia].
  - rewrite (wmul_small row a), (wmul_small col b), (wmul_small (col * b)), wadd_small by (unfold two32; nia).
    rewrite get_line_ok; simpl; [lia|unfold two32; nia].
Qed.

(** ** Both layouts *)

(** The implementations of [TilingLayout]. *)
Inductive TilingLayout := ContiguousTilingLayout (TO : TilingOrder) | StridedTilingLayout.

(** [StageMemory::get_tile]. *)
Definition StageMemory_get_tile (T : TilingLayout) (row col buffer_index : N) (ident : StageIdent)
    (config : StageMemoryConfig) : outcome TileView :=
  match T with
  | ContiguousTilingLayout TO => Contiguous_get_tile TO row col buffer_index ident config
  | StridedTilingLayout => Strided_get_tile row col buffer_index ident config
  end.

(** The contiguous layout needs an order that fits the stage, the strided
    layout a single buffer. *)
Definition layout_usable (T : TilingLayout) (ident : StageIdent) (config : StageMemoryConfig) : Prop :=
  match T with
  | ContiguousTilingLayout TO =>
      order_usable TO (total_rows ident (tiles_along (smc_tiling_scheme config) (row_dim ident))
                         (smc_num_stages config ident)) ident config
  | StridedTilingLayout => smc_num_stages config ident = 1
  end.

(** A line of a tile: buffer, tile row, tile column, and the strided and
    contiguous coordinates inside the tile. *)
Record LineCoord := { lc_buf : N; lc_row : N; lc_col : N; lc_strided : N; lc_contiguous : N }.

Definition coord_ok (config : StageMemoryConfig) (ident : StageIdent) (a b : N) (c : LineCoord) : Prop :=
  lc_buf c < smc_num_stages config ident ∧
  lc_row c < tiles_along (smc_tiling_scheme config) (row_dim ident) ∧
  lc_col c < tiles_along (smc_tiling_scheme config) (col_dim ident) ∧
  lc_strided c < outer_len (smc_matrix_layout config ident) a b ∧
  lc_contiguous c < inner_len (smc_matrix_layout config ident) a b.

(** The line of shared memory that [get_line] of the tile reads. *)
Definition line_of (T : TilingLayout) (ident : StageIdent) (config : StageMemoryConfig) (c : LineCoord) :
    outcome N :=
  let? t := StageMemory_get_tile T (lc_row c) (lc_col c) (lc_buf c) ident config in
  Ret (Tile_get_line t (lc_strided c) (lc_contiguous c)).

Section Lines.
Context (T : TilingLayout) (config : StageMemoryConfig) (ident : StageIdent) (a b len : N).
Context (Hok : config_ok config ident a b) (Huse : layout_usable T ident config).
Context (Halloc : StageMemory_new (smc_num_stages config ident) ident config = Ret len).

Lemma line_in_bounds c : coord_ok config ident a b c → ∃ l, line_of T ident config c = Ret l ∧ l < len.
Proof using All.
  intros (Hbuf & Hr & Hc & Hcs & Hcc). unfold line_of.
  destruct T as [TO|]; cbn [StageMemory_get_tile layout_usable] in *.
  - destruct (contiguous_tile TO config ident a b len _ _ _ Hok eq_refl eq_refl eq_refl Halloc Huse _ _ _ _ _ Hbuf Hr Hc Hcs Hcc)
      as (t & nth & Ht & Hlt & _ & Hline). rewrite Ht. cbn [obind]. rewrite Hline. eexists. split; [done|].
    destruct (contiguous_total config ident a b len _ _ _ Hok eq_refl eq_refl eq_refl Halloc) as [<- _].
    by apply radix_lt, inner_bound.
  - destruct (strided_tile config ident a b len _ _ (lc_buf c) _ _ _ _ Hok eq_refl eq_refl Huse Halloc Hr Hc Hcs Hcc)
      as [<- (t & Ht & Hline)]. rewrite Ht. cbn [obind]. rewrite Hline. eexists. split; [done|].
    by apply strided_line_lt.
Qed.

Lemma line_injective c c' :
  coord_ok config ident a b c → coord_ok config ident a b c' →
  line_of T ident config c = line_of T ident config c' → c = c'.
Proof using All.
  intros (Hbuf & Hr & Hc & Hcs & Hcc) (Hbuf' & Hr' & Hc' & Hcs' & Hcc'). unfold line_of.
  destruct c as [buf row col cs cc], c' as [buf' row' col' cs' cc']. cbn [lc_buf lc_row lc_col lc_strided lc_contiguous] in *.
  destruct T as [TO|]; cbn [StageMemory_get_tile layout_usable] in *.
  - destruct (contiguous_tile TO config ident a b len _ _ _ Hok eq_refl eq_refl eq_refl Halloc Huse _ _ _ _ _ Hbuf Hr Hc Hcs Hcc)
      as (t & nth & Ht & _ & Hrc & Hl).
    destruct (contiguous_tile TO config ident a b len _ _ _ Hok eq_refl eq_refl eq_refl Halloc Huse _ _ _ _ _ Hbuf' Hr' Hc' Hcs' Hcc')
      as (t' & nth' & Ht' & _ & Hrc' & Hl').
    rewrite Ht, Ht'. cbn [obind]. rewrite Hl, Hl'. intros [= Heq]. apply radix_inj in Heq as [-> Heq]; [|by apply inner_bound..].
    rewrite Hrc in Hrc'. injection Hrc' as E1 E2. pose proof Hok as (_ & Hacc & _).
    apply radix_inj in Heq as [-> ->]; [|done|done].
    by destruct (buffer_inj _ _ _ _ _ _ _ _ _ Hr Hc Hr' Hc' Hacc E1 E2) as (-> & -> & ->).
  - destruct (strided_tile config ident a b len _ _ buf _ _ _ _ Hok eq_refl eq_refl Huse Halloc Hr Hc Hcs Hcc)
      as [_ (t & Ht & Hl)].
    destruct (strided_tile config ident a b len _ _ buf' _ _ _ _ Hok eq_refl eq_refl Huse Halloc Hr' Hc' Hcs' Hcc')
      as [_ (t' & Ht' & Hl')].
    rewrite Ht, Ht'. cbn [obind]. rewrite Hl, Hl'. intros [= Heq]. apply strided_line_inj in Heq as (-> & -> & -> & ->); try done.
    by assert (buf = buf') as -> by lia.
Qed.
End Lines.

(** C21. Every tiling order numbers the tiles of a stage without gaps or
    repetitions: [to_row_col] and [to_nth_tile] are inverse to each other
    between the indices below the number of tiles and the tile coordinates. *)
Theorem tiling_order_bijective TO rows cols ident config :
  order_usable TO rows ident config → rows * cols < two32 →
  (∀ nth, nth < rows * cols → ∃ r c, to_row_col TO nth rows cols ident config = Ret (r, c) ∧
     r < rows ∧ c < cols ∧ to_nth_tile TO r c rows cols ident config = Ret nth) ∧
  (∀ r c, r < rows → c < cols → ∃ nth, to_nth_tile TO r c rows cols ident config = Ret nth ∧
     nth < rows * cols ∧ to_row_col TO nth rows cols ident config = Ret (r, c)).
Proof.
  intros Hok Hfit. split; intros.
  - by apply to_row_col_ok.
  - by apply to_nth_tile_ok.
Qed.

(** C22. Tiles in shared memory never overlap: with either layout, every line
    of every tile of every buffer lies inside the allocation of the stage, and
    two different positions are two different lines. *)
Theorem stage_lines_disjoint T config ident a b len :
  config_ok config ident a b → layout_usable T ident config →
  StageMemory_new (smc_num_stages config ident) ident config = Ret len →
  (∀ c, coord_ok config ident a b c → ∃ l, line_of T ident config c = Ret l ∧ l < len) ∧
  (∀ c c', coord_ok config ident a b c → coord_ok config ident a b c' →
     line_of T ident config c = line_of T ident config c' → c = c').
Proof.
  intros Hok Huse Halloc. split; intros.
  - by apply (line_in_bounds T config ident a b len).
  - by apply (line_injective T config ident a b len).
Qed.

Module StageDemo.
Definition tile_config : TileConfig :=
  {| tc_matrix_layout := λ _, LayoutRowMajor; tc_stage_line_size := λ _, 4;
     tc_tile_size := tile_size demo_scheme |}.
Definition config : StageMemoryConfig :=
  {| smc_tile_config := tile_config; smc_num_main_flow_planes := 4;
     smc_tiling_scheme := demo_scheme; smc_stage_line_size := λ _, 4;
     smc_matrix_layout := λ _, LayoutRowMajor; smc_num_stages := λ _, 2 |}.

Lemma demo_config_ok : config_ok config StageLhs 16 4.
Proof. repeat split; try discriminate; try (intros []; vm_compute; discriminate). Qed.

Lemma demo_order : order_usable OrderedTilingOrder 8 StageLhs config.
Proof. right. right. split_and!; try done. by exists 2. Qed.

Lemma tiling_order_bijective_witness :
  ∃ r c, to_row_col OrderedTilingOrder 5 8 2 StageLhs config = Ret (r, c) ∧ r < 8 ∧ c < 2 ∧
    to_nth_tile OrderedTilingOrder r c 8 2 StageLhs config = Ret 5.
Proof.
  refine (proj1 (tiling_order_bijective OrderedTilingOrder 8 2 StageLhs config demo_order _) 5 _); done.
Defined.

Definition coord : LineCoord :=
  {| lc_buf := 1; lc_row := 6; lc_col := 0; lc_strided := 15; lc_contiguous := 3 |}.

Lemma demo_coord_ok : coord_ok config StageLhs 16 4 coord.
Proof. by repeat split. Qed.

Lemma stage_lines_disjoint_witness :
  ∃ l, line_of (ContiguousTilingLayout OrderedTilingOrder) StageLhs config coord = Ret l ∧ l < 1024.
Proof.
  refine (proj1 (stage_lines_disjoint (ContiguousTilingLayout OrderedTilingOrder) config StageLhs 16 4 1024
    demo_config_ok demo_order _) coord demo_coord_ok).
  vm_compute. reflexivity.
Defined.

(** The slice of a contiguous tile is longer than the tile: it is computed
    with the strides of the strided layout, and for the last tile it ends past
    the allocation of 1024 lines. *)
Lemma contiguous_slice_exceeds_stage :
  ∃ t, Contiguous_get_tile OrderedTilingOrder 7 0 1 StageLhs config = Ret t ∧
    StageMemory_new 2 StageLhs config = Ret 1024 ∧
    tv_end t - tv_start t = 124 ∧ 1024 < tv_end t.
Proof. eexists. split; [vm_compute; reflexivity|]. by vm_compute. Qed.
End StageDemo.
