(* ===== verification/Ir.v ===== *)
(** * The intermediate representation

    Model of [crates/cubecl-ir/src]: element types and items ([item.rs]),
    variables and constants ([variable.rs]), the operations ([arithmetic.rs],
    [bitwise.rs], [comparison.rs], [operator.rs], [metadata.rs],
    [operation.rs]) and the part of the allocator of local variables
    ([allocator.rs]) that the passes use.

    A constant is stored at 64 bits whatever its kind: [i64] and [u64] values
    are integers in their ranges, [f64] values are those of [DeviceNum.v].
    Branches carry an opaque payload: the optimiser turns them into edges of
    its graph ([Cfg.v]) and no instruction of a block is one. *)

From Stdlib Require Import SpecFloat.
From S2P Require Import Prelude DeviceNum.

Open Scope Z_scope.
Open Scope rust_scope.

(** ** 64-bit integers *)

Definition wrap_u (bits v : Z) : Z := v mod 2 ^ bits.
Definition wrap_s (bits v : Z) : Z := (v + 2 ^ (bits - 1)) mod 2 ^ bits - 2 ^ (bits - 1).

Definition i64_min : Z := - 2 ^ 63.
Definition i64_max : Z := 2 ^ 63 - 1.
Definition u64_top : Z := 2 ^ 64 - 1.

(** [v as f64] for an integer and [x as i64] (truncating, saturating, NaN is 0). *)
Definition f64_of_int (v : Z) : f64 := binary_normalize 53 1024 v 0 false.
Definition f64_to_i64 (x : f64) : Z :=
  match x with
  | S754_finite s m e =>
      let v := Z.shiftl (Zpos m) e in
      if s then Z.max i64_min (- v) else Z.min i64_max v
  | S754_infinity s => if s then i64_min else i64_max
  | _ => 0
  end.
Definition f64_eqb (x y : f64) : bool := SFeqb x y.
Definition f64_ltb (x y : f64) : bool := SFltb x y.

(** ** Types *)

Inductive FloatKind := E2M1 | E2M3 | E3M2 | E4M3 | E5M2 | UE8M0 | F16 | BF16 | Flex32 | F32 | TF32 | F64.
Inductive IntKind := I8 | I16 | I32 | I64.
Inductive UIntKind := U8 | U16 | U32 | U64.

Inductive Elem :=
| EFloat (k : FloatKind)
| EInt (k : IntKind)
| EUInt (k : UIntKind)
| EAtomicFloat (k : FloatKind)
| EAtomicInt (k : IntKind)
| EAtomicUInt (k : UIntKind)
| EBool.

#[export] Instance FloatKind_eq_dec : EqDecision FloatKind.
Proof. solve_decision. Defined.
#[export] Instance IntKind_eq_dec : EqDecision IntKind.
Proof. solve_decision. Defined.
#[export] Instance UIntKind_eq_dec : EqDecision UIntKind.
Proof. solve_decision. Defined.
#[export] Instance Elem_eq_dec : EqDecision Elem.
Proof. solve_decision. Defined.
#[export] Instance f64_eq_dec : EqDecision f64.
Proof. unfold f64. solve_decision. Defined.

(** [vectorization] is the [NonZero<u8>] if there is one. *)
Record Item := { item_elem : Elem; vectorization : option positive }.
#[export] Instance Item_eq_dec : EqDecision Item.
Proof. solve_decision. Defined.

Definition Item_new (e : Elem) : Item := {| item_elem := e; vectorization := None |}.
Definition Item_vectorized (e : Elem) (v : option positive) : Item :=
  {| item_elem := e; vectorization := v |}.
Definition vectorize (i : Item) (v : option positive) : Item :=
  {| item_elem := item_elem i; vectorization := v |}.

(** ** Constants and variables *)

Inductive ConstantScalarValue :=
| CInt (v : Z) (k : IntKind)
| CFloat (v : f64) (k : FloatKind)
| CUInt (v : Z) (k : UIntKind)
| CBool (v : bool).
#[export] Instance ConstantScalarValue_eq_dec : EqDecision ConstantScalarValue.
Proof. solve_decision. Defined.

Inductive Builtin :=
| UnitPos | UnitPosX | UnitPosY | UnitPosZ
| CubePosCluster | CubePosClusterX | CubePosClusterY | CubePosClusterZ
| CubePos | CubePosX | CubePosY | CubePosZ
| CubeDim | CubeDimX | CubeDimY | CubeDimZ
| CubeClusterDim | CubeClusterDimX | CubeClusterDimY | CubeClusterDimZ
| CubeCount | CubeCountX | CubeCountY | CubeCountZ
| PlaneDim | UnitPosPlane
| AbsolutePos | AbsolutePosX | AbsolutePosY | AbsolutePosZ.
#[export] Instance Builtin_eq_dec : EqDecision Builtin.
Proof. solve_decision. Defined.

Inductive MatrixIdent := MatrixA | MatrixB | MatrixAccumulator.
Inductive CmmaLayout := CmmaColMajor | CmmaRowMajor | CmmaUndefined.
#[export] Instance MatrixIdent_eq_dec : EqDecision MatrixIdent.
Proof. solve_decision. Defined.
#[export] Instance CmmaLayout_eq_dec : EqDecision CmmaLayout.
Proof. solve_decision. Defined.
Record Matrix := {
  mat_ident : MatrixIdent; mat_m : N; mat_n : N; mat_k : N;
  mat_elem : Elem; mat_layout : CmmaLayout;
}.
#[export] Instance Matrix_eq_dec : EqDecision Matrix.
Proof. solve_decision. Defined.

Inductive BarrierLevel := LevelUnit | CubeCoop (n : N) | CubeManual (n : N).
#[export] Instance BarrierLevel_eq_dec : EqDecision BarrierLevel.
Proof. solve_decision. Defined.

Inductive VariableKind :=
| GlobalInputArray (id : N)
| GlobalOutputArray (id : N)
| GlobalScalar (id : N)
| TensorMap (id : N)
| LocalArray (id length : N)
| LocalMut (id : N)
| LocalConst (id : N)
| Versioned (id version : N)
| ConstantScalar (c : ConstantScalarValue)
| ConstantArray (id length : N)
| SharedMemory (id length : N) (alignment : option N)
| KMatrix (id : N) (mat : Matrix)
| KBuiltin (b : Builtin)
| Pipeline (id : N) (item : Item) (num_stages : N)
| Barrier (id : N) (item : Item) (level : BarrierLevel).
#[export] Instance VariableKind_eq_dec : EqDecision VariableKind.
Proof. solve_decision. Defined.

Record Variable_ := { var_kind : VariableKind; var_item : Item }.
#[export] Instance Variable_eq_dec : EqDecision Variable_.
Proof. solve_decision. Defined.

Definition csv_elem (c : ConstantScalarValue) : Elem :=
  match c with
  | CInt _ k => EInt k
  | CFloat _ k => EFloat k
  | CUInt _ k => EUInt k
  | CBool _ => EBool
  end.

Definition Variable_new (k : VariableKind) (i : Item) : Variable_ := {| var_kind := k; var_item := i |}.
Definition Variable_builtin (b : Builtin) : Variable_ := Variable_new (KBuiltin b) (Item_new (EUInt U32)).
Definition Variable_constant (c : ConstantScalarValue) : Variable_ :=
  let elem := match c with
              | CInt _ k => EInt k
              | CFloat _ k => EFloat k
              | CUInt _ k => EUInt k
              | CBool _ => EBool
              end in
  Variable_new (ConstantScalar c) (Item_new elem).
Definition Variable_elem (v : Variable_) : Elem := item_elem (var_item v).

Definition is_immutable (v : Variable_) : bool :=
  match var_kind v with
  | GlobalOutputArray _ | TensorMap _ | LocalMut _ | SharedMemory _ _ _ | KMatrix _ _
  | LocalArray _ _ | GlobalInputArray _ => false
  | GlobalScalar _ | Versioned _ _ | LocalConst _ | ConstantScalar _ | ConstantArray _ _
  | KBuiltin _ => true
  | Pipeline _ _ _ | Barrier _ _ _ => false
  end.

Definition is_array (v : Variable_) : bool :=
  match var_kind v with
  | GlobalInputArray _ | GlobalOutputArray _ | ConstantArray _ _ | SharedMemory _ _ _
  | LocalArray _ _ | KMatrix _ _ => true
  | _ => false
  end.

Definition has_length (v : Variable_) : bool :=
  match var_kind v with
  | GlobalInputArray _ | GlobalOutputArray _ => true
  | _ => false
  end.
Definition has_buffer_length (v : Variable_) : bool :=
  match var_kind v with
  | GlobalInputArray _ | GlobalOutputArray _ => true
  | _ => false
  end.

Definition is_constant (v : Variable_) (value : Z) : bool :=
  match var_kind v with
  | ConstantScalar (CInt val _) => val =? value
  | ConstantScalar (CUInt val _) => wrap_s 64 val =? value
  | ConstantScalar (CFloat val _) => f64_eqb val (f64_of_int value)
  | _ => false
  end.
Definition is_true (v : Variable_) : bool :=
  match var_kind v with ConstantScalar (CBool val) => val | _ => false end.
Definition is_false (v : Variable_) : bool :=
  match var_kind v with ConstantScalar (CBool val) => negb val | _ => false end.

(** [val as usize], [u32], [u64] and [i64] of the integer constants. *)
Definition try_as_usize (c : ConstantScalarValue) : option Z :=
  match c with
  | CUInt val _ => Some (wrap_u 64 val)
  | CInt val _ => Some (wrap_u 64 val)
  | CFloat _ _ | CBool _ => None
  end.
Definition as_usize (c : ConstantScalarValue) : outcome Z :=
  expect (try_as_usize c) "Only Int and UInt kind can be made into usize.".
Definition try_as_u32 (c : ConstantScalarValue) : option Z :=
  match c with
  | CUInt val _ => Some (wrap_u 32 val)
  | CInt val _ => Some (wrap_u 32 val)
  | CFloat _ _ | CBool _ => None
  end.
Definition csv_as_u32 (c : ConstantScalarValue) : outcome Z :=
  expect (try_as_u32 c) "Only Int and UInt kind can be made into u32.".
Definition try_as_u64 (c : ConstantScalarValue) : option Z :=
  match c with
  | CUInt val _ => Some val
  | CInt val _ => Some (wrap_u 64 val)
  | CFloat _ _ | CBool _ => None
  end.
Definition as_u64 (c : ConstantScalarValue) : outcome Z :=
  expect (try_as_u64 c) "Only Int and UInt kind can be made into u64.".
Definition try_as_i64 (c : ConstantScalarValue) : option Z :=
  match c with
  | CUInt val _ => Some (wrap_s 64 val)
  | CInt val _ => Some val
  | CFloat _ _ | CBool _ => None
  end.
Definition as_i64 (c : ConstantScalarValue) : outcome Z :=
  expect (try_as_i64 c) "Only Int and UInt kind can be made into i64.".
Definition try_as_bool (c : ConstantScalarValue) : option bool :=
  match c with CBool val => Some val | _ => None end.
Definition as_bool (c : ConstantScalarValue) : outcome bool :=
  expect (try_as_bool c) "Only bool can be made into a bool".

Definition is_zero (c : ConstantScalarValue) : bool :=
  match c with
  | CInt val _ => val =? 0
  | CFloat val _ => f64_eqb val (f64_of_int 0)
  | CUInt val _ => val =? 0
  | CBool _ => false
  end.
Definition is_one (c : ConstantScalarValue) : bool :=
  match c with
  | CInt val _ => val =? 1
  | CFloat val _ => f64_eqb val (f64_of_int 1)
  | CUInt val _ => val =? 1
  | CBool _ => false
  end.

Definition b2z (b : bool) : Z := if b then 1 else 0.

Definition unreachable {A : Type} : outcome A := Panic "internal error: entered unreachable code".

Definition cast_to (c : ConstantScalarValue) (other : Elem) : outcome ConstantScalarValue :=
  match c, other with
  | CInt val _, EFloat k => Ret (CFloat (f64_of_int val) k)
  | CInt val _, EInt k => Ret (CInt val k)
  | CInt val _, EUInt k => Ret (CUInt (wrap_u 64 val) k)
  | CInt val _, EBool => Ret (CBool (val =? 1))
  | CFloat val _, EFloat k => Ret (CFloat val k)
  | CFloat val _, EInt k => Ret (CInt (f64_to_i64 val) k)
  | CFloat val _, EUInt k => Ret (CUInt (Z.of_N (f64_to_u64 val)) k)
  | CFloat val _, EBool => Ret (CBool (f64_eqb val (f64_of_int 0)))
  | CUInt val _, EFloat k => Ret (CFloat (f64_of_int val) k)
  | CUInt val _, EInt k => Ret (CInt (wrap_s 64 val) k)
  | CUInt val _, EUInt k => Ret (CUInt val k)
  | CUInt val _, EBool => Ret (CBool (val =? 1))
  | CBool val, EFloat k => Ret (CFloat (f64_of_int (b2z val)) k)
  | CBool val, EInt k => Ret (CInt (b2z val) k)
  | CBool val, EUInt k => Ret (CUInt (b2z val) k)
  | CBool val, EBool => Ret (CBool val)
  | _, _ => unreachable
  end.

Definition vectorization_factor (v : Variable_) : positive := default 1%positive (vectorization (var_item v)).

Definition Variable_index (v : Variable_) : option N :=
  match var_kind v with
  | GlobalInputArray id | GlobalOutputArray id | TensorMap id | GlobalScalar id | LocalMut id
  | Versioned id _ | LocalConst id | ConstantArray id _ | SharedMemory id _ _ | LocalArray id _
  | KMatrix id _ => Some id
  | _ => None
  end.

Definition as_const (v : Variable_) : option ConstantScalarValue :=
  match var_kind v with ConstantScalar c => Some c | _ => None end.

(** [From<bool>], [From<u32>] and [From<usize>] for variables. *)
Definition Variable_from_bool (b : bool) : Variable_ := Variable_constant (CBool b).
Definition Variable_from_u32 (v : Z) : Variable_ := Variable_constant (CUInt v U32).

(** ** Elements *)

Definition constant_from_f64 (e : Elem) (val : f64) : Variable_ :=
  Variable_constant
    match e with
    | EFloat k => CFloat val k
    | EInt k => CInt (f64_to_i64 val) k
    | EUInt k => CUInt (Z.of_N (f64_to_u64 val)) k
    | EBool => CBool (f64_ltb (f64_of_int 0) val)
    | EAtomicInt k => CInt (f64_to_i64 val) k
    | EAtomicUInt k => CUInt (Z.of_N (f64_to_u64 val)) k
    | EAtomicFloat k => CFloat val k
    end.
Definition constant_from_i64 (e : Elem) (val : Z) : Variable_ :=
  Variable_constant
    match e with
    | EFloat k => CFloat (f64_of_int val) k
    | EInt k => CInt val k
    | EUInt k => CUInt (wrap_u 64 val) k
    | EBool => CBool (0 <? val)
    | EAtomicInt k => CInt val k
    | EAtomicUInt k => CUInt (wrap_u 64 val) k
    | EAtomicFloat k => CFloat (f64_of_int val) k
    end.
Definition constant_from_u64 (e : Elem) (val : Z) : Variable_ :=
  Variable_constant
    match e with
    | EFloat k => CFloat (f64_of_int val) k
    | EInt k => CInt (wrap_s 64 val) k
    | EUInt k => CUInt val k
    | EBool => CBool (0 <? val)
    | EAtomicInt k => CInt (wrap_s 64 val) k
    | EAtomicUInt k => CUInt val k
    | EAtomicFloat k => CFloat (f64_of_int val) k
    end.
Definition constant_from_bool (e : Elem) (val : bool) : Variable_ :=
  Variable_constant
    match e with
    | EFloat k => CFloat (f64_of_int (b2z val)) k
    | EInt k => CInt (b2z val) k
    | EAtomicInt k => CInt (b2z val) k
    | EUInt k => CUInt (b2z val) k
    | EAtomicUInt k => CUInt (b2z val) k
    | EAtomicFloat k => CFloat (f64_of_int (b2z val)) k
    | EBool => CBool val
    end.

Definition from_constant (e : Elem) (constant : Variable_) : Variable_ :=
  match var_kind constant with
  | ConstantScalar value =>
      match value with
      | CInt val _ => constant_from_i64 e val
      | CFloat val _ => constant_from_f64 e val
      | CUInt val _ => constant_from_u64 e val
      | CBool val => constant_from_bool e val
      end
  | _ => constant
  end.

Definition int_size (k : IntKind) : Z := match k with I8 => 1 | I16 => 2 | I32 => 4 | I64 => 8 end.
Definition uint_size (k : UIntKind) : Z := match k with U8 => 1 | U16 => 2 | U32 => 4 | U64 => 8 end.

Definition Elem_size (e : Elem) : outcome Z :=
  match e with
  | EFloat k | EAtomicFloat k =>
      match k with
      | E2M1 => Panic "Can't get byte size of sub-byte type"
      | E2M3 | E3M2 | E4M3 | E5M2 | UE8M0 => Ret 1
      | F16 | BF16 => Ret 2
      | F32 | Flex32 | TF32 => Ret 4
      | F64 => Ret 8
      end
  | EInt k | EAtomicInt k => Ret (int_size k)
  | EUInt k | EAtomicUInt k => Ret (uint_size k)
  | EBool => Ret 1
  end.

Definition size_bits (e : Elem) : outcome Z :=
  match e with
  | EFloat E2M1 | EAtomicFloat E2M1 => Ret 4
  | _ => let? s := Elem_size e in Ret (s * 8)
  end.

Definition min_line_size (e : Elem) : Z := match e with EFloat E2M1 => 2 | _ => 1 end.
Definition is_atomic (e : Elem) : bool :=
  match e with EAtomicFloat _ | EAtomicInt _ | EAtomicUInt _ => true | _ => false end.
Definition is_int (e : Elem) : bool :=
  match e with EInt _ | EAtomicInt _ | EUInt _ | EAtomicUInt _ | EBool => true | _ => false end.
Definition is_signed_int (e : Elem) : bool := match e with EInt _ | EAtomicInt _ => true | _ => false end.
Definition is_unsigned_int (e : Elem) : bool :=
  match e with EUInt _ | EAtomicUInt _ | EBool => true | _ => false end.
Definition is_float (e : Elem) : bool := match e with EFloat _ | EAtomicFloat _ => true | _ => false end.

(** ** Operations *)

Record BinaryOperator := { lhs : Variable_; rhs : Variable_ }.
Record UnaryOperator := { input : Variable_ }.
Record FmaOperator := { fma_a : Variable_; fma_b : Variable_; fma_c : Variable_ }.
Record ClampOperator := { clamp_input : Variable_; min_value : Variable_; max_value : Variable_ }.

Inductive Arithmetic :=
| Add (op : BinaryOperator)
| Fma (op : FmaOperator)
| Sub (op : BinaryOperator)
| Mul (op : BinaryOperator)
| Div (op : BinaryOperator)
| Abs (op : UnaryOperator)
| Exp (op : UnaryOperator)
| Log (op : UnaryOperator)
| Log1p (op : UnaryOperator)
| Cos (op : UnaryOperator)
| Sin (op : UnaryOperator)
| Tanh (op : UnaryOperator)
| Powf (op : BinaryOperator)
| Sqrt (op : UnaryOperator)
| Round (op : UnaryOperator)
| Floor (op : UnaryOperator)
| Ceil (op : UnaryOperator)
| Erf (op : UnaryOperator)
| Recip (op : UnaryOperator)
| Clamp (op : ClampOperator)
| Modulo (op : BinaryOperator)
| Neg (op : UnaryOperator)
| Max (op : BinaryOperator)
| Min (op : BinaryOperator)
| Remainder (op : BinaryOperator)
| Magnitude (op : UnaryOperator)
| Normalize (op : UnaryOperator)
| Dot (op : BinaryOperator)
| MulHi (op : BinaryOperator).

Inductive Comparison :=
| Lower (op : BinaryOperator)
| LowerEqual (op : BinaryOperator)
| Equal (op : BinaryOperator)
| NotEqual (op : BinaryOperator)
| GreaterEqual (op : BinaryOperator)
| Greater (op : BinaryOperator).

Inductive Bitwise :=
| BitwiseAnd (op : BinaryOperator)
| BitwiseOr (op : BinaryOperator)
| BitwiseXor (op : BinaryOperator)
| ShiftLeft (op : BinaryOperator)
| ShiftRight (op : BinaryOperator)
| CountOnes (op : UnaryOperator)
| ReverseBits (op : UnaryOperator)
| BitwiseNot (op : UnaryOperator)
| LeadingZeros (op : UnaryOperator)
| FindFirstSet (op : UnaryOperator).

Record IndexOperator := { idx_list : Variable_; idx_index : Variable_; idx_line_size : N }.
Record IndexAssignOperator := { ia_index : Variable_; ia_value : Variable_; ia_line_size : N }.
Record LineInitOperator := { li_inputs : list Variable_ }.
Record CopyMemoryOperator := { cm_out_index : Variable_; cm_input : Variable_; cm_in_index : Variable_ }.
Record CopyMemoryBulkOperator := {
  cmb_out_index : Variable_; cmb_input : Variable_; cmb_in_index : Variable_;
  cmb_len : Variable_; cmb_offset_input : Variable_; cmb_offset_out : Variable_;
}.
Record Select := { cond : Variable_; then_ : Variable_; or_else : Variable_ }.

Inductive Operator :=
| Index (op : IndexOperator)
| CopyMemory (op : CopyMemoryOperator)
| CopyMemoryBulk (op : CopyMemoryBulkOperator)
| UncheckedIndex (op : IndexOperator)
| IndexAssign (op : IndexAssignOperator)
| UncheckedIndexAssign (op : IndexAssignOperator)
| InitLine (op : LineInitOperator)
| And (op : BinaryOperator)
| Or (op : BinaryOperator)
| Not (op : UnaryOperator)
| Cast (op : UnaryOperator)
| Reinterpret (op : UnaryOperator)
| OpSelect (op : Select).

Inductive Metadata :=
| Rank (var : Variable_)
| Stride (dim var : Variable_)
| Shape (dim var : Variable_)
| Length (var : Variable_)
| BufferLength (var : Variable_).

Record CompareAndSwapOperator := { cas_input : Variable_; cas_cmp : Variable_; cas_val : Variable_ }.
Inductive AtomicOp :=
| AtomicLoad (op : UnaryOperator)
| AtomicStore (op : UnaryOperator)
| AtomicSwap (op : BinaryOperator)
| AtomicAdd (op : BinaryOperator)
| AtomicSub (op : BinaryOperator)
| AtomicMax (op : BinaryOperator)
| AtomicMin (op : BinaryOperator)
| AtomicAnd (op : BinaryOperator)
| AtomicOr (op : BinaryOperator)
| AtomicXor (op : BinaryOperator)
| CompareAndSwap (op : CompareAndSwapOperator).

Inductive Synchronization := SyncCube | SyncPlane | SyncStorage | SyncProxyShared.

Inductive Plane :=
| PlaneElect
| PlaneAll (op : UnaryOperator)
| PlaneAny (op : UnaryOperator)
| PlaneBallot (op : UnaryOperator)
| PlaneBroadcast (op : BinaryOperator)
| PlaneSum (op : UnaryOperator)
| PlaneInclusiveSum (op : UnaryOperator)
| PlaneExclusiveSum (op : UnaryOperator)
| PlaneProd (op : UnaryOperator)
| PlaneInclusiveProd (op : UnaryOperator)
| PlaneExclusiveProd (op : UnaryOperator)
| PlaneMin (op : UnaryOperator)
| PlaneMax (op : UnaryOperator).

Inductive CoopMma :=
| CmmaFill (value : Variable_)
| CmmaLoad (value stride offset : Variable_) (layout : option CmmaLayout)
| CmmaExecute (mat_a mat_b mat_c : Variable_)
| CmmaStore (mat stride offset : Variable_) (layout : CmmaLayout)
| CmmaCast (input : Variable_).

Inductive BarrierOps :=
| BarrierInit (barrier : Variable_) (with_cta_fence : bool)
| MemCopyAsync (barrier source source_length offset_source offset_out : Variable_)
| TmaLoad (barrier tensor_map : Variable_) (indices : list Variable_) (offset_out : Variable_)
| TmaLoadIm2col (barrier tensor_map : Variable_) (indices offsets : list Variable_) (offset_out : Variable_)
| BarrierArrive (barrier : Variable_)
| ArriveTx (barrier arrive_count_update transaction_count_update : Variable_)
| ExpectTx (barrier transaction_count_update : Variable_)
| BarrierWait (barrier : Variable_)
| ArriveAndWait (barrier : Variable_).

Inductive TmaOps :=
| TmaStore (source : Variable_) (coordinates : list Variable_) (offset_source : Variable_)
| CommitGroup
| WaitGroup (max_pending : N)
| WaitGroupRead (max_pending : N).

Inductive NonSemantic :=
| EnterDebugScope
| ExitDebugScope
| DebugPrint (format_string : string) (args : list Variable_)
| DebugComment (content : string).

Inductive Operation :=
| Copy (v : Variable_)
| OArithmetic (op : Arithmetic)
| OComparison (op : Comparison)
| OBitwise (op : Bitwise)
| OOperator (op : Operator)
| OAtomic (op : AtomicOp)
| OMetadata (op : Metadata)
| OBranch (payload : N)
| OSynchronization (op : Synchronization)
| OPlane (op : Plane)
| OCoopMma (op : CoopMma)
| OBarrier (op : BarrierOps)
| OTma (op : TmaOps)
| ONonSemantic (op : NonSemantic).

(** [source_loc] is debug information and left out. *)
Record Instruction := { inst_out : option Variable_; operation : Operation }.

Definition Instruction_new (op : Operation) (out : Variable_) : Instruction :=
  {| inst_out := Some out; operation := op |}.
Definition Instruction_no_out (op : Operation) : Instruction :=
  {| inst_out := None; operation := op |}.
Definition out (i : Instruction) : outcome Variable_ :=
  expect (inst_out i) "called `Option::unwrap()` on a `None` value".
Definition inst_item (i : Instruction) : outcome Item := let? o := out i in Ret (var_item o).

(** ** Local variables *)

(** The counter of the allocator; [fetch_add] wraps around. *)
Record Allocator := { next_id : N }.
Definition new_local_index (a : Allocator) : N * Allocator :=
  (next_id a, {| next_id := ((next_id a + 1) mod 4294967296)%N |}).
Definition create_local (a : Allocator) (item : Item) : Variable_ * Allocator :=
  let '(id, a) := new_local_index a in
  (Variable_new (LocalConst id) item, a).
