(* ===== verification/Visit.v ===== *)
(** * Visiting the variables of instructions

    [crates/cubecl-opt/src/instructions.rs].  A visitor is a closure that gets
    the variables an instruction reads or writes, one after the other, may
    replace each of them, and keeps what it captured: here a computation
    [Variable_ → M S Variable_].  The visits rebuild the operation around the
    replaced variables, in the order of the source. *)

From S2P Require Import Prelude Ir.

Open Scope N_scope.
Open Scope rust_scope.

Section visit.
  Context {S : Type} (visit_read : Variable_ → M S Variable_).

Fixpoint visit_vec (vs : list Variable_) : M S (list Variable_) :=
  match vs with
  | [] => ret []
  | v :: vs =>
      let! v := visit_read v in
      let! vs := visit_vec vs in
      ret (v :: vs)
  end.

Definition visit_unop (u : UnaryOperator) : M S UnaryOperator :=
  let! i := visit_read (input u) in ret {| input := i |}.

Definition visit_binop (b : BinaryOperator) : M S BinaryOperator :=
  let! l := visit_read (lhs b) in
  let! r := visit_read (rhs b) in
  ret {| lhs := l; rhs := r |}.

(** [visit_unop]/[visit_binop] under a constructor of the enclosing operation. *)
Definition under_unop {A : Type} (c : UnaryOperator → A) (u : UnaryOperator) : M S A :=
  let! u := visit_unop u in ret (c u).
Definition under_binop {A : Type} (c : BinaryOperator → A) (b : BinaryOperator) : M S A :=
  let! b := visit_binop b in ret (c b).

Definition visit_arithmetic (op : Arithmetic) : M S Arithmetic :=
  match op with
  | Fma f =>
      let! a := visit_read (fma_a f) in
      let! b := visit_read (fma_b f) in
      let! c := visit_read (fma_c f) in
      ret (Fma {| fma_a := a; fma_b := b; fma_c := c |})
  | Add b => under_binop Add b
  | Sub b => under_binop Sub b
  | Mul b => under_binop Mul b
  | Div b => under_binop Div b
  | Powf b => under_binop Powf b
  | Modulo b => under_binop Modulo b
  | Max b => under_binop Max b
  | Min b => under_binop Min b
  | Remainder b => under_binop Remainder b
  | Dot b => under_binop Dot b
  | MulHi b => under_binop MulHi b
  | Abs u => under_unop Abs u
  | Exp u => under_unop Exp u
  | Log u => under_unop Log u
  | Log1p u => under_unop Log1p u
  | Cos u => under_unop Cos u
  | Sin u => under_unop Sin u
  | Tanh u => under_unop Tanh u
  | Sqrt u => under_unop Sqrt u
  | Round u => under_unop Round u
  | Floor u => under_unop Floor u
  | Ceil u => under_unop Ceil u
  | Erf u => under_unop Erf u
  | Recip u => under_unop Recip u
  | Neg u => under_unop Neg u
  | Magnitude u => under_unop Magnitude u
  | Normalize u => under_unop Normalize u
  | Clamp c =>
      let! i := visit_read (clamp_input c) in
      let! lo := visit_read (min_value c) in
      let! hi := visit_read (max_value c) in
      ret (Clamp {| clamp_input := i; min_value := lo; max_value := hi |})
  end.

Definition visit_compare (op : Comparison) : M S Comparison :=
  match op with
  | Equal b => under_binop Equal b
  | NotEqual b => under_binop NotEqual b
  | LowerEqual b => under_binop LowerEqual b
  | Greater b => under_binop Greater b
  | Lower b => under_binop Lower b
  | GreaterEqual b => under_binop GreaterEqual b
  end.

Definition visit_bitwise (op : Bitwise) : M S Bitwise :=
  match op with
  | BitwiseAnd b => under_binop BitwiseAnd b
  | BitwiseOr b => under_binop BitwiseOr b
  | BitwiseXor b => under_binop BitwiseXor b
  | ShiftLeft b => under_binop ShiftLeft b
  | ShiftRight b => under_binop ShiftRight b
  | CountOnes u => under_unop CountOnes u
  | BitwiseNot u => under_unop BitwiseNot u
  | ReverseBits u => under_unop ReverseBits u
  | LeadingZeros u => under_unop LeadingZeros u
  | FindFirstSet u => under_unop FindFirstSet u
  end.

Definition visit_index (op : IndexOperator) : M S IndexOperator :=
  let! l := visit_read (idx_list op) in
  let! i := visit_read (idx_index op) in
  ret {| idx_list := l; idx_index := i; idx_line_size := idx_line_size op |}.
Definition visit_index_assign (op : IndexAssignOperator) : M S IndexAssignOperator :=
  let! i := visit_read (ia_index op) in
  let! v := visit_read (ia_value op) in
  ret {| ia_index := i; ia_value := v; ia_line_size := ia_line_size op |}.

Definition visit_operator (op : Operator) : M S Operator :=
  match op with
  | And b => under_binop And b
  | Or b => under_binop Or b
  | Not u => under_unop Not u
  | Cast u => under_unop Cast u
  | Reinterpret u => under_unop Reinterpret u
  | Index i => let! i := visit_index i in ret (Index i)
  | UncheckedIndex i => let! i := visit_index i in ret (UncheckedIndex i)
  | IndexAssign i => let! i := visit_index_assign i in ret (IndexAssign i)
  | UncheckedIndexAssign i => let! i := visit_index_assign i in ret (UncheckedIndexAssign i)
  | InitLine l => let! vs := visit_vec (li_inputs l) in ret (InitLine {| li_inputs := vs |})
  | CopyMemory c =>
      let! i := visit_read (cm_input c) in
      let! ii := visit_read (cm_in_index c) in
      let! oi := visit_read (cm_out_index c) in
      ret (CopyMemory {| cm_out_index := oi; cm_input := i; cm_in_index := ii |})
  | CopyMemoryBulk c =>
      let! i := visit_read (cmb_input c) in
      let! ii := visit_read (cmb_in_index c) in
      let! oi := visit_read (cmb_out_index c) in
      ret (CopyMemoryBulk
             {| cmb_out_index := oi; cmb_input := i; cmb_in_index := ii; cmb_len := cmb_len c;
                cmb_offset_input := cmb_offset_input c; cmb_offset_out := cmb_offset_out c |})
  | OpSelect s =>
      let! c := visit_read (cond s) in
      let! t := visit_read (then_ s) in
      let! e := visit_read (or_else s) in
      ret (OpSelect {| cond := c; then_ := t; or_else := e |})
  end.

(** The store reads its [out]; the input of a compare-and-swap is not visited,
    its comparand twice. *)
Definition visit_atomic (op : AtomicOp) (out : option Variable_) : M S (AtomicOp * option Variable_) :=
  let plain (m : M S AtomicOp) : M S (AtomicOp * option Variable_) := let! op := m in ret (op, out) in
  match op with
  | AtomicAdd b => plain (under_binop AtomicAdd b)
  | AtomicSub b => plain (under_binop AtomicSub b)
  | AtomicMax b => plain (under_binop AtomicMax b)
  | AtomicMin b => plain (under_binop AtomicMin b)
  | AtomicAnd b => plain (under_binop AtomicAnd b)
  | AtomicOr b => plain (under_binop AtomicOr b)
  | AtomicXor b => plain (under_binop AtomicXor b)
  | AtomicSwap b => plain (under_binop AtomicSwap b)
  | AtomicLoad u => plain (under_unop AtomicLoad u)
  | AtomicStore u =>
      let! o := lift (expect out "called `Option::unwrap()` on a `None` value") in
      let! o := visit_read o in
      let! u := visit_unop u in
      ret (AtomicStore u, Some o)
  | CompareAndSwap c =>
      let! cmp := visit_read (cas_cmp c) in
      let! cmp := visit_read cmp in
      let! v := visit_read (cas_val c) in
      ret (CompareAndSwap {| cas_input := cas_input c; cas_cmp := cmp; cas_val := v |}, out)
  end.

Definition visit_meta (op : Metadata) : M S Metadata :=
  match op with
  | Rank v => let! v := visit_read v in ret (Rank v)
  | Stride d v => let! d := visit_read d in let! v := visit_read v in ret (Stride d v)
  | Shape d v => let! d := visit_read d in let! v := visit_read v in ret (Shape d v)
  | Length v => let! v := visit_read v in ret (Length v)
  | BufferLength v => let! v := visit_read v in ret (BufferLength v)
  end.

Definition visit_plane (op : Plane) : M S Plane :=
  match op with
  | PlaneElect => ret PlaneElect
  | PlaneBroadcast b => under_binop PlaneBroadcast b
  | PlaneAll u => under_unop PlaneAll u
  | PlaneAny u => under_unop PlaneAny u
  | PlaneSum u => under_unop PlaneSum u
  | PlaneInclusiveSum u => under_unop PlaneInclusiveSum u
  | PlaneExclusiveSum u => under_unop PlaneExclusiveSum u
  | PlaneProd u => under_unop PlaneProd u
  | PlaneInclusiveProd u => under_unop PlaneInclusiveProd u
  | PlaneExclusiveProd u => under_unop PlaneExclusiveProd u
  | PlaneMin u => under_unop PlaneMin u
  | PlaneMax u => under_unop PlaneMax u
  | PlaneBallot u => under_unop PlaneBallot u
  end.

Definition visit_cmma (op : CoopMma) : M S CoopMma :=
  match op with
  | CmmaFill v => let! v := visit_read v in ret (CmmaFill v)
  | CmmaLoad v s o l =>
      let! v := visit_read v in
      let! s := visit_read s in
      let! o := visit_read o in
      ret (CmmaLoad v s o l)
  | CmmaExecute a b c =>
      let! a := visit_read a in
      let! b := visit_read b in
      let! c := visit_read c in
      ret (CmmaExecute a b c)
  | CmmaStore m s o l =>
      let! m := visit_read m in
      let! s := visit_read s in
      let! o := visit_read o in
      ret (CmmaStore m s o l)
  | CmmaCast i => let! i := visit_read i in ret (CmmaCast i)
  end.

Definition visit_barrier (op : BarrierOps) : M S BarrierOps :=
  match op with
  | BarrierInit b f => let! b := visit_read b in ret (BarrierInit b f)
  | MemCopyAsync b s l os oo =>
      let! b := visit_read b in
      let! l := visit_read l in
      let! s := visit_read s in
      let! os := visit_read os in
      let! oo := visit_read oo in
      ret (MemCopyAsync b s l os oo)
  | TmaLoad b t idxs oo =>
      let! oo := visit_read oo in
      let! b := visit_read b in
      let! t := visit_read t in
      let! idxs := visit_vec idxs in
      ret (TmaLoad b t idxs oo)
  | TmaLoadIm2col b t idxs os oo =>
      let! oo := visit_read oo in
      let! b := visit_read b in
      let! t := visit_read t in
      let! idxs := visit_vec idxs in
      let! os := visit_vec os in
      ret (TmaLoadIm2col b t idxs os oo)
  | ArriveAndWait b => let! b := visit_read b in ret (ArriveAndWait b)
  | BarrierArrive b => let! b := visit_read b in ret (BarrierArrive b)
  | ArriveTx b a t =>
      let! b := visit_read b in
      let! a := visit_read a in
      let! t := visit_read t in
      ret (ArriveTx b a t)
  | ExpectTx b t =>
      let! b := visit_read b in
      let! t := visit_read t in
      ret (ExpectTx b t)
  | BarrierWait b => let! b := visit_read b in ret (BarrierWait b)
  end.

Definition visit_tma (op : TmaOps) : M S TmaOps :=
  match op with
  | TmaStore s cs o =>
      let! s := visit_read s in
      let! o := visit_read o in
      let! cs := visit_vec cs in
      ret (TmaStore s cs o)
  | CommitGroup => ret CommitGroup
  | WaitGroup n => ret (WaitGroup n)
  | WaitGroupRead n => ret (WaitGroupRead n)
  end.

Definition visit_nonsemantic (op : NonSemantic) : M S NonSemantic :=
  match op with
  | DebugComment c => ret (DebugComment c)
  | EnterDebugScope => ret EnterDebugScope
  | ExitDebugScope => ret ExitDebugScope
  | DebugPrint f args => let! args := visit_vec args in ret (DebugPrint f args)
  end.

Definition visit_operation (op : Operation) (out : option Variable_) : M S (Operation * option Variable_) :=
  match op with
  | Copy v => let! v := visit_read v in ret (Copy v, out)
  | OArithmetic op => let! op := visit_arithmetic op in ret (OArithmetic op, out)
  | OComparison op => let! op := visit_compare op in ret (OComparison op, out)
  | OBitwise op => let! op := visit_bitwise op in ret (OBitwise op, out)
  | OOperator op => let! op := visit_operator op in ret (OOperator op, out)
  | OAtomic op => let! '(op, out) := visit_atomic op out in ret (OAtomic op, out)
  | OMetadata op => let! op := visit_meta op in ret (OMetadata op, out)
  | OSynchronization op => ret (OSynchronization op, out)
  | OPlane op => let! op := visit_plane op in ret (OPlane op, out)
  | OCoopMma op => let! op := visit_cmma op in ret (OCoopMma op, out)
  | OBranch _ => lift unreachable
  | OBarrier op => let! op := visit_barrier op in ret (OBarrier op, out)
  | OTma op => let! op := visit_tma op in ret (OTma op, out)
  | ONonSemantic op => let! op := visit_nonsemantic op in ret (ONonSemantic op, out)
  end.

(** [visit_out], with its own visitor. *)
Definition visit_out (visit_write : Variable_ → M S Variable_) (var : option Variable_) :
    M S (option Variable_) :=
  match var with
  | Some out => let! out := visit_write out in ret (Some out)
  | None => ret None
  end.

Definition visit_instruction (visit_write : Variable_ → M S Variable_) (inst : Instruction) : M S Instruction :=
  let! o := visit_out visit_write (inst_out inst) in
  let! '(op, o) := visit_operation (operation inst) o in
  ret {| inst_out := o; operation := op |}.

End visit.

(** ** Reads and renamings

    [op_reads] lists what a visit sees, [rename] is a visit that replaces
    variables without a state. *)

Definition readable (op : Operation) (out : option Variable_) : bool :=
  match op with
  | OBranch _ => false
  | OAtomic (AtomicStore _) => bool_decide (is_Some out)
  | _ => true
  end.

(** A visitor that only accumulates. *)
Definition observing {S : Type} (f : S → Variable_ → S) (v : Variable_) : M S Variable_ := λ s, Ret (v, f s v).
Definition op_reads (op : Operation) (out : option Variable_) : list Variable_ :=
  match visit_operation (observing (λ l v, l ++ [v])) op out [] with
  | Ret (_, l) => l
  | _ => []
  end.
Definition renaming {S : Type} (g : Variable_ → Variable_) (v : Variable_) : M S Variable_ := ret (g v).
Definition rename (g : Variable_ → Variable_) (op : Operation) (out : option Variable_) :
    Operation * option Variable_ :=
  match visit_operation (renaming g) op out tt with
  | Ret (r, _) => r
  | _ => (op, out)
  end.

Lemma visit_vec_observing {S} (f : S → Variable_ → S) vs s :
  visit_vec (λ v s, Ret (v, f s v)) vs s = Ret (vs, foldl f s vs).
Proof.
  revert s. induction vs as [|v vs IH]; intros s; [done|].
  cbn. unfold bind, ret in *. cbn. by rewrite IH.
Qed.

Lemma visit_vec_renaming {S} (g : Variable_ → Variable_) vs (s : S) :
  visit_vec (λ v s, Ret (g v, s)) vs s = Ret (g <$> vs, s).
Proof.
  revert s. induction vs as [|v vs IH]; intros s; [done|].
  cbn. unfold bind, ret in *. cbn. by rewrite IH.
Qed.

Lemma foldl_collect (acc vs : list Variable_) : foldl (λ l v, l ++ [v]) acc vs = acc ++ vs.
Proof.
  revert acc. induction vs as [|v vs IH]; intros acc; cbn; [by rewrite app_nil_r|].
  by rewrite IH, <-app_assoc.
Qed.

Ltac destruct_payload :=
  repeat match goal with
    | op : Arithmetic |- _ => destruct op
    | op : Comparison |- _ => destruct op
    | op : Bitwise |- _ => destruct op
    | op : Operator |- _ => destruct op
    | op : AtomicOp |- _ => destruct op
    | op : Metadata |- _ => destruct op
    | op : Plane |- _ => destruct op
    | op : CoopMma |- _ => destruct op
    | op : BarrierOps |- _ => destruct op
    | op : TmaOps |- _ => destruct op
    | op : NonSemantic |- _ => destruct op
    | op : BinaryOperator |- _ => destruct op
    | op : UnaryOperator |- _ => destruct op
    | op : FmaOperator |- _ => destruct op
    | op : ClampOperator |- _ => destruct op
    | op : IndexOperator |- _ => destruct op
    | op : IndexAssignOperator |- _ => destruct op
    | op : LineInitOperator |- _ => destruct op
    | op : CopyMemoryOperator |- _ => destruct op
    | op : CopyMemoryBulkOperator |- _ => destruct op
    | op : Select |- _ => destruct op
    | op : CompareAndSwapOperator |- _ => destruct op
    end.

Ltac run_visit :=
  cbv -[visit_vec foldl app fmap list_fmap];
  rewrite ?visit_vec_observing, ?visit_vec_renaming;
  cbv -[visit_vec foldl app fmap list_fmap];
  rewrite ?visit_vec_observing, ?visit_vec_renaming;
  cbv -[visit_vec foldl app fmap list_fmap];
  rewrite ?foldl_collect, ?foldl_app;
  cbn [foldl app fmap list_fmap].

(** What an accumulating visitor has collected. *)
Lemma visit_observing {S} (f : S → Variable_ → S) op out s :
  readable op out = true →
  visit_operation (observing f) op out s = Ret ((op, out), foldl f s (op_reads op out)).
Proof.
  intros Hr. destruct op; destruct_payload; try done.
  all: try (destruct out; [|done]).
  all: try (run_visit; reflexivity).
Qed.

(** A visitor that renames returns. *)
Lemma visit_renaming {S} (g : Variable_ → Variable_) op out (s : S) :
  readable op out = true → visit_operation (renaming g) op out s = Ret (rename g op out, s).
Proof.
  intros Hr. destruct op; destruct_payload; try done.
  all: try (destruct out; [|done]).
  all: try (run_visit; reflexivity).
Qed.

Lemma readable_rename g op out :
  readable op out = true → readable (rename g op out).1 (rename g op out).2 = true.
Proof.
  intros Hr. destruct op; destruct_payload; try done.
  all: try (destruct out; [|done]).
  all: try (run_visit; reflexivity).
Qed.

(** Renamed operations read the renamed variables; the comparand that is
    visited twice makes this an assumption on [g]. *)
Lemma op_reads_rename g op out :
  (∀ v, g (g v) = g v) → readable op out = true →
  op_reads (rename g op out).1 (rename g op out).2 = g <$> op_reads op out.
Proof.
  intros Hg Hr. destruct op; destruct_payload; try done.
  all: try (destruct out; [|done]).
  all: try (run_visit; rewrite ?fmap_app, ?Hg; reflexivity).
Qed.

Lemma rename_rename g h op out :
  (∀ v, h (g v) = h v) → (∀ v, h (h v) = h v) → readable op out = true →
  rename h (rename g op out).1 (rename g op out).2 = rename h op out.
Proof.
  intros Hg Hh Hr.
  assert (Hl : ∀ vs : list Variable_, h <$> (g <$> vs) = h <$> vs).
  { intros vs. rewrite <-list_fmap_compose. apply list_fmap_ext. intros i v _. apply Hg. }
  destruct op; destruct_payload; try done.
  all: try (destruct out; [|done]).
  all: try (run_visit; rewrite ?Hl, ?Hg, ?Hh, ?Hg; reflexivity).
Qed.

(** Only an atomic store visits the output. *)
Definition is_store (op : Operation) : bool :=
  match op with OAtomic (AtomicStore _) => true | _ => false end.

Lemma rename_out g op out :
  readable op out = true → (rename g op out).2 = if is_store op then g <$> out else out.
Proof.
  intros Hr. destruct op; destruct_payload; try done.
  all: try (destruct out; [|done]).
  all: try (run_visit; reflexivity).
Qed.

Lemma rename_op_out g op o o' : (rename g op (Some o)).1 = (rename g op (Some o')).1.
Proof. destruct op; destruct_payload; try done; run_visit; reflexivity. Qed.

Lemma rename_op_none g op o :
  readable op None = true → (rename g op None).1 = (rename g op (Some o)).1.
Proof. intros Hr. destruct op; destruct_payload; try done; run_visit; reflexivity. Qed.

Lemma is_store_rename g op out : readable op out = true → is_store (rename g op out).1 = is_store op.
Proof.
  intros Hr. destruct op; destruct_payload; try done.
  all: try (destruct out; [|done]).
  all: try (run_visit; reflexivity).
Qed.

(** The output only adds a read to a store. *)
Lemma op_reads_out op o o' : is_store op = false → op_reads op (Some o) = op_reads op (Some o').
Proof. intros Hs. destruct op; destruct_payload; try done; run_visit; reflexivity. Qed.

Lemma readable_out op o o' : readable op (Some o) = readable op (Some o').
Proof. by destruct op; destruct_payload. Qed.
