(* ===== verification/Processing.v ===== *)
(** * Scopes and their processing

    [crates/cubecl-ir/src]: the branches of [branch.rs], what the optimiser reads
    of a [Scope] ([scope.rs]), and the processing of a scope ([processing.rs]),
    which gives the constant operands the type of the operation.

    The allocator is shared by all scopes, so its pool of mutable variables is
    an argument; a [Processor] is an interface of the source. *)

From stdpp Require Import gmap.
From S2P Require Import Prelude DeviceNum Ir Visit.

Open Scope N_scope.
Open Scope rust_scope.

(** ** Scopes *)

(** An instruction of a scope; those that branch hold scopes. *)
Inductive ScopeInstruction :=
| Plain (i : Instruction)
| BranchInst (b : Branch)
with Branch :=
| BrIf (cond : Variable_) (scope : Scope)
| BrIfElse (cond : Variable_) (scope_if scope_else : Scope)
| BrSwitch (value : Variable_) (scope_default : Scope) (cases : list (Variable_ * Scope))
| BrRangeLoop (i start end_ : Variable_) (step : option Variable_) (inclusive : bool) (scope : Scope)
| BrLoop (scope : Scope)
| BrReturn
| BrBreak
with Scope := MkScope (sc_instructions : list ScopeInstruction) (sc_locals sc_matrices : list Variable_)
    (sc_const_arrays : list (Variable_ * list Variable_)).

Definition instructions (s : Scope) : list ScopeInstruction := match s with MkScope l _ _ _ => l end.
Definition locals (s : Scope) : list Variable_ := match s with MkScope _ l _ _ => l end.
Definition matrices (s : Scope) : list Variable_ := match s with MkScope _ _ l _ => l end.
Definition scope_const_arrays (s : Scope) : list (Variable_ * list Variable_) := match s with MkScope _ _ _ l => l end.

Record ScopeProcessing := { sp_variables : list Variable_; sp_instructions : list ScopeInstruction }.

(** ** [sanitize_constant_scalars] *)

Definition sanitize_ref_elem (e : Elem) (v : Variable_) : Variable_ :=
  match var_kind v with
  | ConstantScalar scalar =>
      if decide (csv_elem scalar = e) then v
      else match scalar with
           | CInt val _ => constant_from_i64 e val
           | CFloat val _ => constant_from_f64 e val
           | CUInt val _ => constant_from_u64 e val
           | CBool val => constant_from_bool e val
           end
  | _ => v
  end.
Definition sanitize_ref_var (v reference : Variable_) : Variable_ := sanitize_ref_elem (Variable_elem reference) v.

Abbreviation u32_elem := (EUInt U32).

(** Both operands get the type of the output, or the one of the other operand. *)
Definition sanitize_binop (o : Variable_) (b : BinaryOperator) : BinaryOperator :=
  {| lhs := sanitize_ref_var (lhs b) o; rhs := sanitize_ref_var (rhs b) o |}.
Definition sanitize_unop (o : Variable_) (u : UnaryOperator) : UnaryOperator := {| input := sanitize_ref_var (input u) o |}.
Definition sanitize_compare (b : BinaryOperator) : BinaryOperator :=
  let l := sanitize_ref_var (lhs b) (rhs b) in {| lhs := l; rhs := sanitize_ref_var (rhs b) l |}.

Definition sanitize_arithmetic (o : Variable_) (op : Arithmetic) : Arithmetic :=
  match op with
  | Add b => Add (sanitize_binop o b)
  | Fma f => Fma {| fma_a := sanitize_ref_var (fma_a f) o; fma_b := sanitize_ref_var (fma_b f) o;
                    fma_c := sanitize_ref_var (fma_c f) o |}
  | Sub b => Sub (sanitize_binop o b)
  | Mul b => Mul (sanitize_binop o b)
  | Div b => Div (sanitize_binop o b)
  | MulHi b => MulHi (sanitize_binop o b)
  | Abs u => Abs (sanitize_unop o u)
  | Exp u => Exp (sanitize_unop o u)
  | Log u => Log (sanitize_unop o u)
  | Log1p u => Log1p (sanitize_unop o u)
  | Cos u => Cos (sanitize_unop o u)
  | Sin u => Sin (sanitize_unop o u)
  | Tanh u => Tanh (sanitize_unop o u)
  | Powf b => Powf (sanitize_binop o b)
  | Sqrt u => Sqrt (sanitize_unop o u)
  | Round u => Round (sanitize_unop o u)
  | Floor u => Floor (sanitize_unop o u)
  | Ceil u => Ceil (sanitize_unop o u)
  | Erf u => Erf (sanitize_unop o u)
  | Recip u => Recip (sanitize_unop o u)
  | Clamp c => Clamp {| clamp_input := sanitize_ref_var (clamp_input c) o; min_value := sanitize_ref_var (min_value c) o;
                        max_value := sanitize_ref_var (max_value c) o |}
  | Modulo b => Modulo (sanitize_binop o b)
  | Neg u => Neg (sanitize_unop o u)
  | Max b => Max (sanitize_binop o b)
  | Min b => Min (sanitize_binop o b)
  | Remainder b => Remainder (sanitize_binop o b)
  | Magnitude u => Magnitude (sanitize_unop o u)
  | Normalize u => Normalize (sanitize_unop o u)
  | Dot b => Dot (sanitize_binop o b)
  end.

Definition sanitize_comparison (op : Comparison) : Comparison :=
  match op with
  | Greater b => Greater (sanitize_compare b)
  | LowerEqual b => LowerEqual (sanitize_compare b)
  | GreaterEqual b => GreaterEqual (sanitize_compare b)
  | Equal b => Equal (sanitize_compare b)
  | NotEqual b => NotEqual (sanitize_compare b)
  | Lower b => Lower (sanitize_compare b)
  end.

(** [inst.out.unwrap()]. *)
Definition out_of (out : option Variable_) : outcome Variable_ := expect out "called `Option::unwrap()` on a `None` value".

Definition sanitize_bitwise (out : option Variable_) (op : Bitwise) : outcome Bitwise :=
  match op with
  | BitwiseAnd b => let? o := out_of out in Ret (BitwiseAnd (sanitize_binop o b))
  | BitwiseOr b => let? o := out_of out in Ret (BitwiseOr (sanitize_binop o b))
  | BitwiseXor b => let? o := out_of out in Ret (BitwiseXor (sanitize_binop o b))
  | CountOnes _ | LeadingZeros _ | FindFirstSet _ => Ret op
  | ReverseBits u => let? o := out_of out in Ret (ReverseBits (sanitize_unop o u))
  | ShiftLeft b => let? o := out_of out in Ret (ShiftLeft (sanitize_binop o b))
  | ShiftRight b => let? o := out_of out in Ret (ShiftRight (sanitize_binop o b))
  | BitwiseNot u => let? o := out_of out in Ret (BitwiseNot (sanitize_unop o u))
  end.

Definition sanitize_index (o : Variable_) (op : IndexOperator) : IndexOperator :=
  {| idx_list := sanitize_ref_var (idx_list op) o; idx_index := sanitize_ref_elem u32_elem (idx_index op);
     idx_line_size := idx_line_size op |}.
Definition sanitize_index_assign (o : Variable_) (op : IndexAssignOperator) : IndexAssignOperator :=
  {| ia_index := sanitize_ref_elem u32_elem (ia_index op); ia_value := sanitize_ref_var (ia_value op) o;
     ia_line_size := ia_line_size op |}.

Definition sanitize_operator (out : option Variable_) (op : Operator) : outcome Operator :=
  match op with
  | Index i => let? o := out_of out in Ret (Index (sanitize_index o i))
  | UncheckedIndex i => let? o := out_of out in Ret (UncheckedIndex (sanitize_index o i))
  | IndexAssign i => let? o := out_of out in Ret (IndexAssign (sanitize_index_assign o i))
  | UncheckedIndexAssign i => let? o := out_of out in Ret (UncheckedIndexAssign (sanitize_index_assign o i))
  | And b => Ret (And (sanitize_compare b))
  | Or b => Ret (Or (sanitize_compare b))
  | Not u => Ret (Not {| input := sanitize_ref_elem EBool (input u) |})
  | InitLine _ => Ret op
  | CopyMemory c =>
      let? o := out_of out in
      Ret (CopyMemory {| cm_out_index := sanitize_ref_elem u32_elem (cm_out_index c);
                         cm_input := sanitize_ref_var (cm_input c) o;
                         cm_in_index := sanitize_ref_elem u32_elem (cm_in_index c) |})
  | CopyMemoryBulk c =>
      let? o := out_of out in
      Ret (CopyMemoryBulk {| cmb_out_index := sanitize_ref_elem u32_elem (cmb_out_index c);
                             cmb_input := sanitize_ref_var (cmb_input c) o;
                             cmb_in_index := sanitize_ref_elem u32_elem (cmb_in_index c);
                             cmb_len := cmb_len c; cmb_offset_input := cmb_offset_input c;
                             cmb_offset_out := cmb_offset_out c |})
  | OpSelect s =>
      let? o := out_of out in
      Ret (OpSelect {| cond := sanitize_ref_elem EBool (cond s); then_ := sanitize_ref_var (then_ s) o;
                       or_else := sanitize_ref_var (or_else s) o |})
  | Cast _ | Reinterpret _ => Ret op
  end.

(** The operand of an atomic operation, not its pointer. *)
Definition sanitize_rhs (o : Variable_) (b : BinaryOperator) : BinaryOperator :=
  {| lhs := lhs b; rhs := sanitize_ref_var (rhs b) o |}.
Definition sanitize_atomic (out : option Variable_) (op : AtomicOp) : outcome AtomicOp :=
  match op with
  | AtomicLoad _ | AtomicStore _ => Ret op
  | AtomicSwap b => let? o := out_of out in Ret (AtomicSwap (sanitize_rhs o b))
  | CompareAndSwap c =>
      let? o := out_of out in
      Ret (CompareAndSwap {| cas_input := cas_input c; cas_cmp := sanitize_ref_var (cas_cmp c) o;
                             cas_val := sanitize_ref_var (cas_val c) o |})
  | AtomicAdd b => let? o := out_of out in Ret (AtomicAdd (sanitize_rhs o b))
  | AtomicSub b => let? o := out_of out in Ret (AtomicSub (sanitize_rhs o b))
  | AtomicMax b => let? o := out_of out in Ret (AtomicMax (sanitize_rhs o b))
  | AtomicMin b => let? o := out_of out in Ret (AtomicMin (sanitize_rhs o b))
  | AtomicAnd b => let? o := out_of out in Ret (AtomicAnd (sanitize_rhs o b))
  | AtomicOr b => let? o := out_of out in Ret (AtomicOr (sanitize_rhs o b))
  | AtomicXor b => let? o := out_of out in Ret (AtomicXor (sanitize_rhs o b))
  end.

Definition sanitize_metadata (op : Metadata) : Metadata :=
  match op with
  | Stride dim var => Stride (sanitize_ref_elem u32_elem dim) var
  | Shape dim var => Shape (sanitize_ref_elem u32_elem dim) var
  | Length _ | BufferLength _ | Rank _ => op
  end.

Definition sanitize_cmma (out : option Variable_) (op : CoopMma) : outcome CoopMma :=
  match op with
  | CmmaFill value => let? o := out_of out in Ret (CmmaFill (sanitize_ref_var value o))
  | CmmaLoad value stride offset layout =>
      let? o := out_of out in
      Ret (CmmaLoad (sanitize_ref_var value o) (sanitize_ref_elem u32_elem stride) offset layout)
  | CmmaExecute _ _ _ => Ret op
  | CmmaStore mat stride offset layout => Ret (CmmaStore mat (sanitize_ref_elem u32_elem stride) offset layout)
  | CmmaCast _ => Ret op
  end.

Definition sanitize_operation (out : option Variable_) (op : Operation) : outcome Operation :=
  match op with
  | Copy v => let? o := out_of out in Ret (Copy (sanitize_ref_var v o))
  | OArithmetic a => let? o := out_of out in Ret (OArithmetic (sanitize_arithmetic o a))
  | OComparison c => Ret (OComparison (sanitize_comparison c))
  | OBitwise b => let? b := sanitize_bitwise out b in Ret (OBitwise b)
  | OOperator o => let? o := sanitize_operator out o in Ret (OOperator o)
  | OAtomic a => let? a := sanitize_atomic out a in Ret (OAtomic a)
  | OMetadata m => Ret (OMetadata (sanitize_metadata m))
  | OCoopMma c => let? c := sanitize_cmma out c in Ret (OCoopMma c)
  | OBranch _ | OSynchronization _ | OPlane _ | ONonSemantic _ | OBarrier _ | OTma _ => Ret op
  end.

Definition sanitize_branch (b : Branch) : Branch :=
  match b with
  | BrIf cond scope => BrIf (sanitize_ref_elem EBool cond) scope
  | BrIfElse cond s e => BrIfElse (sanitize_ref_elem EBool cond) s e
  | BrRangeLoop i start end_ step inclusive scope =>
      BrRangeLoop (sanitize_ref_var i start) start (sanitize_ref_var end_ start)
        (sanitize_ref_elem u32_elem <$> step) inclusive scope
  | b => b
  end.

Definition sanitize_instruction (i : ScopeInstruction) : outcome ScopeInstruction :=
  match i with
  | Plain i =>
      let? op := sanitize_operation (inst_out i) (operation i) in
      Ret (Plain {| inst_out := inst_out i; operation := op |})
  | BranchInst b => Ret (BranchInst (sanitize_branch b))
  end.
Fixpoint sanitize_constant_scalars (l : list ScopeInstruction) : outcome (list ScopeInstruction) :=
  match l with
  | [] => Ret []
  | i :: l =>
      let? i := sanitize_instruction i in
      let? l := sanitize_constant_scalars l in
      Ret (i :: l)
  end.
Definition optimize (p : ScopeProcessing) : outcome ScopeProcessing :=
  let? l := sanitize_constant_scalars (sp_instructions p) in
  Ret {| sp_variables := sp_variables p; sp_instructions := l |}.

(** ** [Scope::process] *)

(** The trait [Processor]. *)
Class Processor := { transform : ScopeProcessing → Allocator → outcome (ScopeProcessing * Allocator) }.

Fixpoint run_processors (ps : list Processor) (p : ScopeProcessing) (a : Allocator) :
    outcome (ScopeProcessing * Allocator) :=
  match ps with
  | [] => Ret (p, a)
  | q :: ps => let? '(p, a) := @transform q p a in run_processors ps p a
  end.

(** [pool] are the variables that [take_variables] drains. *)
Definition Scope_process (ps : list Processor) (pool : list Variable_) (s : Scope) (a : Allocator) :
    outcome (ScopeProcessing * Allocator) :=
  let? p := optimize {| sp_variables := locals s ++ matrices s ++ pool; sp_instructions := instructions s |} in
  run_processors ps p a.

(** ** What processing does to the operands *)

(** Constants have no atomic types. *)
Definition value_elem (e : Elem) : Elem :=
  match e with EAtomicFloat k => EFloat k | EAtomicInt k => EInt k | EAtomicUInt k => EUInt k | e => e end.

Lemma sanitize_variable e v : (∀ c, var_kind v ≠ ConstantScalar c) → sanitize_ref_elem e v = v.
Proof. unfold sanitize_ref_elem. destruct (var_kind v); try done. intros H. by destruct (H c). Qed.

Lemma constant_variable c : var_kind (Variable_constant c) = ConstantScalar c ∧ Variable_elem (Variable_constant c) = csv_elem c.
Proof. by destruct c. Qed.

Lemma sanitize_constant e v c :
  var_kind v = ConstantScalar c →
  ∃ c', var_kind (sanitize_ref_elem e v) = ConstantScalar c' ∧ csv_elem c' = value_elem e.
Proof.
  intros Hv. unfold sanitize_ref_elem. rewrite Hv. case_decide as He.
  - exists c. split; [done|]. rewrite <-He. by destruct c.
  - destruct c; destruct e; eexists; by split.
Qed.

Lemma sanitize_elem e v c :
  var_kind v = ConstantScalar c → csv_elem c ≠ e → Variable_elem (sanitize_ref_elem e v) = value_elem e.
Proof. intros Hv He. unfold sanitize_ref_elem. rewrite Hv, decide_False by done. by destruct c, e. Qed.

Lemma sanitize_twice e v : sanitize_ref_elem e (sanitize_ref_elem e v) = sanitize_ref_elem e v.
Proof.
  unfold sanitize_ref_elem at 2 3. destruct (var_kind v) eqn:Hv;
    try (apply sanitize_variable; intros c; by rewrite Hv).
  case_decide as He; [unfold sanitize_ref_elem; by rewrite Hv, decide_True|].
  destruct c, e; unfold sanitize_ref_elem; cbn -[decide]; by case_decide.
Qed.

Lemma ref_var_twice v o : sanitize_ref_var (sanitize_ref_var v o) o = sanitize_ref_var v o.
Proof. apply sanitize_twice. Qed.

(** The integer of a constant, and the constants that their kind can hold. *)
Definition int_value (c : ConstantScalarValue) : option Z :=
  match c with CInt v _ | CUInt v _ => Some v | CBool b => Some (b2z b) | CFloat _ _ => None end.
Definition constant_fits (c : ConstantScalarValue) : Prop :=
  match c with CInt v _ => (i64_min ≤ v ≤ i64_max)%Z | CUInt v _ => (0 ≤ v ≤ u64_top)%Z | _ => True end.
Definition elem_holds (e : Elem) (n : Z) : Prop :=
  match value_elem e with
  | EInt _ => (i64_min ≤ n ≤ i64_max)%Z
  | EUInt _ => (0 ≤ n ≤ u64_top)%Z
  | EBool => (0 ≤ n ≤ 1)%Z
  | _ => False
  end.

Lemma wrap_s_fits v : (i64_min ≤ wrap_s 64 v ≤ i64_max)%Z.
Proof. unfold wrap_s, i64_min, i64_max. pose proof (Z.mod_pos_bound (v + 2 ^ (64 - 1)) (2 ^ 64) ltac:(lia)). lia. Qed.
Lemma wrap_s64_id v : (i64_min ≤ v ≤ i64_max)%Z → wrap_s 64 v = v.
Proof. unfold wrap_s, i64_min, i64_max. intros H. rewrite Z.mod_small; lia. Qed.
Lemma wrap_u_fits v : (0 ≤ wrap_u 64 v ≤ u64_top)%Z.
Proof. unfold wrap_u, u64_top. pose proof (Z.mod_pos_bound v (2 ^ 64) ltac:(lia)). lia. Qed.
Lemma wrap_u64_id v : (0 ≤ v ≤ u64_top)%Z → wrap_u 64 v = v.
Proof. unfold wrap_u, u64_top. intros H. apply Z.mod_small. lia. Qed.
Lemma f64_to_i64_fits x : (i64_min ≤ f64_to_i64 x ≤ i64_max)%Z.
Proof.
  unfold i64_min, i64_max. destruct x as [|[]| |[] m e]; cbn -[Z.shiftl Z.pow]; unfold i64_min, i64_max; try lia.
  all: assert (0 ≤ Z.shiftl (Zpos m) e)%Z by (apply Z.shiftl_nonneg; lia); lia.
Qed.
Lemma f64_to_u64_fits x : (0 ≤ Z.of_N (f64_to_u64 x) ≤ u64_top)%Z.
Proof. pose proof (f64_to_u64_max x). unfold u64_top, u64_max in *. lia. Qed.

(** C15. Giving a constant the type of an operation keeps it within the 64 bits of its
    kind, and keeps its integer whenever the new kind can hold it; the new
    kind is the one asked for, without atomicity. *)
Theorem sanitize_fits e v c :
  var_kind v = ConstantScalar c → constant_fits c →
  ∃ c', var_kind (sanitize_ref_elem e v) = ConstantScalar c' ∧ csv_elem c' = value_elem e ∧ constant_fits c' ∧
    ∀ n, int_value c = Some n → elem_holds e n → int_value c' = Some n.
Proof.
  intros Hv Hc. unfold sanitize_ref_elem. rewrite Hv. case_decide as He.
  - exists c. split_and!; [done| |done|by intros]. rewrite <-He. by destruct c.
  - destruct c as [val k|val k|val k|val], e; cbn in Hc; (eexists; split; [reflexivity|]; split; [reflexivity|]; split).
    all: match goal with
         | |- constant_fits _ => unfold constant_fits; first [done | apply wrap_s_fits | apply wrap_u_fits |
             apply f64_to_i64_fits | apply f64_to_u64_fits | by destruct val]
         | |- _ => intros n Hn Hh; try discriminate Hn; injection Hn as <-; cbn in Hh |- *
         end.
    all: rewrite ?wrap_s64_id, ?wrap_u64_id by done; try done.
    all: f_equal; destruct (Z.ltb_spec 0 val); cbn; lia.
Qed.

(** The operations whose output is unwrapped. *)
Definition unwraps_out (op : Operation) : bool :=
  match op with
  | Copy _ | OArithmetic _ => true
  | OBitwise (CountOnes _ | LeadingZeros _ | FindFirstSet _) => false
  | OBitwise _ => true
  | OOperator (And _ | Or _ | Not _ | InitLine _ | Cast _ | Reinterpret _) => false
  | OOperator _ => true
  | OAtomic (AtomicLoad _ | AtomicStore _) => false
  | OAtomic _ => true
  | OCoopMma (CmmaFill _ | CmmaLoad _ _ _ _) => true
  | _ => false
  end.

(** Constants whose item agrees with their kind. *)
Definition const_typed (v : Variable_) : Prop := ∀ c, var_kind v = ConstantScalar c → Variable_elem v = csv_elem c.
Definition converted (v v' : Variable_) : Prop := ∃ e, v' = sanitize_ref_elem e v.

Lemma converted_refl v : converted v v.
Proof.
  destruct (var_kind v) eqn:Hv; try (exists EBool; by rewrite sanitize_variable by (intros ?; by rewrite Hv)).
  exists (csv_elem c). unfold sanitize_ref_elem. by rewrite Hv, decide_True.
Qed.
Lemma converted_elem e v : converted v (sanitize_ref_elem e v).
Proof. by exists e. Qed.
Lemma converted_list (l : list Variable_) : Forall2 converted l l.
Proof. apply Forall_Forall2_diag, Forall_forall. intros v _. apply converted_refl. Qed.
#[local] Hint Resolve converted_refl converted_elem converted_list : core.

#[local] Opaque sanitize_ref_elem converted.

(** The operations read what they read before, with constants converted. *)
Lemma sanitize_operation_reads out op op' :
  sanitize_operation out op = Ret op' → readable op out = true →
  readable op' out = true ∧ Forall2 converted (op_reads op out) (op_reads op' out).
Proof.
  intros Hs Hr. destruct op; destruct_payload; cbn in Hs; try discriminate Hr.
  all: try (destruct out as [o|]; cbn in Hs; try discriminate Hs; try discriminate Hr).
  all: injection Hs as <-; split; [done|].
  all: run_visit; auto; repeat constructor; auto.
Qed.


(** A second round changes nothing. *)
Lemma const_cases v : (∃ c, var_kind v = ConstantScalar c) ∨ ∀ c, var_kind v ≠ ConstantScalar c.
Proof. destruct (var_kind v) eqn:E; try (by right). left. by eexists. Qed.

Lemma value_elem_csv c : value_elem (csv_elem c) = csv_elem c.
Proof. by destruct c. Qed.

(** If the left operand is a constant, the right one stays. *)
Lemma compare_right b c :
  const_typed (lhs b) → const_typed (rhs b) → var_kind (lhs b) = ConstantScalar c →
  sanitize_ref_var (rhs b) (sanitize_ref_var (lhs b) (rhs b)) = rhs b.
Proof.
  intros Hl Hr Hc. destruct (const_cases (rhs b)) as [[c2 H2]|H2]; [|by apply sanitize_variable].
  assert (He : Variable_elem (sanitize_ref_var (lhs b) (rhs b)) = csv_elem c2).
  { unfold sanitize_ref_var. rewrite (Hr c2 H2). destruct (decide (csv_elem c = csv_elem c2)) as [Heq|Hne].
    - assert (Hs : sanitize_ref_elem (csv_elem c2) (lhs b) = lhs b).
      { Transparent sanitize_ref_elem. unfold sanitize_ref_elem. by rewrite Hc, decide_True. }
      rewrite Hs, <-Heq. by apply Hl.
    - rewrite (sanitize_elem _ _ c); [apply value_elem_csv|done|done]. }
  unfold sanitize_ref_var at 1. rewrite He. unfold sanitize_ref_elem. by rewrite H2, decide_True.
Qed.

Lemma sanitize_compare_twice b :
  const_typed (lhs b) → const_typed (rhs b) → sanitize_compare (sanitize_compare b) = sanitize_compare b.
Proof.
  intros Hl Hr. destruct (const_cases (lhs b)) as [[c Hc]|Hc]; unfold sanitize_compare; cbn [lhs rhs].
  - rewrite (compare_right b c) by done. by rewrite ref_var_twice, (compare_right b c).
  - assert (Hs : ∀ r, sanitize_ref_var (lhs b) r = lhs b) by (intros; by apply sanitize_variable).
    by rewrite !Hs, ref_var_twice.
Qed.

Lemma sanitize_operation_twice out op op' :
  sanitize_operation out op = Ret op' → Forall const_typed (op_reads op out) → sanitize_operation out op' = Ret op'.
Proof.
  intros Hs Ht.
  assert (Hc : ∀ b, Forall const_typed [lhs b; rhs b] → sanitize_compare (sanitize_compare b) = sanitize_compare b).
  { intros b [H1 [H2 _]%Forall_cons]%Forall_cons. by apply sanitize_compare_twice. }
  destruct op; destruct_payload; cbn in Hs; try discriminate Hs;
    try (destruct out as [o|]; cbn in Hs; try discriminate Hs); injection Hs as <-;
    cbn; unfold sanitize_binop, sanitize_unop, sanitize_rhs, sanitize_index, sanitize_index_assign; cbn;
    rewrite ?ref_var_twice, ?sanitize_twice; try reflexivity.
  all: by rewrite Hc by exact Ht.
Qed.

(** *** The instructions of a scope *)

Definition processable (i : ScopeInstruction) : Prop :=
  match i with
  | Plain i => readable (operation i) (inst_out i) = true ∧ (unwraps_out (operation i) = true → is_Some (inst_out i)) ∧
      Forall const_typed (op_reads (operation i) (inst_out i))
  | BranchInst _ => True
  end.
Definition processed (i i' : ScopeInstruction) : Prop :=
  match i, i' with
  | Plain i, Plain i' => inst_out i' = inst_out i ∧ readable (operation i') (inst_out i') = true ∧
      Forall2 converted (op_reads (operation i) (inst_out i)) (op_reads (operation i') (inst_out i'))
  | BranchInst b, BranchInst b' => b' = sanitize_branch b
  | _, _ => False
  end.

Lemma sanitize_operation_total out op :
  (unwraps_out op = true → is_Some out) → ∃ op', sanitize_operation out op = Ret op'.
Proof.
  intros Ho. destruct out as [o|].
  - destruct op; destruct_payload; cbn; by eexists.
  - assert (Hn : unwraps_out op = false) by (destruct (unwraps_out op); [by destruct (Ho eq_refl)|done]).
    destruct op; destruct_payload; try discriminate Hn; cbn; by eexists.
Qed.

Lemma sanitize_branch_twice b : sanitize_branch (sanitize_branch b) = sanitize_branch b.
Proof.
  destruct b as [| | |i start end_ step inc sc| | |]; cbn; rewrite ?sanitize_twice, ?ref_var_twice; try done.
  destruct step; cbn; by rewrite ?sanitize_twice.
Qed.


(** ** The theorems at a comparison and an addition *)

Module ProcessingDemo.
#[local] Transparent const_typed.
Definition float_cell : Variable_ := Variable_new (LocalMut 1) (Item_new (EFloat F32)).
Definition one_i32 : Variable_ := Variable_constant (CInt 1 I32).
Definition demo_instructions : list ScopeInstruction := [
  Plain (Instruction_new (OArithmetic (Add {| lhs := float_cell; rhs := one_i32 |})) float_cell);
  Plain (Instruction_new (OComparison (Lower {| lhs := one_i32; rhs := Variable_constant (CUInt 7 U32) |}))
           (Variable_new (LocalConst 2) (Item_new EBool)))].


Lemma sanitize_fits_witness :
  ∃ c', var_kind (sanitize_ref_elem (EUInt U32) one_i32) = ConstantScalar c' ∧ csv_elem c' = EUInt U32 ∧
    constant_fits c' ∧ ∀ n, int_value (CInt 1 I32) = Some n → elem_holds (EUInt U32) n → int_value c' = Some n.
Proof. apply (sanitize_fits (EUInt U32) one_i32 (CInt 1 I32)); [reflexivity|]. unfold constant_fits, i64_min, i64_max. lia. Defined.
End ProcessingDemo.
