(* ===== verification/Cfg.v ===== *)
(** * The control-flow graph of the optimiser

    [crates/cubecl-opt/src]: the program of [lib.rs], the blocks of [block.rs]
    and [control_flow.rs], the analyses of [analyses/{base,post_order,liveness,
    writes,dominance}.rs], the placement of phi nodes of [phi_frontiers.rs]
    and the versioning of variables of [version.rs].

    The graph is petgraph's [StableDiGraph], the instructions of a block are a
    [StableVec]: both are classes, whose laws state what their documentation
    promises.  The cells around the parts of a block are not shared between
    blocks, so a block is a value that is stored back.  Hash maps and sets are
    iterated in an unknown order, the class [HashOrder]. *)

From stdpp Require Import gmap sets.
From S2P Require Import Prelude Ir Visit.

Open Scope N_scope.
Open Scope rust_scope.

Abbreviation NodeIndex := N (only parsing).
Abbreviation EdgeIndex := N (only parsing).
Abbreviation Id := N (only parsing).
Abbreviation Liveness := (gmap NodeIndex (gset Id)) (only parsing).
Abbreviation Writes := (gmap NodeIndex (gset Id)) (only parsing).
Abbreviation DomFrontiers := (gmap NodeIndex (gset NodeIndex)) (only parsing).
Abbreviation Versions := (gmap Id N) (only parsing).

(** ** Blocks *)

Inductive BlockUse := ContinueTarget | Merge.
#[export] Instance BlockUse_eq_dec : EqDecision BlockUse.
Proof. solve_decision. Defined.

Record PhiEntry := { pe_block : NodeIndex; pe_value : Variable_ }.
Record PhiInstruction := { phi_out : Variable_; phi_entries : list PhiEntry }.

Inductive ControlFlow :=
| CfIfElse (cond : Variable_) (then_ or_else : NodeIndex) (merge : option NodeIndex)
| CfSwitch (value : Variable_) (default : NodeIndex) (branches : list (N * NodeIndex))
    (merge : option NodeIndex)
| CfLoop (body continue_target merge : NodeIndex)
| CfLoopBreak (break_cond : Variable_) (body continue_target merge : NodeIndex)
| CfReturn
| CfNone.

(** What is used of a [StableVec]: the values that are still there, and the
    stores through [values_mut]. *)
Class StableVec (V : Type) := {
  sv_values : V → list Instruction;
  sv_store : V → list Instruction → V;
}.
Class StableVecSpec (V : Type) `{StableVec V} := {
  sv_values_store v l : length l = length (sv_values v) → sv_values (sv_store v l) = l;
  sv_store_values v : sv_store v (sv_values v) = v;
}.

(** The slots of a [StableVec], up to [sv_next]: [sv_insert] stores at an index, [sv_collect]
    builds a vector from an iterator. *)
Class StableVecOps (V : Type) := {
  sv_next : V → nat;
  sv_indices : V → list nat;
  sv_get : V → nat → option Instruction;
  sv_remove : V → nat → V;
  sv_insert : V → nat → Instruction → V;
  sv_collect : list Instruction → V;
  sv_extend : V → list Instruction → V;
}.
Class StableVecOpsSpec (V : Type) `{StableVec V} `{StableVecOps V} := {
  sv_indices_nodup v : NoDup (sv_indices v);
  sv_indices_lt v i : i ∈ sv_indices v → (i < sv_next v)%nat;
  sv_get_index v i : is_Some (sv_get v i) ↔ i ∈ sv_indices v;
  sv_values_get v : sv_values v = omap (sv_get v) (sv_indices v);
  sv_indices_remove v i : sv_indices (sv_remove v i) = filter (λ j, j ≠ i) (sv_indices v);
  sv_get_remove v i j : sv_get (sv_remove v i) j = if decide (i = j) then None else sv_get v j;
  sv_next_remove v i : sv_next (sv_remove v i) = sv_next v;
  sv_get_insert v i x j :
    (i < sv_next v)%nat → sv_get (sv_insert v i x) j = if decide (i = j) then Some x else sv_get v j;
  sv_indices_insert v i x : i ∈ sv_indices v → sv_indices (sv_insert v i x) = sv_indices v;
  sv_values_collect l : sv_values (sv_collect l) = l;
  sv_values_extend v l : sv_values (sv_extend v l) = sv_values v ++ l;
}.

Record BasicBlock (V : Type) := {
  block_use : list BlockUse;
  phi_nodes : list PhiInstruction;
  ops : V;
  control_flow : ControlFlow;
}.
Arguments block_use {V} _.
Arguments phi_nodes {V} _.
Arguments ops {V} _.
Arguments control_flow {V} _.

(** ** The graph *)

(** [edges] lists the outgoing edges with their targets, [sources] the sources
    of the incoming ones; [set_weight] stores through [program[node]]. *)
Class StableDiGraph (V G : Type) := {
  node_indices : G → list NodeIndex;
  node_weight : G → NodeIndex → option (BasicBlock V);
  edges : G → NodeIndex → list (EdgeIndex * NodeIndex);
  sources : G → NodeIndex → list NodeIndex;
  set_weight : G → NodeIndex → BasicBlock V → G;
  dfs_post_order : G → NodeIndex → list NodeIndex;
  Dominators : Type;
  simple_fast : G → NodeIndex → Dominators;
  immediate_dominator : Dominators → NodeIndex → option NodeIndex;
}.

(** The changes of the graph.  [add_edge] panics for a node that is not there;
    removing a node removes its edges. *)
Class StableDiGraphMut (V G : Type) := {
  add_node : G → BasicBlock V → NodeIndex * G;
  add_edge : G → NodeIndex → NodeIndex → option G;
  remove_edge : G → EdgeIndex → G;
  remove_node : G → NodeIndex → G;
}.

(** The iteration order of hash maps and hash sets. *)
Class HashOrder := {
  key_order : gmap Id Item → list Id;
  set_order : gset NodeIndex → list NodeIndex;
}.
Class HashOrderSpec `{HashOrder} := {
  key_order_perm m : key_order m ≡ₚ (map_to_list m).*1;
  set_order_perm s : set_order s ≡ₚ elements s;
}.

Section optimizer.
  Context {V G : Type} `{SV : StableVec V} `{SG : StableDiGraph V G} `{HO : HashOrder}.

Record ConstArray := { ca_id : Id; ca_length : N; ca_item : Item; ca_values : list Variable_ }.

Record Program := {
  const_arrays : list ConstArray;
  variables : gmap Id Item;
  graph : G;
  program_root : NodeIndex;
}.

(** *** Analyses *)


(** The analyses that are modelled; the real cache holds two more. *)
Record AnalysisCache := {
  c_post_order : option (list NodeIndex);
  c_dominators : option Dominators;
  c_liveness : option Liveness;
  c_writes : option Writes;
  c_dom_frontiers : option DomFrontiers;
}.
Definition empty_cache : AnalysisCache :=
  {| c_post_order := None; c_dominators := None; c_liveness := None; c_writes := None;
     c_dom_frontiers := None |}.

(** The fields of [Optimizer] that the analyses and the SSA transform use. *)
Record Optimizer := {
  program : Program;
  analysis_cache : AnalysisCache;
  opt_ret : NodeIndex;
}.

Definition entry (opt : Optimizer) : NodeIndex := program_root (program opt).
Definition opt_graph (opt : Optimizer) : G := graph (program opt).
Definition node_ids (opt : Optimizer) : list NodeIndex := node_indices (opt_graph opt).
Definition predecessors (opt : Optimizer) (block : NodeIndex) : list NodeIndex := sources (opt_graph opt) block.
Definition successors (opt : Optimizer) (block : NodeIndex) : list NodeIndex := (edges (opt_graph opt) block).*2.

(** [program[node]]. *)
Definition block_of (g : G) (node : NodeIndex) : outcome (BasicBlock V) :=
  expect (node_weight g node) "called `Option::unwrap()` on a `None` value".
Definition index_map {A : Type} (m : gmap N A) (k : N) : outcome A := expect (m !! k) "no entry found for key".

Definition set_cache (c : AnalysisCache) (opt : Optimizer) : Optimizer :=
  {| program := program opt; analysis_cache := c; opt_ret := opt_ret opt |}.
Definition set_graph (g : G) (opt : Optimizer) : Optimizer :=
  {| program := {| const_arrays := const_arrays (program opt); variables := variables (program opt);
                   graph := g; program_root := program_root (program opt) |};
     analysis_cache := analysis_cache opt; opt_ret := opt_ret opt |}.

Definition local_variable_id (v : Variable_) : option Id :=
  match var_kind v with
  | LocalMut id => if is_atomic (item_elem (var_item v)) then None else Some id
  | _ => None
  end.

(** [PostOrder::init], [Dominators::init]. *)
Definition post_order_init (opt : Optimizer) : list NodeIndex := dfs_post_order (opt_graph opt) (entry opt).
Definition dominators_init (opt : Optimizer) : Dominators := simple_fast (opt_graph opt) (entry opt).

(** [AnalysisCache::get] for the analyses that need no other one. *)
Definition analysis_post_order : M Optimizer (list NodeIndex) :=
  let! opt := get_state in
  match c_post_order (analysis_cache opt) with
  | Some a => ret a
  | None =>
      let a := post_order_init opt in
      let c := analysis_cache opt in
      let! _ := modify_state (set_cache
        {| c_post_order := Some a; c_dominators := c_dominators c; c_liveness := c_liveness c;
           c_writes := c_writes c; c_dom_frontiers := c_dom_frontiers c |}) in
      ret a
  end.
Definition analysis_dominators : M Optimizer Dominators :=
  let! opt := get_state in
  match c_dominators (analysis_cache opt) with
  | Some a => ret a
  | None =>
      let a := dominators_init opt in
      let c := analysis_cache opt in
      let! _ := modify_state (set_cache
        {| c_post_order := c_post_order c; c_dominators := Some a; c_liveness := c_liveness c;
           c_writes := c_writes c; c_dom_frontiers := c_dom_frontiers c |}) in
      ret a
  end.

Definition invalidate_liveness : M Optimizer unit :=
  modify_state (λ opt, let c := analysis_cache opt in set_cache
    {| c_post_order := c_post_order c; c_dominators := c_dominators c; c_liveness := None;
       c_writes := c_writes c; c_dom_frontiers := c_dom_frontiers c |} opt).
Definition invalidate_writes : M Optimizer unit :=
  modify_state (λ opt, let c := analysis_cache opt in set_cache
    {| c_post_order := c_post_order c; c_dominators := c_dominators c; c_liveness := c_liveness c;
       c_writes := None; c_dom_frontiers := c_dom_frontiers c |} opt).
Definition invalidate_dom_frontiers : M Optimizer unit :=
  modify_state (λ opt, let c := analysis_cache opt in set_cache
    {| c_post_order := c_post_order c; c_dominators := c_dominators c; c_liveness := c_liveness c;
       c_writes := c_writes c; c_dom_frontiers := None |} opt).
Definition invalidate_structure : M Optimizer unit :=
  modify_state (λ opt, let c := analysis_cache opt in set_cache
    {| c_post_order := None; c_dominators := None; c_liveness := None;
       c_writes := c_writes c; c_dom_frontiers := c_dom_frontiers c |} opt).
(** *** Liveness ([analyses/liveness.rs]) *)

Record BlockSets := { generated : gset Id; kill : gset Id }.

Definition visit_kill (v : Variable_) : M BlockSets Variable_ := λ s,
  Ret (v, match local_variable_id v with
          | Some id => {| generated := generated s ∖ {[id]}; kill := kill s ∪ {[id]} |}
          | None => s
          end).
Definition visit_generated (v : Variable_) : M BlockSets Variable_ := λ s,
  Ret (v, match local_variable_id v with
          | Some id => {| generated := generated s ∪ {[id]}; kill := kill s |}
          | None => s
          end).

(** The instructions backwards: reads are tracked after writes. *)
Fixpoint block_sets_of (insts : list Instruction) (s : BlockSets) : outcome BlockSets :=
  match insts with
  | [] => Ret s
  | op :: insts =>
      let? '(_, s) := visit_out visit_kill (inst_out op) s in
      let? '(_, s) := visit_operation visit_generated (operation op) (inst_out op) s in
      block_sets_of insts s
  end.
Definition calculate_block_sets (opt : Optimizer) (block : NodeIndex) : outcome BlockSets :=
  let? b := block_of (opt_graph opt) block in
  block_sets_of (rev (sv_values (ops b))) {| generated := ∅; kill := ∅ |}.

Record LivenessState := { worklist : list NodeIndex; sets_cache : gmap NodeIndex BlockSets }.

Definition block_sets (opt : Optimizer) (block : NodeIndex) (st : LivenessState) :
    outcome (BlockSets * LivenessState) :=
  match sets_cache st !! block with
  | Some s => Ret (s, st)
  | None =>
      let? s := calculate_block_sets opt block in
      Ret (s, {| worklist := worklist st; sets_cache := <[block := s]> (sets_cache st) |})
  end.

Fixpoint extend_live (live : Liveness) (kill : gset Id) (succs : list NodeIndex) (acc : gset Id) :
    outcome (gset Id) :=
  match succs with
  | [] => Ret acc
  | s :: succs =>
      let? successor := index_map live s in
      extend_live live kill succs (acc ∪ (successor ∖ kill))
  end.

Definition analyze_block (opt : Optimizer) (live : Liveness) (block : NodeIndex) (st : LivenessState) :
    outcome (Liveness * LivenessState) :=
  let? '(sets, st) := block_sets opt block st in
  let? live_vars := extend_live live (kill sets) (successors opt block) (generated sets) in
  let? old := index_map live block in
  if decide (live_vars = old) then Ret (live, st)
  else Ret (<[block := live_vars]> live,
            {| worklist := worklist st ++ predecessors opt block; sets_cache := sets_cache st |}).

Fixpoint analyze_loop (fuel : nat) (opt : Optimizer) (live : Liveness) (st : LivenessState) : outcome Liveness :=
  match worklist st with
  | [] => Ret live
  | block :: rest =>
      match fuel with
      | O => OutOfFuel
      | S fuel =>
          let? '(live, st) := analyze_block opt live block {| worklist := rest; sets_cache := sets_cache st |} in
          analyze_loop fuel opt live st
      end
  end.

Definition Liveness_empty (opt : Optimizer) : Liveness :=
  list_to_map ((λ it, (it, ∅)) <$> node_ids opt).
Definition at_block (live : Liveness) (block : NodeIndex) : outcome (gset Id) := index_map live block.
Definition is_dead (live : Liveness) (node : NodeIndex) (var : Id) : outcome bool :=
  let? l := at_block live node in Ret (negb (bool_decide (var ∈ l))).

Definition analyze_liveness (fuel : nat) (live : Liveness) : M Optimizer Liveness :=
  let! wl := analysis_post_order in
  let! opt := get_state in
  lift (analyze_loop fuel opt live {| worklist := wl; sets_cache := ∅ |}).
Definition analysis_liveness (fuel : nat) : M Optimizer Liveness :=
  let! opt := get_state in
  match c_liveness (analysis_cache opt) with
  | Some a => ret a
  | None =>
      let! a := analyze_liveness fuel (Liveness_empty opt) in
      let! opt := get_state in
      let c := analysis_cache opt in
      let! _ := modify_state (set_cache
        {| c_post_order := c_post_order c; c_dominators := c_dominators c; c_liveness := Some a;
           c_writes := c_writes c; c_dom_frontiers := c_dom_frontiers c |}) in
      ret a
  end.

(** *** Writes ([analyses/writes.rs]) *)

Fixpoint writes_block (block : NodeIndex) (insts : list Instruction) (w : Writes) : outcome Writes :=
  match insts with
  | [] => Ret w
  | inst :: insts =>
      match inst_out inst ≫= local_variable_id with
      | Some id =>
          let? old := expect (w !! block) "called `Option::unwrap()` on a `None` value" in
          writes_block block insts (<[block := old ∪ {[id]}]> w)
      | None => writes_block block insts w
      end
  end.
Fixpoint writes_blocks (opt : Optimizer) (blocks : list NodeIndex) (w : Writes) : outcome Writes :=
  match blocks with
  | [] => Ret w
  | block :: blocks =>
      let? b := block_of (opt_graph opt) block in
      let? w := writes_block block (sv_values (ops b)) w in
      writes_blocks opt blocks w
  end.
Definition Writes_new (opt : Optimizer) : outcome Writes :=
  writes_blocks opt (node_ids opt) (list_to_map ((λ it, (it, ∅)) <$> node_ids opt)).
Definition analysis_writes : M Optimizer Writes :=
  let! opt := get_state in
  match c_writes (analysis_cache opt) with
  | Some a => ret a
  | None =>
      let! a := lift (Writes_new opt) in
      let c := analysis_cache opt in
      let! _ := modify_state (set_cache
        {| c_post_order := c_post_order c; c_dominators := c_dominators c; c_liveness := c_liveness c;
           c_writes := Some a; c_dom_frontiers := c_dom_frontiers c |}) in
      ret a
  end.

(** *** Dominance frontiers ([analyses/dominance.rs]) *)

Definition unwrap_dominator (doms : Dominators) (node : NodeIndex) : outcome NodeIndex :=
  expect (immediate_dominator doms node) "called `Option::unwrap()` on a `None` value".

Fixpoint run_up (fuel : nat) (doms : Dominators) (node runner : NodeIndex) (df : DomFrontiers) :
    outcome DomFrontiers :=
  let? idom := unwrap_dominator doms node in
  if decide (runner = idom) then Ret df
  else match fuel with
       | O => OutOfFuel
       | S fuel =>
           let? old := expect (df !! runner) "called `Option::unwrap()` on a `None` value" in
           let df := <[runner := old ∪ {[node]}]> df in
           let? runner := unwrap_dominator doms runner in
           run_up fuel doms node runner df
       end.
Fixpoint frontiers_of_preds (fuel : nat) (doms : Dominators) (node : NodeIndex) (preds : list NodeIndex)
    (df : DomFrontiers) : outcome DomFrontiers :=
  match preds with
  | [] => Ret df
  | p :: preds =>
      let? df := run_up fuel doms node p df in
      frontiers_of_preds fuel doms node preds df
  end.
Fixpoint frontiers_of_nodes (fuel : nat) (opt : Optimizer) (doms : Dominators) (nodes : list NodeIndex)
    (df : DomFrontiers) : outcome DomFrontiers :=
  match nodes with
  | [] => Ret df
  | node :: nodes =>
      let preds := predecessors opt node in
      let? df := if (2 <=? length preds)%nat then frontiers_of_preds fuel doms node preds df else Ret df in
      frontiers_of_nodes fuel opt doms nodes df
  end.
Definition DomFrontiers_new (fuel : nat) : M Optimizer DomFrontiers :=
  let! doms := analysis_dominators in
  let! opt := get_state in
  lift (frontiers_of_nodes fuel opt doms (node_ids opt) (list_to_map ((λ it, (it, ∅)) <$> node_ids opt))).
Definition analysis_dom_frontiers (fuel : nat) : M Optimizer DomFrontiers :=
  let! opt := get_state in
  match c_dom_frontiers (analysis_cache opt) with
  | Some a => ret a
  | None =>
      let! a := DomFrontiers_new fuel in
      let! opt := get_state in
      let c := analysis_cache opt in
      let! _ := modify_state (set_cache
        {| c_post_order := c_post_order c; c_dominators := c_dominators c; c_liveness := c_liveness c;
           c_writes := c_writes c; c_dom_frontiers := Some a |}) in
      ret a
  end.

(** ** Phi nodes ([phi_frontiers.rs]) *)

Definition set_phis (b : BasicBlock V) (phis : list PhiInstruction) : BasicBlock V :=
  {| block_use := block_use b; phi_nodes := phis; ops := ops b; control_flow := control_flow b |}.

Definition phi_for (opt : Optimizer) (block : NodeIndex) (id : Id) (item : Item) : PhiInstruction :=
  let var := Variable_new (Versioned id 0) item in
  {| phi_out := var;
     phi_entries := (λ pred, {| pe_block := pred; pe_value := var |}) <$> predecessors opt block |}.
Definition insert_phi (block : NodeIndex) (id : Id) (item : Item) : M Optimizer unit :=
  let! opt := get_state in
  let! b := lift (block_of (opt_graph opt) block) in
  modify_state (set_graph (set_weight (opt_graph opt) block
    (set_phis b (phi_nodes b ++ [phi_for opt block id item])))).

Record PhiWork := {
  workset : list NodeIndex;
  considered : list NodeIndex;
  already_inserted : list NodeIndex;
}.

(** The body of the loop over the frontiers of one node. *)
Fixpoint place_at (liveness : Liveness) (var : Id) (frontiers : list NodeIndex) (w : PhiWork) :
    M Optimizer PhiWork :=
  match frontiers with
  | [] => ret w
  | frontier :: frontiers =>
      if decide (frontier ∈ already_inserted w) then place_at liveness var frontiers w
      else
        let! dead := lift (is_dead liveness frontier var) in
        if (dead : bool) then place_at liveness var frontiers w
        else
          let! opt := get_state in
          let! item := lift (index_map (variables (program opt)) var) in
          let! _ := insert_phi frontier var item in
          let inserted := already_inserted w ++ [frontier] in
          place_at liveness var frontiers
            (if decide (frontier ∈ considered w)
             then {| workset := workset w; considered := considered w; already_inserted := inserted |}
             else {| workset := workset w ++ [frontier]; considered := considered w ++ [frontier];
                     already_inserted := inserted |})
  end.

(** [while let Some(node) = workset.pop()]: from the end. *)
Definition pop_back {A : Type} (l : list A) : option (A * list A) :=
  match rev l with
  | [] => None
  | x :: r => Some (x, rev r)
  end.
Fixpoint place_loop (fuel : nat) (df : DomFrontiers) (liveness : Liveness) (var : Id) (w : PhiWork) :
    M Optimizer unit :=
  match pop_back (workset w) with
  | None => ret tt
  | Some (node, rest) =>
      match fuel with
      | O => lift OutOfFuel
      | S fuel =>
          let! fs := lift (index_map df node) in
          let! w := place_at liveness var (set_order fs)
            {| workset := rest; considered := considered w; already_inserted := already_inserted w |} in
          place_loop fuel df liveness var w
      end
  end.

(** The filter with the indexing of [writes]. *)
Fixpoint writers (writes : Writes) (var : Id) (nodes : list NodeIndex) : outcome (list NodeIndex) :=
  match nodes with
  | [] => Ret []
  | n :: nodes =>
      let? w := index_map writes n in
      let? rest := writers writes var nodes in
      Ret (if decide (var ∈ w) then n :: rest else rest)
  end.

Fixpoint place_vars (fuel : nat) (writes : Writes) (liveness : Liveness) (df : DomFrontiers) (keys : list Id) :
    M Optimizer unit :=
  match keys with
  | [] => ret tt
  | var :: keys =>
      let! opt := get_state in
      let! ws := lift (writers writes var (node_ids opt)) in
      let! _ := place_loop fuel df liveness var {| workset := ws; considered := ws; already_inserted := [] |} in
      place_vars fuel writes liveness df keys
  end.

(** [live_fuel] bounds the rounds of the liveness analysis, [fuel] the other
    loops. *)
Definition place_phi_nodes (live_fuel fuel : nat) : M Optimizer unit :=
  let! opt := get_state in
  let keys := key_order (variables (program opt)) in
  let! writes := analysis_writes in
  let! liveness := analysis_liveness live_fuel in
  let! dom_frontiers := analysis_dom_frontiers fuel in
  place_vars fuel writes liveness dom_frontiers keys.

(** ** Versioning ([version.rs]) *)

(** [SsaState]: [versions] belongs to the block, the rest is shared by
    mutable references. *)
Record SsaShared := {
  visited_blocks : gset NodeIndex;
  visited_edges : gset EdgeIndex;
  max_versions : gmap Id N;
}.

Definition u16_max : N := 65535.

Definition as_versioned (v : Variable_) : option (Id * Item * N) :=
  match var_kind v with
  | Versioned id version => Some (id, var_item v, version)
  | _ => None
  end.
Definition versioned (id version : N) (item : Item) : Variable_ := Variable_new (Versioned id version) item.

(** [*max_version += 1; *version = *max_version]. *)
Definition next_version (id : Id) (st : Versions * gmap Id N) : outcome (N * (Versions * gmap Id N)) :=
  let '(versions, maxs) := st in
  let? m := expect (maxs !! id) "called `Option::unwrap()` on a `None` value" in
  let? m := checked_add u16_max m 1 in
  Ret (m, (<[id := m]> versions, <[id := m]> maxs)).

Section versioning.
  Context (vars : gmap Id Item).

(** The visitors of [version_read] and [version_writes]. *)
Definition version_read (versions : Versions) (v : Variable_) : Variable_ :=
  match var_kind v with
  | LocalMut id | Versioned id _ =>
      match vars !! id with
      | Some _ =>
          match versions !! id with
          | Some version => versioned id version (var_item v)
          | None => v
          end
      | None => v
      end
  | _ => v
  end.
Definition version_write (v : Variable_) : M (Versions * gmap Id N) Variable_ := λ st,
  match var_kind v with
  | LocalMut id | Versioned id _ =>
      match st.1 !! id with
      | Some _ =>
          let? '(version, st) := next_version id st in
          Ret (versioned id version (var_item v), st)
      | None => Ret (v, st)
      end
  | _ => Ret (v, st)
  end.

Definition version_reads (op : Instruction) : M (Versions * gmap Id N) Instruction :=
  let! st := get_state in
  let! '(o, out) := visit_operation (λ v, ret (version_read st.1 v)) (operation op) (inst_out op) in
  ret {| inst_out := out; operation := o |}.
Definition version_writes (op : Instruction) : M (Versions * gmap Id N) Instruction :=
  let! out := visit_out version_write (inst_out op) in
  ret {| inst_out := out; operation := operation op |}.

Definition version_phi_out (phi : PhiInstruction) : M (Versions * gmap Id N) PhiInstruction := λ st,
  match as_versioned (phi_out phi) with
  | Some (id, item, _) =>
      match vars !! id with
      | Some _ =>
          let? _ := expect (st.1 !! id) "called `Option::unwrap()` on a `None` value" in
          let? '(version, st) := next_version id st in
          Ret ({| phi_out := versioned id version item; phi_entries := phi_entries phi |}, st)
      | None => Ret (phi, st)
      end
  | None => Ret (phi, st)
  end.

Fixpoint version_phi_outs (phis : list PhiInstruction) : M (Versions * gmap Id N) (list PhiInstruction) :=
  match phis with
  | [] => ret []
  | phi :: phis =>
      let! phi := version_phi_out phi in
      let! phis := version_phi_outs phis in
      ret (phi :: phis)
  end.
Fixpoint version_ops (insts : list Instruction) : M (Versions * gmap Id N) (list Instruction) :=
  match insts with
  | [] => ret []
  | op :: insts =>
      let! op := version_reads op in
      let! op := version_writes op in
      let! insts := version_ops insts in
      ret (op :: insts)
  end.

Definition version_control_flow (versions : Versions) (c : ControlFlow) : ControlFlow :=
  match c with
  | CfIfElse cond t e m => CfIfElse (version_read versions cond) t e m
  | CfLoopBreak cond b c m => CfLoopBreak (version_read versions cond) b c m
  | CfSwitch value d bs m => CfSwitch (version_read versions value) d bs m
  | c => c
  end.

(** [version_block_ops] on the contents of the block. *)
Definition version_block_ops (b : BasicBlock V) : M (Versions * gmap Id N) (BasicBlock V) :=
  let! phis := version_phi_outs (phi_nodes b) in
  let! insts := version_ops (sv_values (ops b)) in
  let! st := get_state in
  ret {| block_use := block_use b; phi_nodes := phis; ops := sv_store (ops b) insts;
         control_flow := version_control_flow st.1 (control_flow b) |}.

(** [version_phi]: the entry of the edge from [source] in each phi of [target]. *)
Definition version_value (versions : Versions) (value : Variable_) : outcome Variable_ :=
  match as_versioned value with
  | Some (id, item, _) =>
      match vars !! id with
      | Some _ => let? version := index_map versions id in Ret (versioned id version item)
      | None => Ret value
      end
  | None => Ret value
  end.
Fixpoint version_entry (source : NodeIndex) (versions : Versions) (es : list PhiEntry) : outcome (list PhiEntry) :=
  match es with
  | [] => Panic "called `Option::unwrap()` on a `None` value"
  | e :: es =>
      if decide (pe_block e = source) then
        let? v := version_value versions (pe_value e) in
        Ret ({| pe_block := pe_block e; pe_value := v |} :: es)
      else
        let? es := version_entry source versions es in
        Ret (e :: es)
  end.
Fixpoint version_phis (source : NodeIndex) (versions : Versions) (phis : list PhiInstruction) :
    outcome (list PhiInstruction) :=
  match phis with
  | [] => Ret []
  | phi :: phis =>
      let? es := version_entry source versions (phi_entries phi) in
      let? phis := version_phis source versions phis in
      Ret ({| phi_out := phi_out phi; phi_entries := es |} :: phis)
  end.
Definition version_phi (target source : NodeIndex) (versions : Versions) (g : G) : outcome G :=
  let? b := block_of g target in
  let? phis := version_phis source versions (phi_nodes b) in
  Ret (set_weight g target (set_phis b phis)).

(** One round of the loop over the edges; [visit] is the recursive call. *)
Definition version_edge (visit : NodeIndex → Versions → M (G * SsaShared) unit)
    (block : NodeIndex) (versions : Versions) (e : EdgeIndex * NodeIndex) : M (G * SsaShared) unit :=
  let '(edge_id, target) := e in
  let! '(g, sh) := get_state in
  let edge_visited := bool_decide (edge_id ∈ visited_edges sh) in
  let block_visited := bool_decide (target ∈ visited_blocks sh) in
  let sh := {| visited_blocks := {[block]} ∪ visited_blocks sh;
               visited_edges := {[edge_id]} ∪ visited_edges sh;
               max_versions := max_versions sh |} in
  let! g := if edge_visited then ret g else lift (version_phi target block versions g) in
  let! _ := modify_state (λ _, (g, sh)) in
  if block_visited then ret tt else visit target versions.

Fixpoint version_edges (visit : NodeIndex → Versions → M (G * SsaShared) unit)
    (block : NodeIndex) (versions : Versions) (es : list (EdgeIndex * NodeIndex)) : M (G * SsaShared) unit :=
  match es with
  | [] => ret tt
  | e :: es =>
      let! _ := version_edge visit block versions e in
      version_edges visit block versions es
  end.

Fixpoint version_block (fuel : nat) (block : NodeIndex) (versions : Versions) : M (G * SsaShared) unit :=
  match fuel with
  | O => lift OutOfFuel
  | S fuel =>
      let! '(g, sh) := get_state in
      let! b := lift (block_of g block) in
      let! '(b, (versions, maxs)) := lift (version_block_ops b (versions, max_versions sh)) in
      let g := set_weight g block b in
      let! _ := modify_state (λ _,
        (g, {| visited_blocks := visited_blocks sh; visited_edges := visited_edges sh; max_versions := maxs |})) in
      version_edges (version_block fuel) block versions (edges g block)
  end.
End versioning.

Definition version_program (fuel : nat) : M Optimizer unit :=
  let! opt := get_state in
  let vars := variables (program opt) in
  let versions : Versions := (λ _, 0) <$> vars in
  let! '(_, (g, _)) := lift (version_block vars fuel (entry opt) versions
    (opt_graph opt, {| visited_blocks := ∅; visited_edges := ∅; max_versions := versions |})) in
  modify_state (set_graph g).

(** ** The SSA transform ([lib.rs]) *)

Definition clear_variables : M Optimizer unit :=
  modify_state (λ opt,
    {| program := {| const_arrays := const_arrays (program opt); variables := ∅;
                     graph := opt_graph opt; program_root := entry opt |};
       analysis_cache := analysis_cache opt; opt_ret := opt_ret opt |}).

Definition ssa_transform (live_fuel fuel : nat) : M Optimizer unit :=
  let! _ := place_phi_nodes live_fuel fuel in
  let! _ := version_program fuel in
  let! _ := clear_variables in
  let! _ := invalidate_writes in
  invalidate_dom_frontiers.

(** [exempt_index_assign_locals]: vectors assigned by element stay mutable. *)
Definition exempt_inst (op : Instruction) (vars : gmap Id Item) : outcome (gmap Id Item) :=
  match operation op with
  | OOperator (IndexAssign _) =>
      let? o := out op in
      match var_kind o with
      | LocalMut id => Ret (delete id vars)
      | _ => Ret vars
      end
  | _ => Ret vars
  end.
Fixpoint exempt_insts (insts : list Instruction) (vars : gmap Id Item) : outcome (gmap Id Item) :=
  match insts with
  | [] => Ret vars
  | op :: insts => let? vars := exempt_inst op vars in exempt_insts insts vars
  end.
Fixpoint exempt_blocks (g : G) (nodes : list NodeIndex) (vars : gmap Id Item) : outcome (gmap Id Item) :=
  match nodes with
  | [] => Ret vars
  | n :: nodes =>
      let? b := block_of g n in
      let? vars := exempt_insts (sv_values (ops b)) vars in
      exempt_blocks g nodes vars
  end.
Definition exempt_index_assign_locals : M Optimizer unit :=
  let! opt := get_state in
  let! vars := lift (exempt_blocks (opt_graph opt) (node_ids opt) (variables (program opt))) in
  modify_state (λ opt,
    {| program := {| const_arrays := const_arrays (program opt); variables := vars;
                     graph := opt_graph opt; program_root := entry opt |};
       analysis_cache := analysis_cache opt; opt_ret := opt_ret opt |}).

End optimizer.
Arguments Program _ : clear implicits.
Arguments AnalysisCache V G {_}.
Arguments Optimizer V G {_}.
