(* ===== verification/Dominance.v ===== *)
(** * Walks, dominators and what the graph library promises

    Dominance over the walks of a directed graph, the laws of the class
    [StableDiGraph] and of the algorithms that the optimiser calls on it. *)

From stdpp Require Import gmap sets.
From S2P Require Import Prelude Ir Visit Cfg.

Open Scope N_scope.

(** ** Walks *)

Section walks.
  Context (E : N → N → Prop).

(** [walk a l b]: a walk from [a] to [b] that visits [l] after [a]. *)
Inductive walk : N → list N → N → Prop :=
| walk_nil a : walk a [] a
| walk_cons a b l c : E a b → walk b l c → walk a (b :: l) c.

Definition reach (a b : N) : Prop := ∃ l, walk a l b.

Lemma walk_app a l b l' c : walk a l b → walk b l' c → walk a (l ++ l') c.
Proof. induction 1; cbn; [done|]. intros. by econstructor; eauto. Qed.

Lemma walk_snoc a l b c : walk a l b → E b c → walk a (l ++ [c]) c.
Proof. intros. eapply walk_app; [done|]. by repeat econstructor. Qed.

Lemma walk_last a l b : walk a l b → b ∈ a :: l.
Proof. induction 1; [constructor|by apply list_elem_of_further]. Qed.

(** A node on a walk splits it. *)
Lemma walk_split a l b x :
  walk a l b → x ∈ a :: l → ∃ l1 l2, l = l1 ++ l2 ∧ walk a l1 x ∧ walk x l2 b.
Proof.
  induction 1 as [a|a b l c He Hw IH]; intros Hx.
  - apply list_elem_of_singleton in Hx as ->. exists [], []. repeat split; constructor.
  - apply elem_of_cons in Hx as [->|Hx].
    + exists [], (b :: l). split; [done|]. split; [constructor|by econstructor].
    + destruct (IH Hx) as (l1 & l2 & -> & H1 & H2).
      exists (b :: l1), l2. split; [done|]. split; [by econstructor|done].
Qed.

Lemma walk_inv_snoc a l b : walk a l b → l = [] ∧ a = b ∨ ∃ l' p, l = l' ++ [b] ∧ walk a l' p ∧ E p b.
Proof.
  induction 1 as [a|a b l c He Hw IH]; [by left|right].
  destruct IH as [[-> ->]|(l' & p & -> & Hw' & Hp)].
  - exists [], a. by repeat split; [constructor|].
  - exists (b :: l'), p. repeat split; [by econstructor|done].
Qed.

Lemma reach_refl a : reach a a.
Proof. exists []. constructor. Qed.
Lemma reach_step a b c : reach a b → E b c → reach a c.
Proof. intros [l Hl] He. exists (l ++ [c]). by eapply walk_snoc. Qed.
Lemma reach_trans a b c : reach a b → reach b c → reach a c.
Proof. intros [l Hl] [l' Hl']. exists (l ++ l'). by eapply walk_app. Qed.

(** Every walk can be cut down to one that repeats no node. *)
Lemma simple_walk a l b : walk a l b → ∃ l', walk a l' b ∧ NoDup (a :: l').
Proof.
  induction 1 as [a|a b l c He Hw (l' & Hw' & Hnd)].
  - exists []. split; [constructor|apply NoDup_singleton].
  - destruct (decide (a ∈ b :: l')) as [Hin|Hni].
    + destruct (walk_split _ _ _ _ Hw' Hin) as (l1 & l2 & Heq & H1 & H2).
      exists l2. split; [done|]. apply NoDup_cons. rewrite Heq in Hnd.
      apply NoDup_cons in Hnd as [Hb Hnd]. apply NoDup_app in Hnd as (_ & Hdisj & Hnd2).
      split; [|done].
      intros Ha. apply walk_last in H1. apply elem_of_cons in H1 as [->|H1].
      * apply Hb. apply elem_of_app. by right.
      * by apply (Hdisj a).
    + exists (b :: l'). split; [by econstructor|by apply NoDup_cons].
Qed.

(** ** Dominance *)

Context (root : N).

Definition dominates (d n : N) : Prop := ∀ l, walk root l n → d ∈ root :: l.
Definition strictly_dominates (d n : N) : Prop := d ≠ n ∧ dominates d n.

Lemma dominates_refl n : dominates n n.
Proof. intros l. apply walk_last. Qed.

Lemma dominates_root n : dominates root n.
Proof. intros l _. apply elem_of_cons. by left. Qed.

Lemma dominates_trans a b c : dominates a b → dominates b c → dominates a c.
Proof.
  intros Hab Hbc l Hl. destruct (walk_split _ _ _ _ Hl (Hbc _ Hl)) as (l1 & l2 & -> & H1 & _).
  specialize (Hab _ H1). apply elem_of_cons in Hab as [->|H]; [constructor|].
  apply list_elem_of_further, elem_of_app. by left.
Qed.

(** The dominator of a node comes earlier on every walk. *)
Lemma dominates_earlier d n l :
  strictly_dominates d n → walk root l n → ∃ l', walk root l' d ∧ (length l' < length l)%nat.
Proof.
  intros [Hne Hd] Hl. destruct (walk_split _ _ _ _ Hl (Hd _ Hl)) as (l1 & l2 & -> & H1 & H2).
  exists l1. split; [done|]. rewrite length_app.
  destruct l2 as [|x l2]; [inversion H2; congruence|cbn; lia].
Qed.

Lemma dominates_antisym a b : reach root b → dominates a b → dominates b a → a = b.
Proof.
  intros [l Hl] Hab Hba. destruct (decide (a = b)) as [|Hne]; [done|exfalso].
  remember (length l) as k eqn:Hk. revert a b l Hl Hab Hba Hne Hk.
  induction k as [k IH] using lt_wf_ind. intros a b l Hl Hab Hba Hne ->.
  destruct (dominates_earlier a b l) as (l' & Hl' & Hlt); [done..|].
  by eapply (IH (length l') Hlt b a l').
Qed.

Lemma strictly_dominates_trans a b c :
  reach root c → strictly_dominates a b → dominates b c → strictly_dominates a c.
Proof.
  intros Hr [Hne Hab] Hbc. split; [|by eapply dominates_trans].
  intros ->. apply Hne. symmetry. by apply dominates_antisym.
Qed.

(** Strict dominators of a node dominate its predecessors. *)
Lemma dominates_pred d p n : strictly_dominates d n → E p n → dominates d p.
Proof.
  intros [Hne Hd] He l Hl. specialize (Hd _ (walk_snoc _ _ _ _ Hl He)).
  apply elem_of_cons in Hd as [->|Hd]; [constructor|].
  apply elem_of_app in Hd as [Hd|Hd]; [by apply list_elem_of_further|].
  by apply list_elem_of_singleton in Hd.
Qed.

(** [d] is the closest strict dominator of [n]. *)
Definition immediate (d n : N) : Prop :=
  strictly_dominates d n ∧ ∀ d', strictly_dominates d' n → dominates d' d.

(** Of two dominators of a node, one is passed on the way from the other. *)
Lemma dominators_ordered d d' n l l' :
  d ≠ d' → reach root n → dominates d n → dominates d' n →
  walk d l n → d' ∉ l → walk d' l' n → d ∉ l' → False.
Proof.
  intros Hne [l0 Hl0] Hd Hd' Hl Hnl Hl' Hnl'.
  destruct (simple_walk _ _ _ Hl0) as (s & Hs & Hnd).
  destruct (walk_split _ _ _ _ Hs (Hd _ Hs)) as (l1 & l2 & -> & H1 & H2).
  destruct (decide (d' ∈ root :: l1)) as [Hin|Hni].
  - destruct (walk_split _ _ _ _ H1 Hin) as (a & b & -> & Ha & Hb).
    specialize (Hd _ (walk_app _ _ _ _ _ Ha Hl')).
    rewrite app_comm_cons in Hd. apply elem_of_app in Hd as [Hd|Hd]; [|done].
    assert (Hdb : d ∈ b).
    { apply walk_last, elem_of_cons in Hb as [->|Hb]; done. }
    rewrite <-app_assoc, app_comm_cons in Hnd. apply NoDup_app in Hnd as (_ & Hdisj & _).
    apply (Hdisj d Hd), elem_of_app. by left.
  - specialize (Hd' _ (walk_app _ _ _ _ _ H1 Hl)).
    rewrite app_comm_cons in Hd'. by apply elem_of_app in Hd' as [Hd'|Hd'].
Qed.

(** Without a walk around [d] that ends in [n], [d] dominates [n]: a set that
    holds the root, is closed under the edges that avoid [d], and misses [n]. *)
Lemma dominates_by_set (s : gset N) d n :
  (root = d ∨ root ∈ s) → (∀ a b, a ∈ s → E a b → b = d ∨ b ∈ s) → n ∉ s →
  dominates d n.
Proof.
  intros Hr Hc Hn l Hl.
  destruct (decide (d ∈ root :: l)) as [|Hni]; [done|exfalso].
  destruct Hr as [->|Hr]; [apply Hni; constructor|].
  assert (Hin : ∀ a l, walk a l n → a ∈ s → d ∉ l → n ∈ s).
  { clear l Hl Hni. intros a l Hw. induction Hw as [a|a b l c He Hw IH]; intros Ha Hd; [done|].
    apply not_elem_of_cons in Hd as [Hb Hd]. apply IH; [done| |done].
    by destruct (Hc _ _ Ha He) as [->|]. }
  apply Hn, (Hin root l); [done..|]. intros H. by apply Hni, list_elem_of_further.
Qed.
End walks.

Lemma walk_mono (E E' : N → N → Prop) a l b : (∀ x y, E x y → E' x y) → walk E a l b → walk E' a l b.
Proof. intros He. induction 1; [constructor|]. econstructor; [by apply He|done]. Qed.

(** ** Laws of the graph library *)

(** [edge g a b]: the graph has an edge from [a] to [b]. *)
Definition edge {V G : Type} `{StableDiGraph V G} (g : G) (a b : N) : Prop := b ∈ (edges g a).*2.
#[export] Instance edge_dec {V G : Type} `{StableDiGraph V G} (g : G) a b : Decision (edge g a b).
Proof. unfold edge. apply _. Defined.

Class StableDiGraphSpec (V G : Type) `{StableDiGraph V G} := {
  node_indices_nodup (g : G) : NoDup (node_indices g);
  node_weight_node (g : G) n : is_Some (node_weight g n) ↔ n ∈ node_indices g;
  edge_nodes (g : G) a e b : (e, b) ∈ edges g a → a ∈ node_indices g ∧ b ∈ node_indices g;
  edges_nodup (g : G) a : NoDup (edges g a).*1;
  edge_ids (g : G) a a' e b b' : (e, b) ∈ edges g a → (e, b') ∈ edges g a' → a = a';
  sources_edge (g : G) a b : a ∈ sources g b ↔ edge g a b;
  sources_nodup (g : G) b : (∀ a, NoDup (edges g a).*2) → NoDup (sources g b);
  set_weight_indices (g : G) n b : node_indices (set_weight g n b) = node_indices g;
  set_weight_edges (g : G) n b a : edges (set_weight g n b) a = edges g a;
  set_weight_sources (g : G) n b a : sources (set_weight g n b) a = sources g a;
  set_weight_same (g : G) n b : n ∈ node_indices g → node_weight (set_weight g n b) n = Some b;
  set_weight_other (g : G) n b m : n ≠ m → node_weight (set_weight g n b) m = node_weight g m;
}.

(** New nodes and edges get unused indices; everything else is kept. *)
Class StableDiGraphMutSpec (V G : Type) `{StableDiGraph V G} `{!StableDiGraphMut V G} := {
  add_node_fresh (g : G) b : (add_node g b).1 ∉ node_indices g;
  add_node_indices (g : G) b n : n ∈ node_indices (add_node g b).2 ↔ n = (add_node g b).1 ∨ n ∈ node_indices g;
  add_node_same (g : G) b : node_weight (add_node g b).2 (add_node g b).1 = Some b;
  add_node_other (g : G) b m : m ≠ (add_node g b).1 → node_weight (add_node g b).2 m = node_weight g m;
  add_node_edges (g : G) b m : edges (add_node g b).2 m = edges g m;
  add_edge_some (g : G) a b : is_Some (add_edge g a b) ↔ a ∈ node_indices g ∧ b ∈ node_indices g;
  add_edge_indices (g : G) a b g' : add_edge g a b = Some g' → node_indices g' = node_indices g;
  add_edge_weight (g : G) a b g' m : add_edge g a b = Some g' → node_weight g' m = node_weight g m;
  add_edge_same (g : G) a b g' : add_edge g a b = Some g' → ∃ e, edges g' a ≡ₚ (e, b) :: edges g a;
  add_edge_other (g : G) a b g' m : add_edge g a b = Some g' → m ≠ a → edges g' m = edges g m;
  remove_edge_indices (g : G) e : node_indices (remove_edge g e) = node_indices g;
  remove_edge_weight (g : G) e m : node_weight (remove_edge g e) m = node_weight g m;
  remove_edge_edges (g : G) e m : edges (remove_edge g e) m = filter (λ x, x.1 ≠ e) (edges g m);
  remove_node_indices (g : G) n : node_indices (remove_node g n) = filter (λ m, m ≠ n) (node_indices g);
  remove_node_weight (g : G) n m : m ≠ n → node_weight (remove_node g n) m = node_weight g m;
  remove_node_edges (g : G) n m : m ≠ n → edges (remove_node g n) m = filter (λ x, x.2 ≠ n) (edges g m);
}.

(** [DfsPostOrder] lists the nodes that can be reached, each once, and
    [simple_fast] computes immediate dominators. *)
Record algorithms_ok {V G : Type} `{StableDiGraph V G} (g : G) (root : N) : Prop := {
  post_order_reach n : n ∈ dfs_post_order g root ↔ reach (edge g) root n;
  post_order_nodup : NoDup (dfs_post_order g root);
  idom_some n d : immediate_dominator (simple_fast g root) n = Some d → immediate (edge g) root d n;
  idom_exists n : reach (edge g) root n → n ≠ root → is_Some (immediate_dominator (simple_fast g root) n);
}.

Section graph.
  Context {V G : Type} `{SG : StableDiGraph V G} `{!StableDiGraphSpec V G} (g : G).

Lemma edge_node_l a b : edge g a b → a ∈ node_indices g.
Proof. intros ([e ?] & -> & He)%list_elem_of_fmap. by apply edge_nodes in He as []. Qed.
Lemma edge_node_r a b : edge g a b → b ∈ node_indices g.
Proof. intros ([e ?] & -> & He)%list_elem_of_fmap. by apply edge_nodes in He as []. Qed.

Lemma reach_node a b : a ∈ node_indices g → reach (edge g) a b → b ∈ node_indices g.
Proof.
  intros Ha [l Hl]. revert Ha. induction Hl as [|a b l c He Hw IH]; intros Ha; [done|].
  by apply IH, (edge_node_r a).
Qed.

(** A walk that repeats no node is shorter than the graph. *)
Lemma short_walk a b :
  a ∈ node_indices g → reach (edge g) a b → ∃ l, walk (edge g) a l b ∧ (length l < length (node_indices g))%nat.
Proof.
  intros Ha [l Hl]. destruct (simple_walk _ _ _ _ Hl) as (s & Hs & Hnd).
  exists s. split; [done|].
  assert (Hsub : a :: s ⊆ node_indices g).
  { intros x Hx. destruct (walk_split _ _ _ _ _ Hs Hx) as (l1 & l2 & _ & H1 & _).
    eapply reach_node; [done|by exists l1]. }
  apply (NoDup_submseteq _ _ Hnd) in Hsub. apply submseteq_length in Hsub. cbn in Hsub. lia.
Qed.

(** An edge has one target. *)
Lemma edges_functional a e b b' : (e, b) ∈ edges g a → (e, b') ∈ edges g a → b = b'.
Proof.
  intros H1 H2. pose proof (edges_nodup g a) as Hnd.
  apply list_elem_of_lookup in H1 as [i Hi]. apply list_elem_of_lookup in H2 as [j Hj].
  assert (i = j) as <-.
  { eapply NoDup_lookup; [done|by rewrite list_lookup_fmap, Hi|by rewrite list_lookup_fmap, Hj]. }
  congruence.
Qed.
End graph.
