(* ===== verification/ListGraph.v ===== *)
(** * An executable graph

    Instances of the interfaces of [Cfg.v]: the instructions of a block are a
    list of slots, the graph is a list of slots for the blocks and one for the
    edges.  Post order and dominators are computed by plain search. *)

From stdpp Require Import gmap sets.
From S2P Require Import Prelude Ir Visit Cfg Dominance.

Open Scope N_scope.

(** ** Slots as the vectors of the blocks *)

Abbreviation Slots := (list (option Instruction)).

(** Stores the instructions in the slots that are filled. *)
Fixpoint fill_slots (v : Slots) (l : list Instruction) : Slots :=
  match v, l with
  | None :: v, l => None :: fill_slots v l
  | Some _ :: v, i :: l => Some i :: fill_slots v l
  | v, _ => v
  end.
Definition slot (v : Slots) (i : nat) : option Instruction := mjoin (v !! i).
Definition slot_indices (v : Slots) : list nat := filter (λ i, is_Some (slot v i)) (seq 0 (length v)).

#[export] Instance slots_vec : StableVec Slots := {
  sv_values v := omap id v;
  sv_store := fill_slots;
}.
#[export] Instance slots_vec_spec : StableVecSpec Slots.
Proof.
  split; cbn.
  - induction v as [|[i|] v IH]; intros [|j l] Hl; cbn in *; try done; try lia.
    + f_equal. apply IH. lia.
    + by apply IH.
    + by apply (IH (j :: l)).
  - induction v as [|[i|] v IH]; cbn; [done|by f_equal|]. by f_equal.
Qed.

#[export] Instance slots_ops : StableVecOps Slots := {
  sv_next := length;
  sv_indices := slot_indices;
  sv_get := slot;
  sv_remove v i := <[i := None]> v;
  sv_insert v i x := <[i := Some x]> v;
  sv_collect l := Some <$> l;
  sv_extend v l := v ++ (Some <$> l);
}.

Lemma slot_index v i : is_Some (slot v i) ↔ i ∈ slot_indices v.
Proof.
  unfold slot_indices. rewrite list_elem_of_filter. split; [|by intros []]. intros Hs. split; [done|].
  apply elem_of_seq. split; [lia|]. apply lookup_lt_is_Some. unfold slot in Hs.
  destruct (v !! i); [by eexists|by destruct Hs].
Qed.

Lemma omap_filter_some {A B} (f : A → option B) (l : list A) : omap f (filter (λ x, is_Some (f x)) l) = omap f l.
Proof.
  induction l as [|x l IH]; [done|]. rewrite filter_cons. cbn.
  destruct (f x) as [y|] eqn:Hx.
  - rewrite decide_True by eauto. cbn. by rewrite Hx, IH.
  - rewrite decide_False by by intros []. done.
Qed.

Lemma slots_values v : omap id v = omap (slot v) (slot_indices v).
Proof.
  unfold slot_indices. rewrite omap_filter_some. induction v as [|x v IH]; [done|].
  cbn [length seq]. rewrite <-fmap_S_seq.
  assert (Hs : omap (slot (x :: v)) (S <$> seq 0 (length v)) = omap (slot v) (seq 0 (length v))).
  { generalize (seq 0 (length v)) as l. induction l as [|i l IHl]; [done|].
    change (slot (x :: v) (S i)) with (slot v i). cbn. by rewrite <-IHl. }
  change (match x with Some y => y :: omap id v | None => omap id v end =
          match x with Some y => y :: omap (slot (x :: v)) (S <$> seq 0 (length v))
                     | None => omap (slot (x :: v)) (S <$> seq 0 (length v)) end).
  rewrite Hs, <-IH. by destruct x.
Qed.

#[export] Instance slots_ops_spec : StableVecOpsSpec Slots.
Proof.
  assert (Hins : ∀ (v : Slots) i x j, (i < length v)%nat → slot (<[i := x]> v) j = if decide (i = j) then x else slot v j).
  { intros v i x j Hi. unfold slot. destruct (decide (i = j)) as [<-|Hne].
    - by rewrite list_lookup_insert_eq.
    - by rewrite list_lookup_insert_ne. }
  assert (Hrm : ∀ (v : Slots) i j, slot (<[i := None]> v) j = if decide (i = j) then None else slot v j).
  { intros v i j. destruct (decide (i < length v)%nat) as [Hi|Hi]; [by apply Hins|].
    rewrite list_insert_ge by lia. destruct (decide (i = j)) as [<-|]; [|done].
    unfold slot. by rewrite lookup_ge_None_2 by lia. }
  split; cbn.
  - intros v. apply NoDup_filter, NoDup_seq.
  - intros v i [_ Hi%elem_of_seq]%list_elem_of_filter. lia.
  - apply slot_index.
  - apply slots_values.
  - intros v i. unfold slot_indices. rewrite length_insert, list_filter_filter. apply list_filter_iff.
    intros j. rewrite Hrm. destruct (decide (i = j)) as [->|Hne]; split; [by intros []|by intros []|by split|by intros []].
  - done.
  - intros v i. apply length_insert.
  - intros v i x j Hi. by apply Hins.
  - intros v i x Hi. unfold slot_indices. rewrite length_insert. apply list_filter_iff.
    intros j. apply slot_index in Hi. rewrite Hins.
    + destruct (decide (i = j)) as [<-|]; [|done]. split; [done|by eexists].
    + unfold slot in Hi. destruct (v !! i) eqn:E; [by eapply lookup_lt_Some|by destruct Hi].
  - intros l. induction l as [|x l IH]; cbn; [done|by f_equal].
  - intros v l. rewrite omap_app. f_equal. induction l as [|x l IH]; cbn; [done|by f_equal].
Qed.

(** ** Graphs *)

Section graph.
  Context {V : Type}.
Abbreviation Block := (BasicBlock V).

Record ListGraph := {
  lg_blocks : list (option Block);
  lg_edges : list (option (N * N));
}.

Definition lg_weight (g : ListGraph) (n : N) : option Block := mjoin (lg_blocks g !! N.to_nat n).
Definition lg_nodes (g : ListGraph) : list N :=
  filter (λ n, is_Some (lg_weight g n)) (N.of_nat <$> seq 0 (length (lg_blocks g))).
(** The edges between nodes. *)
Definition lg_edge (g : ListGraph) (e : N) : option (N * N) :=
  match mjoin (lg_edges g !! N.to_nat e) with
  | Some (a, b) => if decide (is_Some (lg_weight g a) ∧ is_Some (lg_weight g b)) then Some (a, b) else None
  | None => None
  end.
Definition lg_ids (g : ListGraph) : list N := N.of_nat <$> seq 0 (length (lg_edges g)).
Definition lg_target (g : ListGraph) (a e : N) : option (N * N) :=
  '(x, y) ← lg_edge g e; if decide (x = a) then Some (e, y) else None.
Definition lg_source (g : ListGraph) (b e : N) : option N :=
  '(x, y) ← lg_edge g e; if decide (y = b) then Some x else None.
Definition lg_out (g : ListGraph) (a : N) : list (N * N) := omap (lg_target g a) (lg_ids g).
Definition lg_in (g : ListGraph) (b : N) : list N := omap (lg_source g b) (lg_ids g).

Definition lg_set (g : ListGraph) (n : N) (b : Block) : ListGraph :=
  {| lg_blocks := alter (λ o, (λ _, b) <$> o) (N.to_nat n) (lg_blocks g); lg_edges := lg_edges g |}.
Definition lg_detach (n : N) (es : list (option (N * N))) : list (option (N * N)) :=
  (λ o, '(a, b) ← o; if decide (a = n ∨ b = n) then None else Some (a, b)) <$> es.
Definition lg_add_node (g : ListGraph) (b : Block) : N * ListGraph :=
  let n := N.of_nat (length (lg_blocks g)) in
  (n, {| lg_blocks := lg_blocks g ++ [Some b]; lg_edges := lg_detach n (lg_edges g) |}).
Definition lg_add_edge (g : ListGraph) (a b : N) : option ListGraph :=
  if decide (a ∈ lg_nodes g ∧ b ∈ lg_nodes g)
  then Some {| lg_blocks := lg_blocks g; lg_edges := lg_edges g ++ [Some (a, b)] |} else None.
Definition lg_remove_edge (g : ListGraph) (e : N) : ListGraph :=
  {| lg_blocks := lg_blocks g; lg_edges := <[N.to_nat e := None]> (lg_edges g) |}.
Definition lg_remove_node (g : ListGraph) (n : N) : ListGraph :=
  {| lg_blocks := <[N.to_nat n := None]> (lg_blocks g);
     lg_edges := lg_detach n (lg_edges g) |}.

(** Depth-first search; the visited nodes and the post order. *)
Fixpoint lg_dfs (fuel : nat) (g : ListGraph) (n : N) (st : gset N * list N) : gset N * list N :=
  if decide (n ∈ st.1) then st
  else match fuel with
       | O => st
       | S fuel =>
           let st := foldl (λ st t, lg_dfs fuel g t st) ({[n]} ∪ st.1, st.2) (lg_out g n).*2 in
           (st.1, st.2 ++ [n])
       end.
Definition lg_order (g : ListGraph) (root : N) : list N := (lg_dfs (S (length (lg_nodes g))) g root (∅, [])).2.

(** [d] dominates what a search that may not enter it misses. *)
Definition lg_dominates (g : ListGraph) (root d n : N) : bool :=
  bool_decide (n ∈ lg_order g root) &&
  bool_decide (n ∉ (lg_dfs (S (length (lg_nodes g))) g root ({[d]}, [])).2).
Definition lg_idom (g : ListGraph) (root n : N) : option N :=
  let strict d := negb (d =? n) && lg_dominates g root d n in
  List.find (λ d, strict d && forallb (λ d', negb (strict d') || lg_dominates g root d' d) (lg_nodes g)) (lg_nodes g).

#[export] Instance list_graph : StableDiGraph V ListGraph := {
  node_indices := lg_nodes;
  node_weight := lg_weight;
  edges := lg_out;
  sources := lg_in;
  set_weight := lg_set;
  dfs_post_order := lg_order;
  Dominators := ListGraph * N;
  simple_fast g root := (g, root);
  immediate_dominator d n := lg_idom d.1 d.2 n;
}.
#[export] Instance list_graph_mut : StableDiGraphMut V ListGraph := {
  add_node := lg_add_node;
  add_edge := lg_add_edge;
  remove_edge := lg_remove_edge;
  remove_node := lg_remove_node;
}.

(** *** Laws *)

Lemma lg_weight_node g n : is_Some (lg_weight g n) ↔ n ∈ lg_nodes g.
Proof.
  unfold lg_nodes. rewrite list_elem_of_filter. split; [|by intros []]. intros Hs. split; [done|].
  apply list_elem_of_fmap. exists (N.to_nat n). split; [lia|]. apply elem_of_seq. split; [lia|].
  unfold lg_weight in Hs. apply lookup_lt_is_Some. destruct (_ !! _); [by eexists|by destruct Hs].
Qed.

Lemma lg_edge_nodes g e a b : lg_edge g e = Some (a, b) → a ∈ lg_nodes g ∧ b ∈ lg_nodes g.
Proof.
  unfold lg_edge. destruct (mjoin _) as [[x y]|]; [|done]. destruct (decide _) as [[H1 H2]|]; [|done].
  intros [= -> ->]. by rewrite <-!lg_weight_node.
Qed.

Lemma lg_edge_in g e p : lg_edge g e = Some p → Some p ∈ lg_edges g.
Proof.
  unfold lg_edge. destruct (lg_edges g !! N.to_nat e) as [[[a b]|]|] eqn:E; cbn; [|done..].
  destruct (decide _); [|done]. intros [= <-]. by eapply list_elem_of_lookup_2.
Qed.

Lemma lg_edge_id g e a b : lg_edge g e = Some (a, b) → e ∈ lg_ids g.
Proof.
  intros He. apply list_elem_of_fmap. exists (N.to_nat e). split; [lia|]. apply elem_of_seq. split; [lia|].
  unfold lg_edge in He. apply lookup_lt_is_Some. destruct (lg_edges g !! _); [by eexists|done].
Qed.

Lemma lg_out_elem g a e b : (e, b) ∈ lg_out g a ↔ lg_edge g e = Some (a, b).
Proof.
  unfold lg_out. rewrite list_elem_of_omap. unfold lg_target. split.
  - intros (e' & _ & He). destruct (lg_edge g e') as [[x y]|] eqn:E; [|done]. cbn in He.
    destruct (decide _) as [->|]; [|done]. injection He as -> ->. done.
  - intros He. exists e. split; [by eapply lg_edge_id|]. rewrite He. cbn. by rewrite decide_True.
Qed.

Lemma lg_in_elem g a b : a ∈ lg_in g b ↔ ∃ e, lg_edge g e = Some (a, b).
Proof.
  unfold lg_in. rewrite list_elem_of_omap. unfold lg_source. split.
  - intros (e' & _ & He). destruct (lg_edge g e') as [[x y]|] eqn:E; [|done]. cbn in He.
    destruct (decide _) as [->|]; [|done]. injection He as ->. by exists e'.
  - intros [e He]. exists e. split; [by eapply lg_edge_id|]. rewrite He. cbn. by rewrite decide_True.
Qed.

Lemma lg_out_ids g a : (lg_out g a).*1 `sublist_of` lg_ids g.
Proof.
  unfold lg_out. induction (lg_ids g) as [|e l IH]; [done|]. cbn.
  unfold lg_target at 1. destruct (lg_edge g e) as [[x y]|]; cbn; [|by constructor].
  destruct (decide _); cbn; by constructor.
Qed.

Lemma lg_set_weight g n b m :
  lg_weight (lg_set g n b) m = if decide (n = m) then (λ _, b) <$> lg_weight g m else lg_weight g m.
Proof.
  unfold lg_weight, lg_set. cbn. destruct (decide (n = m)) as [<-|Hne].
  - rewrite list_lookup_alter_eq. by destruct (lg_blocks g !! _) as [[|]|].
  - by rewrite list_lookup_alter_ne by lia.
Qed.

Lemma lg_set_some g n b m : is_Some (lg_weight (lg_set g n b) m) ↔ is_Some (lg_weight g m).
Proof. rewrite lg_set_weight. destruct (decide _); [by rewrite fmap_is_Some|done]. Qed.

Lemma lg_set_nodes g n b : lg_nodes (lg_set g n b) = lg_nodes g.
Proof.
  unfold lg_nodes. cbn. rewrite length_alter. apply list_filter_iff. intros m. apply lg_set_some.
Qed.

(** Only the edges and the nodes that exist matter for the edges. *)
Lemma lg_edge_same g g' e :
  lg_edges g' = lg_edges g → (∀ m, is_Some (lg_weight g' m) ↔ is_Some (lg_weight g m)) → lg_edge g' e = lg_edge g e.
Proof.
  intros He Hw. unfold lg_edge. rewrite He. destruct (mjoin _) as [[a b]|]; [|done].
  apply decide_ext. by rewrite !Hw.
Qed.

Lemma lg_out_same g g' a : lg_ids g' = lg_ids g → (∀ e, lg_edge g' e = lg_edge g e) → lg_out g' a = lg_out g a.
Proof.
  intros Hi He. unfold lg_out. rewrite Hi. apply list_omap_ext. apply Forall_Forall2_diag, Forall_forall.
  intros e _. unfold lg_target. by rewrite He.
Qed.
Lemma NoDup_omap_inj {A B} (f : A → option B) (l : list A) :
  NoDup l → (∀ x y z, f x = Some z → f y = Some z → x = y) → NoDup (omap f l).
Proof.
  intros Hl Hf. induction Hl as [|x l Hx _ IH]; cbn; [constructor|]. destruct (f x) as [z|] eqn:Hz; [|done].
  constructor; [|done]. intros (y & Hy & Hyz)%list_elem_of_omap. by rewrite (Hf x y z Hz Hyz) in Hx.
Qed.
Lemma lg_in_nodup g b : (∀ a, NoDup (lg_out g a).*2) → NoDup (lg_in g b).
Proof.
  intros Hg. apply NoDup_omap_inj; [apply NoDup_fmap_2; [intros ?? H; lia|apply NoDup_seq]|].
  unfold lg_source. intros x y z Hx Hy. destruct (lg_edge g x) as [[a1 b1]|] eqn:Ex; [|done].
  destruct (lg_edge g y) as [[a2 b2]|] eqn:Ey; [|done]. cbn in Hx, Hy. repeat case_decide; simplify_eq.
  apply (NoDup_fmap_snd_inj _ _ _ b (Hg z)); by apply lg_out_elem.
Qed.

#[export] Instance list_graph_spec : StableDiGraphSpec V ListGraph.
Proof.
  split; cbn.
  - intros g. apply NoDup_filter, NoDup_fmap_2; [intros ?? H; lia|apply NoDup_seq].
  - apply lg_weight_node.
  - intros g a e b He%lg_out_elem. by eapply lg_edge_nodes.
  - intros g a. eapply sublist_NoDup; [|apply lg_out_ids]. apply NoDup_fmap_2; [intros ?? H; lia|apply NoDup_seq].
  - intros g a a' e b b' H1%lg_out_elem H2%lg_out_elem. congruence.
  - intros g a b. rewrite lg_in_elem. unfold edge. cbn. rewrite list_elem_of_fmap. split.
    + intros [e He]. exists (e, b). split; [done|]. by apply lg_out_elem.
    + intros ([e b'] & -> & He). exists e. by apply lg_out_elem.
  - apply lg_in_nodup.
  - apply lg_set_nodes.
  - intros g n b a. apply lg_out_same; [done|]. intros e. apply lg_edge_same; [done|]. intros. apply lg_set_some.
  - intros g n b a. unfold lg_in. apply list_omap_ext, Forall_Forall2_diag, Forall_forall. intros e _.
    unfold lg_source. rewrite (lg_edge_same g); [done|done|]. intros. apply lg_set_some.
  - intros g n b Hn. rewrite lg_set_weight, decide_True by done. apply lg_weight_node in Hn as [x ->]. done.
  - intros g n b m Hne. by rewrite lg_set_weight, decide_False.
Qed.

Lemma lg_add_node_weight g b m :
  lg_weight (lg_add_node g b).2 m = if decide (m = (lg_add_node g b).1) then Some b else lg_weight g m.
Proof.
  unfold lg_weight, lg_add_node. cbn. destruct (decide _) as [->|Hne].
  - by rewrite Nat2N.id, list_lookup_middle.
  - destruct (decide (N.to_nat m < length (lg_blocks g))%nat) as [Hlt|Hge].
    + by rewrite lookup_app_l.
    + rewrite lookup_app_r by lia. rewrite (lookup_ge_None_2 [_]) by (cbn; lia).
      by rewrite (lookup_ge_None_2 (lg_blocks g)) by lia.
Qed.

Lemma lg_weight_lt g m : is_Some (lg_weight g m) → (N.to_nat m < length (lg_blocks g))%nat.
Proof. unfold lg_weight. intros Hs. apply lookup_lt_is_Some. destruct (_ !! _); [by eexists|by destruct Hs]. Qed.

Lemma lg_remove_weight g n m : lg_weight (lg_remove_node g n) m = if decide (m = n) then None else lg_weight g m.
Proof.
  unfold lg_weight, lg_remove_node. cbn. rewrite list_lookup_insert.
  destruct (decide (m = n)) as [->|Hne].
  - destruct (decide _) as [|Hn]; [done|]. rewrite lookup_ge_None_2; [done|]. destruct (decide (length (lg_blocks g) ≤ N.to_nat n)%nat); [done|].
    exfalso. apply Hn. lia.
  - rewrite decide_False; [done|]. intros [? _]. lia.
Qed.

Lemma omap_filter_pairs {A B} (f f' : A → option B) (P : B → Prop) `{∀ x, Decision (P x)} (l : list A) :
  (∀ x, f' x = y ← f x; if decide (P y) then Some y else None) → omap f' l = filter P (omap f l).
Proof.
  intros Hf. induction l as [|x l IH]; [done|]. cbn -[filter]. rewrite Hf, IH.
  destruct (f x) as [y|]; cbn -[filter]; [|done]. rewrite filter_cons. by destruct (decide (P y)).
Qed.

Lemma lg_detach_edge n es e :
  mjoin (lg_detach n es !! e) = '(a, b) ← mjoin (es !! e); if decide (a = n ∨ b = n) then None else Some (a, b).
Proof. unfold lg_detach. rewrite list_lookup_fmap. by destruct (es !! e) as [[[a b]|]|]. Qed.

Lemma lg_detach_ids n g g' : lg_edges g' = lg_detach n (lg_edges g) → lg_ids g' = lg_ids g.
Proof. intros He. unfold lg_ids. rewrite He. unfold lg_detach. by rewrite length_fmap. Qed.

Lemma lg_fresh g m : is_Some (lg_weight g m) → m ≠ N.of_nat (length (lg_blocks g)).
Proof. intros Hm%lg_weight_lt. lia. Qed.

Lemma lg_weight_blocks g g' m : lg_blocks g' = lg_blocks g → lg_weight g' m = lg_weight g m.
Proof. intros Hb. unfold lg_weight. by rewrite Hb. Qed.

Lemma lg_add_edge_inv g a b g' :
  lg_add_edge g a b = Some g' →
  a ∈ lg_nodes g ∧ b ∈ lg_nodes g ∧ lg_blocks g' = lg_blocks g ∧ lg_edges g' = lg_edges g ++ [Some (a, b)].
Proof. unfold lg_add_edge. destruct (decide _) as [[Ha Hb]|]; [|done]. by intros [= <-]. Qed.

Lemma lg_add_edge_edge g a b g' e :
  lg_add_edge g a b = Some g' →
  lg_edge g' e = if decide (e = N.of_nat (length (lg_edges g))) then Some (a, b) else lg_edge g e.
Proof.
  intros (Ha & Hb & Hbl & Hed)%lg_add_edge_inv. unfold lg_edge. rewrite Hed.
  destruct (decide (e = _)) as [->|Hne].
  - rewrite Nat2N.id, list_lookup_middle by done. cbn. rewrite decide_True; [done|].
    rewrite (lg_weight_blocks g g' a), (lg_weight_blocks g g' b) by done. by rewrite !lg_weight_node.
  - assert (Hl : mjoin ((lg_edges g ++ [Some (a, b)]) !! N.to_nat e) = mjoin (lg_edges g !! N.to_nat e)).
    { destruct (decide (N.to_nat e < length (lg_edges g))%nat); [by rewrite lookup_app_l|].
      rewrite lookup_app_r by lia. rewrite (lookup_ge_None_2 [_]) by (cbn; lia).
      by rewrite (lookup_ge_None_2 (lg_edges g)) by lia. }
    rewrite Hl. destruct (mjoin (lg_edges g !! N.to_nat e)) as [[x y]|]; [|done].
    apply decide_ext. by rewrite (lg_weight_blocks g g' x), (lg_weight_blocks g g' y).
Qed.

Lemma lg_add_edge_out g a b g' m :
  lg_add_edge g a b = Some g' →
  lg_out g' m = lg_out g m ++ (if decide (a = m) then [(N.of_nat (length (lg_edges g)), b)] else []).
Proof.
  intros Hg. pose proof (lg_add_edge_inv _ _ _ _ Hg) as (_ & _ & _ & Hed).
  assert (Hids : lg_ids g' = lg_ids g ++ [N.of_nat (length (lg_edges g))]).
  { unfold lg_ids. by rewrite Hed, length_app, Nat.add_1_r, seq_S, fmap_app. }
  unfold lg_out. rewrite Hids, omap_app. f_equal.
  - apply list_omap_ext, Forall_Forall2_diag, Forall_forall. intros e (i & -> & Hi%elem_of_seq)%list_elem_of_fmap.
    unfold lg_target. rewrite (lg_add_edge_edge _ _ _ _ _ Hg). rewrite decide_False; [done|lia].
  - cbn. unfold lg_target. rewrite (lg_add_edge_edge _ _ _ _ _ Hg), decide_True by done. cbn. by destruct (decide (a = m)).
Qed.

#[export] Instance list_graph_mut_spec : StableDiGraphMutSpec V ListGraph.
Proof.
  split; cbn [add_node add_edge remove_edge remove_node node_indices node_weight edges list_graph list_graph_mut].
  - intros g b Hin%lg_weight_node. by eapply lg_fresh.
  - intros g b n. rewrite <-!lg_weight_node, lg_add_node_weight. destruct (decide (n = _)) as [->|]; [|naive_solver].
    split; [by left|by eexists].
  - intros g b. by rewrite lg_add_node_weight, decide_True.
  - intros g b m Hne. by rewrite lg_add_node_weight, decide_False.
  - intros g b m. apply lg_out_same; [by eapply lg_detach_ids|]. intros e. unfold lg_edge. cbn [lg_edges lg_add_node snd].
    rewrite lg_detach_edge. destruct (mjoin _) as [[x y]|] eqn:E; [|done]. cbn.
    pose proof (lg_add_node_weight g b x) as Hx. pose proof (lg_add_node_weight g b y) as Hy. cbn in Hx, Hy.
    destruct (decide (_ ∨ _)) as [Hn|Hn].
    + rewrite decide_False; [done|]. intros [H1%lg_fresh H2%lg_fresh]. naive_solver.
    + apply Decidable.not_or in Hn as [H1 H2]. rewrite decide_False in Hx by done. rewrite decide_False in Hy by done. by rewrite Hx, Hy.
  - intros g a b. unfold lg_add_edge. destruct (decide _); [naive_solver|]. split; [by intros []|done].
  - intros g a b g' (_ & _ & Hb & _)%lg_add_edge_inv. unfold lg_nodes. rewrite Hb. apply list_filter_iff. intros m. by rewrite (lg_weight_blocks g g').
  - intros g a b g' m (_ & _ & Hb & _)%lg_add_edge_inv. by apply lg_weight_blocks.
  - intros g a b g' Hg. exists (N.of_nat (length (lg_edges g))).
    rewrite (lg_add_edge_out _ _ _ _ a Hg), decide_True by done. symmetry. apply Permutation_cons_append.
  - intros g a b g' m Hg Hne. rewrite (lg_add_edge_out _ _ _ _ m Hg), decide_False by done. apply app_nil_r.
  - done.
  - done.
  - intros g e m. unfold lg_out.
    assert (lg_ids (lg_remove_edge g e) = lg_ids g) as -> by (unfold lg_ids; cbn; by rewrite length_insert).
    apply omap_filter_pairs. intros e'. unfold lg_target, lg_edge. cbn [lg_edges lg_remove_edge].
    rewrite list_lookup_insert. destruct (decide (_ ∧ _)) as [[He _]|Hn].
    + assert (e = e') as <- by lia. cbn. destruct (mjoin _) as [[x y]|]; [|done].
      destruct (decide _); [|done]. cbn. destruct (decide (x = m)); [|done]. cbn. by rewrite decide_False by naive_solver.
    + change (lg_weight (lg_remove_edge g e)) with (lg_weight g).
      destruct (mjoin (lg_edges g !! N.to_nat e')) as [[x y]|] eqn:E; [|done].
      destruct (decide _); [|done]. cbn. destruct (decide (x = m)); [|done]. cbn. rewrite decide_True; [done|].
      cbn. intros ->. apply Hn. split; [done|]. apply lookup_lt_is_Some. destruct (_ !! _); [by eexists|done].
  - intros g n. unfold lg_nodes. cbn [lg_blocks lg_remove_node]. rewrite length_insert, list_filter_filter.
    apply list_filter_iff. intros m. rewrite lg_remove_weight. destruct (decide (m = n)); [|naive_solver].
    split; [by intros []|by intros []].
  - intros g n m Hne. by rewrite lg_remove_weight, decide_False.
  - intros g n m Hne. unfold lg_out. rewrite (lg_detach_ids n g) by done. apply omap_filter_pairs. intros e.
    unfold lg_target, lg_edge. cbn [lg_edges lg_remove_node]. rewrite lg_detach_edge.
    destruct (mjoin _) as [[x y]|] eqn:E; [|done]. cbn. pose proof (lg_remove_weight g n x) as Hx.
    pose proof (lg_remove_weight g n y) as Hy. destruct (decide (x = n ∨ y = n)) as [Hn|Hn]; cbn.
    + destruct (decide (is_Some (lg_weight g x) ∧ _)); [|done]. cbn. destruct (decide (x = m)) as [->|]; [|done].
      cbn. by rewrite decide_False by naive_solver.
    + apply Decidable.not_or in Hn as [H1 H2]. rewrite decide_False in Hx by done. rewrite decide_False in Hy by done. rewrite Hx, Hy.
      destruct (decide _); [|done]. cbn. destruct (decide (x = m)); [|done]. cbn. by rewrite decide_True by done.
Qed.
End graph.
Arguments ListGraph V : clear implicits.
