(* ===== verification/GraphPasses.v ===== *)
(** * Passes over the control-flow graph

    [crates/cubecl-opt/src/block.rs] ([visit_all]) and, of [passes/],
    [dead_code.rs], [expression_merge.rs], [inlined_if_to_select.rs] and
    [composite.rs].  A pass returns how often it has counted a change.

    A [HashSet] of variables that is only inserted into and asked is the list
    of its elements.  The cells of a block are not shared with another block,
    so a block is taken out of the graph and stored back. *)

From stdpp Require Import gmap sets.
From S2P Require Import Prelude Ir Visit Cfg.

Open Scope N_scope.
Open Scope rust_scope.

(** Operations are compared, so they have decidable equality. *)
#[export] Instance BinaryOperator_eq_dec : EqDecision BinaryOperator. Proof. solve_decision. Defined.
#[export] Instance UnaryOperator_eq_dec : EqDecision UnaryOperator. Proof. solve_decision. Defined.
#[export] Instance FmaOperator_eq_dec : EqDecision FmaOperator. Proof. solve_decision. Defined.
#[export] Instance ClampOperator_eq_dec : EqDecision ClampOperator. Proof. solve_decision. Defined.
#[export] Instance IndexOperator_eq_dec : EqDecision IndexOperator. Proof. solve_decision. Defined.
#[export] Instance IndexAssignOperator_eq_dec : EqDecision IndexAssignOperator. Proof. solve_decision. Defined.
#[export] Instance LineInitOperator_eq_dec : EqDecision LineInitOperator. Proof. solve_decision. Defined.
#[export] Instance CopyMemoryOperator_eq_dec : EqDecision CopyMemoryOperator. Proof. solve_decision. Defined.
#[export] Instance CopyMemoryBulkOperator_eq_dec : EqDecision CopyMemoryBulkOperator. Proof. solve_decision. Defined.
#[export] Instance Select_eq_dec : EqDecision Select. Proof. solve_decision. Defined.
#[export] Instance CompareAndSwapOperator_eq_dec : EqDecision CompareAndSwapOperator. Proof. solve_decision. Defined.
#[export] Instance Arithmetic_eq_dec : EqDecision Arithmetic. Proof. solve_decision. Defined.
#[export] Instance Comparison_eq_dec : EqDecision Comparison. Proof. solve_decision. Defined.
#[export] Instance Bitwise_eq_dec : EqDecision Bitwise. Proof. solve_decision. Defined.
#[export] Instance Operator_eq_dec : EqDecision Operator. Proof. solve_decision. Defined.
#[export] Instance AtomicOp_eq_dec : EqDecision AtomicOp. Proof. solve_decision. Defined.
#[export] Instance Metadata_eq_dec : EqDecision Metadata. Proof. solve_decision. Defined.
#[export] Instance Synchronization_eq_dec : EqDecision Synchronization. Proof. solve_decision. Defined.
#[export] Instance Plane_eq_dec : EqDecision Plane. Proof. solve_decision. Defined.
#[export] Instance CoopMma_eq_dec : EqDecision CoopMma. Proof. solve_decision. Defined.
#[export] Instance BarrierOps_eq_dec : EqDecision BarrierOps. Proof. solve_decision. Defined.
#[export] Instance TmaOps_eq_dec : EqDecision TmaOps. Proof. solve_decision. Defined.
#[export] Instance NonSemantic_eq_dec : EqDecision NonSemantic. Proof. solve_decision. Defined.
#[export] Instance Operation_eq_dec : EqDecision Operation. Proof. solve_decision. Defined.

Section passes.
  Context {V G : Type} `{SV : StableVec V} `{SO : !StableVecOps V}
    `{SG : StableDiGraph V G} `{SM : !StableDiGraphMut V G}.

Abbreviation Opt := (Optimizer V G).
Abbreviation Block := (BasicBlock V).

Definition set_ops (b : Block) (v : V) : Block :=
  {| block_use := block_use b; phi_nodes := phi_nodes b; ops := v; control_flow := control_flow b |}.
Definition set_control_flow (b : Block) (c : ControlFlow) : Block :=
  {| block_use := block_use b; phi_nodes := phi_nodes b; ops := ops b; control_flow := c |}.
Definition set_block_use (b : Block) (u : list BlockUse) : Block :=
  {| block_use := u; phi_nodes := phi_nodes b; ops := ops b; control_flow := control_flow b |}.

(** [ops[idx]]. *)
Definition op_at (v : V) (idx : nat) : outcome Instruction :=
  expect (sv_get v idx) "called `Option::unwrap()` on a `None` value".

(** ** [visit_all] *)

Section visit_all.
  Context {S : Type} (visit_read visit_write : Variable_ → M S Variable_).

Fixpoint visit_entries (es : list PhiEntry) : M S (list PhiEntry) :=
  match es with
  | [] => ret []
  | e :: es =>
      let! v := visit_read (pe_value e) in
      let! es := visit_entries es in
      ret ({| pe_block := pe_block e; pe_value := v |} :: es)
  end.
Fixpoint visit_phis (phis : list PhiInstruction) : M S (list PhiInstruction) :=
  match phis with
  | [] => ret []
  | p :: phis =>
      let! es := visit_entries (phi_entries p) in
      let! o := visit_write (phi_out p) in
      let! phis := visit_phis phis in
      ret ({| phi_out := o; phi_entries := es |} :: phis)
  end.
Fixpoint visit_insts (insts : list Instruction) : M S (list Instruction) :=
  match insts with
  | [] => ret []
  | i :: insts =>
      let! i := visit_instruction visit_read visit_write i in
      let! insts := visit_insts insts in
      ret (i :: insts)
  end.
Definition visit_control_flow (c : ControlFlow) : M S ControlFlow :=
  match c with
  | CfIfElse cond t e m => let! cond := visit_read cond in ret (CfIfElse cond t e m)
  | CfLoopBreak cond b c m => let! cond := visit_read cond in ret (CfLoopBreak cond b c m)
  | CfSwitch value d bs m => let! value := visit_read value in ret (CfSwitch value d bs m)
  | c => ret c
  end.
Definition visit_block (b : Block) : M S Block :=
  let! phis := visit_phis (phi_nodes b) in
  let! insts := visit_insts (sv_values (ops b)) in
  let! c := visit_control_flow (control_flow b) in
  ret {| block_use := block_use b; phi_nodes := phis; ops := sv_store (ops b) insts; control_flow := c |}.
Fixpoint visit_blocks (nodes : list NodeIndex) (g : G) : M S G :=
  match nodes with
  | [] => ret g
  | node :: nodes =>
      let! b := lift (block_of g node) in
      let! b := visit_block b in
      visit_blocks nodes (set_weight g node b)
  end.
Definition visit_all (opt : Opt) : M S Opt :=
  let! g := visit_blocks (node_ids opt) (opt_graph opt) in
  ret (set_graph g opt).
End visit_all.

Definition visit_noop {S : Type} (v : Variable_) : M S Variable_ := ret v.

(** ** [EliminateUnusedVariables] *)

(** [is_pure], generated from the attributes of the operations. *)
Definition is_pure (op : Operation) : bool :=
  match op with
  | Copy _ | OArithmetic _ | OComparison _ | OBitwise _ | OMetadata _ => true
  | OOperator (CopyMemory _) | OOperator (CopyMemoryBulk _) | OOperator (IndexAssign _)
  | OOperator (UncheckedIndexAssign _) => false
  | OOperator _ => true
  | _ => false
  end.

Definition is_global_array (v : Variable_) : bool :=
  match var_kind v with GlobalInputArray _ | GlobalOutputArray _ => true | _ => false end.

Definition use_variable (v : Variable_) : M (list Variable_) Variable_ := λ s,
  Ret (v, if decide (v ∈ s) then s else v :: s).

Fixpoint remove_unused_ops (used : list Variable_) (idxs : list nat) (v : V) (modified : bool) : outcome (V * bool) :=
  match idxs with
  | [] => Ret (v, modified)
  | idx :: idxs =>
      let? op := op_at v idx in
      if negb (is_pure (operation op)) then remove_unused_ops used idxs v modified
      else match inst_out op with
           | None => remove_unused_ops used idxs v modified
           | Some out =>
               if negb (is_global_array out) && negb (bool_decide (out ∈ used))
               then remove_unused_ops used idxs (sv_remove v idx) true
               else remove_unused_ops used idxs v modified
           end
  end.

Definition remove_unused_phis (used : list Variable_) (b : Block) (modified : bool) : Block * bool :=
  let filtered := filter (λ p, phi_out p ∈ used) (phi_nodes b) in
  if decide (length (phi_nodes b) = length filtered) then (b, modified) else (set_phis b filtered, true).

Fixpoint remove_unused_blocks (used : list Variable_) (nodes : list NodeIndex) (g : G) (modified : bool) :
    outcome (G * bool) :=
  match nodes with
  | [] => Ret (g, modified)
  | node :: nodes =>
      let? b := block_of g node in
      let '(b, modified) := remove_unused_phis used b modified in
      let? '(v, modified) := remove_unused_ops used (sv_indices (ops b)) (ops b) modified in
      remove_unused_blocks used nodes (set_weight g node (set_ops b v)) modified
  end.

Definition search_unused : M Opt bool :=
  let! opt := get_state in
  let nodes := node_ids opt in
  let! '(opt, used) := lift (visit_all use_variable visit_noop opt []) in
  let! '(g, modified) := lift (remove_unused_blocks used nodes (opt_graph opt) false) in
  let! _ := modify_state (λ _, set_graph g opt) in
  ret modified.

Fixpoint EliminateUnusedVariables (fuel : nat) (changes : N) : M Opt N :=
  let! modified := search_unused in
  if (modified : bool) then
    match fuel with
    | O => lift OutOfFuel
    | S fuel => EliminateUnusedVariables fuel (changes + 1)
    end
  else ret changes.

(** ** [EliminateConstBranches] *)

Definition find_edge (g : G) (block target : NodeIndex) : outcome EdgeIndex :=
  expect (fst <$> List.find (λ e, e.2 =? target) (edges g block)) "called `Option::unwrap()` on a `None` value".

Definition switch_value (c : ConstantScalarValue) : outcome N :=
  match c with
  | CInt val _ | CUInt val _ => Ret (Z.to_N (wrap_u 32 val))
  | _ => Panic "internal error: entered unreachable code: Switch cases must be integer"
  end.

Definition clear_merge (g : G) (merge : option NodeIndex) : outcome G :=
  match merge with
  | None => Ret g
  | Some m =>
      let? b := block_of g m in
      Ret (set_weight g m (set_block_use b (filter (λ u, u ≠ Merge) (block_use b))))
  end.

(** The taken branch of a block whose condition is constant. *)
Definition const_branch (block : NodeIndex) (g : G) : outcome (option G) :=
  let? b := block_of g block in
  match control_flow b with
  | CfIfElse cond then_ or_else merge =>
      match as_const cond with
      | Some c =>
          let? taken := as_bool c in
          let? e := find_edge g block (if taken : bool then or_else else then_) in
          let? g := clear_merge (remove_edge g e) merge in
          let? b := block_of g block in
          Ret (Some (set_weight g block (set_control_flow b CfNone)))
      | None => Ret None
      end
  | CfSwitch value dflt branches _ =>
      match as_const value with
      | Some c =>
          let? value := switch_value c in
          let branch := default dflt (snd <$> List.find (λ x, x.1 =? value) branches) in
          let es := filter (λ e, e.2 ≠ branch) (edges g block) in
          let g := foldl (λ g e, remove_edge g e.1) g es in
          Ret (Some (set_weight g block (set_control_flow b CfNone)))
      | None => Ret None
      end
  | _ => Ret None
  end.
Fixpoint const_branches (nodes : list NodeIndex) (changes : N) : M Opt N :=
  match nodes with
  | [] => ret changes
  | block :: nodes =>
      let! opt := get_state in
      let! r := lift (const_branch block (opt_graph opt)) in
      match r with
      | Some g =>
          let! _ := modify_state (set_graph g) in
          let! _ := invalidate_structure in
          const_branches nodes (changes + 1)
      | None => const_branches nodes changes
      end
  end.
Definition EliminateConstBranches (changes : N) : M Opt N :=
  let! opt := get_state in
  const_branches (node_ids opt) changes.

(** ** [EliminateDeadBlocks] *)

Fixpoint dead_blocks (post_order nodes : list NodeIndex) (g : G) (changes : N) : G * N :=
  match nodes with
  | [] => (g, changes)
  | node :: nodes =>
      if decide (node ∈ post_order) then dead_blocks post_order nodes g changes
      else dead_blocks post_order nodes (remove_node g node) (changes + 1)
  end.
Definition EliminateDeadBlocks (changes : N) : M Opt N :=
  let! post_order := analysis_post_order in
  let! opt := get_state in
  let '(g, changes) := dead_blocks post_order (node_ids opt) (opt_graph opt) changes in
  let! _ := modify_state (set_graph g) in
  ret changes.

(** ** [EliminateDeadPhi] *)

Definition entry_value (block : NodeIndex) (phi : PhiInstruction) : outcome Variable_ :=
  expect (pe_value <$> List.find (λ e, pe_block e =? block) (phi_entries phi))
    "called `Option::unwrap()` on a `None` value".

Fixpoint phi_assigns (predecessor : NodeIndex) (phis : list PhiInstruction) : outcome (list Instruction) :=
  match phis with
  | [] => Ret []
  | phi :: phis =>
      let? value := entry_value predecessor phi in
      let? assigns := phi_assigns predecessor phis in
      Ret (Instruction_new (Copy value) (phi_out phi) :: assigns)
  end.

Definition dead_phi (block : NodeIndex) (g : G) : outcome (option G) :=
  let? b := block_of g block in
  match phi_nodes b, sources g block with
  | _ :: _, [predecessor] =>
      let? assigns := phi_assigns predecessor (phi_nodes b) in
      let b := set_ops (set_phis b []) (sv_extend (sv_collect assigns) (sv_values (ops b))) in
      Ret (Some (set_weight g block b))
  | _, _ => Ret None
  end.
Fixpoint dead_phis (nodes : list NodeIndex) (g : G) (changes : N) : outcome (G * N) :=
  match nodes with
  | [] => Ret (g, changes)
  | block :: nodes =>
      let? r := dead_phi block g in
      match r with
      | Some g => dead_phis nodes g (changes + 1)
      | None => dead_phis nodes g changes
      end
  end.
Definition EliminateDeadPhi (changes : N) : M Opt N :=
  let! opt := get_state in
  let! '(g, changes) := lift (dead_phis (node_ids opt) (opt_graph opt) changes) in
  let! _ := modify_state (set_graph g) in
  ret changes.

(** ** [MergeBlocks] *)

Definition is_loop (c : ControlFlow) : bool := match c with CfLoop _ _ _ => true | _ => false end.
Definition is_none (c : ControlFlow) : bool := match c with CfNone => true | _ => false end.
Definition is_empty {A : Type} (l : list A) : bool := match l with [] => true | _ => false end.
Definition has_use (u : BlockUse) (b : Block) : bool := bool_decide (u ∈ block_use b).

(** [s_is_header] looks at the control flow of [block], as the source does. *)
Definition can_merge (g : G) (block successor : NodeIndex) : outcome bool :=
  let? b := block_of g block in
  let? s := block_of g successor in
  let b_is_empty := is_empty (sv_values (ops b)) && is_empty (phi_nodes b) in
  let s_is_empty := is_empty (phi_nodes s) in
  let is_empty := b_is_empty && s_is_empty in
  let s_has_multiple_entries := (1 <? length (sources g successor))%nat in
  let b_has_control_flow := negb (is_none (control_flow b)) in
  let is_continue := has_use ContinueTarget b || has_use ContinueTarget s in
  let s_is_header := is_loop (control_flow b) in
  let both_merge := has_use Merge b && has_use Merge s in
  Ret ((negb s_has_multiple_entries || is_empty) && negb b_has_control_flow && negb s_is_header
       && negb is_continue && negb both_merge).

Definition update_index (from to id : NodeIndex) : NodeIndex := if id =? from then to else id.
Definition update_phi_entry (from to : NodeIndex) (e : PhiEntry) : PhiEntry :=
  {| pe_block := update_index from to (pe_block e); pe_value := pe_value e |}.
Definition update_phi_node (from to : NodeIndex) (p : PhiInstruction) : PhiInstruction :=
  {| phi_out := phi_out p; phi_entries := update_phi_entry from to <$> phi_entries p |}.
Definition update_control (from to : NodeIndex) (c : ControlFlow) : ControlFlow :=
  let u := update_index from to in
  match c with
  | CfIfElse cond t e m => CfIfElse cond (u t) (u e) (u <$> m)
  | CfSwitch value d bs m => CfSwitch value (u d) ((λ b, (b.1, u b.2)) <$> bs) (u <$> m)
  | CfLoop b c m => CfLoop (u b) (u c) (u m)
  | CfLoopBreak cond b c m => CfLoopBreak cond (u b) (u c) (u m)
  | c => c
  end.
Fixpoint update_references (nodes : list NodeIndex) (from to : NodeIndex) (g : G) : outcome G :=
  match nodes with
  | [] => Ret g
  | node :: nodes =>
      let? b := block_of g node in
      let b := set_control_flow (set_phis b (update_phi_node from to <$> phi_nodes b))
                 (update_control from to (control_flow b)) in
      update_references nodes from to (set_weight g node b)
  end.

Definition add_edge_ok (g : G) (a b : NodeIndex) : outcome G :=
  expect (add_edge g a b) "StableGraph::add_edge: node index out of bounds".
Fixpoint add_edges (g : G) (es : list (NodeIndex * NodeIndex)) : outcome G :=
  match es with
  | [] => Ret g
  | (a, b) :: es => let? g := add_edge_ok g a b in add_edges g es
  end.

Definition merged (b s : Block) : Block :=
  {| block_use := block_use b ++ block_use s;
     phi_nodes := phi_nodes b ++ phi_nodes s;
     ops := sv_extend (sv_extend (sv_collect []) (sv_values (ops b))) (sv_values (ops s));
     control_flow := control_flow s |}.

Definition set_ret (r : NodeIndex) (opt : Opt) : Opt :=
  {| program := program opt; analysis_cache := analysis_cache opt; opt_ret := r |}.

(** The first block, from the entry on, that can take its successor in. *)
Fixpoint merge_candidate (g : G) (blocks : list NodeIndex) : outcome (option (NodeIndex * NodeIndex)) :=
  match blocks with
  | [] => Ret None
  | block :: blocks =>
      match (edges g block).*2 with
      | [successor] =>
          let? c := can_merge g block successor in
          if (c : bool) then Ret (Some (block, successor)) else merge_candidate g blocks
      | _ => merge_candidate g blocks
      end
  end.
Definition merge_into (block successor : NodeIndex) (g : G) : outcome G :=
  let? b := block_of g block in
  let? s := block_of g successor in
  let incoming := filter (λ i, i ≠ block) (sources g successor) in
  let? g := add_edges g ((λ i, (i, block)) <$> incoming) in
  let? g := add_edges g ((λ o, (block, o)) <$> (edges g successor).*2) in
  let g := remove_node (set_weight g block (merged b s)) successor in
  Ret g.
Definition merge_blocks : M Opt bool :=
  let! post_order := analysis_post_order in
  let! opt := get_state in
  let! c := lift (merge_candidate (opt_graph opt) (rev post_order)) in
  match c with
  | None => ret false
  | Some (block, successor) =>
      let! g := lift (merge_into block successor (opt_graph opt)) in
      let! _ := modify_state (λ opt, set_graph g
                  (set_ret (if successor =? opt_ret opt then block else opt_ret opt) opt)) in
      let! _ := invalidate_structure in
      let! _ := invalidate_liveness in
      let! opt := get_state in
      let! g := lift (update_references (node_ids opt) successor block (opt_graph opt)) in
      let! _ := modify_state (set_graph g) in
      ret true
  end.
Fixpoint MergeBlocks (fuel : nat) (changes : N) : M Opt N :=
  let! c := merge_blocks in
  if (c : bool) then
    match fuel with O => lift OutOfFuel | S fuel => MergeBlocks fuel (changes + 1) end
  else ret changes.
(** ** [InlineAssignments] *)

Definition item_compatible (l r : Item) : bool :=
  (default 1%positive (vectorization l) =? default 1%positive (vectorization r))%positive
  && bool_decide (item_elem l = item_elem r).

(** The value of a phi node whose entries are all the same. *)
Definition trivial_phi (p : PhiInstruction) : outcome (option Variable_) :=
  match phi_entries p with
  | [] => Panic "index out of bounds: the len is 0 but the index is 0"
  | e :: es => Ret (if decide (Forall (λ x, pe_value x = pe_value e) es) then Some (pe_value e) else None)
  end.
(** The phi nodes that stay, and the copies that replace the others. *)
Fixpoint split_phis (phis : list PhiInstruction) : outcome (list PhiInstruction * list Instruction) :=
  match phis with
  | [] => Ret ([], [])
  | p :: phis =>
      let? r := trivial_phi p in
      let? '(kept, assigns) := split_phis phis in
      Ret (match r with
           | Some v => (kept, Instruction_new (Copy v) (phi_out p) :: assigns)
           | None => (p :: kept, assigns)
           end)
  end.

Definition copied (op : Operation) : option Variable_ :=
  match op with
  | Copy v => Some v
  | OOperator (Cast u) | OOperator (Reinterpret u) => Some (input u)
  | OCoopMma (CmmaCast v) => Some v
  | _ => None
  end.
Definition inlinable (v : Variable_) : bool := is_immutable v || is_array v.

Fixpoint find_copy (v : V) (idxs : list nat) : outcome (option (nat * Variable_ * Variable_)) :=
  match idxs with
  | [] => Ret None
  | idx :: idxs =>
      let? op := op_at v idx in
      match copied (operation op) with
      | Some i =>
          if inlinable i then
            let? o := out op in
            if inlinable o && item_compatible (var_item i) (var_item o) then Ret (Some (idx, i, o))
            else find_copy v idxs
          else find_copy v idxs
      | None => find_copy v idxs
      end
  end.

Definition replace_variable (from to : Variable_) (v : Variable_) : M unit Variable_ :=
  ret (if decide (v = from) then to else v).

Fixpoint inline_search (nodes : list NodeIndex) : M Opt bool :=
  match nodes with
  | [] => ret false
  | node :: nodes =>
      let! opt := get_state in
      let! b := lift (block_of (opt_graph opt) node) in
      let! '(kept, assigns) := lift (split_phis (phi_nodes b)) in
      match assigns with
      | _ :: _ =>
          let b := set_ops (set_phis b kept) (sv_extend (sv_collect assigns) (sv_values (ops b))) in
          let! _ := modify_state (set_graph (set_weight (opt_graph opt) node b)) in
          ret true
      | [] =>
          let! r := lift (find_copy (ops b) (sv_indices (ops b))) in
          match r with
          | Some (idx, input, out) =>
              let! '(opt, _) := lift (visit_all (replace_variable out input) visit_noop opt tt) in
              let! b := lift (block_of (opt_graph opt) node) in
              let g := set_weight (opt_graph opt) node (set_ops b (sv_remove (ops b) idx)) in
              let! _ := modify_state (λ _, set_graph g opt) in
              ret true
          | None => inline_search nodes
          end
      end
  end.
Fixpoint InlineAssignments (fuel : nat) (changes : N) : M Opt N :=
  let! opt := get_state in
  let! c := inline_search (node_ids opt) in
  if (c : bool) then
    match fuel with O => lift OutOfFuel | S fuel => InlineAssignments fuel (changes + 1) end
  else ret changes.

(** ** [MergeSameExpressions] *)

Definition mark_mutable (v : Variable_) : M bool Variable_ := λ is_mut, Ret (v, is_mut || negb (is_immutable v)).

(** The later operations that compute the same value become copies of [o]. *)
Fixpoint merge_later (op : Operation) (o : Variable_) (idxs : list nat) (v : V) (changes : N) : outcome (V * N) :=
  match idxs with
  | [] => Ret (v, changes)
  | idx :: idxs =>
      let? rhs := op_at v idx in
      if decide (op = operation rhs) then
        let? ro := out rhs in
        if decide (var_item o = var_item ro)
        then merge_later op o idxs (sv_insert v idx {| inst_out := inst_out rhs; operation := Copy o |}) (changes + 1)
        else merge_later op o idxs v changes
      else merge_later op o idxs v changes
  end.
Definition check_op (idx : nat) (rest : list nat) (v : V) (changes : N) : outcome (V * N) :=
  let? op := op_at v idx in
  match inst_out op with
  | None => Ret (v, changes)
  | Some o =>
      let? '((operation_, _), is_mut) := visit_operation mark_mutable (operation op) (Some o) false in
      let? '(_, is_mut) := visit_out mark_mutable (Some o) is_mut in
      if (is_mut : bool) then Ret (v, changes) else merge_later operation_ o rest v changes
  end.
Fixpoint check_ops (idxs : list nat) (v : V) (changes : N) : outcome (V * N) :=
  match idxs with
  | [] => Ret (v, changes)
  | idx :: idxs =>
      let? '(v, changes) := check_op idx idxs v changes in
      check_ops idxs v changes
  end.
Fixpoint merge_same (nodes : list NodeIndex) (g : G) (changes : N) : outcome (G * N) :=
  match nodes with
  | [] => Ret (g, changes)
  | node :: nodes =>
      let? b := block_of g node in
      let? '(v, changes) := check_ops (sv_indices (ops b)) (ops b) changes in
      merge_same nodes (set_weight g node (set_ops b v)) changes
  end.
Definition MergeSameExpressions (changes : N) : M Opt N :=
  let! opt := get_state in
  let! '(g, changes) := lift (merge_same (node_ids opt) (opt_graph opt) changes) in
  let! _ := modify_state (set_graph g) in
  ret changes.

(** ** [EmptyBranchToSelect] *)

Definition block_empty (b : Block) : bool := is_empty (sv_values (ops b)) && is_empty (phi_nodes b).
Definition first_successor (g : G) (n : NodeIndex) : outcome NodeIndex :=
  expect (head (edges g n).*2) "index out of bounds: the len is 0 but the index is 0".
Definition is_simple (g : G) (then_ or_else merge : NodeIndex) : outcome bool :=
  let? t := block_of g then_ in
  if is_none (control_flow t) then
    let? e := block_of g or_else in
    if is_none (control_flow e) then
      let? st := first_successor g then_ in
      if st =? merge then let? se := first_successor g or_else in Ret (se =? merge) else Ret false
    else Ret false
  else Ret false.

Fixpoint phi_selects (cond : Variable_) (then_ or_else : NodeIndex) (phis : list PhiInstruction) :
    outcome (list Instruction) :=
  match phis with
  | [] => Ret []
  | p :: phis =>
      let? t := entry_value then_ p in
      let? e := entry_value or_else p in
      let? l := phi_selects cond then_ or_else phis in
      Ret (Instruction_new (OOperator (OpSelect {| cond := cond; Ir.then_ := t; Ir.or_else := e |})) (phi_out p) :: l)
  end.

Definition select_ready (g : G) (then_ or_else merge : NodeIndex) : outcome bool :=
  let? t := block_of g then_ in
  let? e := block_of g or_else in
  if block_empty t && block_empty e then
    let? simple := is_simple g then_ or_else merge in
    Ret (simple && (length (sources g merge) =? 2)%nat)
  else Ret false.

Definition select_blocks (block : NodeIndex) (cond : Variable_) (then_ or_else merge : NodeIndex) (g : G) : outcome G :=
  let? m := block_of g merge in
  let? selects := phi_selects cond then_ or_else (phi_nodes m) in
  let g := set_weight g merge (set_ops (set_phis m []) (sv_collect [])) in
  let? b := block_of g block in
  let g := set_weight g block (set_ops b (sv_extend (ops b) (selects ++ sv_values (ops m)))) in
  let merge_successors := (edges g merge).*2 in
  let? m := block_of g merge in
  let merge_control := control_flow m in
  let es := (edges g block ++ edges g then_ ++ edges g or_else ++ edges g merge).*1 in
  let g := foldl remove_edge g es in
  let g := remove_node (remove_node (remove_node g then_) or_else) merge in
  let? g := add_edges g ((λ s, (block, s)) <$> merge_successors) in
  let? b := block_of g block in
  Ret (set_weight g block (set_control_flow b merge_control)).

Fixpoint select_search (nodes : list NodeIndex) : M Opt bool :=
  match nodes with
  | [] => ret false
  | block :: nodes =>
      let! opt := get_state in
      let g := opt_graph opt in
      let! b := lift (block_of g block) in
      match control_flow b with
      | CfIfElse cond then_ or_else (Some merge) =>
          let! ready := lift (select_ready g then_ or_else merge) in
          if (ready : bool) then
            let! g := lift (select_blocks block cond then_ or_else merge g) in
            let! _ := modify_state (set_graph g) in
            let! _ := invalidate_structure in
            let! opt := get_state in
            let! g := lift (update_references (node_ids opt) merge block (opt_graph opt)) in
            let! _ := modify_state (set_graph g) in
            ret true
          else select_search nodes
      | _ => select_search nodes
      end
  end.
Fixpoint EmptyBranchToSelect (fuel : nat) (changes : N) : M Opt N :=
  let! opt := get_state in
  let! c := select_search (node_ids opt) in
  if (c : bool) then
    match fuel with O => lift OutOfFuel | S fuel => EmptyBranchToSelect fuel (changes + 1) end
  else ret changes.

(** ** [CompositeMerge] and [RemoveIndexScalar] *)

Abbreviation Assigns := (gmap Id (list (nat * Z * Variable_))).

Definition forget_read (v : Variable_) : M Assigns Variable_ := λ s,
  Ret (v, match local_variable_id v with Some id => delete id s | None => s end).

Definition merge_assigns (v : V) (assigns : list (nat * Z * Variable_)) (id : Id) (item : Item) : V :=
  let v := foldl (λ v a, sv_remove v a.1.1) v assigns in
  let last := foldr (λ a m, Nat.max a.1.1 m) O assigns in
  let inputs := snd <$> sort_by (λ a, Z.to_N a.1.2) assigns in
  sv_insert v last
    (Instruction_new (OOperator (InitLine {| li_inputs := inputs |})) (Variable_new (LocalMut id) item)).

Definition composite_op (idx : nat) (st : V * Assigns * N) : outcome (V * Assigns * N) :=
  let '(v, assigns, changes) := st in
  let? op := op_at v idx in
  let? '((operation_, o), assigns) := visit_operation forget_read (operation op) (inst_out op) assigns in
  match operation_, o with
  | OOperator (IndexAssign ia), Some o =>
      match var_kind o, as_const (ia_index ia) with
      | LocalMut id, Some index =>
          let? index := csv_as_u32 index in
          let vec := default 1%positive (vectorization (var_item o)) in
          if (1 <? vec)%positive then
            let l := default [] (assigns !! id) ++ [(idx, index, ia_value ia)] in
            if N.of_nat (length l) mod 256 =? N.pos vec
            then Ret (merge_assigns v l id (var_item o), <[id := []]> assigns, changes + 1)
            else Ret (v, <[id := l]> assigns, changes)
          else
            let? _ := assert_ (index =? 0)%Z "Can't index into scalar" in
            Ret (sv_insert v idx (Instruction_new (Copy (ia_value ia)) (Variable_new (LocalMut id) (var_item o))),
                 assigns, changes)
      | _, _ => Ret (v, assigns, changes)
      end
  | _, _ => Ret (v, assigns, changes)
  end.
Fixpoint composite_ops (idxs : list nat) (st : V * Assigns * N) : outcome (V * Assigns * N) :=
  match idxs with
  | [] => Ret st
  | idx :: idxs => let? st := composite_op idx st in composite_ops idxs st
  end.
Fixpoint composite_blocks (nodes : list NodeIndex) (g : G) (changes : N) : outcome (G * N) :=
  match nodes with
  | [] => Ret (g, changes)
  | node :: nodes =>
      let? b := block_of g node in
      let? '(v, _, changes) := composite_ops (sv_indices (ops b)) (ops b, ∅, changes) in
      composite_blocks nodes (set_weight g node (set_ops b v)) changes
  end.
Definition CompositeMerge (changes : N) : M Opt N :=
  let! opt := get_state in
  let! '(g, changes) := lift (composite_blocks (node_ids opt) (opt_graph opt) changes) in
  let! _ := modify_state (set_graph g) in
  ret changes.

Definition index_scalar (i : Instruction) (changes : N) : outcome (Instruction * N) :=
  match operation i with
  | OOperator (Index op) =>
      if is_array (idx_list op) then Ret (i, changes)
      else match as_const (idx_index op) with
           | Some c =>
               let? index := csv_as_u32 c in
               if (default 1%positive (vectorization (var_item (idx_list op))) =? 1)%positive then
                 let? _ := assert_ (index =? 0)%Z "Can't index into scalar" in
                 Ret ({| inst_out := inst_out i; operation := Copy (idx_list op) |}, changes + 1)
               else Ret (i, changes)
           | None => Ret (i, changes)
           end
  | _ => Ret (i, changes)
  end.
Fixpoint index_scalars (insts : list Instruction) (changes : N) : outcome (list Instruction * N) :=
  match insts with
  | [] => Ret ([], changes)
  | i :: insts =>
      let? '(i, changes) := index_scalar i changes in
      let? '(insts, changes) := index_scalars insts changes in
      Ret (i :: insts, changes)
  end.
Fixpoint index_scalar_blocks (nodes : list NodeIndex) (g : G) (changes : N) : outcome (G * N) :=
  match nodes with
  | [] => Ret (g, changes)
  | node :: nodes =>
      let? b := block_of g node in
      let? '(l, changes) := index_scalars (sv_values (ops b)) changes in
      index_scalar_blocks nodes (set_weight g node (set_ops b (sv_store (ops b) l))) changes
  end.
Definition RemoveIndexScalar (changes : N) : M Opt N :=
  let! opt := get_state in
  let! '(g, changes) := lift (index_scalar_blocks (node_ids opt) (opt_graph opt) changes) in
  let! _ := modify_state (set_graph g) in
  ret changes.
End passes.
