(* ===== verification/GraphBuild.v ===== *)
(** * Building the control-flow graph

    [crates/cubecl-opt/src]: [parse_graph], [parse_scope] and the passes before
    the SSA transform of [lib.rs], and [control_flow.rs], which turns branches
    into blocks and edges.

    The processor of scopes and the transformers of instructions are interfaces
    of the source.  A loop keeps its exit on a stack whose end is the head of
    the list here. *)

From stdpp Require Import gmap sets.
From S2P Require Import Prelude Ir Visit Processing Cfg GraphPasses.

Open Scope N_scope.
Open Scope rust_scope.

(** [transformers.rs]. *)
Inductive TransformAction :=
| Ignore
| Replace (replacement : list Instruction)
| Remove.
Class IrTransformer := { maybe_transform : ScopeInstruction → Allocator → outcome (TransformAction * Allocator) }.

Section build.
  Context {V G : Type} `{SV : StableVec V} `{SO : !StableVecOps V}
    `{SG : StableDiGraph V G} `{SM : !StableDiGraphMut V G}.
  Context (checked_io : Processor) (transformers : list IrTransformer).

Abbreviation Opt := (Optimizer V G).
Abbreviation Block := (BasicBlock V).

(** The fields of [Optimizer] that only the parser uses, and the pool of the allocator. *)
Record Builder := {
  b_opt : Opt;
  current_block : option NodeIndex;
  loop_break : list NodeIndex;
  b_alloc : Allocator;
  b_pool : list Variable_;
}.

Definition set_opt (o : Opt) (st : Builder) : Builder :=
  {| b_opt := o; current_block := current_block st; loop_break := loop_break st; b_alloc := b_alloc st; b_pool := b_pool st |}.
Definition set_current (c : option NodeIndex) (st : Builder) : Builder :=
  {| b_opt := b_opt st; current_block := c; loop_break := loop_break st; b_alloc := b_alloc st; b_pool := b_pool st |}.
Definition set_loop_break (l : list NodeIndex) (st : Builder) : Builder :=
  {| b_opt := b_opt st; current_block := current_block st; loop_break := l; b_alloc := b_alloc st; b_pool := b_pool st |}.
Definition set_alloc (a : Allocator) (pool : list Variable_) (st : Builder) : Builder :=
  {| b_opt := b_opt st; current_block := current_block st; loop_break := loop_break st; b_alloc := a; b_pool := pool |}.

Definition b_graph (st : Builder) : G := opt_graph (b_opt st).
Definition with_opt {A : Type} (m : M Opt A) : M Builder A := λ st,
  match m (b_opt st) with
  | Ret (a, o) => Ret (a, set_opt o st)
  | Panic s => Panic s
  | OutOfFuel => OutOfFuel
  end.

(** [BasicBlock::default()]. *)
Definition default_block : Block := {| block_use := []; phi_nodes := []; ops := sv_collect []; control_flow := CfNone |}.

Definition add_block (b : Block) : M Builder NodeIndex :=
  with_opt (let! opt := get_state in
            let '(n, g) := add_node (opt_graph opt) b in
            let! _ := modify_state (set_graph g) in
            ret n).
Definition connect (a b : NodeIndex) : M Builder unit :=
  with_opt (let! opt := get_state in
            let! g := lift (add_edge_ok (opt_graph opt) a b) in
            modify_state (set_graph g)).
Definition edit_block (n : NodeIndex) (f : Block → Block) : M Builder unit :=
  with_opt (let! opt := get_state in
            let! b := lift (block_of (opt_graph opt) n) in
            modify_state (set_graph (set_weight (opt_graph opt) n (f b)))).
Definition push_use (u : BlockUse) (b : Block) : Block := set_block_use b (block_use b ++ [u]).
Definition push_ops (l : list Instruction) (b : Block) : Block := set_ops b (sv_extend (ops b) l).

Definition unwrap_current : M Builder NodeIndex :=
  let! st := get_state in lift (expect (current_block st) "called `Option::unwrap()` on a `None` value").
Definition take_current : M Builder NodeIndex :=
  let! c := unwrap_current in
  let! _ := modify_state (set_current None) in
  ret c.
Definition enter_block (n : NodeIndex) : M Builder unit := modify_state (set_current (Some n)).

(** The block that returns lead to: a merge block gets a block of its own before it. *)
Definition ret_block : M Builder NodeIndex :=
  let! st := get_state in
  let! b := lift (block_of (b_graph st) (opt_ret (b_opt st))) in
  if decide (Merge ∈ block_use b) then
    let! new_ret := add_block default_block in
    let! _ := connect new_ret (opt_ret (b_opt st)) in
    let! _ := with_opt (modify_state (set_ret new_ret)) in
    let! _ := with_opt invalidate_structure in
    ret new_ret
  else ret (opt_ret (b_opt st)).

Definition insert_variable (id : Id) (item : Item) : M Builder unit :=
  with_opt (modify_state (λ opt,
    {| program := {| const_arrays := const_arrays (program opt); variables := <[id := item]> (variables (program opt));
                     graph := opt_graph opt; program_root := entry opt |};
       analysis_cache := analysis_cache opt; opt_ret := opt_ret opt |})).

(** ** Branches ([control_flow.rs]) *)

Section branches.
  Context (parse_scope : Scope → M Builder bool).

(** Goes on at [next] if the branch has not returned. *)
Definition join (next : NodeIndex) : M Builder bool :=
  let! st := get_state in
  match current_block st with
  | Some c => let! _ := connect c next in ret true
  | None => ret false
  end.
Definition mark_merge (merge : option NodeIndex) : M Builder unit :=
  match merge with Some m => edit_block m (push_use Merge) | None => ret tt end.

Definition parse_if (cond : Variable_) (scope : Scope) : M Builder unit :=
  let! current := unwrap_current in
  let! then_ := add_block default_block in
  let! next := add_block default_block in
  let! _ := connect current then_ in
  let! _ := connect current next in
  let! _ := enter_block then_ in
  let! is_break := parse_scope scope in
  let! joined := join next in
  let! st := get_state in
  let merge := if joined : bool then next else opt_ret (b_opt st) in
  let merge := if is_break : bool then None else Some merge in
  let! _ := edit_block current (λ b, set_control_flow b (CfIfElse cond then_ next merge)) in
  let! _ := mark_merge merge in
  enter_block next.

Definition parse_if_else (cond : Variable_) (scope_if scope_else : Scope) : M Builder unit :=
  let! current := unwrap_current in
  let! then_ := add_block default_block in
  let! or_else := add_block default_block in
  let! next := add_block default_block in
  let! _ := connect current then_ in
  let! _ := connect current or_else in
  let! _ := enter_block then_ in
  let! is_break := parse_scope scope_if in
  let! joined := join next in
  let! st := get_state in
  let merge := if joined : bool then next else opt_ret (b_opt st) in
  let! _ := enter_block or_else in
  let! is_break_else := parse_scope scope_else in
  let! joined := join next in
  let! st := get_state in
  let merge := if joined : bool then merge else opt_ret (b_opt st) in
  let merge := if (is_break_else || is_break : bool) then None else Some merge in
  let! _ := edit_block current (λ b, set_control_flow b (CfIfElse cond then_ or_else merge)) in
  let! _ := mark_merge merge in
  enter_block next.

Definition case_value (v : Variable_) : outcome N :=
  let? c := expect (as_const v) "Switch value must be constant" in switch_value c.

(** The cases with their blocks, whether one of them breaks, and whether one returns. *)
Fixpoint parse_cases (current next : NodeIndex) (cases : list (Variable_ * Scope)) :
    M Builder (list (N * NodeIndex) * bool * bool) :=
  match cases with
  | [] => ret ([], false, false)
  | (val, case) :: cases =>
      let! case_id := add_block default_block in
      let! _ := connect current case_id in
      let! _ := enter_block case_id in
      let! is_break := parse_scope case in
      let! joined := join next in
      let is_ret := negb joined && negb is_break in
      let! val := lift (case_value val) in
      let! '(branches, breaks, rets) := parse_cases current next cases in
      ret ((val, case_id) :: branches, is_break || breaks, is_ret || rets)
  end.

Definition parse_switch (value : Variable_) (scope_default : Scope) (cases : list (Variable_ * Scope)) : M Builder unit :=
  let! current := unwrap_current in
  let! next := add_block default_block in
  let! '(branches, is_break_branch, is_ret) := parse_cases current next cases in
  let! dflt := add_block default_block in
  let! _ := connect current dflt in
  let! _ := enter_block dflt in
  let! is_break_def := parse_scope scope_default in
  let! joined := join next in
  let is_ret := if joined : bool then is_ret else negb is_break_def in
  let! st := get_state in
  let! merge :=
    if (is_break_def || is_break_branch : bool) then ret None
    else if is_ret : bool then ret (Some (opt_ret (b_opt st)))
    else let! _ := edit_block next (push_use Merge) in ret (Some next) in
  let! _ := edit_block current (λ b, set_control_flow b (CfSwitch value dflt branches merge)) in
  enter_block next.

Definition pop_loop : M Builder unit := modify_state (λ st, set_loop_break (tail (loop_break st)) st).
Definition push_loop (n : NodeIndex) : M Builder unit := modify_state (λ st, set_loop_break (n :: loop_break st) st).

Definition parse_loop (scope : Scope) : M Builder unit :=
  let! current := unwrap_current in
  let! header := add_block default_block in
  let! _ := connect current header in
  let! body := add_block default_block in
  let! next := add_block default_block in
  let! _ := connect header body in
  let! _ := push_loop next in
  let! _ := enter_block body in
  let! _ := parse_scope scope in
  let! continue_target := add_block default_block in
  let! _ := edit_block continue_target (push_use ContinueTarget) in
  let! _ := pop_loop in
  let! _ := join continue_target in
  let! _ := connect continue_target header in
  let! _ := edit_block header (λ b, set_control_flow b (CfLoop body continue_target next)) in
  let! _ := edit_block next (push_use Merge) in
  enter_block next.

Definition loop_variable (i : Variable_) : outcome Id :=
  match var_kind i with LocalMut id => Ret id | _ => unreachable end.

(** [unwrap_or(1.into())]: an [i32]. *)
Definition default_step : Variable_ := Variable_constant (CInt 1 I32).

Definition parse_for_loop (i start end_ : Variable_) (step : option Variable_) (inclusive : bool) (scope : Scope) :
    M Builder unit :=
  let step := default default_step step in
  let! i_id := lift (loop_variable i) in
  let! _ := insert_variable i_id (var_item i) in
  let! current := unwrap_current in
  let! _ := edit_block current (push_ops [Instruction_new (Copy start) i]) in
  let! header := add_block default_block in
  let! _ := connect current header in
  let! body := add_block default_block in
  let! next := add_block default_block in
  let! _ := connect header body in
  let! _ := connect header next in
  let! _ := push_loop next in
  let! _ := enter_block body in
  let! _ := parse_scope scope in
  let! _ := pop_loop in
  let! st := get_state in
  let! current := lift (expect (current_block st) "For loop has no loopback path") in
  let! b := lift (block_of (b_graph st) current) in
  let! continue_target :=
    if decide (Merge ∈ block_use b) then
      let! target := add_block default_block in
      let! _ := connect current target in
      ret target
    else ret current in
  let! _ := connect continue_target header in
  let! _ := edit_block continue_target (push_use ContinueTarget) in
  let! _ := edit_block next (push_use Merge) in
  let! _ := enter_block next in
  let! _ := with_opt (insert_phi header i_id (var_item start)) in
  let! st := get_state in
  let '(tmp, alloc) := create_local (b_alloc st) (Item_new EBool) in
  let! _ := modify_state (set_alloc alloc (b_pool st)) in
  let cmp := if inclusive then OComparison (LowerEqual {| lhs := i; rhs := end_ |})
             else OComparison (Lower {| lhs := i; rhs := end_ |}) in
  let! _ := edit_block header (push_ops [Instruction_new cmp tmp]) in
  let! _ := edit_block header (λ b, set_control_flow b (CfLoopBreak tmp body continue_target next)) in
  edit_block current (push_ops [Instruction_new (OArithmetic (Add {| lhs := i; rhs := step |})) i]).

Definition parse_control_flow (branch : Branch) : M Builder unit :=
  match branch with
  | BrIf cond scope => parse_if cond scope
  | BrIfElse cond scope_if scope_else => parse_if_else cond scope_if scope_else
  | BrSwitch value scope_default cases => parse_switch value scope_default cases
  | BrRangeLoop i start end_ step inclusive scope => parse_for_loop i start end_ step inclusive scope
  | BrLoop scope => parse_loop scope
  | BrReturn =>
      let! current := take_current in
      let! r := ret_block in
      connect current r
  | BrBreak =>
      let! current := take_current in
      let! st := get_state in
      let! target := lift (expect (head (loop_break st)) "Can't break outside loop") in
      connect current target
  end.

(** The transformers in their order, up to one that applies; whether one did. *)
Fixpoint transform_instruction (ts : list IrTransformer) (inst : ScopeInstruction) : M Builder bool :=
  match ts with
  | [] => ret false
  | t :: ts =>
      let! st := get_state in
      let! '(action, alloc) := lift (@maybe_transform t inst (b_alloc st)) in
      let! _ := modify_state (set_alloc alloc (b_pool st)) in
      match action with
      | Ignore => transform_instruction ts inst
      | Replace replacement =>
          let! current := unwrap_current in
          let! _ := edit_block current (push_ops replacement) in
          ret true
      | Remove => ret true
      end
  end.

Definition parse_instruction (inst : ScopeInstruction) : M Builder unit :=
  let! removed := transform_instruction transformers inst in
  if removed : bool then ret tt
  else match inst with
       | BranchInst branch => parse_control_flow branch
       | Plain i =>
           let! current := unwrap_current in
           edit_block current (push_ops [i])
       end.
Fixpoint parse_instructions (insts : list ScopeInstruction) : M Builder unit :=
  match insts with
  | [] => ret tt
  | i :: insts => let! _ := parse_instruction i in parse_instructions insts
  end.
End branches.

(** ** Scopes ([lib.rs]) *)

Fixpoint insert_variables (vars : list Variable_) : M Builder unit :=
  match vars with
  | [] => ret tt
  | v :: vars =>
      let! _ := match var_kind v with LocalMut id => insert_variable id (var_item v) | _ => ret tt end in
      insert_variables vars
  end.
Fixpoint push_const_arrays (arrays : list (Variable_ * list Variable_)) : M Builder unit :=
  match arrays with
  | [] => ret tt
  | (v, values) :: arrays =>
      match var_kind v with
      | ConstantArray id len =>
          let! _ := with_opt (modify_state (λ opt,
            {| program := {| const_arrays := const_arrays (program opt) ++
                               [{| ca_id := id; ca_length := len; ca_item := var_item v; ca_values := values |}];
                             variables := variables (program opt); graph := opt_graph opt; program_root := entry opt |};
               analysis_cache := analysis_cache opt; opt_ret := opt_ret opt |})) in
          push_const_arrays arrays
      | _ => lift unreachable
      end
  end.
Definition is_break_inst (i : ScopeInstruction) : bool :=
  match i with BranchInst BrBreak => true | _ => false end.

Fixpoint parse_scope (fuel : nat) (scope : Scope) : M Builder bool :=
  match fuel with
  | O => lift OutOfFuel
  | S fuel =>
      let! st := get_state in
      let! '(processed, alloc) := lift (Scope_process [checked_io] (b_pool st) scope (b_alloc st)) in
      let! _ := modify_state (set_alloc alloc []) in
      let! _ := insert_variables (sp_variables processed) in
      let! _ := push_const_arrays (scope_const_arrays scope) in
      let! _ := parse_instructions (parse_scope fuel) (sp_instructions processed) in
      ret (existsb is_break_inst (sp_instructions processed))
  end.

Definition set_root (n : NodeIndex) (opt : Opt) : Opt :=
  {| program := {| const_arrays := const_arrays (program opt); variables := variables (program opt);
                   graph := opt_graph opt; program_root := n |};
     analysis_cache := analysis_cache opt; opt_ret := opt_ret opt |}.

Definition parse_graph (fuel : nat) (scope : Scope) : M Builder unit :=
  let! entry := add_block default_block in
  let! _ := with_opt (modify_state (set_root entry)) in
  let! _ := enter_block entry in
  let! r := add_block default_block in
  let! _ := with_opt (modify_state (set_ret r)) in
  let! _ := edit_block r (λ b, set_control_flow b CfReturn) in
  let! _ := parse_scope fuel scope in
  let! st := get_state in
  let! _ := match current_block st with
            | Some c => connect c (opt_ret (b_opt st))
            | None => ret tt
            end in
  with_opt invalidate_structure.
End build.
Arguments Builder V G {_}.

(** ** Critical edges ([control_flow.rs]) *)

Section split.
  Context {V G : Type} `{SV : StableVec V} `{SO : !StableVecOps V}
    `{SG : StableDiGraph V G} `{SM : !StableDiGraphMut V G}.

(** [update_control_flow]: of the targets, those of conditional branches. *)
Definition update_targets (from to : NodeIndex) (c : ControlFlow) : ControlFlow :=
  let u := update_index from to in
  match c with
  | CfIfElse cond t e m => CfIfElse cond (u t) (u e) m
  | CfSwitch value d bs m => CfSwitch value (u d) ((λ b, (b.1, u b.2)) <$> bs) m
  | c => c
  end.
Definition edit_node (n : NodeIndex) (f : BasicBlock V → BasicBlock V) (g : G) : outcome G :=
  let? b := block_of g n in Ret (set_weight g n (f b)).
Definition update_phi (block from to : NodeIndex) : G → outcome G :=
  edit_node block (λ b, set_phis b (update_phi_node from to <$> phi_nodes b)).
Definition update_control_flow (block from to : NodeIndex) : G → outcome G :=
  edit_node block (λ b, set_control_flow b (update_targets from to (control_flow b))).

Definition split_edge (block : NodeIndex) (e : EdgeIndex * NodeIndex) (g : G) : outcome G :=
  let '(edge, successor) := e in
  let '(new_block, g) := add_node (remove_edge g edge) default_block in
  let? g := add_edge_ok g block new_block in
  let? g := add_edge_ok g new_block successor in
  let? g := update_phi successor block new_block g in
  update_control_flow block successor new_block g.

Fixpoint split_edges (block : NodeIndex) (crit : list (EdgeIndex * NodeIndex)) : M (Optimizer V G) unit :=
  match crit with
  | [] => ret tt
  | e :: crit =>
      let! opt := get_state in
      let! g := lift (split_edge block e (opt_graph opt)) in
      let! _ := modify_state (set_graph g) in
      let! _ := invalidate_structure in
      split_edges block crit
  end.
Fixpoint split_blocks (nodes : list NodeIndex) : M (Optimizer V G) unit :=
  match nodes with
  | [] => ret tt
  | block :: nodes =>
      let! opt := get_state in
      let successors := edges (opt_graph opt) block in
      let! _ :=
        if (1 <? length successors)%nat
        then split_edges block (filter (λ e, (1 < length (sources (opt_graph opt) e.2))%nat) successors)
        else ret tt in
      split_blocks nodes
  end.
Definition split_critical_edges : M (Optimizer V G) unit :=
  let! opt := get_state in split_blocks (node_ids opt).
End split.

(** ** Up to the SSA transform ([lib.rs]) *)

Section front.
  Context {V G : Type} `{SV : StableVec V} `{SO : !StableVecOps V}
    `{SG : StableDiGraph V G} `{SM : !StableDiGraphMut V G} `{HO : HashOrder}.
  Context (checked_io : Processor) (transformers : list IrTransformer).

Fixpoint apply_pre_ssa_passes (fuel : nat) : M (Optimizer V G) unit :=
  let! changes := CompositeMerge 0 in
  if changes =? 0 then ret tt
  else match fuel with
       | O => lift OutOfFuel
       | S fuel => apply_pre_ssa_passes fuel
       end.

(** The first part of [run_opt]. *)
Definition run_front (depth rounds live_fuel fuel : nat) (scope : Scope) : M (Builder V G) unit :=
  let! _ := parse_graph checked_io transformers depth scope in
  let! _ := with_opt split_critical_edges in
  let! _ := with_opt (apply_pre_ssa_passes rounds) in
  let! _ := with_opt exempt_index_assign_locals in
  with_opt (ssa_transform live_fuel fuel).
End front.
