(* ===== verification/LivenessProps.v ===== *)
(** * The liveness analysis is exact

    The worklist of [liveness.rs] ends, and the variables it reports for a
    block are those that some walk from the block reads before it writes them. *)

From stdpp Require Import gmap sets.
From S2P Require Import Prelude Ir Visit Cfg Dominance.

Open Scope N_scope.
Open Scope rust_scope.

(** The map that gives every node the empty set. *)
Lemma empty_sets (l : list N) n :
  (list_to_map ((λ it, (it, ∅)) <$> l) : gmap N (gset N)) !! n = if decide (n ∈ l) then Some ∅ else None.
Proof.
  induction l as [|x l IH]; [by rewrite decide_False by apply not_elem_of_nil|].
  cbn [fmap list_fmap list_to_map foldr]. unfold uncurry. destruct (decide (x = n)) as [->|Hne].
  - rewrite lookup_insert_eq. by rewrite decide_True by constructor.
  - rewrite lookup_insert_ne by done. etransitivity; [exact IH|].
    destruct (decide (n ∈ l)) as [Hin|Hni].
    + by rewrite decide_True by by constructor.
    + rewrite decide_False; [done|]. by apply not_elem_of_cons.
Qed.

(** ** The sets of one block *)

Definition inst_writes (i : Instruction) : option Id := inst_out i ≫= local_variable_id.
Definition inst_reads (i : Instruction) : list Id :=
  omap local_variable_id (op_reads (operation i) (inst_out i)).

(** The variables a sequence writes, and those it reads first. *)
Definition written (l : list Instruction) : gset Id := list_to_set (omap inst_writes l).
Fixpoint upward (l : list Instruction) : gset Id :=
  match l with
  | [] => ∅
  | i :: l => (upward l ∖ list_to_set (option_list (inst_writes i))) ∪ list_to_set (inst_reads i)
  end.

Definition reads_before_write (id : Id) (l : list Instruction) : Prop :=
  ∃ l1 i l2, l = l1 ++ i :: l2 ∧ id ∈ inst_reads i ∧ id ∉ written l1.

Lemma written_cons i l : written (i :: l) = list_to_set (option_list (inst_writes i)) ∪ written l.
Proof. unfold written. cbn. destruct (inst_writes i); cbn; set_solver. Qed.

Lemma written_app l l' : written (l ++ l') = written l ∪ written l'.
Proof. unfold written. by rewrite omap_app, list_to_set_app_L. Qed.

Lemma elem_upward id l : id ∈ upward l ↔ reads_before_write id l.
Proof.
  induction l as [|i l IH]; cbn [upward app]; [split; [by intros ?%elem_of_empty|by intros ([|] & ? & ? & ? & _)]|].
  rewrite elem_of_union, elem_of_difference, IH, !elem_of_list_to_set. split.
  - intros [[(l1 & j & l2 & -> & Hr & Hw) Hi]|Hr].
    + exists (i :: l1), j, l2. split_and!; [done..|]. rewrite written_cons. set_solver.
    + exists [], i, l. split_and!; [done..|]. unfold written. cbn. set_solver.
  - intros ([|k l1] & j & l2 & Heq & Hr & Hw); injection Heq as -> ->; [by right|left].
    rewrite written_cons in Hw. split; [exists l1, j, l2; split_and!; [done..|]; set_solver|].
    set_solver.
Qed.

Lemma upward_app l l' : upward (l ++ l') = upward l ∪ (upward l' ∖ written l).
Proof.
  induction l as [|i l IH]; cbn [upward app]; [unfold written; cbn; set_solver|].
  rewrite IH, written_cons. set_solver.
Qed.

Lemma foldl_generated s vs :
  foldl (λ s v, match local_variable_id v with
                | Some id => {| generated := generated s ∪ {[id]}; kill := kill s |}
                | None => s
                end) s vs =
  {| generated := generated s ∪ list_to_set (omap local_variable_id vs); kill := kill s |}.
Proof.
  revert s. induction vs as [|v vs IH]; intros s; cbn.
  - destruct s; cbn. f_equal. set_solver.
  - rewrite IH. destruct (local_variable_id v); cbn; [|done]. f_equal. set_solver.
Qed.

Definition readable_inst (i : Instruction) : bool := readable (operation i) (inst_out i).

Lemma block_sets_step i insts s :
  readable_inst i = true →
  block_sets_of (i :: insts) s =
  block_sets_of insts
    {| generated := (generated s ∖ list_to_set (option_list (inst_writes i))) ∪ list_to_set (inst_reads i);
       kill := kill s ∪ list_to_set (option_list (inst_writes i)) |}.
Proof.
  intros Hr. cbn [block_sets_of]. unfold inst_writes, inst_reads.
  assert (Hk : visit_out visit_kill (inst_out i) s =
               Ret (inst_out i,
                    {| generated := generated s ∖ list_to_set (option_list (inst_out i ≫= local_variable_id));
                       kill := kill s ∪ list_to_set (option_list (inst_out i ≫= local_variable_id)) |})).
  { destruct (inst_out i) as [v|]; cbn; unfold visit_kill, bind, ret; cbn.
    - destruct (local_variable_id v); cbn; repeat f_equal; [| |destruct s; cbn; f_equal]; set_solver.
    - destruct s; cbn. repeat f_equal; set_solver. }
  rewrite Hk. cbn [obind].
  change visit_generated with (observing (λ s v, match local_variable_id v with
                | Some id => {| generated := generated s ∪ {[id]}; kill := kill s |}
                | None => s
                end)).
  rewrite visit_observing by done. cbn [obind]. by rewrite foldl_generated.
Qed.

Lemma block_sets_of_app l l' s :
  block_sets_of (l ++ l') s = obind (block_sets_of l s) (block_sets_of l').
Proof.
  revert s. induction l as [|i l IH]; intros s; cbn; [done|].
  destruct (visit_out visit_kill (inst_out i) s) as [[? s1]| |]; cbn; [|done..].
  by destruct (visit_operation visit_generated (operation i) (inst_out i) s1) as [[? s2]| |]; cbn.
Qed.

Lemma block_sets_of_ok l :
  Forall (λ i, readable_inst i = true) l →
  block_sets_of (rev l) {| generated := ∅; kill := ∅ |} =
  Ret {| generated := upward l; kill := written l |}.
Proof.
  induction 1 as [|i l Hi Hl IH]; [done|].
  cbn [rev]. rewrite block_sets_of_app, IH. cbn [obind].
  rewrite block_sets_step by done. cbn [block_sets_of generated kill upward].
  do 2 f_equal. rewrite written_cons. set_solver.
Qed.

Section liveness.
  Context {V G : Type} `{SV : StableVec V} `{!StableVecSpec V} `{SG : StableDiGraph V G}
    `{!StableDiGraphSpec V G}.

Definition code (g : G) (n : NodeIndex) : list Instruction :=
  match node_weight g n with Some b => sv_values (ops b) | None => [] end.
Definition code_readable (g : G) : Prop := ∀ n, Forall (λ i, readable_inst i = true) (code g n).

Definition gen (g : G) (n : NodeIndex) : gset Id := upward (code g n).
Definition killed (g : G) (n : NodeIndex) : gset Id := written (code g n).

Definition live_at (live : Liveness) (n : NodeIndex) : gset Id := default ∅ (live !! n).

(** The right-hand side of the equation for [n]. *)
Definition flow (g : G) (live : Liveness) (n : NodeIndex) : gset Id :=
  foldl (λ acc s, acc ∪ (live_at live s ∖ killed g n)) (gen g n) (edges g n).*2.

Lemma elem_flow_fold live k acc succs id :
  id ∈ foldl (λ acc s, acc ∪ (live_at live s ∖ k)) acc succs ↔
  id ∈ acc ∨ (id ∉ k ∧ ∃ s, s ∈ succs ∧ id ∈ live_at live s).
Proof.
  revert acc. induction succs as [|s succs IH]; intros acc; cbn; [set_solver|].
  rewrite IH. set_solver.
Qed.

Lemma elem_flow g live n id :
  id ∈ flow g live n ↔ id ∈ gen g n ∨ (id ∉ killed g n ∧ ∃ s, edge g n s ∧ id ∈ live_at live s).
Proof. apply elem_flow_fold. Qed.

(** A walk from the block that reads the variable before it writes it. *)
Definition walk_code (g : G) (a : NodeIndex) (l : list NodeIndex) : list Instruction := (a :: l) ≫= code g.
Definition exposed (g : G) (id : Id) (n : NodeIndex) : Prop :=
  ∃ l c, walk (edge g) n l c ∧ reads_before_write id (walk_code g n l).

Lemma exposed_gen g id n : id ∈ gen g n → exposed g id n.
Proof.
  intros Hg. exists [], n. split; [constructor|]. apply elem_upward.
  unfold walk_code. cbn. by rewrite app_nil_r.
Qed.

Lemma exposed_step g id n s : edge g n s → id ∉ killed g n → exposed g id s → exposed g id n.
Proof.
  intros He Hk (l & c & Hw & Hr). exists (s :: l), c. split; [by econstructor|].
  apply elem_upward. apply elem_upward in Hr. unfold walk_code in *. rewrite bind_cons.
  rewrite upward_app. unfold killed in Hk. set_solver.
Qed.

Lemma exposed_inv g id n :
  exposed g id n → id ∈ gen g n ∨ (id ∉ killed g n ∧ ∃ s, edge g n s ∧ exposed g id s).
Proof.
  intros (l & c & Hw & Hr%elem_upward). unfold walk_code in Hr.
  rewrite bind_cons, upward_app in Hr. apply elem_of_union in Hr as [Hr|Hr]; [by left|].
  apply elem_of_difference in Hr as [Hr Hk].
  inversion Hw as [|? b l' ? He Hw']; subst; [by apply elem_of_empty in Hr|].
  right. split; [done|]. exists b. split; [done|]. exists l', c. split; [done|]. by apply elem_upward.
Qed.

Lemma exposed_live g (live : NodeIndex → gset Id) id n :
  (∀ m, reach (edge g) n m → id ∈ gen g m → id ∈ live m) →
  (∀ m s, reach (edge g) n m → edge g m s → id ∉ killed g m → id ∈ live s → id ∈ live m) →
  exposed g id n → id ∈ live n.
Proof.
  intros Hg Hs (l & c & Hw & Hr). revert Hg Hs Hr.
  induction Hw as [a|a b l c He Hw IH]; intros Hg Hs Hr.
  - apply Hg; [apply reach_refl|]. apply elem_upward in Hr. unfold walk_code in Hr. cbn in Hr.
    by rewrite app_nil_r in Hr.
  - apply elem_upward in Hr. unfold walk_code in Hr. rewrite bind_cons, upward_app in Hr.
    apply elem_of_union in Hr as [Hr|Hr]; [by apply Hg; [apply reach_refl|]|].
    apply elem_of_difference in Hr as [Hr Hk].
    apply (Hs a b); [apply reach_refl|done..|]. apply IH.
    + intros m Hm. apply Hg. eapply reach_trans; [|done]. by eapply reach_step; [apply reach_refl|].
    + intros m s Hm. apply Hs. eapply reach_trans; [|done]. by eapply reach_step; [apply reach_refl|].
    + by apply elem_upward.
Qed.

(** ** One round *)

Context (opt : Optimizer V G).
Let g := opt_graph opt.
Context (Hread : code_readable g).

Definition covers (live : Liveness) : Prop := ∀ n, n ∈ node_indices g → is_Some (live !! n).

Lemma calculate_block_sets_ok n :
  n ∈ node_indices g →
  calculate_block_sets opt n = Ret {| generated := gen g n; kill := killed g n |}.
Proof.
  intros [b Hb]%node_weight_node. unfold calculate_block_sets, block_of. fold g. rewrite Hb. cbn [expect obind].
  specialize (Hread n). unfold gen, killed. unfold code in *. rewrite Hb in *.
  by rewrite block_sets_of_ok.
Qed.

Definition cache_right (c : gmap NodeIndex BlockSets) : Prop :=
  ∀ n s, c !! n = Some s → s = {| generated := gen g n; kill := killed g n |}.

Lemma extend_live_ok live k succs acc :
  (∀ s, s ∈ succs → is_Some (live !! s)) →
  extend_live live k succs acc = Ret (foldl (λ acc s, acc ∪ (live_at live s ∖ k)) acc succs).
Proof.
  revert acc. induction succs as [|s succs IH]; intros acc Hs; [done|].
  destruct (Hs s) as [x Hx]; [constructor|].
  cbn [extend_live]. unfold index_map. rewrite Hx. cbn [expect obind].
  rewrite IH by (intros; apply Hs; by constructor).
  cbn [foldl]. assert (live_at live s = x) as -> by (unfold live_at; by rewrite Hx). done.
Qed.

Lemma analyze_block_ok live n st :
  n ∈ node_indices g → covers live → cache_right (sets_cache st) →
  ∃ c, cache_right c ∧
    analyze_block opt live n st =
    Ret (if decide (flow g live n = live_at live n)
         then (live, {| worklist := worklist st; sets_cache := c |})
         else (<[n := flow g live n]> live, {| worklist := worklist st ++ sources g n; sets_cache := c |})).
Proof.
  intros Hn Hc Hcache. unfold analyze_block.
  assert (Hs : ∃ c, cache_right c ∧ block_sets opt n st =
    Ret ({| generated := gen g n; kill := killed g n |}, {| worklist := worklist st; sets_cache := c |})).
  { unfold block_sets. destruct (sets_cache st !! n) as [s|] eqn:Hl.
    - exists (sets_cache st). split; [done|]. rewrite (Hcache _ _ Hl). by destruct st.
    - exists (<[n := {| generated := gen g n; kill := killed g n |}]> (sets_cache st)).
      rewrite calculate_block_sets_ok by done. split; [|done].
      intros m s. destruct (decide (n = m)) as [->|Hne].
      + rewrite lookup_insert_eq. by intros [= <-].
      + rewrite lookup_insert_ne by done. apply Hcache. }
  destruct Hs as (c & Hc' & ->). exists c. split; [done|]. cbn [obind generated kill].
  rewrite extend_live_ok.
  2:{ intros s Hs. apply Hc. by apply edge_node_r with n. }
  cbn [obind]. unfold index_map. destruct (Hc n Hn) as [old Hold]. rewrite Hold. cbn [expect obind].
  change (foldl _ _ _) with (flow g live n). unfold live_at. rewrite Hold. cbn.
  by destruct (decide (flow g live n = old)).
Qed.

(** ** The loop *)

Definition universe : gset Id := ⋃ (gen g <$> node_indices g).

Lemma gen_universe n : n ∈ node_indices g → gen g n ⊆ universe.
Proof.
  intros Hn id Hid. unfold universe. apply elem_of_union_list. exists (gen g n). split; [|done].
  by apply list_elem_of_fmap_2.
Qed.

Record live_inv (live : Liveness) (wl : list NodeIndex) (c : gmap NodeIndex BlockSets) : Prop := {
  li_covers : covers live;
  li_cache : cache_right c;
  li_nodes n : n ∈ wl → n ∈ node_indices g;
  li_sound n id : id ∈ live_at live n → exposed g id n;
  li_universe n : live_at live n ⊆ universe;
  li_grows n : n ∈ node_indices g → live_at live n ⊆ flow g live n;
  li_todo n : reach (edge g) (entry opt) n → n ∈ wl ∨ flow g live n ⊆ live_at live n;
}.

Lemma live_at_insert (live : Liveness) n s m :
  live_at (<[n := s]> live) m = if decide (n = m) then s else live_at live m.
Proof.
  unfold live_at. destruct (decide (n = m)) as [->|Hne].
  - by rewrite lookup_insert_eq.
  - by rewrite lookup_insert_ne.
Qed.

Lemma flow_mono live live' n :
  (∀ m, live_at live m ⊆ live_at live' m) → flow g live n ⊆ flow g live' n.
Proof. intros Hm id. rewrite !elem_flow. set_solver. Qed.

(** Changing the set of [n] changes the equation of its predecessors only. *)
Lemma flow_other live n s m :
  ¬ edge g m n → flow g (<[n := s]> live) m = flow g live m.
Proof.
  intros Hne. apply set_eq. intros id. rewrite !elem_flow.
  do 2 f_equiv. apply exist_proper. intros x. rewrite live_at_insert.
  destruct (decide (n = x)) as [<-|]; [naive_solver|done].
Qed.

Lemma flow_exposed live n id :
  (∀ m id, id ∈ live_at live m → exposed g id m) → id ∈ flow g live n → exposed g id n.
Proof.
  intros Hs [Hg|(Hk & s & He & Hl)]%elem_flow; [by apply exposed_gen|].
  eapply exposed_step; eauto.
Qed.

Lemma live_inv_same live n wl c :
  live_inv live (n :: wl) c → flow g live n = live_at live n → live_inv live wl c.
Proof.
  intros [Hco Hca Hno Hso Hu Hg Ht] Heq. split; try done.
  - intros m Hm. apply Hno. by constructor.
  - intros m Hm. destruct (Ht m Hm) as [[->|Hin]%elem_of_cons|Hle]; [|by left|by right].
    right. by rewrite Heq.
Qed.

Lemma live_inv_update live n wl c :
  live_inv live (n :: wl) c → live_inv (<[n := flow g live n]> live) (wl ++ sources g n) c.
Proof.
  intros [Hco Hca Hno Hso Hu Hg Ht].
  assert (Hn : n ∈ node_indices g) by (apply Hno; constructor).
  assert (Hle : ∀ m, live_at live m ⊆ live_at (<[n := flow g live n]> live) m).
  { intros m. rewrite live_at_insert. destruct (decide (n = m)) as [<-|]; [by apply Hg|done]. }
  split.
  - intros m Hm. destruct (decide (n = m)) as [<-|Hne]; [rewrite lookup_insert_eq; eauto|].
    rewrite lookup_insert_ne by done. by apply Hco.
  - done.
  - intros m [Hm|Hm%sources_edge]%elem_of_app; [by apply Hno; constructor|by eapply edge_node_l].
  - intros m id. rewrite live_at_insert. destruct (decide (n = m)) as [<-|]; [|by apply Hso].
    by apply flow_exposed.
  - intros m. rewrite live_at_insert. destruct (decide (n = m)) as [<-|]; [|done].
    intros id [Hid|(_ & s & _ & Hid)]%elem_flow; [by apply (gen_universe n)|by apply (Hu s)].
  - intros m Hm. rewrite live_at_insert. destruct (decide (n = m)) as [<-|].
    + by apply flow_mono.
    + etransitivity; [by apply Hg|]. by apply flow_mono.
  - intros m Hm.
    destruct (decide (m ∈ sources g n)) as [Hin|Hni]; [left; apply elem_of_app; by right|].
    assert (Hne : ¬ edge g m n) by (by rewrite <-sources_edge).
    rewrite flow_other by done. rewrite live_at_insert. destruct (decide (n = m)) as [<-|Hnm]; [by right|].
    destruct (Ht m Hm) as [[->|Hin]%elem_of_cons|]; [done|left; apply elem_of_app; by left|by right].
Qed.

(** ** Termination *)

Definition total_live (live : Liveness) : nat := sum_list ((λ n, size (live_at live n)) <$> node_indices g).
Definition max_sources : nat := sum_list ((λ n, length (sources g n)) <$> node_indices g).
Definition live_measure (live : Liveness) (wl : list NodeIndex) : nat :=
  (length wl + (length (node_indices g) * size universe - total_live live) * max_sources)%nat.

Lemma sum_le (f f' : N → nat) (l : list N) :
  (∀ x, (f x ≤ f' x)%nat) → (sum_list (f <$> l) ≤ sum_list (f' <$> l))%nat.
Proof. intros Hle. induction l as [|x l IH]; cbn; [done|]. specialize (Hle x). lia. Qed.

Lemma sum_lt (f f' : N → nat) (l : list N) n :
  (∀ x, (f x ≤ f' x)%nat) → n ∈ l → (f n < f' n)%nat → (sum_list (f <$> l) < sum_list (f' <$> l))%nat.
Proof.
  intros Hle Hin Hlt. induction l as [|y l IH]; [by apply not_elem_of_nil in Hin|]. cbn.
  apply elem_of_cons in Hin as [<-|Hin].
  - pose proof (sum_le f f' l Hle). lia.
  - specialize (Hle y). specialize (IH Hin). lia.
Qed.

Lemma sum_elem (f : N → nat) (l : list N) n : n ∈ l → (f n ≤ sum_list (f <$> l))%nat.
Proof. induction 1; cbn; lia. Qed.

Lemma sum_bound (f : N → nat) (l : list N) k : (∀ x, (f x ≤ k)%nat) → (sum_list (f <$> l) ≤ length l * k)%nat.
Proof. intros Hf. induction l as [|x l IH]; cbn; [done|]. specialize (Hf x). lia. Qed.

Lemma total_live_bound live wl c :
  live_inv live wl c → (total_live live ≤ length (node_indices g) * size universe)%nat.
Proof. intros Hi. apply sum_bound. intros n. apply subseteq_size. by eapply li_universe. Qed.

Lemma live_measure_update live n wl c :
  live_inv live (n :: wl) c → flow g live n ≠ live_at live n →
  (live_measure (<[n := flow g live n]> live) (wl ++ sources g n) < live_measure live (n :: wl))%nat.
Proof.
  intros Hi Hne. assert (Hn : n ∈ node_indices g) by (eapply li_nodes; [done|constructor]).
  pose proof (total_live_bound _ _ _ (live_inv_update _ _ _ _ Hi)) as Hb.
  assert (Hg : live_at live n ⊆ flow g live n) by by eapply li_grows.
  assert (Hlt : (total_live live < total_live (<[n := flow g live n]> live))%nat).
  { eapply (sum_lt _ _ _ n); [|done|].
    - intros m. rewrite live_at_insert. destruct (decide (n = m)) as [<-|]; [by apply subseteq_size|done].
    - rewrite live_at_insert, decide_True by done. apply subset_size. set_solver. }
  pose proof (sum_elem (λ n, length (sources g n)) _ n Hn) as Hs.
  unfold live_measure. rewrite length_app. cbn [length]. fold max_sources in Hs.
  set (X := (length (node_indices g) * size universe)%nat) in *.
  set (t := total_live live) in *. set (t' := total_live _) in *.
  assert (Hx : (S (X - t') ≤ X - t)%nat) by lia. nia.
Qed.

Lemma live_measure_cons live n wl : live_measure live (n :: wl) = S (live_measure live wl).
Proof. done. Qed.

Lemma analyze_loop_ok fuel live st :
  live_inv live (worklist st) (sets_cache st) → (live_measure live (worklist st) ≤ fuel)%nat →
  ∃ live' c, analyze_loop fuel opt live st = Ret live' ∧ live_inv live' [] c.
Proof.
  revert live st. induction fuel as [|fuel IH]; intros live st Hi Hf.
  - destruct (worklist st) as [|n wl] eqn:Hwl; [|rewrite live_measure_cons in Hf; lia].
    exists live, (sets_cache st). split; [|done]. cbn. by rewrite Hwl.
  - cbn [analyze_loop]. destruct (worklist st) as [|n wl] eqn:Hwl; [by exists live, (sets_cache st)|].
    destruct (analyze_block_ok live n {| worklist := wl; sets_cache := sets_cache st |}) as (c & Hc & ->).
    { eapply li_nodes; [done|constructor]. }
    { by eapply li_covers. }
    { by eapply li_cache. }
    assert (Hi' : live_inv live (n :: wl) c) by (destruct Hi; by split).
    cbn [worklist obind]. destruct (decide (flow g live n = live_at live n)) as [Heq|Hne].
    + apply IH; cbn [worklist sets_cache]; [by eapply live_inv_same|].
      rewrite live_measure_cons in Hf. lia.
    + apply IH; cbn [worklist sets_cache]; [by apply live_inv_update|].
      pose proof (live_measure_update _ _ _ _ Hi' Hne). lia.
Qed.

Lemma live_inv_exact live c n id :
  live_inv live [] c → reach (edge g) (entry opt) n → id ∈ live_at live n ↔ exposed g id n.
Proof.
  intros Hi Hn. split; [by eapply li_sound|]. apply exposed_live.
  - intros m Hm Hid. destruct (li_todo _ _ _ Hi m) as [[]%elem_of_nil|Hle]; [by eapply reach_trans|].
    apply Hle, elem_flow. by left.
  - intros m x Hm He Hk Hid.
    destruct (li_todo _ _ _ Hi m) as [[]%elem_of_nil|Hle]; [by eapply reach_trans|].
    apply Hle, elem_flow. right. split; [done|]. by exists x.
Qed.

Lemma live_inv_init wl :
  (∀ n, n ∈ wl → n ∈ node_indices g) → (∀ n, reach (edge g) (entry opt) n → n ∈ wl) →
  live_inv (Liveness_empty opt) wl ∅.
Proof.
  intros Hwl Hr.
  assert (He : ∀ n, Liveness_empty opt !! n = if decide (n ∈ node_indices g) then Some ∅ else None)
    by (intros n; apply empty_sets).
  assert (Hl : ∀ n, live_at (Liveness_empty opt) n = ∅).
  { intros n. unfold live_at. rewrite He. by destruct (decide _). }
  split.
  - intros n Hn. rewrite He, decide_True by done. by eexists.
  - intros n s. by rewrite lookup_empty.
  - done.
  - intros n id. rewrite Hl. by intros ?%elem_of_empty.
  - intros n. rewrite Hl. apply empty_subseteq.
  - intros n _. rewrite Hl. apply empty_subseteq.
  - intros n Hn. left. by apply Hr.
Qed.
End liveness.

(** ** The analysis *)

Section analysis.
  Context {V G : Type} `{SV : StableVec V} `{!StableVecSpec V} `{SG : StableDiGraph V G}
    `{!StableDiGraphSpec V G}.

(** The cached traversal and dominators are those of the current graph;
    nothing else is cached. *)
Record cache_fresh (opt : Optimizer V G) : Prop := {
  fresh_post_order a : c_post_order (analysis_cache opt) = Some a → a = post_order_init opt;
  fresh_dominators a : c_dominators (analysis_cache opt) = Some a → a = dominators_init opt;
  fresh_liveness : c_liveness (analysis_cache opt) = None;
  fresh_writes : c_writes (analysis_cache opt) = None;
  fresh_dom_frontiers : c_dom_frontiers (analysis_cache opt) = None;
}.

(** Rounds that suffice: the first visits, and for every growth of a set the
    visits of the predecessors. *)
Definition live_fuel (opt : Optimizer V G) : nat :=
  (length (post_order_init opt) +
   length (node_ids opt) * size (universe opt) * max_sources opt)%nat.

(** Two caches that differ in the analyses between [c_post_order] and [c_writes]. *)
Definition same_dominance (c c' : AnalysisCache V G) : Prop :=
  c_dominators c = c_dominators c' ∧ c_dom_frontiers c = c_dom_frontiers c'.

Lemma analysis_post_order_ok (opt : Optimizer V G) :
  (∀ a, c_post_order (analysis_cache opt) = Some a → a = post_order_init opt) →
  ∃ c, analysis_post_order opt = Ret (post_order_init opt, set_cache c opt) ∧
       same_dominance c (analysis_cache opt).
Proof.
  intros Hp. unfold analysis_post_order, bind, get_state, modify_state.
  destruct (c_post_order (analysis_cache opt)) as [a|] eqn:He; cbn.
  - exists (analysis_cache opt). rewrite (Hp a eq_refl) in *. split; [by destruct opt|done].
  - eexists. split; [reflexivity|done].
Qed.

Lemma analyze_liveness_ok fuel (opt : Optimizer V G) :
  (∀ a, c_post_order (analysis_cache opt) = Some a → a = post_order_init opt) →
  algorithms_ok (opt_graph opt) (entry opt) → entry opt ∈ node_ids opt →
  code_readable (opt_graph opt) → (live_fuel opt ≤ fuel)%nat →
  ∃ live c, analyze_liveness fuel (Liveness_empty opt) opt = Ret (live, set_cache c opt) ∧
    same_dominance c (analysis_cache opt) ∧ covers opt live ∧
    ∀ n id, reach (edge (opt_graph opt)) (entry opt) n → id ∈ live_at live n ↔ exposed (opt_graph opt) id n.
Proof.
  intros Hc Ha He Hr Hf.
  destruct (analysis_post_order_ok opt Hc) as (c & Hpo & Hcp).
  unfold analyze_liveness, bind. rewrite Hpo. unfold get_state, lift.
  destruct (analyze_loop_ok (set_cache c opt) Hr fuel (Liveness_empty opt)
              {| worklist := post_order_init opt; sets_cache := ∅ |}) as (live & bs & Hlive & Hi).
  - apply (live_inv_init (set_cache c opt)).
    + intros n Hn%(post_order_reach _ _ Ha). by eapply reach_node.
    + intros n. by apply (post_order_reach _ _ Ha).
  - cbn [worklist]. unfold live_measure. unfold live_fuel, node_ids in Hf.
    change (universe (set_cache c opt)) with (universe opt).
    change (max_sources (set_cache c opt)) with (max_sources opt).
    change (opt_graph (set_cache c opt)) with (opt_graph opt). nia.
  - exists live, c. rewrite Hlive. split; [done|]. split; [done|].
    split; [by apply (li_covers _ _ _ _ Hi)|].
    intros n id. by apply (live_inv_exact (set_cache c opt) _ bs).
Qed.

Lemma analysis_liveness_ok fuel (opt : Optimizer V G) :
  (∀ a, c_post_order (analysis_cache opt) = Some a → a = post_order_init opt) →
  c_liveness (analysis_cache opt) = None →
  algorithms_ok (opt_graph opt) (entry opt) → entry opt ∈ node_ids opt →
  code_readable (opt_graph opt) → (live_fuel opt ≤ fuel)%nat →
  ∃ live c, analysis_liveness fuel opt = Ret (live, set_cache c opt) ∧
    same_dominance c (analysis_cache opt) ∧ covers opt live ∧
    ∀ n id, reach (edge (opt_graph opt)) (entry opt) n → id ∈ live_at live n ↔ exposed (opt_graph opt) id n.
Proof.
  intros Hc Hn Ha He Hr Hf.
  destruct (analyze_liveness_ok fuel opt Hc Ha He Hr Hf) as (live & c & Hlive & Hd & Hco & Hex).
  unfold analysis_liveness. unfold bind at 1, get_state. rewrite Hn. unfold bind. rewrite Hlive. cbn.
  eexists live, _. split; [unfold ret; reflexivity|]. done.
Qed.

End analysis.
