(* ===== verification/PhiPlacement.v ===== *)
(** * Dominance frontiers and the placement of phi nodes

    [analyses/dominance.rs] computes the dominance frontiers, and
    [phi_frontiers.rs] places a phi node for a variable in every block of the
    iterated frontier of its writers in which the variable is live. *)

From stdpp Require Import gmap sets.
From S2P Require Import Prelude Ir Visit Cfg Dominance LivenessProps.

Open Scope N_scope.
Open Scope rust_scope.

(** A set of the map, empty where there is none. *)
Definition set_at (m : gmap N (gset N)) (n : N) : gset N := default ∅ (m !! n).

Lemma set_at_insert (m : gmap N (gset N)) n s k :
  set_at (<[n := s]> m) k = if decide (n = k) then s else set_at m k.
Proof.
  unfold set_at. destruct (decide (n = k)) as [->|Hne].
  - by rewrite lookup_insert_eq.
  - by rewrite lookup_insert_ne.
Qed.

Lemma set_at_empty_sets (l : list N) n : set_at (list_to_map ((λ it, (it, ∅)) <$> l)) n = ∅.
Proof. unfold set_at. rewrite empty_sets. by destruct (decide _). Qed.

(** ** Dominance frontiers *)

Section frontiers.
  Context {V G : Type} `{SG : StableDiGraph V G} `{!StableDiGraphSpec V G}.
  Context (g : G) (root : N) (Ha : algorithms_ok g root) (Hroot : root ∈ node_indices g).

Abbreviation dom := (dominates (edge g) root).
Abbreviation sdom := (strictly_dominates (edge g) root).
Abbreviation reached := (reach (edge g) root).
Abbreviation doms := (simple_fast g root).

Definition has_all (df : DomFrontiers) : Prop := ∀ n, n ∈ node_indices g → is_Some (df !! n).

Lemma has_all_insert df n s : has_all df → has_all (<[n := s]> df).
Proof.
  intros H m Hm. destruct (decide (n = m)) as [->|Hne]; [rewrite lookup_insert_eq; eauto|].
  rewrite lookup_insert_ne by done. by apply H.
Qed.

Lemma dominates_sdom a b c : reached c → dom a b → sdom b c → sdom a c.
Proof.
  intros Hc Hab [Hne Hbc]. split; [|by eapply dominates_trans].
  intros ->. apply Hne. by apply dominates_antisym with (edge g) root.
Qed.

Lemma idom_of n d : immediate_dominator doms n = Some d → immediate (edge g) root d n.
Proof. apply (idom_some _ _ Ha). Qed.

Lemma reached_dominator a b : reached b → dom a b → reached a.
Proof. intros [l Hl] Hd. destruct (walk_split _ _ _ _ _ Hl (Hd _ Hl)) as (l1 & ? & _ & ? & _). by exists l1. Qed.

Lemma run_up_ok fuel node d runner df l :
  reached node → immediate_dominator doms node = Some d →
  walk (edge g) root l runner → (length l ≤ fuel)%nat → dom d runner → has_all df →
  ∃ df', run_up fuel doms node runner df = Ret df' ∧ has_all df' ∧
    ∀ r m, m ∈ set_at df' r ↔ m ∈ set_at df r ∨ (m = node ∧ dom r runner ∧ ¬ sdom r node).
Proof using Ha Hroot StableDiGraphSpec0.
  intros Hnode Hd. pose proof (idom_of _ _ Hd) as [Hds Himm].
  revert runner df l. induction fuel as [|fuel IH]; intros runner df l Hl Hf Hdr Hall.
  all: assert (Hrr : reached runner) by by exists l.
  all: unfold run_up; fold (run_up (SG := SG)); unfold unwrap_dominator; rewrite Hd; cbn [expect obind].
  all: destruct (decide (runner = d)) as [->|Hne].
  1, 3: exists df; split_and!; [done..|]; intros r m; split; [by left|];
        intros [|(_ & H1 & H2)]; [done|]; destruct H2; by eapply dominates_sdom.
  - destruct l; [|cbn in Hf; lia]. inversion Hl; subst.
    specialize (Hdr [] (walk_nil _ _)). apply list_elem_of_singleton in Hdr. done.
  - assert (Hnr : runner ≠ root).
    { intros ->. specialize (Hdr [] (walk_nil _ _)). apply list_elem_of_singleton in Hdr. done. }
    destruct (idom_exists _ _ Ha _ Hrr Hnr) as [d' Hd']. pose proof (idom_of _ _ Hd') as [Hd's Himm'].
    destruct (Hall runner) as [old Hold]; [by eapply reach_node|]. rewrite Hold. cbn [expect obind].
    rewrite Hd'. cbn [expect obind].
    destruct (dominates_earlier _ _ _ _ _ Hd's Hl) as (l' & Hl' & Hlt).
    destruct (IH d' (<[runner := old ∪ {[node]}]> df) l') as (df' & Hrun & Hall' & Hdf');
      [done|lia|by apply Himm'|by apply has_all_insert|].
    exists df'. split_and!; [done..|]. intros r m. rewrite Hdf', set_at_insert.
    assert (Hnd : ¬ sdom runner node).
    { intros Hs. apply Hne. apply dominates_antisym with (edge g) root; [|by apply Himm|done].
      by eapply reached_dominator; [|apply Hds]. }
    assert (Hiff : dom r runner ↔ r = runner ∨ dom r d').
    { split.
      - intros Hr. destruct (decide (r = runner)) as [->|]; [by left|right]. by apply Himm'.
      - intros [->|Hr]; [apply dominates_refl|]. eapply dominates_trans; [done|apply Hd's]. }
    rewrite Hiff. destruct (decide (runner = r)) as [<-|Hnr'].
    + unfold set_at. rewrite Hold. cbn. rewrite elem_of_union, elem_of_singleton. naive_solver.
    + naive_solver.
Qed.

(** Where the algorithm does not panic: joins and their predecessors can be
    reached, and the root is no join. *)
Definition joins_reached : Prop :=
  ∀ n, n ∈ node_indices g → (2 ≤ length (sources g n))%nat → n ≠ root ∧ ∀ p, p ∈ sources g n → reached p.

Lemma frontiers_of_preds_ok fuel node d preds df :
  reached node → immediate_dominator doms node = Some d → (length (node_indices g) ≤ fuel)%nat →
  (∀ p, p ∈ preds → reached p ∧ edge g p node) → has_all df →
  ∃ df', frontiers_of_preds fuel doms node preds df = Ret df' ∧ has_all df' ∧
    ∀ r m, m ∈ set_at df' r ↔ m ∈ set_at df r ∨ (m = node ∧ (∃ p, p ∈ preds ∧ dom r p) ∧ ¬ sdom r node).
Proof using Ha Hroot StableDiGraphSpec0.
  intros Hnode Hd Hf. revert df. induction preds as [|p preds IH]; intros df Hp Hall.
  - exists df. split_and!; [done..|]. intros r m. split; [by left|].
    by intros [|(_ & (p & []%elem_of_nil & _) & _)].
  - cbn [frontiers_of_preds]. destruct (Hp p) as [Hpr Hpe]; [constructor|].
    destruct (short_walk g _ _ Hroot Hpr) as (l & Hl & Hlen).
    destruct (run_up_ok fuel node d p df l) as (df1 & -> & Hall1 & Hdf1); [done|done|done|lia| |done|].
    { eapply dominates_pred; [|done]. by apply (idom_of _ _ Hd). }
    cbn [obind]. destruct (IH df1) as (df2 & -> & Hall2 & Hdf2); [|done|].
    { intros q Hq. apply Hp. by constructor. }
    exists df2. split_and!; [done..|]. intros r m. rewrite Hdf2, Hdf1. set_solver.
Qed.

(** [m] is in the frontier of [r]. *)
Definition in_frontier (r m : N) : Prop :=
  (2 ≤ length (sources g m))%nat ∧ (∃ p, p ∈ sources g m ∧ dom r p) ∧ ¬ sdom r m.

Lemma frontiers_of_nodes_ok fuel (opt : Optimizer V G) nodes df :
  opt_graph opt = g → joins_reached → (length (node_indices g) ≤ fuel)%nat →
  (∀ n, n ∈ nodes → n ∈ node_indices g) → has_all df →
  ∃ df', frontiers_of_nodes fuel opt doms nodes df = Ret df' ∧ has_all df' ∧
    ∀ r m, m ∈ set_at df' r ↔ m ∈ set_at df r ∨ (m ∈ nodes ∧ in_frontier r m).
Proof using Ha Hroot StableDiGraphSpec0.
  intros Hg Hj Hf. revert df. induction nodes as [|n nodes IH]; intros df Hn Hall.
  - exists df. split_and!; [done..|]. intros r m. set_solver.
  - cbn [frontiers_of_nodes]. unfold predecessors. rewrite Hg.
    assert (Hstep : ∃ df1, (if (2 <=? length (sources g n))%nat
                            then frontiers_of_preds fuel doms n (sources g n) df else Ret df) = Ret df1 ∧
              has_all df1 ∧ ∀ r m, m ∈ set_at df1 r ↔ m ∈ set_at df r ∨ (m = n ∧ in_frontier r m)).
    { destruct (Nat.leb_spec 2 (length (sources g n))) as [Hle|Hlt].
      - destruct (Hj n) as [Hnr Hp]; [apply Hn; constructor|done|].
        assert (Hnode : reached n).
        { destruct (sources g n) as [|p l] eqn:Hs; [cbn in Hle; lia|].
          eapply reach_step; [apply (Hp p); constructor|]. apply sources_edge. rewrite Hs. constructor. }
        destruct (idom_exists _ _ Ha _ Hnode Hnr) as [d Hd].
        destruct (frontiers_of_preds_ok fuel n d (sources g n) df) as (df1 & -> & ? & Hdf1);
          [done..| |done|].
        { intros p Hin. split; [by apply Hp|]. by apply sources_edge. }
        exists df1. split_and!; [done..|]. intros r m. rewrite Hdf1. unfold in_frontier.
        split; [|intros [|(-> & _ & ? & ?)]; naive_solver].
        intros [|(-> & ? & ?)]; [by left|right]. done.
      - exists df. split_and!; [done..|]. intros r m. split; [by left|].
        intros [|(-> & ? & _)]; [done|lia]. }
    destruct Hstep as (df1 & -> & Hall1 & Hdf1). cbn [obind].
    destruct (IH df1) as (df2 & -> & Hall2 & Hdf2); [|done|].
    { intros q Hq. apply Hn. by constructor. }
    exists df2. split_and!; [done..|]. intros r m. rewrite Hdf2, Hdf1, elem_of_cons. naive_solver.
Qed.
End frontiers.

(** ** Writes *)

Section writes.
  Context {V G : Type} `{SV : StableVec V} `{SG : StableDiGraph V G} `{!StableDiGraphSpec V G}.
  Context (opt : Optimizer V G).
Abbreviation g := (opt_graph opt).

Lemma writes_block_ok n insts (w : Writes) s :
  w !! n = Some s →
  ∃ s', writes_block n insts w = Ret (<[n := s']> w) ∧ s' = s ∪ written insts.
Proof.
  revert w s. induction insts as [|i insts IH]; intros w s Hs.
  - exists s. split; [by rewrite insert_id|unfold written; cbn; set_solver].
  - cbn [writes_block]. rewrite written_cons. unfold inst_writes.
    destruct (inst_out i ≫= local_variable_id) as [id|] eqn:Hi; cbn [option_list].
    + rewrite Hs. cbn [expect obind].
      destruct (IH (<[n := s ∪ {[id]}]> w) (s ∪ {[id]})) as (s' & -> & ->); [by rewrite lookup_insert_eq|].
      eexists. split; [by rewrite insert_insert_eq|set_solver].
    + destruct (IH w s Hs) as (s' & -> & ->). eexists. split; [done|set_solver].
Qed.

Lemma writes_blocks_ok nodes (w : Writes) :
  (∀ n, n ∈ nodes → n ∈ node_indices g) → (∀ n, n ∈ node_indices g → is_Some (w !! n)) →
  ∃ w', writes_blocks opt nodes w = Ret w' ∧ (∀ n, n ∈ node_indices g → is_Some (w' !! n)) ∧
    ∀ n id, id ∈ set_at w' n ↔ id ∈ set_at w n ∨ (n ∈ nodes ∧ id ∈ killed g n).
Proof.
  revert w. induction nodes as [|n nodes IH]; intros w Hn Hw.
  - exists w. split_and!; [done..|]. intros n id. set_solver.
  - cbn [writes_blocks].
    assert (Hin : n ∈ node_indices g) by (apply Hn; constructor).
    destruct (proj2 (node_weight_node g n) Hin) as [b Hb]. unfold block_of. rewrite Hb. cbn [expect obind].
    destruct (Hw n Hin) as [s Hs].
    destruct (writes_block_ok n (sv_values (ops b)) w s Hs) as (s' & -> & Hs'). cbn [obind].
    destruct (IH (<[n := s']> w)) as (w' & -> & Hw' & Hspec).
    + intros m Hm. apply Hn. by constructor.
    + intros m Hm. destruct (decide (n = m)) as [->|Hne]; [rewrite lookup_insert_eq; eauto|].
      rewrite lookup_insert_ne by done. by apply Hw.
    + exists w'. split_and!; [done..|]. intros m id. rewrite Hspec, set_at_insert, elem_of_cons.
      destruct (decide (n = m)) as [->|Hne]; [|naive_solver].
      assert (Hk : killed g m = written (sv_values (ops b))) by (unfold killed, code; by rewrite Hb).
      rewrite Hs', elem_of_union, Hk. unfold set_at. rewrite Hs. cbn. naive_solver.
Qed.

Lemma Writes_new_ok :
  ∃ w, Writes_new opt = Ret w ∧ (∀ n, n ∈ node_indices g → is_Some (w !! n)) ∧
    ∀ n id, n ∈ node_indices g → id ∈ set_at w n ↔ id ∈ killed g n.
Proof.
  unfold Writes_new.
  destruct (writes_blocks_ok (node_ids opt) (list_to_map ((λ it, (it, ∅)) <$> node_ids opt))) as (w & -> & Hw & Hs).
  - done.
  - intros n Hn. rewrite empty_sets, decide_True by done. by eexists.
  - exists w. split_and!; [done..|]. intros n id Hn. rewrite Hs, set_at_empty_sets. set_solver.
Qed.
End writes.

(** ** Phi placement *)

Section placement.
  Context {V G : Type} `{SV : StableVec V} `{SG : StableDiGraph V G} `{!StableDiGraphSpec V G}
    `{HO : HashOrder} `{!HashOrderSpec}.

(** The graph [g] with phi nodes for the variables [placed n] appended to those
    of every block [n]. *)
Definition phi_of (g : G) (n : NodeIndex) (id : Id) (item : Item) : PhiInstruction :=
  {| phi_out := versioned id 0 item;
     phi_entries := (λ pred, {| pe_block := pred; pe_value := versioned id 0 item |}) <$> sources g n |}.

Record placed_in (vars : gmap Id Item) (g g' : G) (placed : NodeIndex → list Id) : Prop := {
  pl_indices : node_indices g' = node_indices g;
  pl_edges n : edges g' n = edges g n;
  pl_sources n : sources g' n = sources g n;
  pl_weight n :
    node_weight g' n =
    (λ b, set_phis b (phi_nodes b ++ omap (λ id, phi_of g n id <$> vars !! id) (placed n))) <$> node_weight g n;
}.

Lemma placed_in_refl vars g : placed_in vars g g (λ _, []).
Proof.
  split; [done..|]. intros n. destruct (node_weight g n) as [b|]; [|done]. cbn. rewrite app_nil_r.
  by destruct b.
Qed.

Definition add_placed (n : NodeIndex) (id : Id) (placed : NodeIndex → list Id) : NodeIndex → list Id :=
  λ m, if decide (n = m) then placed m ++ [id] else placed m.

Lemma insert_phi_ok vars (g0 : G) (opt : Optimizer V G) placed n id item :
  placed_in vars g0 (opt_graph opt) placed → n ∈ node_indices g0 → vars !! id = Some item →
  ∃ g', insert_phi n id item opt = Ret (tt, set_graph g' opt) ∧ placed_in vars g0 g' (add_placed n id placed).
Proof.
  intros Hp Hn Hid. unfold insert_phi, bind, get_state, lift, modify_state.
  destruct (proj2 (node_weight_node g0 n) Hn) as [b Hb].
  pose proof (pl_weight _ _ _ _ Hp n) as Hw. rewrite Hb in Hw. cbn in Hw.
  unfold block_of. rewrite Hw. cbn [expect].
  eexists. split; [reflexivity|]. split.
  - rewrite set_weight_indices. by apply (pl_indices _ _ _ _ Hp).
  - intros m. rewrite set_weight_edges. by apply (pl_edges _ _ _ _ Hp).
  - intros m. rewrite set_weight_sources. by apply (pl_sources _ _ _ _ Hp).
  - intros m. unfold add_placed. destruct (decide (n = m)) as [<-|Hne].
    + rewrite set_weight_same by by rewrite (pl_indices _ _ _ _ Hp). rewrite Hb. cbn.
      unfold set_phis. cbn. do 2 f_equal. rewrite <-app_assoc. f_equal.
      rewrite omap_app. cbn. rewrite Hid. cbn. do 2 f_equal.
      unfold phi_for, phi_of, versioned, predecessors. by rewrite (pl_sources _ _ _ _ Hp).
    + rewrite set_weight_other by done. apply (pl_weight _ _ _ _ Hp).
Qed.

Section variable.
  Context (vars : gmap Id Item) (g0 : G) (live : Liveness) (df : DomFrontiers) (var : Id) (item : Item).
  Context (Hvar : vars !! var = Some item).
  Context (Hlive : ∀ n, n ∈ node_indices g0 → is_Some (live !! n)).
  Context (Hdf : ∀ n, n ∈ node_indices g0 → is_Some (df !! n)).
  Context (Hdfn : ∀ n m, m ∈ set_at df n → m ∈ node_indices g0).

(** The frontier of [n] where [var] is live. *)
Definition live_frontier (n m : NodeIndex) : Prop := m ∈ set_at df n ∧ var ∈ live_at live m.

(** The iterated frontier of the writers. *)
Inductive iterated (writer : NodeIndex → Prop) : NodeIndex → Prop :=
| iterated_writer n m : writer n → live_frontier n m → iterated writer m
| iterated_phi n m : iterated writer n → live_frontier n m → iterated writer m.

(** [placed] and the work after the insertion of [var] in [already_inserted w]. *)
Definition state_ok (placed0 placed : NodeIndex → list Id) (w : PhiWork) : Prop :=
  (∀ n, placed n = if decide (n ∈ already_inserted w) then placed0 n ++ [var] else placed0 n).

Lemma state_ok_add placed0 placed w n ws cs :
  state_ok placed0 placed w → n ∉ already_inserted w →
  state_ok placed0 (add_placed n var placed)
    {| workset := ws; considered := cs; already_inserted := already_inserted w ++ [n] |}.
Proof.
  intros Hs Hn m. unfold add_placed. rewrite (Hs m). cbn.
  destruct (decide (n = m)) as [<-|Hne].
  - rewrite decide_False by done. rewrite decide_True by (apply elem_of_app; right; constructor). done.
  - destruct (decide (m ∈ already_inserted w)) as [Hin|Hni].
    + rewrite decide_True by (apply elem_of_app; by left). done.
    + rewrite decide_False; [done|]. intros [|Hel%list_elem_of_singleton]%elem_of_app; congruence.
Qed.

Record place_step (fs : list NodeIndex) (w w' : PhiWork) : Prop := {
  ps_inserted f : f ∈ already_inserted w' ↔ f ∈ already_inserted w ∨ (f ∈ fs ∧ var ∈ live_at live f);
  ps_considered n : n ∈ considered w' ↔ n ∈ considered w ∨ (n ∈ already_inserted w' ∧ n ∉ already_inserted w);
  ps_new n : n ∈ considered w' → n ∈ considered w ∨ n ∈ workset w';
  ps_keep n : n ∈ workset w → n ∈ workset w';
  ps_from n : n ∈ workset w' → n ∈ workset w ∨ n ∈ considered w';
  ps_nodup : NoDup (considered w) → NoDup (considered w');
  ps_length : (length (workset w') + length (considered w) = length (workset w) + length (considered w'))%nat;
}.

Lemma is_dead_ok n : n ∈ node_indices g0 → is_dead live n var = Ret (negb (bool_decide (var ∈ live_at live n))).
Proof using Hlive.
  intros [s Hs]%Hlive. unfold is_dead, at_block, index_map, live_at. by rewrite Hs.
Qed.

Lemma place_step_skip f fs w w' :
  (f ∈ already_inserted w ∨ var ∉ live_at live f) → place_step fs w w' → place_step (f :: fs) w w'.
Proof.
  intros Hf [Hi Hc Hn Hk Hfr Hnd Hl]. split; try done.
  intros x. rewrite Hi, elem_of_cons. naive_solver.
Qed.

Lemma place_step_insert f fs w w1 w' :
  f ∉ already_inserted w → var ∈ live_at live f →
  already_inserted w1 = already_inserted w ++ [f] →
  (f ∈ considered w ∧ considered w1 = considered w ∧ workset w1 = workset w ∨
   f ∉ considered w ∧ considered w1 = considered w ++ [f] ∧ workset w1 = workset w ++ [f]) →
  place_step fs w1 w' → place_step (f :: fs) w w'.
Proof.
  intros Hf Hv Hi1 Hcase [Hi Hc Hn Hk Hfr Hnd Hl]. rewrite Hi1 in *.
  assert (Hins : ∀ x, x ∈ already_inserted w' ↔ x ∈ already_inserted w ∨ (x ∈ f :: fs ∧ var ∈ live_at live x)).
  { intros x. rewrite Hi, elem_of_app, list_elem_of_singleton, elem_of_cons. naive_solver. }
  assert (Hfi : f ∈ already_inserted w') by (apply Hins; right; split; [constructor|done]).
  setoid_rewrite elem_of_app in Hc. setoid_rewrite list_elem_of_singleton in Hc.
  destruct Hcase as [(Hfc & Hc1 & Hw1)|(Hfc & Hc1 & Hw1)]; rewrite Hc1, Hw1 in *.
  - split; try done. intros x. rewrite Hc. destruct (decide (x = f)) as [->|]; naive_solver.
  - split; [done|..].
    + intros x. rewrite Hc, elem_of_app, list_elem_of_singleton.
      destruct (decide (x = f)) as [->|]; naive_solver.
    + intros x Hx. destruct (Hn x Hx) as [[|Hel%list_elem_of_singleton]%elem_of_app|]; [by left| |by right].
      subst x. right. apply Hk, elem_of_app. right. constructor.
    + intros x Hx. apply Hk, elem_of_app. by left.
    + intros x Hx. destruct (Hfr x Hx) as [[|Hel%list_elem_of_singleton]%elem_of_app|]; [by left| |by right].
      subst x. right. apply Hc. left. apply elem_of_app. right. constructor.
    + intros Hnd0. apply Hnd, NoDup_app. split_and!; [done| |apply NoDup_singleton].
      intros x Hx ->%list_elem_of_singleton. done.
    + rewrite !length_app in Hl. cbn in Hl. lia.
Qed.

Lemma place_at_ok fs w (opt : Optimizer V G) placed0 placed :
  variables (program opt) = vars → placed_in vars g0 (opt_graph opt) placed →
  state_ok placed0 placed w → (∀ f, f ∈ fs → f ∈ node_indices g0) →
  ∃ w' g' placed', place_at live var fs w opt = Ret (w', set_graph g' opt) ∧
    placed_in vars g0 g' placed' ∧ state_ok placed0 placed' w' ∧ place_step fs w w'.
Proof using All.
  revert w opt placed. induction fs as [|f fs IH]; intros w opt placed Hvars Hp Hs Hn.
  - exists w, (opt_graph opt), placed. split_and!; [by destruct opt as [[]]|done..|].
    split; [set_solver..|done|done].
  - assert (Hfn : f ∈ node_indices g0) by (apply Hn; constructor).
    assert (Hn' : ∀ x, x ∈ fs → x ∈ node_indices g0) by (intros; apply Hn; by constructor).
    cbn [place_at]. destruct (decide (f ∈ already_inserted w)) as [Hin|Hni].
    { destruct (IH w opt placed) as (w' & g' & placed' & Heq & Hp' & Hs' & Hst); [done..|].
      exists w', g', placed'. split_and!; [done..|]. apply place_step_skip; [by left|done]. }
    unfold bind at 1. rewrite is_dead_ok by done. cbn [lift].
    destruct (bool_decide_reflect (var ∈ live_at live f)) as [Hv|Hv]; cbn [negb].
    2:{ destruct (IH w opt placed) as (w' & g' & placed' & Heq & Hp' & Hs' & Hst); [done..|].
        exists w', g', placed'. split_and!; [done..|]. apply place_step_skip; [by right|done]. }
    unfold bind, get_state, lift. rewrite Hvars. unfold index_map. rewrite Hvar. cbn [expect].
    destruct (insert_phi_ok vars g0 opt placed f var item) as (g1 & -> & Hp1); [done..|].
    set (w1 := if decide (f ∈ considered w) then _ else _).
    assert (Hw1 : already_inserted w1 = already_inserted w ++ [f]) by (by subst w1; destruct (decide _)).
    destruct (IH w1 (set_graph g1 opt) (add_placed f var placed)) as (w' & g' & placed' & Heq & Hp' & Hs' & Hst);
      [done|done| |done|].
    { intros m. rewrite (state_ok_add placed0 placed w f [] [] Hs Hni m). cbn. by rewrite Hw1. }
    exists w', g', placed'. split_and!; [exact Heq|done|done|].
    apply (place_step_insert f fs w w1); [done..| |done].
    subst w1. destruct (decide (f ∈ considered w)); cbn; naive_solver.
Qed.

(** *** The work list *)

Lemma pop_back_spec {A : Type} (l : list A) :
  match pop_back l with
  | None => l = []
  | Some (x, r) => l = r ++ [x]
  end.
Proof.
  unfold pop_back. destruct (rev l) as [|x r] eqn:Hr.
  - apply (f_equal (@rev A)) in Hr. by rewrite rev_involutive in Hr.
  - apply (f_equal (@rev A)) in Hr. by rewrite rev_involutive in Hr.
Qed.

Record loop_inv (writer : NodeIndex → Prop) (w : PhiWork) : Prop := {
  lo_done n f : n ∈ considered w → n ∉ workset w → live_frontier n f → f ∈ already_inserted w;
  lo_writer n : writer n → n ∈ considered w;
  lo_inserted n : n ∈ already_inserted w → n ∈ considered w;
  lo_from n : n ∈ considered w → writer n ∨ iterated writer n;
  lo_sound n : n ∈ already_inserted w → iterated writer n;
  lo_work n : n ∈ workset w → n ∈ considered w;
  lo_nodup : NoDup (considered w);
  lo_nodes n : n ∈ considered w → n ∈ node_indices g0;
}.

Lemma loop_inv_step writer n rest ws cs ins w' :
  ws = rest ++ [n] →
  loop_inv writer {| workset := ws; considered := cs; already_inserted := ins |} →
  place_step (set_order (set_at df n)) {| workset := rest; considered := cs; already_inserted := ins |} w' →
  loop_inv writer w'.
Proof using All.
  intros -> [Hd Hw Hi Hf Hs Hwk Hnd Hno] [Pi Pc Pn Pk Pf Pnd Pl]. cbn in *.
  assert (Hnc : n ∈ cs) by (apply Hwk, elem_of_app; right; constructor).
  assert (Hord : ∀ f, f ∈ set_order (set_at df n) ↔ f ∈ set_at df n).
  { intros f. rewrite set_order_perm. apply elem_of_elements. }
  setoid_rewrite Hord in Pi.
  assert (Hit : ∀ f, f ∈ already_inserted w' → iterated writer f).
  { intros f [Hin|Hin]%Pi; [by apply Hs|].
    destruct (Hf n Hnc) as [|]; [by eapply iterated_writer|by eapply iterated_phi]. }
  split.
  - intros m f [Hm|[Hm Hm']]%Pc Hmw Hlf.
    + apply Pi. destruct (decide (m = n)) as [->|Hne]; [by right|left].
      apply (Hd m f); [done| |done]. intros [Hr|Hr%list_elem_of_singleton]%elem_of_app; [|done].
      by apply Hmw, Pk.
    + destruct (Pn m) as [Hmc|]; [apply Pc; by right| |done].
      apply Pi. destruct (decide (m = n)) as [->|Hne]; [by right|left].
      apply (Hd m f); [done| |done]. intros [Hr|Hr%list_elem_of_singleton]%elem_of_app; [|done].
      by apply Hmw, Pk.
  - intros m Hm. apply Pc. left. by apply Hw.
  - intros m Hm. apply Pc. destruct (decide (m ∈ ins)); [left; by apply Hi|by right].
  - intros m [Hm|[Hm _]]%Pc; [by apply Hf|right; by apply Hit].
  - done.
  - intros m [Hm|]%Pf; [|done]. apply Pc. left. apply Hwk, elem_of_app. by left.
  - by apply Pnd.
  - intros m [Hm|[Hm _]]%Pc; [by apply Hno|]. apply Hit in Hm. inversion Hm as [? ? _ Hlf|? ? _ Hlf]; by eapply Hdfn, Hlf.
Qed.

Lemma place_loop_ok fuel writer w (opt : Optimizer V G) placed0 placed :
  variables (program opt) = vars → placed_in vars g0 (opt_graph opt) placed →
  state_ok placed0 placed w → loop_inv writer w →
  (length (node_indices g0) + length (workset w) ≤ fuel + length (considered w))%nat →
  ∃ ins g' placed', place_loop fuel df live var w opt = Ret (tt, set_graph g' opt) ∧
    placed_in vars g0 g' placed' ∧
    (∀ n, placed' n = if decide (n ∈ (ins : list NodeIndex)) then placed0 n ++ [var] else placed0 n) ∧
    ∀ n, n ∈ ins ↔ iterated writer n.
Proof using All.
  revert w opt placed. induction fuel as [|fuel IH]; intros w opt placed Hvars Hp Hs Hinv Hf.
  all: assert (Hle : (length (considered w) ≤ length (node_indices g0))%nat)
    by (apply submseteq_length, NoDup_submseteq; [by apply (lo_nodup _ _ Hinv)|by apply (lo_nodes _ _ Hinv)]).
  all: pose proof (pop_back_spec (workset w)) as Hpop.
  all: cbn [place_loop]; destruct (pop_back (workset w)) as [[n rest]|].
  2, 4: exists (already_inserted w), (opt_graph opt), placed;
    split_and!; [by destruct opt as [[]]|done|done|]; intros n; split; [by apply (lo_sound _ _ Hinv)|];
    induction 1 as [m f Hm Hlf|m f Hm IHm Hlf];
    (apply (lo_done _ _ Hinv m f); [|rewrite Hpop; apply not_elem_of_nil|done]);
    [by apply (lo_writer _ _ Hinv)|by apply (lo_inserted _ _ Hinv)].
  { rewrite Hpop, length_app in Hf. cbn in Hf. lia. }
  assert (Hnc : n ∈ considered w).
  { apply (lo_work _ _ Hinv). rewrite Hpop. apply elem_of_app. right. constructor. }
  destruct (Hdf n) as [fs Hfs]; [by apply (lo_nodes _ _ Hinv)|].
  unfold bind at 1, lift, index_map. rewrite Hfs. cbn [expect].
  assert (Hat : set_at df n = fs) by (unfold set_at; by rewrite Hfs).
  destruct (place_at_ok (set_order fs)
              {| workset := rest; considered := considered w; already_inserted := already_inserted w |}
              opt placed0 placed) as (w' & g' & placed' & Heq & Hp' & Hs' & Hst); [done..| |].
  { intros f Hfin. rewrite set_order_perm, elem_of_elements in Hfin. apply (Hdfn n). by rewrite Hat. }
  unfold bind. rewrite Heq.
  destruct (IH w' (set_graph g' opt) placed') as (ins & g'' & placed'' & Heq' & Hrest); [done..| | |].
  - eapply (loop_inv_step writer n rest (workset w) (considered w) (already_inserted w)); [done| |by rewrite Hat].
    by destruct w.
  - pose proof (ps_length _ _ _ Hst) as Hlen. cbn in Hlen. rewrite Hpop, length_app in Hf. cbn in Hf. lia.
  - exists ins, g'', placed''. split; [exact Heq'|done].
Qed.
End variable.

(** *** All variables *)

Lemma writers_ok (writes : Writes) var nodes :
  (∀ n, n ∈ nodes → is_Some (writes !! n)) →
  ∃ ws, writers writes var nodes = Ret ws ∧ (∀ n, n ∈ ws ↔ n ∈ nodes ∧ var ∈ set_at writes n) ∧
        (NoDup nodes → NoDup ws).
Proof.
  induction nodes as [|n nodes IH]; intros Hn.
  - exists []. split_and!; [done|set_solver|constructor].
  - cbn [writers]. destruct (Hn n) as [s Hs]; [constructor|].
    unfold index_map. rewrite Hs. cbn [expect obind].
    destruct IH as (ws & -> & Hws & Hnd); [intros; apply Hn; by constructor|].
    cbn [obind]. eexists. split; [done|].
    assert (Hat : set_at writes n = s) by (unfold set_at; by rewrite Hs).
    split.
    + intros m. destruct (decide (var ∈ s)) as [Hv|Hv]; rewrite ?elem_of_cons, Hws.
      * naive_solver.
      * split; [naive_solver|]. intros [[->|] ?]; [congruence|done].
    + intros [Hni Hnd']%NoDup_cons. destruct (decide (var ∈ s)); [|by apply Hnd].
      apply NoDup_cons. split; [|by apply Hnd]. by intros [? _]%Hws.
Qed.

Lemma place_vars_ok fuel (g0 : G) (vars : gmap Id Item) (writes : Writes) (live : Liveness) (df : DomFrontiers)
    keys (opt : Optimizer V G) placed :
  variables (program opt) = vars → placed_in vars g0 (opt_graph opt) placed →
  (∀ n, n ∈ node_indices g0 → is_Some (writes !! n)) →
  (∀ n, n ∈ node_indices g0 → is_Some (live !! n)) →
  (∀ n, n ∈ node_indices g0 → is_Some (df !! n)) →
  (∀ n m, m ∈ set_at df n → m ∈ node_indices g0) →
  (∀ id, id ∈ keys → is_Some (vars !! id)) →
  (length (node_indices g0) ≤ fuel)%nat →
  ∃ g' placed', place_vars fuel writes live df keys opt = Ret (tt, set_graph g' opt) ∧
    placed_in vars g0 g' placed' ∧
    ∀ n, ∃ l, placed' n = placed n ++ l ∧ l `sublist_of` keys ∧
      ∀ id, id ∈ l ↔ id ∈ keys ∧
        iterated live df id (λ m, m ∈ node_indices g0 ∧ id ∈ set_at writes m) n.
Proof.
  intros Hvars Hp Hw Hl Hd Hdn Hk Hf. revert opt placed Hvars Hp.
  induction keys as [|var keys IH]; intros opt placed Hvars Hp.
  - exists (opt_graph opt), placed. split_and!; [by destruct opt as [[]]|done|]. intros n.
    exists []. split_and!; [by rewrite app_nil_r|done|]. set_solver.
  - cbn [place_vars]. unfold bind, get_state, lift.
    assert (Hidx : node_ids opt = node_indices g0) by by apply (pl_indices _ _ _ _ Hp).
    rewrite Hidx. destruct (writers_ok writes var (node_indices g0)) as (ws & -> & Hws & Hnd); [done|].
    destruct (Hk var) as [item Hitem]; [constructor|].
    destruct (place_loop_ok vars g0 live df var item Hitem Hl Hd Hdn fuel
                (λ m, m ∈ node_indices g0 ∧ var ∈ set_at writes m)
                {| workset := ws; considered := ws; already_inserted := [] |} opt placed placed)
      as (ins & g1 & placed1 & -> & Hp1 & Hpl1 & Hins); [done|done|done| |cbn; lia|].
    { split; cbn; [set_solver|intros n ?; by apply Hws|set_solver| |set_solver|done| |].
      - intros n Hn. left. by apply Hws.
      - by apply Hnd, node_indices_nodup.
      - intros n Hn. by apply Hws. }
    destruct (IH (λ id Hid, Hk id ltac:(by constructor)) (set_graph g1 opt) placed1) as (g2 & placed2 & -> & Hp2 & Hpl2);
      [done..|].
    exists g2, placed2. split; [done|]. split; [done|]. intros n.
    destruct (Hpl2 n) as (l & Hpl & Hsub & Hl2). rewrite Hpl, Hpl1.
    destruct (decide (n ∈ ins)) as [Hin|Hni].
    + exists (var :: l). split_and!; [by rewrite <-app_assoc|by constructor|].
      intros id. rewrite !elem_of_cons, Hl2. split; [|naive_solver].
      intros [->|]; [|naive_solver]. split; [by left|]. by apply Hins.
    + exists l. split_and!; [done|by constructor|]. intros id. rewrite Hl2, elem_of_cons.
      split; [naive_solver|]. intros [[->|] Hit]; [|done]. by apply Hins in Hit.
Qed.
End placement.

(** ** The pass *)

Section pass.
  Context {V G : Type} `{SV : StableVec V} `{!StableVecSpec V} `{SG : StableDiGraph V G}
    `{!StableDiGraphSpec V G} `{HO : HashOrder} `{HOS : !HashOrderSpec}.

(** The blocks that need a phi node for [id]: the iterated dominance frontier of
    the blocks that write it, where it may still be read. *)
Inductive phi_block (g : G) (root : NodeIndex) (id : Id) : NodeIndex → Prop :=
| phi_block_writer n m : id ∈ killed g n → in_frontier g root n m → exposed g id m → phi_block g root id m
| phi_block_phi n m : phi_block g root id n → in_frontier g root n m → exposed g id m → phi_block g root id m.

Lemma killed_node (g : G) n id : id ∈ killed g n → n ∈ node_indices g.
Proof.
  unfold killed, code. intros Hid. apply node_weight_node.
  destruct (node_weight g n); [by eexists|]. unfold written in Hid. set_solver.
Qed.

Lemma in_frontier_reached (g : G) root n m :
  joins_reached g root → in_frontier g root n m →
  m ∈ node_indices g ∧ m ≠ root ∧ reach (edge g) root m ∧ (∀ p, p ∈ sources g m → reach (edge g) root p).
Proof.
  intros Hj (Hlen & (p & Hp%sources_edge & _) & _).
  assert (Hm : m ∈ node_indices g) by by eapply edge_node_r.
  destruct (Hj m Hm Hlen) as [Hne Hr]. split_and!; [done..| |done].
  eapply reach_step; [|done]. by apply Hr, sources_edge.
Qed.

Lemma analysis_dominators_ok (opt : Optimizer V G) :
  (∀ a, c_dominators (analysis_cache opt) = Some a → a = dominators_init opt) →
  ∃ c, analysis_dominators opt = Ret (dominators_init opt, set_cache c opt).
Proof.
  intros Hp. unfold analysis_dominators, bind, get_state, modify_state.
  destruct (c_dominators (analysis_cache opt)) as [a|] eqn:He; cbn.
  - exists (analysis_cache opt). rewrite (Hp a eq_refl). by destruct opt.
  - by eexists.
Qed.

Lemma analysis_dom_frontiers_ok fuel (opt : Optimizer V G) :
  (∀ a, c_dominators (analysis_cache opt) = Some a → a = dominators_init opt) →
  c_dom_frontiers (analysis_cache opt) = None →
  algorithms_ok (opt_graph opt) (entry opt) → entry opt ∈ node_ids opt →
  joins_reached (opt_graph opt) (entry opt) → (length (node_ids opt) ≤ fuel)%nat →
  ∃ df c, analysis_dom_frontiers fuel opt = Ret (df, set_cache c opt) ∧
    has_all (opt_graph opt) df ∧
    ∀ r m, m ∈ set_at df r ↔ in_frontier (opt_graph opt) (entry opt) r m.
Proof.
  intros Hd Hn Ha He Hj Hf. unfold analysis_dom_frontiers. unfold bind at 1, get_state. rewrite Hn.
  unfold DomFrontiers_new. destruct (analysis_dominators_ok opt Hd) as (c & Hdom).
  destruct (frontiers_of_nodes_ok (opt_graph opt) (entry opt) Ha He fuel (set_cache c opt) (node_ids opt)
              (list_to_map ((λ it, (it, ∅)) <$> node_ids opt))) as (df & Hdf & Hall & Hspec); [done..| |].
  - intros n Hin. rewrite empty_sets, decide_True by done. by eexists.
  - unfold bind. rewrite Hdom. unfold get_state, lift.
    change (simple_fast (opt_graph opt) (entry opt)) with (dominators_init opt) in Hdf.
    change (node_ids (set_cache c opt)) with (node_ids opt). rewrite Hdf. cbn.
    eexists df, _. split; [unfold ret; reflexivity|]. split; [done|].
    intros r m. rewrite Hspec, set_at_empty_sets. split; [set_solver|].
    intros Hfr. right. split; [|done]. by apply (in_frontier_reached _ _ _ _ Hj Hfr).
Qed.

Lemma analysis_writes_ok (opt : Optimizer V G) :
  c_writes (analysis_cache opt) = None →
  ∃ w c, analysis_writes opt = Ret (w, set_cache c opt) ∧
    same_dominance c (analysis_cache opt) ∧ c_liveness c = c_liveness (analysis_cache opt) ∧
    c_post_order c = c_post_order (analysis_cache opt) ∧
    (∀ n, n ∈ node_ids opt → is_Some (w !! n)) ∧
    ∀ n id, n ∈ node_ids opt → id ∈ set_at w n ↔ id ∈ killed (opt_graph opt) n.
Proof.
  intros Hn. destruct (Writes_new_ok opt) as (w & Hw & Hall & Hs).
  unfold analysis_writes, bind, get_state, modify_state, lift. rewrite Hn, Hw. cbn.
  eexists w, _. split; [reflexivity|]. done.
Qed.

Lemma iterated_phi_block (g : G) root (live : Liveness) (df : DomFrontiers) id n :
  joins_reached g root →
  (∀ r m, m ∈ set_at df r ↔ in_frontier g root r m) →
  (∀ m, reach (edge g) root m → id ∈ live_at live m ↔ exposed g id m) →
  iterated live df id (λ m, m ∈ node_indices g ∧ id ∈ killed g m) n ↔ phi_block g root id n.
Proof.
  intros Hj Hdf Hl.
  assert (Hfl : ∀ a b, live_frontier live df id a b ↔ in_frontier g root a b ∧ exposed g id b).
  { intros a b. unfold live_frontier. rewrite Hdf. split.
    - intros [Hfr Hid]. split; [done|]. eapply Hl; [|done]. by destruct (in_frontier_reached _ _ _ _ Hj Hfr) as (_ & _ & ? & _).
    - intros [Hfr Hid]. split; [done|]. eapply Hl; [|done]. by destruct (in_frontier_reached _ _ _ _ Hj Hfr) as (_ & _ & ? & _). }
  split; induction 1 as [a b Ha Hb|a b Ha IH Hb].
  - apply Hfl in Hb as []. by eapply phi_block_writer; [apply Ha|..].
  - apply Hfl in Hb as []. by eapply phi_block_phi.
  - apply (iterated_writer _ _ _ _ a); [split; [by eapply killed_node|done]|]. by apply Hfl.
  - eapply iterated_phi; [done|]. by apply Hfl.
Qed.

Lemma place_phi_nodes_ok lfuel fuel (opt : Optimizer V G) :
  cache_fresh opt → algorithms_ok (opt_graph opt) (entry opt) → entry opt ∈ node_ids opt →
  code_readable (opt_graph opt) → joins_reached (opt_graph opt) (entry opt) →
  (live_fuel opt ≤ lfuel)%nat → (length (node_ids opt) ≤ fuel)%nat →
  ∃ g' c placed, place_phi_nodes lfuel fuel opt = Ret (tt, set_graph g' (set_cache c opt)) ∧
    placed_in (variables (program opt)) (opt_graph opt) g' placed ∧
    (∀ n, NoDup (placed n) ∧ (length (placed n) ≤ size (variables (program opt)))%nat) ∧
    ∀ n id, id ∈ placed n ↔
      is_Some (variables (program opt) !! id) ∧ phi_block (opt_graph opt) (entry opt) id n.
Proof.
  intros [Hcp Hcd Hcl Hcw Hcf] Ha He Hr Hj Hlf Hf. unfold place_phi_nodes. unfold bind at 1, get_state.
  set (keys := key_order (variables (program opt))).
  assert (Hkeys : ∀ id, id ∈ keys ↔ is_Some (variables (program opt) !! id)).
  { intros id. unfold keys. rewrite key_order_perm, list_elem_of_fmap. split.
    - intros ([i x] & -> & Hx%elem_of_map_to_list). by exists x.
    - intros [x Hx%elem_of_map_to_list]. by exists (id, x). }
  destruct (analysis_writes_ok opt Hcw) as (w & c1 & Hw & [Hd1 Hf1] & Hl1 & Hp1 & Hwall & Hws).
  unfold bind. rewrite Hw.
  destruct (analysis_liveness_ok lfuel (set_cache c1 opt)) as (live & c2 & Hlive & [Hd2 Hf2] & Hlall & Hls);
    [cbn; rewrite Hp1; exact Hcp|cbn; by rewrite Hl1|done..|].
  rewrite Hlive.
  destruct (analysis_dom_frontiers_ok fuel (set_cache c2 (set_cache c1 opt))) as (df & c3 & Hdf & Hdfall & Hdfs);
    [cbn; rewrite Hd2; cbn; rewrite Hd1; exact Hcd|cbn; rewrite Hf2; cbn; by rewrite Hf1|done..|].
  rewrite Hdf.
  destruct (place_vars_ok fuel (opt_graph opt) (variables (program opt)) w live df keys
              (set_cache c3 (set_cache c2 (set_cache c1 opt))) (λ _, []))
    as (g' & placed & Hpl & Hin & Hspec); [done|apply placed_in_refl|done|done|done| | |done|].
  { intros n m Hm%Hdfs. by apply (in_frontier_reached _ _ _ _ Hj Hm). }
  { intros id. by apply Hkeys. }
  exists g', c3, placed. split; [exact Hpl|]. split; [done|]. split.
  - intros n. destruct (Hspec n) as (l & -> & Hsub & _). cbn. unfold keys in Hsub. split.
    + eapply sublist_NoDup; [|exact Hsub]. rewrite key_order_perm. apply NoDup_fst_map_to_list.
    + apply sublist_length in Hsub. by rewrite key_order_perm, length_fmap, length_map_to_list in Hsub.
  - intros n id. destruct (Hspec n) as (l & -> & _ & Hl). cbn. rewrite Hl, Hkeys. f_equiv.
    rewrite <-(iterated_phi_block _ _ live df); [|done..|].
    + clear Hl. split; induction 1 as [a b [Hna Hwa] Hb|a b Hna IH Hb].
      * apply (iterated_writer _ _ _ _ a); [split; [done|by apply Hws]|done].
      * by apply (iterated_phi _ _ _ _ a).
      * apply (iterated_writer _ _ _ _ a); [split; [done|by apply Hws]|done].
      * by apply (iterated_phi _ _ _ _ a).
    + intros m Hm. by apply Hls.
Qed.

(** C40. The pass returns, keeps the blocks and the edges, and appends to a
    block one phi node for each variable whose iterated dominance frontier, of
    the blocks that write it, holds the block, if the variable may be read
    there; a node has an entry of version 0 for every predecessor. *)
Theorem phi_nodes_placed lfuel fuel (opt : Optimizer V G) :
  let vars := variables (program opt) in
  let g := opt_graph opt in
  cache_fresh opt → algorithms_ok g (entry opt) → entry opt ∈ node_ids opt →
  code_readable g → joins_reached g (entry opt) →
  (live_fuel opt ≤ lfuel)%nat → (length (node_ids opt) ≤ fuel)%nat →
  ∃ opt', place_phi_nodes lfuel fuel opt = Ret (tt, opt') ∧
    variables (program opt') = vars ∧ entry opt' = entry opt ∧ node_ids opt' = node_ids opt ∧
    (∀ n, edges (opt_graph opt') n = edges g n) ∧
    ∀ n b, node_weight g n = Some b →
    ∃ ids, NoDup ids ∧
      (∀ id, id ∈ ids ↔ is_Some (vars !! id) ∧ phi_block g (entry opt) id n) ∧
      node_weight (opt_graph opt') n =
        Some (set_phis b (phi_nodes b ++ omap (λ id, phi_of g n id <$> vars !! id) ids)).
Proof.
  intros vars g Hc Ha He Hr Hj Hlf Hf.
  destruct (place_phi_nodes_ok lfuel fuel opt Hc Ha He Hr Hj Hlf Hf) as (g' & c & placed & Hpl & Hin & Hnd & Hphi).
  eexists. split; [exact Hpl|]. split; [done|]. split; [done|].
  split; [by apply (pl_indices _ _ _ _ Hin)|]. split; [by apply (pl_edges _ _ _ _ Hin)|].
  intros n b Hb. exists (placed n). split; [apply Hnd|]. split; [apply Hphi|].
  change (opt_graph (set_graph g' (set_cache c opt))) with g'.
  rewrite (pl_weight _ _ _ _ Hin). fold g. by rewrite Hb.
Qed.
End pass.
