(* ===== verification/VersionProps.v ===== *)
(** * Versioning visits every block that can be reached

    The walk of [version.rs] over the graph returns, gives every block that can
    be reached the versions of the block it came from, and assigns every version
    of a variable once. *)

From stdpp Require Import gmap sets.
From S2P Require Import Prelude Ir Visit Cfg Dominance LivenessProps.

Open Scope N_scope.
Open Scope rust_scope.

(** ** Variables without their versions *)

Section erase.
  Context (vars : gmap Id Item).

(** The variable that is versioned, if it is one. *)
Definition keyed (v : Variable_) : option Id :=
  match var_kind v with
  | LocalMut id | Versioned id _ => match vars !! id with Some _ => Some id | None => None end
  | _ => None
  end.
Definition erase (v : Variable_) : Variable_ :=
  match keyed v with Some id => Variable_new (LocalMut id) (var_item v) | None => v end.

(** Phi nodes only hold versions: the erased one is 0. *)
Definition erase_phi_var (v : Variable_) : Variable_ :=
  match as_versioned v with
  | Some (id, item, _) => match vars !! id with Some _ => versioned id 0 item | None => v end
  | None => v
  end.

Definition erase_inst (i : Instruction) : Instruction :=
  {| inst_out := erase <$> inst_out i; operation := (rename erase (operation i) (inst_out i)).1 |}.
Definition erase_cf (c : ControlFlow) : ControlFlow :=
  match c with
  | CfIfElse cond t e m => CfIfElse (erase cond) t e m
  | CfLoopBreak cond b c m => CfLoopBreak (erase cond) b c m
  | CfSwitch value d bs m => CfSwitch (erase value) d bs m
  | c => c
  end.

Definition has_versions (m : Versions) : Prop := ∀ id, is_Some (vars !! id) ↔ is_Some (m !! id).

Lemma has_versions_insert m id v : has_versions m → is_Some (vars !! id) → has_versions (<[id := v]> m).
Proof.
  intros Hm Hid i. destruct (decide (id = i)) as [->|Hne].
  - rewrite lookup_insert_eq. split; [by eexists|done].
  - rewrite lookup_insert_ne by done. apply Hm.
Qed.

Lemma keyed_some v id : keyed v = Some id → is_Some (vars !! id).
Proof.
  unfold keyed. destruct (var_kind v); try done; destruct (vars !! _) eqn:Hv; intros [= <-]; rewrite Hv; by eexists.
Qed.

Lemma keyed_versioned id n item : keyed (versioned id n item) = match vars !! id with Some _ => Some id | None => None end.
Proof. done. Qed.

Lemma version_read_eq m v :
  has_versions m →
  version_read vars m v =
  match keyed v with
  | Some id => versioned id (default 0 (m !! id)) (var_item v)
  | None => v
  end.
Proof.
  intros Hm. unfold version_read, keyed. destruct (var_kind v); try done.
  all: destruct (vars !! _) eqn:Hv; [|done].
  all: destruct (proj1 (Hm _) (ex_intro _ _ Hv)) as [n ->]; done.
Qed.

Lemma keyed_erase v : keyed (erase v) = keyed v.
Proof.
  unfold erase. destruct (keyed v) as [id|] eqn:Hk; [|done].
  destruct (keyed_some _ _ Hk) as [x Hx]. unfold keyed. cbn. by rewrite Hx.
Qed.
Lemma keyed_version_read m v : has_versions m → keyed (version_read vars m v) = keyed v.
Proof.
  intros Hm. rewrite version_read_eq by done. destruct (keyed v) as [id|] eqn:Hk; [|done].
  destruct (keyed_some _ _ Hk) as [x Hx]. rewrite keyed_versioned. by rewrite Hx.
Qed.
Lemma item_erase v : var_item (erase v) = var_item v.
Proof. unfold erase. by destruct (keyed v). Qed.
Lemma item_version_read m v : has_versions m → var_item (version_read vars m v) = var_item v.
Proof. intros Hm. rewrite version_read_eq by done. by destruct (keyed v). Qed.

Lemma erase_erase v : erase (erase v) = erase v.
Proof.
  unfold erase at 1. rewrite keyed_erase, item_erase. unfold erase. by destruct (keyed v).
Qed.
Lemma erase_version_read m v : has_versions m → erase (version_read vars m v) = erase v.
Proof.
  intros Hm. unfold erase. rewrite keyed_version_read, item_version_read by done.
  rewrite version_read_eq by done. by destruct (keyed v).
Qed.
Lemma version_read_erase m v : has_versions m → version_read vars m (erase v) = version_read vars m v.
Proof.
  intros Hm. rewrite !version_read_eq, keyed_erase, item_erase by done.
  destruct (keyed v) eqn:Hk; [done|]. unfold erase. by rewrite Hk.
Qed.
Lemma version_read_read m v :
  has_versions m → version_read vars m (version_read vars m v) = version_read vars m v.
Proof.
  intros Hm. rewrite (version_read_eq m (version_read vars m v)) by done.
  rewrite keyed_version_read, item_version_read by done. rewrite version_read_eq by done.
  by destruct (keyed v).
Qed.

(** ** Counting versions *)

Definition version_at (m : gmap Id N) (id : Id) : N := default 0 (m !! id).

(** The version that a variable denotes. *)
Definition def_of (v : Variable_) : option (Id * N) :=
  match as_versioned v with
  | Some (id, _, n) => match vars !! id with Some _ => Some (id, n) | None => None end
  | None => None
  end.

(** From [st] to [st'] the versions [ds] were given, at most [n] for a variable. *)
Record advance (st st' : Versions * gmap Id N) (ds : list (Id * N)) (n : N) : Prop := {
  ad_versions : has_versions st'.1;
  ad_maxs : has_versions st'.2;
  ad_le id : version_at st.2 id ≤ version_at st'.2 id ≤ version_at st.2 id + n;
  ad_fresh id v : (id, v) ∈ ds → version_at st.2 id < v ≤ version_at st'.2 id;
  ad_nodup : NoDup ds;
}.

Lemma advance_refl st : has_versions st.1 → has_versions st.2 → advance st st [] 0.
Proof. intros H1 H2. split; [done..|lia|set_solver|constructor]. Qed.

Lemma advance_trans st1 st2 st3 ds1 ds2 n1 n2 :
  advance st1 st2 ds1 n1 → advance st2 st3 ds2 n2 → advance st1 st3 (ds1 ++ ds2) (n1 + n2).
Proof.
  intros [_ _ Hle1 Hf1 Hn1] [Hv Hm Hle2 Hf2 Hn2]. split; [done..| | |].
  - intros id. specialize (Hle1 id). specialize (Hle2 id). lia.
  - intros id v [Hin|Hin]%elem_of_app.
    + specialize (Hf1 _ _ Hin). specialize (Hle2 id). lia.
    + specialize (Hf2 _ _ Hin). specialize (Hle1 id). lia.
  - apply NoDup_app. split_and!; [done| |done]. intros [id v] Hin1 Hin2.
    specialize (Hf1 _ _ Hin1). specialize (Hf2 _ _ Hin2). lia.
Qed.

Lemma next_version_ok id (st : Versions * gmap Id N) :
  has_versions st.1 → has_versions st.2 → is_Some (vars !! id) → version_at st.2 id < u16_max →
  ∃ v st', next_version id st = Ret (v, st') ∧ st'.1 = <[id := v]> st.1 ∧ advance st st' [(id, v)] 1.
Proof.
  destruct st as [m maxs]. cbn. intros Hm Hx Hid Hlt. unfold next_version.
  destruct (proj1 (Hx id) Hid) as [k Hk]. rewrite Hk. cbn [expect obind].
  assert (Hat : version_at maxs id = k) by (unfold version_at; by rewrite Hk).
  rewrite checked_add_ok by lia. cbn [obind].
  eexists _, _. split; [reflexivity|]. split; [done|]. split; cbn.
  - by apply has_versions_insert.
  - by apply has_versions_insert.
  - intros i. unfold version_at. destruct (decide (id = i)) as [<-|Hne].
    + rewrite lookup_insert_eq, Hk. cbn. lia.
    + rewrite lookup_insert_ne by done. lia.
  - intros i v [= -> ->]%list_elem_of_singleton. unfold version_at. rewrite lookup_insert_eq, Hk. cbn. lia.
  - apply NoDup_singleton.
Qed.

(** ** One instruction *)

Definition inst_ok (i : Instruction) : Prop :=
  readable_inst i = true ∧ (is_store (operation i) = true → ∀ o, inst_out i = Some o → keyed o = None).

Definition out_rel (m : Versions) (out out' : option Variable_) (m' : Versions) : Prop :=
  match out with
  | None => out' = None ∧ m' = m
  | Some o =>
      match keyed o with
      | Some id => ∃ v, out' = Some (versioned id v (var_item o)) ∧ m' = <[id := v]> m
      | None => out' = Some o ∧ m' = m
      end
  end.

(** [i'] is the instruction [i] with the versions [m] read and [m'] after it. *)
Definition inst_rel (m : Versions) (i i' : Instruction) (m' : Versions) : Prop :=
  operation i' = (rename (version_read vars m) (operation i) (inst_out i)).1 ∧
  out_rel m (inst_out i) (inst_out i') m'.

Definition inst_defs (i : Instruction) : list (Id * N) := option_list (inst_out i ≫= def_of).

Lemma def_of_versioned id n item : is_Some (vars !! id) → def_of (versioned id n item) = Some (id, n).
Proof. intros [x Hx]. unfold def_of. cbn. by rewrite Hx. Qed.
Lemma def_of_unkeyed v : keyed v = None → def_of v = None.
Proof.
  unfold keyed, def_of, as_versioned. destruct (var_kind v); try done. by destruct (vars !! _).
Qed.

Lemma version_write_ok st v :
  has_versions st.1 → has_versions st.2 → (∀ id, version_at st.2 id < u16_max) →
  ∃ v' st', version_write v st = Ret (v', st') ∧ out_rel st.1 (Some (erase v)) (Some v') st'.1 ∧
    erase v' = erase v ∧ advance st st' (option_list (def_of v')) 1.
Proof.
  intros Hm Hx Hlt. unfold out_rel. rewrite keyed_erase, item_erase.
  assert (Heq : version_write v st = match keyed v with
            | Some id => let? '(version, st) := next_version id st in Ret (versioned id version (var_item v), st)
            | None => Ret (v, st) end).
  { unfold version_write, keyed. destruct (var_kind v); try done.
    all: destruct (vars !! _) eqn:Hv.
    all: try (destruct (proj1 (Hm _) (ex_intro _ _ Hv)) as [k ->]; done).
    all: destruct (st.1 !! _) eqn:Hs; [|done].
    all: destruct (proj2 (Hm _) (ex_intro _ _ Hs)) as [k Hk]; by rewrite Hv in Hk. }
  rewrite Heq. destruct (keyed v) as [id|] eqn:Hk.
  - assert (Hid : is_Some (vars !! id)) by by eapply keyed_some.
    destruct (next_version_ok id st) as (n & st' & -> & H1 & Had); [done..|]. cbn [obind].
    eexists _, _. split; [reflexivity|]. split; [by exists n|].
    rewrite def_of_versioned by done. split; [|done].
    unfold erase. rewrite keyed_versioned, Hk. destruct Hid as [x ->]. done.
  - exists v, st. split; [done|]. split; [|split; [done|]].
    + unfold erase. by rewrite Hk.
    + rewrite def_of_unkeyed by done. cbn. destruct (advance_refl st Hm Hx) as [H1 H2 H3 H4 H5].
      split; try done. intros id. specialize (H3 id). lia.
Qed.

(** Reading and then writing. *)
Definition version_inst (i : Instruction) : M (Versions * gmap Id N) Instruction :=
  let! op := version_reads vars i in version_writes op.

Lemma rename_read_erase m op out :
  has_versions m → readable op out = true →
  rename (version_read vars m) (rename erase op out).1 (erase <$> out) =
  ((rename (version_read vars m) op out).1,
   (rename (version_read vars m) (rename erase op out).1 (erase <$> out)).2).
Proof.
  intros Hm Hr. apply injective_projections; [|done]. cbn [fst].
  assert (H1 : rename (version_read vars m) (rename erase op out).1 (rename erase op out).2 =
               rename (version_read vars m) op out).
  { apply rename_rename; [by intros; apply version_read_erase|by intros; apply version_read_read|done]. }
  rewrite <-H1. rewrite rename_out by done.
  destruct out as [o|]; [|by destruct (is_store op)].
  destruct (is_store op); [done|]. apply rename_op_out.
Qed.

Lemma rename_unkeyed_out g i :
  (∀ v, keyed v = None → g v = v) → inst_ok i → (rename g (operation i) (inst_out i)).2 = inst_out i.
Proof.
  intros Hg [Hr Hs]. rewrite rename_out by done.
  destruct (is_store (operation i)) eqn:Hst; [|done].
  destruct (inst_out i) as [o|] eqn:Ho; [|done]. cbn. by rewrite Hg by by apply Hs.
Qed.

Lemma version_reads_ok i (st : Versions * gmap Id N) :
  has_versions st.1 → inst_ok i →
  version_reads vars i st =
  Ret ({| inst_out := inst_out i; operation := (rename (version_read vars st.1) (operation i) (inst_out i)).1 |}, st).
Proof.
  intros Hm Hi. unfold version_reads, bind, get_state.
  change (λ v, ret (version_read vars st.1 v)) with (renaming (S := Versions * gmap Id N) (version_read vars st.1)).
  rewrite visit_renaming by apply Hi.
  pose proof (rename_unkeyed_out (version_read vars st.1) i) as Ho.
  destruct (rename (version_read vars st.1) (operation i) (inst_out i)) as [o out] eqn:Hren. cbn in *.
  rewrite Ho; [done| |done]. intros v Hv. rewrite version_read_eq by done. by rewrite Hv.
Qed.

Lemma inst_ok_out i op o' :
  inst_ok i → readable op (inst_out i) = true → is_store op = is_store (operation i) →
  (erase <$> o') = (erase <$> inst_out i) → inst_ok {| inst_out := o'; operation := op |}.
Proof.
  intros [Hr Hs] Hrd Hst He. split; cbn.
  - unfold readable_inst. cbn. destruct o' as [o'|], (inst_out i) as [o|]; done.
  - intros Hop v ->. rewrite Hst in Hop. destruct (inst_out i) as [o|]; [|done]. cbn in He. injection He as He.
    rewrite <-keyed_erase, He, keyed_erase. by apply Hs.
Qed.

Lemma version_inst_ok i st :
  inst_ok i → has_versions st.1 → has_versions st.2 → (∀ id, version_at st.2 id < u16_max) →
  ∃ i' st', version_inst i st = Ret (i', st') ∧ inst_rel st.1 (erase_inst i) i' st'.1 ∧
    erase_inst i' = erase_inst i ∧ inst_ok i' ∧ advance st st' (inst_defs i') 1.
Proof.
  intros Hi Hm Hx Hlt. unfold version_inst, bind. rewrite version_reads_ok by done.
  set (op := (rename (version_read vars st.1) (operation i) (inst_out i)).1).
  assert (Hop : op = (rename (version_read vars st.1) (operation (erase_inst i)) (inst_out (erase_inst i))).1).
  { cbn. rewrite rename_read_erase by (done || apply Hi). done. }
  assert (Hrd : readable op (inst_out i) = true).
  { pose proof (readable_rename (version_read vars st.1) _ _ (proj1 Hi)) as H1.
    rewrite rename_unkeyed_out in H1; [done| |done]. intros v Hv. rewrite version_read_eq by done. by rewrite Hv. }
  assert (Hst : is_store op = is_store (operation i)) by (apply is_store_rename, Hi).
  assert (Her : (rename erase op (inst_out i)).1 = (rename erase (operation i) (inst_out i)).1).
  { rewrite <-(rename_rename (version_read vars st.1) erase (operation i));
      [|by intros; apply erase_version_read|apply erase_erase|apply Hi].
    rewrite rename_unkeyed_out; [done| |done]. intros v Hv. rewrite version_read_eq by done. by rewrite Hv. }
  unfold version_writes, bind, visit_out. cbn [inst_out operation].
  destruct (inst_out i) as [o|] eqn:Ho.
  - destruct (version_write_ok st o Hm Hx Hlt) as (o' & st' & Heq & Hrel & He & Had).
    unfold bind. rewrite Heq. unfold ret.
    eexists _, st'. split; [reflexivity|]. split_and!.
    + split; [exact Hop|]. cbn. rewrite Ho. exact Hrel.
    + unfold erase_inst. cbn. rewrite Ho. cbn. rewrite He. f_equal. rewrite <-Her. apply rename_op_out.
    + apply (inst_ok_out i); [done|by rewrite Ho|done|]. rewrite Ho. cbn. by rewrite He.
    + done.
  - unfold ret. eexists _, st. split; [reflexivity|]. split_and!.
    + split; [exact Hop|]. cbn. by rewrite Ho.
    + unfold erase_inst. cbn. by rewrite Ho, Her.
    + apply (inst_ok_out i); [done|by rewrite Ho|done|by rewrite Ho].
    + destruct (advance_refl st Hm Hx) as [H1 H2 H3 H4 H5]. split; try done.
      intros id. specialize (H3 id). lia.
Qed.

(** ** The instructions of a block *)

Fixpoint insts_rel (m : Versions) (es is' : list Instruction) (m' : Versions) : Prop :=
  match es, is' with
  | [], [] => m' = m
  | e :: es, i :: is' => ∃ m1, inst_rel m e i m1 ∧ insts_rel m1 es is' m'
  | _, _ => False
  end.

(** Room for [n] more versions. *)
Definition room (maxs : gmap Id N) (n : N) : Prop := ∀ id, version_at maxs id + n ≤ u16_max.

Lemma room_advance st st' ds n k : advance st st' ds n → room st.2 (n + k) → room st'.2 k.
Proof. intros Ha Hr id. specialize (Hr id). pose proof (ad_le _ _ _ _ Ha id). lia. Qed.

Lemma advance_le st st' ds n k : advance st st' ds n → n ≤ k → advance st st' ds k.
Proof. intros [H1 H2 H3 H4 H5] Hk. split; try done. intros id. specialize (H3 id). lia. Qed.

Lemma version_ops_ok l st :
  Forall inst_ok l → has_versions st.1 → has_versions st.2 → room st.2 (N.of_nat (length l)) →
  ∃ l' st', version_ops vars l st = Ret (l', st') ∧ insts_rel st.1 (erase_inst <$> l) l' st'.1 ∧
    erase_inst <$> l' = erase_inst <$> l ∧ Forall inst_ok l' ∧
    advance st st' (l' ≫= inst_defs) (N.of_nat (length l)).
Proof.
  intros Hl. revert st. induction Hl as [|i l Hi Hl IH]; intros st Hm Hx Hr.
  - exists [], st. split_and!; [done..|]. by apply advance_refl.
  - destruct (version_inst_ok i st) as (i' & st1 & Heq & Hrel & He & Hok & Had); [done..| |].
    { intros id. specialize (Hr id). cbn [length] in Hr. lia. }
    destruct (IH st1) as (l' & st2 & Heq' & Hrel' & He' & Hok' & Had').
    { apply (ad_versions _ _ _ _ Had). } { apply (ad_maxs _ _ _ _ Had). }
    { eapply room_advance; [done|]. by replace (1 + N.of_nat (length l)) with (N.of_nat (length (i :: l))) by (cbn; lia). }
    exists (i' :: l'), st2. split_and!.
    + cbn [version_ops]. unfold version_inst, bind in Heq. unfold bind.
      destruct (version_reads vars i st) as [[j st']| |]; try done. rewrite Heq, Heq'. done.
    + cbn. exists st1.1. by split.
    + cbn. by rewrite He, He'.
    + by constructor.
    + eapply advance_le; [by eapply advance_trans|]. cbn [length]. lia.
Qed.

(** ** Phi nodes *)

Definition erase_phi (p : PhiInstruction) : PhiInstruction :=
  {| phi_out := erase_phi_var (phi_out p);
     phi_entries := (λ e, {| pe_block := pe_block e; pe_value := erase_phi_var (pe_value e) |}) <$> phi_entries p |}.

(** The versioned variable a phi node assigns. *)
Definition phi_key (v : Variable_) : option Id := (fst <$> def_of v).

Definition phi_rel (m : Versions) (p p' : PhiInstruction) (m' : Versions) : Prop :=
  match phi_key (phi_out p) with
  | Some id => ∃ v, phi_out p' = versioned id v (var_item (phi_out p)) ∧ m' = <[id := v]> m
  | None => phi_out p' = phi_out p ∧ m' = m
  end.
Fixpoint phis_rel (m : Versions) (ps ps' : list PhiInstruction) (m' : Versions) : Prop :=
  match ps, ps' with
  | [], [] => m' = m
  | p :: ps, p' :: ps' => ∃ m1, phi_rel m p p' m1 ∧ phis_rel m1 ps ps' m'
  | _, _ => False
  end.
Definition phi_defs (p : PhiInstruction) : list (Id * N) := option_list (def_of (phi_out p)).

Lemma def_of_erase_phi_var v : def_of (erase_phi_var v) = (λ d, (d.1, 0)) <$> def_of v.
Proof.
  unfold erase_phi_var, def_of. destruct (as_versioned v) as [[[id item] n]|] eqn:Hv; cbn; [|by rewrite Hv].
  destruct (vars !! id) eqn:Hid; cbn; [by rewrite Hid|by rewrite Hv, Hid].
Qed.

Lemma as_versioned_eq v id item n : as_versioned v = Some (id, item, n) → v = versioned id n item.
Proof. destruct v as [k it]. unfold as_versioned. cbn. by destruct k; intros [= -> -> ->]. Qed.

Lemma version_phi_out_ok p (st : Versions * gmap Id N) :
  has_versions st.1 → has_versions st.2 → (∀ id, version_at st.2 id < u16_max) →
  ∃ p' st', version_phi_out vars p st = Ret (p', st') ∧ phi_rel st.1 (erase_phi p) p' st'.1 ∧
    erase_phi p' = erase_phi p ∧ phi_entries p' = phi_entries p ∧ advance st st' (phi_defs p') 1.
Proof.
  intros Hm Hx Hlt. unfold version_phi_out, phi_rel, phi_key. cbn [phi_out erase_phi].
  rewrite def_of_erase_phi_var. unfold phi_defs.
  assert (Hskip : def_of (phi_out p) = None → erase_phi_var (phi_out p) = phi_out p ∧ advance st st (phi_defs p) 1).
  { intros Hd. split.
    - unfold def_of in Hd. unfold erase_phi_var. destruct (as_versioned (phi_out p)) as [[[? ?] ?]|]; [|done].
      by destruct (vars !! _).
    - unfold phi_defs. rewrite Hd. eapply advance_le; [by apply advance_refl|lia]. }
  destruct (as_versioned (phi_out p)) as [[[id item] n]|] eqn:Hv.
  2:{ assert (Hd : def_of (phi_out p) = None) by (unfold def_of; by rewrite Hv).
      destruct (Hskip Hd) as [He Had]. exists p, st. rewrite Hd. cbn. split_and!; [done..|]. unfold phi_defs in Had.
      by rewrite Hd in Had. }
  destruct (vars !! id) as [x|] eqn:Hid.
  2:{ assert (Hd : def_of (phi_out p) = None) by (unfold def_of; by rewrite Hv, Hid).
      destruct (Hskip Hd) as [He Had]. exists p, st. rewrite Hd. cbn. split_and!; [done..|]. unfold phi_defs in Had.
      by rewrite Hd in Had. }
  assert (His : is_Some (vars !! id)) by by eexists.
  destruct (proj1 (Hm id) His) as [k Hk]. rewrite Hk. cbn [expect obind].
  destruct (next_version_ok id st) as (v & st' & -> & H1 & Had); [done..|]. cbn [obind].
  assert (Hd : def_of (phi_out p) = Some (id, n)) by (unfold def_of; by rewrite Hv, Hid).
  rewrite Hd. cbn [fmap option_fmap option_map fst snd].
  assert (He : erase_phi_var (phi_out p) = versioned id 0 item) by (unfold erase_phi_var; by rewrite Hv, Hid).
  eexists _, st'. split; [reflexivity|]. cbn [phi_out phi_entries]. rewrite He. split_and!.
  - by exists v.
  - unfold erase_phi. cbn [phi_out phi_entries]. rewrite He. f_equal.
    unfold erase_phi_var. cbn. by rewrite Hid.
  - done.
  - by rewrite def_of_versioned.
Qed.

Lemma version_phi_outs_ok l st :
  has_versions st.1 → has_versions st.2 → room st.2 (N.of_nat (length l)) →
  ∃ l' st', version_phi_outs vars l st = Ret (l', st') ∧ phis_rel st.1 (erase_phi <$> l) l' st'.1 ∧
    erase_phi <$> l' = erase_phi <$> l ∧ phi_entries <$> l' = phi_entries <$> l ∧
    advance st st' (l' ≫= phi_defs) (N.of_nat (length l)).
Proof.
  revert st. induction l as [|p l IH]; intros st Hm Hx Hr.
  - exists [], st. split_and!; [done..|]. by apply advance_refl.
  - destruct (version_phi_out_ok p st) as (p' & st1 & Heq & Hrel & He & Hen & Had); [done..| |].
    { intros id. specialize (Hr id). cbn [length] in Hr. lia. }
    destruct (IH st1) as (l' & st2 & Heq' & Hrel' & He' & Hen' & Had').
    { apply (ad_versions _ _ _ _ Had). } { apply (ad_maxs _ _ _ _ Had). }
    { eapply room_advance; [done|]. by replace (1 + N.of_nat (length l)) with (N.of_nat (length (p :: l))) by (cbn; lia). }
    exists (p' :: l'), st2. split_and!.
    + cbn [version_phi_outs]. unfold bind. by rewrite Heq, Heq'.
    + cbn. exists st1.1. by split.
    + cbn. by rewrite He, He'.
    + cbn. by rewrite Hen, Hen'.
    + eapply advance_le; [by eapply advance_trans|]. cbn [length]. lia.
Qed.

(** ** Phi entries *)

(** The value for the edge from [source]: that of the first entry. *)
Fixpoint phi_value (es : list PhiEntry) (source : NodeIndex) : option Variable_ :=
  match es with
  | [] => None
  | e :: es => if decide (pe_block e = source) then Some (pe_value e) else phi_value es source
  end.

Definition version_phi_var (m : Versions) (v : Variable_) : Variable_ :=
  match def_of v with
  | Some (id, _) => versioned id (version_at m id) (var_item v)
  | None => v
  end.

Lemma version_value_ok m v : has_versions m → version_value vars m v = Ret (version_phi_var m v).
Proof.
  intros Hm. unfold version_value, version_phi_var, def_of.
  destruct (as_versioned v) as [[[id item] n]|] eqn:Hv; [|done].
  destruct (vars !! id) as [x|] eqn:Hid; [|done]. apply as_versioned_eq in Hv as ->.
  destruct (proj1 (Hm id) (ex_intro _ _ Hid)) as [k Hk]. unfold index_map, version_at. by rewrite Hk.
Qed.

Lemma def_of_version_phi_var m v : def_of (version_phi_var m v) = (λ d, (d.1, version_at m d.1)) <$> def_of v.
Proof.
  unfold version_phi_var. destruct (def_of v) as [[id n]|] eqn:Hd; [|by rewrite Hd]. cbn.
  unfold def_of in *. destruct (as_versioned v) as [[[i it] k]|]; [|done]. destruct (vars !! i) eqn:Hi; [|done].
  injection Hd as -> ->. cbn. by rewrite Hi.
Qed.

Lemma item_version_phi_var m v : var_item (version_phi_var m v) = var_item v.
Proof. unfold version_phi_var. by destruct (def_of v) as [[? ?]|]. Qed.

Lemma version_phi_var_twice m v : version_phi_var m (version_phi_var m v) = version_phi_var m v.
Proof.
  unfold version_phi_var at 1. rewrite def_of_version_phi_var, item_version_phi_var.
  unfold version_phi_var. by destruct (def_of v) as [[? ?]|].
Qed.

Lemma erase_phi_var_eq v :
  erase_phi_var v = match def_of v with Some (id, _) => versioned id 0 (var_item v) | None => v end.
Proof.
  unfold erase_phi_var, def_of. destruct (as_versioned v) as [[[id item] n]|] eqn:Hv; [|done].
  apply as_versioned_eq in Hv as ->. by destruct (vars !! id).
Qed.

Lemma erase_version_phi_var m v : erase_phi_var (version_phi_var m v) = erase_phi_var v.
Proof.
  rewrite !erase_phi_var_eq, def_of_version_phi_var, item_version_phi_var.
  unfold version_phi_var. by destruct (def_of v) as [[? ?]|].
Qed.

Definition erase_entry (e : PhiEntry) : PhiEntry :=
  {| pe_block := pe_block e; pe_value := erase_phi_var (pe_value e) |}.

Lemma version_entry_ok source m es :
  has_versions m → is_Some (phi_value es source) →
  ∃ es', version_entry vars source m es = Ret es' ∧ erase_entry <$> es' = erase_entry <$> es ∧
    phi_value es' source = version_phi_var m <$> phi_value es source ∧
    ∀ s, s ≠ source → phi_value es' s = phi_value es s.
Proof.
  intros Hm. induction es as [|e es IH]; cbn [phi_value]; [by intros []|].
  intros Hs. cbn [version_entry]. destruct (decide (pe_block e = source)) as [<-|Hne].
  - rewrite version_value_ok by done. cbn [obind]. eexists. split; [reflexivity|]. cbn [phi_value pe_block pe_value].
    split_and!.
    + cbn. unfold erase_entry at 1 3. cbn. by rewrite erase_version_phi_var.
    + by rewrite decide_True by done.
    + intros s Hne. by rewrite !decide_False by done.
  - destruct (IH Hs) as (es' & -> & He & Hv & Ho). cbn [obind]. eexists. split; [reflexivity|].
    cbn [phi_value]. split_and!.
    + cbn. by rewrite He.
    + by rewrite decide_False by done.
    + intros s Hs'. destruct (decide (pe_block e = s)); [done|by apply Ho].
Qed.

Lemma erase_phi_entries p p' :
  phi_out p' = phi_out p → erase_entry <$> phi_entries p' = erase_entry <$> phi_entries p →
  erase_phi p' = erase_phi p.
Proof. intros Ho He. unfold erase_phi. rewrite Ho. f_equal. exact He. Qed.

Definition entry_of (source : NodeIndex) (p : PhiInstruction) : option Variable_ := phi_value (phi_entries p) source.

Lemma version_phis_ok source m ps :
  has_versions m → Forall (λ p, is_Some (entry_of source p)) ps →
  ∃ ps', version_phis vars source m ps = Ret ps' ∧ erase_phi <$> ps' = erase_phi <$> ps ∧
    phi_out <$> ps' = phi_out <$> ps ∧
    entry_of source <$> ps' = (λ p, version_phi_var m <$> entry_of source p) <$> ps ∧
    ∀ s, s ≠ source → entry_of s <$> ps' = entry_of s <$> ps.
Proof.
  intros Hm. induction 1 as [|p ps Hp Hps IH]; [by exists []|].
  destruct (version_entry_ok source m (phi_entries p) Hm Hp) as (es' & Heq & He & Hv & Ho).
  destruct IH as (ps' & Heq' & He' & Hout' & Hv' & Ho').
  cbn [version_phis]. rewrite Heq. cbn [obind]. rewrite Heq'. cbn [obind].
  eexists. split; [reflexivity|]. split_and!.
  - cbn. f_equal; [by apply erase_phi_entries|exact He'].
  - cbn. by f_equal.
  - cbn. f_equal; [exact Hv|exact Hv'].
  - intros s Hs. cbn. f_equal; [by apply Ho|by apply Ho'].
Qed.
End erase.

(** ** Blocks *)

Section blocks.
  Context {V : Type} `{SV : StableVec V} `{!StableVecSpec V} (vars : gmap Id Item).

Definition shape (b : BasicBlock V) : list BlockUse * list PhiInstruction * list Instruction * ControlFlow :=
  (block_use b, erase_phi vars <$> phi_nodes b, erase_inst vars <$> sv_values (ops b),
   erase_cf vars (control_flow b)).

Definition block_ok (b : BasicBlock V) : Prop := Forall (inst_ok vars) (sv_values (ops b)).
Definition block_size (b : BasicBlock V) : N := N.of_nat (length (phi_nodes b)) + N.of_nat (length (sv_values (ops b))).
Definition block_defs (b : BasicBlock V) : list (Id * N) :=
  (phi_nodes b ≫= phi_defs vars) ++ (sv_values (ops b) ≫= inst_defs vars).

(** [b'] is [b] with the versions [m] at its start and [m'] at its end. *)
Definition block_rel (b : BasicBlock V) (m : Versions) (b' : BasicBlock V) (m' : Versions) : Prop :=
  ∃ mid, phis_rel vars m (erase_phi vars <$> phi_nodes b) (phi_nodes b') mid ∧
    insts_rel vars mid (erase_inst vars <$> sv_values (ops b)) (sv_values (ops b')) m' ∧
    control_flow b' = version_control_flow vars m' (erase_cf vars (control_flow b)).

Lemma block_rel_shape b0 b m b' m' : shape b = shape b0 → block_rel b m b' m' → block_rel b0 m b' m'.
Proof. intros [= _ Hp Hi Hc]. unfold block_rel. by rewrite Hp, Hi, Hc. Qed.

Lemma block_size_shape b b0 : shape b = shape b0 → block_size b = block_size b0.
Proof.
  intros [= _ Hp Hi _]. unfold block_size.
  apply (f_equal length) in Hp, Hi. rewrite !length_fmap in Hp. rewrite !length_fmap in Hi. by rewrite Hp, Hi.
Qed.

Lemma version_control_flow_erase m c :
  has_versions vars m → version_control_flow vars m (erase_cf vars c) = version_control_flow vars m c.
Proof. intros Hm. destruct c; cbn; rewrite ?version_read_erase by done; done. Qed.

Lemma erase_version_control_flow m c :
  has_versions vars m → erase_cf vars (version_control_flow vars m c) = erase_cf vars c.
Proof. intros Hm. destruct c; cbn; rewrite ?erase_version_read by done; done. Qed.

Lemma version_block_ops_ok b st :
  block_ok b → has_versions vars st.1 → has_versions vars st.2 → room st.2 (block_size b) →
  ∃ b' st', version_block_ops vars b st = Ret (b', st') ∧ shape b' = shape b ∧ block_ok b' ∧
    phi_entries <$> phi_nodes b' = phi_entries <$> phi_nodes b ∧
    block_rel b st.1 b' st'.1 ∧ advance vars st st' (block_defs b') (block_size b).
Proof.
  intros Hb Hm Hx Hr. unfold version_block_ops.
  destruct (version_phi_outs_ok vars (phi_nodes b) st) as (ps & st1 & Hps & Hprel & Hpe & Hpen & Had1);
    [done..| |].
  { intros id. specialize (Hr id). unfold block_size in Hr. lia. }
  destruct (version_ops_ok vars (sv_values (ops b)) st1) as (is' & st2 & His & Hirel & Hie & Hiok & Had2); [done| | | |].
  { apply (ad_versions _ _ _ _ _ Had1). } { apply (ad_maxs _ _ _ _ _ Had1). }
  { eapply room_advance; [done|exact Hr]. }
  pose proof (ad_versions _ _ _ _ _ Had2) as Hm2.
  assert (Hlen : length is' = length (sv_values (ops b))).
  { apply (f_equal length) in Hie. by rewrite !length_fmap in Hie. }
  unfold bind. rewrite Hps, His. unfold get_state, ret.
  eexists _, st2. split; [reflexivity|].
  unfold shape, block_ok, block_rel, block_defs. cbn [block_use phi_nodes ops control_flow].
  rewrite sv_values_store by done. split_and!.
  - by rewrite Hpe, Hie, erase_version_control_flow.
  - done.
  - done.
  - exists st1.1. split_and!; [done..|]. by rewrite version_control_flow_erase.
  - by eapply advance_trans.
Qed.

(** Blocks that differ in their phi entries. *)
Lemma phis_rel_outs m es ps ps' m' :
  phi_out <$> ps' = phi_out <$> ps → phis_rel vars m es ps m' → phis_rel vars m es ps' m'.
Proof.
  revert m ps ps'. induction es as [|e es IH]; intros m [|p ps] [|p' ps'] Ho Hr; try done.
  cbn in *. injection Ho as Hp Hps. destruct Hr as (m1 & Hr1 & Hr2).
  exists m1. split; [|by eapply IH]. unfold phi_rel in *. by rewrite Hp.
Qed.

Lemma block_rel_phis b0 m b m' ps :
  phi_out <$> ps = phi_out <$> phi_nodes b → block_rel b0 m b m' → block_rel b0 m (set_phis b ps) m'.
Proof.
  intros Ho (mid & Hp & Hi & Hc). exists mid. split_and!; [by eapply phis_rel_outs|done|done].
Qed.

Lemma block_defs_phis b ps :
  phi_out <$> ps = phi_out <$> phi_nodes b → block_defs (set_phis b ps) = block_defs b.
Proof.
  intros Ho. unfold block_defs. cbn [phi_nodes ops set_phis]. f_equal.
  revert Ho. generalize (phi_nodes b) as qs. induction ps as [|p ps IH]; intros [|q qs] Ho; try done.
  injection Ho as Hp Hps. rewrite !bind_cons, (IH qs) by done. unfold phi_defs. by rewrite Hp.
Qed.

Lemma shape_phis b ps : erase_phi vars <$> ps = erase_phi vars <$> phi_nodes b → shape (set_phis b ps) = shape b.
Proof. intros He. unfold shape. cbn. by rewrite He. Qed.

(** Phi nodes keep the blocks they have entries for. *)
Lemma entry_of_erase p q s : erase_phi vars p = erase_phi vars q → is_Some (entry_of s p) → is_Some (entry_of s q).
Proof.
  intros [= _ He]. unfold entry_of.
  revert He. generalize (phi_entries p) as es, (phi_entries q) as fs.
  induction es as [|e es IH]; intros [|f fs] He; try done; cbn in *.
  injection He as Hb _ Hes. rewrite Hb. destruct (decide (pe_block f = s)); [by eexists|by apply IH].
Qed.

Lemma entries_shape b b0 s :
  shape b = shape b0 → Forall (λ phi, is_Some (entry_of s phi)) (phi_nodes b0) →
  Forall (λ phi, is_Some (entry_of s phi)) (phi_nodes b).
Proof.
  intros [= _ Hp _ _]. revert Hp. generalize (phi_nodes b) as ps, (phi_nodes b0) as qs.
  induction ps as [|p ps IH]; intros [|q qs] Hp Hq; try done.
  cbn in Hp. injection Hp as Hout Hen Hps. apply Forall_cons in Hq as [Hq Hqs].
  apply Forall_cons. split; [|by eapply IH].
  apply (entry_of_erase q); [|done]. unfold erase_phi. by rewrite Hout, Hen.
Qed.
End blocks.

(** ** The walk over the graph *)

Section walk.
  Context {V G : Type} `{SV : StableVec V} `{!StableVecSpec V} `{SG : StableDiGraph V G}
    `{!StableDiGraphSpec V G}.
  Context (vars : gmap Id Item) (g0 : G) (root : NodeIndex).

Definition size_of (n : NodeIndex) : N :=
  match node_weight g0 n with Some b => block_size b | None => 0 end.
Definition all_edges : list (EdgeIndex * NodeIndex) := node_indices g0 ≫= edges g0.

(** The versions that the edges which are left may still need. *)
Definition remaining_of (l : list (EdgeIndex * NodeIndex)) (visited : gset EdgeIndex) : N :=
  foldr (λ e acc, (if decide (e.1 ∈ visited) then 0 else size_of e.2) + acc) 0 l.
Definition remaining (visited : gset EdgeIndex) : N := remaining_of all_edges visited.

Lemma remaining_cons x l s :
  remaining_of (x :: l) s = (if decide (x.1 ∈ s) then 0 else size_of x.2) + remaining_of l s.
Proof. done. Qed.

Lemma remaining_mono l e s : remaining_of l ({[e]} ∪ s) ≤ remaining_of l s.
Proof.
  induction l as [|x l IH]; [done|]. rewrite !remaining_cons.
  destruct (decide (x.1 ∈ s)) as [Hin|Hni]; destruct (decide (x.1 ∈ {[e]} ∪ s));
    first [lia|set_solver].
Qed.

Lemma remaining_visit_of l e t s : (e, t) ∈ l → e ∉ s → remaining_of l ({[e]} ∪ s) + size_of t ≤ remaining_of l s.
Proof.
  intros Hin He. induction l as [|x l IH]; [by apply not_elem_of_nil in Hin|].
  rewrite !remaining_cons. apply elem_of_cons in Hin as [<-|Hin].
  - cbn [fst snd]. rewrite decide_True by set_solver. rewrite decide_False by done.
    pose proof (remaining_mono l e s). lia.
  - specialize (IH Hin). destruct (decide (x.1 ∈ s)) as [Hx|Hx]; destruct (decide (x.1 ∈ {[e]} ∪ s));
      first [lia|set_solver].
Qed.

Lemma remaining_visit p e t s :
  (e, t) ∈ edges g0 p → e ∉ s → remaining ({[e]} ∪ s) + size_of t ≤ remaining s.
Proof.
  intros Hin. apply remaining_visit_of, list_elem_of_bind. exists p. split; [done|].
  by destruct (edge_nodes g0 p e t Hin).
Qed.

(** The blocks that are not marked yet. *)
Definition unmarked (visited : gset NodeIndex) : nat := length (filter (λ n, n ∉ visited) (node_indices g0)).

Lemma unmarked_mono s s' : s ⊆ s' → (unmarked s' ≤ unmarked s)%nat.
Proof.
  intros Hs. unfold unmarked. apply submseteq_length. induction (node_indices g0) as [|n l IH]; [done|].
  rewrite !filter_cons. destruct (decide (n ∉ s')) as [Hn|Hn].
  - rewrite decide_True by set_solver. by apply submseteq_skip.
  - destruct (decide (n ∉ s)); [by apply submseteq_cons|done].
Qed.

Lemma unmarked_insert b s : b ∈ node_indices g0 → b ∉ s → (unmarked ({[b]} ∪ s) < unmarked s)%nat.
Proof.
  intros Hb Hs. unfold unmarked.
  assert (Hle : ∀ l, (length (filter (λ n, n ∉ {[b]} ∪ s) l) ≤ length (filter (λ n, n ∉ s) l))%nat).
  { intros l. induction l as [|n l IH]; [done|]. rewrite !filter_cons.
    destruct (decide (n ∉ {[b]} ∪ s)); destruct (decide (n ∉ s)); cbn;
      first [lia|set_solver]. }
  induction (node_indices g0) as [|n l IH]; [by apply not_elem_of_nil in Hb|]. rewrite !filter_cons.
  apply elem_of_cons in Hb as [<-|Hb].
  - rewrite decide_False by set_solver. rewrite decide_True by done. cbn. specialize (Hle l). lia.
  - specialize (IH Hb). destruct (decide (n ∉ {[b]} ∪ s)); destruct (decide (n ∉ s)); cbn;
      first [lia|set_solver].
Qed.

(** What is known about the blocks: the versions at their start and end, and
    their depth in the tree of the walk. *)
Record Ghost := { vpre : NodeIndex → Versions; vend : NodeIndex → Versions; rank : NodeIndex → nat }.

Definition set_ghost (n : NodeIndex) (m m' : Versions) (r : nat) (gh : Ghost) : Ghost :=
  {| vpre := λ x, if decide (n = x) then m else vpre gh x;
     vend := λ x, if decide (n = x) then m' else vend gh x;
     rank := λ x, if decide (n = x) then r else rank gh x |}.

Definition zero_versions : Versions := (λ _, 0) <$> vars.

(** Where the versions [m] given to [n] come from. *)
Definition parent_ok (visited : gset NodeIndex) (gh : Ghost) (n : NodeIndex) (m : Versions) (r : nat) : Prop :=
  (n = root ∧ m = zero_versions) ∨
  ∃ p, p ∈ visited ∧ edge g0 p n ∧ m = vend gh p ∧ (rank gh p < r)%nat.

Definition versioned_by (m : Versions) (v : Variable_) : Prop := version_phi_var vars m v = v.

Definition phis_versioned (m : Versions) (p : NodeIndex) (b : BasicBlock V) : Prop :=
  Forall (λ phi, ∃ v, entry_of p phi = Some v ∧ versioned_by m v) (phi_nodes b).

Record walk_inv (g : G) (sh : SsaShared) (done : gset NodeIndex) (gh : Ghost) : Prop := {
  wi_indices : node_indices g = node_indices g0;
  wi_edges n : edges g n = edges g0 n;
  wi_sources n : sources g n = sources g0 n;
  wi_weight n b0 : node_weight g0 n = Some b0 →
    ∃ b, node_weight g n = Some b ∧ shape vars b = shape vars b0 ∧ block_ok vars b ∧
      (n ∈ done → block_rel vars b0 (vpre gh n) b (vend gh n));
  wi_visited : visited_blocks sh ⊆ done;
  wi_nodes n : n ∈ done → n ∈ node_indices g0;
  wi_versions n : n ∈ done → has_versions vars (vpre gh n) ∧ has_versions vars (vend gh n);
  wi_tree n : n ∈ done → parent_ok (visited_blocks sh) gh n (vpre gh n) (rank gh n);
  wi_edge e p t b : e ∈ visited_edges sh → (e, t) ∈ edges g0 p → node_weight g t = Some b →
    p ∈ visited_blocks sh ∧ phis_versioned (vend gh p) p b;
  wi_maxs : has_versions vars (max_versions sh);
  wi_bound n b : n ∈ done → node_weight g n = Some b →
    NoDup (block_defs vars b) ∧ ∀ id v, (id, v) ∈ block_defs vars b → 1 ≤ v ≤ version_at (max_versions sh) id;
  wi_disjoint n n' b b' id v : n ∈ done → n' ∈ done → n ≠ n' →
    node_weight g n = Some b → node_weight g n' = Some b' →
    (id, v) ∈ block_defs vars b → (id, v) ∈ block_defs vars b' → False;
}.

(** All edges of [n] are done. *)
Definition complete (sh : SsaShared) (done : gset NodeIndex) (n : NodeIndex) : Prop :=
  ∀ e t, (e, t) ∈ edges g0 n → e ∈ visited_edges sh ∧ t ∈ done.

(** What a part of the walk keeps and adds. *)
Record walk_step (sh sh' : SsaShared) (done done' : gset NodeIndex) (gh gh' : Ghost) : Prop := {
  ws_visited : visited_blocks sh ⊆ visited_blocks sh';
  ws_edges : visited_edges sh ⊆ visited_edges sh';
  ws_done : done ⊆ done';
  ws_ghost n : n ∈ visited_blocks sh → vend gh' n = vend gh n ∧ rank gh' n = rank gh n;
  ws_complete n : n ∈ done' → n ∉ done → complete sh' done' n;
}.

(** *** One edge *)

Context (Hphi : ∀ n b p, node_weight g0 n = Some b → edge g0 p n →
  Forall (λ phi, is_Some (entry_of p phi)) (phi_nodes b)).
Context (Hloop : ∀ n, ¬ edge g0 n n).

Definition visit_edge (b e : N) (sh : SsaShared) : SsaShared :=
  {| visited_blocks := {[b]} ∪ visited_blocks sh; visited_edges := {[e]} ∪ visited_edges sh;
     max_versions := max_versions sh |}.

Lemma edge_intro e t p : (e, t) ∈ edges g0 p → edge g0 p t.
Proof. intros Hin. apply list_elem_of_fmap. by exists (e, t). Qed.

Lemma parent_ok_mono vis vis' gh n m r : vis ⊆ vis' → parent_ok vis gh n m r → parent_ok vis' gh n m r.
Proof. intros Hs [|(p & Hp & Hr)]; [by left|right]. exists p. split; [by apply Hs|done]. Qed.

Lemma phis_versioned_new m p ps ps' :
  Forall (λ phi, is_Some (entry_of p phi)) ps →
  entry_of p <$> ps' = (λ phi, version_phi_var vars m <$> entry_of p phi) <$> ps →
  Forall (λ phi, ∃ v, entry_of p phi = Some v ∧ versioned_by m v) ps'.
Proof.
  revert ps'. induction ps as [|q ps IH]; intros [|q' ps'] Hs He; try done.
  apply Forall_cons in Hs as [[v Hv] Hs]. cbn in He. injection He as Hq Hps.
  apply Forall_cons. split; [|by apply IH]. rewrite Hv in Hq. cbn in Hq.
  exists (version_phi_var vars m v). split; [done|]. apply version_phi_var_twice.
Qed.

Lemma phis_versioned_same m p ps ps' :
  entry_of p <$> ps' = entry_of p <$> ps →
  Forall (λ phi, ∃ v, entry_of p phi = Some v ∧ versioned_by m v) ps →
  Forall (λ phi, ∃ v, entry_of p phi = Some v ∧ versioned_by m v) ps'.
Proof.
  revert ps'. induction ps as [|q ps IH]; intros [|q' ps'] He Hs; try done.
  apply Forall_cons in Hs as [Hv Hs]. cbn in He. injection He as Hq Hps.
  apply Forall_cons. split; [by rewrite Hq|by apply IH].
Qed.

Lemma version_phi_inv g sh done gh b e t :
  walk_inv g sh done gh → (e, t) ∈ edges g0 b → b ∈ done →
  ∃ g1, version_phi vars t b (vend gh b) g = Ret g1 ∧ walk_inv g1 (visit_edge b e sh) done gh.
Proof using All.
  intros Hi Hin Hb. pose proof (edge_intro _ _ _ Hin) as Hedge.
  destruct (proj2 (node_weight_node g0 t)) as [b0 Hb0]; [by eapply edge_node_r|].
  destruct (wi_weight _ _ _ _ Hi t b0 Hb0) as (bt & Hbt & Hsh & Hok & Hrel).
  pose proof (entries_shape vars bt b0 b Hsh (Hphi t b0 b Hb0 Hedge)) as Hent.
  assert (Hm : has_versions vars (vend gh b)) by by apply (wi_versions _ _ _ _ Hi).
  destruct (version_phis_ok vars b (vend gh b) (phi_nodes bt) Hm Hent) as (ps & Hps & He & Ho & Hv & Hother).
  assert (Ht : t ∈ node_indices g).
  { rewrite (wi_indices _ _ _ _ Hi). by eapply edge_node_r. }
  unfold version_phi, block_of. rewrite Hbt. cbn [expect obind]. rewrite Hps. cbn [obind].
  eexists. split; [reflexivity|].
  assert (Hw : ∀ n x, node_weight (set_weight g t (set_phis bt ps)) n = Some x →
            if decide (t = n) then x = set_phis bt ps else node_weight g n = Some x).
  { intros n x. destruct (decide (t = n)) as [<-|Hne].
    - rewrite set_weight_same by done. by intros [= <-].
    - by rewrite set_weight_other by done. }
  assert (Hdefs : ∀ n x, node_weight (set_weight g t (set_phis bt ps)) n = Some x →
            ∃ y, node_weight g n = Some y ∧ block_defs vars x = block_defs vars y).
  { intros n x Hx. specialize (Hw n x Hx). destruct (decide (t = n)) as [<-|]; [|by eauto].
    exists bt. split; [done|]. subst x. by apply block_defs_phis. }
  split; cbn [visited_blocks visited_edges max_versions visit_edge].
  - rewrite set_weight_indices. apply (wi_indices _ _ _ _ Hi).
  - intros n. rewrite set_weight_edges. apply (wi_edges _ _ _ _ Hi).
  - intros n. rewrite set_weight_sources. apply (wi_sources _ _ _ _ Hi).
  - intros n x Hx. destruct (decide (t = n)) as [<-|Hne].
    + rewrite Hb0 in Hx. injection Hx as <-. rewrite set_weight_same by done.
      eexists. split; [reflexivity|]. split_and!; [by rewrite shape_phis|done|].
      intros Hd. by apply block_rel_phis, Hrel.
    + rewrite set_weight_other by done. by apply (wi_weight _ _ _ _ Hi).
  - pose proof (wi_visited _ _ _ _ Hi). set_solver.
  - apply (wi_nodes _ _ _ _ Hi).
  - apply (wi_versions _ _ _ _ Hi).
  - intros n Hn. eapply parent_ok_mono; [|by apply (wi_tree _ _ _ _ Hi)]. set_solver.
  - intros e' p t' x He' Hin' Hx. specialize (Hw t' x Hx).
    apply elem_of_union in He' as [->%elem_of_singleton|He'].
    + rewrite (edge_ids g0 p b e t' t) in Hin' |- * by done.
      destruct (edges_functional g0 b e t' t Hin' Hin).
      rewrite decide_True in Hw by done. subst x. split; [set_solver|].
      by eapply phis_versioned_new.
    + destruct (decide (t = t')) as [<-|Hne]; [|destruct (wi_edge _ _ _ _ Hi e' p t' x) as [H1 H2]; [done..|]; split; [set_solver|done]].
      subst x. destruct (wi_edge _ _ _ _ Hi e' p t bt) as [H1 H2]; [done..|]. split; [set_solver|].
      destruct (decide (p = b)) as [->|Hpb]; [by eapply phis_versioned_new|].
      eapply phis_versioned_same; [by apply Hother|done].
  - apply (wi_maxs _ _ _ _ Hi).
  - intros n x Hn Hx. destruct (Hdefs n x Hx) as (y & Hy & ->). by eapply (wi_bound _ _ _ _ Hi).
  - intros n n' x x' id v Hn Hn' Hne Hx Hx'.
    destruct (Hdefs n x Hx) as (y & Hy & ->). destruct (Hdefs n' x' Hx') as (y' & Hy' & ->).
    by eapply (wi_disjoint _ _ _ _ Hi n n').
Qed.

(** *** One block *)

Definition set_maxs (maxs : gmap Id N) (sh : SsaShared) : SsaShared :=
  {| visited_blocks := visited_blocks sh; visited_edges := visited_edges sh; max_versions := maxs |}.

Lemma block_defs_fresh maxs (b b' : BasicBlock V) id v :
  (∀ id v, (id, v) ∈ block_defs vars b → v ≤ version_at maxs id) →
  (∀ id v, (id, v) ∈ block_defs vars b' → version_at maxs id < v) →
  (id, v) ∈ block_defs vars b → (id, v) ∈ block_defs vars b' → False.
Proof. intros H1 H2 Hin1 Hin2. specialize (H1 _ _ Hin1). specialize (H2 _ _ Hin2). lia. Qed.

Lemma version_block_inv g sh done gh t m r k :
  walk_inv g sh done gh → t ∉ visited_blocks sh → t ∈ node_indices g0 → has_versions vars m →
  parent_ok (visited_blocks sh) gh t m r → room (max_versions sh) (size_of t + k) →
  ∃ b b' m' maxs', node_weight g t = Some b ∧
    version_block_ops vars b (m, max_versions sh) = Ret (b', (m', maxs')) ∧
    walk_inv (set_weight g t b') (set_maxs maxs' sh) ({[t]} ∪ done) (set_ghost t m m' r gh) ∧
    room maxs' k.
Proof using All.
  intros Hi Ht Htn Hm Hpar Hroom.
  destruct (proj2 (node_weight_node g0 t) Htn) as [b0 Hb0].
  destruct (wi_weight _ _ _ _ Hi t b0 Hb0) as (b & Hb & Hsh & Hok & _).
  assert (Hsize : block_size b = size_of t) by (unfold size_of; rewrite Hb0; by eapply block_size_shape).
  destruct (version_block_ops_ok vars b (m, max_versions sh)) as (b' & [m' maxs'] & Heq & Hsh' & Hok' & Hen & Hrel & Had);
    [done|done|apply (wi_maxs _ _ _ _ Hi)|cbn; rewrite Hsize; intros id; specialize (Hroom id); lia|].
  destruct Had as [Hm' Hx' Hle Hfresh Hnd]. cbn in *.
  exists b, b', m', maxs'. split_and!; [done|done| |].
  2:{ intros id. specialize (Hroom id). specialize (Hle id). lia. }
  assert (Htg : t ∈ node_indices g) by by rewrite (wi_indices _ _ _ _ Hi).
  assert (Hnv : ∀ p, p ∈ visited_blocks sh → t ≠ p) by (intros p Hp <-; done).
  assert (Hold : ∀ n x, n ∈ done → t ≠ n → node_weight g n = Some x →
            ∀ id v, (id, v) ∈ block_defs vars x → v ≤ version_at (max_versions sh) id).
  { intros n x Hn _ Hx id v Hd. by apply (wi_bound _ _ _ _ Hi n x Hn Hx) in Hd as []. }
  assert (Hnew : ∀ id v, (id, v) ∈ block_defs vars b' → version_at (max_versions sh) id < v)
    by (intros id v Hd; by apply Hfresh).
  split; cbn [visited_blocks visited_edges max_versions set_maxs].
  - rewrite set_weight_indices. apply (wi_indices _ _ _ _ Hi).
  - intros n. rewrite set_weight_edges. apply (wi_edges _ _ _ _ Hi).
  - intros n. rewrite set_weight_sources. apply (wi_sources _ _ _ _ Hi).
  - intros n x Hx. cbn [vpre vend set_ghost]. destruct (decide (t = n)) as [<-|Hne].
    + rewrite Hb0 in Hx. injection Hx as <-. rewrite set_weight_same by done.
      eexists. split; [reflexivity|]. split_and!; [congruence|done|]. intros _. by eapply block_rel_shape.
    + rewrite set_weight_other by done. destruct (wi_weight _ _ _ _ Hi n x Hx) as (y & ? & ? & ? & Hr).
      exists y. split_and!; [done..|]. intros Hn. apply Hr. set_solver.
  - pose proof (wi_visited _ _ _ _ Hi). set_solver.
  - intros n [->%elem_of_singleton|Hn]%elem_of_union; [done|by apply (wi_nodes _ _ _ _ Hi)].
  - intros n Hn. cbn [vpre vend set_ghost]. destruct (decide (t = n)) as [<-|Hne]; [done|].
    apply (wi_versions _ _ _ _ Hi). set_solver.
  - intros n Hn. unfold parent_ok. cbn [vpre vend rank set_ghost].
    assert (Hp : parent_ok (visited_blocks sh) gh n (if decide (t = n) then m else vpre gh n)
                   (if decide (t = n) then r else rank gh n)).
    { destruct (decide (t = n)) as [<-|Hne]; [done|]. apply (wi_tree _ _ _ _ Hi). set_solver. }
    destruct Hp as [|(p & Hp & He & Hmp & Hr)]; [by left|right]. exists p.
    rewrite !(decide_False (P := t = p)) by by apply Hnv. done.
  - intros e p t' x He Hin Hx. cbn [vend set_ghost].
    assert (Hxy : ∃ y, node_weight g t' = Some y ∧ phi_entries <$> phi_nodes x = phi_entries <$> phi_nodes y).
    { destruct (decide (t = t')) as [<-|Hne].
      - rewrite set_weight_same in Hx by done. injection Hx as <-. by eauto.
      - rewrite set_weight_other in Hx by done. by eauto. }
    destruct Hxy as (y & Hy & Hen'). destruct (wi_edge _ _ _ _ Hi e p t' y) as [H1 H2]; [done..|].
    split; [done|]. rewrite (decide_False (P := t = p)) by by apply Hnv.
    eapply phis_versioned_same; [|done]. unfold entry_of.
    change (λ p0, phi_value (phi_entries p0) p) with ((λ es, phi_value es p) ∘ phi_entries).
    by rewrite !list_fmap_compose, Hen'.
  - done.
  - intros n x Hn Hx. destruct (decide (t = n)) as [<-|Hne].
    + rewrite set_weight_same in Hx by done. injection Hx as <-. split; [done|].
      intros id v Hd. specialize (Hfresh id v Hd). lia.
    + rewrite set_weight_other in Hx by done. destruct (wi_bound _ _ _ _ Hi n x) as [H1 H2]; [set_solver|done|].
      split; [done|]. intros id v Hd. specialize (H2 id v Hd). specialize (Hle id). lia.
  - clear Hx'. intros n n' x x' id v Hn Hn' Hne Hx Hx' Hd Hd'.
    destruct (decide (t = n)) as [<-|Htn1]; destruct (decide (t = n')) as [<-|Htn2]; [done|..].
    + rewrite set_weight_same in Hx by done. injection Hx as <-. rewrite set_weight_other in Hx' by done.
      eapply (block_defs_fresh (max_versions sh) x' b'); [apply (Hold n'); [set_solver|done..]|done..].
    + rewrite set_weight_same in Hx' by done. injection Hx' as <-. rewrite set_weight_other in Hx by done.
      eapply (block_defs_fresh (max_versions sh) x b'); [apply (Hold n); [set_solver|done..]|done..].
    + rewrite set_weight_other in Hx by done. rewrite set_weight_other in Hx' by done.
      by eapply (wi_disjoint _ _ _ _ Hi n n'); [set_solver..|].
Qed.

(** *** The walk *)

Lemma complete_mono sh sh' done done' n :
  visited_edges sh ⊆ visited_edges sh' → done ⊆ done' → complete sh done n → complete sh' done' n.
Proof. intros He Hd Hc e t Hin. destruct (Hc e t Hin). split; [by apply He|by apply Hd]. Qed.

Lemma walk_step_refl sh done gh : walk_step sh sh done done gh gh.
Proof. split; [done..|by intros]. Qed.

Lemma walk_step_trans sh1 sh2 sh3 done1 done2 done3 gh1 gh2 gh3 :
  walk_step sh1 sh2 done1 done2 gh1 gh2 → walk_step sh2 sh3 done2 done3 gh2 gh3 →
  walk_step sh1 sh3 done1 done3 gh1 gh3.
Proof.
  intros [V1 E1 D1 G1 C1] [V2 E2 D2 G2 C2]. split; [set_solver..| |].
  - intros n Hn. destruct (G1 n Hn) as [<- <-]. apply G2. by apply V1.
  - intros n Hn Hni. destruct (decide (n ∈ done2)) as [Hin|]; [|by apply C2].
    eapply complete_mono; [done|done|by apply C1].
Qed.

Definition visit_spec (f : nat) (visit : NodeIndex → Versions → M (G * SsaShared) unit) : Prop :=
  ∀ t m g sh done gh r,
    walk_inv g sh done gh → t ∉ visited_blocks sh → t ∈ node_indices g0 → has_versions vars m →
    parent_ok (visited_blocks sh) gh t m r →
    room (max_versions sh) (size_of t + remaining (visited_edges sh)) →
    (unmarked (visited_blocks sh) ≤ f)%nat →
    ∃ g' sh' done' gh', visit t m (g, sh) = Ret (tt, (g', sh')) ∧
      walk_inv g' sh' done' gh' ∧ walk_step sh sh' done done' gh gh' ∧ t ∈ done' ∧
      room (max_versions sh') (remaining (visited_edges sh')) ∧
      (∀ e p t', e ∈ visited_edges sh' → (e, t') ∈ edges g0 p → p ∈ visited_blocks sh → e ∈ visited_edges sh).

(** One edge that was not visited before. *)
Lemma version_edge_ok f visit g sh done gh b e t :
  visit_spec f visit →
  walk_inv g sh done gh → b ∈ done → (e, t) ∈ edges g0 b → e ∉ visited_edges sh →
  room (max_versions sh) (remaining (visited_edges sh)) →
  (unmarked ({[b]} ∪ visited_blocks sh) ≤ f)%nat →
  ∃ g' sh' done' gh', version_edge vars visit b (vend gh b) (e, t) (g, sh) = Ret (tt, (g', sh')) ∧
    walk_inv g' sh' done' gh' ∧ walk_step sh sh' done done' gh gh' ∧
    vend gh' b = vend gh b ∧ b ∈ visited_blocks sh' ∧ e ∈ visited_edges sh' ∧ t ∈ done' ∧
    room (max_versions sh') (remaining (visited_edges sh')) ∧
    (∀ e' p t', e' ∈ visited_edges sh' → (e', t') ∈ edges g0 p → e' = e ∨
       (p ∈ {[b]} ∪ visited_blocks sh → e' ∈ visited_edges sh)).
Proof using All.
  intros Hvisit Hi Hb Hin He Hroom Hf.
  destruct (version_phi_inv g sh done gh b e t Hi Hin Hb) as (g1 & Hphi1 & Hi1).
  pose proof (remaining_visit b e t (visited_edges sh) Hin He) as Hrem.
  assert (Htn : t ∈ node_indices g0) by by destruct (edge_nodes g0 b e t Hin).
  assert (Hstep1 : walk_step sh (visit_edge b e sh) done done gh gh).
  { split; cbn; [set_solver..|done|by intros]. }
  unfold version_edge, bind, get_state, modify_state, lift.
  rewrite bool_decide_false by done. rewrite Hphi1. fold (visit_edge b e sh).
  destruct (bool_decide_reflect (t ∈ visited_blocks sh)) as [Ht|Ht].
  - exists g1, (visit_edge b e sh), done, gh. split; [done|]. split; [done|]. split; [done|]. cbn.
    split_and!; [done|set_solver|set_solver|by apply (wi_visited _ _ _ _ Hi)| |].
    + intros id. specialize (Hroom id). lia.
    + intros e' p t' [->%elem_of_singleton|He']%elem_of_union _; [by left|by right].
  - assert (Htb : t ≠ b) by (intros ->; by apply (Hloop b), (edge_intro e)).
    destruct (Hvisit t (vend gh b) g1 (visit_edge b e sh) done gh (S (rank gh b)))
      as (g' & sh' & done' & gh' & Heq & Hi' & Hst & Htd & Hroom' & Hnew); [done|set_solver|done| | | |done|].
    { by apply (wi_versions _ _ _ _ Hi). }
    { right. exists b. cbn. split_and!; [set_solver|by eapply edge_intro|done|lia]. }
    { cbn. intros id. specialize (Hroom id). lia. }
    assert (Hbv : b ∈ visited_blocks (visit_edge b e sh)) by (cbn; set_solver).
    exists g', sh', done', gh'. split_and!; [done|done|by eapply walk_step_trans|..|done|done|].
    + by apply (ws_ghost _ _ _ _ _ _ Hst).
    + by apply (ws_visited _ _ _ _ _ _ Hst).
    + apply (ws_edges _ _ _ _ _ _ Hst). cbn. set_solver.
    + intros e' p t' He' Hin'. destruct (decide (e' = e)) as [|Hne]; [by left|right]. intros Hp.
      specialize (Hnew e' p t' He' Hin' Hp). cbn in Hnew. set_solver.
Qed.

Lemma version_edges_ok f visit g sh done gh b es :
  visit_spec f visit →
  walk_inv g sh done gh → b ∈ done → (∀ x, x ∈ es → x ∈ edges g0 b) → NoDup es.*1 →
  (∀ e, e ∈ es.*1 → e ∉ visited_edges sh) →
  room (max_versions sh) (remaining (visited_edges sh)) →
  (unmarked ({[b]} ∪ visited_blocks sh) ≤ f)%nat →
  ∃ g' sh' done' gh', version_edges vars visit b (vend gh b) es (g, sh) = Ret (tt, (g', sh')) ∧
    walk_inv g' sh' done' gh' ∧ walk_step sh sh' done done' gh gh' ∧
    (∀ e t, (e, t) ∈ es → e ∈ visited_edges sh' ∧ t ∈ done') ∧
    room (max_versions sh') (remaining (visited_edges sh')) ∧
    (∀ e p t, e ∈ visited_edges sh' → (e, t) ∈ edges g0 p → e ∈ es.*1 ∨
       (p ∈ {[b]} ∪ visited_blocks sh → e ∈ visited_edges sh)).
Proof using All.
  intros Hvisit. revert g sh done gh.
  induction es as [|[e t] es IH]; intros g sh done gh Hi Hb Hes Hnd Hnew Hroom Hf.
  - exists g, sh, done, gh. split_and!; [done|done|apply walk_step_refl|set_solver|done|]. by right.
  - apply NoDup_cons in Hnd as [Hni Hnd].
    destruct (version_edge_ok f visit g sh done gh b e t)
      as (g1 & sh1 & done1 & gh1 & Heq & Hi1 & Hst1 & Hv1 & Hb1 & He1 & Ht1 & Hroom1 & Hnew1);
      [done|done|done|apply Hes; constructor|apply Hnew; constructor|done|done|].
    destruct (IH g1 sh1 done1 gh1) as (g2 & sh2 & done2 & gh2 & Heq2 & Hi2 & Hst2 & Hall2 & Hroom2 & Hnew2).
    + done.
    + by apply (ws_done _ _ _ _ _ _ Hst1).
    + intros x Hx. apply Hes. by constructor.
    + done.
    + intros e' He' Hin'. pose proof He' as ([e'' t'] & -> & Hin)%list_elem_of_fmap. cbn in *.
      destruct (Hnew1 e'' b t') as [->|Hold]; [done|apply Hes; by constructor|done|].
      apply (Hnew e''); [by constructor|]. apply Hold. set_solver.
    + done.
    + etransitivity; [|exact Hf]. apply unmarked_mono. pose proof (ws_visited _ _ _ _ _ _ Hst1). set_solver.
    + exists g2, sh2, done2, gh2. split_and!.
      * cbn [version_edges]. unfold bind. rewrite Heq. by rewrite <-Hv1.
      * done.
      * by eapply walk_step_trans.
      * intros e' t' [[= -> ->]|Hin]%elem_of_cons; [|by apply Hall2].
        split; [by apply (ws_edges _ _ _ _ _ _ Hst2)|by apply (ws_done _ _ _ _ _ _ Hst2)].
      * done.
      * intros e' p t' He' Hin'. destruct (Hnew2 e' p t' He' Hin') as [|Hold]; [left; by constructor|].
        destruct (decide (e' = e)) as [->|Hne]; [left; constructor|right]. intros Hp.
        assert (Hp1 : p ∈ {[b]} ∪ visited_blocks sh1).
        { pose proof (ws_visited _ _ _ _ _ _ Hst1). set_solver. }
        destruct (Hnew1 e' p t' (Hold Hp1) Hin') as [|Ho]; [done|by apply Ho].
Qed.

Lemma version_block_ok f : visit_spec f (version_block vars f).
Proof using All.
  induction f as [|f IH]; intros t m g sh done gh r Hi Ht Htn Hm Hpar Hroom Hf.
  - exfalso. pose proof (unmarked_insert t (visited_blocks sh) Htn Ht). lia.
  - destruct (version_block_inv g sh done gh t m r (remaining (visited_edges sh)))
      as (b & b' & m' & maxs' & Hb & Heq & Hi1 & Hroom1); [done..|].
    set (g1 := set_weight g t b') in *. set (sh1 := set_maxs maxs' sh) in *.
    set (gh1 := set_ghost t m m' r gh) in *.
    assert (Hvt : vend gh1 t = m') by (cbn; by rewrite decide_True).
    destruct (version_edges_ok f (version_block vars f) g1 sh1 ({[t]} ∪ done) gh1 t (edges g0 t))
      as (g2 & sh2 & done2 & gh2 & Heq2 & Hi2 & Hst2 & Hall2 & Hroom2 & Hnew2).
    + done.
    + done.
    + set_solver.
    + done.
    + apply edges_nodup.
    + intros e ([e' t'] & -> & Hin)%list_elem_of_fmap He. cbn in *.
      destruct (proj2 (node_weight_node g t')) as [x Hx].
      { rewrite (wi_indices _ _ _ _ Hi). by destruct (edge_nodes g0 t e' t' Hin). }
      by destruct (wi_edge _ _ _ _ Hi e' t t' x He Hin Hx).
    + done.
    + cbn. pose proof (unmarked_insert t (visited_blocks sh) Htn Ht). lia.
    + exists g2, sh2, done2, gh2. split_and!.
      * cbn [version_block]. unfold bind, get_state, modify_state, lift, block_of. rewrite Hb. cbn [expect].
        rewrite Heq. fold g1. fold (set_maxs maxs' sh). fold sh1.
        rewrite (wi_edges _ _ _ _ Hi1). by rewrite <-Hvt.
      * done.
      * destruct Hst2 as [V2 E2 D2 G2 C2]. split; [done|done|set_solver| |].
        -- intros n Hn. destruct (G2 n Hn) as [-> ->]. cbn.
           assert (t ≠ n) by (intros <-; done). by rewrite !decide_False by done.
        -- intros n Hn Hni. destruct (decide (n = t)) as [->|Hne]; [exact Hall2|].
           apply C2; [done|set_solver].
      * apply (ws_done _ _ _ _ _ _ Hst2). set_solver.
      * done.
      * intros e p t' He Hin Hp. destruct (Hnew2 e p t' He Hin) as [Hes|Hold].
        -- apply list_elem_of_fmap in Hes as ([e' t''] & -> & Hin'). cbn in *.
           exfalso. apply Ht. by rewrite (edge_ids g0 t p e' t'' t') by done.
        -- apply Hold. cbn. set_solver.
Qed.

(** *** The whole graph *)

Definition budget : N := size_of root + remaining ∅.

Lemma has_versions_zero : has_versions vars zero_versions.
Proof.
  intros id. unfold zero_versions. rewrite lookup_fmap. destruct (vars !! id); cbn.
  - split; by eexists.
  - split; by intros [].
Qed.

Lemma version_at_zero id : version_at zero_versions id = 0.
Proof. unfold version_at, zero_versions. rewrite lookup_fmap. by destruct (vars !! id). Qed.

Definition start : SsaShared :=
  {| visited_blocks := ∅; visited_edges := ∅; max_versions := zero_versions |}.
Definition ghost0 : Ghost := {| vpre _ := ∅; vend _ := ∅; rank _ := O |}.

Lemma walk_inv_start :
  (∀ n b, node_weight g0 n = Some b → block_ok vars b) → walk_inv g0 start ∅ ghost0.
Proof.
  intros Hok. split; cbn; try done; try set_solver. apply has_versions_zero.
Qed.

Lemma version_walk_ok fuel :
  (∀ n b, node_weight g0 n = Some b → block_ok vars b) → root ∈ node_indices g0 →
  budget ≤ u16_max → (length (node_indices g0) ≤ fuel)%nat →
  ∃ g' sh' done gh, version_block vars fuel root zero_versions (g0, start) = Ret (tt, (g', sh')) ∧
    walk_inv g' sh' done gh ∧ root ∈ done ∧ ∀ n, n ∈ done → complete sh' done n.
Proof using All.
  intros Hok Hr Hb Hf.
  destruct (version_block_ok fuel root zero_versions g0 start ∅ ghost0 O)
    as (g' & sh' & done & gh & Heq & Hi & Hst & Hrd & _).
  - by apply walk_inv_start.
  - cbn. set_solver.
  - done.
  - apply has_versions_zero.
  - by left.
  - intros id. cbn. rewrite version_at_zero. unfold budget in Hb. lia.
  - etransitivity; [|exact Hf]. unfold unmarked. apply length_filter.
  - exists g', sh', done, gh. split_and!; [done..|]. intros n Hn.
    apply (ws_complete _ _ _ _ _ _ Hst); [done|set_solver].
Qed.

(** The walk reaches what the root reaches. *)
Lemma done_reached g sh done gh n :
  walk_inv g sh done gh → n ∈ done → reach (edge g0) root n.
Proof.
  intros Hi. remember (rank gh n) as k eqn:Hk. revert n Hk.
  induction k as [k IH] using lt_wf_ind. intros n -> Hn.
  destruct (wi_tree _ _ _ _ Hi n Hn) as [[-> _]|(p & Hp & He & _ & Hr)]; [apply reach_refl|].
  eapply reach_step; [|done]. eapply IH; [done..|]. by apply (wi_visited _ _ _ _ Hi).
Qed.

Lemma reached_done sh done n :
  root ∈ done → (∀ n, n ∈ done → complete sh done n) → reach (edge g0) root n → n ∈ done.
Proof.
  intros Hr Hc [l Hl]. revert Hr. induction Hl as [a|a b l c He Hw IH]; intros Ha; [done|].
  apply IH. apply list_elem_of_fmap in He as ([e t] & -> & Hin). by destruct (Hc a Ha e t Hin).
Qed.
End walk.
