(* ===== verification/SsaCoherence.v ===== *)
(** * Versions agree where control flow joins

    After the placement of phi nodes and the versioning, every edge into a block
    without a phi node for a live variable brings the same version of it. *)

From stdpp Require Import gmap sets.
From S2P Require Import Prelude Ir Visit Cfg Dominance LivenessProps PhiPlacement VersionProps.

Open Scope N_scope.
Open Scope rust_scope.

(** ** Dominance along walks that avoid frontiers *)

Section dominance.
  Context {V G : Type} `{SV : StableVec V} `{!StableVecSpec V} `{SG : StableDiGraph V G} `{!StableDiGraphSpec V G}.
  Context (g : G) (root : NodeIndex) (Hentry : ∀ p, ¬ edge g p root) (Hloop : ∀ n, ¬ edge g n n).

Abbreviation sdom := (strictly_dominates (edge g) root).

Lemma sdom_stable d n : ¬ ¬ sdom d n → sdom d n.
Proof.
  intros Hnn. split.
  - intros ->. apply Hnn. by intros [].
  - intros l Hl. destruct (decide (d ∈ root :: l)) as [|Hni]; [done|exfalso].
    apply Hnn. intros [_ Hd]. by apply Hni, Hd.
Qed.

(** A dominator of a predecessor dominates the block, or the block is in its
    frontier. *)
Lemma frontier_or_sdom d p n :
  reach (edge g) root p → edge g p n → dominates (edge g) root d p → ¬ in_frontier g root d n → sdom d n.
Proof using All.
  intros Hp He Hd Hnf. apply sdom_stable. intros Hns. apply Hnf.
  destruct (decide (2 ≤ length (sources g n))%nat) as [Hlen|Hlen].
  - split; [done|]. split; [|done]. exists p. split; [by apply sources_edge|done].
  - exfalso. apply Hns.
    assert (Honly : ∀ q, edge g q n → q = p).
    { intros q Hq%sources_edge. apply sources_edge in He.
      destruct (sources g n) as [|x [|y l]]; [by apply not_elem_of_nil in Hq| |cbn in Hlen; lia].
      apply list_elem_of_singleton in Hq, He. congruence. }
    assert (Hnr : n ≠ root) by (intros ->; by apply (Hentry p)).
    assert (Hpn : dominates (edge g) root p n).
    { intros l Hl. destruct (walk_inv_snoc _ _ _ _ Hl) as [[_ ->]|(l' & q & -> & Hw & Hq)]; [done|].
      rewrite (Honly q Hq) in Hw. rewrite app_comm_cons. apply elem_of_app. left. by eapply walk_last. }
    split; [|by eapply dominates_trans].
    intros ->. assert (n = p) as ->; [|by apply (Hloop p)].
    by apply dominates_antisym with (edge g) root.
Qed.

Lemma sdom_walk d a l b :
  walk (edge g) a l b → reach (edge g) root a → dominates (edge g) root d a →
  (∀ x, x ∈ l → ¬ in_frontier g root d x) →
  dominates (edge g) root d b ∧ ∀ x, x ∈ l → sdom d x.
Proof using All.
  induction 1 as [a|a x l b He Hw IH]; intros Hr Hd Hnf; [split; [done|set_solver]|].
  assert (Hs : sdom d x) by (eapply frontier_or_sdom; [exact Hr|done..|]; apply Hnf; constructor).
  destruct IH as [H1 H2]; [by eapply reach_step|apply Hs|intros; apply Hnf; by constructor|].
  split; [done|]. intros y [->|Hy]%elem_of_cons; [done|by apply H2].
Qed.

(** A variable that is live at the end of a walk that does not write it is live
    on the walk. *)
Lemma exposed_walk id a l b t :
  walk (edge g) a l b → edge g b t → exposed g id t → (∀ x, x ∈ l → id ∉ killed g x) →
  ∀ x, x ∈ l → exposed g id x.
Proof.
  intros Hw He Ht. induction Hw as [a|a x l b Hax Hw IH]; intros Hk; [set_solver|].
  assert (Hl : ∀ y, y ∈ l → exposed g id y) by (apply IH; [done|intros; apply Hk; by constructor]).
  intros y [->|Hy]%elem_of_cons; [|by apply Hl].
  assert (Hkx : id ∉ killed g x) by (apply Hk; constructor).
  inversion Hw as [|? z l' ? Hxz Hw']; subst; [by apply (exposed_step g id _ t)|].
  apply (exposed_step g id x z); [done|done|apply Hl; constructor].
Qed.

(** ** Definitions that reach a block *)

(** The blocks that give [id] a new version. *)
Definition defines (id : Id) (n : NodeIndex) : Prop := id ∈ killed g n ∨ phi_block g root id n.

(** A walk from a definition, or from the root, that meets no other one. *)
Definition def_reaches (id : Id) (d p : NodeIndex) : Prop :=
  (defines id d ∨ d = root) ∧ ∃ l, walk (edge g) d l p ∧ ∀ x, x ∈ l → ¬ defines id x.

Lemma def_reaches_sdom id d p t :
  reach (edge g) root d → def_reaches id d p → edge g p t → exposed g id t → ¬ phi_block g root id t →
  sdom d t ∧ ∃ l, walk (edge g) d l t ∧ ∀ x, x ∈ l → x = t ∨ (¬ defines id x ∧ x ≠ root).
Proof using All.
  intros Hr [Hd (l & Hw & Hl)] He Hx Hnp.
  assert (Hw' : walk (edge g) d (l ++ [t]) t) by by eapply walk_snoc.
  assert (Hnr : ∀ x a l b, walk (edge g) a l b → x ∈ l → x ≠ root).
  { clear -Hentry. intros x a l b Hw. induction Hw as [|a y l b Hay Hw IH]; [set_solver|].
    intros [->|Hx]%elem_of_cons; [|by apply IH]. intros ->. by apply (Hentry a). }
  split.
  - destruct Hd as [Hd|Hd].
    + apply (sdom_walk d d (l ++ [t]) t Hw' Hr (dominates_refl _ _ _)).
      2: { apply elem_of_app. right. constructor. }
      intros x [Hin| ->%list_elem_of_singleton]%elem_of_app Hf.
      * apply (Hl x Hin). right.
        assert (Hxx : exposed g id x).
        { eapply (exposed_walk id d l p t); [done..| |done]. intros y Hy Hk. by apply (Hl y Hy); left. }
        destruct Hd as [Hd|Hd]; [by eapply phi_block_writer|by eapply phi_block_phi].
      * apply Hnp. destruct Hd as [Hd|Hd]; [by eapply phi_block_writer|by eapply phi_block_phi].
    + subst d. split; [|apply dominates_root]. intros <-. by apply (Hentry p).
  - exists (l ++ [t]). split; [done|]. intros x Hin.
    pose proof (Hnr x _ _ _ Hw' Hin) as Hxr.
    apply elem_of_app in Hin as [Hin| ->%list_elem_of_singleton]; [right|by left]. split; [by apply Hl|done].
Qed.

(** One definition reaches a block without a phi node. *)
Lemma def_reaches_unique id d d' p p' t :
  reach (edge g) root d → reach (edge g) root d' → reach (edge g) root p →
  def_reaches id d p → def_reaches id d' p' → edge g p t → edge g p' t →
  exposed g id t → ¬ phi_block g root id t → d = d'.
Proof using All.
  intros Hr Hr' Hp Hd Hd' He He' Hx Hnp.
  destruct (def_reaches_sdom id d p t Hr Hd He Hx Hnp) as [Hs (l & Hw & Hl)].
  destruct (def_reaches_sdom id d' p' t Hr' Hd' He' Hx Hnp) as [Hs' (l' & Hw' & Hl')].
  destruct (decide (d = d')) as [|Hne]; [done|exfalso].
  apply (dominators_ordered (edge g) root d d' t l l'); [done|by eapply reach_step|apply Hs|apply Hs'|done| |done|].
  - intros [->|[Hnd Hnr]]%Hl; [by destruct Hs'|]. by destruct Hd' as [[|] _].
  - intros [->|[Hnd Hnr]]%Hl'; [by destruct Hs|]. by destruct Hd as [[|] _].
Qed.
End dominance.

(** ** Programs ready for the transform *)

(** The variable that decides where a block continues. *)
Definition cf_cond (c : ControlFlow) : option Variable_ :=
  match c with
  | CfIfElse cond _ _ _ => Some cond
  | CfSwitch value _ _ _ => Some value
  | CfLoopBreak cond _ _ _ => Some cond
  | _ => None
  end.

Section ready.
  Context {V G : Type} `{SV : StableVec V} `{!StableVecSpec V} `{SG : StableDiGraph V G}
    `{!StableDiGraphSpec V G}.

(** An occurrence of a variable to version is a mutable local that the analyses
    see, not an atomic one. *)
Definition plain (vars : gmap Id Item) (v : Variable_) : Prop :=
  ∀ id, keyed vars v = Some id → local_variable_id v = Some id.

Record phi_ready (vars : gmap Id Item) (g : G) (root n : NodeIndex) (p : PhiInstruction) : Prop := {
  pr_entries s : edge g s n → is_Some (entry_of s p);
  pr_out : phi_key vars (phi_out p) = keyed vars (phi_out p);
  pr_values e : e ∈ phi_entries p →
    phi_key vars (pe_value e) = phi_key vars (phi_out p) ∧ keyed vars (pe_value e) = keyed vars (phi_out p);
  pr_needed id : phi_key vars (phi_out p) = Some id → phi_block g root id n;
}.

(** What the transform relies on: operations without branches, whose occurrences
    of the variables are plain; phi nodes of earlier transforms or of range
    loops; conditions that the block itself reads or writes, if they are
    versioned; an entry without predecessors and no block that is its own
    successor. *)
Record ssa_ready (vars : gmap Id Item) (g : G) (root : NodeIndex) : Prop := {
  sr_inst n i : i ∈ code g n → inst_ok vars i;
  sr_reads n i v : i ∈ code g n → v ∈ op_reads (operation i) (inst_out i) → plain vars v;
  sr_out n i v : i ∈ code g n → inst_out i = Some v → plain vars v;
  sr_phi n b p : node_weight g n = Some b → p ∈ phi_nodes b → phi_ready vars g root n p;
  sr_cond n b c id : node_weight g n = Some b → cf_cond (control_flow b) = Some c →
    keyed vars c = Some id → id ∈ gen g n ∪ killed g n;
  sr_entry p : ¬ edge g p root;
  sr_loop n : ¬ edge g n n;
  sr_root : root ∈ node_indices g;
}.

Lemma ready_readable vars g root : ssa_ready vars g root → code_readable g.
Proof. intros Hr n. apply Forall_forall. intros i Hi. by apply (sr_inst _ _ _ Hr n i Hi). Qed.

(** The versions of a variable that a block does not assign stay. *)
Lemma phis_rel_keep vars m es ps m' id :
  phis_rel vars m es ps m' → (∀ p, p ∈ es → phi_key vars (phi_out p) ≠ Some id) →
  version_at m' id = version_at m id.
Proof.
  revert m ps. induction es as [|e es IH]; intros m [|p ps] Hr Hk; try done; cbn in Hr; [by subst|].
  destruct Hr as (m1 & Hr1 & Hr2). rewrite (IH m1 ps Hr2) by (intros; apply Hk; by constructor).
  unfold phi_rel in Hr1. specialize (Hk e ltac:(constructor)).
  destruct (phi_key vars (phi_out e)) as [i|]; [|by destruct Hr1 as [_ ->]].
  destruct Hr1 as (v & _ & ->). unfold version_at. by rewrite lookup_insert_ne by congruence.
Qed.

Lemma insts_rel_keep vars m es is' m' id :
  insts_rel vars m es is' m' → (∀ i, i ∈ es → inst_out i ≫= keyed vars ≠ Some id) →
  version_at m' id = version_at m id.
Proof.
  revert m is'. induction es as [|e es IH]; intros m [|i is'] Hr Hk; try done; cbn in Hr; [by subst|].
  destruct Hr as (m1 & [_ Hr1] & Hr2). rewrite (IH m1 is' Hr2) by (intros; apply Hk; by constructor).
  unfold out_rel in Hr1. specialize (Hk e ltac:(constructor)).
  destruct (inst_out e) as [o|]; [|by destruct Hr1 as [_ ->]]. cbn in Hk.
  destruct (keyed vars o) as [x|]; [|by destruct Hr1 as [_ ->]].
  destruct Hr1 as (v & _ & ->). unfold version_at. by rewrite lookup_insert_ne by congruence.
Qed.

Lemma phi_key_erase vars v : phi_key vars (erase_phi_var vars v) = phi_key vars v.
Proof. unfold phi_key. rewrite def_of_erase_phi_var. by destruct (def_of vars v). Qed.

Lemma keyed_erase_phi vars v : keyed vars (erase_phi_var vars v) = keyed vars v.
Proof.
  rewrite erase_phi_var_eq. unfold def_of. destruct (as_versioned v) as [[[id item] n]|] eqn:Hv; [|done].
  apply as_versioned_eq in Hv as ->. destruct (vars !! id) eqn:Hid; [|done]. unfold keyed. cbn. by rewrite Hid.
Qed.

Lemma erase_inst_out vars i : inst_out (erase_inst vars i) ≫= keyed vars = inst_out i ≫= keyed vars.
Proof. cbn. destruct (inst_out i); [|done]. cbn. apply keyed_erase. Qed.

(** *** The result of placement and versioning *)

Record ssa_result (vars : gmap Id Item) (g : G) (root : NodeIndex) (gp g' : G) (placed : NodeIndex → list Id)
    (sh : SsaShared) (done : gset NodeIndex) (gh : Ghost) : Prop := {
  rs_placed : placed_in vars g gp placed;
  rs_phi n id : id ∈ placed n ↔ is_Some (vars !! id) ∧ phi_block g root id n;
  rs_inv : walk_inv vars gp root g' sh done gh;
  rs_root : root ∈ done;
  rs_complete n : n ∈ done → complete gp sh done n;
}.

Section result.
  Context (vars : gmap Id Item) (g : G) (root : NodeIndex) (gp g' : G) (placed : NodeIndex → list Id)
    (sh : SsaShared) (done : gset NodeIndex) (gh : Ghost).
  Context (Hready : ssa_ready vars g root) (Hres : ssa_result vars g root gp g' placed sh done gh).

Lemma placed_edge a b : edge gp a b ↔ edge g a b.
Proof using All. unfold edge. by rewrite (pl_edges _ _ _ _ (rs_placed _ _ _ _ _ _ _ _ _ Hres)). Qed.

Lemma done_reach n : n ∈ done → reach (edge g) root n.
Proof using All.
  intros Hn. destruct (done_reached vars gp root g' sh done gh n (rs_inv _ _ _ _ _ _ _ _ _ Hres) Hn) as [l Hl].
  exists l. eapply walk_mono; [|exact Hl]. apply placed_edge.
Qed.

Lemma done_step a b : a ∈ done → edge g a b → b ∈ done.
Proof using All.
  intros Ha He. apply placed_edge in He. apply list_elem_of_fmap in He as ([e t] & -> & Hin).
  by destruct (rs_complete _ _ _ _ _ _ _ _ _ Hres a Ha e t Hin).
Qed.

(** The three versions of a block: as written, with its phi nodes, versioned. *)
Lemma block_versions n :
  n ∈ done →
  ∃ b b', node_weight g n = Some b ∧ node_weight g' n = Some b' ∧
    let bp := set_phis b (phi_nodes b ++ omap (λ id, phi_of g n id <$> vars !! id) (placed n)) in
    node_weight gp n = Some bp ∧ shape vars b' = shape vars bp ∧ block_rel vars bp (vpre gh n) b' (vend gh n).
Proof using All.
  intros Hn. pose proof (rs_inv _ _ _ _ _ _ _ _ _ Hres) as Hi. pose proof (rs_placed _ _ _ _ _ _ _ _ _ Hres) as Hp.
  pose proof (wi_nodes _ _ _ _ _ _ _ Hi n Hn) as Hg. rewrite (pl_indices _ _ _ _ Hp) in Hg.
  apply node_weight_node in Hg as [b Hb]. pose proof (pl_weight _ _ _ _ Hp n) as Hw. rewrite Hb in Hw. cbn in Hw.
  destruct (wi_weight _ _ _ _ _ _ _ Hi n _ Hw) as (b' & Hb' & Hsh & _ & Hrel).
  exists b, b'. cbn. split_and!; [done..|]. by apply Hrel.
Qed.

(** A variable that a block does not define. *)
Lemma version_kept n id :
  n ∈ done → is_Some (vars !! id) → ¬ defines g root id n →
  version_at (vend gh n) id = version_at (vpre gh n) id.
Proof using All.
  intros Hn Hid Hnd. destruct (block_versions n Hn) as (b & b' & Hb & Hb' & Hbp & _ & (mid & Hph & Hin & _)).
  etransitivity; [eapply insts_rel_keep; [exact Hin|]|eapply phis_rel_keep; [exact Hph|]].
  - intros i (j & -> & Hj)%list_elem_of_fmap Hk. rewrite erase_inst_out in Hk. cbn in Hj.
    destruct (inst_out j) as [o|] eqn:Ho; [|done]. cbn in Hk. apply Hnd. left.
    assert (Hc : j ∈ code g n) by (unfold code; by rewrite Hb).
    unfold killed, written. apply elem_of_list_to_set, list_elem_of_omap. exists j. split; [done|].
    unfold inst_writes. rewrite Ho. cbn. by apply (sr_out _ _ _ Hready n j o Hc Ho).
  - intros p (q & -> & Hq)%list_elem_of_fmap Hk. cbn in Hk. rewrite phi_key_erase in Hk. apply Hnd. right.
    cbn in Hq. apply elem_of_app in Hq as [Hq|Hq]; [by apply (pr_needed _ _ _ _ _ (sr_phi _ _ _ Hready n b q Hb Hq))|].
    apply list_elem_of_omap in Hq as (x & Hx & Heq). destruct (vars !! x) as [it|] eqn:Hv; [|done].
    cbn in Heq. injection Heq as <-. unfold phi_key, def_of in Hk. cbn in Hk.
    rewrite Hv in Hk. cbn in Hk. injection Hk as ->.
    by apply (rs_phi _ _ _ _ _ _ _ _ _ Hres).
Qed.

(** Every block gets its versions from a definition that reaches it. *)
Lemma version_origin p id :
  p ∈ done → is_Some (vars !! id) →
  ∃ d, d ∈ done ∧ def_reaches g root id d p ∧ version_at (vend gh p) id = version_at (vend gh d) id.
Proof using All.
  intros Hp Hid. pose proof (rs_inv _ _ _ _ _ _ _ _ _ Hres) as Hi.
  remember (rank gh p) as k eqn:Hk. revert p Hk Hp. induction k as [k IH] using lt_wf_ind. intros p -> Hp.
  assert (Hself : defines g root id p ∨ p = root → def_reaches g root id p p).
  { intros Hd. split; [done|]. exists []. split; [constructor|set_solver]. }
  assert (Hdec : defines g root id p ∨ ¬ defines g root id p).
  { unfold defines. destruct (decide (id ∈ killed g p)); [by left; left|].
    destruct (decide (id ∈ placed p)) as [Hin|Hni].
    - left. right. by apply (rs_phi _ _ _ _ _ _ _ _ _ Hres).
    - right. intros [|Hphi]; [done|]. apply Hni, (rs_phi _ _ _ _ _ _ _ _ _ Hres). done. }
  destruct Hdec as [Hd|Hnd]; [exists p; split_and!; [done|apply Hself; by left|done]|].
  destruct (wi_tree _ _ _ _ _ _ _ Hi p Hp) as [[-> _]|(q & Hq & He & Heq & Hr)].
  { exists root. split_and!; [done|apply Hself; by right|done]. }
  apply (wi_visited _ _ _ _ _ _ _ Hi) in Hq.
  destruct (IH (rank gh q) Hr q eq_refl Hq) as (d & Hdd & [Hdef (l & Hw & Hl)] & Hv).
  exists d. split_and!; [done| |by rewrite version_kept, Heq].
  split; [done|]. exists (l ++ [p]). split; [eapply walk_snoc; [done|by apply placed_edge]|].
  intros x [Hx| ->%list_elem_of_singleton]%elem_of_app; [by apply Hl|done].
Qed.

Lemma coherent p q t id :
  p ∈ done → q ∈ done → edge g p t → edge g q t → is_Some (vars !! id) → exposed g id t → id ∉ placed t →
  version_at (vend gh p) id = version_at (vend gh q) id.
Proof using All.
  intros Hp Hq Hep Heq Hid Hx Hnp.
  destruct (version_origin p id Hp Hid) as (d & Hd & Hdr & ->).
  destruct (version_origin q id Hq Hid) as (d' & Hd' & Hdr' & ->).
  replace d' with d; [done|].
  eapply (def_reaches_unique g root) with (p := p) (p' := q) (t := t) (id := id); try done.
  - apply (sr_entry _ _ _ Hready).
  - apply (sr_loop _ _ _ Hready).
  - by apply done_reach.
  - by apply done_reach.
  - by apply done_reach.
  - intros Hphi. apply Hnp, (rs_phi _ _ _ _ _ _ _ _ _ Hres). done.
Qed.

(** At the start of a block without a phi node: the version of any predecessor. *)
Lemma version_at_entry p t id :
  p ∈ done → edge g p t → is_Some (vars !! id) → exposed g id t → id ∉ placed t →
  version_at (vpre gh t) id = version_at (vend gh p) id.
Proof using All.
  intros Hp He Hid Hx Hnp. pose proof (rs_inv _ _ _ _ _ _ _ _ _ Hres) as Hi.
  assert (Ht : t ∈ done) by by eapply done_step.
  destruct (wi_tree _ _ _ _ _ _ _ Hi t Ht) as [[-> _]|(q & Hq & Heq & -> & _)].
  { by apply (sr_entry _ _ _ Hready) in He. }
  apply (coherent q p t); try done.
  - by apply (wi_visited _ _ _ _ _ _ _ Hi).
  - by apply placed_edge.
Qed.
End result.
End ready.
