(* ===== verification/SsaSem.v ===== *)
(** * The SSA transform preserves the meaning of programs

    Programs run block by block.  A [Meaning] interprets the operations, in
    terms of the values that the visits of [instructions.rs] read, the choice of
    the next block, and the variables that are not versioned; it is arbitrary.
    Before the transform a variable is a mutable cell, afterwards every version
    is a variable of its own and phi nodes move values along edges. *)

From stdpp Require Import gmap sets functions.
From S2P Require Import Prelude Ir Visit Cfg Dominance LivenessProps PhiPlacement VersionProps SsaCoherence.

Open Scope N_scope.
Open Scope rust_scope.

(** ** Meanings and machines *)

Record Meaning (Val World : Type) := {
  m_op : Operation → option Variable_ → list Val → World → option (Val * World);
  m_read : World → Variable_ → Val;
  m_write : World → Variable_ → Val → World;
  m_next : ControlFlow → list NodeIndex → option Val → option NodeIndex;
}.
Arguments m_op {Val World} _.
Arguments m_read {Val World} _.
Arguments m_write {Val World} _.
Arguments m_next {Val World} _.

(** A machine is stuck, has finished, or is at the start of a block. *)
Inductive machine (Env World : Type) :=
| Stuck
| Finished (w : World)
| Running (n : NodeIndex) (env : Env) (w : World).
Arguments Stuck {Env World}.
Arguments Finished {Env World} _.
Arguments Running {Env World} _ _ _.

Definition observe {Env World : Type} (s : machine Env World) : option (option NodeIndex * World) :=
  match s with
  | Stuck => None
  | Finished w => Some (None, w)
  | Running n _ w => Some (Some n, w)
  end.

Section machine.
  Context {V G : Type} `{SV : StableVec V} `{SG : StableDiGraph V G}.
  Context {Val World : Type} (mg : Meaning Val World) (vars : gmap Id Item).

Section keys.
  Context {K : Type} `{EqDecision K} (key : Variable_ → option K).

Definition value (env : K → Val) (w : World) (v : Variable_) : Val :=
  match key v with Some k => env k | None => m_read mg w v end.

(** An instruction sees the operation without versions and the values it reads. *)
Definition exec_inst (i : Instruction) (env : K → Val) (w : World) : option ((K → Val) * World) :=
  match m_op mg (operation (erase_inst vars i)) (inst_out (erase_inst vars i))
          (value env w <$> op_reads (operation i) (inst_out i)) w with
  | Some (x, w') => Some (match inst_out i ≫= key with Some k => <[k := x]> env | None => env end, w')
  | None => None
  end.
Fixpoint exec_insts (l : list Instruction) (env : K → Val) (w : World) : option ((K → Val) * World) :=
  match l with
  | [] => Some (env, w)
  | i :: l => match exec_inst i env w with Some (env, w) => exec_insts l env w | None => None end
  end.

(** The moves of the phi nodes for the edge from [p], all of them read first. *)
Definition phi_moves (p : NodeIndex) (env : K → Val) (w : World) (phis : list PhiInstruction) :
    option (list (Variable_ * Val)) :=
  mapM (λ phi, (λ v, (phi_out phi, value env w v)) <$> entry_of p phi) phis.
Definition move (s : (K → Val) * World) (m : Variable_ * Val) : (K → Val) * World :=
  match key m.1 with
  | Some k => (<[k := m.2]> s.1, s.2)
  | None => (s.1, m_write mg s.2 m.1 m.2)
  end.
Definition enter (p : NodeIndex) (env : K → Val) (w : World) (phis : list PhiInstruction) :
    option ((K → Val) * World) :=
  (λ ms, foldl move (env, w) ms) <$> phi_moves p env w phis.

(** One block; [phis_of] are the phi nodes that the machine executes. *)
Definition step (phis_of : BasicBlock V → list PhiInstruction) (g : G) (s : machine (K → Val) World) :
    machine (K → Val) World :=
  match s with
  | Running n env w =>
      match node_weight g n with
      | None => Stuck
      | Some b =>
          match exec_insts (sv_values (ops b)) env w with
          | None => Stuck
          | Some (env, w) =>
              match m_next mg (erase_cf vars (control_flow b)) (edges g n).*2
                      (value env w <$> cf_cond (control_flow b)) with
              | None => Finished w
              | Some t =>
                  if decide (edge g n t) then
                    match node_weight g t ≫= (λ b, enter n env w (phis_of b)) with
                    | Some (env, w) => Running t env w
                    | None => Stuck
                    end
                  else Stuck
              end
          end
      end
  | s => s
  end.
End keys.

(** Before the transform: variables are cells, and a phi node of a variable that
    is still a cell does nothing. *)
Definition mutable_phis (b : BasicBlock V) : list PhiInstruction :=
  filter (λ p, keyed vars (phi_out p) = None) (phi_nodes b).
Definition run_mutable (k : nat) (g : G) : machine (Id → Val) World → machine (Id → Val) World :=
  Nat.iter k (step (keyed vars) mutable_phis g).

(** After it: versions are variables. *)
Definition run_ssa (k : nat) (g : G) : machine (Id * N → Val) World → machine (Id * N → Val) World :=
  Nat.iter k (step (def_of vars) phi_nodes g).
End machine.

(** ** Simulation of the instructions *)

Section simulation.
  Context {Val World : Type} (mg : Meaning Val World) (vars : gmap Id Item).

(** The cells of [A] hold the values of the current versions. *)
Definition agree (A : gset Id) (env : Id → Val) (env' : Id * N → Val) (m : Versions) : Prop :=
  ∀ id, is_Some (vars !! id) → id ∈ A → env id = env' (id, version_at m id).

Lemma agree_mono A B env env' m : B ⊆ A → agree A env env' m → agree B env env' m.
Proof. intros Hs Ha id Hid Hin. apply Ha; [done|by apply Hs]. Qed.

Lemma value_read A env env' m w v :
  has_versions vars m → agree A env env' m → (∀ id, keyed vars v = Some id → id ∈ A) →
  value mg (def_of vars) env' w (version_read vars m v) = value mg (keyed vars) env w v.
Proof.
  intros Hm Ha Hk. unfold value. rewrite version_read_eq by done.
  destruct (keyed vars v) as [id|] eqn:Hv.
  - rewrite def_of_versioned by by eapply keyed_some. symmetry. apply Ha; [by eapply keyed_some|by apply Hk].
  - by rewrite def_of_unkeyed.
Qed.

Lemma agree_assign A env env' m id x v :
  is_Some (vars !! id) → agree A env env' m →
  agree (A ∪ {[id]}) (<[id := x]> env) (<[(id, v) := x]> env') (<[id := v]> m).
Proof.
  intros Hid Ha i Hi Hin. destruct (decide (id = i)) as [<-|Hne].
  - rewrite fn_lookup_insert. unfold version_at. rewrite lookup_insert_eq. cbn. by rewrite fn_lookup_insert.
  - rewrite fn_lookup_insert_ne by done.
    assert (Hv : version_at (<[id := v]> m) i = version_at m i) by (unfold version_at; by rewrite lookup_insert_ne).
    rewrite Hv, fn_lookup_insert_ne by congruence. apply Ha; [done|]. set_solver.
Qed.

(** The occurrences of [i] are plain. *)
Definition inst_plain (i : Instruction) : Prop :=
  inst_ok vars i ∧ (∀ v, v ∈ op_reads (operation i) (inst_out i) → plain vars v) ∧
  (∀ v, inst_out i = Some v → plain vars v).

Lemma inst_reads_sim i i' m m' :
  inst_ok vars i → has_versions vars m → inst_rel vars m (erase_inst vars i) i' m' →
  op_reads (operation i') (inst_out i') = version_read vars m <$> op_reads (operation i) (inst_out i).
Proof.
  intros Hi Hm [Hop Hout]. cbn in Hop, Hout. rewrite rename_read_erase in Hop by (done || apply Hi). cbn in Hop.
  rewrite <-op_reads_rename by (intros; by apply version_read_read) || apply Hi.
  rewrite rename_unkeyed_out with (vars := vars); [|by intros v Hv; rewrite version_read_eq, Hv|done].
  rewrite Hop. unfold out_rel in Hout. destruct (inst_out i) as [o|] eqn:Ho; cbn in Hout.
  2:{ by destruct Hout as [-> _]. }
  rewrite keyed_erase in Hout. destruct (keyed vars o) as [id|] eqn:Hk.
  - destruct Hout as (v & -> & _). apply op_reads_out.
    rewrite is_store_rename by (rewrite <-Ho; apply Hi).
    destruct (is_store (operation i)) eqn:Hst; [|done].
    by rewrite (proj2 Hi Hst o Ho) in Hk.
  - destruct Hout as [-> _]. unfold erase. by rewrite Hk.
Qed.

Definition sim_result (A : gset Id) (m : Versions)
    (r : option ((Id → Val) * World)) (r' : option ((Id * N → Val) * World)) : Prop :=
  match r, r' with
  | Some (env, w), Some (env', w') => w = w' ∧ agree A env env' m
  | None, None => True
  | _, _ => False
  end.

Lemma exec_inst_sim A env env' m m' w i i' :
  inst_plain i → has_versions vars m → inst_rel vars m (erase_inst vars i) i' m' →
  erase_inst vars i' = erase_inst vars i → agree A env env' m → list_to_set (inst_reads i) ⊆ A →
  has_versions vars m' ∧
  sim_result (A ∪ list_to_set (option_list (inst_writes i))) m'
    (exec_inst mg vars (keyed vars) i env w) (exec_inst mg vars (def_of vars) i' env' w).
Proof.
  intros (Hi & Hreads & Hpl) Hm Hrel He Ha Hsub.
  assert (Hvals : value mg (def_of vars) env' w <$> op_reads (operation i') (inst_out i') =
                  value mg (keyed vars) env w <$> op_reads (operation i) (inst_out i)).
  { rewrite (inst_reads_sim i i' m m') by done. rewrite <-list_fmap_compose.
    apply list_fmap_ext. intros k v Hv. apply (value_read A); [done|done|].
    intros id Hk. apply Hsub, elem_of_list_to_set, list_elem_of_omap. exists v.
    split; [by eapply list_elem_of_lookup_2|]. apply (Hreads v); [by eapply list_elem_of_lookup_2|done]. }
  destruct Hrel as [_ Hout]. unfold out_rel in Hout. cbn [inst_out erase_inst] in Hout.
  unfold exec_inst. rewrite He, Hvals. unfold inst_writes.
  destruct (inst_out i) as [o|] eqn:Ho; cbn in Hout |- *.
  - rewrite keyed_erase in Hout. destruct (keyed vars o) as [id|] eqn:Hk.
    + destruct Hout as (v & -> & ->). assert (Hid : is_Some (vars !! id)) by by eapply keyed_some.
      split; [by apply has_versions_insert|].
      destruct (m_op _ _ _ _ _) as [[x w']|]; [|done]. cbn [mbind option_bind].
      rewrite def_of_versioned by done. rewrite (Hpl o eq_refl id Hk). cbn. split; [done|].
      replace ({[id]} ∪ ∅ : gset Id) with ({[id]} : gset Id) by set_solver. by apply agree_assign.
    + destruct Hout as [-> ->]. split; [done|].
      destruct (m_op _ _ _ _ _) as [[x w']|]; [|done]. cbn.
      assert (Hde : def_of vars (erase vars o) = None) by (apply def_of_unkeyed; by rewrite keyed_erase).
      rewrite Hde. split; [done|]. intros j Hj Hin. apply Ha; [done|].
      apply elem_of_union in Hin as [|Hin]; [done|].
      destruct (local_variable_id o) as [j'|] eqn:Hl; [|set_solver]. exfalso.
      unfold local_variable_id in Hl. unfold keyed in Hk. destruct (var_kind o); try done.
      destruct (is_atomic _); [done|]. injection Hl as ->. cbn in Hin.
      assert (j = j') as -> by set_solver. destruct Hj as [y Hj]. by rewrite Hj in Hk.
  - destruct Hout as [-> ->]. split; [done|].
    destruct (m_op _ _ _ _ _) as [[x w']|]; [|done]. cbn. split; [done|].
    eapply agree_mono; [|done]. set_solver.
Qed.

Lemma exec_insts_sim A env env' m m' w l l' :
  Forall inst_plain l → has_versions vars m → insts_rel vars m (erase_inst vars <$> l) l' m' →
  erase_inst vars <$> l' = erase_inst vars <$> l → agree A env env' m → upward l ⊆ A →
  sim_result (A ∪ written l) m' (exec_insts mg vars (keyed vars) l env w) (exec_insts mg vars (def_of vars) l' env' w).
Proof.
  intros Hl. revert A env env' m w l'. induction Hl as [|i l Hi Hl IH]; intros A env env' m w [|i' l'] Hm Hrel He Ha Hup; try done.
  - cbn in *. subst m'. split; [done|]. eapply agree_mono; [|done]. unfold written. cbn. set_solver.
  - cbn [fmap list_fmap insts_rel] in Hrel. destruct Hrel as (m1 & Hr1 & Hr2).
    cbn [fmap list_fmap] in He. injection He as He He' Hels.
    assert (Hei : erase_inst vars i' = erase_inst vars i) by (unfold erase_inst; by rewrite He, He').
    cbn [upward] in Hup.
    destruct (exec_inst_sim A env env' m m1 w i i') as [Hm1 Hs]; [done|done|done|done|done|set_solver|].
    cbn [exec_insts]. rewrite written_cons.
    destruct (exec_inst mg vars (keyed vars) i env w) as [[env1 w1]|];
      destruct (exec_inst mg vars (def_of vars) i' env' w) as [[env1' w1']|]; try done.
    destruct Hs as [<- Ha1]. rewrite (union_assoc_L A). apply (IH _ _ _ m1); [done|done|done|done|].
    intros id Hid. apply elem_of_union.
    destruct (decide (id ∈ (list_to_set (option_list (inst_writes i)) : gset Id))) as [|Hni]; [by right|left].
    apply Hup, elem_of_union. left. by apply elem_of_difference.
Qed.

(** ** Simulation of the phi nodes *)

Lemma entry_value s p p' v' :
  erase_phi vars p' = erase_phi vars p → entry_of s p' = Some v' →
  ∃ v e, entry_of s p = Some v ∧ e ∈ phi_entries p ∧ pe_value e = v ∧ erase_phi_var vars v = erase_phi_var vars v'.
Proof.
  intros [= _ He]. unfold entry_of. revert He.
  generalize (phi_entries p) as es, (phi_entries p') as fs.
  intros es. induction es as [|e es IH]; intros [|f fs] He Hv; try done; cbn in *.
  injection He as Hb Hval Hes. rewrite <-Hb. destruct (decide (pe_block f = s)).
  - injection Hv as <-. exists (pe_value e), e. split_and!; [done|constructor|done|done].
  - destruct (IH fs Hes Hv) as (v & x & ? & ? & ? & ?). exists v, x. split_and!; [done|by constructor|done|done].
Qed.

(** The mutable machine skips the phi nodes of variables. *)
Lemma def_of_erased v v' id n :
  erase_phi_var vars v = erase_phi_var vars v' → phi_key vars v = Some id → versioned_by vars n v' →
  def_of vars v' = Some (id, version_at n id).
Proof.
  intros He Hk Hv. rewrite <-(phi_key_erase vars v), He, phi_key_erase in Hk. unfold phi_key in Hk.
  destruct (def_of vars v') as [[i k]|] eqn:Hd; [|done]. injection Hk as ->.
  pose proof (def_of_version_phi_var vars n v') as Hdv. rewrite Hv, Hd in Hdv. exact Hdv.
Qed.

Lemma erase_unkeyed v : phi_key vars v = None → erase_phi_var vars v = v.
Proof. unfold phi_key. rewrite erase_phi_var_eq. by destruct (def_of vars v) as [[? ?]|]. Qed.

Section phis.
  Context {V G : Type} `{SV : StableVec V} `{SG : StableDiGraph V G}.
  Context (g : G) (root p t : NodeIndex) (mp : Versions) (A : gset Id).
  Context (env : Id → Val) (env' : Id * N → Val) (w : World).

Abbreviation mutable_only := (filter (λ q, keyed vars (phi_out q) = None)).

Lemma move_keyed (e : Id * N → Val) (w1 : World) id v item x :
  is_Some (vars !! id) → move mg (def_of vars) (e, w1) (versioned id v item, x) = (<[(id, v) := x]> e, w1).
Proof. intros Hid. unfold move. cbn [fst snd]. by rewrite def_of_versioned. Qed.

Lemma phi_moves_sim ps ps' m mid :
  phis_rel vars m (erase_phi vars <$> ps) ps' mid → erase_phi vars <$> ps' = erase_phi vars <$> ps →
  Forall (λ q, ∃ v, entry_of p q = Some v ∧ versioned_by vars mp v) ps' →
  Forall (phi_ready vars g root t) ps →
  (∀ q id, q ∈ ps → phi_key vars (phi_out q) = Some id → env id = env' (id, version_at mp id)) →
  ∃ ms ms',
    phi_moves mg (keyed vars) p env w (mutable_only ps) = Some ms ∧
    phi_moves mg (def_of vars) p env' w ps' = Some ms' ∧
    ∀ e1 e1' w1,
      (∀ id, is_Some (vars !! id) → id ∈ A → (∀ q, q ∈ ps → phi_key vars (phi_out q) ≠ Some id) →
         env id = e1' (id, version_at m id)) →
      ∃ e2' w2, foldl (move mg (keyed vars)) (e1, w1) ms = (e1, w2) ∧
        foldl (move mg (def_of vars)) (e1', w1) ms' = (e2', w2) ∧ agree A env e2' mid.
Proof.
  revert m ps'. induction ps as [|q ps IH]; intros m [|q' ps'] Hrel He Hv Hr Hval; try done.
  - exists [], []. split_and!; [done|done|]. intros e1 e1' w1 Hag. exists e1', w1. cbn in *. subst mid.
    split_and!; [done..|]. intros id Hid Hin. apply Hag; [done|done|set_solver].
  - cbn [fmap list_fmap phis_rel] in Hrel. destruct Hrel as (m1 & Hr1 & Hr2).
    assert (Hels : erase_phi vars <$> ps' = erase_phi vars <$> ps) by (by injection He).
    assert (Heq : erase_phi vars q' = erase_phi vars q) by (cbn in He; congruence).
    apply Forall_cons in Hv as [(v' & Hv' & Hby) Hv]. apply Forall_cons in Hr as [Hq Hr].
    destruct (entry_value p q q' v' Heq Hv') as (v & e & Hvq & Hin & Hev & Hver). subst v.
    destruct (IH m1 ps' Hr2 Hels Hv Hr) as (ms & ms' & Hms & Hms' & Hfold).
    { intros x id Hx. apply Hval. by constructor. }
    destruct (pr_values _ _ _ _ _ Hq e Hin) as [Hk1 Hk2]. pose proof (pr_out _ _ _ _ _ Hq) as Hk3.
    unfold phi_rel in Hr1. cbn [phi_out erase_phi] in Hr1. rewrite phi_key_erase in Hr1.
    rewrite filter_cons.
    destruct (phi_key vars (phi_out q)) as [id|] eqn:Hk.
    + destruct Hr1 as (ver & Hout & ->). rewrite decide_False by by rewrite <-Hk3.
      assert (Hid : is_Some (vars !! id)) by (eapply (keyed_some vars (phi_out q)); by rewrite <-Hk3).
      assert (Hd : def_of vars v' = Some (id, version_at mp id)) by (by eapply def_of_erased).
      eexists ms, _. split; [done|]. split.
      { unfold phi_moves in *. cbn [mapM]. rewrite Hv'. cbn [fmap option_fmap option_map mbind option_bind].
        rewrite Hms'. reflexivity. }
      intros e1 e1' w1 Hag. cbn [foldl]. rewrite Hout, move_keyed by done.
      apply Hfold. intros i Hi Hia Hni. destruct (decide (id = i)) as [<-|Hne].
      * unfold version_at at 1. rewrite lookup_insert_eq. cbn. rewrite fn_lookup_insert.
        unfold value. rewrite Hd. apply (Hval q); [constructor|done].
      * assert (Hvi : version_at (<[id := ver]> m) i = version_at m i)
          by (unfold version_at; by rewrite lookup_insert_ne).
        rewrite Hvi, fn_lookup_insert_ne by congruence. apply Hag; [done|done|].
        intros x [->|Hx]%elem_of_cons Hkx; [congruence|by eapply Hni].
    + destruct Hr1 as [Hout ->]. rewrite decide_True by done.
      assert (Hv0 : pe_value e = v').
      { rewrite <-(erase_unkeyed (pe_value e)) by done. rewrite Hver. apply erase_unkeyed.
        by rewrite <-phi_key_erase, <-Hver, phi_key_erase. }
      rewrite erase_unkeyed in Hout by done.
      assert (Hval' : value mg (def_of vars) env' w v' = value mg (keyed vars) env w v').
      { unfold value. rewrite <-Hv0, Hk2, <-Hk3. by rewrite def_of_unkeyed by by rewrite Hk2, <-Hk3. }
      eexists _, _. split.
      { unfold phi_moves in *. cbn [mapM]. rewrite Hvq. cbn [fmap option_fmap option_map mbind option_bind].
        rewrite Hms. reflexivity. }
      split.
      { unfold phi_moves in *. cbn [mapM]. rewrite Hv'. cbn [fmap option_fmap option_map mbind option_bind].
        rewrite Hms'. reflexivity. }
      intros e1 e1' w1 Hag. cbn [foldl]. unfold move at 2 4. cbn [fst snd].
      rewrite Hout, <-Hk3. rewrite (def_of_unkeyed vars (phi_out q)) by done.
      rewrite Hval', Hv0. apply Hfold. intros i Hi Hia Hni. apply Hag; [done|done|].
      intros x [->|Hx]%elem_of_cons Hkx; [congruence|by eapply Hni].
Qed.
End phis.
End simulation.

Lemma filter_none {A : Type} (P : A → Prop) `{!∀ x, Decision (P x)} (l : list A) :
  Forall (λ x, ¬ P x) l → filter P l = [].
Proof. induction 1 as [|x l Hx Hl IH]; [done|]. by rewrite filter_cons, decide_False. Qed.

(** ** Phi nodes that were placed *)

Section placed.
  Context {V G : Type} `{SV : StableVec V} `{SG : StableDiGraph V G} `{!StableDiGraphSpec V G}.

Lemma phi_of_ready vars (g : G) root n id item :
  phi_block g root id n → vars !! id = Some item → phi_ready vars g root n (phi_of g n id item).
Proof.
  intros Hphi Hid.
  assert (Hd : def_of vars (versioned id 0 item) = Some (id, 0)) by (apply def_of_versioned; by eexists).
  assert (Hk : phi_key vars (versioned id 0 item) = Some id) by (unfold phi_key; by rewrite Hd).
  assert (Hky : keyed vars (versioned id 0 item) = Some id) by (rewrite keyed_versioned; by rewrite Hid).
  split; cbn [phi_out phi_entries phi_of].
  - intros s Hs%sources_edge. unfold entry_of. cbn [phi_entries phi_of].
    induction (sources g n) as [|x l IH]; [by apply not_elem_of_nil in Hs|]. cbn.
    apply elem_of_cons in Hs as [->|Hs]; [by rewrite decide_True|].
    destruct (decide (x = s)); [done|by apply IH].
  - by rewrite Hk, Hky.
  - intros e (x & -> & _)%list_elem_of_fmap. done.
  - intros i Hi. rewrite Hk in Hi. by injection Hi as <-.
Qed.

Lemma exposed_phi (g : G) root n id : phi_block g root id n → exposed g id n.
Proof. by inversion 1. Qed.

(** The phi nodes of a block after the placement. *)
Lemma placed_phis vars (g : G) root (placed : NodeIndex → list Id) n b :
  ssa_ready vars g root →
  (∀ n id, id ∈ placed n ↔ is_Some (vars !! id) ∧ phi_block g root id n) →
  node_weight g n = Some b →
  let ps := phi_nodes b ++ omap (λ id, phi_of g n id <$> vars !! id) (placed n) in
  Forall (phi_ready vars g root n) ps ∧
  filter (λ q, keyed vars (phi_out q) = None) ps = mutable_phis vars b ∧
  ∀ id, id ∈ placed n → ∃ q, q ∈ ps ∧ phi_key vars (phi_out q) = Some id.
Proof.
  intros Hready Hphi Hb ps.
  assert (Hadd : ∀ q, q ∈ omap (λ id, phi_of g n id <$> vars !! id) (placed n) →
            ∃ id item, id ∈ placed n ∧ vars !! id = Some item ∧ q = phi_of g n id item).
  { intros q (id & Hid & Hq)%list_elem_of_omap. destruct (vars !! id) as [item|] eqn:Hv; [|done].
    injection Hq as <-. by exists id, item. }
  split_and!.
  - apply Forall_app. split; apply Forall_forall.
    + intros q Hq. by eapply (sr_phi _ _ _ Hready).
    + intros q (id & item & Hid & Hv & ->)%Hadd. apply phi_of_ready; [|done].
      by apply Hphi.
  - unfold ps, mutable_phis. rewrite filter_app.
    rewrite (filter_none _ (omap _ _)); [by rewrite app_nil_r|].
    apply Forall_forall. intros q (id & item & Hid & Hv & ->)%Hadd. cbn [phi_out phi_of].
    rewrite keyed_versioned, Hv. done.
  - intros id Hid. destruct (proj1 (Hphi n id) Hid) as [[item Hv] _].
    exists (phi_of g n id item). split.
    + apply elem_of_app. right. apply list_elem_of_omap. exists id. by rewrite Hv.
    + unfold phi_key. cbn [phi_out phi_of]. rewrite def_of_versioned by by eexists. done.
Qed.

End placed.

(** ** Simulation of the blocks *)

Section blocks.
  Context {V G : Type} `{SV : StableVec V} `{!StableVecSpec V} `{SG : StableDiGraph V G}
    `{!StableDiGraphSpec V G} {Val World : Type} (mg : Meaning Val World).
  Context (vars : gmap Id Item) (g : G) (root : NodeIndex) (gp g' : G) (placed : NodeIndex → list Id)
    (sh : SsaShared) (done : gset NodeIndex) (gh : Ghost) (live : Liveness).
  Context (Hready : ssa_ready vars g root) (Hres : ssa_result vars g root gp g' placed sh done gh).
  Context (Hlive : ∀ n id, reach (edge g) root n → id ∈ live_at live n ↔ exposed g id n).

(** Both machines are at the same block, whose live variables agree. *)
Definition related (s : machine (Id → Val) World) (s' : machine (Id * N → Val) World) : Prop :=
  match s, s' with
  | Stuck, Stuck => True
  | Finished w, Finished w' => w = w'
  | Running n env w, Running n' env' w' =>
      n = n' ∧ w = w' ∧ n ∈ done ∧
      ∃ b b' mid, node_weight g n = Some b ∧ node_weight g' n = Some b' ∧
        has_versions vars mid ∧ agree vars (live_at live n) env env' mid ∧
        insts_rel vars mid (erase_inst vars <$> sv_values (ops b)) (sv_values (ops b')) (vend gh n)
  | _, _ => False
  end.

Lemma related_observe s s' : related s s' → observe s = observe s'.
Proof.
  destruct s, s'; try done; cbn; [by intros ->|]. by intros (-> & -> & _).
Qed.

Lemma phis_rel_versions m es ps m' : has_versions vars m → phis_rel vars m es ps m' → has_versions vars m'.
Proof.
  clear. revert m ps. induction es as [|e es IH]; intros m [|p ps] Hm Hr; try done; cbn in Hr; [by subst|].
  destruct Hr as (m1 & Hr1 & Hr2). eapply IH; [|done]. unfold phi_rel in Hr1.
  destruct (phi_key vars (phi_out e)) as [id|] eqn:Hk; [|by destruct Hr1 as [_ ->]].
  destruct Hr1 as (v & _ & ->). apply has_versions_insert; [done|].
  unfold phi_key, def_of in Hk. destruct (as_versioned (phi_out e)) as [[[i it] n]|]; [|done].
  destruct (vars !! i) eqn:Hi; [|done]. injection Hk as ->. by eexists.
Qed.

Lemma code_plain n : n ∈ done → Forall (inst_plain vars) (code g n).
Proof using Hready.
  intros _. apply Forall_forall. intros i Hi. split_and!.
  - by apply (sr_inst _ _ _ Hready n).
  - intros v Hv. by apply (sr_reads _ _ _ Hready n i).
  - intros v Hv. by apply (sr_out _ _ _ Hready n i).
Qed.

(** What is live at a successor is live at the block or written by it. *)
Lemma live_successor n t id :
  n ∈ done → edge g n t → exposed g id t → id ∈ live_at live n ∪ killed g n.
Proof using All.
  intros Hn He Hx. apply elem_of_union. destruct (decide (id ∈ killed g n)) as [|Hk]; [by right|left].
  apply Hlive; [by eapply done_reach|]. by eapply exposed_step.
Qed.

(** Entering a block. *)
Lemma enter_sim n t b b' env env' w :
  n ∈ done → edge g n t → node_weight g t = Some b → node_weight g' t = Some b' →
  agree vars (live_at live n ∪ killed g n) env env' (vend gh n) →
  match enter mg (keyed vars) n env w (mutable_phis vars b), enter mg (def_of vars) n env' w (phi_nodes b') with
  | Some (e, w1), Some (e', w1') => related (Running t e w1) (Running t e' w1')
  | None, None => True
  | _, _ => False
  end.
Proof using All.
  intros Hn He Hb Hb' Hag.
  assert (Ht : t ∈ done) by by eapply done_step.
  destruct (block_versions vars g root gp g' placed sh done gh Hready Hres t Ht)
    as (x & x' & Hx & Hx' & Hbp & Hsh & (mid & Hph & Hin & _)).
  rewrite Hb in Hx. injection Hx as <-. rewrite Hb' in Hx'. injection Hx' as <-.
  destruct (placed_phis vars g root placed t b Hready (rs_phi _ _ _ _ _ _ _ _ _ Hres) Hb) as (Hrdy & Hflt & Hpl).
  set (ps := phi_nodes b ++ omap (λ id, phi_of g t id <$> vars !! id) (placed t)) in *.
  pose proof (rs_inv _ _ _ _ _ _ _ _ _ Hres) as Hi.
  assert (Hver : phis_versioned vars (vend gh n) n b').
  { pose proof (proj2 (placed_edge vars g root gp g' placed sh done gh Hready Hres n t) He) as Hep.
    apply list_elem_of_fmap in Hep as ([e y] & Hy & Hep). cbn in Hy. subst y.
    destruct (rs_complete _ _ _ _ _ _ _ _ _ Hres n Hn e t Hep) as [Hve _].
    by apply (wi_edge _ _ _ _ _ _ _ Hi e n t b'). }
  assert (Hera : erase_phi vars <$> phi_nodes b' = erase_phi vars <$> ps) by by injection Hsh.
  destruct (phi_moves_sim mg vars g root n t (vend gh n) (live_at live t) env env' w ps (phi_nodes b')
              (vpre gh t) mid) as (ms & ms' & Hms & Hms' & Hfold); [done|done|done|done| |].
  { intros q id Hq Hk. rewrite Forall_forall in Hrdy. specialize (Hrdy q Hq).
    assert (Hphi : phi_block g root id t) by by apply (pr_needed _ _ _ _ _ Hrdy).
    apply Hag.
    - eapply (keyed_some vars (phi_out q)). rewrite <-(pr_out _ _ _ _ _ Hrdy). exact Hk.
    - apply (live_successor n t); [done|done|by apply (exposed_phi g root)]. }
  unfold enter. rewrite <-Hflt, Hms, Hms'. cbn [fmap option_fmap option_map].
  destruct (Hfold env env' w) as (e2' & w2 & -> & -> & Hag2).
  { intros id Hid Hl Hnp.
    assert (Hx : exposed g id t) by (apply Hlive; [by eapply done_reach|done]).
    assert (Hni : id ∉ placed t) by (intros Hin'; destruct (Hpl id Hin') as (q & Hq & Hk); by apply (Hnp q)).
    rewrite (version_at_entry vars g root gp g' placed sh done gh Hready Hres n t) by done.
    apply Hag; [done|]. by eapply live_successor. }
  cbn. split_and!; [done|done|done|]. exists b, b', mid. split_and!; [done|done| |done|done].
  eapply phis_rel_versions; [|exact Hph]. by apply (wi_versions _ _ _ _ _ _ _ Hi).
Qed.

Lemma edges_same n : edges g' n = edges g n.
Proof using Hres.
  pose proof (rs_inv _ _ _ _ _ _ _ _ _ Hres) as Hi. rewrite (wi_edges _ _ _ _ _ _ _ Hi).
  apply (pl_edges _ _ _ _ (rs_placed _ _ _ _ _ _ _ _ _ Hres)).
Qed.

Lemma cf_cond_versioned m c :
  cf_cond (version_control_flow vars m (erase_cf vars c)) = (λ v, version_read vars m (erase vars v)) <$> cf_cond c.
Proof. by destruct c. Qed.

Lemma step_sim s s' :
  related s s' →
  related (step mg vars (keyed vars) (mutable_phis vars) g s) (step mg vars (def_of vars) phi_nodes g' s').
Proof using All.
  destruct s as [|w|n env w], s' as [|w'|n' env' w']; try done.
  intros (<- & <- & Hn & b & b' & mid & Hb & Hb' & Hmid & Hag & Hrel). unfold step. rewrite Hb, Hb'.
  destruct (block_versions vars g root gp g' placed sh done gh Hready Hres n Hn)
    as (x & x' & Hx & Hx' & Hbp & Hsh & (mid2 & _ & _ & Hcf)).
  rewrite Hb in Hx. injection Hx as <-. rewrite Hb' in Hx'. injection Hx' as <-.
  assert (Hera : erase_inst vars <$> sv_values (ops b') = erase_inst vars <$> sv_values (ops b)) by by injection Hsh.
  assert (Hecf : erase_cf vars (control_flow b') = erase_cf vars (control_flow b)) by by injection Hsh.
  assert (Hcode : code g n = sv_values (ops b)) by (unfold code; by rewrite Hb).
  assert (Hup : upward (sv_values (ops b)) ⊆ live_at live n).
  { rewrite <-Hcode. intros id Hid. apply Hlive; [by eapply done_reach|]. by apply exposed_gen. }
  assert (Hplain : Forall (inst_plain vars) (sv_values (ops b))) by (rewrite <-Hcode; by apply code_plain).
  pose proof (exec_insts_sim mg vars (live_at live n) env env' mid (vend gh n) w _ _ Hplain Hmid Hrel Hera Hag Hup) as Hsim.
  destruct (exec_insts mg vars (keyed vars) (sv_values (ops b)) env w) as [[env1 w1]|];
    destruct (exec_insts mg vars (def_of vars) (sv_values (ops b')) env' w) as [[env1' w1']|]; try done.
  destruct Hsim as [<- Hag1]. rewrite <-Hcode in Hag1.
  pose proof (rs_inv _ _ _ _ _ _ _ _ _ Hres) as Hi.
  assert (Hvend : has_versions vars (vend gh n)) by by apply (wi_versions _ _ _ _ _ _ _ Hi).
  assert (Hcond : value mg (def_of vars) env1' w1 <$> cf_cond (control_flow b') =
                  value mg (keyed vars) env1 w1 <$> cf_cond (control_flow b)).
  { rewrite Hcf. cbn [set_phis control_flow]. rewrite cf_cond_versioned.
    destruct (cf_cond (control_flow b)) as [c|] eqn:Hc; [|done]. cbn. f_equal.
    rewrite version_read_erase by done. apply (value_read mg vars (live_at live n ∪ written (code g n))); [done|done|].
    intros id Hk. pose proof (sr_cond _ _ _ Hready n b c id Hb Hc Hk) as Hin.
    apply elem_of_union in Hin as [Hin|Hin]; apply elem_of_union; [left|by right].
    apply Hup. by rewrite <-Hcode. }
  rewrite Hecf, Hcond, edges_same.
  destruct (m_next mg _ _ _) as [t|]; [|done].
  assert (Hed : edge g' n t ↔ edge g n t) by (unfold edge; by rewrite edges_same).
  destruct (decide (edge g n t)) as [He|Hne]; [rewrite decide_True by by apply Hed|by rewrite decide_False by by rewrite Hed].
  assert (Ht : t ∈ done) by by eapply done_step.
  destruct (block_versions vars g root gp g' placed sh done gh Hready Hres t Ht) as (bt & bt' & Hbt & Hbt' & _).
  rewrite Hbt, Hbt'. cbn [mbind option_bind].
  pose proof (enter_sim n t bt bt' env1 env1' w1 Hn He Hbt Hbt' Hag1) as Hent.
  destruct (enter mg (keyed vars) n env1 w1 (mutable_phis vars bt)) as [[e w2]|];
    destruct (enter mg (def_of vars) n env1' w1 (phi_nodes bt')) as [[e' w2']|]; try done.
Qed.

Lemma run_sim k s s' :
  related s s' → related (run_mutable mg vars k g s) (run_ssa mg vars k g' s').
Proof using All.
  intros Hr. induction k as [|k IH]; [done|]. cbn. by apply step_sim.
Qed.

Lemma related_start env w :
  related (Running root env w) (Running root (λ x, env x.1) w).
Proof using All.
  pose proof (rs_root _ _ _ _ _ _ _ _ _ Hres) as Hr. pose proof (rs_inv _ _ _ _ _ _ _ _ _ Hres) as Hi.
  destruct (block_versions vars g root gp g' placed sh done gh Hready Hres root Hr)
    as (b & b' & Hb & Hb' & _ & _ & (mid & Hph & Hin & _)).
  cbn. split_and!; [done..|]. exists b, b', mid. split_and!; [done|done| |by intros|done].
  eapply phis_rel_versions; [|exact Hph]. by apply (wi_versions _ _ _ _ _ _ _ Hi).
Qed.
End blocks.

(** ** The transform *)

Section transform.
  Context {V G : Type} `{SV : StableVec V} `{!StableVecSpec V} `{SG : StableDiGraph V G}
    `{!StableDiGraphSpec V G} `{HO : HashOrder} `{HOS : !HashOrderSpec}.

(** A bound for the versions of a variable: every block once for the entry and
    once for every edge into it, with a phi node for every variable. *)
Definition ssa_budget (vars : gmap Id Item) (g : G) (root : NodeIndex) : N :=
  foldr (λ e acc, size_of g e.2 + N.of_nat (size vars) + acc)
    (size_of g root + N.of_nat (size vars)) (all_edges g).

Lemma size_placed vars (g gp : G) placed n :
  placed_in vars g gp placed → (length (placed n) ≤ size vars)%nat → n ∈ node_indices g →
  size_of gp n ≤ size_of g n + N.of_nat (size vars).
Proof.
  intros Hp Hl Hn. apply node_weight_node in Hn as [b Hb].
  unfold size_of. rewrite (pl_weight _ _ _ _ Hp), Hb. cbn. unfold block_size. cbn.
  rewrite length_app.
  assert (Hle : (length (omap (λ id, phi_of g n id <$> vars !! id) (placed n)) ≤ length (placed n))%nat).
  { induction (placed n) as [|x l IH]; [done|]. cbn. destruct (vars !! x); cbn; cbn in Hl; specialize (IH ltac:(lia)); lia. }
  lia.
Qed.

Lemma budget_placed vars (g gp : G) root placed :
  placed_in vars g gp placed → (∀ n, (length (placed n) ≤ size vars)%nat) → root ∈ node_indices g →
  budget gp root ≤ ssa_budget vars g root.
Proof.
  intros Hp Hl Hr. unfold budget, ssa_budget, remaining.
  assert (Hall : all_edges gp = all_edges g).
  { unfold all_edges. rewrite (pl_indices _ _ _ _ Hp). apply list_bind_ext; [|done].
    intros n. apply (pl_edges _ _ _ _ Hp). }
  rewrite Hall. clear Hall.
  assert (Hin : ∀ e, e ∈ all_edges g → e.2 ∈ node_indices g).
  { intros [e t] (n & Hn & _)%list_elem_of_bind. by destruct (edge_nodes g n e t Hn). }
  pose proof (size_placed vars g gp placed root Hp (Hl root) Hr) as Hroot.
  revert Hin. induction (all_edges g) as [|e l IH]; intros Hin; [cbn; lia|].
  rewrite remaining_cons. cbn [foldr]. rewrite decide_False by set_solver.
  specialize (IH (λ x Hx, Hin x ltac:(by constructor))).
  pose proof (size_placed vars g gp placed e.2 Hp (Hl _) (Hin e ltac:(constructor))). lia.
Qed.

Lemma ssa_transform_result lfuel fuel (opt : Optimizer V G) :
  let vars := variables (program opt) in
  let g := opt_graph opt in
  let root := entry opt in
  cache_fresh opt → algorithms_ok g root → joins_reached g root → ssa_ready vars g root →
  (live_fuel opt ≤ lfuel)%nat → (length (node_ids opt) ≤ fuel)%nat → ssa_budget vars g root ≤ u16_max →
  ∃ opt' gp placed sh done gh,
    ssa_transform lfuel fuel opt = Ret (tt, opt') ∧ entry opt' = entry opt ∧
    variables (program opt') = ∅ ∧ ssa_result vars g root gp (opt_graph opt') placed sh done gh.
Proof.
  intros vars g root Hc Ha Hj Hr Hlf Hf Hb.
  destruct (place_phi_nodes_ok lfuel fuel opt Hc Ha (sr_root _ _ _ Hr) (ready_readable _ _ _ Hr) Hj Hlf Hf)
    as (gp & c & placed & Hpl & Hin & Hlen & Hphi).
  unfold ssa_transform, bind. rewrite Hpl. unfold version_program, bind, get_state, lift, modify_state.
  change (entry (set_graph gp (set_cache c opt))) with root.
  change (variables (program (set_graph gp (set_cache c opt)))) with vars.
  change (opt_graph (set_graph gp (set_cache c opt))) with gp.
  change ((λ _ : Item, 0) <$> vars) with (zero_versions vars).
  change {| visited_blocks := ∅; visited_edges := ∅; max_versions := zero_versions vars |} with (start vars).
  fold g in Hin, Hphi. fold root in Hphi. fold vars in Hin, Hlen, Hphi.
  assert (Hedge : ∀ a b, edge gp a b ↔ edge g a b) by (intros; unfold edge; by rewrite (pl_edges _ _ _ _ Hin)).
  assert (Hwt : ∀ n b, node_weight gp n = Some b → ∃ b0, node_weight g n = Some b0 ∧
            b = set_phis b0 (phi_nodes b0 ++ omap (λ id, phi_of g n id <$> vars !! id) (placed n))).
  { intros n b Hw. rewrite (pl_weight _ _ _ _ Hin) in Hw. destruct (node_weight g n) as [b0|]; [|done].
    injection Hw as <-. by exists b0. }
  assert (Hents : ∀ n b p, node_weight gp n = Some b → edge gp p n →
            Forall (λ phi, is_Some (entry_of p phi)) (phi_nodes b)).
  { intros n b p (b0 & Hb0 & ->)%Hwt He. apply Hedge in He. cbn [phi_nodes set_phis].
    destruct (placed_phis vars g root placed n b0 Hr Hphi Hb0) as (Hall & _).
    eapply Forall_impl; [exact Hall|]. intros q Hq. by apply (pr_entries _ _ _ _ _ Hq). }
  assert (Hself : ∀ n, ¬ edge gp n n) by (intros n He%Hedge; by apply (sr_loop _ _ _ Hr) in He).
  destruct (version_walk_ok vars gp root Hents Hself fuel) as (g' & sh & done & gh & Hwalk & Hinv & Hrd & Hcomp).
  - intros n b (b0 & Hb0 & ->)%Hwt. unfold block_ok. cbn. apply Forall_forall. intros i Hi.
    apply (sr_inst _ _ _ Hr n). unfold code. fold g. by rewrite Hb0.
  - rewrite (pl_indices _ _ _ _ Hin). by apply (sr_root _ _ _ Hr).
  - etransitivity; [|exact Hb]. eapply budget_placed; [done|by apply Hlen|by apply (sr_root _ _ _ Hr)].
  - rewrite (pl_indices _ _ _ _ Hin). exact Hf.
  - rewrite Hwalk. eexists _, gp, placed, sh, done, gh. split; [reflexivity|]. split; [done|]. split; [done|].
    by split.
Qed.

(** *** The form of the result *)

Lemma phis_rel_out vars m es ps m' q id :
  phis_rel vars m es ps m' → (∀ p, p ∈ es → phi_key vars (phi_out p) = keyed vars (phi_out p)) →
  q ∈ ps → keyed vars (phi_out q) = Some id → ∃ v, def_of vars (phi_out q) = Some (id, v).
Proof.
  revert m ps. induction es as [|e es IH]; intros m [|p ps] Hr He Hq Hk; try done; [by apply not_elem_of_nil in Hq|].
  destruct Hr as (m1 & Hr1 & Hr2). apply elem_of_cons in Hq as [->|Hq].
  2:{ eapply IH; [done| |done|done]. intros x Hx. apply He. by constructor. }
  unfold phi_rel in Hr1. specialize (He e ltac:(constructor)).
  destruct (phi_key vars (phi_out e)) as [i|] eqn:Hi.
  - destruct Hr1 as (v & Hout & _). rewrite Hout in Hk |- *.
    assert (Hs : is_Some (vars !! i)) by (eapply keyed_some; by rewrite <-He).
    rewrite def_of_versioned by done. rewrite keyed_versioned in Hk. destruct Hs as [x Hs]. rewrite Hs in Hk.
    injection Hk as ->. by exists v.
  - destruct Hr1 as [Hout _]. rewrite Hout, <-He in Hk. done.
Qed.

Lemma insts_rel_out vars m es is' m' i' o id :
  insts_rel vars m es is' m' → i' ∈ is' → inst_out i' = Some o → keyed vars o = Some id →
  ∃ v, def_of vars o = Some (id, v).
Proof.
  revert m is'. induction es as [|e es IH]; intros m [|i is'] Hr Hin Ho Hk; try done; [by apply not_elem_of_nil in Hin|].
  destruct Hr as (m1 & [_ Hr1] & Hr2). apply elem_of_cons in Hin as [->|Hin]; [|by eapply IH].
  unfold out_rel in Hr1. destruct (inst_out e) as [oe|]; [|by destruct Hr1 as [Hr1 _]; congruence].
  destruct (keyed vars oe) as [x|] eqn:Hx.
  - destruct Hr1 as (v & Hout & _). rewrite Ho in Hout. injection Hout as ->.
    assert (Hs : is_Some (vars !! x)) by by eapply keyed_some.
    rewrite def_of_versioned by done. rewrite keyed_versioned in Hk. destruct Hs as [y Hs]. rewrite Hs in Hk.
    injection Hk as ->. by exists v.
  - destruct Hr1 as [Hout _]. congruence.
Qed.

(** The versions a block of the graph assigns. *)
Definition assigned (vars : gmap Id Item) (g : G) (n : NodeIndex) : list (Id * N) :=
  match node_weight g n with Some b => block_defs vars b | None => [] end.

(** [v] is no variable of the transform, or a version after the initial one. *)
Definition is_version (vars : gmap Id Item) (v : Variable_) : Prop :=
  ∀ id, keyed vars v = Some id → ∃ n, 1 ≤ n ∧ def_of vars v = Some (id, n).

(** C13. After the transform the reachable blocks assign every version of a variable
    at most once, and assign nothing but versions: the program is in SSA form. *)
Theorem ssa_single_assignment lfuel fuel (opt : Optimizer V G) :
  let vars := variables (program opt) in
  cache_fresh opt → algorithms_ok (opt_graph opt) (entry opt) → joins_reached (opt_graph opt) (entry opt) →
  ssa_ready vars (opt_graph opt) (entry opt) →
  (live_fuel opt ≤ lfuel)%nat → (length (node_ids opt) ≤ fuel)%nat →
  ssa_budget vars (opt_graph opt) (entry opt) ≤ u16_max →
  ∃ opt', ssa_transform lfuel fuel opt = Ret (tt, opt') ∧
    NoDup (post_order_init opt ≫= assigned vars (opt_graph opt')) ∧
    ∀ n b, n ∈ post_order_init opt → node_weight (opt_graph opt') n = Some b →
      (∀ q, q ∈ phi_nodes b → is_version vars (phi_out q)) ∧
      ∀ i o, i ∈ sv_values (ops b) → inst_out i = Some o → is_version vars o.
Proof.
  intros vars Hc Ha Hj Hr Hlf Hf Hb.
  destruct (ssa_transform_result lfuel fuel opt) as (opt' & gp & placed & sh & dn & gh & Heq & _ & _ & Hres); [done..|].
  pose proof (rs_inv _ _ _ _ _ _ _ _ _ Hres) as Hi.
  assert (Hdn : ∀ n, n ∈ post_order_init opt → n ∈ dn).
  { intros n Hn%(post_order_reach _ _ Ha).
    apply (reached_done gp (entry opt) sh dn n (rs_root _ _ _ _ _ _ _ _ _ Hres) (rs_complete _ _ _ _ _ _ _ _ _ Hres)).
    destruct Hn as [l Hl]. exists l. eapply walk_mono; [|exact Hl]. intros x y Hxy.
    by apply (placed_edge vars (opt_graph opt) (entry opt) gp (opt_graph opt') placed sh dn gh Hr Hres). }
  exists opt'. split; [done|]. split.
  - apply NoDup_bind.
    + intros n n' [id v] Hn Hn' Hx Hx'. destruct (decide (n = n')) as [|Hne]; [done|exfalso].
      unfold assigned in Hx, Hx'. destruct (node_weight (opt_graph opt') n) as [b|] eqn:Hw; [|set_solver].
      destruct (node_weight (opt_graph opt') n') as [b'|] eqn:Hw'; [|set_solver].
      eapply (wi_disjoint _ _ _ _ _ _ _ Hi n n'); [by apply Hdn|by apply Hdn|done..].
    + intros n Hn. unfold assigned. destruct (node_weight (opt_graph opt') n) as [b|] eqn:Hw; [|constructor].
      by apply (wi_bound _ _ _ _ _ _ _ Hi n b (Hdn n Hn) Hw).
    + by apply post_order_nodup.
  - intros n b' Hn Hw. pose proof (Hdn n Hn) as Hd.
    destruct (wi_bound _ _ _ _ _ _ _ Hi n b' Hd Hw) as [_ Hge].
    destruct (block_versions vars (opt_graph opt) (entry opt) gp (opt_graph opt') placed sh dn gh Hr Hres n Hd)
      as (b & x & Hbw & Hx & _ & _ & (mid & Hph & Hin & _)).
    rewrite Hw in Hx. injection Hx as <-.
    destruct (placed_phis vars (opt_graph opt) (entry opt) placed n b Hr (rs_phi _ _ _ _ _ _ _ _ _ Hres) Hbw) as (Hall & _).
    split.
    + intros q Hq id Hk. destruct (phis_rel_out _ _ _ _ _ q id Hph) as [v Hv]; [|done|done|].
      { intros p (p0 & -> & Hp0)%list_elem_of_fmap. cbn [phi_out erase_phi].
        rewrite Forall_forall in Hall. rewrite phi_key_erase, keyed_erase_phi. by apply (pr_out _ _ _ _ _ (Hall p0 Hp0)). }
      exists v. split; [|done]. eapply (Hge id v). apply elem_of_app. left.
      apply list_elem_of_bind. exists q. split; [|done]. unfold phi_defs. fold vars. rewrite Hv. constructor.
    + intros i o Hio Ho id Hk. destruct (insts_rel_out _ _ _ _ _ i o id Hin Hio Ho Hk) as [v Hv].
      exists v. split; [|done]. eapply (Hge id v). apply elem_of_app. right.
      apply list_elem_of_bind. exists i. split; [|done]. unfold inst_defs. rewrite Ho. cbn. fold vars. rewrite Hv. constructor.
Qed.

End transform.
