(* ===== verification/SsaDemo.v ===== *)
(** * A loop in SSA form

    The transform of a small loop, at which the theorems about the control-flow
    graph are applied, and two programs that the transform does not handle. *)

From stdpp Require Import gmap sets.
From S2P Require Import Prelude Ir Visit Cfg Dominance ListGraph LivenessProps PhiPlacement VersionProps SsaCoherence SsaSem.

Open Scope N_scope.
Open Scope rust_scope.

#[export] Instance sorted_order : HashOrder := {
  key_order m := (map_to_list m).*1;
  set_order s := elements s;
}.
#[export] Instance sorted_order_spec : HashOrderSpec.
Proof. by split. Qed.

Abbreviation DemoGraph := (ListGraph Slots).
Abbreviation DemoOptimizer := (Optimizer Slots DemoGraph).

(** ** A counting loop

    [x] counts from 0 to 10 and is copied to an output: the entry block, the
    header, the body and the block after the loop. *)

Definition u32_item : Item := Item_new (EUInt U32).
Definition num (n : Z) : Variable_ := Variable_constant (CUInt n U32).
Definition cell (id : N) : Variable_ := Variable_new (LocalMut id) u32_item.
Definition tmp_cond : Variable_ := Variable_new (LocalConst 8) (Item_new EBool).
Definition result_cell : Variable_ := Variable_new (GlobalOutputArray 0) u32_item.

Definition block (l : list Instruction) (cf : ControlFlow) : BasicBlock Slots :=
  {| block_use := []; phi_nodes := []; ops := Some <$> l; control_flow := cf |}.

Definition loop_graph : DemoGraph := {|
  lg_blocks := Some <$> [
    block [Instruction_new (Copy (num 0)) (cell 7)] CfNone;
    block [Instruction_new (OComparison (Lower {| lhs := cell 7; rhs := num 10 |})) tmp_cond]
          (CfLoopBreak tmp_cond 2 2 3);
    block [Instruction_new (OArithmetic (Add {| lhs := cell 7; rhs := num 1 |})) (cell 7)] CfNone;
    block [Instruction_new (Copy (cell 7)) result_cell] CfReturn];
  lg_edges := Some <$> [(0, 1); (1, 2); (1, 3); (2, 1)];
|}.

Definition with_graph (vars : gmap Id Item) (g : DemoGraph) (root last : N) : DemoOptimizer := {|
  program := {| const_arrays := []; variables := vars; graph := g; program_root := root |};
  analysis_cache := empty_cache;
  opt_ret := last;
|}.
Definition loop_vars : gmap Id Item := {[7 := u32_item]}.
Definition loop_opt : DemoOptimizer := with_graph loop_vars loop_graph 0 3.

(** *** The graph of the loop *)

Ltac decided := apply (bool_decide_unpack _); vm_compute; exact I.

Lemma loop_edge a b : edge loop_graph a b → (a, b) ∈ [(0, 1); (1, 2); (1, 3); (2, 1)].
Proof.
  intros ([e b'] & -> & (p & [= <-] & Hp)%lg_out_elem%lg_edge_in%list_elem_of_fmap)%list_elem_of_fmap.
  exact Hp.
Qed.

Lemma loop_reached n : n ∈ [0; 1; 2; 3] → reach (edge loop_graph) 0 n.
Proof.
  assert (H1 : reach (edge loop_graph) 0 1) by (eapply reach_step; [apply reach_refl|decided]).
  intros Hn. repeat (apply elem_of_cons in Hn as [->|Hn]); [apply reach_refl|done|..|by apply not_elem_of_nil in Hn];
    (eapply reach_step; [exact H1|decided]).
Qed.

Lemma loop_nodes n : reach (edge loop_graph) 0 n → n ∈ [0; 1; 2; 3].
Proof.
  intros Hr. change (n ∈ node_indices loop_graph). eapply reach_node; [|exact Hr].
  decided.
Qed.

Lemma loop_dominates_1 n : n ≠ 0 → dominates (edge loop_graph) 0 1 n.
Proof.
  intros Hn. apply (dominates_by_set _ _ {[0]}); [right; set_solver| |set_solver].
  intros a b ->%elem_of_singleton He%loop_edge. left.
  repeat (apply elem_of_cons in He as [Heq|He]; [congruence|]). by apply not_elem_of_nil in He.
Qed.

(** A strict dominator is on the walk [l], before its end. *)
Lemma loop_immediate d n l :
  strictly_dominates (edge loop_graph) 0 d n → walk (edge loop_graph) 0 l n →
  (∀ x, x ∈ 0 :: l → x ≠ n → dominates (edge loop_graph) 0 x d) → immediate (edge loop_graph) 0 d n.
Proof. intros Hd Hl Hx. split; [done|]. intros d' [Hne Hd']. apply Hx; [by apply Hd'|done]. Qed.

Lemma loop_idom n d : immediate_dominator (simple_fast loop_graph 0) n = Some d → immediate (edge loop_graph) 0 d n.
Proof.
  assert (H1 : edge loop_graph 0 1) by decided.
  intros Hd. assert (Hn : n ∈ lg_order loop_graph 0).
  { apply List.find_some in Hd as [_ [[_ [H%bool_decide_eq_true _]%andb_prop]%andb_prop _]%andb_prop]. exact H. }
  replace (lg_order loop_graph 0) with [2; 3; 1; 0] in Hn by by vm_compute.
  repeat (apply elem_of_cons in Hn as [->|Hn]); [..|by apply not_elem_of_nil in Hn]; vm_compute in Hd;
    try discriminate; injection Hd as <-.
  - apply (loop_immediate 1 2 [1; 2]).
    + split; [done|]. by apply loop_dominates_1.
    + eapply walk_cons; [exact H1|]. eapply walk_cons; [decided|apply walk_nil].
    + intros x Hx Hne. repeat (apply elem_of_cons in Hx as [->|Hx]); [apply dominates_root|apply dominates_refl|done|].
      by apply not_elem_of_nil in Hx.
  - apply (loop_immediate 1 3 [1; 3]).
    + split; [done|]. by apply loop_dominates_1.
    + eapply walk_cons; [exact H1|]. eapply walk_cons; [decided|apply walk_nil].
    + intros x Hx Hne. repeat (apply elem_of_cons in Hx as [->|Hx]); [apply dominates_root|apply dominates_refl|done|].
      by apply not_elem_of_nil in Hx.
  - apply (loop_immediate 0 1 [1]).
    + split; [done|]. apply dominates_root.
    + eapply walk_cons; [exact H1|apply walk_nil].
    + intros x Hx Hne. repeat (apply elem_of_cons in Hx as [->|Hx]); [apply dominates_refl|done|].
      by apply not_elem_of_nil in Hx.
Qed.

Lemma loop_algorithms : algorithms_ok loop_graph 0.
Proof.
  assert (Ho : dfs_post_order loop_graph 0 = [2; 3; 1; 0]) by by vm_compute.
  split.
  - intros n. rewrite Ho. split; intros H.
    + apply loop_reached. set_solver.
    + apply loop_nodes in H. set_solver.
  - rewrite Ho. decided.
  - apply loop_idom.
  - intros n Hn%loop_nodes Hne.
    repeat (apply elem_of_cons in Hn as [->|Hn]); [done|..|by apply not_elem_of_nil in Hn]; vm_compute; by eexists.
Qed.

Lemma loop_joins : joins_reached loop_graph 0.
Proof.
  intros n Hn Hl. change (n ∈ [0; 1; 2; 3]) in Hn.
  repeat (apply elem_of_cons in Hn as [->|Hn]); [..|by apply not_elem_of_nil in Hn]; vm_compute in Hl; try lia.
  split; [done|]. intros p Hp. apply loop_reached. revert Hp.
  replace (sources loop_graph 1) with [0; 2] by by vm_compute. set_solver.
Qed.

Lemma loop_ready : ssa_ready loop_vars loop_graph 0.
Proof.
  assert (Hw : ∀ n b, node_weight loop_graph n = Some b → n ∈ [0; 1; 2; 3]).
  { intros n b Hb. change (n ∈ node_indices loop_graph). apply node_weight_node. by exists b. }
  assert (Hc : ∀ n i, i ∈ code loop_graph n → i ∈ [0; 1; 2; 3] ≫= code loop_graph).
  { intros n i Hi. apply list_elem_of_bind. exists n. split; [done|]. unfold code in Hi.
    destruct (node_weight loop_graph n) as [b|] eqn:Hb; [by eapply Hw|by apply not_elem_of_nil in Hi]. }
  assert (Hl : ∀ P : Instruction → Prop, Forall P ([0; 1; 2; 3] ≫= code loop_graph) → ∀ n i, i ∈ code loop_graph n → P i).
  { intros P HP n i Hi. rewrite Forall_forall in HP. by apply HP, (Hc n). }
  split.
  - apply Hl. vm_compute. repeat constructor; done.
  - intros n i v Hi. revert v. apply (Hl (λ i, ∀ v, v ∈ op_reads (operation i) (inst_out i) → plain loop_vars v)) with n; [|done].
    cbn. repeat constructor; intros v Hv; set_unfold in Hv; destruct_or? Hv; subst; try done; intros id; vm_compute; congruence.
  - intros n i v Hi. revert v. apply (Hl (λ i, ∀ v, inst_out i = Some v → plain loop_vars v)) with n; [|done].
    cbn. repeat constructor; intros v [= <-] id; vm_compute; congruence.
  - intros n b p Hb Hp. pose proof (Hw n b Hb) as Hn.
    repeat (apply elem_of_cons in Hn as [->|Hn]); [..|by apply not_elem_of_nil in Hn];
      vm_compute in Hb; injection Hb as <-; by apply not_elem_of_nil in Hp.
  - intros n b c id Hb Hcond Hk. pose proof (Hw n b Hb) as Hn.
    repeat (apply elem_of_cons in Hn as [->|Hn]); [..|by apply not_elem_of_nil in Hn];
      vm_compute in Hb; injection Hb as <-; try discriminate. by injection Hcond as <-.
  - intros p He%loop_edge. set_solver.
  - intros n He%loop_edge. set_solver.
  - decided.
Qed.

Lemma loop_fresh : cache_fresh loop_opt.
Proof. by split. Qed.

(** *** Running the loop *)

Definition world := list (Variable_ * N).
Definition arith (op : Operation) (vals : list N) : option N :=
  match op, vals with
  | Copy _, [a] => Some a
  | OComparison (Lower _), [a; b] => Some (if a <? b then 1 else 0)
  | OArithmetic (Add _), [a; b] => Some (a + b)
  | _, _ => None
  end.
Definition world_read (w : world) (v : Variable_) : N :=
  match var_kind v with
  | ConstantScalar (CUInt n _) => Z.to_N n
  | _ => default 0 (snd <$> List.find (λ e, bool_decide (e.1 = v)) w)
  end.
Definition world_write (w : world) (v : Variable_) (n : N) : world :=
  (v, n) :: filter (λ e, e.1 ≠ v) w.
Definition demo_meaning : Meaning N world := {|
  m_op op out vals w :=
    (λ x, (x, match out with Some o => world_write w o x | None => w end)) <$> arith op vals;
  m_read := world_read;
  m_write := world_write;
  m_next cf succs c :=
    match cf with
    | CfLoopBreak _ body _ merge => Some (if decide (c = Some 1) then body else merge)
    | CfReturn => None
    | _ => head succs
    end;
|}.

Definition loop_result : M (DemoOptimizer) unit :=
  ssa_transform (live_fuel loop_opt) (length (node_ids loop_opt)).
Definition transformed : DemoGraph :=
  match loop_result loop_opt with Ret (_, opt) => opt_graph opt | _ => loop_graph end.

(** The header gets a phi node for [x], with the versions of both edges. *)
Example loop_phi :
  (phi_nodes <$> node_weight transformed 1) =
  Some [{| phi_out := versioned 7 2 u32_item;
           phi_entries := [{| pe_block := 0; pe_value := versioned 7 1 u32_item |};
                           {| pe_block := 2; pe_value := versioned 7 3 u32_item |}] |}].
Proof. by vm_compute. Qed.

Example loop_counts :
  (λ s, (s.1, world_read s.2 result_cell)) <$>
    observe (run_ssa demo_meaning loop_vars 40 transformed (Running 0 (λ _, 0) [])) = Some (None, 10).
Proof. by vm_compute. Qed.

(** *** The theorems at the loop *)


Lemma phi_nodes_placed_witness :
  ∃ opt', place_phi_nodes (live_fuel loop_opt) 4 loop_opt = Ret (tt, opt') ∧
    variables (program opt') = loop_vars ∧ entry opt' = 0 ∧ node_ids opt' = node_ids loop_opt ∧
    (∀ n, edges (opt_graph opt') n = edges loop_graph n) ∧
    ∀ n b, node_weight loop_graph n = Some b →
    ∃ ids, NoDup ids ∧ (∀ id, id ∈ ids ↔ is_Some (loop_vars !! id) ∧ phi_block loop_graph 0 id n) ∧
      node_weight (opt_graph opt') n =
        Some (set_phis b (phi_nodes b ++ omap (λ id, phi_of loop_graph n id <$> loop_vars !! id) ids)).
Proof.
  apply (phi_nodes_placed (live_fuel loop_opt) 4 loop_opt);
    [apply loop_fresh|apply loop_algorithms|decided|by eapply ready_readable, loop_ready|apply loop_joins|
     apply Nat.le_refl|apply Nat.leb_le; by vm_compute].
Defined.

Lemma ssa_single_assignment_witness :
  ∃ opt', ssa_transform (live_fuel loop_opt) 4 loop_opt = Ret (tt, opt') ∧
    NoDup (post_order_init loop_opt ≫= assigned loop_vars (opt_graph opt')) ∧
    ∀ n b, n ∈ post_order_init loop_opt → node_weight (opt_graph opt') n = Some b →
      (∀ q, q ∈ phi_nodes b → is_version loop_vars (phi_out q)) ∧
      ∀ i o, i ∈ sv_values (ops b) → inst_out i = Some o → is_version loop_vars o.
Proof.
  apply (ssa_single_assignment (live_fuel loop_opt) 4 loop_opt);
    [apply loop_fresh|apply loop_algorithms|apply loop_joins|apply loop_ready|apply Nat.le_refl|
     apply Nat.leb_le; by vm_compute|apply N.leb_le; by vm_compute].
Defined.


(** ** Two limits of the transform *)

(** A flag that only a branch reads is not live in [liveness.rs], so the join
    has no phi node for it: the branch sees the flag of one path only. *)
Definition flag : Variable_ := Variable_new (LocalMut 9) (Item_new EBool).
Definition input_flag : Variable_ := Variable_new (GlobalScalar 0) (Item_new EBool).
Definition set_to (o : Variable_) (n : Z) : Instruction := Instruction_new (Copy (num n)) o.

Definition flag_graph : DemoGraph := {|
  lg_blocks := Some <$> [
    block [] (CfIfElse input_flag 1 2 (Some 3));
    block [set_to flag 0] CfNone;
    block [set_to flag 1] CfNone;
    block [] (CfIfElse flag 4 5 (Some 6));
    block [set_to result_cell 1] CfNone;
    block [set_to result_cell 0] CfNone;
    block [] CfReturn];
  lg_edges := Some <$> [(0, 1); (0, 2); (1, 3); (2, 3); (3, 4); (3, 5); (4, 6); (5, 6)];
|}.
Definition flag_vars : gmap Id Item := {[9 := Item_new EBool]}.
Definition branch_meaning : Meaning N world := {|
  m_op := m_op demo_meaning;
  m_read := m_read demo_meaning;
  m_write := m_write demo_meaning;
  m_next cf succs c :=
    match cf with
    | CfIfElse _ t e _ => Some (if decide (c = Some 1) then t else e)
    | CfReturn => None
    | _ => head succs
    end;
|}.
Definition flag_result : DemoGraph :=
  match ssa_transform 100 7 (with_graph flag_vars flag_graph 0 6) with
  | Ret (_, opt) => opt_graph opt | _ => flag_graph
  end.
Definition output {E : Type} (s : machine E world) : option N :=
  (λ r, world_read r.2 result_cell) <$> observe s.

Example flag_read_by_branch :
  (λ i, (output (run_mutable branch_meaning flag_vars 9 flag_graph (Running 0 (λ _, 0) [(input_flag, i)])),
         output (run_ssa branch_meaning flag_vars 9 flag_result (Running 0 (λ _, 0) [(input_flag, i)])))) <$> [0; 1] =
  [(Some 1, Some 0); (Some 0, Some 0)].
Proof. by vm_compute. Qed.

(** [DomFrontiers::new] unwraps the dominator of every predecessor of a join: a
    branch whose sides both return leaves a block that nothing reaches before
    the return block. *)
Definition return_graph : DemoGraph := {|
  lg_blocks := Some <$> [
    block [] (CfIfElse input_flag 2 3 (Some 1));
    block [] CfReturn;
    block [set_to result_cell 1] CfNone;
    block [set_to result_cell 0] CfNone;
    block [] CfNone];
  lg_edges := Some <$> [(0, 2); (0, 3); (2, 1); (3, 1); (4, 1)];
|}.

Definition panic_of {A : Type} (r : outcome A) : option string :=
  match r with Panic s => Some s | _ => None end.

Example unreachable_join_panics :
  panic_of (ssa_transform 100 5 (with_graph ∅ return_graph 0 1)) =
  Some "called `Option::unwrap()` on a `None` value".
Proof. by vm_compute. Qed.
