(* ===== verification/DeadCodeProps.v ===== *)
(** * Removing code that has no effect

    Proofs about the passes of [dead_code.rs] in [GraphPasses.v].  A program in
    SSA form is run by the machine of [SsaSem.v] with a register for every
    local variable; what a pass removes never changes what the machine does. *)

From stdpp Require Import gmap sets functions.
From S2P Require Import Prelude Ir Visit Cfg Dominance LivenessProps PhiPlacement VersionProps SsaCoherence SsaSem GraphPasses.

Open Scope N_scope.
Open Scope rust_scope.

(** ** Running programs in SSA form *)

(** Local variables are registers; everything else lives in the world. *)
Definition register (v : Variable_) : option Variable_ :=
  match var_kind v with LocalMut _ | LocalConst _ | Versioned _ _ => Some v | _ => None end.

Lemma register_some v k : register v = Some k → k = v.
Proof. unfold register. destruct (var_kind v); congruence. Qed.

(** Without variables there is nothing to erase. *)
Lemma erase_none v : erase ∅ v = v.
Proof. unfold erase. assert (keyed ∅ v = None) as -> by (unfold keyed; by destruct (var_kind v)). done. Qed.

Lemma rename_id g op out : (∀ v, g v = v) → readable op out = true → rename g op out = (op, out).
Proof.
  intros Hg Hr. assert (Hl : ∀ vs : list Variable_, g <$> vs = vs).
  { intros vs. rewrite <-(list_fmap_id vs) at 2. by apply list_fmap_ext. }
  destruct op; destruct_payload; try done.
  all: try (destruct out; [|done]).
  all: try (run_visit; rewrite ?Hl, ?Hg; reflexivity).
Qed.

Lemma erase_inst_none i : readable_inst i = true → erase_inst ∅ i = i.
Proof.
  intros Hr. unfold erase_inst. rewrite rename_id by (done || apply erase_none). destruct i as [[o|] op]; cbn; [|done].
  by rewrite erase_none.
Qed.
Lemma erase_cf_none c : erase_cf ∅ c = c.
Proof. destruct c; cbn; by rewrite ?erase_none. Qed.

Section machine.
  Context {V G : Type} `{SV : StableVec V} `{SG : StableDiGraph V G}.
  Context {Val World : Type} (mg : Meaning Val World).

Abbreviation Env := (Variable_ → Val).
Abbreviation State := (machine Env World).

Definition step_registers (g : G) : State → State := step mg ∅ register phi_nodes g.
Definition run_registers (k : nat) (g : G) : State → State := Nat.iter k (step_registers g).

Lemma run_stuck k g : run_registers k g Stuck = Stuck.
Proof. induction k as [|k IH]; [done|]. change (step_registers g (run_registers k g Stuck) = Stuck). by rewrite IH. Qed.

(** A relation that every step keeps, unless the first machine gets stuck. *)
Lemma run_refines (R : State → State → Prop) g g' k s s' :
  (∀ s s', R s s' → step_registers g s ≠ Stuck → R (step_registers g s) (step_registers g' s')) →
  R s s' → run_registers k g s ≠ Stuck → R (run_registers k g s) (run_registers k g' s').
Proof.
  intros Hs Hr. induction k as [|k IH]; [done|].
  change (step_registers g (run_registers k g s) ≠ Stuck →
          R (step_registers g (run_registers k g s)) (step_registers g' (run_registers k g' s'))).
  intros Hne. apply Hs; [|done]. apply IH. intros Heq. apply Hne. by rewrite Heq.
Qed.
End machine.

(** ** Graphs with the same content *)

Section graphs.
  Context {V G : Type} `{SV : StableVec V} `{SG : StableDiGraph V G}.

Record same_graph (g g' : G) : Prop := {
  sg_indices : node_indices g' = node_indices g;
  sg_weight n : node_weight g' n = node_weight g n;
  sg_edges n : edges g' n = edges g n;
}.
#[global] Instance same_graph_equiv : Equivalence same_graph.
Proof.
  split; [done|intros g g' [H1 H2 H3]; by split|intros g1 g2 g3 [H1 H2 H3] [H4 H5 H6]].
  split; intros; [by rewrite H4|by rewrite H5|by rewrite H6].
Qed.
#[global] Instance edge_proper : Proper (same_graph ==> eq ==> eq ==> iff) edge.
Proof. intros g g' Hg a ? <- b ? <-. unfold edge. by rewrite (sg_edges _ _ Hg). Qed.

Context {Val World : Type} (mg : Meaning Val World).
#[global] Instance step_proper : Proper (same_graph ==> eq ==> eq) (step_registers (SV := SV) (SG := SG) mg).
Proof.
  intros g g' Hg s ? <-. unfold step_registers, step. destruct s as [|w|n env w]; [done..|].
  rewrite (sg_weight _ _ Hg), (sg_edges _ _ Hg). destruct (node_weight g n) as [b|]; [|done].
  destruct (exec_insts _ _ _ _ _ _) as [[e w']|]; [|done]. destruct (m_next _ _ _ _) as [t|]; [|done].
  rewrite (sg_weight _ _ Hg). destruct (decide (edge g n t)) as [He|He].
  - by rewrite decide_True by by rewrite Hg in He.
  - by rewrite decide_False by by rewrite <-Hg.
Qed.
#[global] Instance run_proper k : Proper (same_graph ==> eq ==> eq) (run_registers (SV := SV) (SG := SG) mg k).
Proof.
  intros g g' Hg s ? <-. induction k as [|k IH]; [done|].
  change (step_registers mg g (run_registers mg k g s) = step_registers mg g' (run_registers mg k g' s)).
  by rewrite IH, Hg.
Qed.

Lemma same_set_weight `{!StableDiGraphSpec V G} g n b : node_weight g n = Some b → same_graph g (set_weight g n b).
Proof.
  intros Hb. split; intros; [apply set_weight_indices| |apply set_weight_edges].
  destruct (decide (n = n0)) as [<-|Hne]; [|by rewrite set_weight_other].
  rewrite set_weight_same; [done|]. apply node_weight_node. by exists b.
Qed.
End graphs.

(** ** What [visit_all] sees *)

Section visits.
  Context {V G : Type} `{SV : StableVec V} `{!StableVecSpec V} `{SG : StableDiGraph V G} `{!StableDiGraphSpec V G}.

Definition phi_reads (p : PhiInstruction) : list Variable_ := pe_value <$> phi_entries p.
Definition inst_used (i : Instruction) : list Variable_ := op_reads (operation i) (inst_out i).
Definition block_reads (b : BasicBlock V) : list Variable_ :=
  (phi_nodes b ≫= phi_reads) ++ (sv_values (ops b) ≫= inst_used) ++ option_list (cf_cond (control_flow b)).
Definition node_reads (g : G) (n : NodeIndex) : list Variable_ :=
  match node_weight g n with Some b => block_reads b | None => [] end.
Definition graph_reads (g : G) : list Variable_ := node_indices g ≫= node_reads g.

Section observe.
  Context {S : Type} (f : S → Variable_ → S).

Lemma visit_entries_observing es s :
  visit_entries (observing f) es s = Ret (es, foldl f s (pe_value <$> es)).
Proof.
  revert s. induction es as [|e es IH]; intros s; [done|].
  cbn. unfold bind, observing in *. rewrite IH. cbn. by destruct e.
Qed.

Lemma visit_phis_observing ps s :
  visit_phis (observing f) visit_noop ps s = Ret (ps, foldl f s (ps ≫= phi_reads)).
Proof.
  revert s. induction ps as [|p ps IH]; intros s; [done|].
  cbn [visit_phis]. unfold bind. rewrite visit_entries_observing. unfold visit_noop, ret at 1. rewrite IH.
  rewrite bind_cons, foldl_app. cbn. by destruct p.
Qed.

Lemma visit_insts_observing l s :
  Forall (λ i, readable_inst i = true) l →
  visit_insts (observing f) visit_noop l s = Ret (l, foldl f s (l ≫= inst_used)).
Proof.
  intros Hl. revert s. induction Hl as [|i l Hi Hl IH]; intros s; [done|].
  cbn [visit_insts]. unfold bind, visit_instruction, bind.
  assert (Ho : visit_out visit_noop (inst_out i) s = Ret (inst_out i, s)) by by destruct (inst_out i).
  rewrite Ho, visit_observing by done. unfold ret at 1. rewrite IH.
  rewrite bind_cons, foldl_app. cbn. by destruct i.
Qed.

Lemma visit_control_flow_observing c s :
  visit_control_flow (observing f) c s = Ret (c, foldl f s (option_list (cf_cond c))).
Proof. by destruct c. Qed.

Lemma visit_block_observing (b : BasicBlock V) s :
  Forall (λ i, readable_inst i = true) (sv_values (ops b)) →
  visit_block (observing f) visit_noop b s = Ret (b, foldl f s (block_reads b)).
Proof.
  intros Hb. unfold visit_block, bind. rewrite visit_phis_observing, visit_insts_observing by done.
  rewrite visit_control_flow_observing. unfold block_reads. rewrite !foldl_app.
  unfold ret. rewrite sv_store_values. by destruct b.
Qed.

Lemma visit_blocks_observing nodes (g0 g : G) s :
  same_graph g0 g → code_readable g0 → (∀ n, n ∈ nodes → n ∈ node_indices g0) →
  ∃ g', visit_blocks (observing f) visit_noop nodes g s = Ret (g', foldl f s (nodes ≫= node_reads g0)) ∧
    same_graph g0 g'.
Proof.
  intros Hg Hr. revert g s Hg. induction nodes as [|n nodes IH]; intros g s Hg Hn; [by exists g|].
  destruct (proj2 (node_weight_node g0 n) (Hn n ltac:(constructor))) as [b Hb].
  assert (Hb' : node_weight g n = Some b) by by rewrite (sg_weight _ _ Hg).
  cbn [visit_blocks]. unfold bind, lift, block_of. rewrite Hb'. cbn [expect].
  rewrite visit_block_observing by (specialize (Hr n); unfold code in Hr; by rewrite Hb in Hr).
  destruct (IH (set_weight g n b) (foldl f s (block_reads b))) as (g' & Heq & Hs).
  - etransitivity; [exact Hg|by apply same_set_weight].
  - intros m Hm. apply Hn. by constructor.
  - exists g'. split; [|done]. rewrite bind_cons, foldl_app. unfold node_reads at 1. rewrite Hb. exact Heq.
Qed.

Lemma visit_all_observing (opt : Optimizer V G) s :
  code_readable (opt_graph opt) →
  ∃ g', visit_all (observing f) visit_noop opt s = Ret (set_graph g' opt, foldl f s (graph_reads (opt_graph opt))) ∧
    same_graph (opt_graph opt) g'.
Proof.
  intros Hr. unfold visit_all, bind.
  destruct (visit_blocks_observing (node_ids opt) (opt_graph opt) (opt_graph opt) s) as (g' & Heq & Hs); [done..|].
  exists g'. unfold node_ids in *. by rewrite Heq.
Qed.
End observe.

Lemma use_variables (l s : list Variable_) v : v ∈ foldl (λ s v, if decide (v ∈ s) then s else v :: s) s l ↔ v ∈ s ∨ v ∈ l.
Proof.
  revert s. induction l as [|x l IH]; intros s; cbn; [set_solver|]. rewrite IH. destruct (decide (x ∈ s)); set_solver.
Qed.
End visits.

(** ** [EliminateUnusedVariables] *)

Section unused.
  Context {V G : Type} `{SV : StableVec V} `{!StableVecSpec V} `{SO : !StableVecOps V} `{!StableVecOpsSpec V}
    `{SG : StableDiGraph V G} `{!StableDiGraphSpec V G} `{SM : !StableDiGraphMut V G}.

(** The instructions that stay. *)
Definition kept (used : list Variable_) (i : Instruction) : bool :=
  match inst_out i with
  | Some o => negb (is_pure (operation i)) || is_global_array o || bool_decide (o ∈ used)
  | None => true
  end.
Abbreviation keep used := (filter (λ i, kept used i = true)).

(** What is in a slot stays, or there is nothing. *)
Definition stays (used : list Variable_) (v : V) (j : nat) : bool :=
  match sv_get v j with Some i => kept used i | None => true end.

Lemma remove_unused_ops_ok used idxs (v : V) modified :
  (∀ i, i ∈ idxs → i ∈ sv_indices v) → NoDup idxs →
  ∃ v', remove_unused_ops used idxs v modified = Ret (v', modified || negb (forallb (stays used v) idxs)) ∧
    sv_indices v' = filter (λ j, j ∉ idxs ∨ stays used v j = true) (sv_indices v) ∧
    ∀ j, j ∈ sv_indices v' → sv_get v' j = sv_get v j.
Proof.
  revert v modified. induction idxs as [|j idxs IH]; intros v modified Hin Hnd.
  - exists v. cbn. rewrite orb_false_r. split_and!; [done| |done].
    symmetry. apply filter_all. intros i _. left. apply not_elem_of_nil.
  - apply NoDup_cons in Hnd as [Hj Hnd].
    destruct (proj2 (sv_get_index v j) (Hin j ltac:(constructor))) as [i Hi].
    assert (Hcase : remove_unused_ops used (j :: idxs) v modified =
      if stays used v j then remove_unused_ops used idxs v modified
      else remove_unused_ops used idxs (sv_remove v j) true).
    { cbn [remove_unused_ops]. unfold op_at, stays. rewrite Hi. cbn [expect obind]. unfold kept.
      destruct (is_pure (operation i)), (inst_out i) as [o|]; cbn; try done.
      by destruct (is_global_array o), (bool_decide (o ∈ used)). }
    rewrite Hcase. cbn [forallb]. destruct (stays used v j) eqn:Hk; cbn [andb].
    + destruct (IH v modified) as (v' & -> & Hidx & Hget); [intros; apply Hin; by constructor|done|].
      exists v'. split_and!; [done| |done]. rewrite Hidx. apply list_filter_iff. intros x.
      rewrite not_elem_of_cons. destruct (decide (x = j)) as [->|]; naive_solver.
    + assert (Hst : ∀ x, x ≠ j → stays used (sv_remove v j) x = stays used v x).
      { intros x Hx. unfold stays. by rewrite sv_get_remove, decide_False. }
      assert (Hni : ∀ x, x ∈ idxs → x ≠ j) by (by intros x Hx ->).
      destruct (IH (sv_remove v j) true) as (v' & -> & Hidx & Hget); [|done|].
      { intros x Hx. rewrite sv_indices_remove. apply list_elem_of_filter. split; [by apply Hni|].
        apply Hin. by constructor. }
      exists v'. split_and!.
      * by rewrite orb_true_r.
      * rewrite Hidx, sv_indices_remove, list_filter_filter. apply list_filter_iff. intros x.
        rewrite not_elem_of_cons. destruct (decide (x = j)) as [->|Hne]; [|rewrite Hst by done]; naive_solver congruence.
      * intros x Hx. rewrite Hget by done. rewrite sv_get_remove, decide_False; [done|]. intros <-.
        rewrite Hidx, sv_indices_remove in Hx. apply list_elem_of_filter in Hx as [_ Hx].
        by apply list_elem_of_filter in Hx as [? _].
Qed.

Lemma omap_stays used (v : V) (l : list nat) :
  omap (sv_get v) (filter (λ j, stays used v j = true) l) = keep used (omap (sv_get v) l).
Proof.
  induction l as [|j l IH]; [done|]. rewrite filter_cons. cbn -[filter].
  assert (Hs : stays used v j = match sv_get v j with Some i => kept used i | None => true end) by done.
  destruct (sv_get v j) as [i|] eqn:Hi; cbn -[filter].
  - rewrite filter_cons, <-Hs. destruct (decide (stays used v j = true)); cbn -[filter]; [|done]. rewrite Hi. by f_equal.
  - rewrite decide_True by done. cbn -[filter]. by rewrite Hi.
Qed.
Lemma all_stay used (v : V) (l : list nat) :
  forallb (stays used v) l = (length (keep used (omap (sv_get v) l)) =? length (omap (sv_get v) l))%nat.
Proof.
  induction l as [|j l IH]; [done|]. cbn -[filter]. unfold stays at 1.
  destruct (sv_get v j) as [i|] eqn:Hi; cbn -[filter]; [|done]. rewrite filter_cons.
  destruct (kept used i) eqn:Hk; cbn -[filter].
  - by rewrite decide_True.
  - rewrite decide_False by done. symmetry. apply Nat.eqb_neq.
    pose proof (length_filter (λ i, kept used i = true) (omap (sv_get v) l)). lia.
Qed.

(** All indices are looked at, so the values that stay are the kept ones. *)
Lemma remove_unused_values used (v : V) modified :
  ∃ v', remove_unused_ops used (sv_indices v) v modified =
        Ret (v', modified || negb (length (sv_values v') =? length (sv_values v))%nat) ∧
    sv_values v' = keep used (sv_values v).
Proof.
  destruct (remove_unused_ops_ok used (sv_indices v) v modified) as (v' & Heq & Hidx & Hget);
    [done|apply sv_indices_nodup|].
  assert (Hv : sv_values v' = keep used (sv_values v)).
  { rewrite (sv_values_get v'), (sv_values_get v), <-omap_stays.
    assert (Hext : omap (sv_get v') (sv_indices v') = omap (sv_get v) (sv_indices v')).
    { apply list_omap_ext, Forall_Forall2_diag, Forall_forall. exact Hget. }
    rewrite Hext, Hidx. f_equal. apply filter_ext_in. intros j Hj. naive_solver. }
  exists v'. split; [|done]. by rewrite Heq, Hv, all_stay, <-sv_values_get.
Qed.

(** A block after a search: phi nodes and instructions are filtered. *)
Record pruned (used : list Variable_) (b b' : BasicBlock V) : Prop := {
  pr_use : block_use b' = block_use b;
  pr_phis : phi_nodes b' = filter (λ p, phi_out p ∈ used) (phi_nodes b);
  pr_values : sv_values (ops b') = keep used (sv_values (ops b));
  pr_control : control_flow b' = control_flow b;
}.
Definition block_len (b : BasicBlock V) : nat := (length (phi_nodes b) + length (sv_values (ops b)))%nat.

Lemma remove_unused_phis_ok used (b : BasicBlock V) modified :
  ∃ b', remove_unused_phis used b modified =
          (b', modified || negb (length (phi_nodes b') =? length (phi_nodes b))%nat) ∧
    b' = set_phis b (filter (λ p, phi_out p ∈ used) (phi_nodes b)).
Proof.
  unfold remove_unused_phis. case_decide as Hl.
  - exists b. rewrite Nat.eqb_refl, orb_false_r. split; [done|].
    rewrite (filter_same_length _ (phi_nodes b)) by done. by destruct b.
  - eexists. split; [|done]. f_equal. symmetry. apply orb_true_iff. right. apply negb_true_iff, Nat.eqb_neq.
    cbn -[filter]. lia.
Qed.

Lemma pruned_len used b b' : pruned used b b' → (block_len b' ≤ block_len b)%nat.
Proof.
  intros Hp. unfold block_len. rewrite (pr_phis _ _ _ Hp), (pr_values _ _ _ Hp).
  pose proof (length_filter (λ p, phi_out p ∈ used) (phi_nodes b)).
  pose proof (length_filter (λ i, kept used i = true) (sv_values (ops b))). lia.
Qed.

(** One block of a search. *)
Lemma remove_unused_block used (b : BasicBlock V) modified :
  ∃ v' b', (let '(b, modified) := remove_unused_phis used b modified in
            let? '(v, modified) := remove_unused_ops used (sv_indices (ops b)) (ops b) modified in
            Ret (set_ops b v, modified)) = Ret (b', modified || negb (block_len b' =? block_len b)%nat) ∧
    b' = set_ops (remove_unused_phis used b modified).1 v' ∧ pruned used b b'.
Proof.
  destruct (remove_unused_phis_ok used b modified) as (b1 & -> & ->). cbn [ops set_phis].
  destruct (remove_unused_values used (ops b)
    (modified || negb (length (phi_nodes (set_phis b (filter (λ p, phi_out p ∈ used) (phi_nodes b)))) =? length (phi_nodes b))%nat))
    as (v' & -> & Hv).
  exists v'. eexists. cbn [obind]. split; [|split; [reflexivity|by split]].
  do 2 f_equal. rewrite <-orb_assoc. f_equal. unfold block_len. cbn [set_ops set_phis phi_nodes ops fst].
  rewrite Hv. pose proof (length_filter (λ p, phi_out p ∈ used) (phi_nodes b)).
  pose proof (length_filter (λ i, kept used i = true) (sv_values (ops b))).
  destruct (Nat.eqb_spec (length (filter (λ p, phi_out p ∈ used) (phi_nodes b))) (length (phi_nodes b))),
    (Nat.eqb_spec (length (keep used (sv_values (ops b)))) (length (sv_values (ops b)))); cbn;
    symmetry; rewrite ?negb_true_iff, ?negb_false_iff, ?Nat.eqb_eq, ?Nat.eqb_neq; lia.
Qed.

(** The blocks of [nodes] are pruned, nothing else changes. *)
Record pruned_in (used : list Variable_) (nodes : list NodeIndex) (g g' : G) : Prop := {
  pi_indices : node_indices g' = node_indices g;
  pi_edges n : edges g' n = edges g n;
  pi_in n : n ∈ nodes → ∃ b b', node_weight g n = Some b ∧ node_weight g' n = Some b' ∧ pruned used b b';
  pi_out n : n ∉ nodes → node_weight g' n = node_weight g n;
}.
Definition node_len (g : G) (n : NodeIndex) : nat :=
  match node_weight g n with Some b => block_len b | None => O end.
Definition nodes_len (g : G) (nodes : list NodeIndex) : nat := sum_list (node_len g <$> nodes).

Lemma nodes_len_ext g g' nodes :
  (∀ n, n ∈ nodes → node_weight g' n = node_weight g n) → nodes_len g' nodes = nodes_len g nodes.
Proof.
  intros Hn. unfold nodes_len. f_equal. apply list_fmap_ext. intros i n Hi.
  unfold node_len. by rewrite Hn by by eapply list_elem_of_lookup_2.
Qed.

Lemma pruned_in_len used nodes g g' n :
  pruned_in used nodes g g' → (node_len g' n ≤ node_len g n)%nat.
Proof.
  intros Hp. unfold node_len. destruct (decide (n ∈ nodes)) as [Hn|Hn].
  - destruct (pi_in _ _ _ _ Hp n Hn) as (b & b' & -> & -> & Hb). by eapply pruned_len.
  - by rewrite (pi_out _ _ _ _ Hp n Hn).
Qed.
Lemma pruned_nodes_len used nodes g g' l :
  pruned_in used nodes g g' → (nodes_len g' l ≤ nodes_len g l)%nat.
Proof.
  intros Hp. induction l as [|n l IH]; [done|]. unfold nodes_len in *. cbn.
  pose proof (pruned_in_len used nodes g g' n Hp). lia.
Qed.

Lemma remove_unused_blocks_ok used nodes (g : G) modified :
  NoDup nodes → (∀ n, n ∈ nodes → n ∈ node_indices g) →
  ∃ g', remove_unused_blocks used nodes g modified =
          Ret (g', modified || negb (nodes_len g' nodes =? nodes_len g nodes)%nat) ∧ pruned_in used nodes g g'.
Proof.
  revert g modified. induction nodes as [|n nodes IH]; intros g modified Hnd Hn.
  - exists g. rewrite Nat.eqb_refl, orb_false_r. split; [done|]. split; try done. intros n Hn'. by apply not_elem_of_nil in Hn'.
  - apply NoDup_cons in Hnd as [Hni Hnd].
    destruct (proj2 (node_weight_node g n) (Hn n ltac:(constructor))) as [b Hb].
    cbn [remove_unused_blocks]. unfold block_of. rewrite Hb. cbn [expect obind].
    destruct (remove_unused_block used b modified) as (v' & b' & Hblk & Hb' & Hpr).
    destruct (remove_unused_phis used b modified) as [b1 m1]. cbn [fst] in Hb'.
    destruct (remove_unused_ops used (sv_indices (ops b1)) (ops b1) m1) as [[v m]| |]; try discriminate.
    cbn [obind] in Hblk |- *. injection Hblk as Hops Hm. rewrite Hops, Hm.
    assert (Hsame : ∀ m, m ≠ n → node_weight (set_weight g n b') m = node_weight g m) by (intros; by apply set_weight_other).
    assert (Hset : node_weight (set_weight g n b') n = Some b') by (apply set_weight_same, Hn; constructor).
    destruct (IH (set_weight g n b') (modified || negb (block_len b' =? block_len b)%nat)) as (g' & Heq & Hp); [done| |].
    { intros x Hx. rewrite set_weight_indices. apply Hn. by constructor. }
    exists g'. split.
    + rewrite Heq. do 2 f_equal. rewrite <-orb_assoc. f_equal.
      assert (H1 : nodes_len (set_weight g n b') nodes = nodes_len g nodes).
      { apply nodes_len_ext. intros x Hx. apply Hsame. by intros ->. }
      pose proof (pruned_nodes_len _ _ _ _ nodes Hp). pose proof (pruned_len _ _ _ Hpr).
      assert (Hc : ∀ h, nodes_len h (n :: nodes) = (node_len h n + nodes_len h nodes)%nat) by done. rewrite !Hc.
      unfold node_len. rewrite Hb, (pi_out _ _ _ _ Hp n Hni), Hset, H1 in *.
      destruct (Nat.eqb_spec (block_len b') (block_len b)), (Nat.eqb_spec (nodes_len g' nodes) (nodes_len g nodes)); cbn;
        symmetry; rewrite ?negb_true_iff, ?negb_false_iff, ?Nat.eqb_eq, ?Nat.eqb_neq; lia.
    + split.
      * by rewrite (pi_indices _ _ _ _ Hp), set_weight_indices.
      * intros x. by rewrite (pi_edges _ _ _ _ Hp), set_weight_edges.
      * intros x [->|Hx]%elem_of_cons.
        -- exists b, b'. rewrite (pi_out _ _ _ _ Hp) by done. by rewrite Hset.
        -- destruct (pi_in _ _ _ _ Hp x Hx) as (bx & bx' & Hw & Hw' & Hpx). rewrite Hsame in Hw by by intros ->.
           by exists bx, bx'.
      * intros x [Hx1 Hx2]%not_elem_of_cons. rewrite (pi_out _ _ _ _ Hp) by done. by apply Hsame.
Qed.

Lemma pruned_same used nodes g0 g g' : same_graph g0 g → pruned_in used nodes g g' → pruned_in used nodes g0 g'.
Proof.
  intros Hs Hp. split.
  - by rewrite (pi_indices _ _ _ _ Hp), (sg_indices _ _ Hs).
  - intros n. by rewrite (pi_edges _ _ _ _ Hp), (sg_edges _ _ Hs).
  - intros n Hn. rewrite <-(sg_weight _ _ Hs). by apply (pi_in _ _ _ _ Hp).
  - intros n Hn. rewrite <-(sg_weight _ _ Hs). by apply (pi_out _ _ _ _ Hp).
Qed.

Definition graph_len (g : G) : nat := nodes_len g (node_indices g).

(** One search: the graph is pruned with the variables that it reads. *)
Lemma search_unused_ok (opt : Optimizer V G) :
  code_readable (opt_graph opt) →
  ∃ used g', search_unused opt =
      Ret (negb (graph_len g' =? graph_len (opt_graph opt))%nat, set_graph g' opt) ∧
    (∀ v, v ∈ used ↔ v ∈ graph_reads (opt_graph opt)) ∧
    pruned_in used (node_ids opt) (opt_graph opt) g'.
Proof.
  intros Hr. destruct (visit_all_observing (λ s v, if decide (v ∈ s) then s else v :: s) opt [] Hr) as (g1 & Hv & Hs).
  pose (used := foldl (λ s v, if decide (v ∈ s) then s else v :: s) [] (graph_reads (opt_graph opt))).
  destruct (remove_unused_blocks_ok used (node_ids opt) g1 false) as (g' & Hg & Hp).
  { unfold node_ids. rewrite <-(sg_indices _ _ Hs). apply node_indices_nodup. }
  { intros n Hn. by rewrite (sg_indices _ _ Hs). }
  assert (Hp0 := pruned_same _ _ _ _ _ Hs Hp).
  exists used, g'. split; [|split; [|done]].
  - unfold search_unused, bind, get_state, lift. change use_variable with (observing (λ (s : list Variable_) v, if decide (v ∈ s) then s else v :: s)).
    rewrite Hv. fold used. cbn [opt_graph set_graph program graph]. rewrite Hg. unfold modify_state, ret. cbn.
    unfold graph_len. rewrite (pi_indices _ _ _ _ Hp0). fold (node_ids opt).
    by rewrite (nodes_len_ext (opt_graph opt) g1) by (intros; apply (sg_weight _ _ Hs)).
  - intros v. unfold used. rewrite use_variables. set_solver.
Qed.

(** *** What the machine does *)

(** The results of pure operations, and of phi nodes, are registers. *)
Record outs_local (g : G) : Prop := {
  ol_insts n i o : i ∈ code g n → is_pure (operation i) = true → inst_out i = Some o →
    is_global_array o = true ∨ register o = Some o;
  ol_phis n b p : node_weight g n = Some b → p ∈ phi_nodes b → register (phi_out p) = Some (phi_out p);
}.

Section agreement.
  Context {Val World : Type} (mg : Meaning Val World).
(** A pure operation with a local result leaves the world alone. *)
Definition pure_law : Prop := ∀ op o vals w x w',
  is_pure op = true → register o = Some o → m_op mg op (Some o) vals w = Some (x, w') → w' = w.

Definition agree_on (used : list Variable_) (env env' : Variable_ → Val) : Prop := ∀ v, v ∈ used → env v = env' v.

Lemma agree_value used env env' w v : agree_on used env env' → v ∈ used →
  value mg register env' w v = value mg register env w v.
Proof.
  intros Ha Hv. unfold value. destruct (register v) as [k|] eqn:Hk; [|done].
  rewrite (register_some v k Hk). symmetry. by apply Ha.
Qed.
Lemma agree_insert used env env' k x : agree_on used env env' → agree_on used (<[k := x]> env) (<[k := x]> env').
Proof.
  intros Ha v Hv. destruct (decide (k = v)) as [<-|Hne]; [by rewrite !fn_lookup_insert|].
  rewrite !fn_lookup_insert_ne by done. by apply Ha.
Qed.
Lemma agree_drop used env env' k x : agree_on used env env' → k ∉ used → agree_on used (<[k := x]> env) env'.
Proof. intros Ha Hk v Hv. rewrite fn_lookup_insert_ne by (by intros ->). by apply Ha. Qed.

Lemma exec_kept used l env env' w env1 w1 :
  pure_law → agree_on used env env' →
  (∀ i, i ∈ l → readable_inst i = true ∧ ∀ v, v ∈ inst_used i → v ∈ used) →
  (∀ i o, i ∈ l → is_pure (operation i) = true → inst_out i = Some o → is_global_array o = true ∨ register o = Some o) →
  exec_insts mg ∅ register l env w = Some (env1, w1) →
  ∃ env1', exec_insts mg ∅ register (keep used l) env' w = Some (env1', w1) ∧ agree_on used env1 env1'.
Proof.
  intros Hpure. revert env env' w. induction l as [|i l IH]; intros env env' w Ha Hu Ho He.
  - injection He as <- <-. by exists env'.
  - cbn [exec_insts] in He. unfold exec_inst in He.
    destruct (m_op mg _ _ _ w) as [[x w2]|] eqn:Hop; [|done].
    rewrite filter_cons. destruct (decide (kept used i = true)) as [Hk|Hk].
    + cbn [exec_insts]. unfold exec_inst at 1.
      assert (Hvals : value mg register env' w <$> op_reads (operation i) (inst_out i) =
                      value mg register env w <$> op_reads (operation i) (inst_out i)).
      { apply list_fmap_ext. intros j v Hv. apply (agree_value used); [done|].
        apply (proj2 (Hu i ltac:(constructor))). by eapply list_elem_of_lookup_2. }
      rewrite Hvals, Hop. eapply IH; [|intros; apply Hu; by constructor|intros; eapply Ho; [by constructor|done..]|exact He].
      destruct (inst_out i ≫= register); [by apply agree_insert|done].
    + unfold kept in Hk. destruct (inst_out i) as [o|] eqn:Hout; [|done].
      destruct (is_pure (operation i)) eqn:Hp; [|done]. destruct (is_global_array o) eqn:Hg; [done|].
      destruct (Ho i o ltac:(constructor) Hp Hout) as [|Hreg]; [congruence|].
      case_bool_decide as Hin; [done|].
      rewrite erase_inst_none, Hout in Hop by apply (Hu i ltac:(constructor)).
      apply Hpure in Hop as ->; [|done..].
      cbn [mbind option_bind] in He. rewrite Hreg in He.
      eapply IH; [by apply agree_drop|intros; apply Hu; by constructor|intros; eapply Ho; [by constructor|done..]|exact He].
Qed.

Lemma entry_reads p phi v : entry_of p phi = Some v → v ∈ phi_reads phi.
Proof.
  unfold entry_of, phi_reads. induction (phi_entries phi) as [|e es IH]; cbn; [done|].
  case_decide; [intros [= ->]; constructor|]. intros Hv. constructor. by apply IH.
Qed.

Lemma phi_moves_kept used p env env' w phis ms :
  agree_on used env env' → (∀ q, q ∈ phis → ∀ v, v ∈ phi_reads q → v ∈ used) →
  phi_moves mg register p env w phis = Some ms →
  phi_moves mg register p env' w (filter (λ q, phi_out q ∈ used) phis) = Some (filter (λ m, m.1 ∈ used) ms).
Proof.
  intros Ha Hu. revert ms. induction phis as [|q phis IH]; intros ms Hm; [by injection Hm as <-|].
  unfold phi_moves in Hm. cbn in Hm.
  destruct (entry_of p q) as [v|] eqn:He; cbn in Hm; [|done].
  destruct (mapM _ phis) as [ms1|] eqn:Hms; [|done]. injection Hm as <-.
  specialize (IH ltac:(intros; eapply Hu; [by constructor|done]) ms1 Hms).
  rewrite !filter_cons. cbn [fst]. destruct (decide (phi_out q ∈ used)); [|exact IH].
  unfold phi_moves in *. cbn -[filter]. rewrite He. cbn -[filter]. rewrite IH. cbn -[filter].
  rewrite (agree_value used env env') by (done || (eapply Hu; [constructor|by eapply entry_reads])). done.
Qed.

Lemma moves_kept used ms env env' w :
  agree_on used env env' → Forall (λ m, register m.1 = Some m.1) ms →
  ∃ env1 env1', foldl (move mg register) (env, w) ms = (env1, w) ∧
    foldl (move mg register) (env', w) (filter (λ m, m.1 ∈ used) ms) = (env1', w) ∧ agree_on used env1 env1'.
Proof.
  intros Ha Hm. revert env env' Ha. induction Hm as [|m ms Hm Hms IH]; intros env env' Ha; [by exists env, env'|].
  rewrite filter_cons. cbn [foldl]. unfold move at 2. rewrite Hm. cbn [fst snd].
  destruct (decide (m.1 ∈ used)).
  - cbn [foldl]. unfold move at 3. rewrite Hm. apply IH. by apply agree_insert.
  - apply IH. by apply agree_drop.
Qed.

Lemma phi_moves_out p env w phis ms :
  phi_moves mg register p env w phis = Some ms → ms.*1 = phi_out <$> phis.
Proof.
  unfold phi_moves. revert ms. induction phis as [|q phis IH]; intros ms Hm; [by injection Hm as <-|].
  cbn in Hm. destruct (entry_of p q) as [v|]; cbn in Hm; [|done].
  destruct (mapM _ phis) as [ms1|]; cbn in Hm; [|done]. injection Hm as <-. cbn. f_equal. by apply IH.
Qed.

Lemma enter_kept used p env env' w phis env1 w1 :
  agree_on used env env' → (∀ q, q ∈ phis → ∀ v, v ∈ phi_reads q → v ∈ used) →
  (∀ q, q ∈ phis → register (phi_out q) = Some (phi_out q)) →
  enter mg register p env w phis = Some (env1, w1) →
  ∃ env1', enter mg register p env' w (filter (λ q, phi_out q ∈ used) phis) = Some (env1', w1) ∧ agree_on used env1 env1'.
Proof.
  intros Ha Hu Ho He. unfold enter in He. destruct (phi_moves mg register p env w phis) as [ms|] eqn:Hm; [|done].
  injection He as He. unfold enter. rewrite (phi_moves_kept used p env env' w phis ms) by done.
  assert (Hreg : Forall (λ m, register m.1 = Some m.1) ms).
  { apply Forall_forall. intros m Hin. apply (list_elem_of_fmap_2 fst) in Hin.
    rewrite (phi_moves_out _ _ _ _ _ Hm) in Hin. apply list_elem_of_fmap in Hin as (q & -> & Hq). by apply Ho. }
  destruct (moves_kept used ms env env' w Ha Hreg) as (e & e' & H1 & H2 & Hag).
  rewrite H1 in He. injection He as <- <-. exists e'. cbn -[filter]. by rewrite H2.
Qed.

(** Both machines at the same block, with the same values of what is used. *)
Definition same_used (used : list Variable_) (s s' : machine (Variable_ → Val) World) : Prop :=
  match s, s' with
  | Stuck, Stuck => True
  | Finished w, Finished w' => w' = w
  | Running n env w, Running n' env' w' => n' = n ∧ w' = w ∧ agree_on used env env'
  | _, _ => False
  end.
Lemma same_used_observe used s s' : same_used used s s' → observe s' = observe s.
Proof. destruct s, s'; cbn; naive_solver. Qed.

Lemma node_reads_used (g : G) n b (used : list Variable_) :
  node_weight g n = Some b → (∀ v, v ∈ used ↔ v ∈ graph_reads g) → ∀ v, v ∈ block_reads b → v ∈ used.
Proof.
  intros Hb Hu v Hv. apply Hu, list_elem_of_bind. exists n. unfold node_reads. rewrite Hb. split; [done|].
  apply node_weight_node. by exists b.
Qed.

Lemma step_kept used g g' s s' :
  pure_law → code_readable g → outs_local g → (∀ v, v ∈ used ↔ v ∈ graph_reads g) →
  pruned_in used (node_indices g) g g' → same_used used s s' →
  step_registers mg g s ≠ Stuck → same_used used (step_registers mg g s) (step_registers mg g' s').
Proof.
  intros Hpure Hread Hol Hu Hp Hs. destruct s as [|w|n env w], s' as [|w'|n' env' w']; try done.
  destruct Hs as (-> & -> & Ha). unfold step_registers, step.
  destruct (node_weight g n) as [b|] eqn:Hb; [|done].
  assert (Hw : ∀ m bm, node_weight g m = Some bm → ∃ bm', node_weight g' m = Some bm' ∧ pruned used bm bm').
  { intros m bm Hm. destruct (pi_in _ _ _ _ Hp m) as (x & x' & Hx & Hx' & Hpx); [apply node_weight_node; by exists bm|].
    rewrite Hm in Hx. injection Hx as <-. by exists x'. }
  destruct (Hw n b Hb) as (b' & -> & Hpr). rewrite (pr_values _ _ _ Hpr).
  pose proof (node_reads_used g n b used Hb Hu) as Hreads.
  assert (Hcode : code g n = sv_values (ops b)) by (unfold code; by rewrite Hb).
  destruct (exec_insts mg ∅ register (sv_values (ops b)) env w) as [[env1 w1]|] eqn:He; [|done].
  destruct (exec_kept used (sv_values (ops b)) env env' w env1 w1) as (env1' & -> & Ha1); [done|done| | |done|].
  { intros i Hi. split.
    - pose proof (Hread n) as Hr. rewrite Hcode in Hr. rewrite Forall_forall in Hr. by apply Hr.
    - intros v Hv. apply Hreads. unfold block_reads. rewrite !elem_of_app, !list_elem_of_bind. naive_solver. }
  { intros i o Hi. apply (ol_insts _ Hol n). by rewrite Hcode. }
  rewrite (pr_control _ _ _ Hpr), (pi_edges _ _ _ _ Hp).
  assert (Hc : value mg register env1' w1 <$> cf_cond (control_flow b) = value mg register env1 w1 <$> cf_cond (control_flow b)).
  { destruct (cf_cond (control_flow b)) as [c|] eqn:Hcf; [|done]. cbn. f_equal. apply (agree_value used); [done|].
    apply Hreads. unfold block_reads. rewrite Hcf, !elem_of_app. right. right. constructor. }
  rewrite Hc. destruct (m_next _ _ _ _) as [t|]; [|done].
  assert (Hed : edge g' n t ↔ edge g n t) by (unfold edge; by rewrite (pi_edges _ _ _ _ Hp)).
  destruct (decide (edge g n t)) as [Hin|Hni]; [|done]. rewrite decide_True by by apply Hed.
  destruct (node_weight g t) as [bt|] eqn:Hbt; [|done]. destruct (Hw t bt Hbt) as (bt' & -> & Hprt).
  cbn [mbind option_bind]. rewrite (pr_phis _ _ _ Hprt).
  destruct (enter mg register n env1 w1 (phi_nodes bt)) as [[env2 w2]|] eqn:Hen; [|done]. intros _.
  destruct (enter_kept used n env1 env1' w1 (phi_nodes bt) env2 w2) as (env2' & -> & Ha2); [done| | |done|done].
  - intros q Hq v Hv. apply (node_reads_used g t bt used Hbt Hu). unfold block_reads.
    rewrite !elem_of_app, !list_elem_of_bind. naive_solver.
  - intros q Hq. by eapply (ol_phis _ Hol).
Qed.
End agreement.

Lemma pruned_code used (g g' : G) n i :
  pruned_in used (node_indices g) g g' → i ∈ code g' n → i ∈ code g n ∧ kept used i = true.
Proof.
  intros Hp Hi. unfold code in *. destruct (decide (n ∈ node_indices g)) as [Hn|Hn].
  - destruct (pi_in _ _ _ _ Hp n Hn) as (b & b' & Hb & Hb' & Hpr). rewrite Hb' in Hi. rewrite Hb.
    rewrite (pr_values _ _ _ Hpr) in Hi. by apply list_elem_of_filter in Hi as [].
  - rewrite (pi_out _ _ _ _ Hp n Hn) in Hi. destruct (node_weight g n) as [b|] eqn:Hb; [|by apply not_elem_of_nil in Hi].
    exfalso. apply Hn, node_weight_node. by exists b.
Qed.

Lemma pruned_readable used (g g' : G) :
  pruned_in used (node_indices g) g g' → code_readable g → code_readable g'.
Proof.
  intros Hp Hr n. apply Forall_forall. intros i Hi. destruct (pruned_code _ _ _ _ _ Hp Hi) as [Hi' _].
  specialize (Hr n). rewrite Forall_forall in Hr. by apply Hr.
Qed.
Lemma pruned_local used (g g' : G) : pruned_in used (node_indices g) g g' → outs_local g → outs_local g'.
Proof.
  intros Hp Hol. split.
  - intros n i o Hi. destruct (pruned_code _ _ _ _ _ Hp Hi) as [Hi' _]. by eapply (ol_insts _ Hol).
  - intros n b' p Hb' Hin. destruct (decide (n ∈ node_indices g)) as [Hn|Hn].
    + destruct (pi_in _ _ _ _ Hp n Hn) as (b & x & Hb & Hx & Hpr). rewrite Hb' in Hx. injection Hx as <-.
      rewrite (pr_phis _ _ _ Hpr) in Hin. apply list_elem_of_filter in Hin as [_ Hin]. by eapply (ol_phis _ Hol).
    + rewrite (pi_out _ _ _ _ Hp n Hn) in Hb'. by eapply (ol_phis _ Hol).
Qed.

(** Nothing is left that the pass would remove. *)
Definition nothing_unused (g : G) : Prop :=
  (∀ n i o, i ∈ code g n → is_pure (operation i) = true → inst_out i = Some o →
     is_global_array o = true ∨ o ∈ graph_reads g) ∧
  (∀ n b p, node_weight g n = Some b → p ∈ phi_nodes b → phi_out p ∈ graph_reads g).

Lemma pruned_all (used : list Variable_) (g g' : G) :
  pruned_in used (node_indices g) g g' → (∀ v, v ∈ used ↔ v ∈ graph_reads g) → graph_len g' = graph_len g →
  nothing_unused g'.
Proof.
  intros Hp Hu Hl.
  assert (Hlen : ∀ n, n ∈ node_indices g → node_len g' n = node_len g n).
  { unfold graph_len in Hl. rewrite (pi_indices _ _ _ _ Hp) in Hl. revert Hl.
    generalize (node_indices g) at 1 2 3 as l. induction l as [|m l IH]; intros Hl n Hn; [by apply not_elem_of_nil in Hn|].
    change (node_len g' m + nodes_len g' l = node_len g m + nodes_len g l)%nat in Hl.
    pose proof (pruned_in_len _ _ _ _ m Hp). pose proof (pruned_nodes_len _ _ _ _ l Hp).
    apply elem_of_cons in Hn as [->|Hn]; [lia|]. apply IH; [lia|done]. }
  assert (Hsame : ∀ n b b', node_weight g n = Some b → node_weight g' n = Some b' →
            phi_nodes b' = phi_nodes b ∧ sv_values (ops b') = sv_values (ops b) ∧ pruned used b b').
  { intros n b b' Hb Hb'. assert (Hn : n ∈ node_indices g) by (apply node_weight_node; by exists b).
    destruct (pi_in _ _ _ _ Hp n Hn) as (x & x' & Hx & Hx' & Hpr).
    rewrite Hb in Hx. injection Hx as <-. rewrite Hb' in Hx'. injection Hx' as <-.
    specialize (Hlen n Hn). unfold node_len in Hlen. rewrite Hb, Hb' in Hlen. unfold block_len in Hlen.
    split_and!; [| |done]; rewrite ?(pr_phis _ _ _ Hpr), ?(pr_values _ _ _ Hpr) in *; apply filter_same_length;
      pose proof (length_filter (λ p, phi_out p ∈ used) (phi_nodes b));
      pose proof (length_filter (λ i, kept used i = true) (sv_values (ops b))); lia. }
  assert (Hreads : graph_reads g' = graph_reads g).
  { unfold graph_reads. rewrite (pi_indices _ _ _ _ Hp). apply Forall_bind_ext, Forall_forall. intros n Hn.
    destruct (pi_in _ _ _ _ Hp n Hn) as (b & b' & Hb & Hb' & Hpr).
    destruct (Hsame n b b' Hb Hb') as (H1 & H2 & _). unfold node_reads, block_reads.
    by rewrite Hb, Hb', H1, H2, (pr_control _ _ _ Hpr). }
  split.
  - intros n i o Hi Hpi Ho. destruct (pruned_code _ _ _ _ _ Hp Hi) as [_ Hk]. unfold kept in Hk.
    rewrite Ho, Hpi in Hk. cbn in Hk. rewrite Hreads, <-Hu. apply orb_true_iff in Hk as [Hk|Hk]; [by left|right].
    by apply bool_decide_eq_true in Hk.
  - intros n b' p Hb' Hin. rewrite Hreads, <-Hu.
    assert (Hn : n ∈ node_indices g) by (rewrite <-(pi_indices _ _ _ _ Hp); apply node_weight_node; by exists b').
    destruct (pi_in _ _ _ _ Hp n Hn) as (b & x & Hb & Hx & Hpr). rewrite Hb' in Hx. injection Hx as <-.
    rewrite (pr_phis _ _ _ Hpr) in Hin. by apply list_elem_of_filter in Hin as [].
Qed.

(** C9. The pass returns within as many rounds as the program has instructions and
    phi nodes.  It keeps the blocks, the edges and the conditions; afterwards every
    pure result, unless it is a global array, and every phi node is read
    somewhere.  A program that does not get stuck does the same as before. *)
Theorem unused_variables_removed {Val World : Type} (mg : Meaning Val World) fuel (opt : Optimizer V G) changes :
  code_readable (opt_graph opt) → outs_local (opt_graph opt) → pure_law mg → (graph_len (opt_graph opt) ≤ fuel)%nat →
  ∃ changes' g', EliminateUnusedVariables fuel changes opt = Ret (changes', set_graph g' opt) ∧
    node_indices g' = node_ids opt ∧ (∀ n, edges g' n = edges (opt_graph opt) n) ∧ nothing_unused g' ∧
    ∀ k n env w, run_registers mg k (opt_graph opt) (Running n env w) ≠ Stuck →
      observe (run_registers mg k g' (Running n env w)) = observe (run_registers mg k (opt_graph opt) (Running n env w)).
Proof.
  intros Hr Hol Hpure. revert opt changes Hr Hol.
  induction fuel as [|fuel IH]; intros opt changes Hr Hol Hf;
    destruct (search_unused_ok opt Hr) as (used & g' & Hs & Hu & Hp);
    assert (Hrun : ∀ k n env w, run_registers mg k (opt_graph opt) (Running n env w) ≠ Stuck →
      same_used used (run_registers mg k (opt_graph opt) (Running n env w)) (run_registers mg k g' (Running n env w)))
      by (intros k n env w; apply run_refines; [|by split_and!]; intros s s' Hss; by apply (step_kept mg)).
  all: cbn [EliminateUnusedVariables]; unfold bind; rewrite Hs.
  all: destruct (Nat.eqb_spec (graph_len g') (graph_len (opt_graph opt))) as [Hl|Hl]; cbn [negb].
  1,3: exists changes, g'; split_and!; [done|apply Hp|apply Hp|by eapply pruned_all|];
    intros k n env w Hne; by eapply same_used_observe, Hrun.
  all: assert (graph_len g' < graph_len (opt_graph opt))%nat
    by (pose proof (pruned_nodes_len _ _ _ _ (node_ids opt) Hp); unfold graph_len in *;
        rewrite (pi_indices _ _ _ _ Hp) in *; unfold node_ids in *; lia).
  1: lia.
  destruct (IH (set_graph g' opt) (changes + 1)) as (changes' & g2 & Heq & Hi & He & Hn & Hobs);
    [by eapply pruned_readable|by eapply pruned_local|cbn; lia|].
  exists changes', g2. split_and!; [exact Heq| | |done|].
  - rewrite Hi. apply (pi_indices _ _ _ _ Hp).
  - intros n. rewrite He. apply (pi_edges _ _ _ _ Hp).
  - intros k n env w Hne. specialize (Hrun k n env w Hne). pose proof (same_used_observe _ _ _ Hrun) as Ho.
    rewrite <-Ho. apply Hobs. intros Hst. change (opt_graph (set_graph g' opt)) with g' in Hst. rewrite Hst in Hrun.
    by destruct (run_registers mg k (opt_graph opt) (Running n env w)).
Qed.
End unused.
