(* ===== verification/BranchProps.v ===== *)
(** * Resolving branches and phi nodes

    Proofs about [EliminateConstBranches], [EliminateDeadBlocks] and
    [EliminateDeadPhi] of [GraphPasses.v], with the machine of
    [DeadCodeProps.v]. *)

From stdpp Require Import gmap sets functions.
From S2P Require Import Prelude Ir Visit Cfg Dominance LivenessProps PhiPlacement VersionProps SsaCoherence SsaSem ListGraph GraphPasses SsaDemo DeadCodeProps.

Open Scope N_scope.
Open Scope rust_scope.

(** ** [EliminateConstBranches] *)

Section const_branches.
  Context {V G : Type} `{SV : StableVec V} `{!StableVecSpec V} `{SO : !StableVecOps V}
    `{SG : StableDiGraph V G} `{!StableDiGraphSpec V G} `{SM : !StableDiGraphMut V G} `{!StableDiGraphMutSpec V G}.

(** The branch that a constant condition selects. *)
Definition const_target (c : ControlFlow) : option NodeIndex :=
  match c with
  | CfIfElse cond t e _ =>
      match as_const cond with
      | Some k => (λ b : bool, if b then t else e) <$> try_as_bool k
      | None => None
      end
  | CfSwitch v d bs _ =>
      match as_const v with
      | Some k => match switch_value k with
                  | Ret n => Some (default d (snd <$> List.find (λ x, x.1 =? n) bs))
                  | _ => None
                  end
      | None => None
      end
  | _ => None
  end.
Definition const_cond (c : ControlFlow) : bool :=
  match c with
  | CfIfElse v _ _ _ | CfSwitch v _ _ _ => match as_const v with Some _ => true | None => false end
  | _ => false
  end.

(** Branches as [parse_if], [parse_if_else] and [parse_switch] build them: an edge to
    every target, a merge block of the graph, constants of the right type. *)
Definition branch_ok (g : G) (n : NodeIndex) (c : ControlFlow) : Prop :=
  match c with
  | CfIfElse _ t e m => (edges g n).*2 ≡ₚ [t; e] ∧ ∀ x, m = Some x → x ∈ node_indices g
  | CfSwitch _ d bs _ => (edges g n).*2 ≡ₚ d :: bs.*2 ∧ NoDup (d :: bs.*2)
  | _ => True
  end ∧ (const_cond c = true → is_Some (const_target c)).
Definition branches_ok (g : G) : Prop := ∀ n b, node_weight g n = Some b → branch_ok g n (control_flow b).

(** The branch of [n] is resolved to its target. *)
Record resolved (n : NodeIndex) (g g' : G) : Prop := {
  re_indices : node_indices g' = node_indices g;
  re_block m b : node_weight g m = Some b →
    ∃ b', node_weight g' m = Some b' ∧ phi_nodes b' = phi_nodes b ∧ ops b' = ops b ∧
      control_flow b' = (if decide (m = n) then CfNone else control_flow b);
  re_edges m : m ≠ n → edges g' m = edges g m;
  re_target : ∃ b t, node_weight g n = Some b ∧ const_target (control_flow b) = Some t ∧ edge g n t ∧
    (edges g' n).*2 = [t];
}.

Lemma remove_edges_ok es (g : G) :
  node_indices (foldl (λ g e, remove_edge g e.1) g es) = node_indices g ∧
  (∀ m, node_weight (foldl (λ g e, remove_edge g e.1) g es) m = node_weight g m) ∧
  ∀ m, edges (foldl (λ g e, remove_edge g e.1) g es) m = filter (λ x, x.1 ∉ (es : list (EdgeIndex * NodeIndex)).*1) (edges g m).
Proof.
  revert g. induction es as [|e es IH]; intros g.
  - split_and!; [done..|]. intros m. symmetry. apply filter_all. intros x _. apply not_elem_of_nil.
  - cbn [foldl]. destruct (IH (remove_edge g e.1)) as (H1 & H2 & H3). split_and!.
    + by rewrite H1, remove_edge_indices.
    + intros m. by rewrite H2, remove_edge_weight.
    + intros m. rewrite H3, remove_edge_edges, list_filter_filter. apply list_filter_iff. intros x.
      rewrite fmap_cons, not_elem_of_cons. naive_solver.
Qed.

(** Edges of other nodes have other indices. *)
Lemma other_edges (g : G) n m (ids : list EdgeIndex) :
  m ≠ n → (∀ i, i ∈ ids → ∃ t, (i, t) ∈ edges g n) → filter (λ x, x.1 ∉ ids) (edges g m) = edges g m.
Proof.
  intros Hne Hids. apply filter_all. intros [i t] Hin Hi. destruct (Hids i Hi) as [t' Ht'].
  by destruct (Hne (edge_ids g m n i t t' Hin Ht')).
Qed.

Lemma filter_unique (l : list N) b : NoDup l → b ∈ l → filter (λ x, x = b) l = [b].
Proof.
  induction 1 as [|x l Hx Hl IH]; intros Hb; [by apply not_elem_of_nil in Hb|]. rewrite filter_cons.
  apply elem_of_cons in Hb as [<-|Hb].
  - rewrite decide_True by done. f_equal. destruct (filter _ l) as [|y ys] eqn:E; [done|exfalso].
    assert (Hy : y ∈ filter (λ x, x = b) l) by (rewrite E; constructor).
    by apply list_elem_of_filter in Hy as [-> ?].
  - rewrite decide_False by by intros ->. by apply IH.
Qed.

Lemma filter_snd (P : N → Prop) `{∀ x, Decision (P x)} (l : list (N * N)) :
  (filter (λ x, P x.2) l).*2 = filter P l.*2.
Proof.
  induction l as [|x l IH]; [done|]. cbn -[filter]. rewrite !filter_cons.
  destruct (decide (P x.2)); cbn -[filter]; by rewrite IH.
Qed.

(** What stays when the edges to other targets are removed. *)
Lemma switch_edges (g : G) n t (ts : list NodeIndex) :
  (edges g n).*2 ≡ₚ ts → NoDup ts → t ∈ ts →
  (filter (λ x, x.1 ∉ (filter (λ e, e.2 ≠ t) (edges g n)).*1) (edges g n)).*2 = [t].
Proof.
  intros Hp Hnd Ht.
  assert (Hf : filter (λ x, x.1 ∉ (filter (λ e, e.2 ≠ t) (edges g n)).*1) (edges g n) = filter (λ x, x.2 = t) (edges g n)).
  { apply filter_ext_in. intros [i u] Hin. cbn. split.
    - intros Hni. destruct (decide (u = t)) as [|Hne]; [done|]. exfalso. apply Hni, list_elem_of_fmap.
      exists (i, u). split; [done|]. by apply list_elem_of_filter.
    - intros -> ([j u'] & Hi & Hf)%list_elem_of_fmap. cbn in Hi. subst j.
      apply list_elem_of_filter in Hf as [Hu Hf]. by apply Hu, (edges_functional g n i). }
  rewrite Hf. etransitivity; [exact (filter_snd (λ x, x = t) (edges g n))|]. apply filter_unique; [by rewrite Hp|by rewrite Hp].
Qed.

(** One of two edges is removed. *)
Lemma two_edges (g : G) n t u :
  (edges g n).*2 ≡ₚ [t; u] →
  ∃ e, find_edge g n u = Ret e ∧ (∃ x, (e, x) ∈ edges g n) ∧ (filter (λ x, x.1 ≠ e) (edges g n)).*2 = [t].
Proof.
  intros Hp. pose proof (edges_nodup g n) as Hnd. unfold find_edge.
  assert (Hlen := Permutation_length Hp). rewrite length_fmap in Hlen.
  destruct (edges g n) as [|[i a] [|[j b] [|? ?]]]; try done. clear Hlen.
  assert (Hij : i ≠ j) by (apply NoDup_cons in Hnd as [Hnd _]; cbn in Hnd; set_solver).
  cbn [fmap list_fmap snd] in Hp. cbn [List.find snd fst].
  apply Permutation_length_2 in Hp as [[-> ->]|[-> ->]].
  - destruct (N.eqb_spec t u) as [->|Hne].
    + exists i. split_and!; [done|exists u; constructor|]. rewrite !filter_cons. cbn -[filter].
      rewrite decide_False by tauto. by rewrite decide_True by done.
    + rewrite N.eqb_refl. exists j. split_and!; [done|exists u; do 2 constructor|]. rewrite !filter_cons. cbn -[filter].
      rewrite decide_True by done. by rewrite decide_False by tauto.
  - rewrite N.eqb_refl. exists i. split_and!; [done|exists u; constructor|]. rewrite !filter_cons. cbn -[filter].
    rewrite decide_False by tauto. by rewrite decide_True by done.
Qed.

(** Only the uses of blocks differ. *)
Record same_blocks (g g' : G) : Prop := {
  sb_indices : node_indices g' = node_indices g;
  sb_block m b : node_weight g m = Some b →
    ∃ b', node_weight g' m = Some b' ∧ phi_nodes b' = phi_nodes b ∧ ops b' = ops b ∧ control_flow b' = control_flow b;
}.

Lemma clear_merge_ok (g : G) merge :
  (∀ x, merge = Some x → x ∈ node_indices g) →
  ∃ g', clear_merge g merge = Ret g' ∧ same_blocks g g' ∧ ∀ m, edges g' m = edges g m.
Proof.
  intros Hm. destruct merge as [x|].
  - destruct (proj2 (node_weight_node g x) (Hm x eq_refl)) as [b Hb].
    unfold clear_merge, block_of. rewrite Hb. cbn [expect obind]. eexists. split; [done|]. split; [|apply set_weight_edges].
    split; [apply set_weight_indices|]. intros m bm Hbm. destruct (decide (x = m)) as [<-|Hne].
    + rewrite set_weight_same by by apply Hm. rewrite Hb in Hbm. injection Hbm as <-. by eexists.
    + rewrite set_weight_other by done. by exists bm.
  - exists g. split; [done|]. split; [|done]. split; [done|]. intros m b Hb. by exists b.
Qed.

Lemma resolve (g g1 : G) n b t :
  node_weight g n = Some b → const_target (control_flow b) = Some t → edge g n t →
  same_blocks g g1 → (∀ m, m ≠ n → edges g1 m = edges g m) → (edges g1 n).*2 = [t] →
  ∃ b1, node_weight g1 n = Some b1 ∧ resolved n g (set_weight g1 n (set_control_flow b1 CfNone)).
Proof.
  intros Hb Ht Hed Hs He Hn. destruct (sb_block _ _ Hs n b Hb) as (b1 & Hb1 & Hp & Ho & _).
  exists b1. split; [done|]. split.
  - rewrite set_weight_indices. apply (sb_indices _ _ Hs).
  - intros m bm Hbm. destruct (decide (m = n)) as [->|Hne].
    + rewrite set_weight_same by (apply node_weight_node; by exists b1). rewrite Hb in Hbm. injection Hbm as <-. by eexists.
    + rewrite set_weight_other by congruence. by apply (sb_block _ _ Hs).
  - intros m Hm. rewrite set_weight_edges. by apply He.
  - exists b, t. by rewrite set_weight_edges.
Qed.

Lemma const_if_else (g : G) n b cond t e m k x :
  node_weight g n = Some b → control_flow b = CfIfElse cond t e m → as_const cond = Some k → try_as_bool k = Some x →
  (edges g n).*2 ≡ₚ [t; e] → (∀ y, m = Some y → y ∈ node_indices g) →
  ∃ g', const_branch n g = Ret (Some g') ∧ resolved n g g'.
Proof.
  intros Hb Hcf Hk Hx Hp Hm. unfold const_branch, block_of. rewrite Hb. cbn [expect obind]. rewrite Hcf, Hk.
  unfold as_bool. rewrite Hx. cbn [expect obind].
  destruct (two_edges g n (if x then t else e) (if x then e else t)) as (i & Hi & Hin & Hf).
  { rewrite Hp. destruct x; [done|apply Permutation_swap]. }
  rewrite Hi. cbn [obind].
  destruct (clear_merge_ok (remove_edge g i) m) as (g1 & -> & Hs & He); [by rewrite remove_edge_indices|].
  cbn [obind].
  assert (Hs' : same_blocks g g1).
  { split; [by rewrite (sb_indices _ _ Hs), remove_edge_indices|]. intros y z Hz. apply (sb_block _ _ Hs).
    by rewrite remove_edge_weight. }
  destruct (resolve g g1 n b (if x then t else e) Hb) as (b1 & -> & Hr); [|..|by eexists].
  - rewrite Hcf. cbn. rewrite Hk, Hx. done.
  - unfold edge. rewrite Hp. destruct x; [constructor|do 2 constructor].
  - done.
  - intros y Hy. rewrite He, remove_edge_edges. destruct Hin as [z Hz].
    rewrite <-(other_edges g n y [i] Hy) at 2; [|intros ? ->%list_elem_of_singleton; by exists z].
    apply list_filter_iff. intros u. by rewrite list_elem_of_singleton.
  - by rewrite He, remove_edge_edges.
Qed.

Lemma const_switch (g : G) n b v d bs m k x :
  node_weight g n = Some b → control_flow b = CfSwitch v d bs m → as_const v = Some k → switch_value k = Ret x →
  (edges g n).*2 ≡ₚ d :: bs.*2 → NoDup (d :: bs.*2) →
  ∃ g', const_branch n g = Ret (Some g') ∧ resolved n g g'.
Proof.
  intros Hb Hcf Hk Hx Hp Hnd. unfold const_branch, block_of. rewrite Hb. cbn [expect obind]. rewrite Hcf, Hk, Hx.
  cbn [obind]. set (t := default d (snd <$> List.find (λ y, y.1 =? x) bs)).
  assert (Ht : t ∈ d :: bs.*2).
  { unfold t. destruct (List.find _ bs) as [y|] eqn:Hf; [|constructor]. right. cbn.
    apply List.find_some in Hf as [Hin _]. apply list_elem_of_fmap. exists y. split; [done|]. by apply list_elem_of_In. }
  destruct (remove_edges_ok (filter (λ e, e.2 ≠ t) (edges g n)) g) as (H1 & H2 & H3).
  destruct (resolve g (foldl (λ g e, remove_edge g e.1) g (filter (λ e, e.2 ≠ t) (edges g n))) n b t Hb)
    as (b1 & Hb1 & Hr).
  - rewrite Hcf. cbn. by rewrite Hk, Hx.
  - unfold edge. by rewrite Hp.
  - split; [done|]. intros y z Hz. exists z. by rewrite H2.
  - intros y Hy. rewrite H3. apply (other_edges g n); [done|]. intros i ([j u] & -> & Hj)%list_elem_of_fmap.
    exists u. by apply list_elem_of_filter in Hj as [].
  - rewrite H3. by eapply switch_edges.
  - eexists. split; [|exact Hr]. rewrite H2, Hb in Hb1. by injection Hb1 as <-.
Qed.

Lemma const_branch_ok (g : G) n b :
  branch_ok g n (control_flow b) → node_weight g n = Some b →
  if const_cond (control_flow b) then ∃ g', const_branch n g = Ret (Some g') ∧ resolved n g g'
  else const_branch n g = Ret None.
Proof.
  intros [Hbr Hc] Hb. destruct (const_cond (control_flow b)) eqn:Hcc.
  - destruct (Hc eq_refl) as [t Ht].
    destruct (control_flow b) as [cond t1 e m|v d bs m| | | |] eqn:Hcf; try done; cbn [const_cond const_target] in *.
    + destruct (as_const cond) as [k|] eqn:Hk; [|done]. destruct (try_as_bool k) as [x|] eqn:Hx; [|done].
      destruct Hbr as [Hp Hm]. by eapply const_if_else.
    + destruct (as_const v) as [k|] eqn:Hk; [|done]. destruct (switch_value k) as [x| |] eqn:Hx; [|done..].
      destruct Hbr as [Hp Hnd]. by eapply const_switch.
  - unfold const_branch, block_of. rewrite Hb. cbn [expect obind].
    destruct (control_flow b); try done; cbn [const_cond] in Hcc; by destruct (as_const _).
Qed.

(** *** The machine *)

Section machine.
  Context {Val World : Type} (mg : Meaning Val World).
(** Conditional branches on constants, and blocks with one successor. *)
Record branch_law : Prop := {
  bl_const c succs w v t : cf_cond c = Some v → const_target c = Some t →
    m_next mg c succs (Some (m_read mg w v)) = Some t;
  bl_single t : m_next mg CfNone [t] None = Some t;
}.

Lemma resolved_step n (g g' : G) s :
  branch_law → resolved n g g' → step_registers mg g' s = step_registers mg g s.
Proof.
  intros Hl Hr. destruct s as [|w|m env w]; [done..|]. unfold step_registers, step.
  assert (Hnone : ∀ x, node_weight g x = None → node_weight g' x = None).
  { intros x Hx. apply eq_None_not_Some. intros Hs%node_weight_node. rewrite (re_indices _ _ _ Hr) in Hs.
    apply node_weight_node in Hs as [? ?]. congruence. }
  destruct (node_weight g m) as [b|] eqn:Hb; [|by rewrite Hnone].
  destruct (re_block _ _ _ Hr m b Hb) as (b' & -> & _ & -> & Hcf).
  destruct (exec_insts _ _ _ _ env w) as [[env1 w1]|]; [|done]. rewrite !erase_cf_none, Hcf.
  assert (Hent : ∀ t, node_weight g' t ≫= (λ b, enter mg register m env1 w1 (phi_nodes b)) =
                      node_weight g t ≫= (λ b, enter mg register m env1 w1 (phi_nodes b))).
  { intros t. destruct (node_weight g t) as [bt|] eqn:Hbt; [|by rewrite Hnone].
    destruct (re_block _ _ _ Hr t bt Hbt) as (bt' & -> & Hp & _). cbn. by rewrite Hp. }
  destruct (decide (m = n)) as [->|Hne].
  - destruct (re_target _ _ _ Hr) as (bn & t & Hbn & Ht & Hed & Hsucc). rewrite Hb in Hbn. injection Hbn as <-.
    cbn [cf_cond fmap option_fmap option_map]. rewrite Hsucc, (bl_single Hl).
    rewrite decide_True by (unfold edge; rewrite Hsucc; constructor).
    assert (Hv : ∃ v, cf_cond (control_flow b) = Some v ∧ register v = None).
    { unfold const_target in Ht. destruct (control_flow b) as [v| v| | | |]; try done; exists v; (split; [done|]);
        unfold register; destruct (as_const v) eqn:Hk; try done; unfold as_const in Hk; by destruct (var_kind v). }
    destruct Hv as (v & Hv & Hreg). rewrite Hv. cbn [fmap option_fmap option_map].
    assert (Hval : value mg register env1 w1 v = m_read mg w1 v) by (unfold value; by rewrite Hreg). rewrite Hval.
    rewrite (bl_const Hl _ _ _ _ _ Hv Ht). rewrite decide_True by done. by rewrite Hent.
  - rewrite (re_edges _ _ _ Hr) by done. destruct (m_next _ _ _ _) as [t|]; [|done].
    assert (Hiff : edge g' m t ↔ edge g m t) by (unfold edge; by rewrite (re_edges _ _ _ Hr)).
    destruct (decide (edge g m t)) as [He|He]; [rewrite decide_True by by apply Hiff|by rewrite decide_False by by rewrite Hiff].
    by rewrite Hent.
Qed.
End machine.

Lemma resolved_ok n (g g' : G) : resolved n g g' → branches_ok g → branches_ok g'.
Proof.
  intros Hr Hok m b' Hb'.
  assert (Hm : m ∈ node_indices g) by (rewrite <-(re_indices _ _ _ Hr); apply node_weight_node; by exists b').
  apply node_weight_node in Hm as [b Hb]. destruct (re_block _ _ _ Hr m b Hb) as (x & Hx & _ & _ & Hcf).
  rewrite Hb' in Hx. injection Hx as <-. rewrite Hcf. destruct (decide (m = n)) as [|Hne]; [by split|].
  destruct (Hok m b Hb) as [H1 H2]. split; [|done].
  destruct (control_flow b); try done; by rewrite (re_edges _ _ _ Hr), ?(re_indices _ _ _ Hr).
Qed.

(** What the pass keeps, and what it leaves of the caches. *)
Record branches_resolved (nodes : list NodeIndex) (opt opt' : Optimizer V G) (changes changes' : N) : Prop := {
  br_ids : node_ids opt' = node_ids opt;
  br_entry : entry opt' = entry opt;
  br_ok : branches_ok (opt_graph opt');
  br_done n b : n ∈ nodes → node_weight (opt_graph opt') n = Some b → const_cond (control_flow b) = false;
  br_kept n b : node_weight (opt_graph opt) n = Some b → const_cond (control_flow b) = false →
    ∃ b', node_weight (opt_graph opt') n = Some b' ∧ control_flow b' = control_flow b;
  br_cache : changes' = changes ∧ opt' = opt ∨
    changes < changes' ∧ c_post_order (analysis_cache opt') = None ∧ c_dominators (analysis_cache opt') = None ∧
    c_liveness (analysis_cache opt') = None;
}.

Lemma resolved_first n nodes (opt opt1 opt2 : Optimizer V G) b c c2 :
  node_weight (opt_graph opt) n = Some b → const_cond (control_flow b) = true →
  resolved n (opt_graph opt) (opt_graph opt1) → entry opt1 = entry opt →
  c_post_order (analysis_cache opt1) = None ∧ c_dominators (analysis_cache opt1) = None ∧
    c_liveness (analysis_cache opt1) = None →
  branches_resolved nodes opt1 opt2 (c + 1) c2 → branches_resolved (n :: nodes) opt opt2 c c2.
Proof.
  intros Hb Hcc Hr Hent Hcache Hbr. split.
  - rewrite (br_ids _ _ _ _ _ Hbr). apply (re_indices _ _ _ Hr).
  - by rewrite (br_entry _ _ _ _ _ Hbr).
  - apply (br_ok _ _ _ _ _ Hbr).
  - intros x bx [->|Hx]%elem_of_cons Hbx; [|by eapply (br_done _ _ _ _ _ Hbr)].
    destruct (re_block _ _ _ Hr n b Hb) as (b1 & Hb1 & _ & _ & Hcf). rewrite decide_True in Hcf by done.
    destruct (br_kept _ _ _ _ _ Hbr n b1 Hb1) as (b2 & Hb2 & Hcf2); [by rewrite Hcf|].
    rewrite Hbx in Hb2. injection Hb2 as <-. by rewrite Hcf2, Hcf.
  - intros x bx Hbx Hcx. destruct (re_block _ _ _ Hr x bx Hbx) as (b1 & Hb1 & _ & _ & Hcf).
    rewrite decide_False in Hcf by (intros ->; congruence).
    destruct (br_kept _ _ _ _ _ Hbr x b1 Hb1) as (b2 & Hb2 & Hcf2); [by rewrite Hcf|].
    exists b2. by rewrite Hcf2, Hcf.
  - right. destruct (br_cache _ _ _ _ _ Hbr) as [[-> ->]|[Hlt Hca]]; split; (lia || done).
Qed.

Lemma const_branches_ok nodes (opt : Optimizer V G) changes :
  branches_ok (opt_graph opt) → (∀ n, n ∈ nodes → n ∈ node_ids opt) →
  ∃ changes' opt', const_branches nodes changes opt = Ret (changes', opt') ∧
    branches_resolved nodes opt opt' changes changes' ∧
    ∀ (Val World : Type) (mg : Meaning Val World) k s, branch_law mg →
      run_registers mg k (opt_graph opt') s = run_registers mg k (opt_graph opt) s.
Proof.
  revert opt changes. induction nodes as [|n nodes IH]; intros opt changes Hok Hn.
  - exists changes, opt. split; [done|]. split; [|done]. split; try done; [by intros ?? ?%not_elem_of_nil|by intros; eexists|by left].
  - destruct (proj2 (node_weight_node (opt_graph opt) n) (Hn n ltac:(constructor))) as [b Hb].
    pose proof (const_branch_ok (opt_graph opt) n b (Hok n b Hb) Hb) as Hc.
    cbn [const_branches]. unfold bind, get_state, lift. destruct (const_cond (control_flow b)) eqn:Hcc.
    + destruct Hc as (g' & Hg & Hr). rewrite Hg. unfold invalidate_structure, modify_state.
      match goal with |- context [const_branches nodes _ ?o] => set (opt1 := o) end.
      assert (Hids : node_ids opt1 = node_ids opt) by apply (re_indices _ _ _ Hr).
      destruct (IH opt1 (changes + 1)) as (c2 & opt2 & -> & Hbr & Hrun); [by eapply resolved_ok| |].
      { intros x Hx. rewrite Hids. apply Hn. by constructor. }
      exists c2, opt2. split; [done|]. split.
      * by apply (resolved_first n nodes opt opt1 opt2 b changes c2).
      * intros Val World mg k s Hl. rewrite Hrun by done. change (opt_graph opt1) with g'.
        induction k as [|k IHk]; [done|]. change (step_registers mg g' (run_registers mg k g' s) =
          step_registers mg (opt_graph opt) (run_registers mg k (opt_graph opt) s)).
        rewrite IHk. by eapply resolved_step.
    + rewrite Hc. destruct (IH opt changes Hok) as (c2 & opt2 & -> & Hbr & Hrun); [intros; apply Hn; by constructor|].
      exists c2, opt2. split; [done|]. split; [|done].
      split; [apply Hbr..| |apply Hbr|apply Hbr].
      intros x bx [->|Hx]%elem_of_cons Hbx; [|by eapply (br_done _ _ _ _ _ Hbr)].
      destruct (br_kept _ _ _ _ _ Hbr n b Hb Hcc) as (b2 & Hb2 & Hcf2).
      rewrite Hbx in Hb2. injection Hb2 as <-. by rewrite Hcf2.
Qed.

(** C16. On a graph whose branches are built as the parser builds them, the pass
    returns and no branch on a constant is left; the remaining branches keep
    that form, the caches that a change makes stale are cleared, and every
    program state leads to exactly the states it led to before. *)
Theorem const_branches_eliminated {Val World : Type} (mg : Meaning Val World) (opt : Optimizer V G) changes :
  branches_ok (opt_graph opt) → branch_law mg →
  ∃ changes' opt', EliminateConstBranches changes opt = Ret (changes', opt') ∧
    branches_resolved (node_ids opt) opt opt' changes changes' ∧
    ∀ k s, run_registers mg k (opt_graph opt') s = run_registers mg k (opt_graph opt) s.
Proof.
  intros Hok Hl. destruct (const_branches_ok (node_ids opt) opt changes Hok) as (c & opt' & Heq & Hbr & Hrun); [done|].
  exists c, opt'. split; [exact Heq|]. split; [done|]. intros k s. by apply Hrun.
Qed.
End const_branches.

(** ** [EliminateDeadBlocks] *)

Section dead_blocks.
  Context {V G : Type} `{SV : StableVec V} `{!StableVecSpec V}
    `{SG : StableDiGraph V G} `{!StableDiGraphSpec V G} `{SM : !StableDiGraphMut V G} `{!StableDiGraphMutSpec V G}.

(** The nodes of [keep] stay, with all that they hold. *)
Record restricted (keep : NodeIndex → Prop) (g g' : G) : Prop := {
  rt_nodes n : n ∈ node_indices g' ↔ n ∈ node_indices g ∧ keep n;
  rt_weight n : keep n → node_weight g' n = node_weight g n;
  rt_edges n : keep n → edges g' n = edges g n;
}.

Lemma restricted_remove (keep : NodeIndex → Prop) (g g0 : G) n :
  (∀ a b, keep a → edge g a b → keep b) → ¬ keep n →
  (∀ m, keep m → node_weight g0 m = node_weight g m ∧ edges g0 m = edges g m) →
  ∀ m, keep m → node_weight (remove_node g0 n) m = node_weight g m ∧ edges (remove_node g0 n) m = edges g m.
Proof.
  intros Hc Hn Hk m Hm. destruct (Hk m Hm) as [Hw He]. assert (Hne : m ≠ n) by by intros ->.
  rewrite remove_node_weight, remove_node_edges, Hw, He by done. split; [done|]. apply filter_all.
  intros [e t] Hin. cbn. intros ->. apply Hn, (Hc m); [done|]. apply list_elem_of_fmap. by exists (e, n).
Qed.

Lemma dead_blocks_ok (po nodes : list NodeIndex) (g g0 : G) changes :
  (∀ a b, a ∈ po → edge g a b → b ∈ po) →
  (∀ m, m ∈ po → node_weight g0 m = node_weight g m ∧ edges g0 m = edges g m) →
  let r := dead_blocks po nodes g0 changes in
  (∀ n, n ∈ node_indices r.1 ↔ n ∈ node_indices g0 ∧ (n ∈ nodes → n ∈ po)) ∧
  (∀ m, m ∈ po → node_weight r.1 m = node_weight g m ∧ edges r.1 m = edges g m) ∧
  r.2 = changes + N.of_nat (length (filter (λ n, n ∉ po) nodes)).
Proof.
  intros Hc. revert g0 changes. induction nodes as [|n nodes IH]; intros g0 changes Hk; cbn -[filter].
  - split_and!; [|done|cbn; lia]. intros n. split; [|by intros []]. intros Hn. split; [done|]. by intros ?%not_elem_of_nil.
  - rewrite filter_cons. destruct (decide (n ∈ po)) as [Hn|Hn].
    + rewrite decide_False by tauto. destruct (IH g0 changes Hk) as (H1 & H2 & H3). split_and!; [|done|done].
      intros m. rewrite H1, elem_of_cons. naive_solver.
    + rewrite decide_True by done. destruct (IH (remove_node g0 n) (changes + 1)) as (H1 & H2 & H3).
      { by apply (restricted_remove (λ m, m ∈ po)). }
      split_and!; [|done|rewrite H3; cbn -[filter]; lia].
      intros m. rewrite H1, remove_node_indices, list_elem_of_filter, elem_of_cons. naive_solver.
Qed.

Lemma reach_restricted (keep : NodeIndex → Prop) (g g' : G) root n :
  keep root → (∀ a b, keep a → edge g a b → keep b) → restricted keep g g' → reach (edge g) root n → reach (edge g') root n.
Proof.
  intros Hroot Hc Hr [l Hl]. exists l. revert Hroot. induction Hl as [|a b l c He Hw IH]; intros Ha; [constructor|].
  econstructor; [|by apply IH, (Hc a)]. unfold edge. by rewrite (rt_edges _ _ _ Hr).
Qed.

(** The machine stays in [keep]. *)
Lemma restricted_run {Val World : Type} (mg : Meaning Val World) (keep : NodeIndex → Prop) (g g' : G) k n env w :
  (∀ a b, keep a → edge g a b → keep b) → restricted keep g g' → keep n →
  run_registers mg k g' (Running n env w) = run_registers mg k g (Running n env w) ∧
  ∀ m e x, run_registers mg k g (Running n env w) = Running m e x → keep m.
Proof.
  intros Hc Hr Hn. induction k as [|k [IH Hk]]; [by split; [|intros ??? [= <-]]|].
  change (run_registers mg (S k) g' (Running n env w)) with (step_registers mg g' (run_registers mg k g' (Running n env w))).
  change (run_registers mg (S k) g (Running n env w)) with (step_registers mg g (run_registers mg k g (Running n env w))).
  rewrite IH. destruct (run_registers mg k g (Running n env w)) as [|x|m e x]; [done..|].
  specialize (Hk m e x eq_refl). unfold step_registers, step. rewrite (rt_weight _ _ _ Hr), (rt_edges _ _ _ Hr) by done.
  destruct (node_weight g m) as [b|]; [|done]. destruct (exec_insts _ _ _ _ e x) as [[e1 x1]|]; [|done].
  destruct (m_next _ _ _ _) as [t|]; [|done].
  assert (Hiff : edge g' m t ↔ edge g m t) by (unfold edge; by rewrite (rt_edges _ _ _ Hr)).
  destruct (decide (edge g m t)) as [He|He]; [rewrite decide_True by by apply Hiff|by rewrite decide_False by by rewrite Hiff].
  rewrite (rt_weight _ _ _ Hr) by by eapply Hc. split; [done|].
  destruct (node_weight g t ≫= _) as [[e2 x2]|]; [|done]. intros ??? [= <- _ _]. by eapply Hc.
Qed.

(** C18. The pass removes exactly the blocks that cannot be reached from the entry
    and counts them; the other blocks keep their code and their edges.  What is
    left has no unreached block before a join, so that the dominance frontiers
    exist, and every run from the entry is as before. *)
Theorem dead_blocks_eliminated {Val World : Type} (mg : Meaning Val World) (opt : Optimizer V G) changes :
  cache_fresh opt → (∀ n, n ∈ post_order_init opt ↔ reach (edge (opt_graph opt)) (entry opt) n) →
  (∀ p, ¬ edge (opt_graph opt) p (entry opt)) →
  let reached := reach (edge (opt_graph opt)) (entry opt) in
  ∃ changes' opt', EliminateDeadBlocks changes opt = Ret (changes', opt') ∧ entry opt' = entry opt ∧
    changes' = changes + N.of_nat (length (filter (λ n, n ∉ post_order_init opt) (node_ids opt))) ∧
    restricted reached (opt_graph opt) (opt_graph opt') ∧
    joins_reached (opt_graph opt') (entry opt') ∧
    ∀ k env w, run_registers mg k (opt_graph opt') (Running (entry opt) env w) =
               run_registers mg k (opt_graph opt) (Running (entry opt) env w).
Proof.
  intros Hf Ha Hroot reached. destruct (analysis_post_order_ok opt (fresh_post_order _ Hf)) as (c & Hpo & _).
  unfold EliminateDeadBlocks, bind, get_state, modify_state, ret. rewrite Hpo.
  change (node_ids (set_cache c opt)) with (node_ids opt). change (opt_graph (set_cache c opt)) with (opt_graph opt).
  destruct (dead_blocks_ok (post_order_init opt) (node_ids opt) (opt_graph opt) (opt_graph opt) changes) as (H1 & H2 & H3).
  { intros a b Hb%Ha He. apply Ha. by eapply reach_step. }
  { done. }
  destruct (dead_blocks (post_order_init opt) (node_ids opt) (opt_graph opt) changes) as [g' c'].
  cbn [fst snd] in *. eexists c', _. split; [reflexivity|].
  assert (Hr : restricted reached (opt_graph opt) g').
  { split; [|by intros n Hn%Ha; apply H2..].
    intros n. rewrite H1. unfold reached. rewrite <-Ha. unfold node_ids. tauto. }
  assert (Hc : ∀ a b, reached a → edge (opt_graph opt) a b → reached b) by (intros; by eapply reach_step).
  assert (Hin : ∀ n, n ∈ node_indices g' → reach (edge g') (entry opt) n).
  { intros n Hn. apply (rt_nodes _ _ _ Hr) in Hn as [_ Hn].
    eapply (reach_restricted reached); [apply reach_refl|exact Hc|exact Hr|exact Hn]. }
  split_and!; [done|done|exact Hr| |].
  - intros n Hn Hl. split; [|intros p Hp%sources_edge; by eapply Hin, edge_node_l].
    intros ->. change (2 ≤ length (sources g' (entry opt)))%nat in Hl.
    destruct (sources g' (entry opt)) as [|p ps] eqn:Hs; [cbn in Hl; lia|].
    assert (Hp : edge g' p (entry opt)) by (apply sources_edge; rewrite Hs; constructor).
    apply (Hroot p). unfold edge in *. rewrite <-(rt_edges _ _ _ Hr); [done|].
    apply (rt_nodes _ _ _ Hr). by eapply edge_node_l.
  - intros k env w. apply (restricted_run mg reached); [exact Hc|exact Hr|apply reach_refl].
Qed.
End dead_blocks.

(** ** [EliminateDeadPhi] *)

Section dead_phi.
  Context {V G : Type} `{SV : StableVec V} `{!StableVecSpec V} `{SO : !StableVecOps V} `{!StableVecOpsSpec V}
    `{SG : StableDiGraph V G} `{!StableDiGraphSpec V G}.

Lemma entry_value_of p phi : entry_value p phi = expect (entry_of p phi) "called `Option::unwrap()` on a `None` value".
Proof.
  unfold entry_value, entry_of. f_equal. induction (phi_entries phi) as [|e es IH]; [done|]. cbn.
  destruct (N.eqb_spec (pe_block e) p) as [->|Hne]; [by rewrite decide_True|by rewrite decide_False, IH].
Qed.

(** Where there is one predecessor, the phi nodes can be turned into copies one after
    the other: they have an entry for it, their results are registers, and no node
    reads a result of another. *)
Record phis_ok (g : G) : Prop := {
  po_entries n b p q : node_weight g n = Some b → sources g n = [p] → q ∈ phi_nodes b → is_Some (entry_of p q);
  po_out n b p q : node_weight g n = Some b → sources g n = [p] → q ∈ phi_nodes b → register (phi_out q) = Some (phi_out q);
  po_apart n b p q v : node_weight g n = Some b → sources g n = [p] → q ∈ phi_nodes b → entry_of p q = Some v →
    v ∉ phi_out <$> phi_nodes b;
}.

Definition copies (p : NodeIndex) (phis : list PhiInstruction) : list Instruction :=
  omap (λ q, (λ v, Instruction_new (Copy v) (phi_out q)) <$> entry_of p q) phis.

Lemma phi_assigns_ok p phis :
  Forall (λ q, is_Some (entry_of p q)) phis → phi_assigns p phis = Ret (copies p phis).
Proof.
  induction 1 as [|q phis [v Hv] _ IH]; [done|]. cbn. rewrite entry_value_of, Hv. cbn. by rewrite IH.
Qed.

(** The phi nodes of the node [n] with the predecessor [p] become copies. *)
Record copied_phis (n p : NodeIndex) (g g' : G) : Prop := {
  cp_indices : node_indices g' = node_indices g;
  cp_edges m : edges g' m = edges g m;
  cp_sources m : sources g' m = sources g m;
  cp_other m : m ≠ n → node_weight g' m = node_weight g m;
  cp_block : ∃ b b', node_weight g n = Some b ∧ node_weight g' n = Some b' ∧ phi_nodes b' = [] ∧
    sv_values (ops b') = copies p (phi_nodes b) ++ sv_values (ops b) ∧ control_flow b' = control_flow b;
  cp_source : sources g n = [p];
}.

Lemma dead_phi_ok (g : G) n b :
  phis_ok g → node_weight g n = Some b →
  match sources g n with
  | [p] => if is_empty (phi_nodes b) then dead_phi n g = Ret None
           else ∃ g', dead_phi n g = Ret (Some g') ∧ copied_phis n p g g'
  | _ => dead_phi n g = Ret None
  end.
Proof.
  intros Hok Hb. unfold dead_phi, block_of. rewrite Hb. cbn [expect obind].
  destruct (sources g n) as [|p [|p' ps]] eqn:Hs; [by destruct (phi_nodes b)| |by destruct (phi_nodes b)].
  destruct (phi_nodes b) as [|q qs] eqn:Hq; [done|]. cbn [is_empty].
  rewrite phi_assigns_ok.
  2:{ apply Forall_forall. intros x Hx. eapply (po_entries _ Hok); [done|done|]. by rewrite Hq. }
  cbn [obind]. eexists. split; [done|]. split; intros.
  - apply set_weight_indices.
  - apply set_weight_edges.
  - apply set_weight_sources.
  - by rewrite set_weight_other.
  - eexists b, _. split; [done|]. split; [apply set_weight_same, node_weight_node; by exists b|]. split_and!; [done| |done].
    cbn. rewrite sv_values_extend, sv_values_collect, Hq. done.
  - done.
Qed.

Lemma copied_ok n p (g g' : G) : copied_phis n p g g' → phis_ok g → phis_ok g'.
Proof.
  intros Hc Hok. destruct (cp_block _ _ _ _ Hc) as (b & b' & Hb & Hb' & Hnil & _).
  split; intros m bm x q; intros; (destruct (decide (m = n)) as [->|Hne];
    [assert (bm = b') as -> by congruence; rewrite Hnil in *; set_solver|
     rewrite (cp_other _ _ _ _ Hc), (cp_sources _ _ _ _ Hc) in * by done]).
  - by eapply (po_entries _ Hok).
  - by eapply (po_out _ Hok).
  - by eapply (po_apart _ Hok).
Qed.

Section machine.
  Context {Val World : Type} (mg : Meaning Val World).
(** A copy into a register. *)
Definition copy_law : Prop := ∀ v o x w, register o = Some o → m_op mg (Copy v) (Some o) [x] w = Some (x, w).

Lemma exec_insts_app l l' env w :
  exec_insts mg ∅ register (l ++ l') env w =
  match exec_insts mg ∅ register l env w with Some (env, w) => exec_insts mg ∅ register l' env w | None => None end.
Proof.
  revert env w. induction l as [|i l IH]; intros env w; [done|]. cbn.
  by destruct (exec_inst mg ∅ register i env w) as [[e x]|].
Qed.

(** Copies one after the other do what the phi nodes do at once. *)
Lemma exec_copies p phis (outs : list Variable_) env env0 w ms :
  copy_law → phi_moves mg register p env w phis = Some ms →
  (∀ q, q ∈ phis → register (phi_out q) = Some (phi_out q) ∧ phi_out q ∈ outs ∧
        ∀ v, entry_of p q = Some v → v ∉ outs) →
  (∀ v, v ∉ outs → env0 v = env v) →
  exec_insts mg ∅ register (copies p phis) env0 w = Some (foldl (move mg register) (env0, w) ms).
Proof.
  intros Hl. revert env0 ms. induction phis as [|q phis IH]; intros env0 ms Hm Hq Ha; [by injection Hm as <-|].
  unfold phi_moves in Hm. cbn in Hm. destruct (Hq q ltac:(constructor)) as (Hreg & Hin & Hv).
  unfold copies. cbn. destruct (entry_of p q) as [v|]; cbn in Hm |- *; [|done].
  destruct (mapM _ phis) as [ms1|] eqn:Hms; cbn in Hm; [|done]. injection Hm as <-.
  specialize (Hv v eq_refl). unfold exec_inst. rewrite erase_inst_none by done. cbn.
  assert (Hval : value mg register env0 w v = value mg register env w v).
  { unfold value. destruct (register v) as [k|] eqn:Hk; [|done]. rewrite (register_some v k Hk). by apply Ha. }
  change (op_reads (Copy v) (Some (phi_out q))) with [v]. cbn [fmap list_fmap].
  rewrite Hval, Hl, Hreg by done.
  change (exec_insts mg ∅ register (copies p phis) (<[phi_out q:=value mg register env w v]> env0) w =
          Some (foldl (move mg register) (move mg register (env0, w) (phi_out q, value mg register env w v)) ms1)).
  unfold move at 2. cbn [fst snd]. rewrite Hreg. apply IH.
  - done.
  - intros x Hx. apply Hq. by constructor.
  - intros x Hx. rewrite fn_lookup_insert_ne by (by intros <-). by apply Ha.
Qed.

Lemma phi_moves_some p env w phis :
  Forall (λ q, is_Some (entry_of p q)) phis → is_Some (phi_moves mg register p env w phis).
Proof.
  unfold phi_moves. induction 1 as [|q phis [v Hv] _ [ms IH]]; [by eexists|]. cbn. rewrite Hv. cbn. rewrite IH. by eexists.
Qed.

(** At [n] the copies are still to be executed. *)
Definition behind (n p : NodeIndex) (g : G) (s s' : machine (Variable_ → Val) World) : Prop :=
  match s, s' with
  | Stuck, Stuck => True
  | Finished w, Finished w' => w' = w
  | Running m env w, Running m' env' w' => m' = m ∧ w' = w ∧
      if decide (m = n)
      then ∀ b, node_weight g n = Some b → exec_insts mg ∅ register (copies p (phi_nodes b)) env' w = Some (env, w)
      else env' = env
  | _, _ => False
  end.
Lemma behind_observe n p g s s' : behind n p g s s' → observe s' = observe s.
Proof. destruct s, s'; cbn; naive_solver. Qed.

(** Entering [n]: the phi nodes before, nothing after. *)
Lemma enter_copied n p (g : G) b env w :
  phis_ok g → copy_law → node_weight g n = Some b → sources g n = [p] →
  ∃ env', enter mg register p env w (phi_nodes b) = Some (env', w) ∧
    exec_insts mg ∅ register (copies p (phi_nodes b)) env w = Some (env', w).
Proof.
  intros Hok Hl Hb Hs. unfold enter.
  destruct (phi_moves_some p env w (phi_nodes b)) as [ms Hms].
  { apply Forall_forall. intros q Hq. by eapply (po_entries _ Hok). }
  destruct (moves_kept mg [] ms env env w) as (env' & _ & Hm & _); [done| |].
  { apply Forall_forall. intros m Hm. apply (list_elem_of_fmap_2 fst) in Hm.
    rewrite (phi_moves_out _ _ _ _ _ _ Hms) in Hm. apply list_elem_of_fmap in Hm as (q & -> & Hq).
    by eapply (po_out _ Hok). }
  exists env'. rewrite Hms. cbn. rewrite Hm. split; [done|].
  rewrite (exec_copies p (phi_nodes b) (phi_out <$> phi_nodes b) env env w ms), Hm; [done|done|done| |done].
  intros q Hq. split_and!; [by eapply (po_out _ Hok)|by apply list_elem_of_fmap_2|].
  intros v Hv. by eapply (po_apart _ Hok).
Qed.

Lemma step_copied n p (g g' : G) s s' :
  phis_ok g → copy_law → copied_phis n p g g' → behind n p g s s' →
  behind n p g (step_registers mg g s) (step_registers mg g' s').
Proof.
  intros Hok Hl Hc Hs. destruct s as [|w|m env w], s' as [|w'|m' env' w']; try done.
  destruct Hs as (-> & -> & Henv). unfold step_registers, step.
  destruct (cp_block _ _ _ _ Hc) as (bn & bn' & Hbn & Hbn' & Hnil & Hvals & Hcf).
  assert (Hblk : match node_weight g m, node_weight g' m with
                 | None, None => True
                 | Some b, Some b' => control_flow b' = control_flow b ∧
                     exec_insts mg ∅ register (sv_values (ops b')) env' w = exec_insts mg ∅ register (sv_values (ops b)) env w
                 | _, _ => False
                 end).
  { destruct (decide (m = n)) as [->|Hne].
    - rewrite Hbn, Hbn'. split; [done|]. by rewrite Hvals, exec_insts_app, (Henv bn Hbn).
    - rewrite (cp_other _ _ _ _ Hc) by done. destruct (node_weight g m); [|done]. by subst env'. }
  destruct (node_weight g m) as [b|], (node_weight g' m) as [b'|]; try done. destruct Hblk as [-> ->].
  destruct (exec_insts _ _ _ (sv_values (ops b)) env w) as [[env1 w1]|]; [|done].
  rewrite (cp_edges _ _ _ _ Hc). destruct (m_next _ _ _ _) as [t|]; [|done].
  assert (Hiff : edge g' m t ↔ edge g m t) by (unfold edge; by rewrite (cp_edges _ _ _ _ Hc)).
  destruct (decide (edge g m t)) as [He|He]; [rewrite decide_True by by apply Hiff|by rewrite decide_False by by rewrite Hiff].
  destruct (decide (t = n)) as [->|Hne].
  - assert (m = p) as ->.
    { apply sources_edge in He. rewrite (cp_source _ _ _ _ Hc) in He. by apply list_elem_of_singleton in He. }
    rewrite Hbn, Hbn'. cbn [mbind option_bind]. rewrite Hnil.
    destruct (enter_copied n p g bn env1 w1) as (env2 & -> & Hex); [done|done|done|apply Hc|].
    cbn. split_and!; [done..|]. rewrite decide_True by done. intros x Hx. by simplify_eq.
  - rewrite (cp_other _ _ _ _ Hc) by done. destruct (node_weight g t ≫= _) as [[env2 w2]|]; [|done].
    cbn. by rewrite decide_False.
Qed.

Lemma run_copied n p (g g' : G) k start env w :
  phis_ok g → copy_law → copied_phis n p g g' → start ≠ n →
  observe (run_registers mg k g' (Running start env w)) = observe (run_registers mg k g (Running start env w)).
Proof.
  intros Hok Hl Hc Hne. apply (behind_observe n p g). induction k as [|k IH].
  - cbn. by rewrite decide_False.
  - change (behind n p g (step_registers mg g (run_registers mg k g (Running start env w)))
             (step_registers mg g' (run_registers mg k g' (Running start env w)))). by apply step_copied.
Qed.
End machine.

(** What the pass changes: phi nodes disappear where there is one predecessor. *)
Record phis_removed (nodes : list NodeIndex) (g g' : G) : Prop := {
  pm_indices : node_indices g' = node_indices g;
  pm_edges m : edges g' m = edges g m;
  pm_sources m : sources g' m = sources g m;
  pm_ok : phis_ok g';
  pm_phis m b' : node_weight g' m = Some b' →
    ∃ b, node_weight g m = Some b ∧ control_flow b' = control_flow b ∧ (phi_nodes b' = [] ∨ phi_nodes b' = phi_nodes b);
  pm_done m b' p : m ∈ nodes → node_weight g' m = Some b' → sources g m = [p] → phi_nodes b' = [];
}.

Lemma copied_removed n p nodes (g g1 g' : G) :
  copied_phis n p g g1 → phis_removed nodes g1 g' → phis_removed (n :: nodes) g g'.
Proof.
  intros Hc Hr. destruct (cp_block _ _ _ _ Hc) as (bn & bn' & Hbn & Hbn' & Hnil & _ & Hcf).
  split; [by rewrite (pm_indices _ _ _ Hr), (cp_indices _ _ _ _ Hc)|intros m; by rewrite (pm_edges _ _ _ Hr), (cp_edges _ _ _ _ Hc)|
          intros m; by rewrite (pm_sources _ _ _ Hr), (cp_sources _ _ _ _ Hc)|apply Hr| |].
  - intros m b' Hb'. destruct (pm_phis _ _ _ Hr m b' Hb') as (b & Hb & Hcfb & Hph).
    destruct (decide (m = n)) as [->|Hne].
    + rewrite Hbn' in Hb. injection Hb as <-. exists bn. split; [done|]. rewrite Hcfb. split; [done|]. left.
      by destruct Hph as [->| ->].
    + rewrite (cp_other _ _ _ _ Hc) in Hb by done. by exists b.
  - intros m b' q [->|Hm]%elem_of_cons Hb' Hs.
    + destruct (pm_phis _ _ _ Hr n b' Hb') as (b & Hb & _ & Hph). rewrite Hbn' in Hb. injection Hb as <-.
      by destruct Hph as [->| ->].
    + eapply (pm_done _ _ _ Hr); [done|done|]. by rewrite (cp_sources _ _ _ _ Hc).
Qed.

Lemma dead_phis_ok nodes (g : G) changes :
  phis_ok g → (∀ n, n ∈ nodes → n ∈ node_indices g) →
  ∃ g' changes', dead_phis nodes g changes = Ret (g', changes') ∧ phis_removed nodes g g' ∧
    ∀ (Val World : Type) (mg : Meaning Val World) k start env w, copy_law mg → (∀ p, ¬ edge g p start) →
      observe (run_registers mg k g' (Running start env w)) = observe (run_registers mg k g (Running start env w)).
Proof.
  revert g changes. induction nodes as [|n nodes IH]; intros g changes Hok Hn.
  - exists g, changes. split; [done|]. split; [|done]. split; try done; [intros m b Hb; exists b; auto|].
    by intros ??? ?%not_elem_of_nil.
  - destruct (proj2 (node_weight_node g n) (Hn n ltac:(constructor))) as [b Hb].
    pose proof (dead_phi_ok g n b Hok Hb) as Hd. cbn [dead_phis].
    assert (Hskip : dead_phi n g = Ret None → (∀ p, sources g n = [p] → phi_nodes b = []) →
      ∃ g' changes', dead_phis (n :: nodes) g changes = Ret (g', changes') ∧ phis_removed (n :: nodes) g g' ∧
      ∀ (Val World : Type) (mg : Meaning Val World) k start env w, copy_law mg → (∀ p, ¬ edge g p start) →
        observe (run_registers mg k g' (Running start env w)) = observe (run_registers mg k g (Running start env w))).
    { intros Hnone Hphi. cbn [dead_phis]. rewrite Hnone. cbn [obind].
      destruct (IH g changes Hok) as (g' & c' & -> & Hr & Hrun); [intros; apply Hn; by constructor|].
      exists g', c'. split; [done|]. split; [|done]. split; try apply Hr.
      intros m b' q [->|Hm]%elem_of_cons Hb' Hs; [|by eapply (pm_done _ _ _ Hr)].
      destruct (pm_phis _ _ _ Hr n b' Hb') as (x & Hx & _ & Hph). rewrite Hb in Hx. injection Hx as <-.
      destruct Hph as [->| ->]; [done|by eapply Hphi]. }
    destruct (sources g n) as [|p [|p' ps]] eqn:Hs; [by apply Hskip| |by apply Hskip].
    destruct (phi_nodes b) as [|q qs] eqn:Hq; [by apply Hskip|]. cbn [is_empty] in Hd. clear Hskip.
    destruct Hd as (g1 & -> & Hc). cbn [obind].
    destruct (IH g1 (changes + 1)) as (g' & c' & -> & Hr & Hrun); [by eapply copied_ok| |].
    { intros x Hx. rewrite (cp_indices _ _ _ _ Hc). apply Hn. by constructor. }
    exists g', c'. split; [done|]. split; [by eapply copied_removed|].
    intros Val World mg k start env w Hl Hst. rewrite Hrun; [|done|].
    + eapply run_copied; [exact Hok|exact Hl|exact Hc|]. intros ->. apply (Hst p). apply sources_edge. rewrite Hs. constructor.
    + intros x. unfold edge. rewrite (cp_edges _ _ _ _ Hc). apply Hst.
Qed.

(** C33. When a block with one predecessor has phi nodes that read nothing of each other,
    as in SSA form, the pass returns and turns them into copies: no such phi
    node is left, graph and branches are kept, and a program that starts at a
    block without predecessors does the same as before. *)
Theorem dead_phis_eliminated {Val World : Type} (mg : Meaning Val World) (opt : Optimizer V G) changes :
  phis_ok (opt_graph opt) → copy_law mg → (∀ p, ¬ edge (opt_graph opt) p (entry opt)) →
  ∃ g' changes', EliminateDeadPhi changes opt = Ret (changes', set_graph g' opt) ∧
    phis_removed (node_ids opt) (opt_graph opt) g' ∧
    ∀ k env w, observe (run_registers mg k g' (Running (entry opt) env w)) =
               observe (run_registers mg k (opt_graph opt) (Running (entry opt) env w)).
Proof.
  intros Hok Hl Hst. destruct (dead_phis_ok (node_ids opt) (opt_graph opt) changes Hok) as (g' & c' & Heq & Hr & Hrun); [done|].
  exists g', c'. unfold EliminateDeadPhi, bind, get_state, lift, modify_state, ret. rewrite Heq.
  split; [done|]. split; [done|]. intros k env w. by apply Hrun.
Qed.
End dead_phi.

(** ** The theorems at a branch *)

Definition ver (n : N) : Variable_ := versioned 9 n u32_item.
Definition yes : Variable_ := Variable_constant (CBool true).
Definition with_phi (phi : PhiInstruction) (b : BasicBlock Slots) : BasicBlock Slots := set_phis b [phi].
Definition choice : PhiInstruction :=
  {| phi_out := ver 3; phi_entries := [{| pe_block := 1; pe_value := ver 1 |}; {| pe_block := 2; pe_value := ver 2 |}] |}.
Definition branch_blocks (cf : ControlFlow) : list (BasicBlock Slots) := [
  block [set_to (ver 4) 5] cf;
  block [set_to (ver 1) 1] CfNone;
  block [set_to (ver 2) 0] CfNone;
  with_phi choice (block [Instruction_new (Copy (ver 3)) result_cell] CfReturn)].

(** A branch on a constant, with a result that nobody reads. *)
Definition const_graph : DemoGraph := {|
  lg_blocks := Some <$> branch_blocks (CfIfElse yes 1 2 (Some 3));
  lg_edges := Some <$> [(0, 1); (0, 2); (1, 3); (2, 3)];
|}.
(** The graph without the edge that is not taken. *)
Definition taken_graph : DemoGraph := {|
  lg_blocks := Some <$> branch_blocks CfNone;
  lg_edges := Some <$> [(0, 1); (1, 3); (2, 3)];
|}.
Definition single_graph : DemoGraph := {|
  lg_blocks := Some <$> branch_blocks CfNone;
  lg_edges := Some <$> [(0, 1); (1, 3)];
|}.
Definition const_opt : DemoOptimizer := with_graph ∅ const_graph 0 3.
Definition taken_opt : DemoOptimizer := with_graph ∅ taken_graph 0 3.
Definition single_opt : DemoOptimizer := with_graph ∅ single_graph 0 3.

(** Results that are registers are not written to the world; integers are u32. *)
Definition u32_read (w : world) (v : Variable_) : N :=
  match var_kind v with
  | ConstantScalar (CUInt n _) | ConstantScalar (CInt n _) => Z.to_N (wrap_u 32 n)
  | ConstantScalar (CBool b) => if b then 1 else 0
  | _ => world_read w v
  end.
Definition local_meaning : Meaning N world := {|
  m_op op out vals w :=
    (λ x, (x, match out with
              | Some o => match register o with Some _ => w | None => world_write w o x end
              | None => w
              end)) <$> arith op vals;
  m_read := u32_read;
  m_write := world_write;
  m_next cf succs c :=
    match cf, c with
    | CfIfElse _ t e _, Some x => Some (if decide (x = 1) then t else e)
    | CfSwitch _ d bs _, Some x => Some (default d (snd <$> List.find (λ y, y.1 =? x) bs))
    | CfReturn, _ => None
    | _, _ => head succs
    end;
|}.

Lemma local_pure : pure_law local_meaning.
Proof. intros op o vals w x w' _ Hr. cbn. destruct (arith op vals); [|done]. cbn. rewrite Hr. congruence. Qed.
Lemma local_copy : copy_law local_meaning.
Proof. intros v o x w Hr. cbn. by rewrite Hr. Qed.
Lemma local_branch : branch_law local_meaning.
Proof.
  split; [|done]. intros c succs w v t Hc Ht. destruct c as [v' t1 e m|v' d bs m| | | |]; try done; injection Hc as ->; cbn in *.
  - unfold u32_read. unfold as_const in Ht. destruct (var_kind v) as [| | | | | | | |k| | | | | |]; try done.
    destruct k as [| | |b]; try done. injection Ht as <-. by destruct b.
  - unfold u32_read. unfold as_const in Ht. destruct (var_kind v) as [| | | | | | | |k| | | | | |]; try done.
    destruct k; try done; by injection Ht as <-.
Qed.

(** *** What holds of the graphs *)

Lemma branch_graph cf (g : DemoGraph) (P : N → BasicBlock Slots → Prop) :
  lg_blocks g = Some <$> branch_blocks cf →
  match branch_blocks cf with [b0; b1; b2; b3] => P 0 b0 ∧ P 1 b1 ∧ P 2 b2 ∧ P 3 b3 | _ => False end →
  ∀ n b, node_weight g n = Some b → P n b.
Proof.
  intros Hg (H0 & H1 & H2 & H3) n b. change (lg_weight g n = Some b → P n b). unfold lg_weight. rewrite Hg. intros Hb.
  destruct (N.to_nat n) as [|[|[|[|k]]]] eqn:Hn; cbn in Hb; try discriminate; injection Hb as <-.
  - by replace n with 0 by lia.
  - by replace n with 1 by lia.
  - by replace n with 2 by lia.
  - by replace n with 3 by lia.
Qed.
Lemma code_block (g : DemoGraph) n i : i ∈ code g n → ∃ b, node_weight g n = Some b ∧ i ∈ sv_values (ops b).
Proof. unfold code. destruct (node_weight g n) as [b|]; [by exists b|by intros ?%not_elem_of_nil]. Qed.

Lemma const_readable : code_readable const_graph.
Proof.
  intros n. apply Forall_forall. intros i (b & Hb & Hi)%code_block. revert n b Hb i Hi.
  apply (branch_graph (CfIfElse yes 1 2 (Some 3)) const_graph (λ _ b, ∀ i, i ∈ sv_values (ops b) → readable_inst i = true)); [done|].
  by split_and!; intros i ->%list_elem_of_singleton.
Qed.
Lemma const_local : outs_local const_graph.
Proof.
  split.
  - intros n i o (b & Hb & Hi)%code_block _. revert n b Hb i Hi o.
    apply (branch_graph (CfIfElse yes 1 2 (Some 3)) const_graph (λ _ b, ∀ i, i ∈ sv_values (ops b) →
      ∀ o, inst_out i = Some o → is_global_array o = true ∨ register o = Some o)); [done|].
    split_and!; intros i ->%list_elem_of_singleton o [= <-]; [by right..|by left].
  - intros n b p Hb. revert p. revert n b Hb.
    apply (branch_graph (CfIfElse yes 1 2 (Some 3)) const_graph (λ _ b, ∀ p, p ∈ phi_nodes b → register (phi_out p) = Some (phi_out p))); [done|].
    split_and!; intros p Hp; [by apply not_elem_of_nil in Hp..|by apply list_elem_of_singleton in Hp as ->].
Qed.
Lemma const_branches_built : branches_ok const_graph.
Proof.
  refine (branch_graph (CfIfElse yes 1 2 (Some 3)) const_graph (λ n b, branch_ok const_graph n (control_flow b)) _ _); [done|].
  split_and!; try by split.
  split; [|by eexists]. split; [by vm_compute|]. intros x [= <-]. decided.
Qed.

Lemma taken_edge a b : edge taken_graph a b → (a, b) ∈ [(0, 1); (1, 3); (2, 3)].
Proof.
  intros ([e b'] & -> & (p & [= <-] & Hp)%lg_out_elem%lg_edge_in%list_elem_of_fmap)%list_elem_of_fmap. exact Hp.
Qed.
Lemma taken_entry p : ¬ edge taken_graph p 0.
Proof. intros He%taken_edge. set_solver. Qed.
Lemma taken_order n : n ∈ post_order_init taken_opt ↔ reach (edge taken_graph) 0 n.
Proof.
  replace (post_order_init taken_opt) with [3; 1; 0] by by vm_compute. split.
  - assert (H1 : reach (edge taken_graph) 0 1) by (eapply reach_step; [apply reach_refl|decided]).
    intros Hn. repeat (apply elem_of_cons in Hn as [->|Hn]); [|done|apply reach_refl|by apply not_elem_of_nil in Hn].
    eapply reach_step; [exact H1|decided].
  - intros [l Hl]. assert (Hs : ∀ a, walk (edge taken_graph) a l n → a ∈ [3; 1; 0] → n ∈ [3; 1; 0]); [|apply (Hs 0 Hl); set_solver].
    clear Hl. induction l as [|b l IH]; intros a Hw Ha; inversion Hw; subst; [done|]. eapply IH; [done|].
    match goal with H : edge taken_graph _ _ |- _ => apply taken_edge in H end. set_solver.
Qed.

Lemma single_entry p : ¬ edge single_graph p 0.
Proof.
  intros ([e b'] & Hb & (q & [= <-] & Hq)%lg_out_elem%lg_edge_in%list_elem_of_fmap)%list_elem_of_fmap.
  cbn in Hb. set_solver.
Qed.
Lemma single_phis : phis_ok single_graph.
Proof.
  assert (Hp : ∀ n b, node_weight single_graph n = Some b → ∀ q p, q ∈ phi_nodes b → sources single_graph n = [p] →
            q = choice ∧ p = 1 ∧ phi_nodes b = [choice]).
  { apply (branch_graph CfNone single_graph (λ n b, ∀ q p, q ∈ phi_nodes b → sources single_graph n = [p] →
            q = choice ∧ p = 1 ∧ phi_nodes b = [choice])); [done|].
    split_and!; intros q p Hq Hs; try by apply not_elem_of_nil in Hq. apply list_elem_of_singleton in Hq.
    replace (sources single_graph 3) with [1] in Hs by by vm_compute. by injection Hs as <-. }
  split; intros n b p q; intros.
  - by destruct (Hp n b ltac:(done) q p) as (-> & -> & _); [..|eexists].
  - by destruct (Hp n b ltac:(done) q p) as (-> & -> & _).
  - destruct (Hp n b ltac:(done) q p) as (-> & -> & Heq); [done..|]. rewrite Heq.
    match goal with H : entry_of 1 choice = Some _ |- _ => injection H as <- end. decided.
Qed.

(** *** Witnesses *)

Lemma unused_variables_removed_witness :
  ∃ changes' g', EliminateUnusedVariables 10 0 const_opt = Ret (changes', set_graph g' const_opt) ∧
    node_indices g' = node_ids const_opt ∧ (∀ n, edges g' n = edges const_graph n) ∧ nothing_unused g' ∧
    ∀ k n env w, run_registers local_meaning k const_graph (Running n env w) ≠ Stuck →
      observe (run_registers local_meaning k g' (Running n env w)) =
      observe (run_registers local_meaning k const_graph (Running n env w)).
Proof.
  apply (unused_variables_removed local_meaning 10 const_opt 0);
    [apply const_readable|apply const_local|apply local_pure|apply Nat.leb_le; by vm_compute].
Defined.

Lemma const_branches_eliminated_witness :
  ∃ changes' opt', EliminateConstBranches 0 const_opt = Ret (changes', opt') ∧
    branches_resolved (node_ids const_opt) const_opt opt' 0 changes' ∧
    ∀ k s, run_registers local_meaning k (opt_graph opt') s = run_registers local_meaning k const_graph s.
Proof. apply (const_branches_eliminated local_meaning const_opt 0); [apply const_branches_built|apply local_branch]. Defined.

Lemma dead_blocks_eliminated_witness :
  ∃ changes' opt', EliminateDeadBlocks 0 taken_opt = Ret (changes', opt') ∧ entry opt' = 0 ∧
    changes' = 0 + N.of_nat (length (filter (λ n, n ∉ post_order_init taken_opt) (node_ids taken_opt))) ∧
    restricted (reach (edge taken_graph) 0) taken_graph (opt_graph opt') ∧
    joins_reached (opt_graph opt') (entry opt') ∧
    ∀ k env w, run_registers local_meaning k (opt_graph opt') (Running 0 env w) =
               run_registers local_meaning k taken_graph (Running 0 env w).
Proof.
  apply (dead_blocks_eliminated local_meaning taken_opt 0); [by split|apply taken_order|apply taken_entry].
Defined.

Lemma dead_phis_eliminated_witness :
  ∃ g' changes', EliminateDeadPhi 0 single_opt = Ret (changes', set_graph g' single_opt) ∧
    phis_removed (node_ids single_opt) single_graph g' ∧
    ∀ k env w, observe (run_registers local_meaning k g' (Running 0 env w)) =
               observe (run_registers local_meaning k single_graph (Running 0 env w)).
Proof.
  apply (dead_phis_eliminated local_meaning single_opt 0); [apply single_phis|apply local_copy|apply single_entry].
Defined.

(** *** The passes together *)

Definition cleanup : M DemoOptimizer N :=
  let! n := EliminateConstBranches 0 in
  let! n := EliminateDeadBlocks n in
  let! n := EliminateDeadPhi n in
  EliminateUnusedVariables 10 n.
Definition cleaned : DemoGraph := match cleanup const_opt with Ret (_, opt) => opt_graph opt | _ => const_graph end.

(** The branch on [true] becomes a copy of the value of the taken side. *)
Example cleaned_code :
  (λ n, (n, (edges cleaned n).*2, phi_nodes <$> node_weight cleaned n, code cleaned n)) <$> node_indices cleaned =
  [(0, [1], Some [], []); (1, [3], Some [], [set_to (ver 1) 1]);
   (3, [], Some [], [Instruction_new (Copy (ver 1)) (ver 3); Instruction_new (Copy (ver 3)) result_cell])].
Proof. by vm_compute. Qed.

(** ** Limits of the passes *)

(** [CompositeMerge] counts assignments and not indices: two to the same index
    become a vector of both values. *)
Definition pair_item : Item := {| item_elem := EUInt U32; vectorization := Some 2%positive |}.
Definition pair : Variable_ := Variable_new (LocalMut 5) pair_item.
Definition assign_index (i : Z) (v : Variable_) : Instruction :=
  Instruction_new (OOperator (IndexAssign {| ia_index := num i; ia_value := v; ia_line_size := 0 |})) pair.
Definition one_block (l : list Instruction) : DemoOptimizer :=
  with_graph ∅ {| lg_blocks := [Some (block l CfReturn)]; lg_edges := [] |} 0 0.
Definition composed (l : list Instruction) : list Instruction :=
  match CompositeMerge 0 (one_block l) with Ret (_, opt) => code (opt_graph opt) 0 | _ => [] end.
Definition init_line (l : list Variable_) : Instruction := Instruction_new (OOperator (InitLine {| li_inputs := l |})) pair.

Example composite_counts : composed [assign_index 0 (num 1); assign_index 0 (num 2)] = [init_line [num 1; num 2]].
Proof. by vm_compute. Qed.

(** It reads the values where the last assignment was: here [x] has changed in between. *)
Example composite_reads_late :
  composed [assign_index 0 (cell 7); set_to (cell 7) 5; assign_index 1 (num 1)] =
  [set_to (cell 7) 5; init_line [cell 7; num 1]].
Proof. by vm_compute. Qed.

(** [EmptyBranchToSelect] removes the merge block and does not look whether it is the
    return block, as [MergeBlocks] does. *)
Definition select_graph : DemoGraph := {|
  lg_blocks := Some <$> [
    block [] (CfIfElse input_flag 1 2 (Some 3)); block [] CfNone; block [] CfNone; block [] CfReturn];
  lg_edges := Some <$> [(0, 1); (0, 2); (1, 3); (2, 3)];
|}.
Example select_loses_return :
  match EmptyBranchToSelect 5 0 (with_graph ∅ select_graph 0 3) with
  | Ret (_, opt) => (opt_ret opt, node_ids opt)
  | _ => (0, [])
  end = (3, [0]).
Proof. by vm_compute. Qed.
