(* ===== verification/GraphBuildProps.v ===== *)
(** * The graph of a parsed scope is well built

    Proofs about [GraphBuild.v]: every finished block has the successors that its
    control flow names, phi nodes have an entry for every predecessor, nothing
    leads to the entry, and splitting removes the critical edges.  A [Shape] is
    what these statements need of a graph. *)

From stdpp Require Import gmap sets functions.
From S2P Require Import Prelude Ir Visit Processing Cfg Dominance VersionProps ListGraph GraphPasses GraphBuild SsaDemo.

Open Scope N_scope.
Open Scope rust_scope.

(** ** Shapes *)

Record Node := { nd_cf : ControlFlow; nd_phis : list PhiInstruction; nd_succs : list NodeIndex }.
Definition Shape := NodeIndex → option Node.
Definition fresh_node : Node := {| nd_cf := CfNone; nd_phis := []; nd_succs := [] |}.
Definition with_succs (nd : Node) (l : list NodeIndex) : Node := {| nd_cf := nd_cf nd; nd_phis := nd_phis nd; nd_succs := l |}.
Definition with_cf (nd : Node) (c : ControlFlow) : Node := {| nd_cf := c; nd_phis := nd_phis nd; nd_succs := nd_succs nd |}.
Definition with_phi_node (nd : Node) (q : PhiInstruction) : Node :=
  {| nd_cf := nd_cf nd; nd_phis := nd_phis nd ++ [q]; nd_succs := nd_succs nd |}.

Definition upd (L : Shape) (n : NodeIndex) (nd : Node) : Shape := λ m, if decide (n = m) then Some nd else L m.
Lemma upd_same L n nd : upd L n nd n = Some nd.
Proof. unfold upd. by rewrite decide_True. Qed.
Lemma upd_other L n nd m : n ≠ m → upd L n nd m = L m.
Proof. intros Hne. unfold upd. by rewrite decide_False. Qed.

Definition leads (L : Shape) (a b : NodeIndex) : Prop := ∃ nd, L a = Some nd ∧ b ∈ nd_succs nd.

(** The successors that a control flow names, the merge blocks that exist. *)
Definition targets (L : Shape) (c : ControlFlow) (l : list NodeIndex) : Prop :=
  match c with
  | CfNone => ∃ t, l = [t]
  | CfReturn => False
  | CfIfElse _ t e m => l ≡ₚ [t; e] ∧ t ≠ e ∧ ∀ x, m = Some x → is_Some (L x)
  | CfSwitch _ d bs m => l ≡ₚ d :: bs.*2 ∧ NoDup (d :: bs.*2) ∧ ∀ x, m = Some x → is_Some (L x)
  | CfLoop b c m => l = [b] ∧ is_Some (L c) ∧ is_Some (L m)
  | CfLoopBreak _ b c m => l ≡ₚ [b; m] ∧ b ≠ m ∧ is_Some (L c)
  end.
Definition finished (L : Shape) (n : NodeIndex) : Prop := ∃ nd, L n = Some nd ∧ targets L (nd_cf nd) (nd_succs nd).
Definition covered (L : Shape) (n : NodeIndex) : Prop :=
  ∀ nd q p, L n = Some nd → q ∈ nd_phis nd → leads L p n → is_Some (entry_of p q).

(** [L'] comes from [L] by building from the block [c]: old blocks stay, new ones and
    [c] are finished unless they are in [U], new edges lead to new blocks, to the
    return block [r] or out of the innermost loop of [lb]; [r'] returns now. *)
Record grows (c : NodeIndex) (U : gset NodeIndex) (r : NodeIndex) (lb : list NodeIndex) (r' : NodeIndex)
    (L L' : Shape) : Prop := {
  gr_old n : is_Some (L n) → n ≠ c → L' n = L n;
  gr_start : ∃ nd nd', L c = Some nd ∧ L' c = Some nd' ∧ nd_phis nd' = nd_phis nd;
  gr_open n : n ∈ U → (n = c ∨ L n = None) ∧ is_Some (L' n);
  gr_done n : is_Some (L' n) → n = c ∨ L n = None → n ∉ U → finished L' n;
  gr_edges a b : leads L' a b → leads L a b ∨ L b = None ∨ b = r ∨ head lb = Some b;
  gr_self a : leads L' a a → leads L a a;
  gr_phis n : L n = None → covered L' n;
  gr_ret : (r' = r ∨ L r' = None) ∧ r' ≠ c ∧ r' ∉ U ∧ ∃ nd, L' r' = Some nd ∧ nd_phis nd = [];
}.

Section rules.
  Context (c : NodeIndex) (r : NodeIndex) (lb : list NodeIndex) (L : Shape).

Lemma grows_node U r' L1 n : grows c U r lb r' L L1 → is_Some (L n) → is_Some (L1 n).
Proof.
  intros Hg Hn. destruct (decide (n = c)) as [->|Hne]; [|by rewrite (gr_old _ _ _ _ _ _ _ Hg)].
  destruct (gr_start _ _ _ _ _ _ _ Hg) as (? & nd & _ & -> & _). by exists nd.
Qed.

Lemma targets_mono (L1 L2 : Shape) cf l : (∀ n, is_Some (L1 n) → is_Some (L2 n)) → targets L1 cf l → targets L2 cf l.
Proof. intros Hm. destruct cf; cbn; naive_solver. Qed.

Lemma grows_refl nd ndr :
  L c = Some nd → L r = Some ndr → nd_phis ndr = [] → c ≠ r → grows c {[c]} r lb r L L.
Proof.
  intros Hc Hr Hp Hne. split; try done.
  - by exists nd, nd.
  - intros n ->%elem_of_singleton. split; [by left|by eexists].
  - intros n [x Hx] [->|Hn]; [set_solver|congruence].
  - by left.
  - intros n Hn x q p Hx. congruence.
  - split_and!; [by left|done|set_solver|by exists ndr].
Qed.

(** A new block. *)
Lemma grows_add U r' L1 n :
  grows c U r lb r' L L1 → L1 n = None → grows c ({[n]} ∪ U) r lb r' L (upd L1 n fresh_node).
Proof.
  intros Hg Hn.
  assert (HL : L n = None).
  { destruct (L n) eqn:E; [|done]. destruct (grows_node U r' L1 n Hg) as [? ?]; [by eexists|congruence]. }
  assert (Hnc : n ≠ c) by (intros ->; destruct (gr_start _ _ _ _ _ _ _ Hg) as (? & ? & ? & ? & ?); congruence).
  assert (Hmono : ∀ m, is_Some (L1 m) → is_Some (upd L1 n fresh_node m)).
  { intros m Hm. destruct (decide (n = m)) as [<-|Hne]; [rewrite upd_same; by eexists|by rewrite upd_other]. }
  assert (Hlead : ∀ a b, leads (upd L1 n fresh_node) a b → leads L1 a b).
  { intros a b (nd & Ha & Hb). destruct (decide (n = a)) as [<-|Hne].
    - rewrite upd_same in Ha. injection Ha as <-. by apply not_elem_of_nil in Hb.
    - rewrite upd_other in Ha by done. by exists nd. }
  split.
  - intros m Hm Hne. rewrite upd_other by (intros <-; destruct Hm; congruence). by apply (gr_old _ _ _ _ _ _ _ Hg).
  - rewrite upd_other by done. apply Hg.
  - intros m [->%elem_of_singleton|Hm]%elem_of_union.
    + split; [by right|]. rewrite upd_same. by eexists.
    + destruct (gr_open _ _ _ _ _ _ _ Hg m Hm). split; [done|by apply Hmono].
  - intros m Hm Hnew [Hne Hu]%not_elem_of_union. apply not_elem_of_singleton in Hne.
    rewrite upd_other in Hm by done.
    destruct (gr_done _ _ _ _ _ _ _ Hg m Hm Hnew Hu) as (nd & Hnd & Ht). exists nd.
    rewrite upd_other by done. split; [done|]. by eapply targets_mono.
  - intros a b Hab%Hlead. by apply (gr_edges _ _ _ _ _ _ _ Hg).
  - intros a Ha%Hlead. by apply (gr_self _ _ _ _ _ _ _ Hg).
  - intros m Hm nd q p Hnd Hq Hp%Hlead. destruct (decide (n = m)) as [<-|Hne].
    + rewrite upd_same in Hnd. injection Hnd as <-. by apply not_elem_of_nil in Hq.
    + rewrite upd_other in Hnd by done. by eapply (gr_phis _ _ _ _ _ _ _ Hg m Hm).
  - destruct (gr_ret _ _ _ _ _ _ _ Hg) as (H1 & H2 & H3 & nd & H4 & H5).
    assert (n ≠ r') by (intros ->; congruence).
    split_and!; [done|done|set_solver|]. exists nd. by rewrite upd_other.
Qed.

(** An edge from an unfinished block. *)
Lemma grows_link U r' L1 a b nd nb l :
  grows c U r lb r' L L1 → a ∈ U → a ≠ b → L1 a = Some nd → L1 b = Some nb → nd_phis nb = [] →
  L b = None ∨ b = r ∨ head lb = Some b → l ≡ₚ b :: nd_succs nd →
  grows c U r lb r' L (upd L1 a (with_succs nd l)).
Proof.
  intros Hg Ha Hab Hnd Hnb Hphi Hb Hl.
  assert (Hmono : ∀ m, is_Some (L1 m) → is_Some (upd L1 a (with_succs nd l) m)).
  { intros m Hm. destruct (decide (a = m)) as [<-|Hne]; [rewrite upd_same; by eexists|by rewrite upd_other]. }
  assert (Hlead : ∀ x y, leads (upd L1 a (with_succs nd l)) x y → leads L1 x y ∨ (x = a ∧ y = b)).
  { intros x y (nx & Hx & Hy). destruct (decide (a = x)) as [<-|Hne].
    - rewrite upd_same in Hx. injection Hx as <-. cbn in Hy. rewrite Hl in Hy.
      apply elem_of_cons in Hy as [->|Hy]; [by right|]. left. by exists nd.
    - rewrite upd_other in Hx by done. left. by exists nx. }
  assert (Hphis : ∀ m nm, upd L1 a (with_succs nd l) m = Some nm → ∃ nm1, L1 m = Some nm1 ∧ nd_phis nm = nd_phis nm1).
  { intros m nm Hm. destruct (decide (a = m)) as [<-|Hne].
    - rewrite upd_same in Hm. injection Hm as <-. by exists nd.
    - rewrite upd_other in Hm by done. by exists nm. }
  destruct (gr_open _ _ _ _ _ _ _ Hg a Ha) as [Hac _].
  split.
  - intros m Hm Hne. rewrite upd_other; [by apply (gr_old _ _ _ _ _ _ _ Hg)|].
    intros <-. destruct Hac; [done|]. destruct Hm; congruence.
  - destruct (gr_start _ _ _ _ _ _ _ Hg) as (x & y & Hx & Hy & Hxy).
    destruct (Hmono c) as [z Hz]; [by eexists|]. destruct (Hphis c z Hz) as (y' & Hy' & Hzy).
    exists x, z. split_and!; [done|done|]. congruence.
  - intros m Hm. destruct (gr_open _ _ _ _ _ _ _ Hg m Hm). split; [done|by apply Hmono].
  - intros m Hm Hnew Hu. assert (Hne : a ≠ m) by by intros ->. rewrite upd_other in Hm by done.
    destruct (gr_done _ _ _ _ _ _ _ Hg m Hm Hnew Hu) as (nm & Hnm & Ht). exists nm.
    rewrite upd_other by done. split; [done|]. by eapply targets_mono.
  - intros x y [Hxy|[-> ->]]%Hlead; [by apply (gr_edges _ _ _ _ _ _ _ Hg)|by right].
  - intros x [Hx|[-> ->]]%Hlead; [by apply (gr_self _ _ _ _ _ _ _ Hg)|done].
  - intros m Hm nm q p Hnm Hq Hp. destruct (Hphis m nm Hnm) as (nm1 & Hnm1 & Heq). rewrite Heq in Hq.
    apply Hlead in Hp as [Hp|[-> ->]]; [by eapply (gr_phis _ _ _ _ _ _ _ Hg m Hm)|].
    assert (nm1 = nb) as -> by congruence. rewrite Hphi in Hq. by apply not_elem_of_nil in Hq.
  - destruct (gr_ret _ _ _ _ _ _ _ Hg) as (H1 & H2 & H3 & nr & H4 & H5).
    split_and!; [done|done|done|]. exists nr. rewrite upd_other by (by intros ->). done.
Qed.

(** An unfinished block gets its control flow. *)
Lemma grows_finish U r' L1 a nd cf :
  grows c U r lb r' L L1 → a ∈ U → L1 a = Some nd → targets L1 cf (nd_succs nd) →
  grows c (U ∖ {[a]}) r lb r' L (upd L1 a (with_cf nd cf)).
Proof.
  intros Hg Ha Hnd Ht. destruct (gr_open _ _ _ _ _ _ _ Hg a Ha) as [Hac _].
  assert (Hview : ∀ m, match L1 m, upd L1 a (with_cf nd cf) m with
                       | Some x, Some y => nd_phis y = nd_phis x ∧ nd_succs y = nd_succs x
                       | None, None => True | _, _ => False end).
  { intros m. destruct (decide (a = m)) as [<-|Hne]; [by rewrite upd_same, Hnd|].
    rewrite upd_other by done. by destruct (L1 m). }
  assert (Hback : ∀ m y, upd L1 a (with_cf nd cf) m = Some y →
            ∃ x, L1 m = Some x ∧ nd_phis y = nd_phis x ∧ nd_succs y = nd_succs x).
  { intros m y Hy. specialize (Hview m). rewrite Hy in Hview. destruct (L1 m) as [x|]; [by exists x|done]. }
  assert (Hlead : ∀ x y, leads (upd L1 a (with_cf nd cf)) x y → leads L1 x y).
  { intros x y (z & Hz & Hy). destruct (Hback x z Hz) as (w & Hw & _ & Hs). exists w. split; [done|]. by rewrite <-Hs. }
  assert (Hmono : ∀ m, is_Some (L1 m) → is_Some (upd L1 a (with_cf nd cf) m)).
  { intros m [x Hx]. specialize (Hview m). rewrite Hx in Hview. destruct (upd _ _ _ m) as [y|]; [by exists y|done]. }
  split.
  - intros m Hm Hne. rewrite upd_other; [by apply (gr_old _ _ _ _ _ _ _ Hg)|].
    intros <-. destruct Hac; [done|]. destruct Hm; congruence.
  - destruct (gr_start _ _ _ _ _ _ _ Hg) as (x & y & Hx & Hy & Hxy).
    destruct (Hmono c) as [z Hz]; [by eexists|]. destruct (Hback c z Hz) as (y' & Hy' & Hzy & _).
    exists x, z. split_and!; [done|done|]. congruence.
  - intros m [Hm _]%elem_of_difference. destruct (gr_open _ _ _ _ _ _ _ Hg m Hm). split; [done|by apply Hmono].
  - intros m Hm Hnew Hu. destruct (decide (a = m)) as [<-|Hne].
    + exists (with_cf nd cf). rewrite upd_same. split; [done|]. eapply targets_mono; [exact Hmono|exact Ht].
    + rewrite upd_other in Hm by done.
      destruct (gr_done _ _ _ _ _ _ _ Hg m Hm Hnew) as (nm & Hnm & Htm); [set_solver|]. exists nm.
      rewrite upd_other by done. split; [done|]. by eapply targets_mono.
  - intros x y Hxy%Hlead. by apply (gr_edges _ _ _ _ _ _ _ Hg).
  - intros x Hx%Hlead. by apply (gr_self _ _ _ _ _ _ _ Hg).
  - intros m Hm nm q p Hnm Hq Hp%Hlead. destruct (Hback m nm Hnm) as (x & Hx & Hph & _). rewrite Hph in Hq.
    by eapply (gr_phis _ _ _ _ _ _ _ Hg m Hm).
  - destruct (gr_ret _ _ _ _ _ _ _ Hg) as (H1 & H2 & H3 & nr & H4 & H5).
    split_and!; [done|done|set_solver|]. exists nr. rewrite upd_other by (by intros ->). done.
Qed.

(** It keeps the control flow that it has. *)
Lemma grows_close U r' L1 a :
  grows c U r lb r' L L1 → a ∈ U → finished L1 a → grows c (U ∖ {[a]}) r lb r' L L1.
Proof.
  intros Hg Ha Hf. split; try apply Hg.
  - intros m [Hm _]%elem_of_difference. by apply (gr_open _ _ _ _ _ _ _ Hg).
  - intros m Hm Hnew Hu. destruct (decide (m = a)) as [->|Hne]; [done|].
    apply (gr_done _ _ _ _ _ _ _ Hg m Hm Hnew). set_solver.
  - destruct (gr_ret _ _ _ _ _ _ _ Hg) as (H1 & H2 & H3 & H4). split_and!; [done|done|set_solver|done].
Qed.

(** A phi node with an entry for every predecessor. *)
Lemma grows_phi U r' L1 a nd q :
  grows c U r lb r' L L1 → a ∈ U → a ≠ c → L1 a = Some nd → (∀ p, leads L1 p a → is_Some (entry_of p q)) →
  grows c U r lb r' L (upd L1 a (with_phi_node nd q)).
Proof.
  intros Hg Ha Hne Hnd Hq. destruct (gr_open _ _ _ _ _ _ _ Hg a Ha) as [[|Hnew] _]; [done|].
  assert (Hback : ∀ m y, upd L1 a (with_phi_node nd q) m = Some y →
            ∃ x, L1 m = Some x ∧ nd_succs y = nd_succs x ∧ nd_cf y = nd_cf x ∧
              ∀ z, z ∈ nd_phis y → z ∈ nd_phis x ∨ (z = q ∧ m = a)).
  { intros m y Hy. destruct (decide (a = m)) as [<-|Hm].
    - rewrite upd_same in Hy. injection Hy as <-. exists nd. split_and!; [done..|]. cbn. set_solver.
    - rewrite upd_other in Hy by done. exists y. split_and!; [done..|]. by left. }
  assert (Hlead : ∀ x y, leads (upd L1 a (with_phi_node nd q)) x y → leads L1 x y).
  { intros x y (z & Hz & Hy). destruct (Hback x z Hz) as (w & Hw & Hs & _). exists w. split; [done|]. by rewrite <-Hs. }
  assert (Hmono : ∀ m, is_Some (L1 m) → is_Some (upd L1 a (with_phi_node nd q) m)).
  { intros m Hm. destruct (decide (a = m)) as [<-|Hm']; [rewrite upd_same; by eexists|by rewrite upd_other]. }
  split.
  - intros m Hm Hmc. rewrite upd_other; [by apply (gr_old _ _ _ _ _ _ _ Hg)|]. intros <-. destruct Hm; congruence.
  - rewrite upd_other by done. apply Hg.
  - intros m Hm. destruct (gr_open _ _ _ _ _ _ _ Hg m Hm). split; [done|by apply Hmono].
  - intros m Hm Hmn Hu. assert (Ham : a ≠ m) by by intros ->. rewrite upd_other in Hm by done.
    destruct (gr_done _ _ _ _ _ _ _ Hg m Hm Hmn Hu) as (nm & Hnm & Htm). exists nm.
    rewrite upd_other by done. split; [done|]. by eapply targets_mono.
  - intros x y Hxy%Hlead. by apply (gr_edges _ _ _ _ _ _ _ Hg).
  - intros x Hx%Hlead. by apply (gr_self _ _ _ _ _ _ _ Hg).
  - intros m Hm nm z p Hnm Hz Hp%Hlead. destruct (Hback m nm Hnm) as (x & Hx & _ & _ & Hph).
    destruct (Hph z Hz) as [Hz'|[-> ->]]; [by eapply (gr_phis _ _ _ _ _ _ _ Hg m Hm)|by apply Hq].
  - destruct (gr_ret _ _ _ _ _ _ _ Hg) as (H1 & H2 & H3 & nr & H4 & H5).
    split_and!; [done|done|done|]. exists nr. rewrite upd_other by (by intros ->). done.
Qed.

(** Another block for the returns. *)
Lemma grows_ret U r' L1 n nd :
  grows c U r lb r' L L1 → L n = None → n ∉ U → L1 n = Some nd → nd_phis nd = [] → grows c U r lb n L L1.
Proof.
  intros Hg Hn Hu Hnd Hp. split; try apply Hg. split_and!; [by right| |done|by exists nd].
  intros ->. destruct (gr_start _ _ _ _ _ _ _ Hg) as (x & _ & Hx & _). congruence.
Qed.

Lemma leads_old U r' L1 a b : grows c U r lb r' L L1 → leads L1 a b → L a ≠ None → a ≠ c → leads L a b.
Proof.
  intros Hg (nd & Ha & Hb) Hne Hac. exists nd. split; [|done]. rewrite <-Ha. symmetry.
  apply (gr_old _ _ _ _ _ _ _ Hg); [|done]. by apply not_eq_None_Some.
Qed.

(** Building goes on from the unfinished block [t]. *)
Lemma grows_inner U r1 lb1 L1 t U2 r2 L2 :
  grows c U r lb r1 L L1 → t ∈ U → grows t U2 r1 lb1 r2 L1 L2 →
  (∀ x, head lb1 = Some x → (L x = None ∨ head lb = Some x) ∧ ∃ nd, L1 x = Some nd ∧ nd_phis nd = []) →
  grows c ((U ∖ {[t]}) ∪ U2) r lb r2 L L2.
Proof.
  intros Hg Ht Hi Hlb. destruct (gr_open _ _ _ _ _ _ _ Hg t Ht) as [Htc Htn].
  assert (Hnew : ∀ n, L1 n = None → L n = None).
  { intros n Hn. destruct (L n) eqn:E; [|done]. destruct (grows_node U r1 L1 n Hg) as [? ?]; [by eexists|congruence]. }
  assert (Hsame : ∀ n, is_Some (L1 n) → n ≠ t → L2 n = L1 n) by apply (gr_old _ _ _ _ _ _ _ Hi).
  assert (Hmono : ∀ n, is_Some (L1 n) → is_Some (L2 n)).
  { intros n Hn. destruct (decide (n = t)) as [->|Hne]; [|by rewrite Hsame].
    destruct (gr_start _ _ _ _ _ _ _ Hi) as (? & nd & _ & -> & _). by exists nd. }
  assert (Hphis : ∀ n x y, L1 n = Some x → L2 n = Some y → nd_phis y = nd_phis x).
  { intros n x y Hx Hy. destruct (decide (n = t)) as [->|Hne].
    - destruct (gr_start _ _ _ _ _ _ _ Hi) as (x' & y' & Hx' & Hy' & He). congruence.
    - rewrite Hsame in Hy by (by eexists || done). congruence. }
  destruct (gr_ret _ _ _ _ _ _ _ Hg) as (Hr1 & Hr1c & Hr1U & nr & Hnr & Hnrp).
  split.
  - intros n Hn Hne. rewrite Hsame; [by apply (gr_old _ _ _ _ _ _ _ Hg)|by apply (grows_node U r1 L1 n Hg)|].
    intros ->. destruct Htc; [done|]. destruct Hn; congruence.
  - destruct (gr_start _ _ _ _ _ _ _ Hg) as (x & y & Hx & Hy & Hxy).
    destruct (Hmono c) as [z Hz]; [by eexists|]. exists x, z. split_and!; [done|done|].
    rewrite (Hphis c y z); done.
  - intros n [[Hn Hnt]%elem_of_difference|Hn]%elem_of_union.
    + destruct (gr_open _ _ _ _ _ _ _ Hg n Hn). split; [done|by apply Hmono].
    + destruct (gr_open _ _ _ _ _ _ _ Hi n Hn) as [[->|Hnn] Hs]; split; try done. right. by apply Hnew.
  - intros n Hn Hnc [Hu Hu2]%not_elem_of_union. destruct (L1 n) as [x|] eqn:Hx.
    + destruct (decide (n = t)) as [->|Hne]; [apply (gr_done _ _ _ _ _ _ _ Hi); [done|by left|done]|].
      destruct (gr_done _ _ _ _ _ _ _ Hg n) as (nd & Hnd & Htg); [by eexists|done|set_solver|].
      exists nd. rewrite Hsame by (by eexists || done). split; [done|]. by eapply targets_mono.
    + apply (gr_done _ _ _ _ _ _ _ Hi); [done|by right|done].
  - intros a b Hab. apply (gr_edges _ _ _ _ _ _ _ Hi) in Hab as [Hab|[Hb|[->|Hb]]].
    + by apply (gr_edges _ _ _ _ _ _ _ Hg).
    + right. left. by apply Hnew.
    + destruct Hr1 as [->|Hr1]; [by right; right; left|by right; left].
    + destruct (Hlb b Hb) as [[H|H] _]; [by right; left|by right; right; right].
  - intros a Ha%(gr_self _ _ _ _ _ _ _ Hi). by apply (gr_self _ _ _ _ _ _ _ Hg).
  - intros n Hn nd q p Hnd Hq Hp. destruct (L1 n) as [x|] eqn:Hx.
    + rewrite (Hphis n x nd Hx Hnd) in Hq. apply (gr_edges _ _ _ _ _ _ _ Hi) in Hp as [Hp|[Hp|[->|Hp]]].
      * by eapply (gr_phis _ _ _ _ _ _ _ Hg n Hn).
      * congruence.
      * assert (nr = x) as -> by congruence. rewrite Hnrp in Hq. by apply not_elem_of_nil in Hq.
      * destruct (Hlb n Hp) as [_ (y & Hy & Hyp)]. assert (y = x) as -> by congruence.
        rewrite Hyp in Hq. by apply not_elem_of_nil in Hq.
    + by eapply (gr_phis _ _ _ _ _ _ _ Hi n Hx).
  - destruct (gr_ret _ _ _ _ _ _ _ Hi) as (H1 & H2 & H3 & y & Hy & Hyp).
    assert (Hr2 : r2 = r1 ∨ L r2 = None) by (destruct H1 as [->|H1]; [by left|right; by apply Hnew]).
    split_and!; [| | |by exists y].
    + destruct Hr2 as [->|Hr2]; [done|by right].
    + destruct H1 as [->|H1]; [done|]. intros ->. destruct (gr_start _ _ _ _ _ _ _ Hg) as (? & ? & ? & ? & ?). congruence.
    + apply not_elem_of_union. split; [|done]. destruct H1 as [->|H1]; [set_solver|].
      intros [Hu _]%elem_of_difference. destruct (gr_open _ _ _ _ _ _ _ Hg r2 Hu) as [_ [? ?]]. congruence.
Qed.
End rules.

(** ** The primitives of the parser *)

Section primitives.
  Context {V G : Type} `{SV : StableVec V} `{SO : !StableVecOps V}
    `{SG : StableDiGraph V G} `{!StableDiGraphSpec V G} `{SM : !StableDiGraphMut V G} `{!StableDiGraphMutSpec V G}.

Definition look (g : G) : Shape := λ n,
  (λ b, {| nd_cf := control_flow b; nd_phis := phi_nodes b; nd_succs := (edges g n).*2 |}) <$> node_weight g n.

Lemma look_node g n : is_Some (look g n) ↔ n ∈ node_indices g.
Proof. unfold look. by rewrite fmap_is_Some, node_weight_node. Qed.
Lemma look_leads g a b : leads (look g) a b ↔ edge g a b.
Proof.
  split.
  - intros (nd & Ha & Hb). unfold look in Ha. destruct (node_weight g a); [|done]. by injection Ha as <-.
  - intros He. destruct (proj2 (node_weight_node g a)) as [w Hw]; [by eapply edge_node_l|].
    eexists. unfold look. by rewrite Hw.
Qed.
Lemma look_none_edges g n : look g n = None → (edges g n).*2 = [].
Proof.
  intros Hn. destruct (edges g n) as [|[e t] l] eqn:He; [done|]. exfalso.
  destruct (edge_nodes g n e t) as [Hi _]; [rewrite He; constructor|]. apply look_node in Hi as [? ?]. congruence.
Qed.

(** The state of the parser: shape, current block, loops, return block and entry. *)
Definition shaped (st : Builder V G) (L : Shape) (c : option NodeIndex) (lb : list NodeIndex) (r e : NodeIndex) : Prop :=
  (∀ n, look (b_graph st) n = L n) ∧ current_block st = c ∧ loop_break st = lb ∧ opt_ret (b_opt st) = r ∧
  entry (b_opt st) = e.

Lemma shaped_ext st L L' c lb r e : shaped st L c lb r e → (∀ n, L' n = L n) → shaped st L' c lb r e.
Proof. intros (H1 & H2) He. split; [|done]. intros n. by rewrite H1, He. Qed.

Lemma wp_add st L c lb r e Q :
  shaped st L c lb r e →
  (∀ n st', L n = None → shaped st' (upd L n fresh_node) c lb r e → Q n st') →
  wp (add_block default_block) st Q.
Proof.
  intros (Hl & Hc & Hb & Hr & He) HQ. unfold add_block, with_opt, wp, bind, get_state, modify_state, ret.
  pose proof (add_node_fresh (opt_graph (b_opt st)) default_block) as Hf.
  pose proof (add_node_same (opt_graph (b_opt st)) default_block) as Hs.
  pose proof (add_node_other (opt_graph (b_opt st)) default_block) as Ho.
  pose proof (add_node_edges (opt_graph (b_opt st)) default_block) as Hed.
  destruct (add_node (opt_graph (b_opt st)) default_block) as [n g']. cbn [fst snd] in *.
  assert (Hn : L n = None).
  { rewrite <-Hl. apply eq_None_not_Some. intros Hs'%look_node. by apply Hf. }
  apply HQ; [done|]. split; [|done]. intros m. change (look g' m = upd L n fresh_node m). destruct (decide (n = m)) as [<-|Hne].
  - rewrite upd_same. unfold look. rewrite Hs, Hed. cbn. unfold fresh_node. do 2 f_equal.
    change (opt_graph (b_opt st)) with (b_graph st). apply look_none_edges. by rewrite Hl.
  - rewrite upd_other, <-Hl by done. unfold look, b_graph. by rewrite Ho, Hed.
Qed.

Lemma wp_connect st L c lb r e a b nd nb Q :
  shaped st L c lb r e → L a = Some nd → L b = Some nb →
  (∀ l st', l ≡ₚ b :: nd_succs nd → shaped st' (upd L a (with_succs nd l)) c lb r e → Q tt st') →
  wp (connect a b) st Q.
Proof.
  intros (Hl & Hc & Hb & Hr & He) Hnd Hnb HQ.
  assert (Hin : ∀ m x, L m = Some x → m ∈ node_indices (opt_graph (b_opt st))).
  { intros m x Hx. apply look_node. change (opt_graph (b_opt st)) with (b_graph st). rewrite Hl. by exists x. }
  destruct (proj2 (add_edge_some (opt_graph (b_opt st)) a b)) as [g' Hg]; [split; by eapply Hin|].
  unfold connect, with_opt, wp, bind, get_state, lift, add_edge_ok, modify_state. rewrite Hg. cbn [expect].
  destruct (add_edge_same _ _ _ _ Hg) as [ed Hed].
  apply (HQ (edges g' a).*2).
  - rewrite Hed. cbn. f_equiv. rewrite <-Hl in Hnd. unfold look, b_graph in Hnd.
    destruct (node_weight (opt_graph (b_opt st)) a); [|done]. by injection Hnd as <-.
  - split; [|done]. intros m. change (look g' m = upd L a (with_succs nd (edges g' a).*2) m).
    destruct (decide (a = m)) as [<-|Hne].
    + rewrite upd_same. rewrite <-Hl in Hnd. unfold look, b_graph in Hnd |- *. rewrite (add_edge_weight _ _ _ _ a Hg).
      destruct (node_weight (opt_graph (b_opt st)) a); [|done]. by injection Hnd as <-.
    + rewrite upd_other, <-Hl by done. unfold look, b_graph.
      by rewrite (add_edge_weight _ _ _ _ m Hg), (add_edge_other _ _ _ _ m Hg).
Qed.

(** A change of a block, seen in its shape. *)
Lemma wp_edit st L c lb r e n nd f nd' Q :
  shaped st L c lb r e → L n = Some nd →
  (∀ b, control_flow b = nd_cf nd → phi_nodes b = nd_phis nd →
     control_flow (f b) = nd_cf nd' ∧ phi_nodes (f b) = nd_phis nd') → nd_succs nd' = nd_succs nd →
  (∀ st', shaped st' (upd L n nd') c lb r e → b_alloc st' = b_alloc st → Q tt st') →
  wp (edit_block n f) st Q.
Proof.
  intros (Hl & Hc & Hb & Hr & He) Hnd Hf Hs HQ.
  assert (Hw : ∃ w, node_weight (opt_graph (b_opt st)) n = Some w ∧ control_flow w = nd_cf nd ∧ phi_nodes w = nd_phis nd ∧
            (edges (opt_graph (b_opt st)) n).*2 = nd_succs nd).
  { rewrite <-Hl in Hnd. unfold look, b_graph in Hnd. destruct (node_weight (opt_graph (b_opt st)) n) as [w|]; [|done].
    exists w. by injection Hnd as <-. }
  destruct Hw as (w & Hw & Hcf & Hph & Hed).
  unfold edit_block, with_opt, wp, bind, get_state, lift, block_of, modify_state. rewrite Hw. cbn [expect].
  apply HQ; [|done]. split; [|done]. intros m.
  change (look (set_weight (opt_graph (b_opt st)) n (f w)) m = upd L n nd' m). unfold look.
  rewrite set_weight_edges. destruct (decide (n = m)) as [<-|Hne].
  - rewrite upd_same, set_weight_same by (apply node_weight_node; by exists w). destruct (Hf w Hcf Hph) as [H1 H2].
    cbn. rewrite H1, H2, Hed, <-Hs. by destruct nd'.
  - rewrite upd_other, set_weight_other, <-Hl by done. done.
Qed.

Lemma upd_id L n nd : L n = Some nd → ∀ m, upd L n nd m = L m.
Proof. intros Hn m. unfold upd. by case_decide as H; [subst|]. Qed.

Lemma wp_neutral st L c lb r e n f Q :
  shaped st L c lb r e → is_Some (L n) → (∀ b : BasicBlock V, control_flow (f b) = control_flow b ∧ phi_nodes (f b) = phi_nodes b) →
  (∀ st', shaped st' L c lb r e → b_alloc st' = b_alloc st → Q tt st') → wp (edit_block n f) st Q.
Proof.
  intros Hi [nd Hn] Hf HQ. eapply (wp_edit _ _ _ _ _ _ _ nd _ nd); [done|done| |done|].
  - intros b <- <-. apply Hf.
  - intros st' Hst'. apply HQ. eapply shaped_ext; [exact Hst'|]. intros m. by rewrite (upd_id L n nd).
Qed.

Lemma wp_set_cf st L c lb r e n nd cf Q :
  shaped st L c lb r e → L n = Some nd →
  (∀ st', shaped st' (upd L n (with_cf nd cf)) c lb r e → Q tt st') →
  wp (edit_block n (λ b, set_control_flow b cf)) st Q.
Proof.
  intros Hi Hn HQ. eapply (wp_edit _ _ _ _ _ _ _ nd _ (with_cf nd cf)); [done|done|by intros b _ Hp; split|done|].
  intros st' Hst' _. by apply HQ.
Qed.

Lemma wp_enter st L c lb r e n Q :
  shaped st L c lb r e → (∀ st', shaped st' L (Some n) lb r e → b_alloc st' = b_alloc st → Q tt st') → wp (enter_block n) st Q.
Proof. intros (H1 & H2 & H3) HQ. apply wp_modify, HQ; [split; [exact H1|by split]|done]. Qed.
Lemma wp_unwrap st L c lb r e Q : shaped st L (Some c) lb r e → Q c st → wp unwrap_current st Q.
Proof. intros (H1 & H2 & H3) HQ. apply wp_bind, wp_get. eapply wp_lift; [|exact HQ]. by rewrite H2. Qed.
Lemma wp_state_get st L c lb r e Q : shaped st L c lb r e → Q st st → wp get_state st Q.
Proof. intros _ HQ. by apply wp_get. Qed.
End primitives.

(** ** Parts of the parser *)

Section parser.
  Context {V G : Type} `{SV : StableVec V} `{SO : !StableVecOps V}
    `{SG : StableDiGraph V G} `{!StableDiGraphSpec V G} `{SM : !StableDiGraphMut V G} `{!StableDiGraphMutSpec V G}.

Definition cur_set (cur : option NodeIndex) : gset NodeIndex := match cur with Some n => {[n]} | None => ∅ end.
Definition open_at (L : Shape) (n : NodeIndex) : Prop := ∃ nd, L n = Some nd ∧ nd_cf nd = CfNone ∧ nd_succs nd = [].
(** A block that edges may lead to later. *)
Definition target_at (L : Shape) (n : NodeIndex) : Prop := ∃ nd, L n = Some nd ∧ nd_phis nd = [].

Definition ready (c r : NodeIndex) (lb : list NodeIndex) (L : Shape) : Prop :=
  open_at L c ∧ c ≠ r ∧ target_at L r ∧ ∀ x, head lb = Some x → c ≠ x ∧ target_at L x.
(** What parsing from the current block [c] does; [cur] is where it goes on. *)
Definition built (c r : NodeIndex) (lb : list NodeIndex) (L L' : Shape) (cur : option NodeIndex) (r' : NodeIndex) : Prop :=
  grows c (cur_set cur) r lb r' L L' ∧ ∀ n, cur = Some n → open_at L' n.
Definition parses {A : Type} (m : M (Builder V G) A) (in_loop falls : bool) : Prop :=
  ∀ st L c lb r e, shaped st L (Some c) lb r e → ready c r lb L → (in_loop = true → lb ≠ []) →
    wp m st (λ _ st', ∃ L' cur r', shaped st' L' cur lb r' e ∧ built c r lb L L' cur r' ∧ (is_Some cur ↔ falls = true)).

Lemma grows_set c U U' r lb r' L L' : grows c U r lb r' L L' → U = U' → grows c U' r lb r' L L'.
Proof. by intros ? <-. Qed.

Lemma perm_single (l : list NodeIndex) x : l ≡ₚ [x] → l = [x].
Proof. intros Hp. symmetry in Hp. by apply Permutation_singleton_l in Hp. Qed.

(** The current block goes on at [next]. *)
Lemma wp_join st c U r lb r' e L L1 cur lb1 next Q :
  shaped st L1 cur lb1 r' e → grows c U r lb r' L L1 → cur_set cur ⊆ U → (∀ k, cur = Some k → open_at L1 k ∧ k ≠ next) →
  L next = None → target_at L1 next →
  (∀ st' L2, shaped st' L2 cur lb1 r' e → grows c (U ∖ cur_set cur) r lb r' L L2 →
     (∀ m, cur ≠ Some m → L2 m = L1 m) → (∀ m, is_Some (L1 m) → is_Some (L2 m)) → (∀ k, cur = Some k → leads L2 k next) →
     Q (bool_decide (is_Some cur)) st') →
  wp (join next) st Q.
Proof.
  intros Hst Hg Hsub Hk Hn (nb & Hnb & Hphi) HQ. unfold join. apply wp_bind, wp_get.
  rewrite (proj1 (proj2 Hst)). destruct cur as [k|].
  - destruct (Hk k eq_refl) as [(nk & Hnk & Hcf & Hs) Hne].
    apply wp_bind. eapply (wp_connect _ L1); [exact Hst|done|done|]. intros l st' Hl Hst'. rewrite Hs in Hl.
    apply perm_single in Hl as ->. apply wp_ret. apply (HQ st' (upd L1 k (with_succs nk [next]))); [exact Hst'| | | |].
    + eapply grows_close; [eapply grows_link; [done|set_solver|done|done|done|done|by left|by rewrite Hs]|set_solver|].
      exists (with_succs nk [next]). rewrite upd_same. split; [done|]. cbn. rewrite Hcf. by exists next.
    + intros m Hm. apply upd_other. congruence.
    + intros m Hm. destruct (decide (k = m)) as [<-|]; [rewrite upd_same; by eexists|by rewrite upd_other].
    + intros ? [= <-]. exists (with_succs nk [next]). rewrite upd_same. split; [done|constructor].
  - apply wp_ret. apply (HQ st L1); [exact Hst| |done..]. eapply grows_set; [exact Hg|]. set_solver.
Qed.

Lemma wp_ret_block st c U r lb r1 e L L1 c0 lb1 Q :
  shaped st L1 c0 lb1 r1 e → grows c U r lb r1 L L1 →
  (∀ r2 st' L2, shaped st' L2 c0 lb1 r2 e → grows c U r lb r2 L L2 → (∀ m, is_Some (L1 m) → L2 m = L1 m) → Q r2 st') →
  wp ret_block st Q.
Proof.
  intros Hst Hg HQ. unfold ret_block. apply wp_bind, wp_get.
  destruct (gr_ret _ _ _ _ _ _ _ Hg) as (Hr & Hrc & HrU & nr & Hnr & Hp).
  assert (Hb : ∃ b, block_of (b_graph st) (opt_ret (b_opt st)) = Ret b).
  { pose proof Hst as (H1 & _ & _ & H4 & _). rewrite H4. unfold block_of. specialize (H1 r1). rewrite Hnr in H1.
    unfold look in H1. destruct (node_weight (b_graph st) r1) as [b|]; [by exists b|done]. }
  destruct Hb as [b Hb]. apply wp_bind. eapply wp_lift; [exact Hb|].
  assert (Hret : opt_ret (b_opt st) = r1) by apply Hst.
  destruct (decide (Merge ∈ block_use b)) as [_|_].
  - apply wp_bind. eapply (wp_add _ L1); [done|]. intros n st1 Hn Hst1.
    assert (Hne : n ≠ r1) by (intros ->; congruence).
    assert (HnL : L n = None).
    { destruct (L n) eqn:E; [|done]. destruct (grows_node _ _ _ _ _ _ _ n Hg) as [? ?]; [by eexists|congruence]. }
    rewrite Hret. apply wp_bind. eapply (wp_connect _ (upd L1 n fresh_node)); [done|by rewrite upd_same|by rewrite upd_other|].
    intros l st2 Hl Hst2. apply perm_single in Hl as ->.
    apply wp_bind. unfold with_opt, modify_state at 1, wp at 1.
    apply wp_bind. unfold invalidate_structure, with_opt, modify_state, wp at 1. apply wp_ret.
    eapply (HQ n _ (upd (upd L1 n fresh_node) n (with_succs fresh_node [r1]))).
    + destruct Hst2 as (H1 & H2 & H3 & H4 & H5). by split_and!.
    + assert (HnU : n ∉ U) by (intros Hu; destruct (gr_open _ _ _ _ _ _ _ Hg n Hu) as [_ [? ?]]; congruence).
      pose proof (grows_add c r lb L U r1 L1 n Hg Hn) as Ha.
      assert (Hrr : L r1 = None ∨ r1 = r ∨ head lb = Some r1) by (destruct Hr as [->|Hr]; [by right; left|by left]).
      pose proof (grows_link c r lb L _ r1 _ n r1 fresh_node nr [r1] Ha ltac:(set_solver) Hne (upd_same L1 n fresh_node)
        (eq_trans (upd_other L1 n fresh_node r1 Hne) Hnr) Hp Hrr (Permutation_refl [r1])) as Hk.
      assert (Hc : grows c U r lb r1 L (upd (upd L1 n fresh_node) n (with_succs fresh_node [r1]))).
      { eapply grows_set; [apply (grows_close c r lb L _ r1 _ n Hk); [set_solver|]|set_solver].
        exists (with_succs fresh_node [r1]). rewrite upd_same. split; [done|]. by exists r1. }
      by eapply (grows_ret c r lb L U r1 _ n (with_succs fresh_node [r1]) Hc); [| |rewrite upd_same|].
    + intros m Hm. assert (n ≠ m) by (intros ->; destruct Hm; congruence). by rewrite !upd_other.
  - apply wp_ret. rewrite Hret. by apply (HQ r1 st L1).
Qed.

(** A scope that is parsed from an unfinished block. *)
Lemma wp_inner (ps : Scope → M (Builder V G) bool) s il ft st c U r lb r1 e L L1 t lb1 Q :
  parses (ps s) il ft → shaped st L1 (Some t) lb1 r1 e → grows c U r lb r1 L L1 → t ∈ U → open_at L1 t →
  (∀ x, head lb1 = Some x → t ≠ x ∧ (L x = None ∨ head lb = Some x) ∧ target_at L1 x) → (il = true → lb1 ≠ []) →
  (∀ b st' L2 cur r2, shaped st' L2 cur lb1 r2 e → grows c ((U ∖ {[t]}) ∪ cur_set cur) r lb r2 L L2 →
     (∀ m, is_Some (L1 m) → m ≠ t → L2 m = L1 m) → (∀ k, cur = Some k → open_at L2 k ∧ (k = t ∨ L1 k = None)) →
     (is_Some cur ↔ ft = true) → (∀ m, is_Some (L1 m) → is_Some (L2 m)) → Q b st') →
  wp (ps s) st Q.
Proof.
  intros Hps Hst Hg Ht Hopen Hlb Hil HQ.
  destruct (gr_ret _ _ _ _ _ _ _ Hg) as (Hr & Hrc & HrU & nr & Hnr & Hp).
  eapply wp_mono; [apply (Hps st L1 t lb1 r1 e Hst); [|done]|].
  - split_and!; [done|by intros ->|by exists nr|]. intros x Hx. by destruct (Hlb x Hx) as (H1 & _ & H2).
  - intros b st' (L2 & cur & r2 & Hst2 & [Hb Hcur] & Hft).
    apply (HQ b st' L2 cur r2); [done| | | |done|].
    + eapply grows_inner; [done|done|done|]. intros x Hx. by destruct (Hlb x Hx) as (_ & H1 & H2).
    + intros m Hm Hne. by apply (gr_old _ _ _ _ _ _ _ Hb).
    + intros k Hk. split; [by apply Hcur|]. eapply (gr_open _ _ _ _ _ _ _ Hb). subst cur. set_solver.
    + intros m Hm. by eapply grows_node.
Qed.

(** ** Steps of the parser, with what has been built *)

Section steps.
  Context (c r : NodeIndex) (lb : list NodeIndex) (L : Shape) (e : NodeIndex) (Hready : ready c r lb L).

Definition tracks (st : Builder V G) (U : gset NodeIndex) (L1 : Shape) (cur : option NodeIndex) (lb1 : list NodeIndex)
    (r1 : NodeIndex) : Prop :=
  shaped st L1 cur lb1 r1 e ∧ grows c U r lb r1 L L1.

Lemma tracks_start st : shaped st L (Some c) lb r e → tracks st {[c]} L (Some c) lb r.
Proof.
  intros Hst. split; [done|]. destruct Hready as ((nd & Hc & _) & Hne & (nr & Hr & Hp) & _). by eapply grows_refl.
Qed.
Lemma tracks_new st U L1 cur lb1 r1 n : tracks st U L1 cur lb1 r1 → n ∈ U → n ≠ c → L n = None.
Proof. intros [_ Hg] Hn Hne. by destruct (gr_open _ _ _ _ _ _ _ Hg n Hn) as [[|] _]. Qed.
Lemma tracks_head st U L1 cur lb1 r1 x t :
  tracks st U L1 cur lb1 r1 → head lb = Some x → t ∈ U → t ≠ x ∧ (L x = None ∨ head lb = Some x) ∧ target_at L1 x.
Proof.
  intros Ht Hx HtU. destruct Hready as (_ & _ & _ & Hh). destruct (Hh x Hx) as [Hne (nd & Hnd & Hp)]. split_and!.
  - intros ->. assert (x ≠ c) by done. pose proof (tracks_new _ _ _ _ _ _ x Ht HtU). naive_solver.
  - by right.
  - exists nd. split; [|done]. rewrite <-Hnd. apply (gr_old _ _ _ _ _ _ _ (proj2 Ht)); [by eexists|done].
Qed.

Lemma tracks_set st U U' L1 cur lb1 r1 : tracks st U L1 cur lb1 r1 → U = U' → tracks st U' L1 cur lb1 r1.
Proof. by intros ? <-. Qed.
Lemma tracks_some st U L1 cur lb1 r1 n : tracks st U L1 cur lb1 r1 → n ∈ U → is_Some (L1 n).
Proof. intros [_ Hg] Hn. by destruct (gr_open _ _ _ _ _ _ _ Hg n Hn). Qed.

Lemma step_add {B} (k : NodeIndex → M (Builder V G) B) st U L1 cur lb1 r1 Q :
  tracks st U L1 cur lb1 r1 →
  (∀ n st', (∀ m, is_Some (L1 m) → n ≠ m) → L n = None → tracks st' ({[n]} ∪ U) (upd L1 n fresh_node) cur lb1 r1 →
     wp (k n) st' Q) →
  wp (bind (add_block default_block) k) st Q.
Proof.
  intros [Hst Hg] HQ. apply wp_bind. eapply (wp_add _ L1); [done|]. intros n st' Hn Hst'. apply HQ.
  - intros m [x Hx] ->. congruence.
  - destruct (L n) eqn:E; [|done]. destruct (grows_node _ _ _ _ _ _ _ n Hg) as [? ?]; [by eexists|congruence].
  - split; [done|]. by apply grows_add.
Qed.
Lemma step_link {B} (k : unit → M (Builder V G) B) st U L1 cur lb1 r1 a b nd nb Q :
  tracks st U L1 cur lb1 r1 → a ∈ U → a ≠ b → L1 a = Some nd → L1 b = Some nb → nd_phis nb = [] →
  L b = None ∨ b = r ∨ head lb = Some b →
  (∀ l st', l ≡ₚ b :: nd_succs nd → tracks st' U (upd L1 a (with_succs nd l)) cur lb1 r1 → wp (k tt) st' Q) →
  wp (bind (connect a b) k) st Q.
Proof.
  intros [Hst Hg] Ha Hab Hnd Hnb Hp Hb HQ. apply wp_bind. eapply (wp_connect _ L1); [done|done|done|].
  intros l st' Hl Hst'. apply (HQ l); [done|]. split; [done|]. by eapply grows_link.
Qed.
Lemma step_neutral {B} (k : unit → M (Builder V G) B) st U L1 cur lb1 r1 n f Q :
  tracks st U L1 cur lb1 r1 → is_Some (L1 n) →
  (∀ b : BasicBlock V, control_flow (f b) = control_flow b ∧ phi_nodes (f b) = phi_nodes b) →
  (∀ st', tracks st' U L1 cur lb1 r1 → wp (k tt) st' Q) → wp (bind (edit_block n f) k) st Q.
Proof.
  intros [Hst Hg] Hn Hf HQ. apply wp_bind. eapply wp_neutral; [done|done|done|]. intros st' Hst' _. by apply HQ.
Qed.
Lemma step_mark {B} (k : unit → M (Builder V G) B) st U L1 cur lb1 r1 m Q :
  tracks st U L1 cur lb1 r1 → (∀ n, m = Some n → is_Some (L1 n)) →
  (∀ st', tracks st' U L1 cur lb1 r1 → wp (k tt) st' Q) → wp (bind (mark_merge m) k) st Q.
Proof.
  intros Ht Hn HQ. destruct m as [n|]; [|by apply wp_bind, wp_ret, HQ]. eapply step_neutral; [done|by apply Hn|done|done].
Qed.
Lemma step_finish {B} (k : unit → M (Builder V G) B) st U L1 cur lb1 r1 a nd cf Q :
  tracks st U L1 cur lb1 r1 → a ∈ U → L1 a = Some nd → targets L1 cf (nd_succs nd) →
  (∀ st', tracks st' (U ∖ {[a]}) (upd L1 a (with_cf nd cf)) cur lb1 r1 → wp (k tt) st' Q) →
  wp (bind (edit_block a (λ b, set_control_flow b cf)) k) st Q.
Proof.
  intros [Hst Hg] Ha Hnd Htg HQ. apply wp_bind. eapply wp_set_cf; [done|done|]. intros st' Hst'.
  apply HQ. split; [done|]. by apply grows_finish.
Qed.
Lemma step_enter {B} (k : unit → M (Builder V G) B) st U L1 cur lb1 r1 n Q :
  tracks st U L1 cur lb1 r1 → (∀ st', tracks st' U L1 (Some n) lb1 r1 → wp (k tt) st' Q) → wp (bind (enter_block n) k) st Q.
Proof. intros [Hst Hg] HQ. apply wp_bind. eapply wp_enter; [done|]. intros st' Hst' _. by apply HQ. Qed.

Lemma step_close st U U' L1 cur lb1 r1 a nd t :
  tracks st U L1 cur lb1 r1 → a ∈ U → L1 a = Some nd → nd_cf nd = CfNone → nd_succs nd = [t] → U ∖ {[a]} = U' →
  tracks st U' L1 cur lb1 r1.
Proof.
  intros [Hst Hg] Ha Hnd Hcf Hs <-. split; [done|]. apply grows_close; [done|done|]. exists nd. split; [done|]. rewrite Hcf. by exists t.
Qed.

(** Steps that the shape does not see. *)
Definition quiet {A : Type} (m : M (Builder V G) A) : Prop :=
  ∀ st L1 cur lb1 r1, shaped st L1 cur lb1 r1 e → wp m st (λ _ st', shaped st' L1 cur lb1 r1 e).
Lemma step_quiet {A B} (m : M (Builder V G) A) (k : A → M (Builder V G) B) st U L1 cur lb1 r1 Q :
  quiet m → tracks st U L1 cur lb1 r1 → (∀ a st', tracks st' U L1 cur lb1 r1 → wp (k a) st' Q) → wp (bind m k) st Q.
Proof. intros Hm [Hst Hg] HQ. apply wp_bind. eapply wp_mono; [by apply Hm|]. intros a st' Hst'. by apply HQ. Qed.
Lemma quiet_insert id item : quiet (insert_variable id item).
Proof. intros st L1 cur lb1 r1 Hst. exact Hst. Qed.
Lemma quiet_alloc a pool : quiet (modify_state (set_alloc a pool)).
Proof. intros st L1 cur lb1 r1 Hst. exact Hst. Qed.
Lemma step_push {B} (k : unit → M (Builder V G) B) st U L1 cur lb1 r1 n Q :
  tracks st U L1 cur lb1 r1 → (∀ st', tracks st' U L1 cur (n :: lb1) r1 → wp (k tt) st' Q) → wp (bind (push_loop n) k) st Q.
Proof.
  intros [(H1 & H2 & H3 & H4) Hg] HQ. apply wp_bind, wp_modify, HQ. split; [|done].
  split; [exact H1|]. split; [done|]. split; [cbn; by rewrite H3|done].
Qed.
Lemma step_pop {B} (k : unit → M (Builder V G) B) st U L1 cur lb1 r1 n Q :
  tracks st U L1 cur (n :: lb1) r1 → (∀ st', tracks st' U L1 cur lb1 r1 → wp (k tt) st' Q) → wp (bind pop_loop k) st Q.
Proof.
  intros [(H1 & H2 & H3 & H4) Hg] HQ. apply wp_bind, wp_modify, HQ. split; [|done].
  split; [exact H1|]. split; [done|]. split; [cbn; by rewrite H3|done].
Qed.

(** The phi node of a loop variable has an entry for every predecessor. *)
Lemma step_phi {B} (k : unit → M (Builder V G) B) st U L1 cur lb1 r1 h nd id item Q :
  tracks st U L1 cur lb1 r1 → h ∈ U → h ≠ c → L1 h = Some nd →
  (∀ q st', tracks st' U (upd L1 h (with_phi_node nd q)) cur lb1 r1 → wp (k tt) st' Q) →
  wp (bind (with_opt (insert_phi h id item)) k) st Q.
Proof.
  intros [Hst Hg] Hh Hhc Hnd HQ. set (q := phi_for (b_opt st) h id item). apply wp_bind.
  assert (He : wp (edit_block h (λ b, set_phis b (phi_nodes b ++ [q]))) st (λ u st', wp (k u) st' Q)).
  { eapply (wp_edit _ _ _ _ _ _ _ nd _ (with_phi_node nd q)); [done|done| |done|].
    - intros b Hb1 Hb2. cbn. by rewrite Hb1, Hb2.
    - intros st' Hst' _. apply (HQ q). split; [done|]. apply grows_phi; [done|done|done|done|].
      intros p Hp. assert (Hps : p ∈ sources (opt_graph (b_opt st)) h).
      { apply sources_edge, look_leads. destruct Hp as (np & Hp1 & Hp2). exists np. by rewrite (proj1 Hst). }
      unfold entry_of, q, phi_for. cbn. unfold predecessors. clear -Hps. induction Hps as [l|x y l _ IH]; cbn.
      + rewrite decide_True by done. by eexists.
      + case_decide; [by eexists|done]. }
  cbv [edit_block with_opt wp bind get_state lift modify_state insert_phi] in He |- *.
  destruct (block_of (opt_graph (b_opt st)) h); exact He.
Qed.

(** The parser goes on in the open block [n], the only unfinished one. *)
Lemma end_at st U L1 r1 n :
  tracks st U L1 (Some n) lb r1 → U = {[n]} → open_at L1 n →
  ∃ L' cur' r', shaped st L' cur' lb r' e ∧ built c r lb L L' cur' r' ∧ (is_Some cur' ↔ true = true).
Proof. intros [Hst Hg] -> Ho. exists L1, (Some n), r1. split_and!; [done| |done]. split; [done|]. by intros ? [= <-]. Qed.
Lemma end_enter st U L1 cur r1 n :
  tracks st U L1 cur lb r1 → U = {[n]} → open_at L1 n →
  wp (enter_block n) st (λ _ st', ∃ L' cur' r', shaped st' L' cur' lb r' e ∧ built c r lb L L' cur' r' ∧ (is_Some cur' ↔ true = true)).
Proof.
  intros [Hst Hg] -> Ho. eapply wp_enter; [done|]. intros st' Hst' _. exists L1, (Some n), r1. split_and!; [done| |done].
  split; [done|]. by intros ? [= <-].
Qed.

(** A scope in a block of its own, which goes on at [next]. *)
Lemma step_arm {B} (ps : Scope → M (Builder V G) bool) s il ft (k : bool → bool → M (Builder V G) B) st U L1 cur0 r1 t next Q :
  parses (ps s) il ft → (il = true → lb ≠ []) → tracks st U L1 cur0 lb r1 → t ∈ U → next ∈ U → t ≠ next → next ≠ c →
  open_at L1 t → target_at L1 next →
  (∀ b j st' L2 cur r2, tracks st' (U ∖ {[t]}) L2 cur lb r2 → (∀ m, is_Some (L1 m) → m ≠ t → L2 m = L1 m) →
     (∀ m, is_Some (L1 m) → is_Some (L2 m)) → wp (k b j) st' Q) →
  wp (let! _ := enter_block t in let! b := ps s in let! j := join next in k b j) st Q.
Proof.
  intros Hps Hil Ht HtU HnU Htn Hnc Hopen Hnext HQ. eapply step_enter; [done|]. intros st1 [Hst1 Hg].
  apply wp_bind. eapply (wp_inner ps s il ft); [done|done|done|done|done| |done|].
  { intros x Hx. by eapply tracks_head. }
  intros b st2 L2 cur r2 Hst2 Hg2 Hsame Hcur _ Hmono.
  destruct Hnext as (nn & Hnn & Hphi).
  assert (Hk : ∀ k, cur = Some k → k = t ∨ k ∉ U).
  { intros k0 Hk0. destruct (Hcur k0 Hk0) as [_ [->|Hnone]]; [by left|right]. intros Hu.
    destruct (gr_open _ _ _ _ _ _ _ Hg k0 Hu) as [_ [? ?]]. congruence. }
  apply wp_bind. eapply (wp_join _ c _ r lb r2 e L L2 cur lb next); [done|done|set_solver| | | |].
  - intros k0 Hk0. split; [by apply (Hcur k0)|]. intros ->. by destruct (Hk next Hk0).
  - exact (tracks_new _ _ _ _ _ _ _ Ht HnU Hnc).
  - exists nn. split; [|done]. rewrite Hsame; [done|by eexists|by intros ->].
  - intros st3 L3 Hst3 Hg3 Hs3 Hmono3 _. apply (HQ b _ st3 L3 cur r2).
    + split; [done|]. eapply grows_set; [exact Hg3|]. destruct cur as [k0|]; cbn [cur_set]; [|set_solver].
      destruct (Hk k0 eq_refl); set_solver.
    + intros m Hm Hmt. rewrite Hs3; [by apply Hsame|]. intros ->. destruct (Hcur m eq_refl) as [_ [->|Hno]]; [done|].
      destruct Hm; congruence.
    + intros m Hm. by apply Hmono3, Hmono.
Qed.
End steps.

(** ** Branches *)

Ltac shape := repeat first [rewrite upd_same | rewrite upd_other by (done || by apply not_eq_sym)]; try done.

Section branches.
  Context (ps : Scope → M (Builder V G) bool).

Lemma parse_if_ok cond s il ft : parses (ps s) il ft → parses (parse_if ps cond s) il true.
Proof.
  intros Hps st L c lb r e Hst Hr Hil. unfold parse_if. apply wp_bind. eapply wp_unwrap; [done|].
  pose proof Hr as ((nd & Hc & Hcf & Hs) & _).
  eapply step_add; [by apply tracks_start|]. intros t st1 Hft Ht H1.
  eapply step_add; [done|]. intros n st2 Hfn Hn H2.
  assert (Htc : t ≠ c) by (apply Hft; by eexists). assert (Hnc : n ≠ c) by (apply Hfn; shape; by eexists).
  assert (Hnt : n ≠ t) by (apply Hfn; shape; by eexists).
  eapply (step_link _ _ _ _ _ _ _ _ _ _ _ _ c t nd fresh_node); [done|set_solver|done|shape|shape|done|by left|].
  intros l1 st3 Hl1 H3.
  eapply (step_link _ _ _ _ _ _ _ _ _ _ _ _ c n (with_succs nd l1) fresh_node); [done|set_solver|done|shape|shape|done|by left|].
  intros l2 st4 Hl2 H4.
  eapply (step_arm c r lb L e Hr ps s il ft _ _ _ _ _ _ t n); [done|done|exact H4|set_solver|set_solver|done|done| | |].
  { exists fresh_node. by shape. }
  { exists fresh_node. by shape. }
  intros b j st5 L5 cur r5 H5 Hsame _.
  assert (Hc5 : L5 c = Some (with_succs (with_succs nd l1) l2)) by (rewrite Hsame; shape; by eexists).
  assert (Hn5 : L5 n = Some fresh_node) by (rewrite Hsame; shape; by eexists).
  apply wp_bind. eapply wp_state_get; [apply H5|].
  assert (Hret : opt_ret (b_opt st5) = r5) by apply (proj1 H5). rewrite Hret.
  destruct (gr_ret _ _ _ _ _ _ _ (proj2 H5)) as (_ & _ & _ & nr & Hnr & _).
  eapply step_finish; [exact H5|set_solver|exact Hc5| |].
  { cbn in Hl1, Hl2 |- *. split_and!; [by rewrite Hl2, Hl1, Hs; apply Permutation_swap|done|]. intros x Hx. destruct b, j; simplify_eq; by eexists. }
  intros st6 H6. eapply step_mark; [exact H6| |].
  { intros x Hx. destruct (decide (c = x)) as [<-|]; [shape; by eexists|]. shape. destruct b, j; simplify_eq; by eexists. }
  intros st7 H7. eapply end_enter; [exact H7|set_solver|]. exists fresh_node. by shape.
Qed.
Lemma parse_if_else_ok cond s1 s2 il ft1 ft2 :
  parses (ps s1) il ft1 → parses (ps s2) il ft2 → parses (parse_if_else ps cond s1 s2) il true.
Proof.
  intros Hp1 Hp2 st L c lb r e Hst Hr Hil. unfold parse_if_else. apply wp_bind. eapply wp_unwrap; [done|].
  pose proof Hr as ((nd & Hc & Hcf & Hs) & _).
  eapply step_add; [by apply tracks_start|]. intros t st1 Hft Ht H1.
  eapply step_add; [done|]. intros o st2 Hfo Ho H2.
  eapply step_add; [done|]. intros n st3 Hfn Hn H3.
  assert (Htc : t ≠ c) by (apply Hft; by eexists). assert (Hoc : o ≠ c) by (apply Hfo; shape; by eexists).
  assert (Hot : o ≠ t) by (apply Hfo; shape; by eexists). assert (Hnc : n ≠ c) by (apply Hfn; shape; by eexists).
  assert (Hnt : n ≠ t) by (apply Hfn; shape; by eexists). assert (Hno : n ≠ o) by (apply Hfn; shape; by eexists).
  eapply (step_link _ _ _ _ _ _ _ _ _ _ _ _ c t nd fresh_node); [done|set_solver|done|shape|shape|done|by left|].
  intros l1 st4 Hl1 H4.
  eapply (step_link _ _ _ _ _ _ _ _ _ _ _ _ c o (with_succs nd l1) fresh_node); [done|set_solver|done|shape|shape|done|by left|].
  intros l2 st5 Hl2 H5. cbn in Hl1, Hl2.
  eapply (step_arm c r lb L e Hr ps s1 il ft1 _ _ _ _ _ _ t n); [done|done|exact H5|set_solver|set_solver|done|done| | |].
  1, 2: exists fresh_node; by shape.
  intros b j st6 L6 cur r6 H6 Hsame6 _. apply wp_bind. eapply wp_state_get; [apply H6|].
  assert (Hret : opt_ret (b_opt st6) = r6) by apply (proj1 H6). rewrite Hret.
  destruct (gr_ret _ _ _ _ _ _ _ (proj2 H6)) as (_ & _ & HrU & nr & Hnr & _).
  assert (Hc6 : L6 c = Some (with_succs (with_succs nd l1) l2)) by (rewrite Hsame6; shape; by eexists).
  assert (Hn6 : L6 n = Some fresh_node) by (rewrite Hsame6; shape; by eexists).
  eapply (step_arm c r lb L e Hr ps s2 il ft2 _ _ _ _ _ _ o n); [done|done|exact H6|set_solver|set_solver|done|done| | |].
  1, 2: exists fresh_node; rewrite Hsame6; shape; by eexists.
  intros b' j' st7 L7 cur' r7 H7 Hsame7 Hmono7.
  rewrite <-Hsame7 in Hc6, Hn6 by (done || by eexists).
  assert (Hr6 : is_Some (L7 r6)) by (apply Hmono7; by eexists).
  apply wp_bind. eapply wp_state_get; [apply H7|].
  assert (Hret7 : opt_ret (b_opt st7) = r7) by apply (proj1 H7). rewrite Hret7.
  destruct (gr_ret _ _ _ _ _ _ _ (proj2 H7)) as (_ & _ & _ & nr7 & Hnr7 & _).
  assert (Hm : ∀ x, (if b' || b then None else Some (if j' then if j then n else r6 else r7)) = Some x → is_Some (L7 x)).
  { intros x Hx. destruct b', b, j', j; simplify_eq/=; done || by eexists. }
  eapply step_finish; [exact H7|set_solver|exact Hc6| |].
  { cbn. split_and!; [by rewrite Hl2, Hl1, Hs; apply Permutation_swap|done|exact Hm]. }
  intros st8 H8. eapply step_mark; [exact H8| |].
  { intros x Hx%Hm. destruct (decide (c = x)) as [<-|]; [shape; by eexists|]. by shape. }
  intros st9 H9. eapply end_enter; [exact H9|set_solver|]. exists fresh_node. by shape.
Qed.
Lemma parse_cases_ok c r lb L e il cases :
  ready c r lb L → (il = true → lb ≠ []) →
  Forall (λ x, (∃ ft, parses (ps x.2) il ft) ∧ ∃ v, case_value x.1 = Ret v) cases →
  ∀ st U L1 cur0 r1 nd next,
    tracks c r lb L e st U L1 cur0 lb r1 → c ∈ U → next ∈ U → next ≠ c → L1 c = Some nd → L1 next = Some fresh_node →
    wp (parse_cases ps c next cases) st (λ '(bs, _, _) st', ∃ L2 cur r2 l,
      tracks c r lb L e st' U L2 cur lb r2 ∧ L2 c = Some (with_succs nd l) ∧ L2 next = Some fresh_node ∧
      l ≡ₚ bs.*2 ++ nd_succs nd ∧ NoDup bs.*2 ∧
      (∀ b, b ∈ bs.*2 → L1 b = None ∧ is_Some (L2 b)) ∧ ∀ m, is_Some (L1 m) → is_Some (L2 m)).
Proof.
  intros Hr Hil Hall. induction Hall as [|[val case] cases [[ft Hps] [v Hv]] _ IH];
    intros st U L1 cur0 r1 nd next Ht HcU HnU Hnc Hc Hn; cbn [parse_cases].
  - apply wp_ret. exists L1, cur0, r1, (nd_succs nd). split_and!; [done|by destruct nd|done|done|constructor| |done].
    intros b Hb. by apply not_elem_of_nil in Hb.
  - eapply step_add; [done|]. intros t st1 Hft HtL H1.
    assert (Htc : t ≠ c) by (apply Hft; by eexists). assert (Hnt : t ≠ next) by (apply Hft; by eexists).
    assert (HtU : t ∉ U) by (intros Hu; by apply (Hft t); [by eapply tracks_some|]).
    eapply (step_link _ _ _ _ _ _ _ _ _ _ _ _ c t nd fresh_node); [done|set_solver|done|shape|shape|done|by left|].
    intros l1 st2 Hl1 H2.
    eapply (step_arm c r lb L e Hr ps case il ft _ _ _ _ _ _ t next); [done|done|exact H2|set_solver|set_solver|done|done| | |].
    1, 2: exists fresh_node; by shape.
    intros b j st3 L3 cur r3 H3 Hsame Hmono. apply wp_bind. eapply wp_lift; [exact Hv|].
    assert (Hmono1 : ∀ m, is_Some (L1 m) → is_Some (L3 m)).
    { intros m Hm. apply Hmono. assert (t ≠ m) by by apply Hft. destruct (decide (c = m)) as [<-|]; shape; by eexists. }
    assert (Ht3 : is_Some (L3 t)) by (apply Hmono; shape; by eexists).
    apply wp_bind. eapply wp_mono; [apply (IH st3 U L3 cur r3 (with_succs nd l1) next)|].
    + eapply tracks_set; [exact H3|]. set_solver.
    + done.
    + done.
    + done.
    + rewrite Hsame; shape; by eexists.
    + rewrite Hsame; shape; by eexists.
    + intros [[bs brk] rets] st4 (L4 & cur4 & r4 & l & H4 & Hc4 & Hn4 & Hl & Hnd & Hbs & Hmono4). apply wp_ret.
      exists L4, cur4, r4, l. cbn in Hl1, Hl. split_and!; [done|exact Hc4|done| | | |].
      * rewrite Hl, Hl1. cbn. by rewrite Permutation_middle.
      * cbn. constructor; [|done]. intros Hin. destruct (Hbs _ Hin) as [Hno _]. destruct Ht3; congruence.
      * cbn. intros x [->|Hx]%elem_of_cons.
        -- split; [|by apply Hmono4]. destruct (L1 t) eqn:E; [|done]. by destruct (Hft t).
        -- destruct (Hbs x Hx) as [Hno Hso]. split; [|done]. destruct (L1 x) eqn:E; [|done].
           destruct (Hmono1 x); [by eexists|congruence].
      * intros m Hm. by apply Hmono4, Hmono1.
Qed.
Definition cases_ok (il : bool) (cases : list (Variable_ * Scope)) : Prop :=
  Forall (λ x, (∃ ft, parses (ps x.2) il ft) ∧ ∃ v, case_value x.1 = Ret v) cases.

Lemma parse_switch_ok value s cases il ft :
  parses (ps s) il ft → cases_ok il cases → parses (parse_switch ps value s cases) il true.
Proof.
  intros Hps Hcases st L c lb r e Hst Hr Hil. unfold parse_switch. apply wp_bind. eapply wp_unwrap; [done|].
  pose proof Hr as ((nd & Hc & Hcf & Hs) & _).
  eapply step_add; [by apply tracks_start|]. intros n st1 Hfn Hn H1. assert (Hnc : n ≠ c) by (apply Hfn; by eexists).
  apply wp_bind. eapply wp_mono; [apply (parse_cases_ok c r lb L e il cases Hr Hil Hcases st1 _ _ _ _ nd n H1);
    [set_solver|set_solver|done|shape|shape]|].
  intros [[bs brk] rets] st2 (L2 & cur2 & r2 & l & H2 & Hc2 & Hn2 & Hl & Hnd & Hbs & _). rewrite Hs, app_nil_r in Hl.
  eapply step_add; [done|]. intros d st3 Hfd Hd H3.
  assert (Hdc : d ≠ c) by (apply Hfd; by eexists). assert (Hdn : d ≠ n) by (apply Hfd; by eexists).
  eapply (step_link _ _ _ _ _ _ _ _ _ _ _ _ c d (with_succs nd l) fresh_node); [done|set_solver|done|shape|shape|done|by left|].
  intros l2 st4 Hl2 H4. cbn in Hl2.
  eapply (step_arm c r lb L e Hr ps s il ft _ _ _ _ _ _ d n); [done|done|exact H4|set_solver|set_solver|done|done| | |].
  1, 2: exists fresh_node; by shape.
  intros b j st5 L5 cur5 r5 H5 Hsame _.
  assert (Hc5 : L5 c = Some (with_succs nd l2)) by (rewrite Hsame; shape; by eexists).
  assert (Hn5 : L5 n = Some fresh_node) by (rewrite Hsame; shape; by eexists).
  apply wp_bind. eapply wp_state_get; [apply H5|].
  assert (Hret : opt_ret (b_opt st5) = r5) by apply (proj1 H5). rewrite Hret.
  destruct (gr_ret _ _ _ _ _ _ _ (proj2 H5)) as (_ & _ & _ & nr & Hnr & _).
  assert (Hfin : ∀ m st6, tracks c r lb L e st6 ({[n]} ∪ {[c]}) L5 cur5 lb r5 → (∀ x, m = Some x → is_Some (L5 x)) →
    wp (let! _ := edit_block c (λ b, set_control_flow b (CfSwitch value d bs m)) in enter_block n) st6
      (λ _ st', ∃ L' cur' r', shaped st' L' cur' lb r' e ∧ built c r lb L L' cur' r' ∧ (is_Some cur' ↔ true = true))).
  { intros m st6 H6 Hm. eapply step_finish; [exact H6|set_solver|exact Hc5| |].
    - cbn. split_and!; [by rewrite Hl2, Hl| |exact Hm]. constructor; [|done].
      intros Hin. destruct (Hbs d Hin) as [_ Hso]. by apply (Hfd d).
    - intros st7 H7. eapply end_enter; [exact H7|set_solver|]. exists fresh_node. by shape. }
  apply (tracks_set _ _ _ _ _ _ _ ({[n]} ∪ {[c]})) in H5; [|set_solver]. apply wp_bind.
  destruct (b || brk) eqn:Hb; [apply wp_ret; by apply Hfin|]. destruct (if j then rets else negb b).
  - apply wp_ret. apply Hfin; [done|]. intros x [= <-]. by eexists.
  - eapply step_neutral; [exact H5|by eexists|done|]. intros st6 H6. apply wp_ret. apply Hfin; [done|]. intros x [= <-]. by eexists.
Qed.
(** The blocks of a loop: header, body and the block after it. *)
Lemma step_header c r lb L e {B} (k : NodeIndex → NodeIndex → NodeIndex → M (Builder V G) B) st Q :
  ready c r lb L → tracks c r lb L e st {[c]} L (Some c) lb r →
  (∀ h b n st' L1, tracks c r lb L e st' {[n; b; h]} L1 (Some c) lb r → L1 h = Some (with_succs fresh_node [b]) →
     L1 b = Some fresh_node → L1 n = Some fresh_node → h ≠ c ∧ b ≠ c ∧ n ≠ c ∧ h ≠ b ∧ h ≠ n ∧ b ≠ n → L h = None → L n = None → wp (k h b n) st' Q) →
  wp (let! h := add_block default_block in let! _ := connect c h in let! b := add_block default_block in
      let! n := add_block default_block in let! _ := connect h b in k h b n) st Q.
Proof.
  intros ((nd & Hc & Hcf & Hs) & _) H0 HQ.
  eapply step_add; [done|]. intros h st1 Hfh Hh H1. assert (Hhc : h ≠ c) by (apply Hfh; by eexists).
  eapply (step_link _ _ _ _ _ _ _ _ _ _ _ _ c h nd fresh_node); [done|set_solver|done|shape|shape|done|by left|].
  intros l1 st2 Hl1 H2. rewrite Hs in Hl1. apply perm_single in Hl1 as ->.
  eapply (step_close _ _ _ _ _ _ _ {[h]} _ _ _ _ c) in H2; [|set_solver|by shape|done|done|set_solver].
  eapply step_add; [done|]. intros b st3 Hfb Hb H3.
  eapply step_add; [done|]. intros n st4 Hfn Hn H4.
  assert (Hbc : b ≠ c) by (apply Hfb; shape; by eexists). assert (Hbh : b ≠ h) by (apply Hfb; shape; by eexists).
  assert (Hnc : n ≠ c) by (apply Hfn; shape; by eexists). assert (Hnh : n ≠ h) by (apply Hfn; shape; by eexists).
  assert (Hnb : n ≠ b) by (apply Hfn; shape; by eexists).
  eapply (step_link _ _ _ _ _ _ _ _ _ _ _ _ h b fresh_node fresh_node); [done|set_solver|done|shape|shape|done|by left|].
  intros l2 st5 Hl2 H5. apply perm_single in Hl2 as ->.
  eapply (HQ h b n); [eapply tracks_set; [exact H5|set_solver]|by shape..| |done|done].
  by split_and!; try apply not_eq_sym.
Qed.

(** The body of a loop that is left to [n]. *)
Lemma step_body c r lb L e {B} (k : bool → M (Builder V G) B) s ft st U L1 cur0 r1 b n Q :
  parses (ps s) true ft → tracks c r lb L e st U L1 cur0 lb r1 → b ∈ U → b ≠ n → L n = None →
  L1 b = Some fresh_node → L1 n = Some fresh_node →
  (∀ br st' L2 cur r2, tracks c r lb L e st' ((U ∖ {[b]}) ∪ cur_set cur) L2 cur (n :: lb) r2 →
     (∀ m nd, L1 m = Some nd → m ≠ b → L2 m = Some nd) →
     (∀ x, cur = Some x → open_at L2 x ∧ ∀ m, is_Some (L1 m) → m ≠ b → x ≠ m) → (is_Some cur ↔ ft = true) → wp (k br) st' Q) →
  wp (let! _ := push_loop n in let! _ := enter_block b in let! br := ps s in k br) st Q.
Proof.
  intros Hps H1 HbU Hbn Hn Hb1 Hn1 HQ. eapply step_push; [done|]. intros st2 H2.
  eapply step_enter; [done|]. intros st3 [Hst3 Hg3].
  apply wp_bind. eapply (wp_inner ps s true ft _ c _ r lb r1 e L _ b (n :: lb)); [done|exact Hst3|exact Hg3|done| | |done|].
  { by exists fresh_node. }
  { intros ? [= <-]. split_and!; [done|by left|]. by exists fresh_node. }
  intros br st4 L4 cur r4 Hst4 Hg4 Hsame Hcur Hft _. apply (HQ br st4 L4 cur r4); [by split| | |done].
  - intros m nd Hm Hne. rewrite Hsame; [done|by eexists|done].
  - intros x Hx. destruct (Hcur x Hx) as [Ho Hor]. split; [done|]. intros m [nd Hm] Hne ->. destruct Hor; congruence.
Qed.

Lemma parse_loop_ok s ft il : parses (ps s) true ft → parses (parse_loop ps s) il true.
Proof.
  intros Hps st L c lb r e Hst Hr _. unfold parse_loop. apply wp_bind. eapply wp_unwrap; [done|].
  eapply (step_header c r lb L e); [done|by apply tracks_start|].
  intros h b n st1 L1 H1 Hh1 Hb1 Hn1 (Hhc & Hbc & Hnc & Hhb & Hhn & Hbn) Hh Hn.
  eapply step_body; [done|exact H1|set_solver|done..|].
  intros br st2 L2 cur r2 H2 Hsame Hcur _.
  pose proof (Hsame h _ Hh1 Hhb) as Hh2. pose proof (Hsame n _ Hn1 (not_eq_sym Hbn)) as Hn2.
  assert (Hk : ∀ k, cur = Some k → k ≠ h ∧ k ≠ n).
  { intros k [_ Hk]%Hcur. split; apply Hk; try done; by eexists. }
  eapply step_add; [done|]. intros ct st3 Hfct Hct H3.
  assert (Hcth : ct ≠ h) by (apply Hfct; by eexists). assert (Hctn : ct ≠ n) by (apply Hfct; by eexists).
  eapply step_neutral; [exact H3|shape; by eexists|done|]. intros st4 H4. eapply step_pop; [exact H4|]. intros st5 [Hst5 Hg5].
  assert (Hkct : ∀ k, cur = Some k → open_at (upd L2 ct fresh_node) k ∧ k ≠ ct).
  { intros k Hk'. destruct (Hcur k Hk') as [(x & Hx & Ho) _]. assert (ct ≠ k) by (apply Hfct; by eexists).
    split; [|done]. exists x. by shape. }
  apply wp_bind. eapply wp_join; [exact Hst5|exact Hg5|set_solver|done|done|exists fresh_node; by shape|].
  intros st6 L6 Hst6 Hg6 Hs6 _ _.
  assert (Hh6 : L6 h = Some (with_succs fresh_node [b])) by (rewrite Hs6; [by shape|intros Hx%Hk; naive_solver]).
  assert (Hn6 : L6 n = Some fresh_node) by (rewrite Hs6; [by shape|intros Hx%Hk; naive_solver]).
  assert (Hct6 : L6 ct = Some fresh_node) by (rewrite Hs6; [by shape|intros Hx%Hkct; naive_solver]).
  assert (H6 : tracks c r lb L e st6 {[ct; n; h]} L6 cur lb r2).
  { split; [done|]. eapply grows_set; [exact Hg6|]. destruct cur as [k|]; cbn [cur_set]; [|set_solver].
    destruct (Hk k eq_refl), (Hkct k eq_refl) as [_ ?]. set_solver. }
  eapply (step_link _ _ _ _ _ _ _ _ _ _ _ _ ct h fresh_node _); [exact H6|set_solver|done|done|exact Hh6|done|by left|].
  intros l3 st7 Hl3 H7. apply perm_single in Hl3 as ->.
  eapply (step_close _ _ _ _ _ _ _ {[n; h]} _ _ _ _ ct) in H7; [|set_solver|by shape|done|done|set_solver].
  eapply (step_finish _ _ _ _ _ _ _ _ _ _ _ _ h _ (CfLoop b ct n)); [exact H7|set_solver|shape; exact Hh6| |].
  { cbn. split_and!; [done|shape; by eexists|shape; by eexists]. }
  intros st8 H8. eapply step_neutral; [exact H8|shape; by eexists|done|].
  intros st9 H9. eapply end_enter; [exact H9|set_solver|]. exists fresh_node. by shape.
Qed.
(** The way back to the header: from the current block, or from a new one if that merges. *)
Lemma step_continue c r lb L e {B} (K : NodeIndex → M (Builder V G) B) st U L1 r1 k h nh Q :
  tracks c r lb L e st ({[k]} ∪ U) L1 (Some k) lb r1 → k ∉ U → h ∈ U → open_at L1 k → L h = None →
  L1 h = Some nh → nd_phis nh = [] →
  (∀ ct st' L2, tracks c r lb L e st' U L2 (Some k) lb r1 → (∀ m nd, L1 m = Some nd → m ≠ k → L2 m = Some nd) →
     is_Some (L2 ct) → is_Some (L2 k) → wp (K ct) st' Q) →
  wp (let! b := lift (block_of (b_graph st) k) in
      let! ct := if decide (Merge ∈ block_use b) then
                   let! target := add_block default_block in let! _ := connect k target in ret target
                 else ret k in
      let! _ := connect ct h in K ct) st Q.
Proof.
  intros H1 HkU HhU (nk & Hk & Hcf & Hs) Hh Hh1 Hp HQ. assert (Hhk : k ≠ h) by set_solver.
  assert (Hb : ∃ b, block_of (b_graph st) k = Ret b).
  { pose proof (proj1 (proj1 H1) k) as Hl. rewrite Hk in Hl. unfold look, block_of in *.
    destruct (node_weight (b_graph st) k) as [b|]; [by exists b|done]. }
  destruct Hb as [b Hb]. apply wp_bind. eapply wp_lift; [exact Hb|].
  destruct (decide (Merge ∈ block_use b)) as [_|_].
  - apply wp_bind. eapply step_add; [done|]. intros t st2 Hft Ht H2.
    assert (Htk : t ≠ k) by (apply Hft; by eexists). assert (Hth : t ≠ h) by (apply Hft; by eexists).
    assert (HtU : t ∉ U) by (intros Hu; by apply (Hft t); [eapply tracks_some; [exact H1|set_solver]|]).
    eapply (step_link _ _ _ _ _ _ _ _ _ _ _ _ k t nk fresh_node); [done|set_solver|done|shape|shape|done|by left|].
    intros l1 st3 Hl1 H3. rewrite Hs in Hl1. apply perm_single in Hl1 as ->.
    eapply (step_close _ _ _ _ _ _ _ ({[t]} ∪ U) _ _ _ _ k) in H3; [|set_solver|by shape|done|done|set_solver].
    apply wp_ret. eapply (step_link _ _ _ _ _ _ _ _ _ _ _ _ t h fresh_node nh); [done|set_solver|done|shape|shape|done|by left|].
    intros l2 st4 Hl2 H4. apply perm_single in Hl2 as ->.
    eapply (step_close _ _ _ _ _ _ _ U _ _ _ _ t) in H4; [|set_solver|by shape|done|done|set_solver].
    eapply HQ; [exact H4| |shape; by eexists|shape; by eexists].
    intros m nd Hm Hmk. assert (t ≠ m) by (apply Hft; by eexists). by shape.
  - apply wp_bind, wp_ret.
    eapply (step_link _ _ _ _ _ _ _ _ _ _ _ _ k h nk nh); [done|set_solver|done|done|done|done|by left|].
    intros l1 st3 Hl1 H3. rewrite Hs in Hl1. apply perm_single in Hl1 as ->.
    eapply (step_close _ _ _ _ _ _ _ U _ _ _ _ k) in H3; [|set_solver|by shape|done|done|set_solver].
    eapply HQ; [exact H3| |shape; by eexists|shape; by eexists]. intros m nd Hm Hmk. by shape.
Qed.

Lemma parse_for_loop_ok i start end_ step inclusive s il :
  (∃ id, loop_variable i = Ret id) → parses (ps s) true true → parses (parse_for_loop ps i start end_ step inclusive s) il true.
Proof.
  intros [id Hid] Hps st L c lb r e Hst Hr _. unfold parse_for_loop. cbv zeta.
  apply wp_bind. eapply wp_lift; [exact Hid|].
  eapply step_quiet; [apply quiet_insert|by apply tracks_start|]. intros _ st0 H0.
  apply wp_bind. eapply wp_unwrap; [apply H0|].
  eapply step_neutral; [exact H0|destruct Hr as ((nd & Hc & _) & _); by eexists|done|]. intros st1 H1.
  eapply (step_header c r lb L e); [done|done|].
  intros h b n st2 L2 H2 Hh2 Hb2 Hn2 (Hhc & Hbc & Hnc & Hhb & Hhn & Hbn) Hh Hn.
  eapply (step_link _ _ _ _ _ _ _ _ _ _ _ _ h n _ fresh_node); [done|set_solver|done|done|done|done|by left|].
  intros l st3 Hl H3. cbn in Hl. set (nh := with_succs (with_succs fresh_node [b]) l) in H3.
  eapply step_body; [done|exact H3|set_solver|done|done|shape; done|shape; done|].
  intros br st4 L4 cur r4 H4 Hsame Hcur [_ Hft]. destruct (Hft eq_refl) as [k ->]. clear Hft.
  assert (Hh4 : L4 h = Some nh) by (apply Hsame; [by shape|done]).
  assert (Hn4 : L4 n = Some fresh_node) by (apply Hsame; [by shape|by apply not_eq_sym]).
  destruct (Hcur k eq_refl) as [Hok Hk]. assert (Hkh : k ≠ h) by (apply Hk; [shape; by eexists|done]).
  assert (Hkn : k ≠ n) by (apply Hk; [shape; by eexists|by apply not_eq_sym]).
  eapply step_pop; [exact H4|]. intros st5 H5. apply wp_bind. eapply wp_state_get; [apply H5|].
  pose proof (proj1 (proj2 (proj1 H5))) as Hck. rewrite Hck. apply wp_bind, wp_ret.
  apply (tracks_set _ _ _ _ _ _ _ ({[k]} ∪ {[n; h]})) in H5; [|cbn [cur_set]; set_solver].
  eapply step_continue; [exact H5|set_solver|set_solver|exact Hok|done|exact Hh4|done|].
  intros ct st6 L6 H6 Hs6 Hct Hk6. pose proof (Hs6 h _ Hh4 (not_eq_sym Hkh)) as Hh6. pose proof (Hs6 n _ Hn4 (not_eq_sym Hkn)) as Hn6.
  eapply step_neutral; [exact H6|done|done|]. intros st7 H7. eapply step_neutral; [exact H7|by eexists|done|]. intros st8 H8.
  eapply step_enter; [exact H8|]. intros st9 H9.
  eapply step_phi; [exact H9|set_solver|done|exact Hh6|]. intros q st10 H10.
  apply wp_bind. eapply wp_state_get; [apply H10|]. destruct (create_local (b_alloc st10) (Item_new EBool)) as [tmp alloc].
  eapply step_quiet; [apply quiet_alloc|exact H10|]. intros _ st11 H11.
  eapply step_neutral; [exact H11|shape; by eexists|done|]. intros st12 H12.
  eapply (step_finish _ _ _ _ _ _ _ _ _ _ _ _ h _ (CfLoopBreak tmp b ct n)); [exact H12|set_solver|by shape| |].
  { cbn. split_and!; [by rewrite Hl; apply Permutation_swap|done|].
    destruct (decide (h = ct)) as [<-|]; [shape; by eexists|by shape]. }
  intros st13 [Hst13 Hg13]. eapply wp_neutral; [exact Hst13| |done|].
  { by shape. }
  intros st14 Hst14 _. eapply end_at; [split; [exact Hst14|exact Hg13]|set_solver|]. exists fresh_node. by shape.
Qed.
End branches.
(** ** Instructions *)

Lemma parses_ret {A} (a : A) il : parses (ret a : M (Builder V G) A) il true.
Proof.
  intros st L c lb r e Hst Hr _. apply wp_ret. exists L, (Some c), r. split_and!; [done| |done]. split.
  - by apply (tracks_start c r lb L e Hr st).
  - intros ? [= <-]. by destruct Hr.
Qed.

Lemma ready_next c r lb L L1 k r1 : ready c r lb L → built c r lb L L1 (Some k) r1 → ready k r1 lb L1.
Proof.
  intros Hr [Hg Ho]. destruct (gr_ret _ _ _ _ _ _ _ Hg) as (_ & _ & Hk & nr & Hnr & Hp). split_and!.
  - by apply Ho.
  - intros ->. set_solver.
  - by exists nr.
  - intros x Hx. destruct Hr as (_ & _ & _ & Hh). destruct (Hh x Hx) as [Hne (nd & Hnd & Hph)].
    assert (Hx1 : L1 x = Some nd) by (rewrite <-Hnd; apply (gr_old _ _ _ _ _ _ _ Hg); [by eexists|by apply not_eq_sym]).
    split; [|by exists nd]. intros ->. destruct (gr_open _ _ _ _ _ _ _ Hg x) as [[->|Hno] _]; [set_solver|done|congruence].
Qed.

Lemma parses_bind {A B} (m : M (Builder V G) A) (k : A → M (Builder V G) B) il ft :
  parses m il true → (∀ a, parses (k a) il ft) → parses (bind m k) il ft.
Proof.
  intros Hm Hk st L c lb r e Hst Hr Hil. apply wp_bind. eapply wp_mono; [by apply Hm|].
  intros a st1 (L1 & cur & r1 & Hst1 & Hb & [_ Hcur]). destruct (Hcur eq_refl) as [x ->].
  eapply wp_mono; [apply (Hk a st1 L1 x lb r1 e Hst1); [by eapply ready_next|done]|].
  intros y st2 (L2 & cur & r2 & Hst2 & [Hg2 Ho2] & Hc2). exists L2, cur, r2. split_and!; [done| |done].
  split; [|done]. destruct Hb as [Hg Ho]. eapply grows_set.
  - apply (grows_inner c r lb L (cur_set (Some x)) r1 lb L1 x (cur_set cur) r2 L2 Hg); [cbn [cur_set]; set_solver|exact Hg2|]. intros z Hz. split; [by right|].
    pose proof (ready_next _ _ _ _ _ _ _ Hr (conj Hg Ho)) as (_ & _ & _ & Hh). apply (Hh z Hz).
  - cbn [cur_set]. set_solver.
Qed.

(** The current block ends with an edge to [b]. *)
Lemma end_link c r lb L e st U L1 r1 nd b nb :
  tracks c r lb L e st U L1 None lb r1 → U = {[c]} → L1 c = Some nd → nd_cf nd = CfNone → nd_succs nd = [] → c ≠ b →
  L1 b = Some nb → nd_phis nb = [] → L b = None ∨ b = r ∨ head lb = Some b →
  wp (connect c b) st (λ _ st', ∃ L' cur' r', shaped st' L' cur' lb r' e ∧ built c r lb L L' cur' r' ∧ (is_Some cur' ↔ false = true)).
Proof.
  intros [Hst Hg] -> Hc Hcf Hs Hne Hb Hp Hor. eapply wp_connect; [exact Hst|done|done|]. intros l st' Hl Hst'.
  rewrite Hs in Hl. apply perm_single in Hl as ->.
  assert (Ht : tracks c r lb L e st' {[c]} (upd L1 c (with_succs nd [b])) None lb r1).
  { split; [done|]. eapply grows_link; [done|by apply elem_of_singleton|done|done|done|done|done|by rewrite Hs]. }
  eapply (step_close _ _ _ _ _ _ _ ∅) in Ht as [_ Hg']; [|by apply elem_of_singleton|by shape|done|done|set_solver].
  exists (upd L1 c (with_succs nd [b])), None, r1. split_and!; [done| |by split; [intros []|]]. by split.
Qed.

Lemma take_ok st L c lb r e Q :
  shaped st L (Some c) lb r e → (∀ st', shaped st' L None lb r e → Q c st') → wp take_current st Q.
Proof.
  intros Hst HQ. unfold take_current. apply wp_bind. eapply wp_unwrap; [done|]. apply wp_bind, wp_modify, wp_ret, HQ.
  destruct Hst as (H1 & H2 & H3). by (split; [exact H1|]).
Qed.

Lemma parse_return_ok ps il : parses (parse_control_flow ps BrReturn) il false.
Proof.
  intros st L c lb r e Hst Hr Hil. cbn [parse_control_flow]. apply wp_bind. eapply take_ok; [done|]. intros st1 Hst1.
  pose proof Hr as ((nd & Hc & Hcf & Hs) & _). destruct (tracks_start c r lb L e Hr st Hst) as [_ Hg].
  apply wp_bind. eapply wp_ret_block; [exact Hst1|exact Hg|]. intros r2 st2 L2 Hst2 Hg2 Hsame.
  destruct (gr_ret _ _ _ _ _ _ _ Hg2) as (Hor & Hne & _ & nr & Hnr & Hp).
  eapply end_link; [by split|done|rewrite Hsame; [exact Hc|by eexists]|done|done|by apply not_eq_sym|exact Hnr|done|].
  destruct Hor as [->|Hor]; [by right; left|by left].
Qed.

Lemma parse_break_ok ps : parses (parse_control_flow ps BrBreak) true false.
Proof.
  intros st L c lb r e Hst Hr Hil. cbn [parse_control_flow]. apply wp_bind. eapply take_ok; [done|]. intros st1 Hst1.
  pose proof Hr as ((nd & Hc & Hcf & Hs) & _ & _ & Hh). destruct (tracks_start c r lb L e Hr st Hst) as [_ Hg].
  apply wp_bind. eapply wp_state_get; [exact Hst1|]. pose proof Hst1 as (_ & _ & Hlb & _). rewrite Hlb.
  destruct lb as [|x lb]; [by destruct (Hil eq_refl)|]. destruct (Hh x eq_refl) as [Hne (nx & Hnx & Hp)].
  apply wp_bind, wp_ret. eapply end_link; [by split|done|exact Hc|done|done|done|exact Hnx|done|by right; right].
Qed.
(** ** Scopes that can be parsed *)

Section scopes.
  Context (checked_io : Processor) (ts : list IrTransformer).

(** Transformers return and leave branches alone. *)
Definition transforms (t : IrTransformer) : Prop :=
  ∀ i a, ∃ act a', @maybe_transform t i a = Ret (act, a') ∧ ∀ b, i = BranchInst b → act = Ignore.

Definition branch_ok (ok : bool → bool → Scope → Prop) (in_loop falls : bool) (b : Branch) : Prop :=
  match b with
  | BrIf _ s => falls = true ∧ ∃ ft, ok in_loop ft s
  | BrIfElse _ s1 s2 => falls = true ∧ (∃ ft, ok in_loop ft s1) ∧ ∃ ft, ok in_loop ft s2
  | BrSwitch _ s cases =>
      falls = true ∧ (∃ ft, ok in_loop ft s) ∧
      Forall (λ x, (∃ ft, ok in_loop ft x.2) ∧ ∃ v, case_value x.1 = Ret v) cases
  | BrRangeLoop i _ _ _ _ s => falls = true ∧ (∃ id, loop_variable i = Ret id) ∧ ok true true s
  | BrLoop s => falls = true ∧ ∃ ft, ok true ft s
  | BrReturn => falls = false
  | BrBreak => falls = false ∧ in_loop = true
  end.
Definition inst_ok (ok : bool → bool → Scope → Prop) (in_loop falls : bool) (i : ScopeInstruction) : Prop :=
  match i with Plain _ => falls = true | BranchInst b => branch_ok ok in_loop falls b end.
Fixpoint insts_ok (ok : bool → bool → Scope → Prop) (in_loop falls : bool) (l : list ScopeInstruction) : Prop :=
  match l with
  | [] => falls = true
  | i :: l => (inst_ok ok in_loop true i ∧ insts_ok ok in_loop falls l) ∨ (inst_ok ok in_loop false i ∧ l = [] ∧ falls = false)
  end.

(** Scopes of at most this depth that end when they return or break, which they do in
    loops only; [falls] says whether the code after the scope is reached. *)
Fixpoint scope_ok (depth : nat) (in_loop falls : bool) (s : Scope) : Prop :=
  match depth with
  | O => False
  | S depth =>
      (∀ pool a, ∃ p a', Scope_process [checked_io] pool s a = Ret (p, a') ∧
         insts_ok (scope_ok depth) in_loop falls (sp_instructions p)) ∧
      Forall (λ x, ∃ id len, var_kind x.1 = ConstantArray id len) (scope_const_arrays s)
  end.

Lemma transform_ok i st L c lb r e :
  Forall transforms ts → shaped st L (Some c) lb r e → is_Some (L c) →
  wp (transform_instruction ts i) st (λ removed st', shaped st' L (Some c) lb r e ∧ ∀ b, i = BranchInst b → removed = false).
Proof.
  intros Hts Hst Hc. revert st Hst. induction Hts as [|t ts' Ht Hts' IH]; intros st Hst; cbn [transform_instruction].
  - by apply wp_ret.
  - apply wp_bind. eapply wp_state_get; [done|]. destruct (Ht i (b_alloc st)) as (act & a' & Ha & Hb).
    apply wp_bind. eapply wp_lift; [exact Ha|]. apply wp_bind. eapply wp_mono; [by apply (quiet_alloc e)|].
    intros [] st1 Hst1. destruct act as [|rep|].
    + by apply IH.
    + apply wp_bind. eapply wp_unwrap; [done|]. apply wp_bind. eapply wp_neutral; [done|done|done|]. intros st2 Hst2 _.
      apply wp_ret. split; [done|]. intros b Hi. by specialize (Hb b Hi).
    + apply wp_ret. split; [done|]. intros b Hi. by specialize (Hb b Hi).
Qed.

Lemma parse_branch_ok ps ok il ft b :
  (∀ il ft s, ok il ft s → parses (ps s) il ft) → branch_ok ok il ft b → parses (parse_control_flow ps b) il ft.
Proof.
  intros Hps Hb. destruct b as [cond s|cond s1 s2|v s cases|i a z step incl s|s| |]; cbn [branch_ok parse_control_flow] in *.
  - destruct Hb as [-> [f Hf]]. eapply (parse_if_ok ps). by apply Hps.
  - destruct Hb as (-> & [f1 H1] & [f2 H2]). eapply (parse_if_else_ok ps); by apply Hps.
  - destruct Hb as (-> & [f Hf] & Hc). eapply (parse_switch_ok ps); [by apply Hps|]. eapply Forall_impl; [exact Hc|].
    intros x [[f' Hx] Hv]. split; [|done]. exists f'. by apply Hps.
  - destruct Hb as (-> & Hi & Hf). apply (parse_for_loop_ok ps); [done|by apply Hps].
  - destruct Hb as (-> & f & Hf). eapply (parse_loop_ok ps). by apply Hps.
  - rewrite Hb. apply (parse_return_ok ps).
  - destruct Hb as [-> ->]. apply (parse_break_ok ps).
Qed.

Lemma parse_instruction_ok ps ok il ft i :
  Forall transforms ts → (∀ il ft s, ok il ft s → parses (ps s) il ft) → inst_ok ok il ft i →
  parses (parse_instruction ts ps i) il ft.
Proof.
  intros Hts Hps Hi st L c lb r e Hst Hr Hil. unfold parse_instruction.
  assert (Hc : is_Some (L c)) by (destruct Hr as ((nd & Hc & _) & _); by eexists).
  apply wp_bind. eapply wp_mono; [by eapply transform_ok|]. intros removed st1 [Hst1 Hrem].
  destruct i as [pl|br]; cbn [inst_ok] in Hi.
  - subst ft. destruct removed; [by apply (parses_ret tt il)|].
    apply wp_bind. eapply wp_unwrap; [done|]. eapply wp_neutral; [done|done|done|]. intros st2 Hst2 _.
    by apply (parses_ret tt il).
  - rewrite (Hrem br eq_refl). by eapply parse_branch_ok.
Qed.

Lemma parses_end {A B} (m : M (Builder V G) A) (a : B) il ft :
  parses m il ft → parses (let! _ := m in ret a) il ft.
Proof.
  intros Hm st L c lb r e Hst Hr Hil. apply wp_bind. eapply wp_mono; [by apply Hm|]. intros x st' H. by apply wp_ret.
Qed.

Lemma parse_instructions_ok ps ok il ft l :
  Forall transforms ts → (∀ il ft s, ok il ft s → parses (ps s) il ft) → insts_ok ok il ft l →
  parses (parse_instructions ts ps l) il ft.
Proof.
  intros Hts Hps. induction l as [|i l IH]; cbn [insts_ok parse_instructions].
  - intros ->. apply parses_ret.
  - intros [[Hi Hl]|(Hi & -> & ->)].
    + apply parses_bind; [by eapply parse_instruction_ok|]. intros _. by apply IH.
    + apply (parses_end _ tt). by eapply parse_instruction_ok.
Qed.

Lemma quiet_variables e vars : quiet e (insert_variables vars).
Proof.
  induction vars as [|v vars IH]; intros st L cur lb r Hst; cbn [insert_variables]; [by apply wp_ret|].
  apply wp_bind. destruct (var_kind v); apply wp_ret; by apply IH.
Qed.
Lemma quiet_arrays e arrays :
  Forall (λ x, ∃ id len, var_kind x.1 = ConstantArray id len) arrays → quiet e (push_const_arrays arrays).
Proof.
  induction 1 as [|[v values] arrays (id & len & Hv) _ IH]; intros st L cur lb r Hst; cbn [push_const_arrays]; [by apply wp_ret|].
  cbn in Hv. rewrite Hv. apply wp_bind. eapply (wp_mono _ _ (λ _ st', shaped st' L cur lb r e)); [exact Hst|].
  intros [] st' Hst'. by apply IH.
Qed.

Lemma parse_scope_ok depth : Forall transforms ts →
  ∀ il ft s, scope_ok depth il ft s → parses (parse_scope checked_io ts depth s) il ft.
Proof.
  intros Hts. induction depth as [|depth IH]; intros il ft s; [done|]. intros [Hp Ha] st L c lb r e Hst Hr Hil.
  cbn [parse_scope]. apply wp_bind. eapply wp_state_get; [done|].
  destruct (Hp (b_pool st) (b_alloc st)) as (p & a' & Hpr & Hok). apply wp_bind. eapply wp_lift; [exact Hpr|].
  apply wp_bind. eapply wp_mono; [by apply (quiet_alloc e)|]. intros [] st1 Hst1.
  apply wp_bind. eapply wp_mono; [by apply (quiet_variables e)|]. intros [] st2 Hst2.
  apply wp_bind. eapply wp_mono; [by apply (quiet_arrays e)|]. intros [] st3 Hst3.
  apply (parses_end _ (existsb is_break_inst (sp_instructions p)) il ft); [|done..].
  by eapply parse_instructions_ok.
Qed.
(** ** The graph of a scope *)

(** Nothing leads to the entry, one block returns, and every other block has the
    successors of its control flow and phi entries for its predecessors. *)
Record well_built (g : G) (root r : NodeIndex) : Prop := {
  wb_root : is_Some (look g root);
  wb_ret : ∃ nd, look g r = Some nd ∧ nd_cf nd = CfReturn ∧ nd_phis nd = [] ∧ nd_succs nd = [];
  wb_done n : is_Some (look g n) → n ≠ r → finished (look g) n;
  wb_phis n : covered (look g) n;
  wb_first a : ¬ leads (look g) a root;
  wb_self a : ¬ leads (look g) a a;
}.

Definition start_shape (root r : NodeIndex) : Shape :=
  upd (upd (upd (λ _, None) root fresh_node) r fresh_node) r (with_cf fresh_node CfReturn).

Lemma start_ready root r : root ≠ r → ready root r [] (start_shape root r).
Proof.
  intros Hne. unfold start_shape. split_and!; [|done| |done].
  - exists fresh_node. by shape.
  - exists (with_cf fresh_node CfReturn). by shape.
Qed.
Lemma start_no_edge root r a b : ¬ leads (start_shape root r) a b.
Proof.
  intros (nd & Ha & Hb). unfold start_shape, upd in Ha. repeat case_decide; simplify_eq; by apply not_elem_of_nil in Hb.
Qed.
Lemma start_nodes root r n : is_Some (start_shape root r n) → n = root ∨ n = r.
Proof. unfold start_shape, upd. intros [nd Hn]. repeat case_decide; subst; naive_solver. Qed.

(** When all blocks that were begun are finished. *)
Lemma grows_well_built root r r' L g :
  root ≠ r → grows root ∅ r [] r' (start_shape root r) L → (∀ n, look g n = L n) → well_built g root r.
Proof.
  intros Hne Hg Hl. set (S := start_shape root r) in *.
  assert (Hlead : ∀ a b, leads (look g) a b → leads L a b) by (intros a b (nd & Ha & Hb); exists nd; by rewrite <-Hl).
  assert (Hr : L r = S r) by (apply (gr_old _ _ _ _ _ _ _ Hg); [unfold S, start_shape; shape; by eexists|done]).
  assert (Hroot : S root = Some fresh_node) by (unfold S, start_shape; by shape).
  split.
  - rewrite Hl. destruct (gr_start _ _ _ _ _ _ _ Hg) as (x & y & _ & Hy & _). by exists y.
  - exists (with_cf fresh_node CfReturn). rewrite Hl, Hr. unfold S, start_shape. by shape.
  - intros n Hn Hnr. rewrite Hl in Hn.
    destruct (gr_done _ _ _ _ _ _ _ Hg n Hn) as (nd & Hnd & Ht); [|done|].
    + destruct (S n) eqn:E; [left|by right]. by destruct (start_nodes root r n) as [->|]; [by eexists|..].
    + exists nd. rewrite Hl. split; [done|]. eapply targets_mono; [|exact Ht]. intros m. by rewrite Hl.
  - intros n nd q p Hnd Hq Hp%Hlead. rewrite Hl in Hnd. destruct (S n) eqn:E; [|by eapply (gr_phis _ _ _ _ _ _ _ Hg n E)].
    exfalso. destruct (start_nodes root r n) as [->| ->]; [by eexists| |].
    + destruct (gr_start _ _ _ _ _ _ _ Hg) as (x & y & Hx & Hy & Hxy). assert (x = fresh_node) as -> by congruence.
      assert (nd = y) as -> by congruence. rewrite Hxy in Hq. by apply not_elem_of_nil in Hq.
    + rewrite Hr in Hnd. unfold S, start_shape in Hnd. rewrite upd_same in Hnd. injection Hnd as <-. by apply not_elem_of_nil in Hq.
  - intros a Ha%Hlead. apply (gr_edges _ _ _ _ _ _ _ Hg) in Ha as [Ha|[Ha|[Ha|Ha]]]; [by eapply start_no_edge|congruence|done|done].
  - intros a Ha%Hlead%(gr_self _ _ _ _ _ _ _ Hg). by eapply start_no_edge.
Qed.

(** C17. Parsing a scope into an empty graph succeeds within the depth of the scope, and
    the graph is well built: nothing leads to the entry, every block but the one
    that returns has exactly the successors that its control flow names, the merge
    and continue blocks it names exist, and every phi node has an entry for every
    predecessor. *)
Theorem parse_graph_well_built depth falls s st :
  Forall transforms ts → scope_ok depth false falls s → node_indices (b_graph st) = [] → loop_break st = [] →
  wp (parse_graph checked_io ts depth s) st (λ _ st', ∃ r, well_built (b_graph st') (entry (b_opt st')) r).
Proof.
  intros Hts Hs Hempty Hlb. unfold parse_graph.
  assert (H0 : shaped st (λ _, None) (current_block st) [] (opt_ret (b_opt st)) (entry (b_opt st))).
  { split_and!; try done. intros n. apply eq_None_not_Some. intros Hn%look_node. rewrite Hempty in Hn. by apply not_elem_of_nil in Hn. }
  apply wp_bind. eapply wp_add; [exact H0|]. intros root st1 Hroot H1.
  apply wp_bind. eapply (wp_mono _ _ (λ _ st', shaped st' _ _ [] _ root)).
  { destruct H1 as (G1 & G2 & G3 & G4 & _). split; [exact G1|]. by split_and!. }
  intros [] st2 H2. apply wp_bind. eapply wp_enter; [exact H2|]. intros st3 H3 _.
  apply wp_bind. eapply wp_add; [exact H3|]. intros r st4 Hr H4.
  assert (Hne : root ≠ r) by (intros ->; by rewrite upd_same in Hr).
  apply wp_bind. eapply (wp_mono _ _ (λ _ st', shaped st' _ _ [] r root)).
  { destruct H4 as (G1 & G2 & G3 & _ & G5). split; [exact G1|]. by split_and!. }
  intros [] st5 H5. apply wp_bind. eapply wp_set_cf; [exact H5|by rewrite upd_same|]. intros st6 H6.
  pose proof (start_ready root r Hne) as Hready.
  apply wp_bind. eapply wp_mono; [by eapply (parse_scope_ok depth Hts false falls s Hs)|].
  intros b st7 (L & cur & r' & H7 & [Hg Ho] & _). apply wp_bind. eapply wp_state_get; [exact H7|].
  pose proof H7 as (_ & Hcur & _ & Hret & _). rewrite Hcur, Hret.
  assert (Hend : ∀ st8 L8, shaped st8 L8 cur [] r' root → grows root ∅ r [] r' (start_shape root r) L8 →
    wp (with_opt invalidate_structure) st8 (λ _ st', ∃ r0, well_built (b_graph st') (entry (b_opt st')) r0)).
  { intros st8 L8 H8 Hg8. exists r. cbn. change (entry _) with (entry (b_opt st8)).
    rewrite (proj2 (proj2 (proj2 (proj2 H8)))). by eapply grows_well_built; [|exact Hg8|apply H8]. }
  apply wp_bind. destruct cur as [k|].
  - destruct (Ho k eq_refl) as (nk & Hk & Hcf & Hsk). destruct (gr_ret _ _ _ _ _ _ _ Hg) as (Hor & _ & HrU & nr & Hnr & Hp).
    eapply wp_connect; [exact H7|exact Hk|exact Hnr|]. intros l st8 Hl H8. rewrite Hsk in Hl. apply perm_single in Hl as ->.
    eapply Hend; [exact H8|]. assert (Hkr : k ≠ r') by (cbn in HrU; set_solver).
    assert (Hlink : grows root {[k]} r [] r' (start_shape root r) (upd L k (with_succs nk [r']))).
    { eapply grows_link; [exact Hg|by apply elem_of_singleton|done|done|exact Hnr|done| |by rewrite Hsk].
      destruct Hor as [->|Hor]; [by right; left|by left]. }
    eapply grows_set; [eapply (grows_close _ _ _ _ _ _ _ k); [exact Hlink|by apply elem_of_singleton|]|set_solver].
    exists (with_succs nk [r']). rewrite upd_same. split; [done|]. cbn. rewrite Hcf. by exists r'.
  - apply wp_ret. by eapply Hend.
Qed.
End scopes.
End parser.

(** ** A scope with branches and loops *)

Module BuildDemo.
Definition keep_scope : Processor := {| transform p a := Ret (p, a) |}.
Definition scope (l : list ScopeInstruction) : Scope := MkScope l [] [] [].
Definition assign (o : Variable_) (n : Z) : ScopeInstruction := Plain (set_to o n).

(** [for i in 0..10 { if flag { x = 5; break; } }] *)
Definition break_scope : Scope := scope [
  assign (cell 7) 1;
  BranchInst (BrRangeLoop (cell 8) (num 0) (num 10) None false
    (scope [BranchInst (BrIf input_flag (scope [assign (cell 7) 5; BranchInst BrBreak]))]));
  Plain (Instruction_new (Copy (cell 7)) result_cell)].

Definition demo_scope : Scope := scope [
  assign (cell 7) 0;
  BranchInst (BrIfElse input_flag (scope [assign (cell 7) 1]) (scope [BranchInst BrReturn]));
  BranchInst (BrSwitch (cell 7) (scope [])
    [(num 0, scope [assign (cell 7) 2]); (num 1, scope [BranchInst (BrIf input_flag (scope [BranchInst BrReturn]))])]);
  BranchInst (BrLoop (scope [assign (cell 9) 3; BranchInst BrBreak]));
  BranchInst (BrRangeLoop (cell 8) (num 0) (num 10) None false
    (scope [BranchInst (BrIf input_flag (scope [assign (cell 7) 5; BranchInst BrBreak]))]))].

Definition no_graph : Builder Slots DemoGraph := {|
  b_opt := with_graph ∅ {| lg_blocks := []; lg_edges := [] |} 0 0;
  current_block := None; loop_break := []; b_alloc := {| next_id := 20 |}; b_pool := [] |}.

Ltac scopes :=
  repeat match goal with
         | |- scope_ok _ _ _ _ _ => split; [intros ? ?; eexists _, _; split; [reflexivity|cbn [sp_instructions sanitize_branch]]|apply Forall_nil; exact I]
         | |- insts_ok _ _ _ [] => reflexivity
         | |- insts_ok _ _ _ (BranchInst BrReturn :: _) => right
         | |- insts_ok _ _ _ (BranchInst BrBreak :: _) => right
         | |- insts_ok _ _ _ (_ :: _) => left
         | |- _ ∧ _ => split
         | |- ∃ _, loop_variable _ = _ => by eexists
         | |- ∃ _, case_value _ = _ => by eexists
         | |- Forall _ [] => by constructor
         | |- Forall _ (_ :: _) => apply Forall_cons
         | |- ∃ ft, scope_ok _ _ _ ft (scope [BranchInst BrReturn]) => exists false
         | |- ∃ ft, scope_ok _ _ _ ft (scope [_; BranchInst BrBreak]) => exists false
         | |- ∃ ft, scope_ok _ _ _ ft _ => exists true
         | |- inst_ok _ _ _ _ => cbn [inst_ok branch_ok fst snd]
         | |- ∃ _, scope_ok _ _ _ _ (snd _) => cbn [snd]
         | |- branch_ok _ _ _ _ => cbn [branch_ok]
         | |- _ = _ => reflexivity
         end.

Lemma demo_scope_ok : scope_ok keep_scope 3 false true demo_scope.
Proof. scopes. Qed.

Lemma parse_graph_well_built_witness :
  wp (parse_graph keep_scope [] 3 demo_scope) no_graph (λ _ st', ∃ r, well_built (b_graph st') (entry (b_opt st')) r).
Proof.
  apply (parse_graph_well_built keep_scope [] 3 true demo_scope no_graph);
    [constructor|exact demo_scope_ok|reflexivity|reflexivity].
Defined.

(** Splitting the edge from the header of [break_scope] to the block after the loop
    leaves the control flow of the header: it names block 4, the edge leads to
    the new block 7. *)
Definition loop_targets (opt : DemoOptimizer) (n : NodeIndex) : option (list NodeIndex * list NodeIndex) :=
  match node_weight (opt_graph opt) n with
  | Some b => match control_flow b with
              | CfLoopBreak _ body _ merge => Some ([body; merge], (edges (opt_graph opt) n).*2)
              | _ => None
              end
  | None => None
  end.
Definition split_break_scope : M (Builder Slots DemoGraph) unit :=
  let! _ := parse_graph keep_scope [] 3 break_scope in with_opt split_critical_edges.

Example split_leaves_loop_targets :
  match split_break_scope no_graph with Ret (_, st) => loop_targets (b_opt st) 2 | _ => None end = Some ([3; 4], [3; 7]).
Proof. by vm_compute. Qed.
End BuildDemo.
