(* ===== verification/SplitEdges.v ===== *)
(** * Critical edges

    Splitting the edges from blocks with several successors to blocks with
    several predecessors ([split_critical_edges] of [control_flow.rs]): none is
    left, and the graph stays well built except where the control flow of a
    loop names the end of a split edge. *)

From stdpp Require Import gmap sets functions.
From S2P Require Import Prelude Ir Visit Processing Cfg Dominance VersionProps ListGraph GraphPasses GraphBuild SsaDemo GraphBuildProps.

Open Scope N_scope.
Open Scope rust_scope.

Section split.
  Context {V G : Type} `{SV : StableVec V} `{SO : !StableVecOps V}
    `{SG : StableDiGraph V G} `{!StableDiGraphSpec V G} `{SM : !StableDiGraphMut V G} `{!StableDiGraphMutSpec V G}.

(** ** One edge *)

(** What becomes of the block at [n] when the edge from [block] to [s] is split at [x]. *)
Definition edited (block s x n : NodeIndex) (b : BasicBlock V) : BasicBlock V :=
  if decide (n = s) then set_phis b (update_phi_node block x <$> phi_nodes b)
  else if decide (n = block) then set_control_flow b (update_targets s x (control_flow b))
  else b.

Record edge_split (block s x : NodeIndex) (g g' : G) : Prop := {
  es_fresh : x ∉ node_indices g;
  es_nodes n : n ∈ node_indices g' ↔ n = x ∨ n ∈ node_indices g;
  es_block : ∃ e e' l, edges g block ≡ₚ (e, s) :: l ∧ edges g' block ≡ₚ (e', x) :: l;
  es_new : (edges g' x).*2 = [s];
  es_other a : a ≠ block → a ≠ x → edges g' a = edges g a;
  es_weight n b : node_weight g n = Some b → node_weight g' n = Some (edited block s x n b);
  es_new_weight : node_weight g' x = Some default_block;
}.

Lemma no_node_no_edges (g : G) n : n ∉ node_indices g → edges g n = [].
Proof.
  intros Hn. destruct (edges g n) as [|[e b] l] eqn:E; [done|]. destruct Hn.
  apply (edge_nodes g n e b). rewrite E. constructor.
Qed.

Lemma filter_out (l : list (EdgeIndex * NodeIndex)) e s :
  NoDup l.*1 → (e, s) ∈ l → l ≡ₚ (e, s) :: filter (λ y, y.1 ≠ e) l.
Proof.
  intros Hnd Hin. apply list_elem_of_split in Hin as (l1 & l2 & ->).
  rewrite fmap_app, fmap_cons in Hnd. cbn in Hnd. apply NoDup_app in Hnd as (_ & H1 & [H2 _]%NoDup_cons).
  rewrite filter_app, filter_cons, decide_False by naive_solver.
  rewrite (filter_all _ l1), (filter_all _ l2); [by rewrite Permutation_middle|..].
  - intros [e' b] Hi He. cbn in He. subst. apply H2. apply list_elem_of_fmap. by exists (e, b).
  - intros [e' b] Hi He. cbn in He. subst.
    apply (H1 e); [apply list_elem_of_fmap; by exists (e, b)|constructor].
Qed.

Lemma edit_node_ok n f (g : G) b : node_weight g n = Some b → edit_node n f g = Ret (set_weight g n (f b)).
Proof. intros Hb. unfold edit_node, block_of. by rewrite Hb. Qed.

Lemma split_edge_ok block e s (g : G) :
  (e, s) ∈ edges g block → block ≠ s → ∃ x g', split_edge block (e, s) g = Ret g' ∧ edge_split block s x g g'.
Proof.
  intros He Hne. unfold split_edge. destruct (edge_nodes g block e s He) as [Hb Hs].
  set (g1 := remove_edge g e). pose proof (add_node_fresh g1 default_block) as Hf.
  pose proof (add_node_indices g1 default_block) as Hi. pose proof (add_node_same g1 default_block) as Hw.
  pose proof (add_node_other g1 default_block) as Hwo. pose proof (add_node_edges g1 default_block) as He2.
  destruct (add_node g1 default_block) as [x g2]. cbn [fst snd] in *.
  assert (Hi1 : node_indices g1 = node_indices g) by apply remove_edge_indices. rewrite Hi1 in *.
  assert (Hbx : block ≠ x) by by intros ->. assert (Hsx : s ≠ x) by by intros ->.
  destruct (proj2 (add_edge_some g2 block x)) as [g3 H3]; [rewrite !Hi; by split; [right|left]|].
  pose proof (add_edge_indices _ _ _ _ H3) as Hi3.
  destruct (proj2 (add_edge_some g3 x s)) as [g4 H4]; [rewrite Hi3, !Hi; by split; [left|right]|].
  pose proof (add_edge_indices _ _ _ _ H4) as Hi4.
  unfold add_edge_ok. rewrite H3. cbn [expect obind]. rewrite H4. cbn [expect obind].
  assert (Hw4 : ∀ n, node_weight g4 n = node_weight g2 n).
  { intros n. by rewrite (add_edge_weight _ _ _ _ n H4), (add_edge_weight _ _ _ _ n H3). }
  assert (Hold : ∀ n b, node_weight g n = Some b → node_weight g4 n = Some b).
  { intros n b Hn. rewrite Hw4, Hwo; [by unfold g1; rewrite remove_edge_weight|].
    intros ->. apply Hf, node_weight_node. by exists b. }
  destruct (proj2 (node_weight_node g s) Hs) as [bs Hbs]. destruct (proj2 (node_weight_node g block) Hb) as [bb Hbb].
  unfold update_phi, update_control_flow. rewrite (edit_node_ok _ _ _ bs) by by apply Hold. cbn [obind].
  rewrite (edit_node_ok _ _ _ bb) by (rewrite set_weight_other by done; by apply Hold).
  eexists x, _. split; [reflexivity|].
  assert (Hi4' : ∀ n, n ∈ node_indices g4 ↔ n = x ∨ n ∈ node_indices g) by (intros n; by rewrite Hi4, Hi3, Hi).
  split.
  - done.
  - intros n. by rewrite !set_weight_indices.
  - destruct (add_edge_same _ _ _ _ H3) as [e' He']. exists e, e', (edges g2 block). rewrite !set_weight_edges.
    rewrite (add_edge_other _ _ _ _ block H4) by done. split; [|done]. rewrite He2. unfold g1. rewrite remove_edge_edges.
    apply filter_out; [apply edges_nodup|done].
  - destruct (add_edge_same _ _ _ _ H4) as [e' He']. rewrite !set_weight_edges. apply perm_single. rewrite He'. cbn.
    rewrite (add_edge_other _ _ _ _ x H3), He2, no_node_no_edges by (done || by rewrite Hi1). done.
  - intros a Ha Hax. rewrite !set_weight_edges, (add_edge_other _ _ _ _ a H4), (add_edge_other _ _ _ _ a H3), He2 by done.
    unfold g1. rewrite remove_edge_edges. apply filter_all. intros [e' b] Hi' He'. cbn in He'. subst e'.
    apply Ha. by eapply edge_ids.
  - intros n b Hn. unfold edited. destruct (decide (n = s)) as [->|Hns].
    + rewrite set_weight_other, set_weight_same by (done || apply Hi4'; by right). do 2 f_equal; congruence.
    + destruct (decide (n = block)) as [->|Hnb].
      * rewrite set_weight_same by (rewrite set_weight_indices; apply Hi4'; by right). do 2 f_equal; congruence.
      * rewrite !set_weight_other by congruence. by apply Hold.
  - rewrite !set_weight_other by done. by rewrite Hw4.
Qed.

Section one.
  Context (block s x : NodeIndex) (g g' : G) (Hs : edge_split block s x g g') (Hne : block ≠ s)
    (Hnd : NoDup (edges g block).*2).

Lemma es_ne a b : edge g a b → a ≠ x ∧ b ≠ x.
Proof. intros He. split; intros ->; apply (es_fresh _ _ _ _ _ Hs); [by eapply edge_node_l|by eapply edge_node_r]. Qed.
Lemma es_old : edge g block s.
Proof. destruct (es_block _ _ _ _ _ Hs) as (e & e' & l & H1 & _). unfold edge. rewrite H1. constructor. Qed.

Lemma es_edge a b : edge g' a b ↔ a = block ∧ b = x ∨ a = x ∧ b = s ∨ edge g a b ∧ ¬ (a = block ∧ b = s).
Proof.
  destruct (es_block _ _ _ _ _ Hs) as (e & e' & l & H1 & H2). destruct (es_ne _ _ es_old) as [Hbx Hsx].
  destruct (decide (a = block)) as [->|Ha]; [|destruct (decide (a = x)) as [->|Hx]].
  - assert (Hl : s ∉ l.*2) by (rewrite H1 in Hnd; by apply NoDup_cons in Hnd as [? _]).
    assert (Hb : edge g block b ↔ b = s ∨ b ∈ l.*2) by (unfold edge; rewrite H1; cbn; by rewrite elem_of_cons).
    assert (Hb' : edge g' block b ↔ b = x ∨ b ∈ l.*2) by (unfold edge; rewrite H2; cbn; by rewrite elem_of_cons).
    rewrite Hb, Hb'. split.
    + intros [->|Hin]; [by left|]. right; right. split; [by right|]. intros [_ ->]. done.
    + intros [[_ ->]|[[Heq _]|[[->|Hin] Hn]]]; [by left|done| |by right]. by destruct Hn.
  - assert (Hb : edge g' x b ↔ b = s) by (unfold edge; rewrite (es_new _ _ _ _ _ Hs); apply list_elem_of_singleton).
    rewrite Hb. split; [intros ->; by right; left|]. intros [[-> _]|[[_ ->]|[He _]]]; [done|done|].
    by destruct (es_ne _ _ He).
  - unfold edge. rewrite (es_other _ _ _ _ _ Hs a Ha Hx). naive_solver.
Qed.

Lemma es_weight_inv n b : node_weight g' n = Some b → n = x ∧ b = default_block ∨
  ∃ b0, node_weight g n = Some b0 ∧ b = edited block s x n b0.
Proof.
  intros Hb. assert (Hn : n ∈ node_indices g') by (apply node_weight_node; by exists b).
  apply (es_nodes _ _ _ _ _ Hs) in Hn as [->|Hn].
  - left. rewrite (es_new_weight _ _ _ _ _ Hs) in Hb. by injection Hb as <-.
  - right. apply node_weight_node in Hn as [b0 Hb0]. exists b0. rewrite (es_weight _ _ _ _ _ Hs n b0 Hb0) in Hb.
    by injection Hb as <-.
Qed.

Lemma es_nodup : (∀ a, NoDup (edges g a).*2) → ∀ a, NoDup (edges g' a).*2.
Proof.
  intros Hall a. destruct (es_block _ _ _ _ _ Hs) as (e & e' & l & H1 & H2).
  destruct (decide (a = block)) as [->|Ha]; [|destruct (decide (a = x)) as [->|Hx]].
  - rewrite H2. rewrite H1 in Hnd. cbn in Hnd |- *. apply NoDup_cons in Hnd as [_ Hl]. apply NoDup_cons. split; [|done].
    intros Hin. assert (He : edge g block x) by (unfold edge; rewrite H1; cbn; by right). by destruct (es_ne _ _ He).
  - rewrite (es_new _ _ _ _ _ Hs). apply NoDup_singleton.
  - by rewrite (es_other _ _ _ _ _ Hs a Ha Hx).
Qed.

Lemma es_length : length (edges g' block) = length (edges g block).
Proof. destruct (es_block _ _ _ _ _ Hs) as (e & e' & l & -> & ->). done. Qed.

(** *** Phi nodes *)

Lemma entry_renamed p q : is_Some (entry_of p q) → p ≠ block → is_Some (entry_of p (update_phi_node block x q)).
Proof.
  unfold entry_of, update_phi_node. cbn. intros Hp Hb. induction (phi_entries q) as [|[b v] l IH]; [done|]. cbn in Hp |- *.
  unfold update_index. destruct (b =? block) eqn:E.
  - apply N.eqb_eq in E as ->. rewrite decide_False in Hp by done. case_decide; [by eexists|by apply IH].
  - case_decide; [by eexists|by apply IH].
Qed.
Lemma entry_new q : is_Some (entry_of block q) → is_Some (entry_of x (update_phi_node block x q)).
Proof.
  unfold entry_of, update_phi_node. cbn. intros Hp. induction (phi_entries q) as [|[b v] l IH]; [by destruct Hp|].
  cbn in Hp |- *. unfold update_index. destruct (b =? block) eqn:E; [by rewrite decide_True by done; eexists|].
  apply N.eqb_neq in E. rewrite decide_False in Hp by done. case_decide; [by eexists|by apply IH].
Qed.

Lemma es_phis : (∀ n, covered (look g) n) → ∀ n, covered (look g') n.
Proof.
  intros Hc n nd q p Hn Hq Hp%look_leads%es_edge. unfold look in Hn.
  destruct (node_weight g' n) as [b|] eqn:Hb; [|done]. injection Hn as <-. cbn in Hq.
  apply es_weight_inv in Hb as [[-> ->]|(b0 & Hb0 & ->)]; [by apply not_elem_of_nil in Hq|].
  assert (Hg : ∀ q0 p0, q0 ∈ phi_nodes b0 → edge g p0 n → is_Some (entry_of p0 q0)).
  { intros q0 p0 Hq0 Hp0. eapply (Hc n); [unfold look; by rewrite Hb0|done|by apply look_leads]. }
  assert (Hnx : n ≠ x) by (intros ->; apply (es_fresh _ _ _ _ _ Hs), node_weight_node; by exists b0).
  unfold edited in Hq. destruct (decide (n = s)) as [->|Hns].
  - cbn in Hq. apply list_elem_of_fmap in Hq as (q0 & -> & Hq0). destruct Hp as [[_ ?]|[[-> _]|[Hp Hnb]]]; [done| |].
    + apply entry_new, Hg; [done|apply es_old].
    + apply entry_renamed; [by apply Hg|]. intros ->. by apply Hnb.
  - assert (Hq0 : q ∈ phi_nodes b0) by (by destruct (decide (n = block))).
    destruct Hp as [[_ ?]|[[_ ?]|[Hp _]]]; [done|done|by apply Hg].
Qed.
End one.

(** ** Control flow *)

Lemma update_others (l : list NodeIndex) s x : s ∉ l → update_index s x <$> l = l.
Proof.
  induction l as [|y l IH]; [done|]. intros [Hy Hl]%not_elem_of_cons. cbn. rewrite IH by done.
  unfold update_index. by rewrite (proj2 (N.eqb_neq _ _)) by done.
Qed.
Lemma update_renames (l l' : list NodeIndex) s x : l ≡ₚ s :: l' → NoDup l → update_index s x <$> l ≡ₚ x :: l'.
Proof.
  intros Hl Hnd. rewrite Hl in Hnd. apply NoDup_cons in Hnd as [Hs _]. rewrite Hl, fmap_cons, update_others by done.
  unfold update_index. by rewrite N.eqb_refl.
Qed.

Lemma targets_update (L L' : Shape) c l l' s x :
  targets L c l → l ≡ₚ s :: l' → l' ≠ [] → NoDup (x :: l') → NoDup l → (∀ n, is_Some (L n) → is_Some (L' n)) →
  targets L' (update_targets s x c) (x :: l') ∨ ∃ cond b ct m, c = CfLoopBreak cond b ct m.
Proof.
  intros Ht Hl Hl' Hx Hnd Hm. pose proof (update_renames l l' s x Hl Hnd) as Hu.
  destruct c as [cond t e m|v d bs m|b ct m|cond b ct m| |]; cbn in Ht |- *.
  - destruct Ht as (Hte & Hne & Hmg). left. rewrite Hte in Hu. cbn in Hu. split_and!; [by rewrite <-Hu| |naive_solver].
    intros Heq. rewrite <-Hu, Heq in Hx. apply NoDup_cons in Hx as [Hx _]. apply Hx. constructor.
  - destruct Ht as (Hds & Hn & Hmg). left. rewrite Hds in Hu.
    assert (Hbs : ((λ b, (b.1, update_index s x b.2)) <$> bs).*2 = update_index s x <$> bs.*2) by by rewrite <-!list_fmap_compose.
    rewrite Hbs. cbn in Hu. split_and!; [by rewrite <-Hu| |naive_solver]. by rewrite Hu.
  - destruct Ht as (-> & _). apply Permutation_length in Hl. destruct l'; [done|discriminate Hl].
  - right. by exists cond, b, ct, m.
  - destruct Ht.
  - destruct Ht as [t ->]. apply Permutation_length in Hl. destruct l'; [done|discriminate Hl].
Qed.

Lemma targets_perm (L : Shape) c l l' : targets L c l → l ≡ₚ l' → targets L c l'.
Proof.
  intros Ht Hl. destruct c as [cond t e m|v d bs m|b ct m|cond b ct m| |]; cbn in *.
  - by rewrite <-Hl.
  - by rewrite <-Hl.
  - destruct Ht as [-> ?]. split; [|done]. by apply perm_single.
  - by rewrite <-Hl.
  - done.
  - destruct Ht as [t ->]. exists t. by apply perm_single.
Qed.

Lemma targets_nodup (L : Shape) c l : targets L c l → NoDup l.
Proof.
  intros Ht. destruct c as [cond t e m|v d bs m|b ct m|cond b ct m| |]; cbn in Ht.
  - destruct Ht as (-> & Hne & _). apply NoDup_cons. split; [by intros ?%list_elem_of_singleton|apply NoDup_singleton].
  - by destruct Ht as (-> & Hn & _).
  - destruct Ht as [-> _]. apply NoDup_singleton.
  - destruct Ht as (-> & Hne & _). apply NoDup_cons. split; [by intros ?%list_elem_of_singleton|apply NoDup_singleton].
  - done.
  - destruct Ht as [t ->]. apply NoDup_singleton.
Qed.

(** ** What splitting keeps *)

(** A loop whose edge to the body or out of the loop was split. *)
Definition exit_split (old : list NodeIndex) (g : G) (n : NodeIndex) : Prop :=
  ∃ b cond body c m x, node_weight g n = Some b ∧ control_flow b = CfLoopBreak cond body c m ∧ edge g n x ∧ x ∉ old.

Record split_from (g0 : G) (r : NodeIndex) (g : G) : Prop := {
  sf_old n b0 : node_weight g0 n = Some b0 →
    ∃ b, node_weight g n = Some b ∧ ops b = ops b0 ∧ block_use b = block_use b0 ∧
      phi_out <$> phi_nodes b = phi_out <$> phi_nodes b0;
  sf_new x : x ∈ node_indices g → x ∉ node_indices g0 → node_weight g x = Some default_block ∧
    ∃ a b, a ∈ node_indices g0 ∧ b ∈ node_indices g0 ∧ (edges g x).*2 = [b] ∧ edge g a x ∧ ∀ a', edge g a' x → a' = a;
  sf_edge a b : a ∈ node_indices g0 → b ∈ node_indices g0 →
    edge g0 a b ↔ edge g a b ∨ ∃ x, x ∉ node_indices g0 ∧ edge g a x ∧ edge g x b;
  sf_nodup a : NoDup (edges g a).*2;
  sf_done n : n ∈ node_indices g → n ≠ r → finished (look g) n ∨ exit_split (node_indices g0) g n;
  sf_phis n : covered (look g) n;
}.

Lemma look_edit (g : G) n b : node_weight g n = Some b →
  look g n = Some {| nd_cf := control_flow b; nd_phis := phi_nodes b; nd_succs := (edges g n).*2 |}.
Proof. intros Hb. unfold look. by rewrite Hb. Qed.

Section step.
  Context (g0 : G) (r : NodeIndex) (block s x : NodeIndex) (g g' : G).
  Context (Hf : split_from g0 r g) (Hs : edge_split block s x g g') (Hne : block ≠ s)
    (Hblock : block ∈ node_indices g0) (Hsold : s ∈ node_indices g0) (Hlen : (1 < length (edges g block))%nat).

Lemma step_edge a b : edge g' a b ↔ a = block ∧ b = x ∨ a = x ∧ b = s ∨ edge g a b ∧ ¬ (a = block ∧ b = s).
Proof. apply es_edge; [done|apply Hf]. Qed.
Lemma old_node n : n ∈ node_indices g0 → n ∈ node_indices g ∧ n ≠ x.
Proof.
  intros [b0 Hb]%node_weight_node. destruct (sf_old _ _ _ Hf n b0 Hb) as (b & Hb' & _).
  assert (Hn : n ∈ node_indices g) by (apply node_weight_node; by exists b). split; [done|].
  intros ->. by apply (es_fresh _ _ _ _ _ Hs).
Qed.

Lemma step_old n b0 : node_weight g0 n = Some b0 →
  ∃ b, node_weight g' n = Some b ∧ ops b = ops b0 ∧ block_use b = block_use b0 ∧
    phi_out <$> phi_nodes b = phi_out <$> phi_nodes b0.
Proof.
  intros Hb. destruct (sf_old _ _ _ Hf n b0 Hb) as (b & Hb' & H1 & H2 & H3).
  exists (edited block s x n b). split; [by apply (es_weight _ _ _ _ _ Hs)|]. unfold edited.
  destruct (decide (n = s)); [|by destruct (decide (n = block))]. cbn. rewrite <-list_fmap_compose.
  split_and!; [done|done|]. by rewrite <-H3.
Qed.

Lemma step_new y : y ∈ node_indices g' → y ∉ node_indices g0 → node_weight g' y = Some default_block ∧
  ∃ a b, a ∈ node_indices g0 ∧ b ∈ node_indices g0 ∧ (edges g' y).*2 = [b] ∧ edge g' a y ∧ ∀ a', edge g' a' y → a' = a.
Proof.
  intros Hy Hy0. apply (es_nodes _ _ _ _ _ Hs) in Hy as [->|Hy].
  - split; [apply Hs|]. exists block, s. split_and!; [done|done|apply Hs|by apply step_edge; left|].
    intros a' [[-> _]|[[_ Hxs]|[He _]]]%step_edge; [done| |].
    + by destruct (proj2 (old_node s Hsold)).
    + by destruct (es_ne _ _ _ _ _ Hs _ _ He).
  - destruct (sf_new _ _ _ Hf y Hy Hy0) as [Hw (a & b & Ha & Hb & Hl & He & Hu)].
    assert (Hys : y ≠ s) by by intros ->. assert (Hyb : y ≠ block) by by intros ->.
    assert (Hyx : y ≠ x) by (intros ->; by apply (es_fresh _ _ _ _ _ Hs)).
    split. { rewrite (es_weight _ _ _ _ _ Hs y _ Hw). unfold edited. by rewrite !decide_False. }
    exists a, b. split_and!; [done|done|by rewrite (es_other _ _ _ _ _ Hs)| |].
    + apply step_edge. right; right. split; [done|]. by intros [_ ?].
    + intros a' [[_ ?]|[[_ ?]|[He' _]]]%step_edge; [done|done|]. by apply Hu.
Qed.

Lemma step_walks a b : a ∈ node_indices g0 → b ∈ node_indices g0 →
  edge g0 a b ↔ edge g' a b ∨ ∃ y, y ∉ node_indices g0 ∧ edge g' a y ∧ edge g' y b.
Proof.
  intros Ha Hb. rewrite (sf_edge _ _ _ Hf a b Ha Hb). destruct (old_node a Ha) as [_ Hax], (old_node b Hb) as [_ Hbx].
  assert (Hx0 : x ∉ node_indices g0) by (intros Hx; by destruct (old_node x Hx)).
  split; intros [He|(y & Hy & H1 & H2)].
  - destruct (decide (a = block ∧ b = s)) as [[-> ->]|Hn].
    + right. exists x. split_and!; [done|apply step_edge; by left|apply step_edge; by right; left].
    + left. apply step_edge. by right; right.
  - right. exists y. split_and!; [done|..]; apply step_edge; right; right; (split; [done|]); intros [H3 H4]; [by rewrite H4 in Hy|by rewrite H3 in Hy].
  - apply step_edge in He as [[_ ?]|[[? _]|[He _]]]; [done|done|by left].
  - apply step_edge in H1 as [[-> ->]|[[? _]|[H1 _]]]; [|done|].
    + apply step_edge in H2 as [[? _]|[[_ ->]|[H2 _]]]; [done|left; apply (es_old _ _ _ _ _ Hs)|].
      by destruct (es_ne _ _ _ _ _ Hs _ _ H2).
    + apply step_edge in H2 as [[? _]|[[-> _]|[H2 _]]]; [by subst| |by right; exists y].
      by destruct (es_ne _ _ _ _ _ Hs _ _ H1).
Qed.

Lemma step_mono n : is_Some (look g n) → is_Some (look g' n).
Proof. rewrite !look_node. intros Hn. apply (es_nodes _ _ _ _ _ Hs). by right. Qed.

Lemma step_exit n : exit_split (node_indices g0) g n → exit_split (node_indices g0) g' n.
Proof.
  intros (b & cond & body & c & m & y & Hb & Hcf & He & Hy).
  exists (edited block s x n b), cond, body, c, m, y. split_and!; [by apply (es_weight _ _ _ _ _ Hs)| | |done].
  - unfold edited. destruct (decide (n = s)); [done|]. destruct (decide (n = block)); [by cbn; rewrite Hcf|done].
  - apply step_edge. right; right. split; [done|]. by intros [_ ->].
Qed.

Lemma step_done n : n ∈ node_indices g' → n ≠ r → finished (look g') n ∨ exit_split (node_indices g0) g' n.
Proof.
  intros Hn Hr. apply (es_nodes _ _ _ _ _ Hs) in Hn as [->|Hn].
  { left. eexists. split; [exact (look_edit g' x _ (es_new_weight _ _ _ _ _ Hs))|]. cbn. rewrite (es_new _ _ _ _ _ Hs). by exists s. }
  destruct (sf_done _ _ _ Hf n Hn Hr) as [(nd & Hnd & Ht)|Hex]; [|right; by apply step_exit].
  apply node_weight_node in Hn as [b Hb]. rewrite (look_edit g n b Hb) in Hnd. injection Hnd as <-. cbn in Ht.
  pose proof (es_weight _ _ _ _ _ Hs n b Hb) as Hb'. destruct (decide (n = block)) as [->|Hnb].
  - destruct (es_block _ _ _ _ _ Hs) as (e & e' & l & H1 & H2).
    assert (Hcf : control_flow (edited block s x block b) = update_targets s x (control_flow b)).
    { unfold edited. by rewrite decide_False, decide_True by done. }
    assert (Hnd' : NoDup (edges g' block).*2) by (apply (es_nodup block s x g g'); [done|apply Hf|apply Hf]).
    destruct (targets_update (look g) (look g') (control_flow b) (edges g block).*2 l.*2 s x Ht) as [Ht'|Hloop].
    + by rewrite H1.
    + intros Hl. apply fmap_nil_inv in Hl as ->. rewrite H1 in Hlen. cbn in Hlen. lia.
    + rewrite H2 in Hnd'. exact Hnd'.
    + apply Hf.
    + apply step_mono.
    + left. eexists. split; [by apply look_edit|]. cbn. rewrite Hcf. eapply targets_perm; [exact Ht'|]. by rewrite H2.
    + right. destruct Hloop as (cond & body & c & m & Hc). eexists _, cond, body, c, m, x. split_and!; [exact Hb'| | |].
      * by rewrite Hcf, Hc.
      * apply step_edge. by left.
      * intros Hx. by destruct (proj2 (old_node x Hx)).
  - left. eexists. split; [by apply look_edit|]. cbn.
    assert (Hnx : n ≠ x) by (intros ->; apply (es_fresh _ _ _ _ _ Hs), node_weight_node; by exists b).
    rewrite (es_other _ _ _ _ _ Hs n Hnb Hnx). eapply targets_mono; [apply step_mono|].
    assert (Hcf : control_flow (edited block s x n b) = control_flow b).
    { unfold edited. destruct (decide (n = s)); [done|]. by rewrite decide_False. }
    by rewrite Hcf.
Qed.

Lemma step_split : split_from g0 r g'.
Proof.
  split; [apply step_old|apply step_new|apply step_walks| |apply step_done|].
  - apply (es_nodup block s x g g'); [done|apply Hf|apply Hf].
  - apply (es_phis block s x g g'); [done|apply Hf|apply Hf].
Qed.
End step.

(** ** All edges *)

(** A block with several successors is the only predecessor of each. *)
Definition uncritical (g : G) (n : NodeIndex) : Prop :=
  ∀ b b', edge g n b → edge g n b' → b ≠ b' → ∀ a, edge g a b → a = n.

Section all.
  Context (g0 : G) (r : NodeIndex) (Hself : ∀ a, ¬ edge g0 a a).

Lemma second_source g block s a :
  split_from g0 r g → edge g block s → edge g a s → a ≠ block → s ∈ node_indices g0.
Proof.
  intros Hf H1 H2 Hne. destruct (decide (s ∈ node_indices g0)) as [|Hs]; [done|].
  destruct (sf_new _ _ _ Hf s (edge_node_r g a s H2) Hs) as [_ (c & _ & _ & _ & _ & _ & Hu)].
  by rewrite (Hu a H2), (Hu block H1) in Hne.
Qed.

Lemma step_uncritical block s x g g' n :
  split_from g0 r g → edge_split block s x g g' → n ∈ node_indices g0 → n ≠ block → uncritical g n → uncritical g' n.
Proof.
  intros Hf Hs Hn Hne Hu b b' Hb Hb' Hbb a Ha.
  assert (Hold : ∀ t, edge g' n t → edge g n t).
  { intros t [[? _]|[[Hnx _]|[He _]]]%(step_edge g0 r block s x g g' Hf Hs); [done| |done].
    by destruct (proj2 (old_node g0 r block s x g g' Hf Hs n Hn)). }
  apply Hold in Hb, Hb'. apply (step_edge g0 r block s x g g' Hf Hs) in Ha as [[-> ->]|[[-> ->]|[Ha _]]].
  - by destruct (es_ne _ _ _ _ _ Hs _ _ Hb).
  - destruct Hne. symmetry. apply (Hu s b' Hb Hb' Hbb). apply (es_old _ _ _ _ _ Hs).
  - by apply (Hu b b').
Qed.

Lemma split_edges_ok block crit (opt : Optimizer V G) :
  split_from g0 r (opt_graph opt) → block ∈ node_indices g0 → NoDup crit.*1 →
  (1 < length (edges (opt_graph opt) block))%nat →
  (∀ e s, (e, s) ∈ crit → (e, s) ∈ edges (opt_graph opt) block ∧ ∃ a, a ≠ block ∧ edge (opt_graph opt) a s) →
  (∀ e s, (e, s) ∈ edges (opt_graph opt) block → (e, s) ∉ crit → ∀ a, edge (opt_graph opt) a s → a = block) →
  wp (split_edges block crit) opt (λ _ opt', split_from g0 r (opt_graph opt') ∧ entry opt' = entry opt ∧
    opt_ret opt' = opt_ret opt ∧ (∀ b, edge (opt_graph opt') block b → ∀ a, edge (opt_graph opt') a b → a = block) ∧
    ∀ n, n ∈ node_indices g0 → n ≠ block → uncritical (opt_graph opt) n → uncritical (opt_graph opt') n).
Proof.
  intros Hf Hblock. revert opt Hf. induction crit as [|[e s] crit IH]; intros opt Hf Hnd Hlen Hcrit Hrest.
  { apply wp_ret. split_and!; [done..| |done]. intros b ([e s] & -> & Hin)%list_elem_of_fmap a Ha.
    by eapply Hrest; [exact Hin|apply not_elem_of_nil|]. }
  cbn in Hnd. apply NoDup_cons in Hnd as [Hecrit Hnd]. set (g := opt_graph opt) in *.
  destruct (Hcrit e s) as [He (a & Ha & Has)]; [constructor|].
  assert (Hbs : edge g block s) by (apply list_elem_of_fmap; by exists (e, s)).
  assert (Hs0 : s ∈ node_indices g0) by exact (second_source g block s a Hf Hbs Has Ha).
  assert (Hne : block ≠ s) by (intros <-; apply (Hself block), (sf_edge _ _ _ Hf); [done|done|by left]).
  destruct (split_edge_ok block e s g He Hne) as (x & g' & Hrun & Hsp).
  pose proof (step_edge g0 r block s x g g' Hf Hsp) as Hedge.
  destruct (es_block _ _ _ _ _ Hsp) as (e0 & e' & l & H1 & H2).
  assert (e0 = e) as ->.
  { apply (NoDup_fmap_snd_inj (edges g block) _ _ s); [apply Hf|rewrite H1; constructor|done]. }
  pose proof (sf_nodup _ _ _ Hf block) as Hn2. pose proof (edges_nodup g block) as Hn1. rewrite H1 in Hn1, Hn2.
  cbn in Hn1, Hn2. apply NoDup_cons in Hn1 as [Hel _]. apply NoDup_cons in Hn2 as [Hsl _].
  cbn [split_edges]. apply wp_bind, wp_get. apply wp_bind. eapply wp_lift; [exact Hrun|].
  apply wp_bind, wp_modify. apply wp_bind. cbn. eapply wp_mono; [apply IH|].
  - cbn. by eapply step_split.
  - done.
  - cbn. by rewrite (es_length _ _ _ _ _ Hsp).
  - cbn. intros e1 s1 Hin. destruct (Hcrit e1 s1) as [Hin1 (a1 & Ha1 & Has1)]; [by right|].
    assert (e1 ≠ e) by (intros ->; apply Hecrit, list_elem_of_fmap; by exists (e, s1)). split.
    + rewrite H2. right. rewrite H1 in Hin1. apply elem_of_cons in Hin1 as [[= -> ->]|]; done.
    + exists a1. split; [done|]. apply Hedge. right; right. split; [done|]. by intros [? _].
  - cbn. intros e1 s1 Hin Hnc a1 Ha1. rewrite H2 in Hin. apply Hedge in Ha1.
    apply elem_of_cons in Hin as [[= -> ->]|Hin].
    + destruct Ha1 as [[-> _]|[[_ ->]|[Ha1 _]]]; [done| |by destruct (es_ne _ _ _ _ _ Hsp _ _ Ha1)].
      by destruct (es_ne _ _ _ _ _ Hsp _ _ Hbs).
    + assert (Hs1 : s1 ≠ s) by (intros ->; apply Hsl, list_elem_of_fmap; by exists (e1, s)).
      destruct Ha1 as [[-> _]|[[_ ?]|[Ha1 _]]]; [done|done|]. apply (Hrest e1 s1); [rewrite H1; by right| |done].
      intros [[= -> ->]|?]%elem_of_cons; done.
  - intros [] opt' (Hf' & Hen & Hre & Hb & Hu). split_and!; [done|done|done|done|]. intros n Hn Hnb Hun.
    apply Hu; [done|done|]. exact (step_uncritical block s x g g' n Hf Hsp Hn Hnb Hun).
Qed.

Lemma few_successors (g : G) n : (length (edges g n) ≤ 1)%nat → uncritical g n.
Proof.
  intros Hl b b' ([e1 ?] & -> & H1)%list_elem_of_fmap ([e2 ?] & -> & H2)%list_elem_of_fmap Hne.
  destruct (edges g n) as [|p [|q l]]; cbn in Hl; [by apply not_elem_of_nil in H1| |lia].
  apply list_elem_of_singleton in H1, H2. congruence.
Qed.

(** The code's test for a second predecessor. *)
Lemma second_predecessor g block s :
  (∀ a, NoDup (edges g a).*2) → edge g block s →
  if decide (1 < length (sources g s))%nat then ∃ a, a ≠ block ∧ edge g a s else ∀ a, edge g a s → a = block.
Proof.
  intros Hnd Hs. pose proof (sources_nodup g s Hnd) as Hn. apply sources_edge in Hs. case_decide as Hl.
  - destruct (sources g s) as [|p [|q l]] eqn:E; cbn in Hl; [lia..|].
    assert (Hpq : p ≠ q) by (apply NoDup_cons in Hn as [Hp _]; intros ->; apply Hp; constructor).
    assert (Hp : edge g p s) by (apply sources_edge; rewrite E; constructor).
    assert (Hq : edge g q s) by (apply sources_edge; rewrite E; right; constructor).
    destruct (decide (p = block)) as [->|]; [by exists q|by exists p].
  - intros a Ha%sources_edge. destruct (sources g s) as [|p [|q l]]; cbn in Hl; [by apply not_elem_of_nil in Ha| |lia].
    apply list_elem_of_singleton in Ha, Hs. congruence.
Qed.

Lemma split_blocks_ok nodes (opt : Optimizer V G) :
  (∀ n, n ∈ nodes → n ∈ node_indices g0) → split_from g0 r (opt_graph opt) →
  wp (split_blocks nodes) opt (λ _ opt', split_from g0 r (opt_graph opt') ∧ entry opt' = entry opt ∧
    opt_ret opt' = opt_ret opt ∧ (∀ n, n ∈ nodes → uncritical (opt_graph opt') n) ∧
    ∀ n, n ∈ node_indices g0 → uncritical (opt_graph opt) n → uncritical (opt_graph opt') n).
Proof.
  revert opt. induction nodes as [|block nodes IH]; intros opt Hin Hf.
  { apply wp_ret. split_and!; [done..| |done]. intros n Hn. by apply not_elem_of_nil in Hn. }
  assert (Hblock : block ∈ node_indices g0) by (apply Hin; constructor). set (g := opt_graph opt) in *.
  assert (Hstep : wp (if (1 <? length (edges g block))%nat
                      then split_edges block (filter (λ e, (1 < length (sources g e.2))%nat) (edges g block)) else ret tt) opt
    (λ _ opt', split_from g0 r (opt_graph opt') ∧ entry opt' = entry opt ∧ opt_ret opt' = opt_ret opt ∧
      uncritical (opt_graph opt') block ∧
      ∀ n, n ∈ node_indices g0 → n ≠ block → uncritical g n → uncritical (opt_graph opt') n)).
  { destruct (Nat.ltb_spec 1 (length (edges g block))) as [Hl|Hl].
    - eapply wp_mono; [apply split_edges_ok; [done|done| |done| |]|].
      + eapply sublist_NoDup; [apply (edges_nodup g block)|apply fmap_sublist, sublist_filter].
      + intros e s [Hc Hes]%list_elem_of_filter. split; [done|]. cbn in Hc.
        pose proof (second_predecessor g block s (sf_nodup _ _ _ Hf)) as Hp. rewrite decide_True in Hp by done.
        apply Hp, list_elem_of_fmap. by exists (e, s).
      + intros e s Hes Hc. pose proof (second_predecessor g block s (sf_nodup _ _ _ Hf)) as Hp.
        rewrite decide_False in Hp by (intros H; by apply Hc, list_elem_of_filter).
        apply Hp, list_elem_of_fmap. by exists (e, s).
      + intros [] opt' (H1 & H2 & H3 & H4 & H5). split_and!; [done|done|done| |done]. intros b b' Hb _ _. by apply H4.
    - apply wp_ret. split_and!; [done..| |done]. by apply few_successors. }
  cbn [split_blocks]. apply wp_bind, wp_get. apply wp_bind. eapply wp_mono; [exact Hstep|].
  intros [] opt1 (Hf1 & He1 & Hr1 & Hu1 & Hk1). eapply wp_mono; [apply IH; [intros n Hn; apply Hin; by right|done]|].
  intros [] opt2 (Hf2 & He2 & Hr2 & Hu2 & Hk2). split_and!; [done|congruence|congruence| |].
  - intros n [->|Hn]%elem_of_cons; [by apply Hk2|by apply Hu2].
  - intros n Hn Hun. apply Hk2; [done|]. destruct (decide (n = block)) as [->|]; [done|by apply Hk1].
Qed.
End all.

Lemma split_from_start (g : G) root r : well_built g root r → split_from g r g.
Proof.
  intros Hw. split.
  - intros n b0 Hb. by exists b0.
  - done.
  - intros a b Ha Hb. split; [by left|]. intros [He|(x & Hx & He & _)]; [done|]. destruct Hx. by eapply edge_node_r.
  - intros a. destruct (decide (a ∈ node_indices g)) as [Ha|Ha]; [|rewrite no_node_no_edges by done; constructor].
    apply look_node in Ha as [nd Hnd]. assert (Hs : nd_succs nd = (edges g a).*2).
    { unfold look in Hnd. destruct (node_weight g a); [|done]. by injection Hnd as <-. }
    rewrite <-Hs. destruct (decide (a = r)) as [->|Hne].
    { destruct (wb_ret _ _ _ Hw) as (nr & Hnr & _ & _ & Hsr). assert (nd = nr) as -> by congruence. rewrite Hsr. constructor. }
    destruct (wb_done _ _ _ Hw a ltac:(by eexists) Hne) as (nd' & Hnd' & Ht). assert (nd' = nd) as -> by congruence.
    by eapply targets_nodup.
  - intros n Hn Hne. left. apply (wb_done _ _ _ Hw); [by apply look_node|done].
  - apply (wb_phis _ _ _ Hw).
Qed.

Lemma split_predecessor (g0 g : G) r a b : split_from g0 r g → b ∈ node_indices g0 → edge g a b → ∃ c, edge g0 c b.
Proof.
  intros Hf Hb He. destruct (decide (a ∈ node_indices g0)) as [Ha|Ha].
  - exists a. apply (sf_edge _ _ _ Hf); [done|done|by left].
  - destruct (sf_new _ _ _ Hf a (edge_node_l g a b He) Ha) as [_ (c & b' & Hc & _ & _ & Hca & _)].
    exists c. apply (sf_edge _ _ _ Hf); [done|done|]. right. by exists a.
Qed.

(** C28. Splitting the critical edges of a well-built graph succeeds.  Afterwards a block
    with several successors is the only predecessor of each; two old blocks are
    joined by an edge, or through one new, empty block, exactly if they were
    joined by an edge; the old blocks keep their instructions, the phi nodes have
    an entry for every predecessor, and the control flow names the successors,
    except for a loop one of whose edges was split. *)
Theorem critical_edges_split (opt : Optimizer V G) r :
  well_built (opt_graph opt) (entry opt) r →
  wp split_critical_edges opt (λ _ opt',
    split_from (opt_graph opt) r (opt_graph opt') ∧ entry opt' = entry opt ∧ opt_ret opt' = opt_ret opt ∧
    (∀ n, uncritical (opt_graph opt') n) ∧
    ∀ a, ¬ edge (opt_graph opt') a (entry opt') ∧ ¬ edge (opt_graph opt') a a).
Proof.
  intros Hw. unfold split_critical_edges. apply wp_bind, wp_get. set (g := opt_graph opt).
  assert (Hself : ∀ a, ¬ edge g a a) by (intros a Ha; by apply (wb_self _ _ _ Hw a), look_leads).
  assert (Hroot : entry opt ∈ node_indices g) by (apply look_node, (wb_root _ _ _ Hw)).
  eapply wp_mono; [apply (split_blocks_ok g r Hself); [done|by eapply split_from_start]|].
  intros [] opt' (Hf & He & Hr & Hu & _). split_and!; [done|done|done| |].
  - intros n. destruct (decide (n ∈ node_indices g)) as [Hn|Hn]; [by apply Hu|].
    apply few_successors. destruct (decide (n ∈ node_indices (opt_graph opt'))) as [Hn'|Hn'].
    + destruct (sf_new _ _ _ Hf n Hn' Hn) as [_ (a & b & _ & _ & Hl & _)]. rewrite <-(length_fmap snd), Hl. done.
    + rewrite no_node_no_edges by done. cbn. lia.
  - intros a. split.
    + rewrite He. intros Ha. destruct (split_predecessor _ _ _ _ _ Hf Hroot Ha) as [c Hc].
      by apply (wb_first _ _ _ Hw c), look_leads.
    + intros Ha. destruct (decide (a ∈ node_indices g)) as [Hn|Hn].
      * apply (Hself a), (sf_edge _ _ _ Hf); [done|done|by left].
      * destruct (sf_new _ _ _ Hf a (edge_node_l _ _ _ Ha) Hn) as [_ (c & b & _ & Hb & Hl & _)].
        unfold edge in Ha. rewrite Hl in Ha. apply list_elem_of_singleton in Ha. by subst.
Qed.
End split.

(** ** A conditional without an alternative *)

Module SplitDemo.
Definition join_phi : PhiInstruction :=
  {| phi_out := cell 3; phi_entries := [{| pe_block := 0; pe_value := num 1 |}; {| pe_block := 1; pe_value := num 2 |}] |}.
Definition if_graph : DemoGraph := {|
  lg_blocks := Some <$> [
    block [] (CfIfElse input_flag 1 2 (Some 2));
    block [set_to result_cell 1] CfNone;
    {| block_use := [Merge]; phi_nodes := [join_phi]; ops := []; control_flow := CfNone |};
    block [] CfReturn];
  lg_edges := Some <$> [(0, 1); (0, 2); (1, 2); (2, 3)];
|}.
Definition if_opt : DemoOptimizer := with_graph ∅ if_graph 0 3.

Lemma if_edge a b : edge if_graph a b → (a, b) ∈ [(0, 1); (0, 2); (1, 2); (2, 3)].
Proof.
  intros ([e b'] & -> & (p & [= <-] & Hp)%lg_out_elem%lg_edge_in%list_elem_of_fmap)%list_elem_of_fmap. exact Hp.
Qed.
Lemma if_node n : is_Some (look if_graph n) → n = 0 ∨ n = 1 ∨ n = 2 ∨ n = 3.
Proof. intros Hn%look_node. revert Hn. change (node_indices if_graph) with [0; 1; 2; 3]. set_solver. Qed.

Lemma if_well_built : well_built if_graph 0 3.
Proof.
  split.
  - by eexists.
  - eexists. split; [reflexivity|done].
  - intros n Hn Hne. destruct (if_node n Hn) as [->|[->|[->| ->] ] ]; [| | |done].
    + eexists. split; [reflexivity|]. cbn. split_and!; [done|done|]. intros x [= <-]. by eexists.
    + eexists. split; [reflexivity|]. by exists 2.
    + eexists. split; [reflexivity|]. by exists 3.
  - intros n nd q p Hnd Hq Hp%look_leads%if_edge. destruct (if_node n ltac:(by eexists)) as [->|[->|[->| ->] ] ];
      injection Hnd as <-; try (by apply not_elem_of_nil in Hq).
    apply list_elem_of_singleton in Hq as ->. assert (p = 0 ∨ p = 1) as [->| ->] by set_solver; by eexists.
  - intros a Ha%look_leads%if_edge. set_solver.
  - intros a Ha%look_leads%if_edge. set_solver.
Qed.

Lemma critical_edges_split_witness :
  wp split_critical_edges if_opt (λ _ opt',
    split_from (opt_graph if_opt) 3 (opt_graph opt') ∧ entry opt' = entry if_opt ∧ opt_ret opt' = opt_ret if_opt ∧
    (∀ n, uncritical (opt_graph opt') n) ∧
    ∀ a, ¬ edge (opt_graph opt') a (entry opt') ∧ ¬ edge (opt_graph opt') a a).
Proof. apply (critical_edges_split if_opt 3). exact if_well_built. Defined.
End SplitDemo.
