(* ===== verification/LocalPasses.v ===== *)
(** * Constant propagation and strength reduction

    Model of [crates/cubecl-opt/src/passes/constant_prop.rs]: the
    simplification of operations with one constant operand and the evaluation
    of operations whose operands are all constant.  Integer arithmetic on the
    64-bit constants panics on overflow as in a debug build; the floating-point
    functions of the [num] crate and the remainder of [f64] are parameters.

    Model of [passes/reduce_strength.rs]: products, quotients and remainders
    with a constant power of two, or one next to it, become shifts, masks, sums
    and differences. *)

From Stdlib Require Import SpecFloat.
From S2P Require Import Prelude DeviceNum Ir.

Open Scope Z_scope.
Open Scope rust_scope.

(** A program is the list of its nodes, a node the list of its operations. *)
Definition Program : Type := list (list Instruction).

Definition with_operation (i : Instruction) (op : Operation) : Instruction :=
  {| inst_out := inst_out i; operation := op |}.

(** ** One constant operand *)

(** [x % 1], [0 % x]: a zero of the type of the output. *)
Definition zero_of (i : Instruction) : outcome Operation :=
  let? item := inst_item i in
  let? value := cast_to (CUInt 0 U32) (item_elem item) in
  Ret (Copy (Variable_constant value)).

(** The operation that replaces the one of the instruction, if any. *)
Definition simplify_arithmetic (i : Instruction) (a : Arithmetic) : outcome (option Operation) :=
  match a with
  | Mul op =>
      Ret (if is_constant (lhs op) 0 then Some (Copy (lhs op))
           else if is_constant (rhs op) 0 then Some (Copy (rhs op))
           else if is_constant (lhs op) 1 then Some (Copy (rhs op))
           else if is_constant (rhs op) 1 then Some (Copy (lhs op))
           else None)
  | Add op =>
      Ret (if is_constant (lhs op) 0 then Some (Copy (rhs op))
           else if is_constant (rhs op) 0 then Some (Copy (lhs op))
           else None)
  | Sub op => Ret (if is_constant (rhs op) 0 then Some (Copy (lhs op)) else None)
  | Div op =>
      Ret (if is_constant (lhs op) 0 || is_constant (rhs op) 1 then Some (Copy (lhs op)) else None)
  | Modulo op =>
      if is_constant (rhs op) 1 || is_constant (lhs op) 0 then
        let? z := zero_of i in Ret (Some z)
      else Ret None
  | _ => Ret None
  end.

Definition simplify_operator (o : Operator) : option Operation :=
  match o with
  | Or op =>
      if is_true (lhs op) || is_true (rhs op) then Some (Copy (Variable_from_bool true))
      else if is_false (lhs op) then Some (Copy (rhs op))
      else if is_false (rhs op) then Some (Copy (lhs op))
      else None
  | And op =>
      if is_false (lhs op) || is_false (rhs op) then Some (Copy (Variable_from_bool false))
      else if is_true (lhs op) then Some (Copy (rhs op))
      else if is_true (rhs op) then Some (Copy (lhs op))
      else None
  | OpSelect s =>
      if is_true (cond s) then Some (Copy (then_ s))
      else if is_false (cond s) then Some (Copy (or_else s))
      else None
  | _ => None
  end.

Definition simplify_metadata (md : Metadata) : option Operation :=
  match md with
  | Length var =>
      match var_kind var with
      | ConstantArray _ length | SharedMemory _ length _ | LocalArray _ length =>
          Some (Copy (Variable_from_u32 (Z.of_N length)))
      | _ => None
      end
  | _ => None
  end.

Definition simplify (i : Instruction) : outcome (option Operation) :=
  match operation i with
  | OArithmetic a => simplify_arithmetic i a
  | OOperator o => Ret (simplify_operator o)
  | OMetadata md => Ret (simplify_metadata md)
  | _ => Ret None
  end.

(** A pass replaces the operations of all nodes and counts the changes. *)
Fixpoint rewrite_node (f : Instruction → outcome (option Operation)) (changes : N)
    (node : list Instruction) : outcome (list Instruction * N) :=
  match node with
  | [] => Ret ([], changes)
  | i :: node =>
      let? r := f i in
      let '(i, changes) :=
        match r with
        | Some op => (with_operation i op, (changes + 1)%N)
        | None => (i, changes)
        end in
      let? '(node, changes) := rewrite_node f changes node in
      Ret (i :: node, changes)
  end.
Fixpoint rewrite_program (f : Instruction → outcome (option Operation)) (changes : N)
    (p : Program) : outcome (Program * N) :=
  match p with
  | [] => Ret ([], changes)
  | node :: p =>
      let? '(node, changes) := rewrite_node f changes node in
      let? '(p, changes) := rewrite_program f changes p in
      Ret (node :: p, changes)
  end.

Definition ConstOperandSimplify_apply (changes : N) (p : Program) : outcome (Program * N) :=
  rewrite_program simplify changes p.

(** ** Evaluation of constant expressions *)

(** Overflow-checked [i64] and [u64] results. *)
Definition in_i64 (v : Z) : bool := (i64_min <=? v) && (v <=? i64_max).
Definition in_u64 (v : Z) : bool := (0 <=? v) && (v <=? u64_top).
Definition chk (ok : bool) (v : Z) (msg : string) : outcome Z := if ok then Ret v else Panic msg.

(** The operators of the macro: on [i64], [f64] and [u64]. *)
Record BinFns := {
  on_int : Z → Z → outcome Z;
  on_float : f64 → f64 → outcome f64;
  on_uint : Z → Z → outcome Z;
}.

Definition int_div (inr : Z → bool) (a b : Z) : outcome Z :=
  if b =? 0 then Panic "attempt to divide by zero"
  else chk (inr (Z.quot a b)) (Z.quot a b) "attempt to divide with overflow".
Definition int_rem (inr : Z → bool) (a b : Z) : outcome Z :=
  if b =? 0 then Panic "attempt to calculate the remainder with a divisor of zero"
  else chk (inr (Z.quot a b)) (Z.rem a b) "attempt to calculate the remainder with overflow".
Definition int_shl (wrap : Z → Z) (a b : Z) : outcome Z :=
  chk ((0 <=? b) && (b <? 64)) (wrap (Z.shiftl a b)) "attempt to shift left with overflow".
Definition int_shr (a b : Z) : outcome Z :=
  chk ((0 <=? b) && (b <? 64)) (Z.shiftr a b) "attempt to shift right with overflow".

Definition fns_int (f : Z → Z → Z) (ff : f64 → f64 → f64) (msg : string) : BinFns :=
  {| on_int := λ a b, chk (in_i64 (f a b)) (f a b) msg;
     on_float := λ a b, Ret (ff a b);
     on_uint := λ a b, chk (in_u64 (f a b)) (f a b) msg |}.
(** [const_eval_int!]: floats are unreachable. *)
Definition fns_bits (fi fu : Z → Z → outcome Z) : BinFns :=
  {| on_int := fi; on_float := λ _ _, unreachable; on_uint := fu |}.
(** [const_eval_float!]: integers are unreachable. *)
Definition fns_float (f : f64 → f64 → f64) : BinFns :=
  {| on_int := λ _ _, unreachable; on_float := λ a b, Ret (f a b); on_uint := λ _ _, unreachable |}.

Definition apply_fns (f : BinFns) (l r : ConstantScalarValue) : outcome ConstantScalarValue :=
  match l, r with
  | CInt a k, CInt b _ => let? v := on_int f a b in Ret (CInt v k)
  | CFloat a k, CFloat b _ => let? v := on_float f a b in Ret (CFloat v k)
  | CUInt a k, CUInt b _ => let? v := on_uint f a b in Ret (CUInt v k)
  | _, _ => unreachable
  end.

(** [const_eval!], [const_eval_int!] and the binary [const_eval_float!]: the
    right operand is cast to the type of the left one. *)
Definition const_eval (f : BinFns) (op : BinaryOperator) : outcome (option ConstantScalarValue) :=
  match as_const (lhs op), as_const (rhs op) with
  | Some l, Some r =>
      let? r := cast_to r (csv_elem l) in
      let? v := apply_fns f l r in
      Ret (Some v)
  | _, _ => Ret None
  end.

(** The unary [const_eval_float!] and the operations on one constant. *)
Definition const_eval_unary (fi : Z → outcome Z) (ff : f64 → outcome f64) (fu : Z → outcome Z)
    (op : UnaryOperator) : outcome (option ConstantScalarValue) :=
  match as_const (input op) with
  | Some (CInt v k) => let? r := fi v in Ret (Some (CInt r k))
  | Some (CFloat v k) => let? r := ff v in Ret (Some (CFloat r k))
  | Some (CUInt v k) => let? r := fu v in Ret (Some (CUInt r k))
  | Some (CBool _) => unreachable
  | None => Ret None
  end.
Definition const_eval_float (f : f64 → f64) (op : UnaryOperator) : outcome (option ConstantScalarValue) :=
  const_eval_unary (λ _, unreachable) (λ v, Ret (f v)) (λ _, unreachable) op.

(** Three constants of the type of the first one. *)
Definition const_eval_ternary (f : ConstantScalarValue → ConstantScalarValue → ConstantScalarValue →
    outcome ConstantScalarValue) (a b c : Variable_) : outcome (option ConstantScalarValue) :=
  match as_const a, as_const b, as_const c with
  | Some a, Some b, Some c =>
      let? b := cast_to b (csv_elem a) in
      let? c := cast_to c (csv_elem a) in
      let? v := f a b c in
      Ret (Some v)
  | _, _, _ => Ret None
  end.

(** [const_eval_cmp!]: no cast, the variants must agree. *)
Definition const_eval_cmp (fi : Z → Z → bool) (ff : f64 → f64 → bool) (op : BinaryOperator) :
    outcome (option ConstantScalarValue) :=
  match as_const (lhs op), as_const (rhs op) with
  | Some (CInt a _), Some (CInt b _) => Ret (Some (CBool (fi a b)))
  | Some (CFloat a _), Some (CFloat b _) => Ret (Some (CBool (ff a b)))
  | Some (CUInt a _), Some (CUInt b _) => Ret (Some (CBool (fi a b)))
  | Some _, Some _ => unreachable
  | _, _ => Ret None
  end.

Definition const_eval_bool (f : bool → bool → bool) (op : BinaryOperator) :
    outcome (option ConstantScalarValue) :=
  match as_const (lhs op), as_const (rhs op) with
  | Some (CBool a), Some (CBool b) => Ret (Some (CBool (f a b)))
  | Some _, Some _ => unreachable
  | _, _ => Ret None
  end.

(** [a.clamp(b, c)] panics when the bounds are crossed. *)
Definition int_clamp (a b c : Z) : outcome Z :=
  if b <=? c then Ret (Z.max b (Z.min a c)) else Panic "assertion failed: min <= max".

(** [count_ones] and [reverse_bits] of a 64-bit pattern. *)
Fixpoint count_bits (n : nat) (v : Z) : Z :=
  match n with
  | O => 0
  | S n => b2z (Z.odd v) + count_bits n (Z.div2 v)
  end.
Definition count_ones (v : Z) : Z := count_bits 64 v.
Fixpoint reverse_from (n : nat) (v acc : Z) : Z :=
  match n with
  | O => acc
  | S n => reverse_from n (Z.div2 v) (2 * acc + b2z (Z.odd v))
  end.
Definition reverse_bits (v : Z) : Z := reverse_from 64 v 0.

(** What the pass uses of [num::Float] and of [f64]. *)
Record FloatFns := {
  f_powf : f64 → f64 → f64; f_rem : f64 → f64 → f64;
  f_exp : f64 → f64; f_ln : f64 → f64; f_ln_1p : f64 → f64;
  f_cos : f64 → f64; f_sin : f64 → f64; f_tanh : f64 → f64; f_sqrt : f64 → f64;
  f_round : f64 → f64; f_floor : f64 → f64; f_ceil : f64 → f64; f_recip : f64 → f64;
  f_max : f64 → f64 → f64; f_min : f64 → f64 → f64; f_clamp : f64 → f64 → f64 → outcome f64;
}.

Section Eval.
Context (F : FloatFns).

Definition mul_hi_fns : BinFns :=
  {| on_int := λ a b,
       let? m := chk (in_i64 (a * b)) (a * b) "attempt to multiply with overflow" in
       Ret (wrap_s 32 (Z.shiftr m 32));
     on_float := λ _ _, unreachable;
     on_uint := λ a b,
       let? m := chk (in_u64 (a * b)) (a * b) "attempt to multiply with overflow" in
       Ret (wrap_u 32 (Z.shiftr m 32)) |}.

Definition try_const_eval_arithmetic (a : Arithmetic) : outcome (option ConstantScalarValue) :=
  match a with
  | Add op => const_eval (fns_int Z.add f64_add "attempt to add with overflow") op
  | Sub op => const_eval (fns_int Z.sub f64_sub "attempt to subtract with overflow") op
  | Mul op => const_eval (fns_int Z.mul f64_mul "attempt to multiply with overflow") op
  | Div op => const_eval {| on_int := int_div in_i64; on_float := λ a b, Ret (f64_div a b);
                            on_uint := int_div in_u64 |} op
  | Powf op => const_eval (fns_float (f_powf F)) op
  | Modulo op | Remainder op =>
      const_eval {| on_int := int_rem in_i64; on_float := λ a b, Ret (f_rem F a b);
                    on_uint := int_rem in_u64 |} op
  | MulHi op => const_eval mul_hi_fns op
  | Max op => const_eval {| on_int := λ a b, Ret (Z.max a b); on_float := λ a b, Ret (f_max F a b);
                            on_uint := λ a b, Ret (Z.max a b) |} op
  | Min op => const_eval {| on_int := λ a b, Ret (Z.min a b); on_float := λ a b, Ret (f_min F a b);
                            on_uint := λ a b, Ret (Z.min a b) |} op
  | Dot op => const_eval (fns_int Z.mul f64_mul "attempt to multiply with overflow") op
  | Abs op =>
      const_eval_unary (λ v, chk (in_i64 (Z.abs v)) (Z.abs v) "attempt to negate with overflow")
        (λ v, Ret (SFabs v)) (λ _, unreachable) op
  | Exp op => const_eval_float (f_exp F) op
  | Log op => const_eval_float (f_ln F) op
  | Log1p op => const_eval_float (f_ln_1p F) op
  | Cos op => const_eval_float (f_cos F) op
  | Sin op => const_eval_float (f_sin F) op
  | Tanh op => const_eval_float (f_tanh F) op
  | Sqrt op => const_eval_float (f_sqrt F) op
  | Round op => const_eval_float (f_round F) op
  | Floor op => const_eval_float (f_floor F) op
  | Ceil op => const_eval_float (f_ceil F) op
  | Recip op => const_eval_float (f_recip F) op
  | Neg op =>
      const_eval_unary (λ v, chk (in_i64 (- v)) (- v) "attempt to negate with overflow")
        (λ v, Ret (SFopp v)) (λ _, unreachable) op
  | Fma op =>
      const_eval_ternary (λ a b c,
        match a, b, c with
        | CFloat a k, CFloat b _, CFloat c _ => Ret (CFloat (f64_add (f64_mul a b) c) k)
        | _, _, _ => unreachable
        end) (fma_a op) (fma_b op) (fma_c op)
  | Clamp op =>
      const_eval_ternary (λ a b c,
        match a, b, c with
        | CInt a k, CInt b _, CInt c _ => let? v := int_clamp a b c in Ret (CInt v k)
        | CFloat a k, CFloat b _, CFloat c _ => let? v := f_clamp F a b c in Ret (CFloat v k)
        | CUInt a k, CUInt b _, CUInt c _ => let? v := int_clamp a b c in Ret (CUInt v k)
        | _, _, _ => unreachable
        end) (clamp_input op) (min_value op) (max_value op)
  | Erf _ | Magnitude _ | Normalize _ => Ret None
  end.

Definition try_const_eval_cmp (c : Comparison) : outcome (option ConstantScalarValue) :=
  match c with
  | Equal op => const_eval_cmp Z.eqb f64_eqb op
  | NotEqual op => const_eval_cmp (λ a b, negb (a =? b)) (λ a b, negb (f64_eqb a b)) op
  | Lower op => const_eval_cmp Z.ltb f64_ltb op
  | Greater op => const_eval_cmp Z.gtb (λ a b, f64_ltb b a) op
  | LowerEqual op => const_eval_cmp Z.leb SFleb op
  | GreaterEqual op => const_eval_cmp Z.geb (λ a b, SFleb b a) op
  end.

Definition try_const_eval_bitwise (b : Bitwise) : outcome (option ConstantScalarValue) :=
  match b with
  | BitwiseAnd op => const_eval (fns_bits (λ a b, Ret (Z.land a b)) (λ a b, Ret (Z.land a b))) op
  | BitwiseOr op => const_eval (fns_bits (λ a b, Ret (Z.lor a b)) (λ a b, Ret (Z.lor a b))) op
  | BitwiseXor op => const_eval (fns_bits (λ a b, Ret (Z.lxor a b)) (λ a b, Ret (Z.lxor a b))) op
  | ShiftLeft op => const_eval (fns_bits (int_shl (wrap_s 64)) (int_shl (wrap_u 64))) op
  | ShiftRight op => const_eval (fns_bits int_shr int_shr) op
  | BitwiseNot op =>
      const_eval_unary (λ v, Ret (Z.lnot v)) (λ _, unreachable) (λ v, Ret (wrap_u 64 (Z.lnot v))) op
  | CountOnes op =>
      const_eval_unary (λ v, Ret (count_ones v)) (λ _, unreachable) (λ v, Ret (count_ones v)) op
  | ReverseBits op =>
      const_eval_unary (λ v, Ret (wrap_s 64 (reverse_bits v))) (λ _, unreachable)
        (λ v, Ret (reverse_bits v)) op
  | LeadingZeros _ | FindFirstSet _ => Ret None
  end.

Definition try_const_eval_operator (o : Operator) : outcome (option ConstantScalarValue) :=
  match o with
  | And op => const_eval_bool andb op
  | Or op => const_eval_bool orb op
  | Not op =>
      match as_const (input op) with
      | Some (CBool v) => Ret (Some (CBool (negb v)))
      | Some _ => unreachable
      | None => Ret None
      end
  | Cast _ | Index _ | CopyMemory _ | CopyMemoryBulk _ | UncheckedIndex _ | IndexAssign _
  | InitLine _ | UncheckedIndexAssign _ | Reinterpret _ | OpSelect _ => Ret None
  end.

Definition try_const_eval (i : Instruction) : outcome (option ConstantScalarValue) :=
  match operation i with
  | OArithmetic op => try_const_eval_arithmetic op
  | OComparison op => try_const_eval_cmp op
  | OBitwise op => try_const_eval_bitwise op
  | OOperator op => try_const_eval_operator op
  | _ => Ret None
  end.

Definition const_eval_operation (i : Instruction) : outcome (option Operation) :=
  let? c := try_const_eval i in
  Ret ((λ v, Copy (Variable_constant v)) <$> c).

Definition ConstEval_apply (changes : N) (p : Program) : outcome (Program * N) :=
  rewrite_program const_eval_operation changes p.
End Eval.

(** [u32::is_power_of_two] and [u32::trailing_zeros]. *)
Definition pow2 (v : Z) : bool := is_power_of_two (Z.to_N v).
Definition tz (v : Z) : Z := Z.of_N (trailing_zeros 32 (Z.to_N v)).

(** [val + 1] and [val - 1] on [u32]. *)
Definition inc_u32 (v : Z) : outcome Z := chk (v + 1 <? 2 ^ 32) (v + 1) "attempt to add with overflow".
Definition dec_u32 (v : Z) : outcome Z := chk (0 <=? v - 1) (v - 1) "attempt to subtract with overflow".

Definition is_u32 (e : Elem) : bool := bool_decide (e = EUInt U32).

Definition is_pow2 (var : Variable_) : outcome bool :=
  if is_u32 (item_elem (var_item var)) then
    match as_const var with
    | Some c => let? v := csv_as_u32 c in Ret (pow2 v)
    | None => Ret false
    end
  else Ret false.

(** The constant operand and the other one, if exactly one is constant. *)
Definition split_const (op : BinaryOperator) : outcome (option (Z * Variable_)) :=
  match as_const (lhs op), as_const (rhs op) with
  | None, Some val => let? v := csv_as_u32 val in Ret (Some (v, lhs op))
  | Some val, None => let? v := csv_as_u32 val in Ret (Some (v, rhs op))
  | _, _ => Ret None
  end.

Definition binary (l r : Variable_) : BinaryOperator := {| lhs := l; rhs := r |}.

(** What an instruction becomes; the flag says whether it changed. *)
Definition reduce_mul (a : Allocator) (i : Instruction) (op : BinaryOperator) :
    outcome (list Instruction * bool * Allocator) :=
  let? o := out i in
  let? s := split_const op in
  match s with
  | None => Ret ([Instruction_new (OArithmetic (Mul op)) o], false, a)
  | Some (val, dyn_val) =>
      if pow2 val then
        Ret ([Instruction_new (OBitwise (ShiftLeft (binary dyn_val (Variable_from_u32 (tz val))))) o], true, a)
      else
        let? up := inc_u32 val in
        if pow2 up then
          let '(temp, a) := create_local a (var_item o) in
          Ret ([Instruction_new (OBitwise (ShiftLeft (binary dyn_val (Variable_from_u32 (tz up))))) temp;
                Instruction_new (OArithmetic (Sub (binary temp dyn_val))) o], true, a)
        else
          let? down := dec_u32 val in
          if pow2 down then
            let '(temp, a) := create_local a (var_item o) in
            Ret ([Instruction_new (OBitwise (ShiftLeft (binary dyn_val (Variable_from_u32 (tz down))))) temp;
                  Instruction_new (OArithmetic (Add (binary temp dyn_val))) o], true, a)
          else Ret ([Instruction_new (OArithmetic (Mul op)) o], false, a)
  end.

Definition reduce_div (i : Instruction) (op : BinaryOperator) : outcome (list Instruction * bool) :=
  let? o := out i in
  let? s := split_const op in
  match s with
  | None => Ret ([Instruction_new (OArithmetic (Div op)) o], false)
  | Some (const_val, dyn_val) =>
      Ret ([Instruction_new (OBitwise (ShiftRight (binary dyn_val (Variable_from_u32 (tz const_val))))) o], true)
  end.

Definition reduce_modulo (i : Instruction) (op : BinaryOperator) : outcome (list Instruction * bool) :=
  let? o := out i in
  let? c := expect (as_const (rhs op)) "called `Option::unwrap()` on a `None` value" in
  let? const_val := csv_as_u32 c in
  let? mask := dec_u32 const_val in
  Ret ([Instruction_new (OBitwise (BitwiseAnd (binary (lhs op) (Variable_from_u32 mask)))) o], true).

Definition reduce_instruction (a : Allocator) (i : Instruction) :
    outcome (list Instruction * bool * Allocator) :=
  match operation i with
  | OArithmetic (Mul op) =>
      let? item := inst_item i in
      if is_u32 (item_elem item) then reduce_mul a i op else Ret ([i], false, a)
  | OArithmetic (Div op) =>
      let? p := is_pow2 (rhs op) in
      if p then let? '(l, c) := reduce_div i op in Ret (l, c, a) else Ret ([i], false, a)
  | OArithmetic (Modulo op) =>
      let? p := is_pow2 (rhs op) in
      if p then let? '(l, c) := reduce_modulo i op in Ret (l, c, a) else Ret ([i], false, a)
  | _ => Ret ([i], false, a)
  end.

Fixpoint reduce_node (a : Allocator) (changes : N) (node : list Instruction) :
    outcome (list Instruction * N * Allocator) :=
  match node with
  | [] => Ret ([], changes, a)
  | i :: node =>
      let? '(l, c, a) := reduce_instruction a i in
      let? '(node, changes, a) := reduce_node a (if c : bool then changes + 1 else changes)%N node in
      Ret (l ++ node, changes, a)
  end.

Fixpoint ReduceStrength_apply (a : Allocator) (changes : N) (p : Program) :
    outcome (Program * N * Allocator) :=
  match p with
  | [] => Ret ([], changes, a)
  | node :: p =>
      let? '(node, changes, a) := reduce_node a changes node in
      let? '(p, changes, a) := ReduceStrength_apply a changes p in
      Ret (node :: p, changes, a)
  end.
