(* ===== verification/IrSem.v ===== *)
(** * Meaning of the integer and boolean instructions

    The reference semantics against which the passes are verified: the value
    of one lane of every variable, integers wrapped to the width of their
    type.  Division by zero and shifts by the width or more are undefined.
    The operations that are not interpreted (floats, memory, atomics, ...) have
    an arbitrary meaning [other]; so has the remainder of signed integers. *)

From S2P Require Import Prelude DeviceNum Ir LocalPasses.

Open Scope Z_scope.

Inductive Value := VInt (z : Z) | VBool (b : bool) | VFloat (f : f64).

Definition int_bits (k : IntKind) : Z := 8 * int_size k.
Definition uint_bits (k : UIntKind) : Z := 8 * uint_size k.

(** Integer types and the wrap-around of their values. *)
Definition int_elem (e : Elem) : bool := match e with EInt _ | EUInt _ => true | _ => false end.
Definition elem_bits (e : Elem) : Z :=
  match e with EInt k => int_bits k | EUInt k => uint_bits k | _ => 0 end.
Definition wrap_elem (e : Elem) (v : Z) : Z :=
  match e with
  | EInt k => wrap_s (int_bits k) v
  | EUInt k => wrap_u (uint_bits k) v
  | _ => v
  end.

(** The value of a constant on the device. *)
Definition const_value (c : ConstantScalarValue) : Value :=
  match c with
  | CInt v k => VInt (wrap_s (int_bits k) v)
  | CUInt v k => VInt (wrap_u (uint_bits k) v)
  | CFloat v _ => VFloat v
  | CBool b => VBool b
  end.

Definition Env : Type := VariableKind → Value.
Definition operand (env : Env) (v : Variable_) : Value :=
  match as_const v with
  | Some c => const_value c
  | None => env (var_kind v)
  end.
Definition update (env : Env) (k : VariableKind) (v : Value) : Env :=
  λ k', if decide (k' = k) then v else env k'.

Definition int2 (e : Elem) (f : Z → Z → option Z) (x y : Value) : option Value :=
  match x, y with
  | VInt a, VInt b => (λ v, VInt (wrap_elem e v)) <$> f a b
  | _, _ => None
  end.
Definition cmp2 (f : Z → Z → bool) (x y : Value) : option Value :=
  match x, y with
  | VInt a, VInt b => Some (VBool (f a b))
  | _, _ => None
  end.
Definition bool2 (f : bool → bool → bool) (x y : Value) : option Value :=
  match x, y with
  | VBool a, VBool b => Some (VBool (f a b))
  | _, _ => None
  end.

Definition nonzero (f : Z → Z → Z) (a b : Z) : option Z := if b =? 0 then None else Some (f a b).
Definition shift (bits : Z) (f : Z → Z → Z) (a b : Z) : option Z :=
  if (0 <=? b) && (b <? bits) then Some (f a b) else None.

Section Sem.
Context (signed_modulo : Z → Z → Z).
Context (other : Operation → Env → option Value).

(** The arithmetic that is interpreted: the integer function of the operation. *)
Definition arith_fn (e : Elem) (a : Arithmetic) : option (BinaryOperator * (Z → Z → option Z)) :=
  match a with
  | Add op => Some (op, λ x y, Some (x + y))
  | Sub op => Some (op, λ x y, Some (x - y))
  | Mul op => Some (op, λ x y, Some (x * y))
  | Div op => Some (op, nonzero Z.quot)
  | Modulo op =>
      Some (op, nonzero match e with EUInt _ => Z.modulo | _ => signed_modulo end)
  | Remainder op => Some (op, nonzero Z.rem)
  | Max op => Some (op, λ x y, Some (Z.max x y))
  | Min op => Some (op, λ x y, Some (Z.min x y))
  | _ => None
  end.

Definition cmp_fn (c : Comparison) : BinaryOperator * (Z → Z → bool) :=
  match c with
  | Lower op => (op, Z.ltb)
  | LowerEqual op => (op, Z.leb)
  | Equal op => (op, Z.eqb)
  | NotEqual op => (op, λ a b, negb (a =? b))
  | GreaterEqual op => (op, Z.geb)
  | Greater op => (op, Z.gtb)
  end.

Definition bit_fn (e : Elem) (b : Bitwise) : option (BinaryOperator * (Z → Z → option Z)) :=
  match b with
  | BitwiseAnd op => Some (op, λ x y, Some (Z.land x y))
  | BitwiseOr op => Some (op, λ x y, Some (Z.lor x y))
  | BitwiseXor op => Some (op, λ x y, Some (Z.lxor x y))
  | ShiftLeft op => Some (op, shift (elem_bits e) Z.shiftl)
  | ShiftRight op => Some (op, shift (elem_bits e) Z.shiftr)
  | _ => None
  end.

(** The value of an operation whose output has the element type [e]. *)
Definition op_sem (env : Env) (e : Elem) (o : Operation) : option Value :=
  match o with
  | Copy v => Some (operand env v)
  | OArithmetic a =>
      if int_elem e then
        match arith_fn e a with
        | Some (op, f) => int2 e f (operand env (lhs op)) (operand env (rhs op))
        | None => other o env
        end
      else other o env
  | OBitwise b =>
      if int_elem e then
        match bit_fn e b with
        | Some (op, f) => int2 e f (operand env (lhs op)) (operand env (rhs op))
        | None => other o env
        end
      else other o env
  | OComparison c =>
      let '(op, f) := cmp_fn c in
      if int_elem (Variable_elem (lhs op)) then cmp2 f (operand env (lhs op)) (operand env (rhs op))
      else other o env
  | OOperator (And op) => bool2 andb (operand env (lhs op)) (operand env (rhs op))
  | OOperator (Or op) => bool2 orb (operand env (lhs op)) (operand env (rhs op))
  | OOperator (Not op) =>
      match operand env (input op) with VBool b => Some (VBool (negb b)) | _ => None end
  | OOperator (OpSelect s) =>
      match operand env (cond s) with
      | VBool b => Some (operand env (if b then then_ s else or_else s))
      | _ => None
      end
  | OMetadata (Length var) =>
      match var_kind var with
      | ConstantArray _ length | SharedMemory _ length _ | LocalArray _ length => Some (VInt (Z.of_N length))
      | _ => other o env
      end
  | _ => other o env
  end.

(** An instruction assigns its output; one without output has an arbitrary effect. *)
Context (effect : Operation → Env → option Env).

Definition exec (env : Env) (i : Instruction) : option Env :=
  match inst_out i with
  | Some o => (λ v, update env (var_kind o) v) <$> op_sem env (Variable_elem o) (operation i)
  | None => effect (operation i) env
  end.
Fixpoint exec_block (env : Env) (node : list Instruction) : option Env :=
  match node with
  | [] => Some env
  | i :: node => env' ← exec env i; exec_block env' node
  end.

(** ** Well-typed instructions *)

Definition in_elem (e : Elem) (v : Value) : Prop :=
  match v with VInt z => int_elem e = true → wrap_elem e z = z | _ => True end.
(** A constant has the element type of its kind, and values are in range. *)
Definition var_ok (env : Env) (e : Elem) (v : Variable_) : Prop :=
  Variable_elem v = e ∧ (∀ c, as_const v = Some c → csv_elem c = e) ∧ in_elem e (operand env v).

Definition pair_ok (env : Env) (e : Elem) (op : BinaryOperator) : Prop :=
  var_ok env e (lhs op) ∧ var_ok env e (rhs op).

(** The operands of the rewritten operations have the type of the output;
    booleans are not numbers, and floats are excluded. *)
Definition op_typed (env : Env) (e : Elem) (o : Operation) : Prop :=
  match o with
  | OArithmetic (Add op) | OArithmetic (Sub op) | OArithmetic (Mul op)
  | OArithmetic (Div op) | OArithmetic (Modulo op) => int_elem e = true ∧ pair_ok env e op
  | OOperator (And op) | OOperator (Or op) => e = EBool ∧ pair_ok env EBool op
  | OMetadata (Length var) =>
      match var_kind var with
      | ConstantArray _ l | SharedMemory _ l _ | LocalArray _ l => Z.of_N l < 2 ^ 32
      | _ => True
      end
  | _ => True
  end.
(** The operations that compute a value and therefore have an output. *)
Definition has_value (o : Operation) : bool :=
  match o with
  | Copy _ | OArithmetic _ | OComparison _ | OBitwise _ | OOperator _ | OMetadata _ => true
  | _ => false
  end.
Definition typed (env : Env) (i : Instruction) : Prop :=
  match inst_out i with
  | Some o => op_typed env (Variable_elem o) (operation i)
  | None => has_value (operation i) = false
  end.

(** The instructions are well-typed in the states they are executed in. *)
Fixpoint block_ok (P : Env → Instruction → Prop) (env : Env) (node : list Instruction) : Prop :=
  match node with
  | [] => True
  | i :: node => P env i ∧ ∀ env', exec env i = Some env' → block_ok P env' node
  end.

(** ** Rewriting the operations of a block *)

(** [f] may only replace an operation by one with the same value. *)
Definition sound_rewrite (P : Env → Instruction → Prop) (f : Instruction → outcome (option Operation)) : Prop :=
  ∀ env i op env', P env i → f i = Ret (Some op) → exec env i = Some env' →
    exec env (with_operation i op) = Some env'.

Lemma rewrite_node_sound P f changes node node' changes' env env' :
  sound_rewrite P f → block_ok P env node →
  rewrite_node f changes node = Ret (node', changes') →
  exec_block env node = Some env' → exec_block env node' = Some env'.
Proof.
  intros Hf. revert changes node' changes' env. induction node as [|i node IH];
    intros changes node' changes' env Hok; simpl; [by intros [= <- _]|].
  destruct Hok as [Hi Hrest]. destruct (f i) as [r| |] eqn:Hr; [|done|done]. cbn [obind].
  destruct (exec env i) as [env1|] eqn:He; [|by intros ? ?]. simpl.
  destruct r as [op|]; intros Hrw Hexec;
    (destruct (rewrite_node f _ node) as [[node1 c1]| |] eqn:Hn; [|done|done]);
    cbn [obind] in Hrw; injection Hrw as <- <-; simpl.
  - rewrite (Hf env i op env1) by done. simpl. eapply IH; [by apply Hrest|done|done].
  - rewrite He. simpl. eapply IH; [by apply Hrest|done|done].
Qed.
End Sem.
