(* ===== verification/OptProps.v ===== *)
(** * The local optimisation passes preserve the meaning of a block

    Simplification of operations with a constant operand, evaluation of
    constant operations and strength reduction, against the semantics of
    [IrSem.v]. *)

From S2P Require Import Prelude DeviceNum Ir LocalPasses IrSem.

Open Scope Z_scope.
Open Scope rust_scope.

(** ** Wrapping *)

Lemma int_bits_cases k : int_bits k = 8 ∨ int_bits k = 16 ∨ int_bits k = 32 ∨ int_bits k = 64.
Proof. destruct k; auto. Qed.
Lemma uint_bits_cases k : uint_bits k = 8 ∨ uint_bits k = 16 ∨ uint_bits k = 32 ∨ uint_bits k = 64.
Proof. destruct k; auto. Qed.

Lemma int_bits_pow k : 0 < int_bits k ∧ 2 ≤ 2 ^ (int_bits k - 1).
Proof. destruct k; split; vm_compute; congruence. Qed.
Lemma uint_bits_pow k : 0 < uint_bits k ∧ 2 ≤ 2 ^ uint_bits k.
Proof. destruct k; split; vm_compute; congruence. Qed.

Lemma wrap_u_small bits v : 0 ≤ v < 2 ^ bits → wrap_u bits v = v.
Proof. apply Z.mod_small. Qed.
Lemma wrap_s_small bits v : - 2 ^ (bits - 1) ≤ v < 2 ^ (bits - 1) → 0 < bits → wrap_s bits v = v.
Proof.
  intros Hv Hb. unfold wrap_s. assert (2 ^ bits = 2 * 2 ^ (bits - 1)) as Hp.
  { rewrite <- Z.pow_succ_r by lia. f_equal. lia. }
  rewrite Z.mod_small by lia. lia.
Qed.

Lemma wrap_u_range bits v : 0 ≤ bits → 0 ≤ wrap_u bits v < 2 ^ bits.
Proof. intros Hb. apply Z.mod_pos_bound, Z.pow_pos_nonneg; lia. Qed.
Lemma wrap_s_range bits v : 0 < bits → - 2 ^ (bits - 1) ≤ wrap_s bits v < 2 ^ (bits - 1).
Proof.
  intros Hb. unfold wrap_s. assert (2 ^ bits = 2 * 2 ^ (bits - 1)) as Hp.
  { rewrite <- Z.pow_succ_r by lia. f_equal. lia. }
  pose proof (Z.mod_pos_bound (v + 2 ^ (bits - 1)) (2 ^ bits)) as H.
  assert (0 < 2 ^ bits) by (apply Z.pow_pos_nonneg; lia). lia.
Qed.

(** Values that agree modulo a larger power of two wrap to the same value. *)
Lemma wrap_u_mod bits big v w :
  0 ≤ bits ≤ big → v mod 2 ^ big = w mod 2 ^ big → wrap_u bits v = wrap_u bits w.
Proof.
  intros Hb Heq. unfold wrap_u. assert ((2 ^ bits | 2 ^ big)) as Hd.
  { exists (2 ^ (big - bits)). rewrite <- Z.pow_add_r by lia. f_equal. lia. }
  by rewrite <- (Z.mod_mod_divide v (2 ^ big)), Heq, Z.mod_mod_divide.
Qed.
Lemma wrap_s_mod bits big v w :
  0 ≤ bits ≤ big → v mod 2 ^ big = w mod 2 ^ big → wrap_s bits v = wrap_s bits w.
Proof.
  intros Hb Heq. unfold wrap_s. f_equal. apply (wrap_u_mod bits big); [done|].
  rewrite (Z.add_mod v), (Z.add_mod w), Heq; [done|..]; apply Z.pow_nonzero; lia.
Qed.
Lemma wrap_elem_mod e v w :
  v mod 2 ^ 64 = w mod 2 ^ 64 → int_elem e = true → wrap_elem e v = wrap_elem e w.
Proof.
  intros Heq He. destruct e as [| k|k| | | |]; try done; simpl.
  - apply (wrap_s_mod _ 64); [|done]. destruct (int_bits_cases k) as [->|[->|[->| ->]]]; lia.
  - apply (wrap_u_mod _ 64); [|done]. destruct (uint_bits_cases k) as [->|[->|[->| ->]]]; lia.
Qed.

Lemma wrap_u_congr bits v : 0 ≤ bits → wrap_u bits v mod 2 ^ bits = v mod 2 ^ bits.
Proof. intros Hb. unfold wrap_u. apply Z.mod_mod, Z.pow_nonzero; lia. Qed.
Lemma wrap_s_congr bits v : 0 < bits → wrap_s bits v mod 2 ^ bits = v mod 2 ^ bits.
Proof.
  intros Hb. unfold wrap_s. assert (2 ^ bits ≠ 0) by (apply Z.pow_nonzero; lia).
  rewrite Zminus_mod_idemp_l. f_equal. lia.
Qed.

Lemma wrap_elem_idem e v : int_elem e = true → wrap_elem e (wrap_elem e v) = wrap_elem e v.
Proof.
  intros He. destruct e as [| k|k| | | |]; try done; simpl.
  - apply wrap_s_small; [apply wrap_s_range|]; destruct (int_bits_cases k) as [->|[->|[->| ->]]]; lia.
  - apply wrap_u_small, wrap_u_range. destruct (uint_bits_cases k) as [->|[->|[->| ->]]]; lia.
Qed.
Lemma wrap_elem_0 e : wrap_elem e 0 = 0.
Proof. destruct e as [|k|k| | | |]; try done; by destruct k. Qed.

(** ** One constant operand *)

Lemma is_constant_operand env e v n :
  0 ≤ n ≤ 1 → int_elem e = true → var_ok env e v → is_constant v n = true → operand env v = VInt n.
Proof.
  intros Hn He (Hv & Hc & _) Hconst. unfold is_constant in Hconst. unfold operand, as_const in *.
  destruct (var_kind v) as [| | | | | | | |c| | | | | |]; try done.
  specialize (Hc c eq_refl). rewrite <- Hc in He. destruct c as [z k|z k|z k|b]; try discriminate He; simpl in *.
  - apply Z.eqb_eq in Hconst as ->. pose proof (int_bits_pow k). f_equal. apply wrap_s_small; lia.
  - apply Z.eqb_eq in Hconst. f_equal.
    pose proof (uint_bits_pow k).
    trans (wrap_u (uint_bits k) n); [|apply wrap_u_small; lia].
    apply (wrap_u_mod _ 64); [destruct (uint_bits_cases k) as [->|[->|[->| ->]]]; lia|].
    rewrite <- Hconst. symmetry. by apply wrap_s_congr.
Qed.

Lemma is_true_operand env v : is_true v = true → operand env v = VBool true.
Proof.
  unfold is_true, operand, as_const. destruct (var_kind v) as [| | | | | | | |c| | | | | |]; try done.
  destruct c; try done. by intros ->.
Qed.
Lemma is_false_operand env v : is_false v = true → operand env v = VBool false.
Proof.
  unfold is_false, operand, as_const. destruct (var_kind v) as [| | | | | | | |c| | | | | |]; try done.
  destruct c; try done. by destruct v0.
Qed.

Section Simplify.
Context (signed_modulo : Z → Z → Z) (other : Operation → Env → option Value).
Context (Hmod1 : ∀ a, signed_modulo a 1 = 0) (Hmod0 : ∀ b, b ≠ 0 → signed_modulo 0 b = 0).
Abbreviation sem := (op_sem signed_modulo other).

(** The replacement by one of the operands. *)
Lemma copy_operand env e f op v x :
  int_elem e = true → var_ok env e x →
  int2 e f (operand env (lhs op)) (operand env (rhs op)) = Some v →
  (∀ a b c, operand env (lhs op) = VInt a → operand env (rhs op) = VInt b → f a b = Some c →
     operand env x = VInt c) →
  sem env e (Copy x) = Some v.
Proof using.
  intros He (_ & _ & Hx) Hsem Hval. simpl. unfold int2 in Hsem.
  destruct (operand env (lhs op)) as [a|b1|f1], (operand env (rhs op)) as [b|b2|f2]; try done.
  destruct (f a b) as [c|] eqn:Hc; [|done]. injection Hsem as <-.
  rewrite (Hval a b c) by done. rewrite (Hval a b c) in Hx by done. f_equal. f_equal. symmetry. by apply Hx.
Qed.

Lemma simplify_arithmetic_sound env e i a op v :
  (∃ it, inst_item i = Ret it ∧ item_elem it = e) →
  op_typed env e (OArithmetic a) → simplify_arithmetic i a = Ret (Some op) →
  sem env e (OArithmetic a) = Some v → sem env e op = Some v.
Proof using Hmod1 Hmod0.
  intros (it & Hit & Hite) Htyped Hsimp Hsem.
  destruct a; try done; match goal with o : BinaryOperator |- _ => rename o into b end;
    destruct Htyped as [He [Hl Hr]]; cbn [op_sem arith_fn] in Hsem; rewrite He in Hsem;
    cbn [simplify_arithmetic] in Hsimp.
  - (* Add *)
    destruct (is_constant (lhs b) 0) eqn:L0; [|destruct (is_constant (rhs b) 0) eqn:R0; [|done]];
      injection Hsimp as <-; (eapply copy_operand; [done|done|done|]); intros x y z Hx Hy [= <-].
    + rewrite (is_constant_operand env e _ 0) in Hx by done. injection Hx as <-. by rewrite Z.add_0_l.
    + rewrite (is_constant_operand env e (rhs b) 0) in Hy by done. injection Hy as <-. by rewrite Z.add_0_r.
  - (* Sub *)
    destruct (is_constant (rhs b) 0) eqn:R0; [|done]. injection Hsimp as <-.
    eapply copy_operand; [done|done|done|]. intros x y z Hx Hy [= <-].
    rewrite (is_constant_operand env e (rhs b) 0) in Hy by done. injection Hy as <-. by rewrite Z.sub_0_r.
  - (* Mul *)
    destruct (is_constant (lhs b) 0) eqn:L0; [|destruct (is_constant (rhs b) 0) eqn:R0;
      [|destruct (is_constant (lhs b) 1) eqn:L1; [|destruct (is_constant (rhs b) 1) eqn:R1; [|done]]]];
      injection Hsimp as <-; (eapply copy_operand; [done|done|done|]); intros x y z Hx Hy [= <-].
    + rewrite Hx. rewrite (is_constant_operand env e _ 0) in Hx by done. injection Hx as <-. done.
    + rewrite Hy. rewrite (is_constant_operand env e (rhs b) 0) in Hy by done. injection Hy as <-. by rewrite Z.mul_0_r.
    + rewrite (is_constant_operand env e _ 1) in Hx by done. injection Hx as <-. by rewrite Z.mul_1_l.
    + rewrite (is_constant_operand env e (rhs b) 1) in Hy by done. injection Hy as <-. by rewrite Z.mul_1_r.
  - (* Div *)
    destruct (is_constant (lhs b) 0 || is_constant (rhs b) 1) eqn:Hor; [|done]. injection Hsimp as <-.
    eapply copy_operand; [done|done|done|]. intros x y z Hx Hy Hz. unfold nonzero in Hz.
    destruct (Z.eqb_spec y 0); [done|]. injection Hz as <-. rewrite Hx.
    apply orb_true_iff in Hor as [L0|R1].
    + rewrite (is_constant_operand env e _ 0) in Hx by done. injection Hx as <-. by rewrite Z.quot_0_l.
    + rewrite (is_constant_operand env e (rhs b) 1) in Hy by done. injection Hy as <-. by rewrite Z.quot_1_r.
  - (* Modulo *)
    destruct (is_constant (rhs b) 1 || is_constant (lhs b) 0) eqn:Hor; [|done].
    unfold zero_of in Hsimp. rewrite Hit in Hsimp. cbn [obind] in Hsimp. rewrite Hite in Hsimp.
    assert (∀ x y, operand env (lhs b) = VInt x → operand env (rhs b) = VInt y → y ≠ 0 →
      match e with EUInt _ => Z.modulo | _ => signed_modulo end x y = 0) as Hzero.
    { intros x y Hx Hy Hy0. apply orb_true_iff in Hor as [R1|L0].
      - rewrite (is_constant_operand env e (rhs b) 1) in Hy by done. injection Hy as <-.
        destruct e; try done; by rewrite ?Z.mod_1_r.
      - rewrite (is_constant_operand env e _ 0) in Hx by done. injection Hx as <-.
        destruct e; try done; by apply Hmod0. }
    unfold int2, nonzero in Hsem.
    destruct (operand env (lhs b)) as [x|b1|f1], (operand env (rhs b)) as [y|b2|f2]; try done.
    destruct (Z.eqb_spec y 0); [done|]. rewrite Hzero in Hsem by done. simpl in Hsem.
    rewrite wrap_elem_0 in Hsem. injection Hsem as <-.
    destruct e as [|k|k| | | |]; try done; cbn in Hsimp; injection Hsimp as <-; by destruct k.
Qed.

Lemma simplify_operator_sound env e o op v :
  op_typed env e (OOperator o) → simplify_operator o = Some op →
  sem env e (OOperator o) = Some v → sem env e op = Some v.
Proof using.
  intros Htyped Hsimp Hsem. destruct o as [| | | | | | |b|b| | | |s]; try done; cbn [simplify_operator op_sem] in *.
  - destruct (is_false (lhs b) || is_false (rhs b)) eqn:Hf.
    { injection Hsimp as <-. apply orb_true_iff in Hf as [Hf|Hf]; rewrite (is_false_operand env _ Hf) in Hsem;
        unfold bool2 in Hsem.
      - destruct (operand env (rhs b)); try done.
      - destruct (operand env (lhs b)) as [|x|]; try done. by rewrite andb_false_r in Hsem. }
    destruct (is_true (lhs b)) eqn:Ht; [|destruct (is_true (rhs b)) eqn:Ht'; [|done]]; injection Hsimp as <-;
      cbn [op_sem]; unfold bool2 in Hsem.
    + rewrite (is_true_operand env _ Ht) in Hsem. by destruct (operand env (rhs b)).
    + rewrite (is_true_operand env _ Ht') in Hsem. destruct (operand env (lhs b)); try done.
      by rewrite andb_true_r in Hsem.
  - destruct (is_true (lhs b) || is_true (rhs b)) eqn:Hf.
    { injection Hsimp as <-. apply orb_true_iff in Hf as [Hf|Hf]; rewrite (is_true_operand env _ Hf) in Hsem;
        unfold bool2 in Hsem.
      - destruct (operand env (rhs b)); try done.
      - destruct (operand env (lhs b)) as [|x|]; try done. by rewrite orb_true_r in Hsem. }
    destruct (is_false (lhs b)) eqn:Ht; [|destruct (is_false (rhs b)) eqn:Ht'; [|done]]; injection Hsimp as <-;
      cbn [op_sem]; unfold bool2 in Hsem.
    + rewrite (is_false_operand env _ Ht) in Hsem. by destruct (operand env (rhs b)).
    + rewrite (is_false_operand env _ Ht') in Hsem. destruct (operand env (lhs b)); try done.
      by rewrite orb_false_r in Hsem.
  - destruct (is_true (cond s)) eqn:Ht; [|destruct (is_false (cond s)) eqn:Hf; [|done]]; injection Hsimp as <-.
    + by rewrite (is_true_operand env _ Ht) in Hsem.
    + by rewrite (is_false_operand env _ Hf) in Hsem.
Qed.

Lemma simplify_metadata_sound env e md op v :
  op_typed env e (OMetadata md) → simplify_metadata md = Some op →
  sem env e (OMetadata md) = Some v → sem env e op = Some v.
Proof using.
  intros Htyped Hsimp Hsem. destruct md as [| | |var|]; try done. cbn [simplify_metadata op_sem op_typed] in *.
  destruct (var_kind var); try done; injection Hsimp as <-; injection Hsem as <-;
    cbn; do 2 f_equal; apply (wrap_u_small 32); lia.
Qed.

Context (effect : Operation → Env → option Env).

Lemma simplify_sound : sound_rewrite signed_modulo other effect typed simplify.
Proof using Hmod1 Hmod0.
  intros env i op env' Htyped Hsimp. unfold exec, with_operation. cbn [inst_out operation]. unfold typed in Htyped.
  destruct (inst_out i) as [o|] eqn:Hout.
  - destruct (sem env (Variable_elem o) (operation i)) as [v|] eqn:Hv; [|done].
    simpl. intros [= <-]. assert (sem env (Variable_elem o) op = Some v) as ->; [|done].
    unfold simplify in Hsimp. destruct (operation i) as [|a| | |oo| |md| | | | | | |] eqn:Hop; try done.
    + eapply simplify_arithmetic_sound; [|done|done|done]. exists (var_item o). unfold inst_item, out. by rewrite Hout.
    + injection Hsimp as Hsimp. by eapply simplify_operator_sound.
    + injection Hsimp as Hsimp. by eapply simplify_metadata_sound.
  - unfold simplify in Hsimp. by destruct (operation i).
Qed.
End Simplify.

(** ** Whole programs *)

(** Every node of the second program does what the node of the first does. *)
Definition nodes_refine (signed_modulo : Z → Z → Z) (other : Operation → Env → option Value)
    (effect : Operation → Env → option Env) (P : Env → Instruction → Prop) : Program → Program → Prop :=
  Forall2 (λ node node', ∀ env env', block_ok signed_modulo other effect P env node →
    exec_block signed_modulo other effect env node = Some env' →
    exec_block signed_modulo other effect env node' = Some env').

Lemma rewrite_program_sound signed_modulo other effect P f changes p p' changes' :
  sound_rewrite signed_modulo other effect P f →
  rewrite_program f changes p = Ret (p', changes') → nodes_refine signed_modulo other effect P p p'.
Proof.
  intros Hf. revert changes p' changes'. induction p as [|node p IH]; intros changes p' changes'; simpl.
  { intros [= <- _]. constructor. }
  destruct (rewrite_node f changes node) as [[node1 c1]| |] eqn:Hn; [|done|done]. cbn [obind].
  destruct (rewrite_program f c1 p) as [[p1 c2]| |] eqn:Hp; [|done|done]. cbn [obind]. intros [= <- _].
  constructor; [|by eapply IH]. intros env env' Hok Hexec. by eapply rewrite_node_sound.
Qed.

(** ** Evaluation of constants *)

Definition raw (c : ConstantScalarValue) : Z :=
  match c with CInt v _ => v | CUInt v _ => v | _ => 0 end.
(** An integer constant within the range of its kind. *)
Definition const_ok (e : Elem) (c : ConstantScalarValue) : Prop :=
  csv_elem c = e ∧ int_elem e = true ∧ wrap_elem e (raw c) = raw c.

Lemma const_ok_value e c : const_ok e c → const_value c = VInt (raw c).
Proof. intros (<- & He & Hr). destruct c; try done; simpl in *; by rewrite Hr. Qed.

(** The 64-bit function computes the function of the semantics modulo 2^64. *)
Definition agrees (fns : BinFns) (f : Z → Z → option Z) : Prop :=
  ∀ a b r r0, on_int fns a b = Ret r ∨ on_uint fns a b = Ret r → f a b = Some r0 →
    r mod 2 ^ 64 = r0 mod 2 ^ 64.

Lemma apply_fns_sound fns f e l r c v :
  agrees fns f → const_ok e l → csv_elem r = e → apply_fns fns l r = Ret c →
  int2 e f (VInt (raw l)) (VInt (raw r)) = Some v → const_value c = v.
Proof.
  intros Hag (<- & He & _) Hr Happ Hsem. simpl in Hsem.
  destruct (f (raw l) (raw r)) as [r0|] eqn:Hf; [|done]. simpl in Hsem. injection Hsem as <-.
  destruct l as [a k|a k|a k|b], r as [x k'|x k'|x k'|b']; try done; cbn [apply_fns] in Happ;
    cbn [raw] in Hf.
  - destruct (on_int fns a x) as [z| |] eqn:Hz; [|done|done]. cbn [obind] in Happ. injection Happ as <-.
    simpl. f_equal. apply (wrap_elem_mod (EInt k)); [|done]. by eapply Hag; [left|].
  - destruct (on_uint fns a x) as [z| |] eqn:Hz; [|done|done]. cbn [obind] in Happ. injection Happ as <-.
    simpl. f_equal. apply (wrap_elem_mod (EUInt k)); [|done]. by eapply Hag; [right|].
Qed.

Lemma cast_same e c : const_ok e c → cast_to c e = Ret c.
Proof. intros (<- & He & _). by destruct c. Qed.

(** The amount of a shift keeps its value when it is cast to the type of the
    shifted value. *)
Lemma cast_shift e e' c : 
  int_elem e = true → const_ok e' c → 0 ≤ raw c < 64 →
  ∃ c', cast_to c e = Ret c' ∧ csv_elem c' = e ∧ raw c' = raw c.
Proof.
  intros He (<- & He' & _) Hr. destruct c as [v k|v k|v k|b]; try done; destruct e as [|k'|k'| | | |]; try done;
    cbn [cast_to raw] in *; eexists; (split; [done|]); (split; [done|]); simpl; try done.
  - apply wrap_u_small. lia.
  - apply wrap_s_small; lia.
Qed.

Lemma const_eval_pair fns f e op l r c v :
  agrees fns f → as_const (lhs op) = Some l → as_const (rhs op) = Some r → const_ok e l → const_ok e r →
  const_eval fns op = Ret (Some c) → int2 e f (const_value l) (const_value r) = Some v → const_value c = v.
Proof.
  intros Hag Hl Hr Ol Or Hev Hsem. unfold const_eval in Hev. rewrite Hl, Hr in Hev.
  pose proof Ol as (El & _). rewrite El, (cast_same e r Or) in Hev. cbn [obind] in Hev.
  destruct (apply_fns fns l r) as [c'| |] eqn:Happ; [|done|done]. cbn [obind] in Hev. injection Hev as <-.
  rewrite (const_ok_value e l Ol), (const_ok_value e r Or) in Hsem.
  pose proof Or as (Er & _). by apply (apply_fns_sound fns f e l r).
Qed.

Lemma const_eval_shift fns g e e' op l r c v :
  agrees fns (shift (elem_bits e) g) → as_const (lhs op) = Some l → as_const (rhs op) = Some r →
  const_ok e l → const_ok e' r → const_eval fns op = Ret (Some c) →
  int2 e (shift (elem_bits e) g) (const_value l) (const_value r) = Some v → const_value c = v.
Proof.
  intros Hag Hl Hr Ol Or Hev Hsem. unfold const_eval in Hev. rewrite Hl, Hr in Hev.
  pose proof Ol as (El & He & _). rewrite El in Hev.
  rewrite (const_ok_value e l Ol), (const_ok_value e' r Or) in Hsem.
  assert (0 ≤ raw r < 64) as Hb.
  { simpl in Hsem. unfold shift in Hsem.
    destruct (Z.leb_spec 0 (raw r)), (Z.ltb_spec (raw r) (elem_bits e)); try done.
    destruct e as [|k|k| | | |]; try done; simpl in *.
    - destruct (int_bits_cases k) as [E|[E|[E|E]]]; lia.
    - destruct (uint_bits_cases k) as [E|[E|[E|E]]]; lia. }
  destruct (cast_shift e e' r He Or Hb) as (r' & Hc & Er' & Hraw). rewrite Hc in Hev. cbn [obind] in Hev.
  destruct (apply_fns fns l r') as [c'| |] eqn:Happ; [|done|done]. cbn [obind] in Hev. injection Hev as <-.
  rewrite <- Hraw in Hsem. by apply (apply_fns_sound fns (shift (elem_bits e) g) e l r').
Qed.

Lemma chk_ret ok v msg r : chk ok v msg = Ret r → ok = true ∧ r = v.
Proof. unfold chk. destruct ok; naive_solver. Qed.

Lemma agrees_fns_int g ff msg : agrees (fns_int g ff msg) (λ a b, Some (g a b)).
Proof. by intros a b r r0 [[_ ->]%chk_ret|[_ ->]%chk_ret] [= <-]. Qed.
Lemma agrees_ret ff g : agrees {| on_int := λ a b, Ret (g a b); on_float := ff; on_uint := λ a b, Ret (g a b) |} (λ a b, Some (g a b)).
Proof. by intros a b r r0 [[= <-]|[= <-]] [= <-]. Qed.
Lemma agrees_div ff : agrees {| on_int := int_div in_i64; on_float := ff; on_uint := int_div in_u64 |} (nonzero Z.quot).
Proof.
  intros a b r r0. unfold nonzero. cbn [on_int on_uint]. unfold int_div.
  destruct (b =? 0); [naive_solver|]. by intros [[_ ->]%chk_ret|[_ ->]%chk_ret] [= <-].
Qed.
Lemma agrees_rem ff : agrees {| on_int := int_rem in_i64; on_float := ff; on_uint := int_rem in_u64 |} (nonzero Z.rem).
Proof.
  intros a b r r0. unfold nonzero. cbn [on_int on_uint]. unfold int_rem.
  destruct (b =? 0); [naive_solver|]. by intros [[_ ->]%chk_ret|[_ ->]%chk_ret] [= <-].
Qed.
Lemma agrees_shl bits : agrees (fns_bits (int_shl (wrap_s 64)) (int_shl (wrap_u 64))) (shift bits Z.shiftl).
Proof.
  intros a b r r0. unfold shift. destruct ((0 <=? b) && (b <? bits)); [|naive_solver].
  intros [[_ ->]%chk_ret|[_ ->]%chk_ret] [= <-]; [by apply wrap_s_congr|by apply wrap_u_congr].
Qed.
Lemma agrees_shr bits : agrees (fns_bits int_shr int_shr) (shift bits Z.shiftr).
Proof.
  intros a b r r0. unfold shift. destruct ((0 <=? b) && (b <? bits)); [|naive_solver].
  by intros [[_ ->]%chk_ret|[_ ->]%chk_ret] [= <-].
Qed.

(** The operations on constants that the semantics interprets: both operands
    are constants in the range of the type of the operation. *)
Definition folded_pair (e : Elem) (op : BinaryOperator) : Prop :=
  ∃ l r, as_const (lhs op) = Some l ∧ as_const (rhs op) = Some r ∧ const_ok e l ∧ const_ok e r.
Definition folded_shift (e : Elem) (op : BinaryOperator) : Prop :=
  ∃ e' l r, as_const (lhs op) = Some l ∧ as_const (rhs op) = Some r ∧ const_ok e l ∧ const_ok e' r.

Definition covered (e : Elem) (o : Operation) : Prop :=
  match o with
  | OArithmetic (Add op) | OArithmetic (Sub op) | OArithmetic (Mul op) | OArithmetic (Div op)
  | OArithmetic (Remainder op) | OArithmetic (Max op) | OArithmetic (Min op)
  | OBitwise (BitwiseAnd op) | OBitwise (BitwiseOr op) | OBitwise (BitwiseXor op) => folded_pair e op
  | OArithmetic (Modulo op) => folded_pair e op ∧ ∃ k, e = EUInt k
  | OBitwise (ShiftLeft op) | OBitwise (ShiftRight op) => folded_shift e op
  | OComparison c => folded_pair (Variable_elem (lhs (cmp_fn c).1)) (cmp_fn c).1
  | OOperator (And _) | OOperator (Or _) | OOperator (Not _) => True
  | _ => False
  end.

Lemma operand_const env v c : as_const v = Some c → operand env v = const_value c.
Proof. unfold operand. by intros ->. Qed.

Section ConstEval.
Context (F : FloatFns) (signed_modulo : Z → Z → Z) (other : Operation → Env → option Value).
Context (effect : Operation → Env → option Env).
Abbreviation sem := (op_sem signed_modulo other).

Lemma fold_pair fns f env e op c v :
  agrees fns f → folded_pair e op → const_eval fns op = Ret (Some c) →
  int2 e f (operand env (lhs op)) (operand env (rhs op)) = Some v → const_value c = v.
Proof using.
  intros Hag (l & r & Hl & Hr & Ol & Or) Hev Hsem.
  rewrite (operand_const env _ _ Hl), (operand_const env _ _ Hr) in Hsem.
  by apply (const_eval_pair fns f e op l r).
Qed.

Lemma fold_shift fns g env e op c v :
  agrees fns (shift (elem_bits e) g) → folded_shift e op → const_eval fns op = Ret (Some c) →
  int2 e (shift (elem_bits e) g) (operand env (lhs op)) (operand env (rhs op)) = Some v → const_value c = v.
Proof using.
  intros Hag (e' & l & r & Hl & Hr & Ol & Or) Hev Hsem.
  rewrite (operand_const env _ _ Hl), (operand_const env _ _ Hr) in Hsem.
  by apply (const_eval_shift fns g e e' op l r).
Qed.

Lemma folded_int e op : folded_pair e op → int_elem e = true.
Proof using. by intros (l & r & _ & _ & (_ & He & _) & _). Qed.

(** For unsigned operands remainder and modulo agree. *)
Lemma unsigned_modulo env k op :
  folded_pair (EUInt k) op →
  int2 (EUInt k) (nonzero Z.modulo) (operand env (lhs op)) (operand env (rhs op)) =
  int2 (EUInt k) (nonzero Z.rem) (operand env (lhs op)) (operand env (rhs op)).
Proof using.
  intros (l & r & Hl & Hr & Ol & Or). rewrite (operand_const env _ _ Hl), (operand_const env _ _ Hr).
  rewrite (const_ok_value _ _ Ol), (const_ok_value _ _ Or).
  destruct Ol as (_ & _ & Hl'), Or as (_ & _ & Hr'). simpl in Hl', Hr'.
  pose proof (uint_bits_pow k) as [Hb _].
  pose proof (wrap_u_range (uint_bits k) (raw l) ltac:(lia)). pose proof (wrap_u_range (uint_bits k) (raw r) ltac:(lia)).
  simpl. unfold nonzero. destruct (Z.eqb_spec (raw r) 0); [done|]. by rewrite Z.rem_mod_nonneg by lia.
Qed.

Lemma fold_arithmetic env e a c v :
  covered e (OArithmetic a) → try_const_eval_arithmetic F a = Ret (Some c) →
  sem env e (OArithmetic a) = Some v → const_value c = v.
Proof using.
  intros Hcov Hev Hsem. destruct a; try done; cbn [covered] in Hcov; cbn [try_const_eval_arithmetic] in Hev;
    cbn [op_sem arith_fn] in Hsem;
    try (rewrite (folded_int e _ Hcov) in Hsem).
  - eapply fold_pair; [apply agrees_fns_int|done|done|done].
  - eapply fold_pair; [apply agrees_fns_int|done|done|done].
  - eapply fold_pair; [apply agrees_fns_int|done|done|done].
  - eapply fold_pair; [apply agrees_div|done|done|done].
  - destruct Hcov as [Hcov [k ->]]. cbn [int_elem] in Hsem. rewrite unsigned_modulo in Hsem by done.
    eapply fold_pair; [apply agrees_rem|done|done|done].
  - eapply fold_pair; [apply agrees_ret|done|done|done].
  - eapply fold_pair; [apply agrees_ret|done|done|done].
  - eapply fold_pair; [apply agrees_rem|done|done|done].
Qed.

Lemma fold_bitwise env e b c v :
  covered e (OBitwise b) → try_const_eval_bitwise b = Ret (Some c) →
  sem env e (OBitwise b) = Some v → const_value c = v.
Proof using.
  intros Hcov Hev Hsem.
  assert (int_elem e = true) as He.
  { destruct b; try done; cbn [covered] in Hcov; try (by eapply folded_int);
      by destruct Hcov as (e' & l & r & _ & _ & (_ & He & _) & _). }
  destruct b; try done; cbn [covered] in Hcov; cbn [try_const_eval_bitwise] in Hev;
    cbn [op_sem bit_fn] in Hsem; rewrite He in Hsem.
  - eapply fold_pair; [apply agrees_ret|done|done|done].
  - eapply fold_pair; [apply agrees_ret|done|done|done].
  - eapply fold_pair; [apply agrees_ret|done|done|done].
  - eapply fold_shift; [apply agrees_shl|done|done|done].
  - eapply fold_shift; [apply agrees_shr|done|done|done].
Qed.

Lemma fold_comparison env e cm c v :
  covered e (OComparison cm) → try_const_eval_cmp cm = Ret (Some c) →
  sem env e (OComparison cm) = Some v → const_value c = v.
Proof using.
  intros Hcov Hev Hsem. cbn [covered] in Hcov. cbn [op_sem] in Hsem.
  pose proof (folded_int _ _ Hcov) as He. destruct Hcov as (l & r & Hl & Hr & Ol & Or).
  destruct (cmp_fn cm) as [op f] eqn:Hop. cbn [fst] in *. rewrite He in Hsem.
  rewrite (operand_const env _ _ Hl), (operand_const env _ _ Hr), (const_ok_value _ _ Ol), (const_ok_value _ _ Or) in Hsem.
  injection Hsem as <-. destruct Ol as (El & _), Or as (Er & _).
  assert (∃ ff, const_eval_cmp f ff op = Ret (Some c)) as [ff Hcmp]
    by (destruct cm; injection Hop as <- <-; by eexists).
  unfold const_eval_cmp in Hcmp. rewrite Hl, Hr in Hcmp. rewrite <- El in He.
  destruct l, r; try done; try (by rewrite <- El in Er); by injection Hcmp as <-.
Qed.

Lemma fold_operator env e o c v :
  covered e (OOperator o) → try_const_eval_operator o = Ret (Some c) →
  sem env e (OOperator o) = Some v → const_value c = v.
Proof using.
  intros Hcov Hev Hsem. destruct o as [| | | | | | |op|op|op| | |]; try done; cbn [try_const_eval_operator op_sem] in *;
    unfold const_eval_bool in *.
  - destruct (as_const (lhs op)) as [l|] eqn:Hl; [|done]. destruct (as_const (rhs op)) as [r|] eqn:Hr; [|by destruct l].
    rewrite (operand_const env _ _ Hl), (operand_const env _ _ Hr) in Hsem.
    destruct l, r; try done. injection Hev as <-. by injection Hsem as <-.
  - destruct (as_const (lhs op)) as [l|] eqn:Hl; [|done]. destruct (as_const (rhs op)) as [r|] eqn:Hr; [|by destruct l].
    rewrite (operand_const env _ _ Hl), (operand_const env _ _ Hr) in Hsem.
    destruct l, r; try done. injection Hev as <-. by injection Hsem as <-.
  - destruct (as_const (input op)) as [l|] eqn:Hl; [|done]. rewrite (operand_const env _ _ Hl) in Hsem.
    destruct l; try done. injection Hev as <-. by injection Hsem as <-.
Qed.

(** An instruction that the pass leaves alone, or one that is covered. *)
Definition fold_ok (env : Env) (i : Instruction) : Prop :=
  try_const_eval F i = Ret None ∨ ∃ o, inst_out i = Some o ∧ covered (Variable_elem o) (operation i).

Lemma const_eval_sound : sound_rewrite signed_modulo other effect fold_ok (const_eval_operation F).
Proof using.
  intros env i op env' Hok Hev. unfold const_eval_operation in Hev.
  destruct (try_const_eval F i) as [[c|]| |] eqn:Hc; try done. cbn in Hev. injection Hev as <-.
  destruct Hok as [|(o & Ho & Hcov)]; [congruence|]. unfold exec, with_operation. cbn [inst_out operation].
  rewrite Ho. destruct (sem env (Variable_elem o) (operation i)) as [v|] eqn:Hv; [|done].
  intros [= <-]. cbn. do 2 f_equal. unfold operand. cbn. unfold try_const_eval in Hc.
  destruct (operation i); try done.
  - by eapply fold_arithmetic.
  - by eapply fold_comparison.
  - by eapply fold_bitwise.
  - by eapply fold_operator.
Qed.
End ConstEval.
