(* ===== verification/PassProps.v ===== *)
(** * The constant passes on whole programs

    The pass that evaluates constants computes on 64-bit integers with overflow
    checks.  For constants of at most 32 bits no covered operation overflows,
    except an unsigned subtraction below zero.  Then the passes on programs. *)

From S2P Require Import Prelude DeviceNum Ir LocalPasses IrSem OptProps.

Open Scope Z_scope.
Open Scope rust_scope.

Definition narrow (e : Elem) : Prop := elem_bits e ≤ 32.

Lemma narrow_range e c :
  const_ok e c → narrow e →
  - 2147483648 ≤ raw c < 4294967296 ∧ (∀ k, e = EInt k → raw c < 2147483648) ∧
  (∀ k, e = EUInt k → 0 ≤ raw c).
Proof.
  intros (_ & He & Hr) Hn. unfold narrow in Hn. destruct e as [|k|k| | | |]; try done; simpl in *.
  - pose proof (wrap_s_range (int_bits k) (raw c)) as H. rewrite Hr in H.
    destruct (int_bits_cases k) as [E|[E|[E|E]]]; rewrite E in *; try lia;
      specialize (H ltac:(lia)); simpl in H; split_and!; try done; lia.
  - pose proof (wrap_u_range (uint_bits k) (raw c)) as H. rewrite Hr in H.
    destruct (uint_bits_cases k) as [E|[E|[E|E]]]; rewrite E in *; try lia;
      specialize (H ltac:(lia)); simpl in H; split_and!; try done; lia.
Qed.

Lemma in_i64_true v : - 9223372036854775808 ≤ v ≤ 9223372036854775807 → in_i64 v = true.
Proof.
  intros Hv. unfold in_i64. change i64_min with (-9223372036854775808). change i64_max with 9223372036854775807.
  apply andb_true_iff. split; apply Z.leb_le; lia.
Qed.
Lemma in_u64_true v : 0 ≤ v ≤ 18446744073709551615 → in_u64 v = true.
Proof.
  intros Hv. unfold in_u64. change u64_top with 18446744073709551615.
  apply andb_true_iff. split; apply Z.leb_le; lia.
Qed.

(** The function returns on the two constants, in the variant of their type. *)
Definition fns_return (fns : BinFns) (e : Elem) (a b : Z) : Prop :=
  match e with
  | EInt _ => ∃ z, on_int fns a b = Ret z
  | _ => ∃ z, on_uint fns a b = Ret z
  end.

Lemma const_eval_returns fns e op l r r' :
  as_const (lhs op) = Some l → as_const (rhs op) = Some r → const_ok e l →
  cast_to r e = Ret r' → csv_elem r' = e → fns_return fns e (raw l) (raw r') →
  ∃ c, const_eval fns op = Ret (Some c).
Proof.
  intros Hl Hr (<- & He & _) Hc Er Hret. unfold const_eval. rewrite Hl, Hr, Hc. cbn [obind].
  destruct l as [a k|a k|a k|b], r' as [x k'|x k'|x k'|b']; try done; cbn in Hret;
    destruct Hret as [z Hz]; cbn [apply_fns]; rewrite Hz; cbn [obind]; by eexists.
Qed.

Lemma const_eval_returns_pair fns e op l r :
  as_const (lhs op) = Some l → as_const (rhs op) = Some r → const_ok e l → const_ok e r →
  fns_return fns e (raw l) (raw r) → ∃ c, const_eval fns op = Ret (Some c).
Proof.
  intros Hl Hr Ol Or Hret. pose proof Or as (Er & _).
  by apply (const_eval_returns fns e op l r r); [..|apply cast_same| |].
Qed.

Lemma fns_int_return g ff msg e a b :
  int_elem e = true → (∀ k, e = EInt k → in_i64 (g a b) = true) → (∀ k, e = EUInt k → in_u64 (g a b) = true) →
  fns_return (fns_int g ff msg) e a b.
Proof.
  intros He Hi Hu. destruct e as [|k|k| | | |]; try done; cbn; unfold chk; [rewrite (Hi k)|rewrite (Hu k)]; by eauto.
Qed.

(** An unsigned subtraction whose result would be negative. *)
Definition underflows (e : Elem) (o : Operation) : Prop :=
  match o, e with
  | OArithmetic (Sub op), EUInt _ =>
      ∃ l r, as_const (lhs op) = Some l ∧ as_const (rhs op) = Some r ∧ raw l < raw r
  | _, _ => False
  end.

Section Total.
Context (F : FloatFns) (signed_modulo : Z → Z → Z) (other : Operation → Env → option Value).
Abbreviation sem := (op_sem signed_modulo other).

(** The divisor of a defined quotient is not zero. *)
Lemma nonzero_defined env e g op l r v :
  as_const (lhs op) = Some l → as_const (rhs op) = Some r → const_ok e l → const_ok e r →
  int2 e (nonzero g) (operand env (lhs op)) (operand env (rhs op)) = Some v → raw r ≠ 0.
Proof using.
  intros Hl Hr Ol Or. rewrite (operand_const env _ _ Hl), (operand_const env _ _ Hr).
  rewrite (const_ok_value _ _ Ol), (const_ok_value _ _ Or). simpl. unfold nonzero.
  by destruct (Z.eqb_spec (raw r) 0).
Qed.

Lemma quot_bounds a b :
  - 2147483648 ≤ a < 4294967296 → b ≠ 0 → - 4294967296 ≤ Z.quot a b ≤ 4294967296.
Proof using.
  intros Ha Hb. pose proof (Z.quot_abs a b Hb) as Habs.
  assert (Z.abs a ÷ Z.abs b ≤ Z.abs a) as Hle.
  { rewrite Z.quot_div_nonneg by lia. apply Z.div_le_upper_bound; nia. }
  assert (0 ≤ Z.abs a ÷ Z.abs b) by (apply Z.quot_pos; lia). lia.
Qed.

Lemma quot_return (Q : (Z → bool) → Z → Z → outcome Z) ff e a b :
  (∀ inr, inr (Z.quot a b) = true → ∃ z, Q inr a b = Ret z) → int_elem e = true →
  - 2147483648 ≤ a < 4294967296 → (∀ k, e = EUInt k → 0 ≤ a ∧ 0 ≤ b) → b ≠ 0 →
  fns_return {| on_int := Q in_i64; on_float := ff; on_uint := Q in_u64 |} e a b.
Proof using.
  intros HQ He Ha Hu Hb. pose proof (quot_bounds a b Ha Hb). destruct e as [|k|k| | | |]; try done; cbn; apply HQ.
  - apply in_i64_true. lia.
  - destruct (Hu k eq_refl). apply in_u64_true. split; [apply Z.quot_pos; lia|lia].
Qed.

Lemma int_div_returns a b inr : b ≠ 0 → inr (Z.quot a b) = true → ∃ z, int_div inr a b = Ret z.
Proof using. intros Hb Hi. unfold int_div, chk. destruct (Z.eqb_spec b 0); [done|]. rewrite Hi. by eexists. Qed.
Lemma int_rem_returns a b inr : b ≠ 0 → inr (Z.quot a b) = true → ∃ z, int_rem inr a b = Ret z.
Proof using. intros Hb Hi. unfold int_rem, chk. destruct (Z.eqb_spec b 0); [done|]. rewrite Hi. by eexists. Qed.

Lemma arithmetic_returns env e a v :
  covered e (OArithmetic a) → narrow e → ¬ underflows e (OArithmetic a) →
  sem env e (OArithmetic a) = Some v → ∃ c, try_const_eval_arithmetic F a = Ret (Some c).
Proof using.
  intros Hcov Hn Hnu Hsem.
  assert (∃ op, folded_pair e op ∧ (a = Add op ∨ a = Sub op ∨ a = Mul op ∨ a = Div op ∨ a = Modulo op ∨
    a = Max op ∨ a = Min op ∨ a = Remainder op)) as (op & Hp & Ha).
  { destruct a; try done; cbn [covered] in Hcov; eexists;
      (split; [first [exact Hcov|exact (proj1 Hcov)]|]); tauto. }
  pose proof (folded_int _ _ Hp) as He. pose proof Hp as (l & r & Hl & Hr & Ol & Or).
  destruct (narrow_range e l Ol Hn) as (Bl & Bli & Blu). destruct (narrow_range e r Or Hn) as (Br & Bri & Bru).
  destruct Ha as [->|[->|[->|[->|[->|[->|[->| ->]]]]]]]; cbn [try_const_eval_arithmetic];
    cbn [op_sem arith_fn] in Hsem; rewrite He in Hsem;
    (eapply const_eval_returns_pair; [done|done|done|done|]).
  - apply fns_int_return; [done| |]; intros k ->.
    + apply in_i64_true. lia.
    + specialize (Blu k eq_refl). specialize (Bru k eq_refl). apply in_u64_true. lia.
  - apply fns_int_return; [done| |]; intros k ->.
    + apply in_i64_true. lia.
    + specialize (Blu k eq_refl). specialize (Bru k eq_refl). apply in_u64_true.
      assert (¬ raw l < raw r) by (intros ?; apply Hnu; simpl; eauto). lia.
  - apply fns_int_return; [done| |]; intros k ->.
    + specialize (Bli k eq_refl). specialize (Bri k eq_refl). apply in_i64_true. nia.
    + specialize (Blu k eq_refl). specialize (Bru k eq_refl). apply in_u64_true. nia.
  - assert (raw r ≠ 0) by (by eapply nonzero_defined).
    apply (quot_return int_div); [intros; by apply int_div_returns|done|done|naive_solver|done].
  - assert (raw r ≠ 0) by (by eapply nonzero_defined).
    apply (quot_return int_rem); [intros; by apply int_rem_returns|done|done|naive_solver|done].
  - destruct e; try done; by eexists.
  - destruct e; try done; by eexists.
  - assert (raw r ≠ 0) by (by eapply nonzero_defined).
    apply (quot_return int_rem); [intros; by apply int_rem_returns|done|done|naive_solver|done].
Qed.

Lemma bitwise_returns env e b v :
  covered e (OBitwise b) → narrow e → sem env e (OBitwise b) = Some v →
  ∃ c, try_const_eval_bitwise b = Ret (Some c).
Proof using.
  intros Hcov Hn Hsem.
  assert (∀ op fi, folded_pair e op → ∃ c, const_eval (fns_bits (λ a b, Ret (fi a b)) (λ a b, Ret (fi a b))) op = Ret (Some c)) as Hpair.
  { intros op fi Hp. pose proof (folded_int _ _ Hp) as He. destruct Hp as (l & r & Hl & Hr & Ol & Or).
    apply (const_eval_returns_pair _ e op l r); try done. destruct e; try done; by eexists. }
  assert (∀ op g fi fu, folded_shift e op →
    int2 e (shift (elem_bits e) g) (operand env (lhs op)) (operand env (rhs op)) = Some v →
    (∀ a b, 0 ≤ b < 64 → (∃ z, fi a b = Ret z) ∧ ∃ z, fu a b = Ret z) →
    ∃ c, const_eval (fns_bits fi fu) op = Ret (Some c)) as Hshift.
  { intros op g fi fu (e' & l & r & Hl & Hr & Ol & Or) Hs Hf. pose proof Ol as (_ & He & _).
    rewrite (operand_const env _ _ Hl), (operand_const env _ _ Hr), (const_ok_value _ _ Ol), (const_ok_value _ _ Or) in Hs.
    simpl in Hs. unfold shift in Hs. unfold narrow in Hn.
    destruct (Z.leb_spec 0 (raw r)), (Z.ltb_spec (raw r) (elem_bits e)); try done.
    destruct (cast_shift e e' r He Or ltac:(lia)) as (r' & Hc & Er & Hraw).
    apply (const_eval_returns _ e op l r r'); try done. rewrite Hraw.
    destruct (Hf (raw l) (raw r) ltac:(lia)) as [Hi Hu]. destruct e; try done. }
  assert (∀ b0, 0 ≤ b0 < 64 → ((0 <=? b0) && (b0 <? 64)) = true) as Hb64
    by (intros b0 Hb0; apply andb_true_iff; split; [apply Z.leb_le|apply Z.ltb_lt]; lia).
  destruct b; try done; cbn [covered try_const_eval_bitwise] in *.
  - by apply Hpair.
  - by apply Hpair.
  - by apply Hpair.
  - apply (Hshift _ Z.shiftl); [done| |].
    + cbn [op_sem bit_fn] in Hsem. destruct (int_elem e) eqn:He; [done|].
      destruct Hcov as (e' & l & r & _ & _ & (_ & Hi & _) & _). congruence.
    + intros x y Hy. unfold int_shl, chk. rewrite (Hb64 y Hy). split; by eexists.
  - apply (Hshift _ Z.shiftr); [done| |].
    + cbn [op_sem bit_fn] in Hsem. destruct (int_elem e) eqn:He; [done|].
      destruct Hcov as (e' & l & r & _ & _ & (_ & Hi & _) & _). congruence.
    + intros x y Hy. unfold int_shr, chk. rewrite (Hb64 y Hy). split; by eexists.
Qed.

Lemma comparison_returns e cm :
  covered e (OComparison cm) → ∃ c, try_const_eval_cmp cm = Ret (Some c).
Proof using.
  cbn [covered]. intros (l & r & Hl & Hr & (El & He & _) & (Er & _)). rewrite <- El in He.
  assert (csv_elem r = csv_elem l) as Hlr by congruence.
  destruct cm; cbn [cmp_fn fst try_const_eval_cmp] in *; unfold const_eval_cmp; rewrite Hl, Hr;
    destruct l, r; try done; by eexists.
Qed.
End Total.


Module TotalDemo.
Definition const_u32 (v : Z) : Variable_ := Variable_constant (CUInt v U32).
Definition out_u32 : Variable_ := Variable_new (LocalConst 0) (Item_new (EUInt U32)).
Definition instr : Instruction :=
  Instruction_new (OArithmetic (Mul (binary (const_u32 4000000000) (const_u32 3)))) out_u32.
Definition floats : FloatFns :=
  {| f_powf := λ a _, a; f_rem := λ a _, a; f_exp := id; f_ln := id; f_ln_1p := id; f_cos := id;
     f_sin := id; f_tanh := id; f_sqrt := id; f_round := id; f_floor := id; f_ceil := id;
     f_recip := id; f_max := λ a _, a; f_min := λ a _, a; f_clamp := λ a _ _, Ret a |}.

Lemma instr_covered : covered (EUInt U32) (operation instr).
Proof. by exists (CUInt 4000000000 U32), (CUInt 3 U32). Qed.


(** Two deviations from the type of the constant: an unsigned difference
    below zero panics, and the bits of a negative 32-bit constant are counted
    in 64 bits. *)
Lemma unsigned_sub_panics :
  try_const_eval floats (Instruction_new (OArithmetic (Sub (binary (const_u32 3) (const_u32 5)))) out_u32) =
    Panic "attempt to subtract with overflow".
Proof. reflexivity. Qed.
Lemma count_ones_of_minus_one :
  try_const_eval floats (Instruction_new (OBitwise (CountOnes {| input := Variable_constant (CInt (-1) I32) |}))
    (Variable_new (LocalConst 0) (Item_new (EInt I32)))) = Ret (Some (CInt 64 I32)).
Proof. vm_compute. reflexivity. Qed.
End TotalDemo.

(** A rewriting function that does not panic gives a pass that returns. *)
Lemma rewrite_node_returns f changes node :
  (∀ i, i ∈ node → ∃ r, f i = Ret r) → ∃ node' changes', rewrite_node f changes node = Ret (node', changes').
Proof.
  revert changes. induction node as [|i node IH]; intros changes Hf; simpl; [by do 2 eexists|].
  destruct (Hf i) as [r Hr]; [by left|]. rewrite Hr. cbn [obind].
  assert (∀ j, j ∈ node → ∃ r, f j = Ret r) as Hf' by (intros j Hj; apply Hf; by right).
  destruct r as [op|].
  - destruct (IH (changes + 1)%N Hf') as (n' & c' & ->). cbn [obind]. by do 2 eexists.
  - destruct (IH changes Hf') as (n' & c' & ->). cbn [obind]. by do 2 eexists.
Qed.

Lemma rewrite_program_returns f changes p :
  (∀ node i, node ∈ p → i ∈ node → ∃ r, f i = Ret r) →
  ∃ p' changes', rewrite_program f changes p = Ret (p', changes').
Proof.
  revert changes. induction p as [|node p IH]; intros changes Hf; simpl; [by do 2 eexists|].
  destruct (rewrite_node_returns f changes node) as (n' & c' & ->).
  { intros i Hi. apply (Hf node); [by left|done]. }
  cbn [obind]. destruct (IH c') as (p' & c'' & ->).
  { intros node' i Hn Hi. apply (Hf node'); [by right|done]. }
  cbn [obind]. by do 2 eexists.
Qed.

Lemma simplify_returns env i : typed env i → ∃ r, simplify i = Ret r.
Proof.
  intros Hty. unfold simplify, typed in *.
  destruct (operation i) as [|a| | |o| |md| | | | | | |] eqn:Hop; try by eexists.
  destruct a; try by eexists. cbn [simplify_arithmetic].
  destruct (is_constant _ 1 || is_constant _ 0); [|by eexists].
  destruct (inst_out i) as [o|] eqn:Hout; [|done]. destruct Hty as [He _].
  unfold zero_of, inst_item, out. rewrite Hout. cbn [obind expect].
  unfold Variable_elem in He. destruct (item_elem (var_item o)); try done; by eexists.
Qed.



Module PassDemo.
Definition x : Variable_ := Variable_new (LocalConst 1) (Item_new (EUInt U32)).
Definition y : Variable_ := Variable_new (LocalConst 2) (Item_new (EUInt U32)).
Definition one : Variable_ := TotalDemo.const_u32 1.
Definition program : Program := [[Instruction_new (OArithmetic (Mul (binary x one))) y]].

Lemma program_typed node i : node ∈ program → i ∈ node → ∃ env, typed env i.
Proof.
  intros ->%list_elem_of_singleton ->%list_elem_of_singleton. exists (λ _, VInt 0).
  repeat split; try done; intros c [= <-]; done.
Qed.


Definition folded : Program :=
  [[Instruction_new (Copy (Variable_constant (CUInt 12000000000 U32))) TotalDemo.out_u32]].

End PassDemo.
