(* ===== verification/ReduceProps.v ===== *)
(** * Strength reduction preserves the meaning of a block

    The pass introduces temporaries; the reduced block computes the same
    values for every other variable.  The operations that are not interpreted
    may not read the temporaries, which the allocator creates fresh. *)

From S2P Require Import Prelude DeviceNum Ir LocalPasses IrSem OptProps.

Open Scope Z_scope.
Open Scope rust_scope.

(** The kinds of the temporaries created from identifier [n0] on. *)
Definition fresh (n0 : N) (k : VariableKind) : Prop :=
  match k with LocalConst id => (n0 ≤ id)%N | _ => False end.
Definition agree (n0 : N) (env env' : Env) : Prop := ∀ k, ¬ fresh n0 k → env k = env' k.

(** The variables that an interpreted operation reads. *)
Definition op_vars (o : Operation) : list Variable_ :=
  match o with
  | Copy v => [v]
  | OArithmetic (Add op) | OArithmetic (Sub op) | OArithmetic (Mul op) | OArithmetic (Div op)
  | OArithmetic (Modulo op) | OArithmetic (Remainder op) | OArithmetic (Max op) | OArithmetic (Min op)
  | OBitwise (BitwiseAnd op) | OBitwise (BitwiseOr op) | OBitwise (BitwiseXor op)
  | OBitwise (ShiftLeft op) | OBitwise (ShiftRight op)
  | OOperator (And op) | OOperator (Or op) => [lhs op; rhs op]
  | OComparison c => [lhs (cmp_fn c).1; rhs (cmp_fn c).1]
  | OOperator (Not op) => [input op]
  | OOperator (OpSelect s) => [cond s; then_ s; or_else s]
  | _ => []
  end.

(** An instruction of the program does not mention the temporaries. *)
Definition old_instruction (n0 : N) (i : Instruction) : Prop :=
  (∀ v, v ∈ op_vars (operation i) → ¬ fresh n0 (var_kind v)) ∧
  (∀ o, inst_out i = Some o → ¬ fresh n0 (var_kind o)).

(** ** Powers of two *)

Lemma pow2_spec v : pow2 v = true → v = 2 ^ tz v ∧ 0 ≤ tz v.
Proof.
  unfold pow2, tz. intros Hp. destruct v as [|p|p]; try done. simpl in *. split; [|lia].
  revert Hp. induction p as [p IH|p IH|]; simpl; try done. intros Hp.
  rewrite N2Z.inj_add, Z.pow_add_r by lia. rewrite <- IH by done. done.
Qed.

Lemma pow2_lt v : pow2 v = true → v < 2 ^ 32 → 0 ≤ tz v < 32.
Proof.
  intros Hp Hlt. destruct (pow2_spec v Hp) as [Hv Hz]. split; [done|].
  apply (Z.pow_lt_mono_r_iff 2); [lia|lia|]. by rewrite <- Hv.
Qed.

(** ** Progress of the allocator *)

Definition advances (n : nat) (a a' : Allocator) : Prop :=
  (next_id a ≤ next_id a' ≤ next_id a + N.of_nat n)%N.
(** Room for [n] more temporaries before the identifiers wrap around. *)
Definition room (a : Allocator) (n : nat) : Prop := (next_id a + N.of_nat n < 4294967296)%N.

Lemma create_local_advances a item : room a 1 → advances 1 a (create_local a item).2.
Proof. unfold room, advances. intros H. cbn. rewrite N.mod_small by lia. lia. Qed.

Lemma reduce_mul_advances a i op l c a' :
  room a 1 → reduce_mul a i op = Ret (l, c, a') → advances 1 a a'.
Proof.
  intros Hroom Hred. assert (advances 1 a a) as Hrefl by (unfold advances; lia).
  assert (∀ item, advances 1 a (create_local a item).2) as Hc by (intros; by apply create_local_advances).
  unfold reduce_mul in Hred. apply obind_ret in Hred as (o & _ & Hred).
  apply obind_ret in Hred as ([[v d]|] & _ & Hred); [|by injection Hred as <- <- <-].
  destruct (pow2 v); [by injection Hred as <- <- <-|]. specialize (Hc (var_item o)).
  apply obind_ret in Hred as (up & _ & Hred). destruct (create_local a (var_item o)) as [temp a2].
  destruct (pow2 up); [by injection Hred as <- <- <-|].
  apply obind_ret in Hred as (down & _ & Hred). destruct (pow2 down); by injection Hred as <- <- <-.
Qed.

Lemma reduce_instruction_advances a i l c a' :
  room a 1 → reduce_instruction a i = Ret (l, c, a') → advances 1 a a'.
Proof.
  intros Hroom Hred. assert (advances 1 a a) as Hrefl by (unfold advances; lia).
  unfold reduce_instruction in Hred.
  destruct (operation i) as [|ar| | | | | | | | | | | |]; try by injection Hred as <- <- <-.
  destruct ar; try by injection Hred as <- <- <-.
  - apply obind_ret in Hred as (item & _ & Hred). destruct (is_u32 _); [|by injection Hred as <- <- <-].
    by eapply reduce_mul_advances.
  - apply obind_ret in Hred as ([] & _ & Hred); [|by injection Hred as <- <- <-].
    by apply obind_ret in Hred as ([? ?] & _ & [= <- <- <-]).
  - apply obind_ret in Hred as ([] & _ & Hred); [|by injection Hred as <- <- <-].
    by apply obind_ret in Hred as ([? ?] & _ & [= <- <- <-]).
Qed.

Lemma reduce_node_advances a changes node node' changes' a' :
  room a (length node) → reduce_node a changes node = Ret (node', changes', a') →
  advances (length node) a a'.
Proof.
  revert a changes node' changes'. induction node as [|i node IH]; intros a changes node' changes' Hroom Hred.
  { injection Hred as <- _ <-. unfold advances. lia. }
  cbn [reduce_node length] in *. apply obind_ret in Hred as ([[l c] a1] & Hi & Hred).
  apply obind_ret in Hred as ([[node1 ch1] a2] & Hn & [= <- <- <-]).
  apply reduce_instruction_advances in Hi; [|unfold room in *; lia].
  apply IH in Hn; unfold room, advances in *; lia.
Qed.

Section Reduce.
Context (signed_modulo : Z → Z → Z) (other : Operation → Env → option Value).
Context (effect : Operation → Env → option Env) (n0 : N).
Abbreviation sem := (op_sem signed_modulo other).
Abbreviation run := (exec signed_modulo other effect).
Abbreviation runs := (exec_block signed_modulo other effect).

(** The operations that are not interpreted do not depend on the temporaries. *)
Context (Hother : ∀ o env env', agree n0 env env' → other o env = other o env').
Context (Heffect : ∀ o env env' env1, agree n0 env env' → effect o env = Some env1 →
  ∃ env1', effect o env' = Some env1' ∧ agree n0 env1 env1').

Lemma operand_agree env env' v :
  agree n0 env env' → ¬ fresh n0 (var_kind v) → operand env v = operand env' v.
Proof using. intros Ha Hf. unfold operand. destruct (as_const v); [done|]. by apply Ha. Qed.

Lemma sem_agree env env' e o :
  agree n0 env env' → (∀ v, v ∈ op_vars o → ¬ fresh n0 (var_kind v)) → sem env e o = sem env' e o.
Proof using Hother Heffect.
  intros Ha Hv.
  assert (∀ v, v ∈ op_vars o → operand env v = operand env' v) as Ho
    by (intros v Hin; apply operand_agree; [done|by apply Hv]).
  pose proof (λ o, Hother o env env' Ha) as Hoth.
  destruct o as [v|a|c|b|oo| |md| | | | | | |]; cbn [op_sem]; try (apply Hoth).
  - by rewrite (Ho v) by set_solver.
  - destruct (int_elem e); [|apply Hoth]. destruct a; cbn [arith_fn]; try (apply Hoth);
      by rewrite (Ho (lhs op)), (Ho (rhs op)) by (cbn; set_solver).
  - pose proof (Ho (lhs (cmp_fn c).1)) as H1. pose proof (Ho (rhs (cmp_fn c).1)) as H2.
    destruct (cmp_fn c) as [op f] eqn:Hc. cbn [op_vars fst] in *. rewrite Hc in *. cbn [fst] in *.
    destruct (int_elem _); [|apply Hoth]. by rewrite H1, H2 by set_solver.
  - destruct (int_elem e); [|apply Hoth]. destruct b; cbn [bit_fn]; try (apply Hoth);
      by rewrite (Ho (lhs op)), (Ho (rhs op)) by (cbn; set_solver).
  - destruct oo as [| | | | | | |op|op|op| | |s]; try (apply Hoth).
    + by rewrite (Ho (lhs op)), (Ho (rhs op)) by (cbn; set_solver).
    + by rewrite (Ho (lhs op)), (Ho (rhs op)) by (cbn; set_solver).
    + by rewrite (Ho (input op)) by (cbn; set_solver).
    + rewrite (Ho (cond s)) by (cbn; set_solver). destruct (operand env' (cond s)) as [|[]|]; try done;
        f_equal; apply Ho; cbn; set_solver.
  - destruct md as [| | |var|]; try (apply Hoth). destruct (var_kind var); try done; apply Hoth.
Qed.

Lemma update_agree env env' k v : agree n0 env env' → agree n0 (update env k v) (update env' k v).
Proof using. intros Ha k' Hk. unfold update. case_decide; [done|]. by apply Ha. Qed.

Lemma exec_agree env env' i env1 :
  agree n0 env env' → old_instruction n0 i → run env i = Some env1 →
  ∃ env1', run env' i = Some env1' ∧ agree n0 env1 env1'.
Proof using Hother Heffect.
  intros Ha [Hv _]. unfold exec. destruct (inst_out i) as [o|]; [|by apply Heffect].
  rewrite (sem_agree env env') by done. destruct (sem env' _ _) as [v|]; [|done]. simpl. intros [= <-].
  eexists. split; [done|]. by apply update_agree.
Qed.

(** ** Arithmetic of the replacements on [u32] *)

Abbreviation u32 := (EUInt U32).

Definition u32_value (env : Env) (v : Variable_) (z : Z) : Prop := operand env v = VInt z ∧ 0 ≤ z < 2 ^ 32.

Lemma shift_left_sem env v z s :
  u32_value env v z → 0 ≤ s < 32 →
  sem env u32 (OBitwise (ShiftLeft (binary v (Variable_from_u32 s)))) = Some (VInt (wrap_u 32 (z * 2 ^ s))).
Proof using.
  intros [Hv _] Hs. cbn [op_sem int_elem bit_fn binary lhs rhs]. rewrite Hv.
  assert (operand env (Variable_from_u32 s) = VInt s) as ->.
  { cbn. f_equal. apply (wrap_u_small 32). lia. }
  cbn [int2]. unfold shift. change (elem_bits u32) with 32.
  rewrite (proj2 (Z.leb_le _ _)), (proj2 (Z.ltb_lt _ _)) by lia. cbn. by rewrite Z.shiftl_mul_pow2 by lia.
Qed.

Lemma shift_right_sem env v z s :
  u32_value env v z → 0 ≤ s < 32 →
  sem env u32 (OBitwise (ShiftRight (binary v (Variable_from_u32 s)))) = Some (VInt (z / 2 ^ s)).
Proof using.
  intros [Hv Hz] Hs. cbn [op_sem int_elem bit_fn binary lhs rhs]. rewrite Hv.
  assert (operand env (Variable_from_u32 s) = VInt s) as ->.
  { cbn. f_equal. apply (wrap_u_small 32). lia. }
  cbn [int2]. unfold shift. change (elem_bits u32) with 32.
  rewrite (proj2 (Z.leb_le _ _)), (proj2 (Z.ltb_lt _ _)) by lia. cbn [andb fmap option_fmap option_map].
  rewrite Z.shiftr_div_pow2 by lia. do 2 f_equal. apply (wrap_u_small 32).
  assert (0 < 2 ^ s) by (apply Z.pow_pos_nonneg; lia).
  split; [apply Z.div_pos; lia|]. apply Z.div_lt_upper_bound; [done|]. nia.
Qed.

Lemma mask_sem env v z s :
  u32_value env v z → 0 ≤ s < 32 →
  sem env u32 (OBitwise (BitwiseAnd (binary v (Variable_from_u32 (2 ^ s - 1))))) = Some (VInt (z mod 2 ^ s)).
Proof using.
  intros [Hv Hz] Hs. cbn [op_sem int_elem bit_fn binary lhs rhs]. rewrite Hv.
  assert (0 < 2 ^ s) by (apply Z.pow_pos_nonneg; lia).
  assert (2 ^ s ≤ 2 ^ 32) by (apply Z.pow_le_mono_r; lia).
  assert (operand env (Variable_from_u32 (2 ^ s - 1)) = VInt (2 ^ s - 1)) as ->.
  { cbn [operand as_const Variable_from_u32 Variable_constant Variable_new var_kind const_value].
    f_equal. apply (wrap_u_small 32). lia. }
  cbn [int2 fmap option_fmap option_map].
  replace (2 ^ s - 1) with (Z.ones s) by (rewrite Z.ones_equiv; lia). rewrite Z.land_ones by lia.
  do 2 f_equal. apply (wrap_u_small 32). pose proof (Z.mod_pos_bound z (2 ^ s)). lia.
Qed.

(** ** One instruction *)

Lemma agree_sym env env' : agree n0 env env' → agree n0 env' env.
Proof using. intros Ha k Hk. symmetry. by apply Ha. Qed.

Lemma u32_operand env v z :
  var_ok env u32 v → operand env v = VInt z → u32_value env v z.
Proof using.
  intros (_ & _ & Hr) Hv. split; [done|]. rewrite Hv in Hr. simpl in Hr. specialize (Hr eq_refl).
  rewrite <- Hr. by apply (wrap_u_range 32).
Qed.

Lemma u32_const env v c :
  var_ok env u32 v → as_const v = Some c →
  ∃ z, csv_as_u32 c = Ret z ∧ operand env v = VInt z ∧ 0 ≤ z < 2 ^ 32.
Proof using.
  intros (_ & Hc & _) Has. specialize (Hc c Has). destruct c as [z k|z k|z k|b]; try done. injection Hc as ->.
  exists (wrap_u 32 z). unfold operand. rewrite Has. split_and!; try done; by apply (wrap_u_range 32).
Qed.

(** The constant operand of a product and the other operand. *)
Lemma split_const_ok env op cv dyn a b :
  pair_ok env u32 op → operand env (lhs op) = VInt a → operand env (rhs op) = VInt b →
  split_const op = Ret (Some (cv, dyn)) →
  as_const dyn = None ∧ 0 ≤ cv < 2 ^ 32 ∧
  ((dyn = lhs op ∧ cv = b) ∨ (dyn = rhs op ∧ cv = a)).
Proof using.
  intros [Hl Hr] Ha Hb. unfold split_const.
  destruct (as_const (lhs op)) as [cl|] eqn:El, (as_const (rhs op)) as [cr|] eqn:Er; try done.
  - destruct (u32_const env (lhs op) cl Hl El) as (z & -> & Hz & Hr32). cbn [obind]. intros [= <- <-].
    rewrite Hz in Ha. injection Ha as ->. split_and!; try done; [lia|lia|by right].
  - destruct (u32_const env (rhs op) cr Hr Er) as (z & -> & Hz & Hr32). cbn [obind]. intros [= <- <-].
    rewrite Hz in Hb. injection Hb as ->. split_and!; try done; [lia|lia|by left].
Qed.

(** A block that assigns [v] to the output, after possibly assigning a
    temporary, does what the instruction did. *)
Lemma assign_agree env env' o v :
  agree n0 env env' → agree n0 (update env (var_kind o) v) (update env' (var_kind o) v).
Proof using. apply update_agree. Qed.

Lemma exec_new env e op o v :
  Variable_elem o = e → sem env e op = Some v →
  run env (Instruction_new op o) = Some (update env (var_kind o) v).
Proof using. intros <- Hs. unfold exec, Instruction_new. cbn [inst_out operation]. by rewrite Hs. Qed.

Lemma update_fresh env env' id v :
  (n0 ≤ id)%N → agree n0 env env' → agree n0 env (update env' (LocalConst id) v).
Proof using.
  intros Hid Ha k Hk. unfold update. case_decide as Hd; [|by apply Ha]. subst k. simpl in Hk. lia.
Qed.

(** The shift into a temporary followed by a sum or difference with the
    shifted value. *)
Lemma two_steps env dyn z s item id o (f : Z → Z → Z) mk :
  (n0 ≤ id)%N → u32_value env dyn z → as_const dyn = None → ¬ fresh n0 (var_kind dyn) →
  0 ≤ s < 32 → item_elem item = u32 → Variable_elem o = u32 →
  (∀ env' t y, operand env' t = VInt y → operand env' dyn = VInt z →
     sem env' u32 (mk (binary t dyn)) = Some (VInt (wrap_u 32 (f y z)))) →
  let temp := Variable_new (LocalConst id) item in
  let y := wrap_u 32 (z * 2 ^ s) in
  runs env [Instruction_new (OBitwise (ShiftLeft (binary dyn (Variable_from_u32 s)))) temp;
            Instruction_new (mk (binary temp dyn)) o] =
    Some (update (update env (LocalConst id) (VInt y)) (var_kind o) (VInt (wrap_u 32 (f y z)))).
Proof using.
  intros Hid Hz Hc Hfr Hs Hitem Ho Hmk temp y. cbn [exec_block].
  rewrite (exec_new env u32 _ temp (VInt y)); [|done|by apply shift_left_sem]. cbn [mbind option_bind var_kind temp Variable_new].
  rewrite (exec_new _ u32 _ o (VInt (wrap_u 32 (f y z)))); [done|done|]. apply Hmk.
  - unfold operand. cbn [as_const temp Variable_new var_kind]. unfold update. by case_decide.
  - destruct Hz as [Hz _]. unfold operand in *. rewrite Hc in *. unfold update.
    case_decide as Hd; [|done]. rewrite Hd in Hfr. simpl in Hfr. lia.
Qed.

Lemma sub_sem env t dyn y z :
  operand env t = VInt y → operand env dyn = VInt z →
  sem env u32 (OArithmetic (Sub (binary t dyn))) = Some (VInt (wrap_u 32 (y - z))).
Proof using. intros Ht Hd. cbn [op_sem int_elem arith_fn binary lhs rhs]. by rewrite Ht, Hd. Qed.
Lemma add_sem env t dyn y z :
  operand env t = VInt y → operand env dyn = VInt z →
  sem env u32 (OArithmetic (Add (binary t dyn))) = Some (VInt (wrap_u 32 (y + z))).
Proof using. intros Ht Hd. cbn [op_sem int_elem arith_fn binary lhs rhs]. by rewrite Ht, Hd. Qed.

(** Products with a power of two and its neighbours. *)
Lemma mul_pow2 env dyn z cv o :
  u32_value env dyn z → Variable_elem o = u32 → cv < 2 ^ 32 → pow2 cv = true →
  runs env [Instruction_new (OBitwise (ShiftLeft (binary dyn (Variable_from_u32 (tz cv))))) o] =
    Some (update env (var_kind o) (VInt (wrap_u 32 (z * cv)))).
Proof using.
  intros Hz Ho Hcv Hp. cbn [exec_block]. destruct (pow2_spec cv Hp) as [Hv _]. rewrite Hv at 2.
  by rewrite (exec_new _ u32 _ o _ Ho (shift_left_sem env dyn z (tz cv) Hz (pow2_lt cv Hp Hcv))).
Qed.

Lemma mul_pow2_pred env dyn z cv o id item :
  (n0 ≤ id)%N → u32_value env dyn z → as_const dyn = None → ¬ fresh n0 (var_kind dyn) →
  item_elem item = u32 → Variable_elem o = u32 → cv + 1 < 2 ^ 32 → pow2 (cv + 1) = true →
  let temp := Variable_new (LocalConst id) item in
  ∃ y, runs env [Instruction_new (OBitwise (ShiftLeft (binary dyn (Variable_from_u32 (tz (cv + 1)))))) temp;
            Instruction_new (OArithmetic (Sub (binary temp dyn))) o] =
    Some (update (update env (LocalConst id) y) (var_kind o) (VInt (wrap_u 32 (z * cv)))).
Proof using.
  intros Hid Hz Hc Hfr Hi Ho Hcv Hp temp. destruct (pow2_spec _ Hp) as [Hv _]. eexists.
  etrans; [apply (two_steps env dyn z (tz (cv + 1)) item id o Z.sub (λ b, OArithmetic (Sub b)))|];
    try done; [by apply pow2_lt|intros; by apply sub_sem|].
  rewrite <- Hv. do 3 f_equal. unfold wrap_u. rewrite Zminus_mod_idemp_l. f_equal. lia.
Qed.

Lemma mul_pow2_succ env dyn z cv o id item :
  (n0 ≤ id)%N → u32_value env dyn z → as_const dyn = None → ¬ fresh n0 (var_kind dyn) →
  item_elem item = u32 → Variable_elem o = u32 → cv < 2 ^ 32 → pow2 (cv - 1) = true →
  let temp := Variable_new (LocalConst id) item in
  ∃ y, runs env [Instruction_new (OBitwise (ShiftLeft (binary dyn (Variable_from_u32 (tz (cv - 1)))))) temp;
            Instruction_new (OArithmetic (Add (binary temp dyn))) o] =
    Some (update (update env (LocalConst id) y) (var_kind o) (VInt (wrap_u 32 (z * cv)))).
Proof using.
  intros Hid Hz Hc Hfr Hi Ho Hcv Hp temp. destruct (pow2_spec _ Hp) as [Hv _]. eexists.
  etrans; [apply (two_steps env dyn z (tz (cv - 1)) item id o Z.add (λ b, OArithmetic (Add b)))|];
    try done; [apply pow2_lt; [done|lia]|intros; by apply add_sem|].
  rewrite <- Hv. do 3 f_equal. unfold wrap_u. rewrite Zplus_mod_idemp_l. f_equal. lia.
Qed.

Lemma reduce_mul_sound a i op l c a' o env env' env1 :
  agree n0 env env' → old_instruction n0 i → inst_out i = Some o → operation i = OArithmetic (Mul op) →
  Variable_elem o = u32 → pair_ok env u32 op → (n0 ≤ next_id a)%N →
  reduce_mul a i op = Ret (l, c, a') → run env i = Some env1 →
  ∃ env1', runs env' l = Some env1' ∧ agree n0 env1 env1'.
Proof using Hother Heffect.
  intros Ha Hold Hout Hop Ho Hpair Hn Hred Hrun.
  assert (i = Instruction_new (OArithmetic (Mul op)) o) as Hi
    by (destruct i; cbn in *; by subst).
  assert (∀ l', l' = [Instruction_new (OArithmetic (Mul op)) o] →
    ∃ env1', runs env' l' = Some env1' ∧ agree n0 env1 env1') as Hsame.
  { intros l' ->. rewrite <- Hi. cbn [exec_block]. destruct (exec_agree env env' i env1 Ha Hold Hrun) as (e1 & -> & ?).
    by exists e1. }
  unfold reduce_mul, out in Hred. rewrite Hout in Hred. cbn [obind expect] in Hred.
  assert (∃ x y, operand env (lhs op) = VInt x ∧ operand env (rhs op) = VInt y ∧
    env1 = update env (var_kind o) (VInt (wrap_u 32 (x * y)))) as (x & y & Hx & Hy & ->).
  { unfold exec in Hrun. rewrite Hout, Hop, Ho in Hrun. cbn [op_sem int_elem arith_fn] in Hrun. unfold int2 in Hrun.
    destruct (operand env (lhs op)) as [x| |], (operand env (rhs op)) as [y| |]; try done.
    injection Hrun as <-. by exists x, y. }
  destruct (split_const op) as [[[cv dyn]|]| |] eqn:Hsp; try done; cbn [obind] in Hred; last first.
  { injection Hred as <- <- <-. by apply Hsame. }
  destruct (split_const_ok env op cv dyn x y Hpair Hx Hy Hsp) as (Hdc & Hcv & Hcase).
  assert (∃ z, u32_value env' dyn z ∧ ¬ fresh n0 (var_kind dyn) ∧ x * y = z * cv) as (z & Hz & Hfr & Hxy).
  { destruct Hpair as [Pl Pr]. destruct Hold as [Hv _]. rewrite Hop in Hv.
    destruct Hcase as [[-> ->]|[-> ->]]; [exists x|exists y].
    - destruct (u32_operand env _ _ Pl Hx) as [_ Hr]. split_and!; [|apply Hv; cbn; set_solver|done].
      split; [|done]. rewrite <- Hx. symmetry. apply operand_agree; [done|]. apply Hv. cbn. set_solver.
    - destruct (u32_operand env _ _ Pr Hy) as [_ Hr]. split_and!; [|apply Hv; cbn; set_solver|lia].
      split; [|done]. rewrite <- Hy. symmetry. apply operand_agree; [done|]. apply Hv. cbn. set_solver. }
  clear Hx Hy Hcase Hpair Hsp Hrun. rewrite Hxy in *. clear x y Hxy. assert (item_elem (var_item o) = u32) as Hit by done.
  destruct (pow2 cv) eqn:P0.
  { injection Hred as <- <- <-. eexists.
    split; [apply mul_pow2; try done; lia|]. by apply assign_agree. }
  apply obind_ret in Hred as (up & [Hup%Z.ltb_lt ->]%chk_ret & Hred). destruct (pow2 (cv + 1)) eqn:P1.
  { cbn in Hred. injection Hred as <- <- <-.
    destruct (mul_pow2_pred env' dyn z cv o (next_id a) (var_item o)) as [y Hy]; try done.
    eexists. split; [exact Hy|]. by apply assign_agree, update_fresh. }
  apply obind_ret in Hred as (down & [_ ->]%chk_ret & Hred). destruct (pow2 (cv - 1)) eqn:P2.
  { cbn in Hred. injection Hred as <- <- <-.
    destruct (mul_pow2_succ env' dyn z cv o (next_id a) (var_item o)) as [y Hy]; try done; [lia|].
    eexists. split; [exact Hy|]. by apply assign_agree, update_fresh. }
  injection Hred as <- <- <-. by apply Hsame.
Qed.

(** Quotients and remainders: the divisor is a constant of type [u32]. *)
Lemma is_pow2_const env e v :
  int_elem e = true → var_ok env e v → is_pow2 v = Ret true →
  e = u32 ∧ ∃ c cv, as_const v = Some c ∧ csv_as_u32 c = Ret cv ∧ operand env v = VInt cv ∧
    0 ≤ cv < 2 ^ 32 ∧ pow2 cv = true.
Proof using.
  intros He Hok Hp. unfold is_pow2, is_u32 in Hp. pose proof Hok as (Hv & _).
  unfold Variable_elem in Hv. rewrite Hv in Hp. case_bool_decide as Hu; [|done]. subst e. split; [done|].
  destruct (as_const v) as [c|] eqn:Hc; [|done].
  destruct (u32_const env v c) as (cv & Hcv & Hz & Hr); [by rewrite <- Hu|done|]. rewrite Hcv in Hp. cbn [obind] in Hp.
  injection Hp as Hp. by exists c, cv.
Qed.

(** The operands and the result of a division that is executed. *)
Lemma run_nonzero env env1 i o op f a :
  inst_out i = Some o → operation i = OArithmetic a → Variable_elem o = u32 →
  arith_fn signed_modulo u32 a = Some (op, nonzero f) → run env i = Some env1 →
  ∃ x y, operand env (lhs op) = VInt x ∧ operand env (rhs op) = VInt y ∧ y ≠ 0 ∧
    env1 = update env (var_kind o) (VInt (wrap_u 32 (f x y))).
Proof using.
  intros Hout Hop Ho Hf Hrun. unfold exec in Hrun. rewrite Hout, Hop, Ho in Hrun.
  cbn [op_sem int_elem] in Hrun. rewrite Hf in Hrun. unfold int2, nonzero in Hrun.
  destruct (operand env (lhs op)) as [x| |], (operand env (rhs op)) as [y| |]; try done.
  destruct (Z.eqb_spec y 0); [done|]. injection Hrun as <-. by exists x, y.
Qed.

Lemma reduce_div_sound i op l c o env env' env1 :
  agree n0 env env' → old_instruction n0 i → inst_out i = Some o → operation i = OArithmetic (Div op) →
  Variable_elem o = u32 → pair_ok env u32 op → is_pow2 (rhs op) = Ret true →
  reduce_div i op = Ret (l, c) → run env i = Some env1 →
  ∃ env1', runs env' l = Some env1' ∧ agree n0 env1 env1'.
Proof using Hother Heffect.
  intros Ha Hold Hout Hop Ho [Hl Hr] Hp Hred Hrun.
  destruct (is_pow2_const env u32 (rhs op) eq_refl Hr Hp) as (_ & cc & cv & Hc & Hcv & Hoc & Hcr & Hp2).
  unfold reduce_div, out, split_const in Hred. rewrite Hout, Hc in Hred. cbn [obind expect] in Hred.
  destruct (as_const (lhs op)) as [cl|] eqn:Hlc.
  - cbn [obind] in Hred. injection Hred as <- <-.
    assert (i = Instruction_new (OArithmetic (Div op)) o) as <- by (destruct i; cbn in *; by subst).
    cbn [exec_block]. destruct (exec_agree env env' i env1 Ha Hold Hrun) as (e1 & -> & ?). by exists e1.
  - rewrite Hcv in Hred. cbn [obind] in Hred. injection Hred as <- <-.
    destruct (run_nonzero env env1 i o op Z.quot (Div op) Hout Hop Ho eq_refl Hrun) as (x & y & Hx & Hy & _ & ->).
    rewrite Hoc in Hy. injection Hy as <-. destruct (u32_operand env _ _ Hl Hx) as [_ Hxr].
    assert (u32_value env' (lhs op) x) as Hx'.
    { split; [|done]. rewrite <- Hx. symmetry. apply operand_agree; [done|]. apply (proj1 Hold). rewrite Hop. cbn. set_solver. }
    cbn [exec_block]. rewrite (exec_new _ u32 _ o _ Ho (shift_right_sem env' (lhs op) x (tz cv) Hx' (pow2_lt cv Hp2 (proj2 Hcr)))).
    eexists. split; [done|]. destruct (pow2_spec cv Hp2) as [Hv _]. rewrite <- Hv.
    assert (0 < cv) by (rewrite Hv; apply Z.pow_pos_nonneg; [lia|apply (pow2_spec cv Hp2)]).
    rewrite Z.quot_div_nonneg by lia. rewrite wrap_u_small; [by apply assign_agree|].
    split; [apply Z.div_pos; lia|]. apply Z.div_lt_upper_bound; nia.
Qed.

Lemma reduce_modulo_sound i op l c o env env' env1 :
  agree n0 env env' → old_instruction n0 i → inst_out i = Some o → operation i = OArithmetic (Modulo op) →
  Variable_elem o = u32 → pair_ok env u32 op → is_pow2 (rhs op) = Ret true →
  reduce_modulo i op = Ret (l, c) → run env i = Some env1 →
  ∃ env1', runs env' l = Some env1' ∧ agree n0 env1 env1'.
Proof using Hother Heffect.
  intros Ha Hold Hout Hop Ho [Hl Hr] Hp Hred Hrun.
  destruct (is_pow2_const env u32 (rhs op) eq_refl Hr Hp) as (_ & cc & cv & Hc & Hcv & Hoc & Hcr & Hp2).
  unfold reduce_modulo, out in Hred. rewrite Hout, Hc in Hred. cbn [obind expect] in Hred.
  rewrite Hcv in Hred. cbn [obind] in Hred. apply obind_ret in Hred as (mask & [_ ->]%chk_ret & [= <- <-]).
  destruct (run_nonzero env env1 i o op Z.modulo (Modulo op) Hout Hop Ho eq_refl Hrun) as (x & y & Hx & Hy & _ & ->).
  rewrite Hoc in Hy. injection Hy as <-. destruct (u32_operand env _ _ Hl Hx) as [_ Hxr].
  assert (u32_value env' (lhs op) x) as Hx'.
  { split; [|done]. rewrite <- Hx. symmetry. apply operand_agree; [done|]. apply (proj1 Hold). rewrite Hop. cbn. set_solver. }
  pose proof (mask_sem env' (lhs op) x (tz cv) Hx' (pow2_lt cv Hp2 (proj2 Hcr))) as Hm.
  destruct (pow2_spec cv Hp2) as [Hv Hz]. rewrite <- Hv in Hm.
  cbn [exec_block]. rewrite (exec_new _ u32 _ o _ Ho Hm). eexists. split; [done|].
  assert (0 < cv) by (rewrite Hv; apply Z.pow_pos_nonneg; lia). pose proof (Z.mod_pos_bound x cv).
  rewrite wrap_u_small by lia. by apply assign_agree.
Qed.

Lemma reduce_instruction_sound a i l c a' env env' env1 :
  agree n0 env env' → old_instruction n0 i → typed env i →
  (n0 ≤ next_id a)%N →
  reduce_instruction a i = Ret (l, c, a') → run env i = Some env1 →
  ∃ env1', runs env' l = Some env1' ∧ agree n0 env1 env1'.
Proof using Hother Heffect.
  intros Ha Hold Hty Hn Hred Hrun.
  assert (∀ l' c' a0, Ret ([i], false, a) = Ret (l', c', a0) →
    ∃ env1', runs env' l' = Some env1' ∧ agree n0 env1 env1') as Hsame.
  { intros l' c' a0 [= <- <- <-]. cbn [exec_block].
    destruct (exec_agree env env' i env1 Ha Hold Hrun) as (e1 & -> & ?). by exists e1. }
  unfold reduce_instruction in Hred. unfold typed in Hty.
  destruct (operation i) as [|ar| | | | | | | | | | | |] eqn:Hop; try by eapply Hsame.
  destruct (inst_out i) as [o|] eqn:Hout; [|done].
  destruct ar; (try by (eapply Hsame)); cbn [op_typed] in Hty; destruct Hty as [He Hpair].
  - unfold inst_item, out in Hred. rewrite Hout in Hred. cbn [obind expect] in Hred. unfold is_u32 in Hred.
    case_bool_decide as Hu; [|by eapply Hsame]. change (Variable_elem o = u32) in Hu. rewrite Hu in Hpair.
    by eapply reduce_mul_sound.
  - apply obind_ret in Hred as ([] & Hp & Hred); [|by eapply Hsame].
    destruct (is_pow2_const env _ _ He (proj2 Hpair) Hp) as [Hu _]. rewrite Hu in Hpair.
    apply obind_ret in Hred as ([l' c'] & Hd & [= <- <- <-]).
    by eapply reduce_div_sound.
  - apply obind_ret in Hred as ([] & Hp & Hred); [|by eapply Hsame].
    destruct (is_pow2_const env _ _ He (proj2 Hpair) Hp) as [Hu _]. rewrite Hu in Hpair.
    apply obind_ret in Hred as ([l' c'] & Hd & [= <- <- <-]).
    by eapply reduce_modulo_sound.
Qed.

(** ** Blocks and programs *)

Lemma exec_block_app env l1 l2 env1 :
  runs env l1 = Some env1 → runs env (l1 ++ l2) = runs env1 l2.
Proof using.
  revert env. induction l1 as [|i l1 IH]; intros env; simpl; [by intros [= ->]|].
  destruct (run env i) as [env2|]; [|done]. simpl. by apply IH.
Qed.

Lemma reduce_node_sound a changes node node' changes' a' env env' env1 :
  agree n0 env env' → Forall (old_instruction n0) node →
  block_ok signed_modulo other effect typed env node → (n0 ≤ next_id a)%N → room a (length node) →
  reduce_node a changes node = Ret (node', changes', a') → runs env node = Some env1 →
  ∃ env1', runs env' node' = Some env1' ∧ agree n0 env1 env1'.
Proof using Hother Heffect.
  revert a changes node' changes' env env'. induction node as [|i node IH];
    intros a changes node' changes' env env' Ha Hold Hok Hn0 Hroom Hred Hrun.
  { injection Hred as <- _ _. injection Hrun as <-. by exists env'. }
  apply Forall_cons in Hold as [Hi Hold]. destruct Hok as [Hti Hok]. cbn [reduce_node] in Hred.
  apply obind_ret in Hred as ([[l c] a1] & Hri & Hred).
  apply obind_ret in Hred as ([[node1 ch1] a2] & Hrn & [= <- <- <-]). cbn [exec_block] in Hrun.
  destruct (run env i) as [env2|] eqn:He; [|done]. cbn [mbind option_bind] in Hrun. cbn [length] in Hroom.
  destruct (reduce_instruction_sound a i l c a1 env env' env2) as (env2' & Hl & Ha2); try done.
  apply reduce_instruction_advances in Hri; [|unfold room in *; lia].
  rewrite (exec_block_app _ _ _ _ Hl).
  eapply (IH a1); [done|done|by apply Hok|unfold advances, room in *; lia..|done|done].
Qed.
End Reduce.

(** ** The pass returns *)

(** No product by the constant [u32::MAX], whose successor overflows. *)
Definition no_max (i : Instruction) : Prop :=
  match operation i with
  | OArithmetic (Mul op) => ∀ v d, split_const op = Ret (Some (v, d)) → v ≠ 2 ^ 32 - 1
  | _ => True
  end.

Lemma chk_ok ok v msg : ok = true → chk ok v msg = Ret v.
Proof. by intros ->. Qed.

Lemma as_u32_returns env e v c :
  int_elem e = true → var_ok env e v → as_const v = Some c → ∃ z, csv_as_u32 c = Ret z ∧ 0 ≤ z < 2 ^ 32.
Proof.
  intros He (_ & Hc & _) Has. specialize (Hc c Has). subst e.
  destruct c; try done; eexists; (split; [done|]); by apply (wrap_u_range 32).
Qed.

Lemma split_const_returns env e op :
  int_elem e = true → pair_ok env e op →
  ∃ s, split_const op = Ret s ∧ ∀ v d, s = Some (v, d) → 0 ≤ v < 2 ^ 32.
Proof.
  intros He [Hl Hr]. unfold split_const.
  destruct (as_const (lhs op)) as [cl|] eqn:El, (as_const (rhs op)) as [cr|] eqn:Er; try by eexists.
  - destruct (as_u32_returns env e _ cl He Hl El) as (z & -> & Hz). eexists. split; [done|]. by intros ? ? [= <- <-].
  - destruct (as_u32_returns env e _ cr He Hr Er) as (z & -> & Hz). eexists. split; [done|]. by intros ? ? [= <- <-].
Qed.

Lemma is_pow2_returns env e v : int_elem e = true → var_ok env e v → ∃ b, is_pow2 v = Ret b.
Proof.
  intros He Hv. unfold is_pow2. destruct (is_u32 _); [|by eexists].
  destruct (as_const v) as [c|] eqn:Hc; [|by eexists].
  destruct (as_u32_returns env e v c He Hv Hc) as (z & -> & _). by eexists.
Qed.

Lemma reduce_mul_returns a i op o env :
  inst_out i = Some o → operation i = OArithmetic (Mul op) → int_elem (Variable_elem o) = true →
  pair_ok env (Variable_elem o) op → no_max i → ∃ r, reduce_mul a i op = Ret r.
Proof.
  intros Hout Hop He Hpair Hmax. unfold reduce_mul, out. rewrite Hout. cbn [obind expect].
  destruct (split_const_returns env _ op He Hpair) as (s & Hs & Hr). rewrite Hs. cbn [obind].
  destruct s as [[v d]|]; [|by eexists]. specialize (Hr v d eq_refl).
  unfold no_max in Hmax. rewrite Hop in Hmax. specialize (Hmax v d Hs).
  destruct (pow2 v) eqn:P0; [by eexists|]. unfold inc_u32. rewrite chk_ok by (apply Z.ltb_lt; lia). cbn [obind].
  destruct (pow2 (v + 1)) eqn:P1; [by eexists|].
  assert (v ≠ 0) by (intros ->; done).
  unfold dec_u32. rewrite chk_ok by (apply Z.leb_le; lia). cbn [obind]. destruct (pow2 (v - 1)); by eexists.
Qed.

Lemma reduce_modulo_returns i op o env :
  inst_out i = Some o → int_elem (Variable_elem o) = true →
  pair_ok env (Variable_elem o) op → is_pow2 (rhs op) = Ret true → ∃ r, reduce_modulo i op = Ret r.
Proof.
  intros Hout He [_ Hr] Hp. destruct (is_pow2_const env _ _ He Hr Hp) as (_ & c & cv & Hc & Hcv & _ & _ & Hp2).
  unfold reduce_modulo, out. rewrite Hout, Hc. cbn [obind expect]. rewrite Hcv. cbn [obind].
  destruct (pow2_spec cv Hp2) as [Hv Hz]. assert (0 < cv) by (rewrite Hv; apply Z.pow_pos_nonneg; lia).
  unfold dec_u32. rewrite chk_ok by (apply Z.leb_le; lia). by eexists.
Qed.

Lemma reduce_instruction_returns a i env :
  typed env i → no_max i → ∃ r, reduce_instruction a i = Ret r.
Proof.
  intros Hty Hmax. unfold reduce_instruction. unfold typed in Hty.
  destruct (operation i) as [|ar| | | | | | | | | | | |] eqn:Hop; try by eexists.
  destruct (inst_out i) as [o|] eqn:Hout; [|done].
  destruct ar; (try by eexists); cbn [op_typed] in Hty; destruct Hty as [He Hpair].
  - unfold inst_item, out. rewrite Hout. cbn [obind expect]. destruct (is_u32 _); [|by eexists].
    by eapply reduce_mul_returns.
  - destruct (is_pow2_returns env _ _ He (proj2 Hpair)) as ([] & Hp); rewrite Hp; cbn [obind]; [|by eexists].
    unfold reduce_div, out. rewrite Hout. cbn [obind expect].
    destruct (split_const_returns env _ op He Hpair) as ([[v d]|] & -> & _); by eexists.
  - destruct (is_pow2_returns env _ _ He (proj2 Hpair)) as ([] & Hp); rewrite Hp; cbn [obind]; [|by eexists].
    destruct (reduce_modulo_returns i op o env Hout He Hpair Hp) as ([l c] & ->). by eexists.
Qed.

Lemma reduce_node_returns a changes node :
  (∀ i, i ∈ node → no_max i ∧ ∃ env, typed env i) → ∃ r, reduce_node a changes node = Ret r.
Proof.
  revert a changes. induction node as [|i node IH]; intros a changes Hok; cbn [reduce_node]; [by eexists|].
  destruct (Hok i) as [Hm [env Ht]]; [by left|].
  destruct (reduce_instruction_returns a i env Ht Hm) as ([[l c] a1] & ->). cbn [obind].
  edestruct IH as ([[n ch] a2] & ->); [intros j Hj; apply Hok; by right|]. by eexists.
Qed.

(** Every node of the second program computes what the node of the first
    does, temporaries aside. *)
Definition nodes_agree (signed_modulo : Z → Z → Z) (other : Operation → Env → option Value)
    (effect : Operation → Env → option Env) (n0 : N) : Program → Program → Prop :=
  Forall2 (λ node node', ∀ env env' env1, agree n0 env env' →
    block_ok signed_modulo other effect typed env node →
    exec_block signed_modulo other effect env node = Some env1 →
    ∃ env1', exec_block signed_modulo other effect env' node' = Some env1' ∧ agree n0 env1 env1').

Lemma reduce_program_sound signed_modulo other effect n0 a changes p :
  (∀ o env env', agree n0 env env' → other o env = other o env') →
  (∀ o env env' env1, agree n0 env env' → effect o env = Some env1 →
     ∃ env1', effect o env' = Some env1' ∧ agree n0 env1 env1') →
  (n0 ≤ next_id a)%N → room a (length (concat p)) →
  (∀ node i, node ∈ p → i ∈ node → old_instruction n0 i ∧ no_max i ∧ ∃ env, typed env i) →
  ∃ p' changes' a', ReduceStrength_apply a changes p = Ret (p', changes', a') ∧
    nodes_agree signed_modulo other effect n0 p p'.
Proof.
  intros Hother Heffect. revert a changes. induction p as [|node p IH]; intros a changes Hn Hroom Hok.
  { do 3 eexists. split; [done|]. constructor. }
  cbn [ReduceStrength_apply concat] in *. rewrite length_app in Hroom.
  destruct (reduce_node_returns a changes node) as ([[node1 ch1] a1] & Hred).
  { intros i Hi. apply (Hok node i); [by left|done]. }
  rewrite Hred. cbn [obind].
  assert (advances (length node) a a1) as Hadv by (eapply reduce_node_advances; [unfold room in *; lia|done]).
  destruct (IH a1 ch1) as (p' & ch' & a' & -> & Hp'); [unfold room, advances in *; lia..| |].
  { intros node' i Hn' Hi. apply (Hok node' i); [by right|done]. }
  cbn [obind]. do 3 eexists. split; [done|]. constructor; [|done]. intros env env' env1 Ha Hblk Hrun.
  eapply (reduce_node_sound signed_modulo other effect n0 Hother Heffect a changes node node1 ch1 a1 env env');
    try done; [|unfold room in *; lia].
  apply Forall_forall. intros i Hi. apply (Hok node i); [by left|done].
Qed.


Module ReduceDemo.
Definition x : Variable_ := Variable_new (LocalConst 1) (Item_new (EUInt U32)).
Definition y : Variable_ := Variable_new (LocalConst 2) (Item_new (EUInt U32)).
Definition fifteen : Variable_ := Variable_from_u32 15.
Definition eight : Variable_ := Variable_from_u32 8.
Definition node : list Instruction :=
  [Instruction_new (OArithmetic (Mul (binary x fifteen))) y;
   Instruction_new (OArithmetic (Modulo (binary y eight))) y;
   Instruction_new (OArithmetic (Div (binary x eight))) y].
Definition start : Allocator := {| next_id := 3%N |}.

(** [x * 15], [y % 8] and [x / 8] become [(x << 4) - x], [y & 7] and [x >> 3]. *)
Example reduced : ReduceStrength_apply start 0 [node] = Ret (
  let temp := Variable_new (LocalConst 3) (Item_new (EUInt U32)) in
  [[Instruction_new (OBitwise (ShiftLeft (binary x (Variable_from_u32 4)))) temp;
    Instruction_new (OArithmetic (Sub (binary temp x))) y;
    Instruction_new (OBitwise (BitwiseAnd (binary y (Variable_from_u32 7)))) y;
    Instruction_new (OBitwise (ShiftRight (binary x (Variable_from_u32 3)))) y]], 3%N, {| next_id := 4%N |}).
Proof. vm_compute. reflexivity. Qed.

(** The successor of the constant overflows. *)
Example max_panics : ∃ msg, ReduceStrength_apply start 0
  [[Instruction_new (OArithmetic (Mul (binary x (Variable_from_u32 4294967295)))) y]] = Panic msg.
Proof. eexists. vm_compute. reflexivity. Qed.

Lemma pair_old op o (mk : BinaryOperator → Arithmetic) :
  op_vars (OArithmetic (mk op)) = [lhs op; rhs op] →
  ¬ fresh 3%N (var_kind (lhs op)) → ¬ fresh 3%N (var_kind (rhs op)) → ¬ fresh 3%N (var_kind o) →
  old_instruction 3%N (Instruction_new (OArithmetic (mk op)) o).
Proof. intros Hv Hl Hr Ho. split; [cbn [operation Instruction_new]; rewrite Hv; set_solver|]. by intros ? [= <-]. Qed.

Lemma node_ok : Forall (λ i, old_instruction 3%N i ∧ no_max i ∧ ∃ env, typed env i) node.
Proof.
  unfold node. repeat (apply Forall_cons; split); [..|by apply Forall_nil];
    (split; [apply pair_old; try done; simpl; lia|split; [|exists (λ _, VInt 0)]]).
  all: try done.
  all: try (repeat split; try done; intros c [= <-]; done).
  intros v d [= <- _]. done.
Qed.

End ReduceDemo.
