(* ===== verification/TunePlan.v ===== *)
(** * The plan of an autotuning run

    Model of [crates/cubecl-runtime/src/tune/base.rs]: tunables belong to
    groups, a plan orders them by the priority of the group and by the
    priority within the group, and [next] hands out the next batch of
    tunables to benchmark.

    The order in which a [HashMap] is traversed is not specified: [HashOrder]
    stands for any order, and every theorem holds for all of them.

    The proofs: the calls of [next] do not panic and end with an
    empty batch, every tunable is handed out, and tunables whose pairs of
    priorities are distinct are handed out exactly once, in the order of their
    best pair. *)

From stdpp Require Import sorting.
From S2P Require Import Prelude.

Open Scope N_scope.
Open Scope rust_scope.

Class HashOrder := {
  iter : ∀ {A : Type}, gmap N A → list (N * A);
  iter_perm : ∀ {A : Type} (m : gmap N A), iter m ≡ₚ map_to_list m;
}.

(** One possible order. *)
#[export] Instance key_order : HashOrder :=
  {| iter := λ A m, map_to_list m; iter_perm := λ A m, reflexivity _ |}.

(** ** Data *)

(** Priorities are [u8] values computed from the autotune key. *)
Record TuneGroup (K : Type) := mkGroup { tg_id : N; tg_priority : K → N }.
Arguments mkGroup {K} _ _.
Arguments tg_id {K} _.
Arguments tg_priority {K} _ _.

Record Tunable (K F : Type) := mkTunable {
  tn_function : F;
  tn_groups : list (TuneGroup K * (K → N));
}.
Arguments mkTunable {K F} _ _.
Arguments tn_function {K F} _.
Arguments tn_groups {K F} _.

Definition Tunable_new {K F} (function : F) : Tunable K F := mkTunable function [].
Definition Tunable_group {K F} (t : Tunable K F) (group : TuneGroup K) (priority : K → N) : Tunable K F :=
  mkTunable (tn_function t) (tn_groups t ++ [(group, priority)]).

(** The identifier comes from the wrapping counter [GROUP_COUNTER]. *)
Definition TuneGroup_new {K} (counter : N) (f : K → N) : TuneGroup K * N :=
  (mkGroup counter f, (counter + 1) mod 4294967296).

Record GroupPlan := mkGroupPlan { gp_priorities : list N; gp_indices : gmap N (list nat) }.
Record TunePlan := mkPlan {
  tp_priorities : list N;
  tp_no_groups : list nat;
  tp_groups : gmap N GroupPlan;
}.
Record Cleanup := mkCleanup { cl_groups : list N; cl_tunables : list (N * N) }.

Definition contains (l : list N) (x : N) : bool := existsb (N.eqb x) l.

(** ** Building a plan *)

(** One group of a tunable, its priorities already computed. *)
Definition add_entry (index : nat) (plan : TunePlan) (pw : N * N) : outcome TunePlan :=
  let '(priority, within) := pw in
  let priorities :=
    if contains (tp_priorities plan) priority then tp_priorities plan
    else tp_priorities plan ++ [priority] in
  let group := default (mkGroupPlan [] ∅) (tp_groups plan !! priority) in
  let? group :=
    if contains (gp_priorities group) within then
      let? indices := expect (gp_indices group !! within) "called `Option::unwrap()` on a `None` value" in
      Ret (mkGroupPlan (gp_priorities group) (<[within := indices ++ [index]]> (gp_indices group)))
    else
      Ret (mkGroupPlan (gp_priorities group ++ [within]) (<[within := [index]]> (gp_indices group))) in
  Ret (mkPlan priorities (tp_no_groups plan) (<[priority := group]> (tp_groups plan))).

Fixpoint add_entries (index : nat) (plan : TunePlan) (pws : list (N * N)) : outcome TunePlan :=
  match pws with
  | [] => Ret plan
  | pw :: pws => let? plan := add_entry index plan pw in add_entries index plan pws
  end.

(** The pairs of priorities of a tunable for a key. *)
Definition entry_priorities {K F} (key : K) (t : Tunable K F) : list (N * N) :=
  (λ '(g, within), (tg_priority g key, within key)) <$> tn_groups t.

Definition add_tunable (index : nat) (plan : TunePlan) (pws : list (N * N)) : outcome TunePlan :=
  match pws with
  | [] => Ret (mkPlan (tp_priorities plan) (tp_no_groups plan ++ [index]) (tp_groups plan))
  | _ => add_entries index plan pws
  end.

Fixpoint add_tunables (index : nat) (plan : TunePlan) (l : list (list (N * N))) : outcome TunePlan :=
  match l with
  | [] => Ret plan
  | pws :: l => let? plan := add_tunable index plan pws in add_tunables (S index) plan l
  end.

Definition sort_group (g : GroupPlan) : GroupPlan :=
  mkGroupPlan (merge_sort N.le (gp_priorities g)) (gp_indices g).

Definition TunePlan_new {K F} (key : K) (tunables : list (Tunable K F)) : outcome TunePlan :=
  let? plan := add_tunables 0 (mkPlan [] [] ∅) (entry_priorities key <$> tunables) in
  Ret (mkPlan (merge_sort N.le (tp_priorities plan)) (tp_no_groups plan) (sort_group <$> tp_groups plan)).

(** ** The next batch *)

Fixpoint remove_first (n : nat) (l : list nat) : list nat :=
  match l with
  | [] => []
  | x :: l => if Nat.eqb x n then l else x :: remove_first n l
  end.
Definition remove_all (next_indices l : list nat) : list nat := fold_left (λ l n, remove_first n l) next_indices l.

(** [Vec::pop]. *)
Fixpoint pop {A} (l : list A) : option (A * list A) :=
  match l with
  | [] => None
  | [x] => Some (x, [])
  | x :: l => match pop l with Some (y, l) => Some (y, x :: l) | None => None end
  end.

Definition remove_indices (next_indices : list nat) (group : GroupPlan) : GroupPlan :=
  mkGroupPlan (gp_priorities group) (remove_all next_indices <$> gp_indices group).

Definition is_nil {A} (l : list A) : bool := match l with [] => true | _ => false end.

(** [priorities.remove] of the first occurrence. *)
Fixpoint remove_priority (p : N) (l : list N) : outcome (list N) :=
  match l with
  | [] => Panic "called `Option::unwrap()` on a `None` value"
  | x :: l => if x =? p then Ret l else let? l := remove_priority p l in Ret (x :: l)
  end.

Section Next.
Context {H : HashOrder}.

(** The priorities within a group whose list became empty, in the order of
    traversal. *)
Definition empty_priorities (group : GroupPlan) : list N :=
  (filter (λ e, is_nil e.2 = true) (iter (gp_indices group))).*1.

Definition group_plan_next (plan : TunePlan) (priority : N) : outcome (list nat * Cleanup * TunePlan) :=
  let? group := expect (tp_groups plan !! priority) "To be filled" in
  let? '(within_group_prio, priorities) :=
    expect (pop (gp_priorities group)) "called `Option::unwrap()` on a `None` value" in
  let? next_indices :=
    expect (gp_indices group !! within_group_prio) "called `Option::unwrap()` on a `None` value" in
  let group := mkGroupPlan priorities (delete within_group_prio (gp_indices group)) in
  let groups := remove_indices next_indices <$> <[priority := group]> (tp_groups plan) in
  let cleanup_groups :=
    (filter (λ e, length (empty_priorities e.2) = length (gp_priorities e.2)) (iter groups)).*1 in
  let cleanup_tunables := iter groups ≫= λ '(pg, group), (λ pt, (pg, pt)) <$> empty_priorities group in
  Ret (next_indices, mkCleanup cleanup_groups cleanup_tunables,
       mkPlan (tp_priorities plan) (tp_no_groups plan) groups).

Fixpoint cleanup_groups (plan : TunePlan) (l : list N) : outcome TunePlan :=
  match l with
  | [] => Ret plan
  | group_p :: l =>
      let? priorities := remove_priority group_p (tp_priorities plan) in
      cleanup_groups (mkPlan priorities (tp_no_groups plan) (delete group_p (tp_groups plan))) l
  end.

Fixpoint cleanup_tunables (plan : TunePlan) (l : list (N * N)) : outcome TunePlan :=
  match l with
  | [] => Ret plan
  | (group_p, tunable_p) :: l =>
      match tp_groups plan !! group_p with
      | Some group =>
          let? priorities := remove_priority tunable_p (gp_priorities group) in
          let group := mkGroupPlan priorities (delete tunable_p (gp_indices group)) in
          cleanup_tunables (mkPlan (tp_priorities plan) (tp_no_groups plan)
                              (<[group_p := group]> (tp_groups plan))) l
      | None => cleanup_tunables plan l
      end
  end.

Definition cleanup (plan : TunePlan) (c : Cleanup) : outcome TunePlan :=
  let? plan := cleanup_groups plan (cl_groups c) in
  cleanup_tunables plan (cl_tunables c).

Definition next (plan : TunePlan) : outcome (list nat * TunePlan) :=
  let indices := tp_no_groups plan in
  let plan := mkPlan (tp_priorities plan) [] (tp_groups plan) in
  match last (tp_priorities plan) with
  | None => Ret (indices, plan)
  | Some priority =>
      let? '(group_indices, c, plan) := group_plan_next plan priority in
      let? plan := cleanup plan c in
      Ret (indices ++ group_indices, plan)
  end.

(** Calling [next] until it hands out an empty batch. *)
Fixpoint batches (fuel : nat) (plan : TunePlan) : outcome (list (list nat)) :=
  match fuel with
  | O => OutOfFuel
  | S fuel =>
      let? '(batch, plan) := next plan in
      if is_nil batch then Ret [] else let? rest := batches fuel plan in Ret (batch :: rest)
  end.
End Next.

(** ** The examples of the source's tests *)

Module PlanExamples.
Definition plan_of (l : list (list (N * N))) : outcome (list (list nat)) :=
  let? plan := TunePlan_new tt ((λ pws, mkTunable tt ((λ '(p, w), (mkGroup 0 (λ _, p), λ _, w)) <$> pws)) <$> l) in
  batches 10 plan.

Example plan_order : plan_of [[]; [(2, 1)]; [(2, 2)]; [(1, 2)]] = Ret [[0; 2]; [1]; [3]]%nat.
Proof. vm_compute. reflexivity. Qed.
Example plan_order_same_priority :
  plan_of [[]; [(2, 1)]; [(2, 2)]; [(1, 2)]; [(1, 2)]] = Ret [[0; 2]; [1]; [3; 4]]%nat.
Proof. vm_compute. reflexivity. Qed.
Example plan_order_multiple_groups :
  plan_of [[]; [(1, 1); (2, 2)]; [(1, 2)]; [(2, 3)]] = Ret [[0; 3]; [1]; [2]]%nat.
Proof. vm_compute. reflexivity. Qed.
Example plan_no_group : plan_of [[]; []] = Ret [[0; 1]]%nat.
Proof. vm_compute. reflexivity. Qed.

(** A tunable in two groups with the same priorities is benchmarked again. *)
Example plan_repeats : plan_of [[(2, 1); (1, 1); (1, 1)]] = Ret [[0]; [0]]%nat.
Proof. vm_compute. reflexivity. Qed.
End PlanExamples.

(** ** Lists *)

Lemma contains_spec l x : contains l x = true ↔ x ∈ l.
Proof.
  unfold contains. rewrite existsb_exists. split.
  - intros (y & Hy & ->%N.eqb_eq). by apply list_elem_of_In.
  - intros Hx. exists x. split; [by apply list_elem_of_In|apply N.eqb_refl].
Qed.

Lemma elem_of_snoc {A} (l : list A) k x : x ∈ l ++ [k] ↔ x ∈ l ∨ x = k.
Proof. by rewrite elem_of_app, list_elem_of_singleton. Qed.

Lemma pop_snoc {A} (l : list A) x : pop (l ++ [x]) = Some (x, l).
Proof. induction l as [|y l IH]; [done|]. simpl. rewrite IH. by destruct l. Qed.

Lemma last_snoc_inv {A} (l : list A) x : last l = Some x → ∃ l', l = l' ++ [x].
Proof. intros Hl. apply last_Some in Hl as [l' ->]. by exists l'. Qed.

Lemma sorted_last l x y : StronglySorted N.le (l ++ [x]) → y ∈ l ++ [x] → y ≤ x.
Proof.
  intros Hs Hy. induction l as [|z l IH]; simpl in *.
  { apply list_elem_of_singleton in Hy as ->. lia. }
  apply StronglySorted_inv in Hs as [Hs Hz]. apply elem_of_cons in Hy as [->|Hy]; [|by apply IH].
  rewrite Forall_forall in Hz. apply Hz. set_solver.
Qed.

Lemma sorted_filter (P : N → Prop) `{∀ x, Decision (P x)} l :
  StronglySorted N.le l → StronglySorted N.le (filter P l).
Proof.
  induction 1 as [|x l Hs IH Hx]; [by constructor|]. rewrite filter_cons. case_decide; [|done].
  constructor; [done|]. rewrite Forall_forall in *. intros y Hy. apply Hx. by apply list_elem_of_filter in Hy as [_ ?].
Qed.

Lemma sorted_init l x : StronglySorted N.le (l ++ [x]) → StronglySorted N.le l.
Proof.
  induction l as [|z l IH]; simpl; [by constructor|]. intros [Hs Hz]%StronglySorted_inv.
  constructor; [by apply IH|]. by apply Forall_app in Hz as [? _].
Qed.

Lemma elem_of_removed x n l : x ∈ remove_first n l → x ∈ l.
Proof.
  induction l as [|y l IH]; simpl; [done|]. destruct (Nat.eqb_spec y n); set_solver.
Qed.
Lemma remove_first_other x n l : x ∈ l → x ≠ n → x ∈ remove_first n l.
Proof.
  intros Hx Hn. induction l as [|y l IH]; simpl; [done|]. destruct (Nat.eqb_spec y n) as [->|]; set_solver.
Qed.
Lemma remove_first_nodup n l : NoDup l → NoDup (remove_first n l) ∧ n ∉ remove_first n l.
Proof.
  induction 1 as [|y l Hy Hl [IH1 IH2]]; simpl; [split; [constructor|set_solver]|].
  destruct (Nat.eqb_spec y n) as [->|]; [done|]. split; [|set_solver].
  constructor; [|done]. intros Hin. by apply Hy, (elem_of_removed _ n).
Qed.

Lemma remove_all_elem x ns l : x ∈ remove_all ns l → x ∈ l.
Proof.
  revert l. induction ns as [|n ns IH]; intros l; [done|]. simpl. intros Hx.
  by apply IH, elem_of_removed in Hx.
Qed.
Lemma remove_all_other x ns l : x ∈ l → x ∉ ns → x ∈ remove_all ns l.
Proof.
  revert l. induction ns as [|n ns IH]; intros l Hx Hn; [done|]. simpl.
  apply IH; [apply remove_first_other|]; set_solver.
Qed.
Lemma remove_all_nodup ns l : NoDup l → NoDup (remove_all ns l) ∧ ∀ x, x ∈ ns → x ∉ remove_all ns l.
Proof.
  revert l. induction ns as [|n ns IH]; intros l Hl; [split; [done|set_solver]|]. simpl.
  destruct (remove_first_nodup n l Hl) as [H1 H2]. destruct (IH _ H1) as [H3 H4].
  split; [done|]. intros x [->|Hx]%elem_of_cons; [|by apply H4]. intros Hin. by apply H2, (remove_all_elem _ ns).
Qed.

Lemma is_nil_spec {A} (l : list A) : is_nil l = true ↔ l = [].
Proof. by destruct l. Qed.

Lemma remove_priority_spec p l :
  p ∈ l → NoDup l → remove_priority p l = Ret (filter (λ x, x ≠ p) l).
Proof.
  induction l as [|x l IH]; intros Hp Hn; [by apply elem_of_nil in Hp|].
  apply NoDup_cons in Hn as [Hx Hn]. simpl. rewrite filter_cons. destruct (N.eqb_spec x p) as [->|Hne].
  - rewrite decide_False by tauto. f_equal. symmetry. apply filter_all. by intros y Hy ->.
  - rewrite decide_True by done. rewrite IH by set_solver. done.
Qed.

(** ** The invariant of a plan *)

Record group_wf (g : GroupPlan) : Prop := {
  gw_nodup : NoDup (gp_priorities g);
  gw_keys : ∀ w, w ∈ gp_priorities g ↔ is_Some (gp_indices g !! w);
  gw_filled : ∀ w l, gp_indices g !! w = Some l → l ≠ [];
  gw_some : gp_priorities g ≠ [];
}.
Record plan_wf (plan : TunePlan) : Prop := {
  pw_nodup : NoDup (tp_priorities plan);
  pw_keys : ∀ p, p ∈ tp_priorities plan ↔ is_Some (tp_groups plan !! p);
  pw_groups : ∀ p g, tp_groups plan !! p = Some g → group_wf g;
}.
Definition plan_sorted (plan : TunePlan) : Prop :=
  StronglySorted N.le (tp_priorities plan) ∧
  ∀ p g, tp_groups plan !! p = Some g → StronglySorted N.le (gp_priorities g).

(** The tunables waiting with a pair of priorities. *)
Definition entry (plan : TunePlan) (p w : N) : option (list nat) :=
  g ← tp_groups plan !! p; gp_indices g !! w.

(** Pairs in the order of the plan: the group first, then the priority within. *)
Definition pair_le (a b : N * N) : Prop := a.1 < b.1 ∨ (a.1 = b.1 ∧ a.2 ≤ b.2).
Definition pair_lt (a b : N * N) : Prop := a.1 < b.1 ∨ (a.1 = b.1 ∧ a.2 < b.2).

Lemma entry_group plan p w g : tp_groups plan !! p = Some g → entry plan p w = gp_indices g !! w.
Proof. unfold entry. by intros ->. Qed.

(** ** Cleaning up *)

Lemma cleanup_groups_spec plan l :
  NoDup l → NoDup (tp_priorities plan) → (∀ p, p ∈ l → p ∈ tp_priorities plan) →
  ∃ plan', cleanup_groups plan l = Ret plan' ∧
    tp_priorities plan' = filter (λ p, p ∉ l) (tp_priorities plan) ∧
    tp_no_groups plan' = tp_no_groups plan ∧
    ∀ p, tp_groups plan' !! p = if decide (p ∈ l) then None else tp_groups plan !! p.
Proof.
  revert plan. induction l as [|p l IH]; intros plan Hl Hn Hin.
  { exists plan. split_and!; [done| |done|].
    - rewrite filter_all; [done|]. set_solver.
    - intros p. by rewrite decide_False by apply not_elem_of_nil. }
  apply NoDup_cons in Hl as [Hp Hl]. cbn [cleanup_groups].
  rewrite remove_priority_spec by set_solver. cbn [obind].
  edestruct IH as (plan' & -> & H1 & H2 & H3); [done|by apply NoDup_filter| |].
  { intros q Hq. cbn. apply list_elem_of_filter. split; [by intros ->|set_solver]. }
  exists plan'. split_and!; [done| |done|].
  - rewrite H1. cbn. rewrite list_filter_filter. apply list_filter_iff. set_solver.
  - intros q. rewrite H3. cbn. destruct (decide (q = p)) as [->|Hne].
    + rewrite (decide_True (P := p ∈ p :: l)) by set_solver. case_decide; [done|]. apply lookup_delete_eq.
    + rewrite lookup_delete_ne by done. repeat case_decide; set_solver.
Qed.

(** What the removal of the pairs [l] leaves of the group [p]. *)
Definition cleaned (l : list (N * N)) (p : N) (g g' : GroupPlan) : Prop :=
  gp_priorities g' = filter (λ w, (p, w) ∉ l) (gp_priorities g) ∧
  ∀ w, gp_indices g' !! w = if decide ((p, w) ∈ l) then None else gp_indices g !! w.

Definition groups_cleaned (l : list (N * N)) (groups groups' : gmap N GroupPlan) : Prop :=
  ∀ p, match groups !! p, groups' !! p with
       | Some g, Some g' => cleaned l p g g'
       | None, None => True
       | _, _ => False
       end.

Lemma cleaned_refl p g : cleaned [] p g g.
Proof. split; [rewrite filter_all; [done|set_solver]|]. intros w. by rewrite decide_False by apply not_elem_of_nil. Qed.

Lemma cleaned_step l p q w g g1 g2 :
  (q, w) ∉ l → cleaned [(q, w)] p g g1 → cleaned l p g1 g2 → cleaned ((q, w) :: l) p g g2.
Proof.
  intros Hnin [H1 H2] [H3 H4]. split.
  - rewrite H3, H1, list_filter_filter. apply list_filter_iff. intros x. rewrite !elem_of_cons, elem_of_nil. tauto.
  - intros x. rewrite H4, H2. repeat case_decide; set_solver.
Qed.

Lemma cleanup_tunables_spec plan l :
  NoDup l → (∀ p g, tp_groups plan !! p = Some g → NoDup (gp_priorities g)) →
  (∀ p w g, (p, w) ∈ l → tp_groups plan !! p = Some g → w ∈ gp_priorities g) →
  ∃ plan', cleanup_tunables plan l = Ret plan' ∧ tp_priorities plan' = tp_priorities plan ∧
    tp_no_groups plan' = tp_no_groups plan ∧ groups_cleaned l (tp_groups plan) (tp_groups plan').
Proof.
  revert plan. induction l as [|[q w] l IH]; intros plan Hl Hn Hin.
  { exists plan. split_and!; try done. intros p. destruct (tp_groups plan !! p); [apply cleaned_refl|done]. }
  apply NoDup_cons in Hl as [Hq Hl]. cbn [cleanup_tunables].
  destruct (tp_groups plan !! q) as [g|] eqn:Hg.
  - rewrite remove_priority_spec by (naive_solver set_solver). cbn [obind].
    set (g1 := mkGroupPlan _ _). assert (cleaned [(q, w)] q g g1) as Hg1.
    { split; cbn.
      - apply list_filter_iff. intros x. rewrite list_elem_of_singleton. naive_solver.
      - intros x. destruct (decide (x = w)) as [->|Hne].
        + rewrite decide_True by set_solver. apply lookup_delete_eq.
        + rewrite decide_False, lookup_delete_ne by set_solver. done. }
    edestruct IH as (plan' & -> & H1 & H2 & H3); [done| | |].
    + cbn. intros p g2 [[<- <-]|[? ?]]%lookup_insert_Some; [cbn; by apply NoDup_filter, (Hn q)|by eapply Hn].
    + cbn. intros p x g2 Hx [[<- <-]|[? ?]]%lookup_insert_Some; [|eapply Hin; [by right|done]].
      cbn. apply list_elem_of_filter. split; [|eapply Hin; [by right|done]]. intros ->. done.
    + exists plan'. split_and!; [done..|]. intros p. specialize (H3 p). cbn in H3.
      destruct (decide (p = q)) as [->|Hne].
      * rewrite lookup_insert_eq in H3. rewrite Hg. destruct (tp_groups plan' !! q) as [g2|]; [|done].
        by eapply cleaned_step.
      * rewrite lookup_insert_ne in H3 by done. destruct (tp_groups plan !! p) as [g0|], (tp_groups plan' !! p) as [g2|]; try done.
        eapply cleaned_step; [done| |done]. split; [rewrite filter_all; [done|set_solver]|].
        intros x. by rewrite decide_False by set_solver.
  - edestruct (IH plan) as (plan' & -> & H1 & H2 & H3); [done|done|naive_solver set_solver|].
    exists plan'. split_and!; [done..|]. intros p. specialize (H3 p). destruct (decide (p = q)) as [->|Hne].
    + rewrite Hg in *. by destruct (tp_groups plan' !! q).
    + destruct (tp_groups plan !! p) as [g0|], (tp_groups plan' !! p) as [g2|]; try done.
      eapply cleaned_step; [done| |done]. split; [rewrite filter_all; [done|set_solver]|].
      intros x. by rewrite decide_False by set_solver.
Qed.

(** ** One call of [next] *)

Section Next.
Context {HO : HashOrder}.

Lemma elem_of_iter {A} (m : gmap N A) k x : (k, x) ∈ iter m ↔ m !! k = Some x.
Proof. by rewrite (iter_perm m), elem_of_map_to_list. Qed.
Lemma iter_nodup {A} (m : gmap N A) : NoDup (iter m).
Proof. rewrite (iter_perm m). apply NoDup_map_to_list. Qed.
Lemma iter_filter_nodup {A} (m : gmap N A) (P : N * A → Prop) `{∀ e, Decision (P e)} : NoDup (filter P (iter m)).*1.
Proof.
  apply NoDup_fmap_2_strong; [|apply NoDup_filter, iter_nodup].
  intros [k x] [k' x'] [_ H1]%list_elem_of_filter [_ H2]%list_elem_of_filter Hk. simpl in Hk. subst k'.
  apply elem_of_iter in H1, H2. congruence.
Qed.
Lemma iter_filter_elem {A} (m : gmap N A) (P : N * A → Prop) `{∀ e, Decision (P e)} k :
  k ∈ (filter P (iter m)).*1 ↔ ∃ x, m !! k = Some x ∧ P (k, x).
Proof.
  rewrite list_elem_of_fmap. split.
  - intros ([k' x] & -> & [HP Hx]%list_elem_of_filter). exists x. by apply elem_of_iter in Hx.
  - intros (x & Hx & HP). exists (k, x). split; [done|]. apply list_elem_of_filter. by rewrite elem_of_iter.
Qed.

Lemma empty_priorities_elem g w : w ∈ empty_priorities g ↔ gp_indices g !! w = Some [].
Proof.
  unfold empty_priorities. rewrite iter_filter_elem. split.
  - intros (l & Hl & Hn%is_nil_spec). simpl in Hn. by subst l.
  - intros Hl. by exists [].
Qed.

(** The pairs to clean up after the removal of a batch. *)
Definition stale (groups : gmap N GroupPlan) : list (N * N) :=
  iter groups ≫= λ '(pg, group), (λ pt, (pg, pt)) <$> empty_priorities group.

Lemma stale_elem groups p w :
  (p, w) ∈ stale groups ↔ ∃ g, groups !! p = Some g ∧ gp_indices g !! w = Some [].
Proof.
  unfold stale. rewrite list_elem_of_bind. split.
  - intros ([q g] & (x & [= <- <-] & Hx)%list_elem_of_fmap & Hg%elem_of_iter).
    exists g. by rewrite <- empty_priorities_elem.
  - intros (g & Hg & Hw). exists (p, g). split; [|by apply elem_of_iter].
    apply list_elem_of_fmap. exists w. by rewrite empty_priorities_elem.
Qed.
Lemma stale_nodup groups : NoDup (stale groups).
Proof.
  unfold stale. apply NoDup_bind; [| |apply iter_nodup].
  - intros [q g] [q' g'] y Hq%elem_of_iter Hq'%elem_of_iter
      (x & -> & _)%list_elem_of_fmap (x' & [= <- <-] & _)%list_elem_of_fmap. congruence.
  - intros [q g] _. apply NoDup_fmap_2; [by intros ? ? [= ->]|]. apply iter_filter_nodup.
Qed.

Definition exhausted (groups : gmap N GroupPlan) : list N :=
  (filter (λ e, length (empty_priorities e.2) = length (gp_priorities e.2)) (iter groups)).*1.

(** A group after the removal of a batch: its lists may be empty. *)
Record group_open (g : GroupPlan) : Prop := {
  go_nodup : NoDup (gp_priorities g);
  go_keys : ∀ w, w ∈ gp_priorities g ↔ is_Some (gp_indices g !! w);
}.

Lemma empty_sub g : group_open g → empty_priorities g ⊆+ gp_priorities g.
Proof.
  intros [Hn Hk]. apply NoDup_submseteq; [apply iter_filter_nodup|].
  intros w Hw%empty_priorities_elem. apply Hk. by rewrite Hw.
Qed.

Lemma exhausted_elem g w l :
  group_open g → length (empty_priorities g) = length (gp_priorities g) →
  gp_indices g !! w = Some l → l = [].
Proof.
  intros Hg Hlen Hw. assert (empty_priorities g ≡ₚ gp_priorities g) as Hp
    by (apply submseteq_length_Permutation; [by apply empty_sub|lia]).
  assert (w ∈ empty_priorities g) as Hin%empty_priorities_elem; [|congruence].
  rewrite Hp. apply (go_keys g Hg). by rewrite Hw.
Qed.

(** A cleaned group is well-formed. *)
Lemma cleaned_wf groups p g g' :
  group_open g → groups !! p = Some g → length (empty_priorities g) ≠ length (gp_priorities g) →
  cleaned (stale groups) p g g' → group_wf g'.
Proof.
  intros Hg Hp Hlen [H1 H2]. assert (∀ w, (p, w) ∈ stale groups ↔ gp_indices g !! w = Some []) as Hst.
  { intros w. rewrite stale_elem. naive_solver. }
  split.
  - rewrite H1. apply NoDup_filter, Hg.
  - intros w. rewrite H1, H2, list_elem_of_filter, (go_keys g Hg). case_decide; [|naive_solver].
    split; [tauto|]. by intros [? ?].
  - intros w l. rewrite H2. case_decide as Hd; [done|]. rewrite Hst in Hd. intros Hl ->. done.
  - intros Hnil. apply Hlen, Nat.le_antisymm; apply submseteq_length; [by apply empty_sub|].
    apply NoDup_submseteq; [apply Hg|]. intros w Hw. rewrite H1 in Hnil.
    destruct (decide ((p, w) ∈ stale groups)) as [Hs|Hs]; [by apply empty_priorities_elem, Hst|].
    exfalso. apply (not_elem_of_nil w). rewrite <- Hnil. by apply list_elem_of_filter.
Qed.

(** The lists that remain when the batch [ns] is handed out. *)
Definition remaining (ns : list nat) (o : option (list nat)) : option (list nat) :=
  match remove_all ns <$> o with
  | Some [] => None
  | r => r
  end.

Definition opened (plan : TunePlan) (p : N) (g : GroupPlan) (w : N) (prs : list N) (ns : list nat) : gmap N GroupPlan :=
  remove_indices ns <$> <[p := mkGroupPlan prs (delete w (gp_indices g))]> (tp_groups plan).

Lemma opened_spec plan p g w prs ns q g1 :
  plan_wf plan → tp_groups plan !! p = Some g → gp_priorities g = prs ++ [w] →
  opened plan p g w prs ns !! q = Some g1 →
  group_open g1 ∧
  (∀ x, gp_indices g1 !! x = if decide ((q, x) = (p, w)) then None else remove_all ns <$> entry plan q x) ∧
  (plan_sorted plan → StronglySorted N.le (gp_priorities g1)).
Proof using.
  intros Hwf Hp Hpr Hq. unfold opened in Hq. rewrite lookup_fmap in Hq.
  destruct (decide (q = p)) as [->|Hne].
  - rewrite lookup_insert_eq in Hq. injection Hq as <-. pose proof (pw_groups _ Hwf p g Hp) as Hg.
    assert (∀ x, delete w (gp_indices g) !! x = if decide ((p, x) = (p, w)) then None else entry plan p x) as Hdel.
    { intros x. rewrite (entry_group plan p x g Hp). destruct (decide (x = w)) as [->|].
      - rewrite decide_True by done. apply lookup_delete_eq.
      - rewrite decide_False by naive_solver. by apply lookup_delete_ne. }
    pose proof (gw_nodup g Hg) as Hn. rewrite Hpr in Hn. apply NoDup_app in Hn as (Hn1 & Hn2 & _).
    split_and!; cbn.
    + split; cbn; [done|]. intros x. rewrite lookup_fmap, Hdel, fmap_is_Some.
      pose proof (gw_keys g Hg x) as Hk. rewrite Hpr, elem_of_app, list_elem_of_singleton in Hk.
      rewrite (entry_group plan p x g Hp). case_decide as Hd.
      * injection Hd as ->. split; [|by intros [? ?]]. intros Hin. exfalso. apply (Hn2 w Hin). by left.
      * rewrite <- Hk. split; [by left|]. intros [?| ->]; done.
    + intros x. rewrite lookup_fmap, Hdel. by case_decide.
    + intros [_ Hs]. specialize (Hs p g Hp). rewrite Hpr in Hs. by apply sorted_init in Hs.
  - rewrite lookup_insert_ne in Hq by done. destruct (tp_groups plan !! q) as [g0|] eqn:Hg0; [|done].
    injection Hq as <-. pose proof (pw_groups _ Hwf q g0 Hg0) as Hg. split_and!; cbn.
    + split; cbn; [apply Hg|]. intros x. by rewrite lookup_fmap, fmap_is_Some, (gw_keys g0 Hg).
    + intros x. rewrite decide_False by naive_solver. by rewrite lookup_fmap, (entry_group plan q x g0 Hg0).
    + intros [_ Hs]. by eapply Hs.
Qed.

Lemma opened_none plan p g w prs ns q :
  tp_groups plan !! p = Some g → opened plan p g w prs ns !! q = None → tp_groups plan !! q = None.
Proof using.
  intros Hp. unfold opened. rewrite lookup_fmap, fmap_None. destruct (decide (q = p)) as [->|Hne].
  - by rewrite lookup_insert_eq.
  - by rewrite lookup_insert_ne.
Qed.

Lemma opened_some plan p g w prs ns q :
  plan_wf plan → tp_groups plan !! p = Some g →
  is_Some (opened plan p g w prs ns !! q) ↔ q ∈ tp_priorities plan.
Proof using.
  intros Hwf Hp. rewrite (pw_keys plan Hwf). unfold opened. rewrite lookup_fmap, fmap_is_Some.
  destruct (decide (q = p)) as [->|Hne]; [rewrite lookup_insert_eq, Hp|rewrite lookup_insert_ne by done]; naive_solver.
Qed.

Lemma cleanup_groups_opened plan ng groups :
  NoDup (tp_priorities plan) → (∀ q, is_Some (groups !! q) ↔ q ∈ tp_priorities plan) →
  ∃ plan1, cleanup_groups (mkPlan (tp_priorities plan) ng groups) (exhausted groups) = Ret plan1 ∧
    tp_priorities plan1 = filter (λ q, q ∉ exhausted groups) (tp_priorities plan) ∧ tp_no_groups plan1 = ng ∧
    ∀ q, tp_groups plan1 !! q = if decide (q ∈ exhausted groups) then None else groups !! q.
Proof using.
  intros Hn Hk. apply (cleanup_groups_spec (mkPlan (tp_priorities plan) ng groups)).
  - apply iter_filter_nodup.
  - done.
  - intros q (x & Hx & _)%iter_filter_elem. cbn. apply Hk. by rewrite Hx.
Qed.

(** What cleaning up makes of the opened groups. *)
Lemma cleanup_opened plan ng groups :
  NoDup (tp_priorities plan) → (∀ q, is_Some (groups !! q) ↔ q ∈ tp_priorities plan) →
  (∀ q g, groups !! q = Some g → group_open g) →
  ∃ plan', cleanup (mkPlan (tp_priorities plan) ng groups) (mkCleanup (exhausted groups) (stale groups)) = Ret plan' ∧
    tp_no_groups plan' = ng ∧ tp_priorities plan' = filter (λ q, q ∉ exhausted groups) (tp_priorities plan) ∧
    ∀ q, match tp_groups plan' !! q with
         | Some g' => (q ∉ exhausted groups) ∧ (∃ g, groups !! q = Some g ∧ cleaned (stale groups) q g g')
         | None => q ∈ exhausted groups ∨ groups !! q = None
         end.
Proof using.
  intros Hn Hk Hopen. destruct (cleanup_groups_opened plan ng groups Hn Hk) as (plan1 & Hc & H1 & H2 & H3).
  unfold cleanup. cbn [cl_groups cl_tunables]. rewrite Hc. cbn [obind].
  destruct (cleanup_tunables_spec plan1 (stale groups)) as (plan' & -> & H4 & H5 & H6).
  - apply stale_nodup.
  - intros q g. rewrite H3. case_decide; [done|]. intros Hg. by apply Hopen in Hg as [? _].
  - intros q w g Hs. rewrite H3. case_decide; [done|]. intros Hg. pose proof (Hopen q g Hg) as Ho.
    apply stale_elem in Hs as (g' & Hg' & Hw). rewrite Hg in Hg'. injection Hg' as <-.
    apply (go_keys g Ho). by rewrite Hw.
  - exists plan'. split_and!; [done|congruence|congruence|]. intros q. specialize (H6 q). rewrite H3 in H6.
    case_decide as Hd.
    + destruct (tp_groups plan' !! q); [done|by left].
    + destruct (groups !! q) as [g|] eqn:Hg, (tp_groups plan' !! q) as [g'|]; try done; [|by right].
      split; [done|]. by exists g.
Qed.

(** The state after cleaning up: [gs] are the opened groups. *)
Definition cleaned_up (gs : gmap N GroupPlan) (plan plan' : TunePlan) : Prop :=
  tp_priorities plan' = filter (λ q, q ∉ exhausted gs) (tp_priorities plan) ∧
  ∀ q, match tp_groups plan' !! q with
       | Some g' => (q ∉ exhausted gs) ∧ (∃ g, gs !! q = Some g ∧ cleaned (stale gs) q g g')
       | None => q ∈ exhausted gs ∨ gs !! q = None
       end.

Lemma cleaned_up_wf gs plan plan' :
  NoDup (tp_priorities plan) → (∀ q, is_Some (gs !! q) ↔ q ∈ tp_priorities plan) →
  (∀ q g, gs !! q = Some g → group_open g) → cleaned_up gs plan plan' → plan_wf plan'.
Proof using.
  intros Hn Hk Ho [Hpr Hgr]. split.
  - rewrite Hpr. by apply NoDup_filter.
  - intros q. rewrite Hpr, list_elem_of_filter, <- Hk. specialize (Hgr q).
    destruct (tp_groups plan' !! q) as [g'|].
    + destruct Hgr as [Hx (g & Hg & _)]. rewrite Hg. naive_solver.
    + split; [|by intros [? ?]]. intros [Hx Hs]. destruct Hgr as [?|Hno]; [done|]. rewrite Hno in Hs. by destruct Hs.
  - intros q g' Hq. specialize (Hgr q). rewrite Hq in Hgr. destruct Hgr as [Hx (g & Hg & Hcl)].
    apply (cleaned_wf gs q g g'); [by eapply Ho|done| |done].
    intros Hlen. apply Hx, iter_filter_elem. by exists g.
Qed.

Lemma cleaned_up_sorted gs plan plan' :
  StronglySorted N.le (tp_priorities plan) →
  (∀ q g, gs !! q = Some g → StronglySorted N.le (gp_priorities g)) →
  cleaned_up gs plan plan' → plan_sorted plan'.
Proof using.
  intros Hs Hgs [Hpr Hgr]. split; [rewrite Hpr; by apply sorted_filter|].
  intros q g' Hq. specialize (Hgr q). rewrite Hq in Hgr. destruct Hgr as [_ (g & Hg & [-> _])].
  apply sorted_filter. by eapply Hgs.
Qed.

Lemma cleaned_up_entry gs plan plan' q x :
  (∀ q g, gs !! q = Some g → group_open g) → cleaned_up gs plan plan' →
  entry plan' q x = match g ← gs !! q; gp_indices g !! x with Some [] => None | o => o end.
Proof using.
  intros Ho [_ Hgr]. specialize (Hgr q). unfold entry. destruct (tp_groups plan' !! q) as [g'|]; cbn.
  - destruct Hgr as [Hx (g & Hg & [_ Hcl])]. rewrite Hg, Hcl. cbn.
    assert ((q, x) ∈ stale gs ↔ gp_indices g !! x = Some []) as Hst by (rewrite stale_elem; naive_solver).
    case_decide as Hd; [by rewrite (proj1 Hst Hd)|]. destruct (gp_indices g !! x) as [[|? ?]|] eqn:Hgx; naive_solver.
  - destruct (gs !! q) as [g|] eqn:Hg; [|done]. cbn. destruct Hgr as [Hx|?]; [|done].
    apply iter_filter_elem in Hx as (g0 & Hg0 & Hlen). rewrite Hg in Hg0. injection Hg0 as <-.
    destruct (gp_indices g !! x) as [l|] eqn:Hl; [|done].
    by rewrite (exhausted_elem g x l (Ho q g Hg) Hlen Hl).
Qed.

Lemma opened_entry plan p g w prs ns q x :
  plan_wf plan → tp_groups plan !! p = Some g → gp_priorities g = prs ++ [w] →
  (g1 ← opened plan p g w prs ns !! q; gp_indices g1 !! x) =
    if decide ((q, x) = (p, w)) then None else remove_all ns <$> entry plan q x.
Proof using.
  intros Hwf Hp Hpr. destruct (opened plan p g w prs ns !! q) as [g1|] eqn:Hq; cbn.
  - destruct (opened_spec plan p g w prs ns q g1 Hwf Hp Hpr Hq) as (_ & H & _). apply H.
  - apply opened_none in Hq; [|done]. unfold entry. rewrite Hq. by case_decide.
Qed.

Lemma next_spec plan :
  plan_wf plan → plan_sorted plan → tp_priorities plan ≠ [] →
  ∃ p w ns plan', next plan = Ret (tp_no_groups plan ++ ns, plan') ∧ entry plan p w = Some ns ∧
    (∀ q x, is_Some (entry plan q x) → pair_le (q, x) (p, w)) ∧
    plan_wf plan' ∧ plan_sorted plan' ∧ tp_no_groups plan' = [] ∧
    ∀ q x, entry plan' q x = if decide ((q, x) = (p, w)) then None else remaining ns (entry plan q x).
Proof using.
  intros Hwf Hs Hne. destruct (last (tp_priorities plan)) as [p|] eqn:Hlast; [|by apply last_None in Hlast].
  destruct (last_snoc_inv _ _ Hlast) as [ps Hps].
  assert (p ∈ tp_priorities plan) as Hpin by (rewrite Hps; set_solver).
  destruct (proj1 (pw_keys plan Hwf p) Hpin) as [g Hg]. pose proof (pw_groups plan Hwf p g Hg) as Hgw.
  destruct (last (gp_priorities g)) as [w|] eqn:Hlw; [|apply last_None in Hlw; by apply gw_some in Hlw].
  destruct (last_snoc_inv _ _ Hlw) as [prs Hprs].
  destruct (proj1 (gw_keys g Hgw w)) as [ns Hns]; [rewrite Hprs; set_solver|].
  unfold next. cbn [tp_priorities tp_groups]. rewrite Hlast. unfold group_plan_next. cbn [tp_groups tp_priorities tp_no_groups].
  rewrite Hg. cbn [expect obind]. rewrite Hprs, pop_snoc. cbn [expect obind]. rewrite Hns. cbn [expect obind].
  change (remove_indices ns <$> _) with (opened plan p g w prs ns). set (gs := opened plan p g w prs ns).
  assert (∀ q, is_Some (gs !! q) ↔ q ∈ tp_priorities plan) as Hk by (intros q; by apply opened_some).
  assert (∀ q g1, gs !! q = Some g1 → group_open g1) as Ho by (intros q g1 Hq; by eapply opened_spec).
  destruct (cleanup_opened plan [] gs (pw_nodup plan Hwf) Hk Ho) as (plan' & Hc & Hng & Hcl).
  change ((filter (λ e, length (empty_priorities e.2) = length (gp_priorities e.2)) (iter gs)).*1) with (exhausted gs).
  change (iter gs ≫= _) with (stale gs). rewrite Hc. cbn [obind].
  exists p, w, ns, plan'. split_and!; [done| | | | |done|].
  - by rewrite (entry_group plan p w g Hg).
  - intros q x Hq. unfold pair_le. cbn. destruct (decide (q = p)) as [->|Hqp].
    + right. split; [done|]. rewrite (entry_group plan p x g Hg) in Hq. apply (gw_keys g Hgw) in Hq.
      rewrite Hprs in Hq. apply (sorted_last prs); [|done]. rewrite <- Hprs. by eapply Hs.
    + left. assert (q ∈ tp_priorities plan) as Hin.
      { apply (pw_keys plan Hwf). unfold entry in Hq. destruct (tp_groups plan !! q); [by eexists|]. by destruct Hq. }
      rewrite Hps in Hin. assert (q ≤ p); [|lia]. apply (sorted_last ps); [|done]. rewrite <- Hps. apply Hs.
  - by apply (cleaned_up_wf gs plan plan' (pw_nodup plan Hwf)).
  - apply (cleaned_up_sorted gs plan); [apply Hs| |done]. intros q g1 Hq.
    by destruct (opened_spec plan p g w prs ns q g1 Hwf Hg Hprs Hq) as (_ & _ & H); apply H.
  - intros q x. rewrite (cleaned_up_entry gs plan plan' q x Ho Hcl). unfold gs. rewrite opened_entry by done.
    unfold remaining. case_decide; done.
Qed.
End Next.

(** ** Building a plan *)

Definition waiting (plan : TunePlan) (p w : N) : list nat := default [] (entry plan p w).

(** A group that may still have no priority. *)
Record group_part (g : GroupPlan) : Prop := {
  gt_nodup : NoDup (gp_priorities g);
  gt_keys : ∀ w, w ∈ gp_priorities g ↔ is_Some (gp_indices g !! w);
  gt_filled : ∀ w l, gp_indices g !! w = Some l → l ≠ [];
}.

Lemma lookup_insert_decide {A} (m : gmap N A) (k x : N) (v : A) :
  <[k := v]> m !! x = if decide (x = k) then Some v else m !! x.
Proof. case_decide as Hd; [subst; apply lookup_insert_eq|by apply lookup_insert_ne]. Qed.

Lemma insert_keys {A} (m : gmap N A) (l l' : list N) k v :
  (∀ x, x ∈ l ↔ is_Some (m !! x)) → (∀ x, x ∈ l' ↔ x ∈ l ∨ x = k) →
  ∀ x, x ∈ l' ↔ is_Some (<[k := v]> m !! x).
Proof.
  intros Hl Hl' x. rewrite Hl', Hl, lookup_insert_decide. case_decide; [|naive_solver].
  split; [by eexists|by right].
Qed.

(** One more element in the list of priorities. *)
Lemma push_nodup (l : list N) k : NoDup l → contains l k = false → NoDup (l ++ [k]).
Proof.
  intros Hl Hc. apply NoDup_app. split_and!; [done| |apply NoDup_singleton].
  intros q Hq ->%list_elem_of_singleton. apply contains_spec in Hq. congruence.
Qed.

Lemma group_push g w i :
  group_part g →
  ∃ g', (if contains (gp_priorities g) w then
      let? indices := expect (gp_indices g !! w) "called `Option::unwrap()` on a `None` value" in
      Ret (mkGroupPlan (gp_priorities g) (<[w := indices ++ [i]]> (gp_indices g)))
    else Ret (mkGroupPlan (gp_priorities g ++ [w]) (<[w := [i]]> (gp_indices g)))) = Ret g' ∧ group_wf g' ∧
    ∀ x, gp_indices g' !! x =
      if decide (x = w) then Some (default [] (gp_indices g !! w) ++ [i]) else gp_indices g !! x.
Proof.
  intros [G1 G2 G3]. destruct (contains (gp_priorities g) w) eqn:Hc.
  - apply contains_spec in Hc. destruct (proj1 (G2 w) Hc) as [l Hl]. rewrite Hl. cbn [expect obind default].
    eexists. split; [done|]. split; [split; cbn; [done| | |]|].
    + eapply insert_keys; [done|]. intros x. split; [by left|]. by intros [?| ->].
    + intros x l' [[<- <-]|[? ?]]%lookup_insert_Some; [by destruct l|by eapply G3].
    + intros Hnil. rewrite Hnil in Hc. by apply elem_of_nil in Hc.
    + intros x. cbn. apply lookup_insert_decide.
  - assert (gp_indices g !! w = None) as Hnone.
    { apply eq_None_not_Some. rewrite <- G2. intros Hin%contains_spec. congruence. }
    rewrite Hnone. eexists. split; [done|]. cbn [default app]. split; [split; cbn|].
    + by apply push_nodup.
    + eapply insert_keys; [done|apply elem_of_snoc].
    + intros x l' [[<- <-]|[? ?]]%lookup_insert_Some; [done|by eapply G3].
    + by destruct (gp_priorities g).
    + intros x. cbn. apply lookup_insert_decide.
Qed.

Lemma default_group plan p :
  plan_wf plan → let g := default (mkGroupPlan [] ∅) (tp_groups plan !! p) in
  group_part g ∧ ∀ x, entry plan p x = gp_indices g !! x.
Proof.
  intros Hwf g. unfold g, entry. destruct (tp_groups plan !! p) as [g0|] eqn:Hg; cbn.
  - by destruct (pw_groups plan Hwf p g0 Hg).
  - split; [split|]; cbn; [constructor| |by intros ? ?; rewrite lookup_empty|intros x; by rewrite lookup_empty].
    intros x. rewrite lookup_empty, elem_of_nil. split; [done|by intros [? ?]].
Qed.

Lemma plan_insert plan p g' prs ng :
  plan_wf plan → group_wf g' → prs = (if contains (tp_priorities plan) p then tp_priorities plan else tp_priorities plan ++ [p]) →
  plan_wf (mkPlan prs ng (<[p := g']> (tp_groups plan))).
Proof.
  intros Hwf Hg ->. assert (∀ q g0, <[p := g']> (tp_groups plan) !! q = Some g0 → group_wf g0) as Hgs.
  { intros q g0 [[<- <-]|[? ?]]%lookup_insert_Some; [done|by eapply pw_groups]. }
  destruct (contains (tp_priorities plan) p) eqn:Hc; split; cbn; try done.
  - apply Hwf.
  - eapply insert_keys; [apply Hwf|]. apply contains_spec in Hc. intros x. split; [by left|]. by intros [?| ->].
  - apply push_nodup; [apply Hwf|done].
  - eapply insert_keys; [apply Hwf|apply elem_of_snoc].
Qed.

Lemma add_entry_spec i plan p w :
  plan_wf plan →
  ∃ plan', add_entry i plan (p, w) = Ret plan' ∧ plan_wf plan' ∧ tp_no_groups plan' = tp_no_groups plan ∧
    ∀ q x, entry plan' q x =
      if decide ((q, x) = (p, w)) then Some (waiting plan p w ++ [i]) else entry plan q x.
Proof.
  intros Hwf. destruct (default_group plan p Hwf) as [Hpart Hent].
  destruct (group_push _ w i Hpart) as (g' & Hg' & Hgw & Hlk).
  unfold add_entry. rewrite Hg'. cbn [obind]. eexists. split; [done|]. split; [by apply plan_insert|split; [done|]].
  intros q x. unfold entry at 1. cbn. rewrite lookup_insert_decide. destruct (decide (q = p)) as [->|Hne]; cbn.
  - rewrite Hlk. unfold waiting. rewrite !Hent. repeat case_decide; naive_solver.
  - rewrite decide_False by naive_solver. done.
Qed.

Lemma waiting_insert plan plan' p w i q x :
  (∀ q x, entry plan' q x = if decide ((q, x) = (p, w)) then Some (waiting plan p w ++ [i]) else entry plan q x) →
  waiting plan' q x = waiting plan q x ++ (if decide ((q, x) = (p, w)) then [i] else []).
Proof.
  intros H. unfold waiting at 1. rewrite H. case_decide as Hd; [by injection Hd as -> ->|]. by rewrite app_nil_r.
Qed.

Lemma add_entries_spec i plan pws :
  plan_wf plan →
  ∃ plan', add_entries i plan pws = Ret plan' ∧ plan_wf plan' ∧ tp_no_groups plan' = tp_no_groups plan ∧
    (∀ q x j, j ∈ waiting plan' q x ↔ j ∈ waiting plan q x ∨ (j = i ∧ (q, x) ∈ pws)) ∧
    (NoDup pws → (∀ q x, NoDup (waiting plan q x)) → (∀ q x, (q, x) ∈ pws → i ∉ waiting plan q x) →
     ∀ q x, NoDup (waiting plan' q x)).
Proof.
  revert plan. induction pws as [|[p w] pws IH]; intros plan Hwf.
  { exists plan. split_and!; try done. intros q x j. rewrite elem_of_nil. tauto. }
  cbn [add_entries]. destruct (add_entry_spec i plan p w Hwf) as (plan1 & -> & Hwf1 & Hng1 & He). cbn [obind].
  destruct (IH plan1 Hwf1) as (plan' & -> & Hwf' & Hng' & Hm & Hn).
  exists plan'. split_and!; [done|done|congruence| |].
  - intros q x j. rewrite Hm, (waiting_insert plan plan1 p w i q x He), elem_of_app, elem_of_cons.
    case_decide; rewrite ?list_elem_of_singleton, ?elem_of_nil; naive_solver.
  - intros [Hnin Hnd]%NoDup_cons Hw Hi. apply Hn; [done| |].
    + intros q x. rewrite (waiting_insert plan plan1 p w i q x He). case_decide as Hd; [|by rewrite app_nil_r].
      injection Hd as -> ->. apply NoDup_app. split_and!; [done| |apply NoDup_singleton].
      intros j Hj ->%list_elem_of_singleton. eapply Hi; [by left|done].
    + intros q x Hq. rewrite (waiting_insert plan plan1 p w i q x He), elem_of_app.
      case_decide as Hd; [by injection Hd as -> ->|]. rewrite elem_of_nil. intros [Hin|[]].
      eapply Hi; [by right|done].
Qed.

(** [src] lists the pairs of priorities of every tunable. *)
Definition distinct_pairs (src : list (list (N * N))) : Prop := Forall NoDup src.

(** What a plan still holds when the tunables [tried] have been handed out. *)
Record plan_inv (src : list (list (N * N))) (tried : list nat) (plan : TunePlan) : Prop := {
  pi_wf : plan_wf plan;
  pi_free : ∀ i, i ∈ tp_no_groups plan → src !! i = Some [] ∧ i ∉ tried;
  pi_free_nodup : NoDup (tp_no_groups plan);
  pi_sound : ∀ p w i, i ∈ waiting plan p w → ∃ pws, src !! i = Some pws ∧ (p, w) ∈ pws;
  pi_free_all : ∀ i, src !! i = Some [] → i ∉ tried → i ∈ tp_no_groups plan;
  pi_all : ∀ i pws p w, src !! i = Some pws → i ∉ tried → (p, w) ∈ pws → i ∈ waiting plan p w;
  pi_distinct : distinct_pairs src →
    ∀ p w, NoDup (waiting plan p w) ∧ ∀ i, i ∈ waiting plan p w → i ∉ tried;
}.

Lemma lookup_snoc {A} (l : list A) x i y :
  (l ++ [x]) !! i = Some y ↔ l !! i = Some y ∨ (i = length l ∧ y = x).
Proof.
  rewrite lookup_app. destruct (l !! i) eqn:Hi.
  - split; [by left|]. intros [?|[-> _]]; [done|]. by rewrite lookup_ge_None_2 in Hi.
  - apply lookup_ge_None in Hi. split.
    + intros [Hz ?]%list_lookup_singleton_Some. right. split; [lia|done].
    + intros [?|[-> ->]]; [done|]. by rewrite Nat.sub_diag.
Qed.

Lemma add_tunable_inv src plan pws :
  plan_inv src [] plan →
  ∃ plan', add_tunable (length src) plan pws = Ret plan' ∧ plan_inv (src ++ [pws]) [] plan'.
Proof.
  intros Hinv. pose proof (pi_wf _ _ _ Hinv) as Hwf.
  assert (∀ p w i, i ∈ waiting plan p w → i ≠ length src) as Hold.
  { intros p w i (pws' & Hi & _)%(pi_sound _ _ _ Hinv) ->. by rewrite lookup_ge_None_2 in Hi. }
  destruct pws as [|pw pws]; cbn [add_tunable].
  - eexists. split; [done|]. split; cbn.
    + split; [apply Hwf..].
    + intros i [Hi| ->]%elem_of_snoc; (split; [|set_solver]); apply lookup_snoc; [left|by right].
      by apply (pi_free _ _ _ Hinv).
    + apply NoDup_app. split_and!; [apply Hinv| |apply NoDup_singleton].
      intros i [Hi _]%(pi_free _ _ _ Hinv) ->%list_elem_of_singleton. by rewrite lookup_ge_None_2 in Hi.
    + intros p w i (pws' & Hi & Hp)%(pi_sound _ _ _ Hinv). exists pws'. split; [|done]. apply lookup_snoc. by left.
    + intros i [Hi|[-> _]]%lookup_snoc Ht; apply elem_of_app; [left; by apply Hinv|right; set_solver].
    + intros i pws' p w [Hi|[-> ->]]%lookup_snoc Ht Hp; [by eapply Hinv|by apply elem_of_nil in Hp].
    + intros [Hd _]%Forall_app. by apply (pi_distinct _ _ _ Hinv).
  - destruct (add_entries_spec (length src) plan (pw :: pws) Hwf) as (plan' & -> & Hwf' & Hng & Hm & Hn).
    exists plan'. split; [done|]. split.
    + done.
    + rewrite Hng. intros i [Hi ?]%(pi_free _ _ _ Hinv). split; [apply lookup_snoc; by left|done].
    + rewrite Hng. apply Hinv.
    + intros p w i [Hi|[-> Hp]]%Hm.
      * apply (pi_sound _ _ _ Hinv) in Hi as (pws' & Hi & Hp). exists pws'. split; [apply lookup_snoc; by left|done].
      * exists (pw :: pws). split; [apply lookup_snoc; by right|done].
    + rewrite Hng. intros i [Hi|[_ ?]]%lookup_snoc Ht; [by apply Hinv|done].
    + intros i pws' p w [Hi|[-> ->]]%lookup_snoc Ht Hp; apply Hm; [left; by eapply Hinv|by right].
    + intros [Hd Hnd]%Forall_app p w. split; [|set_solver]. apply Hn.
      * by inversion Hnd.
      * intros q x. by apply (pi_distinct _ _ _ Hinv).
      * intros q x _ Hin. by eapply Hold.
Qed.

Lemma add_tunables_inv src rest plan :
  plan_inv src [] plan →
  ∃ plan', add_tunables (length src) plan rest = Ret plan' ∧ plan_inv (src ++ rest) [] plan'.
Proof.
  revert src plan. induction rest as [|pws rest IH]; intros src plan Hinv; cbn [add_tunables].
  { exists plan. by rewrite app_nil_r. }
  destruct (add_tunable_inv src plan pws Hinv) as (plan1 & -> & Hinv1). cbn [obind].
  destruct (IH (src ++ [pws]) plan1 Hinv1) as (plan' & Hadd & Hinv').
  rewrite length_app in Hadd. cbn in Hadd. rewrite Nat.add_1_r in Hadd. rewrite Hadd.
  exists plan'. split; [done|]. by rewrite <- app_assoc in Hinv'.
Qed.

Lemma empty_plan_inv : plan_inv [] [] (mkPlan [] [] ∅).
Proof.
  assert (∀ p w, waiting (mkPlan [] [] ∅) p w = []) as Hw.
  { intros p w. unfold waiting, entry. cbn. by rewrite lookup_empty. }
  split; cbn; try done.
  - split; cbn; [constructor| |intros p g; by rewrite lookup_empty].
    intros p. rewrite lookup_empty, elem_of_nil. split; [done|by intros [? ?]].
  - intros i Hi. by apply elem_of_nil in Hi.
  - constructor.
  - intros p w i. rewrite Hw. intros Hi. by apply elem_of_nil in Hi.
  - intros _ p w. rewrite Hw. split; [constructor|]. intros i Hi. by apply elem_of_nil in Hi.
Qed.

(** Sorting the priorities keeps the entries. *)
Definition sort_plan (plan : TunePlan) : TunePlan :=
  mkPlan (merge_sort N.le (tp_priorities plan)) (tp_no_groups plan) (sort_group <$> tp_groups plan).

Lemma sort_group_wf g : group_wf g → group_wf (sort_group g).
Proof.
  intros [H1 H2 H3 H4]. pose proof (merge_sort_Permutation N.le (gp_priorities g)) as Hp. split; cbn.
  - by rewrite Hp.
  - intros w. by rewrite Hp, H2.
  - done.
  - intros Hnil. rewrite Hnil in Hp. apply Permutation_nil in Hp. by symmetry in Hp.
Qed.

Lemma sort_plan_inv src plan : plan_inv src [] plan → plan_inv src [] (sort_plan plan) ∧ plan_sorted (sort_plan plan).
Proof.
  intros Hinv. pose proof (merge_sort_Permutation N.le (tp_priorities plan)) as Hp.
  assert (∀ p w, entry (sort_plan plan) p w = entry plan p w) as He.
  { intros p w. unfold entry, sort_plan. cbn. rewrite lookup_fmap. by destruct (tp_groups plan !! p). }
  assert (∀ p w, waiting (sort_plan plan) p w = waiting plan p w) as Hw by (intros; unfold waiting; by rewrite He).
  pose proof (pi_wf _ _ _ Hinv) as Hwf. split.
  - split; try (setoid_rewrite Hw); try apply Hinv. split; cbn.
    + rewrite Hp. apply Hwf.
    + intros p. by rewrite Hp, lookup_fmap, fmap_is_Some, (pw_keys plan Hwf).
    + intros p g. rewrite lookup_fmap. intros (g0 & Hg & ->)%fmap_Some. by eapply sort_group_wf, pw_groups.
  - split; cbn; [apply (StronglySorted_merge_sort N.le)|].
    intros p g. rewrite lookup_fmap. intros (g0 & Hg & ->)%fmap_Some. apply (StronglySorted_merge_sort N.le).
Qed.

Lemma plan_new_inv {K F} (key : K) (tunables : list (Tunable K F)) :
  ∃ plan, TunePlan_new key tunables = Ret plan ∧ plan_sorted plan ∧
    plan_inv (entry_priorities key <$> tunables) [] plan.
Proof.
  unfold TunePlan_new. destruct (add_tunables_inv [] (entry_priorities key <$> tunables) _ empty_plan_inv) as (plan & Ha & Hinv).
  change (length []) with 0%nat in Ha. rewrite Ha. cbn [obind]. exists (sort_plan plan).
  destruct (sort_plan_inv _ plan Hinv) as [H1 H2]. by split_and!.
Qed.

(** ** All the batches *)

Definition keys (plan : TunePlan) : list (N * N) :=
  map_to_list (tp_groups plan) ≫= λ '(p, g), (λ w, (p, w)) <$> gp_priorities g.

Lemma keys_elem plan p w : plan_wf plan → (p, w) ∈ keys plan ↔ is_Some (entry plan p w).
Proof.
  intros Hwf. unfold keys. rewrite list_elem_of_bind. split.
  - intros ([q g] & (x & [= <- <-] & Hx)%list_elem_of_fmap & Hg%elem_of_map_to_list).
    rewrite (entry_group plan p w g Hg). by apply (gw_keys g (pw_groups plan Hwf p g Hg)).
  - unfold entry. destruct (tp_groups plan !! p) as [g|] eqn:Hg; [|by intros [? ?]]. cbn. intros Hs.
    exists (p, g). split; [|by apply elem_of_map_to_list]. apply list_elem_of_fmap. exists w. split; [done|].
    by apply (gw_keys g (pw_groups plan Hwf p g Hg)).
Qed.
Lemma keys_nodup plan : plan_wf plan → NoDup (keys plan).
Proof.
  intros Hwf. unfold keys. apply NoDup_bind; [| |apply NoDup_map_to_list].
  - intros [q g] [q' g'] y Hq%elem_of_map_to_list Hq'%elem_of_map_to_list
      (x & -> & _)%list_elem_of_fmap (x' & [= <- <-] & _)%list_elem_of_fmap. congruence.
  - intros [q g] Hq%elem_of_map_to_list. apply NoDup_fmap_2; [by intros ? ? [= ->]|].
    by apply (pw_groups plan Hwf q g Hq).
Qed.

Lemma waiting_some plan p w i : i ∈ waiting plan p w → is_Some (entry plan p w).
Proof. unfold waiting. destruct (entry plan p w); [by eexists|]. intros Hi. by apply elem_of_nil in Hi. Qed.

(** [i] is handed out before [j]: its best pair of priorities is higher, or it
    is in no group. *)
Definition before (src : list (list (N * N))) (i j : nat) : Prop :=
  ∃ pi pj, src !! i = Some pi ∧ src !! j = Some pj ∧ pj ≠ [] ∧
    (pi = [] ∨ ∀ b, b ∈ pj → ∃ a, a ∈ pi ∧ pair_lt b a).

Lemma pair_le_lt a b : pair_le a b → a ≠ b → pair_lt a b.
Proof.
  destruct a as [x y], b as [z t]. unfold pair_le, pair_lt. cbn. intros [?|[-> ?]] Hne; [by left|right].
  split; [done|]. assert (y ≠ t) by congruence. lia.
Qed.

Section Batches.
Context {HO : HashOrder} (src : list (list (N * N))).

Definition work (plan : TunePlan) : nat := length (keys plan) + (if is_nil (tp_no_groups plan) then 0 else 1).

(** The effect of one call on the invariant. *)
Record step_ok (tried : list nat) (plan : TunePlan) (batch : list nat) (plan' : TunePlan) : Prop := {
  so_inv : plan_inv src (tried ++ batch) plan';
  so_sorted : plan_sorted plan';
  so_work : batch ≠ [] → (work plan' < work plan)%nat;
  so_last : batch = [] → keys plan = [] ∧ tp_no_groups plan = [];
  so_range : ∀ i, i ∈ batch → (i < length src)%nat;
  so_once : distinct_pairs src → NoDup batch ∧ ∀ i, i ∈ batch → i ∉ tried;
  so_before : ∀ i j, i ∈ batch → (j < length src)%nat → j ∉ tried ++ batch → before src i j;
}.

Lemma waiting_remaining plan plan' p w ns q x :
  (∀ q x, entry plan' q x = if decide ((q, x) = (p, w)) then None else remaining ns (entry plan q x)) →
  waiting plan' q x = if decide ((q, x) = (p, w)) then [] else remove_all ns (waiting plan q x).
Proof using.
  intros He. unfold waiting. rewrite He. case_decide; [done|]. unfold remaining.
  destruct (entry plan q x) as [l|]; cbn.
  - by destruct (remove_all ns l).
  - symmetry. clear He. unfold remove_all. by induction ns.
Qed.

Lemma next_inv tried plan p w ns plan' :
  plan_inv src tried plan → entry plan p w = Some ns → plan_wf plan' → tp_no_groups plan' = [] →
  (∀ q x, entry plan' q x = if decide ((q, x) = (p, w)) then None else remaining ns (entry plan q x)) →
  plan_inv src (tried ++ tp_no_groups plan ++ ns) plan'.
Proof using.
  intros Hinv Hns Hwf' Hng He. pose proof (λ q x, waiting_remaining plan plan' p w ns q x He) as Hw.
  assert (∀ q x i, i ∈ waiting plan' q x → i ∈ waiting plan q x) as Hsub.
  { intros q x i. rewrite Hw. case_decide; [set_solver|]. apply remove_all_elem. }
  assert (waiting plan p w = ns) as Hpw by (unfold waiting; by rewrite Hns).
  split; rewrite ?Hng; try done.
  - set_solver.
  - constructor.
  - intros q x i Hi%Hsub. by apply (pi_sound _ _ _ Hinv).
  - intros i Hi Ht. exfalso. apply Ht. assert (i ∈ tp_no_groups plan); [|set_solver].
    apply (pi_free_all _ _ _ Hinv); set_solver.
  - intros i pws q x Hi Ht Hq. rewrite !elem_of_app in Ht.
    assert (i ∈ waiting plan q x) as Hin by (eapply (pi_all _ _ _ Hinv); [done|tauto|done]).
    rewrite Hw. case_decide as Hd.
    + injection Hd as -> ->. exfalso. rewrite Hpw in Hin. tauto.
    + apply remove_all_other; tauto.
  - intros Hd q x. destruct (pi_distinct _ _ _ Hinv Hd q x) as [Hn Hnt].
    destruct (remove_all_nodup ns _ Hn) as [Hn1 Hn2]. split.
    + rewrite Hw. case_decide; [constructor|done].
    + intros i Hi. pose proof (Hsub q x i Hi) as Hi0. rewrite !elem_of_app. intros [Ht|[Hf|Hin]].
      * by eapply Hnt.
      * apply (pi_free _ _ _ Hinv) in Hf as [Hf _]. apply (pi_sound _ _ _ Hinv) in Hi0 as (pws & Hs & Hq).
        rewrite Hf in Hs. injection Hs as <-. by apply elem_of_nil in Hq.
      * rewrite Hw in Hi. case_decide; [by apply elem_of_nil in Hi|]. by eapply Hn2.
Qed.

Lemma keys_shrink plan plan' p w ns :
  plan_wf plan → plan_wf plan' → entry plan p w = Some ns →
  (∀ q x, entry plan' q x = if decide ((q, x) = (p, w)) then None else remaining ns (entry plan q x)) →
  (length (keys plan') < length (keys plan))%nat.
Proof using.
  intros Hwf Hwf' Hns He. enough ((p, w) :: keys plan' ⊆+ keys plan) as Hle%submseteq_length by done.
  apply NoDup_submseteq.
  - constructor; [|by apply keys_nodup]. rewrite keys_elem by done. rewrite He, decide_True by done. by intros [? ?].
  - intros [q x] [[= -> ->]|Hq]%elem_of_cons; (apply keys_elem; [done|]); [by eexists|].
    apply keys_elem in Hq; [|done]. rewrite He in Hq. case_decide; [by destruct Hq|].
    unfold remaining in Hq. destruct (entry plan q x); [by eexists|]. by destruct Hq.
Qed.

Lemma keys_nil plan : plan_wf plan → tp_priorities plan = [] → keys plan = [].
Proof using.
  intros Hwf Hnil. destruct (keys plan) as [|[p w] l] eqn:Hk; [done|].
  assert (is_Some (entry plan p w)) as Hs by (apply keys_elem; [done|]; rewrite Hk; by left).
  unfold entry in Hs. destruct (tp_groups plan !! p) as [g|] eqn:Hg; [|by destruct Hs].
  assert (p ∈ tp_priorities plan) as Hin by (apply (pw_keys plan Hwf); by rewrite Hg).
  rewrite Hnil in Hin. by apply elem_of_nil in Hin.
Qed.

Lemma next_step_groups tried plan :
  plan_inv src tried plan → plan_sorted plan → tp_priorities plan ≠ [] →
  ∃ batch plan', next plan = Ret (batch, plan') ∧ step_ok tried plan batch plan'.
Proof using.
  intros Hinv Hs Hne. pose proof (pi_wf _ _ _ Hinv) as Hwf.
  destruct (next_spec plan Hwf Hs Hne) as (p & w & ns & plan' & Hnext & Hns & Hmax & Hwf' & Hs' & Hng & He).
  exists (tp_no_groups plan ++ ns), plan'. split; [done|].
  pose proof (next_inv tried plan p w ns plan' Hinv Hns Hwf' Hng He) as Hinv'.
  assert (waiting plan p w = ns) as Hpw by (unfold waiting; by rewrite Hns).
  assert (∀ i, i ∈ ns → ∃ pws, src !! i = Some pws ∧ (p, w) ∈ pws) as Hsrc.
  { intros i Hi. apply (pi_sound _ _ _ Hinv). by rewrite Hpw. }
  split; [done|done| | | | |].
  - intros _. unfold work. rewrite Hng. pose proof (keys_shrink plan plan' p w ns Hwf Hwf' Hns He). cbn. lia.
  - intros [_ ->]%app_nil. unfold entry in Hns. destruct (tp_groups plan !! p) as [g|] eqn:Hg; [|done].
    by apply (gw_filled g (pw_groups plan Hwf p g Hg)) in Hns.
  - intros i [Hi|Hi]%elem_of_app; apply lookup_lt_is_Some.
    + apply (pi_free _ _ _ Hinv) in Hi as [-> _]. by eexists.
    + destruct (Hsrc i Hi) as (pws & -> & _). by eexists.
  - intros Hd. destruct (pi_distinct _ _ _ Hinv Hd p w) as [Hn Hnt]. rewrite Hpw in *. split.
    + apply NoDup_app. split_and!; [apply Hinv| |done]. intros i Hi Hin.
      apply (pi_free _ _ _ Hinv) in Hi as [Hi _]. destruct (Hsrc i Hin) as (pws & Hi' & Hq).
      rewrite Hi in Hi'. injection Hi' as <-. by apply elem_of_nil in Hq.
    + intros i [Hi|Hi]%elem_of_app; [by apply (pi_free _ _ _ Hinv)|by apply Hnt].
  - intros i j Hi [pj Hj]%lookup_lt_is_Some Ht. assert (∃ pi, src !! i = Some pi ∧ (pi = [] ∨ (p, w) ∈ pi)) as (pi & Hpi & Hcase).
    { apply elem_of_app in Hi as [Hi|Hi].
      - apply (pi_free _ _ _ Hinv) in Hi as [Hi _]. exists []. split; [done|by left].
      - destruct (Hsrc i Hi) as (pws & ? & ?). exists pws. split; [done|by right]. }
    exists pi, pj. split_and!; [done|done| |].
    + intros ->. apply (pi_free_all _ _ _ Hinv') in Hj; [|done]. rewrite Hng in Hj. by apply elem_of_nil in Hj.
    + destruct Hcase as [?|Hcase]; [by left|right]. intros [q x] Hb. exists (p, w). split; [done|].
      pose proof (waiting_some _ _ _ _ (pi_all _ _ _ Hinv' j pj q x Hj Ht Hb)) as Hsome.
      rewrite He in Hsome. case_decide as Hd; [by destruct Hsome|]. apply pair_le_lt; [|done]. apply Hmax.
      unfold remaining in Hsome. destruct (entry plan q x); [by eexists|by destruct Hsome].
Qed.

Lemma next_step tried plan :
  plan_inv src tried plan → plan_sorted plan →
  ∃ batch plan', next plan = Ret (batch, plan') ∧ step_ok tried plan batch plan'.
Proof using.
  intros Hinv Hs. pose proof (pi_wf _ _ _ Hinv) as Hwf.
  destruct (tp_priorities plan) as [|p0 ps] eqn:Hps; [|apply next_step_groups; congruence].
  pose proof (keys_nil plan Hwf Hps) as Hk.
  assert (∀ p w, entry plan p w = None) as Hent.
  { intros p w. apply eq_None_not_Some. rewrite <- keys_elem, Hk by done. apply not_elem_of_nil. }
  set (plan' := mkPlan (tp_priorities plan) [] (tp_groups plan)).
  exists (tp_no_groups plan), plan'. split; [unfold plan', next; cbn; by rewrite !Hps|].
  assert (∀ p w, waiting plan' p w = []) as Hw by (intros p w; change (waiting plan p w = []); unfold waiting; by rewrite Hent).
  assert (∀ i pws p w, src !! i = Some pws → i ∉ tried → (p, w) ∉ pws) as Hno.
  { intros i pws p w Hi Ht Hq. pose proof (pi_all _ _ _ Hinv i pws p w Hi Ht Hq) as Hin.
    unfold waiting in Hin. rewrite Hent in Hin. by apply elem_of_nil in Hin. }
  split.
  - split; cbn; try (setoid_rewrite Hw); try set_solver; [split; apply Hwf|constructor| |].
    + intros i Hi Ht. exfalso. apply Ht. assert (i ∈ tp_no_groups plan); [|set_solver].
      apply (pi_free_all _ _ _ Hinv); set_solver.
    + intros _ p w. split; [constructor|set_solver].
  - split; cbn; apply Hs.
  - intros Hb. unfold work. change (keys plan') with (keys plan). rewrite Hk.
    destruct (tp_no_groups plan); [done|]. cbn. lia.
  - done.
  - intros i Hi. apply lookup_lt_is_Some. apply (pi_free _ _ _ Hinv) in Hi as [-> _]. by eexists.
  - intros _. split; [apply Hinv|]. intros i Hi. by apply (pi_free _ _ _ Hinv).
  - intros i j Hi [pj Hj]%lookup_lt_is_Some Ht. exfalso. apply Ht, elem_of_app. right.
    apply (pi_free_all _ _ _ Hinv); [|set_solver]. destruct pj as [|[p w] pj]; [done|].
    exfalso. eapply Hno; [done|set_solver|by left].
Qed.

(** The batches of a whole run, given what was tried before. *)
Record run_ok (tried : list nat) (bs : list (list nat)) : Prop := {
  ro_range : ∀ i, i ∈ concat bs → (i < length src)%nat;
  ro_all : ∀ i, (i < length src)%nat → i ∈ tried ∨ i ∈ concat bs;
  ro_filled : Forall (λ b, b ≠ []) bs;
  ro_once : distinct_pairs src → NoDup (concat bs) ∧ ∀ i, i ∈ concat bs → i ∉ tried;
  ro_sorted : distinct_pairs src →
    StronglySorted (λ b1 b2, ∀ i j, i ∈ b1 → j ∈ b2 → before src i j) bs;
}.

Lemma run_ok_cons tried plan batch plan' bs :
  step_ok tried plan batch plan' → batch ≠ [] → run_ok (tried ++ batch) bs → run_ok tried (batch :: bs).
Proof using.
  intros Hst Hne [R1 R2 R3 R4 R5]. split; cbn.
  - intros i [Hi|Hi]%elem_of_app; [by apply (so_range _ _ _ _ Hst)|by apply R1].
  - intros i Hi. destruct (R2 i Hi) as [[?|?]%elem_of_app|?]; rewrite elem_of_app; tauto.
  - by constructor.
  - intros Hd. destruct (so_once _ _ _ _ Hst Hd) as [Hn Hnt], (R4 Hd) as [Hn' Hnt']. split.
    + apply NoDup_app. split_and!; [done| |done]. intros i Hi Hin. apply (Hnt' i Hin), elem_of_app. by right.
    + intros i [Hi|Hi]%elem_of_app; [by apply Hnt|]. intros Ht. apply (Hnt' i Hi), elem_of_app. by left.
  - intros Hd. constructor; [by apply R5|]. apply Forall_forall. intros b Hb i j Hi Hj.
    assert (j ∈ concat bs) as Hjc by (apply elem_of_concat; by exists b).
    apply (so_before _ _ _ _ Hst); [done|by apply R1|]. by apply R4.
Qed.

Lemma run_ok_nil tried plan : plan_inv src tried plan → keys plan = [] → tp_no_groups plan = [] → run_ok tried [].
Proof using.
  intros Hinv Hk Hng. assert (∀ i, (i < length src)%nat → i ∈ tried) as Hall.
  { intros i [pws Hi]%lookup_lt_is_Some. destruct (decide (i ∈ tried)) as [?|Ht]; [done|exfalso].
    destruct pws as [|[p w] pws].
    - pose proof (pi_free_all _ _ _ Hinv i Hi Ht) as Hin. rewrite Hng in Hin. by apply elem_of_nil in Hin.
    - assert (i ∈ waiting plan p w) as Hin by (eapply Hinv; [done|done|by left]).
      apply waiting_some, keys_elem in Hin; [|apply Hinv]. rewrite Hk in Hin. by apply elem_of_nil in Hin. }
  split; cbn; [set_solver|by left; apply Hall|constructor|intros _; split; [constructor|set_solver]|constructor].
Qed.

Lemma batches_S fuel plan :
  batches (S fuel) plan =
    let? '(batch, plan) := next plan in
    if is_nil batch then Ret [] else let? rest := batches fuel plan in Ret (batch :: rest).
Proof using. done. Qed.

Lemma batches_run n tried plan :
  plan_inv src tried plan → plan_sorted plan → (work plan ≤ n)%nat →
  ∃ bs, batches (S n) plan = Ret bs ∧ run_ok tried bs.
Proof using.
  revert tried plan. induction n as [|n IH]; intros tried plan Hinv Hs Hw;
    destruct (next_step tried plan Hinv Hs) as (batch & plan' & Hnext & Hst);
    rewrite batches_S;
    rewrite Hnext; cbn [obind]; (destruct (is_nil batch) eqn:Hb;
      [apply is_nil_spec in Hb; exists []; split; [done|]; apply (run_ok_nil tried plan Hinv); by apply (so_last _ _ _ _ Hst)|]);
    (assert (batch ≠ []) as Hne by (by intros ->)); pose proof (so_work _ _ _ _ Hst Hne); [lia|].
  destruct (IH (tried ++ batch) plan') as (bs & Hbs & Hrun); [apply Hst|apply Hst|lia|].
  rewrite Hbs. exists (batch :: bs). split; [done|]. by eapply run_ok_cons.
Qed.

(** From a new plan to all its batches. *)
Lemma plan_run plan :
  plan_sorted plan → plan_inv src [] plan →
  ∃ bs, batches (length (concat src) + 2) plan = Ret bs ∧ run_ok [] bs.
Proof using.
  intros Hs Hinv. replace (length (concat src) + 2)%nat with (S (length (concat src) + 1)) by lia.
  apply (batches_run _ [] plan Hinv Hs). unfold work.
  assert (length (keys plan) ≤ length (concat src))%nat; [|destruct (is_nil _); lia].
  apply submseteq_length, NoDup_submseteq; [apply keys_nodup, Hinv|]. intros [p w] Hk.
  apply keys_elem in Hk as [l Hl]; [|apply Hinv]. destruct l as [|i l].
  - exfalso. unfold entry in Hl. destruct (tp_groups plan !! p) as [g|] eqn:Hg; [|done].
    by apply (gw_filled g (pw_groups plan (pi_wf _ _ _ Hinv) p g Hg)) in Hl.
  - destruct (pi_sound _ _ _ Hinv p w i) as (pws & Hi & Hp).
    { unfold waiting. rewrite Hl. by left. }
    apply elem_of_concat. exists pws. split; [by eapply list_elem_of_lookup_2|done].
Qed.
End Batches.


(** The plan respects the priorities: when no tunable is twice in a group
    with the same two priorities, every tunable is handed out exactly once,
    and a tunable is handed out in an earlier batch than another only if it is
    in no group or its best pair (group priority first, then the priority
    within the group) is strictly higher. *)
Theorem plan_by_priority {HO : HashOrder} {K F : Type} (key : K) (tunables : list (Tunable K F)) :
  distinct_pairs (entry_priorities key <$> tunables) →
  ∃ plan bs, TunePlan_new key tunables = Ret plan ∧
    batches (length (concat (entry_priorities key <$> tunables)) + 2) plan = Ret bs ∧
    concat bs ≡ₚ seq 0 (length tunables) ∧
    StronglySorted (λ b1 b2, ∀ i j, i ∈ b1 → j ∈ b2 → before (entry_priorities key <$> tunables) i j) bs.
Proof.
  intros Hd. destruct (plan_new_inv key tunables) as (plan & Hnew & Hs & Hinv).
  destruct (plan_run _ plan Hs Hinv) as (bs & Hbs & [R1 R2 R3 R4 R5]). rewrite length_fmap in *.
  exists plan, bs. split_and!; try done; [|by apply R5].
  apply NoDup_Permutation; [by apply R4|apply NoDup_seq|]. intros i. rewrite elem_of_seq. split.
  - intros Hi%R1. lia.
  - intros [_ Hi]. destruct (R2 i) as [Hn|]; [lia|by apply elem_of_nil in Hn|done].
Qed.

Module PlanDemo.
Definition group (p : N) : TuneGroup unit := mkGroup 0 (λ _, p).
Definition tunables : list (Tunable unit unit) :=
  [Tunable_new tt; Tunable_group (Tunable_group (Tunable_new tt) (group 1) (λ _, 1)) (group 2) (λ _, 2);
   Tunable_group (Tunable_new tt) (group 1) (λ _, 2)].

Lemma plan_by_priority_witness :
  ∃ plan bs, TunePlan_new tt tunables = Ret plan ∧ batches 5 plan = Ret bs ∧ concat bs ≡ₚ seq 0 3 ∧
    StronglySorted (λ b1 b2, ∀ i j, i ∈ b1 → j ∈ b2 → before (entry_priorities tt <$> tunables) i j) bs.
Proof.
  apply (plan_by_priority tt tunables).
  repeat (apply Forall_cons; split); [..|by apply Forall_nil]; apply (bool_decide_unpack _); vm_compute; exact I.
Defined.
End PlanDemo.
