(* ===== verification/TuneSelect.v ===== *)
(** * Benchmarking the tunables and selecting the fastest

    Model of [crates/cubecl-runtime/src/tune/tune_benchmark.rs], of the part of
    [tuner.rs] that runs a plan ([execute_tune_plan], [process_autotune],
    [generate_tune_message], [prepare_autotune]), of [TunableSet] of
    [operation.rs], and of the statistics of
    [crates/cubecl-common/src/benchmark.rs].

    What the device does is a parameter: for every tunable the result of its
    execution and of the profiling, for the warmup and for every sample.  A
    [Duration] is its number of nanoseconds; the variance, which is computed
    with floating-point numbers and not used for the selection, is a
    parameter.

    The proofs: benchmarks of a device that behaves do not
    panic, the plan is run up to the first batch with a success, and the
    fastest index of the message has the least median of that batch. *)

From stdpp Require Import sorting.
From S2P Require Import Prelude TunePlan.

Open Scope N_scope.
Open Scope rust_scope.

Inductive Result (A E : Type) : Type :=
| Ok (a : A)
| Err (e : E).
Arguments Ok {A E} _.
Arguments Err {A E} _.

Abbreviation Duration := N.
Definition Duration_MAX : Duration := u64_max * 1000000000 + 999999999.

Inductive AutotuneError := Unknown (msg : string) | InvalidSamples | Skip.
Inductive TimingMethod := TSystem | TDevice.

(** ** Statistics *)

Record BenchmarkComputations := mkComputations {
  bc_mean : Duration;
  bc_median : Duration;
  bc_variance : Duration;
  bc_min : Duration;
  bc_max : Duration;
}.

Definition unwrap {A} (o : option A) : outcome A := expect o "called `Option::unwrap()` on a `None` value".

Definition min_max_median_durations (durations : list Duration) : outcome (Duration * Duration * Duration) :=
  let sorted := merge_sort N.le durations in
  let? min := unwrap (head sorted) in
  let? max := unwrap (last sorted) in
  let? median := unwrap (sorted !! (length sorted / 2)%nat) in
  Ret (min, max, median).

Fixpoint sum_durations (acc : Duration) (l : list Duration) : outcome Duration :=
  match l with
  | [] => Ret acc
  | d :: l =>
      if acc + d <=? Duration_MAX then sum_durations (acc + d) l
      else Panic "overflow in iter::sum over durations"
  end.

Definition mean_duration (durations : list Duration) : outcome Duration :=
  let? sum := sum_durations 0 durations in
  let len := N.of_nat (length durations) mod 4294967296 in
  if len =? 0 then Panic "divide by zero error when dividing duration by scalar" else Ret (sum / len).

(** ** Benchmarks *)

(** One profiled execution: what the operation returns and what the profiler
    measures. *)
Record Run := mkRun { run_exec : Result unit AutotuneError; run_prof : Result Duration string }.

(** What the device does when a tunable is benchmarked. *)
Record Device := mkDevice {
  dv_timing : TimingMethod;
  dv_warmup : nat → Run;
  dv_sample : nat → nat → Run;
  dv_variance : list Duration → Duration → Duration;
}.

Definition BenchmarkComputations_new (dev : Device) (durations : list Duration) : outcome BenchmarkComputations :=
  let? mean := mean_duration durations in
  let? '(min, max, median) := min_max_median_durations durations in
  Ret (mkComputations mean median (dv_variance dev durations mean) min max).

Definition warmup_full_error_handling (r : Run) : Result unit AutotuneError :=
  match run_prof r with
  | Err err => Err (Unknown err)
  | Ok _ => match run_exec r with Err err => Err err | Ok _ => Ok tt end
  end.
Definition warmup_minimal_error_handling (r : Run) : Result unit AutotuneError := run_exec r.

(** The loop over the samples: an execution that fails now is a panic, a
    failed measurement is skipped. *)
Fixpoint sample_durations (runs : list Run) : outcome (list Duration) :=
  match runs with
  | [] => Ret []
  | r :: runs =>
      match run_exec r with
      | Err _ => Panic "Should not fail when previously tried during the warmup."
      | Ok _ =>
          let? rest := sample_durations runs in
          Ret (match run_prof r with Ok v => v :: rest | Err _ => rest end)
      end
  end.

Definition TuneBenchmark_profile (dev : Device) (index : nat) : outcome (Result (list Duration) AutotuneError) :=
  match
    match dv_timing dev with
    | TSystem => warmup_full_error_handling (dv_warmup dev index)
    | TDevice => warmup_minimal_error_handling (dv_warmup dev index)
    end
  with
  | Err err => Ret (Err err)
  | Ok _ =>
      let? durations := sample_durations (dv_sample dev index <$> seq 0 10) in
      Ret (match durations with [] => Err InvalidSamples | _ => Ok durations end)
  end.

(** ** Running a plan *)

Record AutotuneOutcome := mkOutcome {
  ao_name : string;
  ao_index : nat;
  ao_computation : BenchmarkComputations;
}.
Definition TuneResult : Type := Result AutotuneOutcome AutotuneError.

Definition process_autotune (dev : Device) (name : string) (index : nat) (profiles : list Duration) : outcome TuneResult :=
  match profiles with
  | [] => Ret (Err (Unknown ("Runtime error while profiling " ++ name ++ ".")))
  | _ =>
      let? computation := BenchmarkComputations_new dev profiles in
      Ret (Ok (mkOutcome name index computation))
  end.

(** One tunable: its benchmark and the statistics. *)
Definition autotune_one (dev : Device) (name : string) (index : nat) : outcome TuneResult :=
  let? profiles := TuneBenchmark_profile dev index in
  match profiles with
  | Ok profiles => process_autotune dev name index profiles
  | Err err => Ret (Err err)
  end.

(** [results[index] = value]. *)
Definition set_result (results : list TuneResult) (index : nat) (value : TuneResult) : outcome (list TuneResult) :=
  if (index <? length results)%nat then Ret (<[index := value]> results)
  else Panic "index out of bounds".

Fixpoint run_batch (dev : Device) (names : list string) (results : list TuneResult) (num_autotuned : nat)
    (indices : list nat) : outcome (list TuneResult * nat) :=
  match indices with
  | [] => Ret (results, num_autotuned)
  | index :: indices =>
      let? name := expect (names !! index) "index out of bounds" in
      let? result := autotune_one dev name index in
      let? results := set_result results index result in
      run_batch dev names results (match result with Ok _ => S num_autotuned | Err _ => num_autotuned end) indices
  end.

Definition no_valid_autotune : string := "No autotune was flagged as valid for the problem.".

Section Plan.
Context {HO : HashOrder}.

Fixpoint execute_tune_plan (fuel : nat) (dev : Device) (plan : TunePlan) (names : list string)
    (results : list TuneResult) : outcome (list TuneResult) :=
  match fuel with
  | O => OutOfFuel
  | S fuel =>
      let? '(tunable_indices, plan) := next plan in
      if is_nil tunable_indices then Panic no_valid_autotune
      else
        let? '(results, num_autotuned) := run_batch dev names results 0 tunable_indices in
        if (0 <? num_autotuned)%nat then Ret results else execute_tune_plan fuel dev plan names results
  end.
End Plan.

(** The key of the sort. *)
Definition median_or_max (r : TuneResult) : Duration :=
  match r with Ok o => bc_median (ao_computation o) | Err _ => Duration_MAX end.

Inductive AutotuneMessage (K : Type) :=
| MDone (key : K) (fastest_index : nat) (results : list TuneResult) (checksum : string)
| MPending (key : K).
Arguments MDone {K} _ _ _ _.
Arguments MPending {K} _.

(** The set of tunables; their functions are represented by their names. *)
Record TunableSet (K : Type) := mkSet { ts_tunables : list (Tunable K string); ts_checksum : list string → string }.
Arguments mkSet {K} _ _.
Arguments ts_tunables {K} _.
Arguments ts_checksum {K} _ _.

Definition autotunables {K} (s : TunableSet K) : list string := tn_function <$> ts_tunables s.
Definition TunableSet_with {K} (s : TunableSet K) (t : Tunable K string) : TunableSet K :=
  mkSet (ts_tunables s ++ [t]) (ts_checksum s).
Definition TunableSet_plan {K} (key : K) (s : TunableSet K) : outcome TunePlan := TunePlan_new key (ts_tunables s).
Definition TunableSet_fastest {K} (s : TunableSet K) (fastest_index : nat) : outcome string :=
  let? t := expect (ts_tunables s !! fastest_index) "index out of bounds" in Ret (tn_function t).
Definition compute_checksum {K} (s : TunableSet K) : string := ts_checksum s (autotunables s).

Section Message.
Context {HO : HashOrder} {K : Type}.

Definition generate_tune_message (fuel : nat) (dev : Device) (key : K) (plan : TunePlan) (names : list string)
    (results : list TuneResult) (checksum : string) : outcome (AutotuneMessage K) :=
  let? results := execute_tune_plan fuel dev plan names results in
  let results := sort_by median_or_max results in
  let? first := expect (head results) "At least one kernel needed." in
  match first with
  | Ok result => Ret (MDone key (ao_index result) results checksum)
  | Err _ => Panic "At least one kernel has to succeed."
  end.

(** The number of calls of [next] is bounded by the number of groups of all
    the tunables. *)
Definition plan_fuel (key : K) (s : TunableSet K) : nat :=
  length (concat (entry_priorities key <$> ts_tunables s)) + 2.

(** The job that [prepare_autotune] returns, on a target that can block. *)
Definition prepare_autotune (dev : Device) (key : K) (s : TunableSet K) : outcome (AutotuneMessage K) :=
  let names := autotunables s in
  let results := replicate (length names) (Err Skip) in
  if (length names =? 1)%nat then Ret (MDone key 0 results (compute_checksum s))
  else
    let? plan := TunableSet_plan key s in
    generate_tune_message (plan_fuel key s) dev key plan names results (compute_checksum s).
End Message.

(** ** Benchmarks do not panic *)

(** A device on which an operation that passes the warmup runs, and whose
    samples are short enough for their sum to be a duration. *)
Record device_ok (dev : Device) (i : nat) : Prop := {
  do_runs : ∀ k, (k < 10)%nat → run_exec (dv_warmup dev i) = Ok tt → run_exec (dv_sample dev i k) = Ok tt;
  do_short : ∀ k d, (k < 10)%nat → run_prof (dv_sample dev i k) = Ok d → 10 * d < Duration_MAX;
}.

Definition prof_values (runs : list Run) : list Duration :=
  runs ≫= λ r, match run_prof r with Ok v => [v] | Err _ => [] end.

Lemma sample_durations_ok runs :
  Forall (λ r, run_exec r = Ok tt) runs → sample_durations runs = Ret (prof_values runs).
Proof.
  induction 1 as [|r runs Hr Hall IH]; [done|]. simpl. rewrite Hr, IH. simpl. by destruct (run_prof r).
Qed.

Lemma prof_values_length runs : (length (prof_values runs) ≤ length runs)%nat.
Proof.
  unfold prof_values. induction runs as [|r runs IH]; [done|]. rewrite bind_cons, length_app. cbn [length].
  destruct (run_prof r); cbn [length]; lia.
Qed.

Lemma sum_durations_ok b acc l :
  Forall (λ d, d ≤ b) l → acc + b * N.of_nat (length l) ≤ Duration_MAX → ∃ s, sum_durations acc l = Ret s.
Proof.
  intros Hl. revert acc. induction Hl as [|d l Hd Hl IH]; intros acc Hb; cbn [sum_durations length] in *; [by eexists|].
  rewrite Nat2N.inj_succ, N.mul_succ_r in Hb. assert (acc + d ≤ Duration_MAX) as Ha by lia.
  apply N.leb_le in Ha. rewrite Ha. apply IH. lia.
Qed.

Lemma mean_duration_ok l :
  l ≠ [] → (length l ≤ 10)%nat → Forall (λ d, 10 * d < Duration_MAX) l → ∃ m, mean_duration l = Ret m.
Proof.
  intros Hne Hlen Hl. unfold mean_duration.
  destruct (sum_durations_ok (Duration_MAX / 10) 0 l) as [s ->].
  - eapply Forall_impl; [done|]. intros d Hd. simpl in Hd. apply N.div_le_lower_bound; lia.
  - assert (Duration_MAX / 10 * N.of_nat (length l) ≤ Duration_MAX / 10 * 10) by (apply N.mul_le_mono_l; lia).
    etrans; [|apply (N.Div0.mul_div_le Duration_MAX 10)]. rewrite N.add_0_l, (N.mul_comm 10). done.
  - cbn [obind]. assert (N.of_nat (length l) mod 4294967296 = N.of_nat (length l)) as -> by (apply N.mod_small; lia).
    destruct l; [done|]. by eexists.
Qed.

Lemma median_ok l :
  l ≠ [] → ∃ mn mx md, min_max_median_durations l = Ret (mn, mx, md) ∧ md ∈ l.
Proof.
  intros Hne. unfold min_max_median_durations, unwrap. pose proof (merge_sort_Permutation N.le l) as Hp.
  assert (merge_sort N.le l ≠ []) as Hs.
  { intros Hn. rewrite Hn in Hp. apply Permutation_nil in Hp. by subst. }
  destruct (merge_sort N.le l) as [|x s] eqn:Hms; [done|].
  destruct (last (x :: s)) as [y|] eqn:Hl; [|by apply last_None in Hl].
  destruct (lookup_lt_is_Some_2 (x :: s) (length (x :: s) / 2)) as [md Hmd].
  { apply Nat.div_lt; [simpl; lia|lia]. }
  cbn [expect head obind]. rewrite Hmd. cbn [expect obind]. do 3 eexists. split; [done|].
  rewrite <- Hp. by eapply list_elem_of_lookup_2.
Qed.

(** What a benchmark returns, when it does. *)
Definition result_ok (i : nat) (r : TuneResult) : Prop :=
  ∀ o, r = Ok o → ao_index o = i ∧ bc_median (ao_computation o) < Duration_MAX.

Lemma process_ok dev name i l :
  (length l ≤ 10)%nat → Forall (λ d, 10 * d < Duration_MAX) l →
  ∃ r, process_autotune dev name i l = Ret r ∧ result_ok i r.
Proof.
  intros Hlen Hl. destruct (decide (l = [])) as [->|Hne]; [by eexists|].
  assert (process_autotune dev name i l =
    let? computation := BenchmarkComputations_new dev l in Ret (Ok (mkOutcome name i computation))) as -> by (by destruct l).
  unfold BenchmarkComputations_new. destruct (mean_duration_ok l Hne Hlen Hl) as [m ->].
  destruct (median_ok l Hne) as (mn & mx & md & -> & Hmd). cbn [obind].
  eexists. split; [done|]. intros o [= <-]. cbn. split; [done|].
  rewrite Forall_forall in Hl. specialize (Hl md Hmd). simpl in Hl. lia.
Qed.

Lemma autotune_one_ok dev name i :
  device_ok dev i → ∃ r, autotune_one dev name i = Ret r ∧ result_ok i r.
Proof.
  intros [Hrun Hshort]. unfold autotune_one, TuneBenchmark_profile.
  assert (∀ e, ∃ r, Ret (Err e : TuneResult) = Ret r ∧ result_ok i r) as Herr by (intros e; by eexists).
  destruct (match dv_timing dev with TSystem => _ | TDevice => _ end) as [[]|e] eqn:Hw; [|by apply Herr].
  assert (run_exec (dv_warmup dev i) = Ok tt) as Hexec.
  { unfold warmup_full_error_handling, warmup_minimal_error_handling in Hw. destruct (dv_timing dev); [|done].
    destruct (run_prof _); [|done]. by destruct (run_exec _) as [[]|]. }
  assert (Forall (λ r, run_exec r = Ok tt) (dv_sample dev i <$> seq 0 10)) as Hruns.
  { apply Forall_fmap, Forall_forall. intros k Hk%elem_of_seq. apply Hrun; [lia|done]. }
  rewrite (sample_durations_ok _ Hruns). cbn [obind].
  assert (Forall (λ d, 10 * d < Duration_MAX) (prof_values (dv_sample dev i <$> seq 0 10))) as Hd.
  { apply Forall_forall. intros d (r & Hr & (k & -> & Hk)%list_elem_of_fmap)%list_elem_of_bind.
    apply elem_of_seq in Hk. destruct (run_prof (dv_sample dev i k)) as [v|] eqn:Hp; [|by apply elem_of_nil in Hr].
    apply list_elem_of_singleton in Hr as ->. apply (Hshort k); [lia|done]. }
  pose proof (prof_values_length (dv_sample dev i <$> seq 0 10)) as Hlen. rewrite length_fmap, length_seq in Hlen.
  destruct (prof_values _) as [|v l] eqn:Hv; [apply Herr|]. by apply process_ok.
Qed.

(** ** Running the batches *)

Definition is_ok (r : TuneResult) : bool := match r with Ok _ => true | Err _ => false end.

(** [rs] lists what the benchmarks of the tunables return. *)
Definition measured (dev : Device) (names : list string) (rs : list TuneResult) : Prop :=
  length rs = length names ∧
  ∀ i name, names !! i = Some name → ∃ r, rs !! i = Some r ∧ autotune_one dev name i = Ret r ∧ result_ok i r.

Lemma measured_exists dev names :
  (∀ i, (i < length names)%nat → device_ok dev i) → ∃ rs, measured dev names rs.
Proof.
  induction names as [|name names IH] using rev_ind; intros Hdev.
  { exists []. split; [done|]. intros i name Hi. by rewrite lookup_nil in Hi. }
  destruct IH as (rs & Hlen & Hrs).
  { intros i Hi. apply Hdev. rewrite length_app. lia. }
  destruct (autotune_one_ok dev name (length names)) as (r & Hr & Hok).
  { apply Hdev. rewrite length_app. simpl. lia. }
  exists (rs ++ [r]). split; [rewrite !length_app; simpl; lia|]. intros i n [Hi|[-> ->]]%lookup_snoc.
  - destruct (Hrs i n Hi) as (r' & ? & ? & ?). exists r'. split; [apply lookup_snoc; by left|done].
  - exists r. split; [apply lookup_snoc; right; by rewrite Hlen|done].
Qed.

Section Run.
Context (dev : Device) (names : list string) (rs : list TuneResult) (Hrs : measured dev names rs).

Lemma run_batch_spec results n b :
  length results = length names → (∀ i, i ∈ b → (i < length names)%nat) →
  ∃ results' n', run_batch dev names results n b = Ret (results', n') ∧ length results' = length names ∧
    (∀ i, results' !! i = if decide (i ∈ b) then rs !! i else results !! i) ∧
    (n ≤ n')%nat ∧ ((n < n')%nat ↔ ∃ i r, i ∈ b ∧ rs !! i = Some r ∧ is_ok r = true).
Proof using Hrs.
  revert results n. induction b as [|i b IH]; intros results n Hlen Hb; cbn [run_batch].
  { exists results, n. split_and!; [done|done|intros i; by rewrite decide_False by apply not_elem_of_nil|done|].
    split; [lia|]. intros (i & r & Hi & _). by apply elem_of_nil in Hi. }
  destruct (lookup_lt_is_Some_2 names i) as [name Hname]; [apply Hb; by left|].
  destruct (proj2 Hrs i name Hname) as (r & Hr & Hone & _). rewrite Hname. cbn [expect obind]. rewrite Hone. cbn [obind].
  unfold set_result. rewrite (proj2 (Nat.ltb_lt _ _)) by (rewrite Hlen; apply Hb; by left). cbn [obind].
  edestruct (IH (<[i := r]> results)) as (results' & n' & Hrun & Hlen' & Hlk & Hle & Hcnt);
    [by rewrite length_insert|intros j Hj; apply Hb; by right|].
  rewrite Hrun. exists results', n'. split_and!; [done|done| |destruct r; lia|].
  - intros j. rewrite Hlk. destruct (decide (j ∈ b)) as [Hj|Hj].
    + by rewrite decide_True by (by right).
    + destruct (decide (j = i)) as [->|Hne].
      * rewrite decide_True by (by left). rewrite list_lookup_insert_eq by (rewrite Hlen; apply Hb; by left). by rewrite Hr.
      * rewrite decide_False by set_solver. by rewrite list_lookup_insert_ne.
  - split.
    + intros Hlt. destruct r as [o|e].
      * exists i, (Ok o). split; [by left|done].
      * destruct (proj1 Hcnt Hlt) as (j & r' & Hj & ?). exists j, r'. split; [by right|done].
    + intros (j & r' & [->|Hj]%elem_of_cons & Hr' & Hok).
      * rewrite Hr in Hr'. injection Hr' as <-. destruct r; [lia|done].
      * destruct r; [lia|]. apply Hcnt. by exists j, r'.
Qed.

Context {HO : HashOrder}.

(** The first batch with a success. *)
Definition all_failed (b : list nat) : Prop := ∀ i r, i ∈ b → rs !! i = Some r → is_ok r = false.

Lemma run_plan fuel plan bs results :
  batches fuel plan = Ret bs → (∀ i, i ∈ concat bs → (i < length names)%nat) →
  length results = length names → (∀ i r, results !! i = Some r → is_ok r = false) →
  (execute_tune_plan fuel dev plan names results = Panic no_valid_autotune ∧ Forall all_failed bs) ∨
  (∃ bs1 b bs2 results', execute_tune_plan fuel dev plan names results = Ret results' ∧
     bs = bs1 ++ b :: bs2 ∧ Forall all_failed bs1 ∧ length results' = length names ∧
     (∃ i r, i ∈ b ∧ rs !! i = Some r ∧ is_ok r = true) ∧
     (∀ i r, i ∈ b → rs !! i = Some r → results' !! i = Some r) ∧
     (∀ i r, results' !! i = Some r → is_ok r = true → i ∈ b ∧ rs !! i = Some r)).
Proof using Hrs.
  revert plan bs results. induction fuel as [|fuel IH]; intros plan bs results Hbs Hin Hlen Hres; [done|].
  cbn [batches execute_tune_plan] in *. destruct (next plan) as [[b plan']| |] eqn:Hnext; [|done|done].
  cbn [obind] in *. destruct (is_nil b) eqn:Hnil.
  { injection Hbs as <-. left. split; [done|constructor]. }
  apply obind_ret in Hbs as (rest & Hrest & [= <-]). simpl in Hin.
  destruct (run_batch_spec results 0 b Hlen) as (results' & n' & Hrun & Hlen' & Hlk & _ & Hcnt).
  { intros i Hi. apply Hin, elem_of_app. by left. }
  rewrite Hrun. cbn [obind]. destruct (Nat.ltb_spec 0 n') as [Hpos|Hzero].
  - right. exists [], b, rest, results'. split_and!; try done; [by apply Hcnt| |].
    + intros i r Hi Hr. by rewrite Hlk, decide_True.
    + intros i r. rewrite Hlk. case_decide; [done|]. intros Hr Hok. rewrite (Hres i r Hr) in Hok. done.
  - assert (all_failed b) as Hfail.
    { intros i r Hi Hr. destruct (is_ok r) eqn:Hok; [|done]. exfalso. assert (0 < n')%nat; [|lia].
      apply Hcnt. by exists i, r. }
    edestruct (IH plan' rest results' Hrest) as [[He Hall]|(bs1 & b' & bs2 & res & He & -> & Hall & Hmore)].
    + intros i Hi. apply Hin, elem_of_app. by right.
    + done.
    + intros i r. rewrite Hlk. case_decide as Hd; [by apply Hfail|by apply Hres].
    + left. split; [done|]. by constructor.
    + right. exists (b :: bs1), b', bs2, res. split_and!; try done; [by constructor|apply Hmore..].
Qed.
End Run.

Lemma measured_result dev names rs i r : measured dev names rs → rs !! i = Some r → result_ok i r.
Proof.
  intros [Hlen Hrs] Hi. assert (i < length rs)%nat as Hlt by (by eapply lookup_lt_Some). rewrite Hlen in Hlt.
  destruct (lookup_lt_is_Some_2 _ _ Hlt) as [name Hname].
  destruct (Hrs i name Hname) as (r' & Hr' & _ & Hres). rewrite Hi in Hr'. by injection Hr' as <-.
Qed.

(** The message made from the results of a run. *)
Lemma fastest_of_results results i o :
  results !! i = Some (Ok o) → bc_median (ao_computation o) < Duration_MAX →
  ∃ o', head (sort_by median_or_max results) = Some (Ok o') ∧ Ok o' ∈ results ∧
    ∀ r, r ∈ results → bc_median (ao_computation o') ≤ median_or_max r.
Proof.
  intros Hi Hlt. assert (Ok o ∈ results) as Hin by (by eapply list_elem_of_lookup_2).
  destruct (sort_by_head_some median_or_max results) as [r Hr]; [intros ->; by apply elem_of_nil in Hin|].
  destruct (sort_by_head _ _ _ Hr) as [Hrin Hmin]. destruct r as [o'|e].
  - by exists o'.
  - specialize (Hmin _ Hin). simpl in Hmin. lia.
Qed.

(** C29. Autotuning selects a fastest tunable: on a device that runs whatever
    passes its warmup, the job of [prepare_autotune] (with more than one
    tunable) panics exactly with "no autotune was flagged as valid" when every
    benchmark fails, and otherwise sends the index of a tunable of the first
    batch with a success, whose median is the least of that batch; all
    benchmarks of the earlier batches failed. *)
Theorem tuner_selects_fastest {HO : HashOrder} {K : Type} (dev : Device) (key : K) (s : TunableSet K) :
  length (ts_tunables s) ≠ 1%nat → (∀ i, (i < length (ts_tunables s))%nat → device_ok dev i) →
  ∃ rs plan bs, measured dev (autotunables s) rs ∧ TunableSet_plan key s = Ret plan ∧
    batches (plan_fuel key s) plan = Ret bs ∧
    ((prepare_autotune dev key s = Panic no_valid_autotune ∧ ∀ r, r ∈ rs → is_ok r = false) ∨
     (∃ bs1 b bs2 f o results, bs = bs1 ++ b :: bs2 ∧ Forall (all_failed rs) bs1 ∧
        prepare_autotune dev key s = Ret (MDone key f results (compute_checksum s)) ∧
        f ∈ b ∧ rs !! f = Some (Ok o) ∧
        ∀ j oj, j ∈ b → rs !! j = Some (Ok oj) →
          bc_median (ao_computation o) ≤ bc_median (ao_computation oj))).
Proof.
  intros Hlen Hdev. assert (length (autotunables s) = length (ts_tunables s)) as Hn by apply length_fmap.
  destruct (measured_exists dev (autotunables s)) as [rs Hrs]; [by rewrite Hn|].
  destruct (plan_new_inv key (ts_tunables s)) as (plan & Hnew & Hs & Hinv).
  destruct (plan_run _ plan Hs Hinv) as (bs & Hbs & [R1 R2 _ _ _]). rewrite length_fmap in *.
  exists rs, plan, bs. split_and!; [done|done|done|].
  unfold prepare_autotune. rewrite Hn, (proj2 (Nat.eqb_neq _ _)) by done. unfold TunableSet_plan. rewrite Hnew. cbn [obind].
  unfold generate_tune_message.
  destruct (run_plan dev (autotunables s) rs Hrs (plan_fuel key s) plan bs (replicate (length (ts_tunables s)) (Err Skip)))
    as [[He Hall]|(bs1 & b & bs2 & results & He & Hsplit & Hall & Hlr & (i & r & Hi & Hr & Hok) & Hin & Hout)];
    [done|by rewrite Hn|by rewrite length_replicate, Hn|by intros i r [-> _]%lookup_replicate| |]; rewrite He; cbn [obind].
  - left. split; [done|]. intros r [i Hi]%list_elem_of_lookup. assert (i < length rs)%nat as Hlt by (by eapply lookup_lt_Some).
    rewrite (proj1 Hrs), Hn in Hlt. destruct (R2 i Hlt) as [Hx|Hx]; [by apply elem_of_nil in Hx|].
    apply elem_of_concat in Hx as (b & Hb & Hib). rewrite Forall_forall in Hall. by apply (Hall b Hb i r).
  - right. destruct r as [o0|e]; [|done].
    assert (bc_median (ao_computation o0) < Duration_MAX) as Hmed by (by eapply (measured_result _ _ _ _ _ Hrs Hr)).
    destruct (fastest_of_results results i o0 (Hin i _ Hi Hr) Hmed) as (o & Hhead & Hoin & Hmin).
    rewrite Hhead. cbn [expect obind]. apply list_elem_of_lookup in Hoin as [f Hf].
    destruct (Hout f _ Hf eq_refl) as [Hfb Hrf]. exists bs1, b, bs2, f, o. eexists. split_and!; try done.
    + repeat f_equal. by eapply (measured_result _ _ _ _ _ Hrs Hrf).
    + intros j oj Hj Hrj. apply (Hmin (Ok oj)). by eapply list_elem_of_lookup_2, Hin.
Qed.

Module SelectDemo.
(** Three tunables: the second one fails, the third one is the fastest. *)
Definition device : Device := {|
  dv_timing := TDevice;
  dv_warmup := λ i, mkRun (if (i =? 1)%nat then Err (Unknown "unsupported") else Ok tt) (Ok 0);
  dv_sample := λ i k, mkRun (Ok tt) (Ok (1000 - 100 * N.of_nat i + N.of_nat k));
  dv_variance := λ _ _, 0;
|}.
Definition tunable_set : TunableSet unit :=
  {| ts_tunables := [Tunable_new "a"; Tunable_new "b"; Tunable_new "c"]; ts_checksum := λ _, "" |}.

Lemma device_fine i : (i < length (ts_tunables tunable_set))%nat → device_ok device i.
Proof.
  intros Hi. split; [done|]. intros k d Hk [= <-]. simpl in Hi. unfold Duration_MAX, u64_max. lia.
Qed.

Lemma tuner_selects_fastest_witness :
  ∃ rs plan bs, measured device (autotunables tunable_set) rs ∧ TunableSet_plan tt tunable_set = Ret plan ∧
    batches (plan_fuel tt tunable_set) plan = Ret bs ∧
    ((prepare_autotune device tt tunable_set = Panic no_valid_autotune ∧ ∀ r, r ∈ rs → is_ok r = false) ∨
     (∃ bs1 b bs2 f o results, bs = bs1 ++ b :: bs2 ∧ Forall (all_failed rs) bs1 ∧
        prepare_autotune device tt tunable_set = Ret (MDone tt f results (compute_checksum tunable_set)) ∧
        f ∈ b ∧ rs !! f = Some (Ok o) ∧
        ∀ j oj, j ∈ b → rs !! j = Some (Ok oj) →
          bc_median (ao_computation o) ≤ bc_median (ao_computation oj))).
Proof. apply (tuner_selects_fastest device tt tunable_set); [done|exact device_fine]. Defined.

Example selects_third : ∃ results, prepare_autotune device tt tunable_set = Ret (MDone tt 2 results "").
Proof. eexists. vm_compute. reflexivity. Qed.
End SelectDemo.
