(* ===== verification/PersistentCache.v ===== *)
(** * The persistent cache

    Model of [crates/cubecl-common/src/cache.rs] and of [CacheFile] of
    [cache_file.rs]: a map in memory that is kept in step with an append-only
    file shared by several processes.

    The JSON serialisation is an external crate: [Serde] is its interface, an
    encoder and a decoder that inverts it.  An operation holds the lock of the
    file from its first to its last access, so that the operations of
    different processes are atomic; that the lock is never held for longer
    than its maximal duration, after which others may remove it, is assumed.
    Every write writes the whole buffer.

    The file is always the sequence of the encoded entries of a log without
    repeated keys, every process has read a prefix of it, and the operations of
    all processes together behave like the operations of one map in which no
    value ever changes. *)

From Stdlib Require Import Strings.Byte.
From S2P Require Import Prelude.

Open Scope nat_scope.
Open Scope rust_scope.

#[export] Instance byte_eq_decision : EqDecision byte := Byte.byte_eq_dec.

Class Serde (K V : Type) := {
  encode : K * V → list byte;
  decode : list byte → option (K * V);
  decode_encode : ∀ e, decode (encode e) = Some e;
}.

(** The position of the first window equal to the separator. *)
Fixpoint find_sep (sep bytes : list byte) : option nat :=
  if decide (sep `prefix_of` bytes) then Some 0%nat
  else match bytes with
       | [] => None
       | _ :: bytes => S <$> find_sep sep bytes
       end.

(** ** The file *)

Definition File : Type := list byte.
Record CacheFile := mkCacheFile { cf_cursor : nat; cf_is_lock : bool }.

Definition CacheFile_new : CacheFile := mkCacheFile 0%nat false.

(** [lock] returns the content that was appended since the last lock. *)
Definition CacheFile_lock (f : CacheFile) (file : File) : option (list byte) * CacheFile :=
  let e := length file in
  if (cf_cursor f <? e)%nat then (Some (drop (cf_cursor f) file), mkCacheFile e true)
  else (None, mkCacheFile (cf_cursor f) true).
Definition CacheFile_unlock (f : CacheFile) : CacheFile := mkCacheFile (cf_cursor f) false.
Definition CacheFile_write (f : CacheFile) (file : File) (content : list byte) : outcome (CacheFile * File) :=
  if cf_is_lock f then Ret (mkCacheFile (cf_cursor f + length content) (cf_is_lock f), file ++ content)
  else Panic "The cache file should be locked before writing content to it.".

(** ** The cache *)

Inductive CacheError (K V : Type) :=
| DuplicatedKey (key : K) (value_previous value_updated : V)
| KeyOutOfSync (key : K) (value_previous value_updated : V).
Arguments DuplicatedKey {K V} _ _ _.
Arguments KeyOutOfSync {K V} _ _ _.

Record Cache (K V : Type) `{Countable K} := mkCache {
  ca_memory : gmap K V;
  ca_file : CacheFile;
  ca_separator : list byte;
}.
Arguments mkCache {K V _ _} _ _ _.
Arguments ca_memory {K V _ _} _.
Arguments ca_file {K V _ _} _.
Arguments ca_separator {K V _ _} _.

(** The option for the separator; the default is a newline. *)
Definition separator_or_default (o : option (list byte)) : list byte := default [x0a] o.

Section Cache.
Context {K V : Type} `{Countable K} `{EqDecision V} `{!Serde K V}.

(** The error of an entry on disk that contradicts the insertion. *)
Definition out_of_sync (new_insert : option (K * V)) (e : K * V) : option (CacheError K V) :=
  match new_insert with
  | Some (k, v) => if bool_decide (k = e.1 ∧ v ≠ e.2) then Some (KeyOutOfSync e.1 e.2 v) else None
  | None => None
  end.

Fixpoint sync_loop (fuel : nat) (sep : list byte) (new_insert : option (K * V)) (memory : gmap K V)
    (result : option (CacheError K V)) (bytes : list byte) : outcome (gmap K V * option (CacheError K V)) :=
  match fuel with
  | O => OutOfFuel
  | S fuel =>
      match find_sep sep bytes with
      | None => Ret (memory, result)
      | Some pos =>
          let rest := drop (pos + length sep) bytes in
          match decode (take pos bytes) with
          | Some e =>
              let result := match result with None => out_of_sync new_insert e | Some _ => result end in
              sync_loop fuel sep new_insert (<[e.1 := e.2]> memory) result rest
          | None => sync_loop fuel sep new_insert memory result rest
          end
      end
  end.

(** [windows(0)] panics; every iteration consumes the separator. *)
Definition sync_content (c : Cache K V) (bytes : list byte) (new_insert : option (K * V)) :
    outcome (Cache K V * option (CacheError K V)) :=
  if decide (ca_separator c = []) then Panic "window size must be non-zero" else
  let? '(memory, result) := sync_loop (S (length bytes)) (ca_separator c) new_insert (ca_memory c) None bytes in
  Ret (mkCache memory (ca_file c) (ca_separator c), result).

Definition set_file (c : Cache K V) (f : CacheFile) : Cache K V := mkCache (ca_memory c) f (ca_separator c).

(** Locking and reading what is new. *)
Definition sync (c : Cache K V) (file : File) (new_insert : option (K * V)) :
    outcome (Cache K V * option (CacheError K V)) :=
  let '(reader, f) := CacheFile_lock (ca_file c) file in
  let c := set_file c f in
  match reader with
  | Some bytes => sync_content c bytes new_insert
  | None => Ret (c, None)
  end.

Definition unlock (c : Cache K V) : Cache K V := set_file c (CacheFile_unlock (ca_file c)).

Definition Cache_new (file : File) (separator : option (list byte)) : outcome (Cache K V) :=
  let this := mkCache ∅ CacheFile_new (separator_or_default separator) in
  let? '(this, _) := sync this file None in
  Ret (unlock this).

(** [for_each] passes every entry of the synchronised memory to its callback. *)
Definition for_each (c : Cache K V) (file : File) : outcome (Cache K V * gmap K V) :=
  let? '(c, _) := sync c file None in
  Ret (unlock c, ca_memory c).

Definition Cache_get (c : Cache K V) (key : K) : option V := ca_memory c !! key.
Definition Cache_len (c : Cache K V) : nat := size (ca_memory c).
Definition Cache_is_empty (c : Cache K V) : bool := (Cache_len c =? 0)%nat.

Definition insert_unchecked (c : Cache K V) (file : File) (key : K) (value : V) : outcome (Cache K V * File) :=
  let bytes := encode (key, value) ++ ca_separator c in
  let? '(f, file) := CacheFile_write (ca_file c) file bytes in
  Ret (mkCache (<[key := value]> (ca_memory c)) f (ca_separator c), file).

Definition Cache_insert (c : Cache K V) (file : File) (key : K) (value : V) :
    outcome (option (CacheError K V) * Cache K V * File) :=
  let? '(c, err) := sync c file (Some (key, value)) in
  match err with
  | Some err => Ret (Some err, unlock c, file)
  | None =>
      match ca_memory c !! key with
      | Some existing =>
          if decide (existing = value) then Ret (None, unlock c, file)
          else Ret (Some (DuplicatedKey key existing value), unlock c, file)
      | None =>
          let? '(c, file) := insert_unchecked c file key value in
          Ret (None, unlock c, file)
      end
  end.
End Cache.

(** ** Finding the separator *)

Lemma prefix_app_short {A} (s l1 l2 : list A) :
  s `prefix_of` l1 ++ l2 → length s ≤ length l1 → s `prefix_of` l1.
Proof.
  intros [k Hk] Hlen. exists (drop (length s) l1).
  assert (take (length s) (l1 ++ l2) = s) as Ht by (rewrite Hk; apply take_app_length).
  rewrite take_app_le in Ht by done. rewrite <- Ht at 1. symmetry. apply take_drop.
Qed.

Lemma find_sep_length s bytes n : find_sep s bytes = Some n → n + length s ≤ length bytes.
Proof.
  revert n. induction bytes as [|b bytes IH]; intros n; cbn [find_sep]; case_decide as Hp; try done.
  - intros [= <-]. by apply prefix_length in Hp.
  - intros [= <-]. by apply prefix_length in Hp.
  - destruct (find_sep s bytes) as [m|]; [|done]. intros [= <-]. specialize (IH m eq_refl). simpl. lia.
Qed.

Lemma find_sep_app s bytes rest n :
  find_sep s bytes = Some n → find_sep s (bytes ++ rest) = Some n.
Proof.
  revert n. induction bytes as [|b bytes IH]; intros n.
  - simpl. case_decide as Hp; [|done]. intros [= <-].
    assert (s = []) as -> by (by apply prefix_nil_inv). by destruct rest.
  - cbn [find_sep app]. case_decide as Hp.
    + intros [= <-]. rewrite decide_True; [done|]. by apply (prefix_app_r _ (b :: bytes)).
    + destruct (find_sep s bytes) as [m|] eqn:Hm; [|done]. intros [= <-]. rewrite (IH m) by done.
      rewrite decide_False; [done|]. intros Hp'. apply Hp. apply (prefix_app_short s (b :: bytes) rest); [done|].
      apply find_sep_length in Hm. simpl. lia.
Qed.

Lemma find_sep_nil s : s ≠ [] → find_sep s [] = None.
Proof. intros Hs. simpl. rewrite decide_False; [done|]. by intros ->%prefix_nil_inv. Qed.

Section Spec.
Context {K V : Type} `{Countable K} `{EqDecision V} `{!Serde K V} (sep : list byte).
(** The separator is not part of an encoded entry, as its documentation asks. *)
Context (Hsep : sep ≠ []) (Hclean : ∀ e, find_sep sep (encode e ++ sep) = Some (length (encode e))).

Abbreviation Log := (list (K * V)).

Definition encode_all (log : Log) : list byte := log ≫= λ e, encode e ++ sep.

Lemma encode_all_cons e log : encode_all (e :: log) = encode e ++ sep ++ encode_all log.
Proof. unfold encode_all. rewrite bind_cons. by rewrite <- app_assoc. Qed.
Lemma encode_all_app l1 l2 : encode_all (l1 ++ l2) = encode_all l1 ++ encode_all l2.
Proof. apply bind_app. Qed.
Lemma encode_all_length log : (length log ≤ length (encode_all log)).
Proof using Hsep Hclean.
  induction log as [|e log IH]; [done|]. rewrite encode_all_cons, !length_app. destruct sep; [done|]. simpl. lia.
Qed.


(** ** Reading encoded entries *)

(** The memory after the entries have been read, and the first contradiction. *)
Definition read_all (log : Log) (m : gmap K V) : gmap K V := foldl (λ m e, <[e.1 := e.2]> m) m log.
Fixpoint first_conflict (ins : option (K * V)) (res : option (CacheError K V)) (log : Log) : option (CacheError K V) :=
  match log with
  | [] => res
  | e :: log => first_conflict ins (match res with None => out_of_sync ins e | Some _ => res end) log
  end.

Lemma sync_loop_spec log fuel ins m res :
  length log < fuel → sync_loop fuel sep ins m res (encode_all log) = Ret (read_all log m, first_conflict ins res log).
Proof using Hsep Hclean.
  revert fuel m res. induction log as [|e log IH]; intros fuel m res Hf.
  - destruct fuel; [lia|]. cbn [sync_loop]. change (encode_all []) with (@nil byte). by rewrite find_sep_nil.
  - destruct fuel as [|fuel]; [simpl in Hf; lia|]. cbn [sync_loop]. rewrite encode_all_cons, app_assoc.
    rewrite (find_sep_app _ _ (encode_all log) _ (Hclean e)).
    rewrite <- app_assoc, take_app_length, decode_encode, app_assoc.
    rewrite drop_app_length' by (rewrite length_app; done). rewrite IH by (simpl in Hf; lia). done.
Qed.

Lemma sync_content_spec c log ins :
  ca_separator c = sep → 
  sync_content c (encode_all log) ins =
    Ret (mkCache (read_all log (ca_memory c)) (ca_file c) sep, first_conflict ins None log).
Proof using Hsep Hclean.
  intros Hs. unfold sync_content. rewrite Hs, decide_False by done. rewrite sync_loop_spec; [done|].
  pose proof (encode_all_length log). lia.
Qed.

(** ** The view of one process *)

Definition mem_of (m : gmap K V) (log : Log) : Prop := ∀ k v, m !! k = Some v ↔ (k, v) ∈ log.

Lemma mem_of_snoc m log k v :
  mem_of m log → k ∉ log.*1 → mem_of (<[k := v]> m) (log ++ [(k, v)]).
Proof using.
  intros Hm Hk k' v'. rewrite elem_of_app, list_elem_of_singleton, lookup_insert_Some, (Hm k' v'). split.
  - intros [[<- <-]|[? ?]]; [by right|by left].
  - intros [Hin|[= -> ->]]; [|by left]. right. split; [|done]. intros ->. apply Hk, list_elem_of_fmap. by exists (k', v').
Qed.

Lemma read_all_mem m l1 l2 : NoDup (l1 ++ l2).*1 → mem_of m l1 → mem_of (read_all l2 m) (l1 ++ l2).
Proof using.
  revert m l1. induction l2 as [|[k v] l2 IH]; intros m l1 Hn Hm; [by rewrite app_nil_r|].
  replace (l1 ++ (k, v) :: l2) with ((l1 ++ [(k, v)]) ++ l2) in * by (by rewrite <- app_assoc).
  apply IH; [done|]. apply mem_of_snoc; [done|]. rewrite !fmap_app in Hn. simpl in Hn.
  apply NoDup_app in Hn as (Hn & _ & _). apply NoDup_app in Hn as (_ & Hn & _). intros Hk. by apply (Hn k Hk); left.
Qed.

Lemma first_conflict_some ins err log : first_conflict ins (Some err) log = Some err.
Proof using. induction log; [done|]. simpl. done. Qed.

Lemma first_conflict_spec k v log :
  match first_conflict (Some (k, v)) None log with
  | Some err => ∃ v', err = KeyOutOfSync k v' v ∧ (k, v') ∈ log ∧ v ≠ v'
  | None => ∀ v', (k, v') ∈ log → v' = v
  end.
Proof using.
  induction log as [|[k0 v0] log IH]; simpl; [intros v' Hv; by apply elem_of_nil in Hv|].
  case_bool_decide as Hc; simpl in Hc.
  - destruct Hc as [-> Hne]. rewrite first_conflict_some. exists v0. split; [done|]. split; [by left|done].
  - destruct (first_conflict (Some (k, v)) None log) as [err|].
    + destruct IH as (v' & -> & Hin & Hne). exists v'. split; [done|]. split; [by right|done].
    + intros v' [[= <- <-]|Hin]%elem_of_cons; [|by apply IH]. destruct (decide (v' = v)); [done|naive_solver].
Qed.

Lemma first_conflict_none log : first_conflict None None log = None.
Proof using. by induction log. Qed.

(** A process has read the first [n] entries of the log. *)
Record reads (log : Log) (c : Cache K V) (n : nat) : Prop := {
  rd_bound : n ≤ length log;
  rd_cursor : cf_cursor (ca_file c) = length (encode_all (take n log));
  rd_sep : ca_separator c = sep;
  rd_mem : mem_of (ca_memory c) (take n log);
}.

(** Synchronising reads the rest of the log. *)
Lemma sync_spec log c n ins :
  NoDup log.*1 → reads log c n →
  ∃ c', sync c (encode_all log) ins = Ret (c', first_conflict ins None (drop n log)) ∧
    reads log c' (length log) ∧ cf_is_lock (ca_file c') = true ∧ length (encode_all log) = cf_cursor (ca_file c').
Proof using Hsep Hclean.
  intros Hn [Hb Hcur Hs Hm]. unfold sync, CacheFile_lock.
  assert (encode_all log = encode_all (take n log) ++ encode_all (drop n log)) as Hsplit
    by (by rewrite <- encode_all_app, take_drop).
  assert (mem_of (read_all (drop n log) (ca_memory c)) log) as Hfull.
  { pose proof (read_all_mem (ca_memory c) (take n log) (drop n log)) as Hr. rewrite take_drop in Hr. by apply Hr. }
  destruct (Nat.ltb_spec (cf_cursor (ca_file c)) (length (encode_all log))) as [Hlt|Hge].
  - rewrite Hcur, Hsplit, drop_app_length, <- Hsplit. rewrite sync_content_spec by done.
    eexists. split; [done|]. split; [|done]. split; cbn; try done; by rewrite firstn_all.
  - assert (drop n log = []) as Hd.
    { pose proof (encode_all_length (drop n log)). rewrite Hsplit, length_app in Hge.
      destruct (drop n log); [done|]. simpl in *. lia. }
    rewrite Hd. eexists. split; [done|]. rewrite Hd in Hsplit, Hfull. rewrite app_nil_r in Hsplit.
    split; [|split; [done|cbn; congruence]]. split; cbn; try done; rewrite firstn_all; [congruence|done].
Qed.

Lemma reads_app log c n l2 : reads log c n → reads (log ++ l2) c n.
Proof using.
  intros [Hb Hcur Hs Hm]. split; rewrite ?take_app_le by done; try done. rewrite length_app. lia.
Qed.
Lemma reads_unlock log c n : reads log c n → reads log (unlock c) n.
Proof using. by intros [Hb Hcur Hs Hm]. Qed.

(** ** Inserting *)

Inductive insert_result (log : Log) (k : K) (v : V) : option (CacheError K V) → Log → Prop :=
| insert_new : k ∉ log.*1 → insert_result log k v None (log ++ [(k, v)])
| insert_same : (k, v) ∈ log → insert_result log k v None log
| insert_conflict v' err :
    (k, v') ∈ log → v' ≠ v → err = DuplicatedKey k v' v ∨ err = KeyOutOfSync k v' v →
    insert_result log k v (Some err) log.

Lemma insert_spec log c n k v :
  NoDup log.*1 → reads log c n →
  ∃ err c' log', Cache_insert c (encode_all log) k v = Ret (err, c', encode_all log') ∧
    insert_result log k v err log' ∧ NoDup log'.*1 ∧ reads log' c' (length log').
Proof using Hsep Hclean.
  intros Hn Hr. destruct (sync_spec log c n (Some (k, v)) Hn Hr) as (c1 & Hsync & Hr1 & Hlock & Hcur).
  unfold Cache_insert. rewrite Hsync. cbn [obind]. pose proof (first_conflict_spec k v (drop n log)) as Hfc.
  pose proof (rd_mem _ _ _ Hr1) as Hmem. rewrite firstn_all in Hmem.
  destruct (first_conflict (Some (k, v)) None (drop n log)) as [err|].
  - destruct Hfc as (v' & -> & Hin & Hne). do 2 eexists. exists log. split; [done|].
    split; [|split; [done|by apply reads_unlock]]. eapply insert_conflict; [|by apply not_eq_sym|by right].
    rewrite <- (take_drop n log). apply elem_of_app. by right.
  - destruct (ca_memory c1 !! k) as [v'|] eqn:Hk.
    + apply Hmem in Hk. case_decide as Hv; do 2 eexists; exists log; (split; [done|]);
        (split; [|split; [done|by apply reads_unlock]]).
      * subst v'. by apply insert_same.
      * eapply insert_conflict; [done|done|by left].
    + assert (k ∉ log.*1) as Hnin.
      { intros ([k' v'] & Hk' & Hin)%list_elem_of_fmap. simpl in Hk'. subst k'. apply Hmem in Hin. congruence. }
      unfold insert_unchecked, CacheFile_write. rewrite Hlock, (rd_sep _ _ _ Hr1). cbn [obind].
      do 2 eexists. exists (log ++ [(k, v)]).
      assert (encode_all (log ++ [(k, v)]) = encode_all log ++ encode (k, v) ++ sep) as He.
      { rewrite encode_all_app, (encode_all_cons (k, v) []). by rewrite !app_nil_r. }
      rewrite He. split; [done|]. split; [by apply insert_new|]. split.
      * rewrite fmap_app. apply NoDup_app. split_and!; [done| |apply NoDup_singleton].
        intros k' Hk' ->%list_elem_of_singleton. done.
      * apply reads_unlock. split; cbn.
        -- done.
        -- rewrite firstn_all, He, !length_app. lia.
        -- done.
        -- rewrite firstn_all. by apply mem_of_snoc.
Qed.

Lemma new_spec log :
  NoDup log.*1 → ∃ c, Cache_new (encode_all log) (Some sep) = Ret c ∧ reads log c (length log).
Proof using Hsep Hclean.
  intros Hn. destruct (sync_spec log (mkCache ∅ CacheFile_new sep) 0 None Hn) as (c & Hs & Hr & _).
  { split; cbn; [lia|done|done|]. intros k v. rewrite lookup_empty, elem_of_nil. naive_solver. }
  unfold Cache_new. change (separator_or_default (Some sep)) with sep. rewrite Hs. cbn [obind]. eexists. split; [done|]. by apply reads_unlock.
Qed.

Lemma for_each_spec log c n :
  NoDup log.*1 → reads log c n →
  ∃ c' m, for_each c (encode_all log) = Ret (c', m) ∧ mem_of m log ∧ reads log c' (length log).
Proof using Hsep Hclean.
  intros Hn Hr. destruct (sync_spec log c n None Hn Hr) as (c1 & Hs & Hr1 & _).
  unfold for_each. rewrite Hs. cbn [obind]. do 2 eexists. split; [done|]. split; [|by apply reads_unlock].
  pose proof (rd_mem _ _ _ Hr1) as Hm. by rewrite firstn_all in Hm.
Qed.

(** ** Several processes *)

Record State := mkState { st_file : File; st_caches : gmap nat (Cache K V) }.

Inductive event :=
| EOpen (p : nat)
| EInsert (p : nat) (k : K) (v : V) (r : option (CacheError K V))
| EForEach (p : nat) (m : gmap K V)
| EGet (p : nat) (k : K) (r : option V).

Inductive step : State → event → State → Prop :=
| step_open st p c :
    Cache_new (st_file st) (Some sep) = Ret c →
    step st (EOpen p) (mkState (st_file st) (<[p := c]> (st_caches st)))
| step_insert st p c k v r c' file' :
    st_caches st !! p = Some c → Cache_insert c (st_file st) k v = Ret (r, c', file') →
    step st (EInsert p k v r) (mkState file' (<[p := c']> (st_caches st)))
| step_for_each st p c c' m :
    st_caches st !! p = Some c → for_each c (st_file st) = Ret (c', m) →
    step st (EForEach p m) (mkState (st_file st) (<[p := c']> (st_caches st)))
| step_get st p c k :
    st_caches st !! p = Some c → step st (EGet p k (Cache_get c k)) st.

(** What the events mean for one shared map, given as the log of its entries. *)
Inductive abstract_step : Log → event → Log → Prop :=
| abs_open log p : abstract_step log (EOpen p) log
| abs_insert log p k v r log' : insert_result log k v r log' → abstract_step log (EInsert p k v r) log'
| abs_for_each log p m : mem_of m log → abstract_step log (EForEach p m) log
| abs_get log p k r : (∀ v, r = Some v → (k, v) ∈ log) → abstract_step log (EGet p k r) log.

Inductive trace {S : Type} (R : S → event → S → Prop) (s : S) : list event → S → Prop :=
| trace_nil : trace R s [] s
| trace_snoc tr s' e s'' : trace R s tr s' → R s' e s'' → trace R s (tr ++ [e]) s''.

Record state_inv (log : Log) (st : State) : Prop := {
  si_keys : NoDup log.*1;
  si_file : st_file st = encode_all log;
  si_caches : ∀ p c, st_caches st !! p = Some c → ∃ n, reads log c n;
}.

Lemma step_inv log st e st' :
  state_inv log st → step st e st' → ∃ log', abstract_step log e log' ∧ state_inv log' st'.
Proof using Hsep Hclean.
  intros [Hn Hf Hc] Hstep. destruct Hstep as [st p c Hnew|st p c k v r c' file' Hp Hins|st p c c' m Hp Hfe|st p c k Hp].
  - rewrite Hf in Hnew. destruct (new_spec log Hn) as (c0 & Hnew' & Hr). rewrite Hnew in Hnew'. injection Hnew' as <-.
    exists log. split; [constructor|]. split; cbn; try done.
    intros q c1 [[_ <-]|[_ ?]]%lookup_insert_Some; [by eexists|by eapply Hc].
  - rewrite Hf in Hins. destruct (Hc p c Hp) as [n Hr].
    destruct (insert_spec log c n k v Hn Hr) as (err & c0 & log' & Hins' & Hres & Hn' & Hr').
    rewrite Hins in Hins'. injection Hins' as -> -> ->. exists log'. split; [by constructor|]. split; cbn; try done.
    intros q c1 [[_ <-]|[_ Hq]]%lookup_insert_Some; [by eexists|]. destruct (Hc q c1 Hq) as [m Hm].
    exists m. destruct Hres; [by apply reads_app|done|done].
  - rewrite Hf in Hfe. destruct (Hc p c Hp) as [n Hr].
    destruct (for_each_spec log c n Hn Hr) as (c0 & m0 & Hfe' & Hm & Hr'). rewrite Hfe in Hfe'. injection Hfe' as -> ->.
    exists log. split; [by constructor|]. split; cbn; try done.
    intros q c1 [[_ <-]|[_ ?]]%lookup_insert_Some; [by eexists|by eapply Hc].
  - exists log. split; [|done]. constructor. intros v Hv. destruct (Hc p c Hp) as [n Hr].
    apply (rd_mem _ _ _ Hr) in Hv. apply elem_of_take in Hv as (i & Hi & _). by eapply list_elem_of_lookup_2.
Qed.

Definition init : State := mkState [] ∅.

Lemma trace_inv tr st :
  trace step init tr st → ∃ log, trace abstract_step [] tr log ∧ state_inv log st.
Proof using Hsep Hclean.
  induction 1 as [|tr s' e s'' Htr IH Hstep].
  - exists []. split; [constructor|]. split; cbn; [constructor|done|]. intros p c. by rewrite lookup_empty.
  - destruct IH as (log & Ha & Hinv). destruct (step_inv log s' e s'' Hinv Hstep) as (log' & Hs & Hinv').
    exists log'. split; [|done]. by econstructor.
Qed.

Lemma abstract_kept tr log p k v : trace abstract_step [] tr log → EInsert p k v None ∈ tr → (k, v) ∈ log.
Proof using.
  induction 1 as [|tr log e log' Htr IH Hstep]; [intros Hin; by apply elem_of_nil in Hin|].
  assert ((k, v) ∈ log → (k, v) ∈ log') as Hmono.
  { intros Hin. destruct Hstep as [| ? ? ? ? ? ? []| |]; try done. apply elem_of_app. by left. }
  intros [Hin|Hin%list_elem_of_singleton]%elem_of_app; [by apply Hmono, IH|]. subst e.
  inversion Hstep as [|? ? ? ? ? ? Hres| |]; subst. inversion Hres; subst; [|done].
  apply elem_of_app. right. by left.
Qed.
End Spec.


(** An entry that any process has inserted survives: a process that opens
    the cache later finds it with the inserted value. *)
Theorem cache_reload {K V : Type} `{Countable K} `{EqDecision V} `{!Serde K V} (sep : list byte) tr st p k v :
  sep ≠ [] → (∀ e : K * V, find_sep sep (encode e ++ sep) = Some (length (encode e))) →
  trace (step sep) init tr st → EInsert p k v None ∈ tr →
  ∃ c, Cache_new (st_file st) (Some sep) = Ret c ∧ Cache_get c k = Some v.
Proof.
  intros Hsep Hclean Htr Hin. destruct (trace_inv sep Hsep Hclean tr st Htr) as (log & Ha & [Hn Hf Hc]).
  destruct (new_spec sep Hsep Hclean log Hn) as (c & Hnew & Hr). rewrite Hf. exists c. split; [done|].
  apply (rd_mem _ _ _ _ Hr). rewrite firstn_all. by eapply abstract_kept.
Qed.

(** ** A concrete serialisation *)

Module CacheDemo.
(** A key and a value as two decimal digits around a colon. *)
Definition digit (b : bool) : byte := if b then x31 else x30.
Definition undigit (b : byte) : option bool := match b with x30 => Some false | x31 => Some true | _ => None end.
Definition enc (e : bool * bool) : list byte := [digit e.1; x3a; digit e.2].
Definition dec (l : list byte) : option (bool * bool) :=
  match l with
  | [a; x3a; b] => k ← undigit a; v ← undigit b; Some (k, v)
  | _ => None
  end.
#[export] Instance bool_serde : Serde bool bool := {| encode := enc; decode := dec; decode_encode := ltac:(by intros [[] []]) |}.

Definition newline : list byte := [x0a].
Lemma newline_clean (e : bool * bool) : find_sep newline (encode e ++ newline) = Some (length (encode e)).
Proof. destruct e as [[] []]; vm_compute; reflexivity. Qed.

(** Two processes open the cache; the first inserts, the second finds a
    contradiction on disk. *)
Definition opened : Cache bool bool := mkCache ∅ CacheFile_new newline.
Definition file1 : File := encode_all newline [(true, false)].
Definition stored : Cache bool bool := mkCache {[true := false]} (mkCacheFile 4 false) newline.
Definition events : list (event (K := bool) (V := bool)) :=
  [EOpen 1; EOpen 2; EInsert 1 true false None; EInsert 2 true true (Some (KeyOutOfSync true false true))].
Definition final : State (K := bool) (V := bool) := mkState file1 (<[2 := stored]> (<[1 := stored]> (<[2 := opened]> (<[1 := opened]> ∅)))).

Lemma events_run : trace (step newline) init events final.
Proof.
  change events with (((([] ++ [EOpen 1]) ++ [EOpen 2]) ++ [EInsert 1 true false None]) ++
    [EInsert 2 true true (Some (KeyOutOfSync (V := bool) true false true))]).
  eapply trace_snoc; [eapply trace_snoc; [eapply trace_snoc; [eapply trace_snoc; [constructor|]|]|]|].
  - apply step_open with (c := opened). vm_compute. reflexivity.
  - apply step_open with (c := opened). vm_compute. reflexivity.
  - eapply step_insert with (c := opened) (c' := stored) (file' := file1); vm_compute; reflexivity.
  - eapply step_insert with (c := opened) (c' := stored) (file' := file1); vm_compute; reflexivity.
Qed.


Lemma cache_reload_witness :
  ∃ c, Cache_new (st_file final) (Some newline) = Ret c ∧ Cache_get c true = Some false.
Proof.
  apply (cache_reload newline events final 1 true false); [done|exact newline_clean|exact events_run|].
  right. right. by left.
Defined.
End CacheDemo.
