(* ===== verification/LocalTuner.v ===== *)
(** * The tuner of a device and its cache

    Model of [crates/cubecl-runtime/src/tune/tune_cache.rs], of the message
    handling of [tuner.rs] ([Tuner::new], [handle_result], [handle_results])
    and of [local.rs]: a process keeps one tuner per device identifier behind
    a lock; a call of [execute] first looks the key up, possibly benchmarks
    outside of the lock, and then looks the key up again.

    [execute] is split at its two critical sections ([execute_lookup],
    [execute_finish]) with the autotune job ([run_job]) between them; the steps
    of concurrent calls interleave in any order ([tstep]).  On a target with
    files ([Native]) a tuner loads and stores its results in the persistent
    cache, on [Wasm] there are no files and the benchmarks run as detached
    tasks that send their result later.

    The key of the inputs is an argument of a call; what a tunable computes is
    not represented, a call returns the name of the tunable it runs.

    The state that concerns one device and one key is a small automaton
    ([view], [vstep]): whether the key is being tuned, what the cache answers,
    the jobs and detached tasks under way, and the messages in the channel.
    However concurrent calls interleave, the view of every key follows this
    automaton, on which the invariants are proved. *)

From Stdlib Require Import Strings.Byte.
From S2P Require Import Prelude TunePlan TuneSelect PersistentCache.

Open Scope nat_scope.
Open Scope rust_scope.

#[export] Instance computations_eq_dec : EqDecision BenchmarkComputations.
Proof. solve_decision. Defined.
#[export] Instance outcome_eq_dec : EqDecision AutotuneOutcome.
Proof. solve_decision. Defined.
#[export] Instance autotune_error_eq_dec : EqDecision AutotuneError.
Proof. solve_decision. Defined.
#[export] Instance result_eq_dec {A E} `{EqDecision A, EqDecision E} : EqDecision (Result A E).
Proof. solve_decision. Defined.
#[export] Instance tune_result_eq_dec : EqDecision TuneResult.
Proof. unfold TuneResult. apply _. Defined.

(** ** The cache of results *)

Inductive ChecksumState := Match | NoMatch | ToBeVerified (checksum : string).
Inductive CacheEntry := CDone (checksum : ChecksumState) (fastest_index : nat) | CPending.

Record PersistentCacheKey (K : Type) := mkPKey { pk_key : K; pk_checksum : string }.
Arguments mkPKey {K} _ _.
Arguments pk_key {K} _.
Arguments pk_checksum {K} _.
Record PersistentCacheValue := mkPValue { pv_fastest_index : nat; pv_results : list TuneResult }.

#[export] Instance pkey_eq_dec {K} `{EqDecision K} : EqDecision (PersistentCacheKey K).
Proof. solve_decision. Defined.
#[export] Program Instance pkey_countable {K} `{Countable K} : Countable (PersistentCacheKey K) :=
  inj_countable' (λ p, (pk_key p, pk_checksum p)) (λ p, mkPKey p.1 p.2) _.
Next Obligation. by intros K ? ? []. Qed.
#[export] Instance pvalue_eq_dec : EqDecision PersistentCacheValue.
Proof. solve_decision. Defined.

Inductive TuneCacheResult := Hit (fastest_index : nat) | Unchecked | Pending | Miss.

Inductive AutotuneLogLevel := LDisabled | LMinimal | LFull.
Inductive Target := Native | Wasm.

(** The persistent cache exists on targets with files only. *)
Record TuneCache (K : Type) `{Countable K} := mkTuneCache {
  tc_memory : gmap K CacheEntry;
  tc_persistent : option (Cache (PersistentCacheKey K) PersistentCacheValue);
}.
Arguments mkTuneCache {K _ _} _ _.
Arguments tc_memory {K _ _} _.
Arguments tc_persistent {K _ _} _.

Record Tuner (K : Type) `{Countable K} := mkTuner {
  tu_cache : TuneCache K;
  tu_channel : list (AutotuneMessage K);
  tu_autotuning : gset K;
}.
Arguments mkTuner {K _ _} _ _ _.
Arguments tu_cache {K _ _} _.
Arguments tu_channel {K _ _} _.
Arguments tu_autotuning {K _ _} _.

Section Tuner.
Context {HO : HashOrder} {K : Type} `{Countable K} `{!Serde (PersistentCacheKey K) PersistentCacheValue}.
Context (target : Target) (level : AutotuneLogLevel).
(** The order in which [for_each] traverses its map. *)
Context (order : gmap (PersistentCacheKey K) PersistentCacheValue → list (PersistentCacheKey K * PersistentCacheValue)).

Definition cache_fastest (c : TuneCache K) (key : K) : TuneCacheResult :=
  match tc_memory c !! key with
  | None => Miss
  | Some (CDone checksum fastest_index) =>
      match tc_persistent c with
      | Some _ =>
          match checksum with
          | ToBeVerified _ => Unchecked
          | NoMatch => Miss
          | Match => Hit fastest_index
          end
      | None => Hit fastest_index
      end
  | Some CPending => Pending
  end.

Definition set_memory (c : TuneCache K) (m : gmap K CacheEntry) : TuneCache K := mkTuneCache m (tc_persistent c).

Definition cache_validate_checksum (c : TuneCache K) (key : K) (checksum : string) : TuneCache K :=
  match tc_memory c !! key with
  | Some (CDone (ToBeVerified expected) i) =>
      set_memory c (<[key := CDone (if decide (expected = checksum) then Match else NoMatch) i]> (tc_memory c))
  | _ => c
  end.

Definition mark_pending (c : TuneCache K) (key : K) : TuneCache K := set_memory c (<[key := CPending]> (tc_memory c)).
Definition cache_insert (c : TuneCache K) (key : K) (fastest_index : nat) : TuneCache K :=
  set_memory c (<[key := CDone Match fastest_index]> (tc_memory c)).

(** A contradiction with the file is only logged. *)
Definition persistent_cache_insert (c : TuneCache K) (file : File) (key : K) (checksum : string)
    (fastest_index : nat) (results : list TuneResult) : outcome (TuneCache K * File) :=
  match tc_persistent c with
  | None => Ret (c, file)
  | Some p =>
      let? '(_, p, file) := Cache_insert p file (mkPKey key checksum) (mkPValue fastest_index results) in
      Ret (mkTuneCache (tc_memory c) (Some p), file)
  end.

Definition load_entries (l : list (PersistentCacheKey K * PersistentCacheValue)) (m : gmap K CacheEntry) : gmap K CacheEntry :=
  foldl (λ m e, <[pk_key e.1 := CDone (ToBeVerified (pk_checksum e.1)) (pv_fastest_index e.2)]> m) m l.

Definition TuneCache_new (file : File) : outcome (TuneCache K) :=
  match target with
  | Native =>
      let? p := Cache_new file None in
      let? '(p, entries) := for_each p file in
      Ret (mkTuneCache (load_entries (order entries) ∅) (Some p))
  | Wasm => Ret (mkTuneCache ∅ None)
  end.

(** ** The tuner *)

Definition Tuner_new (file : File) : outcome (Tuner K) :=
  let? c := TuneCache_new file in Ret (mkTuner c [] ∅).
Definition fastest (t : Tuner K) (key : K) : TuneCacheResult := cache_fastest (tu_cache t) key.
Definition set_cache (t : Tuner K) (c : TuneCache K) : Tuner K := mkTuner c (tu_channel t) (tu_autotuning t).
Definition validate_checksum (t : Tuner K) (key : K) (checksum : string) : Tuner K :=
  set_cache t (cache_validate_checksum (tu_cache t) key checksum).

(** What logging a result requires of it. *)
Definition log_results (results : list TuneResult) : outcome unit :=
  match level with
  | LDisabled => Ret tt
  | LMinimal | LFull =>
      let? first := expect (head results) "At least one kernel needed." in
      match first with Ok _ => Ret tt | Err _ => Panic "At least one kernel has to succeed." end
  end.

Definition handle_result (t : Tuner K) (file : File) (msg : AutotuneMessage K) : outcome (Tuner K * File) :=
  match msg with
  | MPending key => Ret (set_cache t (mark_pending (tu_cache t) key), file)
  | MDone key fastest_index results checksum =>
      let? _ := log_results results in
      let c := cache_insert (tu_cache t) key fastest_index in
      let? '(c, file) := persistent_cache_insert c file key checksum fastest_index results in
      Ret (set_cache t c, file)
  end.

Fixpoint handle_messages (t : Tuner K) (file : File) (msgs : list (AutotuneMessage K)) : outcome (Tuner K * File) :=
  match msgs with
  | [] => Ret (mkTuner (tu_cache t) [] (tu_autotuning t), file)
  | msg :: msgs =>
      let? '(t, file) := handle_result (mkTuner (tu_cache t) msgs (tu_autotuning t)) file msg in
      handle_messages t file msgs
  end.
Definition handle_results (t : Tuner K) (file : File) : outcome (Tuner K * File) :=
  handle_messages t file (tu_channel t).

(** ** The local tuner *)

Section Local.
Context {ID : Type} `{Countable ID}.

(** [lt_clears] counts the calls of [clear]: with the identifier of the device
    it names a channel, of which a job holds the sender. *)
Record LocalTuner := mkLocal {
  lt_state : option (gmap ID (Tuner K));
  lt_clears : nat;
  lt_files : gmap ID File;
}.
Definition LocalTuner_new (files : gmap ID File) : LocalTuner := mkLocal None 0 files.
Definition file_of (lt : LocalTuner) (id : ID) : File := default [] (lt_files lt !! id).
Definition clear (lt : LocalTuner) : LocalTuner := mkLocal None (S (lt_clears lt)) (lt_files lt).

Definition put_tuner (lt : LocalTuner) (id : ID) (t : Tuner K) : LocalTuner :=
  mkLocal (Some (<[id := t]> (default ∅ (lt_state lt)))) (lt_clears lt) (lt_files lt).
Definition put_file (lt : LocalTuner) (id : ID) (file : File) : LocalTuner :=
  mkLocal (lt_state lt) (lt_clears lt) (<[id := file]> (lt_files lt)).

(** [state.get_or_insert_with] and the entry of the device. *)
Definition get_tuner (lt : LocalTuner) (id : ID) : outcome (Tuner K) :=
  match default ∅ (lt_state lt) !! id with
  | Some t => Ret t
  | None => Tuner_new (file_of lt id)
  end.

Inductive Lookup := LRun (index : nat) | LJob (tune : bool).

(** The first critical section. *)
Definition execute_lookup (lt : LocalTuner) (id : ID) (s : TunableSet K) (key : K) : outcome (Lookup * LocalTuner) :=
  let? t := get_tuner lt id in
  let start (t : Tuner K) :=
    if decide (key ∈ tu_autotuning t) then Ret (LJob false, put_tuner lt id t)
    else Ret (LJob true, put_tuner lt id (mkTuner (tu_cache t) (tu_channel t) ({[key]} ∪ tu_autotuning t))) in
  match fastest t key with
  | Hit i => Ret (LRun i, put_tuner lt id t)
  | Pending => Ret (LRun 0, put_tuner lt id t)
  | Unchecked =>
      let t := validate_checksum t key (compute_checksum s) in
      match fastest t key with
      | Hit i => Ret (LRun i, put_tuner lt id t)
      | _ => start t
      end
  | Miss => start t
  end.

(** Sending fails when the tuner that owns the receiver is gone. *)
Definition try_send (lt : LocalTuner) (id : ID) (sender : nat) (msg : AutotuneMessage K) : option LocalTuner :=
  if (lt_clears lt =? sender)%nat then
    t ← default ∅ (lt_state lt) !! id;
    Some (put_tuner lt id (mkTuner (tu_cache t) (tu_channel t ++ [msg]) (tu_autotuning t)))
  else None.

(** The job of [prepare_autotune]: the message it sends, and the detached task
    that it leaves behind on [Wasm]. *)
Definition run_job (dev : Device) (key : K) (s : TunableSet K) :
    outcome (AutotuneMessage K * option (outcome (AutotuneMessage K))) :=
  let result := prepare_autotune dev key s in
  match target with
  | Native => let? msg := result in Ret (msg, None)
  | Wasm =>
      if (length (autotunables s) =? 1)%nat then let? msg := result in Ret (msg, None)
      else Ret (MPending key, Some result)
  end.

(** The second critical section: the index to run. *)
Definition execute_finish (lt : LocalTuner) (id : ID) (key : K) : outcome (nat * LocalTuner) :=
  let? map := unwrap (lt_state lt) in
  let? t := unwrap (map !! id) in
  let? '(t, file) := handle_results t (file_of lt id) in
  let lt := put_file (put_tuner lt id t) id file in
  match fastest t key with
  | Hit i => Ret (i, lt)
  | Pending => Ret (0, lt)
  | Miss => Ret (0, lt)
  | Unchecked => Panic "Should have checked the cache."
  end.

(** ** Interleaving of calls *)

Inductive Call :=
| CallJob (id : ID) (s : TunableSet K) (key : K) (sender : nat) (tune : bool)
| CallFinish (id : ID) (s : TunableSet K) (key : K)
| CallReturned (run : outcome string)
| CallPanicked (msg : string).

Record Task := mkTask { tk_id : ID; tk_sender : nat; tk_key : K; tk_result : outcome (AutotuneMessage K) }.

Record World := mkWorld { w_lt : LocalTuner; w_calls : gmap nat Call; w_tasks : list Task }.
Definition world_new (files : gmap ID File) : World := mkWorld (LocalTuner_new files) ∅ [].

Definition after_lookup (lt : LocalTuner) (id : ID) (s : TunableSet K) (key : K) (l : Lookup) : Call :=
  match l with
  | LRun i => CallReturned (TunableSet_fastest s i)
  | LJob tune => CallJob id s key (lt_clears lt) tune
  end.
Definition task_of (id : ID) (sender : nat) (key : K) (o : option (outcome (AutotuneMessage K))) : list Task :=
  match o with Some result => [mkTask id sender key result] | None => [] end.
(** A detached task that completes sends its message; that the channel is
    closed is ignored. *)
Definition task_send (lt : LocalTuner) (tk : Task) : LocalTuner :=
  match tk_result tk with
  | Ret msg => default lt (try_send lt (tk_id tk) (tk_sender tk) msg)
  | _ => lt
  end.

Inductive tevent :=
| VStart (call : nat) (id : ID) (s : TunableSet K) (key : K) (l : Lookup)
| VTune (call : nat) (id : ID) (key : K) (msg : AutotuneMessage K)
| VPanic (call : nat)
| VSkip (call : nat)
| VTask (id : ID) (key : K)
| VFinish (call : nat) (id : ID) (key : K) (index : nat)
| VClear
| VOther (id : ID).

Definition set_call (w : World) (lt : LocalTuner) (call : nat) (c : Call) (tasks : list Task) : World :=
  mkWorld lt (<[call := c]> (w_calls w)) tasks.

Inductive tstep : World → tevent → World → Prop :=
| ts_start w call id s key l lt' :
    w_calls w !! call = None → execute_lookup (w_lt w) id s key = Ret (l, lt') →
    tstep w (VStart call id s key l) (set_call w lt' call (after_lookup lt' id s key l) (w_tasks w))
| ts_skip w call id s key sender :
    w_calls w !! call = Some (CallJob id s key sender false) →
    tstep w (VSkip call) (set_call w (w_lt w) call (CallFinish id s key) (w_tasks w))
| ts_tune w call id s key sender dev msg task lt' :
    w_calls w !! call = Some (CallJob id s key sender true) →
    run_job dev key s = Ret (msg, task) → try_send (w_lt w) id sender msg = Some lt' →
    tstep w (VTune call id key msg)
      (set_call w lt' call (CallFinish id s key) (w_tasks w ++ task_of id sender key task))
| ts_tune_panic w call id s key sender dev msg :
    w_calls w !! call = Some (CallJob id s key sender true) →
    run_job dev key s = Panic msg →
    tstep w (VPanic call) (set_call w (w_lt w) call (CallPanicked msg) (w_tasks w))
| ts_tune_closed w call id s key sender dev msg task :
    w_calls w !! call = Some (CallJob id s key sender true) →
    run_job dev key s = Ret (msg, task) → try_send (w_lt w) id sender msg = None →
    tstep w (VPanic call) (set_call w (w_lt w) call (CallPanicked "Loss message channel somehow")
      (w_tasks w ++ task_of id sender key task))
| ts_task w l1 tk l2 :
    w_tasks w = l1 ++ tk :: l2 →
    tstep w (VTask (tk_id tk) (tk_key tk)) (mkWorld (task_send (w_lt w) tk) (w_calls w) (l1 ++ l2))
| ts_finish w call id s key i lt' :
    w_calls w !! call = Some (CallFinish id s key) → execute_finish (w_lt w) id key = Ret (i, lt') →
    tstep w (VFinish call id key i) (set_call w lt' call (CallReturned (TunableSet_fastest s i)) (w_tasks w))
| ts_clear w : tstep w VClear (mkWorld (clear (w_lt w)) (w_calls w) (w_tasks w))
(** Another process stores a result in the file of a device. *)
| ts_other w id c k v r c' file' :
    Cache_new (file_of (w_lt w) id) None = Ret c →
    Cache_insert c (file_of (w_lt w) id) k v = Ret (r, c', file') →
    tstep w (VOther id) (mkWorld (put_file (w_lt w) id file') (w_calls w) (w_tasks w)).

Inductive runs (w : World) : list tevent → World → Prop :=
| runs_nil : runs w [] w
| runs_snoc tr w' e w'' : runs w tr w' → tstep w' e w'' → runs w (tr ++ [e]) w''.
End Local.
End Tuner.

(** ** The automaton *)

(** [v_fast] is [None] while the device has no tuner; a message is
    [Some f] for a result and [None] for a pending one. *)
Record view := mkView {
  v_tuning : bool;
  v_fast : option TuneCacheResult;
  v_jobs : nat;
  v_tasks : nat;
  v_msgs : list (option nat);
}.
Definition view_init : view := mkView false None 0 0 [].

Definition handled (x : option nat) : TuneCacheResult := match x with Some i => Hit i | None => Pending end.

Inductive vstep : view → view → Prop :=
| v_create r : r = Unchecked ∨ r = Miss → vstep view_init (mkView false (Some r) 0 0 [])
| v_validate r a j tk m : (∃ i, r = Hit i) ∨ r = Miss →
    vstep (mkView a (Some Unchecked) j tk m) (mkView a (Some r) j tk m)
| v_start j tk m : vstep (mkView false (Some Miss) j tk m) (mkView true (Some Miss) (S j) tk m)
| v_send a f j tk m i : vstep (mkView a f (S j) tk m) (mkView a f j tk (m ++ [Some i]))
| v_detach a f j tk m : vstep (mkView a f (S j) tk m) (mkView a f j (S tk) (m ++ [None]))
| v_abort a f j tk m : vstep (mkView a f (S j) tk m) (mkView a f j tk m)
| v_task a f j tk m i : vstep (mkView a f j (S tk) m) (mkView a f j tk (m ++ [Some i]))
| v_lost a f j tk m : vstep (mkView a f j (S tk) m) (mkView a f j tk m)
| v_handle a r j tk m x : vstep (mkView a (Some r) j tk (x :: m)) (mkView a (Some (handled x)) j tk m).

(** At most one result of a key is ever under way. *)
Inductive in_flight : nat → nat → list (option nat) → Prop :=
| fl_quiet : in_flight 0 0 []
| fl_job : in_flight 1 0 []
| fl_task : in_flight 0 1 []
| fl_task_pending : in_flight 0 1 [None]
| fl_pending : in_flight 0 0 [None]
| fl_done i : in_flight 0 0 [Some i]
| fl_pending_done i : in_flight 0 0 [None; Some i].

Record view_ok (v : view) : Prop := {
  vo_flight : in_flight (v_jobs v) (v_tasks v) (v_msgs v);
  vo_idle : v_tuning v = false → v_jobs v = 0 ∧ v_tasks v = 0 ∧ v_msgs v = [];
  vo_hit : ∀ i, v_fast v = Some (Hit i) → v_jobs v = 0 ∧ v_tasks v = 0 ∧ v_msgs v = [];
  vo_checked : v_tuning v = true → v_fast v ≠ Some Unchecked ∧ v_fast v ≠ None;
}.

Lemma view_init_ok : view_ok view_init.
Proof. split; cbn; try done. constructor. Qed.

Lemma vstep_ok v v' : view_ok v → vstep v v' → view_ok v'.
Proof.
  intros [Hf Hi Hh Hc] Hstep. destruct Hstep; cbn in *.
  - split; cbn; first [done|by constructor|naive_solver].
  - split; cbn; try done; [|naive_solver]. intros _ _. destruct a; [naive_solver|]. by apply Hi.
  - destruct (Hi eq_refl) as (-> & -> & ->). split; cbn; try done. constructor.
  - inversion Hf; subst. split; cbn; first [done|by constructor|naive_solver].
  - inversion Hf; subst. split; cbn; first [done|by constructor|naive_solver].
  - inversion Hf; subst. split; cbn; first [done|by constructor|naive_solver].
  - inversion Hf; subst; (split; cbn; first [done|by constructor|naive_solver]).
  - inversion Hf; subst; (split; cbn; first [done|by constructor|naive_solver]).
  - inversion Hf; subst; (split; cbn; first [done|by constructor|naive_solver]).
Qed.

(** A known result never changes. *)
Lemma vstep_hit v v' i : view_ok v → vstep v v' → v_fast v = Some (Hit i) → v_fast v' = Some (Hit i).
Proof.
  intros Hok Hstep Hv. destruct (vo_hit v Hok i Hv) as (Hj & Ht & Hm). destruct Hstep; cbn in *; naive_solver.
Qed.

Lemma vstep_tuning v v' : vstep v v' → v_tuning v = true → v_tuning v' = true.
Proof. by destruct 1. Qed.

(** The result [i] is in the channel or in the cache. *)
Definition settled (i : nat) (v : view) : Prop := v_fast v = Some (Hit i) ∨ Some i ∈ v_msgs v.

Lemma vstep_settled v v' i : view_ok v → vstep v v' → settled i v → settled i v'.
Proof.
  intros Hok Hstep [Hv|Hin]; [left; by eapply vstep_hit|]. destruct Hstep; cbn in *; try (by right; apply elem_of_app; left);
    try (by right).
  apply elem_of_cons in Hin as [<-|Hin]; [by left|by right].
Qed.

Lemma vsteps_ok v v' : view_ok v → rtc vstep v v' → view_ok v'.
Proof. intros Hv H. revert Hv. induction H; eauto using vstep_ok. Qed.
Lemma vsteps_hit v v' i : view_ok v → rtc vstep v v' → v_fast v = Some (Hit i) → v_fast v' = Some (Hit i).
Proof. intros Hv H. revert Hv. induction H; eauto using vstep_ok, vstep_hit. Qed.
Lemma vsteps_tuning v v' : rtc vstep v v' → v_tuning v = true → v_tuning v' = true.
Proof. induction 1; eauto using vstep_tuning. Qed.
Lemma vsteps_settled v v' i : view_ok v → rtc vstep v v' → settled i v → settled i v'.
Proof. intros Hv H. revert Hv. induction H; eauto using vstep_ok, vstep_settled. Qed.

(** ** The view of a tuner *)

Section View.
Context {HO : HashOrder} {K : Type} `{Countable K} `{!Serde (PersistentCacheKey K) PersistentCacheValue}.

Definition msg_key (m : AutotuneMessage K) : K := match m with MDone k _ _ _ => k | MPending k => k end.
Definition msg_kind (m : AutotuneMessage K) : option nat := match m with MDone _ i _ _ => Some i | MPending _ => None end.
Definition msgs_for (k : K) (l : list (AutotuneMessage K)) : list (option nat) :=
  msg_kind <$> filter (λ m, msg_key m = k) l.

Definition tview (t : Tuner K) (j tk : nat) (k : K) : view :=
  mkView (bool_decide (k ∈ tu_autotuning t)) (Some (fastest t k)) j tk (msgs_for k (tu_channel t)).

Lemma msgs_for_app k l1 l2 : msgs_for k (l1 ++ l2) = msgs_for k l1 ++ msgs_for k l2.
Proof. unfold msgs_for. by rewrite filter_app, fmap_app. Qed.
Lemma msgs_for_one k m : msgs_for k [m] = if decide (msg_key m = k) then [msg_kind m] else [].
Proof. unfold msgs_for. rewrite filter_cons, filter_nil. by case_decide. Qed.

Lemma fastest_insert (c : TuneCache K) (k : K) e (k' : K) :
  cache_fastest (set_memory c (<[k := e]> (tc_memory c))) k' =
    if decide (k = k') then cache_fastest (set_memory c {[k := e]}) k else cache_fastest c k'.
Proof.
  unfold cache_fastest, set_memory. cbn. case_decide as Hk.
  - subst k'. by rewrite lookup_insert_eq, lookup_singleton_eq.
  - by rewrite lookup_insert_ne.
Qed.

(** Validation decides an unchecked entry and changes nothing else. *)
Lemma validate_view (t : Tuner K) (k : K) cs k' j tk :
  rtc vstep (tview t j tk k') (tview (validate_checksum t k cs) j tk k').
Proof.
  unfold validate_checksum, cache_validate_checksum. destruct (tc_memory (tu_cache t) !! k) as [[[]|]|] eqn:Hk; cbn; try done;
    try (by destruct t; apply rtc_refl).
  unfold tview, fastest, set_cache. cbn [tu_cache tu_channel tu_autotuning]. rewrite fastest_insert. case_decide as Heq; [|done].
  subst k'. unfold cache_fastest. rewrite Hk. cbn. rewrite lookup_singleton_eq.
  destruct (tc_persistent (tu_cache t)); [|done]. apply rtc_once. constructor. case_decide; [left; by eexists|by right].
Qed.

Lemma validate_fastest (t : Tuner K) (k : K) cs : fastest t k = Unchecked →
  fastest (validate_checksum t k cs) k = Miss ∨ ∃ i, fastest (validate_checksum t k cs) k = Hit i.
Proof.
  unfold fastest, validate_checksum, cache_validate_checksum, cache_fastest.
  destruct (tc_memory (tu_cache t) !! k) as [[[]|]|] eqn:Hk; cbn; try done; destruct (tc_persistent (tu_cache t)) eqn:Hp; try done.
  intros _. cbn. rewrite lookup_insert_eq. case_decide; [right; by eexists|by left].
Qed.

(** What the result of a job looks like. *)
Lemma prepare_done (dev : Device) (k : K) (s : TunableSet K) m :
  prepare_autotune dev k s = Ret m →
  ∃ i results, m = MDone k i results (compute_checksum s) ∧
    (length (ts_tunables s) ≠ 1 → ∃ o, head results = Some (Ok o)).
Proof.
  unfold prepare_autotune, autotunables. rewrite length_fmap. case_eq (length (ts_tunables s) =? 1)%nat; intros Hl.
  - intros [= <-]. do 2 eexists. split; [done|]. apply Nat.eqb_eq in Hl. done.
  - intros (plan & _ & Hg)%obind_ret. unfold generate_tune_message in Hg. apply obind_ret in Hg as (rs & _ & Hg).
    apply obind_ret in Hg as (r & Hr & Hg). destruct r as [o|]; [|done]. injection Hg as <-.
    do 2 eexists. split; [done|]. intros _. exists o. by destruct (head _); [injection Hr as ->|].
Qed.
End View.

Abbreviation newline := [x0a].

Section Props.
Context {HO : HashOrder} {K : Type} `{Countable K} `{!Serde (PersistentCacheKey K) PersistentCacheValue}.
Context (target : Target) (level : AutotuneLogLevel).
Context (order : gmap (PersistentCacheKey K) PersistentCacheValue → list (PersistentCacheKey K * PersistentCacheValue)).
(** An encoded entry is a single line. *)
Context (Hline : ∀ e : PersistentCacheKey K * PersistentCacheValue,
  find_sep newline (encode e ++ newline) = Some (length (encode e))).

(** ** Messages *)

Definition persist_inv (file : File) (op : option (Cache (PersistentCacheKey K) PersistentCacheValue)) : Prop :=
  ∃ log, NoDup log.*1 ∧ file = encode_all newline log ∧ ∀ p, op = Some p → ∃ n, reads newline log p n.

Definition loggable (m : AutotuneMessage K) : Prop :=
  match m with
  | MPending _ => True
  | MDone _ _ results _ => level = LDisabled ∨ ∃ o, head results = Some (Ok o)
  end.

Lemma log_results_ok k i results cs : loggable (MDone k i results cs) → log_results level results = Ret tt.
Proof using. unfold log_results. intros [->|[o Ho]]; [done|]. rewrite Ho. by destruct level. Qed.

Lemma fastest_persistent m (p : option (Cache (PersistentCacheKey K) PersistentCacheValue)) p' k :
  is_Some p ↔ is_Some p' → cache_fastest (mkTuneCache m p) k = cache_fastest (mkTuneCache (K := K) m p') k.
Proof using.
  intros Hp. unfold cache_fastest. cbn. destruct p as [p|], p' as [p'|]; try done; exfalso.
  - assert (is_Some (Some p)) as Hs by done. apply Hp in Hs. by destruct Hs.
  - assert (is_Some (Some p')) as Hs by done. apply Hp in Hs. by destruct Hs.
Qed.

Lemma persistent_insert_spec (c : TuneCache K) file k cs i rs :
  persist_inv file (tc_persistent c) →
  ∃ c' file', persistent_cache_insert c file k cs i rs = Ret (c', file') ∧ persist_inv file' (tc_persistent c') ∧
    ∀ k', cache_fastest c' k' = cache_fastest c k'.
Proof using Hline.
  intros (log & Hn & -> & Hr). unfold persistent_cache_insert. destruct (tc_persistent c) as [p|] eqn:Hp.
  - destruct (Hr p eq_refl) as [n Hrp].
    destruct (insert_spec newline ltac:(done) Hline log p n (mkPKey k cs) (mkPValue i rs) Hn Hrp)
      as (err & p' & log' & Hins & _ & Hn' & Hr').
    rewrite Hins. cbn [obind]. do 2 eexists. split; [done|]. split.
    + exists log'. split; [done|]. split; [done|]. intros q [= <-]. by eexists.
    + intros k'. destruct c as [m q]. cbn in *. subst q. apply fastest_persistent. split; by eexists.
  - do 2 eexists. split; [done|]. split; [|done]. exists log. split; [done|]. split; [done|]. congruence.
Qed.

Lemma handle_result_spec (t : Tuner K) file m :
  persist_inv file (tc_persistent (tu_cache t)) → loggable m →
  ∃ t' file', handle_result level t file m = Ret (t', file') ∧ persist_inv file' (tc_persistent (tu_cache t')) ∧
    tu_channel t' = tu_channel t ∧ tu_autotuning t' = tu_autotuning t ∧
    ∀ k, fastest t' k = if decide (msg_key m = k) then handled (msg_kind m) else fastest t k.
Proof using Hline.
  intros Hp Hl. destruct m as [k i rs cs|k]; cbn [handle_result].
  - rewrite (log_results_ok k i rs cs Hl). cbn [obind].
    destruct (persistent_insert_spec (cache_insert (tu_cache t) k i) file k cs i rs Hp) as (c' & file' & -> & Hp' & Hf).
    cbn [obind]. do 2 eexists. split_and!; try done. intros k'. unfold fastest. cbn. rewrite Hf. unfold cache_insert.
    rewrite fastest_insert. case_decide; [|done]. unfold cache_fastest. cbn. rewrite lookup_singleton_eq. by case_match.
  - do 2 eexists. split_and!; try done. intros k'. unfold fastest. cbn. unfold mark_pending.
    rewrite fastest_insert. case_decide; [|done]. unfold cache_fastest. cbn. by rewrite lookup_singleton_eq.
Qed.

Lemma handle_messages_spec msgs (t : Tuner K) file :
  persist_inv file (tc_persistent (tu_cache t)) → Forall loggable msgs →
  ∃ t' file', handle_messages level t file msgs = Ret (t', file') ∧ persist_inv file' (tc_persistent (tu_cache t')) ∧
    tu_channel t' = [] ∧ tu_autotuning t' = tu_autotuning t ∧
    ∀ k j tk, rtc vstep (mkView (bool_decide (k ∈ tu_autotuning t)) (Some (fastest t k)) j tk (msgs_for k msgs)) (tview t' j tk k).
Proof using Hline.
  revert t file. induction msgs as [|m msgs IH]; intros t file Hp Hl; cbn [handle_messages].
  - by do 2 eexists.
  - apply Forall_cons in Hl as [Hm Hl].
    destruct (handle_result_spec (mkTuner (tu_cache t) msgs (tu_autotuning t)) file m Hp Hm) as (t1 & f1 & -> & Hp1 & _ & Ha & Hf).
    cbn [obind]. destruct (IH t1 f1 Hp1 Hl) as (t' & file' & -> & Hp' & Hc & Ha' & Hv).
    do 2 eexists. split_and!; try done; [by rewrite Ha', Ha|]. intros k j tk. specialize (Hv k j tk).
    rewrite Ha, Hf in Hv. cbn [tu_autotuning] in Hv. change (m :: msgs) with ([m] ++ msgs). rewrite msgs_for_app, msgs_for_one.
    case_decide; [|done]. eapply rtc_l; [|exact Hv]. apply v_handle.
Qed.

(** ** A new tuner *)

Lemma load_entries_lookup l (m : gmap K CacheEntry) k e :
  load_entries l m !! k = Some e → m !! k = Some e ∨ ∃ cs i, e = CDone (ToBeVerified cs) i.
Proof using.
  revert m. induction l as [|[[k0 cs0] v0] l IH]; intros m; [by left|]. cbn. intros [Hm|Hm]%IH; [|by right].
  cbn in Hm. apply lookup_insert_Some in Hm as [[_ <-]|[_ Hm]]; [right; by do 2 eexists|by left].
Qed.

Lemma tuner_new_spec file op :
  persist_inv file op →
  ∃ t, Tuner_new target order file = Ret t ∧ persist_inv file (tc_persistent (tu_cache t)) ∧ tu_channel t = [] ∧
    tu_autotuning t = ∅ ∧ ∀ k, fastest t k = Unchecked ∨ fastest t k = Miss.
Proof using Hline.
  intros (log & Hn & -> & _). unfold Tuner_new, TuneCache_new. destruct target.
  - destruct (new_spec newline ltac:(done) Hline log Hn) as (c & Hc & Hr).
    change (Cache_new (encode_all newline log) (Some newline)) with (Cache_new (encode_all newline log) None) in Hc. rewrite Hc.
    cbn [obind]. destruct (for_each_spec newline ltac:(done) Hline log c _ Hn Hr) as (c' & m & -> & _ & Hr'). cbn [obind].
    eexists. split_and!; try done.
    + exists log. split; [done|]. split; [done|]. intros p [= <-]. by eexists.
    + intros k. unfold fastest, cache_fastest. cbn. destruct (load_entries _ _ !! k) as [e|] eqn:He; [|by right].
      apply load_entries_lookup in He as [He|(cs & i & ->)]; [by rewrite lookup_empty in He|by left].
  - cbn. eexists. split_and!; try done.
    + exists log. split; [done|]. split; [done|]. cbn. congruence.
    + intros k. right. unfold fastest, cache_fastest. cbn. by rewrite lookup_empty.
Qed.
End Props.
