(* ===== verification/LocalTunerSpec.v ===== *)
(** * Concurrent calls of the local tuner

    The invariant of all interleavings of [LocalTuner.v] and the theorems on
    them, for runs in which the tuner is not cleared.

    The last part holds a run in which two calls race for the same key, and the
    situations in which the critical sections panic. *)

From S2P Require Import Prelude TunePlan TuneSelect PersistentCache LocalTuner.
From Stdlib Require Import Strings.Byte.

Open Scope nat_scope.
Open Scope rust_scope.

Section Spec.
Context {HO : HashOrder} {K : Type} `{Countable K} `{!Serde (PersistentCacheKey K) PersistentCacheValue}.
Context {ID : Type} `{Countable ID}.
Context (target : Target) (level : AutotuneLogLevel).
Context (order : gmap (PersistentCacheKey K) PersistentCacheValue → list (PersistentCacheKey K * PersistentCacheValue)).
Context (Hline : ∀ e : PersistentCacheKey K * PersistentCacheValue,
  find_sep newline (encode e ++ newline) = Some (length (encode e))).

Abbreviation LocalT := (LocalTuner (K := K) (ID := ID)).
Abbreviation CallT := (Call (K := K) (ID := ID)).
Abbreviation TaskT := (Task (K := K) (ID := ID)).
Abbreviation WorldT := (World (K := K) (ID := ID)).
Abbreviation EventT := (tevent (K := K) (ID := ID)).

(** ** Views of a world *)

Definition tuner_of (lt : LocalT) (id : ID) : option (Tuner K) := default ∅ (lt_state lt) !! id.

Definition is_job (id : ID) (k : K) (c : CallT) : bool :=
  match c with CallJob id' _ k' _ true => bool_decide (id' = id ∧ k' = k) | _ => false end.
Definition njobs (calls : gmap nat CallT) (id : ID) (k : K) : nat :=
  size (filter (λ p, is_job id k p.2 = true) calls).
Definition ntasks (tasks : list TaskT) (id : ID) (k : K) : nat :=
  length (filter (λ tk, tk_id tk = id ∧ tk_key tk = k) tasks).

Definition view_in (lt : LocalT) (j tk : nat) (id : ID) (k : K) : view :=
  match tuner_of lt id with Some t => tview t j tk k | None => mkView false None j tk [] end.
Definition view_of (w : WorldT) (id : ID) (k : K) : view :=
  view_in (w_lt w) (njobs (w_calls w) id k) (ntasks (w_tasks w) id k) id k.

Lemma njobs_insert calls c x id k :
  njobs (<[c := x]> calls) id k + Nat.b2n (default false (is_job id k <$> calls !! c)) =
  njobs calls id k + Nat.b2n (is_job id k x).
Proof using.
  unfold njobs. rewrite <- (insert_delete_eq (M := gmap nat) calls c x).
  assert (size (filter (λ p, is_job id k p.2 = true) calls) =
    size (filter (λ p, is_job id k p.2 = true) (delete c calls)) + Nat.b2n (default false (is_job id k <$> calls !! c))) as ->.
  { destruct (calls !! c) as [y|] eqn:Hc; cbn; [|rewrite delete_id by done; lia].
    rewrite <- (insert_delete_id calls c y) at 1 by done.
    destruct (is_job id k y) eqn:Hy; cbn.
    - rewrite map_filter_insert_True by done. rewrite map_size_insert_None; [lia|].
      rewrite map_lookup_filter_None. left. apply lookup_delete_eq.
    - rewrite map_filter_insert_False by (cbn; congruence). rewrite delete_delete_eq. lia. }
  destruct (is_job id k x) eqn:Hx; cbn.
  - rewrite map_filter_insert_True by done. rewrite map_size_insert_None; [lia|].
    rewrite map_lookup_filter_None. left. apply lookup_delete_eq.
  - rewrite map_filter_insert_False by (cbn; congruence). rewrite delete_delete_eq. lia.
Qed.

Lemma ntasks_app l1 l2 id k : ntasks (l1 ++ l2) id k = ntasks l1 id k + ntasks l2 id k.
Proof using. unfold ntasks. by rewrite filter_app, length_app. Qed.

Lemma tuner_of_put lt id t id' : tuner_of (put_tuner lt id t) id' = if decide (id = id') then Some t else tuner_of lt id'.
Proof using. unfold tuner_of, put_tuner. cbn. case_decide; [subst; by rewrite lookup_insert_eq|by rewrite lookup_insert_ne]. Qed.
Lemma file_of_put (lt : LocalT) (id : ID) f (id' : ID) : file_of (put_file lt id f) id' = if decide (id = id') then f else file_of lt id'.
Proof using. unfold file_of, put_file. cbn. case_decide; [subst; by rewrite lookup_insert_eq|by rewrite lookup_insert_ne]. Qed.

Lemma view_in_put lt id t j tk id' k :
  view_in (put_tuner lt id t) j tk id' k = if decide (id = id') then tview t j tk k else view_in lt j tk id' k.
Proof using. unfold view_in. rewrite tuner_of_put. by case_decide. Qed.

(** ** The invariant *)

Definition set_ok (s : TunableSet K) : Prop := level = LDisabled ∨ length (ts_tunables s) ≠ 1.

Definition call_ok (w : WorldT) (c : CallT) : Prop :=
  match c with
  | CallJob id s k sender _ => sender = 0 ∧ v_tuning (view_of w id k) = true ∧ set_ok s
  | CallFinish id _ k => v_tuning (view_of w id k) = true
  | _ => True
  end.
Definition task_ok (tk : TaskT) : Prop :=
  tk_sender tk = 0 ∧ ∀ m, tk_result tk = Ret m → loggable level m ∧ msg_key m = tk_key tk ∧ is_Some (msg_kind m).

Record winv (w : WorldT) : Prop := {
  wi_clears : lt_clears (w_lt w) = 0;
  wi_view : ∀ id k, view_ok (view_of w id k);
  wi_calls : ∀ c x, w_calls w !! c = Some x → call_ok w x;
  wi_tasks : Forall task_ok (w_tasks w);
  wi_chan : ∀ id t, tuner_of (w_lt w) id = Some t → Forall (loggable level) (tu_channel t);
  wi_file : ∀ id, persist_inv (file_of (w_lt w) id) (tuner_of (w_lt w) id ≫= λ t, tc_persistent (tu_cache t));
}.

(** A step whose effect on the views is known preserves the invariant. *)
Lemma winv_step w w' :
  winv w → lt_clears (w_lt w') = 0 →
  (∀ id k, rtc vstep (view_of w id k) (view_of w' id k)) →
  (∀ c x, w_calls w' !! c = Some x → w_calls w !! c = Some x ∨ call_ok w' x) →
  Forall task_ok (w_tasks w') →
  (∀ id t, tuner_of (w_lt w') id = Some t → Forall (loggable level) (tu_channel t)) →
  (∀ id, persist_inv (file_of (w_lt w') id) (tuner_of (w_lt w') id ≫= λ t, tc_persistent (tu_cache t))) →
  winv w'.
Proof using.
  intros [Hcl Hv Hc Ht Hch Hf] Hcl' Hsteps Hcalls Ht' Hch' Hf'. split; try done.
  - intros id k. by eapply vsteps_ok.
  - intros c x Hx. destruct (Hcalls c x Hx) as [Hold|]; [|done]. specialize (Hc c x Hold). destruct x; cbn in *; try done.
    + destruct Hc as (? & Hb & ?). split_and!; try done. eapply vsteps_tuning; [apply Hsteps|done].
    + eapply vsteps_tuning; [apply Hsteps|done].
Qed.

Lemma get_tuner_spec w id :
  winv w →
  ∃ t, get_tuner target order (w_lt w) id = Ret t ∧
    (∀ k, rtc vstep (view_of w id k) (tview t (njobs (w_calls w) id k) (ntasks (w_tasks w) id k) k)) ∧
    (∀ k, v_tuning (view_of w id k) = bool_decide (k ∈ tu_autotuning t)) ∧
    Forall (loggable level) (tu_channel t) ∧ persist_inv (file_of (w_lt w) id) (tc_persistent (tu_cache t)).
Proof using Hline.
  intros [Hcl Hv Hc Ht Hch Hf]. unfold get_tuner. specialize (Hf id). specialize (Hch id).
  assert (∀ k, view_ok (view_of w id k)) as Hvk by (intros; apply Hv). unfold view_of, view_in in *.
  change (default ∅ (lt_state (w_lt w)) !! id) with (tuner_of (w_lt w) id).
  destruct (tuner_of (w_lt w) id) as [t|].
  - eexists. split_and!; try done. by apply Hch.
  - destruct (tuner_new_spec target order Hline _ _ Hf) as (t & -> & Hp & Hct & Ha & Hfast).
    eexists. split_and!; try done.
    + intros k. destruct (vo_idle _ (Hvk k) eq_refl) as (Hj & Htk & _). cbn in Hj, Htk. rewrite Hj, Htk.
      apply rtc_once. unfold tview. rewrite Hct, Ha, bool_decide_false by set_solver. by apply v_create.
    + intros k. rewrite Ha. cbn. by rewrite bool_decide_false by set_solver.
    + by rewrite Hct.
Qed.

(** ** The steps *)

Definition starts (id : ID) (k : K) (e : EventT) : bool :=
  match e with VStart _ id' _ k' (LJob true) => bool_decide (id' = id ∧ k' = k) | _ => false end.
Definition started (key k : K) (l : Lookup) : nat :=
  match l with LJob true => if decide (key = k) then 1 else 0 | _ => 0 end.

(** What the first critical section does to the tuner, given what it returns. *)
Record looked_up (w : WorldT) (id : ID) (key : K) (l : Lookup) (t : Tuner K) : Prop := {
  lk_chan : Forall (loggable level) (tu_channel t);
  lk_file : persist_inv (file_of (w_lt w) id) (tc_persistent (tu_cache t));
  lk_tuning : ∀ b, l = LJob b → key ∈ tu_autotuning t;
  lk_view : ∀ k, rtc vstep (view_of w id k) (tview t (njobs (w_calls w) id k + started key k l) (ntasks (w_tasks w) id k) k);
  lk_once : ∀ k, if decide (started key k l = 1) then v_tuning (view_of w id k) = false ∧ k ∈ tu_autotuning t
                 else v_tuning (view_of w id k) = bool_decide (k ∈ tu_autotuning t);
}.

Lemma looked_up_start w id key i t :
  looked_up w id key (LRun i) t → fastest t key = Miss → key ∉ tu_autotuning t →
  looked_up w id key (LJob true) (mkTuner (tu_cache t) (tu_channel t) ({[key]} ∪ tu_autotuning t)).
Proof using.
  clear Hline. intros [Hc Hf Ht Hv Ho] Hm Hin. split; cbn; try done; [set_solver| |].
  - intros k. etransitivity; [apply Hv|]. cbn. rewrite Nat.add_0_r. unfold tview, fastest in *. cbn. case_decide as Hk.
    + subst k. apply rtc_once. rewrite Nat.add_1_r, bool_decide_false, Hm, bool_decide_true by set_solver. apply v_start.
    + rewrite Nat.add_0_r. by replace (bool_decide (k ∈ {[key]} ∪ tu_autotuning t)) with (bool_decide (k ∈ tu_autotuning t))
        by (apply bool_decide_ext; set_solver).
  - intros k. specialize (Ho k). cbn in Ho. rewrite Ho. destruct (decide (key = k)) as [<-|Hk]; cbn.
    + rewrite bool_decide_false by done. set_solver.
    + apply bool_decide_ext. set_solver.
Qed.

Lemma looked_up_validate w id key i t cs :
  looked_up w id key (LRun i) t → looked_up w id key (LRun i) (validate_checksum t key cs).
Proof using.
  intros [Hc Hf Ht Hv Ho].
  assert (tc_persistent (tu_cache (validate_checksum t key cs)) = tc_persistent (tu_cache t)) as Hp.
  { unfold validate_checksum, cache_validate_checksum. cbn. by repeat case_match. }
  split; try done; [by rewrite Hp|]. intros k. etransitivity; [apply Hv|]. apply validate_view.
Qed.

Lemma lookup_spec w id s key :
  winv w →
  ∃ l t, execute_lookup target order (w_lt w) id s key = Ret (l, put_tuner (w_lt w) id t) ∧ looked_up w id key l t.
Proof using Hline.
  intros Hw. destruct (get_tuner_spec w id Hw) as (t & Hget & Hv & Ha & Hch & Hp). unfold execute_lookup. rewrite Hget. cbn [obind].
  assert (∀ i, looked_up w id key (LRun i) t) as Hrun.
  { intros i. split; cbn; try done. intros k. by rewrite Nat.add_0_r. }
  assert (∀ t1, looked_up w id key (LRun 0) t1 → fastest t1 key = Miss → ∃ l t',
    (if decide (key ∈ tu_autotuning t1) then Ret (LJob false, put_tuner (w_lt w) id t1)
     else Ret (LJob true, put_tuner (w_lt w) id (mkTuner (tu_cache t1) (tu_channel t1) ({[key]} ∪ tu_autotuning t1)))) =
    Ret (l, put_tuner (w_lt w) id t') ∧ looked_up w id key l t') as Hstart.
  { intros t1 H1 Hm. case_decide as Hin.
    - do 2 eexists. split; [done|]. destruct H1 as [Hc1 Hf1 Ht1 Hv1 Ho1]. by split.
    - do 2 eexists. split; [done|]. by eapply looked_up_start. }
  destruct (fastest t key) eqn:Hfast; [by do 2 eexists| |by do 2 eexists|by apply Hstart].
  destruct (validate_fastest t key (compute_checksum s) Hfast) as [Hm|[i Hi]].
  - rewrite Hm. apply Hstart; [by apply looked_up_validate|done].
  - rewrite Hi. do 2 eexists. split; [done|]. by apply looked_up_validate.
Qed.

Definition event_ok (e : EventT) : Prop :=
  match e with VStart _ _ s _ _ => set_ok s | VClear => False | _ => True end.

Record stepped (w : WorldT) (e : EventT) (w' : WorldT) : Prop := {
  sp_inv : winv w';
  sp_view : ∀ id k, rtc vstep (view_of w id k) (view_of w' id k);
  sp_once : ∀ id k, if starts id k e then v_tuning (view_of w id k) = false ∧ v_tuning (view_of w' id k) = true
                    else v_tuning (view_of w' id k) = v_tuning (view_of w id k);
  sp_tune : ∀ c id k i rs cs, e = VTune c id k (MDone k i rs cs) → settled i (view_of w' id k);
  sp_finish : ∀ c id k i, e = VFinish c id k i → ∀ j, settled j (view_of w id k) → i = j ∧ v_fast (view_of w' id k) = Some (Hit j);
}.

Lemma start_stepped w call id s key l lt' :
  winv w → w_calls w !! call = None → set_ok s → execute_lookup target order (w_lt w) id s key = Ret (l, lt') →
  stepped w (VStart call id s key l) (set_call w lt' call (after_lookup lt' id s key l) (w_tasks w)).
Proof using Hline.
  intros Hw Hnone Hs Hl. destruct (lookup_spec w id s key Hw) as (l' & t & Hl' & [Hc Hf Ht Hv Ho]). rewrite Hl in Hl'.
  injection Hl' as <- ->. set (w' := set_call w _ _ _ _).
  assert (∀ id' k, njobs (w_calls w') id' k = njobs (w_calls w) id' k + if decide (id = id') then started key k l else 0) as Hj.
  { intros id' k. cbn. pose proof (njobs_insert (w_calls w) call (after_lookup (put_tuner (w_lt w) id t) id s key l) id' k) as Hi.
    rewrite Hnone in Hi. cbn in Hi. rewrite Nat.add_0_r in Hi. rewrite Hi. f_equal. destruct l as [i|[]]; cbn.
    - by case_decide.
    - repeat case_decide; try (rewrite bool_decide_true; [done|naive_solver]); (rewrite bool_decide_false; [done|naive_solver]).
    - by case_decide. }
  assert (∀ id' k, view_of w' id' k = if decide (id = id') then
    tview t (njobs (w_calls w) id' k + started key k l) (ntasks (w_tasks w) id' k) k else view_of w id' k) as Hview.
  { intros id' k. unfold view_of at 1. rewrite Hj. cbn [w' w_lt w_tasks set_call]. rewrite view_in_put. case_decide; [done|].
    by rewrite Nat.add_0_r. }
  assert (∀ id' k, rtc vstep (view_of w id' k) (view_of w' id' k)) as Hsteps.
  { intros id' k. rewrite Hview. case_decide; [subst; apply Hv|done]. }
  split; try done.
  - eapply winv_step; try done.
    + apply (wi_clears _ Hw).
    + intros c x Hx. unfold w' in Hx. cbn in Hx. apply lookup_insert_Some in Hx as [[<- <-]|[_ ?]]; [|by left]. right. destruct l as [i|b]; [done|]. cbn. split_and!; try done.
      * apply (wi_clears _ Hw).
      * rewrite Hview, decide_True by done. cbn. apply bool_decide_true. by apply (Ht b).
    + apply (wi_tasks _ Hw).
    + intros id' t'. cbn [w' w_lt set_call]. rewrite tuner_of_put. case_decide; [by intros [= <-]|]. apply (wi_chan _ Hw).
    + intros id'. cbn [w' w_lt set_call]. rewrite tuner_of_put. case_decide; [by subst|]. apply (wi_file _ Hw).
  - intros id' k. rewrite Hview. specialize (Ho k). unfold starts.
    destruct (decide (id = id')) as [<-|Hid]; [|by destruct l as [|[]]; rewrite ?bool_decide_false by naive_solver].
    destruct l as [i|[]]; cbn in *; try done. destruct (decide (key = k)) as [<-|Hk]; cbn in Ho.
    + rewrite (bool_decide_true (id = id ∧ key = key)) by done. destruct Ho as [Ho Hin]. split; [done|by apply bool_decide_true].
    + rewrite (bool_decide_false (id = id ∧ key = k)) by naive_solver. done.
Qed.

(** A call that moves on without touching the tuner: a job it held is lost. *)
Lemma call_stepped w e call y x :
  winv w → w_calls w !! call = Some y → (∀ id k, is_job id k x = false) → call_ok w x →
  (∀ id k, starts id k e = false) → (∀ c id k m, e ≠ VTune c id k m) → (∀ c id k i, e ≠ VFinish c id k i) →
  stepped w e (set_call w (w_lt w) call x (w_tasks w)).
Proof using.
  intros Hw Hy Hx Hok He Ht Hf. set (w' := set_call w _ _ _ _).
  assert (∀ id k, njobs (w_calls w') id k + Nat.b2n (is_job id k y) = njobs (w_calls w) id k) as Hj.
  { intros id k. cbn. pose proof (njobs_insert (w_calls w) call x id k) as Hi. rewrite Hy, Hx in Hi. cbn in Hi. lia. }
  assert (∀ id k, v_tuning (view_of w' id k) = v_tuning (view_of w id k)) as Htu.
  { intros id k. unfold view_of, view_in. cbn. by destruct (tuner_of _ _). }
  assert (∀ id k, rtc vstep (view_of w id k) (view_of w' id k)) as Hsteps.
  { intros id k. unfold view_of. rewrite <- Hj. cbn [w' w_lt w_tasks set_call]. destruct (is_job id k y); cbn [Nat.b2n].
    - rewrite Nat.add_1_r. apply rtc_once. unfold view_in. destruct (tuner_of _ _); apply v_abort.
    - by rewrite Nat.add_0_r. }
  split; [|exact Hsteps| | |].
  - eapply winv_step; try done; try apply Hw. intros c z Hz. unfold w' in Hz. cbn in Hz.
    apply lookup_insert_Some in Hz as [[<- <-]|[_ ?]]; [|by left]. right. destruct x; try done; cbn in *; by rewrite Htu.
  - intros id k. by rewrite He, Htu.
  - intros c id k i rs cs ->. by destruct (Ht c id k (MDone k i rs cs)).
  - intros c id k i ->. by destruct (Hf c id k i).
Qed.

Lemma try_send_some (lt lt' : LocalT) id sender m :
  try_send lt id sender m = Some lt' →
  ∃ t, tuner_of lt id = Some t ∧ lt' = put_tuner lt id (mkTuner (tu_cache t) (tu_channel t ++ [m]) (tu_autotuning t)).
Proof using.
  unfold try_send. destruct (_ =? _)%nat; [|done]. change (default ∅ (lt_state lt) !! id) with (tuner_of lt id).
  destruct (tuner_of lt id) as [t|]; [|done]. cbn. intros [= <-]. by eexists.
Qed.

(** Sending a message to the tuner of a device. *)
Lemma send_view (lt : LocalT) id t m j tk id' k :
  tuner_of lt id = Some t →
  view_in (put_tuner lt id (mkTuner (tu_cache t) (tu_channel t ++ [m]) (tu_autotuning t))) j tk id' k =
  let v := view_in lt j tk id' k in
  if decide (id = id' ∧ msg_key m = k) then mkView (v_tuning v) (v_fast v) j tk (v_msgs v ++ [msg_kind m]) else v.
Proof using.
  intros Ht. rewrite view_in_put. unfold tview. cbn [tu_channel tu_autotuning]. rewrite msgs_for_app, msgs_for_one.
  destruct (decide (id = id')) as [<-|Hid]; [|by rewrite decide_False by naive_solver].
  unfold view_in. rewrite Ht. destruct (decide (msg_key m = k)) as [Hk|Hk].
  - by rewrite decide_True by done.
  - rewrite decide_False by naive_solver. by rewrite app_nil_r.
Qed.

Lemma run_job_spec dev key s msg task :
  run_job target dev key s = Ret (msg, task) → set_ok s →
  loggable level msg ∧ msg_key msg = key ∧
  match task with
  | None => is_Some (msg_kind msg)
  | Some r => msg_kind msg = None ∧ ∀ m, r = Ret m → loggable level m ∧ msg_key m = key ∧ is_Some (msg_kind m)
  end.
Proof using.
  intros Hrun Hs.
  assert (∀ m, prepare_autotune dev key s = Ret m → loggable level m ∧ msg_key m = key ∧ is_Some (msg_kind m)) as Hprep.
  { intros m (i & rs & -> & Ho)%prepare_done. cbn. split; [|done]. destruct Hs; [by left|right; by apply Ho]. }
  unfold run_job in Hrun. destruct target.
  - apply obind_ret in Hrun as (m & Hm & [= <- <-]). destruct (Hprep _ Hm) as (? & ? & ?). done.
  - destruct (length _ =? 1)%nat.
    + apply obind_ret in Hrun as (m & Hm & [= <- <-]). destruct (Hprep _ Hm) as (? & ? & ?). done.
    + injection Hrun as <- <-. by split_and!.
Qed.

Lemma ntasks_task_of id sender key task id' k :
  ntasks (task_of id sender key task) id' k = if decide (id = id' ∧ key = k) then match task with Some _ => 1 | None => 0 end else 0.
Proof using.
  destruct task; cbn [task_of]; unfold ntasks.
  - rewrite filter_cons, filter_nil. cbn [tk_id tk_key]. by case_decide.
  - by case_decide.
Qed.

Lemma tune_stepped w call id s key sender dev msg task lt' :
  winv w → w_calls w !! call = Some (CallJob id s key sender true) →
  run_job target dev key s = Ret (msg, task) → try_send (w_lt w) id sender msg = Some lt' →
  stepped w (VTune call id key msg)
    (set_call w lt' call (CallFinish id s key) (w_tasks w ++ task_of id sender key task)).
Proof using.
  intros Hw Hc Hrun Hsend. pose proof (wi_calls _ Hw _ _ Hc) as (Hs0 & Htun & Hset).
  destruct (run_job_spec _ _ _ _ _ Hrun Hset) as (Hlog & Hkey & Htask). apply try_send_some in Hsend as (t & Ht & ->).
  set (w' := set_call w _ _ _ _).
  assert (∀ id' k, njobs (w_calls w) id' k = njobs (w_calls w') id' k + if decide (id = id' ∧ key = k) then 1 else 0) as Hj.
  { intros id' k. pose proof (njobs_insert (w_calls w) call (CallFinish id s key) id' k) as Hi. rewrite Hc in Hi.
    cbn [w' w_calls set_call]. cbn [is_job fmap option_fmap option_map default Nat.b2n] in Hi.
    destruct (decide (id = id' ∧ key = k)); [rewrite bool_decide_true in Hi by done|rewrite bool_decide_false in Hi by done];
      cbn in Hi |- *; lia. }
  assert (∀ id' k, vstep (view_of w id' k) (view_of w' id' k) ∨
    view_of w' id' k = view_of w id' k ∧ ¬ (id = id' ∧ key = k)) as Hsteps.
  { intros id' k. unfold view_of. rewrite Hj. cbn [w' w_lt w_tasks set_call].
    rewrite (send_view _ _ _ _ _ _ _ _ Ht), ntasks_app, ntasks_task_of, Hkey. case_decide as Hk.
    - left. destruct Hk as [<- <-]. rewrite Nat.add_1_r. unfold view_in. rewrite Ht. cbn. destruct task as [r|].
      + destruct Htask as [-> _]. rewrite Nat.add_1_r. apply v_detach.
      + destruct Htask as [i ->]. rewrite Nat.add_0_r. apply v_send.
    - right. by rewrite !Nat.add_0_r. }
  assert (∀ id' k, v_tuning (view_of w' id' k) = v_tuning (view_of w id' k)) as Htu.
  { intros id' k. unfold view_of. cbn [w' w_lt w_tasks set_call]. rewrite (send_view _ _ _ _ _ _ _ _ Ht). unfold view_in.
    cbv zeta. case_decide; cbn [v_tuning]; by destruct (tuner_of (w_lt w) id'). }
  split.
  - eapply winv_step; try done.
    + apply Hw.
    + intros id' k. destruct (Hsteps id' k) as [|[-> _]]; [by apply rtc_once|done].
    + intros c x Hx. unfold w' in Hx. cbn in Hx. apply lookup_insert_Some in Hx as [[<- <-]|[_ ?]]; [|by left]. right.
      cbn. by rewrite Htu.
    + cbn. apply Forall_app. split; [apply Hw|]. destruct task as [r|]; cbn; [|done]. apply Forall_singleton.
      split; [done|apply Htask].
    + intros id' t'. cbn [w' w_lt set_call]. rewrite tuner_of_put. case_decide as Hid; [|apply Hw]. intros [= <-]. cbn.
      apply Forall_app. split; [by eapply (wi_chan _ Hw)|by apply Forall_singleton].
    + intros id'. cbn [w' w_lt set_call]. rewrite tuner_of_put. case_decide as Hid; [|apply Hw].
      subst id'. pose proof (wi_file _ Hw id) as Hf. by rewrite Ht in Hf.
  - intros id' k. destruct (Hsteps id' k) as [|[-> _]]; [by apply rtc_once|done].
  - intros id' k. cbn. by rewrite Htu.
  - intros c id' k i rs cs [= -> -> -> ->]. right. unfold view_of. cbn [w' w_lt w_tasks set_call].
    rewrite (send_view _ _ _ _ _ _ _ _ Ht). cbn. rewrite decide_True by done. cbn. apply elem_of_app. right. by left.
  - done.
Qed.

Lemma task_stepped w l1 tk l2 :
  winv w → w_tasks w = l1 ++ tk :: l2 →
  stepped w (VTask (tk_id tk) (tk_key tk)) (mkWorld (task_send (w_lt w) tk) (w_calls w) (l1 ++ l2)).
Proof using.
  intros Hw Htk. set (w' := mkWorld _ _ _). pose proof (wi_tasks _ Hw) as Hall. rewrite Htk in Hall.
  apply Forall_app in Hall as [H1 Hall]. apply Forall_cons in Hall as [[Hs0 Hm] H2].
  assert (∀ id k, ntasks (w_tasks w) id k =
    ntasks (l1 ++ l2) id k + if decide (tk_id tk = id ∧ tk_key tk = k) then 1 else 0) as Hn.
  { intros id k. rewrite Htk. unfold ntasks. rewrite !filter_app, filter_cons, !length_app. case_decide; cbn; lia. }
  assert (task_send (w_lt w) tk = w_lt w ∨ ∃ m t, loggable level m ∧ msg_key m = tk_key tk ∧ is_Some (msg_kind m) ∧
    tuner_of (w_lt w) (tk_id tk) = Some t ∧
    task_send (w_lt w) tk = put_tuner (w_lt w) (tk_id tk) (mkTuner (tu_cache t) (tu_channel t ++ [m]) (tu_autotuning t))) as Hsend.
  { unfold task_send. destruct (tk_result tk) as [m| |]; [|by left..].
    destruct (try_send (w_lt w) (tk_id tk) (tk_sender tk) m) as [lt'|] eqn:Hsend; [|by left].
    apply try_send_some in Hsend as (t & Ht & ->). right. destruct (Hm m eq_refl) as (? & ? & ?). by exists m, t. }
  assert (∀ id k, rtc vstep (view_of w id k) (view_of w' id k)) as Hsteps.
  { intros id k. unfold view_of. rewrite Hn. cbn [w' w_lt w_tasks w_calls].
    destruct Hsend as [->|(m & t & Hlog & Hkey & [i Hi] & Ht & ->)].
    - case_decide as Hk; [|by rewrite Nat.add_0_r]. rewrite Nat.add_1_r. apply rtc_once. unfold view_in.
      destruct (tuner_of _ _); apply v_lost.
    - rewrite (send_view _ _ _ _ _ _ _ _ Ht), Hkey. case_decide as Hk; [|by rewrite Nat.add_0_r].
      destruct Hk as [<- <-]. rewrite Nat.add_1_r, Hi. unfold view_in. rewrite Ht. apply rtc_once. cbn. apply v_task. }
  split; try done.
  - eapply winv_step; try done.
    + cbn. destruct Hsend as [->|(m & t & _ & _ & _ & _ & ->)]; apply Hw.
    + intros c x Hx. by left.
    + by apply Forall_app.
    + intros id t'. cbn. destruct Hsend as [->|(m & t & Hlog & _ & _ & Ht & ->)]; [apply Hw|].
      rewrite tuner_of_put. case_decide; [|apply Hw]. intros [= <-]. cbn. apply Forall_app.
      split; [by eapply (wi_chan _ Hw)|by apply Forall_singleton].
    + intros id. cbn. destruct Hsend as [->|(m & t & Hlog & _ & _ & Ht & ->)]; [apply Hw|].
      rewrite tuner_of_put. pose proof (wi_file _ Hw id) as Hf. case_decide; [|done]. subst id. by rewrite Ht in Hf.
  - intros id k. cbn. unfold view_of. cbn [w' w_lt w_tasks w_calls].
    destruct Hsend as [->|(m & t & Hlog & Hkey & _ & Ht & ->)]; [unfold view_in; by destruct (tuner_of (w_lt w) id)|].
    rewrite (send_view _ _ _ _ _ _ _ _ Ht). unfold view_in. cbv zeta. case_decide; by destruct (tuner_of (w_lt w) id).
Qed.

Lemma finish_spec w call id s key :
  winv w → w_calls w !! call = Some (CallFinish id s key) →
  ∃ i t file, execute_finish level (w_lt w) id key = Ret (i, put_file (put_tuner (w_lt w) id t) id file) ∧
    persist_inv file (tc_persistent (tu_cache t)) ∧ tu_channel t = [] ∧
    (∀ k, v_tuning (view_of w id k) = bool_decide (k ∈ tu_autotuning t)) ∧
    (∀ k, rtc vstep (view_of w id k) (tview t (njobs (w_calls w) id k) (ntasks (w_tasks w) id k) k)) ∧
    (∀ j, fastest t key = Hit j → i = j).
Proof using Hline.
  intros Hw Hc. pose proof (wi_calls _ Hw _ _ Hc) as Htun. cbn in Htun.
  destruct (tuner_of (w_lt w) id) as [t|] eqn:Ht; [|unfold view_of, view_in in Htun; by rewrite Ht in Htun].
  pose proof (wi_file _ Hw id) as Hf. rewrite Ht in Hf. cbn in Hf.
  destruct (handle_messages_spec level Hline (tu_channel t) t (file_of (w_lt w) id) Hf (wi_chan _ Hw _ _ Ht))
    as (t' & file' & Hh & Hp & Hch & Ha & Hv).
  assert (∀ k, rtc vstep (view_of w id k) (tview t' (njobs (w_calls w) id k) (ntasks (w_tasks w) id k) k)) as Hsteps.
  { intros k. unfold view_of, view_in. rewrite Ht. apply Hv. }
  unfold execute_finish. unfold tuner_of in Ht. destruct (lt_state (w_lt w)) as [mp|] eqn:Hst; [|cbn in Ht; by rewrite lookup_empty in Ht].
  cbn in Ht |- *. rewrite Ht. cbn. unfold handle_results. rewrite Hh. cbn [obind].
  assert (fastest t' key ≠ Unchecked) as Hun.
  { intros Hu. pose proof (vsteps_ok _ _ (wi_view _ Hw id key) (Hsteps key)) as Hok.
    pose proof (vsteps_tuning _ _ (Hsteps key) Htun) as Htu. destruct (vo_checked _ Hok Htu) as [Hx _]. apply Hx. cbn. by rewrite Hu. }
  assert (∀ k, v_tuning (view_of w id k) = bool_decide (k ∈ tu_autotuning t')) as Hau.
  { intros k. unfold view_of, view_in, tuner_of. rewrite Hst. cbn. rewrite Ht. cbn. by rewrite Ha. }
  destruct (fastest t' key) as [j| | |] eqn:Hfast; try done; do 3 eexists; (split; [done|]); split_and!; try done; congruence.
Qed.

Lemma finish_stepped w call id s key i lt' :
  winv w → w_calls w !! call = Some (CallFinish id s key) → execute_finish level (w_lt w) id key = Ret (i, lt') →
  stepped w (VFinish call id key i) (set_call w lt' call (CallReturned (TunableSet_fastest s i)) (w_tasks w)).
Proof using Hline.
  intros Hw Hc Hfin. destruct (finish_spec w call id s key Hw Hc) as (i' & t & file & Hfin' & Hp & Hch & Ha & Hv & Hhit).
  rewrite Hfin in Hfin'. injection Hfin' as <- ->. set (w' := set_call w _ _ _ _).
  assert (∀ id' k, njobs (w_calls w') id' k = njobs (w_calls w) id' k) as Hj.
  { intros id' k. pose proof (njobs_insert (w_calls w) call (CallReturned (TunableSet_fastest s i)) id' k) as Hi.
    rewrite Hc in Hi. cbn in Hi |- *. lia. }
  assert (∀ id', tuner_of (put_file (put_tuner (w_lt w) id t) id file) id' = tuner_of (put_tuner (w_lt w) id t) id') as Hpf by done.
  assert (∀ id' k, view_of w' id' k = if decide (id = id') then tview t (njobs (w_calls w) id' k) (ntasks (w_tasks w) id' k) k
    else view_of w id' k) as Hview.
  { intros id' k. unfold view_of at 1. rewrite Hj. cbn [w' w_lt w_tasks set_call]. unfold view_in. rewrite Hpf, tuner_of_put.
    by case_decide. }
  assert (∀ id' k, rtc vstep (view_of w id' k) (view_of w' id' k)) as Hsteps.
  { intros id' k. rewrite Hview. case_decide; [subst; apply Hv|done]. }
  split; try done.
  - eapply winv_step; try done.
    + apply Hw.
    + intros c x Hx. unfold w' in Hx. cbn in Hx. apply lookup_insert_Some in Hx as [[<- <-]|[_ ?]]; [by right|by left].
    + apply Hw.
    + intros id' t'. cbn [w' w_lt set_call]. rewrite Hpf, tuner_of_put. case_decide; [|apply Hw]. intros [= <-]. by rewrite Hch.
    + intros id'. cbn [w' w_lt set_call]. rewrite Hpf, tuner_of_put, file_of_put. case_decide; [by subst|]. apply Hw.
  - intros id' k. cbn. rewrite Hview. case_decide; [subst; by rewrite Ha|done].
  - intros c id' k j [= -> -> -> ->] j' Hset.
    destruct (vsteps_settled _ _ j' (wi_view _ Hw id' k) (Hv k) Hset) as [Hh|Hin].
    + rewrite Hview, decide_True by done. split; [|done]. apply Hhit. by injection Hh.
    + cbn in Hin. rewrite Hch in Hin. by apply elem_of_nil in Hin.
Qed.

Lemma other_stepped w id c k v r c' file' :
  winv w → Cache_new (file_of (w_lt w) id) None = Ret c → Cache_insert c (file_of (w_lt w) id) k v = Ret (r, c', file') →
  stepped w (VOther id) (mkWorld (put_file (w_lt w) id file') (w_calls w) (w_tasks w)).
Proof using Hline.
  intros Hw Hnew Hins. set (w' := mkWorld _ _ _).
  assert (∀ id' k', view_of w' id' k' = view_of w id' k') as Hview by done.
  split; try done.
  - eapply winv_step; try done.
    + apply Hw.
    + intros x y Hx. by left.
    + apply Hw.
    + intros id' t. apply (wi_chan _ Hw).
    + intros id'. cbn [w' w_lt]. rewrite file_of_put. pose proof (wi_file _ Hw id') as Hf. case_decide; [|done]. subst id'.
      destruct Hf as (log & Hn & Hf & Hr). rewrite Hf in *.
      destruct (new_spec newline ltac:(done) Hline log Hn) as (c0 & Hc0 & Hr0).
      change (Cache_new (encode_all newline log) (Some newline)) with (Cache_new (encode_all newline log) None) in Hc0.
      rewrite Hnew in Hc0. injection Hc0 as <-.
      destruct (insert_spec newline ltac:(done) Hline log c _ k v Hn Hr0) as (err & c1 & log' & Hi & Hres & Hn' & _).
      rewrite Hins in Hi. injection Hi as -> -> ->. exists log'. split; [done|]. split; [done|].
      intros p Hp. destruct (Hr p Hp) as [n Hrn]. exists n. destruct Hres; [by apply reads_app|done|done].
Qed.

Lemma step_stepped w e w' : winv w → tstep target level order w e w' → event_ok e → stepped w e w'.
Proof using Hline.
  intros Hw Hstep He. destruct Hstep as [w call id s key l lt' Hc Hl|w call id s key sender Hc|
    w call id s key sender dev msg task lt' Hc Hrun Hs|w call id s key sender dev msg Hc Hrun|
    w call id s key sender dev msg task Hc Hrun Hs|w l1 tk l2 Htk|w call id s key i lt' Hc Hf|w|w id c k v r c' file' Hn Hi].
  - by apply start_stepped.
  - eapply call_stepped; try done. cbn. apply (wi_calls _ Hw) in Hc. apply Hc.
  - by eapply tune_stepped.
  - by eapply call_stepped.
  - exfalso. pose proof (wi_calls _ Hw _ _ Hc) as (-> & Htun & _). unfold try_send in Hs. rewrite (wi_clears _ Hw) in Hs.
    cbn in Hs. change (default ∅ (lt_state (w_lt w)) !! id) with (tuner_of (w_lt w) id) in Hs.
    unfold view_of, view_in in Htun. by destruct (tuner_of (w_lt w) id).
  - by apply task_stepped.
  - by apply finish_stepped.
  - done.
  - by eapply other_stepped.
Qed.

(** ** Runs *)

Abbreviation Runs := (runs target level order).

Lemma runs_split (w w'' : WorldT) tr1 tr2 : Runs w (tr1 ++ tr2) w'' → ∃ w', Runs w tr1 w' ∧ Runs w' tr2 w''.
Proof using.
  revert w''. induction tr2 as [|e tr2 IH] using rev_ind; intros w''.
  - rewrite app_nil_r. intros Hr. exists w''. split; [done|constructor].
  - rewrite app_assoc. intros Hr. inversion Hr as [Hnil|tr w1 e' w2 Hr1 Hstep Heq]; [by destruct (tr1 ++ tr2)|].
    apply app_inj_tail in Heq as [-> ->]. destruct (IH w1 Hr1) as (w' & Ha & Hb). exists w'. split; [done|]. by econstructor.
Qed.

Lemma runs_inv (w w' : WorldT) tr :
  winv w → Runs w tr w' → Forall event_ok tr → winv w' ∧ ∀ id k, rtc vstep (view_of w id k) (view_of w' id k).
Proof using Hline.
  intros Hw Hr. induction Hr as [|tr w1 e w2 Hr IH Hstep]; [done|].
  intros [Htr He]%Forall_app. rewrite Forall_singleton in He. destruct (IH Htr) as [Hw1 Hv1].
  destruct (step_stepped w1 e w2 Hw1 Hstep He) as [Hw2 Hv2 _ _ _]. split; [done|]. intros id k. etransitivity; [apply Hv1|apply Hv2].
Qed.

Definition valid_files (files : gmap ID File) : Prop :=
  ∀ id, ∃ log, NoDup log.*1 ∧ default [] (files !! id) = encode_all (K := PersistentCacheKey K) (V := PersistentCacheValue) newline log.

Lemma winv_init files : valid_files files → winv (world_new files).
Proof using.
  intros Hf. split; cbn; try done.
  - intros id k. unfold view_of, view_in. cbn. unfold tuner_of. cbn. rewrite lookup_empty.
    replace (njobs ∅ id k) with 0; [apply view_init_ok|]. unfold njobs. by rewrite map_filter_empty, map_size_empty.
  - intros id. destruct (Hf id) as (log & Hn & Hl). exists log. split; [done|]. split; [done|].
    unfold tuner_of. cbn. by rewrite lookup_empty.
Qed.

Lemma runs_starts (w w' : WorldT) tr id k :
  winv w → Runs w tr w' → Forall event_ok tr → v_tuning (view_of w id k) = false →
  length (filter (λ e, starts id k e = true) tr) = Nat.b2n (v_tuning (view_of w' id k)).
Proof using Hline.
  intros Hw Hr. induction Hr as [|tr w1 e w2 Hr IH Hstep]; [by intros _ ->|].
  intros [Htr He]%Forall_app Hv. rewrite Forall_singleton in He. destruct (runs_inv w w1 tr Hw Hr Htr) as [Hw1 _].
  destruct (step_stepped w1 e w2 Hw1 Hstep He) as [_ _ Ho _ _]. specialize (Ho id k). rewrite filter_app, length_app, (IH Htr Hv).
  rewrite filter_cons, filter_nil. destruct (starts id k e).
  - destruct Ho as [-> ->]. by rewrite decide_True.
  - rewrite Ho. rewrite decide_False by done. cbn. lia.
Qed.

(** What a run after the result of a job looks like. *)
Lemma runs_settled (w w' : WorldT) tr id k f :
  winv w → Runs w tr w' → Forall event_ok tr → settled f (view_of w id k) →
  settled f (view_of w' id k) ∧ (∀ c i, VFinish c id k i ∈ tr → i = f ∧ v_fast (view_of w' id k) = Some (Hit f)).
Proof using Hline.
  intros Hw Hr Hok Hset. induction Hr as [|tr w1 e w2 Hr IH Hstep].
  - split; [done|]. intros c i Hin. by apply elem_of_nil in Hin.
  - apply Forall_app in Hok as [Htr He]. rewrite Forall_singleton in He. destruct (runs_inv w w1 tr Hw Hr Htr) as [Hw1 _].
    destruct (IH Htr) as [Hs1 Hf1]. destruct (step_stepped w1 e w2 Hw1 Hstep He) as [_ Hv _ _ Hfin].
    split; [by eapply vsteps_settled; [apply Hw1| |]|]. intros c i [Hin|Hin%list_elem_of_singleton]%elem_of_app.
    + destruct (Hf1 c i Hin) as [-> Hh]. split; [done|]. by eapply vsteps_hit; [apply Hw1| |].
    + by apply (Hfin c id k i).
Qed.
End Spec.



Module TunerDemo.

(** ** Binary numbers on a line *)

Fixpoint bits (p : positive) : list byte :=
  match p with xH => [] | xO p => x30 :: bits p | xI p => x31 :: bits p end.
Fixpoint unbits (l : list byte) : option positive :=
  match l with
  | [] => Some xH
  | x30 :: l => xO <$> unbits l
  | x31 :: l => xI <$> unbits l
  | _ => None
  end.
Lemma unbits_bits p : unbits (bits p) = Some p.
Proof. induction p as [p IH|p IH|]; cbn; [by rewrite IH|by rewrite IH|done]. Qed.

Lemma bits_line p : find_sep newline (bits p ++ newline) = Some (length (bits p)).
Proof.
  assert (∀ b l, b ≠ x0a → ¬ newline `prefix_of` b :: l) as Hne by (intros b l Hb [k [= Hk]]; done).
  induction p as [p IH|p IH|]; cbn [bits app length].
  - cbn [find_sep]. rewrite decide_False by (by apply Hne). by rewrite IH.
  - cbn [find_sep]. rewrite decide_False by (by apply Hne). by rewrite IH.
  - vm_compute. reflexivity.
Qed.

#[export] Instance computations_countable : Countable BenchmarkComputations.
Proof.
  refine (inj_countable' (λ c, (bc_mean c, bc_median c, bc_variance c, bc_min c, bc_max c))
    (λ '(a, b, c, d, e), mkComputations a b c d e) _). by intros [].
Defined.
#[export] Instance outcome_countable : Countable AutotuneOutcome.
Proof.
  refine (inj_countable' (λ o, (ao_name o, ao_index o, ao_computation o)) (λ '(a, b, c), mkOutcome a b c) _). by intros [].
Defined.
#[export] Instance error_countable : Countable AutotuneError.
Proof.
  refine (inj_countable' (λ e, match e with Unknown m => inl m | InvalidSamples => inr true | Skip => inr false end)
    (λ x, match x with inl m => Unknown m | inr true => InvalidSamples | inr false => Skip end) _). by intros [].
Defined.
#[export] Instance tune_result_countable : Countable TuneResult.
Proof.
  refine (inj_countable' (λ r : TuneResult, match r with Ok o => inl o | Err e => inr e end)
    (λ x : AutotuneOutcome + AutotuneError, match x with inl o => Ok o | inr e => Err e end) _). by intros [].
Defined.
#[export] Instance pvalue_countable : Countable PersistentCacheValue.
Proof.
  refine (inj_countable' (λ v, (pv_fastest_index v, pv_results v)) (λ '(a, b), mkPValue a b) _). by intros [].
Defined.

Abbreviation Entry := (PersistentCacheKey unit * PersistentCacheValue)%type.
Lemma entry_decode (e : Entry) : (unbits (bits (countable.encode e)) ≫= countable.decode) = Some e.
Proof. rewrite unbits_bits. cbn. apply countable.decode_encode. Qed.
#[export] Instance entry_serde : Serde (PersistentCacheKey unit) PersistentCacheValue :=
  {| encode := λ e, bits (countable.encode e); decode := λ l, unbits l ≫= countable.decode; decode_encode := entry_decode |}.
Lemma entry_line (e : Entry) : find_sep newline (encode e ++ newline) = Some (length (encode e)).
Proof. apply bits_line. Qed.

(** ** Two calls for one key *)

Definition order : gmap (PersistentCacheKey unit) PersistentCacheValue → list Entry := map_to_list.
Definition files : gmap bool File := ∅.
Definition set3 : TunableSet unit := SelectDemo.tunable_set.
Definition from_ret {A} (d : A) (o : outcome A) : A := match o with Ret a => a | _ => d end.

Definition lt0 : LocalTuner (K := unit) (ID := bool) := LocalTuner_new files.
Definition lt1 := (from_ret (LRun 0, lt0) (execute_lookup Native order lt0 true set3 tt)).2.
Definition lt2 := (from_ret (LRun 0, lt0) (execute_lookup Native order lt1 true set3 tt)).2.
Definition result : AutotuneMessage unit := from_ret (MPending tt) (prepare_autotune SelectDemo.device tt set3).
Definition results : list TuneResult := match result with MDone _ _ rs _ => rs | _ => [] end.
Definition lt3 := default lt0 (try_send lt2 true 0 result).
Definition lt4 := (from_ret (0, lt0) (execute_finish LMinimal lt3 true tt)).2.

Definition w0 : World (K := unit) (ID := bool) := world_new files.
Definition w1 := set_call w0 lt1 1 (CallJob true set3 tt 0 true) [].
Definition w2 := set_call w1 lt2 2 (CallJob true set3 tt 0 false) [].
Definition w3 := set_call w2 lt3 1 (CallFinish true set3 tt) [].
Definition w4 := set_call w3 lt3 2 (CallFinish true set3 tt) [].
Definition w5 := set_call w4 lt4 2 (CallReturned (Ret "c"%string)) [].

Definition before : list (tevent (K := unit) (ID := bool)) :=
  [VStart 1 true set3 tt (LJob true); VStart 2 true set3 tt (LJob false)].
Definition after : list (tevent (K := unit) (ID := bool)) := [VSkip 2; VFinish 2 true tt 2].
Definition events : list (tevent (K := unit) (ID := bool)) := before ++ VTune 1 true tt (MDone tt 2 results "") :: after.

Lemma race : runs Native LMinimal order (world_new files) events w5.
Proof.
  change events with (((((([] ++ [VStart 1 true set3 tt (LJob true)]) ++ [VStart 2 true set3 tt (LJob false)]) ++
    [VTune 1 true tt (MDone tt 2 results "")])) ++ [VSkip 2]) ++ [VFinish 2 true tt 2]).
  eapply runs_snoc; [eapply runs_snoc; [eapply runs_snoc; [eapply runs_snoc; [eapply runs_snoc; [constructor|]|]|]|]|].
  - apply (ts_start Native LMinimal order w0 1 true set3 tt (LJob true) lt1); [done|]. vm_compute. reflexivity.
  - apply (ts_start Native LMinimal order w1 2 true set3 tt (LJob false) lt2); [done|]. vm_compute. reflexivity.
  - apply (ts_tune Native LMinimal order w2 1 true set3 tt 0 SelectDemo.device (MDone tt 2 results "") None lt3); [done| |];
      vm_compute; reflexivity.
  - apply (ts_skip Native LMinimal order w3 2 true set3 tt 0). done.
  - apply (ts_finish Native LMinimal order w4 2 true set3 tt 2 lt4); [done|]. vm_compute. reflexivity.
Qed.

Lemma events_fine : Forall (event_ok LMinimal) events.
Proof. repeat (apply Forall_cons_2; [first [done|by right]|]). apply Forall_nil_2. Qed.
Lemma files_fine : valid_files (K := unit) files.
Proof. intros id. exists []. split; [constructor|done]. Qed.



(** ** Panics *)

(** The result of a set with a single tunable cannot be logged: no benchmark
    ran, and the log wants the fastest one. *)
Definition set1 : TunableSet unit := mkSet [Tunable_new "a"%string] (λ _, ""%string).
Definition single := default lt0 (try_send ((from_ret (LRun 0, lt0) (execute_lookup Native order lt0 true set1 tt)).2) true 0
  (from_ret (MPending tt) (prepare_autotune SelectDemo.device tt set1))).
Example single_tunable_panics : execute_finish LMinimal single true tt = Panic "At least one kernel has to succeed.".
Proof. vm_compute. reflexivity. Qed.
Example single_tunable_unlogged : ∃ lt, execute_finish LDisabled single true tt = Ret (0, lt).
Proof. eexists. vm_compute. reflexivity. Qed.

(** Clearing the tuner during a benchmark. *)
Example cleared_finish : ∃ msg, execute_finish LMinimal (clear lt3) true tt = Panic msg.
Proof. eexists. vm_compute. reflexivity. Qed.
Example cleared_send : try_send (clear lt2) true 0 result = None.
Proof. vm_compute. reflexivity. Qed.

(** Clearing during a benchmark of a key that the file knows, when a call for
    another key has created the tuner again. *)
Definition reloaded : LocalTuner (K := unit) (ID := bool) :=
  match get_tuner Native order (clear lt4) true with Ret t => put_tuner (clear lt4) true t | _ => lt0 end.
Example cleared_unchecked : execute_finish LMinimal reloaded true tt = Panic "Should have checked the cache.".
Proof. vm_compute. reflexivity. Qed.
End TunerDemo.
