(* ===== verification/Launch.v ===== *)
(** * Arguments of a kernel: registration, launch and metadata

    Model of the two sides of a kernel launch and of the metadata buffer that
    connects them:

    - the kernel definition ([crates/cubecl-core/src/compute/builder.rs],
      [KernelBuilder], and the [expand] functions of
      [frontend/container/tensor/launch.rs], [array/launch.rs] and
      [tensor/tensormap.rs]), which numbers the buffers;
    - the launch ([compute/launcher.rs], [KernelLauncher] with its
      [TensorState]), which collects lengths, shapes and strides in a
      [MetadataBuilder] ([codegen/metadata.rs]);
    - the compilers, which turn the metadata operations of the IR into reads
      of the buffer ([compile_metadata] of the C++ and WGSL compilers,
      [compile_meta] of the SPIR-V compiler, [visit_metadata] of the CPU
      compiler).

    The generated code of a kernel registers the parameters in the same order
    on both sides; [expand_all] and [register_all] are these sequences.  The
    device sees a buffer of [u32] values; a read out of bounds is [None].
    Buffers themselves and tensor maps are parameters [B] and [TM]. *)

From S2P Require Import Prelude Ids DeviceNum Ir.

Open Scope N_scope.
Open Scope rust_scope.

Definition as_u32 (n : N) : N := n mod 4294967296.

(** ** The layout of the metadata ([codegen/metadata.rs]) *)

Definition BUFFER_LEN : N := 0.
Definition LENGTH : N := 1.
Definition BASE_LEN : N := 2.
Definition RANK : N := 0.
Definition SHAPE_OFFSETS : N := 1.
Definition STRIDE_OFFSETS : N := 2.
Definition EXTENDED_LEN : N := 3.

Record MetaLayout := mkLayout { num_meta : N; num_extended_meta : N }.

Definition u32_add := checked_add u32_max.
Definition u32_mul := checked_mul u32_max.

Definition offset_of (l : MetaLayout) (id : N) : outcome N := u32_mul (num_meta l) id.
Definition base_len (l : MetaLayout) : outcome N := u32_mul (num_meta l) BASE_LEN.
Definition meta_static_len (l : MetaLayout) : outcome N :=
  let? a := u32_mul (num_meta l) BASE_LEN in
  let? b := u32_mul (num_extended_meta l) EXTENDED_LEN in
  u32_add a b.
Definition offset_of_extended (l : MetaLayout) (id : N) : outcome N :=
  let? a := base_len l in
  let? b := u32_mul (num_extended_meta l) id in
  u32_add a b.
Definition buffer_len_index (l : MetaLayout) (buffer_idx : N) : outcome N :=
  let? o := offset_of l BUFFER_LEN in u32_add o buffer_idx.
Definition len_index (l : MetaLayout) (buffer_idx : N) : outcome N :=
  let? o := offset_of l LENGTH in u32_add o buffer_idx.
Definition rank_index (l : MetaLayout) (buffer_idx : N) : outcome N :=
  let? o := offset_of_extended l RANK in u32_add o buffer_idx.
Definition shape_offset_index (l : MetaLayout) (buffer_idx : N) : outcome N :=
  let? o := offset_of_extended l SHAPE_OFFSETS in u32_add o buffer_idx.
Definition stride_offset_index (l : MetaLayout) (buffer_idx : N) : outcome N :=
  let? o := offset_of_extended l STRIDE_OFFSETS in u32_add o buffer_idx.

(** ** The builder of the metadata *)

Record MetadataBuilder := mkMetaBuilder {
  mb_buffer_lens : list N;
  mb_lengths : list N;
  mb_ranks : list N;
  mb_shapes : list (list N);
  mb_strides : list (list N);
}.
Definition MetadataBuilder_default : MetadataBuilder := mkMetaBuilder [] [] [] [] [].

Definition with_array (b : MetadataBuilder) (buffer_len len : N) : MetadataBuilder :=
  mkMetaBuilder (mb_buffer_lens b ++ [buffer_len]) (mb_lengths b ++ [len]) (mb_ranks b) (mb_shapes b) (mb_strides b).
Definition with_tensor (b : MetadataBuilder) (rank buffer_len len : N) (shape strides : list N) : MetadataBuilder :=
  mkMetaBuilder (mb_buffer_lens b ++ [buffer_len]) (mb_lengths b ++ [len]) (mb_ranks b ++ [rank])
    (mb_shapes b ++ [shape]) (mb_strides b ++ [strides]).

Record MetadataBinding := mkMetaBinding { mt_data : list N; mt_static_len : nat }.

(** The loops that record where every shape, or every stride, will start. *)
Fixpoint push_offsets (current_offset : nat) (l : list (list N)) : list N * nat :=
  match l with
  | [] => ([], current_offset)
  | x :: l =>
      let '(offsets, current) := push_offsets (current_offset + length x) l in
      (as_u32 (N.of_nat current_offset) :: offsets, current)
  end.

Definition finish (b : MetadataBuilder) : MetadataBinding :=
  let meta := mb_buffer_lens b ++ mb_lengths b ++ mb_ranks b in
  let num_ext := length (mb_ranks b) in
  let '(shape_offsets, current_offset) := push_offsets (length meta + num_ext * 2) (mb_shapes b) in
  let meta := meta ++ shape_offsets in
  let '(stride_offsets, _) := push_offsets current_offset (mb_strides b) in
  let meta := meta ++ stride_offsets in
  mkMetaBinding (meta ++ concat (mb_shapes b) ++ concat (mb_strides b)) (length meta).

(** ** The kernel definition ([compute/builder.rs]) *)

Inductive Visibility := VRead | VReadWrite.
Record BufferInfo := mkBufferInfo {
  bi_id : N;
  bi_item : Item;
  bi_visibility : Visibility;
  bi_has_extended_meta : bool;
}.
Record KernelBuilder := mkKernelBuilder { kb_buffers : list BufferInfo; kb_tensor_maps : list N }.
Definition KernelBuilder_new : KernelBuilder := mkKernelBuilder [] [].

Definition buffer_id (b : KernelBuilder) : N :=
  as_u32 (N.of_nat (length (kb_buffers b))) + as_u32 (N.of_nat (length (kb_tensor_maps b))).
Definition push_buffer (b : KernelBuilder) (item : Item) (v : Visibility) (ext : bool) : KernelBuilder :=
  mkKernelBuilder (kb_buffers b ++ [mkBufferInfo (buffer_id b) item v ext]) (kb_tensor_maps b).
Definition output_tensor (b : KernelBuilder) (item : Item) : Variable_ * KernelBuilder :=
  (Variable_new (GlobalOutputArray (buffer_id b)) item, push_buffer b item VReadWrite true).
Definition tensor_map (b : KernelBuilder) : Variable_ * KernelBuilder :=
  (Variable_new (TensorMap (buffer_id b)) (Item_new EBool),
   mkKernelBuilder (kb_buffers b) (kb_tensor_maps b ++ [buffer_id b])).
Definition input_tensor (b : KernelBuilder) (item : Item) : Variable_ * KernelBuilder :=
  (Variable_new (GlobalInputArray (buffer_id b)) item, push_buffer b item VRead true).
Definition output_array (b : KernelBuilder) (item : Item) : Variable_ * KernelBuilder :=
  (Variable_new (GlobalOutputArray (buffer_id b)) item, push_buffer b item VReadWrite false).
Definition input_array (b : KernelBuilder) (item : Item) : Variable_ * KernelBuilder :=
  (Variable_new (GlobalInputArray (buffer_id b)) item, push_buffer b item VRead false).
Definition inplace_output (b : KernelBuilder) (position : N) : outcome (Variable_ * KernelBuilder) :=
  let? input := expect (kb_buffers b !! N.to_nat position) "Position valid" in
  let input' := mkBufferInfo (bi_id input) (bi_item input) VReadWrite (bi_has_extended_meta input) in
  Ret (Variable_new (GlobalInputArray position) (bi_item input),
       mkKernelBuilder (<[N.to_nat position := input']> (kb_buffers b)) (kb_tensor_maps b)).

(** ** Arguments ([tensor/launch.rs], [array/launch.rs], [tensormap.rs]) *)

Section Args.
Context {B TM : Type}.

(** The server handle ([cubecl-runtime/src/server.rs], [Handle]) and its size
    without the offsets. *)
Record ServerHandle := mkServerHandle {
  hd_binding : B;
  hd_offset_start : option N;
  hd_offset_end : option N;
  hd_size : N;
}.
Definition Handle_size (h : ServerHandle) : outcome N :=
  let? a := checked_sub (hd_size h) (default 0 (hd_offset_start h)) in
  checked_sub a (default 0 (hd_offset_end h)).

Record TensorHandleRef := mkTensorRef {
  th_handle : ServerHandle;
  th_strides : list N;
  th_shape : list N;
  th_elem_size : N;
}.
Inductive TensorArg := TAHandle (handle : TensorHandleRef) (vectorization_factor : N) | TAAlias (input_pos : N).
Record ArrayHandleRef := mkArrayRef { ah_handle : ServerHandle; ah_length : N; ah_elem_size : N }.
Inductive ArrayArg := AAHandle (handle : ArrayHandleRef) (vectorization_factor : N) | AAAlias (input_pos : N).
Record TensorMapArg := mkTensorMapArg { tm_tensor : TensorArg; tm_metadata : TM }.

Definition as_tensor (a : ArrayHandleRef) : TensorHandleRef := mkTensorRef (ah_handle a) [1] [ah_length a] (ah_elem_size a).

(** [NonZero::new(factor).unwrap()]. *)
Definition nonzero (n : N) : outcome positive :=
  match n with Npos p => Ret p | N0 => Panic "called `Option::unwrap()` on a `None` value" end.

Record CompilationArg := mkCompArg { ca_inplace : option N; ca_vectorisation : option positive }.
Definition tensor_compilation_arg (a : TensorArg) : outcome CompilationArg :=
  match a with
  | TAHandle _ v => let? p := nonzero v in Ret (mkCompArg None (Some p))
  | TAAlias pos => Ret (mkCompArg (Some (as_u32 pos)) None)
  end.
Definition array_compilation_arg (a : ArrayArg) : outcome CompilationArg :=
  match a with
  | AAHandle _ v => let? p := nonzero v in Ret (mkCompArg None (Some p))
  | AAAlias pos => Ret (mkCompArg (Some (as_u32 pos)) None)
  end.

Definition tensor_expand (elem : Elem) (a : CompilationArg) (b : KernelBuilder) : outcome (Variable_ * KernelBuilder) :=
  Ret (input_tensor b (Item_vectorized elem (ca_vectorisation a))).
Definition tensor_expand_output (elem : Elem) (a : CompilationArg) (b : KernelBuilder) : outcome (Variable_ * KernelBuilder) :=
  match ca_inplace a with
  | Some id => inplace_output b id
  | None => Ret (output_tensor b (Item_vectorized elem (ca_vectorisation a)))
  end.
Definition array_expand (elem : Elem) (a : CompilationArg) (b : KernelBuilder) : outcome (Variable_ * KernelBuilder) :=
  Ret (input_array b (Item_vectorized elem (ca_vectorisation a))).
Definition array_expand_output (elem : Elem) (a : CompilationArg) (b : KernelBuilder) : outcome (Variable_ * KernelBuilder) :=
  match ca_inplace a with
  | Some id => inplace_output b id
  | None => Ret (output_array b (Item_vectorized elem (ca_vectorisation a)))
  end.

Inductive Arg := ATensor (a : TensorArg) | AArray (a : ArrayArg) | AMap (a : TensorMapArg).
(** A runtime parameter of a kernel. *)
Record Param := mkParam { pm_is_mut : bool; pm_elem : Elem; pm_arg : Arg }.

Definition expand_param (p : Param) (b : KernelBuilder) : outcome (Variable_ * KernelBuilder) :=
  match pm_arg p with
  | ATensor a =>
      let? c := tensor_compilation_arg a in
      if pm_is_mut p then tensor_expand_output (pm_elem p) c b else tensor_expand (pm_elem p) c b
  | AArray a =>
      let? c := array_compilation_arg a in
      if pm_is_mut p then array_expand_output (pm_elem p) c b else array_expand (pm_elem p) c b
  | AMap _ => Ret (tensor_map b)
  end.
Fixpoint expand_all (ps : list Param) (b : KernelBuilder) : outcome (list Variable_ * KernelBuilder) :=
  match ps with
  | [] => Ret ([], b)
  | p :: ps =>
      let? '(v, b) := expand_param p b in
      let? '(vs, b) := expand_all ps b in
      Ret (v :: vs, b)
  end.

(** ** The launcher ([compute/launcher.rs]) *)

Record TensorMapBinding := mkMapBinding { tmb_binding : B; tmb_map : TM }.
Inductive TensorState :=
| TSEmpty
| TSSome (buffers : list B) (tensor_maps : list TensorMapBinding) (metadata : MetadataBuilder).

(** [maybe_init] and the fields it guarantees. *)
Definition state_fields (st : TensorState) : list B * list TensorMapBinding * MetadataBuilder :=
  match st with
  | TSEmpty => ([], [], MetadataBuilder_default)
  | TSSome bufs maps m => (bufs, maps, m)
  end.
Definition push_binding (st : TensorState) (b : B) : TensorState :=
  let '(bufs, maps, m) := state_fields st in TSSome (bufs ++ [b]) maps m.
Definition push_map_binding (st : TensorState) (b : TensorMapBinding) : TensorState :=
  let '(bufs, maps, m) := state_fields st in TSSome bufs (maps ++ [b]) m.
Definition update_metadata (st : TensorState) (f : MetadataBuilder → MetadataBuilder) : TensorState :=
  let '(bufs, maps, m) := state_fields st in TSSome bufs maps (f m).

Fixpoint product (acc : N) (l : list N) : outcome N :=
  match l with
  | [] => Ret acc
  | x :: l => let? acc := checked_mul usize_max acc x in product acc l
  end.

Definition process_tensor (st : TensorState) (a : TensorArg) : outcome (option B * TensorState) :=
  match a with
  | TAAlias _ => Ret (None, st)
  | TAHandle t v =>
      let? elem_size := checked_mul usize_max (th_elem_size t) v in
      let? size := Handle_size (th_handle t) in
      let? buffer_len := checked_div size elem_size in
      let? n := product 1 (th_shape t) in
      let? len := checked_div n v in
      Ret (Some (hd_binding (th_handle t)),
           update_metadata st (λ m, with_tensor m (as_u32 (N.of_nat (length (th_strides t)))) (as_u32 buffer_len) (as_u32 len)
             (as_u32 <$> th_shape t) (as_u32 <$> th_strides t)))
  end.
Definition push_tensor (st : TensorState) (a : TensorArg) : outcome TensorState :=
  let? '(b, st) := process_tensor st a in
  Ret (match b with Some b => push_binding st b | None => st end).

Definition process_array (st : TensorState) (a : ArrayArg) : outcome (option B * TensorState) :=
  match a with
  | AAAlias _ => Ret (None, st)
  | AAHandle h v =>
      let? elem_size := checked_mul usize_max (ah_elem_size h) v in
      let? size := Handle_size (ah_handle h) in
      let? buffer_len := checked_div size elem_size in
      Ret (Some (hd_binding (ah_handle h)),
           update_metadata st (λ m, with_array m (as_u32 buffer_len) (as_u32 (ah_length h))))
  end.
Definition push_array (st : TensorState) (a : ArrayArg) : outcome TensorState :=
  let? '(b, st) := process_array st a in
  Ret (match b with Some b => push_binding st b | None => st end).
Definition push_tensor_map (st : TensorState) (a : TensorMapArg) : outcome TensorState :=
  let? '(b, st) := process_tensor st (tm_tensor a) in
  let? binding := expect b "Can't use alias for TensorMap" in
  Ret (push_map_binding st (mkMapBinding binding (tm_metadata a))).

Definition register_param (st : TensorState) (p : Param) : outcome TensorState :=
  match pm_arg p with
  | ATensor a => push_tensor st a
  | AArray a => push_array st a
  | AMap a => push_tensor_map st a
  end.
Fixpoint register_all (st : TensorState) (ps : list Param) : outcome TensorState :=
  match ps with
  | [] => Ret st
  | p :: ps => let? st := register_param st p in register_all st ps
  end.

Record Bindings := mkBindings { bd_buffers : list B; bd_metadata : MetadataBinding; bd_tensor_maps : list TensorMapBinding }.
Definition Bindings_new : Bindings := mkBindings [] (mkMetaBinding [] 0) [].
Definition TensorState_register (st : TensorState) (b : Bindings) : Bindings :=
  match st with
  | TSEmpty => b
  | TSSome bufs maps m => mkBindings bufs (finish m) maps
  end.
Definition into_bindings (st : TensorState) : Bindings := TensorState_register st Bindings_new.
End Args.
Arguments TensorState : clear implicits.
Arguments Param : clear implicits.
Arguments Arg : clear implicits.
