(* ===== verification/MetaCompile.v ===== *)
(** * Reading metadata on the device

    Model of how the compilers translate the metadata operations of the IR
    ([Rank], [Shape], [Stride], [Length], [BufferLength]) into reads of the
    buffer that [Launch.v] builds:

    - C++: [build_metadata], [ext_meta_position] and [compile_metadata] of
      [crates/cubecl-cpp/src/shared/base.rs], the text of the instructions in
      [instruction.rs], and the two ways in which the CUDA server passes the
      buffer ([cubecl-cuda/src/compute/server.rs]);
    - WGSL: [compile_shader] and [compile_metadata] of
      [crates/cubecl-wgpu/src/compiler/wgsl/compiler.rs];
    - SPIR-V: [compile_meta] of [crates/cubecl-spirv/src/metadata.rs];
    - CPU: [visit_metadata] of
      [crates/cubecl-cpu/src/compiler/visitor/operation/metadata.rs].

    Every translation yields an instruction with an evaluation on the buffer;
    [rd] gives the value of the variable that holds a dimension. *)

From S2P Require Import Prelude Ids DeviceNum Ir Launch.

Open Scope N_scope.
Open Scope rust_scope.

Definition wrap32 (z : Z) : N := Z.to_N (z mod 4294967296).

(** [Variable::index] of the IR. *)
Definition var_index (v : Variable_) : option N :=
  match var_kind v with
  | GlobalInputArray id | GlobalOutputArray id | TensorMap id | GlobalScalar id | LocalMut id | Versioned id _
  | LocalConst id | ConstantArray id _ | SharedMemory id _ _ | LocalArray id _ | KMatrix id _ => Some id
  | _ => None
  end.

(** ** Positions of the extended metadata *)

(** The loop over the sorted buffers: the position of every buffer among those
    with extended metadata, and their number. *)
Fixpoint ext_positions (num_ext : N) (all_meta : list (N * bool)) : list N * N :=
  match all_meta with
  | [] => ([], num_ext)
  | (_, ext) :: rest =>
      let '(l, n) := ext_positions (if ext then num_ext + 1 else num_ext) rest in (num_ext :: l, n)
  end.

Record MetaInfo := mkMetaInfo { mi_layout : MetaLayout; mi_positions : list N }.
Definition meta_info (all_meta : list (N * bool)) : MetaInfo :=
  let '(positions, num_ext) := ext_positions 0 all_meta in
  mkMetaInfo (mkLayout (as_u32 (N.of_nat (length all_meta))) num_ext) positions.

Definition buffer_meta (k : KernelBuilder) : list (N * bool) := (λ b, (bi_id b, bi_has_extended_meta b)) <$> kb_buffers k.
(** C++ and SPIR-V: buffers and tensor maps, sorted by their identifier. *)
Definition build_metadata (k : KernelBuilder) : MetaInfo :=
  meta_info (sort_by fst (buffer_meta k ++ ((λ id, (id, true)) <$> kb_tensor_maps k))).
(** CPU: buffers only, sorted. *)
Definition cpu_build_metadata (k : KernelBuilder) : MetaInfo := meta_info (sort_by fst (buffer_meta k)).
(** WGSL: buffers only, in the order of their registration. *)
Definition wgsl_build_metadata (k : KernelBuilder) : MetaInfo := meta_info (buffer_meta k).

Definition ext_meta_position (mi : MetaInfo) (v : Variable_) : outcome N :=
  let? id := expect (var_index v) "Variable should have index" in
  expect (mi_positions mi !! N.to_nat id) "index out of bounds".

(** ** C++ *)

Inductive CppInstruction :=
| CppMetadata (info_offset : N) (split_meta : bool)
| CppExtendedMetadata (info_offset : N) (dim : Variable_) (split_meta : bool) (static_offset : N)
| CppConstLength (length : N).

(** The identifier of the compiled variable ([Variable::id] of the C++
    compiler). *)
Definition cpp_id (v : Variable_) : option N :=
  match var_kind v with
  | GlobalInputArray id | GlobalOutputArray id | GlobalScalar id | ConstantArray id _ | LocalMut id | LocalConst id
  | Versioned id _ | SharedMemory id _ _ | LocalArray id _ | KMatrix id _ | Pipeline id _ _ | Barrier id _ _ => Some id
  | _ => None
  end.

Definition cpp_compile_metadata (mi : MetaInfo) (grid_constants : bool) (op : Metadata) : outcome CppInstruction :=
  match op with
  | Stride dim var =>
      let? position := ext_meta_position mi var in
      let? offset := stride_offset_index (mi_layout mi) position in
      let? static_offset := meta_static_len (mi_layout mi) in
      Ret (CppExtendedMetadata offset dim grid_constants static_offset)
  | Shape dim var =>
      let? position := ext_meta_position mi var in
      let? offset := shape_offset_index (mi_layout mi) position in
      let? static_offset := meta_static_len (mi_layout mi) in
      Ret (CppExtendedMetadata offset dim grid_constants static_offset)
  | Rank var =>
      let? pos := ext_meta_position mi var in
      let? offset := rank_index (mi_layout mi) pos in
      Ret (CppMetadata offset grid_constants)
  | Length var =>
      match var_kind var with
      | SharedMemory _ length _ => Ret (CppConstLength length)
      | _ =>
          let? id := expect (cpp_id var) "Variable should have id" in
          let? offset := len_index (mi_layout mi) id in
          Ret (CppMetadata offset grid_constants)
      end
  | BufferLength var =>
      let? id := expect (cpp_id var) "Variable should have id" in
      let? offset := buffer_len_index (mi_layout mi) id in
      Ret (CppMetadata offset grid_constants)
  end.

(** What the server passes: the static part as a grid constant and the rest
    in a buffer, or everything in one buffer. *)
Definition cuda_metadata (grid_constants : bool) (m : MetadataBinding) : list N * list N :=
  if grid_constants then (take (mt_static_len m) (mt_data m), drop (mt_static_len m) (mt_data m))
  else ([], mt_data m).

Definition read_at (l : list N) (o : N) : option N := l !! N.to_nat o.

(** The printed expressions, in 32-bit unsigned arithmetic. *)
Definition cpp_eval (static_info info : list N) (rd : Variable_ → N) (i : CppInstruction) : option N :=
  match i with
  | CppMetadata o true => read_at static_info o
  | CppMetadata o false => read_at info o
  | CppExtendedMetadata o dim true static_offset =>
      x ← read_at static_info o; read_at info (wrap32 (Z.of_N x + Z.of_N (rd dim) - Z.of_N static_offset))
  | CppExtendedMetadata o dim false _ =>
      x ← read_at info o; read_at info (wrap32 (Z.of_N x + Z.of_N (rd dim)))
  | CppConstLength n => Some n
  end.

Definition cpp_read (k : KernelBuilder) (grid_constants : bool) (m : MetadataBinding) (rd : Variable_ → N) (op : Metadata) :
    outcome (option N) :=
  let? i := cpp_compile_metadata (build_metadata k) grid_constants op in
  let '(static_info, info) := cuda_metadata grid_constants m in
  Ret (cpp_eval static_info info rd i).

(** ** Offsets of a plain buffer *)

(** WGSL, SPIR-V and the CPU read from the whole buffer, at an offset or at
    the offset found there plus the dimension. *)
Inductive PlainInstruction :=
| PMetadata (info_offset : N)
| PExtendedMeta (info_offset : N) (dim : Variable_)
| PLength (length : N)
| PArrayLength.

Definition plain_eval (info : list N) (rd : Variable_ → N) (i : PlainInstruction) : option N :=
  match i with
  | PMetadata o => read_at info o
  | PExtendedMeta o dim => x ← read_at info o; read_at info (wrap32 (Z.of_N x + Z.of_N (rd dim)))
  | PLength n => Some n
  | PArrayLength => None
  end.

(** ** WGSL *)

(** A length of anything but a buffer is the [arrayLength] of the variable,
    which does not read the metadata. *)
Definition wgsl_compile_metadata (mi : MetaInfo) (op : Metadata) : outcome PlainInstruction :=
  match op with
  | Rank var =>
      let? position := ext_meta_position mi var in
      let? offset := rank_index (mi_layout mi) position in Ret (PMetadata offset)
  | Stride dim var =>
      let? position := ext_meta_position mi var in
      let? offset := stride_offset_index (mi_layout mi) position in Ret (PExtendedMeta offset dim)
  | Shape dim var =>
      let? position := ext_meta_position mi var in
      let? offset := shape_offset_index (mi_layout mi) position in Ret (PExtendedMeta offset dim)
  | Length var =>
      match var_kind var with
      | GlobalInputArray id | GlobalOutputArray id =>
          let? offset := len_index (mi_layout mi) id in Ret (PMetadata offset)
      | _ => Ret PArrayLength
      end
  | BufferLength var =>
      match var_kind var with
      | GlobalInputArray id | GlobalOutputArray id =>
          let? offset := buffer_len_index (mi_layout mi) id in Ret (PMetadata offset)
      | _ => Ret PArrayLength
      end
  end.

(** ** SPIR-V *)

Definition spirv_ext_pos (mi : MetaInfo) (v : Variable_) : outcome N :=
  match var_kind v with
  | GlobalInputArray pos | GlobalOutputArray pos => expect (mi_positions mi !! N.to_nat pos) "index out of bounds"
  | _ => Panic "Only global buffers have rank"
  end.
Definition spirv_length (mi : MetaInfo) (v : Variable_) : outcome PlainInstruction :=
  match var_kind v with
  | GlobalInputArray pos | GlobalOutputArray pos => let? offset := len_index (mi_layout mi) pos in Ret (PMetadata offset)
  | SharedMemory _ len _ | ConstantArray _ len | LocalArray _ len => Ret (PLength len)
  | _ => Panic "doesn't have length"
  end.
Definition spirv_buffer_length (mi : MetaInfo) (v : Variable_) : outcome PlainInstruction :=
  match var_kind v with
  | GlobalInputArray pos | GlobalOutputArray pos =>
      let? offset := buffer_len_index (mi_layout mi) pos in Ret (PMetadata offset)
  | _ => Panic "Only Input and Output have a buffer length"
  end.
Definition compile_meta (mi : MetaInfo) (op : Metadata) : outcome PlainInstruction :=
  match op with
  | Rank var =>
      let? pos := spirv_ext_pos mi var in
      let? offset := rank_index (mi_layout mi) pos in Ret (PMetadata offset)
  | Length var => spirv_length mi var
  | BufferLength var => spirv_buffer_length mi var
  | Stride dim var =>
      let? pos := spirv_ext_pos mi var in
      let? offset := stride_offset_index (mi_layout mi) pos in Ret (PExtendedMeta offset dim)
  | Shape dim var =>
      let? pos := spirv_ext_pos mi var in
      let? offset := shape_offset_index (mi_layout mi) pos in Ret (PExtendedMeta offset dim)
  end.

(** ** CPU *)

(** Here the lengths are looked up at the position of the extended metadata
    as well. *)
Definition visit_metadata (mi : MetaInfo) (op : Metadata) : outcome PlainInstruction :=
  match op with
  | BufferLength var =>
      let? position := ext_meta_position mi var in
      let? offset := buffer_len_index (mi_layout mi) position in Ret (PMetadata offset)
  | Length var =>
      let? position := ext_meta_position mi var in
      let? offset := len_index (mi_layout mi) position in Ret (PMetadata offset)
  | Rank var =>
      let? position := ext_meta_position mi var in
      let? offset := rank_index (mi_layout mi) position in Ret (PMetadata offset)
  | Shape dim var =>
      let? position := ext_meta_position mi var in
      let? offset := shape_offset_index (mi_layout mi) position in Ret (PExtendedMeta offset dim)
  | Stride dim var =>
      let? position := ext_meta_position mi var in
      let? offset := stride_offset_index (mi_layout mi) position in Ret (PExtendedMeta offset dim)
  end.
(** The index is a 64-bit value: the offset is sign-extended and the sum does
    not wrap. *)
Definition cpu_eval (info : list N) (rd : Variable_ → N) (i : PlainInstruction) : option N :=
  match i with
  | PExtendedMeta o dim =>
      x ← read_at info o;
      if x <? 2147483648 then read_at info (x + rd dim) else None
  | _ => plain_eval info rd i
  end.

Definition wgsl_read (k : KernelBuilder) (m : MetadataBinding) (rd : Variable_ → N) (op : Metadata) : outcome (option N) :=
  let? i := wgsl_compile_metadata (wgsl_build_metadata k) op in Ret (plain_eval (mt_data m) rd i).
Definition spirv_read (k : KernelBuilder) (m : MetadataBinding) (rd : Variable_ → N) (op : Metadata) : outcome (option N) :=
  let? i := compile_meta (build_metadata k) op in Ret (plain_eval (mt_data m) rd i).
Definition cpu_read (k : KernelBuilder) (m : MetadataBinding) (rd : Variable_ → N) (op : Metadata) : outcome (option N) :=
  let? i := visit_metadata (cpu_build_metadata k) op in Ret (cpu_eval (mt_data m) rd i).
