(* ===== verification/LaunchProps.v ===== *)
(** * What a kernel reads is what it was launched with

    Proofs about [Launch.v] and [MetaCompile.v]: the numbering of the buffers
    in a kernel definition agrees with the order of the launch, and the
    offsets that the compilers compute point to the values that
    [MetadataBuilder::finish] has stored.  The parameters registered at the
    launch and those expanded in the kernel definition meet in the metadata
    buffer: every metadata operation on a parameter reads the value of the
    argument that was passed for it. *)

From stdpp Require Import sorting.
From S2P Require Import Prelude Ids DeviceNum Ir Launch MetaCompile.

Open Scope N_scope.
Open Scope rust_scope.

(** ** The metadata of an argument *)

Record ArgMeta := mkArgMeta { am_buffer_len : N; am_len : N; am_ext : option (N * list N * list N) }.

(** The answer to a metadata operation on a buffer. *)
Definition answer (rd : Variable_ → N) (op : Metadata) (m : ArgMeta) : option N :=
  match op with
  | BufferLength _ => Some (am_buffer_len m)
  | Length _ => Some (am_len m)
  | Rank _ => '(rank, _, _) ← am_ext m; Some rank
  | Shape dim _ => '(_, shape, _) ← am_ext m; shape !! N.to_nat (rd dim)
  | Stride dim _ => '(_, _, strides) ← am_ext m; strides !! N.to_nat (rd dim)
  end.
Definition op_var (op : Metadata) : Variable_ :=
  match op with Rank v | Stride _ v | Shape _ v | Length v | BufferLength v => v end.
Definition is_extended (op : Metadata) : bool :=
  match op with Length _ | BufferLength _ => false | _ => true end.

(** ** Lists of lists *)

Lemma lookup_after {A} (l1 l2 : list A) i : (l1 ++ l2) !! (length l1 + i)%nat = l2 !! i.
Proof. rewrite lookup_app_r by lia. f_equal. lia. Qed.
Lemma skip_parts (l1 l2 l3 rest : list N) i :
  (l1 ++ l2 ++ l3 ++ rest) !! (length l1 + length l2 + length l3 + i)%nat = rest !! i.
Proof. rewrite <- !Nat.add_assoc, !lookup_after. done. Qed.
Lemma as_u32_id x : x < 4294967296 → as_u32 x = x.
Proof. apply N.mod_small. Qed.
Lemma concat_take_le {A} k (l : list (list A)) : (length (concat (take k l)) ≤ length (concat l))%nat.
Proof. rewrite <- (take_drop k l) at 2. rewrite concat_app, length_app. lia. Qed.
Lemma concat_lookup {A} (ls : list (list A)) k l d x :
  ls !! k = Some l → l !! d = Some x → concat ls !! (length (concat (take k ls)) + d)%nat = Some x.
Proof.
  revert k. induction ls as [|y ls IH]; intros k Hk Hd; [done|]. destruct k as [|k]; cbn in *.
  - injection Hk as ->. by apply lookup_app_l_Some.
  - rewrite length_app, <- Nat.add_assoc, lookup_app_r by lia.
    replace (length y + (length (concat (take k ls)) + d) - length y)%nat with (length (concat (take k ls)) + d)%nat by lia.
    by apply IH.
Qed.

(** ** The serialised buffer *)

Section Finish.
Context (ms : list ArgMeta).

Definition exts : list (N * list N * list N) := omap am_ext ms.
Definition builder_of : MetadataBuilder :=
  mkMetaBuilder (am_buffer_len <$> ms) (am_len <$> ms) ((λ e, e.1.1) <$> exts) ((λ e, e.1.2) <$> exts) (snd <$> exts).

Lemma push_offsets_length c l : length (push_offsets c l).1 = length l.
Proof.
  revert c. induction l as [|x l IH]; intros c; [done|]. cbn. specialize (IH (c + length x)%nat).
  destruct (push_offsets _ l). cbn in *. by f_equal.
Qed.
Lemma push_offsets_end c l : (push_offsets c l).2 = (c + length (concat l))%nat.
Proof.
  revert c. induction l as [|x l IH]; intros c; cbn; [lia|]. specialize (IH (c + length x)%nat).
  destruct (push_offsets _ l). cbn in *. rewrite IH, length_app. lia.
Qed.
Lemma push_offsets_lookup c l k :
  (k < length l)%nat → (push_offsets c l).1 !! k = Some (as_u32 (N.of_nat (c + length (concat (take k l))))).
Proof.
  revert c k. induction l as [|x l IH]; intros c k Hk; [cbn in Hk; lia|]. cbn. specialize (IH (c + length x)%nat).
  destruct (push_offsets _ l). cbn in *. destruct k as [|k]; cbn; [by rewrite Nat.add_0_r|].
  rewrite IH by lia. rewrite length_app. by rewrite Nat.add_assoc.
Qed.

(** The parts of the buffer and where they start. *)
Abbreviation n := (length ms).
Abbreviation e := (length exts).
Abbreviation shapes := ((λ x, x.1.2) <$> exts).
Abbreviation strides := (snd <$> exts).
Definition data : list N := mt_data (finish builder_of).
Definition static_size : nat := 2 * n + 3 * e.

Lemma finish_parts : ∃ so sto,
  data = (am_buffer_len <$> ms) ++ (am_len <$> ms) ++ ((λ x, x.1.1) <$> exts) ++ so ++ sto ++ concat shapes ++ concat strides ∧
  mt_static_len (finish builder_of) = static_size ∧ length so = e ∧ length sto = e ∧
  (∀ k, (k < e)%nat → so !! k = Some (as_u32 (N.of_nat (static_size + length (concat (take k shapes)))))) ∧
  (∀ k, (k < e)%nat → sto !! k = Some (as_u32 (N.of_nat (static_size + length (concat shapes) + length (concat (take k strides)))))).
Proof.
  unfold data, finish, builder_of. cbn [mb_buffer_lens mb_lengths mb_ranks mb_shapes mb_strides].
  set (c := (length _ + length _ * 2)%nat).
  assert (c = static_size) as Hc.
  { unfold c, static_size. rewrite !length_app, !length_fmap. lia. }
  rewrite Hc. pose proof (push_offsets_length static_size shapes) as L1. pose proof (push_offsets_end static_size shapes) as E1.
  pose proof (λ k, push_offsets_lookup static_size shapes k) as P1.
  destruct (push_offsets static_size shapes) as [so c1]. cbn in L1, E1, P1. subst c1.
  pose proof (push_offsets_length (static_size + length (concat shapes)) strides) as L2.
  pose proof (λ k, push_offsets_lookup (static_size + length (concat shapes)) strides k) as P2.
  destruct (push_offsets _ strides) as [sto c2]. cbn in L2, P2. rewrite !length_fmap in *.
  exists so, sto. cbn [mt_data mt_static_len]. split_and!; try done.
  - by rewrite <- !app_assoc.
  - unfold static_size. rewrite !length_app, !length_fmap. lia.
Qed.

(** ** Offsets and reads *)

Context (Hbound : N.of_nat (length data) < 4294967296).

Definition layout : MetaLayout := mkLayout (N.of_nat n) (N.of_nat e).

Lemma static_bound : N.of_nat static_size < 4294967296.
Proof using Hbound.
  destruct finish_parts as (so & sto & Hd & _ & Hso & Hsto & _). rewrite Hd in Hbound.
  rewrite !length_app, !length_fmap in Hbound. unfold static_size. lia.
Qed.

Ltac offsets :=
  pose proof static_bound; unfold static_size in *;
  unfold buffer_len_index, len_index, rank_index, shape_offset_index, stride_offset_index, meta_static_len,
    offset_of_extended, offset_of, base_len, u32_mul, u32_add, layout, BUFFER_LEN, LENGTH, BASE_LEN, RANK, SHAPE_OFFSETS,
    STRIDE_OFFSETS, EXTENDED_LEN; cbn [num_meta num_extended_meta];
  repeat (rewrite checked_mul_ok by (unfold u32_max; lia); cbn [obind]);
  repeat (rewrite checked_add_ok by (unfold u32_max; lia); cbn [obind]); f_equal; lia.

Lemma buffer_len_index_spec j : (j < n)%nat → buffer_len_index layout (N.of_nat j) = Ret (N.of_nat j).
Proof using Hbound. intros. offsets. Qed.
Lemma len_index_spec j : (j < n)%nat → len_index layout (N.of_nat j) = Ret (N.of_nat (n + j)).
Proof using Hbound. intros. offsets. Qed.
Lemma rank_index_spec k : (k < e)%nat → rank_index layout (N.of_nat k) = Ret (N.of_nat (2 * n + k)).
Proof using Hbound. intros. offsets. Qed.
Lemma shape_offset_index_spec k : (k < e)%nat → shape_offset_index layout (N.of_nat k) = Ret (N.of_nat (2 * n + e + k)).
Proof using Hbound. intros. offsets. Qed.
Lemma stride_offset_index_spec k : (k < e)%nat → stride_offset_index layout (N.of_nat k) = Ret (N.of_nat (2 * n + 2 * e + k)).
Proof using Hbound. intros. offsets. Qed.
Lemma meta_static_len_spec : meta_static_len layout = Ret (N.of_nat static_size).
Proof using Hbound. offsets. Qed.

(** What the buffer holds at these offsets. *)
Lemma data_buffer_len j m : ms !! j = Some m → data !! j = Some (am_buffer_len m).
Proof using.
  intros Hj. destruct finish_parts as (so & sto & -> & _). apply lookup_app_l_Some. by rewrite list_lookup_fmap, Hj.
Qed.
Lemma data_len j m : ms !! j = Some m → data !! (n + j)%nat = Some (am_len m).
Proof using.
  intros Hj. destruct finish_parts as (so & sto & -> & _). rewrite <- (length_fmap am_buffer_len ms), lookup_after.
  apply lookup_app_l_Some. by rewrite list_lookup_fmap, Hj.
Qed.

Lemma data_rank k x : exts !! k = Some x → data !! (2 * n + k)%nat = Some x.1.1.
Proof using.
  clear Hbound. intros Hk. destruct finish_parts as (so & sto & -> & _).
  replace (2 * n + k)%nat with (length (am_buffer_len <$> ms) + (length (am_len <$> ms) + k))%nat by (rewrite !length_fmap; lia).
  rewrite !lookup_after. apply lookup_app_l_Some. by rewrite list_lookup_fmap, Hk.
Qed.

(** The offset of the shape, and of the strides, of the [k]-th tensor. *)
Definition shape_start (k : nat) : nat := static_size + length (concat (take k shapes)).
Definition stride_start (k : nat) : nat := static_size + length (concat shapes) + length (concat (take k strides)).

Lemma data_parts_at i so sto rest :
  data = (am_buffer_len <$> ms) ++ (am_len <$> ms) ++ ((λ x, x.1.1) <$> exts) ++ so ++ sto ++ rest →
  length so = e → length sto = e →
  data !! (2 * n + e + i)%nat = (so ++ sto ++ rest) !! i ∧ data !! (static_size + i)%nat = rest !! i.
Proof using.
  clear Hbound. intros -> Hso Hsto. split.
  - replace (2 * n + e + i)%nat with (length (am_buffer_len <$> ms) + length (am_len <$> ms) + length ((λ x, x.1.1) <$> exts) + i)%nat
      by (rewrite !length_fmap; lia). by rewrite skip_parts.
  - replace (static_size + i)%nat with (length (am_buffer_len <$> ms) + length (am_len <$> ms) + length ((λ x, x.1.1) <$> exts) +
      (length so + (length sto + i)))%nat by (rewrite !length_fmap; unfold static_size; lia).
    by rewrite skip_parts, !lookup_after.
Qed.

Lemma starts_bound k : N.of_nat (shape_start k) < 4294967296 ∧ N.of_nat (stride_start k) < 4294967296 ∧
  N.of_nat (static_size + length (concat shapes) + length (concat strides)) < 4294967296.
Proof using Hbound.
  destruct finish_parts as (so & sto & Hd & _ & Hso & Hsto & _). rewrite Hd in Hbound. rewrite !length_app, !length_fmap in Hbound.
  pose proof (concat_take_le k shapes). pose proof (concat_take_le k strides).
  unfold shape_start, stride_start, static_size. lia.
Qed.

Lemma data_shape_offset k : (k < e)%nat → data !! (2 * n + e + k)%nat = Some (N.of_nat (shape_start k)).
Proof using Hbound.
  intros Hk. destruct finish_parts as (so & sto & Hd & _ & Hso & Hsto & Hlso & _).
  rewrite (proj1 (data_parts_at k so sto _ Hd Hso Hsto)). apply lookup_app_l_Some. rewrite Hlso by done.
  rewrite as_u32_id; [done|]. apply (starts_bound k).
Qed.
Lemma data_stride_offset k : (k < e)%nat → data !! (2 * n + 2 * e + k)%nat = Some (N.of_nat (stride_start k)).
Proof using Hbound.
  intros Hk. destruct finish_parts as (so & sto & Hd & _ & Hso & Hsto & _ & Hlsto).
  replace (2 * n + 2 * e + k)%nat with (2 * n + e + (length so + k))%nat by lia.
  rewrite (proj1 (data_parts_at (length so + k) so sto _ Hd Hso Hsto)), lookup_after. apply lookup_app_l_Some. rewrite Hlsto by done.
  rewrite as_u32_id; [done|]. apply (starts_bound k).
Qed.
Lemma data_shape k x d v : exts !! k = Some x → x.1.2 !! d = Some v → data !! (shape_start k + d)%nat = Some v.
Proof using.
  intros Hk Hd. destruct finish_parts as (so & sto & Hdata & _ & Hso & Hsto & _).
  unfold shape_start. rewrite <- Nat.add_assoc, (proj2 (data_parts_at _ so sto _ Hdata Hso Hsto)). apply lookup_app_l_Some.
  apply (concat_lookup _ _ x.1.2); [|done]. by rewrite list_lookup_fmap, Hk.
Qed.
Lemma data_stride k x d v : exts !! k = Some x → x.2 !! d = Some v → data !! (stride_start k + d)%nat = Some v.
Proof using.
  intros Hk Hd. destruct finish_parts as (so & sto & Hdata & _ & Hso & Hsto & _).
  unfold stride_start. rewrite <- !Nat.add_assoc, (proj2 (data_parts_at _ so sto _ Hdata Hso Hsto)), lookup_after.
  apply (concat_lookup _ _ x.2); [|done]. by rewrite list_lookup_fmap, Hk.
Qed.
End Finish.

(** ** Positions *)

Definition has_ext (m : ArgMeta) : bool := match am_ext m with Some _ => true | None => false end.
Definition indexed (ms : list ArgMeta) : list (N * bool) := imap (λ i m, (N.of_nat i, has_ext m)) ms.

Lemma ext_positions_spec (f : nat → N) c ms :
  ext_positions c (imap (λ i m, (f i, has_ext m)) ms) =
    ((λ j, c + N.of_nat (length (exts (take j ms)))) <$> seq 0 (length ms), c + N.of_nat (length (exts ms))).
Proof.
  revert f c. induction ms as [|m ms IH]; intros f c; cbn [imap ext_positions length seq fmap list_fmap take]; [f_equal; cbn; lia|].
  rewrite (IH (f ∘ S)). unfold has_ext. cbn [exts take omap list_omap].
  assert (∀ j, length (exts (m :: take j ms)) = (length (exts (take j ms)) + if has_ext m then 1 else 0)%nat) as Hl.
  { intros j. unfold exts, has_ext. cbn. destruct (am_ext m); cbn; lia. }
  f_equal.
  - f_equal; [cbn; lia|]. rewrite <- fmap_S_seq, <- list_fmap_compose. apply list_fmap_ext. intros i j _. cbn [compose take].
    rewrite Hl. unfold has_ext. destruct (am_ext m); lia.
  - pose proof (Hl (length ms)) as Hm. rewrite firstn_all in Hm. unfold exts, has_ext in *. cbn in *. destruct (am_ext m); cbn in *; lia.
Qed.

Lemma meta_info_indexed ms :
  N.of_nat (length ms) < 4294967296 →
  mi_layout (meta_info (indexed ms)) = layout ms ∧
  ∀ j, (j < length ms)%nat → mi_positions (meta_info (indexed ms)) !! j = Some (N.of_nat (length (exts (take j ms)))).
Proof.
  intros Hn. unfold meta_info, indexed. rewrite (ext_positions_spec (λ i, N.of_nat i)). cbn [mi_layout mi_positions]. split.
  - unfold layout. rewrite length_imap, as_u32_id by done. f_equal.
  - intros j Hj. rewrite list_lookup_fmap, lookup_seq_lt by done. done.
Qed.

Lemma exts_position ms j m x :
  ms !! j = Some m → am_ext m = Some x → exts ms !! length (exts (take j ms)) = Some x.
Proof.
  intros Hj Hx. assert (exts ms = exts (take j ms) ++ x :: exts (drop (S j) ms)) as Heq.
  { pose proof (take_drop_middle ms j m Hj) as Hs. rewrite <- Hs at 1. unfold exts. rewrite omap_app. f_equal. cbn. by rewrite Hx. }
  rewrite Heq, lookup_app_r by done. by rewrite Nat.sub_diag.
Qed.

Lemma wrap32_add x d : x + d < 4294967296 → wrap32 (Z.of_N x + Z.of_N d) = x + d.
Proof. intros. unfold wrap32. rewrite Z.mod_small by lia. lia. Qed.
Lemma wrap32_sub x d c : c ≤ x + d → x + d < 4294967296 → wrap32 (Z.of_N x + Z.of_N d - Z.of_N c) = x + d - c.
Proof. intros. unfold wrap32. rewrite Z.mod_small by lia. lia. Qed.

(** ** Reads of the compiled operations *)

Section Read.
Context (ms : list ArgMeta) (Hbound : N.of_nat (length (data ms)) < 4294967296) (rd : Variable_ → N).
Context (j : nat) (m : ArgMeta) (Hm : ms !! j = Some m).

Lemma ms_bound : N.of_nat (length ms) < 4294967296 ∧ (j < length ms)%nat.
Proof using Hbound Hm.
  pose proof (static_bound ms Hbound). apply lookup_lt_Some in Hm. unfold static_size in *. lia.
Qed.

Lemma position_spec v :
  var_index v = Some (N.of_nat j) →
  ext_meta_position (meta_info (indexed ms)) v = Ret (N.of_nat (length (exts (take j ms)))).
Proof using Hbound Hm.
  intros Hv. destruct ms_bound as [Hn Hj]. destruct (meta_info_indexed ms Hn) as [_ Hp].
  unfold ext_meta_position. rewrite Hv. cbn [expect obind]. rewrite Nat2N.id, Hp by done. done.
Qed.

(** The offset of the first read, and for a shape or a stride where the
    second read goes. *)
Lemma extended_read d v :
  (∃ x, am_ext m = Some x ∧ x.1.2 !! N.to_nat d = Some v) →
  let k := length (exts (take j ms)) in
  (k < length (exts ms))%nat ∧ data ms !! (2 * length ms + length (exts ms) + k)%nat = Some (N.of_nat (shape_start ms k)) ∧
  data ms !! N.to_nat (N.of_nat (shape_start ms k) + d) = Some v ∧ N.of_nat (shape_start ms k) + d < 4294967296 ∧
  (static_size ms ≤ shape_start ms k)%nat.
Proof using Hbound Hm.
  intros (x & Hx & Hv) k. pose proof (exts_position ms j m x Hm Hx) as Hk. fold k in Hk.
  assert (k < length (exts ms))%nat as Hlt by (by eapply lookup_lt_Some).
  pose proof (data_shape ms k x (N.to_nat d) v Hk Hv) as Hd.
  replace (shape_start ms k + N.to_nat d)%nat with (N.to_nat (N.of_nat (shape_start ms k) + d)) in Hd by lia.
  split_and!; [done|by apply data_shape_offset|done| |unfold shape_start; lia].
  apply lookup_lt_Some in Hd. lia.
Qed.
Lemma extended_read_stride d v :
  (∃ x, am_ext m = Some x ∧ x.2 !! N.to_nat d = Some v) →
  let k := length (exts (take j ms)) in
  (k < length (exts ms))%nat ∧ data ms !! (2 * length ms + 2 * length (exts ms) + k)%nat = Some (N.of_nat (stride_start ms k)) ∧
  data ms !! N.to_nat (N.of_nat (stride_start ms k) + d) = Some v ∧ N.of_nat (stride_start ms k) + d < 4294967296 ∧
  (static_size ms ≤ stride_start ms k)%nat.
Proof using Hbound Hm.
  intros (x & Hx & Hv) k. pose proof (exts_position ms j m x Hm Hx) as Hk. fold k in Hk.
  assert (k < length (exts ms))%nat as Hlt by (by eapply lookup_lt_Some).
  pose proof (data_stride ms k x (N.to_nat d) v Hk Hv) as Hd.
  replace (stride_start ms k + N.to_nat d)%nat with (N.to_nat (N.of_nat (stride_start ms k) + d)) in Hd by lia.
  split_and!; [done|by apply data_stride_offset|done| |unfold stride_start; lia].
  apply lookup_lt_Some in Hd. lia.
Qed.
Lemma rank_read x : am_ext m = Some x →
  let k := length (exts (take j ms)) in
  (k < length (exts ms))%nat ∧ data ms !! (2 * length ms + k)%nat = Some x.1.1.
Proof using Hm.
  intros Hx k. pose proof (exts_position ms j m x Hm Hx) as Hk. split; [by eapply lookup_lt_Some|by apply data_rank].
Qed.

Definition is_buffer (v : Variable_) : Prop :=
  var_kind v = GlobalInputArray (N.of_nat j) ∨ var_kind v = GlobalOutputArray (N.of_nat j).

Lemma is_buffer_index v : is_buffer v → var_index v = Some (N.of_nat j).
Proof using. unfold var_index. by intros [-> | ->]. Qed.

(** The values of the two kinds of instructions for the operation. *)
Definition plain_of (op : Metadata) : PlainInstruction :=
  let k := length (exts (take j ms)) in
  match op with
  | BufferLength _ => PMetadata (N.of_nat j)
  | Length _ => PMetadata (N.of_nat (length ms + j))
  | Rank _ => PMetadata (N.of_nat (2 * length ms + k))
  | Shape dim _ => PExtendedMeta (N.of_nat (2 * length ms + length (exts ms) + k)) dim
  | Stride dim _ => PExtendedMeta (N.of_nat (2 * length ms + 2 * length (exts ms) + k)) dim
  end.

Ltac by_ext H :=
  cbn in H; destruct (am_ext m) as [[[rk shp] std]|] eqn:Hext; [|done]; cbn in H.

Lemma plain_of_eval op x : answer rd op m = Some x → plain_eval (data ms) rd (plain_of op) = Some x.
Proof using Hbound Hm.
  destruct op as [v|dim v|dim v|v|v]; intros Ha; cbn [plain_of plain_eval]; unfold read_at; rewrite ?Nat2N.id.
  - by_ext Ha. injection Ha as <-. destruct (rank_read _ Hext) as [_ Hr]. exact Hr.
  - by_ext Ha. destruct (extended_read_stride (rd dim) x) as (_ & Ho & Hd & Hb & _); [by eexists|].
    rewrite Ho. cbn. rewrite wrap32_add by done. exact Hd.
  - by_ext Ha. destruct (extended_read (rd dim) x) as (_ & Ho & Hd & Hb & _); [by eexists|].
    rewrite Ho. cbn. rewrite wrap32_add by done. exact Hd.
  - injection Ha as <-. by apply data_len.
  - injection Ha as <-. by apply data_buffer_len.
Qed.

Lemma ext_lt op x : answer rd op m = Some x → is_extended op = true → (length (exts (take j ms)) < length (exts ms))%nat.
Proof using Hm.
  intros Ha He. destruct op; try done; by_ext Ha; destruct (rank_read _ Hext) as [Hl _]; exact Hl.
Qed.

(** The offsets that the layout computes. *)
Lemma layout_offsets op x :
  answer rd op m = Some x →
  let k := N.of_nat (length (exts (take j ms))) in
  let l := mi_layout (meta_info (indexed ms)) in
  match op, plain_of op with
  | BufferLength _, PMetadata o => buffer_len_index l (N.of_nat j) = Ret o
  | Length _, PMetadata o => len_index l (N.of_nat j) = Ret o
  | Rank _, PMetadata o => rank_index l k = Ret o
  | Shape _ _, PExtendedMeta o _ => shape_offset_index l k = Ret o
  | Stride _ _, PExtendedMeta o _ => stride_offset_index l k = Ret o
  | _, _ => False
  end.
Proof using Hbound Hm.
  intros Ha k l. destruct ms_bound as [Hn Hj]. unfold l. rewrite (proj1 (meta_info_indexed ms Hn)).
  destruct op; cbn [plain_of].
  - by apply rank_index_spec, (ext_lt _ x Ha).
  - by apply stride_offset_index_spec, (ext_lt _ x Ha).
  - by apply shape_offset_index_spec, (ext_lt _ x Ha).
  - by apply len_index_spec.
  - by apply buffer_len_index_spec.
Qed.

Ltac compiled Ha Hv :=
  pose proof (layout_offsets _ _ Ha) as Ho; pose proof (position_spec _ (is_buffer_index _ Hv)) as Hp;
  cbn [plain_of] in Ho.

Lemma wgsl_compiled op x : answer rd op m = Some x → is_buffer (op_var op) →
  wgsl_compile_metadata (meta_info (indexed ms)) op = Ret (plain_of op).
Proof using Hbound Hm.
  intros Ha Hv. compiled Ha Hv. destruct op; cbn [op_var wgsl_compile_metadata plain_of] in *.
  1-3: rewrite Hp; cbn [obind]; by rewrite Ho.
  1-2: destruct Hv as [-> | ->]; by rewrite Ho.
Qed.
Lemma spirv_compiled op x : answer rd op m = Some x → is_buffer (op_var op) →
  compile_meta (meta_info (indexed ms)) op = Ret (plain_of op).
Proof using Hbound Hm.
  intros Ha Hv. compiled Ha Hv.
  assert (spirv_ext_pos (meta_info (indexed ms)) (op_var op) = Ret (N.of_nat (length (exts (take j ms))))) as Hs.
  { rewrite <- Hp. unfold spirv_ext_pos, ext_meta_position. rewrite (is_buffer_index _ Hv). by destruct Hv as [-> | ->]. }
  destruct op; cbn [op_var compile_meta plain_of] in *.
  1-3: rewrite Hs; cbn [obind]; by rewrite Ho.
  - unfold spirv_length. destruct Hv as [-> | ->]; by rewrite Ho.
  - unfold spirv_buffer_length. destruct Hv as [-> | ->]; by rewrite Ho.
Qed.
Lemma cpu_compiled op x : answer rd op m = Some x → is_buffer (op_var op) → is_extended op = true →
  visit_metadata (meta_info (indexed ms)) op = Ret (plain_of op).
Proof using Hbound Hm.
  intros Ha Hv He. compiled Ha Hv. destruct op; try done; cbn [op_var visit_metadata plain_of] in *;
    rewrite Hp; cbn [obind]; by rewrite Ho.
Qed.

Definition cpp_of (gc : bool) (op : Metadata) : CppInstruction :=
  match plain_of op with
  | PMetadata o => CppMetadata o gc
  | PExtendedMeta o dim => CppExtendedMetadata o dim gc (N.of_nat (static_size ms))
  | PLength n => CppConstLength n
  | PArrayLength => CppConstLength 0
  end.

Lemma cpp_compiled gc op x :
  answer rd op m = Some x → is_buffer (op_var op) ∨ is_extended op = true ∧ var_index (op_var op) = Some (N.of_nat j) →
  cpp_compile_metadata (meta_info (indexed ms)) gc op = Ret (cpp_of gc op).
Proof using Hbound Hm.
  intros Ha Hv. pose proof (layout_offsets _ _ Ha) as Ho. cbn [plain_of] in Ho.
  assert (ext_meta_position (meta_info (indexed ms)) (op_var op) = Ret (N.of_nat (length (exts (take j ms))))) as Hp.
  { apply position_spec. destruct Hv as [Hv|[_ Hv]]; [by apply is_buffer_index|done]. }
  assert (meta_static_len (mi_layout (meta_info (indexed ms))) = Ret (N.of_nat (static_size ms))) as Hs.
  { destruct ms_bound as [Hn _]. rewrite (proj1 (meta_info_indexed ms Hn)). by apply meta_static_len_spec. }
  destruct op; cbn [op_var cpp_compile_metadata cpp_of plain_of] in *.
  - rewrite Hp. cbn [obind]. by rewrite Ho.
  - rewrite Hp. cbn [obind]. rewrite Ho. cbn [obind]. by rewrite Hs.
  - rewrite Hp. cbn [obind]. rewrite Ho. cbn [obind]. by rewrite Hs.
  - destruct Hv as [[Hk|Hk]|[? _]]; [| |done]; unfold cpp_id; rewrite Hk; cbn [expect obind]; by rewrite Ho.
  - destruct Hv as [[Hk|Hk]|[? _]]; [| |done]; unfold cpp_id; rewrite Hk; cbn [expect obind]; by rewrite Ho.
Qed.

Lemma static_read (o : nat) x : (o < static_size ms)%nat → data ms !! o = Some x →
  read_at (take (static_size ms) (data ms)) (N.of_nat o) = Some x.
Proof using. intros Ho Hx. unfold read_at. rewrite Nat2N.id, lookup_take_lt by done. done. Qed.

Lemma dynamic_read (o : nat) d x :
  (static_size ms ≤ o)%nat → N.of_nat o + d < 4294967296 → data ms !! N.to_nat (N.of_nat o + d) = Some x →
  read_at (drop (static_size ms) (data ms)) (wrap32 (Z.of_N (N.of_nat o) + Z.of_N d - Z.of_N (N.of_nat (static_size ms)))) = Some x.
Proof using.
  clear Hbound. intros Ho Hb Hx. rewrite wrap32_sub by lia. unfold read_at. rewrite lookup_drop. rewrite <- Hx. f_equal. lia.
Qed.

Lemma cpp_split_eval op x :
  answer rd op m = Some x →
  cpp_eval (take (static_size ms) (data ms)) (drop (static_size ms) (data ms)) rd (cpp_of true op) = Some x.
Proof using Hbound Hm.
  intros Ha. pose proof (plain_of_eval op x Ha) as Hpl. destruct ms_bound as [_ Hj].
  pose proof (ext_lt op x Ha) as Hlt. unfold cpp_of. destruct op as [v|dim v|dim v|v|v]; cbn [plain_of cpp_eval plain_eval] in *.
  - apply static_read; [specialize (Hlt eq_refl); unfold static_size; lia|]. unfold read_at in Hpl. by rewrite Nat2N.id in Hpl.
  - by_ext Ha. destruct (extended_read_stride (rd dim) x) as (Hk & Ho & Hd & Hb & Hs); [by eexists|].
    pose proof (λ H, static_read _ _ H Ho) as Hr. rewrite Hr by (unfold static_size; lia). cbn. by apply dynamic_read.
  - by_ext Ha. destruct (extended_read (rd dim) x) as (Hk & Ho & Hd & Hb & Hs); [by eexists|].
    pose proof (λ H, static_read _ _ H Ho) as Hr. rewrite Hr by (unfold static_size; lia). cbn. by apply dynamic_read.
  - apply static_read; [unfold static_size; lia|]. unfold read_at in Hpl. by rewrite Nat2N.id in Hpl.
  - apply static_read; [unfold static_size; lia|]. unfold read_at in Hpl. by rewrite Nat2N.id in Hpl.
Qed.

Lemma cpp_plain_eval s op : cpp_eval s (data ms) rd (cpp_of false op) = plain_eval (data ms) rd (plain_of op).
Proof using. by destruct op. Qed.

Lemma cpp_eval_correct gc op x :
  answer rd op m = Some x →
  let '(static_info, info) := cuda_metadata gc (finish (builder_of ms)) in cpp_eval static_info info rd (cpp_of gc op) = Some x.
Proof using Hbound Hm.
  intros Ha. destruct gc; cbn [cuda_metadata].
  - destruct (finish_parts ms) as (so & sto & _ & -> & _). by apply cpp_split_eval.
  - change (mt_data (finish (builder_of ms))) with (data ms). rewrite cpp_plain_eval. by apply plain_of_eval.
Qed.

Lemma cpu_eval_correct op x :
  N.of_nat (length (data ms)) ≤ 2147483648 → answer rd op m = Some x → cpu_eval (data ms) rd (plain_of op) = Some x.
Proof using Hbound Hm.
  intros Hhalf Ha. pose proof (plain_of_eval op x Ha) as Hpl. destruct op as [v|dim v|dim v|v|v]; try done.
  - by_ext Ha. destruct (extended_read_stride (rd dim) x) as (Hk & Ho & Hd & Hb & Hs); [by eexists|].
    cbn [plain_of cpu_eval]. unfold read_at. rewrite Nat2N.id, Ho. cbn [mbind option_bind]. apply lookup_lt_Some in Hd as Hl.
    rewrite (proj2 (N.ltb_lt _ _)) by lia. done.
  - by_ext Ha. destruct (extended_read (rd dim) x) as (Hk & Ho & Hd & Hb & Hs); [by eexists|].
    cbn [plain_of cpu_eval]. unfold read_at. rewrite Nat2N.id, Ho. cbn [mbind option_bind]. apply lookup_lt_Some in Hd as Hl.
    rewrite (proj2 (N.ltb_lt _ _)) by lia. done.
Qed.
End Read.

Section Spec.
Context {B TM : Type}.
Abbreviation ParamT := (Param B TM).
Abbreviation ArgT := (Arg B TM).
Abbreviation StateT := (TensorState B TM).

(** ** What the launcher records *)

Definition tensor_meta (t : TensorHandleRef (B := B)) (v : N) : outcome ArgMeta :=
  let? elem_size := checked_mul usize_max (th_elem_size t) v in
  let? size := Handle_size (th_handle t) in
  let? buffer_len := checked_div size elem_size in
  let? n := product 1 (th_shape t) in
  let? len := checked_div n v in
  Ret (mkArgMeta (as_u32 buffer_len) (as_u32 len)
    (Some (as_u32 (N.of_nat (length (th_strides t))), as_u32 <$> th_shape t, as_u32 <$> th_strides t))).
Definition array_meta (a : ArrayHandleRef (B := B)) (v : N) : outcome ArgMeta :=
  let? elem_size := checked_mul usize_max (ah_elem_size a) v in
  let? size := Handle_size (ah_handle a) in
  let? buffer_len := checked_div size elem_size in
  Ret (mkArgMeta (as_u32 buffer_len) (as_u32 (ah_length a)) None).

(** An alias has no metadata of its own. *)
Definition meta_of (a : ArgT) : outcome (option ArgMeta) :=
  match a with
  | ATensor (TAHandle t v) => let? m := tensor_meta t v in Ret (Some m)
  | AArray (AAHandle h v) => let? m := array_meta h v in Ret (Some m)
  | AMap a =>
      match tm_tensor a with
      | TAHandle t v => let? m := tensor_meta t v in Ret (Some m)
      | TAAlias _ => Panic "Can't use alias for TensorMap"
      end
  | ATensor (TAAlias _) | AArray (AAAlias _) => Ret None
  end.
Fixpoint metas (ps : list ParamT) : outcome (list (option ArgMeta)) :=
  match ps with
  | [] => Ret []
  | p :: ps => let? o := meta_of (pm_arg p) in let? os := metas ps in Ret (o :: os)
  end.

Definition metadata_of (st : StateT) : MetadataBuilder := (state_fields st).2.
Definition add_meta (b : MetadataBuilder) (m : ArgMeta) : MetadataBuilder :=
  match am_ext m with
  | Some (rank, shape, strides) => with_tensor b rank (am_buffer_len m) (am_len m) shape strides
  | None => with_array b (am_buffer_len m) (am_len m)
  end.
Definition add_opt (b : MetadataBuilder) (o : option ArgMeta) : MetadataBuilder :=
  match o with Some m => add_meta b m | None => b end.

Lemma metadata_update st f : metadata_of (update_metadata st f) = f (metadata_of st).
Proof. by destruct st. Qed.
Lemma metadata_push st (b : B) : metadata_of (push_binding st b) = metadata_of st.
Proof. by destruct st. Qed.
Lemma metadata_push_map st b : metadata_of (push_map_binding st b) = metadata_of st.
Proof. by destruct st. Qed.

Lemma process_tensor_meta (st : StateT) a b st' :
  process_tensor st a = Ret (b, st') →
  match a with
  | TAHandle t v => ∃ m, tensor_meta t v = Ret m ∧ is_Some b ∧ metadata_of st' = add_meta (metadata_of st) m
  | TAAlias _ => b = None ∧ st' = st
  end.
Proof.
  destruct a as [t v|pos]; cbn; [|by intros [= <- <-]]. unfold tensor_meta.
  intros (es & H1 & H)%obind_ret. apply obind_ret in H as (sz & H2 & H). apply obind_ret in H as (bl & H3 & H).
  apply obind_ret in H as (n & H4 & H). apply obind_ret in H as (len & H5 & [= <- <-]).
  rewrite H1. cbn [obind]. rewrite H2. cbn [obind]. rewrite H3. cbn [obind]. rewrite H4. cbn [obind]. rewrite H5.
  eexists. split; [done|]. split; [done|]. by rewrite metadata_update.
Qed.

Lemma register_param_meta (st : StateT) p st' :
  register_param st p = Ret st' →
  ∃ o, meta_of (pm_arg p) = Ret o ∧ metadata_of st' = add_opt (metadata_of st) o.
Proof.
  unfold register_param, meta_of. destruct (pm_arg p) as [a|a|a].
  - intros ([b st1] & Hp & [= <-])%obind_ret. apply process_tensor_meta in Hp. destruct a as [t v|pos].
    + destruct Hp as (m & -> & [x ->] & Hm). eexists. split; [done|]. by rewrite metadata_push.
    + destruct Hp as [-> ->]. by eexists.
  - intros ([b st1] & Hp & [= <-])%obind_ret. destruct a as [h v|pos]; cbn in Hp.
    + unfold array_meta. apply obind_ret in Hp as (es & H1 & H). apply obind_ret in H as (sz & H2 & H).
      apply obind_ret in H as (bl & H3 & [= <- <-]). rewrite H1. cbn [obind]. rewrite H2. cbn [obind]. rewrite H3. eexists. split; [done|]. by rewrite metadata_push, metadata_update.
    + injection Hp as <- <-. by eexists.
  - intros ([b st1] & Hp & H)%obind_ret. apply process_tensor_meta in Hp. destruct (tm_tensor a) as [t v|pos].
    + destruct Hp as (m & -> & [x ->] & Hm). injection H as <-. eexists. split; [done|]. by rewrite metadata_push_map.
    + destruct Hp as [-> ->]. done.
Qed.

Lemma add_meta_builder ms m : add_meta (builder_of ms) m = builder_of (ms ++ [m]).
Proof.
  unfold builder_of, exts. rewrite !fmap_app, omap_app. unfold add_meta. cbn.
  destruct (am_ext m) as [[[rk shp] std]|]; unfold with_tensor, with_array; cbn; rewrite ?fmap_app, ?app_nil_r; done.
Qed.

Abbreviation present := (omap (M := list) (λ x : option ArgMeta, x)).

Lemma register_all_meta ps (st st' : StateT) ms :
  register_all st ps = Ret st' → metadata_of st = builder_of ms →
  ∃ os, metas ps = Ret os ∧ metadata_of st' = builder_of (ms ++ present os).
Proof.
  revert st ms. induction ps as [|p ps IH]; intros st ms; cbn.
  - intros [= <-] ->. exists []. by rewrite app_nil_r.
  - intros (st1 & Hp & Hr)%obind_ret Hst. apply register_param_meta in Hp as (o & -> & Hm). cbn. rewrite Hst in Hm.
    assert (metadata_of st1 = builder_of (ms ++ present [o])) as Hm1.
    { rewrite Hm. destruct o as [m|]; cbn; [by rewrite add_meta_builder|by rewrite app_nil_r]. }
    destruct (IH st1 _ Hr Hm1) as (os & -> & Hos). eexists. split; [done|]. rewrite Hos, <- app_assoc. by destruct o.
Qed.

Lemma bindings_metadata (st : StateT) : bd_metadata (into_bindings st) = finish (metadata_of st).
Proof. by destruct st. Qed.

(** ** How the definition numbers the buffers *)

Definition map_meta (k : KernelBuilder) : list (N * bool) := (λ id, (id, true)) <$> kb_tensor_maps k.
Record kb_inv (k : KernelBuilder) (ms : list ArgMeta) : Prop := {
  ki_perm : buffer_meta k ++ map_meta k ≡ₚ indexed ms;
  ki_plain : kb_tensor_maps k = [] → buffer_meta k = indexed ms;
}.

(** An alias is passed for an output. *)
Definition alias_ok (p : ParamT) : Prop := meta_of (pm_arg p) = Ret None → pm_is_mut p = true.
Definition is_map (p : ParamT) : bool := match pm_arg p with AMap _ => true | _ => false end.

Lemma indexed_snoc ms m : indexed (ms ++ [m]) = indexed ms ++ [(N.of_nat (length ms), has_ext m)].
Proof. unfold indexed. rewrite imap_app. cbn. by rewrite Nat.add_0_r. Qed.

Lemma buffer_id_spec k ms :
  kb_inv k ms → N.of_nat (length ms) < 4294967296 → buffer_id k = N.of_nat (length ms).
Proof.
  intros [Hp _] Hn. apply Permutation_length in Hp. unfold buffer_meta, map_meta, indexed in Hp.
  rewrite length_app, !length_fmap, length_imap in Hp. unfold buffer_id. rewrite !as_u32_id by lia. lia.
Qed.

Lemma push_buffer_inv k ms m item vis ext :
  kb_inv k ms → N.of_nat (length ms) < 4294967296 → ext = has_ext m → kb_inv (push_buffer k item vis ext) (ms ++ [m]).
Proof.
  intros Hk Hn ->. pose proof (buffer_id_spec k ms Hk Hn) as Hid. destruct Hk as [Hp Hpl].
  split; unfold buffer_meta, map_meta, push_buffer in *; cbn; rewrite fmap_app, indexed_snoc; cbn; rewrite Hid.
  - rewrite <- Hp, <- !app_assoc. f_equiv. apply Permutation_app_comm.
  - intros Hm. f_equal. by apply Hpl.
Qed.
Lemma tensor_map_inv k ms m :
  kb_inv k ms → N.of_nat (length ms) < 4294967296 → has_ext m = true → kb_inv (tensor_map k).2 (ms ++ [m]).
Proof.
  intros Hk Hn Hm. pose proof (buffer_id_spec k ms Hk Hn) as Hid. destruct Hk as [Hp Hpl].
  split; unfold buffer_meta, map_meta, tensor_map in *; cbn; [|by destruct (kb_tensor_maps k)].
  rewrite fmap_app, indexed_snoc, Hm, Hid, app_assoc. cbn. by rewrite Hp.
Qed.
Lemma inplace_inv k ms pos v k' : kb_inv k ms → inplace_output k pos = Ret (v, k') → kb_inv k' ms.
Proof.
  intros [Hp Hpl] H. apply obind_ret in H as (b & Hb & [= <- <-]).
  destruct (kb_buffers k !! N.to_nat pos) as [b'|] eqn:Hb'; [injection Hb as ->|done].
  assert (buffer_meta (mkKernelBuilder (<[N.to_nat pos := mkBufferInfo (bi_id b) (bi_item b) VReadWrite (bi_has_extended_meta b)]>
    (kb_buffers k)) (kb_tensor_maps k)) = buffer_meta k) as Heq.
  { unfold buffer_meta. cbn. rewrite list_fmap_insert. cbn. apply list_insert_id. by rewrite list_lookup_fmap, Hb'. }
  split; rewrite Heq; [done|]. intros Hm. by apply Hpl.
Qed.

Lemma expand_param_inv k ms p o v k' :
  kb_inv k ms → N.of_nat (length ms) < 4294967296 → alias_ok p → meta_of (pm_arg p) = Ret o → expand_param p k = Ret (v, k') →
  kb_inv k' (ms ++ present [o]) ∧
  (∀ m, o = Some m → if is_map p then var_kind v = TensorMap (N.of_nat (length ms)) else is_buffer (length ms) v) ∧
  (is_map p = false → kb_tensor_maps k' = kb_tensor_maps k).
Proof.
  intros Hk Hn Hal Ho He. pose proof (buffer_id_spec k ms Hk Hn) as Hid. unfold alias_ok in Hal. rewrite Ho in Hal.
  unfold expand_param, is_map in *. destruct (pm_arg p) as [[t vf|pos]|[h vf|pos]|a]; cbn in Ho.
  - apply obind_ret in Ho as (m & Hm & [= <-]). assert (has_ext m = true) as Hx.
    { unfold tensor_meta in Hm. repeat (apply obind_ret in Hm as (? & _ & Hm)). by injection Hm as <-. }
    apply obind_ret in He as (c & Hc & He). cbn in Hc. apply obind_ret in Hc as (pf & _ & [= <-]).
    destruct (pm_is_mut p); injection He as <- <-; cbn [present omap list_omap];
      (split_and!; [by apply push_buffer_inv|intros m' _; unfold is_buffer; cbn; rewrite Hid; auto|done]).
  - injection Ho as <-. rewrite Hal in He by done. cbn in He. cbn [present omap list_omap]. rewrite app_nil_r.
    split_and!; [by eapply inplace_inv|done|]. intros _. unfold tensor_expand_output in He. cbn in He.
    apply obind_ret in He as (b & _ & [= <- <-]). done.
  - apply obind_ret in Ho as (m & Hm & [= <-]). assert (has_ext m = false) as Hx.
    { unfold array_meta in Hm. repeat (apply obind_ret in Hm as (? & _ & Hm)). by injection Hm as <-. }
    apply obind_ret in He as (c & Hc & He). cbn in Hc. apply obind_ret in Hc as (pf & _ & [= <-]).
    destruct (pm_is_mut p); injection He as <- <-; cbn [present omap list_omap];
      (split_and!; [by apply push_buffer_inv|intros m' _; unfold is_buffer; cbn; rewrite Hid; auto|done]).
  - injection Ho as <-. rewrite Hal in He by done. cbn in He. cbn [present omap list_omap]. rewrite app_nil_r.
    split_and!; [by eapply inplace_inv|done|]. intros _. unfold array_expand_output in He. cbn in He.
    apply obind_ret in He as (b & _ & [= <- <-]). done.
  - destruct (tm_tensor a) as [t vf|]; [|done]. apply obind_ret in Ho as (m & Hm & [= <-]). assert (has_ext m = true) as Hx.
    { unfold tensor_meta in Hm. repeat (apply obind_ret in Hm as (? & _ & Hm)). by injection Hm as <-. }
    injection He as <- <-. cbn [present omap list_omap]. split_and!; [by apply tensor_map_inv|intros m' _; cbn; by rewrite Hid|done].
Qed.

Lemma present_length (os : list (option ArgMeta)) : (length (present os) ≤ length os)%nat.
Proof. induction os as [|[]]; cbn; lia. Qed.
Lemma metas_length (ps : list ParamT) os : metas ps = Ret os → length os = length ps.
Proof.
  revert os. induction ps as [|p ps IH]; intros os; cbn; [by intros [= <-]|].
  intros (o & _ & H)%obind_ret. apply obind_ret in H as (os' & Hos & [= <-]). cbn. f_equal. by apply IH.
Qed.

Lemma expand_all_inv ps k ms vs k' os :
  kb_inv k ms → N.of_nat (length ms + length ps) < 4294967296 → Forall alias_ok ps → metas ps = Ret os →
  expand_all ps k = Ret (vs, k') →
  kb_inv k' (ms ++ present os) ∧
  (∀ i p m, ps !! i = Some p → os !! i = Some (Some m) → ∃ v, vs !! i = Some v ∧
     let j := (length ms + length (present (take i os)))%nat in
     if is_map p then var_kind v = TensorMap (N.of_nat j) else is_buffer j v) ∧
  (Forall (λ p, is_map p = false) ps → kb_tensor_maps k' = kb_tensor_maps k).
Proof.
  revert k ms vs os. induction ps as [|p ps IH]; intros k ms vs os Hk Hn Hal Hos He; cbn in Hos, He.
  - injection Hos as <-. injection He as <- <-. rewrite app_nil_r. split_and!; done.
  - apply Forall_cons in Hal as [Hp Hal]. apply obind_ret in Hos as (o & Ho & Hos). apply obind_ret in Hos as (os' & Hos & [= <-]).
    apply obind_ret in He as ([v k1] & Hev & He). apply obind_ret in He as ([vs' k2] & Hev' & [= <- <-]).
    cbn in Hn. destruct (expand_param_inv k ms p o v k1 Hk ltac:(lia) Hp Ho Hev) as (Hk1 & Hv & Hm1).
    assert (present (o :: os') = present [o] ++ present os') as Hcons by (by destruct o).
    pose proof (present_length [o]) as Hl1. cbn [length] in Hl1.
    destruct (IH k1 (ms ++ present [o]) vs' os' Hk1) as (Hk2 & Hvs & Hm2); try done; [rewrite length_app; lia|].
    split_and!.
    + by rewrite Hcons, app_assoc.
    + intros [|i] q m Hq Hom; cbn in Hq, Hom.
      * injection Hq as <-. injection Hom as ->. exists v. split; [done|]. cbn. rewrite Nat.add_0_r. by apply (Hv m).
      * destruct (Hvs i q m Hq Hom) as (w & Hw & Hk3). exists w. split; [done|]. cbn [take].
        replace (length ms + length (present (o :: take i os')))%nat with (length (ms ++ present [o]) + length (present (take i os')))%nat; [done|].
        rewrite length_app. destruct o; cbn; lia.
    + intros [Hmp Hmps]%Forall_cons. rewrite Hm2, Hm1 by done. done.
Qed.

Lemma present_lookup (os : list (option ArgMeta)) i m :
  os !! i = Some (Some m) → present os !! length (present (take i os)) = Some m.
Proof.
  intros Hi. assert (present os = present (take i os) ++ m :: present (drop (S i) os)) as ->.
  { pose proof (take_drop_middle os i _ Hi) as Hs. rewrite <- Hs at 1. by rewrite omap_app. }
  rewrite lookup_app_r by done. by rewrite Nat.sub_diag.
Qed.

Lemma metas_lookup (ps : list ParamT) os i p o :
  metas ps = Ret os → ps !! i = Some p → meta_of (pm_arg p) = Ret o → os !! i = Some o.
Proof.
  revert os i. induction ps as [|q ps IH]; intros os i; [done|]. cbn.
  intros (o' & Ho & H)%obind_ret. apply obind_ret in H as (os' & Hos & [= <-]). destruct i as [|i]; cbn.
  - intros [= <-] Hm. congruence.
  - by apply IH.
Qed.

Lemma sorted_indexed ms : StronglySorted (key_le fst) (indexed ms) ∧ NoDup (fst <$> indexed ms).
Proof.
  unfold indexed. rewrite fmap_imap. split.
  - enough (∀ c, StronglySorted (key_le fst) (imap (λ i m, (N.of_nat (c + i), has_ext m)) ms)) as Hs by apply (Hs 0%nat).
    induction ms as [|m ms IH]; intros c; cbn; constructor.
    + rewrite (imap_ext _ (λ i m, (N.of_nat (S c + i), has_ext m))); [apply IH|]. intros; cbn; f_equal; f_equal; lia.
    + apply Forall_forall. intros [y b] (i & m' & -> & _)%elem_of_lookup_imap. unfold key_le. cbn. lia.
  - rewrite (imap_ext _ (λ i _, N.of_nat i)) by done. apply NoDup_alt. intros i j x Hi Hj.
    apply list_lookup_imap_Some in Hi as (? & _ & ->). apply list_lookup_imap_Some in Hj as (? & _ & Heq). lia.
Qed.

Lemma build_metadata_inv k ms : kb_inv k ms → build_metadata k = meta_info (indexed ms).
Proof.
  intros [Hp _]. unfold build_metadata. fold (map_meta k). destruct (sorted_indexed ms) as [Hs Hn].
  by rewrite (sort_by_unique _ _ (indexed ms)).
Qed.
Lemma plain_metadata_inv k ms : kb_inv k ms → kb_tensor_maps k = [] →
  wgsl_build_metadata k = meta_info (indexed ms) ∧ cpu_build_metadata k = meta_info (indexed ms).
Proof.
  intros [_ Hp] Hm. unfold wgsl_build_metadata, cpu_build_metadata. rewrite (Hp Hm). split; [done|].
  destruct (sorted_indexed ms) as [Hs Hn]. by rewrite (sort_by_unique _ _ (indexed ms)).
Qed.
End Spec.

(** ** Tensors only *)

Definition is_tensor {B TM} (p : Param B TM) : bool := match pm_arg p with ATensor _ => true | _ => false end.

Lemma tensors_ext {B TM} (ps : list (Param B TM)) os :
  metas ps = Ret os → Forall (λ p, is_tensor p = true) ps → Forall (λ m, has_ext m = true) (omap (λ x, x) os).
Proof.
  revert os. induction ps as [|p ps IH]; intros os; cbn; [by intros [= <-]|].
  intros (o & Ho & H)%obind_ret. apply obind_ret in H as (os' & Hos & [= <-]). intros [Hp Hps]%Forall_cons.
  assert (∀ m, o = Some m → has_ext m = true) as Hm.
  { intros m ->. unfold is_tensor in Hp. destruct (pm_arg p) as [[t v|]| |]; try done. cbn in Ho.
    apply obind_ret in Ho as (m' & Hm & [= <-]). unfold tensor_meta in Hm. repeat (apply obind_ret in Hm as (? & _ & Hm)).
    by injection Hm as <-. }
  specialize (IH os' Hos Hps). destruct o as [m|]; cbn; [|done]. constructor; [by apply Hm|done].
Qed.

Lemma exts_all ms : Forall (λ m, has_ext m = true) ms → length (exts ms) = length ms.
Proof.
  unfold exts, has_ext. induction 1 as [|m ms Hm _ IH]; [done|]. cbn. destruct (am_ext m); [|done]. cbn. by f_equal.
Qed.

(** On the CPU, where lengths are looked up at the position among the tensors. *)
Lemma cpu_compiled_all ms rd j m op x :
  N.of_nat (length (data ms)) < 4294967296 → ms !! j = Some m → Forall (λ m, has_ext m = true) ms →
  answer rd op m = Some x → is_buffer j (op_var op) → visit_metadata (meta_info (indexed ms)) op = Ret (plain_of ms j op).
Proof.
  intros Hb Hm Hall Ha Hv. destruct (is_extended op) eqn:He; [by eapply cpu_compiled|].
  pose proof (position_spec ms Hb j m Hm _ (is_buffer_index j _ Hv)) as Hp.
  pose proof (layout_offsets ms Hb rd j m Hm op x Ha) as Ho.
  assert (length (exts (take j ms)) = j) as Hj.
  { rewrite exts_all by (by apply Forall_take). apply length_take_le. apply lookup_lt_Some in Hm. lia. }
  rewrite Hj in Hp. destruct op; try done; cbn [op_var visit_metadata plain_of] in *; rewrite Hp; cbn [obind]; by rewrite Ho.
Qed.

(** C34. What a kernel reads about a parameter is what was passed for it: for
    every argument that is not an alias, a metadata operation on the variable
    of its parameter, compiled by the C++ compiler (with or without grid
    constants), the SPIR-V or the WGSL compiler, returns without a panic the
    length, the rank, the shape or the stride of the argument.  Aliases are
    outputs, the SPIR-V compiler has no metadata for tensor maps, and the WGSL
    and CPU compilers have no tensor maps.  On the CPU this is shown for rank,
    shape and strides, and for lengths when all parameters are tensors. *)
Theorem metadata_roundtrip {B TM : Type} (ps : list (Param B TM)) vs kb st i p v m rd op x :
  expand_all ps KernelBuilder_new = Ret (vs, kb) → register_all TSEmpty ps = Ret st → Forall alias_ok ps →
  N.of_nat (length ps) < 4294967296 → N.of_nat (length (mt_data (bd_metadata (into_bindings st)))) < 4294967296 →
  ps !! i = Some p → vs !! i = Some v → meta_of (pm_arg p) = Ret (Some m) → op_var op = v → answer rd op m = Some x →
  let b := bd_metadata (into_bindings st) in
  (∀ gc, is_map p = false ∨ is_extended op = true → cpp_read kb gc b rd op = Ret (Some x)) ∧
  (is_map p = false → spirv_read kb b rd op = Ret (Some x)) ∧
  (Forall (λ q, is_map q = false) ps → wgsl_read kb b rd op = Ret (Some x)) ∧
  (N.of_nat (length (mt_data b)) ≤ 2147483648 →
   Forall (λ q, is_map q = false) ps ∧ is_extended op = true ∨ Forall (λ q, is_tensor q = true) ps →
   cpu_read kb b rd op = Ret (Some x)).
Proof.
  intros Hexp Hreg Hal Hn Hlen Hp Hv Hm Hop Ha b.
  destruct (register_all_meta ps TSEmpty st [] Hreg eq_refl) as (os & Hos & Hmd). cbn [app] in Hmd.
  unfold b in *. clear b. rewrite bindings_metadata, Hmd in *. set (ms := omap (λ x, x) os) in *.
  change (mt_data (finish (builder_of ms))) with (data ms) in *.
  destruct (expand_all_inv ps KernelBuilder_new [] vs kb os) as (Hk & Hvs & Hmaps); try done.
  pose proof (metas_lookup ps os i p _ Hos Hp Hm) as Hoi. pose proof (present_lookup os i m Hoi) as Hj. fold ms in Hj.
  destruct (Hvs i p m Hp Hoi) as (v' & Hv' & Hkind). rewrite Hv in Hv'. injection Hv' as <-. cbn [length Nat.add] in Hkind.
  set (j := length (omap _ (take i os))) in *. cbn [app] in Hk. fold ms in Hk. subst v. split_and!.
  - intros gc Hor. unfold cpp_read. rewrite (build_metadata_inv kb ms Hk).
    rewrite (cpp_compiled ms Hlen rd j m Hj gc op x Ha); [cbn [obind]|].
    + pose proof (cpp_eval_correct ms Hlen rd j m Hj gc op x Ha) as He. destruct (cuda_metadata gc _). by rewrite He.
    + destruct (is_map p); [right|by left]. destruct Hor as [?|?]; [done|]. split; [done|]. unfold var_index. by rewrite Hkind.
  - intros Hmp. rewrite Hmp in Hkind. unfold spirv_read. rewrite (build_metadata_inv kb ms Hk).
    rewrite (spirv_compiled ms Hlen rd j m Hj op x Ha Hkind). cbn [obind].
    change (mt_data (finish (builder_of ms))) with (data ms). by rewrite (plain_of_eval ms Hlen rd j m Hj op x Ha).
  - intros Hmps. assert (is_map p = false) as Hmp by (rewrite Forall_forall in Hmps; by eapply Hmps, list_elem_of_lookup_2).
    rewrite Hmp in Hkind. unfold wgsl_read. rewrite (proj1 (plain_metadata_inv kb ms Hk (Hmaps Hmps))).
    rewrite (wgsl_compiled ms Hlen rd j m Hj op x Ha Hkind). cbn [obind].
    change (mt_data (finish (builder_of ms))) with (data ms). by rewrite (plain_of_eval ms Hlen rd j m Hj op x Ha).
  - intros Hhalf Hor. assert (Forall (λ q, is_map q = false) ps) as Hmps.
    { destruct Hor as [[Hmps _]|Hts]; [done|]. eapply Forall_impl; [exact Hts|]. unfold is_tensor, is_map. intros q. by destruct (pm_arg q). }
    assert (is_map p = false) as Hmp by (rewrite Forall_forall in Hmps; by eapply Hmps, list_elem_of_lookup_2).
    rewrite Hmp in Hkind. unfold cpu_read. rewrite (proj2 (plain_metadata_inv kb ms Hk (Hmaps Hmps))).
    assert (visit_metadata (meta_info (indexed ms)) op = Ret (plain_of ms j op)) as ->.
    { destruct Hor as [[_ He]|Hts]; [by eapply cpu_compiled|]. eapply cpu_compiled_all; try done. by eapply tensors_ext. }
    cbn [obind]. change (mt_data (finish (builder_of ms))) with (data ms). by rewrite (cpu_eval_correct ms Hlen rd j m Hj op x Hhalf Ha).
Qed.

Module LaunchDemo.
(** An array, a tensor of two dimensions, and the tensor once more as output. *)
Definition handle (n : N) : ServerHandle := mkServerHandle n None None (4 * n).
Definition array (n : N) : Arg N unit := AArray (AAHandle (mkArrayRef (handle n) n 4) 1).
Definition tensor : Arg N unit := ATensor (TAHandle (mkTensorRef (handle 6) [3; 1] [2; 3] 4) 1).
Definition f32 : Elem := EFloat F32.
Definition params : list (Param N unit) :=
  [mkParam false f32 (array 10); mkParam false f32 tensor; mkParam true f32 (ATensor (TAAlias 1))].
Definition kernel : KernelBuilder :=
  match expand_all params KernelBuilder_new with Ret (_, k) => k | _ => KernelBuilder_new end.
Definition vars : list Variable_ := match expand_all params KernelBuilder_new with Ret (vs, _) => vs | _ => [] end.
Definition state : TensorState N unit := match register_all TSEmpty params with Ret st => st | _ => TSEmpty end.
Definition binding : MetadataBinding := bd_metadata (into_bindings state).
Definition dim0 : Variable_ := Variable_constant (CUInt 0 U32).
Definition rd (v : Variable_) : N := match var_kind v with ConstantScalar (CUInt z _) => Z.to_N z | _ => 0 end.
Definition tensor_var : Variable_ := Variable_new (GlobalInputArray 1) (Item_vectorized f32 (Some 1%positive)).
Definition meta : ArgMeta := mkArgMeta 6 6 (Some (2, [2; 3], [3; 1])).

Definition param : Param N unit := mkParam false f32 tensor.
Definition query : Metadata := Stride dim0 tensor_var.

Lemma metadata_roundtrip_witness :
  let b := bd_metadata (into_bindings state) in
  (∀ gc, is_map param = false ∨ is_extended query = true → cpp_read kernel gc b rd query = Ret (Some 3)) ∧
  (is_map param = false → spirv_read kernel b rd query = Ret (Some 3)) ∧
  (Forall (λ q, is_map q = false) params → wgsl_read kernel b rd query = Ret (Some 3)) ∧
  (N.of_nat (length (mt_data b)) ≤ 2147483648 →
   Forall (λ q, is_map q = false) params ∧ is_extended query = true ∨ Forall (λ q, is_tensor q = true) params →
   cpu_read kernel b rd query = Ret (Some 3)).
Proof.
  refine (metadata_roundtrip params vars kernel state 1 param tensor_var meta rd query 3 _ _ _ _ _ _ _ _ _ _);
    [vm_compute; reflexivity|vm_compute; reflexivity| |reflexivity|vm_compute; reflexivity|reflexivity|vm_compute; reflexivity|
     vm_compute; reflexivity|reflexivity|vm_compute; reflexivity].
  repeat (apply Forall_cons_2; [unfold alias_ok; cbn; done|]). apply Forall_nil_2.
Defined.

Example binding_data : binding = mkMetaBinding [10; 6; 10; 6; 2; 7; 9; 2; 3; 3; 1] 7.
Proof. vm_compute. reflexivity. Qed.

(** On the CPU the length of an array after another array is the length of
    the first one. *)
Definition arrays : list (Param N unit) := [mkParam false f32 (array 10); mkParam true f32 (array 20)].
Definition arrays_kernel : KernelBuilder :=
  match expand_all arrays KernelBuilder_new with Ret (_, k) => k | _ => KernelBuilder_new end.
Definition arrays_binding : MetadataBinding :=
  match register_all TSEmpty arrays with Ret st => bd_metadata (into_bindings st) | _ => mkMetaBinding [] 0 end.
Definition second : Variable_ := Variable_new (GlobalOutputArray 1) (Item_vectorized f32 (Some 1%positive)).
Example cpu_second_array : cpu_read arrays_kernel arrays_binding rd (Length second) = Ret (Some 10).
Proof. vm_compute. reflexivity. Qed.
Example wgsl_second_array : wgsl_read arrays_kernel arrays_binding rd (Length second) = Ret (Some 20).
Proof. vm_compute. reflexivity. Qed.

(** An alias after a tensor map refers to another buffer: the variable has the
    position, not the identifier, of the aliased buffer. *)
Definition with_map : list (Param N unit) :=
  [mkParam false f32 (AMap (mkTensorMapArg (TAHandle (mkTensorRef (handle 6) [3; 1] [2; 3] 4) 1) tt));
   mkParam false f32 tensor; mkParam true f32 (ATensor (TAAlias 0))].
Example alias_after_map : ∃ vs k b, expand_all with_map KernelBuilder_new = Ret (vs, k) ∧
  kb_buffers k !! 0%nat = Some b ∧ bi_visibility b = VReadWrite ∧ bi_id b = 1 ∧ (var_kind <$> vs !! 2%nat) = Some (GlobalInputArray 0).
Proof. do 3 eexists. split; [vm_compute; reflexivity|]. split; [reflexivity|]. split_and!; reflexivity. Qed.
End LaunchDemo.
