(* ===== verification/LineSize.v ===== *)
(** * Line sizes and cube counts

    Model of the helpers of [crates/cubecl-core/src/lib.rs]: the choice of a
    line size from the shape and the strides of a tensor, and the number of
    cubes of an element-wise kernel, which is computed with [f32] numbers
    (the Standard Library's [spec_float] at precision 24 and maximal exponent
    128). *)

From Stdlib Require Import SpecFloat.
From S2P Require Import Prelude DeviceNum.

Open Scope N_scope.
Open Scope rust_scope.

(** ** Line sizes *)

Inductive LineSizeError := AxisOutOfBounds | StrideMismatch | NoValidLineSize.

(** [Iterator::max] and [min]. *)
Definition list_max (l : list N) : option N :=
  match l with [] => None | x :: l => Some (foldl N.max x l) end.
Definition list_min (l : list N) : option N :=
  match l with [] => None | x :: l => Some (foldl N.min x l) end.

Definition divides (d n : N) : bool := n mod d =? 0.

Definition try_tensor_line_size_parallel (supported : list N) (shape strides : list N) (axis : nat) : LineSizeError + N :=
  match strides !! axis with
  | None => inl AxisOutOfBounds
  | Some stride =>
      if negb (stride =? 1) then inl StrideMismatch
      else
        match shape !! axis with
        | None => inl AxisOutOfBounds
        | Some axis_shape =>
            let next_stride := default 0 (list_min (filter (λ s, 1 < s) strides)) in
            match list_max (filter (λ l, divides l axis_shape && divides l next_stride = true) supported) with
            | Some l => inr l
            | None => inl NoValidLineSize
            end
        end
  end.
Definition tensor_line_size_parallel (supported : list N) (shape strides : list N) (axis : nat) : N :=
  match try_tensor_line_size_parallel supported shape strides axis with inr l => l | inl _ => 1 end.

Definition try_tensor_line_size_perpendicular (supported : list N) (shape strides : list N) (axis : nat) : LineSizeError + N :=
  match strides !! axis with
  | None => inl AxisOutOfBounds
  | Some axis_stride =>
      let smaller := foldl N.mul 1 (snd <$> filter (λ p, p.1 < axis_stride) (zip strides shape)) in
      if negb (axis_stride =? smaller) then inl StrideMismatch
      else
        match list_max (filter (λ l, divides l axis_stride = true) supported) with
        | Some l => inr l
        | None => inl NoValidLineSize
        end
  end.
Definition tensor_line_size_perpendicular (supported : list N) (shape strides : list N) (axis : nat) : N :=
  match try_tensor_line_size_perpendicular supported shape strides axis with inr l => l | inl _ => 1 end.

(** ** Cube counts *)

Definition f32 : Type := spec_float.
Definition f32_of_N (n : N) : f32 := binary_normalize 24 128 (Z.of_N n) 0 false.
Definition f32_div : f32 → f32 → f32 := SFdiv 24 128.
Definition f32_mul : f32 → f32 → f32 := SFmul 24 128.
Definition f32_sqrt : f32 → f32 := SFsqrt 24 128.
(** [f32::ceil] of a non-negative value. *)
Definition f32_ceil (x : f32) : f32 :=
  match x with
  | S754_finite false m e =>
      if (0 <=? e)%Z then x
      else binary_normalize 24 128 (- Z.shiftr (- Zpos m) (- e)) 0 false
  | _ => x
  end.
(** [f32::max(1.0, x)]: a NaN is ignored. *)
Definition f32_max1 (x : f32) : f32 :=
  match SFcompare x (f32_of_N 1) with Some Gt => x | _ => f32_of_N 1 end.
Definition f32_to_u32 (x : f32) : N :=
  match x with
  | S754_finite false m e => N.min (dyadic_floor m e) u32_max
  | S754_infinity false => u32_max
  | _ => 0
  end.

Record CubeDim := mkCubeDim { cd_x : N; cd_y : N; cd_z : N }.
Definition CubeDim_default : CubeDim := mkCubeDim 16 16 1.
Definition cube_dim_num_elems (d : CubeDim) : outcome N :=
  let? xy := checked_mul u32_max (cd_x d) (cd_y d) in checked_mul u32_max xy (cd_z d).

Definition calculate_cube_count_elemwise (num_elems : N) (cube_dim : CubeDim) : outcome (N * N * N) :=
  let? num_elems_per_cube := cube_dim_num_elems cube_dim in
  let per_cube := f32_of_N num_elems_per_cube in
  let cube_counts := f32_max1 (f32_ceil (f32_div (f32_of_N num_elems) per_cube)) in
  let cube_count_x := f32_ceil (f32_sqrt cube_counts) in
  let cube_count_y := f32_max1 (f32_ceil (f32_div (f32_of_N num_elems) (f32_mul cube_count_x per_cube))) in
  Ret (f32_to_u32 cube_count_x, f32_to_u32 cube_count_y, 1).

(** The units of a launch. *)
Definition launch_units (count : N * N * N) (cube_dim : CubeDim) : N :=
  let '(x, y, z) := count in x * y * z * (cd_x cube_dim * cd_y cube_dim * cd_z cube_dim).

(** Up to 2^24 the conversions are exact; one element more is lost. *)
Example cube_count_small : calculate_cube_count_elemwise 257 CubeDim_default = Ret (2, 1, 1).
Proof. vm_compute. reflexivity. Qed.
Example cube_count_exact : calculate_cube_count_elemwise 16777216 CubeDim_default = Ret (256, 256, 1).
Proof. vm_compute. reflexivity. Qed.
Example cube_count_misses_last :
  calculate_cube_count_elemwise 16777217 CubeDim_default = Ret (256, 256, 1) ∧ launch_units (256, 256, 1) CubeDim_default = 16777216.
Proof. split; vm_compute; reflexivity. Qed.

(** Only the smallest stride above one is checked: here the line size is 4
    although the stride 10 of the first axis is not a multiple of it. *)
Example line_size_with_odd_stride : tensor_line_size_parallel [1; 2; 4] [3; 2; 4] [10; 4; 1] 2 = 4.
Proof. vm_compute. reflexivity. Qed.
