(* ===== verification/Contiguous.v ===== *)
(** * Contiguous copies of tensors

    Model of [crates/cubecl-std/src/tensor/contiguous.rs]: the host chooses a
    line size, the number of elements of a unit and the layout of the output
    ([into_contiguous_ref]); the device copies line by line, finding the
    offsets with the fast division of [FastMath.v].

    Device integers wrap at 32 bits.  A buffer is the list of its elements; a
    line is read or written as a whole.  The kernels are launched with bounds
    checks: a read beyond the buffer gives zeros, a write beyond it is dropped
    ([read_tensor_checked] of [crates/cubecl-core/src/io.rs]).  A unit is a
    function from its absolute position to the lines it writes; [run_units]
    runs units in a given order.

    The proofs: the offsets that the device computes are the
    strided offsets of the logical index, a line of the input is a run of
    consecutive elements, and after all units have run, in whatever order,
    every element of the output is the corresponding element of the input.
    What [into_contiguous_ref] decides fits the kernels: the theorem on whole
    copies, with the situations in which its conditions matter. *)

From S2P Require Import Prelude DeviceNum FastMath LineSize.

Open Scope N_scope.
Open Scope rust_scope.

(** ** Strides on the host *)

(** [strides[i] = strides[i + 1] * shape[i + 1]] for [i] from [rank - 2]; an
    empty shape underflows in [0..rank - 1]. *)
Fixpoint compact_strides_loop (shape : list N) : outcome (list N) :=
  match shape with
  | [] => Ret []
  | _ :: shape' =>
      let? rest := compact_strides_loop shape' in
      match shape', rest with
      | d :: _, s :: _ => let? s' := checked_mul usize_max s d in Ret (s' :: rest)
      | _, _ => Ret [1]
      end
  end.
Definition compact_strides (shape : list N) : outcome (list N) :=
  match shape with
  | [] => Panic "attempt to subtract with overflow"
  | _ => compact_strides_loop shape
  end.
Definition is_contiguous (shape strides : list N) : outcome bool :=
  match shape with
  | [] => Ret true
  | _ =>
      let? expected := compact_strides shape in
      Ret (forallb (λ p, p.1 =? p.2) (zip expected strides))
  end.

(** ** Offsets on the device *)

Section Device.
Context (shr_wide : N → N → N).

(** From the last dimension to the first, with the divisors of the shape. *)
Fixpoint contiguous_loop_fast (dims : list (FastDivmod * N)) (offset remainder : N) : N :=
  match dims with
  | [] => offset
  | (shape, stride) :: dims =>
      let '(rem, ogwl) := FastDivmod_div_mod shr_wide shape remainder in
      contiguous_loop_fast dims (wadd offset (wmul ogwl stride)) rem
  end.
Definition index_offset_contiguous_fastdivmod (line_size : N) (shape : list FastDivmod) (stride : list N) (offset_layout : N) : N :=
  contiguous_loop_fast (rev (zip shape stride)) 0 (wmul offset_layout line_size) / line_size.

(** The same with division and remainder. *)
Fixpoint contiguous_loop (dims : list (N * N)) (offset remainder : N) : N :=
  match dims with
  | [] => offset
  | (shape, stride) :: dims =>
      contiguous_loop dims (wadd offset (wmul (remainder mod shape) stride)) (remainder / shape)
  end.
Definition index_offset_contiguous (line_size : N) (shape stride : list N) (offset_layout : N) : N :=
  contiguous_loop (rev (zip shape stride)) 0 (wmul offset_layout line_size) / line_size.

(** The position in a tensor of an offset into another layout; the dimensions
    are [(shape, stride, layout stride)]. *)
Fixpoint with_layout_loop (dims : list (N * N * N)) (offset offset_ref : N) : N :=
  match dims with
  | [] => offset
  | (shape, stride, layout_stride) :: dims =>
      let ogwl := offset_ref / layout_stride in
      with_layout_loop dims (wadd offset (wmul (ogwl mod shape) stride)) offset_ref
  end.
Definition index_offset_with_layout (line_size : N) (dims : list (N * N * N)) (offset_layout : N) : N :=
  with_layout_loop dims 0 (wmul offset_layout line_size) / line_size.

Inductive StridedLayout := Pitched (divmod : FastDivmod) | LayoutNone.

(** [pitch] is the stride of the last dimension but one of the tensor. *)
Definition StridedLayout_index (l : StridedLayout) (line_size pitch index : N) : N :=
  match l with
  | Pitched divmod =>
      let offset_abs := wmul index line_size in
      let '(y, x) := FastDivmod_div_mod shr_wide divmod offset_abs in
      wadd (wmul y pitch) x / line_size
  | LayoutNone => index
  end.

(** ** Buffers of lines *)

Section Memory.
Context {A : Type} (zero : A).

Definition buffer_len (line_size : N) (mem : list A) : N := N.of_nat (length mem) / line_size.
Definition read_line (line_size : N) (mem : list A) (i : N) : list A :=
  if i <? buffer_len line_size mem then take (N.to_nat line_size) (drop (N.to_nat (i * line_size)) mem)
  else replicate (N.to_nat line_size) zero.
Definition write_line (line_size : N) (mem : list A) (w : N * list A) : list A :=
  if w.1 <? buffer_len line_size mem then list_inserts (N.to_nat (w.1 * line_size)) w.2 mem else mem.

(** The arguments of a launch. *)
Record ContiguousLaunch := mkLaunch {
  cl_line_size : N;
  cl_out_line_size : N;
  cl_elems_per_thread : N;
  cl_layout : StridedLayout;
  cl_pitch : N;
  cl_shape : list FastDivmod;
  cl_stride : list N;
  cl_pack : bool;
  cl_cube_count : N * N * N;
}.

Definition into_contiguous_kernel (c : ContiguousLaunch) (input : list A) (pos : N) : list (N * list A) :=
  let offset_output := wmul pos (cl_elems_per_thread c) in
  let registers := (λ i, read_line (cl_line_size c) input
    (index_offset_contiguous_fastdivmod (cl_line_size c) (cl_shape c) (cl_stride c) (wadd offset_output i))) <$> upto (cl_elems_per_thread c) in
  let offset_output := StridedLayout_index (cl_layout c) (cl_out_line_size c) (cl_pitch c) offset_output in
  zip ((λ i, wadd offset_output i) <$> upto (cl_elems_per_thread c)) registers.

(** Gathers a line of the output from single elements of the input. *)
Definition into_contiguous_kernel_pack (c : ContiguousLaunch) (input : list A) (pos : N) : list (N * list A) :=
  let line_size := cl_out_line_size c in
  let lines_per_thread := cl_elems_per_thread c / line_size in
  let offset_output := wmul pos lines_per_thread in
  let offset_input := wmul offset_output line_size in
  let registers := (λ i, (λ k, hd zero (read_line (cl_line_size c) input
    (index_offset_contiguous_fastdivmod (cl_line_size c) (cl_shape c) (cl_stride c)
      (wadd (wadd offset_input (wmul i line_size)) k)))) <$> upto line_size) <$> upto lines_per_thread in
  let offset_output := StridedLayout_index (cl_layout c) line_size (cl_pitch c) offset_output in
  zip ((λ i, wadd offset_output i) <$> upto lines_per_thread) registers.

Definition unit_writes (c : ContiguousLaunch) (input : list A) (pos : N) : list (N * list A) :=
  if cl_pack c then into_contiguous_kernel_pack c input pos else into_contiguous_kernel c input pos.
Definition run_units (c : ContiguousLaunch) (input output : list A) (units : list N) : list A :=
  foldl (λ mem u, foldl (write_line (cl_out_line_size c)) mem (unit_writes c input u)) output units.
End Memory.
End Device.

(** ** The host *)

Definition NUM_SM_APPROX : N := 50.

Fixpoint shape_product (acc : N) (l : list N) : outcome N :=
  match l with
  | [] => Ret acc
  | x :: l => let? acc := checked_mul usize_max acc x in shape_product acc l
  end.

Definition elems_per_unit_of (ratio : N) : N :=
  if ratio <? 2 then 1 else if ratio <? 4 then 2 else if ratio <? 8 then 4 else 8.

(** [while is_padded && last_dim % num_elems_per_unit != 0]: both are halved. *)
Fixpoint adjust_units (fuel : nat) (last_dim elems_per_unit num_elems_per_unit : N) : outcome (N * N) :=
  match fuel with
  | O => OutOfFuel
  | S fuel =>
      let? r := checked_rem last_dim num_elems_per_unit in
      if r =? 0 then Ret (elems_per_unit, num_elems_per_unit)
      else adjust_units fuel last_dim (elems_per_unit / 2) (num_elems_per_unit / 2)
  end.

Fixpoint divmod_args (u64_supported : bool) (shape : list N) : outcome (list FastDivmod) :=
  match shape with
  | [] => Ret []
  | d :: shape =>
      let? f := FastDivmodArgs_new u64_supported (d mod two32) in
      let? fs := divmod_args u64_supported shape in
      Ret (f :: fs)
  end.

Record TensorRef := mkRef { tr_shape : list N; tr_strides : list N }.

Definition into_contiguous_ref (supported : list N) (num_sm : option N) (u64_supported : bool) (input output : TensorRef) :
    outcome ContiguousLaunch :=
  let? num_elems := shape_product 1 (tr_shape input) in
  let rank := N.of_nat (length (tr_strides input)) in
  let? axis := checked_sub rank 1 in
  let vectorization_factor := tensor_line_size_parallel supported (tr_shape input) (tr_strides input) (N.to_nat axis) in
  let? num_vecs := checked_div num_elems vectorization_factor in
  let? per_cube := cube_dim_num_elems CubeDim_default in
  let? simul_vecs := checked_mul u32_max (default NUM_SM_APPROX num_sm) per_cube in
  let? ratio := checked_div (num_vecs mod two32) simul_vecs in
  let elems_per_unit := elems_per_unit_of ratio in
  let? num_elems_per_unit := checked_mul u32_max vectorization_factor elems_per_unit in
  let? last_dim := expect (tr_shape output !! N.to_nat axis) "index out of bounds" in
  let? is_padded :=
    if 1 <? rank then
      let? s := expect (tr_strides output !! N.to_nat (rank - 2)) "index out of bounds" in Ret (negb (last_dim =? s))
    else Ret false in
  let? '(elems_per_unit, num_elems_per_unit) :=
    if is_padded then adjust_units 8 last_dim elems_per_unit num_elems_per_unit else Ret (elems_per_unit, num_elems_per_unit) in
  let? out_layout :=
    if is_padded then let? f := FastDivmodArgs_new u64_supported (last_dim mod two32) in Ret (Pitched f) else Ret LayoutNone in
  let out_vec :=
    if 1 <? vectorization_factor then vectorization_factor
    else default 1 (list_max (filter (λ l, divides l num_elems_per_unit = true) supported)) in
  let? units := div_ceil num_elems num_elems_per_unit in
  let? cube_count := calculate_cube_count_elemwise units CubeDim_default in
  let? shape := divmod_args u64_supported (tr_shape input) in
  Ret (mkLaunch vectorization_factor out_vec elems_per_unit out_layout
    (default 0 (tr_strides output !! N.to_nat (rank - 2)) mod two32) shape ((λ s, s mod two32) <$> tr_strides input)
    (negb (vectorization_factor =? out_vec) && (1 <? out_vec)) cube_count).

(** ** Strided offsets *)

(** The offset of a logical index; the dimensions are pairs of size and
    stride, the last dimension first. *)
Fixpoint strided_offset (dims : list (N * N)) (i : N) : N :=
  match dims with
  | [] => 0
  | (d, s) :: dims => (i mod d) * s + strided_offset dims (i / d)
  end.
(** The largest offset. *)
Fixpoint span (dims : list (N * N)) : N :=
  match dims with
  | [] => 0
  | (d, s) :: dims => (d - 1) * s + span dims
  end.

Definition good_dim (d : N) : Prop := 0 < d ∧ d ≤ 2147483648.

Lemma strided_offset_le dims i : Forall (λ p, good_dim p.1) dims → strided_offset dims i ≤ span dims.
Proof.
  intros Hd. revert i. induction Hd as [|[d s] dims [Hd _] _ IH]; intros i; cbn in *; [done|].
  specialize (IH (i / d)). assert (i mod d ≤ d - 1) by (pose proof (N.mod_lt i d); lia). nia.
Qed.

Lemma loop_spec dims o i :
  Forall (λ p, good_dim p.1) dims → o + span dims < two32 → contiguous_loop dims o i = o + strided_offset dims i.
Proof.
  intros Hd. revert o i. induction Hd as [|[d s] dims [Hd _] _ IH]; intros o i Ho; cbn in *; [lia|].
  assert (i mod d * s ≤ (d - 1) * s) by (apply N.mul_le_mono_r; pose proof (N.mod_lt i d); lia).
  rewrite wmul_small, wadd_small by lia. rewrite IH by lia. lia.
Qed.

Section Fast.
Context (shr_wide : N → N → N) (u64 : bool).

Definition fast_dim (p : FastDivmod * N) (q : N * N) : Prop :=
  FastDivmodArgs_new u64 q.1 = Ret p.1 ∧ p.2 = q.2.

(** The loop with precomputed divisors does the same. *)
Lemma loop_fast_spec fdims dims o i :
  Forall2 fast_dim fdims dims → Forall (λ p, good_dim p.1) dims → i < 2147483648 →
  contiguous_loop_fast shr_wide fdims o i = contiguous_loop dims o i.
Proof.
  intros Hf. revert o i. induction Hf as [|[f s] [d s'] fdims dims [Hf Hs] _ IH]; intros o i Hd Hi; [done|].
  apply Forall_cons in Hd as [[Hd Hd'] Hds]. cbn [contiguous_loop_fast contiguous_loop fst snd] in *. subst s'.
  rewrite (FastDivmod_div_mod_ok shr_wide u64 d i f) by done. apply IH; [done|].
  pose proof (N.Div0.div_le_upper_bound i d i). nia.
Qed.

Lemma divmod_args_spec shape fs :
  divmod_args u64 shape = Ret fs → Forall good_dim shape → Forall2 (λ d f, FastDivmodArgs_new u64 d = Ret f) shape fs.
Proof.
  revert fs. induction shape as [|d shape IH]; intros fs; cbn; [by intros [= <-]|].
  intros (f & Hf & H)%obind_ret. apply obind_ret in H as (fs' & Hfs & [= <-]). intros [[Hd Hd'] Hds]%Forall_cons.
  rewrite N.mod_small in Hf by (unfold two32; lia). constructor; [done|by apply IH].
Qed.

Lemma Forall2_rev_zip shape fs strides :
  Forall2 (λ d f, FastDivmodArgs_new u64 d = Ret f) shape fs → Forall2 fast_dim (rev (zip fs strides)) (rev (zip shape strides)).
Proof.
  intros Hf. revert strides. induction Hf as [|d f shape fs Hf _ IH]; intros [|s strides]; cbn; try done.
  apply Forall2_app; [apply IH|]. constructor; [done|constructor].
Qed.

(** The index of the line that holds a logical position. *)
Lemma index_offset_spec ls shape fs strides l :
  divmod_args u64 shape = Ret fs → Forall good_dim shape → span (rev (zip shape strides)) < two32 → l * ls < 2147483648 →
  index_offset_contiguous_fastdivmod shr_wide ls fs strides l = strided_offset (rev (zip shape strides)) (l * ls) / ls.
Proof.
  intros Hf Hd Hs Hl. unfold index_offset_contiguous_fastdivmod. rewrite wmul_small by (unfold two32; lia).
  assert (Forall (λ p, good_dim p.1) (rev (zip shape strides))) as Hdims.
  { apply Forall_rev. clear -Hd. revert strides. induction Hd; intros [|s strides]; cbn; constructor; auto. }
  rewrite (loop_fast_spec _ (rev (zip shape strides))); [|by apply Forall2_rev_zip, divmod_args_spec|done|done].
  by rewrite loop_spec.
Qed.
End Fast.

(** ** Lines *)

(** A line of [ls] elements is consecutive: the last dimension has stride one
    and a multiple of [ls] elements, and the other strides are multiples. *)
Definition line_ok (ls : N) (dims : list (N * N)) : Prop :=
  ls = 1 ∨ ∃ d rest, dims = (d, 1) :: rest ∧ (ls | d) ∧ Forall (λ p, (ls | p.2)) rest.

Lemma strided_divide ls dims i : Forall (λ p, (ls | p.2)) dims → (ls | strided_offset dims i).
Proof.
  intros H. revert i. induction H as [|[d s] dims Hs _ IH]; intros i; cbn in *; [by exists 0|].
  apply N.divide_add_r; [by apply N.divide_mul_r|apply IH].
Qed.

Lemma line_offset ls dims l k :
  0 < ls → line_ok ls dims → Forall (λ p, good_dim p.1) dims → k < ls →
  strided_offset dims (l * ls + k) = strided_offset dims (l * ls) / ls * ls + k.
Proof.
  intros Hls [->|(d & rest & -> & [c Hc] & Hr)] Hd Hk.
  - assert (k = 0) as -> by lia. by rewrite !N.add_0_r, N.mul_1_r, N.div_1_r, N.mul_1_r.
  - apply Forall_cons in Hd as [[Hd _] _]. cbn [fst] in Hd. cbn [strided_offset]. rewrite !N.mul_1_r.
    assert (0 < c) as Hc0 by (destruct c; lia).
    destruct (div_mod_ex l c Hc0) as (q & r & Hq & Hrm & Hl & Hrc).
    assert (l * ls = q * d + r * ls) as Hls' by (subst d l; lia). assert (r * ls + k < d) as Hlt by (subst d; nia).
    destruct (radix_div_mod d q (r * ls)) as [D1 M1]; [lia|]. destruct (radix_div_mod d q (r * ls + k)) as [D2 M2]; [done|].
    replace (l * ls + k) with (q * d + (r * ls + k)) by lia. rewrite Hls', D1, M1, D2, M2.
    destruct (strided_divide ls rest q Hr) as [x ->].
    rewrite <- N.mul_add_distr_r, N.div_mul by lia. lia.
Qed.

Section Read.
Context {A : Type} (zero : A).

(** Reading a line whose elements are all in the buffer. *)
Lemma read_line_lookup ls (mem : list A) i k :
  0 < ls → k < ls → i * ls + (ls - 1) < N.of_nat (length mem) →
  read_line zero ls mem i !! N.to_nat k = mem !! N.to_nat (i * ls + k).
Proof.
  intros Hls Hk Hi. unfold read_line, buffer_len. rewrite (proj2 (N.ltb_lt _ _)).
  - rewrite lookup_take_lt by lia. rewrite lookup_drop. f_equal. lia.
  - assert (i + 1 ≤ N.of_nat (length mem) / ls); [|lia]. apply N.div_le_lower_bound; nia.
Qed.
Lemma read_line_length ls (mem : list A) i : 0 < ls → length (read_line zero ls mem i) = N.to_nat ls.
Proof.
  intros Hls. unfold read_line, buffer_len. destruct (N.ltb_spec i (N.of_nat (length mem) / ls)) as [Hi|_]; [|by rewrite length_replicate].
  rewrite length_take, length_drop. destruct (div_mul_bounds (N.of_nat (length mem)) ls Hls) as [B _]. nia.
Qed.

(** ** Writes *)

Lemma write_line_length ls (mem : list A) w : length (write_line ls mem w) = length mem.
Proof. unfold write_line. destruct (_ <? _); [by rewrite length_inserts|done]. Qed.
Lemma foldl_write_length ls ws (mem : list A) : length (foldl (write_line ls) mem ws) = length mem.
Proof. revert mem. induction ws as [|w ws IH]; intros mem; [done|]. cbn. by rewrite IH, write_line_length. Qed.

(** A write changes the elements of its line only. *)
Lemma write_line_lookup ls (mem : list A) i line a :
  0 < ls → length line = N.to_nat ls →
  write_line ls mem (i, line) !! N.to_nat a =
    if decide (i < buffer_len ls mem ∧ i * ls ≤ a < i * ls + ls) then line !! N.to_nat (a - i * ls) else mem !! N.to_nat a.
Proof.
  intros Hls Hlen. unfold write_line. cbn [fst snd]. destruct (N.ltb_spec i (buffer_len ls mem)) as [Hi|Hi].
  - assert (i * ls + ls ≤ N.of_nat (length mem)) as Hb.
    { unfold buffer_len in Hi. destruct (div_mul_bounds (N.of_nat (length mem)) ls Hls) as [B _]. nia. }
    case_decide as Ha.
    + rewrite list_lookup_inserts by lia. f_equal. lia.
    + destruct (N.lt_ge_cases a (i * ls)) as [Hlt|Hge].
      * rewrite list_lookup_inserts_lt by lia. done.
      * rewrite list_lookup_inserts_ge by lia. done.
  - rewrite decide_False by lia. done.
Qed.
End Read.

(** ** One launch *)

(** Where a logical element goes: with a pitch, rows of [last] elements start
    at multiples of the pitch. *)
Definition out_addr (pitched : option (N * N)) (e : N) : N :=
  match pitched with None => e | Some (last, pitch) => e / last * pitch + e mod last end.

Definition pitch_ok (ls lpt : N) (pitched : option (N * N)) : Prop :=
  match pitched with
  | None => True
  | Some (last, pitch) => good_dim last ∧ last ≤ pitch ∧ (ls | pitch) ∧ (lpt * ls | last)
  end.

Lemma out_addr_inj ls lpt pitched e e' :
  pitch_ok ls lpt pitched → out_addr pitched e = out_addr pitched e' → e = e'.
Proof.
  destruct pitched as [[last pitch]|]; [|done]. cbn [pitch_ok out_addr]. intros ([Hl _] & Hp & _ & _) He.
  destruct (div_mod_ex e last Hl) as (q & r & Hq & Hr & He1 & Hlt). destruct (div_mod_ex e' last Hl) as (q' & r' & Hq' & Hr' & He2 & Hlt').
  rewrite Hq, Hr, Hq', Hr' in He. destruct (radix_inj pitch q r q' r') as [Hqq Hrr]; [lia|lia|done|]. subst. congruence.
Qed.

(** The elements of the lines of one unit lie in one row. *)
Lemma out_addr_line ls lpt pitched u j k :
  0 < ls → 0 < lpt → pitch_ok ls lpt pitched → j < lpt → k < ls →
  out_addr pitched ((u * lpt + j) * ls + k) = out_addr pitched (u * lpt * ls) + j * ls + k ∧ (ls | out_addr pitched (u * lpt * ls)).
Proof.
  intros Hls Hlpt Hp Hj Hk. destruct pitched as [[last pitch]|]; cbn [pitch_ok out_addr] in *; [|split; [lia|by exists (u * lpt)]].
  destruct Hp as ([Hl _] & Hle & [p ->] & [c Hc]). assert (0 < c) as Hc0 by (destruct c; lia).
  destruct (div_mod_ex u c Hc0) as (q & r & _ & _ & Hu & Hrc).
  assert (u * lpt * ls = q * last + r * (lpt * ls)) as Hb by (subst last u; lia).
  pose proof (radix_lt (lpt * ls) c r (j * ls + k) Hrc (radix_lt ls lpt j k Hj Hk)) as Hlt. rewrite <- Hc in Hlt.
  destruct (radix_div_mod last q (r * (lpt * ls))) as [D1 M1]; [lia|].
  destruct (radix_div_mod last q (r * (lpt * ls) + (j * ls + k))) as [D2 M2]; [done|].
  replace ((u * lpt + j) * ls + k) with (q * last + (r * (lpt * ls) + (j * ls + k))) by lia.
  rewrite Hb, D1, M1, D2, M2. split; [lia|]. exists (q * p + r * lpt). lia.
Qed.

Lemma zip_fmap2 {A B C} (f : A → B) (g : A → C) l : zip (f <$> l) (g <$> l) = (λ x, (f x, g x)) <$> l.
Proof. induction l as [|x l IH]; [done|]. cbn. by rewrite IH. Qed.

Section Copy.
Context (shr_wide : N → N → N) (u64 : bool) {A : Type} (zero : A).
Context (c : ContiguousLaunch) (shape strides : list N) (num lpt units : N) (pitched : option (N * N)).
Context (input : list A).

Abbreviation dims := (rev (zip shape strides)).
Abbreviation ls := (cl_out_line_size c).

Record geometry : Prop := {
  g_dims : Forall good_dim shape;
  g_shape : divmod_args u64 shape = Ret (cl_shape c);
  g_stride : cl_stride c = strides;
  g_span : span dims < two32;
  g_ls : 0 < ls;
  g_lpt : 0 < lpt;
  g_line : line_ok (cl_line_size c) dims;
  g_kind : if cl_pack c then cl_line_size c = 1 ∧ cl_elems_per_thread c = lpt * ls
           else ls = cl_line_size c ∧ cl_elems_per_thread c = lpt;
  g_num : (ls | num);
  g_pitch : pitch_ok ls lpt pitched;
  g_layout : match pitched with
             | None => cl_layout c = LayoutNone
             | Some (last, pitch) =>
                 ∃ f, cl_layout c = Pitched f ∧ FastDivmodArgs_new u64 last = Ret f ∧ cl_pitch c = pitch
             end;
  g_units : units * lpt * ls ≤ 2147483648;
  g_addr : ∀ e, e < units * lpt * ls → out_addr pitched e < two32;
  g_input : ∀ e, e < num → strided_offset dims e < N.of_nat (length input);
}.

Context (G : geometry).

Definition line_index (u j : N) : N :=
  wadd (StridedLayout_index shr_wide (cl_layout c) ls (cl_pitch c) (wmul u lpt)) j.
Definition register (u j : N) : list A :=
  if cl_pack c then
    (λ k, hd zero (read_line zero (cl_line_size c) input
      (index_offset_contiguous_fastdivmod shr_wide (cl_line_size c) (cl_shape c) (cl_stride c)
        (wadd (wadd (wmul (wmul u lpt) ls) (wmul j ls)) k)))) <$> upto ls
  else
    read_line zero (cl_line_size c) input
      (index_offset_contiguous_fastdivmod shr_wide (cl_line_size c) (cl_shape c) (cl_stride c) (wadd (wmul u lpt) j)).

Lemma unit_writes_lines u : unit_writes shr_wide zero c input u = (λ j, (line_index u j, register u j)) <$> upto lpt.
Proof using G.
  unfold unit_writes, line_index, register. destruct G as [_ _ _ _ Hls _ _ Hk _ _ _ _ _ _]. destruct (cl_pack c).
  - destruct Hk as [_ He]. unfold into_contiguous_kernel_pack. rewrite He, N.div_mul by lia. by rewrite zip_fmap2.
  - destruct Hk as [_ He]. unfold into_contiguous_kernel. rewrite He. by rewrite zip_fmap2.
Qed.

Lemma in_range u j k : u < units → j < lpt → k < ls → (u * lpt + j) * ls + k < units * lpt * ls.
Proof using G.
  intros Hu Hj Hk. assert (u * lpt + j + 1 ≤ units * lpt) by nia. nia.
Qed.

(** The line that a unit writes is where its elements belong. *)
Lemma line_index_spec u j k :
  u < units → j < lpt → k < ls → line_index u j * ls + k = out_addr pitched ((u * lpt + j) * ls + k).
Proof using G.
  intros Hu Hj Hk. pose proof (in_range u j k Hu Hj Hk) as Hr. pose proof (g_units G) as HU. pose proof (g_ls G) as Hls.
  destruct (out_addr_line ls lpt pitched u j k Hls (g_lpt G) (g_pitch G) Hj Hk) as [-> [x Hx]].
  pose proof (in_range u 0 0 Hu (g_lpt G) Hls) as Hr0. rewrite !N.add_0_r in Hr0.
  pose proof (g_addr G _ Hr) as Ha. rewrite (proj1 (out_addr_line ls lpt pitched u j k Hls (g_lpt G) (g_pitch G) Hj Hk)) in Ha.
  assert (u * lpt < two32) as Hul by (unfold two32; nia).
  assert (StridedLayout_index shr_wide (cl_layout c) ls (cl_pitch c) (u * lpt) = x) as Hidx.
  { pose proof (g_layout G) as Hlay. pose proof (g_pitch G) as Hpo. pose proof (g_addr G _ Hr0) as Hb. unfold out_addr in Hx, Hb.
    destruct pitched as [[last pitch]|].
    - destruct Hlay as (f & -> & Hf & ->). destruct Hpo as ([Hl Hl'] & _). cbn [StridedLayout_index].
      rewrite wmul_small by (unfold two32; lia). rewrite (FastDivmod_div_mod_ok shr_wide u64 last) by (try done; lia).
      clear Ha. revert Hx Hb. generalize (u * lpt * ls / last) (u * lpt * ls mod last). intros q r Hx Hb.
      rewrite wmul_small by lia. rewrite wadd_small by lia. rewrite Hx. apply N.div_mul. lia.
    - rewrite Hlay. cbn. nia. }
  unfold line_index. rewrite (wmul_small u lpt), Hidx by done. rewrite Hx in *.
  rewrite wadd_small by (unfold two32 in *; nia). lia.
Qed.

Lemma dims_good : Forall (λ p, good_dim p.1) dims.
Proof using G.
  apply Forall_rev. pose proof (g_dims G) as Hd. clear G. revert strides.
  induction Hd; intros [|s strides']; cbn; constructor; auto.
Qed.

Lemma in_line_size : 0 < cl_line_size c.
Proof using G. pose proof (g_kind G) as Hk. pose proof (g_ls G). destruct (cl_pack c); lia. Qed.

(** One element through the index of its line. *)
Lemma read_element l k :
  k < cl_line_size c → l * cl_line_size c + (cl_line_size c - 1) < num → l * cl_line_size c < 2147483648 →
  read_line zero (cl_line_size c) input
    (index_offset_contiguous_fastdivmod shr_wide (cl_line_size c) (cl_shape c) (cl_stride c) l) !! N.to_nat k =
  input !! N.to_nat (strided_offset dims (l * cl_line_size c + k)).
Proof using G.
  intros Hk Hl Hb. pose proof in_line_size as Hls. rewrite (g_stride G).
  rewrite (index_offset_spec shr_wide u64 _ shape _ strides l (g_shape G) (g_dims G) (g_span G) Hb).
  rewrite read_line_lookup; [|done|done|].
  - by rewrite (line_offset _ _ l k Hls (g_line G) dims_good Hk).
  - rewrite <- (line_offset _ _ l (cl_line_size c - 1) Hls (g_line G) dims_good) by lia. by apply (g_input G).
Qed.

Lemma register_spec u j k :
  u < units → j < lpt → k < ls → (u * lpt + j) * ls + k < num →
  register u j !! N.to_nat k = input !! N.to_nat (strided_offset dims ((u * lpt + j) * ls + k)).
Proof using G.
  intros Hu Hj Hk He. pose proof (in_range u j k Hu Hj Hk) as Hr. pose proof (g_units G) as HU. pose proof (g_ls G) as Hls.
  assert ((u * lpt + j) * ls + (ls - 1) < num) as Hlast.
  { destruct (g_num G) as [q ->]. assert (u * lpt + j < q) by nia. nia. }
  unfold register. pose proof (g_kind G) as Hkind. destruct (cl_pack c).
  - destruct Hkind as [H1 _]. rewrite list_lookup_fmap, lookup_upto by done. cbn [fmap option_fmap option_map].
    assert (u * lpt < two32) by (unfold two32; nia). assert (u * lpt * ls < two32) by (unfold two32; nia).
    rewrite (wmul_small u lpt), (wmul_small (u * lpt) ls) by done. rewrite (wmul_small j ls) by (unfold two32; nia).
    rewrite (wadd_small (u * lpt * ls)) by (unfold two32; nia). rewrite wadd_small by (unfold two32; nia).
    replace (u * lpt * ls + j * ls + k) with ((u * lpt + j) * ls + k) by lia. set (e := (u * lpt + j) * ls + k) in *.
    pose proof (read_element e 0) as Hrd. rewrite H1, !N.mul_1_r, !N.add_0_r in Hrd.
    specialize (Hrd ltac:(lia) ltac:(lia) ltac:(lia)). rewrite H1. rewrite <- Hrd.
    pose proof (read_line_length zero 1 input (index_offset_contiguous_fastdivmod shr_wide 1 (cl_shape c) (cl_stride c) e) ltac:(lia)) as Hlen.
    destruct (read_line zero 1 input _) as [|x [|y l]]; try done.
  - destruct Hkind as [H1 _]. assert (u * lpt < two32) by (unfold two32; nia).
    rewrite (wmul_small u lpt) by done. rewrite wadd_small by (unfold two32; nia). rewrite H1 in *. apply read_element; nia.
Qed.

Lemma register_length u j : length (register u j) = N.to_nat ls.
Proof using G.
  unfold register. pose proof (g_kind G) as Hkind. destruct (cl_pack c); [by rewrite length_fmap, length_upto|].
  destruct Hkind as [-> _]. apply read_line_length, in_line_size.
Qed.

(** ** The final memory *)

Context (output : list A) (Hout : ∀ e, e < num → out_addr pitched e < N.of_nat (length output)).

(** A write of any unit either leaves the place of the element [e] alone or
    stores the right value there. *)
Lemma write_sound u j e mem :
  u < units → j < lpt → e < num → length mem = length output →
  let w := write_line ls mem (line_index u j, register u j) in
  w !! N.to_nat (out_addr pitched e) = mem !! N.to_nat (out_addr pitched e) ∨
  w !! N.to_nat (out_addr pitched e) = input !! N.to_nat (strided_offset dims e).
Proof using G.
  intros Hu Hj He Hlen. cbn. pose proof (g_ls G) as Hls. rewrite write_line_lookup by (try done; apply register_length).
  case_decide as Ha; [right|by left]. destruct Ha as [_ Ha].
  assert (∃ k, k < ls ∧ out_addr pitched e = line_index u j * ls + k) as (k & Hk & Hak).
  { exists (out_addr pitched e - line_index u j * ls). lia. }
  rewrite Hak. replace (line_index u j * ls + k - line_index u j * ls) with k by lia.
  rewrite (line_index_spec u j k Hu Hj Hk) in Hak. apply (out_addr_inj ls lpt) in Hak as ->; [|apply (g_pitch G)]. by apply register_spec.
Qed.

(** The unit of an element writes it. *)
Lemma write_complete e :
  e < num → num ≤ units * lpt * ls →
  let u := e / (lpt * ls) in
  u < units ∧ ∃ j, j < lpt ∧ ∀ mem, length mem = length output →
    write_line ls mem (line_index u j, register u j) !! N.to_nat (out_addr pitched e) = input !! N.to_nat (strided_offset dims e).
Proof using G Hout.
  intros He Hcov u. pose proof (g_ls G) as Hls. pose proof (g_lpt G) as Hlpt.
  destruct (div_mod_ex e (lpt * ls)) as (q & r & Hq & _ & Heq & Hr); [nia|]. unfold u. rewrite Hq. clear u.
  destruct (div_mod_ex r ls Hls) as (j & k & _ & _ & Hrj & Hk). assert (j < lpt) as Hj by nia.
  assert (q < units) as Hu by nia. split; [done|]. exists j. split; [done|]. intros mem Hlen.
  assert (e = (q * lpt + j) * ls + k) as -> by lia. set (l := q * lpt + j) in *.
  assert (l * ls + (ls - 1) < num) as Hlast by (destruct (g_num G) as [x ->]; assert (l < x) by nia; nia).
  pose proof (line_index_spec q j k Hu Hj Hk) as Hidx. pose proof (line_index_spec q j (ls - 1) Hu Hj ltac:(lia)) as Hidx1.
  fold l in Hidx, Hidx1. rewrite write_line_lookup by (try done; apply register_length). rewrite decide_True.
  - rewrite <- Hidx. replace (line_index q j * ls + k - line_index q j * ls) with k by lia. by apply register_spec.
  - split; [|lia]. unfold buffer_len. rewrite Hlen. pose proof (Hout _ Hlast) as Hb. rewrite <- Hidx1 in Hb.
    assert (line_index q j + 1 ≤ N.of_nat (length output) / ls); [|lia]. apply N.div_le_lower_bound; nia.
Qed.

(** Once right, an element stays right; a list of writes with the write of the
    element makes it right. *)
Lemma writes_keep e u js mem :
  u < units → Forall (λ j, j < lpt) js → e < num → length mem = length output →
  mem !! N.to_nat (out_addr pitched e) = input !! N.to_nat (strided_offset dims e) →
  foldl (write_line ls) mem ((λ j, (line_index u j, register u j)) <$> js) !! N.to_nat (out_addr pitched e) =
    input !! N.to_nat (strided_offset dims e).
Proof using G.
  intros Hu Hjs He. revert mem. induction Hjs as [|j js Hj _ IH]; intros mem Hlen Hm; [done|]. cbn.
  apply IH; [by rewrite write_line_length|]. destruct (write_sound u j e mem Hu Hj He Hlen) as [-> | ->]; done.
Qed.

Lemma unit_writes_element e mem :
  e < num → num ≤ units * lpt * ls → length mem = length output →
  foldl (write_line ls) mem (unit_writes shr_wide zero c input (e / (lpt * ls))) !! N.to_nat (out_addr pitched e) =
    input !! N.to_nat (strided_offset dims e).
Proof using G Hout.
  intros He Hcov Hlen. rewrite unit_writes_lines. destruct (write_complete e He Hcov) as (Hu & j & Hj & Hw).
  assert (j ∈ upto lpt) as Hin by (by apply elem_of_upto). apply list_elem_of_split in Hin as (l1 & l2 & Hl).
  assert (Forall (λ j, j < lpt) (upto lpt)) as Hall by (apply Forall_forall; intros x; by rewrite elem_of_upto).
  rewrite Hl in Hall |- *. apply Forall_app in Hall as [_ Hall]. apply Forall_cons in Hall as [_ Hall].
  rewrite fmap_app, foldl_app. cbn [fmap list_fmap foldl]. apply writes_keep; try done.
  - by rewrite write_line_length, foldl_write_length.
  - apply Hw. by rewrite foldl_write_length.
Qed.

Lemma run_units_length us (mem : list A) : length (run_units shr_wide zero c input mem us) = length mem.
Proof using. unfold run_units. revert mem. induction us as [|u us IH]; intros mem; [done|]. cbn. by rewrite IH, foldl_write_length. Qed.

Lemma run_units_keep e us mem :
  Forall (λ u, u < units) us → e < num → length mem = length output →
  mem !! N.to_nat (out_addr pitched e) = input !! N.to_nat (strided_offset dims e) →
  run_units shr_wide zero c input mem us !! N.to_nat (out_addr pitched e) = input !! N.to_nat (strided_offset dims e).
Proof using G.
  intros Hus He. revert mem. induction Hus as [|u us Hu _ IH]; intros mem Hlen Hm; [done|]. cbn. unfold run_units in IH. apply IH.
  - by rewrite foldl_write_length.
  - rewrite unit_writes_lines. apply writes_keep; try done. apply Forall_forall. intros x. by rewrite elem_of_upto.
Qed.

(** After all units have run, in any order, every element is in place. *)
Lemma run_units_copies us e :
  us ≡ₚ upto units → num ≤ units * lpt * ls → e < num →
  run_units shr_wide zero c input output us !! N.to_nat (out_addr pitched e) = input !! N.to_nat (strided_offset dims e).
Proof using G Hout.
  intros Hp Hcov He. destruct (write_complete e He Hcov) as (Hu & _).
  assert (e / (lpt * ls) ∈ us) as Hin by (rewrite Hp; by apply elem_of_upto). apply list_elem_of_split in Hin as (l1 & l2 & Hl).
  assert (Forall (λ u, u < units) us) as Hall by (apply Forall_forall; intros x; rewrite Hp; by rewrite elem_of_upto).
  rewrite Hl in Hall |- *. apply Forall_app in Hall as [_ Hall]. apply Forall_cons in Hall as [_ Hall].
  unfold run_units. rewrite foldl_app. cbn [foldl]. apply run_units_keep; try done.
  - rewrite foldl_write_length. apply run_units_length.
  - apply unit_writes_element; try done. apply run_units_length.
Qed.
End Copy.

(** ** Row-major strides *)

(** The strides grow from [base] by the sizes (last dimension first). *)
Fixpoint row_major (base : N) (dims : list (N * N)) : Prop :=
  match dims with
  | [] => True
  | (d, s) :: dims => s = base ∧ row_major (base * d) dims
  end.

Definition size_of_dims (dims : list (N * N)) : N := foldr (λ p acc, p.1 * acc) 1 dims.

Lemma row_major_offset base dims i :
  Forall (λ p, good_dim p.1) dims → row_major base dims → i < size_of_dims dims → strided_offset dims i = base * i.
Proof.
  intros Hd. revert base i. induction Hd as [|[d s] dims [Hd _] _ IH]; intros base i; cbn in *; [lia|].
  intros [-> Hr] Hi. destruct (div_mod_ex i d Hd) as (q & r & -> & -> & Heq & Hlt). rewrite (IH (base * d)); [nia|done|].
  change (foldr _ 1 dims) with (size_of_dims dims) in Hi. nia.
Qed.

(** Rows of [last] elements at a distance of [pitch]. *)
Definition output_layout (last pitch : N) (dims : list (N * N)) : Prop :=
  ∃ rest, dims = (last, 1) :: rest ∧ row_major pitch rest ∧ last ≤ pitch ∧ (rest = [] → pitch = last).

Definition pitch_of (last pitch : N) : option (N * N) := if last =? pitch then None else Some (last, pitch).

Lemma output_layout_addr last pitch dims e :
  Forall (λ p, good_dim p.1) dims → output_layout last pitch dims → e < size_of_dims dims →
  strided_offset dims e = out_addr (pitch_of last pitch) e.
Proof.
  intros Hd (rest & -> & Hr & Hle & Hnil) He. apply Forall_cons in Hd as [[Hl _] Hd]. cbn in Hl, He.
  change (foldr _ 1 rest) with (size_of_dims rest) in He. cbn [strided_offset].
  destruct (div_mod_ex e last Hl) as (q & r & Hq & Hrm & Heq & Hlt). rewrite Hq, Hrm.
  rewrite (row_major_offset pitch rest q Hd Hr) by nia. unfold pitch_of. destruct (N.eqb_spec last pitch) as [<-|_]; cbn.
  - lia.
  - rewrite Hq, Hrm. lia.
Qed.

(** ** Host decisions *)

Lemma foldl_max_in x l : foldl N.max x l = x ∨ foldl N.max x l ∈ l.
Proof.
  revert x. induction l as [|y l IH]; intros x; cbn; [by left|]. destruct (IH (N.max x y)) as [->|Hin]; [|right; by right].
  destruct (N.max_spec x y) as [[_ ->]|[_ ->]]; [right; by left|by left].
Qed.
Lemma list_max_in l x : list_max l = Some x → x ∈ l.
Proof.
  destruct l as [|y l]; [done|]. cbn. intros [= <-]. destruct (foldl_max_in y l) as [->|Hin]; [by left|by right].
Qed.

Lemma divides_spec d n : 0 < d → divides d n = true ↔ (d | n).
Proof. intros Hd. unfold divides. rewrite N.eqb_eq. by apply mod_0_divide. Qed.

Lemma line_size_parallel_spec supported shape strides axis :
  Forall (λ l, 0 < l ∧ l ≤ u8_max) supported →
  let ls := tensor_line_size_parallel supported shape strides axis in
  (0 < ls ∧ ls ≤ u8_max) ∧ (ls = 1 ∨ strides !! axis = Some 1 ∧ ∃ d, shape !! axis = Some d ∧ (ls | d)).
Proof.
  intros Hs. unfold tensor_line_size_parallel, try_tensor_line_size_parallel. cbv zeta.
  destruct (strides !! axis) as [s|]; [|by split; [|left]]. destruct (N.eqb_spec s 1) as [->|Hne]; cbn [negb]; [|by split; [|left]].
  destruct (shape !! axis) as [d|]; [|by split; [|left]]. destruct (list_max _) as [l|] eqn:Hl; [|by split; [|left]].
  apply list_max_in, list_elem_of_filter in Hl as [Hdiv Hin]. rewrite Forall_forall in Hs. pose proof (Hs l Hin) as Hpos.
  split; [done|]. right. split; [done|]. exists d. split; [done|]. apply andb_true_iff in Hdiv as [Hdiv _]. apply divides_spec; [lia|done].
Qed.

Lemma elems_per_unit_pos r : 0 < elems_per_unit_of r.
Proof. unfold elems_per_unit_of. by repeat case_match. Qed.

(** The loop ends with a divisor of the last dimension. *)
Lemma adjust_units_returns fuel last ls n :
  0 < ls → (ls | last) → (n < fuel)%nat →
  ∃ epu, adjust_units fuel last (2 ^ N.of_nat n) (ls * 2 ^ N.of_nat n) = Ret (epu, ls * epu) ∧ 0 < epu ∧ (ls * epu | last).
Proof.
  intros Hls Hd. revert n. induction fuel as [|fuel IH]; intros n Hn; [lia|]. cbn [adjust_units].
  assert (0 < 2 ^ N.of_nat n) as Hp by (apply N.neq_0_lt_0, N.pow_nonzero; lia).
  rewrite checked_rem_ok by nia. cbn [obind]. destruct (N.eqb_spec (last mod (ls * 2 ^ N.of_nat n)) 0) as [H0|H0].
  - eexists. split; [done|]. split; [done|]. apply mod_0_divide; [nia|done].
  - destruct n as [|n].
    { cbn in H0. rewrite N.mul_1_r in H0. apply mod_0_divide in Hd; [done|done]. }
    replace (2 ^ N.of_nat (S n)) with (2 ^ N.of_nat n * 2) by (rewrite Nat2N.inj_succ, N.pow_succ_r'; lia).
    rewrite N.mul_assoc, !N.div_mul by lia. apply IH. lia.
Qed.

Lemma elems_per_unit_pow r : ∃ n, (n < 4)%nat ∧ elems_per_unit_of r = 2 ^ N.of_nat n.
Proof.
  unfold elems_per_unit_of. repeat case_match; [exists 0%nat|exists 1%nat|exists 2%nat|exists 3%nat]; (split; [lia|done]).
Qed.

Lemma divmod_args_returns u64 shape : Forall good_dim shape → ∃ fs, divmod_args u64 shape = Ret fs.
Proof.
  induction 1 as [|d shape [Hd Hd'] _ [fs IH]]; cbn; [by eexists|]. rewrite N.mod_small by (unfold two32; lia).
  destruct (FastDivmod_ok (λ _ _, 0) u64 d 0) as (f & -> & _); [done|done|done|]. cbn. rewrite IH. by eexists.
Qed.

Record host_ok (supported : list N) (num_sm : option N) (input output : TensorRef) (last pitch num : N) : Prop := {
  ho_product : shape_product 1 (tr_shape input) = Ret num;
  ho_supported : Forall (λ l, 0 < l ∧ l ≤ u8_max) supported;
  ho_sm : 0 < default NUM_SM_APPROX num_sm ∧ default NUM_SM_APPROX num_sm * 256 ≤ u32_max;
  ho_dims : Forall good_dim (tr_shape input);
  ho_rank : length (tr_strides input) = length (tr_shape input);
  ho_strides : Forall (λ s, s < two32) (tr_strides input);
  ho_span : span (rev (zip (tr_shape input) (tr_strides input))) < two32;
  ho_out_shape : tr_shape output = tr_shape input;
  ho_out_rank : length (tr_strides output) = length (tr_shape output);
  ho_out : output_layout last pitch (rev (zip (tr_shape output) (tr_strides output)));
  ho_pitch : pitch < two32;
}.

Lemma strides_mod l : Forall (λ s, s < two32) l → (λ s, s mod two32) <$> l = l.
Proof. induction 1 as [|s l Hs _ IH]; [done|]. cbn. rewrite IH, N.mod_small by done. done. Qed.

Lemma rev_zip_snoc (a b : list N) x y : length a = length b → rev (zip (a ++ [x]) (b ++ [y])) = (x, y) :: rev (zip a b).
Proof. intros Hl. rewrite zip_with_app by done. cbn. by rewrite rev_app_distr. Qed.

(** The last dimension of the output, and the stride before it. *)
Lemma output_shape supported num_sm input output last pitch num :
  host_ok supported num_sm input output last pitch num →
  ∃ sh0 st0 ost0 sl, tr_shape input = sh0 ++ [last] ∧ tr_strides input = st0 ++ [sl] ∧ tr_strides output = ost0 ++ [1] ∧
    length st0 = length sh0 ∧ length ost0 = length sh0 ∧
    (sh0 = [] → pitch = last) ∧ (sh0 ≠ [] → ost0 !! (length sh0 - 1)%nat = Some pitch).
Proof.
  intros [_ _ _ _ Hr _ _ Hos Hor (rest & Hdims & Hrow & _ & Hnil) _]. rewrite Hos in *.
  destruct (tr_shape input) as [|x sh0 _] using rev_ind; [by rewrite zip_with_nil_l in Hdims|].
  rewrite length_app in Hr, Hor. cbn in Hr, Hor.
  destruct (tr_strides output) as [|y ost0 _] using rev_ind; [cbn in Hor; lia|]. rewrite length_app in Hor. cbn in Hor.
  destruct (tr_strides input) as [|z st0 _] using rev_ind; [cbn in Hr; lia|]. rewrite length_app in Hr. cbn in Hr.
  rewrite rev_zip_snoc in Hdims by lia. injection Hdims as -> -> Hrest.
  exists sh0, st0, ost0, z. split_and!; try done; try lia.
  - intros ->. apply Hnil. by rewrite <- Hrest.
  - intros Hne. destruct sh0 as [|w sh1 _] using rev_ind; [done|]. rewrite length_app in Hor. cbn in Hor.
    destruct ost0 as [|v ost1 _] using rev_ind; [cbn in Hor; lia|]. rewrite length_app in Hor. cbn in Hor.
    rewrite rev_zip_snoc in Hrest by lia. rewrite <- Hrest in Hrow. destruct Hrow as [-> _].
    rewrite length_app. cbn. rewrite lookup_app_r by lia. by replace (length sh1 + 1 - 1 - length ost1)%nat with 0%nat by lia.
Qed.

(** What the launch satisfies. *)
Record launch_ok (u64 : bool) (input : TensorRef) (last pitch : N) (c : ContiguousLaunch) (lpt : N) : Prop := {
  lo_shape : divmod_args u64 (tr_shape input) = Ret (cl_shape c);
  lo_stride : cl_stride c = tr_strides input;
  lo_line : 0 < cl_line_size c ∧
    (cl_line_size c = 1 ∨ (cl_line_size c | last) ∧ ∃ st0, tr_strides input = st0 ++ [1]);
  lo_out_line : 0 < cl_out_line_size c;
  lo_lpt : 0 < lpt;
  lo_kind : if cl_pack c then cl_line_size c = 1 ∧ cl_elems_per_thread c = lpt * cl_out_line_size c
            else cl_out_line_size c = cl_line_size c ∧ cl_elems_per_thread c = lpt;
  lo_pitch : last ≠ pitch → (lpt * cl_out_line_size c | last);
  lo_layout : match pitch_of last pitch with
              | None => cl_layout c = LayoutNone
              | Some (last, pitch) =>
                  ∃ f, cl_layout c = Pitched f ∧ FastDivmodArgs_new u64 last = Ret f ∧ cl_pitch c = pitch
              end;
}.

(** The choice between the two kernels. *)
Lemma kernel_choice supported ls epu :
  0 < ls → 0 < epu → Forall (λ l, 0 < l ∧ l ≤ u8_max) supported →
  let out := if 1 <? ls then ls else default 1 (list_max (filter (λ l, divides l (ls * epu) = true) supported)) in
  let pack := negb (ls =? out) && (1 <? out) in
  0 < out ∧ ∃ lpt, 0 < lpt ∧ lpt * out = ls * epu ∧
    if pack then ls = 1 ∧ epu = lpt * out else out = ls ∧ epu = lpt.
Proof.
  intros Hls Hepu Hsup. cbv zeta. destruct (N.ltb_spec 1 ls) as [Hgt|Hle].
  - rewrite N.eqb_refl. cbn. split; [done|]. exists epu. split_and!; try done. lia.
  - assert (ls = 1) as -> by lia. rewrite N.mul_1_l.
    destruct (list_max (filter _ supported)) as [o|] eqn:Ho; cbn [from_option id].
    + apply list_max_in, list_elem_of_filter in Ho as [Hdiv Hin]. rewrite Forall_forall in Hsup. destruct (Hsup o Hin) as [Hpos _].
      apply divides_spec in Hdiv as [q Hq]; [|done]. split; [done|].
      destruct (N.eqb_spec 1 o) as [<-|Hne]; cbn [negb andb]; cbv iota.
      * exists epu. split_and!; try done; lia.
      * rewrite (proj2 (N.ltb_lt 1 o)) by lia. cbv iota. exists q. split_and!; try done; destruct q; lia.
    + cbn. split; [done|]. exists epu. split_and!; try done; lia.
Qed.

Lemma into_contiguous_ref_returns supported num_sm u64 input output last pitch num :
  host_ok supported num_sm input output last pitch num →
  ∃ c lpt, into_contiguous_ref supported num_sm u64 input output = Ret c ∧ launch_ok u64 input last pitch c lpt.
Proof.
  intros Hh. destruct (output_shape _ _ _ _ _ _ _ Hh) as (sh0 & st0 & ost0 & sl & Hsh & Hst & Host & L1 & L2 & Hp1 & Hp2).
  destruct Hh as [Hprod Hsup [Hsm1 Hsm2] Hd Hr Hs Hspan Hos Hor Hout Hpb].
  unfold into_contiguous_ref. rewrite Hprod. cbn [obind]. rewrite Hst, length_app, L1. cbn [length].
  rewrite checked_sub_ok by lia. cbn [obind]. replace (N.of_nat (length sh0 + 1) - 1) with (N.of_nat (length sh0)) by lia.
  rewrite Nat2N.id. set (ls := tensor_line_size_parallel _ _ _ _).
  destruct (line_size_parallel_spec supported (tr_shape input) (st0 ++ [sl]) (length sh0) Hsup) as [[Hls Hls255] Hlsd].
  fold ls in Hls, Hls255, Hlsd. rewrite Hsh in Hlsd. rewrite <- L1 in Hlsd at 1. rewrite !list_lookup_middle in Hlsd by done.
  assert ((ls | last)) as Hdiv.
  { destruct Hlsd as [->|(_ & d & [= <-] & ?)]; [apply N.divide_1_l|done]. }
  rewrite checked_div_ok by lia. cbn [obind]. change (cube_dim_num_elems CubeDim_default) with (Ret 256). cbn [obind].
  rewrite checked_mul_ok by done. cbn [obind]. rewrite checked_div_ok by lia. cbn [obind]. set (ratio := _ / _).
  destruct (elems_per_unit_pow ratio) as (n & Hn & Hepu). rewrite Hepu.
  assert (2 ^ N.of_nat n ≤ 8) as Hpow by (change 8 with (2 ^ 3); apply N.pow_le_mono_r; lia).
  assert (0 < 2 ^ N.of_nat n) as Hpos by (apply N.neq_0_lt_0, N.pow_nonzero; lia).
  rewrite checked_mul_ok by (unfold u32_max, u8_max in *; nia). cbn [obind].
  rewrite Hos, Hsh, list_lookup_middle by done. cbn [expect obind].
  assert ((if 1 <? N.of_nat (length sh0 + 1) then
      let? s := expect (tr_strides output !! N.to_nat (N.of_nat (length sh0 + 1) - 2)) "index out of bounds" in Ret (negb (last =? s))
    else Ret false) = Ret (negb (last =? pitch)) ∧
    (last ≠ pitch → default 0 (tr_strides output !! N.to_nat (N.of_nat (length sh0 + 1) - 2)) = pitch)) as [-> Hpitch].
  { destruct sh0 as [|x sh1] eqn:Hsh0; [rewrite (Hp1 eq_refl), N.eqb_refl; by split|]. rewrite <- Hsh0 in *.
    assert (tr_strides output !! N.to_nat (N.of_nat (length sh0 + 1) - 2) = Some pitch) as ->.
    { rewrite Host. replace (N.to_nat (N.of_nat (length sh0 + 1) - 2)) with (length sh0 - 1)%nat by lia.
      assert (sh0 ≠ []) as Hne by (by rewrite Hsh0). rewrite lookup_app_l; [by apply Hp2|]. rewrite L2, Hsh0. cbn. lia. }
    rewrite (proj2 (N.ltb_lt _ _)) by (rewrite Hsh0; cbn; lia). by split. }
  cbn [obind]. set (padded := negb (last =? pitch)).
  assert (∃ epu, (if padded then adjust_units 8 last (2 ^ N.of_nat n) (ls * 2 ^ N.of_nat n)
    else Ret (2 ^ N.of_nat n, ls * 2 ^ N.of_nat n)) = Ret (epu, ls * epu) ∧ 0 < epu ∧ (padded = true → (ls * epu | last))) as (epu & -> & Hepu0 & Hepud).
  { destruct padded; [|by eexists]. destruct (adjust_units_returns 8 last ls n Hls Hdiv) as (epu & ? & ? & ?); [lia|]. by eexists. }
  cbn [obind]. destruct (divmod_args_returns u64 (sh0 ++ [last])) as [fs Hfs]; [by rewrite <- Hsh|].
  assert (good_dim last) as [Hl1 Hl2] by (rewrite Hsh in Hd; by apply Forall_app in Hd as [_ [? _]%Forall_cons]).
  assert (∃ lay, (if padded then let? f := FastDivmodArgs_new u64 (last mod two32) in Ret (Pitched f) else Ret LayoutNone) = Ret lay ∧
    match pitch_of last pitch with None => lay = LayoutNone | Some (l, _) => ∃ f, lay = Pitched f ∧ FastDivmodArgs_new u64 l = Ret f end)
    as (lay & -> & Hlay).
  { unfold padded, pitch_of. destruct (last =? pitch); cbn [negb]; [by eexists|]. rewrite N.mod_small by (unfold two32; lia).
    destruct (FastDivmod_ok (λ _ _, 0) u64 last 0) as (f & Hf & _); [done|done|done|]. rewrite Hf. eexists. split; [done|]. by eexists. }
  cbn [obind]. rewrite div_ceil_ok by nia. cbn [obind].
  destruct (kernel_choice supported ls epu Hls Hepu0 Hsup) as (Hout0 & lpt & Hlpt & Hprd & Hkind). cbv zeta in Hout0, Hprd, Hkind.
  set (out := if 1 <? ls then ls else _) in *.
  unfold calculate_cube_count_elemwise at 1. change (cube_dim_num_elems CubeDim_default) with (Ret 256). cbn [obind]. rewrite Hfs. cbn [obind].
  eexists _, lpt. split; [done|]. split; cbn [cl_shape cl_stride cl_line_size cl_out_line_size cl_pack cl_elems_per_thread cl_layout cl_pitch].
  - by rewrite Hsh.
  - rewrite Hst. apply strides_mod. by rewrite <- Hst.
  - split; [done|]. destruct Hlsd as [?|[[= ->] _]]; [by left|right; split; [done|]]. rewrite Hst. by eexists.
  - done.
  - done.
  - done.
  - intros Hne. rewrite Hprd. apply Hepud. unfold padded. by apply negb_true_iff, N.eqb_neq.
  - unfold pitch_of in *. destruct (N.eqb_spec last pitch) as [|Hne]; [done|]. destruct Hlay as (f & -> & Hf). exists f.
    split; [done|]. split; [done|]. rewrite (Hpitch Hne). by apply N.mod_small.
Qed.

(** ** The number of elements *)

Lemma shape_product_spec acc l n : shape_product acc l = Ret n → n = acc * foldr N.mul 1 l.
Proof.
  revert acc. induction l as [|x l IH]; intros acc; cbn; [intros [= <-]; lia|]. intros (a & Ha & H)%obind_ret.
  apply IH in H. unfold checked_mul in Ha. destruct (_ <=? _); [|done]. injection Ha as <-. lia.
Qed.
Lemma product_snoc l x : foldr N.mul 1 (l ++ [x]) = foldr N.mul 1 l * x.
Proof. induction l as [|y l IH]; cbn; [lia|]. rewrite IH. lia. Qed.
Lemma size_of_rev_zip shape strides :
  length strides = length shape → size_of_dims (rev (zip shape strides)) = foldr N.mul 1 shape.
Proof.
  intros Hl. revert strides Hl. induction shape as [|d shape IH] using rev_ind; intros strides Hl; [done|].
  destruct strides as [|s strides _] using rev_ind; rewrite !length_app in Hl; cbn in Hl; [lia|].
  rewrite rev_zip_snoc by lia. rewrite product_snoc, <- (IH strides) by lia.
  unfold size_of_dims. cbn [foldr fst]. lia.
Qed.

(** ** Whole copies *)

Definition per_unit (c : ContiguousLaunch) : N :=
  if cl_pack c then cl_elems_per_thread c else cl_elems_per_thread c * cl_line_size c.
Definition units_of (c : ContiguousLaunch) : N := launch_units (cl_cube_count c) CubeDim_default.

(** Lines fit the strides of the input, the number of elements and the pitch
    of the output; the launched units cover the tensor and stay in 32 bits;
    the tensors are inside their buffers. *)
Record copy_ok (c : ContiguousLaunch) (in_dims out_dims : list (N * N)) (last pitch num in_len out_len : N) : Prop := {
  co_line : cl_line_size c = 1 ∨ Forall (λ p, (cl_line_size c | p.2)) (tail in_dims);
  co_num : (cl_out_line_size c | num);
  co_pitch : (cl_out_line_size c | pitch);
  co_cover : num ≤ units_of c * per_unit c;
  co_units : units_of c * per_unit c ≤ 2147483648;
  co_addr : (units_of c * per_unit c / last + 1) * pitch < two32;
  co_input : ∀ e, e < num → strided_offset in_dims e < in_len;
  co_output : ∀ e, e < num → strided_offset out_dims e < out_len;
}.

Lemma launch_geometry supported num_sm u64 input output last pitch num c lpt {A} (in_mem : list A) out_len :
  host_ok supported num_sm input output last pitch num → launch_ok u64 input last pitch c lpt →
  let in_dims := rev (zip (tr_shape input) (tr_strides input)) in
  let out_dims := rev (zip (tr_shape output) (tr_strides output)) in
  copy_ok c in_dims out_dims last pitch num (N.of_nat (length in_mem)) out_len →
  geometry u64 c (tr_shape input) (tr_strides input) num lpt (units_of c) (pitch_of last pitch) in_mem ∧
  per_unit c = lpt * cl_out_line_size c.
Proof.
  intros Hh [Hshape Hstride [Hls Hline] Hol Hlpt Hkind Hlp Hlay] in_dims out_dims [Hcl Hcn Hcp _ Hcu Hca Hci _].
  assert (per_unit c = lpt * cl_out_line_size c) as Hper.
  { unfold per_unit. destruct (cl_pack c); destruct Hkind as [H1 H2]; rewrite H2; [done|]. by rewrite H1. }
  split; [|done]. rewrite Hper in *. pose proof (ho_out _ _ _ _ _ _ _ Hh) as (rest & _ & _ & Hle & _).
  destruct (output_shape _ _ _ _ _ _ _ Hh) as (sh0 & st0 & ost0 & sl & Hsh & Hst & _ & L1 & _).
  assert (good_dim last) as Hgl.
  { pose proof (ho_dims _ _ _ _ _ _ _ Hh) as Hd. rewrite Hsh in Hd. by apply Forall_app in Hd as [_ [? _]%Forall_cons]. }
  split; try done; try apply Hh.
  - destruct Hline as [->|[Hdl [st1 Hst1]]]; [by left|]. destruct Hcl as [->|Hcl]; [by left|]. right.
    rewrite Hst in Hst1. apply app_inj_tail in Hst1 as [-> ->]. unfold in_dims in Hcl. rewrite Hsh, Hst, rev_zip_snoc in Hcl |- * by lia.
    by do 2 eexists.
  - unfold pitch_of. destruct (N.eqb_spec last pitch) as [|Hne]; [done|]. split_and!; try done. by apply Hlp.
  - by rewrite <- N.mul_assoc.
  - rewrite <- N.mul_assoc. intros e He. unfold pitch_of. destruct (N.eqb_spec last pitch) as [|Hne]; cbn; [unfold two32; lia|].
    destruct Hgl as [Hl _]. assert (e / last ≤ units_of c * (lpt * cl_out_line_size c) / last) as Hq by (apply N.Div0.div_le_mono; lia).
    assert (e / last * pitch ≤ units_of c * (lpt * cl_out_line_size c) / last * pitch) by (by apply N.mul_le_mono_r).
    pose proof (N.mod_lt e last). lia.
Qed.


Module CopyDemo.
Definition sizes : list N := [1; 2; 4].
(** A tensor of four rows of eight elements, stored by columns, into rows at a
    distance of sixteen. *)
Definition input : TensorRef := mkRef [4; 8] [1; 4].
Definition output : TensorRef := mkRef [4; 8] [16; 1].

Lemma demo_host : host_ok sizes None input output 8 16 32.
Proof.
  split.
  - reflexivity.
  - unfold sizes, u8_max. repeat constructor; lia.
  - unfold NUM_SM_APPROX, u32_max. cbn. lia.
  - cbn. repeat constructor; lia.
  - reflexivity.
  - cbn. unfold two32. repeat constructor; lia.
  - reflexivity.
  - reflexivity.
  - reflexivity.
  - exists [(4, 16)]. split_and!; done.
  - reflexivity.
Qed.


(** The conditions of the theorem hold for this copy. *)
Definition from_launch (o : outcome ContiguousLaunch) : ContiguousLaunch :=
  match o with Ret c => c | _ => mkLaunch 1 1 1 LayoutNone 0 [] [] false (1, 1, 1) end.
Definition launch : ContiguousLaunch := from_launch (into_contiguous_ref sizes None true input output).
Lemma demo_copy : copy_ok launch [(8, 4); (4, 1)] [(8, 1); (4, 16)] 8 16 32 32 64.
Proof.
  assert (launch = mkLaunch 1 1 1 (Pitched (PowerOfTwo 3 7)) 16 [PowerOfTwo 2 3; PowerOfTwo 3 7] [1; 4] false (1, 1, 1)) as ->
    by (vm_compute; reflexivity).
  assert (∀ e, e < 32 → e / 8 < 4 ∧ e mod 8 < 8) as Hdm.
  { intros e He. split; [apply N.Div0.div_lt_upper_bound; lia|by apply N.mod_lt]. }
  split; cbn [cl_line_size cl_out_line_size].
  - by left.
  - by exists 32.
  - by exists 16.
  - vm_compute. discriminate.
  - vm_compute. discriminate.
  - vm_compute. reflexivity.
  - intros e He. destruct (Hdm e He). cbn [strided_offset]. rewrite (N.mod_small (e / 8) 4) by done. lia.
  - intros e He. destruct (Hdm e He). cbn [strided_offset]. rewrite (N.mod_small (e / 8) 4) by done. lia.
Qed.

(** A strided vector of 513 elements on a device with one multiprocessor: the
    units write lines of two elements, and the last element is in no line. *)
Definition odd : ContiguousLaunch := from_launch (into_contiguous_ref sizes (Some 1) true (mkRef [513] [2]) (mkRef [513] [1])).
Definition odd_result : list N := run_units (λ _ _, 0) 0 odd (upto 1026) (replicate 513 7777) (upto (units_of odd)).
Example last_element_lost : odd_result !! 511%nat = Some 1022 ∧ odd_result !! 512%nat = Some 7777.
Proof. split; vm_compute; reflexivity. Qed.

(** Strides 10, 4 and 1: the line size is 4, and the second matrix is read
    from offset 8 instead of 10. *)
Definition sliced : ContiguousLaunch :=
  from_launch (into_contiguous_ref sizes None true (mkRef [3; 2; 4] [10; 4; 1]) (mkRef [3; 2; 4] [8; 4; 1])).
Definition sliced_result : list N := run_units (λ _ _, 0) 0 sliced (upto 28) (replicate 24 7777) (upto (units_of sliced)).
Example wrong_lines : cl_line_size sliced = 4 ∧ sliced_result !! 8%nat = Some 8.
Proof. split; vm_compute; reflexivity. Qed.

(** An empty shape has no compact strides. *)
Example compact_strides_scalar : compact_strides [] = Panic "attempt to subtract with overflow".
Proof. reflexivity. Qed.
Example compact_strides_matrix : compact_strides [2; 3; 4] = Ret [12; 4; 1].
Proof. reflexivity. Qed.
End CopyDemo.
