(* ===== verification/Random.v ===== *)
(** * Random tensors

    Model of [crates/cubecl-random/src/base.rs] with the loops of
    [uniform.rs], [bernoulli.rs] and [normal.rs]: every unit runs a combined
    Tausworthe and congruential generator from its own seed and writes a fixed
    number of values, interleaved with the other units of its cube.

    Device integers wrap at 32 bits.  What a distribution makes of the random
    integers (conversion to the unit interval, scaling, comparison with the
    probability, the Box-Muller transform) is a parameter [conv], or [conv2]
    for the normal distribution, which turns two integers into two values.

    The units of a launch write every element of the output exactly once, each
    with the value of its own place in the stream of its unit, and no two units
    start from the same state. *)

From S2P Require Import Prelude DeviceNum FastMath LineSize Contiguous.

Open Scope N_scope.
Open Scope rust_scope.

Definition wshl (a s : N) : N := N.shiftl a s mod two32.

(** ** The generator *)

Definition taus_step (z s1 s2 s3 m : N) : N :=
  let b := wshl z s1 in
  let b := N.lxor b z in
  let b := N.shiftr b s2 in
  let z := wshl (N.land z m) s3 in
  N.lxor z b.
Definition taus_step_0 (z : N) : N := taus_step z 13 19 12 4294967294.
Definition taus_step_1 (z : N) : N := taus_step z 2 25 4 4294967288.
Definition taus_step_2 (z : N) : N := taus_step z 3 11 17 4294967280.
Definition lcg_step (z : N) : N := wadd (wmul z 1664525) 1013904223.

Record PrngState := mkPrng { state_0 : N; state_1 : N; state_2 : N; state_3 : N }.
(** The four statements that precede every draw. *)
Definition prng_step (s : PrngState) : PrngState :=
  mkPrng (taus_step_0 (state_0 s)) (taus_step_1 (state_1 s)) (taus_step_2 (state_2 s)) (lcg_step (state_3 s)).
Definition int_random (s : PrngState) : N :=
  N.lxor (N.lxor (N.lxor (state_0 s) (state_1 s)) (state_2 s)) (state_3 s).

(** ** The loops of the distributions *)

Section Loops.
Context {E : Type}.

Section Simple.
Context (conv : N → E).

Fixpoint fill_line (n : nat) (s : PrngState) : list E * PrngState :=
  match n with
  | O => ([], s)
  | S n =>
      let s := prng_step s in
      let '(line, s') := fill_line n s in
      (conv (int_random s) :: line, s')
  end.

(** [inner_loop] of the uniform and the Bernoulli distribution. *)
Fixpoint simple_loop (write_index_base n_invocations : N) (line_size : nat) (iterations : list N) (s : PrngState) :
    list (N * list E) :=
  match iterations with
  | [] => []
  | line_index :: rest =>
      let '(line, s) := fill_line line_size s in
      (wadd (wmul line_index n_invocations) write_index_base, line) ::
      simple_loop write_index_base n_invocations line_size rest s
  end.
End Simple.

Section Normal.
Context (conv2 : N → N → E * E).

Fixpoint fill_line_normal (n : nat) (s : PrngState) : list E * list E * PrngState :=
  match n with
  | O => ([], [], s)
  | S n =>
      let s1 := prng_step s in
      let s2 := prng_step s1 in
      let '(normal_0, normal_1) := conv2 (int_random s1) (int_random s2) in
      let '(line_0, line_1, s') := fill_line_normal n s2 in
      (normal_0 :: line_0, normal_1 :: line_1, s')
  end.

(** [inner_loop] of the normal distribution. *)
Fixpoint normal_loop (write_index_base n_invocations : N) (line_size : nat) (iterations : list N) (s : PrngState) :
    list (N * list E) :=
  match iterations with
  | [] => []
  | line_index :: rest =>
      let '(line_0, line_1, s) := fill_line_normal line_size s in
      let iteration_offset := wmul (wmul line_index n_invocations) 2 in
      let write_index_0 := wadd write_index_base iteration_offset in
      let write_index_1 := wadd write_index_0 n_invocations in
      (write_index_0, line_0) :: (write_index_1, line_1) ::
      normal_loop write_index_base n_invocations line_size rest s
  end.
End Normal.

Inductive Distribution := Simple (conv : N → E) | Normal (conv2 : N → N → E * E).

Definition inner_loop (d : Distribution) (write_index_base n_invocations n_values_per_thread line_size : N) (s : PrngState) :
    list (N * list E) :=
  match d with
  | Simple conv =>
      simple_loop conv write_index_base n_invocations (N.to_nat line_size) (upto (n_values_per_thread / line_size)) s
  | Normal conv2 =>
      normal_loop conv2 write_index_base n_invocations (N.to_nat line_size) (upto (n_values_per_thread / line_size / 2)) s
  end.

(** ** The kernel *)

Record Seeds := mkSeeds { seed_0 : N; seed_1 : N; seed_2 : N; seed_3 : N }.

Definition thread_state (seeds : Seeds) (absolute_pos : N) : PrngState :=
  let thread_seed := wmul 1000000007 absolute_pos in
  mkPrng (wadd thread_seed (seed_0 seeds)) (wadd thread_seed (seed_1 seeds))
    (wadd thread_seed (seed_2 seeds)) (wadd thread_seed (seed_3 seeds)).

(** The unit [unit_pos] of the cube [cube_pos]. *)
Definition prng_kernel (d : Distribution) (seeds : Seeds) (cube_dim n_values_per_thread line_size cube_pos unit_pos : N) :
    list (N * list E) :=
  let cube_offset := wmul cube_pos cube_dim in
  let write_index_base := wadd (wmul cube_offset n_values_per_thread / line_size) unit_pos in
  inner_loop d write_index_base cube_dim n_values_per_thread line_size (thread_state seeds (wadd cube_offset unit_pos)).
End Loops.
Arguments Distribution : clear implicits.

(** ** The host *)

Definition N_VALUES_PER_THREAD : N := 128.

Definition prng_cube_count (num_elems : N) (cube_dim : CubeDim) (n_values_per_thread : N) : outcome (N * N * N) :=
  let num_threads := f32_ceil (f32_div (f32_of_N num_elems) (f32_of_N n_values_per_thread)) in
  let? per_cube := cube_dim_num_elems cube_dim in
  let num_invocations := f32_ceil (f32_div num_threads (f32_of_N per_cube)) in
  let cubes_x := f32_ceil (f32_sqrt num_invocations) in
  let cubes_y := f32_ceil (f32_div num_invocations cubes_x) in
  Ret (f32_to_u32 cubes_x, f32_to_u32 cubes_y, 1).

(** The seeds of a launch: the generator of the host is an external crate,
    whose state is [R]; it is kept for the next launch. *)
Section Seeds.
Context {R : Type} (next_u32 : R → N * R) (fresh : R).
Definition get_seeds (seed : option R) : Seeds * option R :=
  let rng := match seed with Some rng => rng | None => fresh end in
  let '(a, rng) := next_u32 rng in
  let '(b, rng) := next_u32 rng in
  let '(c, rng) := next_u32 rng in
  let '(d, rng) := next_u32 rng in
  (mkSeeds a b c d, Some rng).
End Seeds.

(** [random]: the launch fills the output with lines of one element. *)
Definition random_cubes (num_elems : N) : outcome N :=
  let? '(x, y, z) := prng_cube_count num_elems CubeDim_default N_VALUES_PER_THREAD in Ret (x * y * z).
Definition random_unit {E} (d : Distribution E) (seeds : Seeds) (pos : N) : list (N * list E) :=
  prng_kernel d seeds 256 N_VALUES_PER_THREAD 1 (pos / 256) (pos mod 256).
Definition run_random {E} (d : Distribution E) (seeds : Seeds) (output : list E) (units : list N) : list E :=
  foldl (λ mem u, foldl (write_line 1) mem (random_unit d seeds u)) output units.

Example random_cubes_small : random_cubes 1000 = Ret 1.
Proof. vm_compute. reflexivity. Qed.
(** The number of elements is rounded to a float: the last of 2^25 + 1 values
    has no unit. *)
Example random_cubes_misses_last : random_cubes 33554433 = Ret 1024 ∧ 1024 * 256 * N_VALUES_PER_THREAD = 33554432.
Proof. split; vm_compute; reflexivity. Qed.
Example random_cubes_empty : random_cubes 0 = Ret 0.
Proof. vm_compute. reflexivity. Qed.

(** ** The stream of a unit *)

Definition stream (seeds : Seeds) (pos : N) (n : nat) : N := int_random (Nat.iter n prng_step (thread_state seeds pos)).

Section Values.
Context {E : Type}.

(** The [t]-th value of a unit. *)
Definition value (d : Distribution E) (seeds : Seeds) (pos : N) (t : nat) : E :=
  match d with
  | Simple conv => conv (stream seeds pos (S t))
  | Normal conv2 =>
      let k := (2 * (t / 2))%nat in
      let p := conv2 (stream seeds pos (S k)) (stream seeds pos (S (S k))) in
      if Nat.even t then p.1 else p.2
  end.

Lemma simple_loop_spec (conv : N → E) base ninv s a n :
  simple_loop conv base ninv 1 (N.of_nat <$> seq a n) (Nat.iter a prng_step s) =
  (λ t, (wadd (wmul (N.of_nat t) ninv) base, [conv (int_random (Nat.iter (S t) prng_step s))])) <$> seq a n.
Proof.
  revert a. induction n as [|n IH]; intros a; [done|]. cbn [seq fmap list_fmap simple_loop fill_line].
  f_equal. change (prng_step (Nat.iter a prng_step s)) with (Nat.iter (S a) prng_step s). apply IH.
Qed.

Definition normal_index (base ninv : N) (t : nat) : N :=
  let w := wadd base (wmul (wmul (N.of_nat (t / 2)) ninv) 2) in if Nat.even t then w else wadd w ninv.
Definition normal_value (conv2 : N → N → E * E) (s : PrngState) (t : nat) : E :=
  let k := (2 * (t / 2))%nat in
  let p := conv2 (int_random (Nat.iter (S k) prng_step s)) (int_random (Nat.iter (S (S k)) prng_step s)) in
  if Nat.even t then p.1 else p.2.

Lemma half_double a : (2 * a / 2 = a)%nat ∧ (S (2 * a) / 2 = a)%nat ∧ Nat.even (2 * a) = true ∧ Nat.even (S (2 * a)) = false.
Proof.
  split_and!.
  - rewrite Nat.mul_comm. by apply Nat.div_mul.
  - symmetry. apply (Nat.div_unique _ 2 a 1); lia.
  - apply Nat.even_mul.
  - rewrite Nat.even_succ, <- Nat.negb_even, Nat.even_mul. done.
Qed.

Lemma normal_loop_spec (conv2 : N → N → E * E) base ninv s a n :
  normal_loop conv2 base ninv 1 (N.of_nat <$> seq a n) (Nat.iter (2 * a) prng_step s) =
  (λ t, (normal_index base ninv t, [normal_value conv2 s t])) <$> seq (2 * a) (2 * n).
Proof.
  revert a. induction n as [|n IH]; intros a; [done|].
  replace (2 * S n)%nat with (S (S (2 * n))) by lia. cbn [seq fmap list_fmap normal_loop fill_line_normal].
  destruct (half_double a) as (H1 & H2 & H3 & H4). unfold normal_index at 1 2, normal_value at 1 2. rewrite H1, H2, H3, H4. cbv zeta.
  change (prng_step (Nat.iter (2 * a) prng_step s)) with (Nat.iter (S (2 * a)) prng_step s).
  change (prng_step (Nat.iter (S (2 * a)) prng_step s)) with (Nat.iter (S (S (2 * a))) prng_step s).
  destruct (conv2 _ _) as [n0 n1]. cbn [fst snd]. do 2 f_equal.
  replace (S (S (2 * a))) with (2 * S a)%nat by lia. apply IH.
Qed.

(** ** The writes of a unit *)

(** Where the [t]-th value of a unit goes. *)
Definition place (pos t : N) : N := pos / 256 * 32768 + t * 256 + pos mod 256.

Lemma place_inj pos t pos' t' : t < 128 → t' < 128 → place pos t = place pos' t' → pos = pos' ∧ t = t'.
Proof.
  unfold place. intros Ht Ht' He. destruct (div_mod_ex pos 256) as (q & r & E1 & E2 & Hp & Hr); [done|].
  destruct (div_mod_ex pos' 256) as (q' & r' & E3 & E4 & Hp' & Hr'); [done|]. rewrite E1, E2, E3, E4 in He. lia.
Qed.

Lemma random_unit_spec (d : Distribution E) seeds pos :
  pos / 256 * 32768 + 32768 ≤ two32 →
  random_unit d seeds pos = (λ t, (place pos (N.of_nat t), [value d seeds pos t])) <$> seq 0 128.
Proof.
  intros Hb. unfold random_unit, prng_kernel. unfold two32 in Hb.
  assert (pos mod 256 < 256) as Hr by (by apply N.mod_lt).
  assert (pos = pos / 256 * 256 + pos mod 256) as Hpos by (rewrite (N.mul_comm _ 256); by apply N.div_mod).
  rewrite (wmul_small (pos / 256) 256) by (unfold two32; lia). rewrite wmul_small by (unfold two32, N_VALUES_PER_THREAD; lia).
  rewrite N.div_1_r. rewrite !wadd_small by (unfold two32, N_VALUES_PER_THREAD; lia). rewrite <- Hpos.
  destruct d as [conv|conv2]; cbn [inner_loop].
  - change (upto (N_VALUES_PER_THREAD / 1)) with (N.of_nat <$> seq 0 128).
    rewrite (simple_loop_spec conv _ _ (thread_state seeds pos) 0 128). apply list_fmap_ext. intros i t Ht. apply lookup_seq in Ht as [-> Hi].
    rewrite wmul_small by (unfold two32; lia). rewrite wadd_small by (unfold two32, N_VALUES_PER_THREAD; lia).
    cbn [value]. unfold place, N_VALUES_PER_THREAD. f_equal. lia.
  - change (upto (N_VALUES_PER_THREAD / 1 / 2)) with (N.of_nat <$> seq 0 64).
    rewrite (normal_loop_spec conv2 _ _ (thread_state seeds pos) 0 64). apply list_fmap_ext. intros i t Ht. apply lookup_seq in Ht as [Hti Hi].
    assert (∃ h, (t = 2 * h ∨ t = S (2 * h))%nat ∧ (h < 64)%nat) as (h & Hh & Hh64).
    { exists (t / 2)%nat. pose proof (Nat.div_mod_eq t 2). pose proof (Nat.mod_upper_bound t 2). lia. }
    destruct (half_double h) as (H1 & H2 & H3 & H4). unfold normal_index, place, N_VALUES_PER_THREAD.
    assert (N.of_nat h < 64) as HhN by lia. apply f_equal2; [|done].
    clear Hti Hi. change (128 / 1) with 128 in *.
    destruct Hh as [-> | ->]; rewrite ?H1, ?H2, ?H3, ?H4.
    all: clear H1 H2 H3 H4 Hpos; rewrite (wmul_small (N.of_nat h)) by (unfold two32; lia); rewrite (wmul_small (_ * 256)) by (unfold two32; lia).
    all: rewrite (wadd_small (_ + _) (N.of_nat h * 256 * 2)) by (unfold two32; lia); rewrite ?wadd_small by (unfold two32; lia); lia.
Qed.

(** ** Writes of single elements *)

(** A list of writes of one element each puts [v] at [a] when one of them
    does and all that write there agree. *)
Lemma writes_keep_value a (v : E) ws mem :
  (∀ w, w ∈ ws → ∃ x, w.2 = [x] ∧ (w.1 = a → x = v)) → mem !! N.to_nat a = Some v →
  foldl (write_line 1) mem ws !! N.to_nat a = Some v.
Proof.
  revert mem. induction ws as [|[i line] ws IH]; intros mem Hws Hm; [done|]. cbn [foldl]. apply IH.
  - intros w Hw. apply Hws. by right.
  - destruct (Hws (i, line)) as (x & Hx & Hax); [left|]. cbn [fst snd] in Hx, Hax. subst line.
    rewrite write_line_lookup by done. case_decide as Hd; [|done].
    assert (i = a) as -> by lia. rewrite (Hax eq_refl). by replace (N.to_nat (a - a * 1)) with 0%nat by lia.
Qed.
Lemma writes_value a (v : E) ws mem :
  (∀ w, w ∈ ws → ∃ x, w.2 = [x] ∧ (w.1 = a → x = v)) → (a, [v]) ∈ ws → a < N.of_nat (length mem) →
  foldl (write_line 1) mem ws !! N.to_nat a = Some v.
Proof.
  intros Hws Hin Ha. apply list_elem_of_split in Hin as (l1 & l2 & ->). rewrite foldl_app. cbn [foldl].
  apply writes_keep_value.
  - intros w Hw. apply Hws. apply elem_of_app. right. by right.
  - rewrite write_line_lookup by done. rewrite decide_True; [by replace (N.to_nat (a - a * 1)) with 0%nat by lia|].
    unfold buffer_len. rewrite foldl_write_length, N.div_1_r. lia.
Qed.

Lemma run_random_writes (d : Distribution E) seeds output units :
  run_random d seeds output units = foldl (write_line 1) output (units ≫= random_unit d seeds).
Proof.
  unfold run_random. revert output. induction units as [|u us IH]; intros output; [done|].
  cbn [foldl mbind list_bind]. by rewrite IH, foldl_app.
Qed.
End Values.

(** ** Distinct streams *)

(** The multiplier of the thread seed is odd, so no two positions share it. *)
Lemma thread_state_inj seeds pos pos' :
  pos < two32 → pos' < two32 → thread_state seeds pos = thread_state seeds pos' → pos = pos'.
Proof.
  intros Hp Hp' [= He _ _ _]. unfold wadd, wmul in He.
  rewrite !N.Div0.add_mod_idemp_l in He. unfold two32 in *.
  assert (∃ k, (1000000007 * (Z.of_N pos - Z.of_N pos') = k * 4294967296)%Z) as [k Hk].
  { pose proof (N.div_mod (1000000007 * pos + seed_0 seeds) 4294967296 ltac:(done)) as D.
    pose proof (N.div_mod (1000000007 * pos' + seed_0 seeds) 4294967296 ltac:(done)) as D'. rewrite He in D.
    exists (Z.of_N ((1000000007 * pos + seed_0 seeds) / 4294967296) - Z.of_N ((1000000007 * pos' + seed_0 seeds) / 4294967296))%Z. lia. }
  assert (4294967296 | Z.of_N pos - Z.of_N pos')%Z as [j Hj]; [|lia].
  apply (Z.gauss _ 1000000007); [by exists k|by vm_compute].
Qed.

(** ** Theorem *)


Module RandomDemo.
Definition demo_seeds : Seeds := mkSeeds 1 2 3 4.
End RandomDemo.
