(* ===== verification/MatmulConfig.v ===== *)
(** * Configuration of a simple matmul

    Model of the configurations that the setup of a matmul builds from the
    problem and the selection, level by level, and of their validation:
    [tile/register/config.rs], [stage/matmul/unit_partitioned/{config,setup}.rs],
    [global/specialization/{config,roles}.rs], [resource.rs], [selection.rs]
    and [global/single_stage/simple/{config,setup}.rs] of
    [crates/cubecl-matmul/src/components].

    A result is [inl] of the value or [inr] of the error; the numbers inside
    error messages are left out. *)

From S2P Require Import Prelude DeviceNum Tiling GlobalOrder SmAllocation Hypercube StageLayout.

Open Scope N_scope.
Open Scope rust_scope.

(** The [?] operator on a result inside a computation that can panic. *)
Definition ok_bind {A B E : Type} (m : outcome (A + E)) (k : A → outcome (B + E)) : outcome (B + E) :=
  let? r := m in
  match r with
  | inl a => k a
  | inr e => Ret (inr e)
  end.
Notation "'ok!' x := m 'in' k" := (ok_bind m (λ x, k))
  (at level 10, x name, m at level 200, k at level 200) : rust_scope.

(** Early return with an error when the condition holds. *)
Definition reject {E : Type} (b : bool) (e : E) : outcome (unit + E) :=
  Ret (if b then inr e else inl tt).

Lemma ok_bind_inl {A B E} (m : outcome (A + E)) (k : A → outcome (B + E)) b :
  ok_bind m k = Ret (inl b) → ∃ a, m = Ret (inl a) ∧ k a = Ret (inl b).
Proof. unfold ok_bind. intros ([a|e] & Hm & Hk)%obind_ret; [by exists a|done]. Qed.

(** ** Resources *)

Inductive ComputeResources := Units (units : N) | Planes (planes : N).

Definition as_plane_resources (r : ComputeResources) (plane_dim : N) :
    outcome (ComputeResources + MatmulSetupError) :=
  match r with
  | Units units =>
      let? rem := checked_rem units plane_dim in
      if rem =? 0 then let? q := checked_div units plane_dim in Ret (inl (Planes q))
      else Ret (inr (InvalidConfig "Number of units should be divisible by plane_dim"))
  | Planes _ => Ret (inl r)
  end.
Definition num_planes (r : ComputeResources) (plane_dim : N) : outcome (N + MatmulSetupError) :=
  ok! plane_resources := as_plane_resources r plane_dim in
  match plane_resources with
  | Planes num_planes => Ret (inl num_planes)
  | Units _ => Panic "internal error: entered unreachable code"
  end.

(** ** Specialization of planes *)

Inductive SpecializationTensorConfig := MainFlowOnly | LoadFlowOnly.
Record LoadSpecializationConfig := { lsc_lhs : SpecializationTensorConfig; lsc_rhs : SpecializationTensorConfig }.
Definition tensor_has_specialization (c : SpecializationTensorConfig) : bool :=
  match c with MainFlowOnly => false | LoadFlowOnly => true end.
Definition has_specialization (c : LoadSpecializationConfig) : bool :=
  tensor_has_specialization (lsc_lhs c) || tensor_has_specialization (lsc_rhs c).

Record PlaneRoles := { main_flow : N; load_only : N }.
Inductive RoleRuleConfig := RuleMainFlowOnly | RuleLoadOnlyFirst (load_only : N) | RuleLoadOnlyLast (main_flow : N).
Record PlaneRoleConfig := { plane_roles : PlaneRoles; rule : RoleRuleConfig }.
Record MaxLoaderPlanes := { mlp_lhs : N; mlp_rhs : N }.

(** [gcd]: the remainder decreases, and after two rounds by half. *)
Fixpoint gcd (fuel : nat) (a b : N) : outcome N :=
  match fuel with
  | O => OutOfFuel
  | S fuel => if b =? 0 then Ret a else gcd fuel b (a mod b)
  end.

Definition abs_diff (a b : N) : N := if a <? b then b - a else a - b.

(** The loop over [1..=dividible_value]. *)
Fixpoint best_divisor_loop (n : nat) (d dividible_value reference best best_dist : N) : N :=
  match n with
  | O => best
  | S n =>
      if dividible_value mod d =? 0 then
        let dist := abs_diff reference d in
        if (dist <? best_dist) || ((dist =? best_dist) && (best <? d)) then
          best_divisor_loop n (d + 1) dividible_value reference d dist
        else best_divisor_loop n (d + 1) dividible_value reference best best_dist
      else best_divisor_loop n (d + 1) dividible_value reference best best_dist
  end.
Definition best_divisor_close_to_reference (dividible_value reference : N) : N :=
  best_divisor_loop (N.to_nat dividible_value) 1 dividible_value reference 1 (abs_diff reference 1).

Definition to_plane_roles (c : LoadSpecializationConfig) (main_flow : N) (loader_tasks : MaxLoaderPlanes) :
    outcome PlaneRoles :=
  let? ideal_load_only :=
    match lsc_lhs c, lsc_rhs c with
    | MainFlowOnly, MainFlowOnly => Ret 0
    | MainFlowOnly, LoadFlowOnly => Ret (mlp_rhs loader_tasks)
    | LoadFlowOnly, MainFlowOnly => Ret (mlp_lhs loader_tasks)
    | LoadFlowOnly, LoadFlowOnly =>
        gcd (S (N.to_nat (mlp_rhs loader_tasks))) (mlp_lhs loader_tasks) (mlp_rhs loader_tasks)
    end in
  Ret {| main_flow := main_flow; load_only := best_divisor_close_to_reference ideal_load_only main_flow |}.

Definition PlaneRoleConfig_new (c : LoadSpecializationConfig) (loader_tasks : option MaxLoaderPlanes)
    (num_main_flow_planes : N) : outcome (PlaneRoleConfig + MatmulSetupError) :=
  ok! plane_roles :=
    match loader_tasks with
    | Some loader_tasks => let? r := to_plane_roles c num_main_flow_planes loader_tasks in Ret (inl r)
    | None =>
        if has_specialization c then
          Ret (inr (InvalidConfig "Error: Load specialization config has specialization but no loader tasks were given."))
        else Ret (inl {| main_flow := num_main_flow_planes; load_only := 0 |})
    end in
  let rule :=
    if load_only plane_roles =? 0 then RuleMainFlowOnly else RuleLoadOnlyFirst (load_only plane_roles) in
  Ret (inl {| plane_roles := plane_roles; rule := rule |}).

Inductive LoadingSides := SideBoth | SideLhs | SideRhs | SideNone.
Definition includes (s : LoadingSides) (ident : MatmulIdent) : bool :=
  match s, ident with
  | SideBoth, _ | SideLhs, IdentLhs | SideRhs, IdentRhs => true
  | _, _ => false
  end.
Record SpecializedLoadingSides := { sls_main_flow : LoadingSides; sls_load_only : LoadingSides }.
Definition specialized_num_loading_planes (s : SpecializedLoadingSides) (specialized : bool) (ident : MatmulIdent)
    (roles : PlaneRoles) : outcome N :=
  if specialized then
    checked_add u32_max (if includes (sls_main_flow s) ident then main_flow roles else 0)
      (if includes (sls_load_only s) ident then load_only roles else 0)
  else Ret (main_flow roles).
Definition SpecializedLoadingSides_from (c : LoadSpecializationConfig) : SpecializedLoadingSides :=
  match lsc_lhs c, lsc_rhs c with
  | MainFlowOnly, MainFlowOnly => {| sls_main_flow := SideBoth; sls_load_only := SideNone |}
  | MainFlowOnly, LoadFlowOnly => {| sls_main_flow := SideLhs; sls_load_only := SideRhs |}
  | LoadFlowOnly, MainFlowOnly => {| sls_main_flow := SideRhs; sls_load_only := SideLhs |}
  | LoadFlowOnly, LoadFlowOnly => {| sls_main_flow := SideNone; sls_load_only := SideBoth |}
  end.

(** *** On the device: the roles of the plane [unit_pos_y] *)

Definition is_load_only (r : RoleRuleConfig) (unit_pos_y : N) : bool :=
  match r with
  | RuleMainFlowOnly => false
  | RuleLoadOnlyFirst load_only => unit_pos_y <? load_only
  | RuleLoadOnlyLast main_flow => main_flow <=? unit_pos_y
  end.
Definition compute_index (r : RoleRuleConfig) (unit_pos_y : N) : N :=
  match r with
  | RuleMainFlowOnly => unit_pos_y
  | RuleLoadOnlyFirst load_only => wsub unit_pos_y load_only
  | RuleLoadOnlyLast _ => unit_pos_y
  end.
Definition load_index (r : RoleRuleConfig) (ident : MatmulIdent) (s : SpecializedLoadingSides) (unit_pos_y : N) : N :=
  match r with
  | RuleMainFlowOnly => unit_pos_y
  | RuleLoadOnlyFirst load_only =>
      if negb (includes (sls_load_only s) ident) then wsub unit_pos_y load_only else unit_pos_y
  | RuleLoadOnlyLast main_flow =>
      if negb (includes (sls_main_flow s) ident) then wsub unit_pos_y main_flow else unit_pos_y
  end.

(** ** Selection *)

Inductive PartitionBuffering := SingleBuffering | DoubleBuffering.
Inductive LoadingPrecomputeStrategy := PrecomputeNever | PrecomputeAlways.
Inductive LoaderMode := Strict | Relaxed.
Record NumStages := { ns_lhs : N; ns_rhs : N }.
Record MatmulLineSizes := { mls_lhs : N; mls_rhs : N; mls_out : N }.

Record MatmulSelection := {
  ms_plane_dim : N;
  ms_tiling_scheme : TilingScheme;
  ms_quantized : bool;
  ms_partition_buffering : PartitionBuffering;
  ms_loading_precompute_strategy : LoadingPrecomputeStrategy;
  ms_loader_mode : LoaderMode;
  ms_load_specialization_config : LoadSpecializationConfig;
  ms_hypercube_selection : HypercubeSelection;
}.

(** ** Tile level: register matmul *)

Record RegisterConfig := {
  rc_tiling_scheme : TilingScheme;
  rc_plane_dim : N;
  rc_lhs_layout : MatrixLayout;
  rc_rhs_layout : MatrixLayout;
  rc_lhs_global_line_size : N;
  rc_rhs_global_line_size : N;
  rc_out_global_line_size : N;
  rc_lhs_stage_line_size : N;
  rc_rhs_stage_line_size : N;
}.

Definition rc_matrix_layout (c : RegisterConfig) (ident : StageIdent) : MatrixLayout :=
  match ident with StageLhs => rc_lhs_layout c | StageRhs => rc_rhs_layout c | StageAcc => LayoutRowMajor end.
Definition rc_stage_line_size (c : RegisterConfig) (ident : StageIdent) : N :=
  match ident with
  | StageLhs => rc_lhs_stage_line_size c
  | StageRhs => rc_rhs_stage_line_size c
  | StageAcc => rc_out_global_line_size c
  end.
Definition rc_global_line_size (c : RegisterConfig) (ident : StageIdent) : N :=
  match ident with
  | StageLhs => rc_lhs_global_line_size c
  | StageRhs => rc_rhs_global_line_size c
  | StageAcc => rc_out_global_line_size c
  end.
Definition rc_tile_size (c : RegisterConfig) : Size3 := tile_size (rc_tiling_scheme c).

(** What the layouts of a stage see of it. *)
Definition register_tile_config (c : RegisterConfig) : TileConfig :=
  {| tc_matrix_layout := rc_matrix_layout c; tc_stage_line_size := rc_stage_line_size c; tc_tile_size := rc_tile_size c |}.

Inductive ProductType := Inner | Outer.
Definition product_type (c : RegisterConfig) : ProductType := Outer.

Definition not_divisible : MatmulSetupError :=
  InvalidConfig "Tile shape in lined axis should be divisible by line size".
Definition check_divides (size line : N) : outcome (unit + MatmulSetupError) :=
  let? r := checked_rem size line in reject (negb (r =? 0)) not_divisible.

Definition RegisterConfig_validate (c : RegisterConfig) : outcome (RegisterConfig + MatmulSetupError) :=
  let m := size_get (rc_tile_size c) DimM in
  let n := size_get (rc_tile_size c) DimN in
  let k := size_get (rc_tile_size c) DimK in
  let lhs := rc_lhs_stage_line_size c in
  let rhs := rc_rhs_stage_line_size c in
  let out := rc_out_global_line_size c in
  ok! _ := match rc_matrix_layout c StageLhs with LayoutRowMajor => check_divides k lhs | LayoutColMajor => check_divides m lhs end in
  ok! _ := match rc_matrix_layout c StageRhs with LayoutRowMajor => check_divides n rhs | LayoutColMajor => check_divides k rhs end in
  ok! _ := check_divides n out in
  Ret (inl c).

(** [types_supported]: whether the client supports the types of the stage and
    of the accumulator. *)
Definition RegisterConfig_new (types_supported : bool) (c : RegisterConfig) :
    outcome (RegisterConfig + MatmulSetupError) :=
  ok! c := RegisterConfig_validate c in
  ok! _ := reject (negb types_supported) (Unavailable "types") in
  Ret (inl c).

Definition RegisterMatmul_setup (types_supported : bool) (problem : MatmulProblem) (selection : MatmulSelection)
    (line_sizes : MatmulLineSizes) : outcome (RegisterConfig + MatmulSetupError) :=
  RegisterConfig_new types_supported
    {| rc_tiling_scheme := ms_tiling_scheme selection; rc_plane_dim := ms_plane_dim selection;
       rc_lhs_layout := prob_lhs_layout problem; rc_rhs_layout := prob_rhs_layout problem;
       rc_lhs_global_line_size := mls_lhs line_sizes; rc_rhs_global_line_size := mls_rhs line_sizes;
       rc_out_global_line_size := mls_out line_sizes;
       rc_lhs_stage_line_size := mls_lhs line_sizes; rc_rhs_stage_line_size := mls_rhs line_sizes |}.
Definition register_computation_resources : ComputeResources := Units 1.

(** ** Stage level: partitioned across units *)

Record UnitPartitionedStageConfig := {
  uc_tile_config : RegisterConfig;
  uc_tiling_scheme : TilingScheme;
  uc_quantized : bool;
  uc_partition_buffering : PartitionBuffering;
  uc_num_stages : NumStages;
  uc_plane_role_config : PlaneRoleConfig;
  uc_ordered : bool;
}.
Definition uc_num_main_flow_planes (c : UnitPartitionedStageConfig) : N := main_flow (plane_roles (uc_plane_role_config c)).
Definition uc_plane_dim (c : UnitPartitionedStageConfig) : N := rc_plane_dim (uc_tile_config c).

(** The stage memory configuration is the stage configuration itself. *)
Definition stage_memory_config (c : UnitPartitionedStageConfig) : StageMemoryConfig :=
  {| smc_tile_config := register_tile_config (uc_tile_config c);
     smc_num_main_flow_planes := uc_num_main_flow_planes c;
     smc_tiling_scheme := uc_tiling_scheme c;
     smc_stage_line_size := rc_stage_line_size (uc_tile_config c);
     smc_matrix_layout := rc_matrix_layout (uc_tile_config c);
     smc_num_stages := λ ident, match ident with
                                | StageLhs => ns_lhs (uc_num_stages c)
                                | StageRhs => ns_rhs (uc_num_stages c)
                                | StageAcc => 0 (* unreachable *)
                                end |}.

Definition UnitPartitionedStageConfig_validate (es_size eo_size smem_limit : N) (c : UnitPartitionedStageConfig) :
    outcome (UnitPartitionedStageConfig + MatmulSetupError) :=
  let ts := uc_tiling_scheme c in
  let? num_units_needed := stage_partitions_in_stage_mn ts in
  let? num_units := checked_mul u32_max (uc_plane_dim c) (uc_num_main_flow_planes c) in
  ok! _ := reject (negb (num_units =? num_units_needed)) (InvalidConfig "Error: Number of units") in
  ok! _ := match uc_partition_buffering c with
           | SingleBuffering => Ret (inl tt)
           | DoubleBuffering =>
               let? tiles := tiles_in_stage_partition_n ts in
               reject (tiles <? 2) (InvalidConfig "Error: Tried doing partition double buffering with only one tile to compute.")
           end in
  let? mk := elements_in_stage_mk ts in
  let? lhs_smem_size := checked_mul u32_max mk (ns_lhs (uc_num_stages c)) in
  let? nk := elements_in_stage_nk ts in
  let? rhs_smem_size := checked_mul u32_max nk (ns_rhs (uc_num_stages c)) in
  let? mn := elements_in_tile_mn ts in
  let? out_smem_size := checked_mul u32_max mn num_units in
  let? inputs := checked_add u32_max lhs_smem_size rhs_smem_size in
  let? es := checked_mul u32_max es_size inputs in
  let? eo := checked_mul u32_max eo_size out_smem_size in
  let? smem_total_size := checked_add u32_max es eo in
  ok! _ := reject (smem_limit <? smem_total_size) (InvalidConfig "This algorithm needs more shared memory") in
  Ret (inl c).

(** What the runtime tells: the supported types, the sizes of the elements of
    the stage and the output, the shared memory of a cube. *)
Record ClientProperties := {
  cp_types_supported : bool;
  cp_es_size : N;
  cp_eo_size : N;
  cp_max_shared_memory_size : N;
}.

Definition UnitMatmul_setup (client : ClientProperties) (problem : MatmulProblem) (selection : MatmulSelection)
    (line_sizes : MatmulLineSizes) (num_stages : NumStages) (max_loaders : option MaxLoaderPlanes) (ordered : bool) :
    outcome (UnitPartitionedStageConfig + MatmulSetupError) :=
  ok! tile_config := RegisterMatmul_setup (cp_types_supported client) problem selection line_sizes in
  ok! compute_resources :=
    match register_computation_resources with
    | Units units =>
        let? partitions := stage_partitions_in_stage_mn (ms_tiling_scheme selection) in
        let? units := checked_mul u32_max units partitions in
        Ret (inl (Units units))
    | Planes _ => Ret (inr (InvalidConfig "Error: Tried to use a unit stage matmul with a plane tile matmul."))
    end in
  ok! compute_planes := num_planes compute_resources (rc_plane_dim tile_config) in
  ok! plane_role_config := PlaneRoleConfig_new (ms_load_specialization_config selection) max_loaders compute_planes in
  UnitPartitionedStageConfig_validate (cp_es_size client) (cp_eo_size client) (cp_max_shared_memory_size client)
    {| uc_tile_config := tile_config; uc_tiling_scheme := ms_tiling_scheme selection;
       uc_quantized := ms_quantized selection; uc_partition_buffering := ms_partition_buffering selection;
       uc_num_stages := num_stages; uc_plane_role_config := plane_role_config; uc_ordered := ordered |}.

(** ** Global level: simple matmul *)

Record SimpleConfig := {
  sc_stage_config : UnitPartitionedStageConfig;
  sc_num_planes : N;
  sc_check_m_bounds : bool;
  sc_check_n_bounds : bool;
  sc_check_k_bounds : bool;
  sc_k_step : N;
  sc_precompute_job : LoadingPrecomputeStrategy;
  sc_loader_mode : LoaderMode;
}.

(** What the trait [GlobalConfig] provides to loaders and writers. *)
Record GlobalConfig := {
  gc_stage_memory_config : StageMemoryConfig;
  gc_global_line_size : MatmulIdent → N;
  gc_tiling_scheme : TilingScheme;
  gc_matrix_layout : MatmulIdent → MatrixLayout;
  gc_num_loading_planes : MatmulIdent → N;
  gc_role_rule_config : RoleRuleConfig;
  gc_specialized_loading_sides : SpecializedLoadingSides;
  gc_plane_dim : N;
  gc_check_row_bounds : MatmulIdent → bool;
  gc_check_col_bounds : MatmulIdent → bool;
  gc_precompute_job : bool;
  gc_loader_mode : LoaderMode;
}.

Definition sc_check_row_bounds (c : SimpleConfig) (ident : MatmulIdent) : bool :=
  match ident with IdentLhs => sc_check_m_bounds c | IdentRhs => sc_check_k_bounds c | IdentOut => sc_check_m_bounds c end.
Definition sc_check_col_bounds (c : SimpleConfig) (ident : MatmulIdent) : bool :=
  match ident with IdentLhs => sc_check_k_bounds c | IdentRhs => sc_check_n_bounds c | IdentOut => sc_check_n_bounds c end.
Definition simple_global_config (c : SimpleConfig) : GlobalConfig :=
  {| gc_stage_memory_config := stage_memory_config (sc_stage_config c);
     gc_global_line_size := λ ident, rc_global_line_size (uc_tile_config (sc_stage_config c)) (into_stage ident);
     gc_tiling_scheme := uc_tiling_scheme (sc_stage_config c);
     gc_matrix_layout := λ ident, rc_matrix_layout (uc_tile_config (sc_stage_config c)) (into_stage ident);
     gc_num_loading_planes := λ _, uc_num_main_flow_planes (sc_stage_config c);
     gc_role_rule_config := rule (uc_plane_role_config (sc_stage_config c));
     gc_specialized_loading_sides := {| sls_main_flow := SideBoth; sls_load_only := SideNone |};
     gc_plane_dim := uc_plane_dim (sc_stage_config c);
     gc_check_row_bounds := sc_check_row_bounds c;
     gc_check_col_bounds := sc_check_col_bounds c;
     gc_precompute_job := match sc_precompute_job c with PrecomputeAlways => true | PrecomputeNever => false end;
     gc_loader_mode := sc_loader_mode c |}.
Definition sc_cube_dim (c : SimpleConfig) : N * N := (uc_plane_dim (sc_stage_config c), sc_num_planes c).
