(* ===== verification/GlobalMemory.v ===== *)
(** * Views of global memory

    Model of [global/global_memory/{reader,writer}.rs] and
    [global/quantization.rs] of [crates/cubecl-matmul/src/components] over
    tensors as a kernel sees them.  The kernels are launched without bounds
    checks, so an access outside a buffer is undefined; here it is a panic, and
    the theorems show that none occurs.

    A line is the list of its elements.  Values of [comptime] expressions are
    computed on the host with overflow checks, the others wrap at 32 bits.

    The lemmas give the effect of a set of writes, and the values a reader
    returns in terms of the matrix it views. *)

From S2P Require Import Prelude DeviceNum Tiling StageLayout MatmulConfig.

Open Scope N_scope.
Open Scope rust_scope.

(** ** Buffers *)

Section Lines.
Context {E : Type}.

(** Line [i] of a buffer. *)
Definition read_unchecked (line_size : N) (mem : list E) (i : N) : outcome (list E) :=
  if (i + 1) * line_size <=? N.of_nat (length mem) then
    Ret (take (N.to_nat line_size) (drop (N.to_nat (i * line_size)) mem))
  else Panic "read out of bounds".
Definition write_unchecked (line_size : N) (mem : list E) (i : N) (line : list E) : outcome (list E) :=
  if (i + 1) * line_size <=? N.of_nat (length mem) then Ret (list_inserts (N.to_nat (i * line_size)) line mem)
  else Panic "write out of bounds".

(** Writes in the order of the list. *)
Fixpoint apply_writes (line_size : N) (mem : list E) (ws : list (N * list E)) : outcome (list E) :=
  match ws with
  | [] => Ret mem
  | (i, line) :: ws => let? mem := write_unchecked line_size mem i line in apply_writes line_size mem ws
  end.
End Lines.

(** A tensor argument of a kernel. *)
Record Tensor (E : Type) := mkTensor {
  t_data : list E;
  t_line_size : N;
  t_shape : list N;
  t_strides : list N;
}.
Arguments mkTensor {E} _ _ _ _.
Arguments t_data {E} _.
Arguments t_line_size {E} _.
Arguments t_shape {E} _.
Arguments t_strides {E} _.

Section Tensors.
Context {E : Type}.
Definition t_rank (t : Tensor E) : N := N.of_nat (length (t_shape t)).
Definition shape_at (t : Tensor E) (axis : N) : outcome N :=
  expect (t_shape t !! N.to_nat axis) "metadata read out of bounds".
Definition stride_at (t : Tensor E) (axis : N) : outcome N :=
  expect (t_strides t !! N.to_nat axis) "metadata read out of bounds".
Definition tensor_read (t : Tensor E) (index : N) : outcome (list E) := read_unchecked (t_line_size t) (t_data t) index.

(** [read_masked] on the whole tensor. *)
Definition read_masked (mask : bool) (t : Tensor E) (index : N) (value : list E) : outcome (list E) :=
  let index := wmul index (if mask then 1 else 0) in
  let? input := tensor_read t index in
  Ret (if mask then input else value).
End Tensors.

(** ** Types and arithmetic of a matmul *)

(** [MatmulPrecision]: the elements of the inputs, the stage, the accumulator
    and the output with the casts and operations the matmul uses. *)
Class MatmulPrecision := {
  EI : Type;
  ES : Type;
  EA : Type;
  EO : Type;
  ei_zero : EI;
  es_of_ei : EI → ES;
  es_mul : ES → ES → ES;
  ea_of_es : ES → EA;
  ea_zero : EA;
  ea_add : EA → EA → EA;
  ea_mul : EA → EA → EA;
  eo_of_ea : EA → EO;
}.

Section Views.
Context {MP : MatmulPrecision}.

Record Quantization := mkQuantization { scaling_lhs : ES; scaling_rhs : ES }.
Definition dequantize (q : Quantization) (line : list EI) (ident : MatmulIdent) : outcome (list ES) :=
  match ident with
  | IdentLhs => Ret ((λ v, es_mul (scaling_lhs q) (es_of_ei v)) <$> line)
  | IdentRhs => Ret ((λ v, es_mul (scaling_rhs q) (es_of_ei v)) <$> line)
  | IdentOut => Panic "internal error: entered unreachable code"
  end.
(** The conversion of every loading job. *)
Definition stage_line (q : option Quantization) (line : list EI) (ident : MatmulIdent) : outcome (list ES) :=
  match q with
  | Some q => dequantize q line ident
  | None => Ret (es_of_ei <$> line)
  end.

(** ** Reader *)

Record TensorReader := mkReader {
  tr_tensor : Tensor EI;
  tr_x_offset : N;
  tr_y_offset : N;
  tr_stride_x : N;
  tr_stride_y : N;
  tr_shape_x : N;
  tr_shape_y : N;
  tr_batch_offset : N;
}.

Definition TensorReader_new (tensor : Tensor EI) (x_offset y_offset batch_offset : N) : outcome TensorReader :=
  let rank := t_rank tensor in
  let? stride_x := stride_at tensor (wsub rank 2) in
  let? stride_y := stride_at tensor (wsub rank 1) in
  let? shape_x := shape_at tensor (wsub rank 2) in
  let? shape_y := shape_at tensor (wsub rank 1) in
  Ret (mkReader tensor x_offset y_offset stride_x stride_y shape_x shape_y batch_offset).

Definition update_view (r : TensorReader) (k_offset : N) (ident : MatmulIdent) : outcome TensorReader :=
  match ident with
  | IdentLhs =>
      Ret (mkReader (tr_tensor r) (tr_x_offset r) (wadd (tr_y_offset r) k_offset) (tr_stride_x r) (tr_stride_y r)
             (tr_shape_x r) (tr_shape_y r) (tr_batch_offset r))
  | IdentRhs =>
      Ret (mkReader (tr_tensor r) (wadd (tr_x_offset r) k_offset) (tr_y_offset r) (tr_stride_x r) (tr_stride_y r)
             (tr_shape_x r) (tr_shape_y r) (tr_batch_offset r))
  | IdentOut => Panic "internal error: entered unreachable code"
  end.

Definition read_position (r : TensorReader) (view_x view_y line_size : N) : N :=
  wadd (wadd (wmul view_x (tr_stride_x r)) (wmul view_y (tr_stride_y r))) (tr_batch_offset r) / line_size.

Definition load_coalesced (config : GlobalConfig) (r : TensorReader) (load_offsets : N * N) (ident : MatmulIdent) :
    outcome (list EI) :=
  let line_size := gc_global_line_size config ident in
  let view_x := wadd load_offsets.1 (tr_x_offset r) in
  let view_y := wadd load_offsets.2 (tr_y_offset r) in
  let read_pos := read_position r view_x view_y line_size in
  let zero := replicate (N.to_nat (t_line_size (tr_tensor r))) ei_zero in
  match gc_check_row_bounds config ident, gc_check_col_bounds config ident with
  | true, true => read_masked ((view_x <? tr_shape_x r) && (view_y <? tr_shape_y r)) (tr_tensor r) read_pos zero
  | true, false => read_masked (view_x <? tr_shape_x r) (tr_tensor r) read_pos zero
  | false, true => read_masked (view_y <? tr_shape_y r) (tr_tensor r) read_pos zero
  | false, false => tensor_read (tr_tensor r) read_pos
  end.

Definition load_coalesced_in_tile (config : GlobalConfig) (r : TensorReader) (tile_x tile_y position : N)
    (ident : MatmulIdent) : outcome (list EI) :=
  let? tile_size_x := elements_in_tile_row (gc_tiling_scheme config) (into_stage ident) in
  let? tile_size_y := elements_in_tile_col (gc_tiling_scheme config) (into_stage ident) in
  let view_tile_x := wmul tile_x tile_size_x in
  let view_tile_y := wmul tile_y tile_size_y in
  let '(load_x, load_y) :=
    match gc_matrix_layout config ident with
    | LayoutRowMajor => (position / tile_size_y, position mod tile_size_y)
    | LayoutColMajor => (position mod tile_size_x, position / tile_size_x)
    end in
  load_coalesced config r (wadd load_x view_tile_x, wadd load_y view_tile_y) ident.

Definition load_coalesced_in_stage (config : GlobalConfig) (r : TensorReader) (position : N) (ident : MatmulIdent) :
    outcome (list EI) :=
  let? stage_shape_x := elements_in_stage_row (gc_tiling_scheme config) (into_stage ident) in
  let? stage_shape_y := elements_in_stage_col (gc_tiling_scheme config) (into_stage ident) in
  let load_offsets :=
    match gc_matrix_layout config ident with
    | LayoutRowMajor => (position / stage_shape_y, position mod stage_shape_y)
    | LayoutColMajor => (position mod stage_shape_x, position / stage_shape_x)
    end in
  load_coalesced config r load_offsets ident.

(** ** Writer *)

Record TensorWriter := mkWriter {
  tw_x_offset : N;
  tw_y_offset : N;
  tw_stride_x : N;
  tw_stride_y : N;
  tw_shape_x : N;
  tw_shape_y : N;
  tw_batch_offset : N;
}.

(** The tensor that is written is threaded through the writes. *)
Definition TensorWriter_new (tensor : Tensor EO) (x_offset y_offset batch_offset : N) : outcome TensorWriter :=
  let rank := t_rank tensor in
  let? stride_x := stride_at tensor (wsub rank 2) in
  let? stride_y := stride_at tensor (wsub rank 1) in
  let? shape_x := shape_at tensor (wsub rank 2) in
  let? shape_y := shape_at tensor (wsub rank 1) in
  Ret (mkWriter x_offset y_offset stride_x stride_y shape_x shape_y batch_offset).

(** The write of one line, if it is inside the checked bounds. *)
Definition write_coalesced (config : GlobalConfig) (w : TensorWriter) (tile_x tile_y unit_id : N) (value : list EO) :
    outcome (list (N * list EO)) :=
  let? tile_size_m := elements_in_tile_m (gc_tiling_scheme config) in
  let? tile_size_n := elements_in_tile_n (gc_tiling_scheme config) in
  let view_x := wadd (wadd (wmul tile_x tile_size_m) (unit_id / tile_size_n)) (tw_x_offset w) in
  let view_y := wadd (wadd (wmul tile_y tile_size_n) (unit_id mod tile_size_n)) (tw_y_offset w) in
  let write_position :=
    wadd (wadd (wmul view_x (tw_stride_x w)) (wmul view_y (tw_stride_y w))) (tw_batch_offset w) /
      gc_global_line_size config IdentOut in
  let inside :=
    match gc_check_row_bounds config IdentOut, gc_check_col_bounds config IdentOut with
    | true, true => (view_x <? tw_shape_x w) && (view_y <? tw_shape_y w)
    | true, false => view_x <? tw_shape_x w
    | false, true => view_y <? tw_shape_y w
    | false, false => true
    end in
  Ret (if inside then [(write_position, value)] else []).
End Views.

(** ** Lines of a buffer *)

Section Lines.
Context {E : Type}.

Lemma read_unchecked_ok line (mem : list E) i :
  (i + 1) * line ≤ N.of_nat (length mem) →
  ∃ l, read_unchecked line mem i = Ret l ∧ length l = N.to_nat line ∧
    ∀ k, k < line → l !! N.to_nat k = mem !! N.to_nat (i * line + k).
Proof.
  intros Hi. unfold read_unchecked. rewrite (proj2 (N.leb_le _ _) Hi). eexists. split; [done|]. split.
  - rewrite length_take, length_drop. lia.
  - intros k Hk. rewrite lookup_take_lt by lia. rewrite lookup_drop. f_equal. lia.
Qed.

(** A list of values given by their index. *)
Lemma line_eq (l : list E) line (f : N → E) :
  length l = N.to_nat line → (∀ k, k < line → l !! N.to_nat k = Some (f k)) → l = f <$> upto line.
Proof.
  intros Hlen Hl. apply list_eq. intros i. destruct (decide (i < N.to_nat line)%nat) as [Hi|Hi].
  - specialize (Hl (N.of_nat i)). rewrite Nat2N.id in Hl. rewrite Hl by lia. rewrite list_lookup_fmap.
    pose proof (lookup_upto line (N.of_nat i)) as Hu. rewrite Nat2N.id in Hu. by rewrite Hu by lia.
  - rewrite !lookup_ge_None_2; [done|rewrite length_fmap, length_upto; lia|lia].
Qed.

Lemma write_unchecked_ok line (mem : list E) i v :
  (i + 1) * line ≤ N.of_nat (length mem) → write_unchecked line mem i v = Ret (list_inserts (N.to_nat (i * line)) v mem).
Proof. intros Hi. unfold write_unchecked. by rewrite (proj2 (N.leb_le _ _) Hi). Qed.

(** A write sets its own elements and no others. *)
Lemma inserts_lookup line (mem : list E) i v e :
  (i + 1) * line ≤ N.of_nat (length mem) → length v = N.to_nat line →
  list_inserts (N.to_nat (i * line)) v mem !! N.to_nat e =
    if decide (i * line ≤ e < i * line + line) then v !! N.to_nat (e - i * line) else mem !! N.to_nat e.
Proof.
  intros Hi Hv. case_decide as He.
  - rewrite list_lookup_inserts by lia. f_equal. lia.
  - destruct (N.lt_ge_cases e (i * line)); [by rewrite list_lookup_inserts_lt by lia|by rewrite list_lookup_inserts_ge by lia].
Qed.

Lemma apply_writes_runs line ws (mem : list E) :
  Forall (λ w, (w.1 + 1) * line ≤ N.of_nat (length mem)) ws →
  ∃ mem', apply_writes line mem ws = Ret mem' ∧ length mem' = length mem.
Proof.
  revert mem. induction ws as [|[i v] ws IH]; intros mem Hb; [by exists mem|].
  apply Forall_cons in Hb as [Hi Hb]. cbn [apply_writes]. rewrite write_unchecked_ok by done. cbn [obind].
  destruct (IH (list_inserts (N.to_nat (i * line)) v mem)) as (mem' & -> & Hlen); [by rewrite length_inserts|].
  exists mem'. split; [done|]. by rewrite Hlen, length_inserts.
Qed.

(** An element that no write covers keeps its value. *)
Lemma apply_writes_idle line e ws (mem : list E) :
  Forall (λ w, (w.1 + 1) * line ≤ N.of_nat (length mem)) ws →
  (∀ w, w ∈ ws → ¬ w.1 * line ≤ e < w.1 * line + line) → Forall (λ w, length w.2 = N.to_nat line) ws →
  ∃ mem', apply_writes line mem ws = Ret mem' ∧ mem' !! N.to_nat e = mem !! N.to_nat e.
Proof.
  revert mem. induction ws as [|[i v] ws IH]; intros mem Hb Hn Hv; [by exists mem|].
  apply Forall_cons in Hb as [Hi Hb], Hv as [Hv1 Hv]. cbn [apply_writes fst snd] in *. rewrite write_unchecked_ok by done. cbn [obind].
  destruct (IH (list_inserts (N.to_nat (i * line)) v mem)) as (mem' & -> & Hk); [by rewrite length_inserts|intros w Hw; apply Hn; by right|done|].
  exists mem'. split; [done|]. rewrite Hk, inserts_lookup by done. rewrite decide_False; [done|]. apply (Hn (i, v)). by left.
Qed.

(** Writes whose lines at an element agree. *)
Section Writes.
Context (line : N) (e : N) (val : E).

Definition sets_element (w : N * list E) : Prop :=
  length w.2 = N.to_nat line ∧ (w.1 * line ≤ e < w.1 * line + line → w.2 !! N.to_nat (e - w.1 * line) = Some val).

Lemma apply_writes_keep ws (mem : list E) :
  Forall sets_element ws → Forall (λ w, (w.1 + 1) * line ≤ N.of_nat (length mem)) ws →
  ∃ mem', apply_writes line mem ws = Ret mem' ∧ length mem' = length mem ∧
    (mem !! N.to_nat e = Some val ∨ (∃ w, w ∈ ws ∧ w.1 * line ≤ e < w.1 * line + line) → mem' !! N.to_nat e = Some val) ∧
    ((∀ w, w ∈ ws → ¬ w.1 * line ≤ e < w.1 * line + line) → mem' !! N.to_nat e = mem !! N.to_nat e).
Proof.
  intros Hs. revert mem. induction Hs as [|[i v] ws [Hv Hval] _ IH]; intros mem Hb.
  { exists mem. split_and!; [done|done| |done]. intros [Hm|(w & Hw & _)]; [done|]. by apply elem_of_nil in Hw. }
  apply Forall_cons in Hb as [Hi Hb]. cbn [fst snd] in *. cbn [apply_writes]. rewrite write_unchecked_ok by done. cbn [obind].
  destruct (IH (list_inserts (N.to_nat (i * line)) v mem)) as (mem' & -> & Hlen & Hset & Hkeep).
  { by rewrite length_inserts. }
  rewrite length_inserts in Hlen. exists mem'. split_and!; [done|done| |].
  - intros Hm. apply Hset. rewrite inserts_lookup by done. case_decide as Hd; [left; by apply Hval|].
    destruct Hm as [Hm|(w & Hw & Hwe)]; [by left|]. apply elem_of_cons in Hw as [->|Hw]; [done|right; by exists w].
  - intros Hn. rewrite Hkeep by (intros w Hw; apply Hn; by right). rewrite inserts_lookup by done.
    rewrite decide_False; [done|]. apply (Hn (i, v)). by left.
Qed.
End Writes.
End Lines.

(** ** The matrix behind a view *)

Section View.
Context {MP : MatmulPrecision}.

(** The element at absolute coordinates, zero outside the shape. *)
Definition view (r : TensorReader) (x y : N) : EI :=
  if (x <? tr_shape_x r) && (y <? tr_shape_y r) then
    default ei_zero (t_data (tr_tensor r) !! N.to_nat (x * tr_stride_x r + y * tr_stride_y r + tr_batch_offset r))
  else ei_zero.

(** The line of the view that starts at the given coordinates. *)
Definition line_of_view (r : TensorReader) (layout : MatrixLayout) (line x y : N) : list EI :=
  (λ k, match layout with LayoutRowMajor => view r x (y + k) | LayoutColMajor => view r (x + k) y end) <$> upto line.

(** The strides of the tensor fit its layout and its line size, and the matrix
    lies in the buffer. *)
Record view_ok (r : TensorReader) (layout : MatrixLayout) (line : N) : Prop := {
  vo_line : t_line_size (tr_tensor r) = line;
  vo_pos : 0 < line;
  vo_strides : match layout with
               | LayoutRowMajor => tr_stride_y r = 1 ∧ (line | tr_stride_x r) ∧ (line | tr_shape_y r)
               | LayoutColMajor => tr_stride_x r = 1 ∧ (line | tr_stride_y r) ∧ (line | tr_shape_x r)
               end;
  vo_batch : (line | tr_batch_offset r);
  vo_inside : ∀ x y, x < tr_shape_x r → y < tr_shape_y r →
    x * tr_stride_x r + y * tr_stride_y r + tr_batch_offset r < N.of_nat (length (t_data (tr_tensor r)));
  vo_size : line ≤ N.of_nat (length (t_data (tr_tensor r))) ∧ N.of_nat (length (t_data (tr_tensor r))) ≤ two32;
}.

Lemma aligned_lt line y k n : (line | y) → (line | n) → k < line → (y + k < n ↔ y < n).
Proof. intros [p ->] [q ->] Hk. split; [lia|]. intros Hlt. assert (p < q) by nia. nia. Qed.

(** Positions of the view in the buffer do not wrap. *)
Lemma read_position_ok r layout line x y :
  view_ok r layout line → (line | match layout with LayoutRowMajor => y | LayoutColMajor => x end) →
  x < tr_shape_x r → y < tr_shape_y r →
  read_position r x y line * line = x * tr_stride_x r + y * tr_stride_y r + tr_batch_offset r.
Proof.
  intros V Hal Hx Hy. pose proof (vo_inside _ _ _ V x y Hx Hy) as Hin. destruct (vo_size _ _ _ V) as [_ Hsz].
  unfold read_position. rewrite (wmul_small x) by lia. rewrite (wmul_small y) by lia.
  rewrite (wadd_small (x * _)) by lia. rewrite wadd_small by lia.
  pose proof (vo_pos _ _ _ V) as Hpos. pose proof (vo_batch _ _ _ V) as Hb. pose proof (vo_strides _ _ _ V) as Hs.
  assert (line | x * tr_stride_x r + y * tr_stride_y r + tr_batch_offset r) as [q Hq].
  { destruct layout, Hs as (E1 & D1 & _); rewrite E1.
    - apply N.divide_add_r; [|done]. apply N.divide_add_r; [by apply N.divide_mul_r|by rewrite N.mul_1_r].
    - apply N.divide_add_r; [|done]. apply N.divide_add_r; [by rewrite N.mul_1_r|by apply N.divide_mul_r]. }
  rewrite Hq, N.div_mul by lia. done.
Qed.

(** Reading a line inside the matrix. *)
Lemma read_line_view r layout line x y :
  view_ok r layout line → (line | match layout with LayoutRowMajor => y | LayoutColMajor => x end) →
  x < tr_shape_x r → y < tr_shape_y r →
  tensor_read (tr_tensor r) (read_position r x y line) = Ret (line_of_view r layout line x y).
Proof.
  intros V Hal Hx Hy. pose proof (read_position_ok r layout line x y V Hal Hx Hy) as Hpos.
  set (p := read_position r x y line) in *. pose proof (vo_pos _ _ _ V) as Hl0.
  assert (∀ k, k < line → ∃ v, t_data (tr_tensor r) !! N.to_nat (p * line + k) = Some v ∧
    (match layout with LayoutRowMajor => view r x (y + k) | LayoutColMajor => view r (x + k) y end) = v) as Hk.
  { intros k Hk. pose proof (vo_strides _ _ _ V) as Hs. pose proof (vo_inside _ _ _ V) as Hin.
    destruct layout, Hs as (E1 & D1 & D2).
    - pose proof (proj2 (aligned_lt line y k (tr_shape_y r) Hal D2 Hk) Hy) as Hyk.
      pose proof (Hin x (y + k) Hx Hyk) as Hlt. unfold view. rewrite (proj2 (N.ltb_lt _ _) Hx), (proj2 (N.ltb_lt _ _) Hyk). cbn [andb].
      replace (x * tr_stride_x r + (y + k) * tr_stride_y r + tr_batch_offset r) with (p * line + k) in * by lia.
      destruct (lookup_lt_is_Some_2 (t_data (tr_tensor r)) (N.to_nat (p * line + k))) as [v Hv]; [lia|]. exists v. by rewrite Hv.
    - pose proof (proj2 (aligned_lt line x k (tr_shape_x r) Hal D2 Hk) Hx) as Hxk.
      pose proof (Hin (x + k) y Hxk Hy) as Hlt. unfold view. rewrite (proj2 (N.ltb_lt _ _) Hxk), (proj2 (N.ltb_lt _ _) Hy). cbn [andb].
      replace ((x + k) * tr_stride_x r + y * tr_stride_y r + tr_batch_offset r) with (p * line + k) in * by lia.
      destruct (lookup_lt_is_Some_2 (t_data (tr_tensor r)) (N.to_nat (p * line + k))) as [v Hv]; [lia|]. exists v. by rewrite Hv. }
  unfold tensor_read. rewrite (vo_line _ _ _ V). destruct (read_unchecked_ok line (t_data (tr_tensor r)) p) as (l & -> & Hlen & Hl).
  { destruct (Hk (line - 1)) as (v & Hv & _); [lia|]. apply lookup_lt_Some in Hv. lia. }
  f_equal. apply line_eq; [done|]. intros k Hkl. rewrite Hl by done. destruct (Hk k Hkl) as (v & -> & ->). done.
Qed.

(** A line outside the matrix is zero. *)
Lemma outside_view r layout line x y :
  view_ok r layout line → (line | match layout with LayoutRowMajor => y | LayoutColMajor => x end) →
  ¬ (x < tr_shape_x r ∧ y < tr_shape_y r) →
  replicate (N.to_nat (t_line_size (tr_tensor r))) ei_zero = line_of_view r layout line x y.
Proof.
  intros V Hal Hn. rewrite (vo_line _ _ _ V). apply line_eq; [by rewrite length_replicate|]. intros k Hk.
  rewrite lookup_replicate_2 by lia. f_equal. pose proof (vo_strides _ _ _ V) as Hs.
  destruct layout, Hs as (_ & _ & D); unfold view.
  - destruct (N.ltb_spec x (tr_shape_x r)) as [Hx|Hx]; cbn [andb]; [|done].
    destruct (N.ltb_spec (y + k) (tr_shape_y r)) as [Hy|Hy]; [|done]. apply aligned_lt with (line := line) in Hy; [|done..]. tauto.
  - destruct (N.ltb_spec (x + k) (tr_shape_x r)) as [Hx|Hx]; cbn [andb]; [|done].
    destruct (N.ltb_spec y (tr_shape_y r)) as [Hy|Hy]; [|done]. apply aligned_lt with (line := line) in Hx; [|done..]. tauto.
Qed.

(** A read that is checked wherever it can leave the matrix returns the line of
    the view. *)
Lemma load_coalesced_ok g r ident line x y :
  view_ok r (gc_matrix_layout g ident) line → gc_global_line_size g ident = line →
  x + tr_x_offset r < two32 → y + tr_y_offset r < two32 →
  (line | match gc_matrix_layout g ident with LayoutRowMajor => y + tr_y_offset r | LayoutColMajor => x + tr_x_offset r end) →
  (gc_check_row_bounds g ident = true ∨ x + tr_x_offset r < tr_shape_x r) →
  (gc_check_col_bounds g ident = true ∨ y + tr_y_offset r < tr_shape_y r) →
  load_coalesced g r (x, y) ident =
    Ret (line_of_view r (gc_matrix_layout g ident) line (x + tr_x_offset r) (y + tr_y_offset r)).
Proof.
  intros V Hline Wx Wy Hal Cx Cy. unfold load_coalesced. cbn [fst snd]. rewrite Hline, (wadd_small x), (wadd_small y) by done.
  set (X := x + tr_x_offset r) in *. set (Y := y + tr_y_offset r) in *. set (lay := gc_matrix_layout g ident) in *.
  assert (∀ m : bool, (m = true ↔ X < tr_shape_x r ∧ Y < tr_shape_y r) →
    read_masked m (tr_tensor r) (read_position r X Y line) (replicate (N.to_nat (t_line_size (tr_tensor r))) ei_zero) =
      Ret (line_of_view r lay line X Y)) as Hm.
  { intros [] Hm; unfold read_masked.
    - destruct Hm as [Hm _]. destruct (Hm eq_refl) as [HX HY].
      pose proof (read_position_ok r lay line X Y V Hal HX HY) as Hp. pose proof (vo_inside _ _ _ V X Y HX HY) as Hin.
      pose proof (vo_pos _ _ _ V) as Hl0. destruct (vo_size _ _ _ V) as [_ Hsz].
      rewrite wmul_small by nia. rewrite N.mul_1_r, (read_line_view r lay) by done. done.
    - rewrite wmul_small by (unfold two32; lia). rewrite N.mul_0_r. unfold tensor_read. rewrite (vo_line _ _ _ V).
      destruct (read_unchecked_ok line (t_data (tr_tensor r)) 0) as (l & -> & _); [destruct (vo_size _ _ _ V); lia|].
      cbn [obind]. f_equal. rewrite <- (vo_line _ _ _ V) at 1. apply outside_view; [done|done|]. intros H. by apply Hm in H. }
  destruct (gc_check_row_bounds g ident) eqn:Hr, (gc_check_col_bounds g ident) eqn:Hc.
  - apply Hm. rewrite andb_true_iff, !N.ltb_lt. done.
  - apply Hm. rewrite N.ltb_lt. destruct Cy; [done|]. tauto.
  - apply Hm. rewrite N.ltb_lt. destruct Cx; [done|]. tauto.
  - destruct Cx, Cy; try done. by apply read_line_view.
Qed.
End View.
