(* ===== verification/StageLoad.v ===== *)
(** * Loading a stage

    Model of the synchronous strategies that load a full stage, [global/load/
    strategy/sync_full_{cyclic,tilewise,ordered,strided}.rs], and of the loader
    that runs them, [global/load/loader/sync_full_loader.rs] of
    [crates/cubecl-matmul/src/components].

    A unit is its position in a cube of one row per plane.  A loading task
    reads global memory and writes at most one line of the stage; the tasks of
    a job are listed, and the stage of a cube after the loading phase is the
    effect of the tasks of all units in some order. *)

From S2P Require Import Prelude DeviceNum Tiling GlobalOrder SmAllocation Hypercube StageLayout MatmulConfig GlobalMemory.

Open Scope N_scope.
Open Scope rust_scope.

Record UnitPos := mkUnit { unit_x : N; unit_y : N }.

(** ** Strategies *)

Inductive SyncFullLoading :=
| SyncFullCyclic (TO : TilingOrder)
| SyncFullTilewise (TO : TilingOrder)
| SyncFullOrdered
| SyncFullStrided.

Definition loading_layout (L : SyncFullLoading) : TilingLayout :=
  match L with
  | SyncFullCyclic TO | SyncFullTilewise TO => ContiguousTilingLayout TO
  | SyncFullOrdered => ContiguousTilingLayout OrderedTilingOrder
  | SyncFullStrided => StridedTilingLayout
  end.

(** *** Validation *)

Definition too_many_data : MatmulSetupError := InvalidConfig "Too many data will be loaded, resulting in out of bounds.".

(** The number of lines of the stage is a multiple of the number of units. *)
Definition check_balanced (config : GlobalConfig) (ident : MatmulIdent) : outcome (unit + MatmulSetupError) :=
  let line_size := gc_global_line_size config ident in
  let? elements := elements_in_stage (gc_tiling_scheme config) (into_stage ident) in
  let? num_stage_lines := checked_div elements line_size in
  let? total_units := checked_mul u32_max (gc_num_loading_planes config ident) (gc_plane_dim config) in
  let? r := checked_rem num_stage_lines total_units in
  reject (negb (r =? 0)) too_many_data.

Definition cyclic_check (config : GlobalConfig) (ident : MatmulIdent) : outcome (unit + MatmulSetupError) :=
  match gc_loader_mode config with
  | Strict => check_balanced config ident
  | Relaxed => Ret (inl tt)
  end.

Definition tilewise_check (config : GlobalConfig) (ident : MatmulIdent) : outcome (unit + MatmulSetupError) :=
  let line_size := gc_global_line_size config ident in
  let num_planes := gc_num_loading_planes config ident in
  let? num_tiles := tiles_in_stage (gc_tiling_scheme config) (into_stage ident) in
  let? r := checked_rem num_tiles num_planes in
  ok! _ := reject (negb (r =? 0)) (InvalidConfig "Number of planes must divide number of tiles for tilewise loading.") in
  let? num_tiles_per_plane := checked_div num_tiles num_planes in
  let? elements := elements_in_tile (gc_tiling_scheme config) (into_stage ident) in
  let? num_lines_per_tile := checked_div elements line_size in
  let? num_lines_per_plane := checked_mul u32_max num_lines_per_tile num_tiles_per_plane in
  let? r := checked_rem num_lines_per_plane (gc_plane_dim config) in
  reject (negb (r =? 0)) (InvalidConfig "Plane dimension must divide number of lines per plane for tilewise loading.").

Definition ordered_check (config : GlobalConfig) (ident : MatmulIdent) : outcome (unit + MatmulSetupError) :=
  ok! _ := reject (bool_decide (ident ≠ IdentLhs)) (InvalidConfig "Ordered loading only available on Lhs") in
  let line_size := gc_global_line_size config ident in
  let num_planes := gc_num_loading_planes config ident in
  let? num_tiles := tiles_in_stage (gc_tiling_scheme config) (into_stage ident) in
  let? r := checked_rem num_tiles num_planes in
  ok! _ := reject (negb (r =? 0)) (InvalidConfig "Number of planes must divide number of tiles for ordered loading.") in
  let? num_tiles_per_plane := checked_div num_tiles num_planes in
  let? elements := elements_in_tile (gc_tiling_scheme config) (into_stage ident) in
  let? num_lines_per_tile := checked_div elements line_size in
  let? num_lines_per_plane := checked_mul u32_max num_lines_per_tile num_tiles_per_plane in
  let? rows := tiles_in_stage_row (gc_tiling_scheme config) (into_stage ident) in
  let? rows_per_plane := checked_div rows num_planes in
  let? r := checked_rem num_lines_per_plane (gc_plane_dim config) in
  ok! _ := reject (negb (r =? 0)) (InvalidConfig "Plane dimension must divide number of lines per plane for ordered loading.") in
  let? tile_count_col := tiles_in_stage_col (gc_tiling_scheme config) (into_stage ident) in
  let? expected := checked_mul u32_max rows_per_plane tile_count_col in
  reject (negb (num_tiles_per_plane =? expected)) (InvalidConfig "Number of tiles per plane must equal rows_per_plane times cols for ordered loading.").

Definition loading_check (L : SyncFullLoading) (config : GlobalConfig) (ident : MatmulIdent) :
    outcome (unit + MatmulSetupError) :=
  match L with
  | SyncFullCyclic _ => cyclic_check config ident
  | SyncFullTilewise _ => tilewise_check config ident
  | SyncFullOrdered => ordered_check config ident
  | SyncFullStrided => check_balanced config ident
  end.

(** *** Maximal number of planes *)

Definition cyclic_max_round_plane_count (ts : TilingScheme) (ident : MatmulIdent) (line_size plane_dim : N) : outcome N :=
  let? elements := elements_in_stage ts (into_stage ident) in
  let? num_lines := checked_div elements line_size in
  div_ceil num_lines plane_dim.
Definition max_round_plane_count (L : SyncFullLoading) (ts : TilingScheme) (ident : MatmulIdent) (line_size plane_dim : N) :
    outcome N :=
  match L with
  | SyncFullCyclic _ | SyncFullStrided => cyclic_max_round_plane_count ts ident line_size plane_dim
  | SyncFullTilewise _ | SyncFullOrdered => tiles_in_stage ts (into_stage ident)
  end.
Definition MaxLoaderPlanes_new (LL RL : SyncFullLoading) (ts : TilingScheme) (line_sizes : MatmulLineSizes) (plane_dim : N) :
    outcome MaxLoaderPlanes :=
  let? lhs := max_round_plane_count LL ts IdentLhs (mls_lhs line_sizes) plane_dim in
  let? rhs := max_round_plane_count RL ts IdentRhs (mls_rhs line_sizes) plane_dim in
  Ret {| mlp_lhs := lhs; mlp_rhs := rhs |}.

(** ** Jobs *)

Record CyclicJob := {
  cj_unit_position_base : N;
  cj_num_tasks_per_unit : N;
  cj_tile_num_elements : N;
  cj_jump_length : N;
  cj_line_size : N;
  cj_ident : MatmulIdent;
  cj_balanced_workload : bool;
  cj_num_stage_elements : N;
  cj_loader_mode : LoaderMode;
}.
Record TilewiseJob := {
  tj_num_tiles_to_skip : N;
  tj_num_lines_to_skip : N;
  tj_num_lines_per_tile : N;
  tj_num_lines_per_unit : N;
  tj_plane_dim : N;
  tj_line_size : N;
  tj_ident : MatmulIdent;
}.
Record StridedJob := {
  sj_unit_position_base : N;
  sj_num_tasks_per_unit : N;
  sj_unit_count : N;
  sj_line_size : N;
  sj_ident : MatmulIdent;
}.

Definition unit_load_index (config : GlobalConfig) (ident : MatmulIdent) (u : UnitPos) : N :=
  load_index (gc_role_rule_config config) ident (gc_specialized_loading_sides config) (unit_y u).

Definition cyclic_new_job (ident : MatmulIdent) (config : GlobalConfig) (u : UnitPos) : outcome CyclicJob :=
  let? tile_num_elements := elements_in_tile (gc_tiling_scheme config) (into_stage ident) in
  let line_size := gc_global_line_size config ident in
  let? num_stage_elements := elements_in_stage (gc_tiling_scheme config) (into_stage ident) in
  let? num_stage_lines := div_ceil num_stage_elements line_size in
  let? total_units := checked_mul u32_max (gc_num_loading_planes config ident) (gc_plane_dim config) in
  let? num_tasks_per_unit := div_ceil num_stage_lines total_units in
  let? r := checked_rem num_stage_lines total_units in
  let? jump_length := checked_mul u32_max total_units line_size in
  let unit_id := wadd (wmul (unit_load_index config ident u) (gc_plane_dim config)) (unit_x u) in
  Ret {| cj_unit_position_base := wmul unit_id line_size; cj_num_tasks_per_unit := num_tasks_per_unit;
         cj_tile_num_elements := tile_num_elements; cj_jump_length := jump_length; cj_line_size := line_size;
         cj_ident := ident; cj_balanced_workload := r =? 0; cj_num_stage_elements := num_stage_elements;
         cj_loader_mode := gc_loader_mode config |}.

(** The job of the tilewise and of the ordered strategy. *)
Definition tilewise_new_job (ident : MatmulIdent) (config : GlobalConfig) (u : UnitPos) : outcome TilewiseJob :=
  let line_size := gc_global_line_size config ident in
  let num_planes := gc_num_loading_planes config ident in
  let? num_tiles := tiles_in_stage (gc_tiling_scheme config) (into_stage ident) in
  let plane_dim := gc_plane_dim config in
  let? num_tiles_per_plane := checked_div num_tiles num_planes in
  let? elements := elements_in_tile (gc_tiling_scheme config) (into_stage ident) in
  let? num_lines_per_tile := checked_div elements line_size in
  let? num_lines_per_plane := checked_mul u32_max num_lines_per_tile num_tiles_per_plane in
  let? num_lines_per_unit := checked_div num_lines_per_plane plane_dim in
  let num_tiles_to_skip := wmul (unit_load_index config ident u) num_tiles_per_plane in
  let num_lines_to_skip := wmul num_tiles_to_skip num_lines_per_tile in
  Ret {| tj_num_tiles_to_skip := num_tiles_to_skip; tj_num_lines_to_skip := num_lines_to_skip;
         tj_num_lines_per_tile := num_lines_per_tile; tj_num_lines_per_unit := num_lines_per_unit;
         tj_plane_dim := plane_dim; tj_line_size := line_size; tj_ident := ident |}.

Definition strided_new_job (ident : MatmulIdent) (config : GlobalConfig) (u : UnitPos) : outcome StridedJob :=
  let line_size := gc_global_line_size config ident in
  let? elements := elements_in_stage (gc_tiling_scheme config) (into_stage ident) in
  let? num_stage_lines := checked_div elements line_size in
  let? unit_count := checked_mul u32_max (gc_num_loading_planes config ident) (gc_plane_dim config) in
  let? num_tasks_per_unit := checked_div num_stage_lines unit_count in
  Ret {| sj_unit_position_base := wadd (wmul (unit_load_index config ident u) (gc_plane_dim config)) (unit_x u);
         sj_num_tasks_per_unit := num_tasks_per_unit; sj_unit_count := unit_count; sj_line_size := line_size;
         sj_ident := ident |}.

Inductive Job := JCyclic (TO : TilingOrder) (job : CyclicJob) | JTilewise (TO : TilingOrder) (job : TilewiseJob) | JStrided (job : StridedJob).

Definition new_job (L : SyncFullLoading) (ident : MatmulIdent) (config : GlobalConfig) (u : UnitPos) : outcome Job :=
  match L with
  | SyncFullCyclic TO => let? j := cyclic_new_job ident config u in Ret (JCyclic TO j)
  | SyncFullTilewise TO => let? j := tilewise_new_job ident config u in Ret (JTilewise TO j)
  | SyncFullOrdered => let? j := tilewise_new_job ident config u in Ret (JTilewise OrderedTilingOrder j)
  | SyncFullStrided => let? j := strided_new_job ident config u in Ret (JStrided j)
  end.
Definition task_count (j : Job) : N :=
  match j with
  | JCyclic _ j => cj_num_tasks_per_unit j
  | JTilewise _ j => tj_num_lines_per_unit j
  | JStrided j => sj_num_tasks_per_unit j
  end.

Section Tasks.
Context {MP : MatmulPrecision}.

(** The line of the stage that a task writes, with its index. *)
Abbreviation Writes := (outcome (list (N * list ES))).

Definition cyclic_load_and_store_line (TO : TilingOrder) (job : CyclicJob) (unit_position : N) (reader : TensorReader)
    (quantization : option Quantization) (config : GlobalConfig) : Writes :=
  let nth_tile := unit_position / cj_tile_num_elements job in
  let pos_within_tile := unit_position mod cj_tile_num_elements job in
  let? '(tile_x, tile_y) := to_x_y TO nth_tile (into_stage (cj_ident job)) (gc_stage_memory_config config) in
  let? line_read := load_coalesced_in_tile config reader tile_x tile_y pos_within_tile (cj_ident job) in
  let? line := stage_line quantization line_read (cj_ident job) in
  Ret [(unit_position / cj_line_size job, line)].

Definition cyclic_execute_task (TO : TilingOrder) (job : CyclicJob) (task_id : N) (reader : TensorReader)
    (quantization : option Quantization) (config : GlobalConfig) : Writes :=
  let unit_position := wadd (cj_unit_position_base job) (wmul task_id (cj_jump_length job)) in
  if (match cj_loader_mode job with Strict => true | Relaxed => false end) || cj_balanced_workload job then
    cyclic_load_and_store_line TO job unit_position reader quantization config
  else if unit_position <? cj_num_stage_elements job then
    cyclic_load_and_store_line TO job unit_position reader quantization config
  else Ret [].

Definition tilewise_load_and_store_line (job : TilewiseJob) (tile : N * N) (line_index_within_tile num_lines_to_skip_local : N)
    (reader : TensorReader) (quantization : option Quantization) (config : GlobalConfig) : Writes :=
  let? line_read :=
    load_coalesced_in_tile config reader tile.1 tile.2 (wmul line_index_within_tile (tj_line_size job)) (tj_ident job) in
  let offset := wadd (wadd (tj_num_lines_to_skip job) line_index_within_tile) num_lines_to_skip_local in
  let? line := stage_line quantization line_read (tj_ident job) in
  Ret [(offset, line)].

Definition tilewise_execute_task (TO : TilingOrder) (job : TilewiseJob) (task_id : N) (u : UnitPos) (reader : TensorReader)
    (quantization : option Quantization) (config : GlobalConfig) : Writes :=
  let pos_across_tiles := wadd (wmul task_id (tj_plane_dim job)) (unit_x u) in
  let nth_tile_for_this_plane := pos_across_tiles / tj_num_lines_per_tile job in
  let line_index_within_tile := pos_across_tiles mod tj_num_lines_per_tile job in
  let nth_tile_global := wadd nth_tile_for_this_plane (tj_num_tiles_to_skip job) in
  let? tile := to_x_y TO nth_tile_global (into_stage (tj_ident job)) (gc_stage_memory_config config) in
  tilewise_load_and_store_line job tile line_index_within_tile
    (wmul nth_tile_for_this_plane (tj_num_lines_per_tile job)) reader quantization config.

Definition strided_execute_task (job : StridedJob) (task_id : N) (reader : TensorReader)
    (quantization : option Quantization) (config : GlobalConfig) : Writes :=
  let unit_position := wadd (sj_unit_position_base job) (wmul task_id (sj_unit_count job)) in
  let? line_read := load_coalesced_in_stage config reader (wmul unit_position (sj_line_size job)) (sj_ident job) in
  let? line := stage_line quantization line_read (sj_ident job) in
  Ret [(unit_position, line)].

Definition execute_task (j : Job) (task_id : N) (u : UnitPos) (reader : TensorReader)
    (quantization : option Quantization) (config : GlobalConfig) : Writes :=
  match j with
  | JCyclic TO j => cyclic_execute_task TO j task_id reader quantization config
  | JTilewise TO j => tilewise_execute_task TO j task_id u reader quantization config
  | JStrided j => strided_execute_task j task_id reader quantization config
  end.

(** ** The loader *)

Record SyncFullLoader := mkLoader {
  ld_tensor_reader : TensorReader;
  ld_loading_job : option Job;
  ld_quantization : option Quantization;
  ld_ident : MatmulIdent;
  ld_loading : SyncFullLoading;
}.

(** The loader of a unit.  Its stage memory is shared by the cube and kept
    apart; [StageMemory_new] gives its size. *)
Definition SyncFullLoader_new (L : SyncFullLoading) (tensor : Tensor EI) (x_offset y_offset batch_offset : N)
    (quantization : option Quantization) (ident : MatmulIdent) (config : GlobalConfig) (u : UnitPos) :
    outcome SyncFullLoader :=
  let? tensor_reader := TensorReader_new tensor x_offset y_offset batch_offset in
  let? loading_job :=
    if gc_precompute_job config then let? j := new_job L ident config u in Ret (Some j) else Ret None in
  Ret (mkLoader tensor_reader loading_job quantization ident L).

Definition advance_view (l : SyncFullLoader) (k_offset : N) : outcome SyncFullLoader :=
  let? r := update_view (ld_tensor_reader l) k_offset (ld_ident l) in
  Ret (mkLoader r (ld_loading_job l) (ld_quantization l) (ld_ident l) (ld_loading l)).

(** The tasks [from], ..., [from + n - 1]. *)
Fixpoint run_tasks (j : Job) (n : nat) (task_id : N) (u : UnitPos) (reader : TensorReader)
    (quantization : option Quantization) (config : GlobalConfig) : Writes :=
  match n with
  | O => Ret []
  | S n =>
      let? ws := execute_task j task_id u reader quantization config in
      let? rest := run_tasks j n (task_id + 1) u reader quantization config in
      Ret (ws ++ rest)
  end.

Definition fill_stage (l : SyncFullLoader) (config : GlobalConfig) (u : UnitPos) : Writes :=
  let? loading_job :=
    match ld_loading_job l with
    | Some j => Ret j
    | None => new_job (ld_loading l) (ld_ident l) config u
    end in
  run_tasks loading_job (N.to_nat (task_count loading_job)) 0 u (ld_tensor_reader l) (ld_quantization l) config.
End Tasks.
