(* ===== verification/StageLoadProps.v ===== *)
(** * The loading phase fills the stage

    Proofs about [StageLoad.v]: whatever the strategy, the tasks of the units
    of a cube together write every line of the stage, and every write of a line
    carries the line of the viewed matrix that [get_tile] and [get_line] expect
    there.  The writes of different units may interleave in any way. *)

From S2P Require Import Prelude DeviceNum Tiling Hypercube StageLayout MatmulConfig GlobalMemory StageLoad.

Open Scope N_scope.
Open Scope rust_scope.

(** ** Counts *)

Lemma count_2d_ok ts child parent d1 d2 x y :
  scheme_wf ts → parent ≠ GlobalPartition →
  count_spec ts child parent d1 = Some x → count_spec ts child parent d2 = Some y → x * y ≤ u32_max →
  count_2d ts child parent d1 d2 = Ret (x * y).
Proof.
  intros Hwf Hp Hx Hy Hmax. unfold count_2d, try_count_2d.
  rewrite (some_product_ok _ _ x y); [done| | |done]; by rewrite try_count_inner, ?Hx, ?Hy.
Qed.

Lemma count_2d_ident_ok ts child parent ident x y :
  scheme_wf ts → parent ≠ GlobalPartition →
  count_spec ts child parent (row_dim ident) = Some x → count_spec ts child parent (col_dim ident) = Some y →
  x * y ≤ u32_max → count_2d_ident ts child parent ident = Ret (x * y).
Proof. destruct ident; cbn [row_dim col_dim count_2d_ident]; apply count_2d_ok. Qed.

Lemma quot_lt d n q r : q * d + r < n * d → q < n.
Proof. intros H. apply (N.mul_lt_mono_pos_r d); nia. Qed.

(** The line size divides the lengths along the contiguous dimension. *)
Definition row_elems (layout : MatrixLayout) (line a : N) : N :=
  match layout with LayoutRowMajor => a | LayoutColMajor => a * line end.
Definition col_elems (layout : MatrixLayout) (line b : N) : N :=
  match layout with LayoutRowMajor => b * line | LayoutColMajor => b end.

(** ** The line of the matrix that belongs to a coordinate of the stage *)

(** The coordinates in the view of the first element of a line. *)
Definition coord_x (layout : MatrixLayout) (line a : N) (c : LineCoord) : N :=
  match layout with
  | LayoutRowMajor => lc_row c * a + lc_strided c
  | LayoutColMajor => lc_row c * (a * line) + lc_contiguous c * line
  end.
Definition coord_y (layout : MatrixLayout) (line b : N) (c : LineCoord) : N :=
  match layout with
  | LayoutRowMajor => lc_col c * (b * line) + lc_contiguous c * line
  | LayoutColMajor => lc_col c * b + lc_strided c
  end.

Section Value.
Context {MP : MatmulPrecision}.

(** The conversion of one element. *)
Definition stage_value (q : option Quantization) (ident : MatmulIdent) (v : EI) : ES :=
  match q, ident with
  | Some q, IdentLhs => es_mul (scaling_lhs q) (es_of_ei v)
  | Some q, _ => es_mul (scaling_rhs q) (es_of_ei v)
  | None, _ => es_of_ei v
  end.

Lemma stage_line_ok q ident line : ident ≠ IdentOut → stage_line q line ident = Ret (stage_value q ident <$> line).
Proof. intros Hi. by destruct q, ident. Qed.

(** The line that the stage holds at a coordinate. *)
Definition coord_line (r : TensorReader) (q : option Quantization) (ident : MatmulIdent) (layout : MatrixLayout)
    (line a b : N) (c : LineCoord) : list ES :=
  stage_value q ident <$>
    line_of_view r layout line (coord_x layout line a c + tr_x_offset r) (coord_y layout line b c + tr_y_offset r).
End Value.

(** ** Hypotheses on a configuration and a reader *)

(** The configuration of the global level agrees with the one of the stage,
    which has a single buffer. *)
Record global_ok (g : GlobalConfig) (ident : MatmulIdent) (a b len : N) : Prop := {
  go_ident : ident ≠ IdentOut;
  go_config : config_ok (gc_stage_memory_config g) (into_stage ident) a b;
  go_stages : smc_num_stages (gc_stage_memory_config g) (into_stage ident) = 1;
  go_scheme : gc_tiling_scheme g = smc_tiling_scheme (gc_stage_memory_config g);
  go_layout : gc_matrix_layout g ident = smc_matrix_layout (gc_stage_memory_config g) (into_stage ident);
  go_line : gc_global_line_size g ident = smc_stage_line_size (gc_stage_memory_config g) (into_stage ident);
  go_alloc : StageMemory_new 1 (into_stage ident) (gc_stage_memory_config g) = Ret len;
  go_nonempty : 0 < len;
  go_units : 0 < gc_num_loading_planes g ident ∧ 0 < gc_plane_dim g;
  go_fits : (len + gc_num_loading_planes g ident * gc_plane_dim g) * gc_global_line_size g ident < two32;
}.

Definition stage_rows (g : GlobalConfig) (ident : MatmulIdent) : N :=
  tiles_along (gc_tiling_scheme g) (row_dim (into_stage ident)) * size_get (tile_size (gc_tiling_scheme g)) (row_dim (into_stage ident)).
Definition stage_cols (g : GlobalConfig) (ident : MatmulIdent) : N :=
  tiles_along (gc_tiling_scheme g) (col_dim (into_stage ident)) * size_get (tile_size (gc_tiling_scheme g)) (col_dim (into_stage ident)).

(** The part of the matrix that the stage takes from the reader is inside the
    matrix where no check is made. *)
Record window_ok {MP : MatmulPrecision} (g : GlobalConfig) (ident : MatmulIdent) (r : TensorReader) : Prop := {
  wo_view : view_ok r (gc_matrix_layout g ident) (gc_global_line_size g ident);
  wo_x_fits : tr_x_offset r + stage_rows g ident < two32;
  wo_y_fits : tr_y_offset r + stage_cols g ident < two32;
  wo_aligned : (gc_global_line_size g ident | match gc_matrix_layout g ident with
                                              | LayoutRowMajor => tr_y_offset r
                                              | LayoutColMajor => tr_x_offset r
                                              end);
  wo_rows : gc_check_row_bounds g ident = true ∨ tr_x_offset r + stage_rows g ident ≤ tr_shape_x r;
  wo_cols : gc_check_col_bounds g ident = true ∨ tr_y_offset r + stage_cols g ident ≤ tr_shape_y r;
}.

Section Load.
Context {MP : MatmulPrecision} (g : GlobalConfig) (ident : MatmulIdent) (a b len : N) (r : TensorReader).
Context (G : global_ok g ident a b len) (W : window_ok g ident r).
Abbreviation sid := (into_stage ident).
Abbreviation config := (gc_stage_memory_config g).
Abbreviation ts := (gc_tiling_scheme g).
Abbreviation layout := (gc_matrix_layout g ident).
Abbreviation line := (gc_global_line_size g ident).
Abbreviation R := (tiles_along ts (row_dim sid)).
Abbreviation C := (tiles_along ts (col_dim sid)).

Lemma scheme_ok : scheme_wf ts.
Proof using G. rewrite (go_scheme _ _ _ _ _ G). apply (go_config _ _ _ _ _ G). Qed.
Lemma line_pos : 0 < line.
Proof using G. rewrite (go_line _ _ _ _ _ G). apply (go_config _ _ _ _ _ G). Qed.

Lemma tile_dims :
  size_get (tile_size ts) (row_dim sid) = row_elems layout line a ∧
  size_get (tile_size ts) (col_dim sid) = col_elems layout line b.
Proof using G.
  destruct (go_config _ _ _ _ _ G) as (_ & _ & _ & _ & _ & _ & Hd). rewrite (go_scheme _ _ _ _ _ G), (go_layout _ _ _ _ _ G), (go_line _ _ _ _ _ G).
  unfold row_elems, col_elems. by destruct (smc_matrix_layout _ _).
Qed.

(** The size of the stage in lines. *)
Lemma stage_len : len = R * C * (a * b) ∧ R * C * (a * b) * line < two32.
Proof using G.
  destruct (allocated_lines config sid a b (go_config _ _ _ _ _ G) _ _ (go_alloc _ _ _ _ _ G)) as [Hl _].
  rewrite <- (go_scheme _ _ _ _ _ G) in Hl. pose proof (go_fits _ _ _ _ _ G). split; [lia|nia].
Qed.

Lemma stage_elements : elements_in_stage ts sid = Ret (len * line).
Proof using G.
  destruct tile_dims as [E1 E2]. destruct stage_len as [Hl Hfit]. unfold elements_in_stage.
  assert (len * line = R * size_get (tile_size ts) (row_dim sid) * (C * size_get (tile_size ts) (col_dim sid))) as Heq.
  { rewrite E1, E2, Hl. unfold row_elems, col_elems. destruct layout; lia. }
  rewrite Heq. apply count_2d_ident_ok; try done; [apply scheme_ok|apply spec_elements..|].
  rewrite <- Heq, Hl. unfold two32, u32_max in *. lia.
Qed.

Lemma dims_pos p : p < len → 0 < R ∧ 0 < C ∧ 0 < a ∧ 0 < b.
Proof using G. destruct stage_len as [-> _]. intros Hp. nia. Qed.

Lemma tile_elements p : p < len → elements_in_tile ts sid = Ret (a * b * line).
Proof using G.
  intros Hp. destruct (dims_pos p Hp) as (HR & HC & _). destruct tile_dims as [E1 E2]. destruct stage_len as [Hl Hfit].
  assert (a * b * line = size_get (tile_size ts) (row_dim sid) * size_get (tile_size ts) (col_dim sid)) as Heq.
  { rewrite E1, E2. unfold row_elems, col_elems. destruct layout; lia. }
  rewrite Heq. apply count_2d_ident_ok; try done; [apply scheme_ok|apply spec_tile..|].
  rewrite <- Heq. unfold two32, u32_max in *. assert (1 * (a * b * line) ≤ R * C * (a * b * line)) by (apply N.mul_le_mono_r; nia). lia.
Qed.

Lemma stage_tiles p : p < len → tiles_in_stage ts sid = Ret (R * C).
Proof using G.
  intros Hp. destruct (dims_pos p Hp) as (_ & _ & Ha & Hb). destruct stage_len as [Hl Hfit]. pose proof line_pos.
  apply count_2d_ident_ok; try done; [apply scheme_ok|apply spec_tiles..|].
  unfold two32, u32_max in *. assert (R * C * 1 ≤ R * C * (a * b * line)) by (apply N.mul_le_mono_l; nia). lia.
Qed.

(** *** Reading the line of a coordinate *)

Abbreviation mk row col cs cc := {| lc_buf := 0; lc_row := row; lc_col := col; lc_strided := cs; lc_contiguous := cc |}.

Lemma coord_ok_mk row col cs cc :
  row < R → col < C → cs < outer_len layout a b → cc < inner_len layout a b → coord_ok config sid a b (mk row col cs cc).
Proof using G.
  rewrite (go_layout _ _ _ _ _ G), (go_scheme _ _ _ _ _ G). intros. unfold coord_ok. rewrite (go_stages _ _ _ _ _ G). done.
Qed.

Lemma coord_ok_inv c :
  coord_ok config sid a b c →
  lc_row c < R ∧ lc_col c < C ∧ lc_strided c < outer_len layout a b ∧ lc_contiguous c < inner_len layout a b.
Proof using G. rewrite (go_layout _ _ _ _ _ G), (go_scheme _ _ _ _ _ G). by intros (_ & ? & ? & ? & ?). Qed.

Lemma coord_bounds c :
  coord_ok config sid a b c → coord_x layout line a c < stage_rows g ident ∧ coord_y layout line b c < stage_cols g ident.
Proof using G.
  intros (Hr & Hc & Hcs & Hcc)%coord_ok_inv. destruct tile_dims as [E1 E2]. pose proof line_pos as Hl.
  unfold stage_rows, stage_cols. rewrite E1, E2. unfold coord_x, coord_y, row_elems, col_elems, outer_len, inner_len in *.
  clear E1 E2. destruct layout; split; apply radix_lt; try done; by apply N.mul_lt_mono_pos_r.
Qed.

Lemma coord_read c x y :
  coord_ok config sid a b c → x = coord_x layout line a c → y = coord_y layout line b c →
  load_coalesced g r (x, y) ident =
    Ret (line_of_view r layout line (coord_x layout line a c + tr_x_offset r) (coord_y layout line b c + tr_y_offset r)).
Proof using G W.
  intros Hc -> ->. destruct (coord_bounds c Hc) as [Bx By].
  pose proof (wo_x_fits _ _ _ W). pose proof (wo_y_fits _ _ _ W). apply load_coalesced_ok; [apply W|done|lia|lia| | |].
  - pose proof (wo_aligned _ _ _ W) as Hal. unfold coord_x, coord_y. destruct layout;
      (apply N.divide_add_r; [|done]); rewrite ?N.mul_assoc; (apply N.divide_add_r; apply N.divide_factor_r).
  - destruct (wo_rows _ _ _ W); [by left|right; lia].
  - destruct (wo_cols _ _ _ W); [by left|right; lia].
Qed.

(** Sizes that a device value never exceeds. *)
Lemma window_small : stage_rows g ident < two32 ∧ stage_cols g ident < two32.
Proof using W. pose proof (wo_x_fits _ _ _ W). pose proof (wo_y_fits _ _ _ W). lia. Qed.

(** A position inside a tile. *)
Lemma load_in_tile_ok row col cs cc :
  row < R → col < C → cs < outer_len layout a b → cc < inner_len layout a b →
  load_coalesced_in_tile g r row col ((cs * inner_len layout a b + cc) * line) ident =
    Ret (line_of_view r layout line (coord_x layout line a (mk row col cs cc) + tr_x_offset r)
           (coord_y layout line b (mk row col cs cc) + tr_y_offset r)).
Proof using G W.
  intros Hr Hc Hcs Hcc. pose proof (coord_ok_mk _ _ _ _ Hr Hc Hcs Hcc) as Hok.
  destruct (coord_bounds _ Hok) as [Bx By]. destruct window_small as [Wx Wy]. destruct tile_dims as [E1 E2].
  pose proof line_pos as Hl. unfold load_coalesced_in_tile.
  rewrite tile_row_ok, tile_col_ok by apply scheme_ok. cbn [obind]. rewrite E1, E2.
  assert (row * row_elems layout line a ≤ coord_x layout line a (mk row col cs cc)) as Lx
    by (unfold coord_x, row_elems; cbn; destruct layout; lia).
  assert (col * col_elems layout line b ≤ coord_y layout line b (mk row col cs cc)) as Ly
    by (unfold coord_y, col_elems; cbn; destruct layout; lia).
  rewrite (wmul_small row), (wmul_small col) by lia.
  assert ((cs * inner_len layout a b + cc) * line = cs * (inner_len layout a b * line) + cc * line) as -> by lia.
  assert (cc * line < inner_len layout a b * line) as Hin by (by apply N.mul_lt_mono_pos_r).
  destruct (radix_div_mod (inner_len layout a b * line) cs (cc * line) Hin) as [D M].
  unfold coord_x, coord_y, inner_len, row_elems, col_elems in *. cbn [lc_row lc_col lc_strided lc_contiguous] in *.
  clear E1 E2 Hcs Hcc Hin. pose proof (coord_read _ (coord_x layout line a (mk row col cs cc)) (coord_y layout line b (mk row col cs cc)) Hok eq_refl eq_refl) as Hread.
  unfold coord_x, coord_y in Hread. cbn [lc_row lc_col lc_strided lc_contiguous] in Hread.
  destruct layout; rewrite D, M; rewrite !wadd_small by lia; rewrite (N.add_comm _ (row * _)), (N.add_comm _ (col * _)); exact Hread.
Qed.

(** A position inside the stage, for the strided layout. *)
Lemma load_in_stage_ok row col cs cc :
  row < R → col < C → cs < outer_len layout a b → cc < inner_len layout a b →
  load_coalesced_in_stage g r (strided_line layout a b R C row col cs cc * line) ident =
    Ret (line_of_view r layout line (coord_x layout line a (mk row col cs cc) + tr_x_offset r)
           (coord_y layout line b (mk row col cs cc) + tr_y_offset r)).
Proof using G W.
  intros Hr Hc Hcs Hcc. pose proof (coord_ok_mk _ _ _ _ Hr Hc Hcs Hcc) as Hok.
  pose proof (coord_bounds _ Hok) as [Bx By]. pose proof (coord_read _ _ _ Hok eq_refl eq_refl) as Hread.
  destruct tile_dims as [E1 E2]. pose proof line_pos as Hl. unfold load_coalesced_in_stage.
  assert (elements_in_stage_row ts sid = Ret (stage_rows g ident)) as ->.
  { unfold elements_in_stage_row, stage_rows, count_1d_ident_row. pose proof scheme_ok.
    destruct sid; apply count_inner; try done; apply spec_elements. }
  assert (elements_in_stage_col ts sid = Ret (stage_cols g ident)) as ->.
  { unfold elements_in_stage_col, stage_cols, count_1d_ident_col. pose proof scheme_ok.
    destruct sid; apply count_inner; try done; apply spec_elements. }
  cbn [obind]. unfold stage_rows, stage_cols in *. rewrite E1, E2 in *.
  unfold coord_x, coord_y, row_elems, col_elems, strided_line in *. cbn [lc_row lc_col lc_strided lc_contiguous] in *.
  clear E1 E2 Hcs Hcc. destruct layout.
  - assert ((((row * a + cs) * C + col) * b + cc) * line = (row * a + cs) * (C * (b * line)) + (col * (b * line) + cc * line)) as -> by lia.
    destruct (radix_div_mod _ (row * a + cs) _ By) as [-> ->]. done.
  - assert ((((col * b + cs) * R + row) * a + cc) * line = (col * b + cs) * (R * (a * line)) + (row * (a * line) + cc * line)) as -> by lia.
    destruct (radix_div_mod _ (col * b + cs) _ Bx) as [-> ->]. done.
Qed.

(** *** The coordinate of every line of the stage *)

Lemma strided_decode p :
  smc_num_stages config sid = 1 → p < len →
  ∃ c, coord_ok config sid a b c ∧ line_of StridedTilingLayout sid config c = Ret p ∧
    load_coalesced_in_stage g r (p * line) ident =
      Ret (line_of_view r layout line (coord_x layout line a c + tr_x_offset r) (coord_y layout line b c + tr_y_offset r)).
Proof using G W.
  intros Hs Hp. destruct (dims_pos p Hp) as (HR & HC & Ha & Hb). destruct stage_len as [Hlen _].
  assert (∃ row col cs cc, row < R ∧ col < C ∧ cs < outer_len layout a b ∧ cc < inner_len layout a b ∧
    p = strided_line layout a b R C row col cs cc) as (row & col & cs & cc & Hr & Hc & Hcs & Hcc & ->).
  { clear G W. unfold outer_len, inner_len, strided_line. destruct layout.
    - destruct (div_mod_ex p b Hb) as (q1 & cc & _ & _ & E1 & Hcc). destruct (div_mod_ex q1 C HC) as (q2 & col & _ & _ & E2 & Hc).
      destruct (div_mod_ex q2 a Ha) as (row & cs & _ & _ & E3 & Hcs). exists row, col, cs, cc. split_and!; [|done..|lia].
      apply (quot_lt a _ _ cs), (quot_lt C _ _ col), (quot_lt b _ _ cc). lia.
    - destruct (div_mod_ex p a Ha) as (q1 & cc & _ & _ & E1 & Hcc). destruct (div_mod_ex q1 R HR) as (q2 & row & _ & _ & E2 & Hr).
      destruct (div_mod_ex q2 b Hb) as (col & cs & _ & _ & E3 & Hcs). exists row, col, cs, cc. split_and!; [done| |done..|lia].
      apply (quot_lt b _ _ cs), (quot_lt R _ _ row), (quot_lt a _ _ cc). lia. }
  exists (mk row col cs cc). split; [by apply coord_ok_mk|]. split; [|by apply load_in_stage_ok].
  pose proof Hcs as Hcs'. pose proof Hcc as Hcc'. rewrite (go_layout _ _ _ _ _ G) in Hcs', Hcc'.
  destruct (strided_tile config sid a b len row col 0 cs cc R C) as (_ & t & Ht & Hline);
    [apply G|by rewrite (go_scheme _ _ _ _ _ G)..|done|rewrite Hs; apply G|done|done|done|done|].
  unfold line_of. cbn [StageMemory_get_tile lc_row lc_col lc_buf lc_strided lc_contiguous]. rewrite Ht. cbn [obind].
  by rewrite Hline, (go_layout _ _ _ _ _ G).
Qed.

Lemma total_rows_1 n : total_rows sid n 1 = n.
Proof. destruct sid; cbn; lia. Qed.
Lemma total_cols_1 n : total_cols sid n 1 = n.
Proof. destruct sid; cbn; lia. Qed.

Lemma contiguous_decode TO nth l :
  layout_usable (ContiguousTilingLayout TO) sid config → l < a * b → nth * (a * b) + l < len →
  ∃ c, coord_ok config sid a b c ∧ line_of (ContiguousTilingLayout TO) sid config c = Ret (nth * (a * b) + l) ∧
    to_x_y TO nth sid config = Ret (lc_row c, lc_col c) ∧
    load_coalesced_in_tile g r (lc_row c) (lc_col c) (l * line) ident =
      Ret (line_of_view r layout line (coord_x layout line a c + tr_x_offset r) (coord_y layout line b c + tr_y_offset r)).
Proof using G W.
  intros Huse Hl Hp. destruct (dims_pos _ Hp) as (HR & HC & Ha & Hb). destruct stage_len as [Hlen Hfit]. pose proof line_pos as Hl0.
  cbn [layout_usable] in Huse. rewrite (go_stages _ _ _ _ _ G), total_rows_1, <- (go_scheme _ _ _ _ _ G) in Huse.
  assert (R * C < two32) as Hrc.
  { assert (R * C * 1 ≤ R * C * (a * b * line)) by (apply N.mul_le_mono_l; nia). lia. }
  assert (nth < R * C) as Hnth by (apply (N.mul_lt_mono_pos_r (a * b)); lia).
  destruct (to_row_col_ok TO R C sid config nth Huse Hrc Hnth) as (row & col & Hto & Hr & Hc & Hback).
  assert (∃ cs cc, l = cs * inner_len layout a b + cc ∧ cs < outer_len layout a b ∧ cc < inner_len layout a b) as (cs & cc & -> & Hcs & Hcc).
  { assert (a * b = outer_len layout a b * inner_len layout a b) as E by (unfold outer_len, inner_len; destruct layout; lia).
    destruct (div_mod_ex l (inner_len layout a b)) as (cs & cc & _ & _ & El & Hcc); [unfold inner_len; destruct layout; lia|].
    exists cs, cc. split_and!; [done|nia|done]. }
  exists (mk row col cs cc). cbn [lc_row lc_col]. split; [by apply coord_ok_mk|]. split_and!; [| |by apply load_in_tile_ok].
  - pose proof Hcs as Hcs'. pose proof Hcc as Hcc'. rewrite (go_layout _ _ _ _ _ G) in Hcs', Hcc'.
    destruct (contiguous_tile TO config sid a b len R C 1 (go_config _ _ _ _ _ G)) with (buf := 0) (row := row) (col := col) (cs := cs) (cc := cc)
      as (t & nth' & Ht & Hlt & Hto' & Hline);
      try done;
      [by rewrite (go_scheme _ _ _ _ _ G)|by rewrite (go_scheme _ _ _ _ _ G)|by rewrite (go_stages _ _ _ _ _ G)
      |rewrite (go_stages _ _ _ _ _ G); apply G|by rewrite total_rows_1|].
    rewrite total_rows_1, total_cols_1 in Hlt, Hto'.
    destruct (to_row_col_ok TO R C sid config nth' Huse Hrc Hlt) as (row' & col' & Hto'' & _ & _ & Hback').
    rewrite Hto' in Hto''. injection Hto'' as <- <-.
    replace (buffer_row sid R 0 row) with row in Hback' by (destruct sid; cbn; lia).
    replace (buffer_col sid C 0 col) with col in Hback' by (destruct sid; cbn; lia).
    rewrite Hback in Hback'. injection Hback' as <-.
    unfold line_of. cbn [StageMemory_get_tile lc_row lc_col lc_buf lc_strided lc_contiguous]. rewrite Ht. cbn [obind].
    by rewrite Hline, (go_layout _ _ _ _ _ G).
  - unfold to_x_y. rewrite <- (go_scheme _ _ _ _ _ G), tiles_row_ok, tiles_col_ok by apply scheme_ok. done.
Qed.

(** *** The tasks of a unit *)

Abbreviation planes := (gc_num_loading_planes g ident).
Abbreviation pd := (gc_plane_dim g).
Context (q : option Quantization).

(** A write of line [p] of the stage with the line of the matrix that belongs
    there. *)
Definition stage_write (T : TilingLayout) (p : N) (w : N * list ES) : Prop :=
  ∃ c, coord_ok config sid a b c ∧ line_of T sid config c = Ret p ∧ w = (p, coord_line r q ident layout line a b c).

(** The line that a task of a unit writes, and the number of its tasks. *)
Definition task_position (L : SyncFullLoading) (i x t : N) : N :=
  match L with
  | SyncFullCyclic _ | SyncFullStrided => i * pd + x + t * (planes * pd)
  | SyncFullTilewise _ | SyncFullOrdered => i * (R * C / planes * (a * b)) + (t * pd + x)
  end.
Definition unit_tasks (L : SyncFullLoading) : N :=
  match L with
  | SyncFullCyclic _ => ceil_div len (planes * pd)
  | SyncFullStrided => len / (planes * pd)
  | SyncFullTilewise _ | SyncFullOrdered => a * b * (R * C / planes) / pd
  end.

(** A job does its part: every task writes the line of its position, or nothing
    when the position is past the stage. *)
Definition job_ok (L : SyncFullLoading) (u : UnitPos) (j : Job) : Prop :=
  task_count j = unit_tasks L ∧
  ∀ t, t < unit_tasks L →
    let p := task_position L (unit_load_index g ident u) (unit_x u) t in
    if p <? len then ∃ w, execute_task j t u r q g = Ret [w] ∧ stage_write (loading_layout L) p w
    else execute_task j t u r q g = Ret [].

Lemma total_ok : checked_mul u32_max planes pd = Ret (planes * pd) ∧ 0 < planes * pd ∧ planes * pd * line < two32.
Proof using G.
  pose proof (go_fits _ _ _ _ _ G) as Hf. destruct (go_units _ _ _ _ _ G) as [H1 H2]. pose proof line_pos as Hl.
  assert (planes * pd * 1 ≤ planes * pd * line) by (apply N.mul_le_mono_l; lia).
  split_and!; [apply checked_mul_ok; unfold two32, u32_max in *; lia|nia|lia].
Qed.

(** The flat index of a unit. *)
Lemma unit_id_ok i x : i < planes → x < pd → wadd (wmul i pd) x = i * pd + x ∧ i * pd + x < planes * pd.
Proof using G.
  intros Hi Hx. pose proof (radix_lt pd planes i x Hi Hx) as Hlt. destruct total_ok as (_ & _ & Hf). pose proof line_pos.
  assert (planes * pd * 1 ≤ planes * pd * line) by (apply N.mul_le_mono_l; lia).
  rewrite (wmul_small i), wadd_small by lia. done.
Qed.

Lemma write_coord c line_read :
  ident ≠ IdentOut →
  line_read = line_of_view r layout line (coord_x layout line a c + tr_x_offset r) (coord_y layout line b c + tr_y_offset r) →
  stage_line q line_read ident = Ret (coord_line r q ident layout line a b c).
Proof using. intros Hi ->. by apply stage_line_ok. Qed.

(** **** Cyclic *)

Lemma cyclic_store TO j p :
  layout_usable (ContiguousTilingLayout TO) sid config → p < len →
  cj_tile_num_elements j = a * b * line → cj_line_size j = line → cj_ident j = ident →
  ∃ w, cyclic_load_and_store_line TO j (p * line) r q g = Ret [w] ∧ stage_write (ContiguousTilingLayout TO) p w.
Proof using G W.
  intros Huse Hp Et El Ei. unfold cyclic_load_and_store_line. rewrite Et, El, Ei.
  destruct (dims_pos p Hp) as (_ & _ & Ha & Hb). pose proof line_pos as Hl0.
  destruct (div_mod_ex p (a * b)) as (nth & l & _ & _ & Ep & Hl); [nia|].
  assert (p * line = nth * (a * b * line) + l * line) as -> by (rewrite Ep; lia).
  destruct (radix_div_mod (a * b * line) nth (l * line)) as [-> ->]; [by apply N.mul_lt_mono_pos_r|].
  destruct (contiguous_decode TO nth l Huse Hl) as (c & Hc & Hline & Hxy & Hload); [lia|].
  rewrite Hxy. cbn [obind]. rewrite Hload. cbn [obind].
  rewrite (write_coord c _ (go_ident _ _ _ _ _ G) eq_refl). cbn [obind].
  assert (nth * (a * b * line) + l * line = p * line) as -> by (rewrite Ep; lia). rewrite N.div_mul by lia.
  eexists. split; [done|]. exists c. rewrite Ep. done.
Qed.

Lemma cyclic_ok TO u :
  layout_usable (ContiguousTilingLayout TO) sid config → cyclic_check g ident = Ret (inl tt) →
  unit_load_index g ident u < planes → unit_x u < pd →
  ∃ j, new_job (SyncFullCyclic TO) ident g u = Ret j ∧ job_ok (SyncFullCyclic TO) u j.
Proof using G W.
  intros Huse Hcheck Hi Hx. pose proof line_pos as Hl0. pose proof (go_nonempty _ _ _ _ _ G) as Hne. destruct total_ok as (Htot & Ht0 & Htl).
  destruct (unit_id_ok _ _ Hi Hx) as [Hid Hidlt]. pose proof (go_fits _ _ _ _ _ G) as Hfits.
  unfold new_job, cyclic_new_job. rewrite (tile_elements 0 Hne), stage_elements. cbn [obind]. rewrite div_ceil_ok by done.
  rewrite <- (ceil_div_unique (len * line) line len) by lia. cbn [obind]. rewrite Htot. cbn [obind].
  rewrite div_ceil_ok by done. cbn [obind]. rewrite checked_rem_ok by lia. cbn [obind].
  rewrite checked_mul_ok by (unfold two32, u32_max in *; lia). cbn [obind]. rewrite Hid.
  eexists. split; [done|]. split; [done|]. cbn [task_count unit_tasks task_position execute_task loading_layout].
  set (uid := unit_load_index g ident u * pd + unit_x u) in *. set (total := planes * pd) in *. intros t Ht.
  set (p := uid + t * total).
  destruct (ceil_div_spec len total Ht0) as [Hc1 Hc2].
  assert (t * total < len) as Htlen by (assert ((t + 1) * total ≤ ceil_div len total * total) by (apply N.mul_le_mono_r; lia); lia).
  unfold cyclic_execute_task. cbn [cj_unit_position_base cj_jump_length cj_loader_mode cj_balanced_workload cj_num_stage_elements].
  assert (uid * line + t * (total * line) = p * line) as Hpos by (unfold p; lia).
  assert (p * line < two32) as Hplt.
  { apply N.lt_trans with ((len + total) * line); [apply N.mul_lt_mono_pos_r; [done|unfold p; lia]|done]. }
  rewrite (wmul_small uid), (wmul_small t), wadd_small, Hpos by lia.
  set (jb := {| cj_unit_position_base := _ |}).
  assert (p < len → ∃ w, cyclic_load_and_store_line TO jb (p * line) r q g = Ret [w] ∧
    stage_write (ContiguousTilingLayout TO) p w) as Hstore by (intros; by apply cyclic_store).
  assert ((p * line <? len * line) = (p <? len)) as ->.
  { destruct (N.ltb_spec p len); [apply N.ltb_lt; by apply N.mul_lt_mono_pos_r|apply N.ltb_ge; by apply N.mul_le_mono_r]. }
  destruct (match gc_loader_mode g with Strict => true | Relaxed => false end || (len mod total =? 0)) eqn:Hb; [|by destruct (N.ltb_spec p len); auto].
  assert (len mod total = 0) as Hm.
  { unfold cyclic_check, check_balanced in Hcheck. destruct (gc_loader_mode g); [|by apply N.eqb_eq in Hb].
    rewrite stage_elements in Hcheck. cbn [obind] in Hcheck. rewrite checked_div_exact in Hcheck by done. cbn [obind] in Hcheck.
    rewrite Htot in Hcheck. cbn [obind] in Hcheck. rewrite checked_rem_ok in Hcheck by lia. cbn [obind] in Hcheck.
    unfold reject in Hcheck. destruct (N.eqb_spec (len mod total) 0); [done|by injection Hcheck]. }
  apply N.Div0.div_exact in Hm.
  assert (p < len) as Hp.
  { assert (ceil_div len total = len / total) as E by (symmetry; apply ceil_div_unique; lia).
    rewrite E in Ht. rewrite Hm. unfold p. rewrite (N.mul_comm total). rewrite N.add_comm. by apply radix_lt. }
  rewrite (proj2 (N.ltb_lt _ _) Hp). auto.
Qed.

(** **** Strided *)

Lemma strided_ok u :
  check_balanced g ident = Ret (inl tt) → unit_load_index g ident u < planes → unit_x u < pd →
  ∃ j, new_job SyncFullStrided ident g u = Ret j ∧ job_ok SyncFullStrided u j.
Proof using G W.
  intros Hcheck Hi Hx. pose proof line_pos as Hl0. destruct total_ok as (Htot & Ht0 & Htl).
  destruct (unit_id_ok _ _ Hi Hx) as [Hid Hidlt]. pose proof (go_fits _ _ _ _ _ G) as Hfits.
  unfold check_balanced in Hcheck. unfold new_job, strided_new_job. rewrite stage_elements in *. cbn [obind] in *.
  rewrite checked_div_exact in * by done. cbn [obind] in *. rewrite Htot in *. cbn [obind] in *.
  rewrite checked_rem_ok in Hcheck by lia. cbn [obind] in Hcheck.
  rewrite checked_div_ok by lia. cbn [obind]. rewrite Hid. eexists. split; [done|]. split; [done|].
  cbn [unit_tasks task_position execute_task loading_layout].
  set (uid := unit_load_index g ident u * pd + unit_x u) in *. set (total := planes * pd) in *.
  assert (len = len / total * total) as Hm.
  { rewrite N.mul_comm. apply N.Div0.div_exact. unfold reject in Hcheck. by destruct (N.eqb_spec (len mod total) 0). }
  intros t Ht. set (p := uid + t * total).
  assert (p < len) as Hp by (rewrite Hm; unfold p; rewrite N.add_comm; by apply radix_lt).
  rewrite (proj2 (N.ltb_lt _ _) Hp). unfold strided_execute_task. cbn [sj_unit_position_base sj_unit_count sj_line_size sj_ident].
  assert (p * line < two32) as Hplt by (assert (p * line ≤ len * line) by (apply N.mul_le_mono_r; lia); lia).
  assert (p * 1 ≤ p * line) as Hp1 by (apply N.mul_le_mono_l; lia).
  rewrite (wmul_small t), wadd_small by (fold p; lia). fold p. rewrite (wmul_small p) by done.
  destruct (strided_decode p (go_stages _ _ _ _ _ G) Hp) as (c & Hc & Hline & ->). cbn [obind].
  rewrite (write_coord c _ (go_ident _ _ _ _ _ G) eq_refl). cbn [obind]. eexists. split; [done|]. by exists c.
Qed.

(** **** Tilewise and ordered *)

Lemma tilewise_divides L :
  (∃ TO, L = SyncFullTilewise TO) ∨ L = SyncFullOrdered → loading_check L g ident = Ret (inl tt) →
  (R * C) mod planes = 0 ∧ (a * b * (R * C / planes)) mod pd = 0.
Proof using G.
  intros HL Hcheck. pose proof line_pos as Hl0. pose proof (go_nonempty _ _ _ _ _ G) as Hne. destruct (go_units _ _ _ _ _ G) as [Hp0 Hd0].
  destruct stage_len as [Hlen Hfit].
  assert (a * b * (R * C / planes) ≤ u32_max) as Hmax.
  { assert (a * b * (R * C / planes) ≤ a * b * (R * C)) by (apply N.mul_le_mono_l, N.Div0.div_le_upper_bound; nia).
    assert (a * b * (R * C) * 1 ≤ a * b * (R * C) * line) by (apply N.mul_le_mono_l; lia). unfold u32_max, two32 in *. lia. }
  assert (∃ e1 e2 (k : outcome (unit + MatmulSetupError)),
    (ok! _ := reject (negb ((R * C) mod planes =? 0)) e1 in ok! _ := reject (negb ((a * b * (R * C / planes)) mod pd =? 0)) e2 in k) = Ret (inl tt))
    as (e1 & e2 & k & Hk).
  { destruct HL as [[TO ->] | ->]; cbn [loading_check] in Hcheck.
    - unfold tilewise_check in Hcheck. rewrite (stage_tiles 0 Hne), (tile_elements 0 Hne) in Hcheck. cbn [obind] in Hcheck.
      rewrite checked_rem_ok in Hcheck by lia. cbn [obind] in Hcheck. apply ok_bind_inl in Hcheck as ([] & Hr & Hcheck).
      do 2 eexists. exists (Ret (inl tt)). rewrite Hr. unfold ok_bind at 1. cbn [obind].
      rewrite checked_div_ok, checked_div_exact in Hcheck by lia. cbn [obind] in Hcheck. rewrite checked_mul_ok in Hcheck by done.
      cbn [obind] in Hcheck. rewrite checked_rem_ok in Hcheck by lia. cbn [obind] in Hcheck. rewrite Hcheck. done.
    - unfold ordered_check in Hcheck. apply ok_bind_inl in Hcheck as ([] & _ & Hcheck).
      rewrite (stage_tiles 0 Hne), (tile_elements 0 Hne) in Hcheck. cbn [obind] in Hcheck.
      rewrite checked_rem_ok in Hcheck by lia. cbn [obind] in Hcheck. apply ok_bind_inl in Hcheck as ([] & Hr & Hcheck).
      do 2 eexists. exists (Ret (inl tt)). rewrite Hr. unfold ok_bind at 1. cbn [obind].
      rewrite (checked_div_ok (R * C)), checked_div_exact in Hcheck by lia. cbn [obind] in Hcheck. rewrite checked_mul_ok in Hcheck by done.
      cbn [obind] in Hcheck. apply obind_ret in Hcheck as (? & _ & Hcheck). apply obind_ret in Hcheck as (? & _ & Hcheck).
      rewrite checked_rem_ok in Hcheck by lia. cbn [obind] in Hcheck. apply ok_bind_inl in Hcheck as ([] & Hr' & _). rewrite Hr'. done. }
  apply ok_bind_inl in Hk as ([] & H1 & ([] & H2 & _)%ok_bind_inl). unfold reject in H1, H2.
  destruct (N.eqb_spec ((R * C) mod planes) 0), (N.eqb_spec ((a * b * (R * C / planes)) mod pd) 0); done.
Qed.

Lemma tilewise_surj p :
  (R * C) mod planes = 0 → (a * b * (R * C / planes)) mod pd = 0 → p < len →
  ∃ i x t, i < planes ∧ x < pd ∧ t < a * b * (R * C / planes) / pd ∧ p = i * (R * C / planes * (a * b)) + (t * pd + x).
Proof using G.
  intros M1 M2 Hp. destruct (go_units _ _ _ _ _ G) as [Hp0 Hd0]. destruct stage_len as [Hlen _].
  apply N.Div0.div_exact in M1, M2. set (tpp := R * C / planes) in *. set (tasks := a * b * tpp / pd) in *.
  assert (planes * (tpp * (a * b)) = len) as Hlp by (rewrite Hlen, M1; lia).
  destruct (div_mod_ex p (tpp * (a * b))) as (i & pos & _ & _ & Ep & Hpos); [nia|].
  destruct (div_mod_ex pos pd Hd0) as (t & x & _ & _ & Et & Hx). exists i, x, t. split_and!; [|done| |lia].
  - apply (quot_lt (tpp * (a * b)) _ _ pos). lia.
  - apply (quot_lt pd _ _ x). rewrite (N.mul_comm tasks), <- M2. lia.
Qed.

Lemma tilewise_task TO j u t :
  layout_usable (ContiguousTilingLayout TO) sid config →
  let p := unit_load_index g ident u * (R * C / planes * (a * b)) + (t * pd + unit_x u) in
  p < len →
  tj_num_tiles_to_skip j = unit_load_index g ident u * (R * C / planes) →
  tj_num_lines_to_skip j = unit_load_index g ident u * (R * C / planes) * (a * b) →
  tj_num_lines_per_tile j = a * b → tj_plane_dim j = pd → tj_line_size j = line → tj_ident j = ident →
  ∃ w, tilewise_execute_task TO j t u r q g = Ret [w] ∧ stage_write (ContiguousTilingLayout TO) p w.
Proof using G W.
  intros Huse p Hp Es Els Ep Ed El Ei. unfold tilewise_execute_task, tilewise_load_and_store_line. rewrite Es, Els, Ep, Ed, El, Ei.
  set (i := unit_load_index g ident u) in *. set (tpp := R * C / planes) in *.
  destruct (dims_pos p Hp) as (_ & _ & Ha & Hb). pose proof line_pos as Hl0. destruct stage_len as [Hlen Hfit].
  assert (len * line < two32) as Hll by (rewrite Hlen; done). assert (len * 1 ≤ len * line) as Hl1 by (apply N.mul_le_mono_l; lia).
  assert (t * pd + unit_x u < two32) as Hpos by (clear -Hp Hll Hl1; subst p; lia).
  rewrite (wmul_small t), (wadd_small (t * pd)) by lia.
  destruct (div_mod_ex (t * pd + unit_x u) (a * b)) as (nth & l & Dq & Dr & Epos & Hl); [nia|]. rewrite Dq, Dr.
  assert (p = (nth + i * tpp) * (a * b) + l) as Hdecode by (unfold p; rewrite Epos; lia).
  assert ((nth + i * tpp) * 1 ≤ (nth + i * tpp) * (a * b)) as Hsm by (apply N.mul_le_mono_l; nia).
  rewrite (wadd_small nth) by lia. destruct (contiguous_decode TO (nth + i * tpp) l Huse Hl) as (c & Hc & Hline & Hxy & Hload); [lia|].
  rewrite Hxy. cbn [obind fst snd].
  assert (l * line ≤ len * line) as Hlb by (apply N.mul_le_mono_r; lia).
  rewrite (wmul_small l) by lia. rewrite Hload. cbn [obind].
  rewrite (write_coord c _ (go_ident _ _ _ _ _ G) eq_refl). cbn [obind].
  rewrite (wmul_small nth), (wadd_small (i * tpp * (a * b)) l), wadd_small by lia.
  eexists. split; [done|]. exists c. rewrite Hdecode. split_and!; [done|done|]. f_equal. lia.
Qed.

Lemma tilewise_ok L TO u :
  (L = SyncFullTilewise TO ∨ L = SyncFullOrdered ∧ TO = OrderedTilingOrder) →
  layout_usable (ContiguousTilingLayout TO) sid config → loading_check L g ident = Ret (inl tt) →
  unit_load_index g ident u < planes → unit_x u < pd →
  ∃ j, new_job L ident g u = Ret j ∧ job_ok L u j.
Proof using G W.
  intros HL Huse Hcheck Hi Hx. pose proof line_pos as Hl0. pose proof (go_nonempty _ _ _ _ _ G) as Hne.
  destruct (go_units _ _ _ _ _ G) as [Hp0 Hd0]. destruct stage_len as [Hlen Hfit].
  destruct (tilewise_divides L) as [M1 M2]; [destruct HL as [-> | [-> _]]; eauto|done|].
  apply N.Div0.div_exact in M1, M2. set (tpp := R * C / planes) in *. set (tasks := a * b * tpp / pd) in *.
  assert (len * line < two32) as Hll by (rewrite Hlen; done). assert (len * 1 ≤ len * line) as Hl1 by (apply N.mul_le_mono_l; lia).
  assert (a * b * tpp * planes = len) as Hlp by (rewrite Hlen, M1; lia).
  assert (∃ j, tilewise_new_job ident g u = Ret j ∧ tj_num_tiles_to_skip j = unit_load_index g ident u * tpp ∧
    tj_num_lines_to_skip j = unit_load_index g ident u * tpp * (a * b) ∧
    tj_num_lines_per_tile j = a * b ∧ tj_plane_dim j = pd ∧ tj_line_size j = line ∧ tj_ident j = ident ∧ tj_num_lines_per_unit j = tasks)
    as (j & Hj & Es & Els & Ep & Ed & El & Ei & Et).
  { unfold tilewise_new_job. rewrite (stage_tiles 0 Hne), (tile_elements 0 Hne). cbn [obind].
    rewrite checked_div_ok, checked_div_exact by lia. cbn [obind]. fold tpp.
    assert (a * b * tpp * 1 ≤ a * b * tpp * planes) by (apply N.mul_le_mono_l; lia).
    rewrite checked_mul_ok by (unfold u32_max, two32 in *; lia). cbn [obind]. rewrite checked_div_ok by lia. cbn [obind]. fold tasks.
    assert (unit_load_index g ident u * tpp * (a * b) ≤ len) by (rewrite <- Hlp; nia).
    assert (unit_load_index g ident u * tpp * 1 ≤ unit_load_index g ident u * tpp * (a * b)) by (apply N.mul_le_mono_l; destruct (dims_pos 0 Hne) as (_ & _ & ? & ?); nia).
    rewrite (wmul_small (unit_load_index g ident u)) by lia. rewrite wmul_small by lia. eexists. by split_and!. }
  assert (new_job L ident g u = Ret (JTilewise TO j)) as ->.
  { destruct HL as [-> | [-> ->]]; cbn [new_job]; by rewrite Hj. }
  eexists. split; [done|]. split.
  { cbn [task_count]. rewrite Et. by destruct HL as [-> | [-> ->]]. }
  assert (unit_tasks L = tasks ∧ loading_layout L = ContiguousTilingLayout TO ∧
    ∀ i x t, task_position L i x t = i * (tpp * (a * b)) + (t * pd + x)) as (-> & -> & Hpos) by (by destruct HL as [-> | [-> ->]]).
  intros t Ht. rewrite Hpos. cbn [execute_task].
  assert (unit_load_index g ident u * (tpp * (a * b)) + (t * pd + unit_x u) < len) as Hp.
  { rewrite <- Hlp, (N.mul_comm _ planes), (N.mul_comm (a * b) tpp). apply radix_lt; [done|].
    rewrite (N.mul_comm tpp), M2, (N.mul_comm pd). by apply radix_lt. }
  cbn zeta. rewrite (proj2 (N.ltb_lt _ _) Hp). by apply tilewise_task.
Qed.

(** **** Any strategy *)

Lemma new_job_ok L u :
  layout_usable (loading_layout L) sid config → loading_check L g ident = Ret (inl tt) →
  unit_load_index g ident u < planes → unit_x u < pd →
  ∃ j, new_job L ident g u = Ret j ∧ job_ok L u j.
Proof using G W.
  intros Huse Hcheck Hi Hx. destruct L as [TO|TO| |]; [by apply cyclic_ok| | |by apply strided_ok].
  - apply (tilewise_ok _ TO); auto.
  - apply (tilewise_ok _ OrderedTilingOrder); auto.
Qed.

(** Every line of the stage is the position of a task. *)
Lemma task_position_surj L p :
  loading_check L g ident = Ret (inl tt) → p < len →
  ∃ i x t, i < planes ∧ x < pd ∧ t < unit_tasks L ∧ p = task_position L i x t.
Proof using G.
  intros Hcheck Hp. destruct (go_units _ _ _ _ _ G) as [Hp0 Hd0]. destruct total_ok as (Htot & Ht0 & _). destruct stage_len as [Hlen _].
  destruct L as [TO|TO| |]; cbn [task_position unit_tasks].
  1, 4: destruct (div_mod_ex p (planes * pd) Ht0) as (t & uid & _ & _ & Ep & Hu);
    destruct (div_mod_ex uid pd Hd0) as (i & x & _ & _ & Eu & Hx); exists i, x, t;
    (split_and!; [by apply (quot_lt pd _ _ x); lia|done| |lia]).
  - destruct (ceil_div_spec len (planes * pd) Ht0) as [Hc _]. apply (N.mul_lt_mono_pos_r (planes * pd)); lia.
  - cbn [loading_check] in Hcheck. unfold check_balanced in Hcheck. pose proof line_pos as Hl0. rewrite stage_elements in Hcheck. cbn [obind] in Hcheck.
    rewrite checked_div_exact in Hcheck by done. cbn [obind] in Hcheck. rewrite Htot in Hcheck. cbn [obind] in Hcheck.
    rewrite checked_rem_ok in Hcheck by lia. cbn [obind] in Hcheck. unfold reject in Hcheck.
    destruct (N.eqb_spec (len mod (planes * pd)) 0) as [Hm|]; [|done]. apply N.Div0.div_exact in Hm.
    apply (quot_lt (planes * pd) _ _ uid). rewrite (N.mul_comm (len / _)), <- Hm. lia.
  - destruct (tilewise_divides (SyncFullTilewise TO)) as [M1 M2]; [eauto|done|]. by apply tilewise_surj.
  - destruct (tilewise_divides SyncFullOrdered) as [M1 M2]; [eauto|done|]. by apply tilewise_surj.
Qed.

(** *** The loading phase of a cube *)

(** The loader of a unit, its job precomputed or not. *)
Definition loader_for (L : SyncFullLoading) (u : UnitPos) (l : SyncFullLoader) : Prop :=
  ld_tensor_reader l = r ∧ ld_quantization l = q ∧ ld_ident l = ident ∧ ld_loading l = L ∧
  match ld_loading_job l with Some j => new_job L ident g u = Ret j | None => True end.

(** The tasks of a unit. *)
Lemma run_tasks_ok (P : N → list (N * list ES) → Prop) j u n t0 :
  (∀ t, t0 ≤ t < t0 + N.of_nat n → ∃ ws, execute_task j t u r q g = Ret ws ∧ P t ws) →
  ∃ wss, run_tasks j n t0 u r q g = Ret (concat wss) ∧ length wss = n ∧
    ∀ k ws, wss !! k = Some ws → P (t0 + N.of_nat k) ws.
Proof using.
  revert t0. induction n as [|n IH]; intros t0 H; cbn [run_tasks]; [by exists []|].
  destruct (H t0) as (ws & -> & Hws); [lia|]. cbn [obind].
  destruct (IH (t0 + 1)) as (wss & -> & Hlen & Hall); [intros t Ht; apply H; lia|]. cbn [obind].
  exists (ws :: wss). split; [done|]. split; [cbn; lia|]. intros [|k] ws'; cbn [lookup list_lookup].
  - intros [= <-]. by rewrite N.add_0_r.
  - intros Hk. apply Hall in Hk. by replace (t0 + N.of_nat (S k)) with (t0 + 1 + N.of_nat k) by lia.
Qed.

Lemma fill_stage_ok L u l :
  layout_usable (loading_layout L) sid config → loading_check L g ident = Ret (inl tt) →
  unit_load_index g ident u < planes → unit_x u < pd → loader_for L u l →
  ∃ ws, fill_stage l g u = Ret ws ∧
    (∀ w, w ∈ ws → ∃ p, p < len ∧ stage_write (loading_layout L) p w) ∧
    (∀ t, t < unit_tasks L → let p := task_position L (unit_load_index g ident u) (unit_x u) t in
      p < len → ∃ w, w ∈ ws ∧ stage_write (loading_layout L) p w).
Proof using G W.
  intros Huse Hcheck Hi Hx (Hr & Hq & Hid & HL & Hjob). destruct (new_job_ok L u Huse Hcheck Hi Hx) as (j & Hj & Hcount & Htasks).
  unfold fill_stage. rewrite Hr, Hq, Hid, HL.
  assert ((match ld_loading_job l with Some j => Ret j | None => new_job L ident g u end) = Ret j) as ->.
  { destruct (ld_loading_job l); [congruence|done]. }
  cbn [obind]. rewrite Hcount.
  set (pos := task_position L (unit_load_index g ident u) (unit_x u)) in *.
  destruct (run_tasks_ok (λ t ws, (∀ w, w ∈ ws → ∃ p, p < len ∧ stage_write (loading_layout L) p w) ∧
      (pos t < len → ∃ w, w ∈ ws ∧ stage_write (loading_layout L) (pos t) w)) j u (N.to_nat (unit_tasks L)) 0)
    as (wss & -> & Hlen & Hall).
  { intros t Ht. specialize (Htasks t). rewrite N2Nat.id in Ht. specialize (Htasks (proj2 Ht)). cbn zeta in Htasks. fold pos in Htasks.
    destruct (N.ltb_spec (pos t) len) as [Hp|Hp].
    - destruct Htasks as (w & -> & Hw). eexists. split; [done|]. split.
      + intros w' ->%list_elem_of_singleton. by exists (pos t).
      + intros _. exists w. split; [by apply list_elem_of_singleton|done].
    - rewrite Htasks. eexists. split; [done|]. split; [by intros w Hw%elem_of_nil|lia]. }
  exists (concat wss). split; [done|]. split.
  - intros w Hin. apply elem_of_concat in Hin as (ws & Hws & Hw). apply list_elem_of_lookup in Hws as [k Hk]. by apply (Hall k ws Hk).
  - intros t Ht Hp. destruct (lookup_lt_is_Some_2 wss (N.to_nat t)) as [ws Hws]; [lia|].
    pose proof (Hall _ _ Hws) as [_ Hw]. rewrite N2Nat.id, N.add_0_l in Hw. destruct (Hw Hp) as (w & Hin & Hsw).
    exists w. split; [|done]. apply elem_of_concat. exists ws. split; [|done]. by apply list_elem_of_lookup_2 in Hws.
Qed.

(** The lines that the loaders of all units write, in any order, make up the
    stage. *)
Definition stage_holds (T : TilingLayout) (stage : list ES) : Prop :=
  ∀ c, coord_ok config sid a b c →
    ∃ p, line_of T sid config c = Ret p ∧ read_unchecked line stage p = Ret (coord_line r q ident layout line a b c).

Lemma coord_line_length c : length (coord_line r q ident layout line a b c) = N.to_nat line.
Proof using. unfold coord_line, line_of_view. by rewrite !length_fmap, length_upto. Qed.

Lemma writes_fill T stage ws :
  layout_usable T sid config → N.of_nat (length stage) = len * line →
  (∀ w, w ∈ ws → ∃ p, p < len ∧ stage_write T p w) →
  (∀ p, p < len → ∃ w, w ∈ ws ∧ stage_write T p w) →
  ∃ stage', apply_writes line stage ws = Ret stage' ∧ length stage' = length stage ∧ stage_holds T stage'.
Proof using G.
  intros Huse Hlen Hws Hall. assert (Forall (λ w, (w.1 + 1) * line ≤ N.of_nat (length stage)) ws) as Hb.
  { apply Forall_forall. intros w (p & Hp & c & _ & _ & ->)%Hws. rewrite Hlen. apply N.mul_le_mono_r. cbn. lia. }
  destruct (apply_writes_runs line ws stage Hb) as (stage' & Hrun & Hlen'). exists stage'. split_and!; [done|done|].
  intros c Hc. pose proof (go_alloc _ _ _ _ _ G) as Halloc. rewrite <- (go_stages _ _ _ _ _ G) in Halloc.
  destruct (line_in_bounds T config sid a b len (go_config _ _ _ _ _ G) Huse Halloc c Hc) as (p & Hp & Hpl). exists p. split; [done|].
  destruct (read_unchecked_ok line stage' p) as (l & -> & Hl & Hel).
  { rewrite Hlen', Hlen. apply N.mul_le_mono_r. lia. }
  f_equal. apply list_eq. intros i. destruct (decide (i < N.to_nat line)%nat) as [Hi|Hi];
    [|by rewrite !lookup_ge_None_2 by (rewrite ?coord_line_length; lia)].
  specialize (Hel (N.of_nat i)). rewrite Nat2N.id in Hel. rewrite Hel by lia.
  destruct (lookup_lt_is_Some_2 (coord_line r q ident layout line a b c) i) as [val Hval]; [by rewrite coord_line_length|].
  rewrite Hval. destruct (apply_writes_keep line (p * line + N.of_nat i) val ws stage) as (m & Hm & _ & Hset & _); [|done|].
  - apply Forall_forall. intros w (p' & _ & c' & Hc' & Hp' & ->)%Hws. split; [apply coord_line_length|]. cbn [fst snd]. intros He.
    assert (p' = p) as -> by (destruct (radix_inj line p' (p * line + N.of_nat i - p' * line) p (N.of_nat i)); lia).
    rewrite (line_injective T config sid a b len (go_config _ _ _ _ _ G) Huse Halloc c' c Hc' Hc ltac:(congruence)).
    rewrite <- Hval. f_equal. lia.
  - rewrite Hrun in Hm. injection Hm as <-. apply Hset. right. destruct (Hall p Hpl) as (w & Hw & c' & _ & _ & ->).
    eexists. split; [done|]. cbn [fst]. lia.
Qed.

(** All the units that load, by plane and position in the plane. *)
Definition all_units (us : list UnitPos) : Prop :=
  Forall (λ u, unit_load_index g ident u < planes ∧ unit_x u < pd) us ∧
  ∀ i x, i < planes → x < pd → ∃ u, u ∈ us ∧ unit_load_index g ident u = i ∧ unit_x u = x.

Lemma stage_loaded {X : Type} (pos : X → UnitPos) (loader : X → SyncFullLoader) L xs stage :
  layout_usable (loading_layout L) sid config → loading_check L g ident = Ret (inl tt) →
  all_units (pos <$> xs) → (∀ x, x ∈ xs → loader_for L (pos x) (loader x)) → N.of_nat (length stage) = len * line →
  ∃ wss, Forall2 (λ x ws, fill_stage (loader x) g (pos x) = Ret ws) xs wss ∧
    ∀ ws, ws ≡ₚ concat wss →
      ∃ stage', apply_writes line stage ws = Ret stage' ∧ length stage' = length stage ∧ stage_holds (loading_layout L) stage'.
Proof using G W.
  intros Huse Hcheck [Hus Hcover] Hload Hlen. rewrite Forall_fmap, Forall_forall in Hus. cbn [compose] in Hus.
  assert (∃ wss, Forall2 (λ x ws, fill_stage (loader x) g (pos x) = Ret ws) xs wss) as [wss Hwss].
  { clear Hcover. induction xs as [|x xs IH]; [by exists []|].
    destruct (Hus x) as [Hi Hx]; [by left|]. destruct (fill_stage_ok L (pos x) (loader x)) as (ws & Hws & _); [done|done|done|done|apply Hload; by left|].
    destruct IH as [wss Hwss]; [intros; apply Hus; by right|intros; apply Hload; by right|]. exists (ws :: wss). by constructor. }
  exists wss. split; [done|]. intros ws Hperm. apply writes_fill; [done|done| |].
  - intros w Hw. rewrite Hperm in Hw. apply elem_of_concat in Hw as (wu & Hwu & Hw). apply list_elem_of_lookup in Hwu as [k Hk].
    destruct (Forall2_lookup_r _ _ _ _ _ Hwss Hk) as (x & Hx & Hfill). apply list_elem_of_lookup_2 in Hx.
    destruct (Hus x Hx) as [Hi Hx']. destruct (fill_stage_ok L (pos x) (loader x) Huse Hcheck Hi Hx' (Hload x Hx)) as (ws' & Hws' & Hin & _).
    rewrite Hfill in Hws'. injection Hws' as <-. by apply Hin.
  - intros p Hp. destruct (task_position_surj L p Hcheck Hp) as (i & x0 & t & Hi & Hx & Ht & ->).
    destruct (Hcover i x0 Hi Hx) as (u & Hu & <- & <-). apply list_elem_of_fmap in Hu as (x & -> & Hu). apply list_elem_of_lookup in Hu as [k Hk].
    destruct (Forall2_lookup_l _ _ _ _ _ Hwss Hk) as (wu & Hwu & Hfill). apply list_elem_of_lookup_2 in Hk as Hu.
    destruct (fill_stage_ok L (pos x) (loader x) Huse Hcheck Hi Hx (Hload x Hu)) as (ws' & Hws' & _ & Hcov).
    rewrite Hfill in Hws'. injection Hws' as <-. destruct (Hcov t Ht Hp) as (w & Hw & Hsw). exists w. split; [|done].
    rewrite Hperm. apply elem_of_concat. exists wu. split; [|done]. by apply list_elem_of_lookup_2 in Hwu.
Qed.
End Load.

(** ** Loaders *)

(** A new loader that is advanced reads through the advanced reader. *)
Lemma advanced_loader {MP : MatmulPrecision} g ident L tensor xo yo bo q u k r l :
  (let? r0 := TensorReader_new tensor xo yo bo in update_view r0 k ident) = Ret r →
  (let? l0 := SyncFullLoader_new L tensor xo yo bo q ident g u in advance_view l0 k) = Ret l →
  loader_for g ident r q L u l.
Proof.
  intros (r0 & H0 & Hr)%obind_ret (l0 & Hnew & Hadv)%obind_ret. unfold SyncFullLoader_new in Hnew.
  rewrite H0 in Hnew. cbn [obind] in Hnew. apply obind_ret in Hnew as (job & Hjob & [= <-]).
  unfold advance_view in Hadv. cbn [ld_tensor_reader ld_ident ld_loading_job ld_quantization ld_loading] in Hadv.
  rewrite Hr in Hadv. injection Hadv as <-. unfold loader_for. split_and!; try done. cbn [ld_loading_job].
  destruct (gc_precompute_job g); [|by injection Hjob as <-]. apply obind_ret in Hjob as (j & Hj & [= <-]). done.
Qed.

(** C37. The loading phase of a stage, for each of the four synchronous
    strategies, all line sizes and both matrix layouts: when the validation of
    the strategy accepts the configuration, the tasks of all units succeed and,
    executed in any interleaving on any previous contents, leave in every line
    of every tile the (dequantized) elements that the advanced view has at its
    coordinates, with zeros outside the matrix where bounds are checked. *)
Theorem stage_loading_fills {MP : MatmulPrecision} g ident a b len L tensor xo yo bo k r q us loader stage :
  global_ok g ident a b len →
  layout_usable (loading_layout L) (into_stage ident) (gc_stage_memory_config g) →
  loading_check L g ident = Ret (inl tt) →
  all_units g ident us →
  (let? r0 := TensorReader_new tensor xo yo bo in update_view r0 k ident) = Ret r →
  window_ok g ident r →
  (∀ u, u ∈ us → (let? l := SyncFullLoader_new L tensor xo yo bo q ident g u in advance_view l k) = Ret (loader u)) →
  N.of_nat (length stage) = len * gc_global_line_size g ident →
  ∃ wss, Forall2 (λ u ws, fill_stage (loader u) g u = Ret ws) us wss ∧
    ∀ ws, ws ≡ₚ concat wss →
      ∃ stage', apply_writes (gc_global_line_size g ident) stage ws = Ret stage' ∧
        stage_holds g ident a b r q (loading_layout L) stage'.
Proof.
  intros G Huse Hcheck Hus Hr W Hload Hlen.
  destruct (stage_loaded g ident a b len r G W q id loader L us stage) as (wss & Hwss & Hfill); try done.
  { by rewrite list_fmap_id. }
  { intros u Hu. by apply (advanced_loader _ _ _ tensor xo yo bo _ _ k), Hload. }
  exists wss. split; [done|]. intros ws Hws. destruct (Hfill ws Hws) as (stage' & ? & _ & ?). by exists stage'.
Qed.

(** ** A concrete stage *)

Module LoadDemo.
#[local] Instance demo_precision : MatmulPrecision :=
  {| EI := Z; ES := Z; EA := Z; EO := Z; ei_zero := 0%Z; es_of_ei := λ v, v; es_mul := Z.mul; ea_of_es := λ v, v;
     ea_zero := 0%Z; ea_add := Z.add; ea_mul := Z.mul; eo_of_ea := λ v, v |}.

(** Tiles of 2x2x2, two of them along k in a partition, 4x2 partitions. *)
Definition scheme : TilingScheme :=
  {| tile_size := {| size_m := 2; size_n := 2; size_k := 2 |};
     partition_size := {| size_m := 1; size_n := 1; size_k := 2 |};
     stage_size := {| size_m := 4; size_n := 2; size_k := 1 |};
     global_partition_size := GlobalPartitionSize_new 1 1 1 |}.
Definition register : RegisterConfig :=
  {| rc_tiling_scheme := scheme; rc_plane_dim := 4; rc_lhs_layout := LayoutRowMajor; rc_rhs_layout := LayoutColMajor;
     rc_lhs_global_line_size := 2; rc_rhs_global_line_size := 2; rc_out_global_line_size := 1;
     rc_lhs_stage_line_size := 2; rc_rhs_stage_line_size := 2 |}.
Definition unit_stage : UnitPartitionedStageConfig :=
  {| uc_tile_config := register; uc_tiling_scheme := scheme; uc_quantized := false; uc_partition_buffering := SingleBuffering;
     uc_num_stages := {| ns_lhs := 1; ns_rhs := 1 |};
     uc_plane_role_config := {| plane_roles := {| main_flow := 2; load_only := 0 |}; rule := RuleMainFlowOnly |};
     uc_ordered := false |}.
Definition simple : SimpleConfig :=
  {| sc_stage_config := unit_stage; sc_num_planes := 2; sc_check_m_bounds := true; sc_check_n_bounds := false;
     sc_check_k_bounds := false; sc_k_step := 4; sc_precompute_job := PrecomputeNever; sc_loader_mode := Strict |}.
Definition config : GlobalConfig := simple_global_config simple.
Definition units : list UnitPos := x ← upto 4; y ← upto 2; [mkUnit x y].

(** A 7x8 matrix, of which the second stage of four columns is loaded. *)
Definition matrix : Tensor EI := mkTensor (Z.of_nat <$> seq 0 56) 2 [7; 8] [8; 1].
Definition reader : TensorReader := mkReader matrix 0 4 8 1 7 8 0.
Definition loading : SyncFullLoading := SyncFullTilewise RowMajorTilingOrder.
Definition loader : SyncFullLoader := mkLoader reader None None IdentLhs loading.

Lemma config_global_ok : global_ok config IdentLhs 2 1 16.
Proof.
  split; [done| |done..|by vm_compute|by vm_compute|by vm_compute|by vm_compute].
  repeat split; try discriminate; try (intros []; vm_compute; discriminate).
Qed.

Lemma reader_window_ok : window_ok config IdentLhs reader.
Proof.
  split; [|by vm_compute|by vm_compute|by exists 2|by left|right; by vm_compute].
  split; [done|done| |by exists 0| |by vm_compute].
  - split; [done|]. split; [by exists 4|by exists 4].
  - change (∀ x y, x < 7 → y < 8 → x * 8 + y * 1 + 0 < 56). intros. lia.
Qed.

Lemma units_all : all_units config IdentLhs units.
Proof.
  split; [by repeat constructor|]. intros i x Hi Hx. exists (mkUnit x i). split; [|done].
  unfold units. apply list_elem_of_bind. exists x. split; [|by apply elem_of_upto].
  apply list_elem_of_bind. exists i. split; [by apply list_elem_of_singleton|by apply elem_of_upto].
Qed.

Lemma stage_loading_fills_witness :
  ∃ wss, Forall2 (λ u ws, fill_stage loader config u = Ret ws) units wss ∧
    ∀ ws, ws ≡ₚ concat wss →
      ∃ stage', apply_writes 2 (replicate 32 (0%Z : ES)) ws = Ret stage' ∧
        stage_holds config IdentLhs 2 1 reader None (ContiguousTilingLayout RowMajorTilingOrder) stage'.
Proof.
  refine (stage_loading_fills config IdentLhs 2 1 16 loading matrix 0 0 0 4 reader None units (λ _, loader) (replicate 32 0%Z)
    config_global_ok _ _ units_all _ reader_window_ok _ _).
  - by left.
  - vm_compute. reflexivity.
  - vm_compute. reflexivity.
  - intros u _. vm_compute. reflexivity.
  - vm_compute. reflexivity.
Defined.

(** The element of the stage line that a tile reads, computed: row 1 of the
    third tile along m, first line of the second tile along k. *)
Example loaded_line :
  coord_line reader None IdentLhs LayoutRowMajor 2 2 1 {| lc_buf := 0; lc_row := 2; lc_col := 1; lc_strided := 1; lc_contiguous := 0 |}
    = [46%Z; 47%Z].
Proof. vm_compute. reflexivity. Qed.
End LoadDemo.
