(* ===== verification/Loops.v ===== *)
(** * Loops and arrays of a kernel

    A loop [for i in 0..n] over an explicit state, arrays in registers, and the
    two ways the proofs use them: loops in which every step writes the final
    value of some elements, and loops that fold over the index. *)

From S2P Require Import Prelude DeviceNum.

Open Scope N_scope.
Open Scope rust_scope.

(** ** Loops *)

Fixpoint loop_from {S : Type} (n : nat) (i : N) (f : N → S → outcome S) (s : S) : outcome S :=
  match n with
  | O => Ret s
  | Datatypes.S n => let? s := f i s in loop_from n (i + 1) f s
  end.
Definition for_range {S : Type} (n : N) (f : N → S → outcome S) (s : S) : outcome S := loop_from (N.to_nat n) 0 f s.

Section Loops.
Context {S : Type} (P : N → S → Prop).

Lemma loop_from_inv n i f s :
  P i s → (∀ j s, i ≤ j < i + N.of_nat n → P j s → ∃ s', f j s = Ret s' ∧ P (j + 1) s') →
  ∃ s', loop_from n i f s = Ret s' ∧ P (i + N.of_nat n) s'.
Proof.
  revert i s. induction n as [|n IH]; intros i s Hs Hf; cbn [loop_from].
  { exists s. split; [done|]. by rewrite N.add_0_r. }
  destruct (Hf i s) as (s' & -> & Hs'); [lia|done|]. cbn [obind].
  destruct (IH (i + 1) s' Hs') as (r & -> & Hr); [intros j t Hj; apply Hf; lia|]. exists r. split; [done|].
  by replace (i + N.of_nat (Datatypes.S n)) with (i + 1 + N.of_nat n) by lia.
Qed.

(** The rule of a loop invariant. *)
Lemma for_range_inv n f s :
  P 0 s → (∀ i s, i < n → P i s → ∃ s', f i s = Ret s' ∧ P (i + 1) s') →
  ∃ s', for_range n f s = Ret s' ∧ P n s'.
Proof.
  intros Hs Hf. unfold for_range. destruct (loop_from_inv (N.to_nat n) 0 f s Hs) as (r & -> & Hr).
  - intros j t Hj. apply Hf. lia.
  - exists r. split; [done|]. by rewrite N2Nat.id in Hr.
Qed.
End Loops.

(** A computation for each element of a list. *)
Fixpoint each {A B : Type} (f : A → outcome B) (l : list A) : outcome (list B) :=
  match l with
  | [] => Ret []
  | x :: l => let? y := f x in let? l := each f l in Ret (y :: l)
  end.

Lemma each_ok {A B} (f : A → outcome B) (Q : A → B → Prop) l :
  (∀ x, x ∈ l → ∃ y, f x = Ret y ∧ Q x y) → ∃ l', each f l = Ret l' ∧ Forall2 (λ x y, f x = Ret y ∧ Q x y) l l'.
Proof.
  induction l as [|x l IH]; intros H; [by exists []|]. destruct (H x) as (y & Hy & HQ); [by left|].
  destruct IH as (l' & Hl & H2); [intros; apply H; by right|]. exists (y :: l'). cbn [each]. rewrite Hy. cbn [obind]. rewrite Hl.
  split; [done|]. by constructor.
Qed.

Lemma each_map {A B} (f : A → outcome B) (g : A → B) l : (∀ x, x ∈ l → f x = Ret (g x)) → each f l = Ret (g <$> l).
Proof.
  induction l as [|x l IH]; intros H; [done|]. cbn [each]. rewrite H by (by left). cbn [obind].
  rewrite IH by (intros; apply H; by right). done.
Qed.

(** A loop whose states are known. *)
Lemma for_range_states {S : Type} n (f : N → S → outcome S) (st : N → S) :
  (∀ i, i < n → f i (st i) = Ret (st (i + 1))) → for_range n f (st 0) = Ret (st n).
Proof.
  intros Hf. destruct (for_range_inv (λ i s, s = st i) n f (st 0) eq_refl) as (s & -> & ->); [|done].
  intros i s Hi ->. exists (st (i + 1)). auto.
Qed.

(** ** Arrays *)

Section Arrays.
Context {A : Type}.

Definition array_read (arr : list A) (i : N) : outcome A := expect (arr !! N.to_nat i) "read outside the array".
Definition array_write (arr : list A) (i : N) (v : A) : outcome (list A) :=
  if i <? N.of_nat (length arr) then Ret (<[N.to_nat i := v]> arr) else Panic "write outside the array".

(** The array of the values of a function. *)
Definition tabulate (n : N) (f : N → A) : list A := f <$> upto n.

Lemma tabulate_length n f : length (tabulate n f) = N.to_nat n.
Proof. unfold tabulate. by rewrite length_fmap, length_upto. Qed.
Lemma tabulate_lookup n f i : i < n → tabulate n f !! N.to_nat i = Some (f i).
Proof. intros Hi. unfold tabulate. by rewrite list_lookup_fmap, lookup_upto. Qed.

Lemma tabulate_eq n f arr :
  length arr = N.to_nat n → (∀ i, i < n → arr !! N.to_nat i = Some (f i)) → arr = tabulate n f.
Proof.
  intros Hlen H. apply list_eq. intros i. destruct (decide (i < N.to_nat n)%nat) as [Hi|Hi].
  - specialize (H (N.of_nat i)). rewrite Nat2N.id in H. rewrite H by lia.
    pose proof (tabulate_lookup n f (N.of_nat i)) as Ht. rewrite Nat2N.id in Ht. by rewrite Ht by lia.
  - by rewrite !lookup_ge_None_2 by (rewrite ?tabulate_length; lia).
Qed.

Lemma tabulate_ext n f g : (∀ i, i < n → f i = g i) → tabulate n f = tabulate n g.
Proof. intros H. apply tabulate_eq; [by rewrite tabulate_length|]. intros i Hi. rewrite tabulate_lookup by done. by rewrite H. Qed.

Lemma array_read_ok arr i v : arr !! N.to_nat i = Some v → array_read arr i = Ret v.
Proof. unfold array_read. by intros ->. Qed.
Lemma tabulate_read n f i : i < n → array_read (tabulate n f) i = Ret (f i).
Proof. intros Hi. by apply array_read_ok, tabulate_lookup. Qed.
Lemma tabulate_write n f i v :
  i < n → array_write (tabulate n f) i v = Ret (tabulate n (λ x, if x =? i then v else f x)).
Proof.
  intros Hi. unfold array_write. rewrite (proj2 (N.ltb_lt _ _)) by (rewrite tabulate_length; lia).
  f_equal. apply tabulate_eq; [by rewrite length_insert, tabulate_length|]. intros x Hx.
  destruct (N.eqb_spec x i) as [->|Hne]; [rewrite list_lookup_insert_eq; [done|rewrite tabulate_length; lia]|].
  rewrite list_lookup_insert_ne by lia. by apply tabulate_lookup.
Qed.

(** ** Loops that write final values *)

Section Fill.
Context (size : N) (final : N → A).

(** The computation succeeds and sets the elements of [Cov] to their final
    values; elements that are final stay so. *)
Definition sets (f : list A → outcome (list A)) (Cov : N → Prop) : Prop :=
  ∀ arr, length arr = N.to_nat size →
    ∃ arr', f arr = Ret arr' ∧ length arr' = N.to_nat size ∧
      ∀ x, arr !! N.to_nat x = Some (final x) ∨ Cov x → arr' !! N.to_nat x = Some (final x).

Lemma sets_write i v : i < size → v = final i → sets (λ arr, array_write arr i v) (λ x, x = i).
Proof.
  intros Hi -> arr Hlen. unfold array_write. rewrite (proj2 (N.ltb_lt _ _)) by lia. eexists. split; [done|].
  split; [by rewrite length_insert|]. intros x Hx. destruct (decide (x = i)) as [->|Hne].
  - rewrite list_lookup_insert_eq; [done|lia].
  - rewrite list_lookup_insert_ne by lia. destruct Hx; [done|congruence].
Qed.

Lemma sets_bind {B} (m : outcome B) b (f : B → list A → outcome (list A)) Cov :
  m = Ret b → sets (f b) Cov → sets (λ arr, let? v := m in f v arr) Cov.
Proof. by intros ->. Qed.

Lemma sets_for n (f : N → list A → outcome (list A)) (Cov : N → N → Prop) :
  (∀ i, i < n → sets (f i) (Cov i)) → sets (for_range n f) (λ x, ∃ i, i < n ∧ Cov i x).
Proof.
  intros Hf arr Hlen.
  destruct (for_range_inv (λ i s, length s = N.to_nat size ∧
    ∀ x, arr !! N.to_nat x = Some (final x) ∨ (∃ j, j < i ∧ Cov j x) → s !! N.to_nat x = Some (final x)) n f arr) as (s & Hs & Hl & Hall).
  - split; [done|]. intros x [?|(j & ? & _)]; [done|lia].
  - intros i s Hi [Hl Hall]. destruct (Hf i Hi s Hl) as (s' & Hs' & Hl' & Hall'). exists s'. split; [done|]. split; [done|].
    intros x Hx. apply Hall'. destruct Hx as [Hx|(j & Hj & Hc)]; [left; apply Hall; by left|].
    destruct (decide (j = i)) as [->|]; [by right|]. left. apply Hall. right. exists j. split; [lia|done].
  - exists s. split; [done|]. split; [done|]. intros x Hx. apply Hall. destruct Hx as [?|(j & ? & ?)]; [by left|right; by exists j].
Qed.

(** A computation that covers the whole array. *)
Lemma sets_all f Cov arr :
  sets f Cov → (∀ x, x < size → Cov x) → length arr = N.to_nat size → f arr = Ret (tabulate size final).
Proof.
  intros Hf Hcov Hlen. destruct (Hf arr Hlen) as (arr' & -> & Hl & Hall). f_equal. apply tabulate_eq; [done|].
  intros i Hi. apply Hall. right. by apply Hcov.
Qed.
End Fill.
End Arrays.

(** ** Folds over an index range *)

Lemma upto_succ n : upto (n + 1) = upto n ++ [n].
Proof.
  unfold upto. replace (N.to_nat (n + 1)) with (N.to_nat n + 1)%nat by lia. rewrite seq_app, fmap_app. cbn. do 2 f_equal. lia.
Qed.

Definition fold_upto {A : Type} (n : N) (f : A → N → A) (s : A) : A := foldl f s (upto n).

Lemma fold_upto_0 {A} f (s : A) : fold_upto 0 f s = s.
Proof. done. Qed.
Lemma fold_upto_succ {A} n f (s : A) : fold_upto (n + 1) f s = f (fold_upto n f s) n.
Proof. unfold fold_upto. by rewrite upto_succ, foldl_app. Qed.

Lemma fold_upto_ext {A} n f g (s : A) : (∀ a i, i < n → f a i = g a i) → fold_upto n f s = fold_upto n g s.
Proof.
  unfold fold_upto. intros H. assert (∀ i, i ∈ upto n → i < n) as Hin by (intros; by apply elem_of_upto).
  revert s Hin. generalize (upto n) as l. induction l as [|x l IH]; intros s Hin; [done|]. cbn.
  rewrite H by (apply Hin; by left). apply IH. intros; apply Hin; by right.
Qed.

Lemma upto_add m n : upto (m + n) = upto m ++ ((λ i, m + i) <$> upto n).
Proof.
  induction n as [|n IH] using N.peano_ind; [by rewrite N.add_0_r, app_nil_r|].
  rewrite <- N.add_1_r, upto_succ, N.add_assoc, upto_succ, IH, fmap_app, app_assoc. done.
Qed.

Lemma foldl_fmap {A B C} (f : A → C → A) (g : B → C) l s : foldl f s (g <$> l) = foldl (λ a b, f a (g b)) s l.
Proof. revert s. induction l; intros s; cbn; auto. Qed.

Lemma fold_upto_add {A} m n f (s : A) : fold_upto (m + n) f s = fold_upto n (λ a i, f a (m + i)) (fold_upto m f s).
Proof. unfold fold_upto. by rewrite upto_add, foldl_app, foldl_fmap. Qed.

(** A fold over blocks is a fold over all. *)
Lemma fold_upto_mul {A} m n f (s : A) :
  fold_upto m (λ a i, fold_upto n (λ a j, f a (i * n + j)) a) s = fold_upto (m * n) f s.
Proof.
  induction m as [|m IH] using N.peano_ind; [by rewrite N.mul_0_l|].
  rewrite <- N.add_1_r, fold_upto_succ, IH, N.mul_add_distr_r, N.mul_1_l, fold_upto_add. done.
Qed.

(** Steps that change nothing. *)
Lemma fold_upto_idle {A} m n f (s : A) :
  (∀ a i, m ≤ i → f a i = a) → m ≤ n → fold_upto n f s = fold_upto m f s.
Proof.
  intros H Hle. replace n with (m + (n - m)) by lia. rewrite fold_upto_add.
  generalize (fold_upto m f s) as a. intros a. unfold fold_upto. induction (upto (n - m)) as [|x l IH]; [done|].
  cbn. rewrite H by lia. done.
Qed.
