(* ===== verification/RegisterTile.v ===== *)
(** * Tile matmul in registers

    Model of [crates/cubecl-matmul/src/components/tile/register/matmul.rs]: a
    unit keeps a tile of each input and of the result in arrays and multiplies
    them with an inner or an outer product.

    New arrays hold unspecified values.  The loops are not unrolled ([UNROLL] is
    false), so index arithmetic is done on the device and wraps.

    Filling an input makes it the tile of the stage, and both products add to
    every element of the accumulator the dot product of its row and column,
    term after term. *)

From S2P Require Import Prelude DeviceNum Tiling StageLayout MatmulConfig GlobalMemory Loops.

Open Scope N_scope.
Open Scope rust_scope.

(** The contents of memory that has not been written. *)
Class Uninit {MP : MatmulPrecision} := { uninit_es : ES; uninit_ea : EA; uninit_eo : EO }.

(** [Tile::get_line] on a tile of the stage memory. *)
Definition get_line {E : Type} (line_size : N) (stage : list E) (tile : TileView) (coor_strided coor_contiguous : N) :
    outcome (list E) :=
  read_unchecked line_size stage (Tile_get_line tile coor_strided coor_contiguous).

Section Register.
Context {MP : MatmulPrecision} {UN : Uninit}.

(** [TileAccumulator]: a row-major array. *)
Record TileAccumulator := mkAcc { ta_data : list EA; ta_rows : N; ta_cols : N }.

Definition allocate_lhs (config : RegisterConfig) : outcome (list ES) :=
  let? n := size_mk (rc_tile_size config) in Ret (replicate (N.to_nat n) uninit_es).
Definition allocate_rhs (config : RegisterConfig) : outcome (list ES) :=
  let? n := size_nk (rc_tile_size config) in Ret (replicate (N.to_nat n) uninit_es).
Definition allocate_accumulator (config : RegisterConfig) : outcome TileAccumulator :=
  let rows := size_get (rc_tile_size config) DimM in
  let cols := size_get (rc_tile_size config) DimN in
  let? n := checked_mul u32_max rows cols in
  Ret (mkAcc (replicate (N.to_nat n) uninit_ea) rows cols).

Definition zero_accumulator (acc : TileAccumulator) : outcome TileAccumulator :=
  let? n := checked_mul u32_max (ta_rows acc) (ta_cols acc) in
  let? data := for_range n (λ i data, array_write data i ea_zero) (ta_data acc) in
  Ret (mkAcc data (ta_rows acc) (ta_cols acc)).

(** *** Filling the inputs *)

Definition fill_plain (stage : list ES) (tile : TileView) (num_segments segment_size line_size : N) (array : list ES) :
    outcome (list ES) :=
  let? num_lines_per_segment := checked_div segment_size line_size in
  for_range num_segments (λ segment, for_range num_lines_per_segment (λ line_within_segment array,
    let? line := get_line line_size stage tile segment line_within_segment in
    for_range line_size (λ pos_within_line array,
      let? v := array_read line pos_within_line in
      array_write array
        (wadd (wadd (wmul segment segment_size) (wmul line_within_segment line_size)) pos_within_line) v) array)) array.

Definition fill_transposed (stage : list ES) (tile : TileView) (num_segments segment_size line_size : N) (array : list ES) :
    outcome (list ES) :=
  let? num_lines_per_segment := checked_div segment_size line_size in
  for_range num_segments (λ segment, for_range num_lines_per_segment (λ line_within_segment array,
    let? line := get_line line_size stage tile segment line_within_segment in
    for_range line_size (λ pos_within_line array,
      let? v := array_read line pos_within_line in
      array_write array
        (wadd (wmul (wadd (wmul line_within_segment line_size) pos_within_line) num_segments) segment) v) array)) array.

Definition fill_lhs (config : RegisterConfig) (stage : list ES) (tile : TileView) (lhs : list ES) : outcome (list ES) :=
  let m := size_get (rc_tile_size config) DimM in
  let k := size_get (rc_tile_size config) DimK in
  let line_size := rc_stage_line_size config StageLhs in
  match product_type config, rc_matrix_layout config StageLhs with
  | Inner, LayoutRowMajor => fill_plain stage tile m k line_size lhs
  | Inner, LayoutColMajor => fill_transposed stage tile k m line_size lhs
  | Outer, LayoutRowMajor => fill_transposed stage tile m k line_size lhs
  | Outer, LayoutColMajor => fill_plain stage tile k m line_size lhs
  end.

Definition fill_rhs (config : RegisterConfig) (stage : list ES) (tile : TileView) (rhs : list ES) : outcome (list ES) :=
  let n := size_get (rc_tile_size config) DimN in
  let k := size_get (rc_tile_size config) DimK in
  let line_size := rc_stage_line_size config StageRhs in
  match product_type config, rc_matrix_layout config StageRhs with
  | Inner, LayoutRowMajor => fill_transposed stage tile k n line_size rhs
  | Inner, LayoutColMajor => fill_plain stage tile n k line_size rhs
  | Outer, LayoutRowMajor => fill_plain stage tile k n line_size rhs
  | Outer, LayoutColMajor => fill_transposed stage tile n k line_size rhs
  end.

(** *** Products *)

(** [data[i] += lhs * rhs]. *)
Definition accumulate (data : list EA) (i : N) (lhs_elem rhs_elem : EA) : outcome (list EA) :=
  let? old := array_read data i in
  array_write data i (ea_add old (ea_mul lhs_elem rhs_elem)).

Definition inner_product (config : RegisterConfig) (lhs rhs : list ES) (data : list EA) : outcome (list EA) :=
  let m := size_get (rc_tile_size config) DimM in
  let n := size_get (rc_tile_size config) DimN in
  let k := size_get (rc_tile_size config) DimK in
  for_range m (λ m_, for_range n (λ n_, for_range k (λ k_ data,
    let? lhs_elem := array_read lhs (wadd (wmul m_ k) k_) in
    let? rhs_elem := array_read rhs (wadd (wmul n_ k) k_) in
    accumulate data (wadd (wmul m_ n) n_) (ea_of_es lhs_elem) (ea_of_es rhs_elem)))) data.

Definition outer_product (config : RegisterConfig) (lhs rhs : list ES) (data : list EA) : outcome (list EA) :=
  let m := size_get (rc_tile_size config) DimM in
  let n := size_get (rc_tile_size config) DimN in
  let k := size_get (rc_tile_size config) DimK in
  for_range k (λ k_, for_range m (λ m_ data,
    let? lhs_elem := array_read lhs (wadd (wmul k_ m) m_) in
    for_range n (λ n_ data,
      let? rhs_elem := array_read rhs (wadd (wmul k_ n) n_) in
      accumulate data (wadd (wmul m_ n) n_) (ea_of_es lhs_elem) (ea_of_es rhs_elem)) data)) data.

Definition register_execute (config : RegisterConfig) (lhs rhs : list ES) (acc : TileAccumulator) : outcome TileAccumulator :=
  let? data :=
    match product_type config with
    | Inner => inner_product config lhs rhs (ta_data acc)
    | Outer => outer_product config lhs rhs (ta_data acc)
    end in
  Ret (mkAcc data (ta_rows acc) (ta_cols acc)).

(** *** Results *)

(** The lines of the accumulator, written to a slice of shared memory. *)
Definition register_write_results (config : RegisterConfig) (acc : TileAccumulator) (slice : list EO) : outcome (list EO) :=
  let out_line_size := rc_stage_line_size config StageAcc in
  let? size := checked_mul u32_max (ta_rows acc) (ta_cols acc) in
  let? lines := checked_div size out_line_size in
  for_range lines (λ i slice,
    let? line :=
      for_range out_line_size (λ j line,
        let? v := array_read (ta_data acc) (wadd (wmul i out_line_size) j) in
        array_write line j v) (replicate (N.to_nat out_line_size) uninit_ea) in
    write_unchecked out_line_size slice i (eo_of_ea <$> line)) slice.
End Register.

Section Props.
Context {MP : MatmulPrecision} {UN : Uninit}.

(** ** Filling *)

Lemma segment_split line nl e : 0 < line → e < nl * line → ∃ c p, c < nl ∧ p < line ∧ e = c * line + p.
Proof.
  intros Hl He. destruct (div_mod_ex e line Hl) as (c & p & _ & _ & E & Hp). exists c, p. split_and!; [|done|done].
  apply (N.mul_lt_mono_pos_r line); lia.
Qed.

Section Fill.
Context (stage : list ES) (tile : TileView) (line ss ns : N) (W : N → N → ES).
Context (Hline : 0 < line) (Hdiv : (line | ss)) (Hfit : ns * ss < two32).
Context (Hget : ∀ s c, s < ns → c * line < ss → get_line line stage tile s c = Ret (tabulate line (λ p, W s (c * line + p)))).

Lemma fill_plain_ok arr :
  length arr = N.to_nat (ns * ss) →
  fill_plain stage tile ns ss line arr = Ret (tabulate (ns * ss) (λ i, W (i / ss) (i mod ss))).
Proof using Hline Hdiv Hfit Hget.
  intros Hlen. destruct Hdiv as [nl Hss]. unfold fill_plain. rewrite Hss at 1. rewrite checked_div_exact by done. cbn [obind].
  set (final := λ i, W (i / ss) (i mod ss)).
  eapply (sets_all (ns * ss) final _ (λ x, ∃ s, s < ns ∧ ∃ c, c < nl ∧ ∃ p, p < line ∧ x = s * ss + (c * line + p))); [| |done].
  - apply sets_for. intros s Hs. apply sets_for. intros c Hc.
    eapply sets_bind; [apply Hget; [done|rewrite Hss; by apply N.mul_lt_mono_pos_r]|]. apply sets_for. intros p Hp.
    eapply sets_bind; [by apply tabulate_read|].
    pose proof (radix_lt line nl c p Hc Hp) as He. rewrite <- Hss in He. pose proof (radix_lt ss ns s _ Hs He) as Hlt.
    rewrite (wmul_small s), (wmul_small c), (wadd_small (s * _)), wadd_small by lia.
    rewrite <- N.add_assoc. apply sets_write; [done|]. unfold final. by destruct (radix_div_mod ss s _ He) as [-> ->].
  - intros x Hx. destruct (div_mod_ex x ss) as (s & e & _ & _ & E & He); [nia|].
    destruct (segment_split line nl e) as (c & p & Hc & Hp & ->); [done|by rewrite <- Hss|].
    exists s. split; [apply (N.mul_lt_mono_pos_r ss); lia|]. exists c. split; [done|]. by exists p.
Qed.

Lemma fill_transposed_ok arr :
  length arr = N.to_nat (ns * ss) →
  fill_transposed stage tile ns ss line arr = Ret (tabulate (ss * ns) (λ i, W (i mod ns) (i / ns))).
Proof using Hline Hdiv Hfit Hget.
  intros Hlen. destruct Hdiv as [nl Hss]. unfold fill_transposed. rewrite Hss at 1. rewrite checked_div_exact by done. cbn [obind].
  set (final := λ i, W (i mod ns) (i / ns)).
  eapply (sets_all (ss * ns) final _ (λ x, ∃ s, s < ns ∧ ∃ c, c < nl ∧ ∃ p, p < line ∧ x = (c * line + p) * ns + s)); [| |lia].
  - apply sets_for. intros s Hs. apply sets_for. intros c Hc.
    eapply sets_bind; [apply Hget; [done|rewrite Hss; by apply N.mul_lt_mono_pos_r]|]. apply sets_for. intros p Hp.
    eapply sets_bind; [by apply tabulate_read|].
    pose proof (radix_lt line nl c p Hc Hp) as He. rewrite <- Hss in He. pose proof (radix_lt ns ss _ s He Hs) as Hlt.
    assert ((c * line + p) * 1 ≤ (c * line + p) * ns) by (apply N.mul_le_mono_l; lia).
    rewrite (wmul_small c), (wadd_small (c * line)), (wmul_small (c * line + p)), wadd_small by lia.
    apply sets_write; [done|]. unfold final. by destruct (radix_div_mod ns (c * line + p) s Hs) as [-> ->].
  - intros x Hx. destruct (div_mod_ex x ns) as (e & s & _ & _ & E & Hs); [nia|].
    destruct (segment_split line nl e) as (c & p & Hc & Hp & ->); [done|rewrite <- Hss; apply (N.mul_lt_mono_pos_r ns); lia|].
    exists s. split; [done|]. exists c. split; [done|]. by exists p.
Qed.
End Fill.

(** A tile of the stage holds a matrix: every line of it, along the rows or the
    columns. *)
Definition tile_holds (line : N) (stage : list ES) (tile : TileView) (layout : MatrixLayout) (rows cols : N) (V : N → N → ES) : Prop :=
  match layout with
  | LayoutRowMajor => ∀ s c, s < rows → c * line < cols → get_line line stage tile s c = Ret (tabulate line (λ p, V s (c * line + p)))
  | LayoutColMajor => ∀ s c, s < cols → c * line < rows → get_line line stage tile s c = Ret (tabulate line (λ p, V (c * line + p) s))
  end.

(** *** The inputs as matrices *)

Section Tile.
Context (config : RegisterConfig).
Abbreviation m := (size_get (rc_tile_size config) DimM).
Abbreviation n := (size_get (rc_tile_size config) DimN).
Abbreviation k := (size_get (rc_tile_size config) DimK).

Definition lhs_array (A : N → N → ES) : list ES :=
  match product_type config with
  | Inner => tabulate (m * k) (λ i, A (i / k) (i mod k))
  | Outer => tabulate (k * m) (λ i, A (i mod m) (i / m))
  end.
Definition rhs_array (B : N → N → ES) : list ES :=
  match product_type config with
  | Inner => tabulate (n * k) (λ i, B (i mod k) (i / k))
  | Outer => tabulate (k * n) (λ i, B (i / n) (i mod n))
  end.
Definition acc_array (g : N → N → EA) : TileAccumulator := mkAcc (tabulate (m * n) (λ i, g (i / n) (i mod n))) m n.

(** The validation of the configuration, on tiles of fewer than 2^32
    elements. *)
Record register_ok : Prop := {
  ro_line : 0 < rc_stage_line_size config StageLhs ∧ 0 < rc_stage_line_size config StageRhs ∧ 0 < rc_stage_line_size config StageAcc;
  ro_lhs : (rc_stage_line_size config StageLhs | match rc_matrix_layout config StageLhs with LayoutRowMajor => k | LayoutColMajor => m end);
  ro_rhs : (rc_stage_line_size config StageRhs | match rc_matrix_layout config StageRhs with LayoutRowMajor => n | LayoutColMajor => k end);
  ro_out : (rc_stage_line_size config StageAcc | n);
  ro_pos : 0 < m ∧ 0 < n ∧ 0 < k;
  ro_fit : m * k < two32 ∧ k * n < two32 ∧ m * n < two32;
}.
Context (Hok : register_ok).

Lemma fill_lhs_ok stage tile A lhs :
  tile_holds (rc_stage_line_size config StageLhs) stage tile (rc_matrix_layout config StageLhs) m k A →
  length lhs = N.to_nat (m * k) → fill_lhs config stage tile lhs = Ret (lhs_array A).
Proof using Hok.
  intros Ht Hlen. destruct Hok as [(Hl & _) Hd _ _ _ (Hfit & _)]. unfold fill_lhs, lhs_array, tile_holds in *. clear Hok.
  destruct (product_type config), (rc_matrix_layout config StageLhs).
  - by apply (fill_plain_ok stage tile _ k m A).
  - apply (fill_transposed_ok stage tile _ m k (λ s e, A e s)); try done; lia.
  - by apply (fill_transposed_ok stage tile _ k m A).
  - apply (fill_plain_ok stage tile _ m k (λ s e, A e s)); try done; lia.
Qed.

Lemma fill_rhs_ok stage tile B rhs :
  tile_holds (rc_stage_line_size config StageRhs) stage tile (rc_matrix_layout config StageRhs) k n B →
  length rhs = N.to_nat (k * n) → fill_rhs config stage tile rhs = Ret (rhs_array B).
Proof using Hok.
  intros Ht Hlen. destruct Hok as [(_ & Hl & _) _ Hd _ _ (_ & Hfit & _)]. unfold fill_rhs, rhs_array, tile_holds in *. clear Hok.
  destruct (product_type config), (rc_matrix_layout config StageRhs).
  - by apply (fill_transposed_ok stage tile _ n k B).
  - apply (fill_plain_ok stage tile _ k n (λ s e, B e s)); try done; lia.
  - by apply (fill_plain_ok stage tile _ n k B).
  - apply (fill_transposed_ok stage tile _ k n (λ s e, B e s)); try done; lia.
Qed.

Lemma lhs_array_length A : length (lhs_array A) = N.to_nat (m * k).
Proof. unfold lhs_array. destruct (product_type config); rewrite tabulate_length; lia. Qed.
Lemma rhs_array_length B : length (rhs_array B) = N.to_nat (k * n).
Proof. unfold rhs_array. destruct (product_type config); rewrite tabulate_length; lia. Qed.

Lemma zero_accumulator_ok acc :
  ta_rows acc = m → ta_cols acc = n → length (ta_data acc) = N.to_nat (m * n) →
  zero_accumulator acc = Ret (acc_array (λ _ _, ea_zero)).
Proof using Hok.
  intros Hr Hc Hlen. destruct Hok as [_ _ _ _ _ (_ & _ & Hfit)]. unfold zero_accumulator. rewrite Hr, Hc. clear Hok.
  rewrite checked_mul_ok by (unfold two32, u32_max in *; lia). cbn [obind].
  rewrite (sets_all (m * n) (λ _, ea_zero) _ (λ x, ∃ i, i < m * n ∧ x = i)); [done| | |done].
  - apply sets_for. intros i Hi. by apply sets_write.
  - intros x Hx. by exists x.
Qed.

(** ** The products *)

(** The terms of a row and a column, added one after the other. *)
Definition dot (A B : N → N → ES) (terms : N) (start : EA) (r c : N) : EA :=
  fold_upto terms (λ s t, ea_add s (ea_mul (ea_of_es (A r t)) (ea_of_es (B t c)))) start.

Lemma accumulate_ok size f i x y :
  i < size → accumulate (tabulate size f) i x y = Ret (tabulate size (λ j, if j =? i then ea_add (f i) (ea_mul x y) else f j)).
Proof. intros Hi. unfold accumulate. rewrite tabulate_read by done. cbn [obind]. by apply tabulate_write. Qed.

Section Product.
Context (A B : N → N → ES) (g : N → N → EA).

Lemma outer_product_ok :
  product_type config = Outer →
  outer_product config (lhs_array A) (rhs_array B) (ta_data (acc_array g)) = Ret (ta_data (acc_array (λ r c, dot A B k (g r c) r c))).
Proof using Hok.
  intros Hpt. destruct Hok as [_ _ _ _ (Hm & Hn & Hk) (F1 & F2 & F3)]. unfold lhs_array, rhs_array. rewrite Hpt. clear Hpt Hok.
  unfold outer_product, acc_array. cbn [ta_data].
  set (st := λ kk, tabulate (m * n) (λ i, dot A B kk (g (i / n) (i mod n)) (i / n) (i mod n))).
  change (tabulate (m * n) (λ i, g (i / n) (i mod n))) with (st 0). apply (for_range_states k _ st). intros kk Hkk.
  set (st2 := λ mm, tabulate (m * n) (λ i, dot A B (if i <? mm * n then kk + 1 else kk) (g (i / n) (i mod n)) (i / n) (i mod n))).
  replace (st kk) with (st2 0).
  2: { apply tabulate_ext. intros i _. rewrite N.mul_0_l. by destruct (N.ltb_spec i 0); [lia|]. }
  replace (st (kk + 1)) with (st2 m).
  2: { apply tabulate_ext. intros i Hi. by rewrite (proj2 (N.ltb_lt _ _) Hi). }
  apply (for_range_states m _ st2). intros mm Hmm.
  pose proof (radix_lt m k kk mm Hkk Hmm) as L1. rewrite (wmul_small kk m), wadd_small by lia.
  rewrite tabulate_read by done. cbn [obind]. destruct (radix_div_mod m kk mm Hmm) as [-> ->].
  set (st3 := λ nn, tabulate (m * n) (λ i, dot A B (if i <? mm * n + nn then kk + 1 else kk) (g (i / n) (i mod n)) (i / n) (i mod n))).
  replace (st2 mm) with (st3 0) by (unfold st3; by rewrite N.add_0_r).
  replace (st2 (mm + 1)) with (st3 n) by (unfold st2, st3; by rewrite N.mul_add_distr_r, N.mul_1_l).
  apply (for_range_states n _ st3). intros nn Hnn.
  pose proof (radix_lt n k kk nn Hkk Hnn) as L2. pose proof (radix_lt n m mm nn Hmm Hnn) as L3.
  rewrite (wmul_small kk n), (wadd_small (kk * n)), (wmul_small mm n), wadd_small by lia.
  rewrite tabulate_read by done. cbn [obind]. destruct (radix_div_mod n kk nn Hnn) as [-> ->].
  unfold st3. rewrite accumulate_ok by done. f_equal. apply tabulate_ext. intros i Hi.
  destruct (radix_div_mod n mm nn Hnn) as [D M]. destruct (N.eqb_spec i (mm * n + nn)) as [->|Hne].
  - rewrite D, M, (proj2 (N.ltb_ge (mm * n + nn) (mm * n + nn))) by lia.
    rewrite (proj2 (N.ltb_lt (mm * n + nn) (mm * n + (nn + 1)))) by lia. unfold dot. by rewrite fold_upto_succ.
  - destruct (N.ltb_spec i (mm * n + nn)), (N.ltb_spec i (mm * n + (nn + 1))); try done; lia.
Qed.

Lemma inner_product_ok :
  product_type config = Inner →
  inner_product config (lhs_array A) (rhs_array B) (ta_data (acc_array g)) = Ret (ta_data (acc_array (λ r c, dot A B k (g r c) r c))).
Proof using Hok.
  intros Hpt. destruct Hok as [_ _ _ _ (Hm & Hn & Hk) (F1 & F2 & F3)]. unfold lhs_array, rhs_array. rewrite Hpt. clear Hpt Hok.
  unfold inner_product, acc_array. cbn [ta_data].
  set (st := λ mm, tabulate (m * n) (λ i, dot A B (if i <? mm * n then k else 0) (g (i / n) (i mod n)) (i / n) (i mod n))).
  replace (tabulate (m * n) (λ i, g (i / n) (i mod n))) with (st 0).
  2: { apply tabulate_ext. intros i _. rewrite N.mul_0_l. by destruct (N.ltb_spec i 0); [lia|]. }
  replace (tabulate (m * n) (λ i, dot A B k (g (i / n) (i mod n)) (i / n) (i mod n))) with (st m).
  2: { apply tabulate_ext. intros i Hi. by rewrite (proj2 (N.ltb_lt _ _) Hi). }
  apply (for_range_states m _ st). intros mm Hmm.
  set (st2 := λ nn, tabulate (m * n) (λ i, dot A B (if i <? mm * n + nn then k else 0) (g (i / n) (i mod n)) (i / n) (i mod n))).
  replace (st mm) with (st2 0) by (unfold st2; by rewrite N.add_0_r).
  replace (st (mm + 1)) with (st2 n) by (unfold st, st2; by rewrite N.mul_add_distr_r, N.mul_1_l).
  apply (for_range_states n _ st2). intros nn Hnn. pose proof (radix_lt n m mm nn Hmm Hnn) as L3.
  destruct (radix_div_mod n mm nn Hnn) as [D M].
  set (st3 := λ kk, tabulate (m * n) (λ i, dot A B (if i <? mm * n + nn then k else if i =? mm * n + nn then kk else 0) (g (i / n) (i mod n)) (i / n) (i mod n))).
  replace (st2 nn) with (st3 0).
  2: { apply tabulate_ext. intros i _. destruct (i <? mm * n + nn), (i =? mm * n + nn); done. }
  replace (st2 (nn + 1)) with (st3 k).
  2: { apply tabulate_ext. intros i _. clear D M L3. f_equal. generalize (mm * n) as p. intros p.
       destruct (N.ltb_spec i (p + nn)) as [H1|H1], (N.eqb_spec i (p + nn)) as [H2|H2], (N.ltb_spec i (p + (nn + 1))) as [H3|H3]; try done; lia. }
  apply (for_range_states k _ st3). intros kk Hkk.
  pose proof (radix_lt k m mm kk Hmm Hkk) as L1. pose proof (radix_lt k n nn kk Hnn Hkk) as L2.
  rewrite (wmul_small mm k), (wadd_small (mm * k)), (wmul_small nn k), (wadd_small (nn * k)), (wmul_small mm n), wadd_small by lia.
  rewrite !tabulate_read by lia. cbn [obind].
  destruct (radix_div_mod k mm kk Hkk) as [-> ->], (radix_div_mod k nn kk Hkk) as [-> ->].
  unfold st3. rewrite accumulate_ok by done. f_equal. apply tabulate_ext. intros i Hi. destruct (N.eqb_spec i (mm * n + nn)) as [->|Hne].
  - rewrite D, M, N.eqb_refl, (proj2 (N.ltb_ge (mm * n + nn) (mm * n + nn))) by lia. unfold dot. by rewrite fold_upto_succ.
  - done.
Qed.

Lemma register_execute_ok :
  register_execute config (lhs_array A) (rhs_array B) (acc_array g) = Ret (acc_array (λ r c, dot A B k (g r c) r c)).
Proof using Hok.
  unfold register_execute. destruct (product_type config) eqn:Hpt;
    [rewrite inner_product_ok by done|rewrite outer_product_ok by done]; done.
Qed.
End Product.

(** ** Results *)

(** The slice receives the accumulator, cast to the output type. *)
Lemma register_write_results_ok g slice :
  length slice = N.to_nat (m * n) →
  register_write_results config (acc_array g) slice = Ret (tabulate (m * n) (λ i, eo_of_ea (g (i / n) (i mod n)))).
Proof using Hok.
  intros Hlen. destruct Hok as [(_ & _ & Hl) _ _ [q Hq] _ (_ & _ & Hfit)]. clear Hok.
  unfold register_write_results, acc_array. cbn [ta_rows ta_cols ta_data].
  rewrite checked_mul_ok by (unfold two32, u32_max in *; lia). cbn [obind].
  set (line := rc_stage_line_size config StageAcc) in *. set (final := λ i, g (i / n) (i mod n)).
  assert (m * n = m * q * line) as Hmn by (rewrite Hq; lia).
  assert (checked_div (m * n) line = Ret (m * q)) as -> by (rewrite Hmn; by apply checked_div_exact). cbn [obind].
  set (step := λ i s, _). destruct (for_range_inv (λ i s, length s = N.to_nat (m * n) ∧
    ∀ x, x < i * line → s !! N.to_nat x = Some (eo_of_ea (final x))) (m * q) step slice) as (s & -> & Hs & Hall).
  - split; [done|]. intros x Hx. lia.
  - intros i s Hi [Hs Hall]. unfold step.
    assert (i * line + line ≤ m * n) as Hend by (rewrite Hmn; assert ((i + 1) * line ≤ m * q * line) by (apply N.mul_le_mono_r; lia); lia).
    rewrite (sets_all line (λ j, final (i * line + j)) _ (λ x, ∃ j, j < line ∧ x = j)); [| |by eauto|by rewrite length_replicate].
    + cbn [obind]. rewrite write_unchecked_ok by lia. eexists. split; [done|]. split; [by rewrite length_inserts|].
      intros x Hx. rewrite inserts_lookup by (rewrite ?length_fmap, ?tabulate_length; lia). case_decide as Hd.
      * rewrite list_lookup_fmap, tabulate_lookup by lia. replace (i * line + (x - i * line)) with x by lia. done.
      * apply Hall. lia.
    + apply sets_for. intros j Hj. assert (i * line + j < m * n) as Hij by lia.
      rewrite (wmul_small i line), wadd_small by lia. eapply sets_bind; [by apply tabulate_read|].
      by apply sets_write.
  - f_equal. apply tabulate_eq; [done|]. intros x Hx. apply Hall. lia.
Qed.
End Tile.
End Props.
