(* ===== verification/PartitionMatmul.v ===== *)
(** * Stage matmul of a partition

    Model of [crates/cubecl-matmul/src/components/stage/]
    [matmul/partition/{matmul,fragments}.rs], [matmul/partitioned_matmul.rs],
    [matmul/unit_partitioned/matmul.rs], [event_listener.rs],
    [memory/reader.rs] and of the writer [global/write/unit.rs], for the tile
    matmul in registers: a unit multiplies the tiles of its partition of the
    stage, with one or two buffers for the tiles of the right-hand side, and
    writes its tiles of the result.

    The counters and the coordinates of the loops are values of [comptime]; the
    loops over tiles are unrolled.

    A partition adds the products of its tiles to its accumulators in ascending
    order of k, for both bufferings and whatever a listener does. *)

From S2P Require Import Prelude DeviceNum Tiling StageLayout MatmulConfig GlobalMemory StageLoad Loops RegisterTile.

Open Scope N_scope.
Open Scope rust_scope.

(** ** Events *)

Inductive StageEvent :=
| EventBegin
| LhsLoaded (current total : N)
| RhsLoaded (current total : N)
| TileMatmulCompleted (current total : N)
| EventFinish.

(** [Sequence::index] and [index_mut]. *)
Definition seq_index {A : Type} (l : list A) (i : N) : outcome A := expect (l !! N.to_nat i) "index out of bounds".
Definition seq_update {A : Type} (l : list A) (i : N) (f : A → outcome A) : outcome (list A) :=
  let? x := seq_index l i in
  let? x := f x in
  Ret (<[N.to_nat i := x]> l).

Section Partition.
Context {MP : MatmulPrecision} {UN : Uninit}.

(** ** Fragments *)

Definition Accumulators_new (config : UnitPartitionedStageConfig) : outcome (list TileAccumulator) :=
  let? mn := size_mn (partition_size (uc_tiling_scheme config)) in
  let? acc := allocate_accumulator (uc_tile_config config) in
  Ret (replicate (N.to_nat mn) acc).
Definition Accumulators_zero (config : UnitPartitionedStageConfig) (acc : list TileAccumulator) : outcome (list TileAccumulator) :=
  let? mn := size_mn (partition_size (uc_tiling_scheme config)) in
  for_range mn (λ i acc, seq_update acc i zero_accumulator) acc.
Definition acc_index (config : UnitPartitionedStageConfig) (i j : N) : outcome N :=
  let? tiles_n := tiles_in_stage_partition_n (uc_tiling_scheme config) in
  let? row := checked_mul u32_max i tiles_n in
  checked_add u32_max row j.
Definition get_at (config : UnitPartitionedStageConfig) (acc : list TileAccumulator) (i j : N) : outcome TileAccumulator :=
  let? index := acc_index config i j in seq_index acc index.

Inductive RhsTile := RhsSingle (rhs : list ES) | RhsDouble (fst snd : list ES).

Definition init_tile_inputs (config : UnitPartitionedStageConfig) : outcome (list (list ES) * RhsTile) :=
  let? tiles_m := tiles_in_stage_partition_m (uc_tiling_scheme config) in
  let? lhs := allocate_lhs (uc_tile_config config) in
  let? rhs := allocate_rhs (uc_tile_config config) in
  Ret (replicate (N.to_nat tiles_m) lhs,
       match uc_partition_buffering config with
       | SingleBuffering => RhsSingle rhs
       | DoubleBuffering => RhsDouble rhs rhs
       end).

(** ** Reading tiles *)

(** [FullStageToTileReader]: the contents and the layout of a stage. *)
Record FullReader := mkFullReader { fr_stage : list ES; fr_layout : TilingLayout; fr_ident : StageIdent }.
Definition read_tile (r : FullReader) (row col : N) (config : StageMemoryConfig) : outcome TileView :=
  StageMemory_get_tile (fr_layout r) row col 0 (fr_ident r) config.

(** ** The loops over the tiles of a partition *)

Section Listener.
(** A listener: its state and what it does on an event. *)
Context {L : Type} (on_event : StageEvent → L → outcome L).

Record PartState := mkPart {
  ps_lhs : list (list ES);
  ps_acc : list TileAccumulator;
  ps_listener : L;
  lhs_load_counter : N;
  rhs_load_counter : N;
  execute_counter : N;
}.

Section Execute.
Context (start_m start_n : N) (lhs_reader rhs_reader : FullReader) (config : UnitPartitionedStageConfig).
Context (lhs_load_total rhs_load_total execute_total : N).

Definition load_lhs_tile (k_iter m_iter : N) (s : PartState) : outcome PartState :=
  let? tile_lhs := read_tile lhs_reader (wadd start_m m_iter) k_iter (stage_memory_config config) in
  let? lhs := seq_update (ps_lhs s) m_iter (fill_lhs (uc_tile_config config) (fr_stage lhs_reader) tile_lhs) in
  let? l := on_event (LhsLoaded (lhs_load_counter s) lhs_load_total) (ps_listener s) in
  let? c := checked_add u32_max (lhs_load_counter s) 1 in
  Ret (mkPart lhs (ps_acc s) l c (rhs_load_counter s) (execute_counter s)).

Definition load_rhs_tile (k_iter n_iter : N) (rhs_fragment : list ES) (s : PartState) : outcome (list ES * PartState) :=
  let? rhs_tile_next := read_tile rhs_reader k_iter (wadd start_n n_iter) (stage_memory_config config) in
  let? rhs := fill_rhs (uc_tile_config config) (fr_stage rhs_reader) rhs_tile_next rhs_fragment in
  let? l := on_event (RhsLoaded (rhs_load_counter s) rhs_load_total) (ps_listener s) in
  let? c := checked_add u32_max (rhs_load_counter s) 1 in
  Ret (rhs, mkPart (ps_lhs s) (ps_acc s) l (lhs_load_counter s) c (execute_counter s)).

Definition execute_tile (rhs_fragment : list ES) (n_iter m_iter : N) (s : PartState) : outcome PartState :=
  let? index := acc_index config m_iter n_iter in
  let? lhs := seq_index (ps_lhs s) m_iter in
  let? acc := seq_update (ps_acc s) index (register_execute (uc_tile_config config) lhs rhs_fragment) in
  let? l := on_event (TileMatmulCompleted (execute_counter s) execute_total) (ps_listener s) in
  let? c := checked_add u32_max (execute_counter s) 1 in
  Ret (mkPart (ps_lhs s) acc l (lhs_load_counter s) (rhs_load_counter s) c).

Context (m_iterations n_iterations k_iterations : N).

Definition single_buffer_k (k_iter : N) (x : list ES * PartState) : outcome (list ES * PartState) :=
  let '(rhs_fragment, s) := x in
  let? s := for_range m_iterations (load_lhs_tile k_iter) s in
  for_range n_iterations (λ n_iter '(rhs_fragment, s),
    let? '(rhs_fragment, s) := load_rhs_tile k_iter n_iter rhs_fragment s in
    let? s := for_range m_iterations (execute_tile rhs_fragment n_iter) s in
    Ret (rhs_fragment, s)) (rhs_fragment, s).

(** The two fragments are used in turn: [current] is the one of the parity of
    the tile. *)
Definition current_fragment (n_iter : N) (frags : list ES * list ES) : list ES :=
  if n_iter mod 2 =? 0 then frags.1 else frags.2.
Definition next_fragment (n_iter : N) (frags : list ES * list ES) : list ES :=
  if n_iter mod 2 =? 0 then frags.2 else frags.1.
Definition set_next_fragment (n_iter : N) (frags : list ES * list ES) (next : list ES) : list ES * list ES :=
  if n_iter mod 2 =? 0 then (frags.1, next) else (next, frags.2).

Definition double_buffer_k (k_iter : N) (x : list ES * list ES * PartState) : outcome (list ES * list ES * PartState) :=
  let '(frags, s) := x in
  let? s := for_range m_iterations (load_lhs_tile k_iter) s in
  let? '(first, s) := load_rhs_tile k_iter 0 frags.1 s in
  let? '(frags, s) :=
    for_range (n_iterations - 1) (λ n_iter '(frags, s),
      let? next_iter := checked_add u32_max n_iter 1 in
      let? '(next, s) := load_rhs_tile k_iter next_iter (next_fragment n_iter frags) s in
      let frags := set_next_fragment n_iter frags next in
      let? s := for_range m_iterations (execute_tile (current_fragment n_iter frags) n_iter) s in
      Ret (frags, s)) ((first, frags.2), s) in
  let n_iter := n_iterations - 1 in
  let? s := for_range m_iterations (execute_tile (current_fragment n_iter frags) n_iter) s in
  Ret (frags, s).
End Execute.

Definition assert_counters (lhs_load_total rhs_load_total execute_total : N) (s : PartState) : outcome unit :=
  if (lhs_load_counter s =? lhs_load_total) && (rhs_load_counter s =? rhs_load_total) &&
     (execute_counter s =? execute_total) then Ret tt
  else Panic "assertion failed".

(** [PartitionMatmul::execute_with_listener]. *)
Definition PartitionMatmul_execute (start_m start_n : N) (lhs_reader rhs_reader : FullReader) (lhs_fragment : list (list ES))
    (rhs_fragments : RhsTile) (acc : list TileAccumulator) (config : UnitPartitionedStageConfig) (listener : L) :
    outcome (list (list ES) * RhsTile * list TileAccumulator * L) :=
  let? listener := on_event EventBegin listener in
  let? m_iterations := tiles_in_stage_partition_m (uc_tiling_scheme config) in
  let? n_iterations := tiles_in_stage_partition_n (uc_tiling_scheme config) in
  let? k_iterations := tiles_in_stage_partition_k (uc_tiling_scheme config) in
  let? lhs_load_total := checked_mul u32_max m_iterations k_iterations in
  let? rhs_load_total := checked_mul u32_max n_iterations k_iterations in
  let? mn := checked_mul u32_max m_iterations n_iterations in
  let? execute_total := checked_mul u32_max mn k_iterations in
  let s := mkPart lhs_fragment acc listener 0 0 0 in
  let? '(rhs_fragments, s) :=
    match rhs_fragments with
    | RhsSingle rhs =>
        let? '(rhs, s) :=
          for_range k_iterations
            (single_buffer_k start_m start_n lhs_reader rhs_reader config lhs_load_total rhs_load_total execute_total
               m_iterations n_iterations) (rhs, s) in
        Ret (RhsSingle rhs, s)
    | RhsDouble fst snd =>
        let? '(frags, s) :=
          for_range k_iterations
            (double_buffer_k start_m start_n lhs_reader rhs_reader config lhs_load_total rhs_load_total execute_total
               m_iterations n_iterations) ((fst, snd), s) in
        Ret (RhsDouble frags.1 frags.2, s)
    end in
  let? _ := assert_counters lhs_load_total rhs_load_total execute_total s in
  let? l := on_event EventFinish (ps_listener s) in
  Ret (ps_lhs s, rhs_fragments, ps_acc s, l).

(** ** Partitions of a stage *)

(** [UnitPartitioner::position]. *)
Definition partition_position (config : UnitPartitionedStageConfig) (u : UnitPos) : N :=
  wadd (unit_x u) (wmul (uc_plane_dim config) (compute_index (rule (uc_plane_role_config config)) (unit_y u))).
Definition partition_num_primitives (config : UnitPartitionedStageConfig) : outcome N :=
  checked_mul u32_max (uc_num_main_flow_planes config) (uc_plane_dim config).

(** The first tile of the partition at a position. *)
Definition partition_start (config : UnitPartitionedStageConfig) (position : N) : outcome (N * N) :=
  let? m_acc_count := tiles_in_stage_partition_m (uc_tiling_scheme config) in
  let? n_acc_count := tiles_in_stage_partition_n (uc_tiling_scheme config) in
  let? num_partitions_n := stage_partitions_in_stage_n (uc_tiling_scheme config) in
  Ret (wmul m_acc_count (position / num_partitions_n), wmul n_acc_count (position mod num_partitions_n)).

(** [PartitionedStageMatmul::execute_with_listener]. *)
Definition stage_execute (u : UnitPos) (lhs_reader rhs_reader : FullReader) (lhs_fragment : list (list ES))
    (rhs_fragments : RhsTile) (acc : list TileAccumulator) (config : UnitPartitionedStageConfig) (listener : L) :
    outcome (list (list ES) * RhsTile * list TileAccumulator * L) :=
  let? '(start_m, start_n) := partition_start config (partition_position config u) in
  PartitionMatmul_execute start_m start_n lhs_reader rhs_reader lhs_fragment rhs_fragments acc config listener.
End Listener.

(** ** Writing the results *)

(** [UnitWriter::write]: a unit writes a whole tile.  The tile is in a slice of
    shared memory. *)
Definition unit_write (g : GlobalConfig) (w : TensorWriter) (out_smem_slice : list EO) (tile_row tile_col : N) :
    outcome (list (N * list EO)) :=
  let? tile_size := elements_in_tile_mn (gc_tiling_scheme g) in
  let output_line_size := gc_global_line_size g IdentOut in
  let? num_lines := checked_div tile_size output_line_size in
  for_range num_lines (λ i ws,
    let? value := read_unchecked output_line_size out_smem_slice i in
    let? w := write_coalesced g w tile_row tile_col (wmul i output_line_size) value in
    Ret (ws ++ w)) [].

(** [PartitionedStageMatmul::write_results]: every tile passes through the
    slice of the shared memory [out_smem] that belongs to the unit. *)
Definition stage_write_results (u : UnitPos) (acc : list TileAccumulator) (out_smem : list EO) (w : TensorWriter)
    (config : UnitPartitionedStageConfig) (g : GlobalConfig) : outcome (list (N * list EO)) :=
  let out_smem_line_size := rc_stage_line_size (uc_tile_config config) StageAcc in
  let? tile_mn := elements_in_tile_mn (uc_tiling_scheme config) in
  let? num_tile_lines := checked_div tile_mn out_smem_line_size in
  let? m_iterations := tiles_in_stage_partition_m (gc_tiling_scheme g) in
  let? n_iterations := tiles_in_stage_partition_n (gc_tiling_scheme g) in
  let position := partition_position config u in
  let slice_start := wmul num_tile_lines position in
  let smem_slice := take (N.to_nat (num_tile_lines * out_smem_line_size)) (drop (N.to_nat (slice_start * out_smem_line_size)) out_smem) in
  let? num_partitions_n := stage_partitions_in_stage_n (uc_tiling_scheme config) in
  let m_offset := wmul m_iterations (position / num_partitions_n) in
  let n_offset := wmul n_iterations (position mod num_partitions_n) in
  let? '(_, ws) :=
    for_range m_iterations (λ m_iter, for_range n_iterations (λ n_iter '(smem_slice, ws),
      let? accumulator := get_at config acc m_iter n_iter in
      let? smem_slice := register_write_results (uc_tile_config config) accumulator smem_slice in
      let? w := unit_write g w smem_slice (wadd m_offset m_iter) (wadd n_offset n_iter) in
      Ret (smem_slice, ws ++ w))) (smem_slice, []) in
  Ret ws.

(** The allocation of the shared memory of the results. *)
Definition out_smem_new (config : UnitPartitionedStageConfig) : outcome (list EO) :=
  let out_smem_line_size := rc_stage_line_size (uc_tile_config config) StageAcc in
  let? tile_mn := elements_in_tile_mn (uc_tiling_scheme config) in
  let? num_tile_lines := checked_div tile_mn out_smem_line_size in
  let? num_primitives := partition_num_primitives config in
  let? out_smem_num_lines := checked_mul u32_max num_tile_lines num_primitives in
  Ret (replicate (N.to_nat (out_smem_num_lines * out_smem_line_size)) uninit_eo).
End Partition.

Lemma seq_update_ok {A} (l : list A) i x f y :
  l !! N.to_nat i = Some x → f x = Ret y → seq_update l i f = Ret (<[N.to_nat i := y]> l).
Proof. intros Hx Hf. unfold seq_update, seq_index. rewrite Hx. cbn [expect obind]. by rewrite Hf. Qed.

Lemma tabulate_insert {A} n (f : N → A) i v :
  i < n → <[N.to_nat i := v]> (tabulate n f) = tabulate n (λ x, if x =? i then v else f x).
Proof.
  intros Hi. pose proof (tabulate_write n f i v Hi) as Hw. unfold array_write in Hw.
  rewrite (proj2 (N.ltb_lt _ _)) in Hw by (rewrite tabulate_length; lia). by injection Hw.
Qed.

Section Partition.
Context {MP : MatmulPrecision} {UN : Uninit}.
Context {L : Type} (on_event : StageEvent → L → outcome L).
Context (Hevent : ∀ e l, ∃ l', on_event e l = Ret l').
Context (start_m start_n : N) (lhs_reader rhs_reader : FullReader) (config : UnitPartitionedStageConfig).
Context (pm pn pk : N).
Abbreviation rc := (uc_tile_config config).
Abbreviation m := (size_get (rc_tile_size rc) DimM).
Abbreviation n := (size_get (rc_tile_size rc) DimN).
Abbreviation k := (size_get (rc_tile_size rc) DimK).
Context (Hok : register_ok rc).
Context (Hpm : tiles_in_stage_partition_m (uc_tiling_scheme config) = Ret pm).
Context (Hpn : tiles_in_stage_partition_n (uc_tiling_scheme config) = Ret pn).
Context (Hpk : tiles_in_stage_partition_k (uc_tiling_scheme config) = Ret pk).
Context (Hpn0 : 0 < pn) (Hpm0 : 0 < pm) (Hmax : pm * pn * pk ≤ u32_max) (Hmn : pm * pn ≤ u32_max).

(** The tiles of the stages. *)
Context (LA : N → N → N → N → ES) (RB : N → N → N → N → ES).
Context (Hlhs : ∀ mi ki, mi < pm → ki < pk → ∃ tile,
  read_tile lhs_reader (wadd start_m mi) ki (stage_memory_config config) = Ret tile ∧
  tile_holds (rc_stage_line_size rc StageLhs) (fr_stage lhs_reader) tile (rc_matrix_layout rc StageLhs) m k (LA mi ki)).
Context (Hrhs : ∀ ki ni, ki < pk → ni < pn → ∃ tile,
  read_tile rhs_reader ki (wadd start_n ni) (stage_memory_config config) = Ret tile ∧
  tile_holds (rc_stage_line_size rc StageRhs) (fr_stage rhs_reader) tile (rc_matrix_layout rc StageRhs) k n (RB ki ni)).

(** *** Accumulators as functions of the tile and the position in it *)

Definition accs (G : N → N → N → N → EA) : list TileAccumulator :=
  tabulate (pm * pn) (λ x, acc_array rc (G (x / pn) (x mod pn))).

Lemma accs_ext G G' :
  (∀ mi ni r c, mi < pm → ni < pn → G mi ni r c = G' mi ni r c) → accs G = accs G'.
Proof using All.
  intros H. apply tabulate_ext. intros x Hx. unfold acc_array. f_equal. apply tabulate_ext. intros i _.
  destruct (div_mod_ex x pn Hpn0) as (q & r & -> & -> & Ex & Hr). apply H; [|done]. apply (N.mul_lt_mono_pos_r pn); lia.
Qed.

Lemma acc_index_ok mi ni : mi < pm → ni < pn → acc_index config mi ni = Ret (mi * pn + ni) ∧ mi * pn + ni < pm * pn.
Proof using All.
  intros Hm Hn. pose proof (radix_lt pn pm mi ni Hm Hn) as Hlt. unfold acc_index. rewrite Hpn. cbn [obind].
  rewrite checked_mul_ok by lia. cbn [obind]. by rewrite checked_add_ok by lia.
Qed.

(** The accumulators after the first [t] tiles along k. *)
Definition partial (G : N → N → N → N → EA) (t mi ni r c : N) : EA :=
  fold_upto t (λ s ki, dot (LA mi ki) (RB ki ni) k s r c) (G mi ni r c).

(** In iteration [kk] some accumulators are done already. *)
Definition accs_at (G : N → N → N → N → EA) (kk : N) (ready : N → N → bool) : list TileAccumulator :=
  accs (λ mi ni r c, partial G (if ready mi ni then kk + 1 else kk) mi ni r c).

Lemma accs_execute G kk ready mi ni :
  mi < pm → ni < pn → ready mi ni = false →
  seq_update (accs_at G kk ready) (mi * pn + ni) (register_execute rc (lhs_array rc (LA mi kk)) (rhs_array rc (RB kk ni))) =
    Ret (accs_at G kk (λ mi' ni', ready mi' ni' || ((mi' =? mi) && (ni' =? ni)))).
Proof using All.
  intros Hm Hn Hr. pose proof (radix_lt pn pm mi ni Hm Hn) as Hlt. destruct (radix_div_mod pn mi ni Hn) as [D M].
  unfold accs_at at 1. unfold accs. erewrite seq_update_ok; [|by apply tabulate_lookup|].
  2: { rewrite D, M, Hr. apply register_execute_ok, Hok. }
  f_equal. rewrite tabulate_insert by done. unfold accs_at, accs. apply tabulate_ext. intros x Hx.
  destruct (N.eqb_spec x (mi * pn + ni)) as [->|Hne].
  - rewrite D, M, !N.eqb_refl, orb_true_r. unfold acc_array. f_equal. apply tabulate_ext. intros i _.
    unfold partial. by rewrite fold_upto_succ.
  - assert ((x / pn =? mi) && (x mod pn =? ni) = false) as ->; [|by rewrite orb_false_r].
    destruct (div_mod_ex x pn Hpn0) as (q & r & -> & -> & Ex & _). destruct (N.eqb_spec q mi), (N.eqb_spec r ni); try done. nia.
Qed.

(** *** The inputs *)

Definition lhs_sized (lhs : list (list ES)) : Prop :=
  length lhs = N.to_nat pm ∧ ∀ i arr, lhs !! i = Some arr → length arr = N.to_nat (m * k).
Definition lhs_ready (kk : N) (lhs : list (list ES)) : Prop :=
  lhs = tabulate pm (λ mi, lhs_array rc (LA mi kk)).

Lemma lhs_ready_sized kk lhs : lhs_ready kk lhs → lhs_sized lhs.
Proof using All.
  intros ->. split; [apply tabulate_length|]. intros i arr Ha. apply lookup_lt_Some in Ha as Hi. rewrite tabulate_length in Hi.
  rewrite <- (Nat2N.id i) in Ha. rewrite tabulate_lookup in Ha by lia. injection Ha as <-. apply lhs_array_length.
Qed.

Abbreviation load_lhs := (load_lhs_tile on_event start_m lhs_reader config (pm * pk)).
Abbreviation load_rhs := (load_rhs_tile on_event start_n rhs_reader config (pn * pk)).
Abbreviation exec := (execute_tile on_event config (pm * pn * pk)).

(** Loading the tiles of the left-hand side. *)
Lemma load_lhs_ok kk s :
  kk < pk → lhs_sized (ps_lhs s) → lhs_load_counter s + pm ≤ u32_max →
  ∃ s', for_range pm (load_lhs kk) s = Ret s' ∧ lhs_ready kk (ps_lhs s') ∧ ps_acc s' = ps_acc s ∧
    lhs_load_counter s' = lhs_load_counter s + pm ∧ rhs_load_counter s' = rhs_load_counter s ∧ execute_counter s' = execute_counter s.
Proof using All.
  intros Hkk Hsized Hc.
  destruct (for_range_inv (λ i t, lhs_sized (ps_lhs t) ∧ (∀ mi, mi < i → ps_lhs t !! N.to_nat mi = Some (lhs_array rc (LA mi kk))) ∧
    ps_acc t = ps_acc s ∧ lhs_load_counter t = lhs_load_counter s + i ∧ rhs_load_counter t = rhs_load_counter s ∧
    execute_counter t = execute_counter s) pm (load_lhs kk) s) as (s' & -> & [Hlen Hall] & Hset & Hrest).
  - split_and!; try done; lia.
  - intros i t Hi ([Hlen Hall] & Hset & Ha & Hl & Hr & He). unfold load_lhs_tile.
    destruct (Hlhs i kk Hi Hkk) as (tile & -> & Htile). cbn [obind].
    destruct (lookup_lt_is_Some_2 (ps_lhs t) (N.to_nat i)) as [arr Harr]; [lia|].
    erewrite seq_update_ok; [|done|by apply fill_lhs_ok; [done|done|eapply Hall]]. cbn [obind].
    destruct (Hevent (LhsLoaded (lhs_load_counter t) (pm * pk)) (ps_listener t)) as [l ->]. cbn [obind].
    rewrite Hl, checked_add_ok by lia. cbn [obind]. eexists. split; [done|]. cbn [ps_lhs ps_acc lhs_load_counter rhs_load_counter execute_counter].
    split_and!; try done; [split| |lia].
    + by rewrite length_insert.
    + intros j a Ha'. destruct (decide (j = N.to_nat i)) as [->|Hne].
      * rewrite list_lookup_insert_eq in Ha' by lia. injection Ha' as <-. apply lhs_array_length.
      * rewrite list_lookup_insert_ne in Ha' by done. by apply (Hall j).
    + intros mi Hmi. destruct (decide (mi = i)) as [->|Hne]; [by rewrite list_lookup_insert_eq by lia|].
      rewrite list_lookup_insert_ne by lia. apply Hset. lia.
  - exists s'. split; [done|]. split; [|done]. by apply tabulate_eq.
Qed.

(** Loading a tile of the right-hand side. *)
Lemma load_rhs_ok kk ni frag s :
  kk < pk → ni < pn → length frag = N.to_nat (k * n) → rhs_load_counter s + 1 ≤ u32_max →
  ∃ s', load_rhs kk ni frag s = Ret (rhs_array rc (RB kk ni), s') ∧ ps_lhs s' = ps_lhs s ∧ ps_acc s' = ps_acc s ∧
    lhs_load_counter s' = lhs_load_counter s ∧ rhs_load_counter s' = rhs_load_counter s + 1 ∧ execute_counter s' = execute_counter s.
Proof using All.
  intros Hkk Hni Hlen Hc. unfold load_rhs_tile. destruct (Hrhs kk ni Hkk Hni) as (tile & -> & Htile). cbn [obind].
  rewrite (fill_rhs_ok rc Hok _ _ (RB kk ni)) by done. cbn [obind].
  destruct (Hevent (RhsLoaded (rhs_load_counter s) (pn * pk)) (ps_listener s)) as [l ->]. cbn [obind].
  rewrite checked_add_ok by done. cbn [obind]. by eexists.
Qed.

(** The columns of tiles before [ni] are done. *)
Definition before (ni : N) : N → N → bool := λ _ ni', ni' <? ni.

(** A column of tiles. *)
Lemma execute_column_ok G kk ni s :
  ni < pn → lhs_ready kk (ps_lhs s) → ps_acc s = accs_at G kk (before ni) → execute_counter s + pm ≤ u32_max →
  ∃ s', for_range pm (exec (rhs_array rc (RB kk ni)) ni) s = Ret s' ∧ ps_lhs s' = ps_lhs s ∧ ps_acc s' = accs_at G kk (before (ni + 1)) ∧
    lhs_load_counter s' = lhs_load_counter s ∧ rhs_load_counter s' = rhs_load_counter s ∧ execute_counter s' = execute_counter s + pm.
Proof using All.
  intros Hni Hlhs' Hacc Hc.
  destruct (for_range_inv (λ i t, ps_lhs t = ps_lhs s ∧
    ps_acc t = accs_at G kk (λ mi' ni', before ni mi' ni' || ((mi' <? i) && (ni' =? ni))) ∧
    lhs_load_counter t = lhs_load_counter s ∧ rhs_load_counter t = rhs_load_counter s ∧ execute_counter t = execute_counter s + i)
    pm (exec (rhs_array rc (RB kk ni)) ni) s) as (s' & -> & Hl' & Ha' & Hrest).
  - split_and!; try done; [|lia]. rewrite Hacc. apply accs_ext. intros mi ni' r c _ _.
    destruct (N.ltb_spec mi 0); [lia|]. by rewrite orb_false_r.
  - intros i t Hi (Hl & Ha & Hc1 & Hc2 & Hc3). unfold execute_tile.
    destruct (acc_index_ok i ni Hi Hni) as [-> Hlt]. cbn [obind]. rewrite Hl, Hlhs'. unfold seq_index. rewrite tabulate_lookup by done. cbn [expect obind].
    rewrite Ha, accs_execute; [|done|done|].
    2: { unfold before. destruct (N.ltb_spec ni ni), (N.ltb_spec i i); try done; lia. }
    cbn [obind]. destruct (Hevent (TileMatmulCompleted (execute_counter t) (pm * pn * pk)) (ps_listener t)) as [l ->]. cbn [obind].
    rewrite Hc3, checked_add_ok by lia. cbn [obind]. eexists. split; [done|]. cbn [ps_lhs ps_acc lhs_load_counter rhs_load_counter execute_counter].
    split_and!; try done; [|lia]. apply accs_ext. intros mi ni' r c _ _. f_equal.
    destruct (before ni mi ni'); [done|]. cbn [orb].
    destruct (N.ltb_spec mi i), (N.ltb_spec mi (i + 1)), (N.eqb_spec mi i), (N.eqb_spec ni' ni); try done; lia.
  - exists s'. split_and!; try done; [|apply Hrest..]. rewrite Ha'. apply accs_ext. intros mi ni' r c Hmi _. f_equal. unfold before.
    rewrite (proj2 (N.ltb_lt mi pm) Hmi). cbn [andb].
    destruct (N.ltb_spec ni' ni), (N.eqb_spec ni' ni), (N.ltb_spec ni' (ni + 1)); try done; lia.
Qed.

(** *** One step along k *)

(** The state between two steps. *)
Definition after_k (G : N → N → N → N → EA) (kk : N) (s : PartState (L := L)) : Prop :=
  lhs_sized (ps_lhs s) ∧ ps_acc s = accs (λ mi ni r c, partial G kk mi ni r c) ∧
  lhs_load_counter s = kk * pm ∧ rhs_load_counter s = kk * pn ∧ execute_counter s = kk * (pm * pn).

Lemma counters_fit kk : kk < pk → kk * pm + pm ≤ u32_max ∧ kk * pn + pn ≤ u32_max ∧ kk * (pm * pn) + pm * pn ≤ u32_max.
Proof using All.
  clear Hlhs Hrhs Hevent. intros Hkk. assert ((kk + 1) * (pm * pn) ≤ pk * (pm * pn)) by (apply N.mul_le_mono_r; lia).
  assert ((kk + 1) * pm * 1 ≤ (kk + 1) * pm * pn) by (apply N.mul_le_mono_l; lia).
  assert ((kk + 1) * pn * 1 ≤ (kk + 1) * pn * pm) by (apply N.mul_le_mono_l; lia). lia.
Qed.

Lemma accs_start G kk : accs (λ mi ni r c, partial G kk mi ni r c) = accs_at G kk (before 0).
Proof using All. apply accs_ext. intros mi ni r c _ _. unfold before. by destruct (N.ltb_spec ni 0); [lia|]. Qed.

Lemma accs_end G kk : accs_at G kk (before pn) = accs (λ mi ni r c, partial G (kk + 1) mi ni r c).
Proof using All. apply accs_ext. intros mi ni r c _ Hni. unfold before. by rewrite (proj2 (N.ltb_lt _ _) Hni). Qed.

Abbreviation single_k := (single_buffer_k on_event start_m start_n lhs_reader rhs_reader config (pm * pk) (pn * pk) (pm * pn * pk) pm pn).
Abbreviation double_k := (double_buffer_k on_event start_m start_n lhs_reader rhs_reader config (pm * pk) (pn * pk) (pm * pn * pk) pm pn).

Lemma single_k_ok G kk frag s :
  kk < pk → length frag = N.to_nat (k * n) → after_k G kk s →
  ∃ frag' s', single_k kk (frag, s) = Ret (frag', s') ∧ length frag' = N.to_nat (k * n) ∧ after_k G (kk + 1) s'.
Proof using All.
  intros Hkk Hfrag (Hsized & Hacc & Hc1 & Hc2 & Hc3). destruct (counters_fit kk Hkk) as (F1 & F2 & F3). unfold single_buffer_k.
  destruct (load_lhs_ok kk s) as (s1 & -> & Hready & Ha1 & C1 & C2 & C3); [done|done|lia|]. cbn [obind].
  match goal with |- context [for_range pn ?b (frag, s1)] => set (body := b) end.
  destruct (for_range_inv (λ i '(f, t), length f = N.to_nat (k * n) ∧ ps_lhs t = ps_lhs s1 ∧ ps_acc t = accs_at G kk (before i) ∧
    lhs_load_counter t = lhs_load_counter s1 ∧ rhs_load_counter t = kk * pn + i ∧ execute_counter t = kk * (pm * pn) + i * pm)
    pn body (frag, s1)) as ([f t] & -> & Hf & Hl & Ha & D1 & D2 & D3).
  - split_and!; try done; [by rewrite Ha1, Hacc, accs_start|lia|lia].
  - intros i [f t] Hi (Hf & Hl & Ha & D1 & D2 & D3). unfold body.
    destruct (load_rhs_ok kk i f t) as (t1 & -> & El & Ea & E1 & E2 & E3); [done|done|done|lia|]. cbn [obind].
    assert (i * pm + pm ≤ pn * pm) as Hb by (assert ((i + 1) * pm ≤ pn * pm) by (apply N.mul_le_mono_r; lia); lia).
    destruct (execute_column_ok G kk i t1) as (t2 & -> & El2 & Ea2 & E12 & E22 & E32);
      [done|by rewrite El, Hl|by rewrite Ea|lia|]. cbn [obind]. eexists. split; [done|]. cbn beta iota.
    split_and!; [apply rhs_array_length|by rewrite El2, El|done|lia|lia|lia].
  - exists f, t. split; [done|]. split; [done|]. split_and!; [rewrite Hl; by apply lhs_ready_sized in Hready|by rewrite Ha, accs_end|lia|lia|lia].
Qed.

Lemma double_k_ok G kk frags s :
  kk < pk → length frags.1 = N.to_nat (k * n) → length frags.2 = N.to_nat (k * n) → after_k G kk s →
  ∃ frags' s', double_k kk (frags, s) = Ret (frags', s') ∧ length frags'.1 = N.to_nat (k * n) ∧ length frags'.2 = N.to_nat (k * n) ∧
    after_k G (kk + 1) s'.
Proof using All.
  intros Hkk Hfrag1 Hfrag2 (Hsized & Hacc & Hc1 & Hc2 & Hc3). destruct (counters_fit kk Hkk) as (F1 & F2 & F3). unfold double_buffer_k.
  destruct (load_lhs_ok kk s) as (s1 & -> & Hready & Ha1 & C1 & C2 & C3); [done|done|lia|]. cbn [obind].
  destruct (load_rhs_ok kk 0 frags.1 s1) as (s2 & -> & El0 & Ea0 & E10 & E20 & E30); [done|done|done|lia|]. cbn [obind].
  match goal with |- context [for_range (pn - 1) ?b ?x] => set (body := b); set (x0 := x) end.
  destruct (for_range_inv (λ i '(f, t), length f.1 = N.to_nat (k * n) ∧ length f.2 = N.to_nat (k * n) ∧
    current_fragment i f = rhs_array rc (RB kk i) ∧ ps_lhs t = ps_lhs s1 ∧ ps_acc t = accs_at G kk (before i) ∧
    lhs_load_counter t = lhs_load_counter s1 ∧ rhs_load_counter t = kk * pn + i + 1 ∧ execute_counter t = kk * (pm * pn) + i * pm)
    (pn - 1) body x0) as ([f t] & -> & Hf1 & Hf2 & Hcur & Hl & Ha & D1 & D2 & D3).
  - unfold x0. split_and!; try done; [apply rhs_array_length|by rewrite Ea0, Ha1, Hacc, accs_start|lia|lia].
  - intros i [f t] Hi (Hf1 & Hf2 & Hcur & Hl & Ha & D1 & D2 & D3). unfold body.
    rewrite checked_add_ok by lia. cbn [obind].
    destruct (load_rhs_ok kk (i + 1) (next_fragment i f) t) as (t1 & -> & El & Ea & E1 & E2 & E3);
      [done|lia|unfold next_fragment; by destruct (i mod 2 =? 0)|lia|]. cbn [obind].
    set (f' := set_next_fragment i f (rhs_array rc (RB kk (i + 1)))).
    assert (current_fragment i f' = rhs_array rc (RB kk i)) as -> by
      (rewrite <- Hcur; unfold f', current_fragment, set_next_fragment; by destruct (i mod 2 =? 0)).
    assert (i * pm + pm ≤ pn * pm) as Hb by (assert ((i + 1) * pm ≤ pn * pm) by (apply N.mul_le_mono_r; lia); lia).
    destruct (execute_column_ok G kk i t1) as (t2 & -> & El2 & Ea2 & E12 & E22 & E32);
      [lia|by rewrite El, Hl|by rewrite Ea|lia|]. cbn [obind]. eexists. split; [done|]. cbn beta iota.
    split_and!; [| | |by rewrite El2, El|done|lia|lia|lia].
    + unfold f', set_next_fragment. destruct (i mod 2 =? 0); [done|apply rhs_array_length].
    + unfold f', set_next_fragment. destruct (i mod 2 =? 0); [apply rhs_array_length|done].
    + unfold f', current_fragment, set_next_fragment. clear.
      assert (((i + 1) mod 2 =? 0) = negb (i mod 2 =? 0)) as ->; [|by destruct (i mod 2 =? 0)].
      destruct (div_mod_ex i 2) as (q & r & _ & -> & -> & Hr); [lia|]. assert (r = 0 ∨ r = 1) as [-> | ->] by lia.
      * replace (q * 2 + 0 + 1) with (1 + q * 2) by lia. by rewrite N.Div0.mod_add.
      * replace (q * 2 + 1 + 1) with (0 + (q + 1) * 2) by lia. by rewrite N.Div0.mod_add.
  - cbn [obind]. rewrite Hcur. destruct (execute_column_ok G kk (pn - 1) t) as (t2 & -> & El2 & Ea2 & E12 & E22 & E32);
      [lia|by rewrite Hl|done| |].
    { assert ((pn - 1) * pm + pm = pn * pm) by nia. lia. }
    cbn [obind]. exists f, t2. split; [done|]. split_and!; try done. split_and!; [rewrite El2, Hl; by apply lhs_ready_sized in Hready| |lia|lia|].
    + rewrite Ea2. replace (pn - 1 + 1) with pn by lia. apply accs_end.
    + assert ((pn - 1) * pm + pm = pn * pm) by nia. lia.
Qed.

(** ** The execution of a partition *)

Definition rhs_tile_sized (rhs : RhsTile) : Prop :=
  match rhs with
  | RhsSingle r => length r = N.to_nat (k * n)
  | RhsDouble r1 r2 => length r1 = N.to_nat (k * n) ∧ length r2 = N.to_nat (k * n)
  end.

Lemma PartitionMatmul_execute_ok G lhs rhs l :
  lhs_sized lhs → rhs_tile_sized rhs →
  ∃ lhs' rhs' l', PartitionMatmul_execute on_event start_m start_n lhs_reader rhs_reader lhs rhs (accs G) config l =
      Ret (lhs', rhs', accs (λ mi ni r c, partial G pk mi ni r c), l') ∧ lhs_sized lhs' ∧ rhs_tile_sized rhs'.
Proof using All.
  intros Hl Hr. unfold PartitionMatmul_execute. destruct (Hevent EventBegin l) as [l1 ->]. cbn [obind]. rewrite Hpm, Hpn, Hpk. cbn [obind].
  assert (pm * pk * 1 ≤ pm * pk * pn) by (apply N.mul_le_mono_l; lia). assert (pn * pk * 1 ≤ pn * pk * pm) by (apply N.mul_le_mono_l; lia).
  rewrite (checked_mul_ok _ pm pk), (checked_mul_ok _ pn pk), (checked_mul_ok _ pm pn) by lia. cbn [obind].
  rewrite checked_mul_ok by done. cbn [obind].
  assert (after_k G 0 (mkPart lhs (accs G) l1 0 0 0)) as Hstart by (split_and!; done).
  assert (∀ s, after_k G pk s → assert_counters (pm * pk) (pn * pk) (pm * pn * pk) s = Ret tt) as Hassert.
  { intros s (_ & _ & C1 & C2 & C3). unfold assert_counters. rewrite C1, C2, C3.
    rewrite !(proj2 (N.eqb_eq _ _)) by lia. done. }
  destruct rhs as [r|r1 r2].
  - match goal with |- context [for_range pk ?b ?x] => destruct (for_range_inv (λ i '(f, t), length f = N.to_nat (k * n) ∧ after_k G i t) pk b x)
      as ([f t] & -> & Hf & Ht) end; [done| |].
    { intros i [f t] Hi [Hf Ht]. destruct (single_k_ok G i f t Hi Hf Ht) as (f' & t' & -> & Hf' & Ht'). eexists. by split. }
    cbn [obind]. rewrite Hassert by done. cbn [obind]. destruct (Hevent EventFinish (ps_listener t)) as [l2 ->]. cbn [obind].
    destruct Ht as (Hsz & -> & _). do 3 eexists. by split_and!.
  - match goal with |- context [for_range pk ?b ?x] => destruct (for_range_inv (λ i '(f, t), length f.1 = N.to_nat (k * n) ∧ length f.2 = N.to_nat (k * n) ∧ after_k G i t) pk b x)
      as ([f t] & -> & Hf1 & Hf2 & Ht) end; [by destruct Hr| |].
    { intros i [f t] Hi (Hf1 & Hf2 & Ht). destruct (double_k_ok G i f t Hi Hf1 Hf2 Ht) as (f' & t' & -> & Hf1' & Hf2' & Ht'). eexists. by split. }
    cbn [obind]. rewrite Hassert by done. cbn [obind]. destruct (Hevent EventFinish (ps_listener t)) as [l2 ->]. cbn [obind].
    destruct Ht as (Hsz & -> & _). do 3 eexists. by split_and!.
Qed.
End Partition.

(** The same configuration with the given buffering. *)
Definition with_buffering (b : PartitionBuffering) (c : UnitPartitionedStageConfig) : UnitPartitionedStageConfig :=
  {| uc_tile_config := uc_tile_config c; uc_tiling_scheme := uc_tiling_scheme c; uc_quantized := uc_quantized c;
     uc_partition_buffering := b; uc_num_stages := uc_num_stages c; uc_plane_role_config := uc_plane_role_config c;
     uc_ordered := uc_ordered c |}.

Section Buffering.
Context {MP : MatmulPrecision} {UN : Uninit}.

(** A whole step of a unit: its inputs are allocated and its partition is
    multiplied. *)
Definition run_partition {L : Type} (on_event : StageEvent → L → outcome L) (start_m start_n : N) (lhs_reader rhs_reader : FullReader)
    (acc : list TileAccumulator) (config : UnitPartitionedStageConfig) (l : L) : outcome (list TileAccumulator) :=
  let? '(lhs, rhs) := init_tile_inputs config in
  let? '(_, _, acc, _) := PartitionMatmul_execute on_event start_m start_n lhs_reader rhs_reader lhs rhs acc config l in
  Ret acc.

(** The tiles of a partition: [LA] and [RB] give their elements. *)
Record partition_inputs (start_m start_n : N) (lhs_reader rhs_reader : FullReader) (config : UnitPartitionedStageConfig)
    (pm pn pk : N) (LA RB : N → N → N → N → ES) : Prop := {
  pi_m : tiles_in_stage_partition_m (uc_tiling_scheme config) = Ret pm;
  pi_n : tiles_in_stage_partition_n (uc_tiling_scheme config) = Ret pn;
  pi_k : tiles_in_stage_partition_k (uc_tiling_scheme config) = Ret pk;
  pi_pos : 0 < pn ∧ 0 < pm;
  pi_max : pm * pn * pk ≤ u32_max ∧ pm * pn ≤ u32_max;
  pi_lhs : ∀ mi ki, mi < pm → ki < pk → ∃ tile,
    read_tile lhs_reader (wadd start_m mi) ki (stage_memory_config config) = Ret tile ∧
    tile_holds (rc_stage_line_size (uc_tile_config config) StageLhs) (fr_stage lhs_reader) tile
      (rc_matrix_layout (uc_tile_config config) StageLhs) (size_get (rc_tile_size (uc_tile_config config)) DimM)
      (size_get (rc_tile_size (uc_tile_config config)) DimK) (LA mi ki);
  pi_rhs : ∀ ki ni, ki < pk → ni < pn → ∃ tile,
    read_tile rhs_reader ki (wadd start_n ni) (stage_memory_config config) = Ret tile ∧
    tile_holds (rc_stage_line_size (uc_tile_config config) StageRhs) (fr_stage rhs_reader) tile
      (rc_matrix_layout (uc_tile_config config) StageRhs) (size_get (rc_tile_size (uc_tile_config config)) DimK)
      (size_get (rc_tile_size (uc_tile_config config)) DimN) (RB ki ni);
}.

Lemma inputs_buffering b start_m start_n lr rr config pm pn pk LA RB :
  partition_inputs start_m start_n lr rr config pm pn pk LA RB →
  partition_inputs start_m start_n lr rr (with_buffering b config) pm pn pk LA RB.
Proof. by intros [H1 H2 H3 H4 H5 H6 H7]; split. Qed.

Lemma init_inputs_ok config pm :
  register_ok (uc_tile_config config) → tiles_in_stage_partition_m (uc_tiling_scheme config) = Ret pm →
  ∃ lhs rhs, init_tile_inputs config = Ret (lhs, rhs) ∧ lhs_sized config pm lhs ∧ rhs_tile_sized config rhs.
Proof.
  intros Hreg Hpm. destruct (ro_fit _ Hreg) as (F1 & F2 & _). unfold init_tile_inputs. rewrite Hpm. cbn [obind].
  unfold allocate_lhs, allocate_rhs, size_mk, size_nk. rewrite !checked_mul_ok by (unfold u32_max, two32 in *; lia). cbn [obind].
  eexists _, _. split; [done|]. split.
  - split; [by rewrite length_replicate|]. intros i arr Ha. apply lookup_replicate in Ha as [-> _]. by rewrite length_replicate.
  - unfold rhs_tile_sized. destruct (uc_partition_buffering config); rewrite length_replicate; lia.
Qed.

(** Whatever the buffering and the listener. *)
Lemma run_partition_ok {L : Type} (on_event : StageEvent → L → outcome L) start_m start_n lr rr config pm pn pk LA RB G l :
  (∀ e l, ∃ l', on_event e l = Ret l') → register_ok (uc_tile_config config) →
  partition_inputs start_m start_n lr rr config pm pn pk LA RB →
  run_partition on_event start_m start_n lr rr (accs config pm pn G) config l =
    Ret (accs config pm pn (λ mi ni r c, partial config LA RB G pk mi ni r c)).
Proof.
  intros Hev Hreg [Hm Hn Hk [P1 P2] [M1 M2] HL HR]. unfold run_partition.
  destruct (init_inputs_ok config pm Hreg Hm) as (lhs & rhs & -> & Hl & Hr). cbn [obind].
  destruct (PartitionMatmul_execute_ok on_event Hev start_m start_n lr rr config pm pn pk Hreg Hm Hn Hk P1 P2 M1 M2 LA RB HL HR G lhs rhs l Hl Hr)
    as (lhs' & rhs' & l' & -> & _). done.
Qed.
End Buffering.

(** C38. Buffering the fragments of a partition does not change its result: for
    stages whose tiles hold the matrices [LA] and [RB], whatever the two
    listeners do, the runs with one and with two fragments of the right-hand
    side both pass their final assertions on the numbers of loads and
    executions, and leave the same accumulators, to which the products of the
    tiles have been added in ascending order of k. *)
Theorem buffering_equivalent {MP : MatmulPrecision} {UN : Uninit} {L L' : Type} (on_event : StageEvent → L → outcome L)
    (on_event' : StageEvent → L' → outcome L') start_m start_n lhs_reader rhs_reader config pm pn pk LA RB G l l' :
  (∀ e l, ∃ l', on_event e l = Ret l') → (∀ e l, ∃ l', on_event' e l = Ret l') →
  register_ok (uc_tile_config config) →
  partition_inputs start_m start_n lhs_reader rhs_reader config pm pn pk LA RB →
  let acc := accs config pm pn G in
  run_partition on_event start_m start_n lhs_reader rhs_reader acc (with_buffering SingleBuffering config) l =
    run_partition on_event' start_m start_n lhs_reader rhs_reader acc (with_buffering DoubleBuffering config) l' ∧
  run_partition on_event' start_m start_n lhs_reader rhs_reader acc (with_buffering DoubleBuffering config) l' =
    Ret (accs config pm pn (λ mi ni r c, fold_upto pk (λ s ki,
      fold_upto (size_get (rc_tile_size (uc_tile_config config)) DimK) (λ s kk,
        ea_add s (ea_mul (ea_of_es (LA mi ki r kk)) (ea_of_es (RB ki ni kk c)))) s) (G mi ni r c))).
Proof.
  intros Hev Hev' Hreg Hin acc.
  pose proof (run_partition_ok on_event _ _ _ _ (with_buffering SingleBuffering config) pm pn pk LA RB G l Hev Hreg (inputs_buffering _ _ _ _ _ _ _ _ _ _ _ Hin)) as E1.
  pose proof (run_partition_ok on_event' _ _ _ _ (with_buffering DoubleBuffering config) pm pn pk LA RB G l' Hev' Hreg (inputs_buffering _ _ _ _ _ _ _ _ _ _ _ Hin)) as E2.
  split; [|exact E2]. etransitivity; [exact E1|symmetry; exact E2].
Qed.

Module BufferingDemo.
#[local] Instance demo_precision : MatmulPrecision :=
  {| EI := Z; ES := Z; EA := Z; EO := Z; ei_zero := 0%Z; es_of_ei := λ v, v; es_mul := Z.mul; ea_of_es := λ v, v;
     ea_zero := 0%Z; ea_add := Z.add; ea_mul := Z.mul; eo_of_ea := λ v, v |}.
#[local] Instance demo_uninit : Uninit := {| uninit_es := (-1)%Z : ES; uninit_ea := (-1)%Z : EA; uninit_eo := (-1)%Z : EO |}.

(** One row, three columns and two tiles along k, of one element each. *)
Definition scheme : TilingScheme :=
  {| tile_size := {| size_m := 1; size_n := 1; size_k := 1 |};
     partition_size := {| size_m := 1; size_n := 3; size_k := 2 |};
     stage_size := {| size_m := 1; size_n := 1; size_k := 1 |};
     global_partition_size := GlobalPartitionSize_new 1 1 1 |}.
Definition config : UnitPartitionedStageConfig :=
  {| uc_tile_config :=
       {| rc_tiling_scheme := scheme; rc_plane_dim := 1; rc_lhs_layout := LayoutRowMajor; rc_rhs_layout := LayoutRowMajor;
          rc_lhs_global_line_size := 1; rc_rhs_global_line_size := 1; rc_out_global_line_size := 1;
          rc_lhs_stage_line_size := 1; rc_rhs_stage_line_size := 1 |};
     uc_tiling_scheme := scheme; uc_quantized := false; uc_partition_buffering := SingleBuffering;
     uc_num_stages := {| ns_lhs := 1; ns_rhs := 1 |};
     uc_plane_role_config := {| plane_roles := {| main_flow := 1; load_only := 0 |}; rule := RuleMainFlowOnly |};
     uc_ordered := false |}.
Definition lhs_reader : FullReader := mkFullReader ([3; 5]%Z : list ES) (ContiguousTilingLayout RowMajorTilingOrder) StageLhs.
Definition rhs_reader : FullReader := mkFullReader ([1; 2; 3; 10; 20; 30]%Z : list ES) (ContiguousTilingLayout RowMajorTilingOrder) StageRhs.
Definition LA (_ ki _ _ : N) : ES := if ki =? 0 then 3%Z else 5%Z.
Definition RB (ki ni _ _ : N) : ES := ((if (ki =? 0)%N then 1 else 10) * Z.of_N (ni + 1)%N)%Z.
Definition count_events (_ : StageEvent) (c : N) : outcome N := Ret (c + 1).
Definition ignore (_ : StageEvent) (l : unit) : outcome unit := Ret l.


Lemma tile_of_one (stage : list ES) tile layout (V : N → N → ES) :
  get_line 1 stage tile 0 0 = Ret [V 0 0] → tile_holds 1 stage tile layout 1 1 V.
Proof.
  intros H. destruct layout; intros s c Hs Hc; assert (s = 0) as -> by lia; assert (c = 0) as -> by lia; exact H.
Qed.

Lemma inputs : partition_inputs 0 0 lhs_reader rhs_reader config 1 3 2 LA RB.
Proof.
  split; [done|done|done|done|by split; vm_compute| |].
  - intros mi ki Hm Hk. assert (mi = 0) as -> by lia. assert (ki = 0 ∨ ki = 1) as [-> | ->] by lia;
      (eexists; split; [by vm_compute|apply tile_of_one; by vm_compute]).
  - intros ki ni Hk Hn. assert (ki = 0 ∨ ki = 1) as [-> | ->] by lia; assert (ni = 0 ∨ ni = 1 ∨ ni = 2) as [-> | [-> | ->]] by lia;
      (eexists; split; [by vm_compute|apply tile_of_one; by vm_compute]).
Qed.

Lemma register : register_ok (uc_tile_config config).
Proof. split; try done; by exists 1. Qed.

Lemma buffering_equivalent_witness :
  let acc := accs config 1 3 (λ _ _ _ _, 7%Z : EA) in
  run_partition count_events 0 0 lhs_reader rhs_reader acc (with_buffering SingleBuffering config) 0 =
    run_partition ignore 0 0 lhs_reader rhs_reader acc (with_buffering DoubleBuffering config) tt ∧
  run_partition ignore 0 0 lhs_reader rhs_reader acc (with_buffering DoubleBuffering config) tt =
    Ret (accs config 1 3 (λ _ ni _ _, fold_upto 2 (λ s ki, fold_upto 1 (λ s _, (s + LA 0 ki 0 0 * RB ki ni 0 0)%Z) s) (7%Z : EA))).
Proof.
  refine (buffering_equivalent count_events ignore 0 0 lhs_reader rhs_reader config 1 3 2 LA RB (λ _ _ _ _, 7%Z : EA) 0 tt _ _ register inputs).
  - intros e c. by exists (c + 1).
  - intros e []. by exists tt.
Defined.
End BufferingDemo.
