(* ===== verification/SimpleMatmul.v ===== *)
(** * The simple matmul of a cube

    Model of [crates/cubecl-matmul/src/components/global/single_stage/simple/]
    [{config,matmul,setup}.rs] for units that multiply tiles in registers, and of
    [execute_global_matmul] of [batch/partitioned_matmul/partition/matmul.rs].

    The units of a cube run in phases separated by [sync_cube].  In a loading
    phase they write the shared stages, in any order: a schedule chooses the
    order of the writes.  In a compute phase each unit only reads the stages.
    The writes to the output are listed for the caller; no unit reads them. *)

From S2P Require Import Prelude DeviceNum Tiling GlobalOrder SmAllocation Hypercube StageLayout MatmulConfig GlobalMemory StageLoad Loops RegisterTile PartitionMatmul.

Open Scope N_scope.
Open Scope rust_scope.

(** ** Configuration *)

(** [shared_global_config_validation]: it rejects large cubes on macOS only. *)
Definition shared_global_config_validation (macos : bool) (config : SimpleConfig) : outcome (SimpleConfig + MatmulSetupError) :=
  if macos then
    let? num_elems := checked_mul u32_max (sc_cube_dim config).1 (sc_cube_dim config).2 in
    if 512 <=? num_elems then Ret (inr (Unavailable "CubeDimTooBig")) else Ret (inl config)
  else Ret (inl config).

Definition SimpleConfig_validate (macos : bool) (LL RL : SyncFullLoading) (config : SimpleConfig) :
    outcome (SimpleConfig + MatmulSetupError) :=
  ok! _ := loading_check LL (simple_global_config config) IdentLhs in
  ok! _ := loading_check RL (simple_global_config config) IdentRhs in
  ok! _ := shared_global_config_validation macos config in
  Ret (inl config).

(** [SimpleMatmulFamily::setup]. *)
Definition SimpleMatmul_setup (macos : bool) (client : ClientProperties) (LL RL : SyncFullLoading) (problem : MatmulProblem)
    (selection : MatmulSelection) (line_sizes : MatmulLineSizes) : outcome (SimpleConfig + MatmulSetupError) :=
  ok! stage_config := UnitMatmul_setup client problem selection line_sizes {| ns_lhs := 1; ns_rhs := 1 |} None false in
  let? stage_shape_m := elements_in_stage_m (uc_tiling_scheme stage_config) in
  let? stage_shape_n := elements_in_stage_n (uc_tiling_scheme stage_config) in
  let? stage_shape_k := elements_in_stage_k (uc_tiling_scheme stage_config) in
  ok! num_planes :=
    Ret (if negb (has_specialization (ms_load_specialization_config selection)) then inl (uc_num_main_flow_planes stage_config)
         else inr (InvalidConfig "Error: Specialization is unavailable for simple tma matmul.")) in
  let? rem_m := checked_rem (as_u32 (prob_m problem)) stage_shape_m in
  let? rem_n := checked_rem (as_u32 (prob_n problem)) stage_shape_n in
  let? rem_k := checked_rem (as_u32 (prob_k problem)) stage_shape_k in
  SimpleConfig_validate macos LL RL
    {| sc_stage_config := stage_config; sc_num_planes := num_planes;
       sc_check_m_bounds := negb (rem_m =? 0); sc_check_n_bounds := negb (rem_n =? 0); sc_check_k_bounds := negb (rem_k =? 0);
       sc_k_step := stage_shape_k; sc_precompute_job := ms_loading_precompute_strategy selection;
       sc_loader_mode := ms_loader_mode selection |}.

(** ** Execution *)

Section Execute.
Context {MP : MatmulPrecision} {UN : Uninit}.

(** The order of the writes of the units in each loading phase. *)
Record Schedule := {
  order_lhs : N → list (N * list ES) → list (N * list ES);
  order_rhs : N → list (N * list ES) → list (N * list ES);
}.
Definition schedule_ok (s : Schedule) : Prop := ∀ i ws, order_lhs s i ws ≡ₚ ws ∧ order_rhs s i ws ≡ₚ ws.

(** What a unit owns during the execution. *)
Record UnitRun := mkRun {
  ur_pos : UnitPos;
  ur_lhs_loader : SyncFullLoader;
  ur_rhs_loader : SyncFullLoader;
  ur_writer : TensorWriter;
  ur_lhs_tile : list (list ES);
  ur_rhs_tile : RhsTile;
  ur_acc : list TileAccumulator;
}.

(** The shared stages and the units. *)
Record CubeRun := mkCube { cr_lhs_stage : list ES; cr_rhs_stage : list ES; cr_units : list UnitRun }.

Context (config : SimpleConfig) (sched : Schedule).
Abbreviation g := (simple_global_config config).
Abbreviation stage_config := (sc_stage_config config).

Definition no_event (_ : StageEvent) (l : unit) : outcome unit := Ret l.

(** All units run the loading job of one side. *)
Definition fill_phase (ident : MatmulIdent) (loader : UnitRun → SyncFullLoader)
    (order : list (N * list ES) → list (N * list ES)) (units : list UnitRun) (stage : list ES) : outcome (list ES) :=
  let? wss := each (λ x, fill_stage (loader x) g (ur_pos x)) units in
  apply_writes (smc_stage_line_size (stage_memory_config stage_config) (into_stage ident)) stage (order (concat wss)).

(** A unit multiplies its partition and advances its views. *)
Definition compute_unit (lhs_stage rhs_stage : list ES) (x : UnitRun) : outcome UnitRun :=
  let lhs_stage_reader := mkFullReader lhs_stage (loading_layout (ld_loading (ur_lhs_loader x))) (into_stage (ld_ident (ur_lhs_loader x))) in
  let rhs_stage_reader := mkFullReader rhs_stage (loading_layout (ld_loading (ur_rhs_loader x))) (into_stage (ld_ident (ur_rhs_loader x))) in
  let? '(lhs_tile, rhs_tile, acc, _) :=
    stage_execute no_event (ur_pos x) lhs_stage_reader rhs_stage_reader (ur_lhs_tile x) (ur_rhs_tile x) (ur_acc x) stage_config tt in
  let? lhs_loader := advance_view (ur_lhs_loader x) (sc_k_step config) in
  let? rhs_loader := advance_view (ur_rhs_loader x) (sc_k_step config) in
  Ret (mkRun (ur_pos x) lhs_loader rhs_loader (ur_writer x) lhs_tile rhs_tile acc).

(** The body of the loop over k. *)
Definition loop_body (i : N) (c : CubeRun) : outcome CubeRun :=
  let? lhs_stage := fill_phase IdentLhs ur_lhs_loader (order_lhs sched i) (cr_units c) (cr_lhs_stage c) in
  let? rhs_stage := fill_phase IdentRhs ur_rhs_loader (order_rhs sched i) (cr_units c) (cr_rhs_stage c) in
  let? units := each (compute_unit lhs_stage rhs_stage) (cr_units c) in
  Ret (mkCube lhs_stage rhs_stage units).

(** What [execute] receives for a unit. *)
Record UnitArgs := mkArgs {
  ua_pos : UnitPos;
  ua_lhs_loader : SyncFullLoader;
  ua_rhs_loader : SyncFullLoader;
  ua_writer : TensorWriter;
  ua_acc : list TileAccumulator;
}.

Definition start_unit (a : UnitArgs) : outcome UnitRun :=
  let? '(lhs_tile, rhs_tile) := init_tile_inputs stage_config in
  let? acc := Accumulators_zero stage_config (ua_acc a) in
  Ret (mkRun (ua_pos a) (ua_lhs_loader a) (ua_rhs_loader a) (ua_writer a) lhs_tile rhs_tile acc).

Definition num_loops (k_range : N * N) : outcome N :=
  let range := wsub k_range.2 k_range.1 in
  if sc_k_step config =? 0 then Panic "division by zero"
  else Ret (wsub (wadd range (sc_k_step config)) 1 / sc_k_step config).

(** The stage memory of a side, not initialized. *)
Definition new_stage (ident : MatmulIdent) : outcome (list ES) :=
  let? len := StageMemory_new 1 (into_stage ident) (stage_memory_config stage_config) in
  Ret (replicate (N.to_nat (len * smc_stage_line_size (stage_memory_config stage_config) (into_stage ident))) uninit_es).

(** [SimpleMatmul::execute] for all units of a cube: the writes to the output,
    unit by unit, and the accumulators. *)
Definition SimpleMatmul_execute (k_range : N * N) (args : list UnitArgs) :
    outcome (list (list (N * list EO)) * list (list TileAccumulator)) :=
  let? num_loops := num_loops k_range in
  let? units := each start_unit args in
  let? lhs_stage := new_stage IdentLhs in
  let? rhs_stage := new_stage IdentRhs in
  let? c := for_range num_loops loop_body (mkCube lhs_stage rhs_stage units) in
  let? out_smem := out_smem_new stage_config in
  let? wss := each (λ x, stage_write_results (ur_pos x) (ur_acc x) out_smem (ur_writer x) stage_config g) (cr_units c) in
  Ret (wss, ur_acc <$> cr_units c).

(** *** One block of the output *)

(** The offsets of the batch [nth_batch] in the inputs: the loop over the
    batch axes. *)
Fixpoint batch_offsets (axes : list N) (batch_out : N) (lhs rhs : Tensor EI) (out : Tensor EO) (acc : N * N) : outcome (N * N) :=
  match axes with
  | [] => Ret acc
  | axis :: axes =>
      let? out_stride := stride_at out axis in
      let? lhs_shape := shape_at lhs axis in
      let? lhs_stride := stride_at lhs axis in
      let? rhs_shape := shape_at rhs axis in
      let? rhs_stride := stride_at rhs axis in
      let tmp := batch_out / out_stride in
      batch_offsets axes batch_out lhs rhs out
        (wadd acc.1 (wmul (tmp mod lhs_shape) lhs_stride), wadd acc.2 (wmul (tmp mod rhs_shape) rhs_stride))
  end.

(** [execute_global_matmul] for all units of a cube, with the accumulators they
    carry from block to block. *)
Definition execute_global_matmul (LL RL : SyncFullLoading) (lhs rhs : Tensor EI) (out : Tensor EO) (m_offset n_offset nth_batch : N)
    (k_range : N * N) (quantization : option Quantization) (units : list (UnitPos * list TileAccumulator)) :
    outcome (list (list (N * list EO)) * list (list TileAccumulator)) :=
  let rank := t_rank out in
  let? out_stride := stride_at out (wsub rank 2) in
  let? out_shape := shape_at out (wsub rank 2) in
  let batch_out := wmul (wmul nth_batch out_stride) out_shape in
  let? '(batch_lhs, batch_rhs) := batch_offsets (upto (wsub rank 2)) batch_out lhs rhs out (0, 0) in
  let? args := each (λ '(u, acc),
    let? lhs_loader := SyncFullLoader_new LL lhs m_offset k_range.1 batch_lhs quantization IdentLhs g u in
    let? rhs_loader := SyncFullLoader_new RL rhs k_range.1 n_offset batch_rhs quantization IdentRhs g u in
    let? writer := TensorWriter_new out m_offset n_offset batch_out in
    Ret (mkArgs u lhs_loader rhs_loader writer acc)) units in
  SimpleMatmul_execute k_range args.
End Execute.

(** ** The batch level *)

(** [PartitionedBatchConfig], with the methods of [BatchConfig]. *)
Record PartitionedBatchConfig := {
  pb_global_config : SimpleConfig;
  pb_hypercube_config : HypercubeConfig;
}.
Definition pb_quantized (c : PartitionedBatchConfig) : bool := uc_quantized (sc_stage_config (pb_global_config c)).
Definition pb_cube_dim (c : PartitionedBatchConfig) : N * N := sc_cube_dim (pb_global_config c).
Definition pb_line_sizes (c : PartitionedBatchConfig) : MatmulLineSizes :=
  let line ident := gc_global_line_size (simple_global_config (pb_global_config c)) ident mod 256 in
  {| mls_lhs := line IdentLhs; mls_rhs := line IdentRhs; mls_out := line IdentOut |}.
Definition pb_can_yield_extra_cubes (c : PartitionedBatchConfig) : bool :=
  CubeCountPlanConfig_can_yield_extra_cubes (hc_plan_config (pb_hypercube_config c)).
Definition PartitionedBatchConfig_validate (c : PartitionedBatchConfig) (problem : MatmulProblem) :
    outcome (PartitionedBatchConfig + MatmulSetupError) :=
  ok! _ := HypercubeConfig_validate (pb_hypercube_config c) problem in Ret (inl c).

(** [PartitionedBatchMatmulFamily::setup] over the simple matmul. *)
Definition PartitionedBatchMatmul_setup (macos : bool) (client : ClientProperties) (max_cube_count : CubeCount)
    (LL RL : SyncFullLoading) (problem : MatmulProblem) (selection : MatmulSelection) (line_sizes : MatmulLineSizes) :
    outcome (PartitionedBatchConfig + MatmulSetupError) :=
  ok! global_config := SimpleMatmul_setup macos client LL RL problem selection line_sizes in
  let? hypercube_config := to_hypercube_config (ms_hypercube_selection selection) problem max_cube_count in
  PartitionedBatchConfig_validate {| pb_global_config := global_config; pb_hypercube_config := hypercube_config |} problem.

(** ** A cube of a launch *)

Section Launch.
Context {MP : MatmulPrecision} {UN : Uninit}.
Context (batch_config : PartitionedBatchConfig) (LL RL : SyncFullLoading) (lhs rhs : Tensor EI) (out : Tensor EO).
Context (state_quantization : Quantization).
Abbreviation config := (pb_global_config batch_config).

(** The entry point passes the quantization when the configuration has it. *)
Definition entry_quantization : option Quantization :=
  if pb_quantized batch_config then Some state_quantization else None.

(** The units of a cube of dimensions [CubeDim::new_2d]. *)
Definition cube_units : list UnitPos :=
  x ← upto (pb_cube_dim batch_config).1; y ← upto (pb_cube_dim batch_config).2; [mkUnit x y].

(** The blocks of a cube, one after the other, with the accumulators of every
    unit; [scheds] gives the schedule of each block. *)
Fixpoint run_blocks (scheds : N → Schedule) (i : N) (k_range : N * N) (blocks : list (N * N * N))
    (accs : list (list TileAccumulator)) : outcome (list (N * list EO)) :=
  match blocks with
  | [] => Ret []
  | (m_offset, n_offset, nth_batch) :: blocks =>
      let? '(wss, accs) :=
        execute_global_matmul config (scheds i) LL RL lhs rhs out m_offset n_offset nth_batch k_range entry_quantization
          (zip cube_units accs) in
      let? rest := run_blocks scheds (i + 1) k_range blocks accs in
      Ret (concat wss ++ rest)
  end.

(** The entry point for a cube, [batch/entry_point.rs]:
    [PartitionedBatchMatmul::execute] with its global matmuls. *)
Definition cube_execute (o : PartitionOrder) (input : CubeCountInput) (t : Topology) (scheds : N → Schedule) :
    outcome (list (N * list EO)) :=
  let? blocks := matmul o (uc_tiling_scheme (sc_stage_config config)) (pb_hypercube_config batch_config) input t in
  match blocks with
  | None => Ret []
  | Some blocks =>
      let? problem_k := shape_at lhs (wsub (t_rank lhs) 1) in
      let? acc := Accumulators_new (sc_stage_config config) in
      run_blocks scheds 0 (0, problem_k) blocks (replicate (length cube_units) acc)
  end.
End Launch.
