(* ===== verification/SimpleMatmulProps.v ===== *)
(** * What the simple matmul computes

    Proofs about [SimpleMatmul.v].  A loaded stage provides the tile matmul with
    tiles of the matrix behind the reader; after the loop over k, whatever the
    order of the writes of the loading phases, each accumulator holds the dot
    product of its row and column, term after term in ascending order of k. *)

From S2P Require Import Prelude DeviceNum Tiling Hypercube StageLayout MatmulConfig GlobalMemory StageLoad StageLoadProps Loops RegisterTile PartitionMatmul SimpleMatmul.

Open Scope N_scope.
Open Scope rust_scope.

Section Tiles.
Context {MP : MatmulPrecision} {UN : Uninit}.

Lemma tile_holds_ext line stage tile layout rows cols V V' :
  (∀ i j, i < rows → j < cols → V i j = V' i j) → (line | match layout with LayoutRowMajor => cols | LayoutColMajor => rows end) →
  tile_holds line stage tile layout rows cols V → tile_holds line stage tile layout rows cols V'.
Proof.
  intros HV [q Hq] H. unfold tile_holds in *. destruct layout; intros s c Hs Hc; rewrite H by done; f_equal; apply tabulate_ext; intros p Hp;
    apply HV; try done; rewrite Hq in *; (apply radix_lt; [apply (N.mul_lt_mono_pos_r line); lia|done]).
Qed.

Section Stage.
Context (g : GlobalConfig) (ident : MatmulIdent) (a b len : N) (r : TensorReader).
Context (G : global_ok g ident a b len).
Context (q : option Quantization).
Abbreviation sid := (into_stage ident).
Abbreviation config := (gc_stage_memory_config g).
Abbreviation ts := (gc_tiling_scheme g).
Abbreviation layout := (gc_matrix_layout g ident).
Abbreviation line := (gc_global_line_size g ident).
Abbreviation er := (size_get (tile_size ts) (row_dim sid)).
Abbreviation ec := (size_get (tile_size ts) (col_dim sid)).

(** The elements of the tile at tile coordinates. *)
Definition tile_value (row col i j : N) : ES :=
  stage_value q ident (view r (row * er + i + tr_x_offset r) (col * ec + j + tr_y_offset r)).

Lemma coord_line_tile row col s c :
  coord_line r q ident layout line a b {| lc_buf := 0; lc_row := row; lc_col := col; lc_strided := s; lc_contiguous := c |} =
    tabulate line (λ p, match layout with
                        | LayoutRowMajor => tile_value row col s (c * line + p)
                        | LayoutColMajor => tile_value row col (c * line + p) s
                        end).
Proof using G.
  destruct (tile_dims g ident a b len G) as [E1 E2]. unfold coord_line, line_of_view, tabulate, tile_value, coord_x, coord_y.
  rewrite E1, E2. unfold row_elems, col_elems. cbn [lc_row lc_col lc_strided lc_contiguous]. rewrite <- list_fmap_compose.
  apply list_fmap_ext. intros _ p _. unfold compose. destruct layout; do 2 f_equal; lia.
Qed.

Lemma tile_of_stage T stage row col :
  stage_holds g ident a b r q T stage →
  row < tiles_along ts (row_dim sid) → col < tiles_along ts (col_dim sid) →
  ∃ tile, StageMemory_get_tile T row col 0 sid config = Ret tile ∧
    tile_holds line stage tile layout er ec (tile_value row col).
Proof using G.
  intros Hs Hr Hc. pose proof (line_pos g ident a b len G) as Hl0.
  destruct (dims_pos g ident a b len G 0 (go_nonempty _ _ _ _ _ G)) as (_ & _ & Ha & Hb).
  destruct (tile_dims g ident a b len G) as [E1 E2].
  assert (∀ s c, s < outer_len layout a b → c < inner_len layout a b → ∃ tile, StageMemory_get_tile T row col 0 sid config = Ret tile ∧
    get_line line stage tile s c = Ret (tabulate line (λ p, match layout with
                        | LayoutRowMajor => tile_value row col s (c * line + p)
                        | LayoutColMajor => tile_value row col (c * line + p) s
                        end))) as Hline.
  { intros s c Hso Hci. destruct (Hs {| lc_buf := 0; lc_row := row; lc_col := col; lc_strided := s; lc_contiguous := c |}) as (p & Hp & Hread).
    { by apply (coord_ok_mk g ident a b len G). }
    unfold line_of in Hp. cbn [lc_buf lc_row lc_col lc_strided lc_contiguous] in Hp. apply obind_ret in Hp as (tile & Ht & [= Hp]).
    exists tile. split; [done|]. unfold get_line. rewrite Hp, Hread. by rewrite coord_line_tile. }
  destruct (Hline 0 0) as (tile & Ht & _); [unfold outer_len; destruct layout; lia|unfold inner_len; destruct layout; lia|].
  exists tile. split; [done|]. unfold tile_holds. rewrite E1, E2. unfold row_elems, col_elems, outer_len, inner_len in *.
  clear E1 E2. destruct layout; intros s c Hs' Hc'; apply N.mul_lt_mono_pos_r in Hc'; try done;
    destruct (Hline s c Hs' Hc') as (tile' & Ht' & Hg); rewrite Ht in Ht'; injection Ht' as <-; done.
Qed.
End Stage.
End Tiles.

(** ** A configuration that the setup accepts *)

Definition cfg_scheme (config : SimpleConfig) : TilingScheme := uc_tiling_scheme (sc_stage_config config).
Definition stage_dim (config : SimpleConfig) (d : MatmulDim) : N := size_get (stage_size (cfg_scheme config)) d.
Definition part_dim (config : SimpleConfig) (d : MatmulDim) : N := size_get (partition_size (cfg_scheme config)) d.
Definition tile_dim (config : SimpleConfig) (d : MatmulDim) : N := size_get (tile_size (cfg_scheme config)) d.
(** The elements of a stage along a dimension. *)
Definition stage_len_of (config : SimpleConfig) (d : MatmulDim) : N := stage_dim config d * part_dim config d * tile_dim config d.

Record cube_ok (config : SimpleConfig) (LL RL : SyncFullLoading) (al bl lenl ar br lenr : N) : Prop := {
  co_lhs : global_ok (simple_global_config config) IdentLhs al bl lenl;
  co_rhs : global_ok (simple_global_config config) IdentRhs ar br lenr;
  co_lhs_layout : layout_usable (loading_layout LL) StageLhs (stage_memory_config (sc_stage_config config));
  co_rhs_layout : layout_usable (loading_layout RL) StageRhs (stage_memory_config (sc_stage_config config));
  co_lhs_check : loading_check LL (simple_global_config config) IdentLhs = Ret (inl tt);
  co_rhs_check : loading_check RL (simple_global_config config) IdentRhs = Ret (inl tt);
  co_register : register_ok (uc_tile_config (sc_stage_config config));
  co_tile : rc_tile_size (uc_tile_config (sc_stage_config config)) = tile_size (cfg_scheme config);
  co_stage_k : stage_dim config DimK = 1;
  co_pos : ∀ d, 0 < stage_dim config d ∧ 0 < part_dim config d;
  co_k_step : sc_k_step config = stage_len_of config DimK;
  co_units : uc_num_main_flow_planes (sc_stage_config config) * uc_plane_dim (sc_stage_config config) = stage_dim config DimM * stage_dim config DimN;
  co_smem : tile_dim config DimM * tile_dim config DimN *
    (uc_num_main_flow_planes (sc_stage_config config) * uc_plane_dim (sc_stage_config config)) ≤ u32_max;
  co_rule : rule (uc_plane_role_config (sc_stage_config config)) = RuleMainFlowOnly;
}.

Section Cube.
Context {MP : MatmulPrecision} {UN : Uninit}.
Context (config : SimpleConfig) (LL RL : SyncFullLoading) (al bl lenl ar br lenr : N).
Context (K : cube_ok config LL RL al bl lenl ar br lenr).
Abbreviation g := (simple_global_config config).
Abbreviation sconf := (sc_stage_config config).
Abbreviation ts := (cfg_scheme config).
Abbreviation rc := (uc_tile_config sconf).
Abbreviation sd := (stage_dim config).
Abbreviation pd := (part_dim config).
Abbreviation td := (tile_dim config).
Abbreviation planes := (uc_num_main_flow_planes sconf).
Abbreviation plane := (uc_plane_dim sconf).

Lemma cube_scheme : scheme_wf ts.
Proof using K. apply (scheme_ok g IdentLhs al bl lenl (co_lhs _ _ _ _ _ _ _ _ _ K)). Qed.

Lemma count_partition d : count_1d ts Tile StagePartition d = Ret (pd d).
Proof using K. apply count_inner; [apply cube_scheme|done|]. trans (Some (pd d * 1)); [by destruct d|f_equal; lia]. Qed.
Lemma count_stage_partitions d : count_1d ts StagePartition Stage d = Ret (sd d).
Proof using K. apply count_inner; [apply cube_scheme|done|]. trans (Some (sd d * 1)); [by destruct d|f_equal; lia]. Qed.

Lemma small_counts d : sd d * pd d ≤ 65025 ∧ pd d ≤ 255 ∧ sd d ≤ 255.
Proof using K.
  destruct (inner_bounds ts d cube_scheme) as (H & _). destruct cube_scheme as (_ & Hp & Hs). specialize (Hp d). specialize (Hs d).
  unfold part_dim, stage_dim, u8_max in *. lia.
Qed.

(** *** The units and their partitions *)

Definition cube_unit (u : UnitPos) : Prop := unit_x u < plane ∧ unit_y u < planes.
Definition unit_index (u : UnitPos) : N := unit_x u + plane * unit_y u.

Lemma cube_load_index ident u : unit_load_index g ident u = unit_y u.
Proof using K. unfold unit_load_index, load_index. cbn [gc_role_rule_config simple_global_config]. by rewrite (co_rule _ _ _ _ _ _ _ _ _ K). Qed.

Lemma unit_index_lt u : cube_unit u → unit_index u < sd DimM * sd DimN.
Proof using K.
  intros [Hx Hy]. rewrite <- (co_units _ _ _ _ _ _ _ _ _ K). unfold unit_index.
  pose proof (radix_lt plane planes _ _ Hy Hx). lia.
Qed.

Lemma partition_position_ok u : cube_unit u → partition_position sconf u = unit_index u.
Proof using K.
  intros Hu. pose proof (unit_index_lt u Hu) as Hlt. destruct (small_counts DimM) as (_ & _ & B1), (small_counts DimN) as (_ & _ & B2).
  assert (sd DimM * sd DimN ≤ 255 * 255) by (by apply N.mul_le_mono). unfold partition_position, compute_index, unit_index in *.
  rewrite (co_rule _ _ _ _ _ _ _ _ _ K). rewrite wmul_small by (unfold two32; lia). by rewrite wadd_small by (unfold two32; lia).
Qed.

(** The tile coordinates at which the partition of a unit starts. *)
Definition start_m (u : UnitPos) : N := pd DimM * (unit_index u / sd DimN).
Definition start_n (u : UnitPos) : N := pd DimN * (unit_index u mod sd DimN).

Lemma unit_split u : cube_unit u → unit_index u / sd DimN < sd DimM ∧ unit_index u mod sd DimN < sd DimN.
Proof using K.
  intros Hu. pose proof (unit_index_lt u Hu). destruct (co_pos _ _ _ _ _ _ _ _ _ K DimN) as [Hp _].
  destruct (div_mod_ex (unit_index u) (sd DimN) Hp) as (q & r & -> & -> & E & Hr). split; [|done].
  apply (N.mul_lt_mono_pos_r (sd DimN)); lia.
Qed.

Lemma start_bounds u mi ni :
  cube_unit u → mi < pd DimM → ni < pd DimN →
  wadd (start_m u) mi = start_m u + mi ∧ start_m u + mi < sd DimM * pd DimM ∧
  wadd (start_n u) ni = start_n u + ni ∧ start_n u + ni < sd DimN * pd DimN.
Proof using K.
  intros Hu Hm Hn. destruct (unit_split u Hu) as [H1 H2]. destruct (small_counts DimM) as (B1 & _), (small_counts DimN) as (B2 & _).
  pose proof (radix_lt (pd DimM) (sd DimM) _ mi H1 Hm). pose proof (radix_lt (pd DimN) (sd DimN) _ ni H2 Hn).
  unfold start_m, start_n. rewrite !wadd_small by (unfold two32; lia). lia.
Qed.

Lemma partition_start_ok u : cube_unit u → partition_start sconf (partition_position sconf u) = Ret (start_m u, start_n u).
Proof using K.
  intros Hu. rewrite partition_position_ok by done. unfold partition_start, tiles_in_stage_partition_m, tiles_in_stage_partition_n, stage_partitions_in_stage_n.
  change (uc_tiling_scheme sconf) with ts. rewrite !count_partition, count_stage_partitions. cbn [obind]. unfold start_m, start_n.
  destruct (start_bounds u 0 0 Hu) as (_ & B1 & _ & B2); [apply (co_pos _ _ _ _ _ _ _ _ _ K)..|]. unfold start_m, start_n in *.
  destruct (small_counts DimM) as (S1 & _), (small_counts DimN) as (S2 & _). rewrite !wmul_small by (unfold two32; lia). done.
Qed.

(** The tiles of the partitions cover the stage. *)
Lemma tile_of_unit us row col :
  all_units g IdentLhs us → row < sd DimM * pd DimM → col < sd DimN * pd DimN →
  ∃ u mi ni, u ∈ us ∧ mi < pd DimM ∧ ni < pd DimN ∧ row = start_m u + mi ∧ col = start_n u + ni.
Proof using K.
  intros [_ Hus] Hr Hc. destruct (co_pos _ _ _ _ _ _ _ _ _ K DimM) as [Hsm Hpm], (co_pos _ _ _ _ _ _ _ _ _ K DimN) as [Hsn Hpn].
  destruct (div_mod_ex row (pd DimM) Hpm) as (qm & mi & _ & _ & Er & Hmi), (div_mod_ex col (pd DimN) Hpn) as (qn & ni & _ & _ & Ec & Hni).
  assert (qm < sd DimM) as Hqm by (apply (N.mul_lt_mono_pos_r (pd DimM)); lia).
  assert (qn < sd DimN) as Hqn by (apply (N.mul_lt_mono_pos_r (pd DimN)); lia).
  pose proof (radix_lt (sd DimN) (sd DimM) qm qn Hqm Hqn) as Hidx. rewrite <- (co_units _ _ _ _ _ _ _ _ _ K) in Hidx.
  destruct (go_units _ _ _ _ _ (co_lhs _ _ _ _ _ _ _ _ _ K)) as [_ Hplane].
  change (gc_plane_dim g) with plane in Hplane.
  destruct (div_mod_ex (qm * sd DimN + qn) plane Hplane) as (y & x & _ & _ & Ei & Hx).
  destruct (Hus y x) as (u & Hu & Hy & Hux); [apply (N.mul_lt_mono_pos_r plane); [done|]; change (gc_num_loading_planes g IdentLhs) with planes; lia|done|].
  rewrite cube_load_index in Hy. exists u, mi, ni. split; [done|]. split; [done|]. split; [done|].
  assert (unit_index u = qm * sd DimN + qn) as Hui by (unfold unit_index; rewrite Hy, Hux; lia).
  unfold start_m, start_n. rewrite Hui. destruct (radix_div_mod (sd DimN) qm qn Hqn) as [-> ->]. lia.
Qed.

(** *** The matrices behind the readers *)

Context (rl rr : TensorReader) (q : option Quantization).

(** The readers after [i] steps along k. *)
Definition lhs_reader_at (i : N) : TensorReader :=
  mkReader (tr_tensor rl) (tr_x_offset rl) (tr_y_offset rl + i * sc_k_step config) (tr_stride_x rl) (tr_stride_y rl)
    (tr_shape_x rl) (tr_shape_y rl) (tr_batch_offset rl).
Definition rhs_reader_at (i : N) : TensorReader :=
  mkReader (tr_tensor rr) (tr_x_offset rr + i * sc_k_step config) (tr_y_offset rr) (tr_stride_x rr) (tr_stride_y rr)
    (tr_shape_x rr) (tr_shape_y rr) (tr_batch_offset rr).

(** The elements of a row of the left-hand side and of a column of the
    right-hand side, by the position along k. *)
Definition lhs_elem (x t : N) : ES := stage_value q IdentLhs (view rl (x + tr_x_offset rl) (t + tr_y_offset rl)).
Definition rhs_elem (t y : N) : ES := stage_value q IdentRhs (view rr (t + tr_x_offset rr) (y + tr_y_offset rr)).

(** The sum of the first [t] products, added in order. *)
Definition block_value (t x y : N) : EA := dot lhs_elem rhs_elem t ea_zero x y.

(** What a unit accumulates. *)
Definition unit_accs (u : UnitPos) (t : N) : list TileAccumulator :=
  accs sconf (pd DimM) (pd DimN)
    (λ mi ni r c, block_value t ((start_m u + mi) * td DimM + r) ((start_n u + ni) * td DimN + c)).

Lemma accs_congr pn pm G G' :
  0 < pn → (∀ mi ni r c, mi < pm → ni < pn → G mi ni r c = G' mi ni r c) → accs sconf pm pn G = accs sconf pm pn G'.
Proof using.
  intros Hpn H. apply tabulate_ext. intros x Hx. unfold acc_array. f_equal. apply tabulate_ext. intros i _.
  destruct (div_mod_ex x pn Hpn) as (d & r & -> & -> & Ex & Hr). apply H; [|done]. apply (N.mul_lt_mono_pos_r pn); lia.
Qed.

(** The sums of the tiles of a stage continue the sum. *)
Lemma block_value_step i x y :
  fold_upto (pd DimK) (λ s ki, fold_upto (td DimK) (λ s kk,
    ea_add s (ea_mul (ea_of_es (lhs_elem x (i * sc_k_step config + (ki * td DimK + kk))))
                     (ea_of_es (rhs_elem (i * sc_k_step config + (ki * td DimK + kk)) y)))) s) (block_value (i * sc_k_step config) x y) =
    block_value ((i + 1) * sc_k_step config) x y.
Proof using K.
  rewrite (fold_upto_mul (pd DimK) (td DimK) (λ s t, ea_add s (ea_mul (ea_of_es (lhs_elem x (i * sc_k_step config + t)))
    (ea_of_es (rhs_elem (i * sc_k_step config + t) y))))).
  unfold block_value, dot. replace ((i + 1) * sc_k_step config) with (i * sc_k_step config + pd DimK * td DimK).
  - by rewrite fold_upto_add.
  - rewrite (co_k_step _ _ _ _ _ _ _ _ _ K). unfold stage_len_of. rewrite (co_stage_k _ _ _ _ _ _ _ _ _ K). lia.
Qed.

(** *** The compute phase *)

Definition lhs_stage_ok (i : N) (stage : list ES) : Prop := stage_holds g IdentLhs al bl (lhs_reader_at i) q (loading_layout LL) stage.
Definition rhs_stage_ok (i : N) (stage : list ES) : Prop := stage_holds g IdentRhs ar br (rhs_reader_at i) q (loading_layout RL) stage.

Lemma unit_executes i u lhs_stage rhs_stage lhs_tile rhs_tile :
  cube_unit u → lhs_stage_ok i lhs_stage → rhs_stage_ok i rhs_stage →
  lhs_sized sconf (pd DimM) lhs_tile → rhs_tile_sized sconf rhs_tile →
  ∃ lhs_tile' rhs_tile',
    stage_execute no_event u (mkFullReader lhs_stage (loading_layout LL) StageLhs) (mkFullReader rhs_stage (loading_layout RL) StageRhs)
      lhs_tile rhs_tile (unit_accs u (i * sc_k_step config)) sconf tt =
      Ret (lhs_tile', rhs_tile', unit_accs u ((i + 1) * sc_k_step config), tt) ∧
    lhs_sized sconf (pd DimM) lhs_tile' ∧ rhs_tile_sized sconf rhs_tile'.
Proof using UN K.
  intros Hu HL HR Hlt Hrt. unfold stage_execute. rewrite partition_start_ok by done. cbn [obind].
  destruct (small_counts DimM) as (_ & B1 & _), (small_counts DimN) as (_ & B2 & _), (small_counts DimK) as (_ & B3 & _).
  destruct (co_pos _ _ _ _ _ _ _ _ _ K DimM) as [_ Hpm], (co_pos _ _ _ _ _ _ _ _ _ K DimN) as [_ Hpn].
  assert (pd DimM * pd DimN ≤ 255 * 255) as B4 by (by apply N.mul_le_mono).
  assert (pd DimM * pd DimN * pd DimK ≤ 255 * 255 * 255) as B5 by (by apply N.mul_le_mono).
  assert (∀ d, tiles_along ts d = sd d * pd d) as Htiles by done.
  pose proof (co_tile _ _ _ _ _ _ _ _ _ K) as Htile.
  pose proof (co_register _ _ _ _ _ _ _ _ _ K) as Hreg.
  destruct (PartitionMatmul_execute_ok no_event (λ _ l, ex_intro _ l eq_refl) (start_m u) (start_n u)
    (mkFullReader lhs_stage (loading_layout LL) StageLhs) (mkFullReader rhs_stage (loading_layout RL) StageRhs) sconf
    (pd DimM) (pd DimN) (pd DimK) Hreg (count_partition DimM) (count_partition DimN) (count_partition DimK) Hpn Hpm
    ltac:(unfold u32_max; lia) ltac:(unfold u32_max; lia)
    (λ mi ki, tile_value g IdentLhs (lhs_reader_at i) q (start_m u + mi) ki)
    (λ ki ni, tile_value g IdentRhs (rhs_reader_at i) q ki (start_n u + ni)))
    with (G := λ mi ni r c, block_value (i * sc_k_step config) ((start_m u + mi) * td DimM + r) ((start_n u + ni) * td DimN + c))
         (lhs := lhs_tile) (rhs := rhs_tile) (l := tt) as (lt' & rt' & [] & Hex & Hlt' & Hrt').
  - intros mi ki Hmi Hki. destruct (start_bounds u mi 0 Hu Hmi Hpn) as (-> & Hrow & _). rewrite Htile.
    pose proof (go_line _ _ _ _ _ (co_lhs _ _ _ _ _ _ _ _ _ K) : _ = rc_stage_line_size rc StageLhs) as <-.
    apply (tile_of_stage g IdentLhs al bl lenl (lhs_reader_at i) (co_lhs _ _ _ _ _ _ _ _ _ K) q (loading_layout LL) lhs_stage (start_m u + mi) ki HL).
    + done.
    + change (ki < sd DimK * pd DimK). rewrite (co_stage_k _ _ _ _ _ _ _ _ _ K). lia.
  - intros ki ni Hki Hni. destruct (start_bounds u 0 ni Hu Hpm Hni) as (_ & _ & -> & Hcol). rewrite Htile.
    pose proof (go_line _ _ _ _ _ (co_rhs _ _ _ _ _ _ _ _ _ K) : _ = rc_stage_line_size rc StageRhs) as <-.
    apply (tile_of_stage g IdentRhs ar br lenr (rhs_reader_at i) (co_rhs _ _ _ _ _ _ _ _ _ K) q (loading_layout RL) rhs_stage ki (start_n u + ni) HR).
    + change (ki < sd DimK * pd DimK). rewrite (co_stage_k _ _ _ _ _ _ _ _ _ K). lia.
    + done.
  - done.
  - done.
  - exists lt', rt'. split; [|done]. unfold unit_accs. rewrite Hex. do 3 f_equal. apply accs_congr; [done|]. intros mi ni r c _ _.
    rewrite <- block_value_step. unfold partial. rewrite Htile. apply fold_upto_ext. intros s ki _. unfold dot. apply fold_upto_ext. intros s' kk _.
    unfold tile_value, lhs_elem, rhs_elem. cbn [lhs_reader_at rhs_reader_at tr_x_offset tr_y_offset row_dim col_dim into_stage].
    f_equal. f_equal; f_equal; f_equal.
    + change (view (lhs_reader_at i)) with (view rl). f_equal. unfold tile_dim, cfg_scheme. cbn [gc_tiling_scheme simple_global_config]. lia.
    + change (view (rhs_reader_at i)) with (view rr). f_equal. unfold tile_dim, cfg_scheme. cbn [gc_tiling_scheme simple_global_config]. lia.
Qed.

(** *** Advancing the views *)

Context (n : N).
Context (WL : ∀ i, i < n → window_ok g IdentLhs (lhs_reader_at i)) (WR : ∀ i, i < n → window_ok g IdentRhs (rhs_reader_at i)).

Lemma stage_cols_k : stage_cols g IdentLhs = sc_k_step config ∧ stage_rows g IdentRhs = sc_k_step config.
Proof using K. rewrite (co_k_step _ _ _ _ _ _ _ _ _ K). done. Qed.

Lemma lhs_advance i :
  i < n → update_view (lhs_reader_at i) (sc_k_step config) IdentLhs = Ret (lhs_reader_at (i + 1)).
Proof using K WL.
  intros Hi. pose proof (wo_y_fits _ _ _ (WL i Hi)) as H. rewrite (proj1 stage_cols_k) in H. cbn [tr_y_offset lhs_reader_at] in H.
  unfold update_view. cbn [lhs_reader_at tr_tensor tr_x_offset tr_y_offset tr_stride_x tr_stride_y tr_shape_x tr_shape_y tr_batch_offset].
  rewrite wadd_small by done. unfold lhs_reader_at. do 2 f_equal. lia.
Qed.
Lemma rhs_advance i :
  i < n → update_view (rhs_reader_at i) (sc_k_step config) IdentRhs = Ret (rhs_reader_at (i + 1)).
Proof using K WR.
  intros Hi. pose proof (wo_x_fits _ _ _ (WR i Hi)) as H. rewrite (proj2 stage_cols_k) in H. cbn [tr_x_offset rhs_reader_at] in H.
  unfold update_view. cbn [rhs_reader_at tr_tensor tr_x_offset tr_y_offset tr_stride_x tr_stride_y tr_shape_x tr_shape_y tr_batch_offset].
  rewrite wadd_small by done. unfold rhs_reader_at. do 2 f_equal. lia.
Qed.
Lemma readers_at_0 : lhs_reader_at 0 = rl ∧ rhs_reader_at 0 = rr.
Proof using. unfold lhs_reader_at, rhs_reader_at. rewrite N.mul_0_l, !N.add_0_r. by destruct rl, rr. Qed.

Lemma advance_loader ident r r' L u l :
  loader_for g ident r q L u l → update_view r (sc_k_step config) ident = Ret r' →
  ∃ l', advance_view l (sc_k_step config) = Ret l' ∧ loader_for g ident r' q L u l'.
Proof using.
  intros (Hr & Hq & Hid & HL & Hj) Hu. unfold advance_view. rewrite Hr, Hid, Hu. cbn [obind]. eexists. split; [done|].
  unfold loader_for. cbn [ld_tensor_reader ld_quantization ld_ident ld_loading ld_loading_job]. done.
Qed.

(** *** The invariant of the loop over k *)

Definition arg_ok (a : UnitArgs) : Prop :=
  cube_unit (ua_pos a) ∧ loader_for g IdentLhs rl q LL (ua_pos a) (ua_lhs_loader a) ∧
  loader_for g IdentRhs rr q RL (ua_pos a) (ua_rhs_loader a) ∧
  ∃ G, ua_acc a = accs sconf (pd DimM) (pd DimN) G.

Definition unit_inv (i : N) (a : UnitArgs) (x : UnitRun) : Prop :=
  ur_pos x = ua_pos a ∧ ur_writer x = ua_writer a ∧ cube_unit (ua_pos a) ∧
  loader_for g IdentLhs (lhs_reader_at i) q LL (ua_pos a) (ur_lhs_loader x) ∧
  loader_for g IdentRhs (rhs_reader_at i) q RL (ua_pos a) (ur_rhs_loader x) ∧
  lhs_sized sconf (pd DimM) (ur_lhs_tile x) ∧ rhs_tile_sized sconf (ur_rhs_tile x) ∧
  ur_acc x = unit_accs (ua_pos a) (i * sc_k_step config).

Lemma accs_zero u G :
  Accumulators_zero sconf (accs sconf (pd DimM) (pd DimN) G) = Ret (unit_accs u 0).
Proof using K.
  pose proof (co_register _ _ _ _ _ _ _ _ _ K) as Hreg. destruct (co_pos _ _ _ _ _ _ _ _ _ K DimN) as [_ Hpn].
  destruct (small_counts DimM) as (_ & B1 & _), (small_counts DimN) as (_ & B2 & _).
  assert (pd DimM * pd DimN ≤ 255 * 255) as B3 by (by apply N.mul_le_mono).
  unfold Accumulators_zero, size_mn. change (uc_tiling_scheme sconf) with ts. fold (pd DimM) (pd DimN).
  rewrite checked_mul_ok by (unfold u32_max; lia). cbn [obind].
  set (zero := acc_array rc (λ _ _, ea_zero)).
  set (st := λ i, tabulate (pd DimM * pd DimN) (λ x, if x <? i then zero else acc_array rc (G (x / pd DimN) (x mod pd DimN)))).
  assert (accs sconf (pd DimM) (pd DimN) G = st 0) as ->.
  { apply tabulate_ext. intros x _. destruct (N.ltb_spec x 0); [lia|done]. }
  rewrite (for_range_states (pd DimM * pd DimN) _ st).
  - f_equal. apply tabulate_ext. intros x Hx. by rewrite (proj2 (N.ltb_lt _ _) Hx).
  - intros i Hi. unfold st at 1. erewrite seq_update_ok; [|by apply tabulate_lookup|].
    2: { rewrite (proj2 (N.ltb_ge i i)) by lia. apply zero_accumulator_ok; [done..|]. apply tabulate_length. }
    f_equal. rewrite tabulate_insert by done. apply tabulate_ext. intros x Hx.
    destruct (N.eqb_spec x i), (N.ltb_spec x i), (N.ltb_spec x (i + 1)); try done; lia.
Qed.

Lemma start_unit_ok a : arg_ok a → ∃ x, start_unit config a = Ret x ∧ unit_inv 0 a x.
Proof using K.
  intros (Hu & HL & HR & G & Hacc). pose proof (co_register _ _ _ _ _ _ _ _ _ K) as Hreg. destruct (ro_fit _ Hreg) as (F1 & F2 & F3).
  unfold start_unit, init_tile_inputs. unfold tiles_in_stage_partition_m. change (uc_tiling_scheme sconf) with ts.
  rewrite count_partition. cbn [obind]. unfold allocate_lhs, allocate_rhs, size_mk, size_nk.
  rewrite !checked_mul_ok by (unfold u32_max, two32 in *; lia). cbn [obind]. rewrite Hacc, (accs_zero (ua_pos a)). cbn [obind].
  eexists. split; [done|]. destruct readers_at_0 as [E1 E2]. unfold unit_inv. cbn [ur_pos ur_writer ur_lhs_loader ur_rhs_loader ur_lhs_tile ur_rhs_tile ur_acc].
  rewrite E1, E2. split_and!; try done.
  - split; [by rewrite length_replicate|]. intros i arr Ha. apply lookup_replicate in Ha as [-> _]. by rewrite length_replicate.
  - unfold rhs_tile_sized. destruct (uc_partition_buffering sconf); rewrite length_replicate; lia.
Qed.

Lemma compute_unit_ok i a x lhs_stage rhs_stage :
  i < n → unit_inv i a x → lhs_stage_ok i lhs_stage → rhs_stage_ok i rhs_stage →
  ∃ x', compute_unit config lhs_stage rhs_stage x = Ret x' ∧ unit_inv (i + 1) a x'.
Proof using UN K WL WR.
  intros Hi (Hp & Hw & Hu & HL & HR & Hlt & Hrt & Hacc) SL SR. unfold compute_unit.
  pose proof HL as (_ & _ & Il & Ll & _). pose proof HR as (_ & _ & Ir & Lr & _). rewrite Il, Ll, Ir, Lr, Hp, Hacc. cbn [into_stage].
  destruct (unit_executes i (ua_pos a) lhs_stage rhs_stage (ur_lhs_tile x) (ur_rhs_tile x)) as (lt' & rt' & -> & Hlt' & Hrt'); try done.
  cbn [obind]. destruct (advance_loader _ _ _ _ _ _ HL (lhs_advance i Hi)) as (ll & -> & HL'). cbn [obind].
  destruct (advance_loader _ _ _ _ _ _ HR (rhs_advance i Hi)) as (lr & -> & HR'). cbn [obind].
  eexists. split; [done|]. by split_and!.
Qed.

(** *** The loading phases *)

Lemma all_units_rhs us : all_units g IdentLhs us → all_units g IdentRhs us.
Proof using K.
  intros [H1 H2]. split.
  - eapply Forall_impl; [exact H1|]. cbn beta. intros u. by rewrite !cube_load_index.
  - intros i x Hi Hx. destruct (H2 i x Hi Hx) as (u & Hu & H3 & H4). exists u. by rewrite cube_load_index in *.
Qed.

Lemma each_forall2 {X Y} (f : X → outcome Y) xs ys : Forall2 (λ x y, f x = Ret y) xs ys → each f xs = Ret ys.
Proof using. induction 1 as [|x y xs ys Hx _ IH]; [done|]. cbn [each]. rewrite Hx. cbn [obind]. by rewrite IH. Qed.

(** Loading one side, for units whose loaders are at the reader [r]. *)
Lemma fill_phase_ok ident a b len r L loader order (xs : list UnitRun) stage :
  global_ok g ident a b len → window_ok g ident r →
  layout_usable (loading_layout L) (into_stage ident) (stage_memory_config sconf) → loading_check L g ident = Ret (inl tt) →
  all_units g ident (ur_pos <$> xs) → (∀ x, x ∈ xs → loader_for g ident r q L (ur_pos x) (loader x)) →
  (∀ ws, order ws ≡ₚ ws) → N.of_nat (length stage) = len * gc_global_line_size g ident →
  ∃ stage', fill_phase config ident loader order xs stage = Ret stage' ∧ length stage' = length stage ∧
    stage_holds g ident a b r q (loading_layout L) stage'.
Proof using.
  intros G W Huse Hcheck Hus Hload Hord Hlen.
  destruct (stage_loaded g ident a b len r G W q ur_pos loader L xs stage Huse Hcheck Hus Hload Hlen) as (wss & Hwss & Hfill).
  unfold fill_phase. rewrite (each_forall2 _ _ _ Hwss). cbn [obind].
  destruct (Hfill (order (concat wss)) (Hord _)) as (stage' & Hrun & Hl & Hs). exists stage'. split; [|done].
  rewrite (go_line _ _ _ _ _ G) in Hrun. exact Hrun.
Qed.

Lemma start_units_ok l : Forall arg_ok l → ∃ units, each (start_unit config) l = Ret units ∧ Forall2 (unit_inv 0) l units.
Proof using K.
  induction 1 as [|a l Ha _ IH]; [by exists []|]. destruct (start_unit_ok a Ha) as (x & Hx & Hix).
  destruct IH as (xs & Hxs & Hixs). exists (x :: xs). cbn [each]. rewrite Hx. cbn [obind]. rewrite Hxs. cbn [obind]. split; [done|].
  by constructor.
Qed.

Context (sched : Schedule) (Hsched : schedule_ok sched).
Context (args : list UnitArgs) (Hargs : Forall arg_ok args) (Hunits : all_units g IdentLhs (ua_pos <$> args)).

(** The state before step [i]. *)
Definition cube_inv (i : N) (c : CubeRun) : Prop :=
  N.of_nat (length (cr_lhs_stage c)) = lenl * gc_global_line_size g IdentLhs ∧
  N.of_nat (length (cr_rhs_stage c)) = lenr * gc_global_line_size g IdentRhs ∧
  Forall2 (unit_inv i) args (cr_units c).

Lemma inv_positions i xs : Forall2 (unit_inv i) args xs → ur_pos <$> xs = ua_pos <$> args.
Proof using. clear Hargs Hunits. induction 1 as [|a x args' xs Hx _ IH]; [done|]. destruct Hx as (Hp & _). by rewrite !fmap_cons, IH, Hp. Qed.

Lemma loop_body_ok i c : i < n → cube_inv i c → ∃ c', loop_body config sched i c = Ret c' ∧ cube_inv (i + 1) c'.
Proof using UN K WL WR Hsched Hunits.
  intros Hi (Hl & Hr & Hxs). pose proof (inv_positions i _ Hxs) as Hpos. unfold loop_body.
  assert (∀ x, x ∈ cr_units c → ∃ a, unit_inv i a x) as Hin.
  { intros x Hx. apply list_elem_of_lookup in Hx as [k Hk]. destruct (Forall2_lookup_r _ _ _ _ _ Hxs Hk) as (a & _ & Ha). by exists a. }
  destruct (fill_phase_ok IdentLhs al bl lenl (lhs_reader_at i) LL ur_lhs_loader (order_lhs sched i) (cr_units c) (cr_lhs_stage c))
    as (ls & -> & Hll & Hls); [apply K|by apply WL|apply K|apply K|by rewrite Hpos| |apply Hsched|done|].
  { intros x Hx. destruct (Hin x Hx) as (a & -> & _ & _ & ? & _). done. }
  cbn [obind].
  destruct (fill_phase_ok IdentRhs ar br lenr (rhs_reader_at i) RL ur_rhs_loader (order_rhs sched i) (cr_units c) (cr_rhs_stage c))
    as (rs & -> & Hrl & Hrs); [apply K|by apply WR|apply K|apply K|rewrite Hpos; by apply all_units_rhs| |apply Hsched|done|].
  { intros x Hx. destruct (Hin x Hx) as (a & -> & _ & _ & _ & ? & _). done. }
  cbn [obind].
  assert (∃ xs', each (compute_unit config ls rs) (cr_units c) = Ret xs' ∧ Forall2 (unit_inv (i + 1)) args xs') as (xs' & -> & Hxs').
  { clear Hpos Hin Hunits Hargs. induction Hxs as [|a x args' xs Hx _ IH]; [by exists []|].
    destruct (compute_unit_ok i a x ls rs Hi Hx Hls Hrs) as (x' & Hc & Hx'). destruct IH as (xs' & Hc' & Hxs'). exists (x' :: xs').
    cbn [each]. rewrite Hc. cbn [obind]. rewrite Hc'. cbn [obind]. split; [done|]. by constructor. }
  cbn [obind]. eexists. split; [done|]. split_and!; cbn [cr_lhs_stage cr_rhs_stage cr_units]; [by rewrite Hll|by rewrite Hrl|done].
Qed.

Lemma new_stage_ok ident a b len :
  global_ok g ident a b len →
  ∃ stage, new_stage config ident = Ret stage ∧ N.of_nat (length stage) = len * gc_global_line_size g ident.
Proof using.
  intros G. unfold new_stage. change (stage_memory_config sconf) with (gc_stage_memory_config g). rewrite (go_alloc _ _ _ _ _ G). cbn [obind].
  eexists. split; [done|]. rewrite length_replicate, (go_line _ _ _ _ _ G). lia.
Qed.

(** The state when the loop ends. *)
Lemma loop_ok k_range :
  num_loops config k_range = Ret n →
  ∃ c units lhs_stage rhs_stage,
    each (start_unit config) args = Ret units ∧ new_stage config IdentLhs = Ret lhs_stage ∧ new_stage config IdentRhs = Ret rhs_stage ∧
    for_range n (loop_body config sched) (mkCube lhs_stage rhs_stage units) = Ret c ∧
    Forall2 (unit_inv n) args (cr_units c).
Proof using UN K WL WR Hsched Hunits Hargs.
  intros Hn. destruct (start_units_ok args Hargs) as (units & Hu & Hinv).
  destruct (new_stage_ok IdentLhs al bl lenl) as (ls & Hls & Hll); [apply K|].
  destruct (new_stage_ok IdentRhs ar br lenr) as (rs & Hrs & Hrl); [apply K|].
  destruct (for_range_inv cube_inv n (loop_body config sched) (mkCube ls rs units)) as (c & Hc & Hl & Hr & Hxs).
  - split_and!; done.
  - intros i c Hi Hc. by apply loop_body_ok.
  - exists c, units, ls, rs. done.
Qed.
End Cube.
