(* ===== verification/SimpleOutput.v ===== *)
(** * The output of a block

    Proofs about the writes of [SimpleMatmul.v]: the units of a cube write
    every element of their block that is inside the output, each with the value
    of its accumulator, and nothing else. *)

From S2P Require Import Prelude DeviceNum Tiling Hypercube StageLayout MatmulConfig GlobalMemory StageLoad StageLoadProps Loops RegisterTile PartitionMatmul SimpleMatmulProps SimpleMatmul.

Open Scope N_scope.
Open Scope rust_scope.

(** ** A writer of row-major lines *)

(** The output is row-major with rows that do not overlap, its lines are
    aligned, and the block is inside where no check is made. *)
Record writer_ok {MP : MatmulPrecision} (config : SimpleConfig) (w : TensorWriter) (data : list EO) : Prop := {
  wr_stride : tw_stride_y w = 1 ∧ tw_shape_y w ≤ tw_stride_x w;
  wr_stride_x : (gc_global_line_size (simple_global_config config) IdentOut | tw_stride_x w);
  wr_offset : (gc_global_line_size (simple_global_config config) IdentOut | tw_y_offset w);
  wr_batch : (gc_global_line_size (simple_global_config config) IdentOut | tw_batch_offset w);
  wr_shape : (gc_global_line_size (simple_global_config config) IdentOut | tw_shape_y w);
  wr_inside : ∀ x y, x < tw_shape_x w → y < tw_shape_y w → x * tw_stride_x w + y + tw_batch_offset w < N.of_nat (length data);
  wr_size : N.of_nat (length data) ≤ two32;
  wr_fits : tw_x_offset w + stage_len_of config DimM < two32 ∧ tw_y_offset w + stage_len_of config DimN < two32;
  wr_rows : sc_check_m_bounds config = true ∨ tw_x_offset w + stage_len_of config DimM ≤ tw_shape_x w;
  wr_cols : sc_check_n_bounds config = true ∨ tw_y_offset w + stage_len_of config DimN ≤ tw_shape_y w;
}.

Section Output.
Context {MP : MatmulPrecision} {UN : Uninit}.
Context (config : SimpleConfig) (LL RL : SyncFullLoading) (al bl lenl ar br lenr : N).
Context (K : cube_ok config LL RL al bl lenl ar br lenr).
Abbreviation g := (simple_global_config config).
Abbreviation sconf := (sc_stage_config config).
Abbreviation rc := (uc_tile_config sconf).
Abbreviation sd := (stage_dim config).
Abbreviation pd := (part_dim config).
Abbreviation td := (tile_dim config).
Abbreviation line := (gc_global_line_size g IdentOut).
Context (w : TensorWriter) (data : list EO) (W : writer_ok config w data).

(** Whether an element of the block is inside the output, and where. *)
Definition inside (x y : N) : bool := (x + tw_x_offset w <? tw_shape_x w) && (y + tw_y_offset w <? tw_shape_y w).
Definition out_position (x y : N) : N := (x + tw_x_offset w) * tw_stride_x w + (y + tw_y_offset w) + tw_batch_offset w.

Lemma out_line_pos : 0 < line.
Proof using K. apply (ro_line _ (co_register _ _ _ _ _ _ _ _ _ K)). Qed.

Lemma out_line_tile : (line | td DimN).
Proof using K. pose proof (ro_out _ (co_register _ _ _ _ _ _ _ _ _ K)) as H. rewrite (co_tile _ _ _ _ _ _ _ _ _ K) in H. exact H. Qed.

Lemma tile_dims_pos : 0 < td DimM ∧ 0 < td DimN ∧ td DimM * td DimN < two32.
Proof using K.
  pose proof (ro_pos _ (co_register _ _ _ _ _ _ _ _ _ K)) as H. pose proof (ro_fit _ (co_register _ _ _ _ _ _ _ _ _ K)) as H'.
  rewrite (co_tile _ _ _ _ _ _ _ _ _ K) in *. unfold tile_dim. tauto.
Qed.

Lemma inside_lt x y : inside x y = true → x + tw_x_offset w < tw_shape_x w ∧ y + tw_y_offset w < tw_shape_y w.
Proof using. unfold inside. rewrite andb_true_iff, !N.ltb_lt. done. Qed.

Lemma inside_line x y p : (line | y) → p < line → inside x (y + p) = inside x y.
Proof using W.
  intros Hy Hp. unfold inside. f_equal. replace (y + p + tw_y_offset w) with (y + tw_y_offset w + p) by lia.
  pose proof (aligned_lt line (y + tw_y_offset w) p (tw_shape_y w)) as Ha.
  destruct Ha as [H1 H2]; [apply N.divide_add_r; [done|apply W]|apply W|done|].
  destruct (N.ltb_spec (y + tw_y_offset w + p) (tw_shape_y w)), (N.ltb_spec (y + tw_y_offset w) (tw_shape_y w)); try done; lia.
Qed.

Lemma out_position_aligned x y : (line | y) → (line | out_position x y).
Proof using W.
  intros Hy. unfold out_position. apply N.divide_add_r; [|apply W]. apply N.divide_add_r; [apply N.divide_mul_r, W|].
  apply N.divide_add_r; [done|apply W].
Qed.

Lemma out_position_lt x y : inside x y = true → out_position x y < N.of_nat (length data).
Proof using W. intros [Hx Hy]%inside_lt. by apply (wr_inside _ _ _ W). Qed.

(** Different elements of the matrix are different elements of the buffer. *)
Lemma out_position_inj x y x' y' :
  inside x y = true → inside x' y' = true → out_position x y = out_position x' y' → x = x' ∧ y = y'.
Proof using W.
  intros [Hx Hy]%inside_lt [Hx' Hy']%inside_lt Heq. unfold out_position in Heq. destruct (wr_stride _ _ _ W) as [_ Hs].
  destruct (radix_inj (tw_stride_x w) (x + tw_x_offset w) (y + tw_y_offset w) (x' + tw_x_offset w) (y' + tw_y_offset w)); lia.
Qed.

Lemma write_coalesced_ok tile_x tile_y r c v :
  tile_x < sd DimM * pd DimM → tile_y < sd DimN * pd DimN → r < td DimM → c < td DimN → (line | c) →
  write_coalesced g w tile_x tile_y (r * td DimN + c) v =
    Ret (if inside (tile_x * td DimM + r) (tile_y * td DimN + c)
         then [(out_position (tile_x * td DimM + r) (tile_y * td DimN + c) / line, v)] else []).
Proof using K W.
  intros Hx Hy Hr Hc Hal. unfold write_coalesced. unfold elements_in_tile_m, elements_in_tile_n.
  pose proof (cube_scheme config LL RL al bl lenl ar br lenr K) as Hwf.
  change (gc_tiling_scheme g) with (cfg_scheme config).
  assert (∀ d, count_1d (cfg_scheme config) Element Tile d = Ret (td d)) as Hcount.
  { intros d. apply count_inner; [done|done|]. apply spec_tile. }
  rewrite !Hcount. cbn [obind]. destruct (radix_div_mod (td DimN) r c Hc) as [-> ->].
  pose proof (radix_lt (td DimM) (sd DimM * pd DimM) tile_x r Hx Hr) as Bx. pose proof (radix_lt (td DimN) (sd DimN * pd DimN) tile_y c Hy Hc) as By.
  destruct (wr_fits _ _ _ W) as [Fx Fy]. unfold stage_len_of in Fx, Fy.
  rewrite (wmul_small tile_x), (wmul_small tile_y), (wadd_small (tile_x * _)), (wadd_small (tile_y * _)) by lia.
  set (x := tile_x * td DimM + r) in *. set (y := tile_y * td DimN + c) in *.
  rewrite (wadd_small x), (wadd_small y) by lia.
  assert (match gc_check_row_bounds g IdentOut, gc_check_col_bounds g IdentOut with
    | true, true => (x + tw_x_offset w <? tw_shape_x w) && (y + tw_y_offset w <? tw_shape_y w)
    | true, false => x + tw_x_offset w <? tw_shape_x w
    | false, true => y + tw_y_offset w <? tw_shape_y w
    | false, false => true
    end = inside x y) as ->.
  { change (gc_check_row_bounds g IdentOut) with (sc_check_m_bounds config). change (gc_check_col_bounds g IdentOut) with (sc_check_n_bounds config).
    pose proof (wr_rows _ _ _ W) as Cr. pose proof (wr_cols _ _ _ W) as Cc. unfold stage_len_of, inside in *.
    destruct (sc_check_m_bounds config), (sc_check_n_bounds config), (N.ltb_spec (x + tw_x_offset w) (tw_shape_x w)),
      (N.ltb_spec (y + tw_y_offset w) (tw_shape_y w)); try done; destruct Cr, Cc; try done; lia. }
  f_equal. destruct (inside x y) eqn:Hin; [|done]. do 2 f_equal.
  pose proof (out_position_lt x y Hin) as Hlt. pose proof (wr_size _ _ _ W) as Hsz. destruct (wr_stride _ _ _ W) as [Hs1 _]. rewrite Hs1.
  unfold out_position in *.
  rewrite (wmul_small (x + _)), (wmul_small (y + _)), N.mul_1_r, (wadd_small ((x + _) * _)), wadd_small by lia. done.
Qed.

(** ** The writes of a tile *)

Context (val : N → N → EA).

(** The line of the output that starts at an element of the block. *)
Definition out_write (x y : N) : N * list EO := (out_position x y / line, tabulate line (λ p, eo_of_ea (val x (y + p)))).

(** The writes are lines of the block that satisfy [P], and all of those that
    are inside. *)
Definition emits (P : N → N → Prop) (ws : list (N * list EO)) : Prop :=
  (∀ v, v ∈ ws → ∃ x y, P x y ∧ (line | y) ∧ inside x y = true ∧ v = out_write x y) ∧
  (∀ x y, P x y → (line | y) → inside x y = true → out_write x y ∈ ws).

Lemma emits_nil (P : N → N → Prop) : (∀ x y, ¬ P x y) → emits P [].
Proof using. intros H. split; [by intros v Hv%elem_of_nil|]. intros x y HP. by apply H in HP. Qed.

Lemma emits_app (P Q R : N → N → Prop) ws1 ws2 :
  (∀ x y, (line | y) → R x y ↔ P x y ∨ Q x y) → emits P ws1 → emits Q ws2 → emits R (ws1 ++ ws2).
Proof using.
  intros HR [H1 H2] [H3 H4]. split.
  - intros v [Hv|Hv]%elem_of_app.
    + destruct (H1 v Hv) as (x & y & ? & ? & ? & ?). exists x, y. split_and!; try done. apply HR; auto.
    + destruct (H3 v Hv) as (x & y & ? & ? & ? & ?). exists x, y. split_and!; try done. apply HR; auto.
  - intros x y HP Hy Hin. apply elem_of_app. apply HR in HP as [HP|HP]; auto.
Qed.

Lemma emits_ext (P Q : N → N → Prop) ws : (∀ x y, P x y ↔ Q x y) → emits P ws → emits Q ws.
Proof using.
  intros H [H1 H2]. split; [|intros x y HQ; apply H2; by apply H]. intros v Hv. destruct (H1 v Hv) as (x & y & ? & ?).
  exists x, y. split; [by apply H|done].
Qed.

(** A loop that collects writes. *)
Lemma emits_for n0 (f : N → list (N * list EO) → outcome (list (N * list EO))) (P : N → N → N → Prop) :
  (∀ i ws, i < n0 → ∃ v, f i ws = Ret (ws ++ v) ∧ emits (P i) v) →
  ∃ ws, for_range n0 f [] = Ret ws ∧ emits (λ x y, ∃ i, i < n0 ∧ P i x y) ws.
Proof using.
  intros Hf. apply (for_range_inv (λ i ws, emits (λ x y, ∃ j, j < i ∧ P j x y) ws)).
  - apply emits_nil. intros x y (j & ? & _). lia.
  - intros i ws Hi Hws. destruct (Hf i ws Hi) as (v & -> & Hv). exists (ws ++ v). split; [done|].
    eapply emits_app; [|exact Hws|exact Hv]. intros x y _. split.
    + intros (j & Hj & HP). destruct (decide (j = i)) as [->|]; [by right|]. left. exists j. split; [lia|done].
    + intros [(j & Hj & HP)|HP]; [exists j; split; [lia|done]|exists i; split; [lia|done]].
Qed.

Definition in_tile (row col x y : N) : Prop := ∃ r c, r < td DimM ∧ c < td DimN ∧ x = row * td DimM + r ∧ y = col * td DimN + c.

Definition tile_slice (row col : N) : list EO :=
  tabulate (td DimM * td DimN) (λ i, eo_of_ea (val (row * td DimM + i / td DimN) (col * td DimN + i mod td DimN))).

(** A line of the slice of a tile. *)
Lemma tile_slice_line row col r c :
  r < td DimM → c < td DimN → (line | c) →
  ∃ i, i * line = r * td DimN + c ∧ read_unchecked line (tile_slice row col) i =
    Ret (tabulate line (λ p, eo_of_ea (val (row * td DimM + r) (col * td DimN + c + p)))).
Proof using K.
  intros Hr Hc [q Hq]. destruct out_line_tile as [k Hk]. pose proof out_line_pos as Hl. exists (r * k + q).
  assert ((r * k + q) * line = r * td DimN + c) as Hi by (rewrite Hk, Hq; lia). split; [done|].
  assert (c + line ≤ td DimN) as Hcl.
  { rewrite Hk, Hq in *. apply N.mul_lt_mono_pos_r in Hc; [|done]. assert ((q + 1) * line ≤ k * line) by (apply N.mul_le_mono_r; lia). lia. }
  assert (r * td DimN + td DimN ≤ td DimM * td DimN) as Hrm by (assert ((r + 1) * td DimN ≤ td DimM * td DimN) by (apply N.mul_le_mono_r; lia); lia).
  destruct (read_unchecked_ok line (tile_slice row col) (r * k + q)) as (l & -> & Hlen & Hel).
  { unfold tile_slice. rewrite tabulate_length. lia. }
  f_equal. apply tabulate_eq; [done|]. intros p Hp. rewrite Hel by done. unfold tile_slice. rewrite Hi.
  rewrite <- N.add_assoc, tabulate_lookup by lia. destruct (radix_div_mod (td DimN) r (c + p)) as [-> ->]; [lia|]. by rewrite N.add_assoc.
Qed.

Lemma unit_write_ok row col :
  row < sd DimM * pd DimM → col < sd DimN * pd DimN →
  ∃ ws, unit_write g w (tile_slice row col) row col = Ret ws ∧ emits (in_tile row col) ws.
Proof using K W.
  intros Hrow Hcol. unfold unit_write. pose proof out_line_pos as Hl. destruct tile_dims_pos as (Hm & Hn & Hmn). destruct out_line_tile as [k Hk].
  pose proof (cube_scheme config LL RL al bl lenl ar br lenr K) as Hwf.
  assert (elements_in_tile_mn (gc_tiling_scheme g) = Ret (td DimM * td DimN)) as ->.
  { apply count_2d_ok; [done|done|apply spec_tile..|]. unfold tile_dim in *. unfold u32_max, two32 in *. lia. }
  cbn [obind]. assert (td DimM * td DimN = td DimM * k * line) as Hlines by (rewrite Hk; lia).
  assert (checked_div (td DimM * td DimN) line = Ret (td DimM * k)) as -> by (rewrite Hlines; by apply checked_div_exact). cbn [obind].
  destruct (emits_for (td DimM * k) (λ i ws,
      let? value := read_unchecked line (tile_slice row col) i in
      let? v := write_coalesced g w row col (wmul i line) value in Ret (ws ++ v))
    (λ i x y, ∃ r c, r < td DimM ∧ c < td DimN ∧ i * line = r * td DimN + c ∧ x = row * td DimM + r ∧ y = col * td DimN + c)) as (ws & Hws & He).
  - intros i ws Hi.
    assert (∃ r c, r < td DimM ∧ c < td DimN ∧ (line | c) ∧ i * line = r * td DimN + c) as (r & c & Hr & Hc & Hd & Hi').
    { destruct (div_mod_ex i k) as (r & q & _ & _ & Ei & Hq); [nia|]. exists r, (q * line). split_and!; [apply (N.mul_lt_mono_pos_r k); lia| |by exists q|].
      - rewrite Hk. by apply N.mul_lt_mono_pos_r.
      - rewrite Ei, Hk. lia. }
    destruct (tile_slice_line row col r c Hr Hc Hd) as (i' & Hi'' & Hread).
    assert (i' = i) as -> by (apply (N.mul_cancel_r _ _ line); lia). rewrite Hread. cbn [obind].
    pose proof (radix_lt (td DimN) (td DimM) r c Hr Hc). rewrite wmul_small by lia. rewrite Hi'.
    rewrite write_coalesced_ok by done. cbn [obind]. eexists. split; [done|]. split.
    + intros v Hv. destruct (inside _ _) eqn:Hin; [|by apply elem_of_nil in Hv]. apply list_elem_of_singleton in Hv as ->.
      eexists _, _. split_and!; [by exists r, c| |exact Hin|done]. apply N.divide_add_r; [apply N.divide_mul_r, out_line_tile|done].
    + intros x y (r' & c' & Hr' & Hc' & E & -> & ->) _ Hin. 
      destruct (radix_inj (td DimN) r c r' c') as [<- <-]; [done|done|done|]. rewrite Hin. by apply list_elem_of_singleton.
  - exists ws. split; [exact Hws|]. destruct He as [He1 He2]. split.
    + intros v Hv. destruct (He1 v Hv) as (x & y & (i & Hi & r & c & Hr & Hc & _ & Ex & Ey) & Hrest). exists x, y. split; [by exists r, c|done].
    + intros x y (r & c & Hr & Hc & -> & ->) Hy Hin. apply He2; [|done|done].
      assert (line | c) as Hd by (eapply N.divide_add_cancel_r; [|exact Hy]; apply N.divide_mul_r, out_line_tile).
      destruct (tile_slice_line row col r c Hr Hc Hd) as (i & Hi & _). exists i. split.
      * apply (N.mul_lt_mono_pos_r line); [done|]. rewrite Hi, <- Hlines. by apply radix_lt.
      * by exists r, c.
Qed.

(** ** The writes of a unit and of the cube *)

Definition val_accs (u : UnitPos) : list TileAccumulator :=
  accs sconf (pd DimM) (pd DimN) (λ mi ni r c, val ((start_m config u + mi) * td DimM + r) ((start_n config u + ni) * td DimN + c)).

Lemma get_tile u mi ni :
  mi < pd DimM → ni < pd DimN →
  get_at sconf (val_accs u) mi ni =
    Ret (acc_array rc (λ r c, val ((start_m config u + mi) * td DimM + r) ((start_n config u + ni) * td DimN + c))).
Proof using K.
  intros Hm Hn. pose proof (radix_lt (pd DimN) (pd DimM) mi ni Hm Hn) as Hlt.
  destruct (small_counts config LL RL al bl lenl ar br lenr K DimM) as (_ & B1 & _), (small_counts config LL RL al bl lenl ar br lenr K DimN) as (_ & B2 & _).
  assert (pd DimM * pd DimN ≤ 255 * 255) by (by apply N.mul_le_mono).
  unfold get_at, acc_index, tiles_in_stage_partition_n. change (uc_tiling_scheme sconf) with (cfg_scheme config).
  rewrite (count_partition config LL RL al bl lenl ar br lenr K). cbn [obind]. rewrite checked_mul_ok by (unfold u32_max; lia). cbn [obind].
  rewrite checked_add_ok by (unfold u32_max; lia). cbn [obind]. unfold val_accs, accs, seq_index. rewrite tabulate_lookup by done. cbn [expect].
  by destruct (radix_div_mod (pd DimN) mi ni Hn) as [-> ->].
Qed.

(** The elements of the partition of a unit. *)
Definition in_partition (u : UnitPos) (x y : N) : Prop :=
  ∃ mi ni, mi < pd DimM ∧ ni < pd DimN ∧ in_tile (start_m config u + mi) (start_n config u + ni) x y.

Lemma tile_written u mi ni sl :
  cube_unit config u → mi < pd DimM → ni < pd DimN → length sl = N.to_nat (td DimM * td DimN) →
  ∃ v, (let? accumulator := get_at sconf (val_accs u) mi ni in
        let? smem_slice := register_write_results rc accumulator sl in
        let? v := unit_write g w smem_slice (wadd (start_m config u) mi) (wadd (start_n config u) ni) in Ret (smem_slice, v)) =
       Ret (tile_slice (start_m config u + mi) (start_n config u + ni), v) ∧
    emits (in_tile (start_m config u + mi) (start_n config u + ni)) v.
Proof using UN K W.
  intros Hu Hmi Hni Hsl. rewrite get_tile by done. cbn [obind].
  destruct (start_bounds config LL RL al bl lenl ar br lenr K u mi ni Hu Hmi Hni) as (-> & Brow & -> & Bcol).
  pose proof (co_tile _ _ _ _ _ _ _ _ _ K) as Ht. pose proof (co_register _ _ _ _ _ _ _ _ _ K) as Hreg.
  rewrite (register_write_results_ok rc Hreg) by (by rewrite Ht). cbn [obind]. rewrite Ht.
  fold (td DimM) (td DimN). change (tabulate _ _) with (tile_slice (start_m config u + mi) (start_n config u + ni)).
  destruct (unit_write_ok (start_m config u + mi) (start_n config u + ni) Brow Bcol) as (v & -> & Hv). by exists v.
Qed.

Lemma stage_write_results_ok u smem :
  cube_unit config u → out_smem_new sconf = Ret smem →
  ∃ ws, stage_write_results u (val_accs u) smem w sconf g = Ret ws ∧ emits (in_partition u) ws.
Proof using UN K W.
  intros Hu Hsmem. unfold stage_write_results.
  pose proof (cube_scheme config LL RL al bl lenl ar br lenr K) as Hwf. destruct tile_dims_pos as (Hm & Hn & Hmn). pose proof out_line_pos as Hl.
  assert (elements_in_tile_mn (uc_tiling_scheme sconf) = Ret (td DimM * td DimN)) as Hel.
  { apply count_2d_ok; [done|done|apply spec_tile..|]. unfold tile_dim in *. unfold u32_max, two32 in *. lia. }
  rewrite Hel. cbn [obind]. destruct out_line_tile as [k Hk]. assert (td DimM * td DimN = td DimM * k * line) as Hlines by (rewrite Hk; lia).
  change (rc_stage_line_size rc StageAcc) with line.
  assert (checked_div (td DimM * td DimN) line = Ret (td DimM * k)) as Hdiv by (rewrite Hlines; by apply checked_div_exact).
  rewrite Hdiv. cbn [obind]. unfold tiles_in_stage_partition_m, tiles_in_stage_partition_n, stage_partitions_in_stage_n.
  change (gc_tiling_scheme g) with (cfg_scheme config). change (uc_tiling_scheme sconf) with (cfg_scheme config).
  rewrite !(count_partition config LL RL al bl lenl ar br lenr K), (count_stage_partitions config LL RL al bl lenl ar br lenr K). cbn [obind].
  pose proof (partition_start_ok config LL RL al bl lenl ar br lenr K u Hu) as Hstart.
  unfold partition_start, tiles_in_stage_partition_m, tiles_in_stage_partition_n, stage_partitions_in_stage_n in Hstart.
  change (uc_tiling_scheme sconf) with (cfg_scheme config) in Hstart.
  rewrite !(count_partition config LL RL al bl lenl ar br lenr K), (count_stage_partitions config LL RL al bl lenl ar br lenr K) in Hstart.
  cbn [obind] in Hstart.
  assert (wmul (pd DimM) (partition_position sconf u / sd DimN) = start_m config u ∧
    wmul (pd DimN) (partition_position sconf u mod sd DimN) = start_n config u) as [-> ->] by (split; congruence).
  rewrite (partition_position_ok config LL RL al bl lenl ar br lenr K) by done.
  set (sl0 := take _ _). assert (length sl0 = N.to_nat (td DimM * td DimN)) as Hsl0.
  { pose proof (unit_index_lt config LL RL al bl lenl ar br lenr K u Hu) as Hidx. rewrite <- (co_units _ _ _ _ _ _ _ _ _ K) in Hidx.
    pose proof (co_smem _ _ _ _ _ _ _ _ _ K) as Hfit. unfold out_smem_new in Hsmem. change (uc_tiling_scheme sconf) with (cfg_scheme config) in Hsmem, Hel.
    rewrite Hel in Hsmem. cbn [obind] in Hsmem. change (rc_stage_line_size rc StageAcc) with line in Hsmem. rewrite Hdiv in Hsmem. cbn [obind] in Hsmem.
    unfold partition_num_primitives in Hsmem. set (units := uc_num_main_flow_planes sconf * uc_plane_dim sconf) in *.
    apply obind_ret in Hsmem as (prim & Hprim & Hsmem). unfold checked_mul in Hprim. destruct (_ <=? _); [|done]. injection Hprim as <-. fold units in Hsmem.
    apply obind_ret in Hsmem as (total & Htot & Hsmem). unfold checked_mul in Htot. destruct (N.leb_spec (td DimM * k * units) u32_max); [|done].
    assert (smem = replicate (N.to_nat (td DimM * k * units * line)) uninit_eo) as -> by congruence.
    assert ((unit_index config u + 1) * (td DimM * k) ≤ units * (td DimM * k)) as Hle by (apply N.mul_le_mono_r; lia).
    assert ((td DimM * k * unit_index config u + td DimM * k) * line ≤ td DimM * k * units * line) as Hle2 by (apply N.mul_le_mono_r; lia).
    unfold sl0. rewrite wmul_small by (unfold two32, u32_max in *; lia). rewrite length_take, length_drop, length_replicate, Hlines.
    rewrite N.mul_add_distr_r in Hle2. clear -Hle2. revert Hle2. generalize (td DimM * k * unit_index config u * line) as p1.
    generalize (td DimM * k * line) as p2. generalize (td DimM * k * units * line) as p3. intros. lia. }
  clearbody sl0. match goal with |- context [for_range (pd DimM) ?b _] => set (body := b) end.
  destruct (for_range_inv (λ i '(sl, ws), length sl = N.to_nat (td DimM * td DimN) ∧
    emits (λ x y, ∃ mi, mi < i ∧ ∃ ni, ni < pd DimN ∧ in_tile (start_m config u + mi) (start_n config u + ni) x y) ws) (pd DimM) body (sl0, []))
    as ([sl ws] & -> & _ & Hws).
  - split; [done|]. apply emits_nil. intros x y (mi & ? & _). lia.
  - intros i [sl ws] Hi [Hsl Hws]. unfold body.
    destruct (for_range_inv (λ j '(sl', ws'), length sl' = N.to_nat (td DimM * td DimN) ∧
      ∃ v, ws' = ws ++ v ∧ emits (λ x y, ∃ ni, ni < j ∧ in_tile (start_m config u + i) (start_n config u + ni) x y) v) (pd DimN)
      (λ n_iter '(smem_slice, ws0),
         let? accumulator := get_at sconf (val_accs u) i n_iter in
         let? smem_slice := register_write_results rc accumulator smem_slice in
         let? v := unit_write g w smem_slice (wadd (start_m config u) i) (wadd (start_n config u) n_iter) in
         Ret (smem_slice, ws0 ++ v)) (sl, ws))
      as ([sl' ws'] & -> & Hsl' & v & -> & Hv).
    + split; [done|]. exists []. split; [by rewrite app_nil_r|]. apply emits_nil. intros x y (ni & ? & _). lia.
    + intros j [sl' ws'] Hj (Hsl' & v & -> & Hv). destruct (tile_written u i j sl' Hu Hi Hj Hsl') as (v' & Hrun & Hv').
      apply obind_ret in Hrun as (acc & -> & Hrun). cbn [obind]. apply obind_ret in Hrun as (sl'' & -> & Hrun). cbn [obind].
      apply obind_ret in Hrun as (v'' & -> & [= -> ->]). cbn [obind]. eexists. split; [done|]. cbn beta iota.
      split; [apply tabulate_length|]. exists (v ++ v'). split; [by rewrite app_assoc|]. eapply emits_app; [|exact Hv|exact Hv'].
      intros x y _. split.
      * intros (ni & Hni & HP). destruct (decide (ni = j)) as [->|]; [by right|]. left. exists ni. split; [lia|done].
      * intros [(ni & Hni & HP)|HP]; [exists ni; split; [lia|done]|exists j; split; [lia|done]].
    + eexists. split; [done|]. cbn beta iota. split; [done|]. eapply emits_app; [|exact Hws|exact Hv]. intros x y _. split.
      * intros (mi & Hmi & HP). destruct (decide (mi = i)) as [->|]; [by right|]. left. exists mi. split; [lia|done].
      * intros [(mi & Hmi & HP)|HP]; [exists mi; split; [lia|done]|exists i; split; [lia|done]].
  - cbn [obind]. exists ws. split; [done|]. eapply emits_ext; [|exact Hws]. intros x y. split.
    + intros (mi & Hmi & ni & Hni & HP). exists mi, ni. done.
    + intros (mi & ni & Hmi & Hni & HP). exists mi. split; [done|]. by exists ni.
Qed.

(** The elements of the block. *)
Definition in_block (x y : N) : Prop := x < stage_len_of config DimM ∧ y < stage_len_of config DimN.

Lemma partitions_cover us x y :
  Forall (cube_unit config) us → all_units g IdentLhs us → in_block x y ↔ ∃ u, u ∈ us ∧ in_partition u x y.
Proof using K.
  intros Hcu Hus. destruct tile_dims_pos as (Hm & Hn & _). unfold in_block, stage_len_of. split.
  - intros [Hx Hy]. destruct (div_mod_ex x (td DimM) Hm) as (row & r & _ & _ & -> & Hr), (div_mod_ex y (td DimN) Hn) as (col & c & _ & _ & -> & Hc).
    apply quot_lt in Hx, Hy. destruct (tile_of_unit config LL RL al bl lenl ar br lenr K us row col Hus Hx Hy) as (u & mi & ni & Hu & Hmi & Hni & -> & ->).
    exists u. split; [done|]. exists mi, ni. split_and!; [done|done|]. by exists r, c.
  - intros (u & Hu & mi & ni & Hmi & Hni & r & c & Hr & Hc & -> & ->). rewrite Forall_forall in Hcu.
    destruct (start_bounds config LL RL al bl lenl ar br lenr K u mi ni (Hcu u Hu) Hmi Hni) as (_ & B1 & _ & B2). split; by apply radix_lt.
Qed.

Lemma block_aligned x y p : in_block x y → (line | y) → p < line → in_block x (y + p).
Proof using K.
  intros [Hx Hy] Hd Hp. split; [done|]. apply (aligned_lt line); [done| |done|done]. unfold stage_len_of. apply N.divide_mul_r, out_line_tile.
Qed.

Lemma cube_writes us smem :
  Forall (cube_unit config) us → all_units g IdentLhs us → out_smem_new sconf = Ret smem →
  ∃ wss, Forall2 (λ u ws, stage_write_results u (val_accs u) smem w sconf g = Ret ws) us wss ∧ emits in_block (concat wss).
Proof using UN K W.
  intros Hcu Hus Hsmem.
  assert (∃ wss, Forall2 (λ u ws, stage_write_results u (val_accs u) smem w sconf g = Ret ws) us wss ∧
    emits (λ x y, ∃ u, u ∈ us ∧ in_partition u x y) (concat wss)) as (wss & Hwss & Hem).
  { clear Hus. induction Hcu as [|u us Hu _ IH].
    - exists []. split; [done|]. apply emits_nil. intros x y (u & Hu & _). by apply elem_of_nil in Hu.
    - destruct (stage_write_results_ok u smem Hu Hsmem) as (ws & Hws & He). destruct IH as (wss & Hwss & Hem).
      exists (ws :: wss). split; [by constructor|]. cbn [concat]. eapply emits_app; [|exact He|exact Hem]. intros x y _.
      setoid_rewrite elem_of_cons. naive_solver. }
  exists wss. split; [done|]. eapply emits_ext; [|exact Hem]. intros x y. symmetry. by apply partitions_cover.
Qed.

(** The writes of the block, in any order, on the output. *)
Lemma block_written ws ws' :
  emits in_block ws → ws' ≡ₚ ws →
  ∃ out, apply_writes line data ws' = Ret out ∧ length out = length data ∧
    (∀ x y, in_block x y → inside x y = true → out !! N.to_nat (out_position x y) = Some (eo_of_ea (val x y))) ∧
    (∀ e, (∀ x y, in_block x y → inside x y = true → e ≠ out_position x y) → out !! N.to_nat e = data !! N.to_nat e).
Proof using K W.
  intros [Hws Hcov] Hperm. pose proof out_line_pos as Hl.
  assert (∀ x y, (line | y) → out_position x y / line * line = out_position x y) as Hdiv.
  { intros x y Hy. destruct (out_position_aligned x y Hy) as [k ->]. by rewrite N.div_mul by lia. }
  assert (∀ v, v ∈ ws' → ∃ x y, in_block x y ∧ (line | y) ∧ inside x y = true ∧ v = out_write x y) as Hws'.
  { intros v Hv. rewrite Hperm in Hv. by apply Hws. }
  assert (∀ x y p, (line | y) → inside x y = true → p < line → out_position x (y + p) = out_position x y + p) as Hpos by (unfold out_position; lia).
  assert (Forall (λ v, (v.1 + 1) * line ≤ N.of_nat (length data)) ws') as Hb.
  { apply Forall_forall. intros v Hv. destruct (Hws' v Hv) as (x & y & _ & Hy & Hin & ->). cbn [out_write fst].
    rewrite N.mul_add_distr_r, Hdiv by done. pose proof (out_position_lt x (y + (line - 1))) as Hlt.
    rewrite inside_line, Hpos in Hlt by (done || lia). specialize (Hlt Hin). lia. }
  destruct (apply_writes_runs line ws' data Hb) as (out & Hrun & Hlen). exists out. split; [done|]. split; [done|].
  assert (∀ e v, v ∈ ws' → v.1 * line ≤ e < v.1 * line + line → ∃ x y p, in_block x (y + p) ∧ inside x (y + p) = true ∧ p < line ∧
    e = out_position x (y + p) ∧ v = out_write x y ∧ e - v.1 * line = p) as Hcover.
  { intros e v Hv He. destruct (Hws' v Hv) as (x & y & Hbk & Hy & Hin & ->). cbn [out_write fst] in *. rewrite Hdiv in * by done.
    exists x, y, (e - out_position x y). assert (e - out_position x y < line) as Hp by lia.
    split_and!; [by apply block_aligned|by rewrite inside_line|done|rewrite Hpos by done; lia|done|done]. }
  split.
  - intros x y Hbk Hin. destruct (apply_writes_keep line (out_position x y) (eo_of_ea (val x y)) ws' data) as (m & Hm & _ & Hset & _); [|done|].
    + apply Forall_forall. intros v Hv. split.
      { destruct (Hws' v Hv) as (x' & y' & _ & _ & _ & ->). apply tabulate_length. }
      intros He. destruct (Hcover _ v Hv He) as (x' & y' & p & Hbk' & Hin' & Hp & Heq & Hv' & Hpe).
      destruct (out_position_inj x y x' (y' + p) Hin Hin' Heq) as [-> ->]. rewrite Hpe, Hv'. cbn [out_write snd]. by rewrite tabulate_lookup.
    + rewrite Hrun in Hm. injection Hm as <-. apply Hset. right.
      destruct (div_mod_ex y line Hl) as (k & p & _ & _ & Ey & Hp). assert ((line | k * line)) as Hd by (by exists k).
      assert (in_block x (k * line)) as Hbk0 by (destruct Hbk as [? Hy]; split; [done|lia]).
      assert (inside x (k * line) = true) as Hin0 by (rewrite <- (inside_line x (k * line) p Hd Hp), <- Ey; done).
      exists (out_write x (k * line)). split; [rewrite Hperm; by apply Hcov|]. cbn [out_write fst]. rewrite Hdiv by done.
      pose proof (Hpos x (k * line) p Hd Hin0 Hp) as E. rewrite <- Ey in E. lia.
  - intros e He. destruct (apply_writes_idle line e ws' data Hb) as (m & Hm & Hidle).
    + intros v Hv Hve. destruct (Hcover e v Hv Hve) as (x & y & p & Hbk & Hin & _ & Heq & _). by apply (He x (y + p)).
    + apply Forall_forall. intros v Hv. destruct (Hws' v Hv) as (x' & y' & _ & _ & _ & ->). apply tabulate_length.
    + rewrite Hrun in Hm. by injection Hm as <-.
Qed.
End Output.

(** ** The execution of a cube *)

Section Execution.
Context {MP : MatmulPrecision} {UN : Uninit}.
Context (config : SimpleConfig) (LL RL : SyncFullLoading) (al bl lenl ar br lenr : N).
Context (K : cube_ok config LL RL al bl lenl ar br lenr).
Abbreviation g := (simple_global_config config).
Abbreviation sconf := (sc_stage_config config).
Context (rl rr : TensorReader) (q : option Quantization) (n : N).
Context (WL : ∀ i, i < n → window_ok g IdentLhs (lhs_reader_at config rl i)).
Context (WR : ∀ i, i < n → window_ok g IdentRhs (rhs_reader_at config rr i)).
Context (sched : Schedule) (Hsched : schedule_ok sched).
Context (args : list UnitArgs) (Hargs : Forall (arg_ok config LL RL rl rr q) args).
Context (Hunits : all_units g IdentLhs (ua_pos <$> args)).
Context (w : TensorWriter) (data : list EO) (W : writer_ok config w data) (Hw : Forall (λ a, ua_writer a = w) args).

Lemma out_smem_ok : ∃ smem, out_smem_new sconf = Ret smem.
Proof using K.
  unfold out_smem_new. pose proof (cube_scheme config LL RL al bl lenl ar br lenr K) as Hwf.
  destruct (tile_dims_pos config LL RL al bl lenl ar br lenr K) as (Hm & Hn & Hmn).
  pose proof (out_line_pos config LL RL al bl lenl ar br lenr K) as Hl. pose proof (co_smem _ _ _ _ _ _ _ _ _ K) as Hfit.
  assert (elements_in_tile_mn (uc_tiling_scheme sconf) = Ret (tile_dim config DimM * tile_dim config DimN)) as ->.
  { apply count_2d_ok; [done|done|apply spec_tile..|]. unfold tile_dim in *. unfold u32_max, two32 in *. lia. }
  cbn [obind]. change (rc_stage_line_size (uc_tile_config sconf) StageAcc) with (gc_global_line_size g IdentOut).
  rewrite checked_div_ok by lia. cbn [obind]. unfold partition_num_primitives.
  set (units := uc_num_main_flow_planes sconf * uc_plane_dim sconf) in *.
  assert (1 * units ≤ tile_dim config DimM * tile_dim config DimN * units) as H1 by (apply N.mul_le_mono_r; nia).
  rewrite checked_mul_ok by (fold units; lia). cbn [obind]. fold units.
  assert (tile_dim config DimM * tile_dim config DimN / gc_global_line_size g IdentOut ≤ tile_dim config DimM * tile_dim config DimN) as H2
    by (apply N.Div0.div_le_upper_bound; nia).
  assert (tile_dim config DimM * tile_dim config DimN / gc_global_line_size g IdentOut * units ≤ tile_dim config DimM * tile_dim config DimN * units) as H3
    by (by apply N.mul_le_mono_r).
  rewrite checked_mul_ok by lia. cbn [obind]. by eexists.
Qed.

Lemma execute_ok k_range :
  num_loops config k_range = Ret n →
  ∃ wss accs', SimpleMatmul_execute config sched k_range args = Ret (wss, accs') ∧
    accs' = (λ a, unit_accs config rl rr q (ua_pos a) (n * sc_k_step config)) <$> args ∧
    emits config w (block_value rl rr q (n * sc_k_step config)) (in_block config) (concat wss).
Proof using UN K WL WR Hsched Hargs Hunits W Hw.
  intros Hn. destruct (loop_ok config LL RL al bl lenl ar br lenr K rl rr q n WL WR sched Hsched args Hargs Hunits k_range Hn)
    as (c & units & ls & rs & Hu & Hls & Hrs & Hc & Hinv).
  destruct out_smem_ok as (smem & Hsmem). unfold SimpleMatmul_execute. rewrite Hn. cbn [obind]. rewrite Hu. cbn [obind].
  rewrite Hls. cbn [obind]. rewrite Hrs. cbn [obind]. rewrite Hc. cbn [obind]. rewrite Hsmem. cbn [obind].
  destruct (cube_writes config LL RL al bl lenl ar br lenr K w data W (block_value rl rr q (n * sc_k_step config)) (ua_pos <$> args) smem)
    as (wss & Hwss & Hem).
  { rewrite Forall_fmap. eapply Forall_impl; [exact Hargs|]. by intros a (Ha & _). }
  { exact Hunits. }
  { exact Hsmem. }
  assert (each (λ x, stage_write_results (ur_pos x) (ur_acc x) smem (ur_writer x) sconf g) (cr_units c) = Ret wss ∧
    ur_acc <$> cr_units c = (λ a, unit_accs config rl rr q (ua_pos a) (n * sc_k_step config)) <$> args) as [-> Haccs].
  { clear Hem Hargs Hunits Hu Hc. revert wss Hwss. induction Hinv as [|a x args' xs Hx _ IH]; intros wss Hwss.
    - by inversion Hwss.
    - rewrite fmap_cons in Hwss. inversion Hwss as [|? ws ? wss' Hws Hwss']; subst. apply Forall_cons in Hw as [Hwa Hw'].
      destruct Hx as (Hp & Hwr & _ & _ & _ & _ & _ & Hacc). destruct (IH Hw' wss' Hwss') as [IH1 IH2].
      cbn [each]. rewrite Hp, Hacc, Hwr, Hwa.
      change (unit_accs config rl rr q (ua_pos a) (n * sc_k_step config)) with
        (val_accs config (block_value rl rr q (n * sc_k_step config)) (ua_pos a)).
      rewrite Hws. cbn [obind]. rewrite IH1. cbn [obind]. split; [done|]. rewrite !fmap_cons, IH2. f_equal. by rewrite Hacc. }
  cbn [obind]. exists wss. eexists. split; [done|]. split; [done|exact Hem].
Qed.
End Execution.
