(* ===== verification/SimpleSetup.v ===== *)
(** * An accepted setup is sound

    When [SimpleMatmulFamily::setup] accepts a problem, a selection and line
    sizes, the configuration it returns satisfies everything that the proofs
    about the execution of the simple matmul assume. *)

From S2P Require Import Prelude DeviceNum Tiling GlobalOrder SmAllocation Hypercube HypercubeProps StageLayout MatmulConfig GlobalMemory StageLoad StageLoadProps Loops RegisterTile PartitionMatmul SimpleMatmulProps SimpleMatmul.

Open Scope N_scope.
Open Scope rust_scope.

(** Tilings orders of the strategies as the library instantiates them. *)
Definition loading_order_ok (L : SyncFullLoading) : Prop :=
  match L with
  | SyncFullCyclic TO | SyncFullTilewise TO => TO = RowMajorTilingOrder ∨ TO = ColMajorTilingOrder
  | SyncFullOrdered | SyncFullStrided => True
  end.

(** What a selection and a client satisfy before the validation. *)
Record selection_ok (client : ClientProperties) (selection : MatmulSelection) : Prop := {
  so_scheme : scheme_wf (ms_tiling_scheme selection);
  so_pos : ∀ d, 0 < size_get (stage_size (ms_tiling_scheme selection)) d ∧
                0 < size_get (partition_size (ms_tiling_scheme selection)) d ∧ 0 < size_get (tile_size (ms_tiling_scheme selection)) d;
  so_stage_k : size_get (stage_size (ms_tiling_scheme selection)) DimK = 1;
  so_es : 0 < cp_es_size client;
  so_smem : cp_max_shared_memory_size client ≤ 2147483648;
}.

Lemma reject_inl {E} (b : bool) (e : E) : reject b e = Ret (inl tt) → b = false.
Proof. unfold reject. by destruct b. Qed.

Lemma check_divides_inl size line x : check_divides size line = Ret (inl x) → 0 < line ∧ (line | size).
Proof.
  unfold check_divides. intros (r & [Hl ->]%checked_rem_ret & Hr)%obind_ret. destruct x. apply reject_inl in Hr.
  split; [done|]. apply negb_false_iff, N.eqb_eq in Hr. exists (size / line).
  apply N.Div0.div_exact in Hr. lia.
Qed.

Lemma checked_add_ret max a b r : checked_add max a b = Ret r → r = a + b ∧ a + b ≤ max.
Proof. unfold checked_add. destruct (N.leb_spec (a + b) max); [|done]. by intros [= <-]. Qed.

Section Setup.
Context (macos : bool) (client : ClientProperties) (LL RL : SyncFullLoading) (problem : MatmulProblem).
Context (selection : MatmulSelection) (line_sizes : MatmulLineSizes).
Context (S : selection_ok client selection).
Abbreviation ts := (ms_tiling_scheme selection).

(** The configuration that the setup builds. *)
Definition the_register : RegisterConfig :=
  {| rc_tiling_scheme := ts; rc_plane_dim := ms_plane_dim selection;
     rc_lhs_layout := prob_lhs_layout problem; rc_rhs_layout := prob_rhs_layout problem;
     rc_lhs_global_line_size := mls_lhs line_sizes; rc_rhs_global_line_size := mls_rhs line_sizes;
     rc_out_global_line_size := mls_out line_sizes;
     rc_lhs_stage_line_size := mls_lhs line_sizes; rc_rhs_stage_line_size := mls_rhs line_sizes |}.
Definition the_stage (planes : N) : UnitPartitionedStageConfig :=
  {| uc_tile_config := the_register; uc_tiling_scheme := ts; uc_quantized := ms_quantized selection;
     uc_partition_buffering := ms_partition_buffering selection; uc_num_stages := {| ns_lhs := 1; ns_rhs := 1 |};
     uc_plane_role_config := {| plane_roles := {| main_flow := planes; load_only := 0 |}; rule := RuleMainFlowOnly |};
     uc_ordered := false |}.
Definition elems (d : MatmulDim) : N := size_get (stage_size ts) d * size_get (partition_size ts) d * size_get (tile_size ts) d.
Definition the_config (planes : N) : SimpleConfig :=
  {| sc_stage_config := the_stage planes; sc_num_planes := planes;
     sc_check_m_bounds := negb (as_u32 (prob_m problem) mod elems DimM =? 0);
     sc_check_n_bounds := negb (as_u32 (prob_n problem) mod elems DimN =? 0);
     sc_check_k_bounds := negb (as_u32 (prob_k problem) mod elems DimK =? 0);
     sc_k_step := elems DimK;
     sc_precompute_job := ms_loading_precompute_strategy selection; sc_loader_mode := ms_loader_mode selection |}.

Lemma elements_in_stage_dim d : count_1d ts Element Stage d = Ret (elems d).
Proof using S. apply count_inner; [apply S|done|]. apply spec_elements. Qed.

(** The checks of the tile level. *)
Lemma register_setup_inv c :
  RegisterMatmul_setup (cp_types_supported client) problem selection line_sizes = Ret (inl c) →
  c = the_register ∧ 0 < mls_lhs line_sizes ∧ 0 < mls_rhs line_sizes ∧ 0 < mls_out line_sizes ∧
  (mls_lhs line_sizes | match prob_lhs_layout problem with LayoutRowMajor => size_get (tile_size ts) DimK | LayoutColMajor => size_get (tile_size ts) DimM end) ∧
  (mls_rhs line_sizes | match prob_rhs_layout problem with LayoutRowMajor => size_get (tile_size ts) DimN | LayoutColMajor => size_get (tile_size ts) DimK end) ∧
  (mls_out line_sizes | size_get (tile_size ts) DimN).
Proof using.
  unfold RegisterMatmul_setup, RegisterConfig_new. intros (c' & Hv & (x & _ & [= <-])%ok_bind_inl)%ok_bind_inl.
  unfold RegisterConfig_validate in Hv. apply ok_bind_inl in Hv as (x1 & H1 & (x2 & H2 & (x3 & H3 & [= <-])%ok_bind_inl)%ok_bind_inl).
  split; [done|]. cbn [rc_matrix_layout rc_lhs_layout rc_rhs_layout rc_lhs_stage_line_size rc_rhs_stage_line_size rc_out_global_line_size rc_tile_size rc_tiling_scheme] in *.
  apply check_divides_inl in H3 as [L3 D3].
  destruct (prob_lhs_layout problem); apply check_divides_inl in H1 as [L1 D1]; destruct (prob_rhs_layout problem); apply check_divides_inl in H2 as [L2 D2]; done.
Qed.

Lemma register_is_ok :
  0 < mls_lhs line_sizes ∧ 0 < mls_rhs line_sizes ∧ 0 < mls_out line_sizes →
  (mls_lhs line_sizes | match prob_lhs_layout problem with LayoutRowMajor => size_get (tile_size ts) DimK | LayoutColMajor => size_get (tile_size ts) DimM end) →
  (mls_rhs line_sizes | match prob_rhs_layout problem with LayoutRowMajor => size_get (tile_size ts) DimN | LayoutColMajor => size_get (tile_size ts) DimK end) →
  (mls_out line_sizes | size_get (tile_size ts) DimN) → register_ok the_register.
Proof using S.
  intros Hl H1 H2 H3. split; try done; cbn [rc_tile_size the_register rc_tiling_scheme].
  - split_and!; apply (so_pos _ _ S).
  - destruct (so_scheme _ _ S) as (Ht & _ & _). 
    assert (∀ d1 d2, size_get (tile_size ts) d1 * size_get (tile_size ts) d2 < two32) as Hf; [|split_and!; apply Hf].
    intros d1 d2. apply N.le_lt_trans with (255 * 255); [apply N.mul_le_mono; apply Ht|done].
Qed.

(** The checks of the stage level. *)
Lemma unit_setup_inv c :
  UnitMatmul_setup client problem selection line_sizes {| ns_lhs := 1; ns_rhs := 1 |} None false = Ret (inl c) →
  ∃ planes, c = the_stage planes ∧ register_ok the_register ∧
    planes * ms_plane_dim selection = size_get (stage_size ts) DimM * size_get (stage_size ts) DimN ∧
    elems DimM * elems DimK + elems DimN * elems DimK ≤ 2147483648 ∧
    size_get (tile_size ts) DimM * size_get (tile_size ts) DimN * (planes * ms_plane_dim selection) ≤ u32_max.
Proof using S.
  unfold UnitMatmul_setup. intros (tc & Htc & H)%ok_bind_inl. apply register_setup_inv in Htc as (-> & L1 & L2 & L3 & D1 & D2 & D3).
  pose proof (register_is_ok (conj L1 (conj L2 L3)) D1 D2 D3) as Hreg.
  apply ok_bind_inl in H as (res & Hres & H). cbn [register_computation_resources] in Hres.
  apply obind_ret in Hres as (parts & Hparts & Hres).
  assert (parts = size_get (stage_size ts) DimM * size_get (stage_size ts) DimN) as ->.
  { unfold stage_partitions_in_stage_mn, count_2d, try_count_2d in Hparts. rewrite !try_count_inner in Hparts by (apply S || done).
    assert (∀ d, count_spec ts StagePartition Stage d = Some (size_get (stage_size ts) d)) as Hs.
    { intros d. trans (Some (size_get (stage_size ts) d * 1)); [by destruct d|f_equal; lia]. }
    rewrite !Hs in Hparts. unfold some_product in Hparts. cbn [try_bind obind] in Hparts.
    by apply obind_ret in Hparts as (o & (p & [-> _]%checked_mul_ret & [= <-])%obind_ret & [= <-]). }
  set (parts := _ * _) in *. apply obind_ret in Hres as (u & Hu & [= <-]). rewrite checked_mul_ok in Hu by (unfold checked_mul in Hu; destruct (N.leb_spec (1 * parts) u32_max); [done|done]).
  rewrite N.mul_1_l in Hu. injection Hu as <-.
  apply ok_bind_inl in H as (planes & Hplanes & H).
  unfold num_planes, as_plane_resources in Hplanes. apply ok_bind_inl in Hplanes as (pr & Hpr & Hplanes).
  apply obind_ret in Hpr as (rem & [Hd ->]%checked_rem_ret & Hpr). destruct (N.eqb_spec (parts mod rc_plane_dim the_register) 0) as [Hm|]; [|done].
  apply obind_ret in Hpr as (qq & Hq & [= <-]). rewrite checked_div_ok in Hq by lia. injection Hq as <-. injection Hplanes as <-.
  apply N.Div0.div_exact in Hm. cbn [rc_plane_dim the_register] in *.
  apply ok_bind_inl in H as (roles & Hroles & H). unfold PlaneRoleConfig_new in Hroles.
  apply ok_bind_inl in Hroles as (pr & Hpr & [= <-]). destruct (has_specialization _); [done|]. injection Hpr as <-. cbn [load_only] in H.
  change (0 =? 0) with true in H. cbn iota in H. set (planes := parts / ms_plane_dim selection) in *.
  fold (the_stage planes) in H. unfold UnitPartitionedStageConfig_validate in H.
  exists planes.
  apply obind_ret in H as (x1 & _ & H). apply obind_ret in H as (units & Hunits & H).
  apply ok_bind_inl in H as ([] & _ & H). apply ok_bind_inl in H as ([] & _ & H).
  apply obind_ret in H as (mk & Hmk & H). apply obind_ret in H as (ls & Hls & H).
  apply obind_ret in H as (nk & Hnk & H). apply obind_ret in H as (rs & Hrs & H).
  apply obind_ret in H as (mn & Hmn & H). apply obind_ret in H as (os & Hos & H).
  apply obind_ret in H as (inputs & Hin & H). apply obind_ret in H as (es & Hes & H).
  apply obind_ret in H as (eo & Heo & H). apply obind_ret in H as (total & Htot & H).
  apply ok_bind_inl in H as ([] & Hsm & [= <-]). apply reject_inl, N.ltb_ge in Hsm.
  apply checked_mul_ret in Hls as [-> _], Hrs as [-> _], Hos as [-> Hos], Hes as [-> _], Heo as [-> _], Hunits as [-> _].
  apply checked_add_ret in Hin as [-> _], Htot as [-> _]. cbn [ns_lhs ns_rhs uc_num_stages the_stage] in *.
  split; [done|]. split; [done|]. split; [unfold planes; lia|].
  split.
  - assert (∀ d1 d2 e, count_2d ts Element Stage d1 d2 = Ret e → e = elems d1 * elems d2) as H2d.
    { intros d1 d2 e. unfold count_2d, try_count_2d. rewrite !try_count_inner by (apply S || done). rewrite !spec_elements.
      unfold some_product. cbn [try_bind obind]. by intros (o & (p & [-> _]%checked_mul_ret & [= <-])%obind_ret & [= <-])%obind_ret. }
    unfold elements_in_stage_mk in Hmk. unfold elements_in_stage_nk in Hnk.
    change (uc_tiling_scheme (the_stage planes)) with ts in *.
    apply (H2d _ _ mk) in Hmk. apply (H2d _ _ nk) in Hnk. clear H2d. pose proof (so_es _ _ S). pose proof (so_smem _ _ S).
    subst mk nk. nia.
  - assert (mn = size_get (tile_size ts) DimM * size_get (tile_size ts) DimN) as ->; [|rewrite (N.mul_comm planes); exact Hos].
    unfold elements_in_tile_mn, count_2d, try_count_2d in Hmn. rewrite !try_count_inner in Hmn by (apply S || done). rewrite !spec_tile in Hmn.
    unfold some_product in Hmn. cbn [try_bind obind] in Hmn. by apply obind_ret in Hmn as (o & (p & [-> _]%checked_mul_ret & [= <-])%obind_ret & [= <-]).
Qed.

(** The checks of the global level. *)
Lemma simple_setup_inv c :
  SimpleMatmul_setup macos client LL RL problem selection line_sizes = Ret (inl c) →
  ∃ planes, c = the_config planes ∧ register_ok the_register ∧
    planes * ms_plane_dim selection = size_get (stage_size ts) DimM * size_get (stage_size ts) DimN ∧
    elems DimM * elems DimK + elems DimN * elems DimK ≤ 2147483648 ∧
    size_get (tile_size ts) DimM * size_get (tile_size ts) DimN * (planes * ms_plane_dim selection) ≤ u32_max ∧
    loading_check LL (simple_global_config c) IdentLhs = Ret (inl tt) ∧
    loading_check RL (simple_global_config c) IdentRhs = Ret (inl tt).
Proof using S.
  unfold SimpleMatmul_setup. intros (sc & Hsc & H)%ok_bind_inl.
  destruct (unit_setup_inv sc Hsc) as (planes & -> & Hreg & Hplanes & Helems & Hsmem).
  unfold elements_in_stage_m, elements_in_stage_n, elements_in_stage_k in H. change (uc_tiling_scheme (the_stage planes)) with ts in H.
  rewrite !elements_in_stage_dim in H. cbn [obind] in H.
  apply ok_bind_inl in H as (np & Hnp & H). destruct (negb _); [|done]. injection Hnp as <-.
  apply obind_ret in H as (rm & [_ ->]%checked_rem_ret & H). apply obind_ret in H as (rn & [_ ->]%checked_rem_ret & H).
  apply obind_ret in H as (rk & [_ ->]%checked_rem_ret & H).
  change (uc_num_main_flow_planes (the_stage planes)) with planes in H. fold (the_config planes) in H.
  unfold SimpleConfig_validate in H. apply ok_bind_inl in H as ([] & Hl & H). apply ok_bind_inl in H as ([] & Hr & H).
  apply ok_bind_inl in H as (c' & _ & [= <-]). exists planes. split_and!; done.
Qed.

(** The stage of one side, in lines. *)
Lemma side_ok planes ident :
  ident ≠ IdentOut → register_ok the_register →
  planes * ms_plane_dim selection = size_get (stage_size ts) DimM * size_get (stage_size ts) DimN →
  elems DimM * elems DimK + elems DimN * elems DimK ≤ 2147483648 →
  ∃ a b len, global_ok (simple_global_config (the_config planes)) ident a b len.
Proof using S.
  intros Hid Hreg Hplanes Helems. set (g := simple_global_config (the_config planes)).
  set (er := size_get (tile_size ts) (row_dim (into_stage ident))). set (ec := size_get (tile_size ts) (col_dim (into_stage ident))).
  set (line := gc_global_line_size g ident).
  assert (0 < line ∧ (line | match gc_matrix_layout g ident with LayoutRowMajor => ec | LayoutColMajor => er end)) as [Hl Hd].
  { destruct (ro_line _ Hreg) as (L1 & L2 & _). destruct ident; [split; [exact L1|exact (ro_lhs _ Hreg)]|split; [exact L2|exact (ro_rhs _ Hreg)]|done]. }
  assert (∃ a b, match gc_matrix_layout g ident with
    | LayoutRowMajor => er = a ∧ ec = b * line
    | LayoutColMajor => er = a * line ∧ ec = b
    end) as (a & b & Hab).
  { destruct (gc_matrix_layout g ident), Hd as [k Hk]; [by exists er, k|by exists k, ec]. }
  set (R := tiles_along ts (row_dim (into_stage ident))). set (C := tiles_along ts (col_dim (into_stage ident))).
  assert (0 < R ∧ 0 < C) as [HR HC] by (split; unfold R, C, tiles_along; apply N.mul_pos_pos; apply (so_pos _ _ S)).
  assert (0 < er ∧ 0 < ec) as [Her Hec] by (split; apply (so_pos _ _ S)).
  assert (er * ec = a * b * line) as Hprod by (destruct (gc_matrix_layout g ident), Hab as [-> ->]; lia).
  assert (R * er * (C * ec) ≤ 2147483648) as Hmax.
  { unfold R, C, er, ec, tiles_along. unfold elems in Helems. destruct ident; cbn [into_stage row_dim col_dim]; [|rewrite (N.mul_comm (_ * size_get (tile_size ts) DimK))|done]; lia. }
  exists a, b, (R * C * (a * b)). split.
  - done.
  - split_and!; [apply S|by destruct ident|by destruct ident|done|done|done|].
    destruct ident; [exact Hab|exact Hab|done].
  - by destruct ident.
  - done.
  - done.
  - by destruct ident.
  - unfold StageMemory_new. change (smc_tiling_scheme _) with ts.
    assert (elements_in_stage ts (into_stage ident) = Ret (R * er * (C * ec))) as ->.
    { apply count_2d_ident_ok; [apply S|done|apply spec_elements..|unfold u32_max; lia]. }
    cbn [obind]. rewrite checked_mul_ok by (unfold u32_max; lia). cbn [obind].
    change (smc_stage_line_size _ _) with (rc_stage_line_size the_register (into_stage ident)).
    assert (rc_stage_line_size the_register (into_stage ident) = line) as -> by (by destruct ident).
    replace (1 * (R * er * (C * ec))) with (R * C * (a * b) * line) by (rewrite N.mul_1_l; transitivity (R * C * (er * ec)); [rewrite Hprod|]; lia).
    by apply checked_div_exact.
  - assert (0 < a * b * line) by (rewrite <- Hprod; nia). apply N.mul_pos_pos; nia.
  - change (gc_num_loading_planes g ident) with planes. change (gc_plane_dim g) with (ms_plane_dim selection).
    destruct (so_pos _ _ S DimM) as [H1 _], (so_pos _ _ S DimN) as [H2 _]. nia.
  - change (gc_num_loading_planes g ident) with planes. change (gc_plane_dim g) with (ms_plane_dim selection). fold line.
    rewrite Hplanes. destruct (so_scheme _ _ S) as (Ht & _ & Hs). pose proof (Hs DimM) as B1. pose proof (Hs DimN) as B2. unfold u8_max in *.
    assert (line ≤ 255) as B3.
    { destruct (gc_matrix_layout g ident); (etransitivity; [apply N.divide_pos_le; [|exact Hd]; assumption|apply Ht]). }
    assert (size_get (stage_size ts) DimM * size_get (stage_size ts) DimN * line ≤ 255 * 255 * 255) by (apply N.mul_le_mono; [by apply N.mul_le_mono|done]).
    assert (R * C * (a * b) * line ≤ 2147483648) by (etransitivity; [|exact Hmax]; replace (R * er * (C * ec)) with (R * C * (er * ec)) by lia; rewrite Hprod; lia).
    unfold two32. lia.
Qed.

(** The layouts of the strategies fit the stage. *)
Lemma loading_layout_ok L ident a b len planes :
  global_ok (simple_global_config (the_config planes)) ident a b len → loading_order_ok L →
  loading_check L (simple_global_config (the_config planes)) ident = Ret (inl tt) →
  layout_usable (loading_layout L) (into_stage ident) (stage_memory_config (the_stage planes)).
Proof using S.
  intros G HL Hcheck. pose proof (go_stages _ _ _ _ _ G) as Hst. change (gc_stage_memory_config _) with (stage_memory_config (the_stage planes)) in Hst.
  destruct L as [TO|TO| |]; cbn [loading_layout layout_usable loading_order_ok] in *; [destruct HL as [-> | ->]; [by left|by right; left]..| |done].
  right. right. assert (ident = IdentLhs) as ->.
  { unfold ordered_check, loading_check in Hcheck. apply ok_bind_inl in Hcheck as ([] & Hr & _). apply reject_inl in Hr.
    by apply bool_decide_eq_false, dec_stable in Hr. }
  split_and!; [done|done|by destruct (go_units _ _ _ _ _ G)|].
  destruct (tilewise_divides _ _ a b len G SyncFullOrdered) as [Hm _]; [by right|done|].
  change (gc_tiling_scheme _) with ts in Hm. change (gc_num_loading_planes _ _) with planes in Hm.
  cbn [loading_check] in Hcheck. unfold ordered_check in Hcheck. apply ok_bind_inl in Hcheck as ([] & _ & Hcheck).
  rewrite (stage_tiles _ _ a b len G 0) in Hcheck by apply (go_nonempty _ _ _ _ _ G).
  rewrite (tile_elements _ _ a b len G 0) in Hcheck by apply (go_nonempty _ _ _ _ _ G). cbn [obind] in Hcheck.
  change (gc_tiling_scheme _) with ts in Hcheck. change (gc_num_loading_planes _ _) with planes in Hcheck.
  destruct (go_units _ _ _ _ _ G) as [Hp0 Hd0]. change (gc_num_loading_planes _ _) with planes in Hp0.
  set (R := tiles_along ts (row_dim (into_stage IdentLhs))) in *. set (C := tiles_along ts (col_dim (into_stage IdentLhs))) in *.
  rewrite (checked_rem_ok (R * C)) in Hcheck by lia. cbn [obind] in Hcheck. apply ok_bind_inl in Hcheck as ([] & _ & Hcheck).
  rewrite (checked_div_ok (R * C)) in Hcheck by lia. cbn [obind] in Hcheck.
  apply obind_ret in Hcheck as (nl & _ & Hcheck). apply obind_ret in Hcheck as (np & _ & Hcheck).
  rewrite tiles_row_ok, tiles_col_ok in Hcheck by apply S. cbn [obind] in Hcheck. fold R C in Hcheck.
  rewrite checked_div_ok in Hcheck by lia. cbn [obind] in Hcheck.
  apply obind_ret in Hcheck as (rem & _ & Hcheck). apply ok_bind_inl in Hcheck as ([] & _ & Hcheck).
  apply obind_ret in Hcheck as (ex & [-> _]%checked_mul_ret & Hcheck). apply reject_inl, negb_false_iff, N.eqb_eq in Hcheck.
  apply N.Div0.div_exact in Hm. rewrite Hcheck in Hm.
  assert (0 < C) as HC by (unfold C, tiles_along; apply N.mul_pos_pos; apply (so_pos _ _ S)).
  cbn [total_rows into_stage]. change (smc_num_main_flow_planes _) with planes. exists (R / planes).
  change (tiles_along _ _) with R. apply (N.mul_cancel_r _ _ C); lia.
Qed.

Lemma setup_cube_ok c :
  loading_order_ok LL → loading_order_ok RL →
  SimpleMatmul_setup macos client LL RL problem selection line_sizes = Ret (inl c) →
  ∃ planes al bl lenl ar br lenr, c = the_config planes ∧ cube_ok c LL RL al bl lenl ar br lenr.
Proof using S.
  intros HLL HRL Hsetup. destruct (simple_setup_inv c Hsetup) as (planes & -> & Hreg & Hplanes & Helems & Hsmem & Hl & Hr).
  destruct (side_ok planes IdentLhs ltac:(done) Hreg Hplanes Helems) as (al & bl & lenl & GL).
  destruct (side_ok planes IdentRhs ltac:(done) Hreg Hplanes Helems) as (ar & br & lenr & GR).
  exists planes, al, bl, lenl, ar, br, lenr. split; [done|]. split; try done.
  - by apply (loading_layout_ok LL IdentLhs al bl lenl).
  - by apply (loading_layout_ok RL IdentRhs ar br lenr).
  - apply (so_stage_k _ _ S).
  - intros d. destruct (so_pos _ _ S d) as (? & ? & _). done.
Qed.
End Setup.
