(* ===== verification/SimpleBlock.v ===== *)
(** * One block of the output

    Tensors whose last two dimensions are a matrix, the readers on them, and the
    offsets of a batch, which [execute_global_matmul] of [SimpleMatmul.v]
    computes from the strides of a contiguous output.  The units of a cube write
    the lines of a block of one matrix of the output, each element being the sum
    of the products along k in ascending order, whatever the order of the writes
    of the loading phases. *)

From S2P Require Import Prelude DeviceNum Tiling GlobalOrder SmAllocation Hypercube StageLayout MatmulConfig GlobalMemory StageLoad StageLoadProps Loops RegisterTile PartitionMatmul SimpleMatmul SimpleMatmulProps SimpleOutput.

Open Scope N_scope.
Open Scope rust_scope.

(** ** Metadata *)

(** A tensor whose last two dimensions are a matrix. *)
Record meta_ok {E : Type} (t : Tensor E) (bshape bstrides : list N) (rows cols sx sy : N) : Prop := {
  me_shape : t_shape t = bshape ++ [rows; cols];
  me_strides : t_strides t = bstrides ++ [sx; sy];
  me_len : length bstrides = length bshape;
  me_rank : t_rank t < two32;
}.

Section Metadata.
Context {E : Type} (t : Tensor E) (bshape bstrides : list N) (rows cols sx sy : N).
Context (M : meta_ok t bshape bstrides rows cols sx sy).

Lemma rank_eq : t_rank t = N.of_nat (length bshape) + 2.
Proof using M. unfold t_rank. rewrite (me_shape _ _ _ _ _ _ _ M), length_app. cbn. lia. Qed.

Lemma axis_rank : wsub (t_rank t) 2 = N.of_nat (length bshape) ∧ wsub (t_rank t) 1 = N.of_nat (length bshape) + 1.
Proof using M. pose proof rank_eq as Hr. pose proof (me_rank _ _ _ _ _ _ _ M) as Hrank. rewrite Hr in Hrank |- *. rewrite !wsub_small by lia. lia. Qed.

Lemma shape_last : shape_at t (wsub (t_rank t) 2) = Ret rows ∧ shape_at t (wsub (t_rank t) 1) = Ret cols.
Proof using M.
  destruct axis_rank as [-> ->]. unfold shape_at. rewrite (me_shape _ _ _ _ _ _ _ M). split.
  - rewrite Nat2N.id, lookup_app_r, Nat.sub_diag by lia. done.
  - replace (N.to_nat (N.of_nat (length bshape) + 1)) with (length bshape + 1)%nat by lia.
    rewrite lookup_app_r by lia. by replace (length bshape + 1 - length bshape)%nat with 1%nat by lia.
Qed.
Lemma stride_last : stride_at t (wsub (t_rank t) 2) = Ret sx ∧ stride_at t (wsub (t_rank t) 1) = Ret sy.
Proof using M.
  destruct axis_rank as [-> ->]. unfold stride_at. rewrite (me_strides _ _ _ _ _ _ _ M), <- (me_len _ _ _ _ _ _ _ M). split.
  - rewrite Nat2N.id, lookup_app_r, Nat.sub_diag by lia. done.
  - replace (N.to_nat (N.of_nat (length bstrides) + 1)) with (length bstrides + 1)%nat by lia.
    rewrite lookup_app_r by lia. by replace (length bstrides + 1 - length bstrides)%nat with 1%nat by lia.
Qed.

Lemma shape_batch i d : bshape !! i = Some d → shape_at t (N.of_nat i) = Ret d.
Proof using M. intros H. unfold shape_at. rewrite (me_shape _ _ _ _ _ _ _ M), Nat2N.id, lookup_app_l; [by rewrite H|by eapply lookup_lt_Some]. Qed.
Lemma stride_batch i d : bstrides !! i = Some d → stride_at t (N.of_nat i) = Ret d.
Proof using M. intros H. unfold stride_at. rewrite (me_strides _ _ _ _ _ _ _ M), Nat2N.id, lookup_app_l; [by rewrite H|by eapply lookup_lt_Some]. Qed.
End Metadata.

(** ** Broadcasting *)

(** The product of the dimensions. *)
Definition volume (dims : list N) : N := foldr N.mul 1 dims.

(** The offset of batch [b] of an output with batch dimensions [dims], in an
    operand with batch dimensions [shape] and strides [strides]: a dimension of
    size one is repeated. *)
Fixpoint broadcast_offset (dims shape strides : list N) (b : N) : N :=
  match dims, shape, strides with
  | _ :: dims, s :: shape, st :: strides =>
      (if s =? 1 then 0 else b / volume dims) * st + broadcast_offset dims shape strides (b mod volume dims)
  | _, _, _ => 0
  end.

(** Strides of a contiguous tensor whose innermost stride is [inner]. *)
Fixpoint contiguous_strides (dims : list N) (inner : N) : list N :=
  match dims with
  | [] => []
  | _ :: dims => volume dims * inner :: contiguous_strides dims inner
  end.

(** Dimensions that broadcast to those of the output. *)
Definition broadcasts (dims shape : list N) : Prop := Forall2 (λ d s, 0 < d ∧ (s = 1 ∨ s = d)) dims shape.

Lemma volume_pos dims : Forall (λ d, 0 < d) dims → 0 < volume dims.
Proof. induction 1 as [|d ds Hd _ IH]; [done|]. change (0 < d * volume ds). by apply N.mul_pos_pos. Qed.

Lemma broadcasts_pos dims shape : broadcasts dims shape → Forall (λ d, 0 < d) dims.
Proof. induction 1 as [|d s ds ss [Hd _] _ IH]; constructor; done. Qed.

(** The quotient modulo the dimension of an operand is its coordinate. *)
Lemma broadcast_coord d s v b : 0 < v → 0 < d → (s = 1 ∨ s = d) → b < d * v → (b / v) mod s = (if s =? 1 then 0 else b / v).
Proof.
  intros Hv Hd Hs Hb. destruct (N.eqb_spec s 1) as [->|Hne]; [apply N.mod_1_r|].
  destruct Hs as [?| ->]; [done|]. apply N.mod_small. apply N.Div0.div_lt_upper_bound. lia.
Qed.

Lemma broadcast_step b d s v : 0 < v → 0 < d → (s = 1 ∨ s = d) → (b / v) mod s = (if s =? 1 then 0 else b mod (d * v) / v).
Proof.
  intros Hv Hd Hs. assert (b mod (d * v) < d * v) as Hlt by (apply N.mod_lt; nia).
  rewrite <- (broadcast_coord d s v _ Hv Hd Hs Hlt). pose proof (N.div_mod' b (d * v)) as E.
  set (q := b / (d * v)) in *. set (r := b mod (d * v)) in *. rewrite E.
  replace (d * v * q + r) with (q * d * v + r) by lia. rewrite N.div_add_l by lia. destruct Hs as [-> | ->].
  - by rewrite !N.mod_1_r.
  - by rewrite N.add_comm, N.Div0.mod_add.
Qed.

Lemma head_at {X} (f : N → outcome X) p x xs :
  (∀ i d, (x :: xs) !! i = Some d → f (N.of_nat (p + i)) = Ret d) →
  f (N.of_nat p) = Ret x ∧ ∀ i d, xs !! i = Some d → f (N.of_nat (S p + i)) = Ret d.
Proof.
  intros H. split; [rewrite <- (H 0%nat x eq_refl); by rewrite Nat.add_0_r|].
  intros i d Hi. rewrite <- (H (S i) d Hi). f_equal. lia.
Qed.

Section Batches.
Context {MP : MatmulPrecision} {UN : Uninit}.
Context (lhs rhs : Tensor EI) (out : Tensor EO) (inner b : N) (Hinner : 0 < inner).

(** The loop over the batch axes computes the offsets of a batch. *)
Lemma batch_offsets_from dims : ∀ p al ar ls lst rs rst,
  (∀ i d, contiguous_strides dims inner !! i = Some d → stride_at out (N.of_nat (p + i)) = Ret d) →
  (∀ i d, ls !! i = Some d → shape_at lhs (N.of_nat (p + i)) = Ret d) →
  (∀ i d, lst !! i = Some d → stride_at lhs (N.of_nat (p + i)) = Ret d) →
  (∀ i d, rs !! i = Some d → shape_at rhs (N.of_nat (p + i)) = Ret d) →
  (∀ i d, rst !! i = Some d → stride_at rhs (N.of_nat (p + i)) = Ret d) →
  broadcasts dims ls → broadcasts dims rs → length lst = length ls → length rst = length rs →
  al + broadcast_offset dims ls lst (b mod volume dims) < two32 →
  ar + broadcast_offset dims rs rst (b mod volume dims) < two32 →
  batch_offsets (N.of_nat <$> seq p (length dims)) (b * inner) lhs rhs out (al, ar) =
    Ret (al + broadcast_offset dims ls lst (b mod volume dims), ar + broadcast_offset dims rs rst (b mod volume dims)).
Proof using Hinner.
  induction dims as [|d dims IH]; intros p al ar ls lst rs rst Ho Hl Hls Hr Hrs Bl Br El Er Fl Fr.
  { inversion Bl; inversion Br; subst. cbn. by rewrite !N.add_0_r. }
  inversion Bl as [|? s ? ls' [Hd Hs] Bl']; inversion Br as [|? s2 ? rs' [_ Hs2] Br']; subst.
  destruct lst as [|st lst]; [done|]. destruct rst as [|st2 rst]; [done|]. cbn [length] in El, Er.
  pose proof (volume_pos _ (broadcasts_pos _ _ Bl')) as Hv.
  cbn [contiguous_strides] in Ho. apply head_at in Ho as [E1 Ho], Hl as [E2 Hl], Hls as [E3 Hls], Hr as [E4 Hr], Hrs as [E5 Hrs].
  cbn [length seq fmap list_fmap batch_offsets]. rewrite E1, E2, E3, E4, E5. cbn [obind].
  change (volume (d :: dims)) with (d * volume dims) in *. cbn [broadcast_offset fst snd] in *.
  rewrite N.Div0.div_mul_cancel_r by lia. rewrite (broadcast_step b d s), (broadcast_step b d s2) by done.
  assert (b mod (d * volume dims) mod volume dims = b mod volume dims) as Em.
  { rewrite (N.mul_comm d). rewrite N.Div0.mod_mul_r. rewrite N.mul_comm, N.Div0.mod_add. apply N.Div0.mod_mod. }
  rewrite Em in *. set (cl := (if s =? 1 then 0 else _) * st) in *. set (cr := (if s2 =? 1 then 0 else _) * st2) in *.
  rewrite !wmul_small by lia. fold cl cr. rewrite !wadd_small by lia.
  rewrite (IH (S p) (al + cl) (ar + cr) ls' lst rs' rst); [do 2 f_equal; lia|done..|lia|lia|lia|lia].
Qed.
End Batches.

(** The tensors of a matmul: the loop over all the batch axes. *)
Lemma batch_offsets_ok {MP : MatmulPrecision} (lhs rhs : Tensor EI) (out : Tensor EO) inner b dims ls lst rs rst lm ln rm rn m n lsx lsy rsx rsy :
  0 < inner → b < volume dims → meta_ok out dims (contiguous_strides dims inner) m n n 1 →
  meta_ok lhs ls lst lm ln lsx lsy → broadcasts dims ls → meta_ok rhs rs rst rm rn rsx rsy → broadcasts dims rs →
  broadcast_offset dims ls lst b < two32 → broadcast_offset dims rs rst b < two32 →
  batch_offsets (upto (wsub (t_rank out) 2)) (b * inner) lhs rhs out (0, 0) =
    Ret (broadcast_offset dims ls lst b, broadcast_offset dims rs rst b).
Proof.
  intros Hi Hb Mo Ml Bl Mr Br Fl Fr. destruct (axis_rank _ _ _ _ _ _ _ Mo) as [-> _]. unfold upto. rewrite Nat2N.id.
  pose proof (batch_offsets_from lhs rhs out inner b Hi dims 0 0 0 ls lst rs rst) as H. rewrite N.mod_small in H by done.
  rewrite !N.add_0_l in H. apply H; try done.
  - intros i d. by apply (stride_batch _ _ _ _ _ _ _ Mo).
  - intros i d. by apply (shape_batch _ _ _ _ _ _ _ Ml).
  - intros i d. by apply (stride_batch _ _ _ _ _ _ _ Ml).
  - intros i d. by apply (shape_batch _ _ _ _ _ _ _ Mr).
  - intros i d. by apply (stride_batch _ _ _ _ _ _ _ Mr).
  - apply Ml.
  - apply Mr.
Qed.

(** ** Operands *)

(** An input: its tensor, its batch dimensions with their strides, and its
    matrix. *)
Record Operand {MP : MatmulPrecision} := mkOperand {
  op_tensor : Tensor EI;
  op_batch_shape : list N;
  op_batch_strides : list N;
  op_rows : N;
  op_cols : N;
  op_stride_x : N;
  op_stride_y : N;
}.

Arguments mkOperand {MP} _ _ _ _ _ _ _.

Section Operands.
Context {MP : MatmulPrecision} (dims : list N).

Definition op_offset (o : Operand) (b : N) : N := broadcast_offset dims (op_batch_shape o) (op_batch_strides o) b.
(** An element of a matrix of the operand. *)
Definition op_elem (o : Operand) (b x y : N) : EI :=
  default ei_zero (t_data (op_tensor o) !! N.to_nat (x * op_stride_x o + y * op_stride_y o + op_offset o b)).

(** The operand broadcasts to the batches of the output, its lines are aligned
    and its elements are in the buffer. *)
Record operand_ok (layout : MatrixLayout) (line : N) (o : Operand) : Prop := {
  ok_meta : meta_ok (op_tensor o) (op_batch_shape o) (op_batch_strides o) (op_rows o) (op_cols o) (op_stride_x o) (op_stride_y o);
  ok_dims : broadcasts dims (op_batch_shape o);
  ok_line : t_line_size (op_tensor o) = line;
  ok_layout : match layout with
              | LayoutRowMajor => op_stride_y o = 1 ∧ (line | op_stride_x o) ∧ (line | op_cols o)
              | LayoutColMajor => op_stride_x o = 1 ∧ (line | op_stride_y o) ∧ (line | op_rows o)
              end;
  ok_batches : Forall (λ s, (line | s)) (op_batch_strides o);
  ok_nonempty : 0 < op_rows o ∧ 0 < op_cols o;
  ok_inside : ∀ b x y, b < volume dims → x < op_rows o → y < op_cols o →
    x * op_stride_x o + y * op_stride_y o + op_offset o b < N.of_nat (length (t_data (op_tensor o)));
  ok_size : line ≤ N.of_nat (length (t_data (op_tensor o))) ∧ N.of_nat (length (t_data (op_tensor o))) ≤ two32;
}.

Lemma broadcast_offset_divides line strides : ∀ ds shape b,
  Forall (λ s, (line | s)) strides → (line | broadcast_offset ds shape strides b).
Proof using.
  induction strides as [|s strides IH]; intros [|d ds] [|sh shape] b H; cbn [broadcast_offset]; try apply N.divide_0_r.
  apply Forall_cons in H as [H1 H2]. apply N.divide_add_r; [by apply N.divide_mul_r|by apply IH].
Qed.

(** The reader of a matrix of the operand. *)
Definition op_reader (o : Operand) (xo yo b : N) : TensorReader :=
  mkReader (op_tensor o) xo yo (op_stride_x o) (op_stride_y o) (op_rows o) (op_cols o) (op_offset o b).

Section Operand.
Context (layout : MatrixLayout) (line : N) (o : Operand) (O : operand_ok layout line o) (b : N) (Hb : b < volume dims).

Lemma op_offset_fits : op_offset o b < two32.
Proof using O Hb.
  destruct (ok_nonempty _ _ _ O) as [Hr Hc]. pose proof (ok_inside _ _ _ O b 0 0 Hb Hr Hc). destruct (ok_size _ _ _ O). lia.
Qed.

Lemma reader_new_ok xo yo : TensorReader_new (op_tensor o) xo yo (op_offset o b) = Ret (op_reader o xo yo b).
Proof using O.
  unfold TensorReader_new. destruct (shape_last _ _ _ _ _ _ _ (ok_meta _ _ _ O)) as [-> ->].
  by destruct (stride_last _ _ _ _ _ _ _ (ok_meta _ _ _ O)) as [-> ->].
Qed.

Lemma reader_view_ok xo yo : 0 < line → view_ok (op_reader o xo yo b) layout line.
Proof using O Hb.
  intros Hl. split; cbn [op_reader tr_tensor tr_stride_x tr_stride_y tr_shape_x tr_shape_y tr_batch_offset].
  - apply O.
  - done.
  - apply O.
  - apply broadcast_offset_divides, O.
  - intros x y. by apply (ok_inside _ _ _ O).
  - apply O.
Qed.

Lemma reader_view xo yo x y :
  view (op_reader o xo yo b) x y = if (x <? op_rows o) && (y <? op_cols o) then op_elem o b x y else ei_zero.
Proof using. done. Qed.
End Operand.
End Operands.

(** The configuration was made for these sizes. *)
Record sizes_ok (config : SimpleConfig) (m n k : N) : Prop := {
  sz_m : sc_check_m_bounds config = negb (m mod stage_len_of config DimM =? 0);
  sz_n : sc_check_n_bounds config = negb (n mod stage_len_of config DimN =? 0);
  sz_k : sc_check_k_bounds config = negb (k mod stage_len_of config DimK =? 0);
  sz_pos : 0 < m ∧ 0 < n ∧ 0 < k;
  sz_fits : k + stage_len_of config DimK < two32;
}.

Abbreviation side_layout c ident := (gc_matrix_layout (simple_global_config c) ident).
Abbreviation side_line c ident := (gc_global_line_size (simple_global_config c) ident).

(** The tensors of a launch: inputs that broadcast to the batches of a
    contiguous output. *)
Record tensors_ok {MP : MatmulPrecision} (config : SimpleConfig) (dims : list N) (lhs rhs : Operand) (out : Tensor EO) (m n k : N) : Prop := {
  tn_lhs : operand_ok dims (side_layout config IdentLhs) (side_line config IdentLhs) lhs;
  tn_rhs : operand_ok dims (side_layout config IdentRhs) (side_line config IdentRhs) rhs;
  tn_sizes : op_rows lhs = m ∧ op_cols lhs = k ∧ op_rows rhs = k ∧ op_cols rhs = n;
  tn_meta : meta_ok out dims (contiguous_strides dims (m * n)) m n n 1;
  tn_line : (side_line config IdentOut | n);
  tn_len : N.of_nat (length (t_data out)) = volume dims * (m * n);
  tn_size : volume dims * (m * n) ≤ two32;
}.

(** The lengths of a stage are multiples of those of its tiles. *)
Lemma stage_len_tile config d : (tile_dim config d | stage_len_of config d).
Proof. apply N.divide_factor_r. Qed.

(** An interval that starts inside a matrix whose size it divides ends inside. *)
Lemma whole_window (len size o : N) : 0 < len → (len | o) → o < size → size mod len = 0 → o + len ≤ size.
Proof.
  intros Hl [i ->] Ho Hm. apply N.Div0.div_exact in Hm. rewrite Hm in *. rewrite (N.mul_comm len) in *.
  apply N.mul_lt_mono_pos_r in Ho; [|done]. assert ((i + 1) * len ≤ size / len * len) by (apply N.mul_le_mono_r; lia). lia.
Qed.

Section Block.
Context {MP : MatmulPrecision} {UN : Uninit}.
Context (config : SimpleConfig) (LL RL : SyncFullLoading) (al bl lenl ar br lenr : N).
Context (K : cube_ok config LL RL al bl lenl ar br lenr).
Context (m n k : N) (Z : sizes_ok config m n k).
Context (dims : list N) (lhs rhs : Operand) (out : Tensor EO) (T : tensors_ok config dims lhs rhs out m n k).
Context (q : option Quantization).
Abbreviation g := (simple_global_config config).
Abbreviation sconf := (sc_stage_config config).
Abbreviation sm := (stage_len_of config DimM).
Abbreviation sn := (stage_len_of config DimN).
Abbreviation ks := (stage_len_of config DimK).
Abbreviation line := (side_line config IdentOut).

Lemma stage_len_pos d : 0 < stage_len_of config d.
Proof using K.
  destruct (co_pos _ _ _ _ _ _ _ _ _ K d) as [H1 H2]. unfold stage_len_of. apply N.mul_pos_pos; [by apply N.mul_pos_pos|].
  pose proof (ro_pos _ (co_register _ _ _ _ _ _ _ _ _ K)) as (H3 & H4 & H5). rewrite (co_tile _ _ _ _ _ _ _ _ _ K) in *.
  by destruct d.
Qed.

(** ** The loop over k *)

Definition loops : N := (k + ks - 1) / ks.

Lemma num_loops_ok : num_loops config (0, k) = Ret loops.
Proof using K Z.
  pose proof (stage_len_pos DimK) as Hp. pose proof (sz_fits _ _ _ _ Z). unfold num_loops. rewrite (co_k_step _ _ _ _ _ _ _ _ _ K).
  cbn [fst snd]. destruct (N.eqb_spec ks 0) as [|_]; [lia|]. f_equal. unfold loops.
  rewrite (wsub_small k) by lia. rewrite N.sub_0_r, wadd_small by done. by rewrite wsub_small by lia.
Qed.

Lemma loops_cover : k ≤ loops * ks ∧ ∀ i, i < loops → i * ks < k.
Proof using K.
  pose proof (stage_len_pos DimK) as Hp. unfold loops.
  destruct (div_mod_ex (k + ks - 1) ks Hp) as (d & r & -> & _ & E & Hr). split; [lia|]. intros i Hi.
  assert ((i + 1) * ks ≤ d * ks) by (apply N.mul_le_mono_r; lia). lia.
Qed.

Lemma loops_pos : 0 < loops.
Proof using K Z.
  destruct loops_cover as [H _]. destruct (sz_pos _ _ _ _ Z) as (_ & _ & Hk). destruct (N.eq_0_gt_0_cases loops) as [E|]; [|done].
  rewrite E in H. lia.
Qed.

(** ** The readers *)

Context (mo no b : N) (Hmo : (sm | mo)) (Hno : (sn | no)) (Hb : b < volume dims).
Context (Fm : mo + sm < two32) (Fn : no + sn < two32).
Context (Cm : sc_check_m_bounds config = true ∨ mo < m) (Cn : sc_check_n_bounds config = true ∨ no < n).

Abbreviation rl := (op_reader dims lhs mo 0 b).
Abbreviation rr := (op_reader dims rhs 0 no b).

Lemma lhs_line : rc_stage_line_size (uc_tile_config sconf) StageLhs = side_line config IdentLhs.
Proof using K. symmetry. apply (go_line _ _ _ _ _ (co_lhs _ _ _ _ _ _ _ _ _ K)). Qed.
Lemma rhs_line : rc_stage_line_size (uc_tile_config sconf) StageRhs = side_line config IdentRhs.
Proof using K. symmetry. apply (go_line _ _ _ _ _ (co_rhs _ _ _ _ _ _ _ _ _ K)). Qed.

Lemma line_pos_l : 0 < side_line config IdentLhs ∧ 0 < side_line config IdentRhs.
Proof using K.
  rewrite <- lhs_line, <- rhs_line.
  by destruct (ro_line _ (co_register _ _ _ _ _ _ _ _ _ K)) as (H1 & H2 & _).
Qed.

Lemma check_or_inside (check : bool) len size o :
  0 < len → check = negb (size mod len =? 0) → (len | o) → check = true ∨ o < size → check = true ∨ o + len ≤ size.
Proof using.
  intros Hl -> Hd [Hc|Ho]; [by left|]. destruct (N.eqb_spec (size mod len) 0) as [E|]; [|by left]. right. by apply whole_window.
Qed.

Lemma lhs_window i : i < loops → window_ok g IdentLhs (lhs_reader_at config rl i).
Proof using K Z T Hmo Hb Fm Cm.
  clear Fn Cn. intros Hi. destruct loops_cover as [_ Hk]. specialize (Hk i Hi). pose proof (sz_fits _ _ _ _ Z) as Hf.
  pose proof (stage_len_pos DimM) as Pm. pose proof (stage_len_pos DimK) as Pk. destruct (tn_sizes _ _ _ _ _ _ _ _ T) as (E1 & E2 & _).
  pose proof (ro_lhs _ (co_register _ _ _ _ _ _ _ _ _ K)) as Hd. rewrite (co_tile _ _ _ _ _ _ _ _ _ K), lhs_line in Hd.
  assert (lhs_reader_at config rl i = op_reader dims lhs mo (i * ks) b) as ->.
  { unfold lhs_reader_at. by rewrite (co_k_step _ _ _ _ _ _ _ _ _ K). }
  split.
  - apply reader_view_ok; [apply T|done|apply line_pos_l].
  - exact Fm.
  - change (i * ks + ks < two32). lia.
  - change (side_line config IdentLhs | match side_layout config IdentLhs with LayoutRowMajor => i * ks | LayoutColMajor => mo end).
    change (rc_matrix_layout (uc_tile_config sconf) StageLhs) with (side_layout config IdentLhs) in Hd.
    destruct (side_layout config IdentLhs).
    + apply N.divide_mul_r. etransitivity; [exact Hd|apply (stage_len_tile config DimK)].
    + etransitivity; [exact Hd|]. etransitivity; [apply (stage_len_tile config DimM)|done].
  - change (sc_check_m_bounds config = true ∨ mo + sm ≤ op_rows lhs). rewrite E1. apply check_or_inside; [done|apply Z|done|done].
  - change (sc_check_k_bounds config = true ∨ i * ks + ks ≤ op_cols lhs). rewrite E2.
    apply check_or_inside; [done|apply Z|by exists i|by right].
Qed.

Lemma rhs_window i : i < loops → window_ok g IdentRhs (rhs_reader_at config rr i).
Proof using K Z T Hno Hb Fn Cn.
  clear Fm Cm. intros Hi. destruct loops_cover as [_ Hk]. specialize (Hk i Hi). pose proof (sz_fits _ _ _ _ Z) as Hf.
  pose proof (stage_len_pos DimN) as Pn. pose proof (stage_len_pos DimK) as Pk. destruct (tn_sizes _ _ _ _ _ _ _ _ T) as (_ & _ & E1 & E2).
  pose proof (ro_rhs _ (co_register _ _ _ _ _ _ _ _ _ K)) as Hd. rewrite (co_tile _ _ _ _ _ _ _ _ _ K), rhs_line in Hd.
  assert (rhs_reader_at config rr i = op_reader dims rhs (i * ks) no b) as ->.
  { unfold rhs_reader_at. by rewrite (co_k_step _ _ _ _ _ _ _ _ _ K). }
  split.
  - apply reader_view_ok; [apply T|done|apply line_pos_l].
  - change (i * ks + ks < two32). lia.
  - exact Fn.
  - change (side_line config IdentRhs | match side_layout config IdentRhs with LayoutRowMajor => no | LayoutColMajor => i * ks end).
    change (rc_matrix_layout (uc_tile_config sconf) StageRhs) with (side_layout config IdentRhs) in Hd.
    destruct (side_layout config IdentRhs).
    + etransitivity; [exact Hd|]. etransitivity; [apply (stage_len_tile config DimN)|done].
    + apply N.divide_mul_r. etransitivity; [exact Hd|apply (stage_len_tile config DimK)].
  - change (sc_check_k_bounds config = true ∨ i * ks + ks ≤ op_rows rhs). rewrite E1.
    apply check_or_inside; [done|apply Z|by exists i|by right].
  - change (sc_check_n_bounds config = true ∨ no + sn ≤ op_cols rhs). rewrite E2. apply check_or_inside; [done|apply Z|done|done].
Qed.

(** ** The units and their loaders *)

Lemma new_loader_ok ident a b0 len (tensor : Tensor EI) xo yo bo r L u :
  global_ok g ident a b0 len → window_ok g ident r → TensorReader_new tensor xo yo bo = Ret r →
  layout_usable (loading_layout L) (into_stage ident) (stage_memory_config sconf) → loading_check L g ident = Ret (inl tt) →
  cube_unit config u → ∃ l, SyncFullLoader_new L tensor xo yo bo q ident g u = Ret l ∧ loader_for g ident r q L u l.
Proof using K.
  clear Fm Fn Cm Cn. intros G W Hr Huse Hcheck [Hx Hy]. unfold SyncFullLoader_new. rewrite Hr. cbn [obind].
  destruct (new_job_ok g ident a b0 len r G W q L u Huse Hcheck) as (j & Hj & _).
  { rewrite (cube_load_index config LL RL al bl lenl ar br lenr K). exact Hy. }
  { exact Hx. }
  destruct (gc_precompute_job g); [rewrite Hj|]; cbn [obind]; eexists; (split; [done|]); split_and!; done.
Qed.

Definition writer : TensorWriter := mkWriter mo no n 1 m n (b * n * m).

Lemma batch_end : (b + 1) * (m * n) ≤ volume dims * (m * n).
Proof using Hb. clear -Hb. apply N.mul_le_mono_r. lia. Qed.

Lemma writer_is_ok : writer_ok config writer (t_data out).
Proof using K Z T Hmo Hno Hb Fm Fn Cm Cn.
  pose proof (stage_len_pos DimM) as Pm. pose proof (stage_len_pos DimN) as Pn. pose proof (tn_line _ _ _ _ _ _ _ _ T) as Hn.
  pose proof batch_end as He. pose proof (tn_len _ _ _ _ _ _ _ _ T) as Hlen.
  split; cbn [writer tw_x_offset tw_y_offset tw_stride_x tw_stride_y tw_shape_x tw_shape_y tw_batch_offset].
  - done.
  - done.
  - etransitivity; [apply (out_line_tile config LL RL al bl lenl ar br lenr K)|]. etransitivity; [apply (stage_len_tile config DimN)|done].
  - apply N.divide_mul_l. by apply N.divide_mul_r.
  - done.
  - intros x y Hx Hy. rewrite Hlen. pose proof (radix_lt n m x y Hx Hy). lia.
  - rewrite Hlen. apply T.
  - done.
  - apply check_or_inside; [done|apply Z|done|done].
  - apply check_or_inside; [done|apply Z|done|done].
Qed.

(** ** The values *)

(** The sum of the products of a row and a column, in ascending order of k. *)
Definition product_value (b x y : N) : EA :=
  fold_upto k (λ s t, ea_add s (ea_mul (ea_of_es (stage_value q IdentLhs (op_elem dims lhs b x t)))
    (ea_of_es (stage_value q IdentRhs (op_elem dims rhs b t y))))) ea_zero.

(** Adding the product of two padding elements changes nothing. *)
Definition padding_neutral : Prop :=
  ∀ a, ea_add a (ea_mul (ea_of_es (stage_value q IdentLhs ei_zero)) (ea_of_es (stage_value q IdentRhs ei_zero))) = a.

Lemma block_value_ok x y :
  padding_neutral → x + mo < m → y + no < n → block_value rl rr q (loops * ks) x y = product_value b (x + mo) (y + no).
Proof using K T.
  clear Fm Fn Cm Cn. intros Hpad Hx Hy. destruct loops_cover as [Hk _]. destruct (tn_sizes _ _ _ _ _ _ _ _ T) as (E1 & E2 & E3 & E4).
  unfold block_value, dot. rewrite (fold_upto_idle k); [| |done].
  - apply fold_upto_ext. intros s t Ht. unfold lhs_elem, rhs_elem. rewrite !reader_view, E1, E2, E3, E4.
    cbn [op_reader tr_x_offset tr_y_offset]. rewrite !N.add_0_r.
    by rewrite (proj2 (N.ltb_lt _ _) Hx), (proj2 (N.ltb_lt _ _) Hy), (proj2 (N.ltb_lt _ _) Ht).
  - intros s t Ht. unfold lhs_elem, rhs_elem. rewrite !reader_view, E2, E3. cbn [op_reader tr_x_offset tr_y_offset]. rewrite !N.add_0_r.
    rewrite (proj2 (N.ltb_ge _ _) Ht), andb_false_r. cbn [andb]. apply Hpad.
Qed.

(** ** The writes *)

(** The line of the output that starts at a column of a row. *)
Definition out_line (b x y : N) : N * list EO :=
  ((b * (m * n) + x * n + y) / line, tabulate line (λ p, eo_of_ea (product_value b x (y + p)))).

(** The writes are the lines of the output that satisfy [P]. *)
Definition lines_of (P : N → N → N → Prop) (ws : list (N * list EO)) : Prop :=
  (∀ v, v ∈ ws → ∃ b x y, P b x y ∧ (line | y) ∧ x < m ∧ y < n ∧ v = out_line b x y) ∧
  (∀ b x y, P b x y → (line | y) → x < m → y < n → out_line b x y ∈ ws).

(** The elements of the block. *)
Definition block_lines (b' x y : N) : Prop := b' = b ∧ mo ≤ x < mo + sm ∧ no ≤ y < no + sn.

Lemma emitted_line x y :
  padding_neutral → (line | y) → inside writer x y = true →
  out_write config writer (block_value rl rr q (loops * ks)) x y = out_line b (x + mo) (y + no).
Proof using K Z T Hmo Hno Hb Fm Fn Cm Cn.
  intros Hpad Hy Hin. pose proof (inside_lt _ _ _ Hin) as [Hx' Hy']. cbn [writer tw_x_offset tw_y_offset tw_shape_x tw_shape_y] in Hx', Hy'.
  unfold out_write, out_line. f_equal.
  - unfold out_position. cbn [writer tw_x_offset tw_y_offset tw_stride_x tw_batch_offset]. f_equal. lia.
  - apply tabulate_ext. intros p Hp. pose proof (inside_line config writer (t_data out) writer_is_ok x y p Hy Hp) as Hp'.
    rewrite Hin in Hp'. apply inside_lt in Hp' as [_ Hyp]. cbn [writer tw_y_offset tw_shape_y] in Hyp.
    rewrite block_value_ok by done. do 2 f_equal. lia.
Qed.

Lemma emits_lines ws :
  padding_neutral → emits config writer (block_value rl rr q (loops * ks)) (in_block config) ws → lines_of block_lines ws.
Proof using K Z T Hmo Hno Hb Fm Fn Cm Cn.
  intros Hpad [H1 H2].
  assert ((line | no)) as Hlno.
  { etransitivity; [apply (out_line_tile config LL RL al bl lenl ar br lenr K)|]. etransitivity; [apply (stage_len_tile config DimN)|done]. }
  split.
  - intros v Hv. destruct (H1 v Hv) as (x & y & [Hx Hy] & Hd & Hin & ->). pose proof (inside_lt _ _ _ Hin) as [Hx' Hy'].
    cbn [writer tw_x_offset tw_y_offset tw_shape_x tw_shape_y] in Hx', Hy'. exists b, (x + mo), (y + no).
    split_and!; [unfold block_lines; split_and!; lia|by apply N.divide_add_r|done|done|by apply emitted_line].
  - intros b' x y (-> & [Hx1 Hx2] & [Hy1 Hy2]) Hd Hx Hy.
    assert ((line | y - no)) as Hd'. { apply N.divide_sub_r; done. }
    assert (inside writer (x - mo) (y - no) = true) as Hin.
    { unfold inside. cbn [writer tw_x_offset tw_y_offset tw_shape_x tw_shape_y]. apply andb_true_iff. rewrite !N.ltb_lt. lia. }
    pose proof (emitted_line (x - mo) (y - no) Hpad Hd' Hin) as E. replace (x - mo + mo) with x in E by lia. replace (y - no + no) with y in E by lia.
    rewrite <- E. apply H2; [|done|done]. split; lia.
Qed.

(** ** The execution *)

(** Accumulators of the shape that the configuration gives them. *)
Definition shaped (acc : list TileAccumulator) : Prop :=
  ∃ G, acc = accs sconf (part_dim config DimM) (part_dim config DimN) G.

Lemma unit_args_ok (units : list (UnitPos * list TileAccumulator)) :
  Forall (λ ua, cube_unit config ua.1 ∧ shaped ua.2) units →
  ∃ args, each (λ '(u, acc),
      let? lhs_loader := SyncFullLoader_new LL (op_tensor lhs) mo 0 (op_offset dims lhs b) q IdentLhs g u in
      let? rhs_loader := SyncFullLoader_new RL (op_tensor rhs) 0 no (op_offset dims rhs b) q IdentRhs g u in
      let? writer := TensorWriter_new out mo no (b * n * m) in
      Ret (mkArgs u lhs_loader rhs_loader writer acc)) units = Ret args ∧
    Forall (arg_ok config LL RL rl rr q) args ∧ Forall (λ a, ua_writer a = writer) args ∧ ua_pos <$> args = fst <$> units.
Proof using K Z T Hmo Hno Hb Fm Fn Cm Cn.
  assert (window_ok g IdentLhs rl ∧ window_ok g IdentRhs rr) as [WL WR].
  { pose proof (lhs_window 0 loops_pos) as WL. pose proof (rhs_window 0 loops_pos) as WR.
    destruct (readers_at_0 config rl rr) as [E1 E2]. rewrite E1 in WL. by rewrite E2 in WR. }
  pose proof (reader_new_ok _ _ _ _ (tn_lhs _ _ _ _ _ _ _ _ T) b mo 0) as RLn.
  pose proof (reader_new_ok _ _ _ _ (tn_rhs _ _ _ _ _ _ _ _ T) b 0 no) as RRn.
  assert (TensorWriter_new out mo no (b * n * m) = Ret writer) as WN.
  { unfold TensorWriter_new. destruct (shape_last _ _ _ _ _ _ _ (tn_meta _ _ _ _ _ _ _ _ T)) as [-> ->].
    by destruct (stride_last _ _ _ _ _ _ _ (tn_meta _ _ _ _ _ _ _ _ T)) as [-> ->]. }
  induction 1 as [|[u acc] units [Hu Hacc] _ (args & Hargs & H1 & H2 & H3)]; [exists []; by repeat constructor|].
  cbn [fst snd] in Hu, Hacc.
  destruct (new_loader_ok IdentLhs al bl lenl _ _ _ _ _ LL u (co_lhs _ _ _ _ _ _ _ _ _ K) WL RLn) as (ll & Hll & Lll); [apply K..|done|].
  destruct (new_loader_ok IdentRhs ar br lenr _ _ _ _ _ RL u (co_rhs _ _ _ _ _ _ _ _ _ K) WR RRn) as (lr & Hlr & Llr); [apply K..|done|].
  exists (mkArgs u ll lr writer acc :: args). cbn [each]. rewrite Hargs, Hll, Hlr. cbn [obind]. rewrite WN. cbn [obind].
  split_and!; [done|constructor; [by split_and!|done]|by constructor|by rewrite !fmap_cons, H3].
Qed.

Lemma unit_accs_shaped u t : shaped (unit_accs config rl rr q u t).
Proof using. eexists. done. Qed.

(** A block that all units of a cube compute. *)
Lemma block_ok sched units :
  schedule_ok sched → padding_neutral →
  Forall (λ ua, cube_unit config ua.1 ∧ shaped ua.2) units → all_units g IdentLhs (fst <$> units) →
  ∃ wss accs, execute_global_matmul config sched LL RL (op_tensor lhs) (op_tensor rhs) out mo no b (0, k) q units = Ret (wss, accs) ∧
    length accs = length units ∧ Forall shaped accs ∧ lines_of block_lines (concat wss).
Proof using K Z T Hmo Hno Hb Fm Fn Cm Cn.
  intros Hsched Hpad Hunits Hall. destruct (unit_args_ok units Hunits) as (args & Hargs & Ha & Hw & Hp).
  pose proof (tn_meta _ _ _ _ _ _ _ _ T) as M. pose proof batch_end as He. pose proof (tn_size _ _ _ _ _ _ _ _ T) as Hs.
  destruct (sz_pos _ _ _ _ Z) as (P1 & P2 & _).
  unfold execute_global_matmul. destruct (stride_last _ _ _ _ _ _ _ M) as [-> _]. destruct (shape_last _ _ _ _ _ _ _ M) as [-> _]. cbn [obind].
  assert (n ≤ m * n) as Hnm by (clear -P1; nia). assert (m * n + b * (m * n) ≤ two32) as Hbm by lia.
  assert (wmul (wmul b n) m = b * n * m) as ->.
  { assert (b * n ≤ b * (m * n)) by (by apply N.mul_le_mono_l). assert (0 < m * n) by (by apply N.mul_pos_pos).
    rewrite (wmul_small b n), wmul_small by (unfold two32 in *; lia). done. }
  assert (batch_offsets (upto (wsub (t_rank out) 2)) (b * n * m) (op_tensor lhs) (op_tensor rhs) out (0, 0) =
    Ret (op_offset dims lhs b, op_offset dims rhs b)) as ->.
  { replace (b * n * m) with (b * (m * n)) by lia. pose proof (tn_lhs _ _ _ _ _ _ _ _ T) as TL. pose proof (tn_rhs _ _ _ _ _ _ _ _ T) as TR.
    eapply batch_offsets_ok; [by apply N.mul_pos_pos|done|exact M|apply TL|apply TL|apply TR|apply TR|..].
    - by apply (op_offset_fits _ _ _ _ TL).
    - by apply (op_offset_fits _ _ _ _ TR). }
  cbn [obind fst]. rewrite Hargs. cbn [obind].
  destruct (execute_ok config LL RL al bl lenl ar br lenr K rl rr q loops lhs_window rhs_window sched Hsched args Ha) with
    (w := writer) (data := t_data out) (k_range := (0, k)) as (wss & accs' & -> & -> & Hem); [by rewrite Hp|apply writer_is_ok|done|apply num_loops_ok|].
  exists wss. eexists. split; [done|]. rewrite length_fmap. split; [by rewrite <- (length_fmap ua_pos), Hp, length_fmap|]. split.
  - apply Forall_fmap, Forall_true. intros a. exact (unit_accs_shaped (ua_pos a) (loops * sc_k_step config)).
  - apply emits_lines; [done|]. by rewrite (co_k_step _ _ _ _ _ _ _ _ _ K) in Hem.
Qed.
End Block.
