(* ===== verification/MatmulLaunch.v ===== *)
(** * A launch of the simple matmul

    All cubes of the grid of a launch, each with its blocks: together they write
    every line of the output exactly with the sums of products, whatever the
    order in which cubes, units and loading phases interleave. *)

From S2P Require Import Prelude DeviceNum Tiling GlobalOrder SmAllocation Hypercube HypercubeProps BlockCoverage StageLayout MatmulConfig GlobalMemory StageLoad StageLoadProps Loops RegisterTile PartitionMatmul SimpleMatmulProps SimpleMatmul SimpleOutput SimpleSetup SimpleBlock.

Open Scope N_scope.
Open Scope rust_scope.

(** The cubes of a grid. *)
Definition grid_cubes (X Y Z : N) : list Topology :=
  x ← upto X; y ← upto Y; z ← upto Z; [cube_at X Y Z x y z].

Lemma elem_of_grid X Y Z t : t ∈ grid_cubes X Y Z ↔ in_grid X Y Z t.
Proof.
  unfold grid_cubes, in_grid. rewrite list_elem_of_bind. setoid_rewrite list_elem_of_bind. setoid_rewrite list_elem_of_bind.
  setoid_rewrite list_elem_of_singleton. setoid_rewrite elem_of_upto. split.
  - by intros (x & (y & (z & -> & Hz) & Hy) & Hx).
  - destruct t as [x y z X' Y' Z']. cbn. intros (-> & -> & -> & Hx & Hy & Hz).
    exists x. split; [|done]. exists y. split; [|done]. by exists z.
Qed.

Section Cubes.
Context {MP : MatmulPrecision} {UN : Uninit}.
Context (bc : PartitionedBatchConfig) (LL RL : SyncFullLoading) (al bl lenl ar br lenr : N).
Abbreviation config := (pb_global_config bc).
Context (K : cube_ok config LL RL al bl lenl ar br lenr).
Context (m n k : N) (Z : sizes_ok config m n k).
Context (dims : list N) (lhs rhs : Operand) (out : Tensor EO) (T : tensors_ok config dims lhs rhs out m n k).
Context (quant : Quantization).
Abbreviation q := (entry_quantization bc quant).
Context (Hpad : padding_neutral q).
Context (Hplanes : sc_num_planes config = uc_num_main_flow_planes (sc_stage_config config)).
Abbreviation g := (simple_global_config config).
Abbreviation sm := (stage_len_of config DimM).
Abbreviation sn := (stage_len_of config DimN).
Abbreviation lines_of := (lines_of config m n k dims lhs rhs q).

(** ** The lines written *)

Lemma lines_nil (P : N → N → N → Prop) : (∀ b x y, ¬ P b x y) → lines_of P [].
Proof using. intros H. split; [by intros v Hv%elem_of_nil|]. intros b x y HP. by apply H in HP. Qed.

Lemma lines_app (P Q R : N → N → N → Prop) ws1 ws2 :
  (∀ b x y, R b x y ↔ P b x y ∨ Q b x y) → lines_of P ws1 → lines_of Q ws2 → lines_of R (ws1 ++ ws2).
Proof using.
  intros HR [H1 H2] [H3 H4]. split.
  - intros v [Hv|Hv]%elem_of_app.
    + destruct (H1 v Hv) as (b & x & y & HP & Hrest). exists b, x, y. split; [apply HR; by left|done].
    + destruct (H3 v Hv) as (b & x & y & HP & Hrest). exists b, x, y. split; [apply HR; by right|done].
  - intros b x y HP Hy Hx Hyn. apply elem_of_app. apply HR in HP as [HP|HP]; auto.
Qed.

Lemma lines_ext (P Q : N → N → N → Prop) ws : (∀ b x y, x < m → y < n → P b x y ↔ Q b x y) → lines_of P ws → lines_of Q ws.
Proof using.
  intros H [H1 H2]. split.
  - intros v Hv. destruct (H1 v Hv) as (b & x & y & HP & Hd & Hx & Hy & ->). exists b, x, y. split; [by apply H|done].
  - intros b x y HQ Hd Hx Hy. apply H2; [by apply H|done..].
Qed.

(** ** A cube *)

Lemma cube_units_ok : Forall (cube_unit config) (cube_units bc) ∧ all_units g IdentLhs (cube_units bc).
Proof using K Hplanes.
  assert (∀ u, u ∈ cube_units bc ↔ cube_unit config u) as Hin.
  { intros u. unfold cube_units, pb_cube_dim, sc_cube_dim, cube_unit. cbn [fst snd]. rewrite Hplanes, list_elem_of_bind.
    setoid_rewrite list_elem_of_bind. setoid_rewrite list_elem_of_singleton. setoid_rewrite elem_of_upto. split.
    - by intros (x & (y & -> & Hy) & Hx).
    - destruct u as [x y]. intros [Hx Hy]. exists x. split; [|done]. by exists y. }
  split; [|split].
  - apply Forall_forall. intros u. apply Hin.
  - apply Forall_forall. intros u Hu. rewrite (cube_load_index config LL RL al bl lenl ar br lenr K). apply Hin in Hu as [Hx Hy]. done.
  - intros i x Hi Hx. exists (mkUnit x i). rewrite (cube_load_index config LL RL al bl lenl ar br lenr K). split_and!; [|done|done].
    by apply Hin.
Qed.

Lemma new_accumulators_shaped : ∃ acc, Accumulators_new (sc_stage_config config) = Ret acc ∧ shaped config acc.
Proof using K.
  clear Hplanes. pose proof (co_register _ _ _ _ _ _ _ _ _ K) as Hreg. destruct (ro_fit _ Hreg) as (_ & _ & F3).
  destruct (small_counts config LL RL al bl lenl ar br lenr K DimM) as (_ & B1 & _).
  destruct (small_counts config LL RL al bl lenl ar br lenr K DimN) as (_ & B2 & _).
  assert (part_dim config DimM * part_dim config DimN ≤ 255 * 255) as B3 by (by apply N.mul_le_mono).
  unfold Accumulators_new, size_mn. change (uc_tiling_scheme (sc_stage_config config)) with (cfg_scheme config).
  fold (part_dim config DimM) (part_dim config DimN). rewrite checked_mul_ok by (unfold u32_max; lia). cbn [obind].
  unfold allocate_accumulator. rewrite checked_mul_ok by (unfold u32_max, two32 in *; lia). cbn [obind]. eexists. split; [done|].
  exists (λ _ _ _ _, uninit_ea). unfold accs. apply tabulate_eq; [by rewrite length_replicate|].
  intros i Hi. rewrite lookup_replicate_2 by lia. unfold acc_array. do 2 f_equal. apply tabulate_eq; [by rewrite length_replicate|].
  intros j Hj. rewrite lookup_replicate_2 by lia. done.
Qed.

(** The blocks of a cube are inside the output, or their writes are checked. *)
Definition blocks_ok (blocks : list (N * N * N)) : Prop :=
  ∀ mo no b, (mo, no, b) ∈ blocks → (sm | mo) ∧ (sn | no) ∧ b < volume dims ∧ mo + sm < two32 ∧ no + sn < two32 ∧
    (sc_check_m_bounds config = true ∨ mo < m) ∧ (sc_check_n_bounds config = true ∨ no < n).

Definition blocks_lines (blocks : list (N * N * N)) (b x y : N) : Prop := ∃ blk, blk ∈ blocks ∧ covers sm sn blk (x, y, b).

Lemma run_blocks_ok scheds blocks : ∀ i accs,
  (∀ i, schedule_ok (scheds i)) → blocks_ok blocks → length accs = length (cube_units bc) → Forall (shaped config) accs →
  ∃ ws, run_blocks bc LL RL (op_tensor lhs) (op_tensor rhs) out quant scheds i (0, k) blocks accs = Ret ws ∧ lines_of (blocks_lines blocks) ws.
Proof using K Z T Hpad Hplanes.
  induction blocks as [|[[mo no] b] blocks IH]; intros i accs Hs Hb Hlen Hacc.
  { exists []. split; [done|]. apply lines_nil. intros b x y (blk & Hblk & _). by apply elem_of_nil in Hblk. }
  destruct cube_units_ok as [Hcu Hall]. destruct (Hb mo no b) as (D1 & D2 & Hv & F1 & F2 & C1 & C2); [by left|].
  assert (Forall (λ ua, cube_unit config ua.1 ∧ shaped config ua.2) (zip (cube_units bc) accs)) as Hz.
  { apply Forall_forall. intros [u acc] Hin. pose proof (elem_of_zip_l _ _ _ _ Hin) as Hu. pose proof (elem_of_zip_r _ _ _ _ Hin) as Ha.
    rewrite Forall_forall in Hcu. rewrite Forall_forall in Hacc. split; [by apply Hcu|by apply Hacc]. }
  assert (fst <$> zip (cube_units bc) accs = cube_units bc) as Hfst by (apply fst_zip; lia).
  destruct (block_ok config LL RL al bl lenl ar br lenr K m n k Z dims lhs rhs out T q mo no b D1 D2 Hv F1 F2 C1 C2 (scheds i)
    (zip (cube_units bc) accs) (Hs i) Hpad Hz) as (wss & accs' & Hrun & Hlen' & Hacc' & Hlines); [by rewrite Hfst|].
  cbn [run_blocks]. rewrite Hrun. cbn [obind].
  destruct (IH (i + 1) accs' Hs) as (ws & -> & Hws); [intros mo' no' b' Hin; apply Hb; by right| |done|].
  { rewrite Hlen', length_zip_with. lia. }
  cbn [obind]. eexists. split; [done|]. eapply lines_app; [|exact Hlines|exact Hws]. intros b' x y. unfold blocks_lines, block_lines. split.
  - intros (blk & [->|Hin]%elem_of_cons & Hc); [left|right; by exists blk]. destruct Hc as (? & ? & ->). done.
  - intros [(-> & ? & ?)|(blk & Hin & Hc)]; [exists (mo, no, b); split; [by left|done]|exists blk; split; [by right|done]].
Qed.

(** ** All cubes *)

Context (o : PartitionOrder) (input : CubeCountInput) (X Y W : N).
Abbreviation ts := (uc_tiling_scheme (sc_stage_config config)).
Abbreviation blocks_of := (matmul o ts (pb_hypercube_config bc) input).
Context (Htotal : ∀ t, in_grid X Y W t → ∃ r, blocks_of t = Ret r).
Context (Hblocks : ∀ t blocks, in_grid X Y W t → blocks_of t = Ret (Some blocks) → blocks_ok blocks).
Context (scheds : Topology → N → Schedule) (Hscheds : ∀ t i, schedule_ok (scheds t i)).

Definition cube_lines (t : Topology) (b x y : N) : Prop := ∃ blocks, blocks_of t = Ret (Some blocks) ∧ blocks_lines blocks b x y.

Abbreviation run_cube := (λ t, cube_execute bc LL RL (op_tensor lhs) (op_tensor rhs) out quant o input t (scheds t)).

Lemma cube_execute_ok t : in_grid X Y W t → ∃ ws, run_cube t = Ret ws ∧ lines_of (cube_lines t) ws.
Proof using K Z T Hpad Hplanes Htotal Hblocks Hscheds.
  intros Ht. destruct (Htotal t Ht) as [[blocks|] Hr]; unfold cube_execute; rewrite Hr; cbn [obind].
  - pose proof (tn_lhs _ _ _ _ _ _ _ _ T) as TL. destruct (shape_last _ _ _ _ _ _ _ (ok_meta _ _ _ _ TL)) as [_ ->]. cbn [obind].
    destruct (tn_sizes _ _ _ _ _ _ _ _ T) as (_ & -> & _). destruct new_accumulators_shaped as (acc & -> & Hacc). cbn [obind].
    destruct (run_blocks_ok (scheds t) blocks 0 (replicate (length (cube_units bc)) acc)) as (ws & Hws & Hlines);
      [apply Hscheds|by apply (Hblocks t)|apply length_replicate|by apply Forall_replicate|].
    exists ws. split; [done|]. eapply lines_ext; [|exact Hlines]. intros b x y _ _. unfold cube_lines. rewrite Hr. split.
    + intros H. by exists blocks.
    + by intros (blocks' & [= <-] & H).
  - exists []. split; [done|]. apply lines_nil. intros b x y (blocks & Hb & _). by rewrite Hr in Hb.
Qed.

Lemma cubes_execute_ok tl :
  (∀ t, t ∈ tl → in_grid X Y W t) →
  ∃ wss, each run_cube tl = Ret wss ∧ lines_of (λ b x y, ∃ t, t ∈ tl ∧ cube_lines t b x y) (concat wss).
Proof using K Z T Hpad Hplanes Htotal Hblocks Hscheds.
  induction tl as [|t tl IH]; intros Hin.
  { exists []. split; [done|]. apply lines_nil. intros b x y (t & Ht & _). by apply elem_of_nil in Ht. }
  destruct (cube_execute_ok t) as (ws & Hws & Hl); [apply Hin; by left|]. destruct IH as (wss & Hwss & Hls); [intros; apply Hin; by right|].
  exists (ws :: wss). cbn [each concat]. rewrite Hws. cbn [obind]. rewrite Hwss. split; [done|].
  eapply lines_app; [|exact Hl|exact Hls]. intros b x y. setoid_rewrite elem_of_cons. naive_solver.
Qed.

(** The lines of all batches. *)
Definition all_lines (b x y : N) : Prop := b < volume dims.

Lemma grid_writes :
  (∀ x y b, x < m → y < n → b < volume dims → ∃ t blocks blk, in_grid X Y W t ∧ blocks_of t = Ret (Some blocks) ∧ blk ∈ blocks ∧
    covers sm sn blk (x, y, b)) →
  ∃ wss, each run_cube (grid_cubes X Y W) = Ret wss ∧ lines_of all_lines (concat wss).
Proof using K Z T Hpad Hplanes Htotal Hblocks Hscheds.
  intros Hcover. destruct (cubes_execute_ok (grid_cubes X Y W)) as (wss & Hwss & Hl); [intros t; apply elem_of_grid|].
  exists wss. split; [done|]. eapply lines_ext; [|exact Hl]. intros b x y Hx Hy. unfold all_lines. split.
  - intros (t & Ht & blocks & Hr & [[mo no] b'] & Hin & _ & _ & ->). apply elem_of_grid in Ht.
    by destruct (Hblocks t blocks Ht Hr _ _ _ Hin) as (_ & _ & ? & _).
  - intros Hb. destruct (Hcover x y b Hx Hy Hb) as (t & blocks & blk & Ht & Hr & Hin & Hc).
    exists t. split; [by apply elem_of_grid|]. exists blocks. split; [done|]. by exists blk.
Qed.
End Cubes.

(** ** The output *)

Section Output.
Context {MP : MatmulPrecision}.
Context (config : SimpleConfig) (m n k : N) (dims : list N) (lhs rhs : Operand) (out : Tensor EO).
Context (T : tensors_ok config dims lhs rhs out m n k) (q : option Quantization).
Context (Hline : 0 < side_line config IdentOut) (Hm : 0 < m) (Hn : 0 < n).
Abbreviation line := (side_line config IdentOut).

(** The tensor of the sums of products. *)
Definition product_tensor : list EO :=
  tabulate (volume dims * (m * n)) (λ e, eo_of_ea (product_value k dims lhs rhs q (e / (m * n)) (e mod (m * n) / n) (e mod n))).

(** The position of an element. *)
Lemma element_at b x y : x < m → y < n →
  (b * (m * n) + x * n + y) / (m * n) = b ∧ (b * (m * n) + x * n + y) mod (m * n) / n = x ∧ (b * (m * n) + x * n + y) mod n = y.
Proof using.
  clear Hline Hm Hn T. intros Hx Hy. pose proof (radix_lt n m x y Hx Hy) as Hlt. rewrite <- N.add_assoc.
  destruct (radix_div_mod (m * n) b (x * n + y) Hlt) as [-> ->]. destruct (radix_div_mod n x y Hy) as [-> _]. split_and!; [done|done|].
  replace (b * (m * n) + (x * n + y)) with ((b * m + x) * n + y) by lia. by destruct (radix_div_mod n (b * m + x) y Hy) as [_ ->].
Qed.

Lemma product_tensor_at b x y :
  b < volume dims → x < m → y < n →
  product_tensor !! N.to_nat (b * (m * n) + x * n + y) = Some (eo_of_ea (product_value k dims lhs rhs q b x y)).
Proof using.
  clear Hline Hm Hn T. intros Hb Hx Hy. pose proof (radix_lt n m x y Hx Hy). pose proof (radix_lt (m * n) (volume dims) b (x * n + y) Hb) as Hlt.
  unfold product_tensor. rewrite tabulate_lookup by lia. by destruct (element_at b x y Hx Hy) as (-> & -> & ->).
Qed.

(** Writing all lines, in any order. *)
Lemma lines_fill ws ws' :
  lines_of config m n k dims lhs rhs q (all_lines dims) ws → ws' ≡ₚ ws → apply_writes line (t_data out) ws' = Ret product_tensor.
Proof using T Hline Hm Hn.
  intros [Hws Hcov] Hperm. pose proof (tn_len _ _ _ _ _ _ _ _ T) as Hlen. pose proof (tn_line _ _ _ _ _ _ _ _ T) as Hd.
  assert (∀ b x y, (line | y) → (b * (m * n) + x * n + y) / line * line = b * (m * n) + x * n + y) as Hdiv.
  { intros b x y Hy. assert ((line | b * (m * n) + x * n + y)) as [c ->]; [|by rewrite N.div_mul by lia].
    apply N.divide_add_r; [|done]. apply N.divide_add_r; apply N.divide_mul_r; [by apply N.divide_mul_r|done]. }
  assert (∀ v, v ∈ ws' → ∃ b x y, b < volume dims ∧ (line | y) ∧ x < m ∧ y + line ≤ n ∧ v = out_line config m n k dims lhs rhs q b x y) as Hws'.
  { intros v Hv. rewrite Hperm in Hv. destruct (Hws v Hv) as (b & x & y & Hb & Hy & Hx & Hyn & ->). exists b, x, y. split_and!; try done.
    pose proof (proj2 (aligned_lt line y (line - 1) n Hy Hd ltac:(lia)) Hyn). lia. }
  assert (∀ b x y, b < volume dims → x < m → y < n → b * (m * n) + x * n + y + 1 ≤ volume dims * (m * n)) as Hin.
  { intros b x y Hb Hx Hy. pose proof (radix_lt n m x y Hx Hy) as H1. pose proof (radix_lt (m * n) (volume dims) b _ Hb H1). lia. }
  assert (Forall (λ v, (v.1 + 1) * line ≤ N.of_nat (length (t_data out))) ws') as Hb.
  { apply Forall_forall. intros v Hv. destruct (Hws' v Hv) as (b & x & y & Hb & Hy & Hx & Hyn & ->). cbn [out_line fst].
    rewrite N.mul_add_distr_r, Hdiv, Hlen by done. pose proof (Hin b x (y + (line - 1)) Hb Hx ltac:(lia)). lia. }
  destruct (apply_writes_runs line ws' (t_data out) Hb) as (r & Hrun & Hr). rewrite Hrun. f_equal.
  assert (length product_tensor = length r) as Hl2 by (rewrite Hr; unfold product_tensor; rewrite tabulate_length; lia).
  apply list_eq_same_length with (length r); [done|done|]. intros i v1 v2 Hi H1 H2.
  assert (N.of_nat i < volume dims * (m * n)) as Hi' by lia.
  assert (∃ b x y, N.of_nat i = b * (m * n) + x * n + y ∧ b < volume dims ∧ x < m ∧ y < n) as (b & x & y & Ei & Hb' & Hx & Hy).
  { assert (0 < m * n) as Hmn by (by apply N.mul_pos_pos). destruct (div_mod_ex (N.of_nat i) (m * n) Hmn) as (b & e & _ & _ & E & He).
    destruct (div_mod_ex e n Hn) as (x & y & _ & _ & E2 & Hy). exists b, x, y. split_and!; [lia| | |done].
    - apply (N.mul_lt_mono_pos_r (m * n)); lia.
    - apply (N.mul_lt_mono_pos_r n); lia. }
  rewrite <- (Nat2N.id i), Ei, (product_tensor_at b x y Hb' Hx Hy) in H2. injection H2 as <-.
  destruct (apply_writes_keep line (N.of_nat i) (eo_of_ea (product_value k dims lhs rhs q b x y)) ws' (t_data out)) as (r' & Hr' & _ & Hset & _); [|done|].
  - apply Forall_forall. intros v Hv. destruct (Hws' v Hv) as (b' & x' & y' & Hb2 & Hy' & Hx' & Hyn' & ->). unfold sets_element. cbn [out_line fst snd]. rewrite Hdiv by done.
    split; [apply tabulate_length|]. intros He.
    set (p := N.of_nat i - (b' * (m * n) + x' * n + y')). assert (p < line) as Hp by (unfold p; lia). rewrite tabulate_lookup by done.
    assert (N.of_nat i = b' * (m * n) + x' * n + (y' + p)) as Ei' by (unfold p; lia). rewrite Ei in Ei'.
    destruct (element_at b x y Hx Hy) as (A1 & A2 & A3). destruct (element_at b' x' (y' + p) Hx' ltac:(lia)) as (B1 & B2 & B3).
    rewrite Ei' in A1, A2, A3. rewrite A1 in B1. rewrite A2 in B2. rewrite A3 in B3. by rewrite <- B1, <- B2, B3.
  - rewrite Hrun in Hr'. injection Hr' as <-. rewrite <- (Nat2N.id i), Hset in H1; [by injection H1|]. right.
    destruct (div_mod_ex y line Hline) as (c & p & _ & _ & Ey & Hp). assert ((line | c * line)) as Hd' by (by exists c).
    exists (out_line config m n k dims lhs rhs q b x (c * line)). split; [rewrite Hperm; apply Hcov; [done|done|done|lia]|].
    cbn [out_line fst]. rewrite Hdiv by done. lia.
Qed.
End Output.

(** ** From a request to the output *)

(** A problem and a selection whose hypercube selection was built from its
    tiling scheme.  The spans of the cubes divide the dimensions that the stages
    divide, because a dimension that the stages divide is not checked. *)
Record request_ok (client : ClientProperties) (bld : HypercubeSelectionBuilder) (problem : MatmulProblem)
    (selection : MatmulSelection) (nb : N) : Prop := {
  rq_selection : selection_ok client selection;
  rq_build : HypercubeSelection_build bld = Ret (ms_hypercube_selection selection);
  rq_scheme : hsb_tiling_scheme bld = ms_tiling_scheme selection;
  rq_batches : num_batches problem = Ret nb;
  rq_pos : 0 < prob_m problem ∧ 0 < prob_n problem ∧ 0 < prob_k problem ∧ 0 < nb;
  rq_fits : let span := hs_cube_span (ms_hypercube_selection selection) in
    prob_m problem + span_m span ≤ two32 ∧ prob_n problem + span_n span ≤ two32 ∧ nb + span_batch span ≤ two32 ∧
    prob_k problem + elems selection DimK < two32;
  rq_whole : let span := hs_cube_span (ms_hypercube_selection selection) in
    (prob_m problem mod elems selection DimM ≠ 0 ∨ prob_m problem mod span_m span = 0) ∧
    (prob_n problem mod elems selection DimN ≠ 0 ∨ prob_n problem mod span_n span = 0) ∧
    nb mod span_batch span = 0;
}.

(** The offset of a stage of a cube. *)
Lemma offset_inside size len gp c o :
  0 < len * gp → 0 < size → size + len * gp ≤ two32 → c = ceil_div (as_u32 size) (len * gp) →
  o / (len * gp) < c → o = o / len * len → size mod len ≠ 0 ∨ size mod (len * gp) = 0 →
  (len | o) ∧ o + len < two32 ∧ (negb (size mod len =? 0) = true ∨ o < size).
Proof.
  intros Hp Hs Hfit -> Ho Eo Hwhole. rewrite as_u32_small in Ho by lia.
  assert (0 < len) as Hl by nia. split; [by exists (o / len)|].
  destruct (ceil_div_spec size (len * gp) Hp) as [C1 C2]. set (c := ceil_div size (len * gp)) in *.
  destruct (div_mod_ex o (len * gp) Hp) as (i & r & Ei & _ & E & Hr). rewrite Ei in Ho.
  assert (o + len ≤ (i + 1) * (len * gp)) as Hend.
  { rewrite Eo in E |- *. set (j := o / len) in *. assert (j < (i + 1) * gp) as Hj by (apply (N.mul_lt_mono_pos_r len); lia).
    assert ((j + 1) * len ≤ (i + 1) * gp * len) by (apply N.mul_le_mono_r; lia). lia. }
  assert ((i + 1) * (len * gp) ≤ c * (len * gp)) as Hc by (apply N.mul_le_mono_r; lia). split; [lia|].
  destruct (N.eqb_spec (size mod len) 0) as [Hm|]; [|by left]. right. destruct Hwhole as [|Hw]; [done|].
  apply N.Div0.div_exact in Hw. set (d := size / (len * gp)) in *. rewrite Hw in C2 |- *.
  assert (c ≤ d) by nia. assert (c * (len * gp) ≤ d * (len * gp)) by (by apply N.mul_le_mono_r). lia.
Qed.

Section Request.
Context {MP : MatmulPrecision} {UN : Uninit}.
Context (macos : bool) (client : ClientProperties) (max_cubes : CubeCount) (LL RL : SyncFullLoading) (problem : MatmulProblem).
Context (selection : MatmulSelection) (line_sizes : MatmulLineSizes) (bld : HypercubeSelectionBuilder) (nb : N).
Context (R : request_ok client bld problem selection nb) (bc : PartitionedBatchConfig).
Context (Hsetup : PartitionedBatchMatmul_setup macos client max_cubes LL RL problem selection line_sizes = Ret (inl bc)).
Context (HLL : loading_order_ok LL) (HRL : loading_order_ok RL).
Abbreviation config := (pb_global_config bc).
Abbreviation scheme := (ms_tiling_scheme selection).
Abbreviation span := (hs_cube_span (ms_hypercube_selection selection)).

Lemma batch_setup_inv :
  (∃ planes al bl lenl ar br lenr, config = the_config problem selection line_sizes planes ∧ cube_ok config LL RL al bl lenl ar br lenr) ∧
  to_hypercube_config (ms_hypercube_selection selection) problem max_cubes = Ret (pb_hypercube_config bc) ∧
  HypercubeConfig_validate (pb_hypercube_config bc) problem = Ret (inl tt).
Proof using R Hsetup HLL HRL.
  unfold PartitionedBatchMatmul_setup in Hsetup. apply ok_bind_inl in Hsetup as (c & Hc & H).
  apply obind_ret in H as (h & Hh & H). unfold PartitionedBatchConfig_validate in H. apply ok_bind_inl in H as ([] & Hv & [= <-]).
  cbn [pb_global_config pb_hypercube_config] in *. split; [|done].
  by apply (setup_cube_ok macos client LL RL problem selection line_sizes (rq_selection _ _ _ _ _ R)).
Qed.

(** The cubes along each dimension. *)
Lemma request_cubes :
  ∃ m n b, cubes_of span problem = Ret (m, n, b) ∧ 0 < span_m span ∧ 0 < span_n span ∧ 0 < span_batch span ∧
    m = ceil_div (as_u32 (prob_m problem)) (span_m span) ∧ n = ceil_div (as_u32 (prob_n problem)) (span_n span) ∧
    b = ceil_div (as_u32 nb) (span_batch span).
Proof using R Hsetup HLL HRL.
  destruct batch_setup_inv as (_ & Hcfg & _). destruct (to_config_cubes _ _ _ _ Hcfg) as (m & n & b & Hcubes).
  destruct (cubes_of_ret _ _ _ _ _ Hcubes) as (nb' & Hnb & H). rewrite (rq_batches _ _ _ _ _ R) in Hnb. injection Hnb as <-.
  by exists m, n, b.
Qed.

Lemma config_sizes planes :
  config = the_config problem selection line_sizes planes → sizes_ok config (prob_m problem) (prob_n problem) (prob_k problem).
Proof using R Hsetup HLL HRL.
  intros E. destruct (rq_pos _ _ _ _ _ R) as (P1 & P2 & P3 & _). destruct (rq_fits _ _ _ _ _ R) as (F1 & F2 & _ & F4).
  destruct request_cubes as (m & n & b & _ & S1 & S2 & _).
  rewrite E. split; cbn [the_config sc_check_m_bounds sc_check_n_bounds sc_check_k_bounds].
  - by rewrite as_u32_small by lia.
  - by rewrite as_u32_small by lia.
  - by rewrite as_u32_small by lia.
  - done.
  - exact F4.
Qed.

(** The blocks of every cube of the grid. *)
Lemma request_blocks o planes dims :
  config = the_config problem selection line_sizes planes → volume dims = nb →
  let ts := uc_tiling_scheme (sc_stage_config config) in
  ∃ plan X Y Z, cube_count_plan (pb_hypercube_config bc) problem max_cubes = Ret plan ∧ resolve plan = Ret (CountStatic X Y Z) ∧
    (∀ t, in_grid X Y Z t → ∃ r, matmul o ts (pb_hypercube_config bc) (as_args plan) t = Ret r) ∧
    (∀ t blocks, in_grid X Y Z t → matmul o ts (pb_hypercube_config bc) (as_args plan) t = Ret (Some blocks) →
       blocks_ok bc (prob_m problem) (prob_n problem) dims blocks) ∧
    (∀ x y b, x < prob_m problem → y < prob_n problem → b < volume dims → ∃ t blocks blk, in_grid X Y Z t ∧
       matmul o ts (pb_hypercube_config bc) (as_args plan) t = Ret (Some blocks) ∧ blk ∈ blocks ∧
       covers (stage_len_of config DimM) (stage_len_of config DimN) blk (x, y, b)).
Proof using R Hsetup HLL HRL.
  intros E Hvol ts. destruct batch_setup_inv as (_ & Hcfg & Hval). destruct request_cubes as (m0 & n0 & b0 & Hcubes & S1 & S2 & S3 & Em & En & Eb).
  destruct (rq_pos _ _ _ _ _ R) as (P1 & P2 & _ & P4). destruct (rq_fits _ _ _ _ _ R) as (F1 & F2 & F3 & _).
  destruct (rq_whole _ _ _ _ _ R) as (W1 & W2 & W3). destruct (build_span _ _ (rq_build _ _ _ _ _ R)) as (Hpm & Hpn & Hgb).
  destruct (split_dim _ _ _ S1 P1 F1 Em) as (m_pos & Rm & Bm). destruct (split_dim _ _ _ S2 P2 F2 En) as (n_pos & Rn & Bn).
  destruct (split_dim _ _ _ S3 P4 F3 Eb) as (b_pos & Rb & Bb).
  destruct (plan_visits_once _ _ _ _ _ _ _ Hcfg Hval Hcubes m_pos n_pos b_pos) as (plan & X & Y & Z & Hplan & Hres & Hv).
  assert (ts = hsb_tiling_scheme bld) as Ets by (unfold ts; rewrite E; by rewrite (rq_scheme _ _ _ _ _ R)).
  destruct (partition_is_stages _ DimM _ _ eq_refl Hpm) as (sm & Hsm & Esm). destruct (partition_is_stages _ DimN _ _ eq_refl Hpn) as (sn & Hsn & Esn).
  assert (sm = elems selection DimM ∧ sn = elems selection DimN) as [Lm Ln].
  { rewrite (rq_scheme _ _ _ _ _ R) in Hsm, Hsn. rewrite (elements_in_stage_dim client selection (rq_selection _ _ _ _ _ R)) in Hsm, Hsn.
    split; congruence. }
  assert (stage_len_of config DimM = elems selection DimM ∧ stage_len_of config DimN = elems selection DimN) as [Cm Cn] by (by rewrite E).
  rewrite <- Ets in *. rewrite Esm in Hpm, S1, Rm, Bm, F1, Em, W1. rewrite Esn in Hpn, S2, Rn, Bn, F2, En, W2.
  exists plan, X, Y, Z. split_and!; [done|done| | |].
  - intros t Ht. by eapply launch_total.
  - intros t blocks Ht Hm mo no b Hin. pose proof (matmul_some_active _ _ _ _ _ _ Hm) as Hs.
    destruct (active_cube o ts _ plan X Y Z m0 n0 b0 sm sn _ _ _ Hv Hsm Hsn Hpm Hpn Hgb S1 S2 S3 Bm Bn Bb t Ht Hs)
      as (i & j & l & blocks' & _ & (Hi & Hj & Hl) & Hm' & _ & Hcov).
    rewrite Hm in Hm'. injection Hm' as <-.
    assert (0 < sm ∧ 0 < sn) as [Psm Psn] by (split; nia).
    destruct (proj1 (Hcov (mo, no, b) mo no b)) as [Hpos Hblk]; [split; [done|]; split_and!; lia|].
    injection Hpos as Q1 Q2 Q3. injection Hblk as O1 O2.
    rewrite Cm, Cn, E. cbn [the_config sc_check_m_bounds sc_check_n_bounds]. rewrite <- Lm, <- Ln in *. rewrite !as_u32_small by lia.
    destruct (offset_inside (prob_m problem) sm _ m0 mo S1 P1 F1 Em) as (D1 & D2 & D3); [by rewrite Q1|exact O1|exact W1|].
    destruct (offset_inside (prob_n problem) sn _ n0 no S2 P2 F2 En) as (D4 & D5 & D6); [by rewrite Q2|exact O2|exact W2|].
    split_and!; try done. rewrite Hvol. rewrite as_u32_small in Eb by lia. destruct (ceil_div_spec nb (span_batch span) S3) as [_ C2].
    rewrite <- Eb in C2. apply N.Div0.div_exact in W3. set (d := nb / span_batch span) in *.
    assert (b0 ≤ d) by nia. assert (b / span_batch span < d) as Hbd by lia.
    destruct (div_mod_ex b (span_batch span) S3) as (bq & br' & Ebq & _ & Eb' & Hbr). rewrite Ebq in Hbd.
    assert ((bq + 1) * span_batch span ≤ d * span_batch span) by (apply N.mul_le_mono_r; lia). lia.
  - intros x y b Hx Hy Hb. rewrite Cm, Cn, <- Lm, <- Ln.
    destruct (launch_computes_once o ts (pb_hypercube_config bc) plan X Y Z m0 n0 b0 sm sn _ _ _ Hv Hsm Hsn Hpm Hpn Hgb S1 S2 S3 Bm Bn Bb x y b)
      as (t & blocks & blk & Ht & Hm & _ & Hin & Hc & _); [split_and!; [by apply Rm|by apply Rn|apply Rb; by rewrite <- Hvol]|].
    by exists t, blocks, blk.
Qed.
End Request.


(** ** A concrete launch *)

Module LaunchDemo.
#[local] Existing Instance LoadDemo.demo_precision.
#[local] Instance demo_uninit : Uninit := {| uninit_es := (-1)%Z : ES; uninit_ea := (-1)%Z : EA; uninit_eo := (-1)%Z : EO |}.

(** Two products of 7x6 by 6x6 matrices; the second input has one matrix. *)
Definition problem : MatmulProblem :=
  {| prob_m := 7; prob_n := 6; prob_k := 6; prob_lhs_batches := [2]; prob_rhs_batches := [1];
     prob_lhs_layout := LayoutRowMajor; prob_rhs_layout := LayoutColMajor |}.
(** Tiles of 2x2x2, two along n and k in a partition, four partitions along m. *)
Definition scheme : TilingScheme :=
  {| tile_size := {| size_m := 2; size_n := 2; size_k := 2 |};
     partition_size := {| size_m := 1; size_n := 2; size_k := 2 |};
     stage_size := {| size_m := 4; size_n := 1; size_k := 1 |};
     global_partition_size := GlobalPartitionSize_new 1 1 1 |}.
Definition builder : HypercubeSelectionBuilder := HypercubeSelection_builder scheme.
Definition hypercube : HypercubeSelection :=
  {| hs_cube_span := {| span_m := 8; span_n := 4; span_batch := 1 |}; hs_global_order := RowMajor; hs_plan_selection := SelFromProblem |}.
Definition selection : MatmulSelection :=
  {| ms_plane_dim := 4; ms_tiling_scheme := scheme; ms_quantized := false; ms_partition_buffering := DoubleBuffering;
     ms_loading_precompute_strategy := PrecomputeAlways; ms_loader_mode := Relaxed;
     ms_load_specialization_config := {| lsc_lhs := MainFlowOnly; lsc_rhs := MainFlowOnly |}; ms_hypercube_selection := hypercube |}.
Definition client : ClientProperties :=
  {| cp_types_supported := true; cp_es_size := 4; cp_eo_size := 4; cp_max_shared_memory_size := 32768 |}.
Definition limits : CubeCount := CountStatic 65535 65535 65535.
Definition line_sizes : MatmulLineSizes := {| mls_lhs := 2; mls_rhs := 2; mls_out := 1 |}.
Definition LL : SyncFullLoading := SyncFullCyclic RowMajorTilingOrder.
Definition RL : SyncFullLoading := SyncFullStrided.
Definition config : PartitionedBatchConfig :=
  {| pb_global_config := the_config problem selection line_sizes 1;
     pb_hypercube_config := {| hc_cube_span := hs_cube_span hypercube; hc_global_order := RowMajor; hc_plan_config := CfgFromProblem |} |}.

Definition lhs : Operand := mkOperand (mkTensor (Z.of_nat <$> seq 0 84) 2 [2; 7; 6] [42; 6; 1]) [2] [42] 7 6 6 1.
Definition rhs : Operand := mkOperand (mkTensor (Z.of_nat <$> seq 100 36) 2 [1; 6; 6] [36; 1; 6]) [1] [36] 6 6 1 6.
Definition out : Tensor EO := mkTensor (replicate 84 (-1)%Z : list EO) 1 [2; 7; 6] [42; 6; 1].
Definition quant : Quantization := mkQuantization (1%Z : ES) (1%Z : ES).
(** The writes to the left stage are made in reverse. *)
Definition sched (_ : Topology) (_ : N) : Schedule :=
  {| order_lhs := λ _ ws, rev ws; order_rhs := λ _ ws, ws |}.

Lemma request : request_ok client builder problem selection 2.
Proof.
  split.
  - split; [|intros []; vm_compute; split_and!; reflexivity|done|done|vm_compute; discriminate].
    split_and!; intros []; vm_compute; discriminate.
  - vm_compute. reflexivity.
  - done.
  - vm_compute. reflexivity.
  - done.
  - cbn zeta. split_and!; vm_compute; discriminate || reflexivity.
  - cbn zeta. split_and!; [left; vm_compute; discriminate|left; vm_compute; discriminate|vm_compute; reflexivity].
Qed.

Lemma tensors : tensors_ok (pb_global_config config) [2] lhs rhs out 7 6 6.
Proof.
  split; [| |done| |by exists 6|by vm_compute|by vm_compute].
  - split; [by split|by repeat constructor; lia|done|by split_and!; [done|exists 3|exists 3]|repeat constructor; by exists 21|done| |by vm_compute].
    intros b x y Hb Hx Hy. change (b < 2) in Hb. change (x < 7) in Hx. change (y < 6) in Hy.
    change (x * 6 + y * 1 + op_offset [2] lhs b < 84). assert (op_offset [2] lhs b = b * 42) as ->; [|lia].
    unfold op_offset. cbn [lhs op_batch_shape op_batch_strides broadcast_offset]. change (volume []) with 1. rewrite N.div_1_r. cbn. lia.
  - split; [by split|by repeat constructor; lia|done|by split_and!; [done|exists 3|exists 3]|repeat constructor; by exists 18|done| |by vm_compute].
    intros b x y Hb Hx Hy. change (x < 6) in Hx. change (y < 6) in Hy.
    change (x * 1 + y * 6 + op_offset [2] rhs b < 36). assert (op_offset [2] rhs b = 0) as ->; [|lia]. done.
  - by split.
Qed.


(** The product, computed by running the cubes. *)
Example launch_runs :
  (let? plan := cube_count_plan (pb_hypercube_config config) problem limits in
   let? wss := each (λ t, cube_execute config LL RL (op_tensor lhs) (op_tensor rhs) out quant PartitionRowMajor (as_args plan) t (sched t))
     (grid_cubes 1 2 2) in
   apply_writes 1 (t_data out) (concat wss)) = Ret (product_tensor 7 6 6 [2] lhs rhs None) ∧
  take 6 (product_tensor 7 6 6 [2] lhs rhs None) = [1555; 1645; 1735; 1825; 1915; 2005]%Z.
Proof. split; vm_compute; reflexivity. Qed.
End LaunchDemo.
